(* ===== verification/_CoqProject ===== *)
-Q . S2P
Prelude.v
OrdMap.v
Bitmap.v
IdAlloc.v
Buddy.v
Trie.v
Rand.v
BitFields.v
Abi.v
FrameAlloc.v
PageTable.v
SpaceClone.v
SpaceManager.v
MemoryMap.v
MapTable.v
MapTheory.v
MapOps.v
MapCalls.v
UserMemory.v
Fork.v
Paths.v
Harts.v
Locks.v
Once.v
Slub.v
SlubCache.v
Heap.v
Bytes.v
ByteMem.v
Disk.v
Minix.v
MinixDisk.v
MinixZones.v
MinixFile.v
MinixDir.v
MinixTree.v
MinixDirOps.v
MinixLink.v
MinixGrow.v
MinixOpen.v
MinixNew.v
Devices.v
Virtio.v
VirtioBlk.v
Vfs.v
DevFs.v
MinixVfs.v
Tasks.v
Processes.v
Clone.v
InitStack.v
Elf.v
LoadElf.v
Exec.v
Binfmt.v
UserAccess.v
Syscall.v
