(* ===== verification/Prelude.v ===== *)
(** * Athera: a verification library for the kernel

    Athera is a RISC-V kernel in Rust ([src/src/]) with a few crates of its own
    ([src/crates/]). This library is a shallow embedding of it: a Rust function
    is a function here with the name it has there ([Type_method] for
    [Type::method]), a struct is a [Record], an enum an [Inductive] type, and
    global or shared state is passed explicitly. Machine integers are [Z]; an
    overflow, an index out of range, a failed [unwrap] and an access to memory
    that does not exist are the outcome [Panic]. A [Result] is a [result].

    ** The program and the files

    The physical memory is a map of words. On it work, each on top of the ones
    before:
    - the buddy allocator with its intrusive lists ([Buddy]; the promise to its
      clients is the class of [FrameAlloc]), and the heap of the kernel, SLUB
      caches and the global allocator ([Slub], [SlubCache], [Heap]);
    - Sv39 page tables and address spaces: [BitFields] has the entries and
      addresses, [PageTable] the tables, [SpaceClone] their copies,
      [SpaceManager] the manager of all address spaces;
    - the user mappings of a task, [mmap], [munmap] and [mremap]: [MemoryMap] has
      the operations, [MapTable], [MapTheory], [MapOps], [MapCalls] and
      [UserMemory] the theory;
    - the copy of a task's memory for a child ([Fork]).

    On block devices and files:
    - [Bytes], [ByteMem] (bytes in byte strings and in the memory) and [Disk]
      (programs on a block device);
    - [Devices] (the device manager), [Virtio] and [VirtioBlk] (transport and
      driver of a disk);
    - the MINIX file system: [Minix] (inodes, zones, bitmaps), [MinixDisk],
      [MinixZones], [MinixFile] (reading and writing), [MinixDir], [MinixTree],
      [MinixDirOps], [MinixLink], [MinixGrow] (directories), [MinixOpen]
      (paths), [MinixNew] (a new file);
    - [Paths], [Vfs] (open files, mount table), [DevFs], [MinixVfs].

    Tasks and programs:
    - [Tasks] (table, scheduler, file descriptors), [Processes] (their life as a
      step relation), [Clone] (tasks, task IDs and memory together);
    - [InitStack] (the stack of a new program), [Elf], [LoadElf] (a program in
      memory), [Exec] (starting and replacing programs), [Binfmt] (the formats
      of executable files and scripts);
    - [UserAccess] (what the kernel reads and writes in a task's memory) and
      [Syscall] (every system call, and the handler of all traps).

    Libraries of the kernel: [OrdMap] ([BTreeMap]), [Bitmap], [IdAlloc], [Trie],
    [Rand] (crates), [Abi] (numbers of the system call interface), and the locks
    on a machine with several harts: [Harts], [Locks], [Once]. The present file
    has the outcomes, the integers of fixed width and the lemmas and tactics all
    files share.

    ** The theorems

    - The whole kernel ([Syscall]): over any sequence of traps whose system calls
      obey [call_ok], the kernel does not panic and its invariant [kernel_ok]
      ([Clone]) is kept: the process tree, the task IDs, one page table per task
      that agrees with its table of mappings, frames with one owner. For [read],
      [write], [mmap], [munmap], [mremap], [clone], [wait4] and [execve] a
      theorem says what the caller sees after the call, down to the bytes and
      the permissions of its pages, and that no other memory changed.
    - Programs: the loader places the segments and the stack as the file says;
      arguments written by the loader are read back by the kernel; headers,
      interpreter lines and the registry of formats.
    - Tasks: round robin is fair; the process tree; tasks that wait or have
      exited never run again.
    - Memory: the allocators hand out disjoint blocks and lose none but where
      stated; the address space manager refines a map from addresses to pages.
    - Files: reading, writing, creating, linking and removing files on a MINIX
      disk against the contents of the disk; path resolution; the mount table;
      the virtio driver as a block device.
    - Data structures: refinement of an abstract set, map or allocator by every
      sequence of calls.
    - Concurrency: mutual exclusion, termination and one-time initialisation
      over every interleaving of the atomic accesses.

    ** Bounds and fuel

    Loops that are not structural take a fuel and give [Panic] when it runs out,
    so a theorem that excludes [Panic] shows that the fuel is enough; the fuel of
    a loop is what its guard allows (the words of a bitmap, the orders of the
    buddy allocator, the words of the memory for a free list, the bytes of a
    request, the limit on symbolic links). Two loops of the code have no bound of
    their own: scripts that name scripts as interpreters, and the arrays of
    pointers of [execve]. Their fuel is a parameter of the theorems, with a
    hypothesis that relates it to the depth or the length; [route_cycle] in
    [Binfmt] shows that no fuel is enough for a cycle of scripts. The examples
    run on memories of four and eight pages.

    ** Assumptions

    The drivers that are not modelled are records of operations, and a theorem
    that needs one to behave says how ([reads_ok], [writes_ok] in [Syscall], the
    device of [VirtioBlk], the interface of [Disk]). The mmap family is stated for
    lengths the buddy allocator serves without rounding ([exact]): for others the
    code maps more than was asked for. The loader's theorems take files that
    satisfy [image_ok]; [call_ok] collects what a task must respect, since the
    checks of user pointers are incomplete.

    ** Not modelled

    - Assembly and control registers: boot, trap entry, [restore_context], the
      timer comparator, [satp] and [sstatus] (where the code reads [sstatus] it
      is an argument). [main], and the order of the calls at boot.
    - The drivers of the serial port, the entropy device, the frame buffer and
      the firmware configuration: sequences of register accesses.
    - The parsing of the device tree (a crate outside of the repository), and
      firmware calls other than the requests that [reboot] and the trap handler
      make, which are values of type [Power].
    - Logging, formatting and [Display] or [Debug] output; the global random
      number generator, a lock around [Rand] seeded by a device.
    - The master boot record ([fs/mbr.rs]), which nothing reads, the userland
      programs, and the procedural macros: their expansions are modelled where
      they are used.
    - What the kernel does on several harts beyond the locks: the task table is
      that of one hart, as in the code's configuration. *)

From Stdlib Require Export ZArith Lia Bool.
From stdpp Require Export prelude.

#[global] Open Scope Z_scope.
#[export] Set Warnings "-clear-no-such-hyp,-register-all".

(** [lia] also reasons on divisions and remainders by constants. *)
Ltac Zify.zify_convert_to_euclidean_division_equations_flag ::= constr:(true).

(** ** Panics

    A Rust function that may panic (slice indexing, [assert!], [expect],
    [unwrap], arithmetic overflow under overflow checks) returns an [outcome].
    [Panic] also stands for "the loop ran out of the fuel of the model", so a
    theorem that excludes [Panic] shows both absence of panics and
    termination. *)

Inductive outcome (A : Type) : Type :=
| Ret (a : A)
| Panic.
Arguments Ret {A} _.
Arguments Panic {A}.

#[export] Instance outcome_ret : MRet outcome := fun A a => Ret a.
#[export] Instance outcome_bind : MBind outcome :=
  fun A B k m => match m with Ret a => k a | Panic => Panic end.

#[export] Instance outcome_fmap : FMap outcome :=
  fun A B g m => match m with Ret a => Ret (g a) | Panic => Panic end.

(** ** Fallible results: Rust's [Result<A, E>] *)

Inductive result (E A : Type) : Type :=
| Ok (a : A)
| Err (e : E).
Arguments Ok {E A} _.
Arguments Err {E A} _.

#[export] Instance result_ret {E} : MRet (result E) := fun A a => Ok a.
#[export] Instance result_bind {E} : MBind (result E) :=
  fun A B k m => match m with Ok a => k a | Err e => Err e end.

#[export] Instance result_fmap {E} : FMap (result E) :=
  fun A B g m => match m with Ok a => Ok (g a) | Err e => Err e end.

(** [Option::ok_or] and [Option::expect]/[unwrap]. *)
Definition ok_or {E A} (o : option A) (e : E) : result E A :=
  match o with Some a => Ok a | None => Err e end.

Definition expect {A} (o : option A) : outcome A :=
  match o with Some a => Ret a | None => Panic end.

Lemma outcome_bind_Ret {A B} (a : A) (k : A -> outcome B) :
  (Ret a ≫= k) = k a.
Proof. reflexivity. Qed.

Lemma outcome_bind_inv {A B} (m : outcome A) (k : A -> outcome B) b :
  (m ≫= k) = Ret b -> exists a, m = Ret a /\ k a = Ret b.
Proof. destruct m; simpl; [eauto | discriminate]. Qed.

(** ** Machine words *)

Declare Scope athera_scope.
Delimit Scope athera_scope with athera.

(** [fits w x]: [x] is a value of an unsigned [w]-bit integer type. *)
Definition fits (w x : Z) : Prop := 0 <= x < 2 ^ w.

(** [!x] on an unsigned [w]-bit integer. *)
Definition wnot (w x : Z) : Z := Z.land (Z.lnot x) (Z.ones w).

(** Wrapping conversion to [w] bits ([as u32], [wrapping_add], ...). *)
Definition wrap (w x : Z) : Z := x mod 2 ^ w.

Notation "x ∈u w" := (fits w x) (at level 70) : athera_scope.
#[global] Open Scope athera_scope.

(** [usize] subtraction and addition with overflow checks. *)
Definition usize_sub (a b : Z) : outcome Z :=
  if b <=? a then Ret (a - b) else Panic.
Definition usize_add (a b : Z) : outcome Z :=
  if a + b <? 2 ^ 64 then Ret (a + b) else Panic.

(** [usize::div_ceil]. *)
Definition div_ceil (a b : Z) : Z :=
  if a mod b =? 0 then a / b else a / b + 1.

(** [usize::saturating_sub]. *)
Definition saturating_sub (a b : Z) : Z := Z.max 0 (a - b).

(** [checked_add] on [usize]. *)
Definition checked_add (a b : Z) : option Z :=
  if a + b <? 2 ^ 64 then Some (a + b) else None.

(** [usize::trailing_zeros] and [usize::count_ones] on [w]-bit words, bit by
    bit. *)
Fixpoint ctz_from (fuel : nat) (i w : Z) : Z :=
  match fuel with
  | O => i
  | S f => if Z.testbit w i then i else ctz_from f (i + 1) w
  end.
Definition trailing_zeros (w : Z) : Z := ctz_from 64 0 w.

Fixpoint ones_from (fuel : nat) (i w : Z) : Z :=
  match fuel with
  | O => 0
  | S f => (if Z.testbit w i then 1 else 0) + ones_from f (i + 1) w
  end.
Definition count_ones (w : Z) : Z := ones_from 64 0 w.

(** ** Bytes

    [from_le_bytes], [from_be_bytes] and [to_le_bytes] of the unsigned integer
    types, on lists of bytes, and [slice::chunks]. *)
Fixpoint from_le_bytes (bs : list Z) : Z :=
  match bs with
  | [] => 0
  | b :: bs => b + 256 * from_le_bytes bs
  end.

Definition from_be_bytes (bs : list Z) : Z := from_le_bytes (rev bs).

Fixpoint to_le_bytes (n : nat) (x : Z) : list Z :=
  match n with
  | O => []
  | S n => x mod 256 :: to_le_bytes n (x / 256)
  end.

Fixpoint chunks_fuel {A} (fuel k : nat) (l : list A) : list (list A) :=
  match fuel with
  | O => []
  | S fuel =>
      match l with
      | [] => []
      | _ => take k l :: chunks_fuel fuel k (drop k l)
      end
  end.
Definition chunks {A} (k : nat) (l : list A) : list (list A) :=
  chunks_fuel (length l) k l.

(** ** Automation

    [athera] holds the generic facts that close side conditions, [bits] the
    rewriting rules that push [Z.testbit] through word operations. *)

Create HintDb athera.
Create Rewrite HintDb bits.
Create Rewrite HintDb shifts.

Ltac zify_bool :=
  repeat match goal with
  | H : (_ =? _) = true |- _ => apply Z.eqb_eq in H
  | H : (_ =? _) = false |- _ => apply Z.eqb_neq in H
  | H : (_ <? _) = true |- _ => apply Z.ltb_lt in H
  | H : (_ <? _) = false |- _ => apply Z.ltb_ge in H
  | H : (_ <=? _) = true |- _ => apply Z.leb_le in H
  | H : (_ <=? _) = false |- _ => apply Z.leb_gt in H
  | H : _ && _ = true |- _ => apply andb_true_iff in H as [? ?]
  | H : _ || _ = false |- _ => apply orb_false_iff in H as [? ?]
  | H : negb _ = true |- _ => apply negb_true_iff in H
  | H : negb _ = false |- _ => apply negb_false_iff in H
  end.

(** Case analysis on the boolean test of the next [if]. *)
Tactic Notation "case_if" "as" ident(H) :=
  match goal with
  | |- context [if ?b then _ else _] => destruct b eqn:H; zify_bool
  | _ : context [if ?b then _ else _] |- _ => destruct b eqn:H; zify_bool
  end.

Ltac bits_side := first [lia | assumption].

Lemma testbit_one_shl k i : 0 <= i -> 0 <= k ->
  Z.testbit (Z.shiftl 1 k) i = (i =? k).
Proof.
  intros. rewrite Z.shiftl_1_l, Z.pow2_bits_eqb by lia. apply Z.eqb_sym.
Qed.

Lemma mask_ones k : 0 <= k -> Z.shiftl 1 k - 1 = Z.ones k.
Proof. intros. rewrite Z.shiftl_1_l, Z.ones_equiv. lia. Qed.

Lemma wnot_spec w x i : 0 <= i -> 0 <= w ->
  Z.testbit (wnot w x) i = negb (Z.testbit x i) && (i <? w).
Proof.
  intros. unfold wnot.
  rewrite Z.land_spec, Z.lnot_spec, Z.testbit_ones_nonneg by lia. reflexivity.
Qed.

#[export] Hint Rewrite Z.land_spec Z.lor_spec Z.lxor_spec : bits.
#[export] Hint Rewrite Z.lnot_spec wnot_spec Z.testbit_ones_nonneg testbit_one_shl
  mask_ones using bits_side : bits.
#[export] Hint Rewrite Z.shiftl_spec Z.shiftr_spec using bits_side : shifts.

(** Prove an equation between words bit by bit. *)
Ltac bitwise i Hi :=
  apply Z.bits_inj'; intros i Hi; autorewrite with bits;
  autorewrite with shifts; autorewrite with bits.

Lemma fits_bit w x i : fits w x -> 0 <= w <= i -> Z.testbit x i = false.
Proof.
  intros [H0 H1] Hi. destruct (Z.eq_dec x 0) as [->|]; [apply Z.bits_0|].
  apply Z.bits_above_log2; [lia|].
  assert (Z.log2 x < w) by (apply Z.log2_lt_pow2; lia). lia.
Qed.

(** A non-negative number with no bit above [w] fits in [w] bits. *)
Lemma bits_fits w x : 0 <= w -> 0 <= x ->
  (forall i, w <= i -> Z.testbit x i = false) -> fits w x.
Proof.
  intros Hw Hx Hb. split; [lia|].
  destruct (Z.eq_dec x 0) as [->|]; [apply Z.pow_pos_nonneg; lia|].
  apply Z.log2_lt_pow2; [lia|].
  destruct (Z.le_gt_cases w (Z.log2 x)) as [Hl|]; [|lia].
  specialize (Hb _ Hl). rewrite Z.bit_log2 in Hb by lia. discriminate.
Qed.

Lemma fits_lor w x y : 0 <= w -> fits w x -> fits w y -> fits w (Z.lor x y).
Proof.
  intros Hw Hx Hy. apply bits_fits; [lia| |].
  - apply Z.lor_nonneg; unfold fits in *; lia.
  - intros i Hi. rewrite Z.lor_spec, (fits_bit w x), (fits_bit w y) by auto. reflexivity.
Qed.

Lemma fits_land_l w x y : 0 <= w -> fits w x -> fits w (Z.land x y).
Proof.
  intros Hw Hx. apply bits_fits; [lia| |].
  - apply Z.land_nonneg. unfold fits in *; lia.
  - intros i Hi. rewrite Z.land_spec, (fits_bit w x) by auto. reflexivity.
Qed.

Lemma fits_land_r w x y : 0 <= w -> fits w y -> fits w (Z.land x y).
Proof. intros. rewrite Z.land_comm. by apply fits_land_l. Qed.

Lemma fits_lxor w x y : 0 <= w -> fits w x -> fits w y -> fits w (Z.lxor x y).
Proof.
  intros Hw Hx Hy. apply bits_fits; [lia| |].
  - apply Z.lxor_nonneg; unfold fits in *; lia.
  - intros i Hi. rewrite Z.lxor_spec, (fits_bit w x), (fits_bit w y) by auto. reflexivity.
Qed.

Lemma fits_ones w k : 0 <= k <= w -> fits w (Z.ones k).
Proof.
  intros Hk. unfold fits. rewrite Z.ones_equiv.
  pose proof (Z.pow_le_mono_r 2 k w). pose proof (Z.pow_pos_nonneg 2 k). lia.
Qed.

Lemma fits_wnot w x : 0 <= w -> fits w (wnot w x).
Proof. intros. apply fits_land_r; [lia|]. apply fits_ones; lia. Qed.

Lemma fits_one_shl w k : 0 <= k < w -> fits w (Z.shiftl 1 k).
Proof.
  intros. unfold fits. rewrite Z.shiftl_1_l.
  split; [apply Z.pow_nonneg; lia | apply Z.pow_lt_mono_r; lia].
Qed.

#[export] Hint Resolve fits_lor fits_land_l fits_land_r fits_lxor fits_ones
  fits_wnot fits_one_shl : athera.

(** The two words agree when their low [w] bits do. *)
Lemma fits_ext w x y : fits w x -> fits w y ->
  (forall i, 0 <= i < w -> Z.testbit x i = Z.testbit y i) -> x = y.
Proof.
  intros Hx Hy He. apply Z.bits_inj'. intros i Hi.
  destruct (Z.lt_ge_cases i w); [apply He; lia|].
  destruct (Z.lt_ge_cases w 0).
  { unfold fits in *. rewrite Z.pow_neg_r in Hx by lia. lia. }
  by rewrite (fits_bit w x), (fits_bit w y).
Qed.

Lemma land_one_shl w k : 0 <= k ->
  negb (Z.land w (Z.shiftl 1 k) =? 0) = Z.testbit w k.
Proof.
  intros Hk. destruct (Z.testbit w k) eqn:E.
  - apply negb_true_iff, Z.eqb_neq. intros H0.
    apply (f_equal (fun z => Z.testbit z k)) in H0.
    rewrite Z.land_spec, testbit_one_shl, E, Z.eqb_refl, Z.bits_0 in H0 by lia.
    discriminate.
  - apply negb_false_iff, Z.eqb_eq. apply Z.bits_inj'. intros i Hi.
    rewrite Z.bits_0, Z.land_spec, testbit_one_shl by lia.
    destruct (Z.eqb_spec i k) as [->|]; [by rewrite E|apply andb_false_r].
Qed.

Lemma wrap_ones w x : 0 <= w -> wrap w x = Z.land x (Z.ones w).
Proof. intros. unfold wrap. by rewrite Z.land_ones. Qed.

Lemma fits_wrap w x : 0 <= w -> fits w (wrap w x).
Proof. intros. unfold fits, wrap. apply Z.mod_pos_bound. apply Z.pow_pos_nonneg; lia. Qed.

Lemma fits_shiftr w x k : 0 <= k -> fits w x -> fits w (Z.shiftr x k).
Proof.
  intros Hk Hx. unfold fits in *. rewrite Z.shiftr_div_pow2 by lia.
  pose proof (Z.pow_pos_nonneg 2 k ltac:(lia) Hk).
  split; [apply Z.div_pos; lia|]. apply Z.le_lt_trans with x; [|lia].
  apply Z.div_le_upper_bound; nia.
Qed.

#[export] Hint Resolve fits_wrap fits_shiftr : athera.

Lemma to_le_bytes_length n x : length (to_le_bytes n x) = n.
Proof. revert x. induction n; intros x; simpl; congruence. Qed.

(** *** [trailing_zeros] and [count_ones] *)

Lemma ctz_from_spec fuel i w : 0 <= i ->
  (exists j, i <= j < i + Z.of_nat fuel /\ Z.testbit w j = true) ->
  let r := ctz_from fuel i w in
  i <= r < i + Z.of_nat fuel /\ Z.testbit w r = true /\
  forall j, i <= j < r -> Z.testbit w j = false.
Proof.
  revert i. induction fuel as [|f IH]; intros i Hi [j [Hj Hb]]; [lia|].
  simpl. destruct (Z.testbit w i) eqn:E.
  { repeat split; first [lia | done]. }
  assert (i <> j) by congruence.
  destruct (IH (i + 1)) as (H1 & H2 & H3); [lia | exists j; split; [lia|done] |].
  split; [lia|]. split; [done|].
  intros k Hk. destruct (Z.eq_dec k i) as [->|]; [done|]. apply H3; lia.
Qed.

Lemma trailing_zeros_spec w : fits 64 w -> w <> 0 ->
  0 <= trailing_zeros w < 64 /\ Z.testbit w (trailing_zeros w) = true /\
  forall j, 0 <= j < trailing_zeros w -> Z.testbit w j = false.
Proof.
  intros Hw Hnz. apply (ctz_from_spec 64 0); [lia|].
  exists (Z.log2 w). split; [|apply Z.bit_log2; unfold fits in *; lia].
  split; [apply Z.log2_nonneg|].
  apply Z.log2_lt_pow2; unfold fits in *; lia.
Qed.

(** The number of indices of [l] that satisfy the boolean [p]. *)
Definition countb {A} (p : A -> bool) (l : list A) : Z :=
  Z.of_nat (length (List.filter p l)).

Lemma countb_nil {A} (p : A -> bool) : countb p [] = 0.
Proof. reflexivity. Qed.

Lemma countb_cons {A} (p : A -> bool) a l :
  countb p (a :: l) = (if p a then 1 else 0) + countb p l.
Proof. unfold countb. simpl. destruct (p a); simpl; lia. Qed.

Lemma countb_app {A} (p : A -> bool) l1 l2 :
  countb p (l1 ++ l2) = countb p l1 + countb p l2.
Proof. unfold countb. rewrite List.filter_app, length_app. lia. Qed.

Lemma countb_ext {A} (p q : A -> bool) l :
  (forall a, a ∈ l -> p a = q a) -> countb p l = countb q l.
Proof.
  induction l as [|a l IH]; intros H; [done|].
  rewrite !countb_cons, IH by (intros; apply H; by right).
  rewrite H by left. done.
Qed.

Lemma countb_nonneg {A} (p : A -> bool) l : 0 <= countb p l.
Proof. unfold countb. lia. Qed.

Lemma countb_le {A} (p : A -> bool) l : countb p l <= Z.of_nat (length l).
Proof. unfold countb. pose proof (List.filter_length_le p l). lia. Qed.

Lemma countb_zero {A} (p : A -> bool) l :
  countb p l = 0 <-> forall a, a ∈ l -> p a = false.
Proof.
  induction l as [|x l IH].
  - split; [intros _ a Ha; by apply not_elem_of_nil in Ha | done].
  - rewrite countb_cons. pose proof (countb_nonneg p l). split.
    + intros Hs a Ha. destruct (p x) eqn:E; [lia|].
      apply elem_of_cons in Ha as [->|Ha]; [done|]. apply IH; [lia|done].
    + intros Ha. rewrite (Ha x) by left.
      replace (countb p l) with 0; [done|]. symmetry. apply IH.
      intros a Hin. apply Ha. by right.
Qed.

Lemma countb_full {A} (p : A -> bool) l :
  countb p l = Z.of_nat (length l) <-> forall a, a ∈ l -> p a = true.
Proof.
  induction l as [|x l IH].
  - split; [intros _ a Ha; by apply not_elem_of_nil in Ha | done].
  - rewrite countb_cons. pose proof (countb_le p l). cbn [length]. split.
    + intros Hs a Ha. destruct (p x) eqn:E; [|lia].
      apply elem_of_cons in Ha as [->|Ha]; [done|]. apply IH; [lia|done].
    + intros Ha. rewrite (Ha x) by left.
      replace (countb p l) with (Z.of_nat (length l)); [lia|]. symmetry. apply IH.
      intros a Hin. apply Ha. by right.
Qed.

(** Changing the predicate at one point of a duplicate-free list. *)
Lemma countb_update {A} `{EqDecision A} (p q : A -> bool) (l : list A) (x : A) :
  NoDup l -> x ∈ l -> (forall a, a <> x -> q a = p a) ->
  countb q l + (if p x then 1 else 0) = countb p l + (if q x then 1 else 0).
Proof.
  induction l as [|a l IH]; intros Hnd Hin Heq.
  - by apply not_elem_of_nil in Hin.
  - apply NoDup_cons in Hnd as [Ha Hnd]. rewrite !countb_cons.
    destruct (decide (a = x)) as [->|Hne].
    + rewrite (countb_ext q p l); [lia|].
      intros b Hb. apply Heq. intros ->. done.
    + apply elem_of_cons in Hin as [->|Hin]; [done|].
      specialize (IH Hnd Hin Heq). rewrite (Heq a) by done. lia.
Qed.

Lemma ones_from_countb n i w :
  ones_from n i w = countb (Z.testbit w) (seqZ i (Z.of_nat n)).
Proof.
  revert i. induction n as [|n IH]; intros i; [done|].
  rewrite seqZ_cons by lia. rewrite countb_cons. simpl ones_from.
  rewrite IH. do 2 f_equal. f_equal; lia.
Qed.

Lemma count_ones_countb w : count_ones w = countb (Z.testbit w) (seqZ 0 64).
Proof. apply (ones_from_countb 64). Qed.

(** ** [List.find] on an interval of indices *)

(** [r] is the first index of [[lo, hi)] that satisfies [p], if any. *)
Definition first_in (p : Z -> bool) (lo hi : Z) (r : option Z) : Prop :=
  match r with
  | Some i => lo <= i < hi /\ p i = true /\ forall j, lo <= j < i -> p j = false
  | None => forall j, lo <= j < hi -> p j = false
  end.

Lemma find_seqZ_first p lo n : first_in p lo (lo + Z.of_nat n) (List.find p (seqZ lo (Z.of_nat n))).
Proof.
  revert lo. induction n as [|n IH]; intros lo.
  { simpl. intros j Hj. lia. }
  rewrite seqZ_cons by lia. cbn [List.find]. destruct (p lo) eqn:E.
  { split; [lia|]. split; [done|]. intros; lia. }
  specialize (IH (Z.succ lo)). replace (Z.pred (Z.of_nat (S n))) with (Z.of_nat n) by lia.
  destruct (List.find p (seqZ (Z.succ lo) (Z.of_nat n))) as [i|]; cbn [first_in] in *.
  - destruct IH as (H1 & H2 & H3). split; [lia|]. split; [done|].
    intros j Hj. destruct (Z.eq_dec j lo) as [->|]; [done|]. apply H3; lia.
  - intros j Hj. destruct (Z.eq_dec j lo) as [->|]; [done|]. apply IH; lia.
Qed.

Lemma first_in_unique p lo hi r1 r2 :
  first_in p lo hi r1 -> first_in p lo hi r2 -> r1 = r2.
Proof.
  destruct r1 as [i|], r2 as [j|]; simpl; [| | |done].
  - intros (H1 & H2 & H3) (H4 & H5 & H6). f_equal.
    destruct (Z.lt_trichotomy i j) as [Hl|[->|Hl]]; [|done|].
    + rewrite H6 in H2 by lia. discriminate.
    + rewrite H3 in H5 by lia. discriminate.
  - intros (H1 & H2 & H3) H4. rewrite H4 in H2 by lia. discriminate.
  - intros H4 (H1 & H2 & H3). rewrite H4 in H2 by lia. discriminate.
Qed.

Lemma find_seqZ p lo hi r : first_in p lo hi r -> List.find p (seqZ lo (hi - lo)) = r.
Proof.
  intros Hr. destruct (Z.le_gt_cases hi lo) as [Hl|Hl].
  { rewrite seqZ_nil by lia. destruct r as [i|]; [|done].
    destruct Hr as [Hi _]. lia. }
  apply (first_in_unique p lo hi); [|done].
  pose proof (find_seqZ_first p lo (Z.to_nat (hi - lo))) as Hf.
  rewrite Z2Nat.id in Hf by lia. replace (lo + (hi - lo)) with hi in Hf by lia. done.
Qed.

Lemma find_seqZ_ok p lo hi : lo <= hi -> first_in p lo hi (List.find p (seqZ lo (hi - lo))).
Proof.
  intros. pose proof (find_seqZ_first p lo (Z.to_nat (hi - lo))) as Hf.
  rewrite Z2Nat.id in Hf by lia. by replace (lo + (hi - lo)) with hi in Hf by lia.
Qed.

Lemma first_in_ext p q lo hi r :
  (forall i, lo <= i < hi -> p i = q i) -> first_in p lo hi r -> first_in q lo hi r.
Proof.
  intros He. destruct r as [i|]; simpl.
  - intros (H1 & H2 & H3). split; [done|]. split; [by rewrite <- He|].
    intros j Hj. rewrite <- He by lia. by apply H3.
  - intros H j Hj. rewrite <- He by lia. by apply H.
Qed.

(** ** Boolean functions on intervals of indices *)

(** [f] with the [n] indices from [lo] set to [b]. *)
Definition fill (f : Z -> bool) (lo n : Z) (b : bool) : Z -> bool :=
  fun i => if (lo <=? i) && (i <? lo + n) then b else f i.

Lemma fill_in f lo n b i : lo <= i < lo + n -> fill f lo n b i = b.
Proof.
  intros Hi. unfold fill. by destruct (Z.leb_spec lo i), (Z.ltb_spec i (lo + n)); try lia.
Qed.

Lemma fill_out f lo n b i : i < lo \/ lo + n <= i -> fill f lo n b i = f i.
Proof.
  intros Hi. unfold fill. by destruct (Z.leb_spec lo i), (Z.ltb_spec i (lo + n)); try lia.
Qed.

Lemma fill_cases f lo n b i :
  (lo <= i < lo + n /\ fill f lo n b i = b) \/
  ((i < lo \/ lo + n <= i) /\ fill f lo n b i = f i).
Proof.
  destruct (Z.le_gt_cases lo i), (Z.lt_ge_cases i (lo + n));
    [left; split; [lia|apply fill_in; lia] | right; split; [lia|apply fill_out; lia]..].
Qed.

Lemma countb_const (c : bool) lo n : 0 <= n ->
  countb (fun _ => c) (seqZ lo n) = if c then n else 0.
Proof.
  intros Hn. destruct c; [|by apply countb_zero].
  etransitivity; [by apply countb_full|rewrite length_seqZ; lia].
Qed.

Lemma seqZ_split lo n s : lo <= s <= lo + n ->
  seqZ lo n = seqZ lo (s - lo) ++ seqZ s (lo + n - s).
Proof.
  intros Hs. replace (seqZ s (lo + n - s)) with (seqZ (lo + (s - lo)) (lo + n - s))
    by (f_equal; lia).
  rewrite <- seqZ_app by lia. f_equal. lia.
Qed.

(** Filling a run whose value is the opposite changes the count by its length. *)
Lemma countb_fill f s n lo m b : 0 <= n -> lo <= s -> s + n <= lo + m ->
  (forall j, s <= j < s + n -> f j = negb b) ->
  countb (fill f s n b) (seqZ lo m) =
  countb f (seqZ lo m) + (if b then n else - n).
Proof.
  intros Hn Hs Hm Hf.
  rewrite (seqZ_split lo m s), (seqZ_split s _ (s + n)), !countb_app by lia.
  replace (s + n - s) with n by lia.
  rewrite (countb_ext (fill f s n b) f (seqZ lo _)),
    (countb_ext (fill f s n b) f (seqZ (s + n) _)),
    (countb_ext (fill f s n b) (fun _ => b) (seqZ s n)),
    (countb_ext f (fun _ => negb b) (seqZ s n)), !countb_const;
    try (intros j Hj%elem_of_seqZ; first [apply Hf | apply fill_in | apply fill_out]; lia);
    try lia.
  destruct b; simpl; lia.
Qed.

Lemma forallb_seqZ (p : Z -> bool) s n :
  forallb p (seqZ s n) = true <-> forall j, s <= j < s + n -> p j = true.
Proof.
  rewrite forallb_forall. split; intros H j Hj; apply H.
  - apply list_elem_of_In, elem_of_seqZ. done.
  - apply list_elem_of_In, elem_of_seqZ in Hj. done.
Qed.

Lemma forallb_ext_seqZ (p q : Z -> bool) s n :
  (forall j, s <= j < s + n -> p j = q j) -> forallb p (seqZ s n) = forallb q (seqZ s n).
Proof.
  intros He. apply eq_true_iff_eq. rewrite !forallb_seqZ.
  split; intros H j Hj; [rewrite <- He | rewrite He]; auto.
Qed.
