(* ===== verification/OrdMap.v ===== *)
(** * OrdMap: ordered maps, the model of [alloc::collections::BTreeMap]

    A [BTreeMap<K, V>] is the list of its entries in increasing key order. The
    file gives the operations the kernel and its crates use (point access,
    insertion, removal, [entry().or_default()] style updates, [pop_first], the
    neighbour queries [range(..k).next_back()], [range(..=k).next_back()] and
    [range((Excluded(k), Unbounded)).next()], iteration in key order) and their
    laws. The key order is an instance of the class [Ord]. *)

From Stdlib Require Export Sorting.Sorted.
From S2P Require Import Prelude.

(** ** Total orders: the trait [Ord] *)

Class Ord (K : Type) : Type := {
  cmp : K -> K -> comparison;
  cmp_eq : forall a b, cmp a b = Eq <-> a = b;
  cmp_swap : forall a b, cmp b a = CompOpp (cmp a b);
  cmp_trans : forall a b c, cmp a b = Lt -> cmp b c = Lt -> cmp a c = Lt
}.

Definition klt {K} `{Ord K} (a b : K) : Prop := cmp a b = Lt.

#[export] Program Instance Z_Ord : Ord Z := { cmp := Z.compare }.
Next Obligation. apply Z.compare_eq_iff. Qed.
Next Obligation. intros a b. apply Z.compare_antisym. Qed.
Next Obligation. intros a b c. rewrite !Z.compare_lt_iff. lia. Qed.

(** Lexicographic order on lists: strings and byte slices. *)
Fixpoint list_cmp {K} `{Ord K} (a b : list K) : comparison :=
  match a, b with
  | [], [] => Eq
  | [], _ :: _ => Lt
  | _ :: _, [] => Gt
  | x :: a, y :: b =>
      match cmp x y with Eq => list_cmp a b | c => c end
  end.

(** ** Operations *)

Section Operations.
Context {K V : Type} `{Ord K}.
Implicit Types (m : list (K * V)) (k : K) (v : V).

(** [BTreeMap::get] *)
Fixpoint om_get k m : option V :=
  match m with
  | [] => None
  | (k', v) :: m =>
      match cmp k k' with Lt => None | Eq => Some v | Gt => om_get k m end
  end.

(** [BTreeMap::contains_key] *)
Definition om_contains k m : bool :=
  match om_get k m with Some _ => true | None => false end.

(** [BTreeMap::insert] *)
Fixpoint om_insert k v m : list (K * V) :=
  match m with
  | [] => [(k, v)]
  | (k', v') :: m' =>
      match cmp k k' with
      | Lt => (k, v) :: m
      | Eq => (k, v) :: m'
      | Gt => (k', v') :: om_insert k v m'
      end
  end.

(** [BTreeMap::remove] *)
Fixpoint om_remove k m : list (K * V) :=
  match m with
  | [] => []
  | (k', v') :: m' =>
      match cmp k k' with
      | Lt => m
      | Eq => m'
      | Gt => (k', v') :: om_remove k m'
      end
  end.

(** A write through [BTreeMap::get_mut]: nothing happens when [k] is absent. *)
Definition om_modify (f : V -> V) k m : list (K * V) :=
  match om_get k m with Some v => om_insert k (f v) m | None => m end.

(** [BTreeMap::pop_first] *)
Definition om_pop_first m : option ((K * V) * list (K * V)) :=
  match m with [] => None | e :: m => Some (e, m) end.

(** The last entry before the first key outside [p]. *)
Fixpoint om_last_while (p : K -> bool) m : option (K * V) :=
  match m with
  | [] => None
  | (k', v') :: m =>
      if p k' then
        match om_last_while p m with Some e => Some e | None => Some (k', v') end
      else None
  end.

(** [range(..k).next_back()]: the last entry below [k]. *)
Definition om_last_below k m : option (K * V) :=
  om_last_while (fun k' => match cmp k' k with Lt => true | _ => false end) m.

(** [range(..=k).next_back()]: the last entry up to [k]. *)
Definition om_last_upto k m : option (K * V) :=
  om_last_while (fun k' => match cmp k' k with Gt => false | _ => true end) m.

(** [range((Excluded(k), Unbounded)).next()]: the first entry above [k]. *)
Fixpoint om_first_above k m : option (K * V) :=
  match m with
  | [] => None
  | (k', v') :: m =>
      match cmp k' k with Gt => Some (k', v') | _ => om_first_above k m end
  end.

(** The entries are in strictly increasing key order. *)
Definition om_ok m : Prop := StronglySorted (fun e1 e2 => klt e1.1 e2.1) m.

End Operations.

(** ** Laws *)

Section Laws.
Context {K V : Type} `{HO : Ord K}.
Implicit Types (m : list (K * V)) (k : K) (v : V).

Lemma cmp_refl k : cmp k k = Eq.
Proof. by apply cmp_eq. Qed.

Lemma klt_irrefl k : ~ klt k k.
Proof. unfold klt. by rewrite cmp_refl. Qed.

Lemma cmp_gt a b : cmp a b = Gt <-> klt b a.
Proof. unfold klt. rewrite (cmp_swap a b). by destruct (cmp a b). Qed.

Lemma klt_trans a b c : klt a b -> klt b c -> klt a c.
Proof. apply cmp_trans. Qed.

Lemma klt_neq a b : klt a b -> a <> b.
Proof. intros Hl ->. by apply klt_irrefl in Hl. Qed.

Lemma klt_asym a b : klt a b -> klt b a -> False.
Proof. intros H1 H2. exact (klt_irrefl a (klt_trans _ _ _ H1 H2)). Qed.

End Laws.

(** Case analysis on a comparison, in terms of [klt] and equality. *)
Ltac cmp_cases a b :=
  let E := fresh "Ec" in
  destruct (cmp a b) eqn:E;
  [ apply cmp_eq in E | change (klt a b) in E | apply cmp_gt in E ].

(** The lexicographic order is a total order. *)
Section ListOrd.
Context {K : Type} `{HO : Ord K}.

Lemma list_cmp_eq (a b : list K) : list_cmp a b = Eq <-> a = b.
Proof.
  revert b. induction a as [|x a IH]; intros [|y b]; simpl; try done.
  cmp_cases x y.
  - subst. rewrite IH. naive_solver.
  - split; [done|]. intros [= -> _]. by apply klt_irrefl in Ec.
  - split; [done|]. intros [= -> _]. by apply klt_irrefl in Ec.
Qed.

Lemma list_cmp_swap (a b : list K) : list_cmp b a = CompOpp (list_cmp a b).
Proof.
  revert b. induction a as [|x a IH]; intros [|y b]; simpl; try done.
  rewrite (cmp_swap x y). destruct (cmp x y); simpl; [apply IH|done|done].
Qed.

Lemma list_cmp_trans (a b c : list K) :
  list_cmp a b = Lt -> list_cmp b c = Lt -> list_cmp a c = Lt.
Proof.
  revert b c. induction a as [|x a IH]; intros [|y b] [|z c]; simpl; try done.
  cmp_cases x y; cmp_cases y z; intros Hab Hbc; try done; subst.
  - rewrite cmp_refl. by eapply IH.
  - unfold klt in *. by rewrite Ec0.
  - unfold klt in *. by rewrite Ec.
  - pose proof (klt_trans _ _ _ Ec Ec0) as Hl. unfold klt in Hl. by rewrite Hl.
Qed.

#[export] Instance list_Ord : Ord (list K) :=
  {| cmp := list_cmp; cmp_eq := list_cmp_eq; cmp_swap := list_cmp_swap;
     cmp_trans := list_cmp_trans |}.

End ListOrd.

Section MapLaws.
Context {K V : Type} `{HO : Ord K} `{EqDecision K}.
Implicit Types (m : list (K * V)) (k : K) (v : V).

Lemma om_ok_nil : om_ok (@nil (K * V)).
Proof. constructor. Qed.

Lemma om_ok_cons k v m :
  om_ok ((k, v) :: m) <-> om_ok m /\ forall k' v', (k', v') ∈ m -> klt k k'.
Proof.
  unfold om_ok. split.
  - intros Hs. apply StronglySorted_inv in Hs as [Hs Hf]. split; [done|].
    intros k' v' Hin. rewrite Forall_forall in Hf. by apply (Hf (k', v')).
  - intros [Hs Hf]. constructor; [done|]. apply Forall_forall.
    intros [k' v'] Hin. by apply (Hf k' v').
Qed.

Lemma om_get_elem k v m : om_ok m -> om_get k m = Some v <-> (k, v) ∈ m.
Proof.
  induction m as [|[k' v'] m IH]; intros Hok.
  { split; [done|]. by intros ?%not_elem_of_nil. }
  apply om_ok_cons in Hok as [Hok Hlt]. cbn [om_get].
  rewrite elem_of_cons. cmp_cases k k'.
  - subst. split; [intros [= ->]; by left|]. intros [[= ->]|Hin]; [done|].
    apply Hlt in Hin. by apply klt_irrefl in Hin.
  - split; [done|]. intros [[= -> ->]|Hin]; [by apply klt_irrefl in Ec|].
    apply Hlt in Hin. destruct (klt_asym _ _ Ec Hin).
  - rewrite IH by done. split; [by right|]. intros [[= -> ->]|Hin]; [|done].
    by apply klt_irrefl in Ec.
Qed.

Lemma om_get_none k m : om_ok m -> om_get k m = None <-> forall v, (k, v) ∉ m.
Proof.
  intros Hok. split.
  - intros Hn v Hin. apply om_get_elem in Hin; [|done]. congruence.
  - intros Hn. destruct (om_get k m) as [v|] eqn:E; [|done].
    apply om_get_elem in E; [|done]. by destruct (Hn v).
Qed.

Lemma elem_of_om_insert_1 k v m e : e ∈ om_insert k v m -> e = (k, v) \/ e ∈ m.
Proof.
  induction m as [|[k' v'] m IH]; cbn [om_insert].
  { rewrite list_elem_of_singleton. auto. }
  destruct (cmp k k'); rewrite !elem_of_cons; tauto.
Qed.

Lemma om_insert_ok k v m : om_ok m -> om_ok (om_insert k v m).
Proof.
  induction m as [|[k' v'] m IH]; intros Hok; cbn [om_insert].
  { apply om_ok_cons. split; [done|]. by intros ? ? ?%not_elem_of_nil. }
  pose proof Hok as Hok'. apply om_ok_cons in Hok as [Hok Hlt]. cmp_cases k k'.
  - subst. by apply om_ok_cons.
  - apply om_ok_cons. split; [done|]. intros k2 v2 [[= -> ->]|Hin]%elem_of_cons; [done|].
    eapply klt_trans; [done|]. by eapply Hlt.
  - apply om_ok_cons. split; [by apply IH|].
    intros k2 v2 [[= -> ->]|Hin]%elem_of_om_insert_1; [done|]. by eapply Hlt.
Qed.

Lemma elem_of_om_remove_1 k m e : e ∈ om_remove k m -> e ∈ m.
Proof.
  induction m as [|[k' v'] m IH]; cbn [om_remove]; [done|].
  destruct (cmp k k'); rewrite ?elem_of_cons; tauto.
Qed.

Lemma om_remove_ok k m : om_ok m -> om_ok (om_remove k m).
Proof.
  induction m as [|[k' v'] m IH]; intros Hok; cbn [om_remove]; [done|].
  pose proof Hok as Hok'. apply om_ok_cons in Hok as [Hok Hlt].
  destruct (cmp k k'); [done|done|]. apply om_ok_cons. split; [by apply IH|].
  intros k2 v2 Hin%elem_of_om_remove_1. by eapply Hlt.
Qed.

Lemma om_get_insert k v m k' : om_ok m ->
  om_get k' (om_insert k v m) = if decide (k' = k) then Some v else om_get k' m.
Proof.
  induction m as [|[k2 v2] m IH]; intros Hok; cbn [om_insert om_get].
  { destruct (decide (k' = k)) as [->|Hne]; [by rewrite cmp_refl|].
    cmp_cases k' k; done. }
  apply om_ok_cons in Hok as [Hok Hlt]. cmp_cases k k2; cbn [om_get].
  - subst. destruct (decide (k' = k2)) as [->|Hne]; [by rewrite cmp_refl|].
    cmp_cases k' k2; done.
  - destruct (decide (k' = k)) as [->|Hne]; [by rewrite cmp_refl|].
    cmp_cases k' k; [done| |done].
    assert (klt k' k2) as Hl by (eapply klt_trans; eauto).
    unfold klt in Hl. by rewrite Hl.
  - rewrite IH by done. destruct (decide (k' = k)) as [->|Hne]; [|done].
    apply cmp_gt in Ec. by rewrite Ec.
Qed.

(** A key below every key of the map is absent. *)
Lemma om_get_below k m : (forall k' v', (k', v') ∈ m -> klt k k') -> om_get k m = None.
Proof.
  destruct m as [|[k' v'] m]; intros Hlt; [done|]. cbn [om_get].
  assert (klt k k') as Hl by (apply (Hlt k' v'); left). unfold klt in Hl. by rewrite Hl.
Qed.

Lemma om_get_remove k m k' : om_ok m ->
  om_get k' (om_remove k m) = if decide (k' = k) then None else om_get k' m.
Proof.
  induction m as [|[k2 v2] m IH]; intros Hok; cbn [om_remove om_get].
  { by destruct (decide (k' = k)). }
  apply om_ok_cons in Hok as [Hok Hlt]. cmp_cases k k2; cbn [om_get].
  - subst. destruct (decide (k' = k2)) as [->|Hne]; [by apply om_get_below|].
    cmp_cases k' k2; [done| |done]. apply om_get_below.
    intros k3 v3 Hin%Hlt. by eapply klt_trans.
  - destruct (decide (k' = k)) as [->|Hne]; [|done]. unfold klt in Ec. by rewrite Ec.
  - rewrite IH by done. destruct (decide (k' = k)) as [->|Hne]; [|done].
    apply cmp_gt in Ec. by rewrite Ec.
Qed.

Lemma elem_of_om_insert k v m k' v' : om_ok m ->
  (k', v') ∈ om_insert k v m <-> (k' = k /\ v' = v) \/ (k' <> k /\ (k', v') ∈ m).
Proof.
  intros Hok. rewrite <- !om_get_elem by auto using om_insert_ok.
  rewrite om_get_insert by done. destruct (decide (k' = k)); naive_solver.
Qed.

Lemma elem_of_om_remove k m k' v' : om_ok m ->
  (k', v') ∈ om_remove k m <-> k' <> k /\ (k', v') ∈ m.
Proof.
  intros Hok. rewrite <- !om_get_elem by auto using om_remove_ok.
  rewrite om_get_remove by done. destruct (decide (k' = k)); naive_solver.
Qed.

Lemma om_insert_length k v m : om_ok m ->
  length (om_insert k v m) =
  match om_get k m with Some _ => length m | None => S (length m) end.
Proof.
  induction m as [|[k' v'] m IH]; intros Hok; [done|].
  apply om_ok_cons in Hok as [Hok Hlt]. cbn [om_insert om_get].
  destruct (cmp k k'); simpl; [done|done|]. rewrite IH by done. by destruct (om_get k m).
Qed.

Lemma om_remove_length k m : om_ok m ->
  length (om_remove k m) =
  match om_get k m with Some _ => (length m - 1)%nat | None => length m end.
Proof.
  induction m as [|[k' v'] m IH]; intros Hok; [done|].
  apply om_ok_cons in Hok as [Hok Hlt]. cbn [om_remove om_get].
  destruct (cmp k k'); simpl; [lia|done|]. rewrite IH by done.
  destruct (om_get k m) eqn:E; [|done]. destruct m; simpl; [done|lia].
Qed.

(** An insertion puts the entry in place of the one with the same key. *)
Lemma om_insert_perm k v m : om_ok m -> om_insert k v m ≡ₚ (k, v) :: om_remove k m.
Proof.
  induction m as [|[k' v'] m IH]; intros Hok; cbn [om_insert om_remove]; [done|].
  apply om_ok_cons in Hok as [Hok _]. destruct (cmp k k'); [done|done|].
  rewrite IH by done. apply perm_swap.
Qed.

Lemma om_remove_perm k v m : om_get k m = Some v -> m ≡ₚ (k, v) :: om_remove k m.
Proof.
  induction m as [|[k' v'] m IH]; intros Hg; cbn [om_get om_remove] in *; [done|].
  destruct (cmp k k') eqn:E; [|done|].
  - apply cmp_eq in E as ->. by injection Hg as ->.
  - rewrite (IH Hg) at 1. apply perm_swap.
Qed.

Lemma om_remove_absent k m : om_get k m = None -> om_remove k m = m.
Proof.
  induction m as [|[k' v'] m IH]; intros Hg; cbn [om_get om_remove] in *; [done|].
  destruct (cmp k k'); [done|done|]. by rewrite IH.
Qed.

Lemma om_insert_new k v m : om_ok m -> om_get k m = None -> om_insert k v m ≡ₚ (k, v) :: m.
Proof. intros Hok Hn. by rewrite om_insert_perm, om_remove_absent. Qed.

Lemma om_modify_ok f k m : om_ok m -> om_ok (om_modify f k m).
Proof. intros. unfold om_modify. destruct (om_get k m); auto using om_insert_ok. Qed.

Lemma om_get_modify f k m k' : om_ok m ->
  om_get k' (om_modify f k m) = if decide (k' = k) then f <$> om_get k m else om_get k' m.
Proof.
  intros Hok. unfold om_modify. destruct (om_get k m) as [v|] eqn:E.
  - rewrite om_get_insert by done. done.
  - destruct (decide (k' = k)) as [->|]; [by rewrite E|done].
Qed.

(** Two maps with the same entries are equal. *)
Lemma om_ext m1 m2 : om_ok m1 -> om_ok m2 ->
  (forall k, om_get k m1 = om_get k m2) -> m1 = m2.
Proof.
  revert m2. induction m1 as [|[k1 v1] m1 IH]; intros [|[k2 v2] m2] H1 H2 He; [done| | |].
  - specialize (He k2). cbn [om_get] in He. by rewrite cmp_refl in He.
  - specialize (He k1). cbn [om_get] in He. by rewrite cmp_refl in He.
  - pose proof (om_ok_cons k1 v1 m1) as [Hc1 _]. pose proof (om_ok_cons k2 v2 m2) as [Hc2 _].
    destruct (Hc1 H1) as [Hok1 Hlt1], (Hc2 H2) as [Hok2 Hlt2].
    assert (k1 = k2) as ->.
    { cmp_cases k1 k2; [done| |].
      - pose proof (He k1) as E. cbn [om_get] in E. rewrite cmp_refl in E.
        unfold klt in Ec. by rewrite Ec in E.
      - pose proof (He k2) as E. cbn [om_get] in E. rewrite cmp_refl in E.
        unfold klt in Ec. by rewrite Ec in E. }
    assert (v1 = v2) as ->.
    { pose proof (He k2) as E. cbn [om_get] in E. rewrite cmp_refl in E. congruence. }
    f_equal. apply IH; [done|done|]. intros k. specialize (He k). cbn [om_get] in He.
    cmp_cases k k2; [|by rewrite !om_get_below; [|intros; eapply klt_trans; eauto..]|done].
    subst. by rewrite !om_get_below by eauto.
Qed.

(** A change that gives the same value changes nothing. *)
Lemma om_modify_same f k m v : om_ok m -> om_get k m = Some v -> f v = v -> om_modify f k m = m.
Proof.
  intros Hok Hg Hf. apply om_ext; [by apply om_modify_ok|done|]. intros k'. rewrite om_get_modify by done.
  destruct (decide (k' = k)) as [->|]; [|done]. by rewrite Hg; simpl; rewrite Hf.
Qed.

Lemma om_modify_perm f k m v : om_ok m -> om_get k m = Some v -> om_modify f k m ≡ₚ (k, f v) :: om_remove k m.
Proof. intros Hok Hg. unfold om_modify. rewrite Hg. by apply om_insert_perm. Qed.

Lemma om_keys_NoDup m : om_ok m -> NoDup m.*1.
Proof.
  induction m as [|[k v] m IH]; intros Hok; [constructor|].
  apply om_ok_cons in Hok as [Hok Hlt]. rewrite fmap_cons. apply NoDup_cons.
  split; [|by apply IH]. intros ([k' v'] & Heq & Hin)%list_elem_of_fmap.
  simpl in Heq. subst k'. apply Hlt in Hin. by apply klt_irrefl in Hin.
Qed.

(** *** The neighbour queries *)

(** The greatest entry of [m] whose key satisfies [P]. *)
Definition greatest (P : K -> Prop) m (r : option (K * V)) : Prop :=
  match r with
  | Some (k0, v0) =>
      (k0, v0) ∈ m /\ P k0 /\ forall k v, (k, v) ∈ m -> P k -> k = k0 \/ klt k k0
  | None => forall k v, (k, v) ∈ m -> ~ P k
  end.

Lemma om_last_while_ok (p : K -> bool) m : om_ok m ->
  (forall k k', klt k k' -> p k' = true -> p k = true) ->
  greatest (fun k => p k = true) m (om_last_while p m).
Proof.
  intros Hok Hp. induction m as [|[k1 v1] m IH]; cbn [om_last_while].
  { by intros k v ?%not_elem_of_nil. }
  apply om_ok_cons in Hok as [Hok Hlt]. specialize (IH Hok).
  destruct (p k1) eqn:Ep.
  - destruct (om_last_while p m) as [[k0 v0]|]; simpl in *.
    + destruct IH as (H1 & H2 & H3). split; [by right|]. split; [done|].
      intros k v [[= -> ->]|Hin]%elem_of_cons Hk; [right; by eapply Hlt|by eapply H3].
    + split; [by left|]. split; [done|].
      intros k v [[= -> ->]|Hin]%elem_of_cons Hk; [by left|]. by destruct (IH k v Hin).
  - intros k v [[= -> ->]|Hin]%elem_of_cons Hk; [congruence|].
    rewrite (Hp k1 k) in Ep; [done|by eapply Hlt|done].
Qed.

Lemma om_last_below_ok k m : om_ok m ->
  greatest (fun k' => klt k' k) m (om_last_below k m).
Proof.
  intros Hok. pose proof (om_last_while_ok
    (fun k' => match cmp k' k with Lt => true | _ => false end) m Hok) as Hg.
  assert (He : forall k', (match cmp k' k with Lt => true | _ => false end) = true <->
    klt k' k) by (intros k'; unfold klt; destruct (cmp k' k); naive_solver).
  unfold om_last_below. destruct (om_last_while _ m) as [[k0 v0]|]; simpl in *.
  - setoid_rewrite He in Hg. apply Hg. eauto using klt_trans.
  - setoid_rewrite He in Hg. apply Hg. eauto using klt_trans.
Qed.

Lemma om_last_upto_ok k m : om_ok m ->
  greatest (fun k' => k' = k \/ klt k' k) m (om_last_upto k m).
Proof.
  intros Hok. pose proof (om_last_while_ok
    (fun k' => match cmp k' k with Gt => false | _ => true end) m Hok) as Hg.
  assert (He : forall k', (match cmp k' k with Gt => false | _ => true end) = true <->
    k' = k \/ klt k' k).
  { intros k'. unfold klt. rewrite <- cmp_eq. destruct (cmp k' k); naive_solver. }
  assert (Ht : forall a b, klt a b -> b = k \/ klt b k -> a = k \/ klt a k).
  { intros a b Hl [-> |Hb]; right; eauto using klt_trans. }
  unfold om_last_upto. destruct (om_last_while _ m) as [[k0 v0]|]; simpl in *.
  - setoid_rewrite He in Hg. apply Hg. eauto.
  - setoid_rewrite He in Hg. apply Hg. eauto.
Qed.

Lemma om_first_above_ok k m : om_ok m ->
  match om_first_above k m with
  | Some (k0, v0) =>
      (k0, v0) ∈ m /\ klt k k0 /\
      forall k' v', (k', v') ∈ m -> klt k k' -> k' = k0 \/ klt k0 k'
  | None => forall k' v', (k', v') ∈ m -> ~ klt k k'
  end.
Proof.
  intros Hok. induction m as [|[k1 v1] m IH]; cbn [om_first_above].
  { by intros k' v' ?%not_elem_of_nil. }
  apply om_ok_cons in Hok as [Hok Hlt]. specialize (IH Hok).
  cmp_cases k1 k.
  3: { split; [by left|]. split; [done|].
       intros k' v' [[= -> ->]|Hin]%elem_of_cons Hk; [by left|right; by eapply Hlt]. }
  all: destruct (om_first_above k m) as [[k0 v0]|];
    [ destruct IH as (H1 & H2 & H3); split; [by right|]; split; [done|];
      intros k' v' [[= -> ->]|Hin]%elem_of_cons Hk; [|by eapply H3]
    | intros k' v' [[= -> ->]|Hin]%elem_of_cons Hk; [|by eapply IH] ].
  all: subst; first [by apply klt_irrefl in Hk | by destruct (klt_asym _ _ Ec Hk)].
Qed.

Lemma om_pop_first_ok e m m' : om_ok m -> om_pop_first m = Some (e, m') ->
  m = e :: m' /\ om_ok m' /\ forall k v, (k, v) ∈ m' -> klt e.1 k.
Proof.
  destruct m as [|[k0 v0] m]; [done|]. intros Hok [= <- <-].
  apply om_ok_cons in Hok as [Hok Hlt]. done.
Qed.

End MapLaws.

#[export] Hint Resolve om_ok_nil om_insert_ok om_remove_ok om_modify_ok : athera.
