(* ===== verification/Bitmap.v ===== *)
(** * Bitmap: the fixed-size bitmap of [crates/athera-bitmap]

    The shared word-level routines ([is_bit_set], [set_bit], [clear_bit],
    [count_used], [scan_words], [alloc_range_in], [free_range_in]), the owned
    [BitMap] with its [used] counter, the borrowed [BitMapView], the byte and
    word conversions and the ascending iterator [BitIter].

    A [[usize; WORDS]] array or a borrowed [&mut [usize]] is the list of its
    words; a mutating method returns its result with the new value of [self].
    Indexing a slice out of range panics.

    The reference view of a word array is the function [bit]; the theorems
    relate every routine to it. *)

From S2P Require Import Prelude.

(** ** Errors and sizes *)

Definition WORD_BITS : Z := 64.

Inductive BitMapError : Type :=
| OutOfRange
| AlreadySet
| AlreadyFree
| LengthMismatch
| Misaligned.

Definition words_for (bits : Z) : Z := div_ceil bits WORD_BITS.

(** ** The shared word-level routines *)

Definition is_bit_set (words : list Z) (index : Z) : outcome bool :=
  w ← expect (words !! Z.to_nat (index / WORD_BITS));
  mret (negb (Z.land w (Z.shiftl 1 (index mod WORD_BITS)) =? 0)).

Definition set_bit (words : list Z) (index : Z) : outcome (list Z) :=
  let k := Z.to_nat (index / WORD_BITS) in
  w ← expect (words !! k);
  mret (<[k := Z.lor w (Z.shiftl 1 (index mod WORD_BITS))]> words).

Definition clear_bit (words : list Z) (index : Z) : outcome (list Z) :=
  let k := Z.to_nat (index / WORD_BITS) in
  w ← expect (words !! k);
  mret (<[k := Z.land w (wnot 64 (Z.shiftl 1 (index mod WORD_BITS)))]> words).

Definition count_used (words : list Z) : Z :=
  foldr (fun w acc => count_ones w + acc) 0 words.

Fixpoint scan_loop (fuel : nat) (words : list Z) (bits last : Z) (want_free : bool)
    (word low_mask : Z) : outcome (option Z) :=
  match fuel with
  | O => Panic
  | S fuel =>
      w ← expect (words !! Z.to_nat word);
      let w := if want_free then wnot 64 (Z.lor w low_mask)
               else Z.land w (wnot 64 low_mask) in
      let w := if (word =? last) && negb (bits mod WORD_BITS =? 0)
               then Z.land w (Z.shiftl 1 (bits mod WORD_BITS) - 1)
               else w in
      if negb (w =? 0) then mret (Some (word * WORD_BITS + trailing_zeros w))
      else if word =? last then mret None
      else scan_loop fuel words bits last want_free (word + 1) 0
  end.

Definition scan_words (words : list Z) (bits start : Z) (want_free : bool)
    : outcome (option Z) :=
  if (Z.of_nat (length words) =? 0) || (bits <=? start) then mret None
  else
    let last := Z.of_nat (length words) - 1 in
    scan_loop (length words) words bits last want_free (start / WORD_BITS)
      (Z.shiftl 1 (start mod WORD_BITS) - 1).

(** [for j in js { step(words, j) }] *)
Fixpoint for_each (step : list Z -> Z -> outcome (list Z)) (words js : list Z)
    : outcome (list Z) :=
  match js with
  | [] => mret words
  | j :: js => words ← step words j; for_each step words js
  end.

Fixpoint alloc_range_loop (words : list Z) (n : Z) (idxs : list Z)
    (run_start run_len : Z) : outcome (option Z * list Z) :=
  match idxs with
  | [] => mret (None, words)
  | i :: idxs =>
      b ← is_bit_set words i;
      if (b : bool) then alloc_range_loop words n idxs run_start 0
      else
        let run_start := if run_len =? 0 then i else run_start in
        let run_len := run_len + 1 in
        if run_len =? n then
          words ← for_each set_bit words (seqZ run_start n);
          mret (Some run_start, words)
        else alloc_range_loop words n idxs run_start run_len
  end.

Definition alloc_range_in (words : list Z) (bits n : Z)
    : outcome (option Z * list Z) :=
  if n =? 0 then mret (None, words)
  else alloc_range_loop words n (seqZ 0 bits) 0 0.

(** The checking loop of [free_range_in]: is every bit of [idxs] set? *)
Fixpoint all_set (words : list Z) (idxs : list Z) : outcome bool :=
  match idxs with
  | [] => mret true
  | i :: idxs =>
      b ← is_bit_set words i;
      if (b : bool) then all_set words idxs else mret false
  end.

(** [range.start..range.end] is given by its two ends. *)
Definition free_range_in (words : list Z) (bits rstart rend : Z)
    : outcome (result BitMapError unit * list Z) :=
  if (rend <? rstart) || (bits <? rend) then mret (Err OutOfRange, words)
  else
    ok ← all_set words (seqZ rstart (rend - rstart));
    if (ok : bool) then
      words ← for_each clear_bit words (seqZ rstart (rend - rstart));
      mret (Ok tt, words)
    else mret (Err AlreadyFree, words).

(** ** The owned bitmap [BitMap<WORDS>] *)

Record BitMap : Type := mkBitMap {
  bm_words : list Z;
  bm_bits : Z;
  bm_used : Z
}.

Definition BitMap_new (WORDS : nat) : BitMap :=
  mkBitMap (replicate WORDS 0) (Z.of_nat WORDS * WORD_BITS) 0.

(** [assert!(bits <= WORDS * WORD_BITS)] *)
Definition BitMap_new_with_capacity (WORDS : nat) (bits : Z) : outcome BitMap :=
  if bits <=? Z.of_nat WORDS * WORD_BITS
  then mret (mkBitMap (replicate WORDS 0) bits 0)
  else Panic.

Definition BitMap_capacity (self : BitMap) : Z :=
  Z.of_nat (length (bm_words self)) * WORD_BITS.

Definition BitMap_available (self : BitMap) : outcome Z :=
  usize_sub (bm_bits self) (bm_used self).

Definition BitMap_is_full (self : BitMap) : bool := bm_used self =? bm_bits self.

Definition BitMap_is_empty (self : BitMap) : bool := bm_used self =? 0.

Definition BitMap_contains (self : BitMap) (index : Z) : bool :=
  index <? bm_bits self.

Definition BitMap_get (self : BitMap) (index : Z)
    : outcome (result BitMapError bool) :=
  if negb (BitMap_contains self index) then mret (Err OutOfRange)
  else b ← is_bit_set (bm_words self) index; mret (Ok b).

(** [contains(index) && is_bit_set(words, index)], short-circuiting. *)
Definition BitMap_is_allocated (self : BitMap) (index : Z) : outcome bool :=
  if BitMap_contains self index then is_bit_set (bm_words self) index
  else mret false.

Definition BitMap_is_free (self : BitMap) (index : Z) : outcome bool :=
  if BitMap_contains self index then
    b ← BitMap_is_allocated self index; mret (negb b)
  else mret false.

(** [set_bit(&mut self.words, index); self.used += 1] *)
Definition BitMap_occupy (self : BitMap) (index : Z) : outcome BitMap :=
  words ← set_bit (bm_words self) index;
  mret (mkBitMap words (bm_bits self) (bm_used self + 1)).

(** [clear_bit(&mut self.words, index); self.used -= 1] *)
Definition BitMap_release (self : BitMap) (index : Z) : outcome BitMap :=
  words ← clear_bit (bm_words self) index;
  used ← usize_sub (bm_used self) 1;
  mret (mkBitMap words (bm_bits self) used).

Definition BitMap_set (self : BitMap) (index : Z)
    : outcome (result BitMapError unit * BitMap) :=
  if negb (BitMap_contains self index) then mret (Err OutOfRange, self)
  else
    b ← BitMap_is_allocated self index;
    if negb b then self ← BitMap_occupy self index; mret (Ok tt, self)
    else mret (Ok tt, self).

Definition BitMap_clear (self : BitMap) (index : Z)
    : outcome (result BitMapError unit * BitMap) :=
  if negb (BitMap_contains self index) then mret (Err OutOfRange, self)
  else
    b ← BitMap_is_allocated self index;
    if (b : bool) then self ← BitMap_release self index; mret (Ok tt, self)
    else mret (Ok tt, self).

Definition BitMap_find_free_from (self : BitMap) (start : Z) : outcome (option Z) :=
  if bm_used self =? bm_bits self then mret None
  else scan_words (bm_words self) (bm_bits self) start true.

Definition BitMap_find_free (self : BitMap) : outcome (option Z) :=
  BitMap_find_free_from self 0.

Definition BitMap_find_used_from (self : BitMap) (start : Z) : outcome (option Z) :=
  if bm_used self =? 0 then mret None
  else scan_words (bm_words self) (bm_bits self) start false.

Definition BitMap_find_used (self : BitMap) : outcome (option Z) :=
  BitMap_find_used_from self 0.

Definition BitMap_alloc (self : BitMap) : outcome (option Z * BitMap) :=
  found ← BitMap_find_free self;
  match found with
  | None => mret (None, self)
  | Some index => self ← BitMap_occupy self index; mret (Some index, self)
  end.

Definition BitMap_alloc_from (self : BitMap) (start : Z)
    : outcome (option Z * BitMap) :=
  found ← BitMap_find_free_from self start;
  match found with
  | None => mret (None, self)
  | Some index => self ← BitMap_occupy self index; mret (Some index, self)
  end.

Definition BitMap_alloc_specific (self : BitMap) (index : Z)
    : outcome (result BitMapError unit * BitMap) :=
  if negb (BitMap_contains self index) then mret (Err OutOfRange, self)
  else
    b ← BitMap_is_allocated self index;
    if (b : bool) then mret (Err AlreadySet, self)
    else self ← BitMap_occupy self index; mret (Ok tt, self).

Definition BitMap_free (self : BitMap) (index : Z)
    : outcome (result BitMapError unit * BitMap) :=
  if negb (BitMap_contains self index) then mret (Err OutOfRange, self)
  else
    b ← BitMap_is_allocated self index;
    if negb b then mret (Err AlreadyFree, self)
    else self ← BitMap_release self index; mret (Ok tt, self).

Definition BitMap_alloc_range (self : BitMap) (n : Z)
    : outcome (option Z * BitMap) :=
  if n =? 0 then mret (None, self)
  else
    available ← BitMap_available self;
    if available <? n then mret (None, self)
    else
    r ← alloc_range_in (bm_words self) (bm_bits self) n;
    match r with
    | (None, words) => mret (None, mkBitMap words (bm_bits self) (bm_used self))
    | (Some start, words) =>
        mret (Some start, mkBitMap words (bm_bits self) (bm_used self + n))
    end.

Definition BitMap_free_range (self : BitMap) (rstart rend : Z)
    : outcome (result BitMapError unit * BitMap) :=
  let len := saturating_sub rend rstart in
  r ← free_range_in (bm_words self) (bm_bits self) rstart rend;
  match r with
  | (Err e, words) => mret (Err e, mkBitMap words (bm_bits self) (bm_used self))
  | (Ok _, words) =>
      used ← usize_sub (bm_used self) len;
      mret (Ok tt, mkBitMap words (bm_bits self) used)
  end.

Definition BitMap_reset (self : BitMap) : BitMap :=
  mkBitMap (replicate (length (bm_words self)) 0) (bm_bits self) 0.

(** *** Conversions into [BitMap] *)

Definition BitMap_from_words (words : list Z) : BitMap :=
  mkBitMap words (Z.of_nat (length words) * WORD_BITS) (count_used words).

Definition BitMap_try_from_words (WORDS : nat) (words : list Z)
    : result BitMapError BitMap :=
  if Z.of_nat WORDS <? Z.of_nat (length words) then Err LengthMismatch
  else Ok (mkBitMap (words ++ replicate (WORDS - length words) 0)
             (Z.of_nat (length words) * WORD_BITS) (count_used words)).

(** The common implementation of the byte conversions; [from_bytes] is
    [usize::from_le_bytes], [from_be_bytes] or [from_ne_bytes]. *)
Definition BitMap_try_from_bytes_with (WORDS : nat) (bytes : list Z)
    (from_bytes : list Z -> Z) : result BitMapError BitMap :=
  if negb (Z.of_nat (length bytes) mod 8 =? 0) then Err LengthMismatch
  else
    let n := Z.of_nat (length bytes) / 8 in
    if Z.of_nat WORDS <? n then Err LengthMismatch
    else
      let read := map from_bytes (chunks 8 bytes) in
      let out := read ++ replicate (WORDS - length read) 0 in
      Ok (mkBitMap out (n * WORD_BITS) (count_used (take (Z.to_nat n) out))).

Definition BitMap_try_from_le_bytes (WORDS : nat) (bytes : list Z)
    : result BitMapError BitMap :=
  BitMap_try_from_bytes_with WORDS bytes from_le_bytes.

Definition BitMap_try_from_be_bytes (WORDS : nat) (bytes : list Z)
    : result BitMapError BitMap :=
  BitMap_try_from_bytes_with WORDS bytes from_be_bytes.

(** [TryFrom<&[u8]>]: native endianness, little-endian on riscv64. *)
Definition BitMap_try_from_bytes (WORDS : nat) (bytes : list Z)
    : result BitMapError BitMap :=
  BitMap_try_from_bytes_with WORDS bytes from_le_bytes.

(** ** The borrowed bitmap [BitMapView]

    [vw_words] is the borrowed memory; a method that writes through the view
    returns the memory's new contents in the new view. *)

Record BitMapView : Type := mkView {
  vw_words : list Z;
  vw_bits : Z
}.

Definition View_new (words : list Z) : BitMapView :=
  mkView words (Z.of_nat (length words) * WORD_BITS).

Definition View_new_with_capacity (words : list Z) (bits : Z) : outcome BitMapView :=
  if bits <=? Z.of_nat (length words) * WORD_BITS then mret (mkView words bits)
  else Panic.

(** [TryFrom<&mut [u8]>]: [addr] is the address of the borrowed buffer. *)
Definition View_try_from_bytes (addr : Z) (bytes : list Z)
    : result BitMapError BitMapView :=
  if negb (Z.of_nat (length bytes) mod 8 =? 0) then Err LengthMismatch
  else if negb (addr mod 8 =? 0) then Err Misaligned
  else
    let words := Z.of_nat (length bytes) / 8 in
    Ok (mkView (map from_le_bytes (chunks 8 bytes)) (words * WORD_BITS)).

Definition View_used (self : BitMapView) : Z := count_used (vw_words self).

Definition View_available (self : BitMapView) : outcome Z :=
  usize_sub (vw_bits self) (View_used self).

Definition View_is_full (self : BitMapView) : bool := View_used self =? vw_bits self.

Definition View_is_empty (self : BitMapView) : bool := View_used self =? 0.

Definition View_contains (self : BitMapView) (index : Z) : bool :=
  index <? vw_bits self.

Definition View_get (self : BitMapView) (index : Z)
    : outcome (result BitMapError bool) :=
  if negb (View_contains self index) then mret (Err OutOfRange)
  else b ← is_bit_set (vw_words self) index; mret (Ok b).

Definition View_is_allocated (self : BitMapView) (index : Z) : outcome bool :=
  if View_contains self index then is_bit_set (vw_words self) index
  else mret false.

Definition View_is_free (self : BitMapView) (index : Z) : outcome bool :=
  if View_contains self index then
    b ← View_is_allocated self index; mret (negb b)
  else mret false.

Definition View_set (self : BitMapView) (index : Z)
    : outcome (result BitMapError unit * BitMapView) :=
  if negb (View_contains self index) then mret (Err OutOfRange, self)
  else
    words ← set_bit (vw_words self) index;
    mret (Ok tt, mkView words (vw_bits self)).

Definition View_clear (self : BitMapView) (index : Z)
    : outcome (result BitMapError unit * BitMapView) :=
  if negb (View_contains self index) then mret (Err OutOfRange, self)
  else
    words ← clear_bit (vw_words self) index;
    mret (Ok tt, mkView words (vw_bits self)).

Definition View_find_free_from (self : BitMapView) (start : Z) : outcome (option Z) :=
  scan_words (vw_words self) (vw_bits self) start true.

Definition View_find_free (self : BitMapView) : outcome (option Z) :=
  View_find_free_from self 0.

Definition View_find_used_from (self : BitMapView) (start : Z) : outcome (option Z) :=
  scan_words (vw_words self) (vw_bits self) start false.

Definition View_find_used (self : BitMapView) : outcome (option Z) :=
  View_find_used_from self 0.

Definition View_alloc_from (self : BitMapView) (start : Z)
    : outcome (option Z * BitMapView) :=
  found ← View_find_free_from self start;
  match found with
  | None => mret (None, self)
  | Some index =>
      words ← set_bit (vw_words self) index;
      mret (Some index, mkView words (vw_bits self))
  end.

Definition View_alloc (self : BitMapView) : outcome (option Z * BitMapView) :=
  found ← View_find_free self;
  match found with
  | None => mret (None, self)
  | Some index =>
      words ← set_bit (vw_words self) index;
      mret (Some index, mkView words (vw_bits self))
  end.

Definition View_alloc_specific (self : BitMapView) (index : Z)
    : outcome (result BitMapError unit * BitMapView) :=
  if negb (View_contains self index) then mret (Err OutOfRange, self)
  else
    b ← View_is_allocated self index;
    if (b : bool) then mret (Err AlreadySet, self)
    else
      words ← set_bit (vw_words self) index;
      mret (Ok tt, mkView words (vw_bits self)).

Definition View_free (self : BitMapView) (index : Z)
    : outcome (result BitMapError unit * BitMapView) :=
  if negb (View_contains self index) then mret (Err OutOfRange, self)
  else
    b ← View_is_allocated self index;
    if negb b then mret (Err AlreadyFree, self)
    else
      words ← clear_bit (vw_words self) index;
      mret (Ok tt, mkView words (vw_bits self)).

Definition View_alloc_range (self : BitMapView) (n : Z)
    : outcome (option Z * BitMapView) :=
  if n =? 0 then mret (None, self)
  else
    available ← View_available self;
    if available <? n then mret (None, self)
    else
      '(r, words) ← alloc_range_in (vw_words self) (vw_bits self) n;
      mret (r, mkView words (vw_bits self)).

Definition View_free_range (self : BitMapView) (rstart rend : Z)
    : outcome (result BitMapError unit * BitMapView) :=
  '(r, words) ← free_range_in (vw_words self) (vw_bits self) rstart rend;
  mret (r, mkView words (vw_bits self)).

Definition View_reset (self : BitMapView) : BitMapView :=
  mkView (replicate (length (vw_words self)) 0) (vw_bits self).

(** ** The ascending iterator [BitIter] *)

Record BitIter : Type := mkIter {
  it_words : list Z;
  it_bits : Z;
  it_want_free : bool;
  it_next : Z
}.

Definition BitMap_iter_used (self : BitMap) : BitIter :=
  mkIter (bm_words self) (bm_bits self) false 0.

Definition BitMap_iter_free (self : BitMap) : BitIter :=
  mkIter (bm_words self) (bm_bits self) true 0.

Definition View_iter_used (self : BitMapView) : BitIter :=
  mkIter (vw_words self) (vw_bits self) false 0.

Definition View_iter_free (self : BitMapView) : BitIter :=
  mkIter (vw_words self) (vw_bits self) true 0.

Definition BitIter_next (self : BitIter) : outcome (option Z * BitIter) :=
  r ← scan_words (it_words self) (it_bits self) (it_next self) (it_want_free self);
  match r with
  | None => mret (None, self)
  | Some found =>
      mret (Some found,
            mkIter (it_words self) (it_bits self) (it_want_free self) (found + 1))
  end.

Definition BitIter_size_hint (self : BitIter) : Z * option Z :=
  (0, Some (saturating_sub (it_bits self) (it_next self))).

(** [Iterator::collect] on a [BitIter]: call [next] until it returns [None]. *)
Fixpoint BitIter_collect (fuel : nat) (self : BitIter) : outcome (list Z) :=
  match fuel with
  | O => Panic
  | S fuel =>
      '(r, self) ← BitIter_next self;
      match r with
      | None => mret []
      | Some i => rest ← BitIter_collect fuel self; mret (i :: rest)
      end
  end.

(** ** The reference view of a word array *)

(** Bit [i] of the array. *)
Definition bit (words : list Z) (i : Z) : bool :=
  match words !! Z.to_nat (i / WORD_BITS) with
  | Some w => Z.testbit w (i mod WORD_BITS)
  | None => false
  end.

Definition words_ok (words : list Z) : Prop := Forall (fits 64) words.

(** Number of bits the array can hold. *)
Definition nbits (words : list Z) : Z := Z.of_nat (length words) * WORD_BITS.

Lemma nbits_nonneg words : 0 <= nbits words.
Proof. unfold nbits, WORD_BITS. lia. Qed.

#[export] Hint Resolve nbits_nonneg : athera.

Lemma word_index words i : 0 <= i < nbits words ->
  exists w, words !! Z.to_nat (i / WORD_BITS) = Some w.
Proof.
  intros Hi. apply lookup_lt_is_Some_2. unfold nbits, WORD_BITS in *.
  assert (0 <= i / 64 < Z.of_nat (length words)).
  { split; [apply Z.div_pos; lia | apply Z.div_lt_upper_bound; lia]. }
  lia.
Qed.

Lemma bit_out words i : nbits words <= i -> bit words i = false.
Proof.
  intros Hi. unfold bit. rewrite lookup_ge_None_2; [done|].
  unfold nbits, WORD_BITS in *.
  assert (Z.of_nat (length words) <= i / 64) by (apply Z.div_le_lower_bound; lia).
  lia.
Qed.

Lemma is_bit_set_ok words i : 0 <= i < nbits words ->
  is_bit_set words i = Ret (bit words i).
Proof.
  intros Hi. destruct (word_index words i Hi) as [w Hw].
  unfold is_bit_set, bit. rewrite Hw. simpl.
  rewrite land_one_shl by (apply Z.mod_pos_bound; unfold WORD_BITS; lia). done.
Qed.

(** [updated ws i b ws']: [ws'] is [ws] with bit [i] set to [b]. *)
Record updated (ws : list Z) (i : Z) (b : bool) (ws' : list Z) : Prop := {
  upd_ok : words_ok ws';
  upd_len : length ws' = length ws;
  upd_bit : forall j, 0 <= j -> bit ws' j = if j =? i then b else bit ws j
}.

Lemma bit_insert words i w j :
  0 <= i < nbits words -> 0 <= j ->
  bit (<[Z.to_nat (i / WORD_BITS) := w]> words) j =
  if j / WORD_BITS =? i / WORD_BITS then Z.testbit w (j mod WORD_BITS)
  else bit words j.
Proof.
  intros Hi Hj. unfold bit.
  destruct (Z.eqb_spec (j / WORD_BITS) (i / WORD_BITS)) as [->|Hne].
  - rewrite list_lookup_insert_eq; [done|].
    destruct (word_index words i Hi) as [w' Hw']. by eapply lookup_lt_Some.
  - rewrite list_lookup_insert_ne; [done|].
    assert (0 <= j / WORD_BITS) by (apply Z.div_pos; unfold WORD_BITS; lia).
    assert (0 <= i / WORD_BITS) by (apply Z.div_pos; unfold WORD_BITS; lia). lia.
Qed.

Lemma div_mod_split i j :
  (j =? i) = (j / WORD_BITS =? i / WORD_BITS) && (j mod WORD_BITS =? i mod WORD_BITS).
Proof.
  unfold WORD_BITS.
  destruct (Z.eqb_spec j i) as [->|Hne]; [by rewrite !Z.eqb_refl|].
  symmetry. apply andb_false_iff.
  destruct (Z.eqb_spec (j / 64) (i / 64)), (Z.eqb_spec (j mod 64) (i mod 64)); auto.
  exfalso. apply Hne. rewrite (Z.div_mod j 64), (Z.div_mod i 64) by lia. lia.
Qed.

Lemma words_ok_insert words k w :
  words_ok words -> fits 64 w -> words_ok (<[k := w]> words).
Proof. intros. by apply Forall_insert. Qed.

Lemma words_ok_lookup words k w : words_ok words -> words !! k = Some w -> fits 64 w.
Proof. intros H Hk. by eapply Forall_lookup in H. Qed.

#[export] Hint Resolve words_ok_insert words_ok_lookup : athera.

Lemma set_bit_ok words i : words_ok words -> 0 <= i < nbits words ->
  exists ws', set_bit words i = Ret ws' /\ updated words i true ws'.
Proof.
  intros Hok Hi. destruct (word_index words i Hi) as [w Hw].
  assert (Hm : 0 <= i mod WORD_BITS < 64) by (apply Z.mod_pos_bound; done).
  eexists. unfold set_bit. rewrite Hw. simpl. split; [done|]. split.
  - eauto with athera lia.
  - apply length_insert.
  - intros j Hj. rewrite bit_insert by lia. rewrite (div_mod_split i j).
    destruct (Z.eqb_spec (j / WORD_BITS) (i / WORD_BITS)) as [E|]; [|done].
    assert (0 <= j mod WORD_BITS) by (apply Z.mod_pos_bound; done).
    autorewrite with bits. unfold bit. rewrite E, Hw. simpl.
    destruct (_ =? _); [apply orb_true_r | apply orb_false_r].
Qed.

Lemma clear_bit_ok words i : words_ok words -> 0 <= i < nbits words ->
  exists ws', clear_bit words i = Ret ws' /\ updated words i false ws'.
Proof.
  intros Hok Hi. destruct (word_index words i Hi) as [w Hw].
  assert (Hm : 0 <= i mod WORD_BITS < 64) by (apply Z.mod_pos_bound; done).
  eexists. unfold clear_bit. rewrite Hw. simpl. split; [done|]. split.
  - eauto with athera lia.
  - apply length_insert.
  - intros j Hj. rewrite bit_insert by lia. rewrite (div_mod_split i j).
    destruct (Z.eqb_spec (j / WORD_BITS) (i / WORD_BITS)) as [E|]; [|done].
    assert (0 <= j mod WORD_BITS < 64) by (apply Z.mod_pos_bound; done).
    autorewrite with bits. unfold bit. rewrite E, Hw. simpl.
    destruct (_ =? _); simpl; [apply andb_false_r|].
    destruct (Z.ltb_spec (j mod WORD_BITS) 64); [apply andb_true_r | lia].
Qed.

(** Two well-formed arrays of the same length with the same bits are equal. *)
Lemma words_ext ws1 ws2 :
  words_ok ws1 -> words_ok ws2 -> length ws1 = length ws2 ->
  (forall i, 0 <= i < nbits ws1 -> bit ws1 i = bit ws2 i) -> ws1 = ws2.
Proof.
  intros H1 H2 Hl Hb. apply list_eq. intros k.
  destruct (decide (k < length ws1)%nat) as [Hk|Hk].
  2: { rewrite !lookup_ge_None_2; [done|lia|lia]. }
  destruct (lookup_lt_is_Some_2 ws1 k Hk) as [w1 Hw1].
  destruct (lookup_lt_is_Some_2 ws2 k) as [w2 Hw2]; [lia|].
  rewrite Hw1, Hw2. f_equal.
  apply (fits_ext 64); eauto with athera.
  intros i Hi. specialize (Hb (Z.of_nat k * 64 + i)).
  unfold nbits, bit, WORD_BITS in Hb.
  rewrite Z.add_comm, Z.div_add, Z.div_small, Z.mod_add, Z.mod_small in Hb by lia.
  rewrite Z.add_0_l, Nat2Z.id, Hw1, Hw2 in Hb. apply Hb. lia.
Qed.

(** ** Counting *)

Lemma bit_cons w ws i : 0 <= i ->
  bit (w :: ws) i = if i <? 64 then Z.testbit w i else bit ws (i - 64).
Proof.
  intros Hi. unfold bit, WORD_BITS. destruct (Z.ltb_spec i 64).
  - rewrite Z.div_small, Z.mod_small by lia. done.
  - replace (Z.to_nat (i / 64)) with (S (Z.to_nat ((i - 64) / 64))) by lia.
    replace (i mod 64) with ((i - 64) mod 64) by lia. done.
Qed.

Lemma countb_shift (p : Z -> bool) a n k :
  countb p (seqZ (a + k) n) = countb (fun i => p (k + i)) (seqZ a n).
Proof.
  rewrite Z.add_comm, <- fmap_add_seqZ.
  induction (seqZ a n) as [|x l IH]; [done|].
  rewrite fmap_cons, !countb_cons, IH. done.
Qed.

Lemma count_used_countb ws :
  count_used ws = countb (bit ws) (seqZ 0 (nbits ws)).
Proof.
  induction ws as [|w ws IH]; [done|].
  simpl count_used. rewrite IH, count_ones_countb.
  replace (nbits (w :: ws)) with (64 + nbits ws)
    by (unfold nbits, WORD_BITS; simpl length; lia).
  rewrite seqZ_app by (auto with athera; lia). rewrite countb_app.
  apply (f_equal2 Z.add).
  - apply countb_ext. intros i Hi%elem_of_seqZ.
    rewrite bit_cons by lia. destruct (Z.ltb_spec i 64); [done|lia].
  - rewrite countb_shift. apply countb_ext. intros i Hi%elem_of_seqZ.
    rewrite bit_cons by lia. destruct (Z.ltb_spec (64 + i) 64); [lia|].
    f_equal. lia.
Qed.

(** Counting only the bits below [n] when the others are clear. *)
Lemma countb_prefix (p : Z -> bool) n m : 0 <= n <= m ->
  (forall i, n <= i -> p i = false) ->
  countb p (seqZ 0 m) = countb p (seqZ 0 n).
Proof.
  intros Hnm Hp. replace m with (n + (m - n)) by lia.
  rewrite seqZ_app, countb_app by lia.
  replace (countb p (seqZ (0 + n) (m - n))) with 0; [lia|].
  symmetry. apply countb_zero. intros i Hi%elem_of_seqZ. apply Hp. lia.
Qed.

Lemma updated_count ws i b ws' n :
  updated ws i b ws' -> 0 <= i < n ->
  countb (bit ws') (seqZ 0 n) =
  countb (bit ws) (seqZ 0 n) + (if b then 1 else 0) - (if bit ws i then 1 else 0).
Proof.
  intros Hu Hi.
  pose proof (countb_update (bit ws) (fun j => if j =? i then b else bit ws j)
    (seqZ 0 n) i (NoDup_seqZ _ _)) as Hc.
  rewrite (countb_ext (bit ws') (fun j => if j =? i then b else bit ws j)).
  2: { intros j Hj%elem_of_seqZ. apply (upd_bit _ _ _ _ Hu). lia. }
  cbn beta in Hc. rewrite Z.eqb_refl in Hc.
  specialize (Hc ltac:(apply elem_of_seqZ; lia)).
  specialize (Hc ltac:(intros a Ha; by destruct (Z.eqb_spec a i))). lia.
Qed.

(** ** Scanning for a bit *)

(** Is bit [i] what the scan looks for? *)
Definition wanted (ws : list Z) (want_free : bool) (i : Z) : bool :=
  xorb want_free (bit ws i).

(** What a scan from [lo] returns. *)
Definition scan_result (ws : list Z) (bits lo : Z) (want_free : bool)
    (r : option Z) : Prop :=
  match r with
  | Some i =>
      lo <= i < nbits ws /\ wanted ws want_free i = true /\
      (forall j, lo <= j < i -> wanted ws want_free j = false) /\
      (i / 64 = Z.of_nat (length ws) - 1 -> bits mod 64 <> 0 -> i mod 64 < bits mod 64)
  | None => forall j, lo <= j < bits -> wanted ws want_free j = false
  end.

(** The word the loop tests, bit by bit. *)
Lemma scan_word_bits ws (want_free : bool) word k w lo (masked : bool) m :
  words_ok ws -> ws !! Z.to_nat word = Some w -> 0 <= word -> 0 <= k < 64 ->
  word * 64 <= lo -> 0 <= m ->
  let w1 := if want_free then wnot 64 (Z.lor w (Z.ones (lo - word * 64)))
            else Z.land w (wnot 64 (Z.ones (lo - word * 64))) in
  let w2 := if masked then Z.land w1 (Z.ones m) else w1 in
  Z.testbit w2 k =
  wanted ws want_free (word * 64 + k) && (lo <=? word * 64 + k) &&
  (negb masked || (k <? m)).
Proof.
  intros Hok Hw Hword Hk Hlo Hm. cbv zeta.
  assert (Hbit : bit ws (word * 64 + k) = Z.testbit w k).
  { unfold bit, WORD_BITS.
    replace ((word * 64 + k) / 64) with word by lia.
    replace ((word * 64 + k) mod 64) with k by lia. by rewrite Hw. }
  unfold wanted. rewrite Hbit.
  assert (H1 : Z.testbit (if want_free then wnot 64 (Z.lor w (Z.ones (lo - word * 64)))
            else Z.land w (wnot 64 (Z.ones (lo - word * 64)))) k
    = xorb want_free (Z.testbit w k) && (lo <=? word * 64 + k)).
  { destruct want_free; autorewrite with bits;
      destruct (Z.testbit w k), (Z.ltb_spec k (lo - word * 64)),
        (Z.leb_spec lo (word * 64 + k)), (Z.ltb_spec k 64); try lia; done. }
  destruct masked; [rewrite Z.land_spec, H1; autorewrite with bits; done|].
  rewrite H1. by rewrite andb_true_r.
Qed.

Lemma scan_word_fits ws (want_free : bool) word w lo (masked : bool) m :
  words_ok ws -> ws !! Z.to_nat word = Some w -> 
  let w1 := if want_free then wnot 64 (Z.lor w (Z.ones (lo - word * 64)))
            else Z.land w (wnot 64 (Z.ones (lo - word * 64))) in
  fits 64 (if masked then Z.land w1 (Z.ones m) else w1).
Proof.
  intros Hok Hw w1. assert (fits 64 w1).
  { subst w1. destruct want_free; eauto with athera lia. }
  destruct masked; eauto with athera lia.
Qed.

Lemma scan_loop_ok fuel ws bits want_free word lo :
  words_ok ws -> 0 <= bits <= nbits ws ->
  0 <= word < Z.of_nat (length ws) -> word * 64 <= lo < word * 64 + 64 ->
  Z.of_nat (length ws) - word <= Z.of_nat fuel ->
  exists r,
    scan_loop fuel ws bits (Z.of_nat (length ws) - 1) want_free word
      (Z.ones (lo - word * 64)) = Ret r /\
    scan_result ws bits lo want_free r.
Proof.
  revert word lo. induction fuel as [|fuel IH]; intros word lo Hok Hbits Hword Hlo Hfuel;
    [lia|].
  destruct (lookup_lt_is_Some_2 ws (Z.to_nat word)) as [w Hw]; [lia|].
  cbn [scan_loop]. rewrite Hw. cbn [expect]. rewrite outcome_bind_Ret.
  unfold WORD_BITS. rewrite mask_ones by (apply Z.mod_pos_bound; lia).
  set (masked := (word =? Z.of_nat (length ws) - 1) && negb (bits mod 64 =? 0)).
  assert (Hbits' := fun k Hk => scan_word_bits ws want_free word k w lo masked
    (bits mod 64) Hok Hw ltac:(lia) Hk ltac:(lia) ltac:(apply Z.mod_pos_bound; lia)).
  assert (Hfit := scan_word_fits ws want_free word w lo masked (bits mod 64) Hok Hw).
  cbv zeta in Hbits', Hfit |- *.
  set (w2 := if masked then _ else _) in *. clearbody w2.
  assert (Hmask : masked = true <->
    word = Z.of_nat (length ws) - 1 /\ bits mod 64 <> 0).
  { subst masked. rewrite andb_true_iff, negb_true_iff, Z.eqb_eq, Z.eqb_neq. done. }
  destruct (Z.eqb_spec w2 0) as [->|Hnz]; cbn [negb].
  - (* no candidate in this word *)
    assert (Hnone : forall j, lo <= j < word * 64 + 64 -> masked = false \/ j < bits ->
              wanted ws want_free j = false).
    { intros j Hj Hjb. specialize (Hbits' (j - word * 64) ltac:(lia)).
      rewrite Z.bits_0 in Hbits'. replace (word * 64 + (j - word * 64)) with j in Hbits' by lia.
      symmetry in Hbits'. destruct (wanted ws want_free j); [|done].
      destruct (Z.leb_spec lo j); [|lia]. simpl in Hbits'.
      destruct masked; [|discriminate]. simpl in Hbits'. zify_bool.
      destruct Hjb; [done|].
      destruct (proj1 Hmask eq_refl). unfold nbits, WORD_BITS in *. lia. }
    destruct (Z.eqb_spec word (Z.of_nat (length ws) - 1)) as [Hl|Hl].
    + eexists; split; [done|]. intros j Hj. apply Hnone; [|lia].
      unfold nbits, WORD_BITS in *. lia.
    + assert (Hm : masked = false).
      { destruct masked; [|done]. by destruct (proj1 Hmask eq_refl). }
      destruct (IH (word + 1) ((word + 1) * 64)) as (r & Hr & Hspec); try lia; [done|].
      exists r. split.
      { rewrite <- Hr. f_equal. rewrite Z.sub_diag. done. }
      assert (Hskip : forall j, lo <= j < (word + 1) * 64 -> wanted ws want_free j = false).
      { intros j Hj. apply Hnone; [lia|by left]. }
      destruct r as [i|]; cbn [scan_result] in Hspec |- *.
      * destruct Hspec as (H1 & H2 & H3 & H4). repeat split; try lia; try done.
        intros j Hj. destruct (Z.lt_ge_cases j ((word + 1) * 64));
          [apply Hskip; lia | apply H3; lia].
      * intros j Hj. destruct (Z.lt_ge_cases j ((word + 1) * 64));
          [apply Hskip; lia | apply Hspec; lia].
  - (* the lowest bit of the word is the answer *)
    destruct (trailing_zeros_spec w2 Hfit Hnz) as (Ht1 & Ht2 & Ht3).
    eexists; split; [done|]. set (t := trailing_zeros w2) in *.
    rewrite Hbits' in Ht2 by lia. zify_bool. cbn [scan_result].
    split; [unfold nbits, WORD_BITS; lia|]. split; [done|]. split.
    + intros j Hj. specialize (Ht3 (j - word * 64) ltac:(lia)).
      rewrite Hbits' in Ht3 by lia.
      replace (word * 64 + (j - word * 64)) with j in Ht3 by lia.
      destruct (wanted ws want_free j); [|done].
      destruct (Z.leb_spec lo j); [|lia]. simpl in Ht3.
      destruct masked; [|discriminate]. simpl in *. zify_bool. lia.
    + intros Hlast Hmod. assert (Hmk : masked = true) by (apply Hmask; lia).
      rewrite Hmk in *. simpl in *. zify_bool. lia.
Qed.

Lemma scan_words_ok ws bits start want_free :
  words_ok ws -> 0 <= bits <= nbits ws -> 0 <= start ->
  exists r, scan_words ws bits start want_free = Ret r /\
            scan_result ws bits start want_free r.
Proof.
  intros Hok Hbits Hs. unfold scan_words.
  destruct (Z.eqb_spec (Z.of_nat (length ws)) 0) as [Hl|Hl]; cbn [orb].
  { eexists; split; [done|]. intros j Hj. unfold nbits, WORD_BITS in *. lia. }
  destruct (Z.leb_spec bits start).
  { eexists; split; [done|]. intros j Hj. lia. }
  unfold WORD_BITS. rewrite mask_ones by lia.
  replace (start mod 64) with (start - start / 64 * 64) by lia.
  apply scan_loop_ok; try done; unfold nbits, WORD_BITS in *; lia.
Qed.

(** Does the array have exactly the words [bits] needs? *)
Definition exact_fit (ws : list Z) (bits : Z) : Prop :=
  Z.of_nat (length ws) = words_for bits.

Lemma scan_words_first ws bits start want_free :
  words_ok ws -> 0 <= bits <= nbits ws -> 0 <= start ->
  exact_fit ws bits \/
    (exists j, start <= j < bits /\ wanted ws want_free j = true) ->
  exists r, scan_words ws bits start want_free = Ret r /\
            first_in (wanted ws want_free) start bits r.
Proof.
  intros Hok Hbits Hs Hfit.
  destruct (scan_words_ok ws bits start want_free Hok Hbits Hs) as (r & Hr & Hspec).
  exists r. split; [done|]. destruct r as [i|]; [|exact Hspec].
  destruct Hspec as (H1 & H2 & H3 & H4). split; [|by split].
  destruct Hfit as [Hfit|(j & Hj & Hw)].
  - unfold exact_fit, words_for, div_ceil, nbits, WORD_BITS in *.
    destruct (Z.eqb_spec (bits mod 64) 0); [lia|].
    destruct (Z.eq_dec (i / 64) (Z.of_nat (length ws) - 1)); lia.
  - split; [lia|]. destruct (Z.lt_ge_cases j i) as [Hl|]; [|lia].
    rewrite H3 in Hw by lia. discriminate.
Qed.

(** [for_each] over duplicate-free in-range indices updates exactly those
    bits, and changes the number of set bits accordingly. *)
Section ForEach.
Context (step : list Z -> Z -> outcome (list Z)) (b : bool).
Hypothesis step_ok : forall ws i, words_ok ws -> 0 <= i < nbits ws ->
  exists ws', step ws i = Ret ws' /\ updated ws i b ws'.

Lemma for_each_ok js ws m :
  words_ok ws -> 0 <= m <= nbits ws -> NoDup js ->
  (forall j, j ∈ js -> 0 <= j < m /\ bit ws j = negb b) ->
  exists ws', for_each step ws js = Ret ws' /\
    words_ok ws' /\ length ws' = length ws /\
    (forall j, 0 <= j -> bit ws' j = if decide (j ∈ js) then b else bit ws j) /\
    countb (bit ws') (seqZ 0 m) =
      countb (bit ws) (seqZ 0 m) + (if b then 1 else -1) * Z.of_nat (length js).
Proof using step_ok.
  revert ws. induction js as [|j js IH]; intros ws Hok Hm Hnd Hjs.
  - exists ws. do 3 (split; [done|]). split; [|simpl; lia].
    intros j _. destruct (decide (j ∈ [])) as [Hin|]; [|done].
    by apply not_elem_of_nil in Hin.
  - apply NoDup_cons in Hnd as [Hnj Hnd].
    destruct (Hjs j ltac:(left)) as [Hj Hbj].
    destruct (step_ok ws j Hok) as (ws1 & Hs1 & Hu); [lia|].
    destruct (IH ws1) as (ws2 & Hs2 & Hok2 & Hl2 & Hb2 & Hc2).
    + apply Hu.
    + unfold nbits. rewrite (upd_len _ _ _ _ Hu). done.
    + done.
    + intros k Hk. destruct (Hjs k ltac:(by right)) as [Hk1 Hk2].
      split; [done|]. rewrite (upd_bit _ _ _ _ Hu) by lia.
      by destruct (Z.eqb_spec k j) as [->|].
    + exists ws2. cbn [for_each]. rewrite Hs1, outcome_bind_Ret.
      split; [done|]. split; [done|].
      split; [rewrite Hl2; apply Hu|]. split.
      * intros k Hk. rewrite Hb2 by lia. rewrite (upd_bit _ _ _ _ Hu) by lia.
        destruct (Z.eqb_spec k j) as [->|Hne].
        -- rewrite decide_False by done. rewrite decide_True by left. done.
        -- destruct (decide (k ∈ js)) as [Hin|Hin].
           ++ by rewrite decide_True by (by right).
           ++ rewrite decide_False; [done|]. intros [|]%elem_of_cons; done.
      * rewrite Hc2, (updated_count _ _ _ _ m Hu) by lia. rewrite Hbj.
        cbn [length]. destruct b; simpl negb; cbn iota; lia.
Qed.
End ForEach.

(** Is the run of [n] bits from [s] free? *)
Definition run_free (f : Z -> bool) (n s : Z) : bool :=
  forallb (fun j => negb (f j)) (seqZ s n).

Lemma run_free_spec f n s :
  run_free f n s = true <-> forall j, s <= j < s + n -> f j = false.
Proof.
  unfold run_free. rewrite forallb_seqZ.
  split; intros H j Hj; specialize (H j Hj); by apply negb_true_iff.
Qed.

Lemma run_busy f n s j : s <= j < s + n -> f j = true -> run_free f n s = false.
Proof.
  intros Hj Hf. apply not_true_iff_false. rewrite run_free_spec.
  intros H. rewrite H in Hf by done. discriminate.
Qed.

(** The state of [alloc_range_in]'s loop before index [i]: [run_len] free bits
    end at [i], preceded by a busy bit, and no run of [n] free bits ends
    before [i]. *)
Record run_inv (f : Z -> bool) (n i run_start run_len : Z) : Prop := {
  ri_len : 0 <= run_len < n;
  ri_i : run_len <= i;
  ri_start : 0 < run_len -> run_start = i - run_len;
  ri_free : forall j, i - run_len <= j < i -> f j = false;
  ri_max : run_len = i \/ f (i - run_len - 1) = true;
  ri_none : forall s, 0 <= s -> s + n <= i -> run_free f n s = false
}.

Lemma run_inv_busy f n i rs rl :
  run_inv f n i rs rl -> 0 <= i -> f i = true -> run_inv f n (i + 1) rs 0.
Proof.
  intros [H1 H2 H3 H4 H5 H6] Hi Hf. split; try lia.
  - right. replace (i + 1 - 0 - 1) with i by lia. done.
  - intros s Hs Hsn. destruct (Z.eq_dec (s + n) (i + 1)).
    + apply (run_busy _ _ _ i); [lia|done].
    + apply H6; lia.
Qed.

Lemma run_inv_free f n i rs rl :
  run_inv f n i rs rl -> 0 <= i -> f i = false -> rl + 1 <> n ->
  run_inv f n (i + 1) (if rl =? 0 then i else rs) (rl + 1).
Proof.
  intros [H1 H2 H3 H4 H5 H6] Hi Hf Hn. split; try lia.
  - intros _. destruct (Z.eqb_spec rl 0); lia.
  - intros j Hj. destruct (Z.eq_dec j i) as [->|]; [done|]. apply H4; lia.
  - destruct H5 as [->|H5]; [by left|]. right.
    by replace (i + 1 - (rl + 1) - 1) with (i - rl - 1) by lia.
  - intros s Hs Hsn. destruct (Z.eq_dec (s + n) (i + 1)); [|apply H6; lia].
    destruct H5 as [->|H5]; [lia|]. apply (run_busy _ _ _ (i - rl - 1)); [lia|done].
Qed.

Lemma run_inv_done f n i rs rl bits :
  run_inv f n i rs rl -> 0 <= i < bits -> f i = false -> rl + 1 = n ->
  first_in (run_free f n) 0 (bits - n + 1) (Some (if rl =? 0 then i else rs)).
Proof.
  intros [H1 H2 H3 H4 H5 H6] Hi Hf Hn.
  assert (Hs : (if rl =? 0 then i else rs) = i - rl).
  { destruct (Z.eqb_spec rl 0); lia. }
  rewrite Hs. split; [lia|]. split.
  - apply run_free_spec. intros j Hj.
    destruct (Z.eq_dec j i) as [->|]; [done|]. apply H4; lia.
  - intros s Hsr. apply H6; lia.
Qed.

(** What allocating the run [r] leaves in the array. *)
Definition run_allocated (ws : list Z) (n : Z) (r : option Z) (ws' : list Z) : Prop :=
  words_ok ws' /\ length ws' = length ws /\
  (forall j, 0 <= j -> bit ws' j =
    match r with
    | Some s => if decide (j ∈ seqZ s n) then true else bit ws j
    | None => bit ws j
    end) /\
  forall m, 0 <= m <= nbits ws -> (forall s, r = Some s -> s + n <= m) ->
    countb (bit ws') (seqZ 0 m) =
    countb (bit ws) (seqZ 0 m) + match r with Some _ => n | None => 0 end.

Lemma run_allocated_none ws n : words_ok ws -> run_allocated ws n None ws.
Proof. intros. split; [done|]. split; [done|]. split; [done|]. intros; lia. Qed.

Lemma set_run_ok ws n s :
  words_ok ws -> 0 <= n -> 0 <= s -> s + n <= nbits ws ->
  run_free (bit ws) n s = true ->
  exists ws', for_each set_bit ws (seqZ s n) = Ret ws' /\
              run_allocated ws n (Some s) ws'.
Proof.
  intros Hok Hn Hs Hsn Hfree. rewrite run_free_spec in Hfree.
  assert (Hall := fun m Hm => for_each_ok set_bit true set_bit_ok (seqZ s n) ws m Hok Hm
    (NoDup_seqZ _ _)).
  destruct (Hall (nbits ws)) as (ws' & Hf & Hok' & Hl & Hb & _).
  { pose proof (nbits_nonneg ws). lia. }
  { intros j Hj%elem_of_seqZ. split; [lia|]. by apply Hfree. }
  exists ws'. split; [done|]. split; [done|]. split; [done|]. split; [done|].
  intros m Hm Hsm. specialize (Hsm s eq_refl).
  destruct (Hall m Hm) as (ws2 & Hf2 & _ & _ & _ & Hc).
  { intros j Hj%elem_of_seqZ. split; [lia|]. by apply Hfree. }
  rewrite Hf in Hf2. injection Hf2 as <-. rewrite Hc, length_seqZ. lia.
Qed.

Lemma alloc_range_loop_ok ws bits n (k : nat) i rs rl :
  words_ok ws -> 0 <= bits <= nbits ws -> 0 <= i -> i + Z.of_nat k = bits ->
  run_inv (bit ws) n i rs rl ->
  exists r ws', alloc_range_loop ws n (seqZ i (Z.of_nat k)) rs rl = Ret (r, ws') /\
    first_in (run_free (bit ws) n) 0 (bits - n + 1) r /\ run_allocated ws n r ws'.
Proof.
  intros Hok Hbits. revert i rs rl. induction k as [|k IH]; intros i rs rl Hi Hk Hinv.
  { exists None, ws. split; [done|]. split; [|by apply run_allocated_none].
    intros s Hs. apply (ri_none _ _ _ _ _ Hinv); lia. }
  rewrite seqZ_cons by lia.
  replace (Z.pred (Z.of_nat (S k))) with (Z.of_nat k) by lia.
  replace (Z.succ i) with (i + 1) by lia. cbn [alloc_range_loop].
  rewrite is_bit_set_ok, outcome_bind_Ret by lia. destruct (bit ws i) eqn:Eb.
  { apply IH; [lia|lia|]. by apply (run_inv_busy _ _ _ _ rl). }
  cbv zeta. destruct (Z.eqb_spec (rl + 1) n) as [He|He].
  - pose proof (run_inv_done _ _ _ _ _ bits Hinv ltac:(lia) Eb He) as Hfirst.
    destruct (set_run_ok ws n (if rl =? 0 then i else rs)) as (ws' & Hset & Hrun);
      [done | destruct (ri_len _ _ _ _ _ Hinv); lia | destruct Hfirst; lia
      | destruct Hfirst; lia | by destruct Hfirst as (_ & ? & _) |].
    eexists _, ws'. rewrite Hset. split; [done|]. split; [done|]. done.
  - apply IH; [lia|lia|]. by apply run_inv_free.
Qed.

Lemma alloc_range_in_ok ws bits n :
  words_ok ws -> 0 <= bits <= nbits ws -> 0 < n ->
  exists r ws', alloc_range_in ws bits n = Ret (r, ws') /\
    first_in (run_free (bit ws) n) 0 (bits - n + 1) r /\ run_allocated ws n r ws'.
Proof.
  intros Hok Hbits Hn. unfold alloc_range_in.
  destruct (Z.eqb_spec n 0); [lia|].
  replace (seqZ 0 bits) with (seqZ 0 (Z.of_nat (Z.to_nat bits))) by (f_equal; lia).
  apply alloc_range_loop_ok; try done; try lia.
  split; lia.
Qed.

(** ** The abstract bitmap

    The abstract state of a bitmap of [bits] bits is the function [f] telling
    which indices are allocated. [spec_step] says what every operation returns
    and how it changes [f]; the owned map and the borrowed view are both shown
    to implement it. *)

Inductive BitMapOp : Type :=
| OpSet (i : Z)
| OpClear (i : Z)
| OpAlloc
| OpAllocFrom (start : Z)
| OpAllocSpecific (i : Z)
| OpFree (i : Z)
| OpAllocRange (n : Z)
| OpFreeRange (rstart rend : Z)
| OpReset.

Inductive BitMapRes : Type :=
| RUnit (r : result BitMapError unit)
| RIndex (r : option Z)
| RVoid.

(** The arguments of the operation are values of type [usize]. *)
Definition op_ok (op : BitMapOp) : Prop :=
  match op with
  | OpSet i | OpClear i | OpAllocFrom i | OpAllocSpecific i | OpFree i => 0 <= i
  | OpAllocRange n => 0 <= n
  | OpFreeRange a b => 0 <= a /\ 0 <= b
  | OpAlloc | OpReset => True
  end.

Definition spec_take (f : Z -> bool) (r : option Z) (n : Z)
    : BitMapRes * (Z -> bool) :=
  (RIndex r, match r with Some s => fill f s n true | None => f end).

Definition spec_step (bits : Z) (f : Z -> bool) (op : BitMapOp)
    : BitMapRes * (Z -> bool) :=
  let in_range i k := if i <? bits then k else (RUnit (Err OutOfRange), f) in
  match op with
  | OpSet i => in_range i (RUnit (Ok tt), fill f i 1 true)
  | OpClear i => in_range i (RUnit (Ok tt), fill f i 1 false)
  | OpAlloc => spec_take f (List.find (fun i => negb (f i)) (seqZ 0 bits)) 1
  | OpAllocFrom start =>
      spec_take f (List.find (fun i => negb (f i)) (seqZ start (bits - start))) 1
  | OpAllocSpecific i =>
      in_range i (if f i then (RUnit (Err AlreadySet), f)
                  else (RUnit (Ok tt), fill f i 1 true))
  | OpFree i =>
      in_range i (if f i then (RUnit (Ok tt), fill f i 1 false)
                  else (RUnit (Err AlreadyFree), f))
  | OpAllocRange n =>
      if n =? 0 then (RIndex None, f)
      else spec_take f (List.find (run_free f n) (seqZ 0 (bits - n + 1))) n
  | OpFreeRange a b =>
      if (b <? a) || (bits <? b) then (RUnit (Err OutOfRange), f)
      else if forallb f (seqZ a (b - a)) then (RUnit (Ok tt), fill f a (b - a) false)
      else (RUnit (Err AlreadyFree), f)
  | OpReset => (RVoid, fun _ => false)
  end.

(** The result of an operation, tagged. *)
Definition unit_res {T} (p : result BitMapError unit * T) : BitMapRes * T :=
  (RUnit (fst p), snd p).
Definition index_res {T} (p : option Z * T) : BitMapRes * T :=
  (RIndex (fst p), snd p).

Fixpoint spec_run (bits : Z) (f : Z -> bool) (ops : list BitMapOp)
    : list BitMapRes * (Z -> bool) :=
  match ops with
  | [] => ([], f)
  | op :: ops =>
      let (r, f) := spec_step bits f op in
      let (rs, f) := spec_run bits f ops in
      (r :: rs, f)
  end.

(** The array [ws] of a bitmap of [bits] bits holds [f], its padding clear. *)
Record holds (ws : list Z) (bits : Z) (f : Z -> bool) : Prop := {
  h_ok : words_ok ws;
  h_bits : 0 <= bits <= nbits ws;
  h_bit : forall i, 0 <= i -> bit ws i = (i <? bits) && f i
}.

Lemma holds_in ws bits f i : holds ws bits f -> 0 <= i < bits -> bit ws i = f i.
Proof.
  intros H Hi. rewrite (h_bit _ _ _ H) by lia. by destruct (Z.ltb_spec i bits); [|lia].
Qed.

Lemma holds_out ws bits f i : holds ws bits f -> 0 <= i -> bits <= i -> bit ws i = false.
Proof.
  intros H Hi Hb. rewrite (h_bit _ _ _ H) by lia. by destruct (Z.ltb_spec i bits); [lia|].
Qed.

Lemma holds_count ws bits f :
  holds ws bits f -> countb (bit ws) (seqZ 0 bits) = countb f (seqZ 0 bits).
Proof.
  intros H. apply countb_ext. intros i Hi%elem_of_seqZ. apply (holds_in _ _ _ _ H). lia.
Qed.

Lemma holds_count_used ws bits f :
  holds ws bits f -> count_used ws = countb f (seqZ 0 bits).
Proof.
  intros H. rewrite count_used_countb, <- (holds_count _ _ _ H).
  pose proof (h_bits _ _ _ H).
  rewrite !(countb_ext (bit ws) (fun i => (i <? bits) && f i)).
  - apply countb_prefix; [done|]. intros i Hi. by destruct (Z.ltb_spec i bits); [lia|].
  - intros i Hi%elem_of_seqZ. apply (h_bit _ _ _ H). lia.
  - intros i Hi%elem_of_seqZ. apply (h_bit _ _ _ H). lia.
Qed.

Lemma decide_seqZ {A} (x y : A) j s n :
  (if decide (j ∈ seqZ s n) then x else y) =
  if (s <=? j) && (j <? s + n) then x else y.
Proof.
  destruct (decide (j ∈ seqZ s n)) as [H|H]; rewrite elem_of_seqZ in H;
    destruct (Z.leb_spec s j), (Z.ltb_spec j (s + n)); simpl; try done; lia.
Qed.

(** Updating the run of [n] bits from [s] in the array fills it in [f]. *)
Lemma holds_fill ws bits f ws' s n b :
  holds ws bits f -> words_ok ws' -> length ws' = length ws ->
  0 <= s -> s + n <= bits ->
  (forall j, 0 <= j -> bit ws' j = if (s <=? j) && (j <? s + n) then b else bit ws j) ->
  holds ws' bits (fill f s n b).
Proof.
  intros H Hok Hl Hs Hn Hb. split; [done| |].
  - unfold nbits. rewrite Hl. apply H.
  - intros i Hi. rewrite Hb, (h_bit _ _ _ H) by done. unfold fill.
    destruct (Z.leb_spec s i), (Z.ltb_spec i (s + n)), (Z.ltb_spec i bits);
      simpl; try done; lia.
Qed.

Lemma holds_updated ws bits f i b ws' :
  holds ws bits f -> 0 <= i < bits -> updated ws i b ws' ->
  holds ws' bits (fill f i 1 b).
Proof.
  intros H Hi [Hok Hl Hb]. apply (holds_fill ws); try done; try lia.
  intros j Hj. rewrite Hb by done.
  destruct (Z.eqb_spec j i), (Z.leb_spec i j), (Z.ltb_spec j (i + 1)); simpl; try done; lia.
Qed.

Lemma holds_scan ws bits f start (want_free : bool) :
  holds ws bits f -> 0 <= start ->
  exact_fit ws bits \/
    (exists j, start <= j < bits /\ f j = negb want_free) ->
  scan_words ws bits start want_free =
  Ret (List.find (fun i => xorb want_free (f i)) (seqZ start (bits - start))).
Proof.
  intros H Hs Hfit.
  destruct (scan_words_first ws bits start want_free) as (r & -> & Hr);
    [apply H | apply H | done | |].
  - destruct Hfit as [|(j & Hj & Hf)]; [by left|right]. exists j. split; [done|].
    unfold wanted. rewrite (holds_in ws bits f), Hf by (done || lia).
    by destruct want_free.
  - f_equal. symmetry. apply find_seqZ. revert Hr. apply first_in_ext.
    intros i Hi. unfold wanted. by rewrite (holds_in ws bits f) by (done || lia).
Qed.

Lemma run_free_ext f g n s :
  (forall j, s <= j < s + n -> f j = g j) -> run_free f n s = run_free g n s.
Proof.
  intros He. apply eq_true_iff_eq. rewrite !run_free_spec.
  split; intros H j Hj; [rewrite <- He | rewrite He]; auto.
Qed.

Lemma holds_alloc_range ws bits f n :
  holds ws bits f -> 0 < n ->
  let r := List.find (run_free f n) (seqZ 0 (bits - n + 1)) in
  exists ws', alloc_range_in ws bits n = Ret (r, ws') /\
    length ws' = length ws /\ holds ws' bits (snd (spec_take f r n)) /\
    countb (bit ws') (seqZ 0 bits) =
      countb (bit ws) (seqZ 0 bits) + match r with Some _ => n | None => 0 end.
Proof.
  intros H Hn r. destruct (alloc_range_in_ok ws bits n) as (r' & ws' & Ha & Hf & Hrun);
    [apply H | apply H | done |].
  assert (Hr : first_in (run_free f n) 0 (bits - n + 1) r').
  { revert Hf. apply first_in_ext. intros s Hs. apply run_free_ext.
    intros j Hj. apply (holds_in _ _ _ _ H). lia. }
  assert (r = r') as <-.
  { subst r. replace (seqZ 0 (bits - n + 1)) with (seqZ 0 (bits - n + 1 - 0))
      by (f_equal; lia). by apply find_seqZ. }
  exists ws'. destruct Hrun as (Hok & Hl & Hb & Hc). split; [done|]. split; [done|].
  pose proof (h_bits _ _ _ H). split; [|apply Hc; [done|]].
  - unfold spec_take. destruct r as [s|]; simpl in *.
    + apply (holds_fill ws); try done; try lia.
      intros j Hj. rewrite Hb by done. apply decide_seqZ.
    + split; [done|unfold nbits; rewrite Hl; done|].
      intros i Hi. rewrite Hb by done. by apply H.
  - intros s Hs. rewrite Hs in Hr. simpl in Hr. lia.
Qed.

Lemma all_set_ok ws js :
  (forall j, j ∈ js -> 0 <= j < nbits ws) ->
  all_set ws js = Ret (forallb (bit ws) js).
Proof.
  induction js as [|j js IH]; intros Hjs; [done|].
  cbn [all_set forallb]. rewrite is_bit_set_ok by (apply Hjs; left).
  rewrite outcome_bind_Ret. destruct (bit ws j); [|done].
  apply IH. intros k Hk. apply Hjs. by right.
Qed.

Lemma holds_free_range ws bits f a b :
  holds ws bits f -> 0 <= a -> a <= b -> b <= bits ->
  forallb f (seqZ a (b - a)) = true ->
  exists ws', free_range_in ws bits a b = Ret (Ok tt, ws') /\
    length ws' = length ws /\ holds ws' bits (fill f a (b - a) false) /\
    countb (bit ws') (seqZ 0 bits) = countb (bit ws) (seqZ 0 bits) - (b - a).
Proof.
  intros H Ha Hab Hb Hall. pose proof (h_bits _ _ _ H) as Hn.
  unfold free_range_in.
  destruct (Z.ltb_spec b a), (Z.ltb_spec bits b); try lia. cbn [orb].
  rewrite all_set_ok by (intros j Hj%elem_of_seqZ; lia).
  rewrite (forallb_ext_seqZ _ f)
    by (intros j Hj; apply (holds_in _ _ _ _ H); lia).
  rewrite Hall, outcome_bind_Ret.
  rewrite forallb_seqZ in Hall.
  destruct (for_each_ok clear_bit false clear_bit_ok (seqZ a (b - a)) ws bits)
    as (ws' & -> & Hok & Hl & Hbit & Hc);
    [apply H | done | apply NoDup_seqZ | |].
  { intros j Hj%elem_of_seqZ. split; [lia|].
    rewrite (holds_in _ _ _ _ H) by lia. apply Hall. lia. }
  exists ws'. split; [done|]. split; [done|].
  rewrite length_seqZ in Hc. split; [|lia].
  apply (holds_fill ws); try done; try lia.
  intros j Hj. rewrite Hbit by done. apply decide_seqZ.
Qed.

(** The error cases of [free_range_in] leave the array alone. *)
Lemma holds_free_range_err ws bits f a b :
  holds ws bits f -> 0 <= a -> 0 <= b ->
  (b <? a) || (bits <? b) = true \/ forallb f (seqZ a (b - a)) = false ->
  free_range_in ws bits a b =
  Ret (Err (if (b <? a) || (bits <? b) then OutOfRange else AlreadyFree), ws).
Proof.
  intros H Ha Hb Hcase. pose proof (h_bits _ _ _ H) as Hn. unfold free_range_in.
  destruct ((b <? a) || (bits <? b)) eqn:E; [done|].
  destruct Hcase as [|Hall]; [done|]. zify_bool.
  rewrite all_set_ok by (intros j Hj%elem_of_seqZ; lia).
  rewrite (forallb_ext_seqZ _ f), Hall; [done|].
  intros j Hj. apply (holds_in _ _ _ _ H). lia.
Qed.

Lemma holds_reset ws bits : 0 <= bits <= nbits ws ->
  holds (replicate (length ws) 0) bits (fun _ => false).
Proof.
  intros Hb. split.
  - apply Forall_replicate. unfold fits. lia.
  - unfold nbits. rewrite length_replicate. done.
  - intros i Hi. rewrite andb_false_r. unfold bit.
    destruct (replicate (length ws) 0 !! _) as [w|] eqn:E; [|done].
    apply lookup_replicate in E as [-> _]. apply Z.bits_0.
Qed.

(** ** The interface of a bitmap and its two implementations *)

(** What a bitmap promises: a representation relation to the abstract state
    and a step function that implements [spec_step] without panicking on every
    operation that satisfies the precondition [bs_pre], which no operation
    falsifies. *)
Class BitSetImpl (T : Type) : Type := {
  bs_step : T -> BitMapOp -> outcome (BitMapRes * T);
  bs_bits : T -> Z;
  bs_rep : T -> (Z -> bool) -> Prop;
  bs_pre : T -> BitMapOp -> Prop;
  bs_step_ok : forall m f op, bs_rep m f -> op_ok op -> bs_pre m op ->
    exists m', bs_step m op = Ret (fst (spec_step (bs_bits m) f op), m') /\
      bs_rep m' (snd (spec_step (bs_bits m) f op)) /\ bs_bits m' = bs_bits m /\
      forall op', bs_pre m op' -> bs_pre m' op'
}.

Fixpoint bs_run {T} `{BitSetImpl T} (m : T) (ops : list BitMapOp)
    : outcome (list BitMapRes * T) :=
  match ops with
  | [] => mret ([], m)
  | op :: ops =>
      '(r, m) ← bs_step m op;
      '(rs, m) ← bs_run m ops;
      mret (r :: rs, m)
  end.

Lemma bs_run_ok {T} `{BitSetImpl T} ops (m : T) f :
  bs_rep m f -> Forall op_ok ops -> Forall (bs_pre m) ops ->
  exists m', bs_run m ops = Ret (fst (spec_run (bs_bits m) f ops), m') /\
    bs_rep m' (snd (spec_run (bs_bits m) f ops)) /\ bs_bits m' = bs_bits m.
Proof.
  revert m f. induction ops as [|op ops IH]; intros m f Hrep Hok Hpre.
  { by exists m. }
  apply Forall_cons in Hok as [Hop Hok]. apply Forall_cons in Hpre as [Hp Hpre].
  destruct (bs_step_ok m f op Hrep Hop Hp) as (m1 & Hs & Hrep1 & Hb1 & Hkeep).
  cbn [bs_run spec_run]. rewrite Hs. destruct (spec_step _ f op) as [r f1].
  simpl in *. destruct (IH m1 f1) as (m2 & -> & Hrep2 & Hb2); [done|done| |].
  { eapply Forall_impl; [exact Hpre|]. done. }
  rewrite Hb1 in *. destruct (spec_run _ f1 ops) as [rs f2]. simpl in *.
  exists m2. done.
Qed.

(** *** The owned map *)

(** One call of the public API. *)
Definition BitMap_exec (m : BitMap) (op : BitMapOp) : outcome (BitMapRes * BitMap) :=
  match op with
  | OpSet i => unit_res <$> BitMap_set m i
  | OpClear i => unit_res <$> BitMap_clear m i
  | OpAlloc => index_res <$> BitMap_alloc m
  | OpAllocFrom start => index_res <$> BitMap_alloc_from m start
  | OpAllocSpecific i => unit_res <$> BitMap_alloc_specific m i
  | OpFree i => unit_res <$> BitMap_free m i
  | OpAllocRange n => index_res <$> BitMap_alloc_range m n
  | OpFreeRange a b => unit_res <$> BitMap_free_range m a b
  | OpReset => mret (RVoid, BitMap_reset m)
  end.

Record BitMap_rep (m : BitMap) (f : Z -> bool) : Prop := {
  rep_holds : holds (bm_words m) (bm_bits m) f;
  rep_used : bm_used m = countb f (seqZ 0 (bm_bits m))
}.

(** [m'] has the shape of [m] and represents [f']. *)
Definition BitMap_next (m m' : BitMap) (f' : Z -> bool) : Prop :=
  BitMap_rep m' f' /\ bm_bits m' = bm_bits m /\
  length (bm_words m') = length (bm_words m).

Lemma BitMap_stay m f : BitMap_rep m f -> BitMap_next m m f.
Proof. intros H. by split. Qed.

Lemma rep_bound m f : BitMap_rep m f -> 0 <= bm_used m <= bm_bits m.
Proof.
  intros [H ->]. pose proof (h_bits _ _ _ H). split; [apply countb_nonneg|].
  pose proof (countb_le f (seqZ 0 (bm_bits m))). rewrite length_seqZ in *. lia.
Qed.

Lemma BitMap_is_allocated_ok m f i : BitMap_rep m f -> 0 <= i < bm_bits m ->
  BitMap_is_allocated m i = Ret (f i).
Proof.
  intros [H _] Hi. unfold BitMap_is_allocated, BitMap_contains.
  destruct (Z.ltb_spec i (bm_bits m)); [|lia]. pose proof (h_bits _ _ _ H).
  rewrite is_bit_set_ok by lia. by rewrite (holds_in _ _ _ _ H).
Qed.

Lemma BitMap_occupy_ok m f i :
  BitMap_rep m f -> 0 <= i < bm_bits m -> f i = false ->
  exists m', BitMap_occupy m i = Ret m' /\ BitMap_next m m' (fill f i 1 true).
Proof.
  intros [H Hu] Hi Hf. pose proof (h_bits _ _ _ H). unfold BitMap_occupy.
  destruct (set_bit_ok (bm_words m) i) as (ws' & -> & Hup); [apply H|lia|].
  eexists. split; [done|]. split; [|by split; [|apply Hup]]. split; simpl.
  - by apply (holds_updated (bm_words m)).
  - rewrite countb_fill by (lia || (intros; replace j with i by lia; done)). lia.
Qed.

Lemma BitMap_release_ok m f i :
  BitMap_rep m f -> 0 <= i < bm_bits m -> f i = true ->
  exists m', BitMap_release m i = Ret m' /\ BitMap_next m m' (fill f i 1 false).
Proof.
  intros [H Hu] Hi Hf. pose proof (h_bits _ _ _ H). unfold BitMap_release.
  destruct (clear_bit_ok (bm_words m) i) as (ws' & -> & Hup); [apply H|lia|].
  assert (Hc := countb_fill f i 1 0 (bm_bits m) false ltac:(lia) ltac:(lia) ltac:(lia)
    ltac:(intros; replace j with i by lia; done)). cbn iota in Hc.
  pose proof (countb_nonneg (fill f i 1 false) (seqZ 0 (bm_bits m))).
  unfold usize_sub. destruct (Z.leb_spec 1 (bm_used m)); [|lia].
  eexists. split; [done|]. split; [|by split; [|apply Hup]]. split; simpl; [|lia].
  by apply (holds_updated (bm_words m)).
Qed.

(** Filling a run with the value it already has changes nothing. *)
Lemma BitMap_rep_ext m f g :
  (forall i, 0 <= i < bm_bits m -> f i = g i) -> BitMap_rep m f -> BitMap_rep m g.
Proof.
  intros He [H Hu]. split.
  - split; [apply H|apply H|]. intros i Hi. rewrite (h_bit _ _ _ H) by done.
    destruct (Z.ltb_spec i (bm_bits m)); [|done]. simpl. apply He. lia.
  - rewrite Hu. apply countb_ext. intros i Hi%elem_of_seqZ. apply He. lia.
Qed.

Lemma BitMap_fill_same m f i b : BitMap_rep m f -> f i = b ->
  BitMap_next m m (fill f i 1 b).
Proof.
  intros H Hf. split; [|done]. revert H. apply BitMap_rep_ext.
  intros j _. unfold fill.
  destruct (Z.leb_spec i j), (Z.ltb_spec j (i + 1)); simpl; try done.
  by replace j with i by lia.
Qed.

Definition BitMap_pre (m : BitMap) (op : BitMapOp) : Prop :=
  exact_fit (bm_words m) (bm_bits m) \/ (forall start, op <> OpAllocFrom start).

Lemma BitMap_full_iff m f : BitMap_rep m f ->
  bm_used m = bm_bits m <-> forall i, 0 <= i < bm_bits m -> f i = true.
Proof.
  intros [H ->]. pose proof (h_bits _ _ _ H).
  replace (bm_bits m) with (Z.of_nat (length (seqZ 0 (bm_bits m)))) at 2
    by (rewrite length_seqZ; lia).
  rewrite countb_full. split; intros Ha i Hi; apply Ha; [apply elem_of_seqZ; lia|].
  apply elem_of_seqZ in Hi. lia.
Qed.

Lemma not_full_free m f : BitMap_rep m f -> bm_used m <> bm_bits m ->
  exists j, 0 <= j < bm_bits m /\ f j = false.
Proof.
  intros H Hne.
  destruct (List.find (fun i => negb (f i)) (seqZ 0 (bm_bits m - 0))) as [j|] eqn:E.
  - pose proof (find_seqZ_ok (fun i => negb (f i)) 0 (bm_bits m)) as Hf.
    rewrite E in Hf. destruct (h_bits _ _ _ (rep_holds _ _ H)).
    destruct Hf as (Hj & Hfj & _); [done|]. exists j. by zify_bool.
  - exfalso. apply Hne. rewrite (BitMap_full_iff m f H). intros i Hi.
    apply (List.find_none _ _) with (x := i) in E; [by zify_bool|].
    apply list_elem_of_In, elem_of_seqZ. lia.
Qed.

Lemma BitMap_find_free_from_ok m f start :
  BitMap_rep m f -> 0 <= start ->
  exact_fit (bm_words m) (bm_bits m) \/ start = 0 ->
  BitMap_find_free_from m start =
  Ret (List.find (fun i => negb (f i)) (seqZ start (bm_bits m - start))).
Proof.
  intros H Hs Hfit. unfold BitMap_find_free_from.
  destruct (Z.eqb_spec (bm_used m) (bm_bits m)) as [Hfull|Hfull].
  - symmetry. apply f_equal. apply find_seqZ. intros j Hj.
    apply negb_false_iff. apply (BitMap_full_iff m f H); [done|lia].
  - destruct (not_full_free m f H Hfull) as (j & Hj & Hf).
    apply (holds_scan _ _ _ start true (rep_holds _ _ H) Hs).
    destruct Hfit as [? | ->]; [by left|]. right. exists j. split; [lia|done].
Qed.

Lemma BitMap_take_ok m f start r :
  BitMap_rep m f -> 0 <= start ->
  r = List.find (fun i => negb (f i)) (seqZ start (bm_bits m - start)) ->
  exists m', (match r with
              | None => mret (None, m)
              | Some index => self ← BitMap_occupy m index; mret (Some index, self)
              end) = Ret (r, m') /\ BitMap_next m m' (snd (spec_take f r 1)).
Proof.
  intros H Hs ->. pose proof (h_bits _ _ _ (rep_holds _ _ H)) as [Hb _].
  destruct (List.find _ _) as [i|] eqn:E; [|exists m; by split; [|apply BitMap_stay]].
  apply List.find_some in E as [Hin%list_elem_of_In%elem_of_seqZ Hf]. zify_bool.
  destruct (BitMap_occupy_ok m f i H ltac:(lia) Hf) as (m' & -> & Hn).
  by exists m'.
Qed.

(** A free run of [n] bits leaves at most [bits - n] of them in use. *)
Lemma no_room_no_run f bits n r : 0 <= bits -> 0 < n ->
  bits - countb f (seqZ 0 bits) < n ->
  List.find (run_free f n) (seqZ 0 (bits - n + 1)) = r -> r = None.
Proof.
  intros Hb Hn Hroom E. destruct r as [s|]; [|done]. exfalso.
  apply List.find_some in E as [Hin%list_elem_of_In%elem_of_seqZ Hf].
  rewrite run_free_spec in Hf.
  pose proof (countb_fill f s n 0 bits true ltac:(lia) ltac:(lia) ltac:(lia) Hf) as Hc.
  pose proof (countb_le (fill f s n true) (seqZ 0 bits)) as Hle.
  rewrite length_seqZ in Hle. cbn iota in Hc. lia.
Qed.

(** [BitMap_exec] on [op] returns what the abstract bitmap says. *)
Definition exec_ok (m : BitMap) (f : Z -> bool) (op : BitMapOp) : Prop :=
  exists m', BitMap_exec m op = Ret (fst (spec_step (bm_bits m) f op), m') /\
             BitMap_next m m' (snd (spec_step (bm_bits m) f op)).

(** The four operations on one index, by the guard and the current bit. *)
Ltac one_index m f i H :=
  let m' := fresh "m'" in let Hm' := fresh "Hm'" in
  unfold exec_ok; cbn [BitMap_exec spec_step];
  unfold BitMap_set, BitMap_clear, BitMap_alloc_specific, BitMap_free, BitMap_contains;
  destruct (Z.ltb_spec i (bm_bits m)); simpl negb; cbn iota;
  [ rewrite (BitMap_is_allocated_ok m f i H) by lia; rewrite outcome_bind_Ret;
    destruct (f i) eqn:?; simpl negb; cbn iota;
    [ destruct (BitMap_release_ok m f i H) as (m' & Hm' & ?)
    | destruct (BitMap_occupy_ok m f i H) as (m' & Hm' & ?) ];
    try done; rewrite ?Hm'
  | eexists; split; [done | by apply BitMap_stay] ].

Lemma exec_set_ok m f i : BitMap_rep m f -> 0 <= i -> exec_ok m f (OpSet i).
Proof.
  intros H Hi. one_index m f i H.
  - exists m. split; [done | by apply BitMap_fill_same].
  - eexists. by split.
Qed.

Lemma exec_clear_ok m f i : BitMap_rep m f -> 0 <= i -> exec_ok m f (OpClear i).
Proof.
  intros H Hi. one_index m f i H.
  - eexists. by split.
  - exists m. split; [done | by apply BitMap_fill_same].
Qed.

Lemma exec_alloc_specific_ok m f i :
  BitMap_rep m f -> 0 <= i -> exec_ok m f (OpAllocSpecific i).
Proof.
  intros H Hi. one_index m f i H.
  - exists m. split; [done | by apply BitMap_stay].
  - eexists. by split.
Qed.

Lemma exec_free_ok m f i : BitMap_rep m f -> 0 <= i -> exec_ok m f (OpFree i).
Proof.
  intros H Hi. one_index m f i H.
  - eexists. by split.
  - exists m. split; [done | by apply BitMap_stay].
Qed.

Lemma exec_alloc_from_ok m f start :
  BitMap_rep m f -> 0 <= start -> exact_fit (bm_words m) (bm_bits m) ->
  exec_ok m f (OpAllocFrom start).
Proof.
  intros H Hs Hfit. unfold exec_ok. cbn [BitMap_exec spec_step].
  unfold BitMap_alloc_from.
  rewrite (BitMap_find_free_from_ok m f) by auto. rewrite outcome_bind_Ret.
  destruct (BitMap_take_ok m f start _ H Hs eq_refl) as (m' & -> & Hn).
  exists m'. by split.
Qed.

Lemma exec_alloc_ok m f : BitMap_rep m f -> exec_ok m f OpAlloc.
Proof.
  intros H. unfold exec_ok. cbn [BitMap_exec spec_step].
  unfold BitMap_alloc, BitMap_find_free.
  rewrite (BitMap_find_free_from_ok m f) by (auto; lia). rewrite outcome_bind_Ret.
  destruct (BitMap_take_ok m f 0 _ H ltac:(lia) eq_refl) as (m' & -> & Hn).
  rewrite Z.sub_0_r in *. exists m'. by split.
Qed.

Lemma exec_alloc_range_ok m f n : BitMap_rep m f -> 0 <= n -> exec_ok m f (OpAllocRange n).
Proof.
  intros H Hn. unfold exec_ok. cbn [BitMap_exec spec_step]. unfold BitMap_alloc_range.
  destruct (Z.eqb_spec n 0); [exists m; by split; [|apply BitMap_stay]|].
  pose proof (rep_bound m f H) as Hb. pose proof (BitMap_stay m f H) as Hstay.
  destruct H as [H Hu]. pose proof (h_bits _ _ _ H). unfold BitMap_available, usize_sub.
  destruct (Z.leb_spec (bm_used m) (bm_bits m)); [|lia]. rewrite outcome_bind_Ret.
  destruct (Z.ltb_spec (bm_bits m - bm_used m) n) as [Hroom|Hroom].
  - rewrite (no_room_no_run f (bm_bits m) n _ ltac:(lia) ltac:(lia) ltac:(lia) eq_refl).
    by exists m.
  - destruct (holds_alloc_range _ _ _ n H ltac:(lia)) as (ws' & -> & Hl & Hh & Hc).
    rewrite outcome_bind_Ret. rewrite (holds_count _ _ _ H), (holds_count _ _ _ Hh) in Hc.
    destruct (List.find _ _) as [s|]; (eexists; split; [done|]);
      (split; [split; simpl in *; [done|lia] | by split]).
Qed.

Lemma exec_free_range_ok m f a b :
  BitMap_rep m f -> 0 <= a -> 0 <= b -> exec_ok m f (OpFreeRange a b).
Proof.
  intros H Ha Hb. unfold exec_ok. cbn [BitMap_exec spec_step]. unfold BitMap_free_range.
  pose proof (rep_holds _ _ H) as Hh. cbv zeta.
  assert (Hstay : BitMap_next m (mkBitMap (bm_words m) (bm_bits m) (bm_used m)) f).
  { destruct m. by apply BitMap_stay. }
  destruct ((b <? a) || (bm_bits m <? b)) eqn:Eg.
  { rewrite (holds_free_range_err _ _ f) by (auto; lia). rewrite Eg.
    eexists. by split. }
  destruct (forallb f (seqZ a (b - a))) eqn:Ef.
  2: { rewrite (holds_free_range_err _ _ f) by (auto; lia). rewrite Eg.
       eexists. by split. }
  zify_bool.
  destruct (holds_free_range _ _ f a b Hh) as (ws' & -> & Hl & Hh' & Hc); try done.
  rewrite outcome_bind_Ret.
  rewrite (holds_count _ _ _ Hh), (holds_count _ _ _ Hh') in Hc.
  pose proof (countb_nonneg (fill f a (b - a) false) (seqZ 0 (bm_bits m))).
  pose proof (rep_used _ _ H). unfold usize_sub, saturating_sub.
  destruct (Z.leb_spec (Z.max 0 (b - a)) (bm_used m)); [|lia].
  eexists. split; [done|]. split; [|by split]. split; simpl; [done|lia].
Qed.

Lemma exec_reset_ok m f : BitMap_rep m f -> exec_ok m f OpReset.
Proof.
  intros [H _]. eexists. split; [done|]. split; [split; simpl|split].
  - apply holds_reset, H.
  - symmetry. by apply countb_zero.
  - done.
  - apply length_replicate.
Qed.

Lemma BitMap_exec_ok m f op :
  BitMap_rep m f -> op_ok op -> BitMap_pre m op -> exec_ok m f op.
Proof.
  intros H Hop Hpre. destruct op; simpl in Hop.
  - by apply exec_set_ok.
  - by apply exec_clear_ok.
  - by apply exec_alloc_ok.
  - apply exec_alloc_from_ok; [done|done|]. destruct Hpre as [|Hne]; [done|].
    by destruct (Hne start).
  - by apply exec_alloc_specific_ok.
  - by apply exec_free_ok.
  - by apply exec_alloc_range_ok.
  - destruct Hop. by apply exec_free_range_ok.
  - by apply exec_reset_ok.
Qed.

#[export] Program Instance BitMap_impl : BitSetImpl BitMap := {
  bs_step := BitMap_exec;
  bs_bits := bm_bits;
  bs_rep := BitMap_rep;
  bs_pre := BitMap_pre
}.
Next Obligation.
  intros m f op H Hop Hpre.
  destruct (BitMap_exec_ok m f op H Hop Hpre) as (m' & He & Hr & Hb & Hl).
  exists m'. split; [done|]. split; [done|]. split; [done|].
  intros op' Hp. unfold BitMap_pre, exact_fit in *. by rewrite Hb, Hl.
Qed.

(** *** The borrowed view *)

Definition View_exec (v : BitMapView) (op : BitMapOp)
    : outcome (BitMapRes * BitMapView) :=
  match op with
  | OpSet i => unit_res <$> View_set v i
  | OpClear i => unit_res <$> View_clear v i
  | OpAlloc => index_res <$> View_alloc v
  | OpAllocFrom start => index_res <$> View_alloc_from v start
  | OpAllocSpecific i => unit_res <$> View_alloc_specific v i
  | OpFree i => unit_res <$> View_free v i
  | OpAllocRange n => index_res <$> View_alloc_range v n
  | OpFreeRange a b => unit_res <$> View_free_range v a b
  | OpReset => mret (RVoid, View_reset v)
  end.

Definition View_rep (v : BitMapView) (f : Z -> bool) : Prop :=
  holds (vw_words v) (vw_bits v) f.

(** The view has no [used] counter that would stop a scan of a full bitmap, so
    its padding matters for [alloc] too. *)
Definition View_pre (v : BitMapView) (op : BitMapOp) : Prop :=
  exact_fit (vw_words v) (vw_bits v) \/
  (op <> OpAlloc /\ forall start, op <> OpAllocFrom start).

Definition View_next (v v' : BitMapView) (f' : Z -> bool) : Prop :=
  View_rep v' f' /\ vw_bits v' = vw_bits v /\
  length (vw_words v') = length (vw_words v).

Definition view_ok (v : BitMapView) (f : Z -> bool) (op : BitMapOp) : Prop :=
  exists v', View_exec v op = Ret (fst (spec_step (vw_bits v) f op), v') /\
             View_next v v' (snd (spec_step (vw_bits v) f op)).

Lemma View_stay v f : View_rep v f -> View_next v v f.
Proof. intros H. by split. Qed.

Lemma View_update v f i b ws' :
  View_rep v f -> 0 <= i < vw_bits v -> updated (vw_words v) i b ws' ->
  View_next v (mkView ws' (vw_bits v)) (fill f i 1 b).
Proof.
  intros H Hi Hup. split; [|by split; [|apply Hup]].
  by apply (holds_updated (vw_words v)).
Qed.

(** An operation on one index: out of range, or guarded by the current bit. *)
Ltac view_index v f i H :=
  let ws := fresh "ws" in let Hw := fresh "Hw" in
  unfold view_ok; cbn [View_exec spec_step];
  unfold View_set, View_clear, View_alloc_specific, View_free, View_is_allocated,
    View_contains;
  destruct (Z.ltb_spec i (vw_bits v)); simpl negb; cbn iota;
  [ pose proof (h_bits _ _ _ H);
    rewrite ?is_bit_set_ok by lia; rewrite ?outcome_bind_Ret;
    rewrite ?(holds_in _ _ _ i H) by lia;
    destruct (set_bit_ok (vw_words v) i) as (ws & Hw & ?); [apply H | lia |];
    destruct (clear_bit_ok (vw_words v) i) as (?ws & ?Hw & ?); [apply H | lia |]
  | eexists; split; [done | by apply View_stay] ].

Ltac view_done :=
  match goal with
  | H : ?e = Ret _ |- context [?e] => rewrite H
  end; eexists; split; [done | apply View_update; auto; lia].

Lemma view_index_ok v f i : View_rep v f -> 0 <= i ->
  view_ok v f (OpSet i) /\ view_ok v f (OpClear i) /\
  view_ok v f (OpAllocSpecific i) /\ view_ok v f (OpFree i).
Proof.
  intros H Hi. repeat split; view_index v f i H; try view_done.
  - destruct (f i); [exists v; by split; [|apply View_stay] | view_done].
  - destruct (f i); [view_done | exists v; by split; [|apply View_stay]].
Qed.

Lemma view_take_ok v f start :
  View_rep v f -> 0 <= start -> exact_fit (vw_words v) (vw_bits v) ->
  let r := List.find (fun i => negb (f i)) (seqZ start (vw_bits v - start)) in
  exists v', View_alloc_from v start = Ret (r, v') /\
             View_next v v' (snd (spec_take f r 1)).
Proof.
  intros H Hs Hfit r. unfold View_alloc_from, View_find_free_from.
  rewrite (holds_scan _ _ f) by auto. rewrite outcome_bind_Ret.
  change (fun i => xorb true (f i)) with (fun i => negb (f i)). fold r.
  pose proof (h_bits _ _ _ H).
  destruct r as [i|] eqn:E; [|exists v; by split; [|apply View_stay]].
  subst r.
  apply List.find_some in E as [Hin%list_elem_of_In%elem_of_seqZ Hf].
  destruct (set_bit_ok (vw_words v) i) as (ws & -> & Hup); [apply H|lia|].
  eexists. split; [done|]. apply View_update; auto; lia.
Qed.

Lemma view_alloc_range_ok v f n : View_rep v f -> 0 <= n -> view_ok v f (OpAllocRange n).
Proof.
  intros H Hn. unfold view_ok. cbn [View_exec spec_step]. unfold View_alloc_range.
  destruct (Z.eqb_spec n 0); [exists v; by split; [|apply View_stay]|].
  pose proof (h_bits _ _ _ H). pose proof (countb_le f (seqZ 0 (vw_bits v))) as Hle.
  rewrite length_seqZ in Hle. unfold View_available, View_used, usize_sub.
  rewrite (holds_count_used _ _ _ H).
  destruct (Z.leb_spec (countb f (seqZ 0 (vw_bits v))) (vw_bits v)); [|lia].
  rewrite outcome_bind_Ret. case_if as Hroom.
  - rewrite (no_room_no_run f (vw_bits v) n _ ltac:(lia) ltac:(lia) ltac:(lia) eq_refl).
    exists v. split; [done|]. by apply View_stay.
  - destruct (holds_alloc_range _ _ _ n H ltac:(lia)) as (ws' & -> & Hl & Hh & _).
    rewrite outcome_bind_Ret. eexists. by split.
Qed.

Lemma view_free_range_ok v f a b :
  View_rep v f -> 0 <= a -> 0 <= b -> view_ok v f (OpFreeRange a b).
Proof.
  intros H Ha Hb. unfold view_ok. cbn [View_exec spec_step]. unfold View_free_range.
  assert (Hstay : View_next v (mkView (vw_words v) (vw_bits v)) f).
  { destruct v. by apply View_stay. }
  destruct ((b <? a) || (vw_bits v <? b)) eqn:Eg.
  { rewrite (holds_free_range_err _ _ f) by (auto; lia). rewrite Eg. eexists. by split. }
  destruct (forallb f (seqZ a (b - a))) eqn:Ef.
  2: { rewrite (holds_free_range_err _ _ f) by (auto; lia). rewrite Eg. eexists. by split. }
  zify_bool.
  destruct (holds_free_range _ _ f a b H) as (ws' & -> & Hl & Hh' & _); try done.
  eexists. by split.
Qed.

Lemma View_exec_ok v f op :
  View_rep v f -> op_ok op -> View_pre v op -> view_ok v f op.
Proof.
  intros H Hop Hpre. destruct op as [i|i| |start|i|i|n|a b|]; simpl in Hop.
  1, 2, 5, 6: by apply (view_index_ok v f i H Hop).
  - destruct Hpre as [Hfit|[Hne _]]; [|done].
    destruct (view_take_ok v f 0 H ltac:(lia) Hfit) as (v' & Hv & Hn).
    rewrite Z.sub_0_r in *. exists v'. split; [|done].
    cbn [View_exec]. change (View_alloc v) with (View_alloc_from v 0). by rewrite Hv.
  - destruct Hpre as [Hfit|[_ Hne]]; [|by destruct (Hne start)].
    destruct (view_take_ok v f start H Hop Hfit) as (v' & Hv & Hn).
    exists v'. cbn [View_exec]. rewrite Hv. by split.
  - by apply view_alloc_range_ok.
  - destruct Hop. by apply view_free_range_ok.
  - eexists. split; [done|]. split; [apply holds_reset, H|]. split; [done|].
    apply length_replicate.
Qed.

#[export] Program Instance View_impl : BitSetImpl BitMapView := {
  bs_step := View_exec;
  bs_bits := vw_bits;
  bs_rep := View_rep;
  bs_pre := View_pre
}.
Next Obligation.
  intros v f op H Hop Hpre.
  destruct (View_exec_ok v f op H Hop Hpre) as (v' & He & Hr & Hb & Hl).
  exists v'. split; [done|]. split; [done|]. split; [done|].
  intros op' Hp. unfold View_pre, exact_fit in *. by rewrite Hb, Hl.
Qed.

(** ** The properties of the crate *)

Lemma BitMap_new_rep WORDS bits : 0 <= bits <= Z.of_nat WORDS * WORD_BITS ->
  exists m, BitMap_new_with_capacity WORDS bits = Ret m /\
    BitMap_rep m (fun _ => false) /\ bm_bits m = bits /\
    length (bm_words m) = WORDS.
Proof.
  intros Hb. unfold BitMap_new_with_capacity.
  destruct (Z.leb_spec bits (Z.of_nat WORDS * WORD_BITS)); [|lia].
  eexists. split; [done|]. split; [|split; [done|apply length_replicate]]. split; simpl.
  - pose proof (holds_reset (replicate WORDS 0) bits) as Hr.
    unfold nbits in Hr. rewrite length_replicate in Hr. by apply Hr.
  - symmetry. by apply countb_zero.
Qed.



(** Borrowed view, refinement. A view over memory that holds [f] with
    clear padding and no spare word implements the same abstract bitmap for
    every sequence of API calls, without panicking. *)
Theorem View_refines words bits f ops :
  holds words bits f -> exact_fit words bits -> Forall op_ok ops ->
  exists v, bs_run (mkView words bits) ops = Ret (fst (spec_run bits f ops), v) /\
    holds (vw_words v) bits (snd (spec_run bits f ops)).
Proof.
  intros H Hfit Hops.
  destruct (bs_run_ok ops (mkView words bits) f) as (v & Hrun & Hv & Hb);
    [done | done | apply Forall_forall; by left |].
  exists v. split; [done|]. simpl in *. unfold View_rep in Hv. by rewrite Hb in Hv.
Qed.

Lemma View_refines_witness :
  exists v, bs_run (mkView [0] 3) [OpAlloc; OpAlloc; OpAlloc; OpAlloc] =
      Ret ([RIndex (Some 0); RIndex (Some 1); RIndex (Some 2); RIndex None], v) /\
    holds (vw_words v) 3
      (snd (spec_run 3 (fun _ => false) [OpAlloc; OpAlloc; OpAlloc; OpAlloc])).
Proof.
  apply (View_refines [0] 3 (fun _ => false) [OpAlloc; OpAlloc; OpAlloc; OpAlloc]).
  - apply (holds_reset [0] 3). vm_compute. split; discriminate.
  - reflexivity.
  - repeat constructor; simpl; lia.
Defined.

Lemma filter_find_seqZ (p : Z -> bool) start bits :
  List.filter p (seqZ start (bits - start)) =
  match List.find p (seqZ start (bits - start)) with
  | None => []
  | Some i => i :: List.filter p (seqZ (i + 1) (bits - (i + 1)))
  end.
Proof.
  remember (Z.to_nat (bits - start)) as n eqn:En. revert start En.
  induction n as [|n IH]; intros start En.
  { by rewrite seqZ_nil by lia. }
  rewrite seqZ_cons by lia. cbn [List.filter List.find].
  replace (Z.succ start) with (start + 1) by lia.
  replace (Z.pred (bits - start)) with (bits - (start + 1)) by lia.
  destruct (p start); [done|]. apply IH. lia.
Qed.

(** Iterator. Driving a [BitIter] until [next] returns [None] visits
    exactly the wanted (used or free) indices below [bits] from the current
    position on, in ascending order; the iteration ends after at most
    [bits - next] elements. *)
Theorem BitIter_collect_ok words bits f want_free next fuel :
  holds words bits f -> exact_fit words bits -> 0 <= next ->
  (Z.to_nat (bits - next) < fuel)%nat ->
  BitIter_collect fuel (mkIter words bits want_free next) =
  Ret (List.filter (fun i => xorb want_free (f i)) (seqZ next (bits - next))).
Proof.
  intros H Hfit. revert next. induction fuel as [|fuel IH]; intros next Hn Hfuel; [lia|].
  cbn [BitIter_collect]. unfold BitIter_next. cbn [it_words it_bits it_next it_want_free].
  rewrite (holds_scan _ _ f) by auto. rewrite outcome_bind_Ret, filter_find_seqZ.
  destruct (List.find _ _) as [i|] eqn:E; [|done].
  apply List.find_some in E as [Hin%list_elem_of_In%elem_of_seqZ _].
  rewrite outcome_bind_Ret, IH by lia. done.
Qed.

Lemma BitIter_collect_witness :
  BitIter_collect 11 (BitMap_iter_free (mkBitMap [21] 6 3)) = Ret [1; 3; 5].
Proof.
  apply (BitIter_collect_ok [21] 6 (Z.testbit 21) true 0 11).
  - split; [repeat constructor; done | vm_compute; split; discriminate |].
    intros i Hi. unfold bit. destruct (Z.ltb_spec i 6) as [Hl|Hl].
    + assert (i = 0 \/ i = 1 \/ i = 2 \/ i = 3 \/ i = 4 \/ i = 5) as Hc by lia.
      repeat destruct Hc as [-> | Hc]; subst; reflexivity.
    + destruct ([21] !! Z.to_nat (i / WORD_BITS)) as [w|] eqn:E; [|done].
      apply list_lookup_singleton_Some in E as [E <-]. unfold WORD_BITS in *.
      rewrite Z.mod_small by lia. apply (fits_bit 6); [unfold fits|]; lia.
  - reflexivity.
  - lia.
  - lia.
Defined.

(** Spare words. [scan_words] masks only the last word of the array, so a
    map with more words than its capacity needs can hand out an index that its
    own [contains] rejects: two words, capacity 2, bit 1 taken,
    [alloc_from(1)] returns 2. *)
Theorem alloc_from_out_of_capacity :
  exists m1 m2, bs_run (mkBitMap [0; 0] 2 0) [OpSet 1] = Ret ([RUnit (Ok tt)], m1) /\
    BitMap_alloc_from m1 1 = Ret (Some 2, m2) /\
    BitMap_contains m2 2 = false /\ BitMap_free m2 2 = Ret (Err OutOfRange, m2).
Proof. do 2 eexists. repeat split; vm_compute; reflexivity. Qed.
