(* ===== verification/IdAlloc.v ===== *)
(** * IdAlloc: the ID allocator of [crates/athera-id-alloc]

    [FlatAlloc] keeps the free IDs as an ordered map of disjoint half-open
    intervals; [IdAlloc] adds the two-level (major/minor) allocation on top:
    a major reserves an aligned block of [2^MINOR_BITS] IDs, carved out of the
    flat space and managed by a sub-allocator of its own.

    IDs of an unsigned type of [BITS] bits are integers; the conversions
    [to_bits]/[from_bits] are the identity and truncation. The theorems relate
    the interval maps to the function telling which IDs are free. *)

From S2P Require Import Prelude OrdMap.

Inductive IdAllocError : Type :=
| IdOutOfRange
| IdAlreadyAllocated
| IdAlreadyFree
| IdEmptyRange
| IdRangeBusy
| IdNotAligned
| IdMajorNotFound.

(** ** The trait [Id] for an unsigned integer type of [BITS] bits *)

Definition Id_next (BITS x : Z) : option Z :=
  if x + 1 <? 2 ^ BITS then Some (x + 1) else None.

Definition Id_prev (x : Z) : option Z := if 0 <? x then Some (x - 1) else None.

Definition Id_distance_to (a b : Z) : outcome Z := usize_sub b a.

Definition Id_from_bits (BITS bits : Z) : Z := wrap BITS bits.

Definition low_mask (n : Z) : Z :=
  if n =? 0 then 0
  else if 128 <=? n then 2 ^ 128 - 1
  else Z.shiftl 1 n - 1.

Definition block_size (n : Z) : Z :=
  if n =? 0 then 1
  else if 128 <=? n then 0
  else Z.shiftl 1 n.

(** ** The flat allocator *)

Record FlatAlloc : Type := mkFlat {
  fa_start : Z;
  fa_end : Z;
  fa_inuse : Z;
  fa_ranges : list (Z * Z)
}.

Section Definitions.

(** Width of the ID type and the const generic [MINOR_BITS]. *)
Context (BITS N : Z).

Definition insert_free_range (ranges : list (Z * Z)) (n : Z) : list (Z * Z) :=
  let new_end := default n (Id_next BITS n) in
  let '(new_start, ranges) :=
    match om_last_below n ranges with
    | Some (s, e) => if e =? n then (s, om_remove s ranges) else (n, ranges)
    | None => (n, ranges)
    end in
  let '(new_end, ranges) :=
    match Id_next BITS n with
    | Some next =>
        match om_get next ranges with
        | Some e => (e, om_remove next ranges)
        | None => (new_end, ranges)
        end
    | None => (new_end, ranges)
    end in
  om_insert new_start new_end ranges.

Definition FlatAlloc_new (rstart rend : Z) : FlatAlloc :=
  mkFlat rstart rend 0 (if rstart <? rend then om_insert rstart rend [] else []).

Definition FlatAlloc_contains (self : FlatAlloc) (id : Z) : bool :=
  (fa_start self <=? id) && (id <? fa_end self).

Definition FlatAlloc_size (self : FlatAlloc) : outcome Z :=
  Id_distance_to (fa_start self) (fa_end self).

Definition FlatAlloc_used (self : FlatAlloc) : Z := fa_inuse self.

(** [iter().map(|(&s, &e)| s.distance_to(&e)).sum()] *)
Fixpoint sum_distances (ranges : list (Z * Z)) (acc : Z) : outcome Z :=
  match ranges with
  | [] => mret acc
  | (s, e) :: ranges =>
      d ← Id_distance_to s e;
      acc ← usize_add acc d;
      sum_distances ranges acc
  end.

Definition FlatAlloc_available (self : FlatAlloc) : outcome Z :=
  sum_distances (fa_ranges self) 0.

(** The search loop of [is_allocated]. *)
Fixpoint is_allocated_loop (ranges : list (Z * Z)) (id : Z) : bool :=
  match ranges with
  | [] => true
  | (s, e) :: ranges =>
      if (s <=? id) && (id <? e) then false
      else if id <? s then true
      else is_allocated_loop ranges id
  end.

Definition FlatAlloc_is_allocated (self : FlatAlloc) (id : Z) : bool :=
  if negb (FlatAlloc_contains self id) then false
  else is_allocated_loop (fa_ranges self) id.

(** The loop of [find_aligned_block]; [u128] arithmetic on [to_bits]. *)
Fixpoint find_block_loop (mask block : Z) (ranges : list (Z * Z)) : outcome (option Z) :=
  match ranges with
  | [] => mret None
  | (s, e) :: ranges =>
      let aligned := Z.land (wrap 128 (s + mask)) (wnot 128 mask) in
      if aligned + block <? 2 ^ 128 then
        if aligned + block <=? e then mret (Some (Id_from_bits BITS aligned))
        else find_block_loop mask block ranges
      else Panic
  end.

Definition FlatAlloc_find_aligned_block (self : FlatAlloc) (n : Z)
    : outcome (option Z) :=
  let mask := low_mask n in
  let block := block_size n in
  if block =? 0 then mret None
  else find_block_loop mask block (fa_ranges self).

(** [if let Some(next) = id.next() && next < end { ranges.insert(next, end) }] *)
Definition insert_rest (id e : Z) (ranges : list (Z * Z)) : list (Z * Z) :=
  match Id_next BITS id with
  | Some next => if next <? e then om_insert next e ranges else ranges
  | None => ranges
  end.

Definition FlatAlloc_alloc (self : FlatAlloc) : outcome (option Z * FlatAlloc) :=
  available ← FlatAlloc_available self;
  if available =? 0 then mret (None, self)
  else
    match om_pop_first (fa_ranges self) with
    | None => mret (None, self)
    | Some ((id, e), ranges) =>
        inuse ← usize_add (fa_inuse self) 1;
        mret (Some id,
              mkFlat (fa_start self) (fa_end self) inuse (insert_rest id e ranges))
    end.

Definition FlatAlloc_alloc_at (self : FlatAlloc) (id : Z)
    : outcome (result IdAllocError unit * FlatAlloc) :=
  if negb (FlatAlloc_contains self id) then mret (Err IdOutOfRange, self)
  else if FlatAlloc_is_allocated self id then mret (Err IdAlreadyAllocated, self)
  else
    '(s, e) ← expect (om_last_upto id (fa_ranges self));
    let ranges := om_remove s (fa_ranges self) in
    let ranges := if s <? id then om_insert s id ranges else ranges in
    let ranges := insert_rest id e ranges in
    inuse ← usize_add (fa_inuse self) 1;
    mret (Ok tt, mkFlat (fa_start self) (fa_end self) inuse ranges).

Definition FlatAlloc_dealloc (self : FlatAlloc) (id : Z)
    : outcome (result IdAllocError unit * FlatAlloc) :=
  if negb (FlatAlloc_contains self id) then mret (Err IdOutOfRange, self)
  else if negb (FlatAlloc_is_allocated self id) then mret (Err IdAlreadyFree, self)
  else
    let ranges := insert_free_range (fa_ranges self) id in
    inuse ← usize_sub (fa_inuse self) 1;
    mret (Ok tt, mkFlat (fa_start self) (fa_end self) inuse ranges).

Definition FlatAlloc_carve (self : FlatAlloc) (rstart rend : Z)
    : result IdAllocError unit * FlatAlloc :=
  if rend <=? rstart then (Err IdEmptyRange, self)
  else if (rstart <? fa_start self) || (fa_end self <? rend)
  then (Err IdOutOfRange, self)
  else
    match om_last_upto rstart (fa_ranges self) with
    | None => (Err IdRangeBusy, self)
    | Some (fs, fe) =>
        if fe <? rend then (Err IdRangeBusy, self)
        else
          let ranges := om_remove fs (fa_ranges self) in
          let ranges := if fs <? rstart then om_insert fs rstart ranges else ranges in
          let ranges := if rend <? fe then om_insert rend fe ranges else ranges in
          (Ok tt, mkFlat (fa_start self) (fa_end self) (fa_inuse self) ranges)
    end.

Definition FlatAlloc_return_range (self : FlatAlloc) (rstart rend : Z) : FlatAlloc :=
  if rend <=? rstart then self
  else
    let '(new_start, ranges) :=
      match om_last_below rstart (fa_ranges self) with
      | Some (s, e) =>
          if e =? rstart then (s, om_remove s (fa_ranges self))
          else (rstart, fa_ranges self)
      | None => (rstart, fa_ranges self)
      end in
    let '(new_end, ranges) :=
      match om_get rend ranges with
      | Some e => (e, om_remove rend ranges)
      | None => (rend, ranges)
      end in
    mkFlat (fa_start self) (fa_end self) (fa_inuse self)
      (om_insert new_start new_end ranges).

Definition FlatAlloc_reset (self : FlatAlloc) (rstart rend : Z) : FlatAlloc :=
  mkFlat rstart rend 0 (if rstart <? rend then om_insert rstart rend [] else []).

(** ** The two-level allocator *)

Record MajorSlot : Type := mkSlot { slot_inner : FlatAlloc }.

Record IdAlloc : Type := mkIdAlloc {
  ia_flat : FlatAlloc;
  ia_majors : list (Z * MajorSlot)
}.

Definition IdAlloc_new : IdAlloc := mkIdAlloc (FlatAlloc_new 0 0) [].

Definition IdAlloc_validate_range (rstart : Z) : result IdAllocError unit :=
  if BITS <=? N then Err IdOutOfRange
  else if negb (Z.land rstart (low_mask N) =? 0) then Err IdNotAligned
  else Ok tt.

Definition IdAlloc_from_range (rstart rend : Z) : result IdAllocError IdAlloc :=
  _ ← IdAlloc_validate_range rstart;
  Ok (mkIdAlloc (FlatAlloc_new rstart rend) []).

Definition IdAlloc_init (self : IdAlloc) (rstart rend : Z)
    : result IdAllocError unit * IdAlloc :=
  match IdAlloc_validate_range rstart with
  | Err e => (Err e, self)
  | Ok _ => (Ok tt, mkIdAlloc (FlatAlloc_reset (ia_flat self) rstart rend) [])
  end.

Definition IdAlloc_block_end (base : Z) : Z :=
  Id_from_bits BITS (wrap 128 (base + block_size N)).

Definition IdAlloc_token_base (id : Z) : Z :=
  Id_from_bits BITS (Z.land id (wnot 128 (low_mask N))).

Definition IdAlloc_size (self : IdAlloc) : outcome Z := FlatAlloc_size (ia_flat self).

Fixpoint sum_used (majors : list (Z * MajorSlot)) (acc : Z) : outcome Z :=
  match majors with
  | [] => mret acc
  | (_, slot) :: majors =>
      acc ← usize_add acc (FlatAlloc_used (slot_inner slot));
      sum_used majors acc
  end.

Definition IdAlloc_used (self : IdAlloc) : outcome Z :=
  in_majors ← sum_used (ia_majors self) 0;
  usize_add (FlatAlloc_used (ia_flat self)) in_majors.

Fixpoint sum_available (majors : list (Z * MajorSlot)) (acc : Z) : outcome Z :=
  match majors with
  | [] => mret acc
  | (_, slot) :: majors =>
      a ← FlatAlloc_available (slot_inner slot);
      acc ← usize_add acc a;
      sum_available majors acc
  end.

Definition IdAlloc_available (self : IdAlloc) : outcome Z :=
  flat ← FlatAlloc_available (ia_flat self);
  in_majors ← sum_available (ia_majors self) 0;
  usize_add flat in_majors.

Definition IdAlloc_is_full (self : IdAlloc) : outcome bool :=
  a ← IdAlloc_available self; mret (a =? 0).

Definition IdAlloc_is_empty (self : IdAlloc) : outcome bool :=
  u ← IdAlloc_used self; mret (u =? 0).

Definition IdAlloc_contains (self : IdAlloc) (id : Z) : bool :=
  FlatAlloc_contains (ia_flat self) id.

Definition IdAlloc_is_allocated (self : IdAlloc) (id : Z) : bool :=
  if negb (FlatAlloc_contains (ia_flat self) id) then false
  else
    match om_get (IdAlloc_token_base id) (ia_majors self) with
    | Some slot => FlatAlloc_is_allocated (slot_inner slot) id
    | None => FlatAlloc_is_allocated (ia_flat self) id
    end.

Definition IdAlloc_reset (self : IdAlloc) : IdAlloc :=
  mkIdAlloc
    (FlatAlloc_reset (ia_flat self) (fa_start (ia_flat self)) (fa_end (ia_flat self))) [].

Definition IdAlloc_alloc (self : IdAlloc) : outcome (option Z * IdAlloc) :=
  '(r, flat) ← FlatAlloc_alloc (ia_flat self);
  mret (r, mkIdAlloc flat (ia_majors self)).

(** [alloc_at] and [dealloc] route the ID to the major that owns its block;
    [op] is the operation of the flat allocator. *)
Definition IdAlloc_route
    (op : FlatAlloc -> Z -> outcome (result IdAllocError unit * FlatAlloc))
    (self : IdAlloc) (id : Z) : outcome (result IdAllocError unit * IdAlloc) :=
  if negb (FlatAlloc_contains (ia_flat self) id) then mret (Err IdOutOfRange, self)
  else
    let base := IdAlloc_token_base id in
    match om_get base (ia_majors self) with
    | Some slot =>
        '(r, inner) ← op (slot_inner slot) id;
        mret (r, mkIdAlloc (ia_flat self)
                   (om_modify (fun _ => mkSlot inner) base (ia_majors self)))
    | None =>
        '(r, flat) ← op (ia_flat self) id;
        mret (r, mkIdAlloc flat (ia_majors self))
    end.

Definition IdAlloc_alloc_at (self : IdAlloc) (id : Z)
    : outcome (result IdAllocError unit * IdAlloc) :=
  IdAlloc_route FlatAlloc_alloc_at self id.

Definition IdAlloc_dealloc (self : IdAlloc) (id : Z)
    : outcome (result IdAllocError unit * IdAlloc) :=
  IdAlloc_route FlatAlloc_dealloc self id.

Definition IdAlloc_alloc_major (self : IdAlloc) : outcome (option Z * IdAlloc) :=
  found ← FlatAlloc_find_aligned_block (ia_flat self) N;
  match found with
  | None => mret (None, self)
  | Some base =>
      let e := IdAlloc_block_end base in
      match FlatAlloc_carve (ia_flat self) base e with
      | (Err _, _) => Panic
      | (Ok _, flat) =>
          mret (Some base,
                mkIdAlloc flat
                  (om_insert base (mkSlot (FlatAlloc_new base e)) (ia_majors self)))
      end
  end.

Definition IdAlloc_alloc_major_at (self : IdAlloc) (base : Z)
    : result IdAllocError Z * IdAlloc :=
  if negb (Z.land base (low_mask N) =? 0) then (Err IdNotAligned, self)
  else if negb (FlatAlloc_contains (ia_flat self) base) then (Err IdOutOfRange, self)
  else
    let end_bits := wrap 128 (base + block_size N) in
    if (end_bits =? 0) || (fa_end (ia_flat self) <? end_bits)
    then (Err IdOutOfRange, self)
    else if om_contains base (ia_majors self) then (Err IdAlreadyAllocated, self)
    else
      let e := Id_from_bits BITS end_bits in
      match FlatAlloc_carve (ia_flat self) base e with
      | (Err err, flat) => (Err err, mkIdAlloc flat (ia_majors self))
      | (Ok _, flat) =>
          (Ok base,
           mkIdAlloc flat (om_insert base (mkSlot (FlatAlloc_new base e)) (ia_majors self)))
      end.

Definition IdAlloc_alloc_minor (self : IdAlloc) (major : Z)
    : outcome (option Z * IdAlloc) :=
  match om_get major (ia_majors self) with
  | None => mret (None, self)
  | Some slot =>
      '(r, inner) ← FlatAlloc_alloc (slot_inner slot);
      mret (r, mkIdAlloc (ia_flat self)
                 (om_modify (fun _ => mkSlot inner) major (ia_majors self)))
  end.

Definition IdAlloc_dealloc_major (self : IdAlloc) (base : Z)
    : result IdAllocError unit * IdAlloc :=
  match om_get base (ia_majors self) with
  | None => (Err IdMajorNotFound, self)
  | Some _ =>
      let majors := om_remove base (ia_majors self) in
      let e := IdAlloc_block_end base in
      (Ok tt, mkIdAlloc (FlatAlloc_return_range (ia_flat self) base e) majors)
  end.

End Definitions.

(** ** Interval maps and the set of free IDs *)

(** Is [i] in one of the intervals? *)
Definition mem (m : list (Z * Z)) (i : Z) : bool :=
  existsb (fun '(s, e) => (s <=? i) && (i <? e)) m.

Lemma mem_true m i : mem m i = true <-> exists s e, (s, e) ∈ m /\ s <= i < e.
Proof.
  unfold mem. rewrite existsb_exists. split.
  - intros ([s e] & Hin%list_elem_of_In & Hb). exists s, e. zify_bool. split; [done|lia].
  - intros (s & e & Hin%list_elem_of_In & Hi). exists (s, e). split; [done|].
    apply andb_true_iff. lia.
Qed.

Lemma mem_false m i : mem m i = false <-> forall s e, (s, e) ∈ m -> ~ (s <= i < e).
Proof.
  rewrite <- not_true_iff_false, mem_true. naive_solver.
Qed.

(** The intervals are non-empty, within [[lo, hi)], and no two of them touch. *)
Record ranges_ok (lo hi : Z) (m : list (Z * Z)) : Prop := {
  ro_ok : om_ok m;
  ro_in : forall s e, (s, e) ∈ m -> lo <= s /\ s < e /\ e <= hi;
  ro_sep : forall s1 e1 s2 e2, (s1, e1) ∈ m -> (s2, e2) ∈ m -> s1 < s2 -> e1 < s2
}.

Lemma klt_Z (a b : Z) : klt a b <-> a < b.
Proof. apply Z.compare_lt_iff. Qed.

(** The interval that starts at [s] is unique, and so is the one holding [i]. *)
Lemma ranges_fun lo hi m s e e' :
  ranges_ok lo hi m -> (s, e) ∈ m -> (s, e') ∈ m -> e = e'.
Proof.
  intros H H1 H2. apply om_get_elem in H1, H2; try apply H. congruence.
Qed.

Lemma ranges_same lo hi m s e s' e' i :
  ranges_ok lo hi m -> (s, e) ∈ m -> (s', e') ∈ m -> s <= i < e -> s' <= i < e' ->
  s = s' /\ e = e'.
Proof.
  intros H H1 H2 Hi Hi'. destruct (Z.lt_trichotomy s s') as [Hl|[->|Hl]].
  - pose proof (ro_sep _ _ _ H _ _ _ _ H1 H2 Hl). lia.
  - split; [done|]. by eapply ranges_fun.
  - pose proof (ro_sep _ _ _ H _ _ _ _ H2 H1 Hl). lia.
Qed.

Lemma mem_elem lo hi m s e i :
  ranges_ok lo hi m -> (s, e) ∈ m -> s <= i < e -> mem m i = true.
Proof. intros. apply mem_true. eauto. Qed.

Lemma mem_bound lo hi m i : ranges_ok lo hi m -> mem m i = true -> lo <= i < hi.
Proof.
  intros H (s & e & Hin & Hi)%mem_true. apply (ro_in _ _ _ H) in Hin. lia.
Qed.

Lemma mem_nil i : mem [] i = false.
Proof. done. Qed.

Lemma ranges_nil lo hi : ranges_ok lo hi [].
Proof. split; [constructor|..]; intros; by apply not_elem_of_nil in H. Qed.

Lemma ranges_one lo hi : lo < hi -> ranges_ok lo hi [(lo, hi)].
Proof.
  intros Hl. split.
  - apply om_ok_cons. split; [constructor|]. by intros ? ? ?%not_elem_of_nil.
  - intros s e [= -> ->]%list_elem_of_singleton. lia.
  - intros s1 e1 s2 e2 [= -> ->]%list_elem_of_singleton [= -> ->]%list_elem_of_singleton.
    lia.
Qed.

(** *** Taking [[a, b)] out of the interval [[s, e)] *)

Definition punch (m : list (Z * Z)) (s e a b : Z) : list (Z * Z) :=
  let m := om_remove s m in
  let m := if s <? a then om_insert s a m else m in
  if b <? e then om_insert b e m else m.

Section Punch.
Context (lo hi : Z) (m : list (Z * Z)) (s e a b : Z).
Hypothesis Hm : ranges_ok lo hi m.
Hypothesis Hin : (s, e) ∈ m.
Hypothesis Hab : s <= a /\ a < b /\ b <= e.

Lemma punch_om_ok : om_ok (punch m s e a b).
Proof using Hm.
  unfold punch. pose proof (om_remove_ok s m (ro_ok _ _ _ Hm)).
  destruct (s <? a), (b <? e); auto with athera.
Qed.

Lemma elem_of_punch x y :
  (x, y) ∈ punch m s e a b <->
  (x <> s /\ (x, y) ∈ m) \/ (s < a /\ x = s /\ y = a) \/ (b < e /\ x = b /\ y = e).
Proof using Hm Hin Hab.
  unfold punch. pose proof (om_remove_ok s m (ro_ok _ _ _ Hm)) as Hr.
  assert (Hb : forall y, b < e -> (b, y) ∈ m -> b <> s -> False).
  { intros y' Hl Hb Hne. apply (ro_sep _ _ _ Hm _ _ _ _ Hin) in Hb; lia. }
  assert (Hx : x = b -> b < e -> (x, y) ∈ m -> x <> s -> False) by (intros ->; eauto).
  destruct (Z.ltb_spec s a), (Z.ltb_spec b e);
    rewrite ?elem_of_om_insert, ?elem_of_om_remove by (auto using om_insert_ok; apply Hm);
    generalize dependent ((x, y) ∈ m); intros P HP;
    destruct (Z.eq_dec x s), (Z.eq_dec x b); subst; intuition lia.
Qed.

Lemma punch_ok : ranges_ok lo hi (punch m s e a b).
Proof using Hm Hin Hab.
  pose proof (ro_in _ _ _ Hm _ _ Hin) as Hse. split.
  - apply punch_om_ok.
  - intros x y [[Hne Hx]|[[? [-> ->]]|[? [-> ->]]]]%elem_of_punch; [|lia|lia].
    by apply (ro_in _ _ _ Hm).
  - intros x1 y1 x2 y2 H1%elem_of_punch H2%elem_of_punch Hl.
    destruct H1 as [[Hn1 H1]|[[? [-> ->]]|[? [-> ->]]]],
             H2 as [[Hn2 H2]|[[? [-> ->]]|[? [-> ->]]]]; try lia.
    + by eapply (ro_sep _ _ _ Hm).
    + by eapply (ro_sep _ _ _ Hm _ _ _ _ H1 Hin).
    + destruct (Z.lt_trichotomy x1 s) as [Hx|[->|Hx]]; [|done|].
      * pose proof (ro_sep _ _ _ Hm _ _ _ _ H1 Hin Hx). lia.
      * pose proof (ro_sep _ _ _ Hm _ _ _ _ Hin H1 Hx). lia.
    + pose proof (ro_sep _ _ _ Hm _ _ _ _ Hin H2 Hl). lia.
    + apply (ro_sep _ _ _ Hm _ _ _ _ Hin H2). lia.
Qed.

Lemma punch_mem i : mem (punch m s e a b) i = fill (mem m) a (b - a) false i.
Proof using Hm Hin Hab.
  pose proof (ro_in _ _ _ Hm _ _ Hin) as Hse. apply eq_true_iff_eq.
  rewrite mem_true. setoid_rewrite elem_of_punch.
  destruct (fill_cases (mem m) a (b - a) false i) as [[Hi ->]|[Hi ->]].
  - split; [|done]. intros (x & y & Hc & Hxy).
    destruct Hc as [[Hne Hx]|[[? [-> ->]]|[? [-> ->]]]]; [|lia|lia].
    destruct (ranges_same _ _ _ _ _ _ _ i Hm Hx Hin) as [? ?]; [lia|lia|done].
  - rewrite mem_true. split.
    + intros (x & y & Hc & Hxy). destruct Hc as [[Hne Hx]|[[? [-> ->]]|[? [-> ->]]]].
      * eauto.
      * exists s, e. split; [done|lia].
      * exists s, e. split; [done|lia].
    + intros (x & y & Hx & Hxy). destruct (Z.eq_dec x s) as [->|Hne]; [|eauto 6].
      pose proof (ranges_fun _ _ _ _ _ _ Hm Hin Hx) as <-.
      destruct (Z.lt_ge_cases i a); [exists s, a | exists b, e]; split; try lia; lia.
Qed.

End Punch.

(** *** Giving back [[a, b)], merged with the intervals it touches *)

Definition join_left (m : list (Z * Z)) (a : Z) : Z * list (Z * Z) :=
  match om_last_below a m with
  | Some (s, e) => if e =? a then (s, om_remove s m) else (a, m)
  | None => (a, m)
  end.

Definition join_right (m : list (Z * Z)) (b : Z) : Z * list (Z * Z) :=
  match om_get b m with
  | Some e => (e, om_remove b m)
  | None => (b, m)
  end.

Definition join (m : list (Z * Z)) (a b : Z) : list (Z * Z) :=
  let '(new_start, m) := join_left m a in
  let '(new_end, m) := join_right m b in
  om_insert new_start new_end m.

Lemma join_left_ok lo hi m a : ranges_ok lo hi m ->
  let '(ns, m1) := join_left m a in
  om_ok m1 /\ (forall x y, (x, y) ∈ m1 <-> (x, y) ∈ m /\ y <> a) /\
  ((ns = a /\ forall x, (x, a) ∉ m) \/ (ns, a) ∈ m).
Proof.
  intros Hm. unfold join_left. pose proof (om_last_below_ok a m (ro_ok _ _ _ Hm)) as Hg.
  assert (Hkeep : (forall x, (x, a) ∉ m) ->
    om_ok m /\ (forall x y, (x, y) ∈ m <-> (x, y) ∈ m /\ y <> a) /\
    ((a = a /\ forall x, (x, a) ∉ m) \/ (a, a) ∈ m)).
  { intros Hno. split; [apply Hm|]. split; [|auto]. intros x y. split; [|tauto].
    intros Hx. split; [done|]. intros ->. by apply (Hno x). }
  destruct (om_last_below a m) as [[s e]|]; simpl in Hg.
  - destruct Hg as (Hin & Hl & Hmax). rewrite klt_Z in Hl.
    destruct (Z.eqb_spec e a) as [->|Hne].
    + split; [apply om_remove_ok, Hm|]. split; [|by right].
      intros x y. rewrite elem_of_om_remove by apply Hm. split; intros [H1 H2]; (split; [|]); try done.
      * intros ->. pose proof (ro_in _ _ _ Hm _ _ Hin). pose proof (ro_in _ _ _ Hm _ _ H2).
        destruct (ranges_same _ _ _ _ _ _ _ (a - 1) Hm Hin H2); lia.
      * intros ->. by pose proof (ranges_fun _ _ _ _ _ _ Hm Hin H1).
    + apply Hkeep. intros x Hx. pose proof (ro_in _ _ _ Hm _ _ Hx).
      destruct (Hmax _ _ Hx) as [->|Hk]; [rewrite klt_Z; lia| |].
      * by pose proof (ranges_fun _ _ _ _ _ _ Hm Hin Hx).
      * rewrite klt_Z in Hk. pose proof (ro_sep _ _ _ Hm _ _ _ _ Hx Hin Hk). lia.
  - apply Hkeep. intros x Hx. apply (Hg _ _ Hx), klt_Z.
    pose proof (ro_in _ _ _ Hm _ _ Hx). lia.
Qed.

Lemma join_right_ok m b : om_ok m ->
  let '(ne, m1) := join_right m b in
  om_ok m1 /\ (forall x y, (x, y) ∈ m1 <-> (x, y) ∈ m /\ x <> b) /\
  ((ne = b /\ forall y, (b, y) ∉ m) \/ (b, ne) ∈ m).
Proof.
  intros Hm. unfold join_right. destruct (om_get b m) as [e|] eqn:E.
  - split; [by apply om_remove_ok|]. split; [|right; by apply om_get_elem].
    intros x y. rewrite elem_of_om_remove by done. tauto.
  - rewrite om_get_none in E by done. split; [done|]. split; [|auto].
    intros x y. split; [|tauto]. intros Hx. split; [done|]. intros ->. by apply (E y).
Qed.

Section Join.
Context (lo hi : Z) (m : list (Z * Z)) (a b : Z).
Hypothesis Hm : ranges_ok lo hi m.
Hypothesis Hab : lo <= a /\ a < b /\ b <= hi.
Hypothesis Hout : forall i, a <= i < b -> mem m i = false.

(** An interval of the map lies entirely before or after [[a, b)]. *)
Lemma join_side s e : (s, e) ∈ m -> e <= a \/ b <= s.
Proof using Hm Hab Hout.
  intros Hin. pose proof (ro_in _ _ _ Hm _ _ Hin) as Hse.
  destruct (Z.le_gt_cases e a) as [|He]; [by left|].
  destruct (Z.le_gt_cases b s) as [|Hs]; [by right|].
  assert (Hi : a <= Z.max a s < b) by lia.
  apply Hout in Hi. rewrite mem_false in Hi. destruct (Hi s e Hin). lia.
Qed.

(** The map after [join] has the enlarged interval instead of those touching. *)
Lemma join_elems : exists ns ne,
  om_ok (join m a b) /\
  (forall x y, (x, y) ∈ join m a b <->
     (x = ns /\ y = ne) \/ ((x, y) ∈ m /\ y <> a /\ x <> b)) /\
  ((ns = a /\ forall x, (x, a) ∉ m) \/ (ns, a) ∈ m) /\
  ((ne = b /\ forall y, (b, y) ∉ m) \/ (b, ne) ∈ m).
Proof using Hm Hab Hout.
  unfold join. pose proof (join_left_ok lo hi m a Hm) as Hl.
  destruct (join_left m a) as [ns m1]. destruct Hl as (Hok1 & He1 & Hns).
  pose proof (join_right_ok m1 b Hok1) as Hr.
  destruct (join_right m1 b) as [ne m2]. destruct Hr as (Hok2 & He2 & Hne).
  exists ns, ne. split; [by apply om_insert_ok|]. split; [|split; [done|]].
  - intros x y. rewrite elem_of_om_insert, He2, He1 by done.
    split; [tauto|]. intros [?|(Hx & Hy & Hxb)]; [tauto|]. right. split; [|tauto].
    intros ->. destruct Hns as [[-> _]|Hns].
    + destruct (join_side _ _ Hx); pose proof (ro_in _ _ _ Hm _ _ Hx); lia.
    + by pose proof (ranges_fun _ _ _ _ _ _ Hm Hns Hx).
  - destruct Hne as [[-> Hno]|Hne].
    + left. split; [done|]. intros y Hy. apply (Hno y). apply He1. split; [done|].
      intros ->. pose proof (ro_in _ _ _ Hm _ _ Hy). lia.
    + right. by apply He1 in Hne as [? _].
Qed.

(** What the bounds of the enlarged interval are. *)
Lemma join_bounds ns ne :
  ((ns = a /\ forall x, (x, a) ∉ m) \/ (ns, a) ∈ m) ->
  ((ne = b /\ forall y, (b, y) ∉ m) \/ (b, ne) ∈ m) ->
  lo <= ns <= a /\ b <= ne <= hi /\
  (forall i, ns <= i < ne -> mem m i = true \/ a <= i < b) /\
  (forall x y, (x, y) ∈ m -> y <> a -> x <> b -> y < ns \/ ne < x).
Proof using Hm Hab Hout.
  intros Hns Hne.
  assert (Hs : lo <= ns <= a).
  { destruct Hns as [[-> _]|H]; [lia|]. apply (ro_in _ _ _ Hm) in H. lia. }
  assert (He : b <= ne <= hi).
  { destruct Hne as [[-> _]|H]; [lia|]. apply (ro_in _ _ _ Hm) in H. lia. }
  split; [done|]. split; [done|]. split.
  - intros i Hi. destruct (Z.lt_ge_cases i a) as [Hia|Hia].
    { left. destruct Hns as [[-> _]|H]; [lia|]. apply (mem_elem lo hi m ns a); (done || lia). }
    destruct (Z.lt_ge_cases i b) as [Hib|Hib]; [right; lia|].
    left. destruct Hne as [[-> _]|H]; [lia|]. apply (mem_elem lo hi m b ne); (done || lia).
  - intros x y Hx Hya Hxb. destruct (join_side _ _ Hx) as [Hy|Hb].
    + left. destruct Hns as [[-> _]|H]; [lia|].
      pose proof (ro_in _ _ _ Hm _ _ Hx). pose proof (ro_in _ _ _ Hm _ _ H).
      destruct (Z.lt_trichotomy x ns) as [Hl|[->|Hl]].
      * by apply (ro_sep _ _ _ Hm _ _ _ _ Hx H).
      * by pose proof (ranges_fun _ _ _ _ _ _ Hm Hx H).
      * pose proof (ro_sep _ _ _ Hm _ _ _ _ H Hx Hl). lia.
    + right. destruct Hne as [[-> _]|H]; [lia|].
      apply (ro_sep _ _ _ Hm _ _ _ _ H Hx). lia.
Qed.

Lemma join_ok : ranges_ok lo hi (join m a b).
Proof using Hm Hab Hout.
  destruct join_elems as (ns & ne & Hok & Hel & Hns & Hne).
  destruct (join_bounds ns ne Hns Hne) as (Hs & He & _ & Hsep). split; [done|..].
  - intros x y [[-> ->]|[Hx _]]%Hel; [lia|]. by apply (ro_in _ _ _ Hm).
  - intros x1 y1 x2 y2 H1%Hel H2%Hel Hl.
    destruct H1 as [[-> ->]|(H1 & Hy1 & Hx1)], H2 as [[-> ->]|(H2 & Hy2 & Hx2)].
    + lia.
    + pose proof (ro_in _ _ _ Hm _ _ H2). destruct (Hsep _ _ H2 Hy2 Hx2); lia.
    + pose proof (ro_in _ _ _ Hm _ _ H1). destruct (Hsep _ _ H1 Hy1 Hx1); lia.
    + by apply (ro_sep _ _ _ Hm _ _ _ _ H1 H2).
Qed.

Lemma join_mem i : mem (join m a b) i = fill (mem m) a (b - a) true i.
Proof using Hm Hab Hout.
  destruct join_elems as (ns & ne & Hok & Hel & Hns & Hne).
  destruct (join_bounds ns ne Hns Hne) as (Hs & He & Hcov & _).
  apply eq_true_iff_eq. rewrite mem_true. setoid_rewrite Hel.
  destruct (fill_cases (mem m) a (b - a) true i) as [[Hi ->]|[Hi ->]].
  - split; [done|]. intros _. exists ns, ne. split; [tauto|lia].
  - split.
    + intros (x & y & [[-> ->]|(Hx & _)] & Hxy).
      * destruct (Hcov i Hxy); [done|lia].
      * by apply (mem_elem lo hi m x y).
    + intros (x & y & Hx & Hxy)%mem_true.
      destruct (Z.eq_dec y a) as [->|Hy].
      { exists ns, ne. split; [tauto|]. destruct Hns as [[-> Hno]|H]; [by destruct (Hno x)|].
        pose proof (ro_in _ _ _ Hm _ _ H).
        destruct (ranges_same _ _ _ _ _ _ _ (a - 1) Hm H Hx); lia. }
      destruct (Z.eq_dec x b) as [->|Hxb]; [|eauto 8].
      exists ns, ne. split; [tauto|]. destruct Hne as [[-> Hno]|H]; [by destruct (Hno y)|].
      pose proof (ranges_fun _ _ _ _ _ _ Hm H Hx). lia.
Qed.

End Join.

(** *** Counting the free IDs *)

Lemma ranges_tail lo hi s e m :
  ranges_ok lo hi ((s, e) :: m) -> ranges_ok e hi m /\
  lo <= s /\ s < e /\ e <= hi /\ forall s' e', (s', e') ∈ m -> e < s'.
Proof.
  intros H. pose proof (ro_ok _ _ _ H) as Hok. apply om_ok_cons in Hok as [Hok Hlt].
  destruct (ro_in _ _ _ H s e) as (H1 & H2 & H3); [left|].
  assert (Hs : forall s' e', (s', e') ∈ m -> e < s').
  { intros s' e' Hin. apply (ro_sep _ _ _ H s e s' e'); [left|by right|].
    by eapply klt_Z, Hlt. }
  split; [|done]. split; [done|..].
  - intros s' e' Hin. pose proof (Hs _ _ Hin).
    destruct (ro_in _ _ _ H s' e') as (H4 & H5 & H6); [by right|]. lia.
  - intros s1 e1 s2 e2 Ha Hb. apply (ro_sep _ _ _ H s1 e1 s2 e2); by right.
Qed.

Lemma mem_cons s e m i : mem ((s, e) :: m) i = ((s <=? i) && (i <? e)) || mem m i.
Proof. done. Qed.

Lemma mem_cons_count lo hi s e m : ranges_ok lo hi ((s, e) :: m) ->
  countb (mem ((s, e) :: m)) (seqZ lo (hi - lo)) =
  (e - s) + countb (mem m) (seqZ e (hi - e)).
Proof.
  intros (Hm & H1 & H2 & H3 & Hs)%ranges_tail.
  rewrite (seqZ_split lo _ s), (seqZ_split s _ e), !countb_app by lia.
  replace (lo + (hi - lo) - s) with (hi - s) by lia.
  replace (s + (hi - s) - e) with (hi - e) by lia.
  assert (Ho : forall i, i < e -> mem m i = false).
  { intros i Hi. apply mem_false. intros s' e' Hin. pose proof (Hs _ _ Hin). lia. }
  rewrite (countb_ext _ (fun _ => false) (seqZ lo (s - lo))),
    (countb_ext _ (fun _ => true) (seqZ s (e - s))),
    (countb_ext (mem ((s, e) :: m)) (mem m) (seqZ e (hi - e))), !countb_const; try lia.
  - intros i Hi%elem_of_seqZ. rewrite mem_cons.
    by destruct (Z.leb_spec s i), (Z.ltb_spec i e); try lia.
  - intros i Hi%elem_of_seqZ. rewrite mem_cons.
    by destruct (Z.leb_spec s i), (Z.ltb_spec i e); try lia.
  - intros i Hi%elem_of_seqZ. rewrite mem_cons, Ho by lia.
    by destruct (Z.leb_spec s i), (Z.ltb_spec i e); try lia.
Qed.

Lemma sum_distances_ok lo hi m acc : ranges_ok lo hi m -> 0 <= acc -> lo <= hi ->
  acc + (hi - lo) < 2 ^ 64 ->
  sum_distances m acc = Ret (acc + countb (mem m) (seqZ lo (hi - lo))).
Proof.
  revert lo acc. induction m as [|[s e] m IH]; intros lo acc Hm Ha Hl Hb.
  { cbn [sum_distances]. rewrite (proj2 (countb_zero _ _)) by done. f_equal. lia. }
  pose proof (mem_cons_count _ _ _ _ _ Hm) as Hc.
  apply ranges_tail in Hm as (Hm & H1 & H2 & H3 & _).
  cbn [sum_distances]. unfold Id_distance_to, usize_sub, usize_add.
  destruct (Z.leb_spec s e); [|lia]. rewrite outcome_bind_Ret.
  destruct (Z.ltb_spec (acc + (e - s)) (2 ^ 64)); [|lia]. rewrite outcome_bind_Ret.
  rewrite (IH e) by (done || lia). f_equal. lia.
Qed.

Lemma is_allocated_loop_ok lo hi m i : ranges_ok lo hi m ->
  is_allocated_loop m i = negb (mem m i).
Proof.
  revert lo. induction m as [|[s e] m IH]; intros lo Hm; [done|].
  apply ranges_tail in Hm as (Hm & H1 & H2 & H3 & Hs).
  cbn [is_allocated_loop]. rewrite mem_cons.
  destruct ((s <=? i) && (i <? e)) eqn:E; [done|]. simpl.
  destruct (Z.ltb_spec i s); [|by apply (IH e)].
  symmetry. apply negb_true_iff, mem_false. intros s' e' Hin. pose proof (Hs _ _ Hin). lia.
Qed.

(** ** The flat allocator against the set of free IDs *)

Section FlatRep.

Context (BITS N : Z).
Hypothesis HBITS : 0 <= N < BITS /\ BITS <= 64.

(** [f] is the set of free IDs, [c] the set of IDs carved out for majors. *)
Record Flat_rep (fa : FlatAlloc) (f c : Z -> bool) : Prop := {
  fr_bounds : 0 <= fa_start fa <= fa_end fa /\ fa_end fa < 2 ^ BITS;
  fr_ranges : ranges_ok (fa_start fa) (fa_end fa) (fa_ranges fa);
  fr_mem : forall i, fa_start fa <= i < fa_end fa -> mem (fa_ranges fa) i = f i;
  fr_carved : forall i, fa_start fa <= i < fa_end fa -> c i = true -> f i = false;
  fr_inuse : fa_inuse fa = countb (fun i => negb (f i) && negb (c i))
                             (seqZ (fa_start fa) (fa_end fa - fa_start fa))
}.

Definition Flat_next (fa fa' : FlatAlloc) (f' c' : Z -> bool) : Prop :=
  Flat_rep fa' f' c' /\ fa_start fa' = fa_start fa /\ fa_end fa' = fa_end fa.

Lemma Flat_stay fa f c : Flat_rep fa f c -> Flat_next fa fa f c.
Proof. by split. Qed.

Lemma pow_BITS : 2 ^ BITS <= 2 ^ 64.
Proof using HBITS. apply Z.pow_le_mono_r; lia. Qed.

Lemma FlatAlloc_contains_spec fa id :
  FlatAlloc_contains fa id = true <-> fa_start fa <= id < fa_end fa.
Proof. unfold FlatAlloc_contains. rewrite andb_true_iff. lia. Qed.

Lemma Flat_available_ok fa f c : Flat_rep fa f c ->
  FlatAlloc_available fa =
  Ret (countb f (seqZ (fa_start fa) (fa_end fa - fa_start fa))).
Proof using HBITS.
  intros H. pose proof (fr_bounds _ _ _ H). pose proof pow_BITS.
  unfold FlatAlloc_available.
  rewrite (sum_distances_ok _ _ _ 0 (fr_ranges _ _ _ H)) by lia.
  rewrite Z.add_0_l. f_equal. apply countb_ext. intros i Hi%elem_of_seqZ.
  apply (fr_mem _ _ _ H). lia.
Qed.

Lemma Flat_is_allocated_ok fa f c id : Flat_rep fa f c ->
  FlatAlloc_is_allocated fa id = FlatAlloc_contains fa id && negb (f id).
Proof.
  intros H. unfold FlatAlloc_is_allocated.
  destruct (FlatAlloc_contains fa id) eqn:E; [|done]. simpl.
  rewrite (is_allocated_loop_ok _ _ _ _ (fr_ranges _ _ _ H)).
  apply FlatAlloc_contains_spec in E. by rewrite (fr_mem _ _ _ H).
Qed.

Lemma Flat_inuse_bound fa f c : Flat_rep fa f c -> 0 <= fa_inuse fa < 2 ^ 64.
Proof using HBITS.
  intros H. rewrite (fr_inuse _ _ _ H). pose proof (fr_bounds _ _ _ H). pose proof pow_BITS.
  pose proof (countb_le (fun i => negb (f i) && negb (c i))
    (seqZ (fa_start fa) (fa_end fa - fa_start fa))) as Hle.
  rewrite length_seqZ in Hle. pose proof (countb_nonneg (fun i => negb (f i) && negb (c i))
    (seqZ (fa_start fa) (fa_end fa - fa_start fa))). lia.
Qed.

(** How the free set changes when one ID is taken or given back. *)
Lemma Flat_take fa f c ranges id :
  Flat_rep fa f c -> fa_start fa <= id < fa_end fa -> f id = true ->
  ranges_ok (fa_start fa) (fa_end fa) ranges ->
  (forall i, mem ranges i = fill (mem (fa_ranges fa)) id 1 false i) ->
  Flat_next fa (mkFlat (fa_start fa) (fa_end fa) (fa_inuse fa + 1) ranges)
    (fill f id 1 false) c.
Proof.
  intros H Hid Hf Hr Hmem. split; [|done]. split; simpl.
  - apply H.
  - done.
  - intros i Hi. rewrite Hmem. unfold fill. by rewrite (fr_mem _ _ _ H).
  - intros i Hi Hc. unfold fill. destruct (_ && _); [done|]. by apply (fr_carved _ _ _ H).
  - rewrite (countb_ext _ (fill (fun i => negb (f i) && negb (c i)) id 1 true)).
    + rewrite countb_fill, (fr_inuse _ _ _ H); [done|lia|lia|lia|].
      intros j Hj. replace j with id by lia. by rewrite Hf.
    + intros i Hi%elem_of_seqZ.
      destruct (fill_cases f id 1 false i) as [[Hj ->]|[Hj ->]];
        [rewrite fill_in by done | by rewrite fill_out by done].
      replace i with id by lia. destruct (c id) eqn:Ec; [|done].
      rewrite (fr_carved _ _ _ H) in Hf by (done || lia). done.
Qed.

Lemma Flat_put fa f c ranges id :
  Flat_rep fa f c -> fa_start fa <= id < fa_end fa -> f id = false -> c id = false ->
  ranges_ok (fa_start fa) (fa_end fa) ranges ->
  (forall i, mem ranges i = fill (mem (fa_ranges fa)) id 1 true i) ->
  1 <= fa_inuse fa /\
  Flat_next fa (mkFlat (fa_start fa) (fa_end fa) (fa_inuse fa - 1) ranges)
    (fill f id 1 true) c.
Proof.
  intros H Hid Hf Hc Hr Hmem.
  assert (Hcount : countb (fun i => negb (fill f id 1 true i) && negb (c i))
     (seqZ (fa_start fa) (fa_end fa - fa_start fa)) = fa_inuse fa - 1).
  { rewrite (countb_ext _ (fill (fun i => negb (f i) && negb (c i)) id 1 false)).
    - rewrite countb_fill, (fr_inuse _ _ _ H); [done|lia|lia|lia|].
      intros j Hj. replace j with id by lia. by rewrite Hf, Hc.
    - intros i Hi%elem_of_seqZ.
      destruct (fill_cases f id 1 true i) as [[Hj ->]|[Hj ->]];
        [by rewrite fill_in by done | by rewrite fill_out by done]. }
  split; [pose proof (countb_nonneg (fun i => negb (fill f id 1 true i) && negb (c i))
     (seqZ (fa_start fa) (fa_end fa - fa_start fa))); lia|].
  split; [|done]. split; simpl; [apply H|done|..|done].
  - intros i Hi. rewrite Hmem. unfold fill. by rewrite (fr_mem _ _ _ H).
  - intros i Hi Hci. destruct (fill_cases f id 1 true i) as [[Hj _]|[Hj ->]].
    + replace i with id in * by lia. congruence.
    + by apply (fr_carved _ _ _ H).
Qed.

(** Allocating [id] out of the interval [[s, e)], with the counter's check. *)
Lemma Flat_take_punch {A} fa f c s e id (r : A) :
  Flat_rep fa f c -> (s, e) ∈ fa_ranges fa -> s <= id < e ->
  exists fa',
    (inuse ← usize_add (fa_inuse fa) 1;
     mret (r, mkFlat (fa_start fa) (fa_end fa) inuse
                (punch (fa_ranges fa) s e id (id + 1)))) = Ret (r, fa') /\
    Flat_next fa fa' (fill f id 1 false) c.
Proof using HBITS.
  intros H Hin Hi. pose proof (fr_ranges _ _ _ H) as Hr.
  pose proof (ro_in _ _ _ Hr _ _ Hin).
  assert (Hn : Flat_next fa (mkFlat (fa_start fa) (fa_end fa) (fa_inuse fa + 1)
    (punch (fa_ranges fa) s e id (id + 1))) (fill f id 1 false) c).
  { apply Flat_take; [done|lia| | |].
    - rewrite <- (fr_mem _ _ _ H) by lia. by apply (mem_elem _ _ _ _ _ _ Hr Hin).
    - apply punch_ok; [done|done|lia].
    - intros i. rewrite (punch_mem _ _ _ _ _ _ _ Hr Hin) by lia.
      by replace (id + 1 - id) with 1 by lia. }
  pose proof (Flat_inuse_bound _ _ _ (proj1 Hn)) as Hb. simpl in Hb.
  unfold usize_add. destruct (Z.ltb_spec (fa_inuse fa + 1) (2 ^ 64)); [|lia].
  eexists. by split.
Qed.

Lemma Flat_alloc_ok fa f c : Flat_rep fa f c ->
  let r := List.find f (seqZ (fa_start fa) (fa_end fa - fa_start fa)) in
  exists fa', FlatAlloc_alloc BITS fa = Ret (r, fa') /\
    Flat_next fa fa' (match r with Some id => fill f id 1 false | None => f end) c.
Proof using HBITS.
  intros H r. pose proof (fr_bounds _ _ _ H) as Hb. pose proof pow_BITS.
  unfold FlatAlloc_alloc. rewrite (Flat_available_ok _ _ _ H), outcome_bind_Ret.
  destruct (Z.eqb_spec (countb f (seqZ (fa_start fa) (fa_end fa - fa_start fa))) 0) as [E|E].
  { rewrite countb_zero in E. assert (r = None) as ->.
    { apply find_seqZ. intros j Hj. apply E, elem_of_seqZ. lia. }
    exists fa. split; [done|by apply Flat_stay]. }
  pose proof (fr_ranges _ _ _ H) as Hr.
  destruct (fa_ranges fa) as [|[s e] m] eqn:Em.
  { destruct E. apply countb_zero. intros i Hi%elem_of_seqZ.
    rewrite <- (fr_mem _ _ _ H) by lia. by rewrite Em. }
  pose proof Hr as Hr'. apply ranges_tail in Hr' as (Hm & H1 & H2 & H3 & Hs).
  assert (Hmem : forall i, fa_start fa <= i < fa_end fa -> f i = mem ((s, e) :: m) i).
  { intros i Hi. rewrite <- (fr_mem _ _ _ H) by done. by rewrite Em. }
  assert (r = Some s) as ->.
  { apply find_seqZ. split; [lia|]. rewrite Hmem, mem_cons by lia. split.
    - by destruct (Z.leb_spec s s), (Z.ltb_spec s e); try lia.
    - intros j Hj. rewrite Hmem by lia. apply mem_false.
      intros s' e' [[= -> ->]|Hin]%elem_of_cons; [lia|]. pose proof (Hs _ _ Hin). lia. }
  cbn [om_pop_first].
  assert (Hp : insert_rest BITS s e m = punch (fa_ranges fa) s e s (s + 1)).
  { unfold insert_rest, Id_next, punch. rewrite Em. cbn [om_remove]. rewrite cmp_refl.
    destruct (Z.ltb_spec (s + 1) (2 ^ BITS)); [|lia].
    by destruct (Z.ltb_spec s s); [lia|]. }
  rewrite Hp. rewrite <- Em in Hr.
  assert (Hin : (s, e) ∈ fa_ranges fa) by (rewrite Em; left).
  apply (Flat_take_punch fa f c s e s); [done|done|lia].
Qed.

(** The interval that holds a free ID is the last one starting up to it. *)
Lemma last_upto_mem lo hi m i : ranges_ok lo hi m -> mem m i = true ->
  exists s e, om_last_upto i m = Some (s, e) /\ (s, e) ∈ m /\ s <= i < e.
Proof.
  intros Hm (s & e & Hin & Hi)%mem_true.
  pose proof (om_last_upto_ok i m (ro_ok _ _ _ Hm)) as Hg.
  destruct (om_last_upto i m) as [[s' e']|]; simpl in Hg.
  - destruct Hg as (Hin' & Hs' & Hmax). rewrite klt_Z in Hs'.
    exists s', e'. split; [done|]. split; [done|].
    destruct (Hmax s e Hin) as [->|Hl]; [rewrite klt_Z; lia| |].
    + pose proof (ranges_fun _ _ _ _ _ _ Hm Hin Hin'). lia.
    + rewrite klt_Z in Hl. pose proof (ro_sep _ _ _ Hm _ _ _ _ Hin Hin' Hl). lia.
  - destruct (Hg s e Hin). rewrite klt_Z. lia.
Qed.

Lemma Flat_alloc_at_ok fa f c id : Flat_rep fa f c ->
  fa_start fa <= id < fa_end fa ->
  exists fa', FlatAlloc_alloc_at BITS fa id =
      Ret (if f id then Ok tt else Err IdAlreadyAllocated, fa') /\
    Flat_next fa fa' (if f id then fill f id 1 false else f) c.
Proof using HBITS.
  intros H Hid. pose proof (fr_bounds _ _ _ H) as Hb. pose proof pow_BITS.
  unfold FlatAlloc_alloc_at. rewrite (Flat_is_allocated_ok _ _ _ _ H).
  rewrite (proj2 (FlatAlloc_contains_spec fa id) Hid). simpl negb. cbn iota. cbn [andb].
  destruct (f id) eqn:Ef; simpl negb; cbn iota; [|exists fa; split; [done|by apply Flat_stay]].
  pose proof (fr_ranges _ _ _ H) as Hr.
  destruct (last_upto_mem _ _ _ id Hr) as (s & e & -> & Hin & Hi).
  { by rewrite (fr_mem _ _ _ H). }
  cbn [expect]. rewrite outcome_bind_Ret.
  replace (insert_rest BITS id e _) with (punch (fa_ranges fa) s e id (id + 1)).
  2: { unfold insert_rest, Id_next, punch. pose proof (ro_in _ _ _ Hr _ _ Hin).
       by destruct (Z.ltb_spec (id + 1) (2 ^ BITS)); [|lia]. }
  by apply (Flat_take_punch fa f c s e id).
Qed.

Lemma Flat_dealloc_ok fa f c id : Flat_rep fa f c ->
  fa_start fa <= id < fa_end fa -> c id = false ->
  exists fa', FlatAlloc_dealloc BITS fa id =
      Ret (if f id then Err IdAlreadyFree else Ok tt, fa') /\
    Flat_next fa fa' (if f id then f else fill f id 1 true) c.
Proof using HBITS.
  intros H Hid Hc. pose proof (fr_bounds _ _ _ H) as Hb. pose proof pow_BITS.
  unfold FlatAlloc_dealloc. rewrite (Flat_is_allocated_ok _ _ _ _ H).
  rewrite (proj2 (FlatAlloc_contains_spec fa id) Hid). simpl negb. cbn iota. cbn [andb].
  destruct (f id) eqn:Ef; simpl negb; cbn iota; [exists fa; split; [done|by apply Flat_stay]|].
  assert (Hj : insert_free_range BITS (fa_ranges fa) id = join (fa_ranges fa) id (id + 1)).
  { unfold insert_free_range, join, join_left, join_right, Id_next.
    by destruct (Z.ltb_spec (id + 1) (2 ^ BITS)); [|lia]. }
  rewrite Hj. pose proof (fr_ranges _ _ _ H) as Hr.
  assert (Hout : forall i, id <= i < id + 1 -> mem (fa_ranges fa) i = false).
  { intros i Hi. replace i with id by lia. by rewrite (fr_mem _ _ _ H). }
  destruct (Flat_put fa f c (join (fa_ranges fa) id (id + 1)) id) as [Hu Hn]; try done.
  - apply join_ok; [done|lia|done].
  - intros i. rewrite (join_mem _ _ _ _ _ Hr) by (done || lia).
    by replace (id + 1 - id) with 1 by lia.
  - unfold usize_sub. destruct (Z.leb_spec 1 (fa_inuse fa)); [|lia].
    eexists. by split.
Qed.

(** A run of free IDs lies in one interval. *)
Lemma run_in_one lo hi m s e a b : ranges_ok lo hi m -> (s, e) ∈ m -> s <= a < e ->
  (forall i, a <= i < b -> mem m i = true) -> b <= e.
Proof.
  intros Hm Hin Ha Hall. destruct (Z.le_gt_cases b e) as [|Hl]; [done|].
  pose proof (Hall e ltac:(lia)) as (s' & e' & Hin' & He)%mem_true.
  destruct (Z.lt_trichotomy s s') as [Hs|[->|Hs]].
  - pose proof (ro_sep _ _ _ Hm _ _ _ _ Hin Hin' Hs). lia.
  - pose proof (ranges_fun _ _ _ _ _ _ Hm Hin Hin'). lia.
  - pose proof (ro_sep _ _ _ Hm _ _ _ _ Hin' Hin Hs). lia.
Qed.

Lemma Flat_carve_ok fa f c a b : Flat_rep fa f c ->
  fa_start fa <= a -> a < b -> b <= fa_end fa ->
  if forallb f (seqZ a (b - a)) then
    exists fa', FlatAlloc_carve fa a b = (Ok tt, fa') /\
      Flat_next fa fa' (fill f a (b - a) false) (fill c a (b - a) true)
  else FlatAlloc_carve fa a b = (Err IdRangeBusy, fa).
Proof.
  intros H Ha Hab Hb. pose proof (fr_ranges _ _ _ H) as Hr. unfold FlatAlloc_carve.
  destruct (Z.leb_spec b a), (Z.ltb_spec a (fa_start fa)), (Z.ltb_spec (fa_end fa) b);
    try lia. cbn [orb].
  destruct (forallb f (seqZ a (b - a))) eqn:Ef.
  - rewrite forallb_seqZ in Ef.
    assert (Hall : forall i, a <= i < b -> mem (fa_ranges fa) i = true).
    { intros i Hi. rewrite (fr_mem _ _ _ H) by lia. apply Ef. lia. }
    destruct (last_upto_mem _ _ _ a Hr (Hall a ltac:(lia))) as (s & e & -> & Hin & Hi).
    pose proof (run_in_one _ _ _ _ _ _ b Hr Hin Hi Hall).
    destruct (Z.ltb_spec e b); [lia|]. eexists. split; [done|].
    change (if b <? e then _ else _) with (punch (fa_ranges fa) s e a b).
    split; [|done]. split; simpl; [apply H| | | |].
    + apply punch_ok; [done|done|lia].
    + intros i Hx. rewrite (punch_mem _ _ _ _ _ _ _ Hr Hin) by lia.
      unfold fill. by rewrite (fr_mem _ _ _ H).
    + intros i Hx. destruct (fill_cases c a (b - a) true i) as [[Hy _]|[Hy ->]].
      * intros _. by apply fill_in.
      * intros Hc. rewrite fill_out by done. by apply (fr_carved _ _ _ H).
    + rewrite (fr_inuse _ _ _ H). apply countb_ext. intros i Hx%elem_of_seqZ.
      destruct (fill_cases c a (b - a) true i) as [[Hy ->]|[Hy ->]].
      * rewrite fill_in by done. rewrite Ef by lia. done.
      * by rewrite fill_out by done.
  - pose proof (om_last_upto_ok a _ (ro_ok _ _ _ Hr)) as Hg.
    destruct (om_last_upto a (fa_ranges fa)) as [[s e]|]; [|done].
    destruct Hg as (Hin & Hs & _). rewrite klt_Z in Hs.
    destruct (Z.ltb_spec e b); [done|]. exfalso.
    rewrite <- not_true_iff_false in Ef. apply Ef, forallb_seqZ. intros i Hi.
    rewrite <- (fr_mem _ _ _ H) by lia. apply (mem_elem _ _ _ _ _ _ Hr Hin). lia.
Qed.

Lemma Flat_return_ok fa f c a b : Flat_rep fa f c ->
  fa_start fa <= a -> a < b -> b <= fa_end fa ->
  (forall i, a <= i < b -> c i = true) ->
  Flat_next fa (FlatAlloc_return_range fa a b)
    (fill f a (b - a) true) (fill c a (b - a) false).
Proof.
  intros H Ha Hab Hb Hc. pose proof (fr_ranges _ _ _ H) as Hr.
  assert (Hf : forall i, a <= i < b -> f i = false).
  { intros i Hi. apply (fr_carved _ _ _ H); [lia|auto]. }
  assert (Hj : FlatAlloc_return_range fa a b =
    mkFlat (fa_start fa) (fa_end fa) (fa_inuse fa) (join (fa_ranges fa) a b)).
  { unfold FlatAlloc_return_range, join, join_left, join_right.
    destruct (Z.leb_spec b a); [lia|].
    destruct (om_last_below a (fa_ranges fa)) as [[s e]|].
    - destruct (e =? a); destruct (om_get b _); done.
    - by destruct (om_get b _). }
  assert (Hout : forall i, a <= i < b -> mem (fa_ranges fa) i = false).
  { intros i Hi. rewrite (fr_mem _ _ _ H) by lia. auto. }
  rewrite Hj. split; [|done]. split; simpl; [apply H| | | |].
  - apply join_ok; [done|lia|done].
  - intros i Hx. rewrite (join_mem _ _ _ _ _ Hr) by (done || lia).
    unfold fill. by rewrite (fr_mem _ _ _ H).
  - intros i Hx. destruct (fill_cases c a (b - a) false i) as [[Hy ->]|[Hy ->]]; [done|].
    intros Hci. rewrite fill_out by done. by apply (fr_carved _ _ _ H).
  - rewrite (fr_inuse _ _ _ H). apply countb_ext. intros i Hx%elem_of_seqZ.
    destruct (fill_cases c a (b - a) false i) as [[Hy ->]|[Hy ->]].
    + rewrite fill_in by done. rewrite Hf, Hc by lia. done.
    + by rewrite fill_out by done.
Qed.

(** *** Searching an aligned block *)

#[local] Abbreviation B := (2 ^ N).

Lemma B_pos : 1 <= B.
Proof using HBITS. pose proof (Z.pow_pos_nonneg 2 N). lia. Qed.

Lemma low_mask_ones : low_mask N = Z.ones N.
Proof using HBITS.
  unfold low_mask. destruct (Z.eqb_spec N 0) as [->|]; [done|].
  destruct (Z.leb_spec 128 N); [lia|]. apply mask_ones. lia.
Qed.

Lemma block_size_pow : block_size N = B.
Proof using HBITS.
  unfold block_size. destruct (Z.eqb_spec N 0) as [->|]; [done|].
  destruct (Z.leb_spec 128 N); [lia|]. apply Z.shiftl_1_l.
Qed.

(** Clearing the low bits rounds down to a multiple of the block. *)
Lemma clear_low x : 0 <= x < 2 ^ 128 -> Z.land x (wnot 128 (low_mask N)) = x / B * B.
Proof using HBITS.
  intros Hx. rewrite low_mask_ones.
  rewrite <- Z.shiftr_div_pow2, <- Z.shiftl_mul_pow2 by lia.
  apply Z.bits_inj'. intros i Hi.
  rewrite Z.land_spec, wnot_spec, Z.testbit_ones_nonneg, Z.shiftl_spec by lia.
  destruct (Z.ltb_spec i N).
  - rewrite (Z.testbit_neg_r _ (i - N)) by lia. apply andb_false_r.
  - rewrite Z.shiftr_spec by lia. replace (i - N + N) with i by lia.
    destruct (Z.ltb_spec i 128); [apply andb_true_r|].
    rewrite (fits_bit 128 x); [done|done|lia].
Qed.

Lemma land_low x : Z.land x (low_mask N) = x mod B.
Proof using HBITS. rewrite low_mask_ones. apply Z.land_ones. lia. Qed.

(** The first multiple of the block from [s] on. *)
Lemma round_up s : let a := (s + (B - 1)) / B * B in
  a mod B = 0 /\ s <= a /\ forall b, b mod B = 0 -> s <= b -> a <= b.
Proof using HBITS.
  intros a. pose proof B_pos. subst a. split; [apply Z.mod_mul; lia|].
  pose proof (Z.div_mod (s + (B - 1)) B ltac:(lia)) as Hd.
  pose proof (Z.mod_pos_bound (s + (B - 1)) B ltac:(lia)).
  split; [nia|]. intros b Hb Hs.
  pose proof (Z.div_mod b B ltac:(lia)) as Hd2. rewrite Hb in Hd2.
  assert ((s + (B - 1)) / B <= b / B); [|nia].
  apply Z.lt_succ_r, Z.div_lt_upper_bound; nia.
Qed.

(** Is [b] the base of an aligned block all of whose IDs are in [f]? *)
Definition block_free (f : Z -> bool) (b : Z) : bool :=
  (b mod B =? 0) && forallb f (seqZ b B).

Lemma block_free_spec f b :
  block_free f b = true <-> b mod B = 0 /\ forall i, b <= i < b + B -> f i = true.
Proof.
  unfold block_free. rewrite andb_true_iff, forallb_seqZ, Z.eqb_eq. done.
Qed.

Lemma find_block_loop_ok lo hi m : ranges_ok lo hi m -> 0 <= lo -> hi < 2 ^ BITS ->
  exists r, find_block_loop BITS (low_mask N) (block_size N) m = Ret r /\
    first_in (block_free (mem m)) lo hi r.
Proof using HBITS.
  intros Hm Hlo Hhi. revert lo Hm Hlo. pose proof pow_BITS. pose proof B_pos.
  assert (B < 2 ^ BITS) by (apply Z.pow_lt_mono_r; lia).
  assert (Hwide : 2 * 2 ^ 64 + 2 * 2 ^ 64 < 2 ^ 128) by (vm_compute; done).
  induction m as [|[s e] m IH]; intros lo Hm Hlo; cbn [find_block_loop].
  { exists None. split; [done|]. intros j Hj. apply not_true_iff_false.
    rewrite block_free_spec. intros [_ Hall]. by specialize (Hall j ltac:(lia)). }
  apply ranges_tail in Hm as (Hm & Hs1 & Hs2 & Hs3 & Hs).
  assert (Hmask : low_mask N = B - 1) by (rewrite low_mask_ones, Z.ones_equiv; lia).
  unfold wrap. rewrite Z.mod_small, clear_low by lia. rewrite Hmask in IH |- *.
  destruct (round_up s) as (Ha1 & Ha2 & Ha3). set (a := (s + (B - 1)) / B * B) in *.
  assert (a < s + B). { pose proof (Z.div_mod (s + (B - 1)) B ltac:(lia)).
    pose proof (Z.mod_pos_bound (s + (B - 1)) B ltac:(lia)). subst a. nia. }
  rewrite block_size_pow in *. destruct (Z.ltb_spec (a + B) (2 ^ 128)); [|lia].
  assert (Hlow : forall j, block_free (mem ((s, e) :: m)) j = true -> a <= j).
  { intros j [Hj Hall]%block_free_spec. apply Ha3; [done|].
    specialize (Hall j ltac:(lia)). apply mem_true in Hall as (s' & e' & Hin & Hx).
    apply elem_of_cons in Hin as [[= -> ->]|Hin]; [lia|]. pose proof (Hs _ _ Hin). lia. }
  assert (He : mem ((s, e) :: m) e = false).
  { apply mem_false. intros s' e' [[= -> ->]|Hin]%elem_of_cons; [lia|].
    pose proof (Hs _ _ Hin). lia. }
  destruct (Z.leb_spec (a + B) e) as [Hf|Hf].
  - exists (Some a). unfold Id_from_bits, wrap. rewrite Z.mod_small by lia.
    split; [done|]. split; [lia|]. split.
    + apply block_free_spec. split; [done|]. intros i Hi. rewrite mem_cons.
      by destruct (Z.leb_spec s i), (Z.ltb_spec i e); try lia.
    + intros j Hj. apply not_true_iff_false. intros Hb%Hlow. lia.
  - destruct (IH e Hm ltac:(lia)) as (r & Hr & Hfirst).
    rewrite ?block_size_pow in Hr. exists r. split; [done|].
    assert (Hsame : forall j, e <= j -> block_free (mem m) j = block_free (mem ((s, e) :: m)) j).
    { intros j Hj. unfold block_free. f_equal. apply forallb_ext_seqZ. intros i Hi.
      rewrite mem_cons. by destruct (Z.leb_spec s i), (Z.ltb_spec i e); try lia. }
    assert (Hnone : forall j, j < e -> block_free (mem ((s, e) :: m)) j = false).
    { intros j Hj. apply not_true_iff_false. intros Hb. pose proof (Hlow j Hb).
      apply block_free_spec in Hb as [_ Hall]. rewrite Hall in He by lia. done. }
    destruct r as [j|]; simpl in *.
    + destruct Hfirst as (Hj & Hb & Hlt). split; [lia|]. split; [by rewrite <- Hsame by lia|].
      intros k Hk. destruct (Z.lt_ge_cases k e); [by apply Hnone|].
      rewrite <- Hsame by lia. apply Hlt. lia.
    + intros k Hk. destruct (Z.lt_ge_cases k e); [by apply Hnone|].
      rewrite <- Hsame by lia. apply Hfirst. lia.
Qed.

End FlatRep.

(** ** The abstract allocator

    An abstract state tells which IDs are free in the flat space, which block
    bases are reserved as majors and which IDs are free inside the reserved
    blocks. [id_step] gives the result and the effect of every operation. *)

Record IdState : Type := mkState {
  sp_start : Z;
  sp_end : Z;
  sp_flat : Z -> bool;
  sp_major : Z -> bool;
  sp_minor : Z -> bool
}.

Inductive IdOp : Type :=
| IdAlloc1
| IdAllocAt (id : Z)
| IdDealloc (id : Z)
| IdAllocMajor
| IdAllocMajorAt (base : Z)
| IdAllocMinor (major : Z)
| IdDeallocMajor (base : Z)
| IdReset.

Inductive IdRes : Type :=
| RId (r : option Z)
| RDone (r : result IdAllocError unit)
| RBase (r : result IdAllocError Z)
| RNothing.

Section Spec.
Context (N : Z).

(** Base of the block of [2^N] IDs that holds [id]. *)
Definition base_of (id : Z) : Z := id / 2 ^ N * 2 ^ N.

(** Reserve the block at [base]: it leaves the flat space, all of it free. *)
Definition reserve (st : IdState) (base : Z) : IdState :=
  mkState (sp_start st) (sp_end st) (fill (sp_flat st) base (2 ^ N) false)
    (fill (sp_major st) base 1 true) (fill (sp_minor st) base (2 ^ N) true).

Definition set_flat (st : IdState) (id : Z) (b : bool) : IdState :=
  mkState (sp_start st) (sp_end st) (fill (sp_flat st) id 1 b) (sp_major st) (sp_minor st).

Definition set_minor (st : IdState) (id : Z) (b : bool) : IdState :=
  mkState (sp_start st) (sp_end st) (sp_flat st) (sp_major st) (fill (sp_minor st) id 1 b).

Definition in_ids (st : IdState) (id : Z) : bool := (sp_start st <=? id) && (id <? sp_end st).

Definition init_state (s e : Z) : IdState :=
  mkState s e (fun _ => true) (fun _ => false) (fun _ => false).

Definition id_step (st : IdState) (op : IdOp) : IdRes * IdState :=
  match op with
  | IdAlloc1 =>
      let r := List.find (sp_flat st) (seqZ (sp_start st) (sp_end st - sp_start st)) in
      (RId r, match r with Some id => set_flat st id false | None => st end)
  | IdAllocAt id =>
      if negb (in_ids st id) then (RDone (Err IdOutOfRange), st)
      else if sp_major st (base_of id) then
        if sp_minor st id then (RDone (Ok tt), set_minor st id false)
        else (RDone (Err IdAlreadyAllocated), st)
      else
        if sp_flat st id then (RDone (Ok tt), set_flat st id false)
        else (RDone (Err IdAlreadyAllocated), st)
  | IdDealloc id =>
      if negb (in_ids st id) then (RDone (Err IdOutOfRange), st)
      else if sp_major st (base_of id) then
        if sp_minor st id then (RDone (Err IdAlreadyFree), st)
        else (RDone (Ok tt), set_minor st id true)
      else
        if sp_flat st id then (RDone (Err IdAlreadyFree), st)
        else (RDone (Ok tt), set_flat st id true)
  | IdAllocMajor =>
      let r := List.find
        (fun b => (b + 2 ^ N <=? sp_end st) && block_free N (sp_flat st) b)
        (seqZ (sp_start st) (sp_end st - sp_start st)) in
      (RId r, match r with Some b => reserve st b | None => st end)
  | IdAllocMajorAt b =>
      if negb (b mod 2 ^ N =? 0) then (RBase (Err IdNotAligned), st)
      else if negb (in_ids st b) || (sp_end st <? b + 2 ^ N)
      then (RBase (Err IdOutOfRange), st)
      else if sp_major st b then (RBase (Err IdAlreadyAllocated), st)
      else if forallb (sp_flat st) (seqZ b (2 ^ N)) then (RBase (Ok b), reserve st b)
      else (RBase (Err IdRangeBusy), st)
  | IdAllocMinor b =>
      if sp_major st b then
        let r := List.find (sp_minor st) (seqZ b (2 ^ N)) in
        (RId r, match r with Some id => set_minor st id false | None => st end)
      else (RId None, st)
  | IdDeallocMajor b =>
      if sp_major st b then
        (RDone (Ok tt),
         mkState (sp_start st) (sp_end st) (fill (sp_flat st) b (2 ^ N) true)
           (fill (sp_major st) b 1 false) (sp_minor st))
      else (RDone (Err IdMajorNotFound), st)
  | IdReset => (RNothing, init_state (sp_start st) (sp_end st))
  end.

Fixpoint id_run (st : IdState) (ops : list IdOp) : list IdRes * IdState :=
  match ops with
  | [] => ([], st)
  | op :: ops =>
      let (r, st) := id_step st op in
      let (rs, st) := id_run st ops in
      (r :: rs, st)
  end.

End Spec.

Lemma id_step_range N st op :
  sp_start (snd (id_step N st op)) = sp_start st /\
  sp_end (snd (id_step N st op)) = sp_end st.
Proof.
  destruct op; cbn [id_step]; repeat case_match; done.
Qed.

Lemma id_run_range N st ops :
  sp_end (snd (id_run N st ops)) - sp_start (snd (id_run N st ops)) =
  sp_end st - sp_start st.
Proof.
  revert st. induction ops as [|op ops IH]; intros st; [done|]. cbn [id_run].
  destruct (id_step_range N st op) as [H1 H2]. destruct (id_step N st op) as [r st1].
  specialize (IH st1). destruct (id_run N st1 ops). simpl in *. by rewrite IH, H1, H2.
Qed.

(** One call of the public API of [IdAlloc], and a sequence of calls. *)
Definition IdAlloc_exec (BITS N : Z) (ia : IdAlloc) (op : IdOp) : outcome (IdRes * IdAlloc) :=
  match op with
  | IdAlloc1 => '(r, ia) ← IdAlloc_alloc BITS ia; mret (RId r, ia)
  | IdAllocAt id => '(r, ia) ← IdAlloc_alloc_at BITS N ia id; mret (RDone r, ia)
  | IdDealloc id => '(r, ia) ← IdAlloc_dealloc BITS N ia id; mret (RDone r, ia)
  | IdAllocMajor => '(r, ia) ← IdAlloc_alloc_major BITS N ia; mret (RId r, ia)
  | IdAllocMajorAt b =>
      let (r, ia) := IdAlloc_alloc_major_at BITS N ia b in mret (RBase r, ia)
  | IdAllocMinor b => '(r, ia) ← IdAlloc_alloc_minor BITS ia b; mret (RId r, ia)
  | IdDeallocMajor b =>
      let (r, ia) := IdAlloc_dealloc_major BITS N ia b in mret (RDone r, ia)
  | IdReset => mret (RNothing, IdAlloc_reset ia)
  end.

Fixpoint IdAlloc_run (BITS N : Z) (ia : IdAlloc) (ops : list IdOp)
    : outcome (list IdRes * IdAlloc) :=
  match ops with
  | [] => mret ([], ia)
  | op :: ops =>
      '(r, ia) ← IdAlloc_exec BITS N ia op;
      '(rs, ia) ← IdAlloc_run BITS N ia ops;
      mret (r :: rs, ia)
  end.

(** ** Refinement *)

Section IdRep.

Context (BITS N : Z).
Hypothesis HBITS : 0 <= N < BITS /\ BITS <= 64.
#[local] Abbreviation B := (2 ^ N).

(** The sub-allocator of the major at [b] manages exactly its block. *)
Record Slot_rep (st : IdState) (b : Z) (inner : FlatAlloc) : Prop := {
  sr_aligned : b mod B = 0;
  sr_in : sp_start st <= b /\ b + B <= sp_end st;
  sr_range : fa_start inner = b /\ fa_end inner = b + B;
  sr_rep : Flat_rep BITS inner (sp_minor st) (fun _ => false)
}.

Record Id_rep (ia : IdAlloc) (st : IdState) : Prop := {
  ir_range : fa_start (ia_flat ia) = sp_start st /\ fa_end (ia_flat ia) = sp_end st;
  ir_aligned : sp_start st mod B = 0;
  ir_flat : Flat_rep BITS (ia_flat ia) (sp_flat st) (fun i => sp_major st (base_of N i));
  ir_majors : om_ok (ia_majors ia);
  ir_slots : forall b, match om_get b (ia_majors ia) with
    | Some slot => sp_major st b = true /\ Slot_rep st b (slot_inner slot)
    | None => sp_major st b = false
    end
}.

Definition id_exec_ok (ia : IdAlloc) (st : IdState) (op : IdOp) : Prop :=
  exists ia', IdAlloc_exec BITS N ia op = Ret (fst (id_step N st op), ia') /\
              Id_rep ia' (snd (id_step N st op)).

Lemma Flat_rep_ext fa f c f' c' :
  (forall i, fa_start fa <= i < fa_end fa -> f i = f' i) ->
  (forall i, fa_start fa <= i < fa_end fa -> c i = c' i) ->
  Flat_rep BITS fa f c -> Flat_rep BITS fa f' c'.
Proof.
  intros Hf Hc H. split; [apply H | apply H |..].
  - intros i Hi. rewrite <- Hf by done. by apply (fr_mem _ _ _ _ H).
  - intros i Hi. rewrite <- Hc, <- Hf by done. by apply (fr_carved _ _ _ _ H).
  - rewrite (fr_inuse _ _ _ _ H). apply countb_ext. intros i Hi%elem_of_seqZ.
    by rewrite Hf, Hc by lia.
Qed.

Lemma token_base_ok id : 0 <= id < 2 ^ BITS -> IdAlloc_token_base BITS N id = base_of N id.
Proof using HBITS.
  intros Hid. pose proof (pow_BITS BITS N HBITS). unfold IdAlloc_token_base, base_of.
  assert (2 ^ 64 < 2 ^ 128) by (vm_compute; done).
  rewrite (clear_low BITS N HBITS) by lia. unfold Id_from_bits, wrap.
  pose proof (B_pos BITS N HBITS). pose proof (Z.mul_div_le id B ltac:(lia)).
  pose proof (Z.div_pos id B ltac:(lia) ltac:(lia)). apply Z.mod_small. nia.
Qed.

Lemma base_of_spec i : base_of N i mod B = 0 /\ base_of N i <= i < base_of N i + B.
Proof using HBITS.
  unfold base_of. pose proof (B_pos BITS N HBITS). split; [apply Z.mod_mul; lia|].
  pose proof (Z.div_mod i B ltac:(lia)). pose proof (Z.mod_pos_bound i B ltac:(lia)). nia.
Qed.

Lemma base_of_unique b i : b mod B = 0 -> b <= i < b + B -> base_of N i = b.
Proof using HBITS.
  intros Hb Hi. unfold base_of. pose proof (B_pos BITS N HBITS).
  pose proof (Z.div_mod b B ltac:(lia)) as Hd. rewrite Hb in Hd.
  assert (i / B = b / B) as ->; [|nia].
  symmetry. apply Z.div_unique with (r := i - b); nia.
Qed.

Lemma block_end_ok b : 0 <= b -> b + B < 2 ^ BITS -> IdAlloc_block_end BITS N b = b + B.
Proof using HBITS.
  intros H1 H2. pose proof (pow_BITS BITS N HBITS). pose proof (B_pos BITS N HBITS).
  assert (2 ^ 64 < 2 ^ 128) by (vm_compute; done).
  unfold IdAlloc_block_end, Id_from_bits, wrap.
  rewrite (block_size_pow BITS N HBITS), !Z.mod_small by (try rewrite Z.mod_small; lia). done.
Qed.

Lemma FlatAlloc_new_ok s e : 0 <= s <= e -> e < 2 ^ BITS ->
  forall f, (forall i, s <= i < e -> f i = true) ->
  Flat_rep BITS (FlatAlloc_new s e) f (fun _ => false).
Proof.
  intros H1 H2 f Hf. unfold FlatAlloc_new. split; simpl; [done| | |done|].
  - destruct (Z.ltb_spec s e); [by apply ranges_one|apply ranges_nil].
  - intros i Hi. rewrite Hf by done. destruct (Z.ltb_spec s e); [|lia]. simpl.
    by destruct (Z.leb_spec s i), (Z.ltb_spec i e); try lia.
  - symmetry. apply countb_zero. intros i Hi%elem_of_seqZ. by rewrite Hf by lia.
Qed.

Lemma Id_flat_range ia st : Id_rep ia st ->
  0 <= sp_start st <= sp_end st /\ sp_end st < 2 ^ BITS.
Proof.
  intros H. destruct (ir_range _ _ H) as [<- <-]. apply (fr_bounds _ _ _ _ (ir_flat _ _ H)).
Qed.

Lemma Id_contains ia st id : Id_rep ia st ->
  FlatAlloc_contains (ia_flat ia) id = in_ids st id.
Proof.
  intros H. destruct (ir_range _ _ H) as [E1 E2].
  unfold FlatAlloc_contains, in_ids. by rewrite E1, E2.
Qed.

Lemma in_ids_spec st id : in_ids st id = true <-> sp_start st <= id < sp_end st.
Proof. unfold in_ids. rewrite andb_true_iff. lia. Qed.

(** The flat space changes and the majors stay. *)
Lemma Id_update_flat ia st flat' g : Id_rep ia st ->
  Flat_next BITS (ia_flat ia) flat' g (fun i => sp_major st (base_of N i)) ->
  Id_rep (mkIdAlloc flat' (ia_majors ia))
    (mkState (sp_start st) (sp_end st) g (sp_major st) (sp_minor st)).
Proof.
  intros H (Hf & Hs & He). split; simpl; [|apply H|done|apply H|].
  - rewrite Hs, He. apply H.
  - intros b. pose proof (ir_slots _ _ H b) as Hb.
    destruct (om_get b (ia_majors ia)) as [slot|]; [|done].
    destruct Hb as [Hm [S1 S2 S3 S4]]. by split.
Qed.

(** The sub-allocator of one major changes. *)
Lemma Id_update_slot ia st b slot inner' g : Id_rep ia st ->
  om_get b (ia_majors ia) = Some slot ->
  Flat_next BITS (slot_inner slot) inner' g (fun _ => false) ->
  (forall i, i < b \/ b + B <= i -> g i = sp_minor st i) ->
  Id_rep (mkIdAlloc (ia_flat ia) (om_modify (fun _ => mkSlot inner') b (ia_majors ia)))
    (mkState (sp_start st) (sp_end st) (sp_flat st) (sp_major st) g).
Proof using HBITS.
  intros H Hget (Hf & Hs & He) Hg.
  assert (Hb := ir_slots _ _ H b). rewrite Hget in Hb. destruct Hb as [Hmb Hsb].
  split; simpl; [apply H|apply H|apply H|apply om_modify_ok, H|].
  intros b'. rewrite om_get_modify by apply H.
  destruct (decide (b' = b)) as [->|Hne].
  - rewrite Hget. simpl. split; [done|]. split; simpl; [apply Hsb|apply Hsb| |done].
    rewrite Hs, He. apply Hsb.
  - pose proof (ir_slots _ _ H b') as Hb'.
    destruct (om_get b' (ia_majors ia)) as [slot'|]; [|done].
    destruct Hb' as [Hm' [S1 S2 S3 S4]]. split; [done|]. split; simpl; try done.
    apply (Flat_rep_ext _ (sp_minor st) (fun _ => false)); [|done|done].
    destruct S3 as [-> ->]. intros i Hi. symmetry. apply Hg.
    destruct (Z.lt_ge_cases i b) as [|Hib]; [by left|].
    destruct (Z.lt_ge_cases i (b + B)) as [Hlt|]; [|by right].
    destruct Hne. rewrite <- (base_of_unique b' i), <- (base_of_unique b i); try done.
    apply Hsb.
Qed.

Lemma mkState_eta st :
  mkState (sp_start st) (sp_end st) (sp_flat st) (sp_major st) (sp_minor st) = st.
Proof. by destruct st. Qed.

Lemma Id_alloc_ok ia st : Id_rep ia st -> id_exec_ok ia st IdAlloc1.
Proof using HBITS.
  intros H. destruct (ir_range _ _ H) as [Es Ee].
  destruct (Flat_alloc_ok BITS N HBITS _ _ _ (ir_flat _ _ H)) as (flat' & Ha & Hn).
  unfold id_exec_ok. cbn [IdAlloc_exec id_step]. unfold IdAlloc_alloc.
  rewrite Ha, outcome_bind_Ret. rewrite Es, Ee in *.
  eexists. split; [done|]. simpl snd.
  pose proof (Id_update_flat _ _ _ _ H Hn) as Hr.
  destruct (List.find _ _); [done|]. by rewrite mkState_eta in Hr.
Qed.

(** Routing an operation on an ID to the flat space or to its major. *)
Lemma Id_route_ok op ia st id (res : (Z -> bool) -> result IdAllocError unit)
    (upd : (Z -> bool) -> Z -> bool) :
  (forall f, forall i, i <> id -> upd f i = f i) ->
  (forall fa f c, Flat_rep BITS fa f c -> fa_start fa <= id < fa_end fa -> c id = false ->
     exists fa', op fa id = Ret (res f, fa') /\ Flat_next BITS fa fa' (upd f) c) ->
  Id_rep ia st ->
  exists ia', IdAlloc_route BITS N op ia id =
    Ret (if negb (in_ids st id) then Err IdOutOfRange
         else if sp_major st (base_of N id) then res (sp_minor st) else res (sp_flat st), ia') /\
  Id_rep ia' (if negb (in_ids st id) then st
    else if sp_major st (base_of N id)
    then mkState (sp_start st) (sp_end st) (sp_flat st) (sp_major st) (upd (sp_minor st))
    else mkState (sp_start st) (sp_end st) (upd (sp_flat st)) (sp_major st) (sp_minor st)).
Proof using HBITS.
  intros Hupd Hop H. unfold IdAlloc_route. rewrite (Id_contains _ _ _ H).
  destruct (in_ids st id) eqn:Ein; simpl negb; cbn iota; [|by exists ia].
  apply in_ids_spec in Ein. pose proof (Id_flat_range _ _ H) as Hrng.
  rewrite token_base_ok by lia. destruct (base_of_spec id) as [Hal Hblk].
  pose proof (ir_slots _ _ H (base_of N id)) as Hs.
  destruct (om_get (base_of N id) (ia_majors ia)) as [slot|] eqn:Eg.
  - destruct Hs as [-> Hslot]. destruct (sr_range _ _ _ Hslot) as [E1 E2].
    destruct (Hop _ _ _ (sr_rep _ _ _ Hslot)) as (inner' & -> & Hn); [lia|done|].
    rewrite outcome_bind_Ret. eexists. split; [done|].
    apply (Id_update_slot _ _ _ _ _ _ H Eg Hn). intros i Hi. apply Hupd. lia.
  - rewrite Hs. destruct (ir_range _ _ H) as [E1 E2].
    destruct (Hop _ _ _ (ir_flat _ _ H)) as (flat' & -> & Hn); [lia|done|].
    rewrite outcome_bind_Ret. eexists. split; [done|]. by apply Id_update_flat.
Qed.

Lemma Id_alloc_at_ok ia st id : Id_rep ia st -> id_exec_ok ia st (IdAllocAt id).
Proof using HBITS.
  intros H. unfold id_exec_ok. cbn [IdAlloc_exec id_step]. unfold IdAlloc_alloc_at.
  destruct (Id_route_ok (FlatAlloc_alloc_at BITS) ia st id
    (fun f => if f id then Ok tt else Err IdAlreadyAllocated)
    (fun f => if f id then fill f id 1 false else f)) as (ia' & -> & Hr); [| |done|].
  - intros f i Hi. destruct (f id); [apply fill_out; lia|done].
  - intros fa f c Hf Hid _. by apply (Flat_alloc_at_ok BITS N HBITS).
  - exists ia'. unfold set_minor, set_flat.
    destruct (in_ids st id); [|by split]. simpl in *.
    destruct (sp_major st (base_of N id));
      [destruct (sp_minor st id)|destruct (sp_flat st id)];
      (split; [done|]); rewrite ?mkState_eta in Hr; done.
Qed.

Lemma Id_dealloc_ok ia st id : Id_rep ia st -> id_exec_ok ia st (IdDealloc id).
Proof using HBITS.
  intros H. unfold id_exec_ok. cbn [IdAlloc_exec id_step]. unfold IdAlloc_dealloc.
  destruct (Id_route_ok (FlatAlloc_dealloc BITS) ia st id
    (fun f => if f id then Err IdAlreadyFree else Ok tt)
    (fun f => if f id then f else fill f id 1 true)) as (ia' & -> & Hr); [| |done|].
  - intros f i Hi. destruct (f id); [done|apply fill_out; lia].
  - intros fa f c Hf Hid Hc. by apply (Flat_dealloc_ok BITS N HBITS).
  - exists ia'. unfold set_minor, set_flat.
    destruct (in_ids st id); [|by split]. simpl in *.
    destruct (sp_major st (base_of N id));
      [destruct (sp_minor st id)|destruct (sp_flat st id)];
      (split; [done|]); rewrite ?mkState_eta in Hr; done.
Qed.

Lemma fill_one f b v x : fill f b 1 v x = if decide (x = b) then v else f x.
Proof.
  destruct (decide (x = b)) as [->|]; [apply fill_in|apply fill_out]; lia.
Qed.

(** Filling a block of IDs is filling its base. *)
Lemma fill_block f b v i : b mod B = 0 ->
  fill (fun i => f (base_of N i)) b B v i = fill f b 1 v (base_of N i).
Proof using HBITS.
  intros Hb. rewrite fill_one. destruct (base_of_spec i) as [Hal Hi].
  destruct (fill_cases (fun i => f (base_of N i)) b B v i) as [[Hx ->]|[Hx ->]].
  - by rewrite decide_True by (by apply base_of_unique).
  - rewrite decide_False; [done|]. intros E. rewrite E in Hi. lia.
Qed.

Lemma Slot_rep_minor st st' b inner :
  sp_start st' = sp_start st -> sp_end st' = sp_end st ->
  (forall i, b <= i < b + B -> sp_minor st' i = sp_minor st i) ->
  Slot_rep st b inner -> Slot_rep st' b inner.
Proof.
  intros Es Ee Hi [S1 S2 [S3 S3'] S4]. split; [done|by rewrite Es, Ee|done|].
  apply (Flat_rep_ext _ (sp_minor st) (fun _ => false)); [|done|done].
  rewrite S3, S3'. intros i Hx. symmetry. by apply Hi.
Qed.

Lemma Id_reserve ia st b : Id_rep ia st ->
  b mod B = 0 -> sp_start st <= b -> b + B <= sp_end st ->
  forallb (sp_flat st) (seqZ b B) = true ->
  exists flat', FlatAlloc_carve (ia_flat ia) b (b + B) = (Ok tt, flat') /\
    Id_rep (mkIdAlloc flat' (om_insert b (mkSlot (FlatAlloc_new b (b + B))) (ia_majors ia)))
      (reserve N st b).
Proof using HBITS.
  intros H Hb Hs He Hall. pose proof (B_pos BITS N HBITS).
  pose proof (Id_flat_range _ _ H) as Hrng. destruct (ir_range _ _ H) as [Es Ee].
  pose proof (Flat_carve_ok BITS _ _ _ b (b + B) (ir_flat _ _ H)
    ltac:(lia) ltac:(lia) ltac:(lia)) as Hc.
  replace (b + B - b) with B in Hc by lia. rewrite Hall in Hc.
  destruct Hc as (flat' & Hc & Hf & Hs' & He'). exists flat'. split; [done|].
  split; simpl; [by rewrite Hs', He'|apply H| |apply om_insert_ok, H|].
  - revert Hf. apply Flat_rep_ext; [done|]. intros i _. by apply fill_block.
  - intros b'. rewrite om_get_insert by apply H. rewrite fill_one.
    destruct (decide (b' = b)) as [->|Hne].
    + split; [done|]. split; simpl; [done|done|done|].
      apply FlatAlloc_new_ok; [lia|lia|]. intros i Hi. by apply fill_in.
    + pose proof (ir_slots _ _ H b') as Hb'.
      destruct (om_get b' (ia_majors ia)) as [slot|]; [|done].
      destruct Hb' as [Hm Hsl]. split; [done|].
      pose proof (sr_aligned _ _ _ Hsl) as Hal. revert Hsl.
      apply Slot_rep_minor; [done|done|]. simpl. intros i Hi. apply fill_out.
      destruct (Z.lt_ge_cases i b) as [|Hib]; [by left|].
      destruct (Z.lt_ge_cases i (b + B)) as [Hlt|]; [|by right].
      destruct Hne. by rewrite <- (base_of_unique b' i), <- (base_of_unique b i).
Qed.

Lemma block_free_ext f g b : (forall i, b <= i < b + B -> f i = g i) ->
  block_free N f b = block_free N g b.
Proof. intros He. unfold block_free. f_equal. by apply forallb_ext_seqZ. Qed.

(** The search loop finds the first block the abstract state offers. *)
Lemma Id_find_block ia st : Id_rep ia st ->
  FlatAlloc_find_aligned_block BITS (ia_flat ia) N =
  Ret (List.find (fun b => (b + B <=? sp_end st) && block_free N (sp_flat st) b)
         (seqZ (sp_start st) (sp_end st - sp_start st))).
Proof using HBITS.
  intros H. pose proof (B_pos BITS N HBITS). destruct (ir_range _ _ H) as [Es Ee].
  pose proof (Id_flat_range _ _ H) as Hrng. pose proof (ir_flat _ _ H) as Hf.
  unfold FlatAlloc_find_aligned_block. rewrite (block_size_pow BITS N HBITS) at 1.
  destruct (Z.eqb_spec B 0); [lia|].
  destruct (find_block_loop_ok BITS N HBITS _ _ _ (fr_ranges _ _ _ _ Hf))
    as (r & -> & Hfirst); [lia|lia|].
  f_equal. symmetry. apply find_seqZ. rewrite Es, Ee in Hfirst.
  revert Hfirst. apply first_in_ext. intros b Hb. apply eq_true_iff_eq.
  rewrite andb_true_iff, !block_free_spec. split.
  - intros [Hal Hall].
    assert (Hend : b + B <= sp_end st).
    { pose proof (Hall (b + B - 1) ltac:(lia)) as Hm.
      apply (mem_bound _ _ _ _ (fr_ranges _ _ _ _ Hf)) in Hm. lia. }
    split; [lia|]. split; [done|]. intros i Hi.
    rewrite <- (fr_mem _ _ _ _ Hf) by lia. by apply Hall.
  - intros [Hend [Hal Hall]]. zify_bool. split; [done|]. intros i Hi.
    rewrite (fr_mem _ _ _ _ Hf) by lia. by apply Hall.
Qed.

Lemma Id_alloc_major_ok ia st : Id_rep ia st -> id_exec_ok ia st IdAllocMajor.
Proof using HBITS.
  intros H. unfold id_exec_ok. cbn [IdAlloc_exec id_step]. unfold IdAlloc_alloc_major.
  rewrite (Id_find_block _ _ H), outcome_bind_Ret.
  pose proof (Id_flat_range _ _ H) as Hrng.
  destruct (List.find _ _) as [b|] eqn:E; [|by exists ia].
  apply List.find_some in E as [Hin%list_elem_of_In%elem_of_seqZ Hb].
  apply andb_true_iff in Hb as [Hend Hb]. zify_bool.
  unfold block_free in Hb. apply andb_true_iff in Hb as [Hal Hall]. zify_bool.
  destruct (Id_reserve ia st b H Hal ltac:(lia) Hend Hall) as (flat' & Hc & Hr).
  rewrite block_end_ok, Hc by lia. eexists. by split.
Qed.

Lemma Id_alloc_major_at_ok ia st b : Id_rep ia st -> id_exec_ok ia st (IdAllocMajorAt b).
Proof using HBITS.
  intros H. unfold id_exec_ok. cbn [IdAlloc_exec id_step]. unfold IdAlloc_alloc_major_at.
  rewrite (land_low BITS N HBITS), (Id_contains _ _ _ H).
  destruct (Z.eqb_spec (b mod B) 0) as [Hal|]; simpl negb; cbn iota; [|by exists ia].
  destruct (in_ids st b) eqn:Ein; simpl negb; cbn [orb]; cbn iota; [|by exists ia].
  apply in_ids_spec in Ein. pose proof (Id_flat_range _ _ H) as Hrng.
  pose proof (B_pos BITS N HBITS). pose proof (pow_BITS BITS N HBITS).
  assert (B < 2 ^ BITS) by (apply Z.pow_lt_mono_r; lia).
  assert (2 ^ 64 + 2 ^ 64 < 2 ^ 128) by (vm_compute; done).
  destruct (ir_range _ _ H) as [Es Ee].
  rewrite (block_size_pow BITS N HBITS). unfold wrap. rewrite Z.mod_small, Ee by lia.
  destruct (Z.eqb_spec (b + B) 0); [lia|]. cbn [orb].
  destruct (Z.ltb_spec (sp_end st) (b + B)) as [|Hend]; [by exists ia|].
  unfold om_contains. pose proof (ir_slots _ _ H b) as Hb.
  destruct (om_get b (ia_majors ia)); [destruct Hb as [-> _]; by exists ia|]. rewrite Hb.
  unfold Id_from_bits, wrap. rewrite Z.mod_small by lia.
  destruct (forallb (sp_flat st) (seqZ b B)) eqn:Hall.
  - destruct (Id_reserve ia st b H Hal ltac:(lia) Hend Hall) as (flat' & -> & Hr).
    eexists. by split.
  - pose proof (Flat_carve_ok BITS _ _ _ b (b + B) (ir_flat _ _ H)
      ltac:(lia) ltac:(lia) ltac:(lia)) as Hc.
    replace (b + B - b) with B in Hc by lia. rewrite Hall in Hc. rewrite Hc.
    eexists. split; [done|]. by destruct ia.
Qed.

Lemma Id_alloc_minor_ok ia st b : Id_rep ia st -> id_exec_ok ia st (IdAllocMinor b).
Proof using HBITS.
  intros H. unfold id_exec_ok. cbn [IdAlloc_exec id_step]. unfold IdAlloc_alloc_minor.
  pose proof (ir_slots _ _ H b) as Hb.
  destruct (om_get b (ia_majors ia)) as [slot|] eqn:Eg; [|rewrite Hb; by exists ia].
  destruct Hb as [-> Hs]. destruct (sr_range _ _ _ Hs) as [E1 E2].
  destruct (Flat_alloc_ok BITS N HBITS _ _ _ (sr_rep _ _ _ Hs)) as (inner' & -> & Hn).
  rewrite outcome_bind_Ret. rewrite E1, E2 in *. replace (b + B - b) with B in * by lia.
  eexists. split; [done|]. simpl snd.
  pose proof (Id_update_slot _ _ _ _ _ _ H Eg Hn) as Hr.
  destruct (List.find _ _) as [id|] eqn:Ef.
  - apply Hr. intros i Hi. apply fill_out.
    apply List.find_some in Ef as [Hin%list_elem_of_In%elem_of_seqZ _]. lia.
  - rewrite mkState_eta in Hr. by apply Hr.
Qed.

Lemma Id_dealloc_major_ok ia st b : Id_rep ia st -> id_exec_ok ia st (IdDeallocMajor b).
Proof using HBITS.
  intros H. unfold id_exec_ok. cbn [IdAlloc_exec id_step]. unfold IdAlloc_dealloc_major.
  pose proof (ir_slots _ _ H b) as Hb. pose proof (Id_flat_range _ _ H) as Hrng.
  destruct (om_get b (ia_majors ia)) as [slot|] eqn:Eg; [|rewrite Hb; by exists ia].
  destruct Hb as [Hm Hs]. rewrite Hm. pose proof (sr_in _ _ _ Hs) as [Hlo Hhi].
  pose proof (sr_aligned _ _ _ Hs) as Hal. pose proof (B_pos BITS N HBITS).
  destruct (ir_range _ _ H) as [Es Ee].
  rewrite block_end_ok by lia. eexists. split; [done|].
  pose proof (Flat_return_ok BITS _ _ _ b (b + B) (ir_flat _ _ H)
    ltac:(lia) ltac:(lia) ltac:(lia)) as (Hf & Hs' & He').
  { intros i Hi. by rewrite (base_of_unique b i). }
  replace (b + B - b) with B in Hf by lia.
  split; simpl; [by rewrite Hs', He'|apply H| |apply om_remove_ok, H|].
  - revert Hf. apply Flat_rep_ext; [done|]. intros i _. by apply fill_block.
  - intros b'. rewrite om_get_remove by apply H. rewrite fill_one.
    destruct (decide (b' = b)) as [->|Hne]; [done|].
    pose proof (ir_slots _ _ H b') as Hb'.
    destruct (om_get b' (ia_majors ia)) as [slot'|]; [|done].
    destruct Hb' as [Hm' Hs2]. split; [done|]. revert Hs2. by apply Slot_rep_minor.
Qed.

Lemma Id_init_rep s e : 0 <= s <= e -> e < 2 ^ BITS -> s mod B = 0 ->
  Id_rep (mkIdAlloc (FlatAlloc_new s e) []) (init_state s e).
Proof.
  intros H1 H2 H3. split; simpl; [done|done| |constructor|done].
  by apply FlatAlloc_new_ok.
Qed.

Lemma Id_reset_ok ia st : Id_rep ia st -> id_exec_ok ia st IdReset.
Proof.
  intros H. unfold id_exec_ok. cbn [IdAlloc_exec id_step]. eexists. split; [done|].
  unfold IdAlloc_reset, FlatAlloc_reset. destruct (ir_range _ _ H) as [-> ->].
  pose proof (Id_flat_range _ _ H). apply Id_init_rep; [lia|lia|apply H].
Qed.

Lemma Id_exec_ok ia st op : Id_rep ia st -> id_exec_ok ia st op.
Proof using HBITS.
  destruct op; [apply Id_alloc_ok | apply Id_alloc_at_ok | apply Id_dealloc_ok
    | apply Id_alloc_major_ok | apply Id_alloc_major_at_ok | apply Id_alloc_minor_ok
    | apply Id_dealloc_major_ok | apply Id_reset_ok].
Qed.

Lemma Id_run_ok ops ia st : Id_rep ia st ->
  exists ia', IdAlloc_run BITS N ia ops = Ret (fst (id_run N st ops), ia') /\
              Id_rep ia' (snd (id_run N st ops)).
Proof using HBITS.
  revert ia st. induction ops as [|op ops IH]; intros ia st H; [by exists ia|].
  destruct (Id_exec_ok ia st op H) as (ia1 & He & H1).
  cbn [IdAlloc_run id_run]. rewrite He. destruct (id_step N st op) as [r st1]. simpl in *.
  destruct (IH ia1 st1 H1) as (ia2 & -> & H2). destruct (id_run N st1 ops) as [rs st2].
  by exists ia2.
Qed.

(** *** Conservation: every ID of the range is used or available *)

Lemma countb_split3 (f c : Z -> bool) l :
  (forall i, i ∈ l -> c i = true -> f i = false) ->
  countb f l + countb (fun i => negb (f i) && negb (c i)) l + countb c l =
  Z.of_nat (length l).
Proof.
  induction l as [|i l IH]; intros Hc; [done|]. rewrite !countb_cons. cbn [length].
  specialize (IH ltac:(intros; apply Hc; [by right|done])).
  pose proof (Hc i ltac:(left)) as Hi.
  destruct (c i), (f i); simpl; lia.
Qed.

(** The IDs of the blocks with bases [bs]. *)
Definition in_blocks (bs : list Z) (i : Z) : bool :=
  existsb (fun b => (b <=? i) && (i <? b + B)) bs.

Lemma in_blocks_count bs lo n : 0 <= n -> NoDup bs ->
  (forall b, b ∈ bs -> b mod B = 0 /\ lo <= b /\ b + B <= lo + n) ->
  countb (in_blocks bs) (seqZ lo n) = B * Z.of_nat (length bs).
Proof using HBITS.
  intros Hn. pose proof (B_pos BITS N HBITS).
  induction bs as [|b bs IH]; intros Hnd Hbs.
  { etransitivity; [by apply countb_zero|]. simpl. lia. }
  apply NoDup_cons in Hnd as [Hb Hnd]. destruct (Hbs b ltac:(left)) as (Hal & Hlo & Hhi).
  rewrite (countb_ext _ (fill (in_blocks bs) b B true)).
  - rewrite countb_fill; [|lia|done|lia|].
    + rewrite IH; [cbn [length]; lia|done|]. intros b' Hb'. apply Hbs. by right.
    + intros i Hi. apply not_true_iff_false. unfold in_blocks.
      rewrite existsb_exists. intros (b' & Hb'%list_elem_of_In & Hx). zify_bool.
      apply Hb. destruct (Hbs b' ltac:(by right)) as (Hal' & _).
      by rewrite <- (base_of_unique b i), (base_of_unique b' i).
  - intros i _. unfold in_blocks, fill. cbn [existsb].
    by destruct ((b <=? i) && (i <? b + B)).
Qed.

Lemma majors_carved ia st i : Id_rep ia st ->
  sp_major st (base_of N i) = in_blocks (ia_majors ia).*1 i.
Proof using HBITS.
  intros H. apply eq_true_iff_eq. unfold in_blocks. rewrite existsb_exists.
  destruct (base_of_spec i) as [Hal Hi]. split.
  - intros Hm. exists (base_of N i). split; [|apply andb_true_iff; lia].
    apply list_elem_of_In, list_elem_of_fmap. pose proof (ir_slots _ _ H (base_of N i)) as Hb.
    destruct (om_get (base_of N i) (ia_majors ia)) as [slot|] eqn:E; [|congruence].
    apply om_get_elem in E; [|apply H]. by exists (base_of N i, slot).
  - intros (b & Hb%list_elem_of_In & Hx). zify_bool.
    apply list_elem_of_fmap in Hb as ([b' slot] & -> & Hin). simpl in *.
    apply om_get_elem in Hin; [|apply H]. pose proof (ir_slots _ _ H b') as Hs.
    rewrite Hin in Hs. destruct Hs as [Hm Hs].
    rewrite (base_of_unique b' i); [done|apply Hs|lia].
Qed.

(** A sub-allocator accounts for its whole block. *)
Lemma Flat_conserve fa f c : Flat_rep BITS fa f c ->
  exists a, FlatAlloc_available fa = Ret a /\ 0 <= a /\ 0 <= fa_inuse fa /\
    fa_inuse fa + a +
      countb c (seqZ (fa_start fa) (fa_end fa - fa_start fa)) = fa_end fa - fa_start fa.
Proof using HBITS.
  intros H. eexists. split; [by apply (Flat_available_ok BITS N HBITS _ f c)|].
  split; [apply countb_nonneg|]. pose proof (Flat_inuse_bound BITS N HBITS _ _ _ H).
  split; [lia|]. rewrite (fr_inuse _ _ _ _ H). pose proof (fr_bounds _ _ _ _ H).
  pose proof (countb_split3 f c (seqZ (fa_start fa) (fa_end fa - fa_start fa))) as Hc.
  rewrite length_seqZ in Hc.
  enough (forall i, i ∈ seqZ (fa_start fa) (fa_end fa - fa_start fa) ->
    c i = true -> f i = false) as Hcf by (specialize (Hc Hcf); lia).
  intros i Hi%elem_of_seqZ. apply (fr_carved _ _ _ _ H). lia.
Qed.

Lemma majors_conserve st (m : list (Z * MajorSlot)) au aa :
  (forall b slot, (b, slot) ∈ m -> Slot_rep st b (slot_inner slot)) ->
  0 <= au -> 0 <= aa ->
  au + B * Z.of_nat (length m) < 2 ^ 64 -> aa + B * Z.of_nat (length m) < 2 ^ 64 ->
  exists u a, sum_used m au = Ret (au + u) /\ sum_available m aa = Ret (aa + a) /\
    0 <= u /\ 0 <= a /\ u + a = B * Z.of_nat (length m).
Proof using HBITS.
  pose proof (B_pos BITS N HBITS).
  revert au aa. induction m as [|[b slot] m IH]; intros au aa Hm Hu Ha Hbu Hba.
  { exists 0, 0. cbn [sum_used sum_available length]. rewrite !Z.add_0_r. repeat split; lia. }
  pose proof (Hm b slot ltac:(left)) as Hs. destruct (sr_range _ _ _ Hs) as [E1 E2].
  destruct (Flat_conserve _ _ _ (sr_rep _ _ _ Hs)) as (a & Hav & Ha0 & Hi0 & Hc).
  rewrite (proj2 (countb_zero _ _)) in Hc by done. rewrite E1, E2 in Hc.
  cbn [sum_used sum_available length] in *. rewrite Hav, outcome_bind_Ret.
  unfold usize_add, FlatAlloc_used.
  destruct (Z.ltb_spec (au + fa_inuse (slot_inner slot)) (2 ^ 64)); [|nia].
  destruct (Z.ltb_spec (aa + a) (2 ^ 64)); [|nia]. rewrite !outcome_bind_Ret.
  destruct (IH (au + fa_inuse (slot_inner slot)) (aa + a)) as (u' & a' & -> & -> & Hu' & Ha' & Hs');
    [intros; apply Hm; by right|lia|lia|lia|lia|].
  exists (fa_inuse (slot_inner slot) + u'), (a + a').
  split; [f_equal; lia|]. split; [f_equal; lia|]. lia.
Qed.

Lemma Id_conserve ia st : Id_rep ia st ->
  exists u a, IdAlloc_used ia = Ret u /\ IdAlloc_available ia = Ret a /\
    IdAlloc_size ia = Ret (sp_end st - sp_start st) /\ 0 <= u /\ 0 <= a /\
    u + a = sp_end st - sp_start st.
Proof using HBITS.
  intros H. pose proof (Id_flat_range _ _ H) as Hrng. destruct (ir_range _ _ H) as [Es Ee].
  pose proof (pow_BITS BITS N HBITS). pose proof (B_pos BITS N HBITS).
  destruct (Flat_conserve _ _ _ (ir_flat _ _ H)) as (fa & Hfa & Hfa0 & Hfi0 & Hc).
  rewrite Es, Ee in Hc.
  assert (Hslots : forall b slot, (b, slot) ∈ ia_majors ia -> Slot_rep st b (slot_inner slot)).
  { intros b slot Hin%om_get_elem; [|apply H]. pose proof (ir_slots _ _ H b) as Hs.
    rewrite Hin in Hs. apply Hs. }
  rewrite (countb_ext _ (in_blocks (ia_majors ia).*1)) in Hc
    by (intros i _; by apply majors_carved).
  rewrite in_blocks_count, length_fmap in Hc; [|lia|apply om_keys_NoDup, H|].
  2: { intros b ([b' slot] & -> & Hin)%list_elem_of_fmap. simpl.
       destruct (Hslots _ _ Hin) as [S1 S2 _ _]. split; [done|lia]. }
  destruct (majors_conserve st (ia_majors ia) 0 0 Hslots)
    as (u & a & Hu & Ha & Hu0 & Ha0 & Hs); [lia|lia|lia|lia|].
  unfold IdAlloc_used, IdAlloc_available, IdAlloc_size, FlatAlloc_size, Id_distance_to,
    FlatAlloc_used, usize_sub, usize_add.
  rewrite Hu, Ha, Hfa, Es, Ee, !outcome_bind_Ret, !Z.add_0_l.
  destruct (Z.ltb_spec (fa_inuse (ia_flat ia) + u) (2 ^ 64)); [|lia].
  destruct (Z.ltb_spec (fa + a) (2 ^ 64)); [|lia].
  destruct (Z.leb_spec (sp_start st) (sp_end st)); [|lia].
  do 2 eexists. do 3 (split; [done|]). lia.
Qed.

End IdRep.

(** ** The properties of the crate *)

(** C3. Two-level allocator, refinement. An allocator built by [from_range]
    over an aligned range answers every sequence of API calls as the abstract
    allocator does: [alloc] and [alloc_minor] give the smallest free ID,
    [alloc_major] the smallest aligned block that is entirely free (the
    intervals of the free map are always merged, so no such block is missed),
    errors are the specified ones, and no [expect] fires nor counter
    overflows. *)
Theorem IdAlloc_refines BITS N s e ops :
  0 <= N < BITS -> BITS <= 64 -> 0 <= s <= e -> e < 2 ^ BITS -> s mod 2 ^ N = 0 ->
  exists ia0 ia, IdAlloc_from_range BITS N s e = Ok ia0 /\
    IdAlloc_run BITS N ia0 ops = Ret (fst (id_run N (init_state s e) ops), ia) /\
    Id_rep BITS N ia (snd (id_run N (init_state s e) ops)).
Proof.
  intros HN HB Hse He Hal. assert (Hb : 0 <= N < BITS /\ BITS <= 64) by done.
  eexists. assert (Hr := Id_init_rep BITS N Hb s e Hse He Hal).
  destruct (Id_run_ok BITS N Hb ops _ _ Hr) as (ia & Hrun & Hrep). exists ia.
  split; [|done]. unfold IdAlloc_from_range, IdAlloc_validate_range.
  rewrite (land_low BITS N Hb), Hal. by destruct (Z.leb_spec BITS N); [lia|].
Qed.

Lemma IdAlloc_refines_witness :
  exists ia0 ia, IdAlloc_from_range 8 2 4 22 = Ok ia0 /\
    IdAlloc_run 8 2 ia0 [IdAlloc1; IdAllocMajor; IdAllocMinor 8; IdDealloc 8;
                         IdDeallocMajor 8; IdAllocAt 21; IdAllocMajorAt 20] =
    Ret ([RId (Some 4); RId (Some 8); RId (Some 8); RDone (Ok tt);
          RDone (Ok tt); RDone (Ok tt); RBase (Err IdOutOfRange)], ia) /\
    Id_rep 8 2 ia (snd (id_run 2 (init_state 4 22)
      [IdAlloc1; IdAllocMajor; IdAllocMinor 8; IdDealloc 8;
       IdDeallocMajor 8; IdAllocAt 21; IdAllocMajorAt 20])).
Proof.
  apply (IdAlloc_refines 8 2 4 22 [IdAlloc1; IdAllocMajor; IdAllocMinor 8; IdDealloc 8;
    IdDeallocMajor 8; IdAllocAt 21; IdAllocMajorAt 20]); [lia|lia|lia|lia|reflexivity].
Defined.

(** Conservation. After any sequence of calls the IDs in use (flat ones
    and minors of reserved majors) and the IDs still available add up to the
    size of the range. *)
Theorem IdAlloc_conservation BITS N s e ops :
  0 <= N < BITS -> BITS <= 64 -> 0 <= s <= e -> e < 2 ^ BITS -> s mod 2 ^ N = 0 ->
  exists ia0 rs ia u a, IdAlloc_from_range BITS N s e = Ok ia0 /\
    IdAlloc_run BITS N ia0 ops = Ret (rs, ia) /\
    IdAlloc_used ia = Ret u /\ IdAlloc_available ia = Ret a /\ u + a = e - s.
Proof.
  intros HN HB Hse He Hal. assert (Hb : 0 <= N < BITS /\ BITS <= 64) by done.
  assert (Hr := Id_init_rep BITS N Hb s e Hse He Hal).
  destruct (Id_run_ok BITS N Hb ops _ _ Hr) as (ia & Hrun & Hrep).
  destruct (Id_conserve BITS N Hb ia _ Hrep) as (u & a & Hu & Ha & _ & _ & _ & Hs).
  rewrite id_run_range in Hs. simpl in Hs. do 5 eexists. split; [|eauto].
  unfold IdAlloc_from_range, IdAlloc_validate_range.
  rewrite (land_low BITS N Hb), Hal. by destruct (Z.leb_spec BITS N); [lia|].
Qed.

Lemma IdAlloc_conservation_witness :
  exists ia0 rs ia u a, IdAlloc_from_range 8 2 4 22 = Ok ia0 /\
    IdAlloc_run 8 2 ia0 [IdAllocMajor; IdAllocMinor 4; IdAlloc1] = Ret (rs, ia) /\
    IdAlloc_used ia = Ret u /\ IdAlloc_available ia = Ret a /\ u + a = 18.
Proof.
  apply (IdAlloc_conservation 8 2 4 22 [IdAllocMajor; IdAllocMinor 4; IdAlloc1]);
    [lia|lia|lia|lia|reflexivity].
Defined.
