(* ===== verification/Buddy.v ===== *)
(** * Buddy: intrusive free lists and the buddy page allocator

    Models [src/mm/allocator/intrusive_list.rs], [src/mm/allocator/buddy.rs],
    the frame entry points of [src/mm/allocator.rs] and [src/mm/frame.rs], and
    the helpers [ilog2_ceil] and [align] of [src/constants/memory.rs].

    The free lists live inside the free memory itself, so the model has an
    explicit heap: a finite map from word addresses to words. Reading or writing
    an address outside the heap is a fault ([Panic]); the theorems show that the
    allocator never faults and that its loops end. The list-level view of a free
    list is the sequence of its nodes ([chain]); the block-level view of the
    allocator is the collection of its free blocks ([blocks]). *)

From stdpp Require Import gmap.
From S2P Require Import Prelude.

(** ** Constants ([src/constants/memory.rs]) *)

Definition PAGE_SIZE : Z := 4096.
Definition BUDDY_MAX_ORDER : nat := 11.

Definition ilog2_ceil (size : Z) : outcome Z :=
  if size =? 1 then mret 0
  else
    s ← usize_sub size 1;
    if s =? 0 then Panic else mret (Z.log2 s + 1).

(** [const PAGE_SIZE_LOG_2: usize = ilog2_ceil(PAGE_SIZE)] *)
Definition PAGE_SIZE_LOG_2 : Z := 12.

Definition align (addr al : Z) : outcome Z :=
  s ← usize_add addr al;
  s ← usize_sub s 1;
  m ← usize_sub al 1;
  mret (Z.land s (wnot 64 m)).

(** ** The heap *)

Abbreviation heap := (gmap Z Z).

(** [unsafe { *p }] and [unsafe { *p = v }] on a word pointer. *)
Definition load (h : heap) (p : Z) : outcome Z := expect (h !! p).

Definition store (h : heap) (p v : Z) : outcome heap :=
  match h !! p with Some _ => mret (<[p := v]> h) | None => Panic end.

(** ** [IntrusiveList]: the head pointer; 0 is the null pointer *)

Definition IntrusiveList_new : Z := 0.

Definition IntrusiveList_is_empty (next : Z) : bool := next =? 0.

Definition IntrusiveList_push (h : heap) (next item : Z) : outcome (heap * Z) :=
  h ← store h item next;
  mret (h, item).

Definition IntrusiveList_pop (h : heap) (next : Z) : outcome (option Z * Z) :=
  if IntrusiveList_is_empty next then mret (None, next)
  else n ← load h next; mret (Some next, n).

(** The walk of [remove] from [current]. *)
Fixpoint remove_loop (fuel : nat) (h : heap) (current item : Z) : outcome (bool * heap) :=
  match fuel with
  | O => Panic
  | S fuel =>
      if current =? 0 then mret (false, h)
      else
        next ← load h current;
        if next =? item then
          n ← load h next;
          h ← store h current n;
          mret (true, h)
        else
          c ← load h current;
          remove_loop fuel h c item
  end.

Definition IntrusiveList_remove (h : heap) (next item : Z) : outcome (bool * heap * Z) :=
  if next =? item then n ← load h next; mret (true, h, n)
  else '(b, h) ← remove_loop (S (size h)) h next item; mret (b, h, next).

(** [IntrusiveListIter::next], and the sequence the iterator yields. *)
Definition IntrusiveListIter_next (h : heap) (current : Z) : outcome (option Z * Z) :=
  if current =? 0 then mret (None, current)
  else n ← load h current; mret (Some current, n).

Fixpoint IntrusiveList_collect (fuel : nat) (h : heap) (current : Z) : outcome (list Z) :=
  match fuel with
  | O => Panic
  | S fuel =>
      '(r, current) ← IntrusiveListIter_next h current;
      match r with
      | None => mret []
      | Some p => rest ← IntrusiveList_collect fuel h current; mret (p :: rest)
      end
  end.

(** ** [BuddyAllocator] *)

(** [1 << order << PAGE_SIZE_LOG_2] *)
Definition order_size (order : nat) : Z :=
  Z.shiftl (Z.shiftl 1 (Z.of_nat order)) PAGE_SIZE_LOG_2.

Definition buddy_address (base : Z) (order : nat) : Z := Z.lxor base (order_size order).

Definition size_to_order (size : Z) : outcome nat :=
  n ← ilog2_ceil size;
  if n <=? PAGE_SIZE_LOG_2 then mret 0%nat
  else mret (Nat.min (Z.to_nat (n - PAGE_SIZE_LOG_2)) (BUDDY_MAX_ORDER - 1)).

(** [free_list: [IntrusiveList; BUDDY_MAX_ORDER]] *)
Record BuddyAllocator : Type := mkBuddy { free_list : list Z }.

Definition BuddyAllocator_new : BuddyAllocator :=
  mkBuddy (replicate BUDDY_MAX_ORDER IntrusiveList_new).

(** [self.free_list[order].push(item)] *)
Definition fl_push (h : heap) (self : BuddyAllocator) (order : nat) (item : Z)
    : outcome (heap * BuddyAllocator) :=
  next ← expect (free_list self !! order);
  '(h, next) ← IntrusiveList_push h next item;
  mret (h, mkBuddy (<[order := next]> (free_list self))).

(** The inner loop of [add_frame]: push [chunks] blocks from [current]. *)
Fixpoint push_chunks (chunks : nat) (h : heap) (self : BuddyAllocator) (order : nat)
    (current : Z) : outcome (heap * BuddyAllocator * Z) :=
  match chunks with
  | O => mret (h, self, current)
  | S chunks =>
      '(h, self) ← fl_push h self order current;
      push_chunks chunks h self order (current + order_size order)
  end.

(** The loop over the orders [n - 1 .. 0]. *)
Fixpoint add_frame_loop (n : nat) (h : heap) (self : BuddyAllocator) (current e : Z)
    : outcome (heap * BuddyAllocator) :=
  match n with
  | O => mret (h, self)
  | S order =>
      if e <=? current then mret (h, self)
      else
        let chunks := (e - current) / order_size order in
        '(h, self, current) ← push_chunks (Z.to_nat chunks) h self order current;
        add_frame_loop order h self current e
  end.

Definition BuddyAllocator_add_frame (h : heap) (self : BuddyAllocator) (s e : Z)
    : outcome (heap * BuddyAllocator) :=
  add_frame_loop BUDDY_MAX_ORDER h self s e.

Definition BuddyAllocator_add (h : heap) (self : BuddyAllocator) (rstart rend : Z)
    : outcome (heap * BuddyAllocator) :=
  s ← align rstart (Z.shiftl 1 (Z.of_nat BUDDY_MAX_ORDER + 11));
  BuddyAllocator_add_frame h self s rend.

(** [for idx in (order..i).rev() { push(chunk + order_size(idx)) }]; [k] is
    [i - order]. *)
Fixpoint split_loop (k : nat) (h : heap) (self : BuddyAllocator) (order : nat) (chunk : Z)
    : outcome (heap * BuddyAllocator) :=
  match k with
  | O => mret (h, self)
  | S k =>
      '(h, self) ← fl_push h self (order + k) (chunk + order_size (order + k));
      split_loop k h self order chunk
  end.

(** [for i in order..free_list.len()]; [fuel] orders are left from [i]. *)
Fixpoint alloc_loop (fuel : nat) (h : heap) (self : BuddyAllocator) (order i : nat)
    : outcome (option Z * heap * BuddyAllocator) :=
  match fuel with
  | O => mret (None, h, self)
  | S fuel =>
      next ← expect (free_list self !! i);
      if IntrusiveList_is_empty next then alloc_loop fuel h self order (S i)
      else
        '(popped, next) ← IntrusiveList_pop h next;
        match popped with
        | None => mret (None, h, mkBuddy (<[i := next]> (free_list self)))
        | Some chunk =>
            '(h, self) ← split_loop (i - order) h
                           (mkBuddy (<[i := next]> (free_list self))) order chunk;
            mret (Some chunk, h, self)
        end
  end.

Definition BuddyAllocator_alloc (h : heap) (self : BuddyAllocator) (order : nat)
    : outcome (option Z * heap * BuddyAllocator) :=
  alloc_loop (length (free_list self) - order) h self order order.

(** The merging loop of [dealloc] over [i = order .. BUDDY_MAX_ORDER - 1];
    [fuel] iterations are left. Gives the pointer and the order to push. *)
Fixpoint merge_loop (fuel i : nat) (h : heap) (self : BuddyAllocator)
    (current_ptr : Z) (current_order : nat)
    : outcome (heap * BuddyAllocator * Z * nat) :=
  match fuel with
  | O => mret (h, self, current_ptr, current_order)
  | S fuel =>
      let buddy := buddy_address current_ptr current_order in
      next ← expect (free_list self !! current_order);
      '(found, h, next) ← IntrusiveList_remove h next buddy;
      let self := mkBuddy (<[current_order := next]> (free_list self)) in
      if (found : bool) then
        let current_ptr := if buddy <? current_ptr then buddy else current_ptr in
        if (BUDDY_MAX_ORDER <=? S i)%nat
        then mret (h, self, current_ptr, (BUDDY_MAX_ORDER - 1)%nat)
        else merge_loop fuel (S i) h self current_ptr (S i)
      else mret (h, self, current_ptr, current_order)
  end.

Definition BuddyAllocator_dealloc (h : heap) (self : BuddyAllocator) (start : Z)
    (order : nat) : outcome (heap * BuddyAllocator) :=
  '(h, self, current_ptr, current_order) ←
    merge_loop (BUDDY_MAX_ORDER - order) order h self start order;
  fl_push h self current_order current_ptr.

Definition BuddyAllocator_alloc_frame (h : heap) (self : BuddyAllocator) (size : Z)
    : outcome (option Z * heap * BuddyAllocator) :=
  order ← size_to_order size;
  BuddyAllocator_alloc h self order.

Definition BuddyAllocator_dealloc_frame (h : heap) (self : BuddyAllocator) (start size : Z)
    : outcome (heap * BuddyAllocator) :=
  order ← size_to_order size;
  BuddyAllocator_dealloc h self start order.

(** ** Frames ([src/mm/allocator.rs], [src/mm/frame.rs]) *)

Record Frame : Type := mkFrame { fr_start : Z; fr_size : Z }.

Definition alloc_frame (h : heap) (self : BuddyAllocator) (size : option Z)
    : outcome (option Frame * heap * BuddyAllocator) :=
  let size := default PAGE_SIZE size in
  '(r, h, self) ← BuddyAllocator_alloc_frame h self size;
  match r with
  | None => mret (None, h, self)
  | Some start =>
      order ← size_to_order size;
      mret (Some (mkFrame start (order_size order)), h, self)
  end.

(** [dealloc_frame] and [Drop for Frame]. *)
Definition dealloc_frame (h : heap) (self : BuddyAllocator) (f : Frame)
    : outcome (heap * BuddyAllocator) :=
  BuddyAllocator_dealloc_frame h self (fr_start f) (fr_size f).

(** Dropping a [Vec<Frame>]. *)
Fixpoint drop_frames (h : heap) (self : BuddyAllocator) (frames : list Frame)
    : outcome (heap * BuddyAllocator) :=
  match frames with
  | [] => mret (h, self)
  | f :: frames =>
      '(h, self) ← dealloc_frame h self f;
      drop_frames h self frames
  end.

(** [alloc_frames]: every iteration takes at least a page off [remaining]. *)
Fixpoint alloc_frames_loop (fuel : nat) (h : heap) (self : BuddyAllocator)
    (remaining : Z) (frames : list Frame)
    : outcome (option (list Frame) * heap * BuddyAllocator) :=
  if remaining <=? 0 then mret (Some frames, h, self)
  else
    match fuel with
    | O => Panic
    | S fuel =>
        '(r, h, self) ← alloc_frame h self (Some remaining);
        match r with
        | None => '(h, self) ← drop_frames h self frames; mret (None, h, self)
        | Some f =>
            alloc_frames_loop fuel h self (saturating_sub remaining (fr_size f))
              (frames ++ [f])
        end
    end.

Definition alloc_frames (h : heap) (self : BuddyAllocator) (size : Z)
    : outcome (option (list Frame) * heap * BuddyAllocator) :=
  alloc_frames_loop (Z.to_nat size) h self size [].

(** ** Free lists as sequences of nodes *)

(** The list that starts at [p] has the nodes [l], the last one null-terminated. *)
Fixpoint chain (h : heap) (p : Z) (l : list Z) : Prop :=
  match l with
  | [] => p = 0
  | x :: l => p = x /\ x <> 0 /\ exists n, h !! x = Some n /\ chain h n l
  end.

(** [l] without [item]. *)
Definition del (item : Z) (l : list Z) : list Z :=
  List.filter (fun x => negb (x =? item)) l.

Lemma elem_of_del item l x : x ∈ del item l <-> x ∈ l /\ x <> item.
Proof.
  unfold del. rewrite !list_elem_of_In, List.filter_In, negb_true_iff, Z.eqb_neq. done.
Qed.

Lemma del_notin item l : item ∉ l -> del item l = l.
Proof.
  induction l as [|x l IH]; intros Hn; [done|]. apply not_elem_of_cons in Hn as [Hx Hn].
  unfold del in *. simpl. destruct (Z.eqb_spec x item); [congruence|]. simpl. by rewrite IH.
Qed.

Lemma del_cons item l : item ∉ l -> del item (item :: l) = l.
Proof. intros. unfold del. simpl. rewrite Z.eqb_refl. simpl. by apply del_notin. Qed.

Lemma chain_frame h h' p l : chain h p l -> (forall x, x ∈ l -> h' !! x = h !! x) ->
  chain h' p l.
Proof.
  revert p. induction l as [|x l IH]; intros p Hc Hf; [done|].
  destruct Hc as (-> & Hx & n & Hn & Hc). split; [done|]. split; [done|].
  exists n. rewrite Hf by left. split; [done|]. apply IH; [done|].
  intros y Hy. apply Hf. by right.
Qed.

Lemma chain_insert h p l item v : chain h p l -> item ∉ l -> chain (<[item := v]> h) p l.
Proof.
  intros Hc Hn. apply (chain_frame h); [done|]. intros x Hx.
  apply lookup_insert_ne. congruence.
Qed.

Lemma chain_mapped h p l x : chain h p l -> x ∈ l -> is_Some (h !! x) /\ x <> 0.
Proof.
  revert p. induction l as [|y l IH]; intros p Hc Hx; [by apply not_elem_of_nil in Hx|].
  destruct Hc as (-> & Hy & n & Hn & Hc).
  apply elem_of_cons in Hx as [->|Hx]; [by rewrite Hn|]. by eapply IH.
Qed.

Lemma chain_length h p l : chain h p l -> NoDup l -> (length l <= size h)%nat.
Proof.
  intros Hc Hnd. rewrite <- (size_dom h), <- (size_list_to_set (C := gset Z) l Hnd).
  apply subseteq_size. intros x Hx%elem_of_list_to_set.
  apply elem_of_dom. by apply (chain_mapped h p l).
Qed.

Lemma push_ok h p l item : chain h p l -> item ∉ l -> item <> 0 -> is_Some (h !! item) ->
  IntrusiveList_push h p item = Ret (<[item := p]> h, item) /\
  chain (<[item := p]> h) item (item :: l).
Proof.
  intros Hc Hn H0 [v Hv]. unfold IntrusiveList_push, store. rewrite Hv. split; [done|].
  split; [done|]. split; [done|]. exists p. rewrite lookup_insert_eq. split; [done|].
  by apply chain_insert.
Qed.

Lemma pop_ok h p x l : chain h p (x :: l) ->
  exists n, IntrusiveList_pop h p = Ret (Some x, n) /\ chain h n l.
Proof.
  intros (-> & H0 & n & Hn & Hc). exists n.
  unfold IntrusiveList_pop, IntrusiveList_is_empty, load. rewrite Hn.
  by destruct (Z.eqb_spec x 0).
Qed.

Lemma remove_loop_ok fuel h x l item :
  chain h x (x :: l) -> NoDup (x :: l) -> item <> 0 -> (length l + 2 <= fuel)%nat ->
  exists h', remove_loop fuel h x item = Ret (bool_decide (item ∈ l), h') /\
    chain h' x (x :: del item l) /\ dom h' = dom h /\
    forall y, y ∉ x :: l -> h' !! y = h !! y.
Proof.
  revert fuel h x. induction l as [|y l IH]; intros [|fuel] h x Hc Hnd H0 Hf;
    simpl in Hf; try lia; cbn [remove_loop].
  - rewrite bool_decide_false by apply not_elem_of_nil.
    destruct Hc as (_ & Hx & n & Hn & ->). unfold load. rewrite Hn.
    destruct (Z.eqb_spec x 0); [done|]. cbn [expect]. rewrite !outcome_bind_Ret.
    destruct (Z.eqb_spec 0 item); [congruence|]. destruct fuel; [lia|].
    exists h. split; [done|]. split; [|done]. simpl. eauto.
  - pose proof Hc as (_ & Hx & n & Hn & (-> & Hy & n2 & Hn2 & Hc2)).
    apply NoDup_cons in Hnd as [Hxl Hnd]. pose proof Hnd as Hnd'.
    apply NoDup_cons in Hnd' as [Hyl Hnd'].
    unfold load, store. rewrite Hn. destruct (Z.eqb_spec x 0); [done|].
    cbn [expect]. rewrite !outcome_bind_Ret.
    destruct (Z.eqb_spec y item) as [->|Hne].
    + rewrite Hn2. cbn [expect]. rewrite outcome_bind_Ret.
      exists (<[x := n2]> h). rewrite bool_decide_true by left. split; [done|].
      rewrite del_cons by done. split; [|split; [apply dom_insert_lookup_L; eauto|]].
      * split; [done|]. split; [done|]. exists n2. rewrite lookup_insert_eq. split; [done|].
        apply chain_insert; [done|]. intros Hin. apply Hxl. by right.
      * intros z Hz%not_elem_of_cons. apply lookup_insert_ne. intros ->. by destruct Hz.
    + destruct (IH fuel h y) as (h' & Hr & Hc' & Hd & Hfr); try done; [|lia|].
      { split; [done|]. split; [done|]. eauto. }
      exists h'. rewrite Hr. split.
      { do 2 f_equal. apply bool_decide_ext. rewrite elem_of_cons. naive_solver. }
      assert (del item (y :: l) = y :: del item l) as ->.
      { unfold del. simpl. by destruct (Z.eqb_spec y item). }
      split; [|split; [done|]].
      * split; [done|]. split; [done|]. exists y. rewrite Hfr by done. by split.
      * intros z Hz%not_elem_of_cons. by apply Hfr, Hz.
Qed.

Lemma remove_ok h p l item : chain h p l -> NoDup l -> item <> 0 ->
  exists h' p', IntrusiveList_remove h p item = Ret (bool_decide (item ∈ l), h', p') /\
    chain h' p' (del item l) /\ dom h' = dom h /\ forall y, y ∉ l -> h' !! y = h !! y.
Proof.
  intros Hc Hnd H0. pose proof (chain_length h p l Hc Hnd) as Hlen.
  unfold IntrusiveList_remove. destruct l as [|x l].
  - rewrite bool_decide_false by apply not_elem_of_nil.
    simpl in Hc. subst p. destruct (Z.eqb_spec 0 item); [congruence|]. by exists h, 0.
  - pose proof Hc as (-> & Hx & n & Hn & Hc').
    destruct (Z.eqb_spec x item) as [->|Hne].
    + unfold load. rewrite Hn. exists h, n. rewrite bool_decide_true by left.
      apply NoDup_cons in Hnd as [Hxl _]. by rewrite del_cons.
    + destruct (remove_loop_ok (S (size h)) h x l item) as (h' & -> & Hc2 & Hd & Hf); try done.
      { simpl in Hlen. lia. }
      exists h', x. split.
      { simpl. do 3 f_equal. apply bool_decide_ext. rewrite elem_of_cons. naive_solver. }
      assert (del item (x :: l) = x :: del item l) as ->; [|done].
      unfold del. simpl. by destruct (Z.eqb_spec x item).
Qed.

(** Iterating a free list yields its nodes. *)
Lemma collect_ok fuel h p l : chain h p l -> (length l < fuel)%nat ->
  IntrusiveList_collect fuel h p = Ret l.
Proof.
  revert fuel p. induction l as [|x l IH]; intros [|fuel] p Hc Hf; simpl in Hf; try lia;
    cbn [IntrusiveList_collect]; unfold IntrusiveListIter_next, load.
  - simpl in Hc. by subst p.
  - destruct Hc as (-> & Hx & n & Hn & Hc). destruct (Z.eqb_spec x 0); [done|].
    rewrite Hn. simpl. rewrite (IH fuel n) by (done || lia). done.
Qed.

(** ** Blocks *)

Lemma order_size_pow o : order_size o = 2 ^ (Z.of_nat o + 12).
Proof.
  unfold order_size, PAGE_SIZE_LOG_2.
  rewrite Z.shiftl_shiftl, Z.shiftl_1_l by lia. done.
Qed.

Lemma order_size_pos o : 4096 <= order_size o.
Proof.
  rewrite order_size_pow. change 4096 with (2 ^ 12). apply Z.pow_le_mono_r; lia.
Qed.

Lemma order_size_S o : order_size (S o) = 2 * order_size o.
Proof.
  rewrite !order_size_pow. rewrite <- Z.pow_succ_r by lia. f_equal. lia.
Qed.

Lemma lxor_pow2 a k : 0 <= k ->
  Z.lxor a (2 ^ k) = if Z.testbit a k then a - 2 ^ k else a + 2 ^ k.
Proof.
  intros Hk. destruct (Z.testbit a k) eqn:E.
  - rewrite Z.sub_nocarry_ldiff.
    + apply Z.bits_inj'. intros i Hi. rewrite Z.lxor_spec, Z.ldiff_spec, Z.pow2_bits_eqb by lia.
      destruct (Z.eqb_spec k i) as [->|]; [by rewrite E|].
      by destruct (Z.testbit a i).
    + apply Z.bits_inj'. intros i Hi. rewrite Z.ldiff_spec, Z.pow2_bits_eqb, Z.bits_0 by lia.
      destruct (Z.eqb_spec k i) as [->|]; [by rewrite E|done].
  - symmetry. apply Z.add_nocarry_lxor. apply Z.bits_inj'. intros i Hi.
    rewrite Z.land_spec, Z.pow2_bits_eqb, Z.bits_0 by lia.
    destruct (Z.eqb_spec k i) as [->|]; [by rewrite E|apply andb_false_r].
Qed.

(** The buddy of an aligned block is its neighbour on the side that makes the
    pair aligned to the next order. *)
Lemma buddy_cases a o : 0 <= a -> a mod order_size o = 0 ->
  (buddy_address a o = a + order_size o /\ a mod order_size (S o) = 0) \/
  (buddy_address a o = a - order_size o /\ order_size o <= a /\
   (a - order_size o) mod order_size (S o) = 0).
Proof.
  intros Ha Hm. unfold buddy_address. rewrite order_size_S.
  pose proof (order_size_pos o) as Hp. rewrite order_size_pow in *.
  set (k := Z.of_nat o + 12) in *. rewrite lxor_pow2 by lia.
  pose proof (Z.testbit_spec' a k ltac:(lia)) as Hb.
  pose proof (Z.div_mod a (2 ^ k) ltac:(lia)) as Hd. rewrite Hm in Hd.
  set (q := a / 2 ^ k) in *.
  pose proof (Z.div_mod q 2 ltac:(lia)) as Hq.
  destruct (Z.testbit a k); simpl in Hb; rewrite <- Hb in Hq; [right|left].
  - split; [done|]. assert (0 <= q) by (apply Z.div_pos; lia).
    clearbody q. assert (1 <= q) by lia. split; [nia|]. replace (a - 2 ^ k) with (q / 2 * (2 * 2 ^ k)) by nia.
    apply Z.mod_mul. lia.
  - split; [done|]. replace a with (q / 2 * (2 * 2 ^ k)) by nia. apply Z.mod_mul. lia.
Qed.

(** A block: its address and its order. *)
Abbreviation block := (Z * nat)%type.

Definition in_block (b : block) (x : Z) : Prop := b.1 <= x < b.1 + order_size b.2.

Definition covered (bs : list block) (x : Z) : Prop := exists b, b ∈ bs /\ in_block b x.

Definition dis (b1 b2 : block) : Prop :=
  b1.1 + order_size b1.2 <= b2.1 \/ b2.1 + order_size b2.2 <= b1.1.

Definition block_ok (lo hi : Z) (b : block) : Prop :=
  (b.2 < BUDDY_MAX_ORDER)%nat /\ b.1 mod order_size b.2 = 0 /\
  lo <= b.1 /\ b.1 + order_size b.2 <= hi.

(** The blocks are in the region, aligned to their size and pairwise disjoint. *)
Record wf (lo hi : Z) (bs : list block) : Prop := {
  wf_ok : Forall (block_ok lo hi) bs;
  wf_dis : ForallOrdPairs dis bs
}.

#[export] Instance dis_sym : Symmetric dis.
Proof. intros b1 b2 [H|H]; [by right|by left]. Qed.

Lemma wf_cons lo hi b bs :
  wf lo hi (b :: bs) <-> block_ok lo hi b /\ (forall b', b' ∈ bs -> dis b b') /\ wf lo hi bs.
Proof.
  split.
  - intros [Hf Hd]. apply Forall_cons in Hf as [Hb Hf]. inversion Hd as [|? ? Hh Ht]; subst.
    rewrite Forall_forall in Hh. split; [done|]. split; [done|]. by split.
  - intros (Hb & Hd & [Hf Ht]). split; [by constructor|]. constructor; [|done].
    by apply Forall_forall.
Qed.

Lemma wf_perm lo hi bs bs' : bs ≡ₚ bs' -> wf lo hi bs -> wf lo hi bs'.
Proof.
  induction 1 as [|b l l' Hp IH|b1 b2 l|l1 l2 l3 Hp1 IH1 Hp2 IH2]; intros Hw; [done| | |auto].
  - apply wf_cons in Hw as (Hb & Hd & Hw). apply wf_cons. split; [done|].
    split; [|by apply IH]. intros b' Hb'. apply Hd. by rewrite Hp.
  - apply wf_cons in Hw as (Hb & Hd & Hw). apply wf_cons in Hw as (Hb' & Hd' & Hw).
    apply wf_cons. split; [done|]. split.
    + intros b' [->|Hin]%elem_of_cons; [symmetry; apply Hd; left|by apply Hd'].
    + apply wf_cons. split; [done|]. split; [|done]. intros b' Hin. apply Hd. by right.
Qed.

#[export] Instance wf_proper lo hi : Proper ((≡ₚ) ==> iff) (wf lo hi).
Proof. intros l l' Hp. split; apply wf_perm; [done|by symmetry]. Qed.

#[export] Instance covered_proper : Proper ((≡ₚ) ==> (=) ==> iff) covered.
Proof. intros l l' Hp x y ->. unfold covered. by setoid_rewrite Hp. Qed.

Lemma covered_cons b bs x : covered (b :: bs) x <-> in_block b x \/ covered bs x.
Proof. unfold covered. setoid_rewrite elem_of_cons. naive_solver. Qed.

Lemma covered_app bs bs' x : covered (bs ++ bs') x <-> covered bs x \/ covered bs' x.
Proof. unfold covered. setoid_rewrite elem_of_app. naive_solver. Qed.

Lemma wf_app_l lo hi bs bs' : wf lo hi (bs ++ bs') -> wf lo hi bs.
Proof.
  induction bs as [|b bs IH]; intros Hw; [split; constructor|].
  simpl in Hw. apply wf_cons in Hw as (Hb & Hd & Hw). apply wf_cons.
  split; [done|]. split; [|auto]. intros b' Hin. apply Hd, elem_of_app. by left.
Qed.

(** Splitting a block into its two halves. *)
Lemma wf_split lo hi c j bs : wf lo hi ((c, S j) :: bs) ->
  wf lo hi ((c, j) :: (c + order_size j, j) :: bs) /\
  forall x, in_block (c, S j) x <-> in_block (c, j) x \/ in_block (c + order_size j, j) x.
Proof.
  intros (Hb & Hd & Hw)%wf_cons. pose proof (order_size_pos j) as Hp.
  unfold block_ok in Hb. simpl in Hb. destruct Hb as (Hj & Hm & Hlo & Hhi).
  rewrite order_size_S in *.
  assert (Hmj : c mod order_size j = 0).
  { rewrite (Z.div_mod c (2 * order_size j)), Hm by lia.
    replace (2 * order_size j * (c / (2 * order_size j)) + 0)
      with (2 * (c / (2 * order_size j)) * order_size j) by ring. apply Z.mod_mul. lia. }
  split.
  - apply wf_cons. split; [|split].
    + unfold block_ok. simpl. split; [lia|]. split; [done|lia].
    + intros b' [->|Hin]%elem_of_cons; [left; simpl; lia|].
      destruct (Hd b' Hin) as [H|H]; simpl in H; [left|right]; simpl;
        rewrite ?order_size_S in *; lia.
    + apply wf_cons. split; [|split; [|done]].
      * unfold block_ok. simpl. split; [lia|]. split; [|lia].
        rewrite Z.add_mod, Hmj, Z.mod_same, Z.mod_0_l by lia. done.
      * intros b' Hin. destruct (Hd b' Hin) as [H|H]; simpl in H; [left|right]; simpl;
          rewrite ?order_size_S in *; lia.
  - intros x. unfold in_block. simpl. rewrite order_size_S. lia.
Qed.

(** Merging a block with its free buddy. *)
Lemma wf_merge lo hi p j bs : 0 <= lo -> (S j < BUDDY_MAX_ORDER)%nat ->
  wf lo hi ((p, j) :: (buddy_address p j, j) :: bs) ->
  let q := if buddy_address p j <? p then buddy_address p j else p in
  wf lo hi ((q, S j) :: bs) /\
  forall x, in_block (q, S j) x <-> in_block (p, j) x \/ in_block (buddy_address p j, j) x.
Proof.
  intros Hlo0 Hj (Hb & Hd & (Hb' & Hd' & Hw)%wf_cons)%wf_cons q.
  pose proof (order_size_pos j) as Hp.
  unfold block_ok in Hb, Hb'. simpl in Hb, Hb'.
  destruct Hb as (_ & Hm & Hlo & Hhi), Hb' as (_ & Hm' & Hlo' & Hhi').
  assert (Hq : q mod order_size (S j) = 0 /\
    ((q = p /\ buddy_address p j = p + order_size j) \/
     (q = p - order_size j /\ buddy_address p j = p - order_size j))).
  { subst q. destruct (buddy_cases p j) as [[-> He]|(-> & Hl & He)]; [lia|done|..].
    - destruct (Z.ltb_spec (p + order_size j) p); [lia|]. auto.
    - destruct (Z.ltb_spec (p - order_size j) p); [|lia]. auto. }
  clearbody q. destruct Hq as [Hqm Hq]. split.
  - apply wf_cons. split; [|split; [|done]].
    + unfold block_ok. simpl. rewrite order_size_S in *. split; [done|]. split; [done|].
      destruct Hq as [[-> E]|[-> E]]; rewrite E in *; lia.
    + intros b' Hin. specialize (Hd b' ltac:(by right)). specialize (Hd' b' Hin).
      pose proof (order_size_pos b'.2).
      unfold dis in *. simpl in *. rewrite order_size_S.
      destruct Hq as [[-> E]|[-> E]]; rewrite E in *; lia.
  - intros x. unfold in_block. simpl. rewrite order_size_S.
    destruct Hq as [[-> ->]|[-> ->]]; lia.
Qed.

(** ** The allocator's free lists as a collection of blocks *)

(** Nodes of the free list of each order. *)
Abbreviation lists := (nat -> list Z).

Definition upd (fl : lists) (o : nat) (l : list Z) : lists :=
  fun o' => if decide (o' = o) then l else fl o'.

Definition order_blocks (fl : lists) (o : nat) : list block := (fun a => (a, o)) <$> fl o.

Definition blocks (fl : lists) : list block :=
  concat (order_blocks fl <$> seq 0 BUDDY_MAX_ORDER).

Lemma elem_of_blocks fl a o : (a, o) ∈ blocks fl <-> (o < BUDDY_MAX_ORDER)%nat /\ a ∈ fl o.
Proof.
  unfold blocks, order_blocks. rewrite list_elem_of_In, in_concat.
  setoid_rewrite <- list_elem_of_In. setoid_rewrite list_elem_of_fmap.
  setoid_rewrite elem_of_seq. split.
  - intros (l & (o' & -> & Ho) & Ha). apply list_elem_of_fmap in Ha as (a' & [= -> ->] & Ha).
    split; [lia|done].
  - intros [Ho Ha]. eexists. split; [exists o; split; [done|lia]|].
    apply list_elem_of_fmap. eauto.
Qed.

Lemma blocks_upd fl o l : (o < BUDDY_MAX_ORDER)%nat ->
  exists rest, blocks fl ≡ₚ ((fun a => (a, o)) <$> fl o) ++ rest /\
               blocks (upd fl o l) ≡ₚ ((fun a => (a, o)) <$> l) ++ rest.
Proof.
  intros Ho. unfold blocks.
  assert (Hs : o ∈ seq 0 BUDDY_MAX_ORDER) by (apply elem_of_seq; lia).
  apply list_elem_of_split in Hs as (l1 & l2 & Hs).
  pose proof (NoDup_seq 0 BUDDY_MAX_ORDER) as Hnd. rewrite Hs in *.
  apply NoDup_app in Hnd as (_ & Hn1 & Hnd). apply NoDup_cons in Hnd as [Hn2 _].
  assert (Hsame : forall l0 : list nat, o ∉ l0 -> order_blocks (upd fl o l) <$> l0 = order_blocks fl <$> l0).
  { intros l0 Hl0. apply list_fmap_ext. intros i o' Hi.
    unfold order_blocks, upd. rewrite decide_False; [done|]. intros ->.
    apply Hl0. by eapply list_elem_of_lookup_2. }
  exists (concat (order_blocks fl <$> l1) ++ concat (order_blocks fl <$> l2)).
  rewrite !fmap_app, !fmap_cons, !concat_app. cbn [concat].
  rewrite (Hsame l1), (Hsame l2).
  - assert (order_blocks (upd fl o l) o = (fun a => (a, o)) <$> l) as ->.
    { unfold order_blocks, upd. by rewrite decide_True. }
    split; rewrite !(Permutation_app_swap_app (concat (order_blocks fl <$> l1))); done.
  - done.
  - intros Hin. apply (Hn1 o Hin). left.
Qed.

Lemma blocks_push fl o a : (o < BUDDY_MAX_ORDER)%nat ->
  blocks (upd fl o (a :: fl o)) ≡ₚ (a, o) :: blocks fl.
Proof.
  intros Ho. destruct (blocks_upd fl o (a :: fl o) Ho) as (rest & H1 & H2).
  by rewrite H1, H2.
Qed.

Lemma blocks_del fl o a : (o < BUDDY_MAX_ORDER)%nat -> a ∈ fl o -> NoDup (fl o) ->
  blocks fl ≡ₚ (a, o) :: blocks (upd fl o (del a (fl o))).
Proof.
  intros Ho Ha Hnd. destruct (blocks_upd fl o (del a (fl o)) Ho) as (rest & H1 & H2).
  rewrite H1, H2. apply list_elem_of_split in Ha as (l1 & l2 & E). rewrite E in *.
  apply NoDup_app in Hnd as (_ & Hn1 & Hnd). apply NoDup_cons in Hnd as [Hn2 _].
  assert (Ed : del a (l1 ++ a :: l2) = l1 ++ l2).
  { unfold del. rewrite List.filter_app. f_equal; [|by apply del_cons].
    apply del_notin. intros Hin. apply (Hn1 a Hin). left. }
  rewrite Ed, !fmap_app, fmap_cons. by rewrite <- Permutation_middle.
Qed.

Lemma blocks_pop fl o a l : (o < BUDDY_MAX_ORDER)%nat -> fl o = a :: l ->
  blocks fl ≡ₚ (a, o) :: blocks (upd fl o l).
Proof.
  intros Ho E. destruct (blocks_upd fl o l Ho) as (rest & H1 & H2).
  by rewrite H1, H2, E.
Qed.

(** The region [[lo, hi)] managed by the allocator is mapped memory. *)
Definition mapped (lo hi : Z) (h : heap) : Prop :=
  forall x, lo <= x < hi -> x mod 8 = 0 -> is_Some (h !! x).

Section Rep.
Context (lo hi : Z).
Hypothesis Hlo : 0 < lo.

(** The heads and the heap hold the free lists [fl]; these blocks and the
    blocks [held] by clients are disjoint parts of the region. *)
Record Rep (h : heap) (self : BuddyAllocator) (fl : lists) (held : list block) : Prop := {
  rep_len : length (free_list self) = BUDDY_MAX_ORDER;
  rep_chain : forall o, (o < BUDDY_MAX_ORDER)%nat ->
    exists p, free_list self !! o = Some p /\ chain h p (fl o);
  rep_wf : wf lo hi (held ++ blocks fl);
  rep_mapped : mapped lo hi h
}.

(** The two blocks of a well-formed collection are equal or disjoint. *)
Lemma wf_distinct bs b1 b2 : wf lo hi bs -> b1 ∈ bs -> b2 ∈ bs -> b1 = b2 \/ dis b1 b2.
Proof using.
  intros Hw H1 H2. apply elem_of_Permutation in H1 as (bs' & Hp).
  rewrite Hp in Hw, H2. apply wf_cons in Hw as (_ & Hd & _).
  apply elem_of_cons in H2 as [->|H2]; [by left|right; auto].
Qed.

Lemma wf_free_nodup h self fl held o : Rep h self fl held -> (o < BUDDY_MAX_ORDER)%nat ->
  NoDup (fl o).
Proof using.
  intros H Ho. pose proof (rep_wf _ _ _ _ H) as Hw.
  destruct (blocks_upd fl o [] Ho) as (rest & Hp & _). rewrite Hp in Hw.
  rewrite Permutation_app_comm, <- app_assoc in Hw. clear H Hp. revert Hw.
  generalize (fl o). intros l0 Hw.
  induction l0 as [|a l IH]; [constructor|]. rewrite fmap_cons in Hw.
  apply wf_cons in Hw as (_ & Hd & Hw). constructor; [|by apply IH].
  intros Hin. destruct (Hd (a, o)) as [Hx|Hx].
  - apply elem_of_app. left. apply list_elem_of_fmap. eauto.
  - simpl in Hx. pose proof (order_size_pos o). lia.
  - simpl in Hx. pose proof (order_size_pos o). lia.
Qed.

(** Addresses of blocks are mapped words, and not null. *)
Lemma block_addr h self fl held b : Rep h self fl held -> b ∈ held ++ blocks fl ->
  b.1 <> 0 /\ is_Some (h !! b.1) /\ block_ok lo hi b.
Proof using Hlo.
  intros H Hb. pose proof (wf_ok _ _ _ (rep_wf _ _ _ _ H)) as Hf.
  rewrite Forall_forall in Hf. specialize (Hf b Hb) as Hok.
  destruct Hok as (Ho & Hm & H1 & H2). pose proof (order_size_pos b.2).
  split; [lia|]. split; [|done]. apply (rep_mapped _ _ _ _ H); [lia|].
  rewrite order_size_pow in Hm.
  assert (2 ^ (Z.of_nat b.2 + 12) = 2 ^ (Z.of_nat b.2 + 9) * 8) as E.
  { change 8 with (2 ^ 3). rewrite <- Z.pow_add_r by lia. f_equal. lia. }
  rewrite E in Hm. pose proof (Z.pow_pos_nonneg 2 (Z.of_nat b.2 + 9)).
  rewrite (Z.div_mod b.1 (2 ^ (Z.of_nat b.2 + 9) * 8)), Hm by lia.
  replace (2 ^ (Z.of_nat b.2 + 9) * 8 * (b.1 / (2 ^ (Z.of_nat b.2 + 9) * 8)) + 0)
    with (2 ^ (Z.of_nat b.2 + 9) * (b.1 / (2 ^ (Z.of_nat b.2 + 9) * 8)) * 8) by ring.
  apply Z.mod_mul. lia.
Qed.

(** A held block's address is in no free list. *)
Lemma held_not_free h self fl b held : Rep h self fl (b :: held) ->
  forall o, (o < BUDDY_MAX_ORDER)%nat -> b.1 ∉ fl o.
Proof using.
  intros H o Ho Hin. pose proof (rep_wf _ _ _ _ H) as Hw. simpl in Hw.
  apply wf_cons in Hw as (_ & Hd & _).
  destruct (Hd (b.1, o)) as [Hx|Hx].
  - apply elem_of_app. right. by apply elem_of_blocks.
  - simpl in Hx. pose proof (order_size_pos b.2). lia.
  - simpl in Hx. pose proof (order_size_pos o). lia.
Qed.

Lemma mapped_dom h h' : dom h' = dom h -> mapped lo hi h -> mapped lo hi h'.
Proof using.
  intros Hd Hm x Hx H8. apply elem_of_dom. rewrite Hd. apply elem_of_dom. by apply Hm.
Qed.

(** Permuting, splitting or merging the held blocks. *)
Lemma Rep_held h self fl held held' : Rep h self fl held ->
  wf lo hi (held' ++ blocks fl) -> Rep h self fl held'.
Proof using. intros [H1 H2 H3 H4] Hw. by split. Qed.

(** Writing inside a held block does not disturb the free lists. *)
Lemma Rep_write h self fl held b x v : Rep h self fl held -> b ∈ held -> in_block b x ->
  Rep (<[x := v]> h) self fl held.
Proof using.
  intros [R1 R2 R3 R4] Hb Hx. split; [done| |done|].
  - intros o Ho. destruct (R2 o Ho) as (p & Hp & Hc). exists p. split; [done|].
    apply chain_insert; [done|]. intros Hin.
    apply elem_of_Permutation in Hb as (rest & Hp'). rewrite Hp' in R3.
    apply wf_cons in R3 as (_ & Hdis & _). unfold in_block in Hx.
    pose proof (order_size_pos o). destruct (Hdis (x, o)) as [Hy|Hy];
      [|simpl in Hy; lia..].
    apply elem_of_app. right. by apply elem_of_blocks.
  - intros y Hy H8. destruct (decide (y = x)) as [->|].
    + rewrite lookup_insert_eq. done.
    + rewrite lookup_insert_ne by done. by apply R4.
Qed.

Lemma Rep_push h self fl a o held : Rep h self fl ((a, o) :: held) ->
  exists h' self', fl_push h self o a = Ret (h', self') /\
    Rep h' self' (upd fl o (a :: fl o)) held /\
    blocks (upd fl o (a :: fl o)) ≡ₚ (a, o) :: blocks fl /\
    forall x, x <> a -> h' !! x = h !! x.
Proof using Hlo.
  intros H. destruct (block_addr _ _ _ _ (a, o) H) as (H0 & Hs & Hok);
    [simpl; left|]. destruct Hok as (Ho & _). simpl in *.
  destruct (rep_chain _ _ _ _ H o Ho) as (p & Hp & Hc).
  pose proof (held_not_free _ _ _ _ _ H) as Hnf. simpl in Hnf.
  destruct (push_ok h p (fl o) a Hc (Hnf o Ho) H0 Hs) as [Hpush Hc'].
  pose proof (blocks_push fl o a Ho) as Hb.
  unfold fl_push. rewrite Hp. cbn [expect]. rewrite outcome_bind_Ret, Hpush.
  do 2 eexists. split; [done|]. split; [|split; [done|]].
  - split; simpl.
    + rewrite length_insert. apply H.
    + intros o' Ho'. unfold upd. destruct (decide (o' = o)) as [->|Hne].
      * exists a. split; [|exact Hc']. apply list_lookup_insert_eq. rewrite (rep_len _ _ _ _ H). lia.
      * destruct (rep_chain _ _ _ _ H o' Ho') as (p' & Hp' & Hcp'). exists p'.
        rewrite list_lookup_insert_ne by done. split; [done|].
        apply chain_insert; [done|]. by apply Hnf.
    + rewrite Hb. rewrite <- Permutation_middle. apply H.
    + apply (mapped_dom h); [|apply H]. apply dom_insert_lookup_L. done.
  - intros x Hx. apply lookup_insert_ne. done.
Qed.

Lemma Rep_pop h self fl held o a l : Rep h self fl held -> (o < BUDDY_MAX_ORDER)%nat ->
  fl o = a :: l ->
  exists p n, free_list self !! o = Some p /\ p <> 0 /\
    IntrusiveList_pop h p = Ret (Some a, n) /\
    Rep h (mkBuddy (<[o := n]> (free_list self))) (upd fl o l) ((a, o) :: held) /\
    blocks fl ≡ₚ (a, o) :: blocks (upd fl o l).
Proof using.
  intros H Ho E. destruct (rep_chain _ _ _ _ H o Ho) as (p & Hp & Hc). rewrite E in Hc.
  destruct (pop_ok h p a l Hc) as (n & Hpop & Hc'). exists p, n.
  split; [done|]. split; [by destruct Hc as (-> & ? & _)|]. split; [done|].
  pose proof (blocks_pop fl o a l Ho E) as Hb. split; [|done].
  split; simpl; [rewrite length_insert; apply H| | |apply H].
  - intros o' Ho'. unfold upd. destruct (decide (o' = o)) as [->|Hne].
    + exists n. split; [|done]. apply list_lookup_insert_eq. rewrite (rep_len _ _ _ _ H). lia.
    + destruct (rep_chain _ _ _ _ H o' Ho') as (p' & Hp' & Hcp'). exists p'.
      by rewrite list_lookup_insert_ne by done.
  - pose proof (rep_wf _ _ _ _ H) as Hw. rewrite Hb in Hw.
    by rewrite <- Permutation_middle in Hw.
Qed.

Lemma Rep_remove h self fl held o item : Rep h self fl held -> (o < BUDDY_MAX_ORDER)%nat ->
  item <> 0 ->
  exists p h' p', free_list self !! o = Some p /\
    IntrusiveList_remove h p item = Ret (bool_decide (item ∈ fl o), h', p') /\
    Rep h' (mkBuddy (<[o := p']> (free_list self))) (upd fl o (del item (fl o)))
      (if decide (item ∈ fl o) then (item, o) :: held else held) /\
    blocks fl ≡ₚ (if decide (item ∈ fl o) then [(item, o)] else []) ++
                 blocks (upd fl o (del item (fl o))) /\
    forall x, (forall o, (o < BUDDY_MAX_ORDER)%nat -> x ∉ fl o) -> h' !! x = h !! x.
Proof using.
  intros H Ho H0. pose proof (wf_free_nodup _ _ _ _ o H Ho) as Hnd.
  destruct (rep_chain _ _ _ _ H o Ho) as (p & Hp & Hc).
  destruct (remove_ok h p (fl o) item Hc Hnd H0) as (h' & p' & Hr & Hc' & Hd & Hf).
  exists p, h', p'. split; [done|]. split; [done|].
  assert (Hb : blocks fl ≡ₚ (if decide (item ∈ fl o) then [(item, o)] else []) ++
                 blocks (upd fl o (del item (fl o)))).
  { destruct (decide (item ∈ fl o)) as [Hin|Hin]; [by apply blocks_del|].
    simpl. rewrite del_notin by done.
    destruct (blocks_upd fl o (fl o) Ho) as (rest & -> & ->). done. }
  split; [|split; [done|]].
  - split; simpl; [rewrite length_insert; apply H| | |].
    + intros o' Ho'. unfold upd. destruct (decide (o' = o)) as [->|Hne].
      * exists p'. split; [|done]. apply list_lookup_insert_eq. rewrite (rep_len _ _ _ _ H). lia.
      * destruct (rep_chain _ _ _ _ H o' Ho') as (p2 & Hp2 & Hc2). exists p2.
        rewrite list_lookup_insert_ne by done. split; [done|].
        apply (chain_frame h); [done|]. intros x Hx. apply Hf. intros Hx'.
        destruct (wf_distinct (held ++ blocks fl) (x, o) (x, o')) as [[=]|Hdis];
          [apply H|apply elem_of_app; right; by apply elem_of_blocks..|congruence|].
        destruct Hdis as [Hz|Hz]; simpl in Hz;
          [pose proof (order_size_pos o)|pose proof (order_size_pos o')]; lia.
    + pose proof (rep_wf _ _ _ _ H) as Hw. rewrite Hb in Hw.
      destruct (decide (item ∈ fl o)); [|done]. simpl in *.
      by rewrite <- Permutation_middle in Hw.
    + apply (mapped_dom h); [done|apply H].
  - intros x Hx. apply Hf. by apply Hx.
Qed.

(** *** [alloc] *)

Lemma split_loop_ok k h self fl order c held : Rep h self fl ((c, (order + k)%nat) :: held) ->
  exists h' self' fl', split_loop k h self order c = Ret (h', self') /\
    Rep h' self' fl' ((c, order) :: held) /\
    (forall x, covered ((c, order) :: blocks fl') x <->
               covered ((c, (order + k)%nat) :: blocks fl) x) /\
    forall x, ~ in_block (c, (order + k)%nat) x -> h' !! x = h !! x.
Proof using Hlo.
  revert h self fl. induction k as [|k IH]; intros h self fl H.
  { exists h, self, fl. rewrite Nat.add_0_r in *. done. }
  rewrite Nat.add_succ_r in *. pose proof (order_size_pos (order + k)) as Hp.
  destruct (wf_split _ _ _ _ _ (rep_wf _ _ _ _ H)) as [Hw Hcov].
  assert (H1 : Rep h self fl ((c + order_size (order + k), (order + k)%nat)
    :: (c, (order + k)%nat) :: held)).
  { apply (Rep_held _ _ _ _ _ H). revert Hw. apply wf_perm. constructor. }
  destruct (Rep_push _ _ _ _ _ _ H1) as (h1 & self1 & Hpush & H2 & Hb & Hf1).
  destruct (IH _ _ _ H2) as (h2 & self2 & fl2 & Hs & H3 & Hc2 & Hf2).
  exists h2, self2, fl2. cbn [split_loop]. rewrite Hpush, outcome_bind_Ret.
  split; [done|]. split; [done|]. split.
  - intros x. rewrite Hc2, Hb, !covered_cons, Hcov. tauto.
  - intros x Hx. unfold in_block in *. simpl in *. rewrite order_size_S in Hx.
    rewrite Hf2 by (simpl; lia). apply Hf1. lia.
Qed.

Definition alloc_post (h : heap) (self : BuddyAllocator) (fl : lists) (held : list block)
    (order i : nat) (r : option Z) (h' : heap) (self' : BuddyAllocator) : Prop :=
  match r with
  | None => h' = h /\ self' = self /\ forall j, (i <= j < BUDDY_MAX_ORDER)%nat -> fl j = []
  | Some a => exists fl', Rep h' self' fl' ((a, order) :: held) /\
      (forall x, covered ((a, order) :: blocks fl') x <-> covered (blocks fl) x) /\
      forall x, ~ covered (blocks fl) x -> h' !! x = h !! x
  end.

Lemma alloc_loop_ok fuel h self fl held order i : Rep h self fl held ->
  (order <= i)%nat -> (i + fuel = BUDDY_MAX_ORDER)%nat ->
  exists r h' self', alloc_loop fuel h self order i = Ret (r, h', self') /\
    alloc_post h self fl held order i r h' self'.
Proof using Hlo.
  intros H. revert i. induction fuel as [|fuel IH]; intros i Ho Hi; cbn [alloc_loop].
  { exists None, h, self. split; [done|]. split; [done|]. split; [done|]. intros; lia. }
  assert (Hi' : (i < BUDDY_MAX_ORDER)%nat) by lia.
  destruct (rep_chain _ _ _ _ H i Hi') as (p & Hp & Hc). rewrite Hp. cbn [expect].
  rewrite outcome_bind_Ret. destruct (fl i) as [|a l] eqn:E.
  - simpl in Hc. subst p. simpl.
    destruct (IH (S i)) as (r & h' & self' & Hr & Hpost); [lia|lia|].
    exists r, h', self'. split; [done|]. destruct r as [a|]; [done|].
    destruct Hpost as (-> & -> & Hn). split; [done|]. split; [done|].
    intros j Hj. destruct (decide (j = i)) as [->|]; [done|]. apply Hn. lia.
  - destruct (Rep_pop _ _ _ _ _ _ _ H Hi' E) as (p' & n & Hp' & Hp0 & Hpop & H1 & Hb).
    assert (p' = p) as -> by congruence. unfold IntrusiveList_is_empty.
    destruct (Z.eqb_spec p 0); [done|]. rewrite Hpop, outcome_bind_Ret.
    replace i with (order + (i - order))%nat in H1 at 3 by lia.
    destruct (split_loop_ok _ _ _ _ _ _ _ H1) as (h' & self' & fl' & -> & H2 & Hcov & Hf).
    replace (order + (i - order))%nat with i in * by lia.
    rewrite outcome_bind_Ret. exists (Some a), h', self'. split; [done|].
    exists fl'. split; [done|]. split.
    + intros x. rewrite Hcov, Hb. done.
    + intros x Hx. apply Hf. intros Hin. apply Hx. rewrite Hb, covered_cons. by left.
Qed.

Lemma alloc_ok h self fl held order : Rep h self fl held -> (order < BUDDY_MAX_ORDER)%nat ->
  exists r h' self', BuddyAllocator_alloc h self order = Ret (r, h', self') /\
    alloc_post h self fl held order order r h' self'.
Proof using Hlo.
  intros H Ho. unfold BuddyAllocator_alloc. rewrite (rep_len _ _ _ _ H).
  apply alloc_loop_ok; [done|lia|lia].
Qed.

(** *** [dealloc] *)

(** [lost] is empty, or the upper one of two top-order buddies, when a block of
    the top order was freed (or reached by merging) while its buddy was free. *)
Definition dealloc_lost (fl : lists) (lost : list block) : Prop :=
  lost = [] \/
  exists q, lost = [(q, (BUDDY_MAX_ORDER - 1)%nat)] /\ fl (BUDDY_MAX_ORDER - 1)%nat <> [].

Lemma buddy_nonzero h self fl p o held : Rep h self fl ((p, o) :: held) ->
  buddy_address p o <> 0 \/ p = order_size o.
Proof using Hlo.
  intros H. destruct (block_addr _ _ _ _ (p, o) H) as (_ & _ & (_ & Hm & H1 & _)); [left|].
  simpl in *. destruct (buddy_cases p o) as [[-> _]|(-> & Hl & _)]; [lia|done|..].
  - pose proof (order_size_pos o). left. lia.
  - destruct (Z.eq_dec p (order_size o)); [by right|left; lia].
Qed.

Hypothesis Hlo_big : order_size (BUDDY_MAX_ORDER - 1) < lo.

Lemma order_size_mono o o' : (o <= o')%nat -> order_size o <= order_size o'.
Proof using. intros. rewrite !order_size_pow. apply Z.pow_le_mono_r; lia. Qed.

Lemma merge_loop_ok fuel i h self fl p held : Rep h self fl ((p, i) :: held) ->
  (i + fuel = BUDDY_MAX_ORDER)%nat ->
  exists h' self' fl' q o' lost,
    merge_loop fuel i h self p i = Ret (h', self', q, o') /\
    Rep h' self' fl' ((q, o') :: lost ++ held) /\
    (forall x, covered ((q, o') :: lost ++ blocks fl') x <-> covered ((p, i) :: blocks fl) x) /\
    dealloc_lost fl lost /\
    forall x, (forall o, (o < BUDDY_MAX_ORDER)%nat -> x ∉ fl o) -> h' !! x = h !! x.
Proof using Hlo Hlo_big.
  revert i h self fl p. induction fuel as [|fuel IH]; intros i h self fl p H Hi;
    cbn [merge_loop].
  { exists h, self, fl, p, i, []. split; [done|]. split; [done|]. split; [done|].
    split; [by left|done]. }
  assert (Ho : (i < BUDDY_MAX_ORDER)%nat) by lia.
  assert (H0 : buddy_address p i <> 0).
  { destruct (buddy_nonzero _ _ _ _ _ _ H) as [|E]; [done|].
    destruct (block_addr _ _ _ _ (p, i) H) as (_ & _ & (_ & _ & Hl & _)); [left|].
    cbn [fst] in Hl. pose proof (order_size_mono i (BUDDY_MAX_ORDER - 1) ltac:(lia)). lia. }
  set (b := buddy_address p i) in *.
  destruct (Rep_remove _ _ _ _ i b H Ho H0) as (head & h1 & head1 & -> & Hr & H1 & Hb & Hf).
  cbn [expect]. rewrite outcome_bind_Ret, Hr, outcome_bind_Ret.
  destruct (decide (b ∈ fl i)) as [Hin|Hin].
  2: { rewrite bool_decide_false by done.
       do 3 eexists. exists p, i, []. split; [done|]. split; [done|]. split.
       - intros x. simpl. rewrite Hb. done.
       - split; [by left|done]. }
  rewrite bool_decide_true by done.
  assert (H2 : wf lo hi ((p, i) :: (b, i) :: held ++ blocks (upd fl i (del b (fl i))))).
  { pose proof (rep_wf _ _ _ _ H1) as Hw. revert Hw. apply wf_perm. constructor. }
  destruct (Nat.leb_spec BUDDY_MAX_ORDER (S i)) as [Hi'|Hi'].
  - assert (i = BUDDY_MAX_ORDER - 1)%nat as E by lia.
    do 3 eexists. exists (if b <? p then b else p), (BUDDY_MAX_ORDER - 1)%nat,
      [(if b <? p then p else b, (BUDDY_MAX_ORDER - 1)%nat)].
    rewrite <- E. split; [done|]. split; [|split; [|split]].
    + apply (Rep_held _ _ _ _ _ H1). simpl. destruct (b <? p); [|done].
      revert H2. apply wf_perm. constructor.
    + intros x. rewrite Hb. simpl. rewrite !covered_cons. destruct (b <? p); tauto.
    + right. eexists. rewrite E. split; [done|]. rewrite <- E. intros En.
      rewrite En in Hin. by apply not_elem_of_nil in Hin.
    + done.
  - destruct (wf_merge lo hi p i _ ltac:(lia) Hi' H2) as [Hw Hcov]. fold b in Hw, Hcov.
    destruct (IH (S i) h1 _ _ (if b <? p then b else p)
      (Rep_held _ _ _ _ ((if b <? p then b else p, S i) :: held) H1 Hw) ltac:(lia))
      as (h' & self' & fl' & q & o' & lost & -> & H3 & Hc3 & Hl3 & Hf3).
    exists h', self', fl', q, o', lost. split; [done|]. split; [done|]. split; [|split].
    + intros x. rewrite Hc3, Hb. simpl. rewrite !covered_cons, Hcov. tauto.
    + destruct Hl3 as [|(z & -> & Hz)]; [by left|right]. exists z. split; [done|].
      unfold upd in Hz. destruct (decide _) as [E|]; [lia|done].
    + intros x Hx. rewrite Hf3; [by apply Hf|]. intros o Ho' Hin'. apply (Hx o Ho').
      unfold upd in Hin'. destruct (decide (o = i)) as [->|]; [|done].
      by apply elem_of_del in Hin' as [? _].
Qed.

Lemma dealloc_ok h self fl a o held : Rep h self fl ((a, o) :: held) ->
  exists h' self' fl' lost, BuddyAllocator_dealloc h self a o = Ret (h', self') /\
    Rep h' self' fl' (lost ++ held) /\
    (forall x, covered (lost ++ blocks fl') x <-> covered ((a, o) :: blocks fl) x) /\
    dealloc_lost fl lost /\
    forall x, ~ covered ((a, o) :: blocks fl) x -> h' !! x = h !! x.
Proof using Hlo Hlo_big.
  intros H. destruct (block_addr _ _ _ _ (a, o) H) as (_ & _ & (Ho & _)); [left|].
  cbn [snd] in Ho. unfold BuddyAllocator_dealloc.
  destruct (merge_loop_ok (BUDDY_MAX_ORDER - o) o h self fl a held H ltac:(lia))
    as (h1 & self1 & fl1 & q & o' & lost & -> & H1 & Hc & Hl & Hf).
  rewrite outcome_bind_Ret.
  destruct (Rep_push _ _ _ _ _ _ H1) as (h2 & self2 & -> & H2 & Hb & Hf2).
  exists h2, self2, (upd fl1 o' (q :: fl1 o')), lost.
  split; [done|]. split; [done|]. split; [|split; [done|]].
  - intros x. rewrite <- Hc, covered_app, Hb, !covered_cons, covered_app. tauto.
  - intros x Hx. rewrite Hf2, Hf; [done| |].
    + intros o2 Ho2 Hin. apply Hx. rewrite covered_cons. right.
      exists (x, o2). split; [by apply elem_of_blocks|]. pose proof (order_size_pos o2).
      unfold in_block. cbn [fst snd]. lia.
    + intros ->. apply Hx. rewrite <- Hc, covered_cons. left.
      pose proof (order_size_pos o'). unfold in_block. cbn [fst snd]. lia.
Qed.

(** *** [add_frame]: filling the allocator with a range of memory *)

Definition apart (s e : Z) (bs : list block) : Prop :=
  forall b, b ∈ bs -> b.1 + order_size b.2 <= s \/ e <= b.1.

Lemma push_chunks_ok n h self fl held o cur e : Rep h self fl held ->
  (o < BUDDY_MAX_ORDER)%nat -> cur mod order_size o = 0 -> lo <= cur -> e <= hi ->
  cur + Z.of_nat n * order_size o <= e -> apart cur e (held ++ blocks fl) ->
  exists h' self' fl', push_chunks n h self o cur =
      Ret (h', self', cur + Z.of_nat n * order_size o) /\
    Rep h' self' fl' held /\
    apart (cur + Z.of_nat n * order_size o) e (held ++ blocks fl') /\
    forall x, covered (blocks fl') x <->
      covered (blocks fl) x \/ cur <= x < cur + Z.of_nat n * order_size o.
Proof using Hlo.
  intros H Ho. pose proof (order_size_pos o) as Hp. revert h self fl cur H.
  induction n as [|n IH]; intros h self fl cur H Hm Hl Hh Hn Ha; cbn [push_chunks].
  { exists h, self, fl. replace (cur + Z.of_nat 0 * order_size o) with cur by lia.
    split; [done|]. split; [done|]. split; [done|]. intros x. split; [tauto|]. intros [|]; [done|lia]. }
  assert (H1 : Rep h self fl ((cur, o) :: held)).
  { apply (Rep_held _ _ _ _ _ H). simpl. apply wf_cons. split; [|split; [|apply H]].
    - split; [done|]. split; [done|]. cbn [fst snd]. nia.
    - intros b Hb. destruct (Ha b Hb) as [Hx|Hx]; [by right|left]. cbn [fst snd]. nia. }
  destruct (Rep_push _ _ _ _ _ _ H1) as (h1 & self1 & -> & H2 & Hb & _).
  rewrite outcome_bind_Ret.
  destruct (IH h1 self1 _ (cur + order_size o) H2) as (h2 & self2 & fl2 & -> & H3 & Ha3 & Hc3).
  - rewrite Z.add_mod, Hm, Z.mod_same, Z.mod_0_l by lia. done.
  - lia.
  - done.
  - nia.
  - intros b. rewrite Hb. rewrite elem_of_app, elem_of_cons.
    intros [Hin|[->|Hin]]; [|left; simpl; lia|].
    + destruct (Ha b); [apply elem_of_app; by left|left; lia|by right].
    + destruct (Ha b); [apply elem_of_app; by right|left; lia|by right].
  - exists h2, self2, fl2.
    replace (cur + Z.of_nat (S n) * order_size o)
      with (cur + order_size o + Z.of_nat n * order_size o) by lia.
    split; [done|]. split; [done|]. split; [done|]. intros x.
    rewrite Hc3, Hb, covered_cons. unfold in_block. cbn [fst snd].
    assert (0 <= Z.of_nat n * order_size o) by nia.
    destruct (Z.lt_ge_cases x (cur + order_size o)); intuition lia.
Qed.

Lemma order_size_divide o o' : (o <= o')%nat -> (order_size o | order_size o').
Proof using.
  intros Ho. rewrite !order_size_pow. exists (2 ^ (Z.of_nat o' - Z.of_nat o)).
  rewrite <- Z.pow_add_r by lia. f_equal. lia.
Qed.

Lemma mod_divide a m m' : m <> 0 -> (m | m') -> a mod m' = 0 -> a mod m = 0.
Proof using.
  intros Hm [k ->] Ha. destruct (Z.eq_dec k 0) as [->|].
  - rewrite Z.mod_0_r in Ha. subst. apply Z.mod_0_l. lia.
  - apply Z.mod_divide in Ha; [|nia]. apply Z.mod_divide; [lia|].
    eapply Z.divide_trans; [|exact Ha]. apply Z.divide_factor_r.
Qed.

Lemma add_frame_loop_ok n h self fl held cur e : Rep h self fl held ->
  (n <= BUDDY_MAX_ORDER)%nat -> cur mod order_size (n - 1) = 0 -> lo <= cur -> e <= hi ->
  apart cur e (held ++ blocks fl) -> (n = 0%nat -> e <= cur \/ e - cur < 4096) ->
  exists h' self' fl', add_frame_loop n h self cur e = Ret (h', self') /\
    Rep h' self' fl' held /\
    forall x, covered (blocks fl') x <->
      covered (blocks fl) x \/ cur <= x < cur + (e - cur) / 4096 * 4096.
Proof using Hlo Hlo_big.
  revert h self fl cur. induction n as [|o IH]; intros h self fl cur H Hn Hm Hl Hh Ha Hend;
    cbn [add_frame_loop].
  { exists h, self, fl. split; [done|]. split; [done|]. intros x. split; [tauto|].
    intros [|Hx]; [done|]. destruct (Hend eq_refl); lia. }
  destruct (Z.leb_spec e cur) as [He|He].
  { exists h, self, fl. split; [done|]. split; [done|]. intros x. split; [tauto|].
    intros [|Hx]; [done|]. lia. }
  replace (S o - 1)%nat with o in Hm by lia. pose proof (order_size_pos o) as Hp.
  pose proof (Z.div_mod (e - cur) (order_size o) ltac:(lia)) as Hd.
  pose proof (Z.mod_pos_bound (e - cur) (order_size o) ltac:(lia)) as Hr.
  pose proof (Z.div_pos (e - cur) (order_size o) ltac:(lia) ltac:(lia)) as Hq.
  set (q := (e - cur) / order_size o) in *.
  destruct (push_chunks_ok (Z.to_nat q) h self fl held o cur e)
    as (h1 & self1 & fl1 & -> & H1 & Ha1 & Hc1); try done; [rewrite Z2Nat.id by lia; nia|].
  rewrite Z2Nat.id in * by lia. rewrite outcome_bind_Ret.
  set (cur1 := cur + q * order_size o) in *.
  destruct (IH h1 self1 fl1 cur1) as (h2 & self2 & fl2 & -> & H2 & Hc2); try done.
  - lia.
  - apply (mod_divide _ _ (order_size o)); [pose proof (order_size_pos (o - 1)); lia| |].
    + apply order_size_divide. lia.
    + subst cur1. rewrite Z.mod_add by lia. done.
  - nia.
  - intros ->. right. subst cur1. change (order_size 0) with 4096 in *. lia.
  - exists h2, self2, fl2. split; [done|]. split; [done|]. intros x. rewrite Hc2, Hc1.
    destruct (order_size_divide 0 o ltac:(lia)) as [k Hk].
    change (order_size 0) with 4096 in Hk.
    assert (E : (e - cur1) / 4096 * 4096 = (e - cur) / 4096 * 4096 - q * order_size o).
    { subst cur1. rewrite Hk.
      replace (e - (cur + q * (k * 4096))) with (e - cur + (- (q * k)) * 4096) by ring.
      rewrite Z.div_add by lia. ring. }
    rewrite E. subst cur1.
    assert (q * order_size o <= (e - cur) / 4096 * 4096).
    { rewrite Hk in *. pose proof (Z.div_le_lower_bound (e - cur) 4096 (q * k)). nia. }
    split; [intros [[|]|]; [by left|right; nia|right; nia]|].
    intros [|Hx]; [tauto|].
    destruct (Z.lt_ge_cases x (cur + q * order_size o)); [left; right; lia|right; lia].
Qed.

Lemma Rep_new h : mapped lo hi h -> Rep h BuddyAllocator_new (fun _ => []) [].
Proof using.
  intros Hm. split; [done| | |done].
  - intros o Ho. exists 0. split; [|done]. by apply lookup_replicate_2.
  - split; constructor.
Qed.

Lemma align_ok addr k : 0 <= addr -> 0 <= k < 63 -> addr + 2 ^ k < 2 ^ 64 ->
  exists a, align addr (Z.shiftl 1 k) = Ret a /\ a mod 2 ^ k = 0 /\ addr <= a < addr + 2 ^ k.
Proof using.
  intros Ha Hk Hb. pose proof (Z.pow_pos_nonneg 2 k ltac:(lia) ltac:(lia)) as Hp.
  unfold align, usize_add, usize_sub. rewrite Z.shiftl_1_l.
  destruct (Z.ltb_spec (addr + 2 ^ k) (2 ^ 64)); [|lia]. rewrite outcome_bind_Ret.
  destruct (Z.leb_spec 1 (addr + 2 ^ k)); [|lia].
  destruct (Z.leb_spec 1 (2 ^ k)); [|lia]. rewrite !outcome_bind_Ret.
  replace (2 ^ k - 1) with (Z.ones k) by (rewrite Z.ones_equiv; lia).
  assert (E : Z.land (addr + 2 ^ k - 1) (wnot 64 (Z.ones k)) =
    (addr + 2 ^ k - 1) / 2 ^ k * 2 ^ k).
  { rewrite <- Z.shiftr_div_pow2, <- Z.shiftl_mul_pow2 by lia.
    apply Z.bits_inj'. intros i Hi.
    rewrite Z.land_spec, wnot_spec, Z.testbit_ones_nonneg, Z.shiftl_spec by lia.
    destruct (Z.ltb_spec i k).
    - rewrite (Z.testbit_neg_r _ (i - k)) by lia. apply andb_false_r.
    - rewrite Z.shiftr_spec by lia. replace (i - k + k) with i by lia.
      destruct (Z.ltb_spec i 64); [apply andb_true_r|].
      rewrite (fits_bit 64 (addr + 2 ^ k - 1)); [done|split; lia|lia]. }
  rewrite E. eexists. split; [done|]. split; [apply Z.mod_mul; lia|].
  pose proof (Z.div_mod (addr + 2 ^ k - 1) (2 ^ k) ltac:(lia)).
  pose proof (Z.mod_pos_bound (addr + 2 ^ k - 1) (2 ^ k) ltac:(lia)). nia.
Qed.

(** *** Sizes and orders *)

Lemma ilog2_ceil_ok size : 1 <= size -> ilog2_ceil size = Ret (Z.log2_up size).
Proof using.
  intros Hs. unfold ilog2_ceil, usize_sub. destruct (Z.eqb_spec size 1) as [->|]; [done|].
  destruct (Z.leb_spec 1 size); [|lia]. rewrite outcome_bind_Ret.
  destruct (Z.eqb_spec (size - 1) 0); [lia|]. f_equal.
  rewrite Z.log2_up_eqn by lia. rewrite Z.sub_1_r. lia.
Qed.

Lemma size_to_order_ok size : 1 <= size ->
  exists o, size_to_order size = Ret o /\ (o < BUDDY_MAX_ORDER)%nat /\
    (size <= order_size (BUDDY_MAX_ORDER - 1) -> size <= order_size o) /\
    ((0 < o)%nat -> order_size (o - 1) < size).
Proof using.
  intros Hs. unfold size_to_order. rewrite ilog2_ceil_ok, outcome_bind_Ret by done.
  unfold PAGE_SIZE_LOG_2. destruct (Z.leb_spec (Z.log2_up size) 12) as [Hl|Hl].
  - exists 0%nat. split; [done|]. split; [unfold BUDDY_MAX_ORDER; lia|]. split; [|lia].
    intros _. change (order_size 0) with (2 ^ 12). apply Z.log2_up_le_pow2; lia.
  - eexists. split; [done|].
    assert (H1 : 1 < size).
    { destruct (Z.eq_dec size 1) as [->|]; [|lia]. rewrite Z.log2_up_1 in Hl. lia. }
    pose proof (Z.log2_up_spec size H1) as Hspec.
    split; [unfold BUDDY_MAX_ORDER; lia|]. unfold BUDDY_MAX_ORDER. split.
    + intros Hmax. assert (Z.log2_up size <= 22) by (apply Z.log2_up_le_pow2; [lia|exact Hmax]).
      rewrite Nat.min_l by lia. rewrite order_size_pow, Z2Nat.id by lia.
      replace (Z.log2_up size - 12 + 12) with (Z.log2_up size) by lia. lia.
    + intros H0. rewrite order_size_pow.
      eapply Z.le_lt_trans; [|apply Hspec]. apply Z.pow_le_mono_r; lia.
Qed.

Lemma size_to_order_size o : (o < BUDDY_MAX_ORDER)%nat -> size_to_order (order_size o) = Ret o.
Proof using.
  intros Ho. unfold BUDDY_MAX_ORDER in Ho.
  do 11 (destruct o as [|o]; [vm_compute; reflexivity|]). lia.
Qed.

End Rep.

(** ** Frames *)

Section Frames.
Context (lo hi : Z).
Hypothesis Hlo : 0 < lo.
Hypothesis Hlo_big : order_size (BUDDY_MAX_ORDER - 1) < lo.

(** The frame is the handle of the block. *)
Definition frame_of (f : Frame) (b : block) : Prop :=
  fr_start f = b.1 /\ fr_size f = order_size b.2 /\ (b.2 < BUDDY_MAX_ORDER)%nat.

Lemma alloc_frame_ok h self fl held size : Rep lo hi h self fl held -> 1 <= size ->
  exists o r h' self', size_to_order size = Ret o /\ (o < BUDDY_MAX_ORDER)%nat /\
    alloc_frame h self (Some size) =
      Ret ((fun a => mkFrame a (order_size o)) <$> r, h', self') /\
    alloc_post lo hi h self fl held o o r h' self'.
Proof using Hlo.
  intros H Hs. destruct (size_to_order_ok size Hs) as (o & Ho & Ho2 & _).
  destruct (alloc_ok lo hi Hlo h self fl held o H Ho2) as (r & h' & self' & Ha & Hpost).
  exists o, r, h', self'. split; [done|]. split; [done|]. split; [|done].
  unfold alloc_frame, BuddyAllocator_alloc_frame. simpl default. rewrite Ho.
  rewrite outcome_bind_Ret, Ha, outcome_bind_Ret. by destruct r.
Qed.

Lemma dealloc_frame_ok h self fl f b held : Rep lo hi h self fl (b :: held) -> frame_of f b ->
  exists h' self' fl' lost, dealloc_frame h self f = Ret (h', self') /\
    Rep lo hi h' self' fl' (lost ++ held).
Proof using Hlo Hlo_big.
  intros H (E1 & E2 & Ho). destruct b as [a o]. simpl in *.
  destruct (dealloc_ok lo hi Hlo Hlo_big h self fl a o held H)
    as (h' & self' & fl' & lost & Hd & Hr & _).
  exists h', self', fl', lost. split; [|done].
  unfold dealloc_frame, BuddyAllocator_dealloc_frame.
  by rewrite E1, E2, size_to_order_size, outcome_bind_Ret by done.
Qed.

Lemma drop_frames_ok frames bs h self fl held : Rep lo hi h self fl (bs ++ held) ->
  Forall2 frame_of frames bs ->
  exists h' self' fl' lost, drop_frames h self frames = Ret (h', self') /\
    Rep lo hi h' self' fl' (lost ++ held).
Proof using Hlo Hlo_big.
  intros H Hf. revert h self fl held H.
  induction Hf as [|f b frames bs Hfb Hf IH]; intros h self fl held H; cbn [drop_frames].
  { by exists h, self, fl, []. }
  destruct (dealloc_frame_ok h self fl f b (bs ++ held) H Hfb)
    as (h1 & self1 & fl1 & lost1 & -> & H1). rewrite outcome_bind_Ret.
  destruct (IH h1 self1 fl1 (lost1 ++ held)) as (h2 & self2 & fl2 & lost2 & -> & H2).
  { apply (Rep_held _ _ _ _ _ _ _ H1). pose proof (rep_wf _ _ _ _ _ _ H1) as Hw.
    revert Hw. apply wf_perm. by rewrite !app_assoc, (Permutation_app_comm lost1 bs). }
  exists h2, self2, fl2, (lost2 ++ lost1). by rewrite <- app_assoc.
Qed.

Definition total (frames : list Frame) : Z := foldr (fun f acc => fr_size f + acc) 0 frames.

Lemma total_app fs gs : total (fs ++ gs) = total fs + total gs.
Proof using. induction fs as [|f fs IH]; simpl; [lia|]. lia. Qed.

Lemma alloc_frames_loop_ok fuel h self fl held remaining frames bs :
  Rep lo hi h self fl (bs ++ held) -> Forall2 frame_of frames bs ->
  remaining <= Z.of_nat fuel ->
  exists r h' self', alloc_frames_loop fuel h self remaining frames = Ret (r, h', self') /\
    match r with
    | Some out => exists bs' fl', Forall2 frame_of out bs' /\
        Rep lo hi h' self' fl' (bs' ++ held) /\ total frames + remaining <= total out
    | None => exists fl' lost, Rep lo hi h' self' fl' (lost ++ held)
    end.
Proof using Hlo Hlo_big.
  revert h self fl remaining frames bs.
  induction fuel as [|fuel IH]; intros h self fl remaining frames bs H Hf Hrem;
    cbn [alloc_frames_loop]; destruct (Z.leb_spec remaining 0) as [Hr|Hr]; try lia.
  1, 2: exists (Some frames), h, self; split; [done|]; exists bs, fl;
    split; [done|]; split; [done|lia].
  destruct (alloc_frame_ok h self fl (bs ++ held) remaining H ltac:(lia))
    as (o & r & h1 & self1 & Ho & Ho2 & -> & Hpost).
  rewrite outcome_bind_Ret. destruct r as [a|]; simpl.
  - destruct Hpost as (fl1 & H1 & _).
    destruct (IH h1 self1 fl1 (saturating_sub remaining (order_size o))
      (frames ++ [mkFrame a (order_size o)]) (bs ++ [(a, o)]))
      as (r & h2 & self2 & Hl & Hp2).
    + apply (Rep_held _ _ _ _ _ _ _ H1). pose proof (rep_wf _ _ _ _ _ _ H1) as Hw.
      revert Hw. apply wf_perm. rewrite <- app_assoc. simpl.
      rewrite <- !app_assoc. simpl. by rewrite Permutation_middle.
    + apply Forall2_app; [done|]. constructor; [by split|constructor].
    + unfold saturating_sub. pose proof (order_size_pos o). lia.
    + exists r, h2, self2. split; [done|]. destruct r as [out|]; [|done].
      destruct Hp2 as (bs' & fl' & ? & ? & Ht). exists bs', fl'. split; [done|]. split; [done|].
      rewrite total_app in Ht. unfold saturating_sub in Ht.
      assert (total [mkFrame a (order_size o)] = order_size o) as E
        by (unfold total; cbn [foldr fr_size]; lia).
      lia.
  - destruct Hpost as (-> & -> & _).
    destruct (drop_frames_ok frames bs h self fl held H Hf)
      as (h2 & self2 & fl2 & lost & -> & H2).
    exists None, h2, self2. split; [done|]. by exists fl2, lost.
Qed.

End Frames.

(** ** The allocator and its clients *)

(** The heap, the allocator, and the blocks the clients hold. *)
Record Sys : Type := mkSys { sy_heap : heap; sy_buddy : BuddyAllocator; sy_held : list block }.

(** The allocator right after [add] of the available range, on memory mapped
    in [[lo, hi)]. *)
Inductive sys_init (lo hi : Z) : Sys -> Prop :=
| sys_init_intro h rstart h' self : mapped lo hi h ->
    lo <= rstart -> rstart + order_size (BUDDY_MAX_ORDER - 1) < 2 ^ 64 ->
    BuddyAllocator_add h BuddyAllocator_new rstart hi = Ret (h', self) ->
    sys_init lo hi (mkSys h' self []).

(** Clients allocate, free a block they hold, and write inside the blocks they
    hold. *)
Inductive sys_step : Sys -> Sys -> Prop :=
| step_alloc h self held order a h' self' : (order < BUDDY_MAX_ORDER)%nat ->
    BuddyAllocator_alloc h self order = Ret (Some a, h', self') ->
    sys_step (mkSys h self held) (mkSys h' self' ((a, order) :: held))
| step_alloc_none h self held order h' self' : (order < BUDDY_MAX_ORDER)%nat ->
    BuddyAllocator_alloc h self order = Ret (None, h', self') ->
    sys_step (mkSys h self held) (mkSys h' self' held)
| step_dealloc h self held1 a o held2 h' self' :
    BuddyAllocator_dealloc h self a o = Ret (h', self') ->
    sys_step (mkSys h self (held1 ++ (a, o) :: held2)) (mkSys h' self' (held1 ++ held2))
| step_write h self held b x v : b ∈ held -> in_block b x ->
    sys_step (mkSys h self held) (mkSys (<[x := v]> h) self held).

Section System.
Context (lo hi : Z).
Hypothesis Hlo_big : order_size (BUDDY_MAX_ORDER - 1) < lo.

Definition sys_inv (s : Sys) : Prop :=
  exists fl lost, Rep lo hi (sy_heap s) (sy_buddy s) fl (lost ++ sy_held s).

Lemma lo_pos : 0 < lo.
Proof using Hlo_big. pose proof (order_size_pos (BUDDY_MAX_ORDER - 1)). lia. Qed.

Lemma sys_init_inv s : sys_init lo hi s -> sys_inv s.
Proof using Hlo_big.
  intros [h rstart h' self Hm Hl Hb Ha]. pose proof lo_pos as Hlo.
  unfold BuddyAllocator_add in Ha.
  destruct (align_ok rstart 22) as (a & Hal & Hmod & Ha2); [lia|lia|exact Hb|].
  change (Z.of_nat BUDDY_MAX_ORDER + 11) with 22 in Ha. rewrite Hal, outcome_bind_Ret in Ha.
  destruct (add_frame_loop_ok lo hi Hlo Hlo_big BUDDY_MAX_ORDER h BuddyAllocator_new
    (fun _ => []) [] a hi) as (h1 & self1 & fl1 & Hadd & H1 & _).
  - by apply Rep_new.
  - done.
  - exact Hmod.
  - lia.
  - lia.
  - by intros b ?%not_elem_of_nil.
  - done.
  - unfold BuddyAllocator_add_frame in Ha. rewrite Hadd in Ha. injection Ha as <- <-.
    by exists fl1, [].
Qed.

Lemma sys_step_inv s s' : sys_step s s' -> sys_inv s -> sys_inv s'.
Proof using Hlo_big.
  pose proof lo_pos as Hlo.
  intros Hstep (fl & lost & H). destruct Hstep as [h self held order a h' self' Ho Ha
    |h self held order h' self' Ho Ha|h self held1 a o held2 h' self' Hd
    |h self held b x v Hb Hx]; simpl in H.
  - destruct (alloc_ok lo hi Hlo _ _ _ _ order H Ho) as (r & h2 & self2 & Ha2 & Hp).
    rewrite Ha in Ha2. injection Ha2 as <- <- <-. destruct Hp as (fl' & H' & _).
    exists fl', lost. simpl. apply (Rep_held _ _ _ _ _ _ _ H').
    pose proof (rep_wf _ _ _ _ _ _ H') as Hw. revert Hw. apply wf_perm.
    by rewrite <- Permutation_middle.
  - destruct (alloc_ok lo hi Hlo _ _ _ _ order H Ho) as (r & h2 & self2 & Ha2 & Hp).
    rewrite Ha in Ha2. injection Ha2 as <- <- <-. destruct Hp as (-> & -> & _).
    by exists fl, lost.
  - assert (H1 : Rep lo hi h self fl ((a, o) :: lost ++ held1 ++ held2)).
    { apply (Rep_held _ _ _ _ _ _ _ H). pose proof (rep_wf _ _ _ _ _ _ H) as Hw.
      revert Hw. apply wf_perm. by rewrite !app_assoc, <- Permutation_middle. }
    destruct (dealloc_ok lo hi Hlo Hlo_big _ _ _ _ _ _ H1)
      as (h2 & self2 & fl' & lost' & Hd2 & H2 & _).
    rewrite Hd in Hd2. injection Hd2 as <- <-.
    exists fl', (lost' ++ lost). simpl. by rewrite <- app_assoc.
  - exists fl, lost. simpl. apply Rep_write with b; [done| |done].
    apply elem_of_app. by right.
Qed.

End System.

(** ** A concrete region, for the examples *)

Definition zero_heap (lo hi : Z) : heap :=
  list_to_map ((fun k => (lo + 8 * k, 0)) <$> seqZ 0 ((hi - lo + 7) / 8)).

Lemma mapped_zero lo hi : lo mod 8 = 0 -> mapped lo hi (zero_heap lo hi).
Proof.
  intros Hl x Hx H8. apply elem_of_dom. unfold zero_heap. rewrite dom_list_to_map_L.
  apply elem_of_list_to_set, list_elem_of_fmap. exists (x, 0). split; [done|].
  apply list_elem_of_fmap. exists ((x - lo) / 8). split; [f_equal; lia|].
  apply elem_of_seqZ. lia.
Qed.

Lemma sys_init_exists lo hi rstart h :
  order_size (BUDDY_MAX_ORDER - 1) < lo -> mapped lo hi h -> lo <= rstart ->
  rstart + order_size (BUDDY_MAX_ORDER - 1) < 2 ^ 64 ->
  exists s, sys_init lo hi s /\ sy_held s = [].
Proof.
  intros Hbig Hm Hl Hb. pose proof (lo_pos lo Hbig) as Hlo.
  destruct (align_ok rstart 22) as (a & Hal & Hmod & Ha2); [lia|lia|exact Hb|].
  destruct (add_frame_loop_ok lo hi Hlo Hbig BUDDY_MAX_ORDER h BuddyAllocator_new
    (fun _ => []) [] a hi) as (h1 & self1 & fl1 & Hadd & H1 & _);
    [by apply Rep_new | done | exact Hmod | lia | lia
    | by intros b ?%not_elem_of_nil | done |].
  exists (mkSys h1 self1 []). split; [|done].
  apply (sys_init_intro lo hi h rstart); [done|done|done|].
  unfold BuddyAllocator_add. change (Z.of_nat BUDDY_MAX_ORDER + 11) with 22.
  rewrite Hal, outcome_bind_Ret. exact Hadd.
Qed.

(** ** The properties of the allocator *)



(** [alloc] is exact. On success the block is aligned, disjoint from the
    other held blocks and from what is left free, the free memory is exactly
    what it was minus the block, and no word outside the free memory changes;
    it fails only when no free block of a sufficient order exists, and then
    changes nothing. *)
Theorem Buddy_alloc_exact lo hi h self fl held order :
  0 < lo -> Rep lo hi h self fl held -> (order < BUDDY_MAX_ORDER)%nat ->
  exists r h' self', BuddyAllocator_alloc h self order = Ret (r, h', self') /\
    match r with
    | Some a => exists fl', Rep lo hi h' self' fl' ((a, order) :: held) /\
        a mod order_size order = 0 /\
        (forall x, covered (blocks fl) x <-> in_block (a, order) x \/ covered (blocks fl') x) /\
        (forall x, ~ (in_block (a, order) x /\ covered (blocks fl') x)) /\
        (forall x, ~ covered (blocks fl) x -> h' !! x = h !! x)
    | None => h' = h /\ self' = self /\
        forall j, (order <= j < BUDDY_MAX_ORDER)%nat -> fl j = []
    end.
Proof.
  intros Hlo H Ho. destruct (alloc_ok lo hi Hlo h self fl held order H Ho)
    as (r & h' & self' & Ha & Hp).
  exists r, h', self'. split; [done|]. destruct r as [a|]; [|done].
  destruct Hp as (fl' & H' & Hc & Hf). exists fl'. split; [done|].
  pose proof (rep_wf _ _ _ _ _ _ H') as Hw. simpl in Hw.
  apply wf_cons in Hw as ((_ & Hm & _) & Hd & _). split; [done|]. split; [|split; [|done]].
  - intros x. rewrite <- Hc, covered_cons. done.
  - intros x [Hx (b & Hb & Hbx)]. specialize (Hd b ltac:(apply elem_of_app; by right)).
    unfold in_block in *. destruct Hd; simpl in *; lia.
Qed.

(** A region that is one block, held and then freed. *)
Lemma block_rep_held lo hi o : 0 < lo -> block_ok lo hi (lo, o) -> lo mod 8 = 0 ->
  Rep lo hi (zero_heap lo hi) BuddyAllocator_new (fun _ => []) [(lo, o)].
Proof.
  intros Hlo Hb Hl. apply (Rep_held _ _ _ _ _ []); [by apply Rep_new, mapped_zero|].
  change (blocks (fun _ => [])) with (@nil block).
  apply wf_cons. split; [done|split; [by intros b ?%not_elem_of_nil|split; constructor]].
Qed.

Lemma block_rep lo hi o self : 0 < lo -> block_ok lo hi (lo, o) -> lo mod 8 = 0 ->
  zero_heap lo hi !! lo = Some 0 ->
  (forall h : heap, h !! lo = Some 0 -> fl_push h BuddyAllocator_new o lo = Ret (<[lo := 0]> h, self)) ->
  Rep lo hi (zero_heap lo hi) self (upd (fun _ => []) o [lo]) [].
Proof.
  intros Hlo Hb Hl Hw Hpush.
  destruct (Rep_push lo hi Hlo _ _ _ _ _ _ (block_rep_held lo hi o Hlo Hb Hl)) as (h' & self' & Hp & H' & _).
  rewrite (Hpush _ Hw), (insert_id _ _ _ Hw) in Hp. injection Hp as <- <-. exact H'.
Qed.

(** The example region: one free block of 16 KiB at 8 MiB. *)
Definition ex_heap : heap := zero_heap 8388608 8404992.
Definition ex_buddy : BuddyAllocator := mkBuddy [0; 0; 8388608; 0; 0; 0; 0; 0; 0; 0; 0].
Definition ex_lists : nat -> list Z := upd (fun _ => []) 2 [8388608].

Lemma pool_block : block_ok 8388608 8404992 (8388608, 2%nat).
Proof. unfold block_ok. cbn [fst snd]. split; [unfold BUDDY_MAX_ORDER; lia|]. split; [vm_compute; done|]. split; [lia|vm_compute; done]. Qed.

Lemma ex_rep_held : Rep 8388608 8404992 ex_heap BuddyAllocator_new (fun _ => []) [(8388608, 2%nat)].
Proof. apply block_rep_held; [lia|exact pool_block|done]. Qed.

Lemma ex_rep : Rep 8388608 8404992 ex_heap ex_buddy ex_lists [].
Proof.
  apply block_rep; [lia|exact pool_block|done|vm_compute; done|].
  intros h Hh. unfold fl_push, IntrusiveList_push, store. simpl. by rewrite Hh.
Qed.

Lemma Buddy_alloc_exact_witness :
  exists r h' self', BuddyAllocator_alloc ex_heap ex_buddy 1 = Ret (r, h', self') /\
    match r with
    | Some a => exists fl', Rep 8388608 8404992 h' self' fl' [(a, 1%nat)] /\
        a mod order_size 1 = 0 /\
        (forall x, covered (blocks ex_lists) x <-> in_block (a, 1%nat) x \/ covered (blocks fl') x) /\
        (forall x, ~ (in_block (a, 1%nat) x /\ covered (blocks fl') x)) /\
        (forall x, ~ covered (blocks ex_lists) x -> h' !! x = ex_heap !! x)
    | None => h' = ex_heap /\ self' = ex_buddy /\
        forall j, (1 <= j < BUDDY_MAX_ORDER)%nat -> ex_lists j = []
    end.
Proof.
  apply (Buddy_alloc_exact 8388608 8404992 ex_heap ex_buddy ex_lists [] 1).
  - lia.
  - exact ex_rep.
  - unfold BUDDY_MAX_ORDER. lia.
Defined.

(** [dealloc] is exact up to the top order. Freeing a held block makes the
    free memory what it was plus the block, whatever merging happens, leaves
    every word outside free memory alone, and keeps all invariants; the only
    exception is a block of the top order that becomes free while its buddy is
    free: one of the two then leaves the free lists ([lost]). *)
Theorem Buddy_dealloc_exact lo hi h self fl a o held :
  order_size (BUDDY_MAX_ORDER - 1) < lo -> Rep lo hi h self fl ((a, o) :: held) ->
  exists h' self' fl' lost, BuddyAllocator_dealloc h self a o = Ret (h', self') /\
    Rep lo hi h' self' fl' (lost ++ held) /\
    (forall x, in_block (a, o) x \/ covered (blocks fl) x <->
               covered lost x \/ covered (blocks fl') x) /\
    (lost = [] \/ exists q, lost = [(q, (BUDDY_MAX_ORDER - 1)%nat)] /\
                            fl (BUDDY_MAX_ORDER - 1)%nat <> []) /\
    (forall x, ~ in_block (a, o) x -> ~ covered (blocks fl) x -> h' !! x = h !! x).
Proof.
  intros Hbig H. pose proof (lo_pos lo Hbig) as Hlo.
  destruct (dealloc_ok lo hi Hlo Hbig h self fl a o held H)
    as (h' & self' & fl' & lost & Hd & H' & Hc & Hl & Hf).
  exists h', self', fl', lost. split; [done|]. split; [done|]. split; [|split; [done|]].
  - intros x. rewrite <- covered_cons, <- covered_app. by rewrite Hc.
  - intros x H1 H2. apply Hf. rewrite covered_cons. tauto.
Qed.

Lemma Buddy_dealloc_exact_witness :
  exists h' self' fl' lost,
    BuddyAllocator_dealloc ex_heap BuddyAllocator_new 8388608 2 = Ret (h', self') /\
    Rep 8388608 8404992 h' self' fl' (lost ++ []) /\
    (forall x, in_block (8388608, 2%nat) x \/ covered (blocks (fun _ => [])) x <->
               covered lost x \/ covered (blocks fl') x) /\
    (lost = [] \/ exists q, lost = [(q, (BUDDY_MAX_ORDER - 1)%nat)] /\
                            (@nil Z) <> []) /\
    (forall x, ~ in_block (8388608, 2%nat) x -> ~ covered (blocks (fun _ => [])) x ->
               h' !! x = ex_heap !! x).
Proof.
  apply (Buddy_dealloc_exact 8388608 8404992 ex_heap BuddyAllocator_new (fun _ => [])
    8388608 2 []); [vm_compute; done|exact ex_rep_held].
Defined.

(** Top-order merging loses memory. Two free 4 MiB buddies; allocating one
    and freeing it again leaves a single free block: the allocator has lost
    4 MiB, and the second of two further allocations fails although nothing is
    held. *)
Theorem Buddy_top_order_leak :
  let h0 : heap := {[ 2147483648 := 0; 2151677952 := 0 ]} in
  exists h1 b1 h2 b2 h3 b3 h4 b4 h5 b5,
    BuddyAllocator_add h0 BuddyAllocator_new 2147483648 2155872256 = Ret (h1, b1) /\
    BuddyAllocator_alloc h1 b1 10 = Ret (Some 2151677952, h2, b2) /\
    BuddyAllocator_dealloc h2 b2 2151677952 10 = Ret (h3, b3) /\
    BuddyAllocator_alloc h3 b3 10 = Ret (Some 2147483648, h4, b4) /\
    BuddyAllocator_alloc h4 b4 10 = Ret (None, h5, b5).
Proof. do 10 eexists. repeat split; vm_compute; reflexivity. Qed.

(** Sizes and orders. A request of [size] bytes up to the largest block
    is served by the smallest order that holds it; a larger request is served
    by the largest order. The order of a block's size is the block's order, so
    a frame is returned to the list it came from. *)
Theorem size_to_order_minimal size :
  1 <= size ->
  exists o, size_to_order size = Ret o /\ (o < BUDDY_MAX_ORDER)%nat /\
    (size <= order_size (BUDDY_MAX_ORDER - 1) -> size <= order_size o) /\
    ((0 < o)%nat -> order_size (o - 1) < size) /\
    size_to_order (order_size o) = Ret o.
Proof.
  intros Hs. destruct (size_to_order_ok size Hs) as (o & H1 & H2 & H3 & H4).
  exists o. repeat (split; [done|]). by apply size_to_order_size.
Qed.

Lemma size_to_order_minimal_witness :
  exists o, size_to_order 12288 = Ret o /\ (o < BUDDY_MAX_ORDER)%nat /\
    (12288 <= order_size (BUDDY_MAX_ORDER - 1) -> 12288 <= order_size o) /\
    ((0 < o)%nat -> order_size (o - 1) < 12288) /\
    size_to_order (order_size o) = Ret o.
Proof. apply (size_to_order_minimal 12288). lia. Defined.

(** [alloc_frames] ends, and either gives frames that are disjoint held
    blocks of at least [size] bytes in total, or gives nothing and has returned
    every block it took (up to the top-order loss) with all invariants kept. *)
Theorem alloc_frames_total lo hi h self fl held size :
  order_size (BUDDY_MAX_ORDER - 1) < lo -> Rep lo hi h self fl held -> 0 <= size ->
  exists r h' self', alloc_frames h self size = Ret (r, h', self') /\
    match r with
    | Some out => exists bs fl', Forall2 frame_of out bs /\
        Rep lo hi h' self' fl' (bs ++ held) /\ size <= total out
    | None => exists fl' lost, Rep lo hi h' self' fl' (lost ++ held)
    end.
Proof.
  intros Hbig H Hs. pose proof (lo_pos lo Hbig) as Hlo. unfold alloc_frames.
  destruct (alloc_frames_loop_ok lo hi Hlo Hbig (Z.to_nat size) h self fl held size [] [])
    as (r & h' & self' & Ha & Hp); [done|constructor|lia|].
  exists r, h', self'. split; [done|]. destruct r as [out|]; [|done].
  destruct Hp as (bs & fl' & ? & ? & Ht). exists bs, fl'. split; [done|]. split; [done|].
  unfold total in Ht at 1. simpl in Ht. lia.
Qed.

Lemma alloc_frames_total_witness :
  exists r h' self', alloc_frames ex_heap ex_buddy 8192 = Ret (r, h', self') /\
    match r with
    | Some out => exists bs fl', Forall2 frame_of out bs /\
        Rep 8388608 8404992 h' self' fl' (bs ++ []) /\ 8192 <= total out
    | None => exists fl' lost, Rep 8388608 8404992 h' self' fl' (lost ++ [])
    end.
Proof.
  apply (alloc_frames_total 8388608 8404992 ex_heap ex_buddy ex_lists [] 8192);
    [vm_compute; done|exact ex_rep|lia].
Defined.

(** [add] gives the allocator every whole page of the range from its
    first 4 MiB boundary on, and nothing else. *)
Theorem Buddy_add_exact lo hi h rstart :
  order_size (BUDDY_MAX_ORDER - 1) < lo -> mapped lo hi h -> lo <= rstart ->
  rstart + order_size (BUDDY_MAX_ORDER - 1) < 2 ^ 64 ->
  exists a h' self fl, BuddyAllocator_add h BuddyAllocator_new rstart hi = Ret (h', self) /\
    a mod order_size (BUDDY_MAX_ORDER - 1) = 0 /\
    rstart <= a < rstart + order_size (BUDDY_MAX_ORDER - 1) /\
    Rep lo hi h' self fl [] /\
    forall x, covered (blocks fl) x <-> a <= x < a + (hi - a) / PAGE_SIZE * PAGE_SIZE.
Proof.
  intros Hbig Hm Hl Hb. pose proof (lo_pos lo Hbig) as Hlo.
  destruct (align_ok rstart 22) as (a & Hal & Hmod & Ha2); [lia|lia|exact Hb|].
  destruct (add_frame_loop_ok lo hi Hlo Hbig BUDDY_MAX_ORDER h BuddyAllocator_new
    (fun _ => []) [] a hi) as (h1 & self1 & fl1 & Hadd & H1 & Hc);
    [by apply Rep_new | done | exact Hmod | lia | lia
    | by intros b ?%not_elem_of_nil | done |].
  exists a, h1, self1, fl1. split; [|split; [exact Hmod|split; [exact Ha2|split; [done|]]]].
  - unfold BuddyAllocator_add. change (Z.of_nat BUDDY_MAX_ORDER + 11) with 22.
    rewrite Hal, outcome_bind_Ret. exact Hadd.
  - intros x. rewrite Hc. split; [|tauto]. intros [(b & Hb' & _)|]; [|done].
    by apply not_elem_of_nil in Hb'.
Qed.

Lemma Buddy_add_exact_witness :
  exists a h' self fl,
    BuddyAllocator_add ex_heap BuddyAllocator_new 8388608 8404992 = Ret (h', self) /\
    a mod order_size (BUDDY_MAX_ORDER - 1) = 0 /\
    8388608 <= a < 8388608 + order_size (BUDDY_MAX_ORDER - 1) /\
    Rep 8388608 8404992 h' self fl [] /\
    forall x, covered (blocks fl) x <-> a <= x < a + (8404992 - a) / PAGE_SIZE * PAGE_SIZE.
Proof.
  apply (Buddy_add_exact 8388608 8404992 ex_heap 8388608);
    [vm_compute; done | by apply mapped_zero | lia | vm_compute; done].
Defined.
