(* ===== verification/Trie.v ===== *)
(** * Trie: the prefix tree of [crates/athera-trie]

    A node has an optional value and an ordered map of children; keys are
    sequences of elements. The reference view of a tree is the ordered map of
    its entries, keys compared lexicographically: insertion, removal, lookup,
    longest-prefix match and the depth-first iterators are shown to be the
    corresponding operations on that map. *)

From S2P Require Import Prelude OrdMap.

(** ** Nodes *)

Inductive Node (K V : Type) : Type :=
| mkNode (children : list (K * Node K V)) (value : option V).
Arguments mkNode {K V} _ _.

Definition children {K V} (n : Node K V) : list (K * Node K V) :=
  match n with mkNode ch _ => ch end.
Definition value {K V} (n : Node K V) : option V := match n with mkNode _ v => v end.

Definition Node_default {K V} : Node K V := mkNode [] None.

Definition Node_is_prunable {K V} (n : Node K V) : bool :=
  match value n, children n with None, [] => true | _, _ => false end.

Fixpoint Node_count {K V} (n : Node K V) : Z :=
  match n with
  | mkNode ch v =>
      match v with Some _ => 1 | None => 0 end +
      (fix go (l : list (K * Node K V)) : Z :=
         match l with [] => 0 | (_, c) :: l => Node_count c + go l end) ch
  end.

Fixpoint Node_has_entry {K V} (n : Node K V) : bool :=
  match n with
  | mkNode ch v =>
      match v with Some _ => true | None => false end ||
      (fix go (l : list (K * Node K V)) : bool :=
         match l with [] => false | (_, c) :: l => Node_has_entry c || go l end) ch
  end.

Record Trie (K V : Type) : Type := mkTrie { root : Node K V; tlen : Z }.
Arguments mkTrie {K V} _ _.
Arguments root {K V} _.
Arguments tlen {K V} _.

(** ** The iterator's stack *)

Record IFrame (K V : Type) : Type := mkIFrame {
  if_node : Node K V;
  if_children : list (K * Node K V);
  if_emitted : bool
}.
Arguments mkIFrame {K V} _ _ _.
Arguments if_node {K V} _.
Arguments if_children {K V} _.
Arguments if_emitted {K V} _.

(** [frames] has the top of the stack first. *)
Record Iter (K V : Type) : Type := mkTrieIter {
  frames : list (IFrame K V);
  path : list K;
  remaining : Z
}.
Arguments mkTrieIter {K V} _ _ _.
Arguments frames {K V} _.
Arguments path {K V} _.
Arguments remaining {K V} _.

Section Operations.
Context {K V : Type} `{Ord K}.

Definition Trie_new : Trie K V := mkTrie (mkNode [] None) 0.

Definition Trie_is_empty (self : Trie K V) : bool := tlen self =? 0.

Definition Trie_clear (self : Trie K V) : Trie K V := mkTrie (mkNode [] None) 0.

(** [node_of]: walk down from [node] along [key]. *)
Fixpoint node_of (node : Node K V) (key : list K) : option (Node K V) :=
  match key with
  | [] => Some node
  | k :: key =>
      match om_get k (children node) with
      | Some child => node_of child key
      | None => None
      end
  end.

Definition Trie_get (self : Trie K V) (key : list K) : option V :=
  match node_of (root self) key with Some n => value n | None => None end.

(** A write through [get_mut]: replace the value found by [f] of it. *)
Fixpoint modify_at (f : V -> V) (node : Node K V) (key : list K) : Node K V :=
  match key with
  | [] => mkNode (children node) (f <$> value node)
  | k :: key =>
      mkNode (om_modify (fun c => modify_at f c key) k (children node)) (value node)
  end.

Definition Trie_get_mut (f : V -> V) (self : Trie K V) (key : list K) : Trie K V :=
  mkTrie (modify_at f (root self) key) (tlen self).

Definition Trie_contains_key (self : Trie K V) (key : list K) : bool :=
  match Trie_get self key with Some _ => true | None => false end.

Fixpoint remove_at (node : Node K V) (key : list K) : option V * Node K V :=
  match key with
  | [] => (value node, mkNode (children node) None)
  | first :: rest =>
      match om_get first (children node) with
      | None => (None, node)
      | Some child =>
          let (old, child') := remove_at child rest in
          let ch := om_modify (fun _ => child') first (children node) in
          match old with
          | None => (None, mkNode ch (value node))
          | Some old =>
              let ch := if match om_get first ch with
                           | Some c => Node_is_prunable c
                           | None => false
                           end
                        then om_remove first ch else ch in
              (Some old, mkNode ch (value node))
          end
      end
  end.

Definition Trie_remove (self : Trie K V) (key : list K) : outcome (option V * Trie K V) :=
  let (old, root) := remove_at (root self) key in
  match old with
  | Some _ => len ← usize_sub (tlen self) 1; mret (old, mkTrie root len)
  | None => mret (old, mkTrie root (tlen self))
  end.

(** The loop of [longest_prefix] from depth [i]. *)
Fixpoint longest_loop (node : Node K V) (key : list K) (i : nat) (best : option (nat * V))
    : option (nat * V) :=
  match key with
  | [] => best
  | k :: key =>
      match om_get k (children node) with
      | None => best
      | Some child =>
          let best := match value child with Some v => Some (S i, v) | None => best end in
          longest_loop child key (S i) best
      end
  end.

Definition Trie_longest_prefix (self : Trie K V) (key : list K) : option (list K * V) :=
  let best := match value (root self) with Some v => Some (0%nat, v) | None => None end in
  match longest_loop (root self) key 0 best with
  | Some (depth, v) => Some (take depth key, v)
  | None => None
  end.

Definition Trie_contains_prefix (self : Trie K V) (prefix : list K) : bool :=
  match node_of (root self) prefix with Some n => Node_has_entry n | None => false end.

(** [insert]: [entry(k).or_default()] along the key, then [value.replace]. *)
Fixpoint insert_at (node : Node K V) (key : list K) (v : V) : option V * Node K V :=
  match key with
  | [] => (value node, mkNode (children node) (Some v))
  | k :: key =>
      let child := default Node_default (om_get k (children node)) in
      let (old, child) := insert_at child key v in
      (old, mkNode (om_insert k child (children node)) (value node))
  end.

Definition Trie_insert (self : Trie K V) (key : list K) (v : V)
    : outcome (option V * Trie K V) :=
  let (old, root) := insert_at (root self) key v in
  match old with
  | None => len ← usize_add (tlen self) 1; mret (old, mkTrie root len)
  | Some _ => mret (old, mkTrie root (tlen self))
  end.

Definition Iter_new (root : Node K V) (p : list K) (rem : Z) : Iter K V :=
  mkTrieIter [mkIFrame root (children root) false] p rem.

Definition Iter_empty : Iter K V := mkTrieIter [] [] 0.

Definition Trie_iter (self : Trie K V) : Iter K V := Iter_new (root self) [] (tlen self).

Definition Trie_iter_prefix (self : Trie K V) (prefix : list K) : Iter K V :=
  match node_of (root self) prefix with
  | Some node => Iter_new node prefix (Node_count node)
  | None => Iter_empty
  end.

(** [Vec::pop] on the path. *)
Definition vec_pop (l : list K) : list K := take (length l - 1) l.

(** The loop of [Iter::next]. *)
Fixpoint Iter_next_loop (fuel : nat) (self : Iter K V)
    : outcome (option (list K * V) * Iter K V) :=
  match fuel with
  | O => Panic
  | S fuel =>
      match frames self with
      | [] => mret (None, self)
      | frame :: below =>
          let descend :=
            match if_children frame with
            | (k, child) :: rest =>
                Iter_next_loop fuel
                  (mkTrieIter (mkIFrame child (children child) false ::
                               mkIFrame (if_node frame) rest true :: below)
                     (path self ++ [k]) (remaining self))
            | [] => Iter_next_loop fuel (mkTrieIter below (vec_pop (path self)) (remaining self))
            end in
          if negb (if_emitted frame) then
            match value (if_node frame) with
            | Some v =>
                rem ← usize_sub (remaining self) 1;
                mret (Some (path self, v),
                      mkTrieIter (mkIFrame (if_node frame) (if_children frame) true :: below)
                        (path self) rem)
            | None => descend
            end
          else descend
      end
  end.

(** Number of nodes of a subtree, and a bound on the iterations of [next]. *)
Fixpoint node_size {K V} (n : Node K V) : nat :=
  match n with
  | mkNode ch _ =>
      S ((fix go (l : list (K * Node K V)) : nat :=
            match l with [] => 0 | (_, c) :: l => node_size c + go l end) ch)
  end%nat.

Definition sizes {K V} (ch : list (K * Node K V)) : nat :=
  foldr (fun e acc => node_size e.2 + acc)%nat 0%nat ch.

Definition iter_bound {K V} (fs : list (IFrame K V)) : nat :=
  foldr (fun f acc => S (2 * sizes (if_children f)) + acc)%nat 0%nat fs.

Definition Iter_next (self : Iter K V) : outcome (option (list K * V) * Iter K V) :=
  Iter_next_loop (S (iter_bound (frames self))) self.

(** [Iterator::collect]. *)
Fixpoint Iter_collect (fuel : nat) (self : Iter K V) : outcome (list (list K * V)) :=
  match fuel with
  | O => Panic
  | S fuel =>
      '(r, self) ← Iter_next self;
      match r with
      | None => mret []
      | Some e => rest ← Iter_collect fuel self; mret (e :: rest)
      end
  end.

Definition Iter_size_hint (self : Iter K V) : Z * option Z :=
  (remaining self, Some (remaining self)).

Definition Iter_len (self : Iter K V) : Z := remaining self.

End Operations.

(** ** The entries of a tree *)

Section Entries.
Context {K V : Type} `{HO : Ord K} `{HE : EqDecision K}.
Implicit Types (n : Node K V) (ch : list (K * Node K V)) (key : list K).

(** Induction on nodes through their children. *)
Lemma Node_ind' (P : Node K V -> Prop) :
  (forall ch v, (forall k c, (k, c) ∈ ch -> P c) -> P (mkNode ch v)) -> forall n, P n.
Proof using.
  intros Hstep. fix IH 1. intros [ch v]. apply Hstep.
  assert (Hall : Forall (fun e : K * Node K V => P e.2) ch).
  { induction ch as [|[k c] ch IHch]; constructor; [apply IH|done]. }
  intros k c Hin. rewrite Forall_forall in Hall. by apply (Hall (k, c)).
Qed.

Definition under (k : K) (e : list K * V) : list K * V := (k :: e.1, e.2).

Definition own (v : option V) : list (list K * V) :=
  match v with Some v => [([], v)] | None => [] end.

Fixpoint entries (n : Node K V) : list (list K * V) :=
  match n with
  | mkNode ch v =>
      own v ++
      (fix go (l : list (K * Node K V)) : list (list K * V) :=
         match l with [] => [] | (k, c) :: l => (under k <$> entries c) ++ go l end) ch
  end.

Definition ch_entries ch : list (list K * V) :=
  concat ((fun e : K * Node K V => under e.1 <$> entries e.2) <$> ch).

Lemma entries_eq n : entries n = own (value n) ++ ch_entries (children n).
Proof using.
  destruct n as [ch v]. cbn [entries value children]. f_equal.
  unfold ch_entries. induction ch as [|[k c] ch IH]; [done|]. rewrite fmap_cons. simpl.
  by rewrite IH.
Qed.

Lemma ch_entries_cons k c ch :
  ch_entries ((k, c) :: ch) = (under k <$> entries c) ++ ch_entries ch.
Proof using. done. Qed.

Lemma count_entries n : Node_count n = Z.of_nat (length (entries n)).
Proof using.
  induction n as [ch v IH] using Node_ind'. rewrite entries_eq, length_app. simpl.
  assert (E : forall v : option V, match v with Some _ => 1 | None => 0 end =
    Z.of_nat (length (own v))) by (by intros []).
  rewrite Nat2Z.inj_add, E. f_equal. induction ch as [|[k c] ch IHch]; [done|].
  rewrite ch_entries_cons, length_app, length_fmap, Nat2Z.inj_add.
  rewrite (IH k c) by left. f_equal. apply IHch. intros k' c' Hin. apply (IH k'). by right.
Qed.

Lemma has_entry_entries n : Node_has_entry n = true <-> entries n <> [].
Proof using.
  induction n as [ch v IH] using Node_ind'. rewrite entries_eq. simpl.
  destruct v as [v|]; simpl; [done|].
  induction ch as [|[k c] ch IHch]; [done|].
  rewrite ch_entries_cons, orb_true_iff, (IH k c) by left.
  rewrite IHch by (intros k' c' Hin; apply (IH k'); by right).
  destruct (entries c); simpl; naive_solver.
Qed.

(** The children are ordered maps all the way down, and no branch is empty. *)
Inductive node_ok : Node K V -> Prop :=
| node_ok_intro ch v : om_ok ch ->
    (forall k c, (k, c) ∈ ch -> node_ok c) ->
    (forall k c, (k, c) ∈ ch -> Node_is_prunable c = false) ->
    node_ok (mkNode ch v).

Lemma node_ok_inv n : node_ok n ->
  om_ok (children n) /\
  forall k c, om_get k (children n) = Some c -> node_ok c /\ Node_is_prunable c = false.
Proof using.
  intros [ch v Hok Hch Hp]. split; [done|]. simpl. intros k c Hget.
  apply om_get_elem in Hget; [|done]. split; [by apply (Hch k)|by apply (Hp k)].
Qed.

(** A branch that is not empty holds an entry. *)
Lemma node_ok_entry n : node_ok n -> Node_is_prunable n = false -> entries n <> [].
Proof using.
  induction 1 as [ch v Hok Hch IH Hp]. intros Hnp. rewrite entries_eq. simpl.
  destruct v as [v|]; [done|]. destruct ch as [|[k c] ch]; [done|].
  rewrite ch_entries_cons. simpl.
  assert (entries c <> []) by (apply (IH k); [left|apply (Hp k); left]).
  by destruct (entries c).
Qed.

(** *** The entries are an ordered map *)

Lemma elem_of_entries n key v :
  (key, v) ∈ entries n <->
  (key = [] /\ value n = Some v) \/
  exists k c rest, key = k :: rest /\ (k, c) ∈ children n /\ (rest, v) ∈ entries c.
Proof using.
  rewrite entries_eq, elem_of_app. unfold ch_entries.
  assert (E : (key, v) ∈ own (value n) <-> key = [] /\ value n = Some v).
  { destruct (value n) as [w|]; simpl.
    - rewrite list_elem_of_singleton. naive_solver.
    - split; [by intros ?%not_elem_of_nil|naive_solver]. }
  rewrite E. apply or_iff_compat_l. rewrite list_elem_of_In, in_concat.
  setoid_rewrite <- list_elem_of_In. split.
  - intros (l & Hl & Hin). apply list_elem_of_fmap in Hl as ([k c] & -> & Hkc).
    apply list_elem_of_fmap in Hin as ([rest w] & [= -> ->] & Hin). eauto 8.
  - intros (k & c & rest & -> & Hkc & Hin). eexists. split.
    + apply list_elem_of_fmap. exists (k, c). eauto.
    + apply list_elem_of_fmap. exists (rest, v). eauto.
Qed.

Lemma under_ok k (l : list (list K * V)) : om_ok l -> om_ok (under k <$> l).
Proof using.
  induction l as [|[key v] l IH]; intros Hok; [constructor|].
  apply om_ok_cons in Hok as [Hok Hlt]. rewrite fmap_cons. unfold under at 1. simpl.
  apply om_ok_cons. split; [by apply IH|].
  intros key' v' Hin. apply list_elem_of_fmap in Hin as ([key2 v2] & [= -> ->] & Hin).
  apply Hlt in Hin. unfold klt in *. simpl. by rewrite cmp_refl.
Qed.

Lemma om_ok_app (l1 l2 : list (list K * V)) : om_ok l1 -> om_ok l2 ->
  (forall k1 v1 k2 v2, (k1, v1) ∈ l1 -> (k2, v2) ∈ l2 -> klt k1 k2) -> om_ok (l1 ++ l2).
Proof using.
  intros H1 H2 Hlt. induction l1 as [|[k v] l1 IH]; [done|]. simpl.
  apply om_ok_cons in H1 as [H1 Hk]. apply om_ok_cons. split.
  - apply IH; [done|]. intros k1 v1 k2 v2 Hin1 Hin2. apply (Hlt k1 v1 k2 v2); [by right|done].
  - intros k' v' [Hin|Hin]%elem_of_app; [by apply (Hk k' v')|].
    apply (Hlt k v k' v'); [left|done].
Qed.

Lemma entries_ok n : node_ok n -> om_ok (entries n).
Proof using.
  induction 1 as [ch v Hok Hch IH Hp]. rewrite entries_eq. simpl. apply om_ok_app.
  - destruct v; [|constructor]. apply om_ok_cons. split; [constructor|].
    by intros ? ? ?%not_elem_of_nil.
  - clear Hp. induction ch as [|[k c] ch IHch]; [constructor|]. rewrite ch_entries_cons.
    apply om_ok_cons in Hok as [Hok Hlt]. apply om_ok_app.
    + apply under_ok, (IH k). left.
    + apply IHch; [done| |]; intros k' c' Hin; [apply (Hch k')|apply (IH k')]; by right.
    + intros k1 v1 k2 v2 H1 H2.
      apply list_elem_of_fmap in H1 as ([key w] & [= -> ->] & H1).
      unfold ch_entries in H2. apply list_elem_of_In, in_concat in H2 as (l & Hl & H2).
      apply list_elem_of_In, list_elem_of_fmap in Hl as ([k' c'] & -> & Hl).
      apply list_elem_of_In, list_elem_of_fmap in H2 as ([key' w'] & [= -> ->] & H2).
      apply Hlt in Hl. unfold klt in *. simpl. by rewrite Hl.
  - intros k1 v1 k2 v2 H1 H2. destruct v as [v|]; [|by apply not_elem_of_nil in H1].
    apply list_elem_of_singleton in H1 as [= -> ->].
    unfold ch_entries in H2. apply list_elem_of_In, in_concat in H2 as (l & Hl & H2).
    apply list_elem_of_In, list_elem_of_fmap in Hl as ([k' c'] & -> & Hl).
    by apply list_elem_of_In, list_elem_of_fmap in H2 as ([key' w'] & [= -> ->] & H2).
Qed.

(** Looking a key up in the tree is looking it up in the map of entries. *)
Definition lookup_at n key : option V :=
  match node_of n key with Some m => value m | None => None end.

Lemma lookup_cons n k key : lookup_at n (k :: key) =
  match om_get k (children n) with Some c => lookup_at c key | None => None end.
Proof using. unfold lookup_at. simpl. by destruct (om_get k (children n)). Qed.

Lemma lookup_elem n key v : node_ok n -> lookup_at n key = Some v <-> (key, v) ∈ entries n.
Proof using.
  intros Hok. revert key. induction Hok as [ch w Hok Hch IH Hp]. intros key.
  rewrite elem_of_entries. simpl. destruct key as [|k key].
  - unfold lookup_at. simpl. naive_solver.
  - rewrite lookup_cons. simpl. destruct (om_get k ch) as [c|] eqn:E.
    + pose proof E as Hin. apply om_get_elem in Hin; [|done]. rewrite (IH k c Hin). split.
      * intros Hv. right. eauto 6.
      * intros [[? _]|(k' & c' & rest & [= <- <-] & Hin' & Hv)]; [done|].
        apply om_get_elem in Hin'; [|done]. congruence.
    + split; [done|]. intros [[? _]|(k' & c' & rest & [= <- <-] & Hin' & Hv)]; [done|].
      apply om_get_elem in Hin'; [|done]. congruence.
Qed.

Lemma lookup_entries n key : node_ok n -> lookup_at n key = om_get key (entries n).
Proof using HE.
  intros Hok. pose proof (entries_ok n Hok) as Ho.
  destruct (om_get key (entries n)) as [v|] eqn:E.
  - apply lookup_elem; [done|]. by apply om_get_elem.
  - destruct (lookup_at n key) as [v|] eqn:E2; [|done].
    apply lookup_elem in E2; [|done]. apply om_get_elem in E2; [|done]. congruence.
Qed.

(** *** Insertion *)

Lemma insert_not_prunable n key v : Node_is_prunable (insert_at n key v).2 = false.
Proof using.
  destruct key as [|k key]; simpl; [done|].
  destruct (insert_at _ key v) as [old c]. unfold Node_is_prunable. simpl.
  destruct (value n); [done|]. destruct (children n) as [|[k' c'] ch]; simpl; [done|].
  by destruct (cmp k k').
Qed.

Lemma insert_at_ok n key v : node_ok n ->
  (insert_at n key v).1 = lookup_at n key /\ node_ok (insert_at n key v).2 /\
  forall key', lookup_at (insert_at n key v).2 key' =
    if decide (key' = key) then Some v else lookup_at n key'.
Proof using HE.
  revert n. induction key as [|k key IH]; intros n Hok; simpl.
  - split; [done|]. destruct Hok as [ch w Hch H1 H2]. split; [by constructor|].
    intros [|k key']; [done|]. by rewrite decide_False by done.
  - pose proof (insert_not_prunable (default Node_default (om_get k (children n))) key v) as Hnp.
    destruct (node_ok_inv n Hok) as [Hch Hsub].
    assert (Hc : node_ok (default Node_default (om_get k (children n)))).
    { destruct (om_get k (children n)) as [c|] eqn:E; [by apply (Hsub k c)|].
      constructor; [constructor|..]; by intros ? ? ?%not_elem_of_nil. }
    destruct (IH _ Hc) as (Hold & Hok' & Hlook).
    destruct (insert_at _ key v) as [old c'] eqn:Ei. simpl in *. split; [|split].
    + rewrite Hold, lookup_cons. destruct (om_get k (children n)) as [c|]; [done|].
      by destruct key.
    + constructor; [by apply om_insert_ok|..]; intros k2 c2 Hin;
        apply elem_of_om_insert in Hin as [[-> ->]|[Hne Hin]]; try done;
        apply om_get_elem in Hin; try done; by destruct (Hsub _ _ Hin).
    + intros [|k2 key2]; [by rewrite decide_False by done|].
      rewrite !lookup_cons. simpl. rewrite om_get_insert by done.
      destruct (decide (k2 = k)) as [->|Hne].
      * rewrite Hlook. destruct (decide (key2 = key)) as [->|Hne].
        -- by rewrite decide_True by done.
        -- rewrite decide_False by congruence.
           destruct (om_get k (children n)); [done|]. by destruct key2.
      * by rewrite decide_False by congruence.
Qed.

(** *** Removal *)

Lemma remove_at_ok n key : node_ok n ->
  (remove_at n key).1 = lookup_at n key /\ node_ok (remove_at n key).2 /\
  (forall key', lookup_at (remove_at n key).2 key' =
    if decide (key' = key) then None else lookup_at n key') /\
  ((remove_at n key).1 = None -> (remove_at n key).2 = n).
Proof using HE.
  revert n. induction key as [|k key IH]; intros n Hok; simpl.
  - split; [done|]. destruct Hok as [ch w Hch H1 H2]. split; [by constructor|]. split.
    + intros [|k key']; [done|]. by rewrite decide_False by done.
    + simpl. by intros ->.
  - destruct (node_ok_inv n Hok) as [Hch Hsub].
    rewrite lookup_cons. destruct (om_get k (children n)) as [c|] eqn:E.
    2: { split; [done|]. split; [done|]. split; [|done]. intros key'. simpl.
         destruct (decide (key' = k :: key)) as [->|]; [|done].
         by rewrite lookup_cons, E. }
    destruct (Hsub _ _ E) as [Hc Hcp]. destruct (IH _ Hc) as (Hold & Hok' & Hlook & Hsame).
    destruct (remove_at c key) as [old c'] eqn:Er. simpl in *.
    pose proof (om_modify_ok (fun _ => c') k (children n) Hch) as Hmod.
    assert (Hget : forall k', om_get k' (om_modify (fun _ => c') k (children n)) =
      if decide (k' = k) then Some c' else om_get k' (children n)).
    { intros k'. rewrite om_get_modify by done. by rewrite E. }
    destruct old as [o|].
    + rewrite Hget, decide_True by done. split; [done|].
      set (ch2 := if Node_is_prunable c'
                  then om_remove k (om_modify (fun _ => c') k (children n))
                  else om_modify (fun _ => c') k (children n)).
      assert (Hok2 : om_ok ch2) by (subst ch2; destruct (Node_is_prunable c'); auto with athera).
      assert (Hget2 : forall k', om_get k' ch2 =
        if decide (k' = k) then if Node_is_prunable c' then None else Some c'
        else om_get k' (children n)).
      { intros k'. subst ch2. destruct (Node_is_prunable c').
        - rewrite om_get_remove, Hget by done. by destruct (decide (k' = k)).
        - apply Hget. }
      split; [|split; [|done]].
      * constructor; [done|..]; intros k2 c2 Hin; apply om_get_elem in Hin; try done;
          rewrite Hget2 in Hin; destruct (decide (k2 = k)) as [->|].
        all: try (by destruct (Hsub _ _ Hin)).
        all: destruct (Node_is_prunable c') eqn:Ep; [done|]; injection Hin as <-; done.
      * intros [|k2 key2]; [by rewrite decide_False by done|].
        rewrite !lookup_cons. simpl. rewrite Hget2.
        destruct (decide (k2 = k)) as [->|Hne]; [|by rewrite decide_False by congruence].
        rewrite E. specialize (Hlook key2).
        assert (Hl : (match (if Node_is_prunable c' then None else Some c') with
          Some c => lookup_at c key2 | None => None end) = lookup_at c' key2).
        { destruct (Node_is_prunable c') eqn:Ep; [|done]. unfold Node_is_prunable in Ep.
          destruct c' as [ch' v']. simpl in Ep. destruct v', ch'; try done. by destruct key2. }
        rewrite Hl, Hlook. destruct (decide (key2 = key)) as [->|].
        -- by rewrite decide_True by done.
        -- by rewrite decide_False by congruence.
    + split; [done|]. rewrite (Hsame eq_refl) in *.
      assert (om_modify (fun _ => c) k (children n) = children n) as Em.
      { apply om_ext; [done|done|]. intros k'. rewrite Hget.
        by destruct (decide (k' = k)) as [->|]. }
      rewrite Em. assert (mkNode (children n) (value n) = n) as -> by (by destruct n).
      split; [done|]. split; [|done]. intros key'.
      destruct (decide (key' = k :: key)) as [->|]; [|done].
      simpl. by rewrite lookup_cons, E, <- Hold.
Qed.

(** ** The tree as an ordered map *)

Record Trie_ok (t : Trie K V) : Prop := {
  to_node : node_ok (root t);
  to_len : tlen t = Z.of_nat (length (entries (root t)))
}.

Lemma Trie_get_ok t key : Trie_ok t -> Trie_get t key = om_get key (entries (root t)).
Proof using HE. intros [H _]. by apply lookup_entries. Qed.

Lemma entries_insert n key v : node_ok n ->
  entries (insert_at n key v).2 = om_insert key v (entries n).
Proof using HE.
  intros Hok. destruct (insert_at_ok n key v Hok) as (_ & Hok' & Hl).
  apply om_ext; [by apply entries_ok|by apply om_insert_ok, entries_ok|].
  intros key'. rewrite om_get_insert by by apply entries_ok.
  rewrite <- !lookup_entries by done. apply Hl.
Qed.

Lemma entries_remove n key : node_ok n ->
  entries (remove_at n key).2 = om_remove key (entries n).
Proof using HE.
  intros Hok. destruct (remove_at_ok n key Hok) as (_ & Hok' & Hl & _).
  apply om_ext; [by apply entries_ok|by apply om_remove_ok, entries_ok|].
  intros key'. rewrite om_get_remove by by apply entries_ok.
  rewrite <- !lookup_entries by done. apply Hl.
Qed.

Lemma Trie_insert_ok t key v : Trie_ok t -> tlen t + 1 < 2 ^ 64 ->
  exists t', Trie_insert t key v = Ret (om_get key (entries (root t)), t') /\ Trie_ok t' /\
    entries (root t') = om_insert key v (entries (root t)).
Proof using HE.
  intros [Hok Hlen] Hb. destruct (insert_at_ok (root t) key v Hok) as (Hold & Hok' & _).
  pose proof (entries_insert (root t) key v Hok) as He.
  pose proof (om_insert_length key v _ (entries_ok _ Hok)) as Hl. rewrite <- He in Hl.
  rewrite lookup_entries in Hold by done. unfold Trie_insert.
  destruct (insert_at (root t) key v) as [old n']. simpl in *. subst old.
  destruct (om_get key (entries (root t))).
  - eexists. split; [done|]. split; [split; simpl; [done|lia]|done].
  - unfold usize_add. destruct (Z.ltb_spec (tlen t + 1) (2 ^ 64)); [|lia].
    eexists. split; [done|]. split; [split; simpl; [done|lia]|done].
Qed.

Lemma Trie_remove_ok t key : Trie_ok t ->
  exists t', Trie_remove t key = Ret (om_get key (entries (root t)), t') /\ Trie_ok t' /\
    entries (root t') = om_remove key (entries (root t)).
Proof using HE.
  intros [Hok Hlen]. destruct (remove_at_ok (root t) key Hok) as (Hold & Hok' & _ & _).
  pose proof (entries_remove (root t) key Hok) as He.
  pose proof (om_remove_length key _ (entries_ok _ Hok)) as Hl. rewrite <- He in Hl.
  rewrite lookup_entries in Hold by done. unfold Trie_remove.
  destruct (remove_at (root t) key) as [old n']. simpl in *. subst old.
  destruct (om_get key (entries (root t))) as [v|] eqn:Eg.
  - unfold usize_sub. assert (1 <= tlen t).
    { destruct (entries (root t)); [done|]. simpl in Hlen. lia. }
    destruct (Z.leb_spec 1 (tlen t)); [|lia].
    eexists. split; [done|]. split; [split; simpl; [done|lia]|done].
  - eexists. split; [done|]. split; [split; simpl; [done|lia]|done].
Qed.

(** *** Longest prefix *)

(** The depths from 1 on at which the walk from [n] along [key] meets a value. *)
Lemma longest_loop_ok key n i best :
  (exists d v, (1 <= d <= length key)%nat /\ lookup_at n (take d key) = Some v /\
     longest_loop n key i best = Some ((i + d)%nat, v) /\
     forall d', (d < d' <= length key)%nat -> lookup_at n (take d' key) = None) \/
  (longest_loop n key i best = best /\
     forall d', (1 <= d' <= length key)%nat -> lookup_at n (take d' key) = None).
Proof using.
  revert n i best. induction key as [|k key IH]; intros n i best; cbn [longest_loop].
  { right. split; [done|]. simpl. lia. }
  destruct (om_get k (children n)) as [c|] eqn:E.
  2: { right. split; [done|]. intros [|d'] Hd; [lia|]. simpl. by rewrite lookup_cons, E. }
  assert (Hc : forall d, lookup_at n (take (S d) (k :: key)) = lookup_at c (take d key)).
  { intros d. simpl. by rewrite lookup_cons, E. }
  destruct (IH c (S i) (match value c with Some v => Some (S i, v) | None => best end))
    as [(d & v & Hd & Hv & -> & Hmax)|[-> Hnone]].
  - left. exists (S d), v. simpl length. split; [lia|]. split; [by rewrite Hc|].
    split; [do 2 f_equal; lia|]. intros [|d'] Hd'; [lia|]. rewrite Hc. apply Hmax. lia.
  - destruct (value c) as [v|] eqn:Ev.
    + left. exists 1%nat, v. simpl length. split; [lia|]. rewrite Hc.
      split; [by unfold lookup_at|]. split; [do 2 f_equal; lia|].
      intros [|d'] Hd'; [lia|]. rewrite Hc. apply Hnone. lia.
    + right. split; [done|]. intros [|[|d']] Hd'; [lia| |].
      * rewrite Hc. by unfold lookup_at.
      * rewrite Hc. apply Hnone. simpl in Hd'. lia.
Qed.

(** *** Iteration *)

(** Entries of a subtree whose root is at [p]. *)
Definition at_path (p : list K) (e : list K * V) : list K * V := (p ++ e.1, e.2).

(** What a stack of frames still has to yield when the top node is at [p]. *)
Definition frame_pending (p : list K) (f : IFrame K V) : list (list K * V) :=
  at_path p <$> ((if if_emitted f then [] else own (value (if_node f))) ++
                 ch_entries (if_children f)).

Fixpoint pending (p : list K) (fs : list (IFrame K V)) : list (list K * V) :=
  match fs with
  | [] => []
  | f :: fs => frame_pending p f ++ pending (vec_pop p) fs
  end.

Lemma vec_pop_app (p : list K) k : vec_pop (p ++ [k]) = p.
Proof using.
  unfold vec_pop. rewrite length_app. simpl. rewrite Nat.add_sub. apply take_app_length.
Qed.

Lemma frame_pending_child p k c :
  frame_pending (p ++ [k]) (mkIFrame c (children c) false) =
  at_path p <$> (under k <$> entries c).
Proof using.
  unfold frame_pending. simpl. rewrite <- entries_eq, <- list_fmap_compose.
  apply list_fmap_ext. intros i [key v] _. unfold at_path, under. simpl.
  by rewrite <- app_assoc.
Qed.

Lemma node_size_sizes n : node_size n = S (sizes (children n)).
Proof using.
  destruct n as [ch v]. cbn [node_size children]. f_equal.
  induction ch as [|[k c] ch IH]; [done|]. simpl. by rewrite IH.
Qed.

Lemma Iter_next_loop_ok fuel (it : Iter K V) :
  (iter_bound (frames it) < fuel)%nat ->
  remaining it = Z.of_nat (length (pending (path it) (frames it))) ->
  exists it', Iter_next_loop fuel it =
      Ret (head (pending (path it) (frames it)), it') /\
    pending (path it') (frames it') = tail (pending (path it) (frames it)) /\
    remaining it' = Z.of_nat (length (pending (path it') (frames it'))).
Proof using.
  revert it. induction fuel as [|fuel IH]; intros [fs p rem] Hf Hrem; [lia|]. simpl in *.
  destruct fs as [|[n rest em] fs]; simpl in *.
  { eexists. split; [done|]. done. }
  set (descend := match rest with
    | [] => Iter_next_loop fuel (mkTrieIter fs (vec_pop p) rem)
    | (k, child) :: rest0 => Iter_next_loop fuel (mkTrieIter
        (mkIFrame child (children child) false :: mkIFrame n rest0 true :: fs) (p ++ [k]) rem)
    end).
  assert (Hdesc : frame_pending p (mkIFrame n rest em) = at_path p <$> ch_entries rest ->
    exists it', descend =
      Ret (head (frame_pending p (mkIFrame n rest em) ++ pending (vec_pop p) fs), it') /\
    pending (path it') (frames it') =
      tail (frame_pending p (mkIFrame n rest em) ++ pending (vec_pop p) fs) /\
    remaining it' = Z.of_nat (length (pending (path it') (frames it')))).
  { intros E. rewrite E in *. subst descend. destruct rest as [|[k c] rest].
    - apply (IH (mkTrieIter fs (vec_pop p) rem)); simpl in *; [lia|done].
    - destruct (IH (mkTrieIter (mkIFrame c (children c) false :: mkIFrame n rest true :: fs)
        (p ++ [k]) rem)) as (it' & Hn & Hp & Hr).
      + simpl in *. rewrite node_size_sizes in Hf. lia.
      + simpl in *. rewrite frame_pending_child, vec_pop_app.
        rewrite Hrem, ch_entries_cons, fmap_app, <- app_assoc. done.
      + cbn [path frames pending] in *. rewrite frame_pending_child, vec_pop_app in *.
        rewrite ch_entries_cons, fmap_app, <- app_assoc.
        exists it'. by split. }
  destruct em; cbn [negb].
  - apply Hdesc. unfold frame_pending. simpl. done.
  - destruct (value n) as [v|] eqn:Ev.
    + unfold frame_pending in Hrem |- *. cbn [if_emitted if_node if_children] in *.
      rewrite Ev in Hrem |- *.
      assert (Hlen : rem = Z.of_nat (S (length ((at_path p <$> ch_entries rest) ++
        pending (vec_pop p) fs)))) by (rewrite Hrem; done).
      clear Hrem. simpl. unfold usize_sub.
      destruct (Z.leb_spec 1 rem); [|lia]. simpl. eexists.
      split; [unfold at_path at 1; simpl; by rewrite app_nil_r|]. simpl.
      unfold frame_pending. simpl. split; [done|lia].
    + apply Hdesc. unfold frame_pending. simpl. by rewrite Ev.
Qed.

Lemma Iter_collect_ok fuel (it : Iter K V) :
  (length (pending (path it) (frames it)) < fuel)%nat ->
  remaining it = Z.of_nat (length (pending (path it) (frames it))) ->
  Iter_collect fuel it = Ret (pending (path it) (frames it)).
Proof using.
  revert it. induction fuel as [|fuel IH]; intros it Hf Hrem; [lia|].
  cbn [Iter_collect]. unfold Iter_next.
  destruct (Iter_next_loop_ok (S (iter_bound (frames it))) it) as (it' & -> & Hp & Hr);
    [lia|done|]. rewrite outcome_bind_Ret.
  destruct (pending (path it) (frames it)) as [|e l]; simpl in *; [done|].
  rewrite IH; [by rewrite Hp|rewrite Hp; lia|done].
Qed.

Lemma pending_new n p rem : pending p (frames (Iter_new n p rem)) = at_path p <$> entries n.
Proof using. simpl. unfold frame_pending. simpl. by rewrite app_nil_r, <- entries_eq. Qed.

(** The subtree at [prefix] holds the entries that start with [prefix]. *)
Lemma lookup_app n p key : lookup_at n (p ++ key) =
  match node_of n p with Some m => lookup_at m key | None => None end.
Proof using.
  revert n. induction p as [|k p IH]; intros n; [done|]. simpl.
  rewrite lookup_cons. by destruct (om_get k (children n)).
Qed.

Lemma node_of_ok n p m : node_ok n -> node_of n p = Some m -> node_ok m.
Proof using.
  revert n. induction p as [|k p IH]; intros n Hok E; simpl in E; [by injection E as <-|].
  destruct (om_get k (children n)) as [c|] eqn:Eg; [|done].
  apply (IH c); [|done]. by apply (node_ok_inv n Hok) in Eg as [? _].
Qed.

Definition starts_with (p : list K) (e : list K * V) : bool := bool_decide (p `prefix_of` e.1).

Lemma filter_om_ok (f : list K * V -> bool) (l : list (list K * V)) :
  om_ok l -> om_ok (List.filter f l).
Proof using.
  induction l as [|[k v] l IH]; intros Hok; [done|]. apply om_ok_cons in Hok as [Hok Hlt].
  simpl. destruct (f (k, v)); [|by apply IH]. apply om_ok_cons. split; [by apply IH|].
  intros k' v' Hin%list_elem_of_In. apply List.filter_In in Hin as [Hin _].
  apply (Hlt k' v'). by apply list_elem_of_In.
Qed.

Lemma at_path_ok p (l : list (list K * V)) : om_ok l -> om_ok (at_path p <$> l).
Proof using.
  intros Hok. induction p as [|k p IH].
  - assert (at_path [] <$> l = l) as ->; [|done].
    clear Hok. induction l as [|[k v] l IH]; [done|]. rewrite fmap_cons, IH. done.
  - assert (at_path (k :: p) <$> l = under k <$> (at_path p <$> l)) as ->.
    { rewrite <- list_fmap_compose. by apply list_fmap_ext. }
    by apply under_ok.
Qed.

Lemma elem_of_at_path p (l : list (list K * V)) key v :
  (key, v) ∈ at_path p <$> l <-> exists rest, key = p ++ rest /\ (rest, v) ∈ l.
Proof using.
  rewrite list_elem_of_fmap. split.
  - intros ([rest w] & [= -> ->] & Hin). eauto.
  - intros (rest & -> & Hin). by exists (rest, v).
Qed.

Lemma prefix_entries n p : node_ok n ->
  List.filter (starts_with p) (entries n) =
  match node_of n p with Some m => at_path p <$> entries m | None => [] end.
Proof using.
  intros Hok. assert (Hel : forall (l1 l2 : list (list K * V)), om_ok l1 -> om_ok l2 ->
    (forall key v, (key, v) ∈ l1 <-> (key, v) ∈ l2) -> l1 = l2).
  { intros l1 l2 H1 H2 He. apply om_ext; [done|done|]. intros key.
    destruct (om_get key l2) as [v|] eqn:E.
    - apply om_get_elem; [done|]. apply He. by apply om_get_elem.
    - apply om_get_none; [done|]. intros v Hin%He.
      exact (proj1 (om_get_none key l2 H2) E v Hin). }
  apply Hel; [by apply filter_om_ok, entries_ok| |].
  { destruct (node_of n p) as [m|] eqn:E; [|constructor].
    apply at_path_ok, entries_ok. by apply (node_of_ok n p). }
  intros key v. rewrite list_elem_of_In, List.filter_In, <- list_elem_of_In.
  unfold starts_with. rewrite bool_decide_eq_true. simpl.
  rewrite <- lookup_elem by done. split.
  - intros [Hl [rest ->]]. rewrite lookup_app in Hl.
    destruct (node_of n p) as [m|] eqn:E; [|done]. apply elem_of_at_path. exists rest.
    split; [done|]. apply lookup_elem; [by apply (node_of_ok n p)|done].
  - destruct (node_of n p) as [m|] eqn:E; [|by intros ?%not_elem_of_nil].
    intros (rest & -> & Hin)%elem_of_at_path. rewrite lookup_app, E.
    split; [|by eexists]. apply lookup_elem; [by apply (node_of_ok n p)|done].
Qed.

End Entries.

(** ** The properties of the crate *)

Inductive TrieOp (K V : Type) : Type :=
| TInsert (key : list K) (v : V)
| TRemove (key : list K)
| TGet (key : list K)
| TClear.
Arguments TInsert {K V} _ _.
Arguments TRemove {K V} _.
Arguments TGet {K V} _.
Arguments TClear {K V}.

Section Run.
Context {K V : Type} `{HO : Ord K} `{HE : EqDecision K}.

Definition Trie_exec (t : Trie K V) (op : TrieOp K V) : outcome (option V * Trie K V) :=
  match op with
  | TInsert key v => Trie_insert t key v
  | TRemove key => Trie_remove t key
  | TGet key => mret (Trie_get t key, t)
  | TClear => mret (None, Trie_clear t)
  end.

Fixpoint Trie_run (t : Trie K V) (ops : list (TrieOp K V))
    : outcome (list (option V) * Trie K V) :=
  match ops with
  | [] => mret ([], t)
  | op :: ops =>
      '(r, t) ← Trie_exec t op;
      '(rs, t) ← Trie_run t ops;
      mret (r :: rs, t)
  end.

(** The same calls on a map from whole keys to values. *)
Definition map_step (m : list (list K * V)) (op : TrieOp K V)
    : option V * list (list K * V) :=
  match op with
  | TInsert key v => (om_get key m, om_insert key v m)
  | TRemove key => (om_get key m, om_remove key m)
  | TGet key => (om_get key m, m)
  | TClear => (None, [])
  end.

Fixpoint map_run (m : list (list K * V)) (ops : list (TrieOp K V))
    : list (option V) * list (list K * V) :=
  match ops with
  | [] => ([], m)
  | op :: ops =>
      let (r, m) := map_step m op in
      let (rs, m) := map_run m ops in
      (r :: rs, m)
  end.

Lemma Trie_new_ok : Trie_ok (@Trie_new K V).
Proof using.
  split; [|done]. constructor; [constructor|..]; by intros ? ? ?%not_elem_of_nil.
Qed.

Lemma Trie_exec_ok t op : Trie_ok t -> tlen t + 1 < 2 ^ 64 ->
  exists t', Trie_exec t op = Ret ((map_step (entries (root t)) op).1, t') /\ Trie_ok t' /\
    entries (root t') = (map_step (entries (root t)) op).2 /\ tlen t' <= tlen t + 1.
Proof using HE.
  intros Hok Hb. pose proof (to_len _ Hok) as Hl. destruct op as [key v|key|key|]; simpl.
  - destruct (Trie_insert_ok t key v Hok Hb) as (t' & -> & Hok' & He). exists t'.
    split; [done|]. split; [done|]. split; [done|].
    rewrite (to_len _ Hok'), He, om_insert_length by (apply entries_ok, Hok).
    destruct (om_get key _); lia.
  - destruct (Trie_remove_ok t key Hok) as (t' & -> & Hok' & He). exists t'.
    split; [done|]. split; [done|]. split; [done|].
    rewrite (to_len _ Hok'), He, om_remove_length by (apply entries_ok, Hok).
    destruct (om_get key _); lia.
  - exists t. rewrite Trie_get_ok by done. split; [done|]. split; [done|]. split; [done|lia].
  - eexists. split; [done|]. split; [apply Trie_new_ok|]. split; [done|]. simpl. lia.
Qed.

Lemma Trie_run_ok ops t : Trie_ok t -> tlen t + Z.of_nat (length ops) < 2 ^ 64 ->
  exists t', Trie_run t ops = Ret ((map_run (entries (root t)) ops).1, t') /\ Trie_ok t' /\
    entries (root t') = (map_run (entries (root t)) ops).2.
Proof using HE.
  revert t. induction ops as [|op ops IH]; intros t Hok Hb; [by exists t|].
  simpl length in Hb. destruct (Trie_exec_ok t op Hok ltac:(lia)) as (t1 & Hs & Hok1 & He1 & Hl1).
  cbn [Trie_run map_run]. rewrite Hs, outcome_bind_Ret.
  destruct (map_step (entries (root t)) op) as [r m1]. simpl in *.
  destruct (IH t1 Hok1 ltac:(lia)) as (t2 & -> & Hok2 & He2). rewrite He1 in *.
  destruct (map_run m1 ops) as [rs m2]. by exists t2.
Qed.

End Run.



(** Longest-prefix match. The result is a stored key that is a prefix of
    the query, with its value, and every stored key that is a prefix of the
    query is a prefix of it; there is no result only when no prefix of the
    query is stored. *)
Theorem longest_prefix_ok {K V} `{Ord K} `{EqDecision K} (t : Trie K V) key :
  Trie_ok t ->
  match Trie_longest_prefix t key with
  | Some (p, v) => p `prefix_of` key /\ om_get p (entries (root t)) = Some v /\
      forall q w, q `prefix_of` key -> om_get q (entries (root t)) = Some w -> q `prefix_of` p
  | None => forall q, q `prefix_of` key -> om_get q (entries (root t)) = None
  end.
Proof.
  intros [Hn _]. unfold Trie_longest_prefix.
  assert (Htake : forall q, q `prefix_of` key -> q = take (length q) key /\
    (length q <= length key)%nat).
  { intros q [r ->]. rewrite length_app, take_app_length. split; [done|lia]. }
  assert (Hp : forall d, take d key `prefix_of` key) by (intros d; apply prefix_take).
  destruct (longest_loop_ok key (root t) 0
    (match value (root t) with Some v => Some (0%nat, v) | None => None end))
    as [(d & v & Hd & Hv & -> & Hmax)|[-> Hnone]].
  - split; [apply Hp|]. rewrite <- lookup_entries by done. split; [done|].
    intros q w Hq Hw. rewrite <- lookup_entries in Hw by done.
    destruct (Htake q Hq) as [E Hl]. rewrite E.
    destruct (Nat.le_gt_cases (length q) d) as [Hle|Hgt].
    + replace (take (length q) key) with (take (length q) (take (0 + d) key))
        by (rewrite take_take; f_equal; lia). apply prefix_take.
    + rewrite E, Hmax in Hw by lia. done.
  - assert (Hnil : lookup_at (root t) [] = value (root t)) by done.
    destruct (value (root t)) as [v|] eqn:Ev.
    + simpl. split; [apply prefix_nil|]. rewrite <- lookup_entries by done.
      split; [done|]. intros q w Hq Hw. rewrite <- lookup_entries in Hw by done.
      destruct q as [|k q]; [apply prefix_nil|]. destruct (Htake _ Hq) as [E Hl].
      rewrite E, Hnone in Hw; [done|]. simpl in *. lia.
    + intros q Hq. rewrite <- lookup_entries by done.
      destruct q as [|k q]; [done|]. destruct (Htake _ Hq) as [E Hl].
      rewrite E. apply Hnone. simpl in *. lia.
Qed.

(** The tree of the example: keys [1] and [1; 2]. *)
Definition ex_trie : Trie Z Z :=
  match Trie_run Trie_new [TInsert [1] 5; TInsert [1; 2] 6] with
  | Ret (_, t) => t
  | Panic => Trie_new
  end.

Lemma ex_trie_ok : Trie_ok ex_trie.
Proof.
  destruct (Trie_run_ok [TInsert [1] 5; TInsert [1; 2] 6] Trie_new Trie_new_ok)
    as (t & Ht & Hok & _); [simpl; lia|].
  unfold ex_trie. by rewrite Ht.
Qed.

Lemma longest_prefix_witness :
  match Trie_longest_prefix ex_trie [1; 2; 3] with
  | Some (p, v) => p `prefix_of` [1; 2; 3] /\ om_get p (entries (root ex_trie)) = Some v /\
      forall q w, q `prefix_of` [1; 2; 3] -> om_get q (entries (root ex_trie)) = Some w ->
        q `prefix_of` p
  | None => forall q, q `prefix_of` [1; 2; 3] -> om_get q (entries (root ex_trie)) = None
  end.
Proof. apply (longest_prefix_ok ex_trie [1; 2; 3]). exact ex_trie_ok. Defined.

(** Iteration. Running the iterator of [iter] to its end yields the
    entries in lexicographic order; the iterator of [iter_prefix] yields
    exactly those whose key starts with the prefix, in the same order; the
    announced lengths are exact, and [contains_prefix] tells whether there is
    such an entry. *)
Theorem Trie_iter_ok {K V} `{Ord K} `{EqDecision K} (t : Trie K V) prefix :
  Trie_ok t ->
  Iter_collect (S (length (entries (root t)))) (Trie_iter t) = Ret (entries (root t)) /\
  Iter_collect (S (length (entries (root t)))) (Trie_iter_prefix t prefix) =
    Ret (List.filter (starts_with prefix) (entries (root t))) /\
  Iter_len (Trie_iter t) = Z.of_nat (length (entries (root t))) /\
  Iter_len (Trie_iter_prefix t prefix) =
    Z.of_nat (length (List.filter (starts_with prefix) (entries (root t)))) /\
  (Trie_contains_prefix t prefix = true <->
   List.filter (starts_with prefix) (entries (root t)) <> []).
Proof.
  intros [Hn Hl].
  assert (Hnil : forall l : list (list K * V), at_path [] <$> l = l).
  { induction l as [|[k v] l IH]; [done|]. rewrite fmap_cons, IH. done. }
  pose proof (prefix_entries (root t) prefix Hn) as Hp.
  pose proof (List.filter_length_le (starts_with prefix) (entries (root t))) as Hle.
  rewrite Hp in *. split; [|split; [|split; [done|split]]].
  - rewrite Iter_collect_ok; unfold Trie_iter; cbn [path];
      change (path (Iter_new (root t) [] (tlen t))) with (@nil K);
      rewrite pending_new, Hnil; [done|lia|done].
  - unfold Trie_iter_prefix. destruct (node_of (root t) prefix) as [m|]; [|done].
    rewrite Iter_collect_ok; change (path (Iter_new m prefix (Node_count m))) with prefix;
      rewrite pending_new; [done|lia|]. simpl. by rewrite count_entries, length_fmap.
  - unfold Trie_iter_prefix. destruct (node_of (root t) prefix) as [m|]; [|done].
    unfold Iter_len. simpl. by rewrite count_entries, length_fmap.
  - unfold Trie_contains_prefix. destruct (node_of (root t) prefix) as [m|]; [|done].
    rewrite has_entry_entries. by destruct (entries m).
Qed.

Lemma Trie_iter_witness :
  Iter_collect (S (length (entries (root ex_trie)))) (Trie_iter ex_trie) =
    Ret (entries (root ex_trie)) /\
  Iter_collect (S (length (entries (root ex_trie)))) (Trie_iter_prefix ex_trie [1; 2]) =
    Ret (List.filter (starts_with [1; 2]) (entries (root ex_trie))) /\
  Iter_len (Trie_iter ex_trie) = Z.of_nat (length (entries (root ex_trie))) /\
  Iter_len (Trie_iter_prefix ex_trie [1; 2]) =
    Z.of_nat (length (List.filter (starts_with [1; 2]) (entries (root ex_trie)))) /\
  (Trie_contains_prefix ex_trie [1; 2] = true <->
   List.filter (starts_with [1; 2]) (entries (root ex_trie)) <> []).
Proof. apply (Trie_iter_ok ex_trie [1; 2]). exact ex_trie_ok. Defined.
