(* ===== verification/Rand.v ===== *)
(** * Rand: the random number generators of [crates/athera-rand]

    The fast generator [XoShiro256StarStar] (state transition, outputs, seeding
    by [splitmix64], byte filling and the two jump functions). The
    cryptographic generator [ChaChaRng] wraps a generator of another crate: it
    is modelled over that generator as a parameter.

    The state transition is linear over GF(2). The file proves that [jump] and
    [long_jump] are equivalent to 2^128 and 2^192 steps: polynomials over GF(2),
    written as binary numbers, act on states; the transition is annihilated by
    its characteristic polynomial [charpoly], and x^(2^128) reduces to the jump
    polynomial modulo it. *)

From S2P Require Import Prelude.

(** ** The generator *)

Definition rotate_left (x k : Z) : Z := Z.lor (wrap 64 (Z.shiftl x k)) (Z.shiftr x (64 - k)).
Definition wrapping_mul (a b : Z) : Z := wrap 64 (a * b).
Definition wrapping_add (a b : Z) : Z := wrap 64 (a + b).

(** [s: [u64; 4]] *)
Record XoShiro : Type := mkXo { xs0 : Z; xs1 : Z; xs2 : Z; xs3 : Z }.

Definition XoShiro_new : XoShiro := mkXo 0 0 0 0.

Definition XoShiro_seed_from_raw (seed : XoShiro) : XoShiro := seed.

(** [splitmix64]: the output and the new state. *)
Definition splitmix64 (state : Z) : Z * Z :=
  let state := wrapping_add state 0x9e3779b97f4a7c15 in
  let z := state in
  let z := wrapping_mul (Z.lxor z (Z.shiftr z 30)) 0xbf58476d1ce4e5b9 in
  let z := wrapping_mul (Z.lxor z (Z.shiftr z 27)) 0x94d049bb133111eb in
  (Z.lxor z (Z.shiftr z 31), state).

Definition XoShiro_seed (seed : Z) : XoShiro :=
  let (a, state) := splitmix64 seed in
  let (b, state) := splitmix64 state in
  let (c, state) := splitmix64 state in
  let (d, state) := splitmix64 state in
  mkXo a b c d.

Definition XoShiro_step (self : XoShiro) : Z * XoShiro :=
  let result := wrapping_mul (rotate_left (wrapping_mul (xs1 self) 5) 7) 9 in
  let t := wrap 64 (Z.shiftl (xs1 self) 17) in
  let s2 := Z.lxor (xs2 self) (xs0 self) in
  let s3 := Z.lxor (xs3 self) (xs1 self) in
  let s1 := Z.lxor (xs1 self) s2 in
  let s0 := Z.lxor (xs0 self) s3 in
  let s2 := Z.lxor s2 t in
  let s3 := rotate_left s3 45 in
  (result, mkXo s0 s1 s2 s3).

Definition XoShiro_next_u64 (self : XoShiro) : Z * XoShiro := XoShiro_step self.

Definition XoShiro_next_u32 (self : XoShiro) : Z * XoShiro :=
  let (r, self) := XoShiro_step self in (wrap 32 (Z.shiftr r 32), self).

(** [dest] is filled chunk by chunk of at most 8 bytes; the result is its new
    contents. *)
Fixpoint fill_chunks (chunks : list (list Z)) (self : XoShiro) : list Z * XoShiro :=
  match chunks with
  | [] => ([], self)
  | chunk :: chunks =>
      let (r, self) := XoShiro_step self in
      let (rest, self) := fill_chunks chunks self in
      (take (length chunk) (to_le_bytes 8 r) ++ rest, self)
  end.

Definition XoShiro_fill_bytes (dest : list Z) (self : XoShiro) : list Z * XoShiro :=
  fill_chunks (chunks 8 dest) self.

(** [jump_with]: the accumulator and the running state through the 64 bits of
    one jump word, then through the four words. *)
Definition xo_xor (a b : XoShiro) : XoShiro :=
  mkXo (Z.lxor (xs0 a) (xs0 b)) (Z.lxor (xs1 a) (xs1 b))
       (Z.lxor (xs2 a) (xs2 b)) (Z.lxor (xs3 a) (xs3 b)).

Fixpoint jump_bits (n : nat) (b : Z) (item : Z) (acc self : XoShiro) : XoShiro * XoShiro :=
  match n with
  | O => (acc, self)
  | S n =>
      let acc := if negb (Z.land item (Z.shiftl 1 b) =? 0) then xo_xor acc self else acc in
      jump_bits n (b + 1) item acc (snd (XoShiro_step self))
  end.

Fixpoint jump_words (jump : list Z) (acc self : XoShiro) : XoShiro :=
  match jump with
  | [] => acc
  | item :: jump =>
      let (acc, self) := jump_bits 64 0 item acc self in
      jump_words jump acc self
  end.

Definition XoShiro_jump_with (jump : list Z) (self : XoShiro) : XoShiro :=
  jump_words jump XoShiro_new self.

Definition JUMP : list Z :=
  [0x180ec6d33cfd0aba; 0xd5a61266f0c9392c; 0xa9582618e03fc9aa; 0x39abdc4529b1661c].

Definition LONG_JUMP : list Z :=
  [0x76e15d3efefdcbbf; 0xc5004e441c522fb3; 0x77710069854ee241; 0x39109bb02acbe635].

Definition XoShiro_jump (self : XoShiro) : XoShiro := XoShiro_jump_with JUMP self.
Definition XoShiro_long_jump (self : XoShiro) : XoShiro := XoShiro_jump_with LONG_JUMP self.

(** [Default], [From<[u64; 4]>], [From<u64>] and [Iterator::next]. *)
Definition XoShiro_default : XoShiro := XoShiro_new.
Definition XoShiro_from_words (s : XoShiro) : XoShiro := s.
Definition XoShiro_from_u64 (seed : Z) : XoShiro := XoShiro_seed seed.
Definition XoShiro_next (self : XoShiro) : option Z * XoShiro :=
  let (r, self) := XoShiro_next_u64 self in (Some r, self).

(** ** [ChaChaRng], over the generator of the crate it wraps

    [source] is an [EntropySource]: it fills a buffer or fails. *)
Section ChaCha.
Context {inner : Type} (seed_inner : list Z -> inner).
Context (inner_u64 inner_u32 : inner -> Z * inner).
Context (inner_fill : list Z -> inner -> list Z * inner).

Definition ChaChaRng_from_seed (seed : list Z) : inner := seed_inner seed.

Definition ChaChaRng_from_entropy {S : Type}
    (fill_bytes : S -> list Z -> result unit unit * list Z * S) (source : S)
    : result unit inner * S :=
  let '(r, seed, source) := fill_bytes source (replicate 32 0) in
  match r with
  | Err e => (Err e, source)
  | Ok _ => (Ok (ChaChaRng_from_seed seed), source)
  end.

Definition ChaChaRng_next_u64 (self : inner) : Z * inner := inner_u64 self.
Definition ChaChaRng_next_u32 (self : inner) : Z * inner := inner_u32 self.
Definition ChaChaRng_fill_bytes (dest : list Z) (self : inner) : list Z * inner :=
  inner_fill dest self.
Definition ChaChaRng_default : inner := ChaChaRng_from_seed (replicate 32 0).
End ChaCha.

(** ** Words and states *)

Definition xo_ok (s : XoShiro) : Prop :=
  xs0 s ∈u 64 /\ xs1 s ∈u 64 /\ xs2 s ∈u 64 /\ xs3 s ∈u 64.

Definition xo_next (s : XoShiro) : XoShiro := snd (XoShiro_step s).

Lemma fits_rotl x k : 0 <= k <= 64 -> fits 64 x -> fits 64 (rotate_left x k).
Proof.
  intros Hk Hx. unfold rotate_left. apply fits_lor; [lia|apply fits_wrap; lia|].
  apply fits_shiftr; [lia|done].
Qed.

Lemma xo_next_ok s : xo_ok s -> xo_ok (xo_next s).
Proof.
  intros (H0 & H1 & H2 & H3). unfold xo_ok, xo_next, XoShiro_step. simpl.
  split; [|split; [|split]]; repeat (apply fits_lxor; [lia|..]); try done;
    [apply fits_wrap; lia|].
  apply fits_rotl; [lia|]. apply fits_lxor; [lia|done|done].
Qed.

Lemma xo_xor_ok a b : xo_ok a -> xo_ok b -> xo_ok (xo_xor a b).
Proof.
  intros (?&?&?&?) (?&?&?&?). unfold xo_ok, xo_xor. simpl.
  split; [|split; [|split]]; apply fits_lxor; done || lia.
Qed.

(** The group structure of states under xor. *)
Definition xo_zero : XoShiro := XoShiro_new.

Lemma xo_ext a b : xs0 a = xs0 b -> xs1 a = xs1 b -> xs2 a = xs2 b -> xs3 a = xs3 b -> a = b.
Proof. destruct a, b; simpl; congruence. Qed.

Ltac xo := apply xo_ext; simpl.

Lemma xo_xor_0_l a : xo_xor xo_zero a = a.
Proof. xo; apply Z.lxor_0_l. Qed.
Lemma xo_xor_0_r a : xo_xor a xo_zero = a.
Proof. xo; apply Z.lxor_0_r. Qed.
Lemma xo_xor_nilp a : xo_xor a a = xo_zero.
Proof. xo; apply Z.lxor_nilpotent. Qed.
Lemma xo_xor_comm a b : xo_xor a b = xo_xor b a.
Proof. xo; apply Z.lxor_comm. Qed.
Lemma xo_xor_assoc a b c : xo_xor (xo_xor a b) c = xo_xor a (xo_xor b c).
Proof. xo; apply Z.lxor_assoc. Qed.

(** Exchange the middle terms of a sum of two sums. *)
Lemma xo_xor_swap a b c d :
  xo_xor (xo_xor a b) (xo_xor c d) = xo_xor (xo_xor a c) (xo_xor b d).
Proof.
  rewrite !xo_xor_assoc. f_equal. rewrite <- !xo_xor_assoc. f_equal. apply xo_xor_comm.
Qed.

(** Equations between sums of states, bit by bit. *)
Ltac xo_ring :=
  apply xo_ext; cbn [xs0 xs1 xs2 xs3 xo_xor xo_zero XoShiro_new];
  apply Z.bits_inj'; let i := fresh "i" in let Hi := fresh in intros i Hi;
  rewrite ?Z.lxor_spec, ?Z.bits_0;
  repeat match goal with |- context [Z.testbit ?x i] => destruct (Z.testbit x i) end;
  reflexivity.

(** ** Linearity of the transition *)

Lemma wrap_lxor w a b : 0 <= w -> wrap w (Z.lxor a b) = Z.lxor (wrap w a) (wrap w b).
Proof.
  intros. rewrite !wrap_ones by lia. apply Z.bits_inj'. intros i Hi.
  rewrite Z.land_spec, !Z.lxor_spec, !Z.land_spec.
  destruct (Z.testbit a i), (Z.testbit b i), (Z.testbit (Z.ones w) i); done.
Qed.

Lemma rotl_testbit x k i : 0 <= k <= 64 -> fits 64 x -> 0 <= i ->
  Z.testbit (rotate_left x k) i =
  if i <? k then Z.testbit x (i + 64 - k) else (i <? 64) && Z.testbit x (i - k).
Proof.
  intros Hk Hx Hi. unfold rotate_left.
  rewrite Z.lor_spec, wrap_ones, Z.land_spec, Z.testbit_ones_nonneg, Z.shiftl_spec,
    Z.shiftr_spec by lia.
  destruct (Z.ltb_spec i k).
  - rewrite (Z.testbit_neg_r x (i - k)) by lia. simpl. f_equal. lia.
  - destruct (Z.ltb_spec i 64).
    + rewrite (fits_bit 64 x (i + (64 - k))) by (done || lia).
      by rewrite andb_true_r, orb_false_r.
    + rewrite (fits_bit 64 x (i + (64 - k))) by (done || lia).
      by rewrite andb_false_r.
Qed.

Lemma rotl_lxor a b k : 0 <= k <= 64 -> fits 64 a -> fits 64 b ->
  rotate_left (Z.lxor a b) k = Z.lxor (rotate_left a k) (rotate_left b k).
Proof.
  intros Hk Ha Hb. apply Z.bits_inj'. intros i Hi.
  rewrite Z.lxor_spec, !rotl_testbit, !Z.lxor_spec by (done || lia || (apply fits_lxor; done || lia)).
  destruct (i <? k); [done|]. by destruct (i <? 64).
Qed.

Lemma xo_next_linear a b : xo_ok a -> xo_ok b ->
  xo_next (xo_xor a b) = xo_xor (xo_next a) (xo_next b).
Proof.
  intros (A0 & A1 & A2 & A3) (B0 & B1 & B2 & B3). unfold xo_next, XoShiro_step, xo_xor. xo.
  4: { rewrite <- rotl_lxor by (lia || (apply fits_lxor; done || lia)). f_equal.
       apply Z.bits_inj'. intros i Hi. rewrite !Z.lxor_spec.
       destruct (Z.testbit (xs1 a) i), (Z.testbit (xs1 b) i), (Z.testbit (xs3 a) i),
         (Z.testbit (xs3 b) i); done. }
  3: rewrite Z.shiftl_lxor, wrap_lxor by lia.
  all: apply Z.bits_inj'; intros i Hi; rewrite !Z.lxor_spec;
    repeat match goal with |- context [Z.testbit ?x i] => destruct (Z.testbit x i) end; done.
Qed.

(** ** Polynomials over GF(2) acting on states

    A polynomial is a binary number, bit [i] the coefficient of [x^i];
    evaluating it at a state sums the [i]-th successors for the set bits. *)

Fixpoint peval (p : positive) (s : XoShiro) : XoShiro :=
  match p with
  | xH => s
  | xO p => peval p (xo_next s)
  | xI p => xo_xor s (peval p (xo_next s))
  end.

Definition neval (p : N) (s : XoShiro) : XoShiro :=
  match p with N0 => xo_zero | Npos p => peval p s end.

(** Evaluation of a list of coefficients, lowest first. *)
Fixpoint beval (l : list bool) (s : XoShiro) : XoShiro :=
  match l with
  | [] => xo_zero
  | b :: l => xo_xor (if b : bool then s else xo_zero) (beval l (xo_next s))
  end.

Fixpoint npoly (l : list bool) : N :=
  match l with
  | [] => 0%N
  | true :: l => N.succ_double (npoly l)
  | false :: l => N.double (npoly l)
  end.

Lemma xo_zero_ok : xo_ok xo_zero.
Proof. unfold xo_ok, fits. simpl. lia. Qed.

Lemma xo_next_zero : xo_next xo_zero = xo_zero.
Proof. reflexivity. Qed.

#[local] Hint Resolve xo_zero_ok xo_next_ok xo_xor_ok : core.

Lemma peval_ok p s : xo_ok s -> xo_ok (peval p s).
Proof. revert s. induction p as [p IH|p IH|]; intros s Hs; simpl; auto. Qed.

Lemma neval_ok p s : xo_ok s -> xo_ok (neval p s).
Proof. intros Hs. destruct p; simpl; auto using peval_ok. Qed.

#[local] Hint Resolve peval_ok neval_ok : core.

Lemma peval_linear p a b : xo_ok a -> xo_ok b ->
  peval p (xo_xor a b) = xo_xor (peval p a) (peval p b).
Proof.
  revert a b. induction p as [p IH|p IH|]; intros a b Ha Hb; simpl; [| |done].
  - rewrite xo_next_linear, IH by auto. apply xo_xor_swap.
  - rewrite xo_next_linear, IH by auto. done.
Qed.

Lemma peval_next p s : xo_ok s -> peval p (xo_next s) = xo_next (peval p s).
Proof.
  revert s. induction p as [p IH|p IH|]; intros s Hs; simpl; [| |done].
  - rewrite xo_next_linear, <- IH by auto. done.
  - rewrite <- IH by auto. done.
Qed.

Lemma neval_double p s : neval (N.double p) s = neval p (xo_next s).
Proof. by destruct p. Qed.

Lemma neval_succ_double p s : neval (N.succ_double p) s = xo_xor s (neval p (xo_next s)).
Proof. destruct p; simpl; [|done]. by rewrite xo_xor_0_r. Qed.

(** The same equations for the names [Pos.lxor] uses. *)
Lemma neval_pdouble p s : neval (Pos.Ndouble p) s = neval p (xo_next s).
Proof. by destruct p. Qed.

Lemma neval_psucc_double p s : neval (Pos.Nsucc_double p) s = xo_xor s (neval p (xo_next s)).
Proof. destruct p; simpl; [|done]. by rewrite xo_xor_0_r. Qed.

Lemma xo_xor_cancel a b : xo_xor a (xo_xor a b) = b.
Proof. by rewrite <- xo_xor_assoc, xo_xor_nilp, xo_xor_0_l. Qed.

Lemma plxor_eqs p q :
  Pos.lxor p~1 q~1 = Pos.Ndouble (Pos.lxor p q) /\
  Pos.lxor p~1 q~0 = Pos.Nsucc_double (Pos.lxor p q) /\
  Pos.lxor p~0 q~1 = Pos.Nsucc_double (Pos.lxor p q) /\
  Pos.lxor p~0 q~0 = Pos.Ndouble (Pos.lxor p q).
Proof. done. Qed.

Lemma plxor_eval p q s :
  neval (Pos.lxor p q) s = xo_xor (peval p s) (peval q s).
Proof.
  revert q s. induction p as [p IH|p IH|]; intros [q|q|] s.
  1, 2, 4, 5: destruct (plxor_eqs p q) as (E1 & E2 & E3 & E4);
    rewrite ?E1, ?E2, ?E3, ?E4, ?neval_pdouble, ?neval_psucc_double, IH; simpl; xo_ring.
  all: simpl; xo_ring.
Qed.

Lemma neval_lxor p q s : neval (N.lxor p q) s = xo_xor (neval p s) (neval q s).
Proof.
  destruct p as [|p], q as [|q]; simpl; rewrite ?xo_xor_0_l, ?xo_xor_0_r; try done.
  apply plxor_eval.
Qed.

Lemma neval_npoly l s : neval (npoly l) s = beval l s.
Proof.
  revert s. induction l as [|[] l IH]; intros s; simpl; [done|..].
  - by rewrite neval_succ_double, IH.
  - by rewrite neval_double, IH, xo_xor_0_l.
Qed.

(** ** The characteristic polynomial *)

Definition charpoly : positive :=
  0x10003c03c3f3ecb1904b4edcf26259f850280002bcefd1a5e9d116f2bb0f0f001.

(** The states the polynomial annihilates form an invariant subspace. *)
Definition killed (s : XoShiro) : Prop := xo_ok s /\ peval charpoly s = xo_zero.

Lemma killed_xor a b : killed a -> killed b -> killed (xo_xor a b).
Proof.
  intros [Ha Ka] [Hb Kb]. split; [auto|]. by rewrite peval_linear, Ka, Kb by auto.
Qed.

Lemma peval_zero p : peval p xo_zero = xo_zero.
Proof. induction p as [p IH|p IH|]; simpl; rewrite ?xo_next_zero, ?IH; done. Qed.

Lemma killed_zero : killed xo_zero.
Proof. split; [apply xo_zero_ok|apply peval_zero]. Qed.

Lemma killed_next s : killed s -> killed (xo_next s).
Proof. intros [Hs Ks]. split; [auto|]. by rewrite peval_next, Ks by auto. Qed.

Definition xo_eqb (a b : XoShiro) : bool :=
  (xs0 a =? xs0 b) && (xs1 a =? xs1 b) && (xs2 a =? xs2 b) && (xs3 a =? xs3 b).

Lemma xo_eqb_eq a b : xo_eqb a b = true -> a = b.
Proof. intros H. unfold xo_eqb in H. zify_bool. by apply xo_ext. Qed.

(** The transition and the evaluation with masks instead of remainders, for the
    computations. *)
Definition mask64 : Z := 0xffffffffffffffff.

Definition fast_next (s : XoShiro) : XoShiro :=
  let t := Z.land (Z.shiftl (xs1 s) 17) mask64 in
  let s2 := Z.lxor (xs2 s) (xs0 s) in
  let s3 := Z.lxor (xs3 s) (xs1 s) in
  mkXo (Z.lxor (xs0 s) s3) (Z.lxor (xs1 s) s2) (Z.lxor s2 t)
    (Z.lor (Z.land (Z.shiftl s3 45) mask64) (Z.shiftr s3 19)).

Fixpoint fast_peval (p : positive) (acc s : XoShiro) : XoShiro :=
  match p with
  | xH => xo_xor acc s
  | xO p => fast_peval p acc (fast_next s)
  | xI p => fast_peval p (xo_xor acc s) (fast_next s)
  end.

Lemma fast_next_ok s : fast_next s = xo_next s.
Proof.
  unfold fast_next, xo_next, XoShiro_step, rotate_left. cbn [snd].
  rewrite !wrap_ones by lia. change (Z.ones 64) with mask64. change (64 - 45) with 19. done.
Qed.

Lemma fast_peval_ok p acc s : fast_peval p acc s = xo_xor acc (peval p s).
Proof.
  revert acc s. induction p as [p IH|p IH|]; intros acc s; simpl; rewrite ?fast_next_ok; [| |done].
  - by rewrite IH, xo_xor_assoc.
  - by rewrite IH.
Qed.

Definition basis_ok (i : Z) : bool :=
  xo_eqb (fast_peval charpoly xo_zero (mkXo 0 0 (Z.shiftl 1 i) 0)) xo_zero.

Lemma basis_checked : forallb basis_ok (seqZ 0 64) = true.
Proof. vm_compute. reflexivity. Qed.

Lemma basis_killed i : basis_ok i = true -> peval charpoly (mkXo 0 0 (Z.shiftl 1 i) 0) = xo_zero.
Proof.
  unfold basis_ok. rewrite fast_peval_ok. generalize (peval charpoly (mkXo 0 0 (Z.shiftl 1 i) 0)).
  intros x Hx. apply xo_eqb_eq in Hx. by rewrite xo_xor_0_l in Hx.
Qed.

(** Every word is a sum of powers of two. *)
Lemma word_induction (P : Z -> Prop) :
  P 0 -> (forall a b, fits 64 a -> fits 64 b -> P a -> P b -> P (Z.lxor a b)) ->
  (forall i, 0 <= i < 64 -> P (Z.shiftl 1 i)) -> forall c, fits 64 c -> P c.
Proof.
  intros H0 Hx H1.
  assert (Hn : forall n : nat, (n <= 64)%nat -> forall c, fits (Z.of_nat n) c -> P c).
  { induction n as [|n IH]; intros Hn c Hc.
    - unfold fits in Hc. simpl in Hc. by replace c with 0 by lia.
    - assert (Hlow : fits (Z.of_nat n) (Z.land c (Z.ones (Z.of_nat n)))).
      { apply fits_land_r; [lia|]. apply fits_ones. lia. }
      assert (Hle : forall w x, 0 <= w <= 64 -> fits w x -> fits 64 x).
      { intros w x Hw [? ?]. split; [done|]. pose proof (Z.pow_le_mono_r 2 w 64). lia. }
      assert (E : c = Z.lxor (Z.land c (Z.ones (Z.of_nat n)))
                        (if Z.testbit c (Z.of_nat n) then Z.shiftl 1 (Z.of_nat n) else 0)).
      { apply Z.bits_inj'. intros i Hi.
        rewrite Z.lxor_spec, Z.land_spec, Z.testbit_ones_nonneg by lia.
        assert (Ht : Z.testbit (if Z.testbit c (Z.of_nat n) then Z.shiftl 1 (Z.of_nat n) else 0) i
          = Z.testbit c (Z.of_nat n) && (i =? Z.of_nat n)).
        { destruct (Z.testbit c (Z.of_nat n)); [by rewrite testbit_one_shl by lia|apply Z.bits_0]. }
        rewrite Ht. destruct (Z.ltb_spec i (Z.of_nat n)), (Z.eqb_spec i (Z.of_nat n)); try lia.
        - by rewrite andb_true_r, andb_false_r, xorb_false_r.
        - subst i. by rewrite andb_false_r, andb_true_r, xorb_false_l.
        - rewrite (fits_bit (Z.of_nat (S n)) c) by (done || lia). by rewrite !andb_false_r. }
      rewrite E. apply Hx.
      + by apply (Hle (Z.of_nat n)); [lia|].
      + destruct (Z.testbit c (Z.of_nat n)); [apply fits_one_shl; lia|unfold fits; lia].
      + apply IH; [lia|done].
      + destruct (Z.testbit c (Z.of_nat n)); [apply H1; lia|done]. }
  intros c Hc. by apply (Hn 64%nat).
Qed.

Lemma fits_0 : fits 64 0.
Proof. unfold fits. lia. Qed.

Lemma killed_s2 c : fits 64 c -> killed (mkXo 0 0 c 0).
Proof.
  revert c. apply word_induction.
  - exact killed_zero.
  - intros a b _ _ Ha Hb. exact (killed_xor _ _ Ha Hb).
  - intros i Hi. split.
    + split; [apply fits_0|]. split; [apply fits_0|]. split; [by apply fits_one_shl|apply fits_0].
    + apply basis_killed. pose proof basis_checked as Hb.
      rewrite forallb_seqZ in Hb. apply Hb. lia.
Qed.

Ltac killed_by K :=
  match goal with |- killed ?s => match type of K with killed ?t =>
    replace s with t; [exact K|] end end.

Lemma killed_s1 c : fits 64 c -> killed (mkXo 0 c 0 0).
Proof.
  intros Hc. pose proof (killed_s2 c Hc) as K2.
  pose proof (killed_xor _ _ (killed_next _ K2) K2) as K.
  killed_by K.
  unfold xo_next, XoShiro_step. cbn [snd xs0 xs1 xs2 xs3].
  change (wrap 64 (Z.shiftl 0 17)) with 0. change (rotate_left (Z.lxor 0 0) 45) with 0. xo_ring.
Qed.

Lemma killed_s03 c : fits 64 c -> killed (mkXo c 0 0 (rotate_left c 45)).
Proof.
  intros Hc. pose proof (killed_s1 c Hc) as K1.
  pose proof (killed_s2 (wrap 64 (Z.shiftl c 17)) (fits_wrap 64 _ ltac:(lia))) as K2.
  pose proof (killed_xor _ _ (killed_xor _ _ (killed_next _ K1) K1) K2) as K.
  killed_by K.
  unfold xo_next, XoShiro_step. cbn [snd xs0 xs1 xs2 xs3]. rewrite !Z.lxor_0_l. xo_ring.
Qed.

Lemma killed_s0 c : fits 64 c -> killed (mkXo c 0 0 0).
Proof.
  intros Hc. assert (Hr : fits 64 (rotate_left c 45)) by (apply fits_rotl; [lia|done]).
  pose proof (killed_xor _ _ (killed_next _ (killed_s03 c Hc))
    (killed_xor _ _ (killed_s03 _ Hr) (killed_xor _ _ (killed_s1 c Hc) (killed_s2 c Hc)))) as K.
  killed_by K.
  unfold xo_next, XoShiro_step. cbn [snd xs0 xs1 xs2 xs3].
  change (wrap 64 (Z.shiftl 0 17)) with 0. rewrite !Z.lxor_0_r. xo_ring.
Qed.

Lemma rotl_19_45 d : fits 64 d -> rotate_left (rotate_left d 19) 45 = d.
Proof.
  intros Hd. assert (fits 64 (rotate_left d 19)) by (apply fits_rotl; [lia|done]).
  apply (fits_ext 64); [apply fits_rotl; [lia|done]|done|]. intros i Hi.
  rewrite rotl_testbit by (done || lia). destruct (Z.ltb_spec i 45), (Z.ltb_spec i 64); try lia.
  - rewrite rotl_testbit by (done || lia).
    destruct (Z.ltb_spec (i + 64 - 45) 19), (Z.ltb_spec (i + 64 - 45) 64); try lia.
    simpl. f_equal. lia.
  - rewrite rotl_testbit by (done || lia).
    destruct (Z.ltb_spec (i - 45) 19); try lia. simpl. f_equal. lia.
Qed.

Lemma killed_s3 d : fits 64 d -> killed (mkXo 0 0 0 d).
Proof.
  intros Hd. assert (Hr : fits 64 (rotate_left d 19)) by (apply fits_rotl; [lia|done]).
  pose proof (killed_xor _ _ (killed_s03 _ Hr) (killed_s0 _ Hr)) as K.
  rewrite rotl_19_45 in K by done.
  killed_by K.
  xo_ring.
Qed.

(** The characteristic polynomial annihilates the transition. *)
Lemma charpoly_kills s : xo_ok s -> peval charpoly s = xo_zero.
Proof.
  intros (H0 & H1 & H2 & H3).
  pose proof (killed_xor _ _ (killed_xor _ _ (killed_s0 _ H0) (killed_s1 _ H1))
    (killed_xor _ _ (killed_s2 _ H2) (killed_s3 _ H3))) as K.
  enough (killed s) as [_ ?] by assumption.
  killed_by K.
  xo_ring.
Qed.

(** ** Powers of [x] modulo the characteristic polynomial *)

Definition mulx (t : N) : N :=
  let d := N.double t in if N.testbit d 256 then N.lxor d (Npos charpoly) else d.

Lemma mulx_ok t s : xo_ok s -> neval (mulx t) s = neval t (xo_next s).
Proof.
  intros Hs. unfold mulx. destruct (N.testbit _ _); [|apply neval_double].
  rewrite neval_lxor, neval_double. cbn [neval]. rewrite charpoly_kills by done. apply xo_xor_0_r.
Qed.

(** [x^(2i)] for [i = 0 .. n - 1], each multiplied by [t]. *)
Fixpoint sq_table (n : nat) (t : N) : list N :=
  match n with O => [] | S n => t :: sq_table n (mulx (mulx t)) end.

(** The square of [p], reduced, from the table. *)
Fixpoint sqmod (p : positive) (tab : list N) : option N :=
  match p, tab with
  | xH, t :: _ => Some t
  | xO p, _ :: tab => sqmod p tab
  | xI p, t :: tab => N.lxor t <$> sqmod p tab
  | _, [] => None
  end.

(** [p] evaluated at the square of the transition. *)
Fixpoint peval2 (p : positive) (s : XoShiro) : XoShiro :=
  match p with
  | xH => s
  | xO p => peval2 p (xo_next (xo_next s))
  | xI p => xo_xor s (peval2 p (xo_next (xo_next s)))
  end.

Lemma peval2_sq p s : xo_ok s -> peval2 p s = peval p (peval p s).
Proof.
  revert s. induction p as [p IH|p IH|]; intros s Hs; simpl; [| |done].
  - rewrite IH by auto. rewrite xo_next_linear, peval_linear by auto.
    rewrite <- !peval_next by auto.
    generalize (peval p (xo_next s)), (peval p (peval p (xo_next (xo_next s)))). intros. xo_ring.
  - rewrite IH by auto. by rewrite <- !peval_next by auto.
Qed.

Lemma sqmod_ok p n t r s : xo_ok s -> sqmod p (sq_table n t) = Some r ->
  neval r s = peval2 p (neval t s).
Proof.
  intros Hs. revert n t r. induction p as [p IH|p IH|]; intros [|n] t r E; simpl in E; try done.
  - apply fmap_Some in E as (r' & E & ->). rewrite neval_lxor, (IH _ _ _ E).
    simpl. do 2 f_equal. rewrite !mulx_ok by auto.
    destruct t; simpl; [done|]. by rewrite !peval_next by auto.
  - rewrite (IH _ _ _ E). simpl. f_equal. rewrite !mulx_ok by auto.
    destruct t; simpl; [done|]. by rewrite !peval_next by auto.
  - by injection E as <-.
Qed.

Definition sqmodN (p : N) : option N :=
  match p with N0 => Some 0%N | Npos p => sqmod p (sq_table 256 1) end.

(** [x^(2^k)], reduced. *)
Fixpoint xpow (k : nat) (tab : list N) : option N :=
  match k with
  | O => Some 2%N
  | S k =>
      match xpow k tab with
      | Some (Npos p) => sqmod p tab
      | Some N0 => Some 0%N
      | None => None
      end
  end.

Lemma xo_iter_ok n s : xo_ok s -> xo_ok (N.iter n xo_next s).
Proof. intros Hs. apply N.iter_invariant; auto. Qed.

Lemma xpow_ok k r s : xo_ok s -> xpow k (sq_table 256 1) = Some r ->
  neval r s = N.iter (2 ^ N.of_nat k) xo_next s.
Proof.
  intros Hs. revert r s Hs. induction k as [|k IH]; intros r s Hs E.
  { simpl xpow in E. injection E as <-. done. }
  rewrite Nat2N.inj_succ, N.pow_succ_r'.
  replace (2 * _)%N with (2 ^ N.of_nat k + 2 ^ N.of_nat k)%N by lia. rewrite N.iter_add.
  cbn [xpow] in E. destruct (xpow k (sq_table 256 1)) as [[|p]|] eqn:Ep; [| |done].
  - injection E as <-. by rewrite <- (IH 0%N _ (xo_iter_ok _ _ Hs) eq_refl).
  - rewrite (sqmod_ok _ _ _ _ s Hs E). simpl neval. rewrite peval2_sq by done.
    rewrite <- (IH (Npos p) _ (xo_iter_ok _ _ Hs) eq_refl). simpl.
    by rewrite <- (IH (Npos p) s Hs eq_refl).
Qed.

(** ** The jumps *)

(** The coefficients of a jump polynomial, lowest first. *)
Definition word_bits (item : Z) : list bool := map (Z.testbit item) (seqZ 0 64).
Definition jump_poly (jump : list Z) : list bool := flat_map word_bits jump.

Lemma beval_app l1 l2 s :
  beval (l1 ++ l2) s = xo_xor (beval l1 s) (beval l2 (Nat.iter (length l1) xo_next s)).
Proof.
  revert s. induction l1 as [|b l1 IH]; intros s; simpl; [by rewrite xo_xor_0_l|].
  rewrite IH, xo_xor_assoc. by rewrite <- Nat.iter_succ, Nat.iter_succ_r.
Qed.

Lemma jump_bits_ok n b item acc s : 0 <= b ->
  jump_bits n b item acc s =
  (xo_xor acc (beval (map (Z.testbit item) (seqZ b (Z.of_nat n))) s), Nat.iter n xo_next s).
Proof.
  revert b acc s. induction n as [|n IH]; intros b acc s Hb.
  { simpl. by rewrite xo_xor_0_r. }
  cbn [jump_bits]. rewrite IH, land_one_shl, Nat.iter_succ_r by lia.
  rewrite (seqZ_cons b) by lia. replace (Z.pred (Z.of_nat (S n))) with (Z.of_nat n) by lia.
  cbn [map beval]. replace (Z.succ b) with (b + 1) by lia.
  change (snd (XoShiro_step s)) with (xo_next s). f_equal.
  destruct (Z.testbit item b); by rewrite <- xo_xor_assoc, ?xo_xor_0_r.
Qed.

Lemma jump_words_ok jump acc s :
  jump_words jump acc s = xo_xor acc (beval (jump_poly jump) s).
Proof.
  revert acc s. induction jump as [|item jump IH]; intros acc s.
  { simpl. by rewrite xo_xor_0_r. }
  cbn [jump_words jump_poly flat_map]. rewrite jump_bits_ok by lia.
  rewrite IH, beval_app, xo_xor_assoc. done.
Qed.

Lemma jump_with_ok k jump s : xo_ok s ->
  xpow k (sq_table 256 1) = Some (npoly (jump_poly jump)) ->
  XoShiro_jump_with jump s = N.iter (2 ^ N.of_nat k) xo_next s.
Proof.
  intros Hs E. unfold XoShiro_jump_with. rewrite jump_words_ok, <- (xpow_ok k _ s Hs E), neval_npoly.
  apply xo_xor_0_l.
Qed.

Lemma xpow_128 : xpow 128 (sq_table 256 1) = Some (npoly (jump_poly JUMP)).
Proof. vm_compute. reflexivity. Qed.

Lemma xpow_192 : xpow 192 (sq_table 256 1) = Some (npoly (jump_poly LONG_JUMP)).
Proof. vm_compute. reflexivity. Qed.

(** C25. [jump] advances the generator by exactly 2^128 steps and [long_jump] by
    exactly 2^192: the streams of generators separated by jumps are the
    stretches of one sequence the comments promise. *)
Theorem XoShiro_jumps s : xo_ok s ->
  XoShiro_jump s = N.iter (2 ^ 128) xo_next s /\
  XoShiro_long_jump s = N.iter (2 ^ 192) xo_next s.
Proof.
  intros Hs. split.
  - exact (jump_with_ok 128 JUMP s Hs xpow_128).
  - exact (jump_with_ok 192 LONG_JUMP s Hs xpow_192).
Qed.

Lemma XoShiro_jumps_witness :
  xo_ok (mkXo 1 2 3 4) /\
  XoShiro_jump (mkXo 1 2 3 4) = N.iter (2 ^ 128) xo_next (mkXo 1 2 3 4).
Proof.
  assert (H : xo_ok (mkXo 1 2 3 4)) by (unfold xo_ok, fits; simpl; lia).
  split; [exact H|]. exact (proj1 (XoShiro_jumps _ H)).
Defined.

(** ** Seeding never gives the degenerate state *)

Lemma lxor_0_iff a b : Z.lxor a b = 0 <-> a = b.
Proof. apply Z.lxor_eq_0_iff. Qed.

Lemma xorshift_inj k z w : 0 < k -> fits 64 z -> fits 64 w ->
  Z.lxor z (Z.shiftr z k) = Z.lxor w (Z.shiftr w k) -> z = w.
Proof.
  intros Hk Hz Hw E. apply lxor_0_iff.
  assert (Hd : Z.lxor z w = Z.shiftr (Z.lxor z w) k).
  { rewrite Z.shiftr_lxor. apply Z.bits_inj'. intros i Hi.
    apply (f_equal (fun x => Z.testbit x i)) in E. rewrite !Z.lxor_spec in *.
    destruct (Z.testbit z i), (Z.testbit w i), (Z.testbit (Z.shiftr z k) i),
      (Z.testbit (Z.shiftr w k) i); done. }
  assert (Hf : fits 64 (Z.lxor z w)) by (apply fits_lxor; [lia|done|done]).
  destruct Hf as [Hf _]. revert Hd Hf. generalize (Z.lxor z w). intros d Hd Hf.
  rewrite Z.shiftr_div_pow2 in Hd by lia.
  destruct (Z.eq_dec d 0); [done|]. exfalso.
  assert (2 <= 2 ^ k) by (change 2 with (2 ^ 1) at 1; apply Z.pow_le_mono_r; lia).
  assert (d / 2 ^ k < d); [|lia]. apply Z.div_lt; lia.
Qed.

Lemma wrapping_mul_inj m m' z w : wrap 64 (m * m') = 1 -> fits 64 z -> fits 64 w ->
  wrapping_mul z m = wrapping_mul w m -> z = w.
Proof.
  intros Hm Hz Hw E. unfold wrapping_mul, wrap in *.
  assert (H : forall x, fits 64 x -> (x * m) mod 2 ^ 64 * m' mod 2 ^ 64 = x).
  { intros x Hx. rewrite Z.mul_mod_idemp_l by lia.
    rewrite <- Z.mul_assoc, <- Z.mul_mod_idemp_r, Hm, Z.mul_1_r by lia.
    by apply Z.mod_small. }
  rewrite <- (H z), <- (H w) by done. by rewrite E.
Qed.

Lemma splitmix_inj a b : fst (splitmix64 a) = fst (splitmix64 b) ->
  wrapping_add a 0x9e3779b97f4a7c15 = wrapping_add b 0x9e3779b97f4a7c15.
Proof.
  unfold splitmix64. cbn [fst]. intros E.
  apply xorshift_inj in E; [|lia|apply fits_wrap; lia..].
  apply (wrapping_mul_inj _ 0x319642b2d24d8ec3) in E; [|by vm_compute|..];
    [|apply fits_lxor; [lia|apply fits_wrap; lia|apply fits_shiftr; [lia|apply fits_wrap; lia]]..].
  apply xorshift_inj in E; [|lia|apply fits_wrap; lia..].
  apply (wrapping_mul_inj _ 0x96de1b173f119089) in E; [|by vm_compute|..];
    [|apply fits_lxor; [lia|apply fits_wrap; lia|apply fits_shiftr; [lia|apply fits_wrap; lia]]..].
  apply xorshift_inj in E; [done|lia|apply fits_wrap; lia..].
Qed.

Lemma splitmix_fits a : fits 64 (fst (splitmix64 a)).
Proof.
  unfold splitmix64. cbn [fst].
  apply fits_lxor; [lia|apply fits_wrap; lia|apply fits_shiftr; [lia|apply fits_wrap; lia]].
Qed.

Lemma seed_words seed : exists b c,
  XoShiro_seed seed = mkXo (fst (splitmix64 seed)) (fst (splitmix64 (snd (splitmix64 seed))))
    (fst (splitmix64 b)) (fst (splitmix64 c)).
Proof.
  unfold XoShiro_seed. destruct (splitmix64 seed) as [x st]. cbn [fst snd].
  destruct (splitmix64 st) as [y st']. exists st', (snd (splitmix64 st')).
  destruct (splitmix64 st') as [z st'']. cbn [fst snd]. by destruct (splitmix64 st'').
Qed.

Lemma seed_ok seed : xo_ok (XoShiro_seed seed).
Proof.
  destruct (seed_words seed) as (b & c & ->). repeat split; apply splitmix_fits.
Qed.

Lemma seed_nonzero seed : XoShiro_seed seed <> xo_zero.
Proof.
  destruct (seed_words seed) as (b & c & ->). intros E. injection E as E0 E1 _ _.
  rewrite <- E0 in E1. pose proof (eq_sym E1) as E2. clear E0 E1.
  apply splitmix_inj in E2. unfold splitmix64, wrapping_add, wrap in E2. cbn [snd] in E2.
  rewrite Z.add_mod_idemp_l in E2 by lia.
  rewrite <- Z.sub_move_0_r in E2.
  apply (f_equal (fun x => x mod 2 ^ 64)) in E2. rewrite <- Zminus_mod in E2.
  replace (seed + 11400714819323198485 - (seed + 11400714819323198485 + 11400714819323198485))
    with (- 11400714819323198485) in E2 by lia. vm_compute in E2. done.
Qed.

(** The constant term of [charpoly] is 1: the transition is injective. *)
Lemma charpoly_const s : exists q, peval charpoly s = xo_xor s (peval q (xo_next s)).
Proof.
  exists (Pos.div2 charpoly). assert (E : charpoly = (Pos.div2 charpoly)~1%positive) by reflexivity.
  revert E. generalize (Pos.div2 charpoly). generalize charpoly. by intros p q ->.
Qed.

Lemma xo_next_nonzero s : xo_ok s -> s <> xo_zero -> xo_next s <> xo_zero.
Proof.
  intros Hs Hn E. apply Hn. destruct (charpoly_const s) as [q Hq].
  rewrite charpoly_kills, E, peval_zero, xo_xor_0_r in Hq by done. done.
Qed.

Lemma xo_iter_nonzero n s : xo_ok s -> s <> xo_zero -> N.iter n xo_next s <> xo_zero.
Proof.
  intros Hs Hn. apply (N.iter_invariant n _ xo_next (fun s => xo_ok s /\ s <> xo_zero)); [|done].
  intros x [Hx Hx0]. split; [auto|by apply xo_next_nonzero].
Qed.

(** The states a generator can be in after seeding. *)
Inductive xo_reach : XoShiro -> Prop :=
| xo_reach_seed seed : xo_reach (XoShiro_seed seed)
| xo_reach_raw seed : xo_ok seed -> seed <> XoShiro_new -> xo_reach (XoShiro_seed_from_raw seed)
| xo_reach_u64 s : xo_reach s -> xo_reach (snd (XoShiro_next_u64 s))
| xo_reach_u32 s : xo_reach s -> xo_reach (snd (XoShiro_next_u32 s))
| xo_reach_fill s dest : xo_reach s -> xo_reach (snd (XoShiro_fill_bytes dest s))
| xo_reach_jump s : xo_reach s -> xo_reach (XoShiro_jump s)
| xo_reach_long s : xo_reach s -> xo_reach (XoShiro_long_jump s).

Lemma fill_chunks_state l s : snd (fill_chunks l s) = N.iter (N.of_nat (length l)) xo_next s.
Proof.
  revert s. induction l as [|c l IH]; intros s; [done|].
  cbn [fill_chunks length]. destruct (XoShiro_step s) as [r s'] eqn:E.
  specialize (IH s'). destruct (fill_chunks l s'). cbn [snd] in *. rewrite IH.
  rewrite Nat2N.inj_succ, N.iter_succ_r. f_equal. unfold xo_next. by rewrite E.
Qed.

(** A generator seeded from any word, or from a non-zero raw state, never
    reaches the all-zero state (which would output zero for ever), whatever is
    drawn from it and however it jumps. *)
Theorem XoShiro_never_zero s : xo_reach s -> xo_ok s /\ s <> XoShiro_new.
Proof.
  induction 1 as [seed|seed Hs Hn|s _ [Hs Hn]|s _ [Hs Hn]|s dest _ [Hs Hn]|s _ [Hs Hn]|s _ [Hs Hn]].
  - split; [apply seed_ok|apply seed_nonzero].
  - done.
  - split; [by apply xo_next_ok|by apply xo_next_nonzero].
  - unfold XoShiro_next_u32. replace (snd _) with (xo_next s)
      by (unfold xo_next; by destruct (XoShiro_step s)).
    split; [by apply xo_next_ok|by apply xo_next_nonzero].
  - unfold XoShiro_fill_bytes. rewrite fill_chunks_state.
    split; [by apply xo_iter_ok|by apply xo_iter_nonzero].
  - unfold XoShiro_jump. rewrite (jump_with_ok 128 JUMP s Hs xpow_128).
    split; [by apply xo_iter_ok|by apply xo_iter_nonzero].
  - unfold XoShiro_long_jump. rewrite (jump_with_ok 192 LONG_JUMP s Hs xpow_192).
    split; [by apply xo_iter_ok|by apply xo_iter_nonzero].
Qed.

Lemma XoShiro_never_zero_witness :
  xo_reach (XoShiro_jump (snd (XoShiro_next_u64 (XoShiro_seed 42)))) /\
  XoShiro_jump (snd (XoShiro_next_u64 (XoShiro_seed 42))) <> XoShiro_new.
Proof.
  assert (H : xo_reach (XoShiro_jump (snd (XoShiro_next_u64 (XoShiro_seed 42)))))
    by exact (xo_reach_jump _ (xo_reach_u64 _ (xo_reach_seed 42))).
  split; [exact H|]. exact (proj2 (XoShiro_never_zero _ H)).
Defined.

(** ** Filling a buffer *)

(** The little-endian bytes of the next [n] outputs. *)
Fixpoint output_bytes (n : nat) (s : XoShiro) : list Z :=
  match n with
  | O => []
  | S n => to_le_bytes 8 (fst (XoShiro_next_u64 s)) ++ output_bytes n (xo_next s)
  end.

Lemma fill_bytes_fuel fuel dest s : (length dest <= fuel)%nat ->
  fill_chunks (chunks_fuel fuel 8 dest) s =
  (take (length dest) (output_bytes (Nat.div (length dest + 7) 8) s),
   Nat.iter (Nat.div (length dest + 7) 8) xo_next s).
Proof.
  revert dest s. induction fuel as [|fuel IH]; intros [|x dest] s Hf; try done.
  { simpl in Hf. lia. }
  assert (Hd : Nat.div (length (x :: dest) + 7) 8 =
    S (Nat.div (length (drop 8 (x :: dest)) + 7) 8)).
  { rewrite length_drop. cbn [length]. destruct (Nat.le_gt_cases 8 (S (length dest))).
    - replace (S (length dest) + 7)%nat with (1 * 8 + (S (length dest) - 8 + 7))%nat by lia.
      rewrite Nat.div_add_l by lia. done.
    - replace (S (length dest) - 8)%nat with 0%nat by lia.
      replace (S (length dest) + 7)%nat with (1 * 8 + length dest)%nat by lia.
      rewrite Nat.div_add_l by lia. rewrite Nat.div_small by lia. done. }
  rewrite Hd. cbn [chunks_fuel fill_chunks output_bytes].
  unfold XoShiro_next_u64. destruct (XoShiro_step s) as [r s'] eqn:E.
  assert (En : xo_next s = s') by (unfold xo_next; by rewrite E).
  rewrite IH by (rewrite length_drop; simpl in *; lia). cbn [fst]. rewrite En.
  rewrite Nat.iter_succ_r, En. f_equal.
  rewrite take_app, to_le_bytes_length, length_take, length_drop.
  f_equal. destruct (Nat.le_gt_cases 8 (length (x :: dest))) as [H|H].
  - rewrite Nat.min_l, !take_ge by (rewrite ?to_le_bytes_length; lia). done.
  - by rewrite Nat.min_r by lia.
Qed.

(** [fill_bytes] writes exactly the first bytes of the little-endian output
    stream, as many as the buffer holds, and advances the generator by one
    step per started group of eight bytes. *)
Theorem XoShiro_fill_bytes_ok dest s :
  XoShiro_fill_bytes dest s =
  (take (length dest) (output_bytes (Nat.div (length dest + 7) 8) s),
   Nat.iter (Nat.div (length dest + 7) 8) xo_next s).
Proof. by apply fill_bytes_fuel. Qed.
