(* ===== verification/BitFields.v ===== *)
(** * BitFields: the bit-field types generated by the [bits!] macro

    [src/macros.rs] generates, for every declared field of a word, a getter and a
    setter. [bits_get]/[bits_set] model the arms for a range of bits,
    [bit_get]/[bit_set] those for a single bit; [w] is the width of the underlying
    integer type. The Sv39 addresses ([src/mm/address.rs]), the page-table entry
    and its flags ([src/mm/page_table/entry.rs]) and the [satp] value
    ([src/arch/riscv64/registers/values.rs]) are instances. *)

From S2P Require Import Prelude.

(** ** The generated accessors *)

(** [((1 << (to - from + 1)) - 1) << from] *)
Definition field_mask (from to : Z) : Z :=
  Z.shiftl (Z.shiftl 1 (to - from + 1) - 1) from.

Definition bits_get (from to : Z) (x : Z) : Z :=
  Z.shiftr (Z.land x (field_mask from to)) from.

Definition bits_set (w from to : Z) (x value : Z) : Z :=
  Z.lor (Z.land x (wnot w (field_mask from to)))
    (wrap w (Z.shiftl (Z.land value (Z.shiftl 1 (to - from + 1) - 1)) from)).

Definition bit_get (from : Z) (x : Z) : bool :=
  negb (Z.land x (Z.shiftl 1 from) =? 0).

Definition bit_set (w from : Z) (x : Z) (value : bool) : Z :=
  Z.lor (Z.land x (wnot w (Z.shiftl 1 from)))
    (wrap w (Z.shiftl (if value then 1 else 0) from)).

(** ** Sv39 addresses *)

Definition VirtualAddr_vpn0 : Z -> Z := bits_get 12 20.
Definition VirtualAddr_vpn1 : Z -> Z := bits_get 21 29.
Definition VirtualAddr_vpn2 : Z -> Z := bits_get 30 38.
Definition VirtualAddr_vpn : Z -> Z := bits_get 12 38.
Definition VirtualAddr_page_offset : Z -> Z := bits_get 0 11.

Definition PhysicalAddr_new : Z := 0.
Definition PhysicalAddr_ppn : Z -> Z := bits_get 12 55.
Definition PhysicalAddr_set_ppn : Z -> Z -> Z := bits_set 64 12 55.
Definition PhysicalAddr_page_offset : Z -> Z := bits_get 0 11.

(** ** Page-table entries and their flags *)

Definition PageTableEntry_new : Z := 0.
Definition PageTableEntry_v : Z -> bool := bit_get 0.
Definition PageTableEntry_rwx : Z -> Z := bits_get 1 3.
Definition PageTableEntry_flags : Z -> Z := bits_get 0 7.
Definition PageTableEntry_ppn : Z -> Z := bits_get 10 53.
Definition PageTableEntry_set_v : Z -> bool -> Z := bit_set 64 0.
Definition PageTableEntry_set_r : Z -> bool -> Z := bit_set 64 1.
Definition PageTableEntry_set_w : Z -> bool -> Z := bit_set 64 2.
Definition PageTableEntry_set_x : Z -> bool -> Z := bit_set 64 3.
Definition PageTableEntry_set_u : Z -> bool -> Z := bit_set 64 4.
Definition PageTableEntry_set_g : Z -> bool -> Z := bit_set 64 5.
Definition PageTableEntry_set_a : Z -> bool -> Z := bit_set 64 6.
Definition PageTableEntry_set_d : Z -> bool -> Z := bit_set 64 7.
Definition PageTableEntry_set_ppn : Z -> Z -> Z := bits_set 64 10 53.

Definition PageTableEntryFlags_new : Z := 0.
Definition PageTableEntryFlags_r : Z -> bool := bit_get 1.
Definition PageTableEntryFlags_w : Z -> bool := bit_get 2.
Definition PageTableEntryFlags_x : Z -> bool := bit_get 3.
Definition PageTableEntryFlags_u : Z -> bool := bit_get 4.
Definition PageTableEntryFlags_g : Z -> bool := bit_get 5.
Definition PageTableEntryFlags_a : Z -> bool := bit_get 6.
Definition PageTableEntryFlags_d : Z -> bool := bit_get 7.
Definition PageTableEntryFlags_set_r : Z -> bool -> Z := bit_set 64 1.
Definition PageTableEntryFlags_set_w : Z -> bool -> Z := bit_set 64 2.
Definition PageTableEntryFlags_set_x : Z -> bool -> Z := bit_set 64 3.
Definition PageTableEntryFlags_set_u : Z -> bool -> Z := bit_set 64 4.
Definition PageTableEntryFlags_set_a : Z -> bool -> Z := bit_set 64 6.
Definition PageTableEntryFlags_set_d : Z -> bool -> Z := bit_set 64 7.

(** ** The [satp] register value *)

Definition SatpValue_new : Z := 0.
Definition SatpValue_ppn : Z -> Z := bits_get 0 43.
Definition SatpValue_mode : Z -> Z := bits_get 60 63.
Definition SatpValue_set_ppn : Z -> Z -> Z := bits_set 64 0 43.
Definition SatpValue_set_mode : Z -> Z -> Z := bits_set 64 60 63.
Definition SatpMode_SV39 : Z := 8.

(** ** The accessors, bit by bit *)

Lemma field_mask_testbit from to i : 0 <= from <= to -> 0 <= i ->
  Z.testbit (field_mask from to) i = (from <=? i) && (i <=? to).
Proof.
  intros Hf Hi. unfold field_mask. rewrite mask_ones, Z.shiftl_spec by lia.
  destruct (Z.leb_spec from i); [|by rewrite Z.testbit_neg_r by lia].
  rewrite Z.testbit_ones_nonneg by lia. simpl.
  destruct (Z.leb_spec i to), (Z.ltb_spec (i - from) (to - from + 1)); lia || done.
Qed.

Lemma bits_get_testbit from to x i : 0 <= from <= to -> 0 <= i ->
  Z.testbit (bits_get from to x) i = (i <=? to - from) && Z.testbit x (i + from).
Proof.
  intros Hf Hi. unfold bits_get.
  rewrite Z.shiftr_spec, Z.land_spec, field_mask_testbit by lia.
  destruct (Z.leb_spec from (i + from)); [|lia].
  destruct (Z.leb_spec (i + from) to), (Z.leb_spec i (to - from)); try lia; simpl.
  apply andb_true_r.
Qed.

Lemma bits_set_testbit w from to x v i : 0 <= from <= to -> to < w -> fits w x -> 0 <= i ->
  Z.testbit (bits_set w from to x v) i =
  if (from <=? i) && (i <=? to) then Z.testbit v (i - from) else Z.testbit x i.
Proof.
  intros Hf Ht Hx Hi. unfold bits_set.
  rewrite Z.lor_spec, Z.land_spec, wnot_spec, field_mask_testbit by lia.
  rewrite wrap_ones, Z.land_spec, Z.testbit_ones_nonneg, Z.shiftl_spec, mask_ones by lia.
  rewrite Z.land_spec. destruct (Z.leb_spec from i); simpl.
  - rewrite Z.testbit_ones_nonneg by lia. destruct (Z.leb_spec i to); simpl.
    + destruct (Z.ltb_spec (i - from) (to - from + 1)), (Z.ltb_spec i w); try lia.
      by rewrite andb_false_r, !andb_true_r.
    + destruct (Z.ltb_spec (i - from) (to - from + 1)); [lia|].
      rewrite andb_false_r, orb_false_r. destruct (Z.ltb_spec i w); [by rewrite andb_true_r|].
      by rewrite (fits_bit w x) by (done || lia).
  - rewrite (Z.testbit_neg_r v), orb_false_r by lia.
    destruct (Z.ltb_spec i w); [by rewrite andb_true_r|lia].
Qed.

Lemma bit_get_testbit from x : 0 <= from -> bit_get from x = Z.testbit x from.
Proof. apply land_one_shl. Qed.

Lemma bit_set_testbit w from x b i : 0 <= from < w -> fits w x -> 0 <= i ->
  Z.testbit (bit_set w from x b) i = if i =? from then b else Z.testbit x i.
Proof.
  intros Hf Hx Hi. unfold bit_set.
  rewrite Z.lor_spec, Z.land_spec, wnot_spec, testbit_one_shl by lia.
  rewrite wrap_ones, Z.land_spec, Z.testbit_ones_nonneg by lia.
  assert (Hb : Z.testbit (Z.shiftl (if b then 1 else 0) from) i = b && (i =? from)).
  { destruct b; [by rewrite testbit_one_shl by lia|]. by rewrite Z.shiftl_0_l, Z.bits_0. }
  rewrite Hb. destruct (Z.eqb_spec i from) as [->|]; simpl.
  - destruct (Z.ltb_spec from w); [|lia]. by rewrite andb_false_r, !andb_true_r.
  - rewrite andb_false_r, andb_false_l, orb_false_r.
    destruct (Z.ltb_spec i w); [by rewrite andb_true_r|].
    by rewrite (fits_bit w x) by (done || lia).
Qed.

Lemma bits_get_fits from to x : 0 <= from <= to -> fits (to - from + 1) (bits_get from to x).
Proof.
  intros Hf. apply bits_fits; [lia| |].
  - unfold bits_get. apply Z.shiftr_nonneg, Z.land_nonneg. right. unfold field_mask.
    apply Z.shiftl_nonneg. rewrite mask_ones by lia. rewrite Z.ones_equiv.
    pose proof (Z.pow_pos_nonneg 2 (to - from + 1)). lia.
  - intros i Hi. rewrite bits_get_testbit by lia.
    destruct (Z.leb_spec i (to - from)); [lia|done].
Qed.

Lemma bits_set_fits w from to x v : 0 <= from <= to -> to < w -> fits w x ->
  fits w (bits_set w from to x v).
Proof.
  intros Hf Ht Hx. unfold bits_set. apply fits_lor; [lia| |apply fits_wrap; lia].
  apply fits_land_l; [lia|done].
Qed.

Lemma bit_set_fits w from x b : 0 <= from < w -> fits w x -> fits w (bit_set w from x b).
Proof.
  intros Hf Hx. unfold bit_set. apply fits_lor; [lia| |apply fits_wrap; lia].
  apply fits_land_l; [lia|done].
Qed.

#[export] Hint Resolve bits_get_fits bits_set_fits bit_set_fits : athera.

(** A read field in arithmetic form. *)
Lemma bits_get_div from to x : 0 <= from <= to ->
  bits_get from to x = x / 2 ^ from mod 2 ^ (to - from + 1).
Proof.
  intros Hf. rewrite <- Z.land_ones, <- Z.shiftr_div_pow2 by lia.
  apply Z.bits_inj'. intros i Hi.
  rewrite bits_get_testbit, Z.land_spec, Z.shiftr_spec, Z.testbit_ones_nonneg by lia.
  rewrite andb_comm. f_equal.
  destruct (Z.leb_spec i (to - from)), (Z.ltb_spec i (to - from + 1)); lia || done.
Qed.

(** Reading a field back, and reading another one. *)
Lemma bits_get_set w from to x v : 0 <= from <= to -> to < w -> fits w x ->
  bits_get from to (bits_set w from to x v) = v mod 2 ^ (to - from + 1) /\
  (forall f t, 0 <= f <= t -> t < from \/ to < f ->
     bits_get f t (bits_set w from to x v) = bits_get f t x).
Proof.
  intros Hf Ht Hx. split.
  - rewrite <- Z.land_ones by lia. apply Z.bits_inj'. intros i Hi.
    rewrite bits_get_testbit, Z.land_spec, Z.testbit_ones_nonneg by lia.
    rewrite bits_set_testbit by (done || lia).
    replace (i + from - from) with i by lia.
    destruct (Z.leb_spec i (to - from)), (Z.ltb_spec i (to - from + 1)),
      (Z.leb_spec from (i + from)), (Z.leb_spec (i + from) to); try lia; simpl;
      by rewrite ?andb_true_r, ?andb_false_r.
  - intros f t Hft Hd. apply Z.bits_inj'. intros i Hi.
    rewrite !bits_get_testbit by lia. destruct (Z.leb_spec i (t - f)); [|done]. simpl.
    rewrite bits_set_testbit by (done || lia).
    destruct (Z.leb_spec from (i + f)), (Z.leb_spec (i + f) to); try lia; done.
Qed.

(** The generated accessors are the field accessors of a record: a setter
    stores the value reduced to the width of its field, leaves every disjoint
    field (and single bit) as it was, and keeps the word within its width. *)
Theorem bits_laws w from to x v : 0 <= from <= to -> to < w -> fits w x ->
  bits_get from to (bits_set w from to x v) = v mod 2 ^ (to - from + 1) /\
  (forall f t, 0 <= f <= t -> t < from \/ to < f ->
     bits_get f t (bits_set w from to x v) = bits_get f t x) /\
  (forall i, 0 <= i -> i < from \/ to < i ->
     bit_get i (bits_set w from to x v) = bit_get i x) /\
  (forall i b, 0 <= i < w ->
     bit_get i (bit_set w i x b) = b /\
     (i < from \/ to < i -> bits_get from to (bit_set w i x b) = bits_get from to x)) /\
  fits w (bits_set w from to x v).
Proof.
  intros Hf Ht Hx. destruct (bits_get_set w from to x v Hf Ht Hx) as [H1 H2].
  split; [done|]. split; [done|]. split; [|split].
  - intros i Hi Hd. rewrite !bit_get_testbit, bits_set_testbit by (done || lia).
    destruct (Z.leb_spec from i), (Z.leb_spec i to); try lia; done.
  - intros i b Hi. rewrite bit_get_testbit, bit_set_testbit, Z.eqb_refl by (done || lia).
    split; [done|]. intros Hd. apply Z.bits_inj'. intros j Hj.
    rewrite !bits_get_testbit by lia. destruct (Z.leb_spec j (to - from)); [|done]. simpl.
    rewrite bit_set_testbit by (done || lia). destruct (Z.eqb_spec (j + from) i); [lia|done].
  - by apply bits_set_fits.
Qed.

Lemma bits_laws_witness :
  0 <= 10 <= 53 /\ fits 64 0x2007 /\
  PageTableEntry_ppn (PageTableEntry_set_ppn 0x2007 0x80200) = 0x80200 mod 2 ^ (53 - 10 + 1).
Proof.
  assert (H1 : 0 <= 10 <= 53) by lia.
  assert (H2 : fits 64 0x2007) by (unfold fits; lia).
  split; [exact H1|]. split; [exact H2|].
  exact (proj1 (bits_laws 64 10 53 0x2007 0x80200 H1 ltac:(lia) H2)).
Defined.
