(* ===== verification/Abi.v ===== *)
(** * Abi: errors, error codes and the system call interface

    The error types of [src/error.rs] and [src/fs/fs_error.rs], the constants of
    [src/syscall/abi.rs], and the [numeric!] macro of [src/macros.rs] that
    declares them: an integer newtype with named constants and named ranges. *)

From stdpp Require Import base list strings.
From S2P Require Import Prelude BitFields.

(** ** [numeric!] *)

(** An entry [NAME = from] or [NAME = from => to]. *)
Record numeric_item : Type := mkItem { ni_name : string; ni_from : Z; ni_to : option Z }.

(** The predicate [is_<name>] of a range entry. *)
Definition numeric_in_range (from to value : Z) : bool := (from <=? value) && (value <=? to).

(** The first constant, or else the first range, that has the value: the arms
    of the [match] of [Debug::fmt] in their order. *)
Definition numeric_const (value : Z) (it : numeric_item) : bool :=
  match ni_to it with None => value =? ni_from it | Some _ => false end.

Definition numeric_range (value : Z) (it : numeric_item) : bool :=
  match ni_to it with Some to => numeric_in_range (ni_from it) to value | None => false end.

Definition numeric_debug (type_name : string) (items : list numeric_item) (value : Z) : string :=
  match List.find (numeric_const value) items with
  | Some it => type_name +:+ "::" +:+ ni_name it
  | None =>
      match List.find (numeric_range value) items with
      | Some it => type_name +:+ "::" +:+ ni_name it
      | None => "unknown"
      end
  end.

(** The operators of the [with ops] form, on values that do not overflow:
    [name - t] and [t - name]. *)
Definition numeric_sub_base (self rhs : Z) : outcome Z := usize_sub self rhs.
Definition base_sub_numeric (self rhs : Z) : outcome Z := usize_sub rhs self.

(** ** [ErrorCode] *)

Definition EPERM : Z := -1.
Definition ENOENT : Z := -2.
Definition ESRCH : Z := -3.
Definition EINTR : Z := -4.
Definition EIO : Z := -5.
Definition ENXIO : Z := -6.
Definition E2BIG : Z := -7.
Definition ENOEXEC : Z := -8.
Definition EBADF : Z := -9.
Definition ECHILD : Z := -10.
Definition EAGAIN : Z := -11.
Definition ENOMEM : Z := -12.
Definition EACCES : Z := -13.
Definition EFAULT : Z := -14.
Definition EBUSY : Z := -16.
Definition EEXIST : Z := -17.
Definition EXDEV : Z := -18.
Definition ENODEV : Z := -19.
Definition ENOTDIR : Z := -20.
Definition EISDIR : Z := -21.
Definition EINVAL : Z := -22.
Definition ENFILE : Z := -23.
Definition EMFILE : Z := -24.
Definition ENOTTY : Z := -25.
Definition EFBIG : Z := -27.
Definition ENOSPC : Z := -28.
Definition ESPIPE : Z := -29.
Definition EROFS : Z := -30.
Definition EMLINK : Z := -31.
Definition EPIPE : Z := -32.
Definition ERANGE : Z := -34.
Definition ENAMETOOLONG : Z := -36.
Definition ENOSYS : Z := -38.
Definition ENOTEMPTY : Z := -39.
Definition ELOOP : Z := -40.
Definition EOVERFLOW : Z := -75.

Definition ErrorCode_items : list numeric_item := [
  mkItem "EPERM" EPERM None;
  mkItem "ENOENT" ENOENT None;
  mkItem "ESRCH" ESRCH None;
  mkItem "EINTR" EINTR None;
  mkItem "EIO" EIO None;
  mkItem "ENXIO" ENXIO None;
  mkItem "E2BIG" E2BIG None;
  mkItem "ENOEXEC" ENOEXEC None;
  mkItem "EBADF" EBADF None;
  mkItem "ECHILD" ECHILD None;
  mkItem "EAGAIN" EAGAIN None;
  mkItem "ENOMEM" ENOMEM None;
  mkItem "EACCES" EACCES None;
  mkItem "EFAULT" EFAULT None;
  mkItem "EBUSY" EBUSY None;
  mkItem "EEXIST" EEXIST None;
  mkItem "EXDEV" EXDEV None;
  mkItem "ENODEV" ENODEV None;
  mkItem "ENOTDIR" ENOTDIR None;
  mkItem "EISDIR" EISDIR None;
  mkItem "EINVAL" EINVAL None;
  mkItem "ENFILE" ENFILE None;
  mkItem "EMFILE" EMFILE None;
  mkItem "ENOTTY" ENOTTY None;
  mkItem "EFBIG" EFBIG None;
  mkItem "ENOSPC" ENOSPC None;
  mkItem "ESPIPE" ESPIPE None;
  mkItem "EROFS" EROFS None;
  mkItem "EMLINK" EMLINK None;
  mkItem "EPIPE" EPIPE None;
  mkItem "ERANGE" ERANGE None;
  mkItem "ENAMETOOLONG" ENAMETOOLONG None;
  mkItem "ENOSYS" ENOSYS None;
  mkItem "ENOTEMPTY" ENOTEMPTY None;
  mkItem "ELOOP" ELOOP None;
  mkItem "EOVERFLOW" EOVERFLOW None].

(** ** [MmapProt] *)

Definition MmapProt_NONE : Z := 0.
Definition MmapProt_READ : Z := 1.
Definition MmapProt_WRITE : Z := 2.
Definition MmapProt_EXEC : Z := 4.

Definition MmapProt_items : list numeric_item := [
  mkItem "NONE" MmapProt_NONE None;
  mkItem "READ" MmapProt_READ None;
  mkItem "WRITE" MmapProt_WRITE None;
  mkItem "EXEC" MmapProt_EXEC None].

(** ** [MmapFlags] *)

Definition MmapFlags_SHARED : Z := 0x01.
Definition MmapFlags_PRIVATE : Z := 0x02.
Definition MmapFlags_FIXED : Z := 0x10.
Definition MmapFlags_ANONYMOUS : Z := 0x20.
Definition MmapFlags_GROWSDOWN : Z := 0x0100.
Definition MmapFlags_STACK : Z := 0x020000.
Definition MmapFlags_FIXED_NOREPLACE : Z := 0x100000.

Definition MmapFlags_items : list numeric_item := [
  mkItem "SHARED" MmapFlags_SHARED None;
  mkItem "PRIVATE" MmapFlags_PRIVATE None;
  mkItem "FIXED" MmapFlags_FIXED None;
  mkItem "ANONYMOUS" MmapFlags_ANONYMOUS None;
  mkItem "GROWSDOWN" MmapFlags_GROWSDOWN None;
  mkItem "STACK" MmapFlags_STACK None;
  mkItem "FIXED_NOREPLACE" MmapFlags_FIXED_NOREPLACE None].

(** ** [MremapFlags] *)

Definition MremapFlags_MAYMOVE : Z := 1.
Definition MremapFlags_FIXED : Z := 2.
Definition MremapFlags_DONTUNMAP : Z := 4.

Definition MremapFlags_items : list numeric_item := [
  mkItem "MAYMOVE" MremapFlags_MAYMOVE None;
  mkItem "FIXED" MremapFlags_FIXED None;
  mkItem "DONTUNMAP" MremapFlags_DONTUNMAP None].

(** ** [Syscall] *)

Definition Syscall_READ : Z := 63.
Definition Syscall_WRITE : Z := 64.
Definition Syscall_EXIT : Z := 93.
Definition Syscall_REBOOT : Z := 142.
Definition Syscall_MUNMAP : Z := 215.
Definition Syscall_MREMAP : Z := 216.
Definition Syscall_CLONE : Z := 220.
Definition Syscall_EXECVE : Z := 221.
Definition Syscall_MMAP : Z := 222.
Definition Syscall_WAIT4 : Z := 260.

Definition Syscall_items : list numeric_item := [
  mkItem "READ" Syscall_READ None;
  mkItem "WRITE" Syscall_WRITE None;
  mkItem "EXIT" Syscall_EXIT None;
  mkItem "REBOOT" Syscall_REBOOT None;
  mkItem "MUNMAP" Syscall_MUNMAP None;
  mkItem "MREMAP" Syscall_MREMAP None;
  mkItem "CLONE" Syscall_CLONE None;
  mkItem "EXECVE" Syscall_EXECVE None;
  mkItem "MMAP" Syscall_MMAP None;
  mkItem "WAIT4" Syscall_WAIT4 None].

(** ** [RebootCmd] *)

Definition RebootCmd_RESTART : Z := 0x1234567.
Definition RebootCmd_POWER_OFF : Z := 0x4321fedc.
Definition RebootCmd_HALT : Z := 0xcdef0123.

Definition RebootCmd_items : list numeric_item := [
  mkItem "RESTART" RebootCmd_RESTART None;
  mkItem "POWER_OFF" RebootCmd_POWER_OFF None;
  mkItem "HALT" RebootCmd_HALT None].

(** ** [WaitSignal] *)

Definition WaitSignal_NONE : Z := 0.
Definition WaitSignal_HUP : Z := 1.
Definition WaitSignal_INT : Z := 2.
Definition WaitSignal_QUIT : Z := 3.
Definition WaitSignal_ILL : Z := 4.
Definition WaitSignal_TRAP : Z := 5.
Definition WaitSignal_ABRT : Z := 6.
Definition WaitSignal_BUS : Z := 7.
Definition WaitSignal_FPE : Z := 8.
Definition WaitSignal_KILL : Z := 9.
Definition WaitSignal_USR1 : Z := 10.
Definition WaitSignal_SEGV : Z := 11.
Definition WaitSignal_USR2 : Z := 12.
Definition WaitSignal_PIPE : Z := 13.
Definition WaitSignal_ALRM : Z := 14.
Definition WaitSignal_TERM : Z := 15.
Definition WaitSignal_STKFLT : Z := 16.
Definition WaitSignal_CHLD : Z := 17.
Definition WaitSignal_CONT : Z := 18.
Definition WaitSignal_STOP : Z := 19.
Definition WaitSignal_TSTP : Z := 20.
Definition WaitSignal_TTIN : Z := 21.
Definition WaitSignal_TTOU : Z := 22.
Definition WaitSignal_URG : Z := 23.
Definition WaitSignal_XCPU : Z := 24.
Definition WaitSignal_XFSZ : Z := 25.
Definition WaitSignal_VTALRM : Z := 26.
Definition WaitSignal_PROF : Z := 27.
Definition WaitSignal_WINCH : Z := 28.
Definition WaitSignal_IO : Z := 29.
Definition WaitSignal_PWR : Z := 30.
Definition WaitSignal_SYS : Z := 31.

Definition WaitSignal_items : list numeric_item := [
  mkItem "NONE" WaitSignal_NONE None;
  mkItem "HUP" WaitSignal_HUP None;
  mkItem "INT" WaitSignal_INT None;
  mkItem "QUIT" WaitSignal_QUIT None;
  mkItem "ILL" WaitSignal_ILL None;
  mkItem "TRAP" WaitSignal_TRAP None;
  mkItem "ABRT" WaitSignal_ABRT None;
  mkItem "BUS" WaitSignal_BUS None;
  mkItem "FPE" WaitSignal_FPE None;
  mkItem "KILL" WaitSignal_KILL None;
  mkItem "USR1" WaitSignal_USR1 None;
  mkItem "SEGV" WaitSignal_SEGV None;
  mkItem "USR2" WaitSignal_USR2 None;
  mkItem "PIPE" WaitSignal_PIPE None;
  mkItem "ALRM" WaitSignal_ALRM None;
  mkItem "TERM" WaitSignal_TERM None;
  mkItem "STKFLT" WaitSignal_STKFLT None;
  mkItem "CHLD" WaitSignal_CHLD None;
  mkItem "CONT" WaitSignal_CONT None;
  mkItem "STOP" WaitSignal_STOP None;
  mkItem "TSTP" WaitSignal_TSTP None;
  mkItem "TTIN" WaitSignal_TTIN None;
  mkItem "TTOU" WaitSignal_TTOU None;
  mkItem "URG" WaitSignal_URG None;
  mkItem "XCPU" WaitSignal_XCPU None;
  mkItem "XFSZ" WaitSignal_XFSZ None;
  mkItem "VTALRM" WaitSignal_VTALRM None;
  mkItem "PROF" WaitSignal_PROF None;
  mkItem "WINCH" WaitSignal_WINCH None;
  mkItem "IO" WaitSignal_IO None;
  mkItem "PWR" WaitSignal_PWR None;
  mkItem "SYS" WaitSignal_SYS None].

(** ** [WaitOptions] and [WaitStatus] *)

Definition WaitOptions_nohang : Z -> bool := bit_get 0.
Definition WaitOptions_untraced : Z -> bool := bit_get 1.
Definition WaitOptions_continued : Z -> bool := bit_get 3.
Definition WaitOptions_exited : Z -> bool := bit_get 2.
Definition WaitOptions_nowait : Z -> bool := bit_get 24.

Definition WaitStatus_signal : Z -> Z := bits_get 0 6.
Definition WaitStatus_core_dump : Z -> bool := bit_get 7.
Definition WaitStatus_exit_code : Z -> Z := bits_get 8 15.
Definition WaitStatus_set_signal : Z -> Z -> Z := bits_set 32 0 6.
Definition WaitStatus_set_core_dump : Z -> bool -> Z := bit_set 32 7.
Definition WaitStatus_set_exit_code : Z -> Z -> Z := bits_set 32 8 15.

(** ** Error types *)

Inductive ProcError : Set := NoOtherTask | ArgsTooLong.

Inductive ElfError : Set := NotElf | Not64Bit | NotLsb | NotRiscv.

Inductive MemError : Set :=
| OutOfMemory | PageTableMissing | AddressSpaceNotFound | NotUserAddressSpace | NullPointer.

Inductive DevError : Set :=
| DevMem (err : MemError)
| MemoryProbeFailed | VirtioHandshakeFailed | VirtioNotSupported | VirtioFeaturesNotOk
| VirtioBlockFailed | VirtioRngFailed | NoVirtioBlock | NoUart.

Inductive IoError : Set := IoError_Request | IoError_NotReady.

(** The error of the kernel's own operations; [Fdt] holds a message. *)
Inductive Error : Set :=
| ErrFdt (msg : list Z) | NoTidAvailable | ErrElf (err : ElfError) | ErrMem (err : MemError)
| ErrDev (err : DevError) | ErrProc (err : ProcError) | ErrIo (err : IoError).

(** [Whence] of [src/driver/traits.rs]. *)
Inductive Whence : Set := SEEK_SET | SEEK_CUR | SEEK_END | SEEK_other (n : Z).

Inductive FsError : Set :=
| NotFound | NotDir | IsDir | AlreadyExists | NotEmpty | PermissionDenied | NameTooLong
| TooManyLinks | CrossDevice | NoSpace | Invalid | Io | FsOutOfMemory | Unsupported.

Definition FsError_errno (self : FsError) : Z :=
  match self with
  | NotFound => 2
  | Io => 5
  | FsOutOfMemory => 12
  | PermissionDenied => 13
  | AlreadyExists => 17
  | CrossDevice => 18
  | NotDir => 20
  | IsDir => 21
  | Invalid => 22
  | NoSpace => 28
  | NameTooLong => 36
  | NotEmpty => 39
  | TooManyLinks => 40
  | Unsupported => 95
  end.

#[export] Instance MemError_eq_dec : EqDecision MemError.
Proof. solve_decision. Defined.
#[export] Instance FsError_eq_dec : EqDecision FsError.
Proof. solve_decision. Defined.

(** [From<IoError>]. *)
Definition FsError_from_IoError (err : IoError) : FsError := Io.

(** ** Theory *)

Lemma numeric_find_const v items it :
  NoDup (ni_from <$> items) -> it ∈ items -> ni_to it = None -> v = ni_from it ->
  List.find (numeric_const v) items = Some it.
Proof.
  intros Hd Hi Ht ->. induction items as [|x items IH]; [by apply not_elem_of_nil in Hi|].
  rewrite fmap_cons, NoDup_cons in Hd. destruct Hd as [Hx Hd]. simpl.
  apply elem_of_cons in Hi as [<-|Hi].
  - unfold numeric_const. by rewrite Ht, Z.eqb_refl.
  - unfold numeric_const at 1. replace (ni_from it =? ni_from x) with false.
    + destruct (ni_to x); by apply IH.
    + symmetry. apply Z.eqb_neq. intros E. apply Hx. rewrite <- E. by apply list_elem_of_fmap_2.
Qed.

(** The value of the constant with a printed name. *)
Definition numeric_parse (type_name : string) (items : list numeric_item) (s : string) : option Z :=
  ni_from <$> List.find (fun it => String.eqb (type_name +:+ "::" +:+ ni_name it) s) items.

(** The enumerations of the interface. *)
Definition abi_tables : list (string * list numeric_item) := [
  ("ErrorCode", ErrorCode_items);
  ("MmapProt", MmapProt_items);
  ("MmapFlags", MmapFlags_items);
  ("MremapFlags", MremapFlags_items);
  ("Syscall", Syscall_items);
  ("RebootCmd", RebootCmd_items);
  ("WaitSignal", WaitSignal_items)].

Definition table_reads_back (t : string * list numeric_item) : bool :=
  forallb (fun it => bool_decide (ni_to it = None) &&
    bool_decide (numeric_parse t.1 t.2 (numeric_debug t.1 t.2 (ni_from it)) = Some (ni_from it))) t.2.

Lemma abi_tables_read_back : forallb table_reads_back abi_tables = true.
Proof. vm_compute. reflexivity. Qed.

(** The names of the system call interface identify their values: printing
    a declared value and looking the name up again gives the value back, for
    every enumeration, and exactly the other values print as unknown. *)
Theorem abi_names_roundtrip ty items v : (ty, items) ∈ abi_tables ->
  if decide (v ∈ ni_from <$> items) then numeric_parse ty items (numeric_debug ty items v) = Some v
  else numeric_debug ty items v = "unknown".
Proof.
  intros Ht. pose proof abi_tables_read_back as H. rewrite forallb_forall in H.
  apply list_elem_of_In in Ht. specialize (H _ Ht). unfold table_reads_back in H. cbn [fst snd] in H.
  rewrite forallb_forall in H. destruct (decide _) as [Hv|Hv].
  - apply list_elem_of_fmap in Hv as (it & -> & Hi). apply list_elem_of_In in Hi.
    apply H in Hi. apply andb_true_iff in Hi as [_ Hi]. by apply bool_decide_eq_true in Hi.
  - assert (Hno : forall it, it ∈ items -> numeric_const v it = false /\ numeric_range v it = false).
    { intros it Hi. assert (Hi' := Hi). apply list_elem_of_In, H, andb_true_iff in Hi' as [Hn _].
      apply bool_decide_eq_true in Hn. unfold numeric_const, numeric_range. rewrite Hn. split; [|done].
      apply Z.eqb_neq. intros ->. apply Hv. by apply list_elem_of_fmap_2. }
    unfold numeric_debug.
    destruct (List.find (numeric_const v) items) as [it|] eqn:E1.
    { apply List.find_some in E1 as [Hi E1]. apply list_elem_of_In in Hi. destruct (Hno it Hi). congruence. }
    destruct (List.find (numeric_range v) items) as [it|] eqn:E2; [|done].
    apply List.find_some in E2 as [Hi E2]. apply list_elem_of_In in Hi. destruct (Hno it Hi). congruence.
Qed.

Lemma abi_names_witness : ("ErrorCode", ErrorCode_items) ∈ abi_tables /\
  numeric_parse "ErrorCode" ErrorCode_items (numeric_debug "ErrorCode" ErrorCode_items ENOSYS) = Some ENOSYS.
Proof.
  assert (Ht : ("ErrorCode", ErrorCode_items) ∈ abi_tables) by (left).
  split; [exact Ht|]. pose proof (abi_names_roundtrip "ErrorCode" ErrorCode_items ENOSYS Ht) as H.
  rewrite decide_True in H; [exact H|]. apply list_elem_of_fmap. exists (mkItem "ENOSYS" ENOSYS None).
  split; [reflexivity|]. unfold ErrorCode_items. repeat (first [left | right]).
Defined.

(** The difference of a plain integer and a [numeric! .. with ops] value is
    computed the other way round: for [rhs < self] the subtraction [self - rhs]
    overflows, and for [self <= rhs] it gives [rhs - self]. *)
Theorem base_sub_numeric_reversed self rhs :
  (rhs < self -> base_sub_numeric self rhs = Panic) /\
  (self <= rhs -> base_sub_numeric self rhs = Ret (rhs - self)).
Proof.
  unfold base_sub_numeric, usize_sub. split; intros H; destruct (Z.leb_spec self rhs); lia || done.
Qed.

Lemma base_sub_numeric_witness : base_sub_numeric 5 3 = Panic /\ base_sub_numeric 3 5 = Ret 2.
Proof.
  split; [apply (proj1 (base_sub_numeric_reversed 5 3)); lia|].
  exact (proj2 (base_sub_numeric_reversed 3 5) ltac:(lia)).
Defined.
