(* ===== verification/FrameAlloc.v ===== *)
(** * FrameAlloc: what the frame allocator promises to its clients

    The page tables, the user mappings and the object caches take page frames
    from the frame allocator ([alloc_frame] of [src/mm/allocator.rs]) and give
    them back when the owning [Frame] is dropped. [FrameSource] is that pair of
    operations on the physical memory and the allocator's own state,
    [FrameLaws] the contract the clients rely on. The buddy allocator fulfils
    it ([buddy_laws]). *)

From stdpp Require Import gmap.
From S2P Require Import Prelude Buddy.

Class FrameSource (A : Type) : Type := {
  fs_alloc : heap -> A -> option Z -> outcome (option Frame * heap * A);
  fs_dealloc : heap -> A -> Frame -> outcome (heap * A)
}.

(** The bytes of a frame. *)
Definition in_frame (f : Frame) (x : Z) : Prop := fr_start f <= x < fr_start f + fr_size f.

Definition frame_dis (f g : Frame) : Prop :=
  fr_start f + fr_size f <= fr_start g \/ fr_start g + fr_size g <= fr_start f.

(** A run of whole pages inside the 56-bit physical address space. *)
Definition frame_ok (f : Frame) : Prop :=
  0 < fr_start f /\ fr_start f mod PAGE_SIZE = 0 /\
  PAGE_SIZE <= fr_size f /\ fr_size f mod PAGE_SIZE = 0 /\
  fr_start f + fr_size f <= 2 ^ 56.

(** The size of the frame a request of [s] bytes is served with. *)
Definition frame_bytes (s : Z) : Z :=
  match size_to_order s with Ret o => order_size o | Panic => 0 end.

(** The words of the frames in [held] are the same in both memories. *)
Definition same_on (held : list Frame) (h h' : heap) : Prop :=
  forall g x, g ∈ held -> in_frame g x -> h' !! x = h !! x.

(** [fs_rep h a held]: the memory and the allocator are consistent, and the
    frames in [held] are in the hands of clients. *)
Class FrameLaws (A : Type) `{FrameSource A} : Type := {
  fs_rep : heap -> A -> list Frame -> Prop;
  fs_perm h a held held' : fs_rep h a held -> held ≡ₚ held' -> fs_rep h a held';
  fs_held h a held f : fs_rep h a held -> f ∈ held ->
    frame_ok f /\ forall x, in_frame f x -> x mod 8 = 0 -> is_Some (h !! x);
  fs_sized h a held f : fs_rep h a held -> f ∈ held -> frame_bytes (fr_size f) = fr_size f;
  fs_disjoint h a f held g : fs_rep h a (f :: held) -> g ∈ held -> frame_dis f g;
  fs_write h a held f x v : fs_rep h a held -> f ∈ held -> in_frame f x ->
    fs_rep (<[x := v]> h) a held;
  fs_alloc_ok h a held size : fs_rep h a held -> 1 <= default PAGE_SIZE size ->
    exists r h' a', fs_alloc h a size = Ret (r, h', a') /\ same_on held h h' /\
      match r with
      | None => fs_rep h' a' held
      | Some f => fs_rep h' a' (f :: held) /\ fr_size f = frame_bytes (default PAGE_SIZE size)
      end;
  fs_dealloc_ok h a f held : fs_rep h a (f :: held) ->
    exists h' a', fs_dealloc h a f = Ret (h', a') /\ same_on held h h' /\ fs_rep h' a' held
}.

Lemma frame_bytes_page : frame_bytes PAGE_SIZE = PAGE_SIZE.
Proof. reflexivity. Qed.

Lemma frame_bytes_ge s : 1 <= s <= order_size (BUDDY_MAX_ORDER - 1) -> s <= frame_bytes s.
Proof.
  intros Hs. unfold frame_bytes.
  destruct (size_to_order_ok s ltac:(lia)) as (o & -> & _ & Ho & _). exact (Ho (proj2 Hs)).
Qed.

Lemma same_on_refl held h : same_on held h h.
Proof. by intros g x _ _. Qed.

Lemma same_on_trans held h1 h2 h3 : same_on held h1 h2 -> same_on held h2 h3 -> same_on held h1 h3.
Proof. intros H1 H2 g x Hg Hx. rewrite (H2 g x) by done. by apply (H1 g x). Qed.

Lemma same_on_sub held held' h h' : same_on held h h' -> held' ⊆ held -> same_on held' h h'.
Proof. intros H Hs g x Hg Hx. apply (H g x); [by apply Hs|done]. Qed.

(** ** Runs of frames

    [alloc_frames] and the drop of a [Vec<Frame>] for any frame source. *)
Section Runs.
Context {A : Type} {FS : FrameSource A}.

Fixpoint free_frames (h : heap) (a : A) (frames : list Frame) : outcome (heap * A) :=
  match frames with
  | [] => mret (h, a)
  | f :: frames => '(h, a) ← fs_dealloc h a f; free_frames h a frames
  end.

(** Every iteration takes at least a page off [remaining]. *)
Fixpoint take_frames_loop (fuel : nat) (h : heap) (a : A) (remaining : Z) (frames : list Frame)
    : outcome (option (list Frame) * heap * A) :=
  if remaining <=? 0 then mret (Some frames, h, a)
  else
    match fuel with
    | O => Panic
    | S fuel =>
        '(r, h, a) ← fs_alloc h a (Some remaining);
        match r with
        | None => '(h, a) ← free_frames h a frames; mret (None, h, a)
        | Some f =>
            take_frames_loop fuel h a (saturating_sub remaining (fr_size f)) (frames ++ [f])
        end
    end.

Definition take_frames (h : heap) (a : A) (size : Z) : outcome (option (list Frame) * heap * A) :=
  take_frames_loop (Z.to_nat ((size + PAGE_SIZE - 1) / PAGE_SIZE)) h a size [].

Context {FL : FrameLaws A}.

Definition frames_total (frames : list Frame) : Z := foldr (fun f acc => fr_size f + acc) 0 frames.

Lemma frames_total_app l1 l2 : frames_total (l1 ++ l2) = frames_total l1 + frames_total l2.
Proof using. unfold frames_total. induction l1 as [|f l1 IH]; simpl; lia. Qed.

(** The bytes a request is served with: every frame holds the rest of the
    request rounded up to a power of two, or the largest block. *)
Fixpoint served_loop (fuel : nat) (remaining : Z) : Z :=
  if remaining <=? 0 then 0
  else
    match fuel with
    | O => 0
    | S fuel => frame_bytes remaining + served_loop fuel (saturating_sub remaining (frame_bytes remaining))
    end.

Definition served (size : Z) : Z := served_loop (Z.to_nat ((size + PAGE_SIZE - 1) / PAGE_SIZE)) size.

Lemma free_frames_ok frames h a held : fs_rep h a (frames ++ held) ->
  exists h' a', free_frames h a frames = Ret (h', a') /\ fs_rep h' a' held /\ same_on held h h'.
Proof.
  revert h a. induction frames as [|f frames IH]; intros h a H; cbn [free_frames].
  { exists h, a. split; [done|]. split; [done|apply same_on_refl]. }
  destruct (fs_dealloc_ok h a f _ H) as (h1 & a1 & -> & S1 & H1). rewrite outcome_bind_Ret.
  destruct (IH h1 a1 H1) as (h2 & a2 & -> & H2 & S2). exists h2, a2. split; [done|].
  split; [done|]. apply (same_on_trans _ _ h1); [|done].
  apply (same_on_sub _ _ _ _ S1). set_solver.
Qed.

Lemma take_frames_loop_ok fuel h a held remaining frames :
  fs_rep h a (frames ++ held) -> remaining <= Z.of_nat fuel * PAGE_SIZE ->
  exists r h' a', take_frames_loop fuel h a remaining frames = Ret (r, h', a') /\
    same_on held h h' /\
    match r with
    | None => fs_rep h' a' held
    | Some out => fs_rep h' a' (out ++ held) /\
        frames_total frames + remaining <= frames_total out /\
        frames_total out = frames_total frames + served_loop fuel remaining
    end.
Proof.
  revert h a remaining frames. induction fuel as [|fuel IH]; intros h a remaining frames H Hr;
    cbn [take_frames_loop served_loop]; destruct (Z.leb_spec remaining 0) as [Hz|Hz].
  1, 3: exists (Some frames), h, a; split; [done|]; split; [apply same_on_refl|]; split; [done|lia].
  { unfold PAGE_SIZE in Hr. lia. }
  destruct (fs_alloc_ok h a _ (Some remaining) H) as (r & h1 & a1 & -> & S1 & Hr1); [simpl; lia|].
  assert (S1' : same_on held h h1) by (apply (same_on_sub _ _ _ _ S1); set_solver).
  rewrite outcome_bind_Ret. destruct r as [f|].
  - destruct Hr1 as [H1 Eb]. change (default PAGE_SIZE (Some remaining)) with remaining in Eb. destruct (fs_held _ _ _ f H1) as [(_ & _ & Hf & _) _]; [left|].
    destruct (IH h1 a1 (saturating_sub remaining (fr_size f)) (frames ++ [f]))
      as (r & h2 & a2 & -> & S2 & Hr2).
    + apply (fs_perm _ _ _ _ H1). by rewrite <- app_assoc, Permutation_middle.
    + unfold saturating_sub, PAGE_SIZE in *. lia.
    + exists r, h2, a2. split; [done|]. split; [by eapply same_on_trans|]. destruct r as [out|]; [|done].
      destruct Hr2 as (H2 & Ht & Hs). split; [done|]. rewrite frames_total_app in Ht, Hs.
      rewrite <- Eb. cbn [frames_total foldr] in Ht, Hs. unfold saturating_sub in *. lia.
  - destruct (free_frames_ok frames h1 a1 held Hr1) as (h2 & a2 & -> & H2 & S2).
    rewrite outcome_bind_Ret. exists None, h2, a2. split; [done|]. split; [by eapply same_on_trans|done].
Qed.

Lemma take_frames_ok h a held size : fs_rep h a held ->
  exists r h' a', take_frames h a size = Ret (r, h', a') /\ same_on held h h' /\
    match r with
    | None => fs_rep h' a' held
    | Some out => fs_rep h' a' (out ++ held) /\ size <= frames_total out /\ frames_total out = served size
    end.
Proof.
  intros H. unfold take_frames.
  destruct (take_frames_loop_ok (Z.to_nat ((size + PAGE_SIZE - 1) / PAGE_SIZE)) h a held size [])
    as (r & h' & a' & E & S & Hr); [done| |].
  - unfold PAGE_SIZE. pose proof (Z.div_mod (size + 4096 - 1) 4096 ltac:(lia)).
    pose proof (Z.mod_pos_bound (size + 4096 - 1) 4096 ltac:(lia)). lia.
  - exists r, h', a'. split; [done|]. split; [done|]. by destruct r.
Qed.

End Runs.

(** ** The buddy allocator *)

#[export] Instance buddy_source : FrameSource BuddyAllocator := {
  fs_alloc := alloc_frame;
  fs_dealloc := dealloc_frame
}.

Section Buddy.
Context (lo hi : Z) (Hlo : order_size (BUDDY_MAX_ORDER - 1) < lo) (Hhi : hi <= 2 ^ 56).

Definition buddy_rep (h : heap) (a : BuddyAllocator) (held : list Frame) : Prop :=
  exists fl lost bs, Rep lo hi h a fl (lost ++ bs) /\ Forall2 frame_of held bs.

Lemma buddy_perm h a held held' : buddy_rep h a held -> held ≡ₚ held' -> buddy_rep h a held'.
Proof using.
  intros (fl & lost & bs & H & Hf) Hp.
  assert (exists bs', bs ≡ₚ bs' /\ Forall2 frame_of held' bs') as (bs' & Hb & Hf').
  { clear H. revert bs Hf. induction Hp as [|f l l' Hp IH|f g l|l1 l2 l3 _ IH1 _ IH2]; intros bs Hf.
    - by exists bs.
    - inversion Hf as [|? b ? bs0 Hb Hf0]; subst. destruct (IH _ Hf0) as (bs' & ? & ?).
      exists (b :: bs'). split; [by constructor|by constructor].
    - inversion Hf as [|? b ? bs0 Hb Hf0]; subst. inversion Hf0 as [|? c ? bs1 Hc Hf1]; subst.
      exists (c :: b :: bs1). split; [apply perm_swap|]. constructor; [done|by constructor].
    - destruct (IH1 _ Hf) as (bs1 & P1 & F1). destruct (IH2 _ F1) as (bs2 & P2 & F2).
      exists bs2. split; [by rewrite P1|done]. }
  exists fl, lost, bs'. split; [|done]. apply (Rep_held _ _ _ _ _ _ _ H).
  pose proof (rep_wf _ _ _ _ _ _ H) as Hw. revert Hw. apply wf_perm. by rewrite Hb.
Qed.

Lemma held_block h a held f : buddy_rep h a held -> f ∈ held ->
  exists fl lost bs b, Rep lo hi h a fl (lost ++ bs) /\ Forall2 frame_of held bs /\
    b ∈ bs /\ frame_of f b.
Proof using.
  intros (fl & lost & bs & H & Hf) Hin.
  apply list_elem_of_lookup in Hin as [i Hi].
  destruct (Forall2_lookup_l _ _ _ _ _ Hf Hi) as (b & Hb & Hfb).
  exists fl, lost, bs, b. split; [done|]. split; [done|]. split; [|done].
  by apply list_elem_of_lookup_2 in Hb.
Qed.

Lemma order_size_pages o : order_size o mod PAGE_SIZE = 0 /\ PAGE_SIZE <= order_size o.
Proof using.
  rewrite order_size_pow, Z.pow_add_r by lia. change (2 ^ 12) with PAGE_SIZE.
  split; [apply Z.mod_mul; done|]. pose proof (Z.pow_pos_nonneg 2 (Z.of_nat o)).
  unfold PAGE_SIZE. nia.
Qed.

Lemma frame_of_block f b x : frame_of f b -> in_frame f x <-> in_block b x.
Proof using. intros (E1 & E2 & _). unfold in_frame, in_block. by rewrite E1, E2. Qed.

Lemma buddy_held h a held f : buddy_rep h a held -> f ∈ held ->
  frame_ok f /\ forall x, in_frame f x -> x mod 8 = 0 -> is_Some (h !! x).
Proof using Hlo Hhi.
  intros H Hin. destruct (held_block h a held f H Hin) as (fl & lost & bs & b & HR & _ & Hb & Hf).
  pose proof (lo_pos lo Hlo) as Hlo0.
  destruct (block_addr lo hi Hlo0 _ _ _ _ b HR) as (_ & _ & Ho & Hm & H1 & H2).
  { apply elem_of_app. left. apply elem_of_app. by right. }
  destruct (order_size_pages b.2) as [P1 P2]. pose proof Hf as (E1 & E2 & _). split.
  - unfold frame_ok. rewrite E1, E2. split; [lia|]. split; [|split; [done|split; [done|lia]]].
    apply (mod_divide _ _ (order_size b.2)); [done| |done]. by apply Z.mod_divide.
  - intros x Hx. apply (frame_of_block f b) in Hx; [|done]. unfold in_block in Hx.
    intros H8. apply (rep_mapped _ _ _ _ _ _ HR); [lia|done].
Qed.

Lemma buddy_disjoint h a f held g : buddy_rep h a (f :: held) -> g ∈ held -> frame_dis f g.
Proof using.
  clear Hlo Hhi.
  intros (fl & lost & bs & H & Hf) Hg. inversion Hf as [|? b ? bs0 Hb Hf0]; subst.
  apply list_elem_of_lookup in Hg as [i Hi].
  destruct (Forall2_lookup_l _ _ _ _ _ Hf0 Hi) as (c & Hc & Hgc).
  apply list_elem_of_lookup_2 in Hc.
  pose proof (rep_wf _ _ _ _ _ _ H) as Hw.
  assert (Hp : (lost ++ b :: bs0) ++ blocks fl ≡ₚ b :: (lost ++ bs0) ++ blocks fl)
    by by rewrite <- Permutation_middle.
  apply (wf_perm _ _ _ _ Hp), wf_cons in Hw as (_ & Hd & _).
  specialize (Hd c). destruct Hb as (E1 & E2 & _), Hgc as (E3 & E4 & _).
  unfold frame_dis. rewrite E1, E2, E3, E4. apply Hd. set_solver.
Qed.

Lemma buddy_sized h a held f : buddy_rep h a held -> f ∈ held -> frame_bytes (fr_size f) = fr_size f.
Proof using.
  clear Hlo Hhi.
  intros H Hin. destruct (held_block h a held f H Hin) as (fl & lost & bs & b & HR & HF & Hb & Hf).
  destruct Hf as (_ & -> & Ho). unfold frame_bytes. by rewrite size_to_order_size.
Qed.

Lemma buddy_write h a held f x v : buddy_rep h a held -> f ∈ held -> in_frame f x ->
  buddy_rep (<[x := v]> h) a held.
Proof using.
  clear Hlo Hhi.
  intros H Hin Hx. destruct (held_block h a held f H Hin) as (fl & lost & bs & b & HR & HF & Hb & Hf).
  exists fl, lost, bs. split; [|done]. apply Rep_write with b; [done|set_solver|].
  by apply (frame_of_block f).
Qed.

(** No held block is covered by the free blocks. *)
Lemma held_not_covered h a fl held f b x : Rep lo hi h a fl held -> b ∈ held ->
  frame_of f b -> in_frame f x -> ~ covered (blocks fl) x.
Proof using.
  clear Hlo Hhi.
  intros H Hb Hf Hx (c & Hc & Hx'). apply (frame_of_block f b) in Hx; [|done].
  pose proof (rep_wf _ _ _ _ _ _ H) as Hw. apply elem_of_Permutation in Hb as (rest & Hp).
  rewrite Hp in Hw. apply wf_cons in Hw as (_ & Hd & _).
  destruct (Hd c) as [Hy|Hy]; [set_solver| |]; unfold in_block in *; lia.
Qed.

Lemma buddy_same h h' a fl lost bs held :
  Rep lo hi h a fl (lost ++ bs) -> Forall2 frame_of held bs ->
  (forall x, ~ covered (blocks fl) x -> h' !! x = h !! x) -> same_on held h h'.
Proof using.
  clear Hlo Hhi.
  intros H Hf Hs g x Hg Hx. apply Hs.
  apply list_elem_of_lookup in Hg as [i Hi].
  destruct (Forall2_lookup_l _ _ _ _ _ Hf Hi) as (b & Hb & Hgb).
  apply list_elem_of_lookup_2 in Hb.
  apply (held_not_covered h a fl (lost ++ bs) g b); [done|set_solver|done|done].
Qed.

Lemma buddy_alloc_ok h a held size : buddy_rep h a held -> 1 <= default PAGE_SIZE size ->
  exists r h' a', alloc_frame h a size = Ret (r, h', a') /\ same_on held h h' /\
    match r with
    | None => buddy_rep h' a' held
    | Some f => buddy_rep h' a' (f :: held) /\ fr_size f = frame_bytes (default PAGE_SIZE size)
    end.
Proof using Hlo.
  intros (fl & lost & bs & H & Hf) Hs. pose proof (lo_pos lo Hlo) as Hlo0.
  destruct (alloc_frame_ok lo hi Hlo0 h a fl (lost ++ bs) (default PAGE_SIZE size) H Hs)
    as (o & r & h' & a' & Ho & Ho2 & Ha & Hp).
  assert (Ha' : alloc_frame h a size = Ret ((fun a => mkFrame a (order_size o)) <$> r, h', a'))
    by (rewrite <- Ha; by destruct size).
  exists ((fun a => mkFrame a (order_size o)) <$> r), h', a'. split; [done|].
  destruct r as [p|]; simpl in *.
  - destruct Hp as (fl' & H' & _ & Hsame). split; [by apply (buddy_same h h' a fl lost bs)|].
    split; [|unfold frame_bytes; by rewrite Ho].
    exists fl', lost, ((p, o) :: bs). split; [|by constructor].
    apply (Rep_held _ _ _ _ _ _ _ H'). pose proof (rep_wf _ _ _ _ _ _ H') as Hw.
    revert Hw. apply wf_perm. by rewrite <- Permutation_middle.
  - destruct Hp as (-> & -> & _). split; [apply same_on_refl|]. by exists fl, lost, bs.
Qed.

Lemma buddy_dealloc_ok h a f held : buddy_rep h a (f :: held) ->
  exists h' a', dealloc_frame h a f = Ret (h', a') /\ same_on held h h' /\ buddy_rep h' a' held.
Proof using Hlo.
  clear Hhi.
  intros (fl & lost & bs & H & Hf). inversion Hf as [|? b ? bs0 Hb Hf0]; subst.
  pose proof (lo_pos lo Hlo) as Hlo0.
  assert (H1 : Rep lo hi h a fl (b :: lost ++ bs0)).
  { apply (Rep_held _ _ _ _ _ _ _ H). pose proof (rep_wf _ _ _ _ _ _ H) as Hw.
    revert Hw. apply wf_perm. by rewrite <- Permutation_middle. }
  destruct b as [p o]. destruct Hb as (E1 & E2 & Ho). simpl in *.
  destruct (dealloc_ok lo hi Hlo0 Hlo h a fl p o (lost ++ bs0) H1)
    as (h' & a' & fl' & lost' & Hd & Hr & _ & _ & Hsame).
  exists h', a'. split; [|split].
  - unfold dealloc_frame, BuddyAllocator_dealloc_frame.
    by rewrite E1, E2, size_to_order_size, outcome_bind_Ret by done.
  - intros g x Hg Hx. apply Hsame. apply list_elem_of_lookup in Hg as [i Hi].
    destruct (Forall2_lookup_l _ _ _ _ _ Hf0 Hi) as (c & Hc & Hgc).
    apply list_elem_of_lookup_2 in Hc. rewrite covered_cons. intros [Hp|Hp].
    + apply (frame_of_block g c) in Hx; [|done]. pose proof (rep_wf _ _ _ _ _ _ H1) as Hw.
      apply wf_cons in Hw as (_ & Hd' & _). destruct (Hd' c) as [Hy|Hy]; [set_solver| |];
        unfold in_block in *; simpl in *; lia.
    + revert Hp. apply (held_not_covered h a fl ((p, o) :: lost ++ bs0) g c); [done|set_solver|done|done].
  - exists fl', (lost' ++ lost), bs0. by rewrite <- app_assoc.
Qed.

#[export] Instance buddy_laws : FrameLaws BuddyAllocator := {
  fs_rep := buddy_rep;
  fs_perm := buddy_perm;
  fs_held := buddy_held;
  fs_sized := buddy_sized;
  fs_disjoint := buddy_disjoint;
  fs_write := buddy_write;
  fs_alloc_ok := buddy_alloc_ok;
  fs_dealloc_ok := buddy_dealloc_ok
}.

End Buddy.
