(* ===== verification/PageTable.v ===== *)
(** * PageTable: Sv39 page tables and address spaces

    Models [src/mm/page_table.rs], [src/mm/page_table/handle.rs] and
    [src/mm/page_table/entry.rs]. Page tables live in the physical memory (the
    heap of [Buddy]): entry [i] of the table at [p] is the word at [p + 8 * i].
    Tables are allocated and dropped through the frame allocator interface of
    [FrameAlloc]. [walk] is the translation the hardware performs.

    The theorems state the address spaces against an abstract picture, a
    partial function from pages to leaf entries per address space. *)

From stdpp Require Import gmap.
From S2P Require Import Prelude OrdMap Buddy FrameAlloc BitFields Abi.

(** ** Page tables and their handles *)

Definition PTE_NUMBER : nat := 512.

(** [entries[index]] of the table at [p]. *)
Definition entry_get (h : heap) (p index : Z) : outcome Z := load h (p + 8 * index).
Definition entry_put (h : heap) (p index v : Z) : outcome heap := store h (p + 8 * index) v.

Record PageTableHandle : Type := mkHandle { ph_ptr : Z; ph_page : Frame }.

(** [PageTable::as_phys_addr] through the handle's [Deref]. *)
Definition as_phys_addr (self : PageTableHandle) : Z := ph_ptr self.

(** [self.entries = [v; n]] from [index] on. *)
Fixpoint fill_entries (n : nat) (h : heap) (p index v : Z) : outcome heap :=
  match n with
  | O => mret h
  | S n => h ← entry_put h p index v; fill_entries n h p (index + 1) v
  end.

(** [for i in index..index + n { to.entries[i] = self.entries[i]; }] *)
Fixpoint copy_entries (n : nat) (h : heap) (from to index : Z) : outcome heap :=
  match n with
  | O => mret h
  | S n =>
      e ← entry_get h from index;
      h ← entry_put h to index e;
      copy_entries n h from to (index + 1)
  end.

Definition PageTableHandle_copy_high_half (h : heap) (self to : PageTableHandle) : outcome heap :=
  copy_entries 256 h (ph_ptr self) (ph_ptr to) 256.

Definition PageTableHandle_copy_low_half (h : heap) (self to : PageTableHandle) : outcome heap :=
  copy_entries 256 h (ph_ptr self) (ph_ptr to) 0.

Definition PageTableHandle_copy_from (h : heap) (self to : PageTableHandle) : outcome heap :=
  h ← PageTableHandle_copy_low_half h self to;
  PageTableHandle_copy_high_half h self to.

(** [AddressSpace::entry_phys_addr] *)
Definition entry_phys_addr (pte : Z) : Z :=
  PhysicalAddr_set_ppn PhysicalAddr_new (PageTableEntry_ppn pte).

(** Writing the reference to the table at [addr] into an entry. *)
Definition link_entry (pte addr : Z) : Z :=
  PageTableEntry_set_v (PageTableEntry_set_ppn pte (PhysicalAddr_ppn addr)) true.

(** Writing a leaf mapping into an entry. *)
Definition leaf_entry (pte pa flags : Z) : Z :=
  let pte := PageTableEntry_set_ppn pte (PhysicalAddr_ppn pa) in
  let pte := PageTableEntry_set_v pte true in
  let pte := PageTableEntry_set_r pte (PageTableEntryFlags_r flags) in
  let pte := PageTableEntry_set_w pte (PageTableEntryFlags_w flags) in
  let pte := PageTableEntry_set_x pte (PageTableEntryFlags_x flags) in
  let pte := PageTableEntry_set_u pte (PageTableEntryFlags_u flags) in
  let pte := PageTableEntry_set_g pte (PageTableEntryFlags_g flags) in
  let pte := PageTableEntry_set_a pte (PageTableEntryFlags_a flags) in
  PageTableEntry_set_d pte (PageTableEntryFlags_d flags).

(** ** Address spaces *)

Record AddressSpace : Type := mkSpace {
  as_root : PageTableHandle;
  as_tables : list (Z * PageTableHandle)
}.

Section Spaces.
Context {A : Type} {FS : FrameSource A}.

Definition PageTableHandle_create (h : heap) (a : A)
    : outcome (result MemError PageTableHandle * heap * A) :=
  '(r, h, a) ← fs_alloc h a None;
  match r with
  | None => mret (Err OutOfMemory, h, a)
  | Some page =>
      h ← fill_entries PTE_NUMBER h (fr_start page) 0 PageTableEntry_new;
      mret (Ok (mkHandle (fr_start page) page), h, a)
  end.

(** Dropping a handle drops its frame. *)
Definition drop_handle (h : heap) (a : A) (t : PageTableHandle) : outcome (heap * A) :=
  fs_dealloc h a (ph_page t).

(** [tables.insert(addr, pt)]: the replaced handle, if any, is dropped. *)
Definition insert_table (h : heap) (a : A) (tables : list (Z * PageTableHandle))
    (addr : Z) (pt : PageTableHandle) : outcome (heap * A * list (Z * PageTableHandle)) :=
  '(h, a) ← match om_get addr tables with
            | Some old => drop_handle h a old
            | None => mret (h, a)
            end;
  mret (h, a, om_insert addr pt tables).

(** [map], first block: the address of the level-1 table. *)
Definition map_level2 (h : heap) (a : A) (self : AddressSpace) (vpn2 : Z)
    : outcome (result MemError Z * heap * A * AddressSpace) :=
  pte2 ← entry_get h (ph_ptr (as_root self)) vpn2;
  if negb (PageTableEntry_v pte2) then
    '(r, h, a) ← PageTableHandle_create h a;
    match r with
    | Err e => mret (Err e, h, a, self)
    | Ok new_pt =>
        let addr := as_phys_addr new_pt in
        let pte2 := link_entry pte2 addr in
        h ← entry_put h (ph_ptr (as_root self)) vpn2 pte2;
        '(h, a, tables) ← insert_table h a (as_tables self) addr new_pt;
        mret (Ok (entry_phys_addr pte2), h, a, mkSpace (as_root self) tables)
    end
  else mret (Ok (entry_phys_addr pte2), h, a, self).

(** [map], second block: the address of the level-0 table. *)
Definition map_level1 (h : heap) (a : A) (self : AddressSpace) (pt1_addr vpn1 : Z)
    : outcome (result MemError Z * heap * A * AddressSpace) :=
  match om_get pt1_addr (as_tables self) with
  | None => mret (Err PageTableMissing, h, a, self)
  | Some pt1 =>
      pte1 ← entry_get h (ph_ptr pt1) vpn1;
      '(r, h, a, self) ←
        (if negb (PageTableEntry_v pte1) then
           '(r, h, a) ← PageTableHandle_create h a;
           match r with
           | Err e => mret (Err e, h, a, self)
           | Ok new_pt =>
               let addr := as_phys_addr new_pt in
               match om_get pt1_addr (as_tables self) with
               | None =>
                   '(h, a) ← drop_handle h a new_pt;
                   mret (Err PageTableMissing, h, a, self)
               | Some pt1 =>
                   pte1 ← entry_get h (ph_ptr pt1) vpn1;
                   h ← entry_put h (ph_ptr pt1) vpn1 (link_entry pte1 addr);
                   '(h, a, tables) ← insert_table h a (as_tables self) addr new_pt;
                   mret (Ok tt, h, a, mkSpace (as_root self) tables)
               end
           end
         else mret (Ok tt, h, a, self));
      match r with
      | Err e => mret (Err e, h, a, self)
      | Ok _ =>
          match om_get pt1_addr (as_tables self) with
          | None => mret (Err PageTableMissing, h, a, self)
          | Some pt1 =>
              pte1 ← entry_get h (ph_ptr pt1) vpn1;
              mret (Ok (entry_phys_addr pte1), h, a, self)
          end
      end
  end.

Definition AddressSpace_map (h : heap) (a : A) (self : AddressSpace) (va pa flags : Z)
    : outcome (result MemError unit * heap * A * AddressSpace) :=
  let vpn2 := VirtualAddr_vpn2 va in
  let vpn1 := VirtualAddr_vpn1 va in
  let vpn0 := VirtualAddr_vpn0 va in
  '(r, h, a, self) ← map_level2 h a self vpn2;
  match r with
  | Err e => mret (Err e, h, a, self)
  | Ok pt1_addr =>
      '(r, h, a, self) ← map_level1 h a self pt1_addr vpn1;
      match r with
      | Err e => mret (Err e, h, a, self)
      | Ok pt0_addr =>
          match om_get pt0_addr (as_tables self) with
          | None => mret (Err PageTableMissing, h, a, self)
          | Some pt0 =>
              pte0 ← entry_get h (ph_ptr pt0) vpn0;
              h ← entry_put h (ph_ptr pt0) vpn0 (leaf_entry pte0 pa flags);
              mret (Ok tt, h, a, self)
          end
      end
  end.

Definition AddressSpace_unmap (h : heap) (self : AddressSpace) (va : Z) : outcome heap :=
  let vpn2 := VirtualAddr_vpn2 va in
  let vpn1 := VirtualAddr_vpn1 va in
  let vpn0 := VirtualAddr_vpn0 va in
  pte2 ← entry_get h (ph_ptr (as_root self)) vpn2;
  if negb (PageTableEntry_v pte2) then mret h
  else
    match om_get (entry_phys_addr pte2) (as_tables self) with
    | None => mret h
    | Some pt1 =>
        pte1 ← entry_get h (ph_ptr pt1) vpn1;
        if negb (PageTableEntry_v pte1) then mret h
        else
          match om_get (entry_phys_addr pte1) (as_tables self) with
          | None => mret h
          | Some pt0 => entry_put h (ph_ptr pt0) vpn0 PageTableEntry_new
          end
    end.

(** Dropping an address space: the root, then the tables in order. *)
Fixpoint drop_tables (h : heap) (a : A) (tables : list (Z * PageTableHandle))
    : outcome (heap * A) :=
  match tables with
  | [] => mret (h, a)
  | (_, t) :: tables => '(h, a) ← drop_handle h a t; drop_tables h a tables
  end.

Definition drop_space (h : heap) (a : A) (self : AddressSpace) : outcome (heap * A) :=
  '(h, a) ← drop_handle h a (as_root self);
  drop_tables h a (as_tables self).

(** *** [try_clone] *)

(** The first loop: a copy of every table, and the address of each copy. *)
Fixpoint clone_tables (h : heap) (a : A) (todo tables : list (Z * PageTableHandle))
    (remap : list (Z * Z))
    : outcome (result MemError (list (Z * Z)) * heap * A * list (Z * PageTableHandle)) :=
  match todo with
  | [] => mret (Ok remap, h, a, tables)
  | (_, handle) :: todo =>
      '(r, h, a) ← PageTableHandle_create h a;
      match r with
      | Err e => mret (Err e, h, a, tables)
      | Ok copy =>
          h ← PageTableHandle_copy_from h handle copy;
          let old_addr := as_phys_addr handle in
          let new_addr := as_phys_addr copy in
          let remap := om_insert old_addr new_addr remap in
          '(h, a, tables) ← insert_table h a tables new_addr copy;
          clone_tables h a todo tables remap
      end
  end.

(** The loop over the entries of one table: references to copied tables are
    redirected to the copies. *)
Fixpoint patch_entries (n : nat) (h : heap) (from to index : Z) (remap : list (Z * Z))
    : outcome heap :=
  match n with
  | O => mret h
  | S n =>
      pte ← entry_get h from index;
      h ← match om_get (entry_phys_addr pte) remap with
          | Some new_addr =>
              e ← entry_get h to index;
              entry_put h to index (PageTableEntry_set_ppn e (PhysicalAddr_ppn new_addr))
          | None => mret h
          end;
      patch_entries n h from to (index + 1) remap
  end.

(** The last loop: patch the copy of every table. *)
Fixpoint patch_tables (h : heap) (todo tables : list (Z * PageTableHandle)) (remap : list (Z * Z))
    : outcome (result MemError unit * heap) :=
  match todo with
  | [] => mret (Ok tt, h)
  | (old_addr, handle) :: todo =>
      match om_get old_addr remap with
      | None => mret (Err PageTableMissing, h)
      | Some new_addr =>
          match om_get new_addr tables with
          | None => mret (Err PageTableMissing, h)
          | Some new_handle =>
              h ← patch_entries PTE_NUMBER h (ph_ptr handle) (ph_ptr new_handle) 0 remap;
              patch_tables h todo tables remap
          end
      end
  end.

(** An early return drops the copies made so far: the tables, then the root. *)
Definition clone_abort (h : heap) (a : A) (root : PageTableHandle)
    (tables : list (Z * PageTableHandle)) (e : MemError)
    : outcome (result MemError AddressSpace * heap * A) :=
  '(h, a) ← drop_tables h a tables;
  '(h, a) ← drop_handle h a root;
  mret (Err e, h, a).

Definition AddressSpace_try_clone (h : heap) (a : A) (self : AddressSpace)
    : outcome (result MemError AddressSpace * heap * A) :=
  '(r, h, a) ← PageTableHandle_create h a;
  match r with
  | Err e => mret (Err e, h, a)
  | Ok root =>
      h ← PageTableHandle_copy_from h (as_root self) root;
      '(r, h, a, tables) ← clone_tables h a (as_tables self) [] [];
      match r with
      | Err e => clone_abort h a root tables e
      | Ok remap =>
          h ← patch_entries PTE_NUMBER h (ph_ptr (as_root self)) (ph_ptr root) 0 remap;
          '(r, h) ← patch_tables h (as_tables self) tables remap;
          match r with
          | Err e => clone_abort h a root tables e
          | Ok _ => mret (Ok (mkSpace root tables), h, a)
          end
      end
  end.

(** ** The manager: the kernel's space and one space per task *)

Inductive AddressSpaceId : Type := IdKernel | IdUser (tid : Z).

Record AddressSpaceManager : Type := mkManager {
  am_kernel : AddressSpace;
  am_user : list (Z * AddressSpace)
}.

(** [new]: the allocation of the kernel's root table must succeed. *)
Definition AddressSpaceManager_new (h : heap) (a : A) : outcome (AddressSpaceManager * heap * A) :=
  '(r, h, a) ← PageTableHandle_create h a;
  match r with
  | Err _ => Panic
  | Ok root => mret (mkManager (mkSpace root []) [], h, a)
  end.

(** [insert_user]: the space registered before, if any, is dropped. *)
Definition AddressSpaceManager_insert_user (h : heap) (a : A) (self : AddressSpaceManager)
    (tid : Z) (space : AddressSpace) : outcome (heap * A * AddressSpaceManager) :=
  '(h, a) ← match om_get tid (am_user self) with
            | Some old => drop_space h a old
            | None => mret (h, a)
            end;
  mret (h, a, mkManager (am_kernel self) (om_insert tid space (am_user self))).

Definition AddressSpaceManager_create_user_address_space (h : heap) (a : A)
    (self : AddressSpaceManager) (tid : Z)
    : outcome (result MemError unit * heap * A * AddressSpaceManager) :=
  '(r, h, a) ← PageTableHandle_create h a;
  match r with
  | Err e => mret (Err e, h, a, self)
  | Ok page_table =>
      h ← PageTableHandle_copy_low_half h (as_root (am_kernel self)) page_table;
      '(h, a, self) ← AddressSpaceManager_insert_user h a self tid (mkSpace page_table []);
      mret (Ok tt, h, a, self)
  end.

Definition AddressSpaceManager_remove_user (self : AddressSpaceManager) (tid : Z)
    : option AddressSpace * AddressSpaceManager :=
  (om_get tid (am_user self), mkManager (am_kernel self) (om_remove tid (am_user self))).

Definition AddressSpaceManager_kernel_root_addr (self : AddressSpaceManager) : Z :=
  as_phys_addr (as_root (am_kernel self)).

Definition AddressSpaceManager_user_root_addr (self : AddressSpaceManager) (tid : Z)
    : result MemError Z :=
  match om_get tid (am_user self) with
  | Some space => Ok (as_phys_addr (as_root space))
  | None => Err AddressSpaceNotFound
  end.

(** The translation fence issued when [flush] is set does not change the
    memory; it has no counterpart in the state. *)
Definition AddressSpaceManager_kernel_map (h : heap) (a : A) (self : AddressSpaceManager)
    (va pa flags : Z) (flush : bool)
    : outcome (result MemError unit * heap * A * AddressSpaceManager) :=
  '(r, h, a, k) ← AddressSpace_map h a (am_kernel self) va pa flags;
  mret (r, h, a, mkManager k (am_user self)).

Definition AddressSpaceManager_kernel_unmap (h : heap) (self : AddressSpaceManager)
    (va : Z) (flush : bool) : outcome (result MemError unit * heap) :=
  h ← AddressSpace_unmap h (am_kernel self) va;
  mret (Ok tt, h).

Definition AddressSpaceManager_user_map (h : heap) (a : A) (self : AddressSpaceManager)
    (tid va pa flags : Z) (flush : bool)
    : outcome (result MemError unit * heap * A * AddressSpaceManager) :=
  match om_get tid (am_user self) with
  | None => mret (Err AddressSpaceNotFound, h, a, self)
  | Some space =>
      '(r, h, a, space) ← AddressSpace_map h a space va pa flags;
      mret (r, h, a, mkManager (am_kernel self) (om_modify (fun _ => space) tid (am_user self)))
  end.

Definition AddressSpaceManager_user_unmap (h : heap) (self : AddressSpaceManager)
    (tid va : Z) (flush : bool) : outcome (result MemError unit * heap) :=
  match om_get tid (am_user self) with
  | None => mret (Err AddressSpaceNotFound, h)
  | Some space => h ← AddressSpace_unmap h space va; mret (Ok tt, h)
  end.

Definition AddressSpaceManager_map (h : heap) (a : A) (self : AddressSpaceManager)
    (id : AddressSpaceId) (va pa flags : Z) (flush : bool)
    : outcome (result MemError unit * heap * A * AddressSpaceManager) :=
  match id with
  | IdKernel => AddressSpaceManager_kernel_map h a self va pa flags flush
  | IdUser tid => AddressSpaceManager_user_map h a self tid va pa flags flush
  end.

Definition AddressSpaceManager_unmap (h : heap) (self : AddressSpaceManager)
    (id : AddressSpaceId) (va : Z) (flush : bool) : outcome (result MemError unit * heap) :=
  match id with
  | IdKernel => AddressSpaceManager_kernel_unmap h self va flush
  | IdUser tid => AddressSpaceManager_user_unmap h self tid va flush
  end.

(** [for i in (start..end).step_by(PAGE_SIZE)] *)
Fixpoint identity_loop (n : nat) (h : heap) (a : A) (self : AddressSpaceManager) (i flags : Z)
    : outcome (result MemError unit * heap * A * AddressSpaceManager) :=
  match n with
  | O => mret (Ok tt, h, a, self)
  | S n =>
      '(r, h, a, k) ← AddressSpace_map h a (am_kernel self) i i flags;
      let self := mkManager k (am_user self) in
      match r with
      | Err e => mret (Err e, h, a, self)
      | Ok _ => identity_loop n h a self (i + PAGE_SIZE) flags
      end
  end.

(** The number of values of [(start..end).step_by(PAGE_SIZE)]. *)
Definition page_steps (start end_ : Z) : nat :=
  Z.to_nat ((end_ - start + PAGE_SIZE - 1) / PAGE_SIZE).

Definition AddressSpaceManager_identity_map (h : heap) (a : A) (self : AddressSpaceManager)
    (start end_ : Z) : outcome (result MemError unit * heap * A * AddressSpaceManager) :=
  let flags := PageTableEntryFlags_new in
  let flags := PageTableEntryFlags_set_r flags true in
  let flags := PageTableEntryFlags_set_w flags true in
  let flags := PageTableEntryFlags_set_x flags true in
  identity_loop (page_steps start end_) h a self start flags.

(** [activate]: the value written to [satp]. *)
Definition AddressSpaceManager_activate (self : AddressSpaceManager) (id : AddressSpaceId)
    : result MemError Z :=
  match
    match id with
    | IdKernel => Ok (as_phys_addr (as_root (am_kernel self)))
    | IdUser tid =>
        match om_get tid (am_user self) with
        | Some space => Ok (as_phys_addr (as_root space))
        | None => Err AddressSpaceNotFound
        end
    end
  with
  | Err e => Err e
  | Ok root =>
      let ppn := PhysicalAddr_ppn root in
      let value := SatpValue_new in
      let value := SatpValue_set_ppn value ppn in
      Ok (SatpValue_set_mode value SatpMode_SV39)
  end.

Definition AddressSpaceManager_clone (h : heap) (a : A) (self : AddressSpaceManager)
    (id : AddressSpaceId) (new_tid : Z)
    : outcome (result MemError unit * heap * A * AddressSpaceManager) :=
  match
    match id with
    | IdKernel => Some (am_kernel self)
    | IdUser tid => om_get tid (am_user self)
    end
  with
  | None => mret (Err AddressSpaceNotFound, h, a, self)
  | Some space =>
      '(r, h, a) ← AddressSpace_try_clone h a space;
      match r with
      | Err e => mret (Err e, h, a, self)
      | Ok copy =>
          '(h, a, self) ← AddressSpaceManager_insert_user h a self new_tid copy;
          mret (Ok tt, h, a, self)
      end
  end.

(** [identity_map] of the module: the memory in chunks, then the device ranges
    found in the device tree. *)
Definition IDENTITY_MAP_CHUNK : Z := 8 * 1024 * 1024.

Fixpoint identity_chunks (fuel : nat) (h : heap) (a : A) (self : AddressSpaceManager)
    (cursor mem_end : Z) : outcome (result MemError unit * heap * A * AddressSpaceManager) :=
  if cursor <? mem_end then
    match fuel with
    | O => Panic
    | S fuel =>
        c ← usize_add cursor IDENTITY_MAP_CHUNK;
        let chunk_end := Z.min c mem_end in
        '(r, h, a, self) ← AddressSpaceManager_identity_map h a self cursor chunk_end;
        match r with
        | Err e => mret (Err e, h, a, self)
        | Ok _ => identity_chunks fuel h a self chunk_end mem_end
        end
    end
  else mret (Ok tt, h, a, self).

Fixpoint identity_ranges (h : heap) (a : A) (self : AddressSpaceManager) (ranges : list (Z * Z))
    : outcome (result MemError unit * heap * A * AddressSpaceManager) :=
  match ranges with
  | [] => mret (Ok tt, h, a, self)
  | (start, end_) :: ranges =>
      '(r, h, a, self) ← AddressSpaceManager_identity_map h a self start end_;
      match r with
      | Err e => mret (Err e, h, a, self)
      | Ok _ => identity_ranges h a self ranges
      end
  end.

(** [mmio] and [fw_cfg] are the ranges read from the device tree; the result is
    the value written to [satp]. *)
Definition identity_map (h : heap) (a : A) (self : AddressSpaceManager)
    (mem_start mem_size : Z) (mmio : list (Z * Z)) (fw_cfg : option (Z * Z))
    : outcome (result MemError Z * heap * A * AddressSpaceManager) :=
  mem_end ← usize_add mem_start mem_size;
  '(r, h, a, self) ← identity_chunks (Z.to_nat (mem_end - mem_start)) h a self mem_start mem_end;
  match r with
  | Err e => mret (Err e, h, a, self)
  | Ok _ =>
      '(r, h, a, self) ← identity_ranges h a self (mmio ++ option_list fw_cfg);
      match r with
      | Err e => mret (Err e, h, a, self)
      | Ok _ => mret (AddressSpaceManager_activate self IdKernel, h, a, self)
      end
  end.

End Spaces.

(** ** The hardware's view *)

(** The Sv39 walk from the table at [root]: two levels of references, then a
    valid entry. References have no permission bits; larger pages, which the
    kernel never creates, end the walk without a result. *)
Definition walk_ref (h : heap) (p index : Z) : option Z :=
  match h !! (p + 8 * index) with
  | Some e =>
      if PageTableEntry_v e && (PageTableEntry_rwx e =? 0) then Some (entry_phys_addr e) else None
  | None => None
  end.

Definition walk_leaf (h : heap) (p index : Z) : option Z :=
  match h !! (p + 8 * index) with
  | Some e => if PageTableEntry_v e then Some e else None
  | None => None
  end.

Definition walk (h : heap) (root va : Z) : option Z :=
  p1 ← walk_ref h root (VirtualAddr_vpn2 va);
  p0 ← walk_ref h p1 (VirtualAddr_vpn1 va);
  walk_leaf h p0 (VirtualAddr_vpn0 va).

(** ** Entries *)

Definition page_addr (q : Z) : Prop := 0 < q < 2 ^ 56 /\ q mod PAGE_SIZE = 0.

(** A reference to the table at [q], and a leaf, as the code writes them. *)
Definition ref_pte (q : Z) : Z := link_entry PageTableEntry_new q.
Definition leaf_pte (pa flags : Z) : Z := leaf_entry PageTableEntry_new pa flags.

Lemma fits64_0 : fits 64 0.
Proof. unfold fits. lia. Qed.

Lemma ref_pte_testbit q i : 0 <= i ->
  Z.testbit (ref_pte q) i = (i =? 0) || ((10 <=? i) && (i <=? 53) && Z.testbit q (i + 2)).
Proof.
  intros Hi. unfold ref_pte, link_entry, PageTableEntry_set_v, PageTableEntry_set_ppn,
    PageTableEntry_new, PhysicalAddr_ppn.
  pose proof fits64_0 as F.
  rewrite bit_set_testbit by (lia || (apply bits_set_fits; lia || done)).
  rewrite bits_set_testbit by (lia || done). rewrite Z.bits_0.
  destruct (Z.eqb_spec i 0); [done|]. simpl.
  destruct (Z.leb_spec 10 i), (Z.leb_spec i 53); simpl; try done.
  rewrite bits_get_testbit by lia. destruct (Z.leb_spec (i - 10) (55 - 12)); [|lia].
  simpl. f_equal. lia.
Qed.

Lemma ref_pte_fits q : fits 64 (ref_pte q).
Proof.
  unfold ref_pte, link_entry. apply bit_set_fits; [lia|]. apply bits_set_fits; [lia|lia|].
  apply fits64_0.
Qed.

Lemma ref_pte_v q : PageTableEntry_v (ref_pte q) = true.
Proof. unfold PageTableEntry_v. by rewrite bit_get_testbit, ref_pte_testbit by lia. Qed.

Lemma ref_pte_rwx q : PageTableEntry_rwx (ref_pte q) = 0.
Proof.
  unfold PageTableEntry_rwx. apply Z.bits_inj'. intros i Hi.
  rewrite bits_get_testbit, ref_pte_testbit, Z.bits_0 by lia.
  destruct (Z.leb_spec i (3 - 1)); [|done]. simpl.
  destruct (Z.eqb_spec (i + 1) 0), (Z.leb_spec 10 (i + 1)); try lia; done.
Qed.

Lemma entry_phys_addr_testbit e i : 0 <= i ->
  Z.testbit (entry_phys_addr e) i = (12 <=? i) && (i <=? 55) && Z.testbit e (i - 2).
Proof.
  intros Hi. unfold entry_phys_addr, PhysicalAddr_set_ppn, PhysicalAddr_new, PageTableEntry_ppn.
  rewrite bits_set_testbit by (lia || apply fits64_0). rewrite Z.bits_0.
  destruct (Z.leb_spec 12 i), (Z.leb_spec i 55); simpl; try done.
  rewrite bits_get_testbit by lia. destruct (Z.leb_spec (i - 12) (53 - 10)); [|lia].
  simpl. f_equal. lia.
Qed.

Lemma page_addr_bits q i : page_addr q -> 0 <= i -> i < 12 \/ 56 <= i -> Z.testbit q i = false.
Proof.
  intros [Hq Hm] Hi [Hl|Hl].
  - apply Z.mod_divide in Hm as [k ->]; [|done]. unfold PAGE_SIZE.
    change 4096 with (2 ^ 12). rewrite Z.mul_pow2_bits_low by lia. done.
  - apply (fits_bit 56); [|lia]. unfold fits. lia.
Qed.

Lemma entry_phys_addr_ref q : page_addr q -> entry_phys_addr (ref_pte q) = q.
Proof.
  intros Hq. apply Z.bits_inj'. intros i Hi. rewrite entry_phys_addr_testbit by lia.
  destruct (Z.leb_spec 12 i); simpl; [|by rewrite (page_addr_bits q) by (done || lia)].
  destruct (Z.leb_spec i 55); simpl; [|by rewrite (page_addr_bits q) by (done || lia)].
  rewrite ref_pte_testbit by lia.
  destruct (Z.eqb_spec (i - 2) 0), (Z.leb_spec 10 (i - 2)), (Z.leb_spec (i - 2) 53); try lia.
  simpl. f_equal. lia.
Qed.

(** A level-0 entry is empty or a leaf: the reserved bits are clear. *)
Definition leaf_clean (e : Z) : Prop :=
  e = 0 \/ exists pa flags, e = leaf_pte pa flags.

Lemma leaf_entry_testbit e pa flags i : fits 64 e -> 0 <= i ->
  Z.testbit (leaf_entry e pa flags) i =
  if i =? 0 then true
  else if i <=? 7 then Z.testbit flags i
  else if (10 <=? i) && (i <=? 53) then Z.testbit pa (i + 2) else Z.testbit e i.
Proof.
  intros He Hi. unfold leaf_entry, PageTableEntry_set_ppn, PageTableEntry_set_v,
    PageTableEntry_set_r, PageTableEntry_set_w, PageTableEntry_set_x, PageTableEntry_set_u,
    PageTableEntry_set_g, PageTableEntry_set_a, PageTableEntry_set_d, PageTableEntryFlags_r,
    PageTableEntryFlags_w, PageTableEntryFlags_x, PageTableEntryFlags_u, PageTableEntryFlags_g,
    PageTableEntryFlags_a, PageTableEntryFlags_d, PhysicalAddr_ppn.
  rewrite !bit_set_testbit by (lia || (repeat (apply bit_set_fits; [lia|]); apply bits_set_fits; lia || done)).
  rewrite bits_set_testbit by (lia || done). rewrite !bit_get_testbit by lia.
  destruct (Z.eqb_spec i 7) as [->|]; [done|]. destruct (Z.eqb_spec i 6) as [->|]; [done|].
  destruct (Z.eqb_spec i 5) as [->|]; [done|]. destruct (Z.eqb_spec i 4) as [->|]; [done|].
  destruct (Z.eqb_spec i 3) as [->|]; [done|]. destruct (Z.eqb_spec i 2) as [->|]; [done|].
  destruct (Z.eqb_spec i 1) as [->|]; [done|]. destruct (Z.eqb_spec i 0) as [->|]; [done|].
  destruct (Z.leb_spec i 7); [lia|].
  destruct (Z.leb_spec 10 i), (Z.leb_spec i 53); simpl; try done.
  rewrite bits_get_testbit by lia. destruct (Z.leb_spec (i - 10) (55 - 12)); [|lia].
  simpl. f_equal. lia.
Qed.

Lemma leaf_entry_fits e pa flags : fits 64 e -> fits 64 (leaf_entry e pa flags).
Proof.
  intros He. unfold leaf_entry. repeat (apply bit_set_fits; [lia|]).
  apply bits_set_fits; lia || done.
Qed.

(** Mapping over an empty or a mapped entry gives the same leaf. *)
Lemma leaf_entry_clean e pa flags : leaf_clean e -> leaf_entry e pa flags = leaf_pte pa flags.
Proof.
  intros [->|(pa' & flags' & ->)]; [done|]. unfold leaf_pte.
  pose proof fits64_0 as F. pose proof (leaf_entry_fits 0 pa' flags' F) as F'.
  apply Z.bits_inj'. intros i Hi. rewrite !leaf_entry_testbit by (done || lia).
  destruct (i =? 0), (i <=? 7), ((10 <=? i) && (i <=? 53)); done.
Qed.

Lemma leaf_pte_v pa flags : PageTableEntry_v (leaf_pte pa flags) = true.
Proof.
  unfold PageTableEntry_v, leaf_pte. rewrite bit_get_testbit, leaf_entry_testbit by (lia || apply fits64_0).
  done.
Qed.

Lemma vpn_range va :
  0 <= VirtualAddr_vpn2 va < 512 /\ 0 <= VirtualAddr_vpn1 va < 512 /\ 0 <= VirtualAddr_vpn0 va < 512.
Proof.
  unfold VirtualAddr_vpn2, VirtualAddr_vpn1, VirtualAddr_vpn0.
  pose proof (bits_get_fits 30 38 va ltac:(lia)) as H2.
  pose proof (bits_get_fits 21 29 va ltac:(lia)) as H1.
  pose proof (bits_get_fits 12 20 va ltac:(lia)) as H0.
  unfold fits in *. simpl in *. lia.
Qed.

(** ** Tables in memory *)

Definition idx (i : Z) : Prop := 0 <= i < 512.

Definition handle_ok (t : PageTableHandle) : Prop :=
  fr_start (ph_page t) = ph_ptr t /\ fr_size (ph_page t) = PAGE_SIZE.

(** The memory changes at most in the table at [p]. *)
Definition only_table (p : Z) (h h' : heap) : Prop :=
  forall x, (forall k, idx k -> x <> p + 8 * k) -> h' !! x = h !! x.

Lemma only_table_trans p h1 h2 h3 : only_table p h1 h2 -> only_table p h2 h3 -> only_table p h1 h3.
Proof. intros H1 H2 x Hx. by rewrite H2, H1. Qed.

Lemma only_table_refl p h : only_table p h h.
Proof. by intros x _. Qed.

Lemma only_table_insert p k v h : idx k -> only_table p h (<[p + 8 * k := v]> h).
Proof. intros Hk x Hx. apply lookup_insert_ne. intros <-. by apply (Hx k). Qed.

(** Words of different tables are different. *)
Lemma table_words p q j k : page_addr p -> page_addr q -> p <> q -> idx j -> idx k ->
  p + 8 * j <> q + 8 * k.
Proof.
  intros [_ Hp] [_ Hq] Hne Hj Hk E. unfold idx, PAGE_SIZE in *.
  apply Z.mod_divide in Hp as [u ->]; [|done]. apply Z.mod_divide in Hq as [v ->]; [|done]. lia.
Qed.

Section Tables.
Context {A : Type} {FS : FrameSource A} {FL : FrameLaws A}.

(** A held one-page frame that starts at [p]. *)
Definition held_page (held : list Frame) (p : Z) : Prop := mkFrame p PAGE_SIZE ∈ held.

Lemma held_page_addr h a held p : fs_rep h a held -> held_page held p -> page_addr p.
Proof.
  intros H Hp. destruct (fs_held _ _ _ _ H Hp) as [(H1 & H2 & H3 & _ & H4) _].
  simpl in *. split; [|done]. unfold PAGE_SIZE in *. lia.
Qed.

Lemma handle_held held t : handle_ok t -> ph_page t ∈ held -> held_page held (ph_ptr t).
Proof. intros [E1 E2] Ht. unfold held_page. destruct t as [p [s z]]. simpl in *. by subst. Qed.

Lemma handle_page t : handle_ok t -> ph_page t = mkFrame (ph_ptr t) PAGE_SIZE.
Proof. intros [E1 E2]. destruct t as [p [s z]]. simpl in *. by subst. Qed.

Lemma word_in_page p k : idx k -> in_frame (mkFrame p PAGE_SIZE) (p + 8 * k).
Proof. intros Hk. unfold in_frame, idx, PAGE_SIZE in *. simpl. lia. Qed.

Lemma entry_mapped h a held p k : fs_rep h a held -> held_page held p -> idx k ->
  exists e, h !! (p + 8 * k) = Some e.
Proof.
  intros H Hp Hk. pose proof (held_page_addr _ _ _ _ H Hp) as [_ Hm].
  destruct (fs_held _ _ _ _ H Hp) as [_ Hx].
  apply (Hx (p + 8 * k) (word_in_page p k Hk)). apply Z.mod_divide in Hm as [u ->]; [|done].
  unfold PAGE_SIZE. replace (u * 4096 + 8 * k) with ((u * 512 + k) * 8) by lia.
  by apply Z.mod_mul.
Qed.

Lemma entry_get_ok h p k e : h !! (p + 8 * k) = Some e -> entry_get h p k = Ret e.
Proof. intros E. unfold entry_get, load. by rewrite E. Qed.

Lemma entry_put_ok h a held p k v : fs_rep h a held -> held_page held p -> idx k ->
  entry_put h p k v = Ret (<[p + 8 * k := v]> h) /\ fs_rep (<[p + 8 * k := v]> h) a held.
Proof.
  intros H Hp Hk. destruct (entry_mapped _ _ _ _ _ H Hp Hk) as [e He].
  unfold entry_put, store. rewrite He. split; [done|].
  apply fs_write with (mkFrame p PAGE_SIZE); [done|done|by apply word_in_page].
Qed.

(** Changing a table leaves the other held frames alone. *)
Lemma only_table_same h0 a0 h h' f held p : fs_rep h0 a0 (f :: held) -> f = mkFrame p PAGE_SIZE ->
  only_table p h h' -> same_on held h h'.
Proof.
  intros H -> Ho g x Hg Hx. apply Ho. intros k Hk ->.
  pose proof (word_in_page p k Hk) as Hw. destruct (fs_disjoint _ _ _ _ _ H Hg) as [Hd|Hd];
    unfold in_frame in *; simpl in *; lia.
Qed.

Lemma fill_entries_ok n h a held p i v : fs_rep h a held -> held_page held p ->
  0 <= i -> i + Z.of_nat n <= 512 ->
  exists h', fill_entries n h p i v = Ret h' /\ fs_rep h' a held /\
    (forall k, i <= k < i + Z.of_nat n -> h' !! (p + 8 * k) = Some v) /\
    (forall x, (forall k, i <= k < i + Z.of_nat n -> x <> p + 8 * k) -> h' !! x = h !! x).
Proof.
  revert h i. induction n as [|n IH]; intros h i H Hp Hi Hn; cbn [fill_entries].
  { exists h. split; [done|]. split; [done|]. split; [intros; lia|done]. }
  destruct (entry_put_ok h a held p i v H Hp) as [-> H1]; [unfold idx; lia|].
  rewrite outcome_bind_Ret.
  destruct (IH _ (i + 1) H1 Hp) as (h' & -> & H' & Hk & Hx); [lia|lia|].
  exists h'. split; [done|]. split; [done|]. split.
  - intros k Hk'. destruct (Z.eq_dec k i) as [->|]; [|apply Hk; lia].
    rewrite Hx by (intros; lia). apply lookup_insert_eq.
  - intros x Hx'. rewrite Hx by (intros; apply Hx'; lia).
    apply lookup_insert_ne. intros <-. by apply (Hx' i); [lia|].
Qed.

Definition zeroed (h : heap) (p : Z) : Prop := forall k, idx k -> h !! (p + 8 * k) = Some 0.

Lemma create_ok h a held : fs_rep h a held ->
  exists r h' a', PageTableHandle_create h a = Ret (r, h', a') /\ same_on held h h' /\
    match r with
    | Err e => e = OutOfMemory /\ fs_rep h' a' held
    | Ok t => fs_rep h' a' (ph_page t :: held) /\ handle_ok t /\ zeroed h' (ph_ptr t) /\
        forall f, f ∈ held -> fr_start f <> ph_ptr t
    end.
Proof.
  intros H. unfold PageTableHandle_create.
  destruct (fs_alloc_ok h a held None H) as (r & h1 & a1 & -> & Hs & Hr); [done|].
  rewrite outcome_bind_Ret. destruct r as [f|]; [|by exists (Err OutOfMemory), h1, a1].
  destruct Hr as [H1 Hsz]. cbn [default] in Hsz. rewrite frame_bytes_page in Hsz.
  assert (Hf : f = mkFrame (fr_start f) PAGE_SIZE) by (destruct f; simpl in *; by subst).
  assert (Hp : held_page (f :: held) (fr_start f)) by (unfold held_page; rewrite <- Hf; left).
  destruct (fill_entries_ok PTE_NUMBER h1 a1 (f :: held) (fr_start f) 0 PageTableEntry_new H1 Hp)
    as (h2 & -> & H2 & Hk & Hx); [lia|done|].
  rewrite outcome_bind_Ret. exists (Ok (mkHandle (fr_start f) f)), h2, a1. split; [done|].
  split; [|split; [done|split; [by split|split; [exact Hk|]]]].
  - apply (same_on_trans _ _ h1); [done|].
    apply (only_table_same h1 a1 h1 h2 f held (fr_start f)); [done|done|]. intros x Hx'. by apply Hx.
  - intros g Hg E. destruct (fs_held _ _ _ g H1) as [(_ & _ & Hgs & _) _]; [by right|].
    destruct (fs_disjoint _ _ _ _ _ H1 Hg) as [Hd|Hd]; unfold PAGE_SIZE in *; simpl in *; lia.
Qed.

End Tables.

(** ** The tree of an address space

    The contents of the tables of one address space as a tree: [t_1 i] is the
    level-1 table below root entry [i], [t_0 i j] the level-0 table below entry
    [j] of that table and [t_leaf i j k] the entries of the latter. [t_sh i] is
    a table of another space that root entry [i] refers to. *)

Record tree : Type := mkTree {
  t_sh : Z -> option Z;
  t_1 : Z -> option Z;
  t_0 : Z -> Z -> option Z;
  t_leaf : Z -> Z -> Z -> Z
}.

Inductive node : Type := NRoot | N1 (i : Z) | N0 (i j : Z).

Definition node_addr (root : Z) (T : tree) (n : node) : option Z :=
  match n with NRoot => Some root | N1 i => t_1 T i | N0 i j => t_0 T i j end.

Definition opt_pte (o : option Z) : Z := match o with Some q => ref_pte q | None => 0 end.

Definition node_ent (T : tree) (n : node) (k : Z) : Z :=
  match n with
  | NRoot => match t_sh T k with Some q => ref_pte q | None => opt_pte (t_1 T k) end
  | N1 i => opt_pte (t_0 T i k)
  | N0 i j => t_leaf T i j k
  end.

Definition space_frames (s : AddressSpace) : list Frame :=
  ph_page (as_root s) :: ((fun e => ph_page e.2) <$> as_tables s).

Record space_rep (h : heap) (s : AddressSpace) (T : tree) : Prop := {
  sr_om : om_ok (as_tables s);
  sr_handle : forall p t, (p, t) ∈ as_tables s -> ph_ptr t = p /\ handle_ok t;
  sr_root : handle_ok (as_root s);
  sr_1 : forall i p, t_1 T i = Some p -> idx i;
  sr_0 : forall i j p, t_0 T i j = Some p -> idx j /\ is_Some (t_1 T i);
  sr_sh : forall i q, t_sh T i = Some q ->
    idx i /\ page_addr q /\ t_1 T i = None /\ om_get q (as_tables s) = None;
  sr_tab : forall n p, node_addr (ph_ptr (as_root s)) T n = Some p -> n <> NRoot ->
    is_Some (om_get p (as_tables s));
  sr_ent : forall n p k, node_addr (ph_ptr (as_root s)) T n = Some p -> idx k ->
    h !! (p + 8 * k) = Some (node_ent T n k);
  sr_inj : forall n m p, node_addr (ph_ptr (as_root s)) T n = Some p ->
    node_addr (ph_ptr (as_root s)) T m = Some p -> n = m;
  sr_leaf : forall i j k, leaf_clean (t_leaf T i j k)
}.

(** The pages an address space maps with its own tables. *)
Definition view (T : tree) (i j k : Z) : option Z :=
  match t_0 T i j with
  | Some _ => if PageTableEntry_v (t_leaf T i j k) then Some (t_leaf T i j k) else None
  | None => None
  end.

Definition link1 (T : tree) (i p : Z) : tree :=
  mkTree (t_sh T) (fun i' => if i' =? i then Some p else t_1 T i') (t_0 T) (t_leaf T).

Definition link0 (T : tree) (i j p : Z) : tree :=
  mkTree (t_sh T) (t_1 T)
    (fun i' j' => if (i' =? i) && (j' =? j) then Some p else t_0 T i' j')
    (fun i' j' k => if (i' =? i) && (j' =? j) then 0 else t_leaf T i' j' k).

Definition set_leaf (T : tree) (i j k e : Z) : tree :=
  mkTree (t_sh T) (t_1 T) (t_0 T)
    (fun i' j' k' => if (i' =? i) && (j' =? j) && (k' =? k) then e else t_leaf T i' j' k').

Lemma opt_pte_v o : PageTableEntry_v (opt_pte o) = match o with Some _ => true | None => false end.
Proof. destruct o; simpl; [apply ref_pte_v|done]. Qed.

(** The leaf entries are kept in level-0 tables, so the trees are well-formed. *)
Lemma space_rep_same h h' s T : space_rep h s T ->
  (forall n p k, node_addr (ph_ptr (as_root s)) T n = Some p -> idx k ->
     h' !! (p + 8 * k) = h !! (p + 8 * k)) -> space_rep h' s T.
Proof.
  intros [] Hs. split; try done. intros n p k Hn Hk. rewrite (Hs n p k Hn Hk). eauto.
Qed.

Section Space.
Context {A : Type} {FS : FrameSource A} {FL : FrameLaws A}.

Lemma node_held h s T n p rest : space_rep h s T ->
  node_addr (ph_ptr (as_root s)) T n = Some p -> held_page (space_frames s ++ rest) p.
Proof.
  intros R Hn. assert (Hr : n = NRoot \/ n <> NRoot) by (destruct n; auto).
  unfold space_frames. destruct Hr as [->|Hr].
  - injection Hn as <-. apply handle_held; [apply R|]. left.
  - destruct (sr_tab _ _ _ R n p Hn Hr) as [t Ht].
    apply (om_get_elem _ _ _ (sr_om _ _ _ R)) in Ht.
    destruct (sr_handle _ _ _ R p t Ht) as [<- Hok]. apply handle_held; [done|].
    apply elem_of_app. left. right. apply list_elem_of_fmap. by exists (ph_ptr t, t).
Qed.

Lemma node_page h a s T n p rest : space_rep h s T -> fs_rep h a (space_frames s ++ rest) ->
  node_addr (ph_ptr (as_root s)) T n = Some p -> page_addr p.
Proof. intros R H Hn. apply (held_page_addr h a _ p H). by eapply node_held. Qed.

(** Words of different nodes are different. *)
Lemma node_words h a s T n m p q j k rest : space_rep h s T ->
  fs_rep h a (space_frames s ++ rest) ->
  node_addr (ph_ptr (as_root s)) T n = Some p -> node_addr (ph_ptr (as_root s)) T m = Some q ->
  n <> m -> idx j -> idx k -> p + 8 * j <> q + 8 * k.
Proof.
  intros R H Hn Hm Hne Hj Hk. apply table_words; [by eapply node_page..| |done|done].
  intros ->. apply Hne. by apply (sr_inj _ _ _ R n m q).
Qed.

Lemma entry_node h s T n p k : space_rep h s T ->
  node_addr (ph_ptr (as_root s)) T n = Some p -> idx k -> entry_get h p k = Ret (node_ent T n k).
Proof. intros R Hn Hk. apply entry_get_ok. by apply (sr_ent _ _ _ R). Qed.

(** *** Writing a leaf *)
Lemma set_leaf_rep h a s T i j k p e rest : space_rep h s T ->
  fs_rep h a (space_frames s ++ rest) -> t_0 T i j = Some p -> idx k -> leaf_clean e ->
  space_rep (<[p + 8 * k := e]> h) s (set_leaf T i j k e).
Proof.
  intros R H Hp Hk He. pose proof R as [R1 R2 R3 R4 R5 R6 R7 R8 R9 R10].
  split; try done.
  - intros n q k' Hn Hk'. change (node_addr _ (set_leaf T i j k e) n) with
      (node_addr (ph_ptr (as_root s)) T n) in Hn.
    assert (Hd : n = N0 i j \/ n <> N0 i j).
    { destruct n as [|i'|i' j']; [by right|by right|].
      destruct (decide ((i', j') = (i, j))) as [E|E]; [left; congruence|right; congruence]. }
    destruct Hd as [->|Hd].
    + simpl in Hn. assert (q = p) as -> by congruence. simpl. rewrite !Z.eqb_refl. simpl.
      destruct (Z.eqb_spec k' k) as [->|]; [apply lookup_insert_eq|].
      rewrite lookup_insert_ne by lia. by apply (R8 (N0 i j)).
    + assert (Hw : p + 8 * k <> q + 8 * k').
      { by apply (node_words h a s T (N0 i j) n p q k k' rest). }
      rewrite lookup_insert_ne by done. rewrite (R8 n q k' Hn Hk').
      destruct n as [|i'|i' j']; [done|done|]. simpl. do 2 f_equal.
      destruct (Z.eqb_spec i' i) as [->|], (Z.eqb_spec j' j) as [->|]; done.
  - intros i' j' k'. simpl. destruct ((i' =? i) && (j' =? j) && (k' =? k)); done.
Qed.

(** *** Adding a table *)

(** A fresh, empty table at [p]: not yet in the space. *)
Record fresh_table (h : heap) (s : AddressSpace) (T : tree) (t : PageTableHandle) : Prop := {
  ft_handle : handle_ok t;
  ft_zero : zeroed h (ph_ptr t);
  ft_new : forall f, f ∈ space_frames s -> fr_start f <> ph_ptr t;
  ft_sh : forall i q, t_sh T i = Some q -> q <> ph_ptr t
}.

Definition add_table (s : AddressSpace) (t : PageTableHandle) : AddressSpace :=
  mkSpace (as_root s) (om_insert (ph_ptr t) t (as_tables s)).

Lemma fresh_node h s T t n : space_rep h s T -> fresh_table h s T t ->
  node_addr (ph_ptr (as_root s)) T n <> Some (ph_ptr t).
Proof.
  intros R F Hn. pose proof (node_held h s T n _ [] R Hn) as Hh.
  unfold held_page in Hh. rewrite app_nil_r in Hh. by apply (ft_new _ _ _ _ F) in Hh.
Qed.

Lemma fresh_key h s T t : space_rep h s T -> fresh_table h s T t ->
  om_get (ph_ptr t) (as_tables s) = None.
Proof.
  intros R F. destruct (om_get _ _) as [t'|] eqn:E; [|done].
  apply (om_get_elem _ _ _ (sr_om _ _ _ R)) in E.
  destruct (sr_handle _ _ _ R _ _ E) as [E1 [E2 _]]. exfalso.
  apply (ft_new _ _ _ _ F (ph_page t')); [|congruence]. right. apply list_elem_of_fmap.
  by exists (ph_ptr t, t').
Qed.

Lemma add_table_frames h s T t : space_rep h s T -> fresh_table h s T t ->
  space_frames (add_table s t) ≡ₚ ph_page t :: space_frames s.
Proof.
  intros R F. unfold space_frames, add_table. simpl.
  rewrite (om_insert_new _ t) by (apply R || by eapply fresh_key). simpl. apply perm_swap.
Qed.

Lemma get_add_table h s T t p : space_rep h s T -> fresh_table h s T t ->
  om_get p (as_tables (add_table s t)) = if p =? ph_ptr t then Some t else om_get p (as_tables s).
Proof.
  intros R F. unfold add_table. simpl. rewrite om_get_insert by apply R.
  destruct (decide (p = ph_ptr t)) as [->|]; [by rewrite Z.eqb_refl|].
  by destruct (Z.eqb_spec p (ph_ptr t)); [congruence|].
Qed.

#[local] Instance node_eq_dec : EqDecision node.
Proof. solve_decision. Defined.

(** [T'] is [T] with a new empty table for the node [m], linked from entry [k]
    of the node [n]. *)
Record linked (root : Z) (T T' : tree) (n m : node) (k p : Z) : Prop := {
  lk_old : node_addr root T m = None;
  lk_new : node_addr root T' m = Some p;
  lk_addr : forall n', n' <> m -> node_addr root T' n' = node_addr root T n';
  lk_ent : node_ent T' n k = ref_pte p;
  lk_zero : forall k', node_ent T' m k' = 0;
  lk_rest : forall n' k', n' <> m -> (n', k') <> (n, k) -> node_ent T' n' k' = node_ent T n' k';
  lk_sh : t_sh T' = t_sh T;
  lk_sh1 : forall i q, t_sh T i = Some q -> t_1 T' i = t_1 T i;
  lk_1 : forall i q, t_1 T' i = Some q -> idx i;
  lk_0 : forall i j q, t_0 T' i j = Some q -> idx j /\ is_Some (t_1 T' i);
  lk_leaf : forall i j k', leaf_clean (t_leaf T' i j k')
}.

Lemma link_rep h a s T T' n m k p t rest : space_rep h s T ->
  fs_rep h a (space_frames s ++ rest) -> fresh_table h s T t -> n <> m -> idx k ->
  node_addr (ph_ptr (as_root s)) T n = Some p -> page_addr (ph_ptr t) ->
  linked (ph_ptr (as_root s)) T T' n m k (ph_ptr t) ->
  space_rep (<[p + 8 * k := ref_pte (ph_ptr t)]> h) (add_table s t) T'.
Proof.
  intros R H F Hnm Hk Hn Hpt L. pose proof R as [R1 R2 R3 R4 R5 R6 R7 R8 R9 R10].
  assert (Hroot : NRoot <> m) by (intros <-; pose proof (lk_old _ _ _ _ _ _ _ L); done).
  assert (Hinv : forall n' q, node_addr (ph_ptr (as_root s)) T' n' = Some q ->
    (n' = m /\ q = ph_ptr t) \/ (n' <> m /\ node_addr (ph_ptr (as_root s)) T n' = Some q)).
  { intros n' q Hq. destruct (decide (n' = m)) as [->|Hne].
    - left. split; [done|]. rewrite (lk_new _ _ _ _ _ _ _ L) in Hq. congruence.
    - right. by rewrite <- (lk_addr _ _ _ _ _ _ _ L n' Hne). }
  split; simpl.
  - by apply om_insert_ok.
  - intros q t' Hin. apply elem_of_om_insert in Hin; [|done].
    destruct Hin as [[-> ->]|[_ Hin]]; [split; [done|apply F]|by apply R2].
  - done.
  - apply L.
  - apply L.
  - intros i q Hq. rewrite (lk_sh _ _ _ _ _ _ _ L) in Hq.
    rewrite (lk_sh1 _ _ _ _ _ _ _ L i q Hq). destruct (R6 i q Hq) as (? & ? & ? & Hg).
    split; [done|]. split; [done|]. split; [done|].
    change (om_insert (ph_ptr t) t (as_tables s)) with (as_tables (add_table s t)).
    rewrite (get_add_table h s T) by done.
    destruct (Z.eqb_spec q (ph_ptr t)) as [->|]; [|done].
    by destruct (ft_sh _ _ _ _ F i (ph_ptr t)).
  - intros n' q Hq Hne. change (om_insert (ph_ptr t) t (as_tables s)) with (as_tables (add_table s t)).
    rewrite (get_add_table h s T) by done. destruct (Z.eqb_spec q (ph_ptr t)); [done|].
    destruct (Hinv n' q Hq) as [[_ ?]|[_ Hq']]; [done|]. by apply (R7 n').
  - intros n' q k' Hq Hk'. destruct (Hinv n' q Hq) as [[-> ->]|[Hne Hq']].
    + rewrite (lk_zero _ _ _ _ _ _ _ L), lookup_insert_ne.
      * by apply (ft_zero _ _ _ _ F).
      * apply table_words; [by eapply node_page|done| |done|done].
        intros ->. by apply (fresh_node h s T t n R F).
    + destruct (decide ((n', k') = (n, k))) as [E|E].
      * injection E as -> ->. assert (q = p) as -> by congruence.
        by rewrite lookup_insert_eq, (lk_ent _ _ _ _ _ _ _ L).
      * rewrite (lk_rest _ _ _ _ _ _ _ L n' k') by done. rewrite lookup_insert_ne; [by apply R8|].
        destruct (decide (n' = n)) as [->|].
        -- assert (q = p) as -> by congruence. intros ?. apply E. f_equal. lia.
        -- by apply (node_words h a s T n n' p q k k' rest).
  - intros n' m' q Hq Hq'.
    destruct (Hinv n' q Hq) as [[-> ->]|[Hne Hq1]], (Hinv m' _ Hq') as [[-> E]|[Hne' Hq2]];
      try done.
    + by destruct (fresh_node h s T t m' R F).
    + subst q. by destruct (fresh_node h s T t n' R F).
    + by apply (R9 n' m' q).
  - apply L.
Qed.

Lemma linked1 h s T i p : space_rep h s T -> idx i -> t_sh T i = None -> t_1 T i = None ->
  linked (ph_ptr (as_root s)) T (link1 T i p) NRoot (N1 i) i p.
Proof.
  intros R Hi Hsh H1. assert (H0 : forall j, t_0 T i j = None).
  { intros j. destruct (t_0 T i j) eqn:E; [|done].
    destruct (sr_0 _ _ _ R _ _ _ E) as [_ [? ?]]. congruence. }
  split; simpl; try done.
  - by rewrite Z.eqb_refl.
  - intros [|i'|i' j'] Hne; [done| |done]. simpl. destruct (Z.eqb_spec i' i); [congruence|done].
  - by rewrite Hsh, Z.eqb_refl.
  - intros k'. by rewrite H0.
  - intros [|i'|i' j'] k' Hne Hnk; [|done|done]. simpl.
    destruct (Z.eqb_spec k' i); [congruence|done].
  - intros i' q Hq. destruct (Z.eqb_spec i' i); [congruence|done].
  - intros i' q Hq. destruct (Z.eqb_spec i' i) as [->|]; [done|]. by apply (sr_1 _ _ _ R i' q).
  - intros i' j q Hq. destruct (sr_0 _ _ _ R _ _ _ Hq) as [? ?]. split; [done|].
    by destruct (i' =? i).
  - apply R.
Qed.

Lemma linked0 h s T i j p q : space_rep h s T -> idx j -> t_1 T i = Some q -> t_0 T i j = None ->
  linked (ph_ptr (as_root s)) T (link0 T i j p) (N1 i) (N0 i j) j p.
Proof.
  intros R Hj H1 H0. split; simpl; try done.
  - by rewrite !Z.eqb_refl.
  - intros [|i'|i' j'] Hne; [done|done|]. simpl.
    destruct (Z.eqb_spec i' i), (Z.eqb_spec j' j); simpl; congruence || done.
  - by rewrite !Z.eqb_refl.
  - intros k'. by rewrite !Z.eqb_refl.
  - intros [|i'|i' j'] k' Hne Hnk; [done| |]; simpl.
    + destruct (Z.eqb_spec i' i), (Z.eqb_spec k' j); simpl; congruence || done.
    + destruct (Z.eqb_spec i' i), (Z.eqb_spec j' j); simpl; congruence || done.
  - apply R.
  - intros i' j' q' Hq. destruct (Z.eqb_spec i' i) as [->|], (Z.eqb_spec j' j) as [->|]; simpl in Hq;
      try (by apply (sr_0 _ _ _ R i' j' q')); try (by apply (sr_0 _ _ _ R i j' q'));
      try (by apply (sr_0 _ _ _ R i' j q')).
    split; [done|]. by rewrite H1.
  - intros i' j' k'. destruct ((i' =? i) && (j' =? j)); [by left|apply R].
Qed.

(** *** [map] *)

(** A space in a consistent memory, with the frames [rest] held by others; the
    tables of other spaces it refers to are among them. *)
Record space_in (h : heap) (a : A) (s : AddressSpace) (T : tree) (rest : list Frame) : Prop := {
  si_rep : space_rep h s T;
  si_held : fs_rep h a (space_frames s ++ rest);
  si_sh : forall i q, t_sh T i = Some q -> held_page rest q
}.

Lemma same_on_rep h h' s T held : same_on held h h' -> space_frames s ⊆ held ->
  space_rep h s T -> space_rep h' s T.
Proof.
  intros Hs Hsub R. apply (space_rep_same h); [done|]. intros n p k Hn Hk.
  apply (Hs (mkFrame p PAGE_SIZE)); [|by apply word_in_page].
  pose proof (node_held h s T n p [] R Hn) as Hh. unfold held_page in Hh.
  rewrite app_nil_r in Hh. by apply Hsub.
Qed.

(** What a step of [map] below root entry [i] keeps: the frames of others, the
    root, the shared part, the level-1 tables and the mapped pages. *)
Record map_keeps (i : Z) (h h' : heap) (s s' : AddressSpace) (T T' : tree) (rest : list Frame)
    : Prop := {
  mk_same : same_on rest h h';
  mk_root : as_root s' = as_root s;
  mk_sh : t_sh T' = t_sh T;
  mk_1 : forall i', t_1 T' i' = t_1 T i' \/ (i' = i /\ t_1 T i' = None);
  mk_view : forall i j k, view T' i j k = view T i j k
}.

Lemma map_keeps_refl i h s T rest : map_keeps i h h s s T T rest.
Proof. split; [apply same_on_refl|done|done|by left|done]. Qed.

Lemma map_keeps_trans i h1 h2 h3 s1 s2 s3 T1 T2 T3 rest :
  map_keeps i h1 h2 s1 s2 T1 T2 rest -> map_keeps i h2 h3 s2 s3 T2 T3 rest ->
  map_keeps i h1 h3 s1 s3 T1 T3 rest.
Proof.
  intros [A1 A2 A3 A4 A5] [B1 B2 B3 B4 B5].
  split; [by eapply same_on_trans|congruence|congruence| |].
  - intros i'. destruct (A4 i') as [E|E], (B4 i') as [E'|E']; try (by right); [left|right];
      destruct_and?; split_and?; congruence.
  - intros. by rewrite B5.
Qed.

(** A new table for the space. *)
Lemma create_table_ok h a s T rest : space_in h a s T rest ->
  exists r h' a', PageTableHandle_create h a = Ret (r, h', a') /\ same_on rest h h' /\
    match r with
    | Err e => e = OutOfMemory /\ space_in h' a' s T rest
    | Ok t => space_rep h' s T /\ fresh_table h' s T t /\ page_addr (ph_ptr t) /\
        fs_rep h' a' (space_frames s ++ ph_page t :: rest)
    end.
Proof.
  intros [R H Hsh]. destruct (create_ok h a _ H) as (r & h' & a' & Hc & Hs & Hr).
  assert (Hs2 : same_on rest h h') by (apply (same_on_sub _ _ _ _ Hs); set_solver).
  assert (R' : space_rep h' s T) by (apply (same_on_rep h h' s T _ Hs); [set_solver|done]).
  exists r, h', a'. split; [done|]. split; [done|]. destruct r as [t|e].
  - destruct Hr as (H' & Hok & Hz & Hnew). split; [done|]. split; [|split].
    + split; [done|done|intros f Hf; apply Hnew; set_solver|].
      intros i q Hq. apply (Hnew (mkFrame q PAGE_SIZE)). apply elem_of_app. right. by eapply Hsh.
    + apply (held_page_addr h' a' _ _ H'). apply handle_held; [done|left].
    + apply (fs_perm _ _ _ _ H'). by rewrite <- Permutation_middle.
  - destruct Hr as [-> H']. split; [done|]. split; done.
Qed.

(** Linking the new table into entry [k] of node [n]. *)
Lemma link_ok i0 h a s T T' n m k p t rest : space_rep h s T ->
  fs_rep h a (space_frames s ++ ph_page t :: rest) ->
  (forall i q, t_sh T i = Some q -> held_page rest q) ->
  fresh_table h s T t -> page_addr (ph_ptr t) -> n <> m -> idx k ->
  node_addr (ph_ptr (as_root s)) T n = Some p ->
  linked (ph_ptr (as_root s)) T T' n m k (ph_ptr t) ->
  (forall i', t_1 T' i' = t_1 T i' \/ (i' = i0 /\ t_1 T i' = None)) ->
  (forall i j k, view T' i j k = view T i j k) ->
  let h' := <[p + 8 * k := ref_pte (ph_ptr t)]> h in
  entry_put h p k (ref_pte (ph_ptr t)) = Ret h' /\
  insert_table h' a (as_tables s) (ph_ptr t) t = Ret (h', a, as_tables (add_table s t)) /\
  space_in h' a (add_table s t) T' rest /\ map_keeps i0 h h' s (add_table s t) T T' rest.
Proof.
  intros R H Hsh F Hpt Hnm Hk Hn L H1 Hv h'.
  assert (Hp : held_page (space_frames s ++ ph_page t :: rest) p) by (by eapply node_held).
  destruct (entry_put_ok h a _ p k (ref_pte (ph_ptr t)) H Hp Hk) as [E H'].
  split; [done|]. split; [|split].
  - unfold insert_table. by rewrite (fresh_key h s T t).
  - split.
    + by apply (link_rep h a s T T' n m k p t (ph_page t :: rest)).
    + apply (fs_perm _ _ _ _ H'). rewrite (add_table_frames h s T t R F).
      by rewrite <- Permutation_middle.
    + intros i q Hq. rewrite (lk_sh _ _ _ _ _ _ _ L) in Hq. by eapply Hsh.
  - split; [|done|apply L|done|done]. intros g x Hg Hx. apply lookup_insert_ne. intros <-.
    assert (Hpg : mkFrame p PAGE_SIZE ∈ space_frames s).
    { pose proof (node_held h s T n p [] R Hn) as Hh. unfold held_page in Hh.
      by rewrite app_nil_r in Hh. }
    apply elem_of_Permutation in Hpg as (fs & Hfs).
    assert (H2 : fs_rep h a (mkFrame p PAGE_SIZE :: fs ++ ph_page t :: rest)).
    { apply (fs_perm _ _ _ _ H). by rewrite Hfs. }
    pose proof (word_in_page p k Hk) as Hw.
    destruct (fs_disjoint _ _ _ _ g H2) as [Hd|Hd]; [set_solver|..];
      unfold in_frame in *; simpl in *; lia.
Qed.

Lemma map_level2_ok h a s T rest i : space_in h a s T rest -> idx i ->
  exists r h' a' s' T', map_level2 h a s i = Ret (r, h', a', s') /\
    space_in h' a' s' T' rest /\ map_keeps i h h' s s' T T' rest /\
    match r with
    | Err e => e = OutOfMemory /\ t_sh T i = None
    | Ok p => match t_sh T i with Some q => p = q | None => t_1 T' i = Some p end
    end.
Proof.
  intros SI Hi. pose proof SI as [R H Hsh]. unfold map_level2.
  rewrite (entry_node h s T NRoot _ i R eq_refl Hi), outcome_bind_Ret. simpl node_ent.
  destruct (t_sh T i) as [q|] eqn:Esh.
  { rewrite ref_pte_v. simpl. exists (Ok (entry_phys_addr (ref_pte q))), h, a, s, T.
    split; [done|]. split; [done|]. split; [apply map_keeps_refl|].
    destruct (sr_sh _ _ _ R i q Esh) as (_ & Hq & _). by rewrite entry_phys_addr_ref. }
  rewrite opt_pte_v. destruct (t_1 T i) as [p|] eqn:E1; simpl negb; cbv iota.
  { exists (Ok (entry_phys_addr (ref_pte p))), h, a, s, T.
    split; [done|]. split; [done|]. split; [apply map_keeps_refl|].
    rewrite entry_phys_addr_ref; [done|]. by apply (node_page h a s T (N1 i) p rest). }
  destruct (create_table_ok h a s T rest SI) as (r & h1 & a1 & -> & Hs & Hr).
  rewrite outcome_bind_Ret. destruct r as [t|e].
  - destruct Hr as (R1 & F & Hpt & H1). cbv zeta. unfold as_phys_addr.
    destruct (link_ok i h1 a1 s T (link1 T i (ph_ptr t)) NRoot (N1 i) i (ph_ptr (as_root s)) t rest
      R1 H1 Hsh F Hpt ltac:(done) Hi eq_refl) as (E & E2 & SI' & Hk); [by eapply linked1| |done|].
    { intros i'. simpl. destruct (Z.eqb_spec i' i) as [->|]; auto. }
    change (link_entry (opt_pte None) (ph_ptr t)) with (ref_pte (ph_ptr t)).
    rewrite E, outcome_bind_Ret, E2, outcome_bind_Ret.
    eexists _, _, _, _, _. split; [done|]. split; [exact SI'|]. split.
    + destruct Hk as [K1 K2 K3 K4 K5]. split; [by eapply same_on_trans|done..].
    + simpl. rewrite Z.eqb_refl. by rewrite entry_phys_addr_ref.
  - destruct Hr as [-> SI']. eexists _, _, _, _, T. split; [done|]. split; [exact SI'|].
    split; [|done]. split; [done|done|done|by left|done].
Qed.

Lemma node_table h s T n p : space_rep h s T -> node_addr (ph_ptr (as_root s)) T n = Some p ->
  n <> NRoot -> exists t, om_get p (as_tables s) = Some t /\ ph_ptr t = p.
Proof.
  intros R Hn Hne. destruct (sr_tab _ _ _ R n p Hn Hne) as [t Ht]. exists t. split; [done|].
  apply (om_get_elem _ _ _ (sr_om _ _ _ R)) in Ht. by destruct (sr_handle _ _ _ R p t Ht).
Qed.

Lemma view_link0 h s T i j p : space_rep h s T -> t_0 T i j = None ->
  forall i' j' k', view (link0 T i j p) i' j' k' = view T i' j' k'.
Proof.
  intros R H0 i' j' k'. unfold view. simpl.
  destruct (Z.eqb_spec i' i) as [->|], (Z.eqb_spec j' j) as [->|]; simpl; try done.
  by rewrite H0.
Qed.

Lemma map_level1_ok h a s T rest i j p1 : space_in h a s T rest -> t_1 T i = Some p1 -> idx j ->
  exists r h' a' s' T', map_level1 h a s p1 j = Ret (r, h', a', s') /\
    space_in h' a' s' T' rest /\ map_keeps i h h' s s' T T' rest /\
    match r with Err e => e = OutOfMemory | Ok p => t_0 T' i j = Some p end.
Proof.
  intros SI H1 Hj. pose proof SI as [R H Hsh]. unfold map_level1.
  destruct (node_table h s T (N1 i) p1 R H1 ltac:(done)) as (t1 & Ht1 & Ep). rewrite Ht1, Ep.
  rewrite (entry_node h s T (N1 i) p1 j R H1 Hj), outcome_bind_Ret. simpl node_ent.
  rewrite opt_pte_v. destruct (t_0 T i j) as [p0|] eqn:E0; simpl negb; cbv iota.
  { rewrite outcome_bind_Ret. rewrite Ht1, Ep.
    rewrite (entry_node h s T (N1 i) p1 j R H1 Hj), outcome_bind_Ret. simpl node_ent. rewrite E0.
    eexists _, _, _, _, T. split; [done|]. split; [done|]. split; [apply map_keeps_refl|].
    simpl. rewrite entry_phys_addr_ref; [done|]. by apply (node_page h a s T (N0 i j) p0 rest). }
  destruct (create_table_ok h a s T rest SI) as (r & h1 & a1 & -> & Hs & Hr).
  rewrite !outcome_bind_Ret. destruct r as [t|e].
  - destruct Hr as (R1 & F & Hpt & Hh1). cbv zeta iota beta. unfold as_phys_addr. rewrite ?Ht1, ?Ep.
    rewrite (entry_node h1 s T (N1 i) p1 j R1 H1 Hj), outcome_bind_Ret. simpl node_ent. rewrite E0.
    change (link_entry (opt_pte None) (ph_ptr t)) with (ref_pte (ph_ptr t)).
    destruct (link_ok i h1 a1 s T (link0 T i j (ph_ptr t)) (N1 i) (N0 i j) j p1 t rest
      R1 Hh1 Hsh F Hpt ltac:(done) Hj H1) as (E & E2 & SI' & Hk);
      [by eapply linked0|by left|by eapply view_link0|].
    rewrite E, outcome_bind_Ret, E2, !outcome_bind_Ret.
    pose proof (si_rep _ _ _ _ _ SI') as R'.
    change (mkSpace (as_root s) (as_tables (add_table s t))) with (add_table s t).
    destruct (node_table _ _ _ (N1 i) p1 R' H1 ltac:(done)) as (t1' & Ht1' & Ep').
    rewrite Ht1', Ep'. rewrite (entry_node _ _ _ (N1 i) p1 j R' H1 Hj), outcome_bind_Ret.
    simpl node_ent. rewrite !Z.eqb_refl. simpl.
    eexists _, _, _, _, _. split; [done|]. split; [exact SI'|]. split.
    + destruct Hk as [K1 K2 K3 K4 K5]. split; [by eapply same_on_trans|done..].
    + simpl. rewrite !Z.eqb_refl. simpl. by rewrite entry_phys_addr_ref.
  - destruct Hr as [-> SI']. eexists _, _, _, _, T. split; [done|]. split; [exact SI'|].
    split; [|done]. split; [done|done|done|by left|done].
Qed.

(** The pages of [va] and [va'] are the same. *)
Definition same_page (va va' : Z) : bool :=
  (VirtualAddr_vpn2 va =? VirtualAddr_vpn2 va') && (VirtualAddr_vpn1 va =? VirtualAddr_vpn1 va') &&
  (VirtualAddr_vpn0 va =? VirtualAddr_vpn0 va').

Definition own_view (T : tree) (va : Z) : option Z :=
  view T (VirtualAddr_vpn2 va) (VirtualAddr_vpn1 va) (VirtualAddr_vpn0 va).

Lemma set_leaf_in h a s T rest i j k p e : space_in h a s T rest -> t_0 T i j = Some p ->
  idx k -> leaf_clean e ->
  let h' := <[p + 8 * k := e]> h in
  entry_put h p k e = Ret h' /\ space_in h' a s (set_leaf T i j k e) rest /\ same_on rest h h'.
Proof.
  intros SI H0 Hk He h'. pose proof SI as [R H Hsh].
  assert (Hp : held_page (space_frames s ++ rest) p) by (by apply (node_held h s T (N0 i j))).
  destruct (entry_put_ok h a _ p k e H Hp Hk) as [E H']. split; [done|]. split.
  - split; [|done|done]. by apply (set_leaf_rep h a s T i j k p e rest).
  - intros g x Hg Hx. apply lookup_insert_ne. intros <-.
    assert (Hpg : mkFrame p PAGE_SIZE ∈ space_frames s).
    { pose proof (node_held h s T (N0 i j) p [] R H0) as Hh. unfold held_page in Hh.
      by rewrite app_nil_r in Hh. }
    apply elem_of_Permutation in Hpg as (fs & Hfs).
    assert (H2 : fs_rep h a (mkFrame p PAGE_SIZE :: fs ++ rest)).
    { apply (fs_perm _ _ _ _ H). by rewrite Hfs. }
    pose proof (word_in_page p k Hk) as Hw.
    destruct (fs_disjoint _ _ _ _ g H2) as [Hd|Hd]; [set_solver|..];
      unfold in_frame in *; simpl in *; lia.
Qed.

Lemma view_set_leaf T i j k p e i' j' k' : t_0 T i j = Some p ->
  view (set_leaf T i j k e) i' j' k' =
  if (i' =? i) && (j' =? j) && (k' =? k) then (if PageTableEntry_v e then Some e else None)
  else view T i' j' k'.
Proof.
  intros H0. unfold view. simpl.
  destruct (Z.eqb_spec i' i) as [->|], (Z.eqb_spec j' j) as [->|], (Z.eqb_spec k' k) as [->|];
    simpl; rewrite ?H0; done.
Qed.

(** The space-level contract of [map]. *)
Lemma AddressSpace_map_ok h a s T rest va pa flags : space_in h a s T rest ->
  exists r h' a' s' T', AddressSpace_map h a s va pa flags = Ret (r, h', a', s') /\
    space_in h' a' s' T' rest /\ same_on rest h h' /\ as_root s' = as_root s /\
    t_sh T' = t_sh T /\
    (forall i, t_1 T' i = t_1 T i \/ (i = VirtualAddr_vpn2 va /\ t_1 T i = None)) /\
    match t_sh T (VirtualAddr_vpn2 va) with
    | Some _ => r = Err PageTableMissing /\ forall va', own_view T' va' = own_view T va'
    | None =>
        (r = Ok tt /\ is_Some (t_1 T' (VirtualAddr_vpn2 va)) /\ forall va', own_view T' va' =
           if same_page va' va then Some (leaf_pte pa flags) else own_view T va') \/
        (r = Err OutOfMemory /\ forall va', own_view T' va' = own_view T va')
    end.
Proof.
  intros SI. unfold AddressSpace_map. destruct (vpn_range va) as (V2 & V1 & V0).
  destruct (map_level2_ok h a s T rest _ SI V2) as (r & h1 & a1 & s1 & T1 & -> & SI1 & K1 & Hr).
  rewrite outcome_bind_Ret. destruct r as [p1|e].
  2: { destruct Hr as [-> Hn]. exists (Err OutOfMemory), h1, a1, s1, T1. split; [done|].
       split; [done|]. destruct K1 as [? ? ? ? Kv]. rewrite Hn.
       do 4 (split; [done|]). right. split; [done|]. intros va'. apply Kv. }
  destruct (t_sh T (VirtualAddr_vpn2 va)) as [q|] eqn:Esh.
  { subst p1. unfold map_level1. destruct K1 as [K1 K2 K3 K4 Kv].
    destruct (sr_sh _ _ _ (si_rep _ _ _ _ _ SI1) (VirtualAddr_vpn2 va) q) as (_ & _ & _ & Hg).
    { by rewrite K3. }
    rewrite Hg, outcome_bind_Ret. eexists _, _, _, _, T1. split; [done|]. split; [done|].
    do 4 (split; [done|]). split; [done|]. intros va'. apply Kv. }
  destruct (map_level1_ok h1 a1 s1 T1 rest _ _ p1 SI1 Hr V1)
    as (r & h2 & a2 & s2 & T2 & -> & SI2 & K2 & Hr2).
  rewrite outcome_bind_Ret. pose proof (map_keeps_trans _ _ _ _ _ _ _ _ _ _ _ K1 K2) as [S2 Rt2 Sh2 G2 Vw2].
  destruct r as [p0|e].
  2: { subst e. exists (Err OutOfMemory), h2, a2, s2, T2. split; [done|]. split; [done|].
       do 4 (split; [done|]). right. split; [done|]. intros va'. apply Vw2. }
  pose proof (si_rep _ _ _ _ _ SI2) as R2.
  destruct (node_table _ _ _ (N0 _ _) p0 R2 Hr2 ltac:(done)) as (t0 & Ht0 & Ep). rewrite Ht0, Ep.
  rewrite (entry_node _ _ _ (N0 _ _) p0 _ R2 Hr2 V0), outcome_bind_Ret. simpl node_ent.
  rewrite leaf_entry_clean by apply R2.
  destruct (set_leaf_in h2 a2 s2 T2 rest _ _ _ p0 (leaf_pte pa flags) SI2 Hr2 V0)
    as (-> & SI3 & S3); [right; by eauto|].
  rewrite outcome_bind_Ret. eexists _, _, _, _, _. split; [done|]. split; [exact SI3|].
  split; [by eapply same_on_trans|]. do 3 (split; [done|]). left. split; [done|].
  split; [exact (proj2 (sr_0 _ _ _ R2 _ _ p0 Hr2))|]. intros va'. unfold own_view. rewrite (view_set_leaf _ _ _ _ p0) by done. rewrite leaf_pte_v.
  unfold same_page. by rewrite Vw2.
Qed.

(** *** [unmap] *)
Lemma AddressSpace_unmap_ok h a s T rest va : space_in h a s T rest ->
  exists h' T', AddressSpace_unmap h s va = Ret h' /\ space_in h' a s T' rest /\
    same_on rest h h' /\ t_sh T' = t_sh T /\ t_1 T' = t_1 T /\
    forall va', own_view T' va' = if same_page va' va then None else own_view T va'.
Proof.
  intros SI. pose proof SI as [R H Hsh]. unfold AddressSpace_unmap.
  destruct (vpn_range va) as (V2 & V1 & V0).
  assert (Hnone : forall va', t_0 T (VirtualAddr_vpn2 va) (VirtualAddr_vpn1 va) = None ->
    own_view T va' = if same_page va' va then None else own_view T va').
  { intros va' H0. destruct (same_page va' va) eqn:E; [|done]. unfold same_page in E. zify_bool.
    unfold own_view, view. by rewrite H1, H3, H0. }
  assert (Hskip : t_0 T (VirtualAddr_vpn2 va) (VirtualAddr_vpn1 va) = None ->
    exists h' T', Ret h = Ret h' /\ space_in h' a s T' rest /\ same_on rest h h' /\
      t_sh T' = t_sh T /\ t_1 T' = t_1 T /\
      forall va', own_view T' va' = if same_page va' va then None else own_view T va').
  { intros H0. exists h, T. split; [done|]. split; [done|]. split; [apply same_on_refl|].
    split; [done|]. split; [done|]. by intros va'; apply Hnone. }
  rewrite (entry_node h s T NRoot _ _ R eq_refl V2), outcome_bind_Ret. simpl node_ent.
  destruct (t_sh T (VirtualAddr_vpn2 va)) as [q|] eqn:Esh.
  { rewrite ref_pte_v. simpl negb. cbv iota. destruct (sr_sh _ _ _ R _ q Esh) as (_ & Hq & H1 & Hg).
    rewrite entry_phys_addr_ref, Hg by done. apply Hskip.
    destruct (t_0 T _ _) eqn:E; [|done]. destruct (sr_0 _ _ _ R _ _ _ E) as [_ [? ?]]. congruence. }
  rewrite opt_pte_v. destruct (t_1 T (VirtualAddr_vpn2 va)) as [p1|] eqn:E1; simpl negb; cbv iota.
  2: { apply Hskip. destruct (t_0 T _ _) eqn:E; [|done].
       destruct (sr_0 _ _ _ R _ _ _ E) as [_ [? ?]]. congruence. }
  simpl opt_pte. rewrite entry_phys_addr_ref by (by apply (node_page h a s T (N1 (VirtualAddr_vpn2 va)) p1 rest)).
  destruct (node_table h s T (N1 _) p1 R E1 ltac:(done)) as (t1 & Ht1 & Ep). rewrite Ht1, Ep.
  rewrite (entry_node h s T (N1 _) p1 _ R E1 V1), outcome_bind_Ret. simpl node_ent. rewrite opt_pte_v.
  destruct (t_0 T (VirtualAddr_vpn2 va) (VirtualAddr_vpn1 va)) as [p0|] eqn:E0; simpl negb; cbv iota;
    [|by apply Hskip].
  simpl opt_pte. rewrite entry_phys_addr_ref by (by apply (node_page h a s T (N0 (VirtualAddr_vpn2 va) (VirtualAddr_vpn1 va)) p0 rest)).
  destruct (node_table h s T (N0 _ _) p0 R E0 ltac:(done)) as (t0 & Ht0 & Ep0). rewrite Ht0, Ep0.
  destruct (set_leaf_in h a s T rest _ _ _ p0 PageTableEntry_new SI E0 V0) as (-> & SI' & S');
    [by left|].
  eexists _, _. split; [done|]. split; [exact SI'|]. split; [done|]. split; [done|].
  split; [done|]. intros va'. unfold own_view. by rewrite (view_set_leaf _ _ _ _ p0).
Qed.

(** *** What the hardware sees *)

(** The walk from a level-1 table on. *)
Definition walk1 (h : heap) (p1 va : Z) : option Z :=
  p0 ← walk_ref h p1 (VirtualAddr_vpn1 va);
  walk_leaf h p0 (VirtualAddr_vpn0 va).

Lemma walk_ref_pte h p k q : h !! (p + 8 * k) = Some (ref_pte q) -> page_addr q ->
  walk_ref h p k = Some q.
Proof.
  intros E Hq. unfold walk_ref. by rewrite E, ref_pte_v, ref_pte_rwx, entry_phys_addr_ref.
Qed.

Lemma walk_ref_none h p k : h !! (p + 8 * k) = Some 0 -> walk_ref h p k = None.
Proof. intros E. unfold walk_ref. by rewrite E. Qed.

Lemma walk1_own h a s T rest i p1 va : space_in h a s T rest -> t_1 T i = Some p1 ->
  walk1 h p1 va = view T i (VirtualAddr_vpn1 va) (VirtualAddr_vpn0 va).
Proof.
  intros [R H Hsh] H1. destruct (vpn_range va) as (V2 & V1 & V0). unfold walk1, view.
  pose proof (sr_ent _ _ _ R (N1 i) p1 _ H1 V1) as E1. simpl in E1.
  destruct (t_0 T i (VirtualAddr_vpn1 va)) as [p0|] eqn:E0; simpl in E1.
  - rewrite (walk_ref_pte _ _ _ p0 E1) by (by apply (node_page h a s T (N0 i (VirtualAddr_vpn1 va)) p0 rest)).
    simpl. unfold walk_leaf. by rewrite (sr_ent _ _ _ R (N0 i _) p0 _ E0 V0).
  - by rewrite (walk_ref_none _ _ _ E1).
Qed.

Lemma walk_space h a s T rest va : space_in h a s T rest ->
  walk h (ph_ptr (as_root s)) va =
  match t_sh T (VirtualAddr_vpn2 va) with
  | Some q => walk1 h q va
  | None => own_view T va
  end.
Proof.
  intros SI. pose proof SI as [R H Hsh]. destruct (vpn_range va) as (V2 & V1 & V0).
  unfold walk. pose proof (sr_ent _ _ _ R NRoot _ _ eq_refl V2) as E2. simpl in E2.
  destruct (t_sh T (VirtualAddr_vpn2 va)) as [q|] eqn:Esh.
  { destruct (sr_sh _ _ _ R _ q Esh) as (_ & Hq & _). by rewrite (walk_ref_pte _ _ _ q E2 Hq). }
  destruct (t_1 T (VirtualAddr_vpn2 va)) as [p1|] eqn:E1; simpl in E2.
  - rewrite (walk_ref_pte _ _ _ p1 E2) by (by apply (node_page h a s T (N1 (VirtualAddr_vpn2 va)) p1 rest)).
    by apply (walk1_own h a s T rest _ p1 va SI).
  - rewrite (walk_ref_none _ _ _ E2). simpl. unfold own_view, view.
    destruct (t_0 T _ _) eqn:E; [|done]. destruct (sr_0 _ _ _ R _ _ _ E) as [_ [? ?]]. congruence.
Qed.

End Space.
