(* ===== verification/SpaceClone.v ===== *)
(** * SpaceClone: copying and dropping address spaces

    The loops of [AddressSpace::try_clone] and the drop of an address space
    ([src/mm/page_table.rs]) on the tree picture of [PageTable]: the clone has
    the same pages mapped through tables of its own, and a failed clone or a
    drop gives every table back. *)

From stdpp Require Import gmap.
From S2P Require Import Prelude OrdMap Buddy FrameAlloc BitFields Abi PageTable.

(** Redirecting a reference. *)
Lemma set_ppn_ref p q : PageTableEntry_set_ppn (ref_pte p) (PhysicalAddr_ppn q) = ref_pte q.
Proof.
  unfold PageTableEntry_set_ppn, PhysicalAddr_ppn. apply Z.bits_inj'. intros i Hi.
  rewrite bits_set_testbit by (lia || apply ref_pte_fits). rewrite !ref_pte_testbit by lia.
  destruct (Z.leb_spec 10 i), (Z.leb_spec i 53), (Z.eqb_spec i 0); try lia; simpl; try done.
  rewrite bits_get_testbit by lia. destruct (Z.leb_spec (i - 10) (55 - 12)); [|lia].
  simpl. f_equal. lia.
Qed.

(** The entry written for [e] by the patch loops. *)
Definition patched (remap : list (Z * Z)) (e : Z) : Z :=
  match om_get (entry_phys_addr e) remap with
  | Some new_addr => PageTableEntry_set_ppn e (PhysicalAddr_ppn new_addr)
  | None => e
  end.

Section Clone.
Context {A : Type} {FS : FrameSource A} {FL : FrameLaws A}.

(** ** Loops over the entries of two tables *)

Lemma copy_entries_ok n h a held p q i : fs_rep h a held -> held_page held p ->
  held_page held q -> p <> q -> 0 <= i -> i + Z.of_nat n <= 512 ->
  exists h', copy_entries n h p q i = Ret h' /\ fs_rep h' a held /\
    (forall k, i <= k < i + Z.of_nat n -> h' !! (q + 8 * k) = h !! (p + 8 * k)) /\
    (forall x, (forall k, i <= k < i + Z.of_nat n -> x <> q + 8 * k) -> h' !! x = h !! x).
Proof.
  revert h i. induction n as [|n IH]; intros h i H Hp Hq Hne Hi Hn; cbn [copy_entries].
  { exists h. split; [done|]. split; [done|]. split; [intros; lia|done]. }
  assert (Hii : idx i) by (unfold idx; lia).
  destruct (entry_mapped h a held p i H Hp Hii) as [e He].
  rewrite (entry_get_ok _ _ _ _ He), outcome_bind_Ret.
  destruct (entry_put_ok h a held q i e H Hq Hii) as [-> H1]. rewrite outcome_bind_Ret.
  destruct (IH _ (i + 1) H1 Hp Hq Hne) as (h' & -> & H' & Hk & Hx); [lia|lia|].
  pose proof (held_page_addr _ _ _ _ H Hp) as Pp. pose proof (held_page_addr _ _ _ _ H Hq) as Pq.
  exists h'. split; [done|]. split; [done|]. split.
  - intros k Hk'. destruct (Z.eq_dec k i) as [->|].
    + rewrite Hx by (intros; lia). by rewrite lookup_insert_eq, He.
    + rewrite Hk by lia. apply lookup_insert_ne.
      apply table_words; [done|done|congruence|done|unfold idx; lia].
  - intros x Hx'. rewrite Hx by (intros; apply Hx'; lia).
    apply lookup_insert_ne. intros <-. by apply (Hx' i); [lia|].
Qed.

Lemma copy_from_ok h a held s t : fs_rep h a held -> held_page held (ph_ptr s) ->
  held_page held (ph_ptr t) -> ph_ptr s <> ph_ptr t ->
  exists h', PageTableHandle_copy_from h s t = Ret h' /\ fs_rep h' a held /\
    (forall k, idx k -> h' !! (ph_ptr t + 8 * k) = h !! (ph_ptr s + 8 * k)) /\
    only_table (ph_ptr t) h h'.
Proof.
  intros H Hs Ht Hne. unfold PageTableHandle_copy_from, PageTableHandle_copy_low_half,
    PageTableHandle_copy_high_half.
  destruct (copy_entries_ok 256 h a held _ _ 0 H Hs Ht Hne) as (h1 & -> & H1 & K1 & X1); [lia|lia|].
  rewrite outcome_bind_Ret.
  destruct (copy_entries_ok 256 h1 a held _ _ 256 H1 Hs Ht Hne) as (h2 & -> & H2 & K2 & X2); [lia|lia|].
  pose proof (held_page_addr _ _ _ _ H Hs) as Ps. pose proof (held_page_addr _ _ _ _ H Ht) as Pt.
  exists h2. split; [done|]. split; [done|]. split.
  - intros k Hk. unfold idx in Hk. destruct (Z.lt_ge_cases k 256).
    + rewrite X2 by (intros; lia). apply K1. lia.
    + rewrite K2 by lia. apply X1. intros k' Hk'.
      apply table_words; [done|done|done|unfold idx; lia|unfold idx; lia].
  - intros x Hx. rewrite X2, X1; [done|..]; intros k Hk; apply Hx; unfold idx; lia.
Qed.

Lemma patch_entries_ok n h a held p q i remap : fs_rep h a held -> held_page held p ->
  held_page held q -> p <> q -> 0 <= i -> i + Z.of_nat n <= 512 ->
  (forall k, i <= k < i + Z.of_nat n -> h !! (q + 8 * k) = h !! (p + 8 * k)) ->
  exists h', patch_entries n h p q i remap = Ret h' /\ fs_rep h' a held /\
    (forall k, i <= k < i + Z.of_nat n -> h' !! (q + 8 * k) = patched remap <$> h !! (p + 8 * k)) /\
    (forall x, (forall k, i <= k < i + Z.of_nat n -> x <> q + 8 * k) -> h' !! x = h !! x).
Proof.
  revert h i. induction n as [|n IH]; intros h i H Hp Hq Hne Hi Hn Hc; cbn [patch_entries].
  { exists h. split; [done|]. split; [done|]. split; [intros; lia|done]. }
  assert (Hii : idx i) by (unfold idx; lia).
  destruct (entry_mapped h a held p i H Hp Hii) as [e He].
  pose proof (Hc i ltac:(lia)) as Hq0. rewrite He in Hq0.
  rewrite (entry_get_ok _ _ _ _ He), outcome_bind_Ret.
  pose proof (held_page_addr _ _ _ _ H Hp) as Pp. pose proof (held_page_addr _ _ _ _ H Hq) as Pq.
  set (h1 := <[q + 8 * i := patched remap e]> h).
  assert (H1 : fs_rep h1 a held).
  { by destruct (entry_put_ok h a held q i (patched remap e) H Hq Hii). }
  assert (E : (match om_get (entry_phys_addr e) remap with
    | Some new_addr => e ← entry_get h q i;
        entry_put h q i (PageTableEntry_set_ppn e (PhysicalAddr_ppn new_addr))
    | None => mret h end) = Ret h1).
  { subst h1. unfold patched. destruct (om_get (entry_phys_addr e) remap) as [na|].
    - rewrite (entry_get_ok _ _ _ _ Hq0), outcome_bind_Ret. by apply entry_put_ok with a held.
    - by rewrite insert_id. }
  rewrite E, outcome_bind_Ret.
  assert (Hpk : forall k, idx k -> h1 !! (p + 8 * k) = h !! (p + 8 * k)).
  { intros k Hk. apply lookup_insert_ne. by apply table_words; [done|done|congruence|..]. }
  destruct (IH h1 (i + 1) H1 Hp Hq Hne) as (h' & -> & H' & Hk & Hx); [lia|lia| |].
  { intros k Hk. rewrite Hpk by (unfold idx; lia). subst h1.
    rewrite lookup_insert_ne by lia. apply Hc. lia. }
  exists h'. split; [done|]. split; [done|]. split.
  - intros k Hk'. destruct (Z.eq_dec k i) as [->|].
    + rewrite Hx by (intros; lia). subst h1. by rewrite lookup_insert_eq, He.
    + rewrite Hk, Hpk by (unfold idx; lia). done.
  - intros x Hx'. rewrite Hx by (intros; apply Hx'; lia).
    apply lookup_insert_ne. intros <-. by apply (Hx' i); [lia|].
Qed.

(** ** Dropping *)

Definition table_frames (tables : list (Z * PageTableHandle)) : list Frame :=
  (fun e => ph_page e.2) <$> tables.

Lemma drop_handle_ok h a t held : fs_rep h a (ph_page t :: held) ->
  exists h' a', drop_handle h a t = Ret (h', a') /\ fs_rep h' a' held /\ same_on held h h'.
Proof.
  intros H. destruct (fs_dealloc_ok h a _ _ H) as (h' & a' & E & Hs & H'). by exists h', a'.
Qed.

Lemma drop_tables_ok tables h a held : fs_rep h a (table_frames tables ++ held) ->
  exists h' a', drop_tables h a tables = Ret (h', a') /\ fs_rep h' a' held /\ same_on held h h'.
Proof.
  revert h a. induction tables as [|[p t] tables IH]; intros h a H; cbn [drop_tables].
  { exists h, a. split; [done|]. split; [done|apply same_on_refl]. }
  destruct (drop_handle_ok h a t _ H) as (h1 & a1 & -> & H1 & S1). rewrite outcome_bind_Ret.
  destruct (IH h1 a1 H1) as (h2 & a2 & -> & H2 & S2). exists h2, a2. split; [done|].
  split; [done|]. apply (same_on_trans _ _ h1); [|done].
  apply (same_on_sub _ _ _ _ S1). set_solver.
Qed.

Lemma drop_space_ok h a s held : fs_rep h a (space_frames s ++ held) ->
  exists h' a', drop_space h a s = Ret (h', a') /\ fs_rep h' a' held /\ same_on held h h'.
Proof.
  intros H. unfold drop_space, space_frames in *.
  destruct (drop_handle_ok h a (as_root s) _ H) as (h1 & a1 & -> & H1 & S1).
  rewrite outcome_bind_Ret.
  destruct (drop_tables_ok (as_tables s) h1 a1 held H1) as (h2 & a2 & -> & H2 & S2).
  exists h2, a2. split; [done|]. split; [done|]. apply (same_on_trans _ _ h1); [|done].
  apply (same_on_sub _ _ _ _ S1). set_solver.
Qed.

(** ** The copies *)

(** After copying the tables [copied]: [remap] sends their addresses to those of
    the copies in [tables], which have the same contents and lie outside the
    frames [held0]. *)
Record copies (held0 : list Frame) (copied tables : list (Z * PageTableHandle))
    (remap : list (Z * Z)) : Prop := {
  cp_om : om_ok tables;
  cp_remap : om_ok remap;
  cp_handle : forall q u, (q, u) ∈ tables -> ph_ptr u = q /\ handle_ok u;
  cp_new : forall q u f, (q, u) ∈ tables -> f ∈ held0 -> fr_start f <> q;
  cp_copy : forall p t, (p, t) ∈ copied -> is_Some (om_get p remap);
  cp_dom : forall p q, om_get p remap = Some q ->
    (exists t, (p, t) ∈ copied) /\ is_Some (om_get q tables);
  cp_inj : forall p p' q, om_get p remap = Some q -> om_get p' remap = Some q -> p = p'
}.

Definition same_contents (h : heap) (remap : list (Z * Z)) : Prop :=
  forall p q k, om_get p remap = Some q -> idx k -> h !! (q + 8 * k) = h !! (p + 8 * k).

Lemma om_ok_middle {V} (l1 l2 : list (Z * V)) p (t t' : V) :
  om_ok (l1 ++ (p, t) :: l2) -> (p, t') ∉ l1.
Proof.
  induction l1 as [|[k v] l1 IH]; intros Hok Hin; [by apply not_elem_of_nil in Hin|].
  simpl in Hok. apply om_ok_cons in Hok as [Hok Hlt]. apply elem_of_cons in Hin as [E|Hin].
  - injection E as -> ->. apply (klt_irrefl k), (Hlt k t). set_solver.
  - by apply IH.
Qed.

(** The words of a table that is not [p]'s do not change when only [p] does. *)
Lemma only_table_other p q k h h' : only_table p h h' -> page_addr p -> page_addr q -> p <> q ->
  idx k -> h' !! (q + 8 * k) = h !! (q + 8 * k).
Proof.
  intros Ho Hp Hq Hne Hk. apply Ho. intros k' Hk'. apply table_words; [done|done|congruence|done|done].
Qed.

Lemma copies_held held0 copied tables remap q u : copies held0 copied tables remap ->
  om_get q tables = Some u -> held_page (table_frames tables ++ held0) q.
Proof.
  intros C Hq. apply (om_get_elem _ _ _ (cp_om _ _ _ _ C)) in Hq.
  destruct (cp_handle _ _ _ _ C q u Hq) as [<- Hok]. apply handle_held; [done|].
  apply elem_of_app. left. unfold table_frames. apply list_elem_of_fmap. by exists (ph_ptr u, u).
Qed.

Lemma copies_step held0 copied tables remap p t c : copies held0 copied tables remap ->
  handle_ok c -> (forall f, f ∈ table_frames tables ++ held0 -> fr_start f <> ph_ptr c) ->
  (forall t', (p, t') ∉ copied) ->
  om_get (ph_ptr c) tables = None /\
  copies held0 (copied ++ [(p, t)]) (om_insert (ph_ptr c) c tables)
    (om_insert p (ph_ptr c) remap).
Proof.
  intros C Hc Hnew Hp. pose proof C as [C1 C2 C3 C4 C5 C6 C7].
  assert (Hn : om_get (ph_ptr c) tables = None).
  { destruct (om_get (ph_ptr c) tables) as [u|] eqn:E; [|done].
    apply (copies_held held0 copied tables remap) in E; [|done].
    by destruct (Hnew _ E). }
  split; [done|]. split.
  - by apply om_insert_ok.
  - by apply om_insert_ok.
  - intros q u Hin. apply elem_of_om_insert in Hin; [|done].
    destruct Hin as [[-> ->]|[_ Hin]]; [done|by apply C3].
  - intros q u f Hin Hf. apply elem_of_om_insert in Hin; [|done].
    destruct Hin as [[-> ->]|[_ Hin]]; [apply Hnew; set_solver|by apply (C4 q u)].
  - intros p' t' Hin. rewrite om_get_insert by done. destruct (decide (p' = p)) as [->|Hne]; [done|].
    apply (C5 p' t'). set_solver.
  - intros p' q. rewrite om_get_insert by done. rewrite om_get_insert by done.
    destruct (decide (p' = p)) as [->|Hne].
    + intros [= <-]. split; [exists t; set_solver|]. by rewrite decide_True.
    + intros Hq. destruct (C6 p' q Hq) as [[t' Ht'] Hs]. split; [exists t'; set_solver|].
      by destruct (decide (q = ph_ptr c)).
  - intros p1 p2 q. rewrite !om_get_insert by done.
    destruct (decide (p1 = p)) as [->|], (decide (p2 = p)) as [->|]; [done| | |apply C7].
    + intros [= <-] Hq. destruct (C6 _ _ Hq) as [_ [? ?]]. congruence.
    + intros Hq [= <-]. destruct (C6 _ _ Hq) as [_ [? ?]]. congruence.
Qed.

Lemma clone_tables_ok todo h0 h a held0 copied tables remap :
  copies held0 copied tables remap -> same_contents h remap ->
  fs_rep h a (table_frames tables ++ held0) -> same_on held0 h0 h ->
  om_ok (copied ++ todo) ->
  (forall p t, (p, t) ∈ copied ++ todo -> ph_ptr t = p /\ held_page held0 p) ->
  exists r h' a' tables', clone_tables h a todo tables remap = Ret (r, h', a', tables') /\
    fs_rep h' a' (table_frames tables' ++ held0) /\ same_on held0 h0 h' /\
    match r with
    | Err e => e = OutOfMemory
    | Ok remap' => copies held0 (copied ++ todo) tables' remap' /\ same_contents h' remap'
    end.
Proof.
  revert h a copied tables remap. induction todo as [|[p t] todo IH];
    intros h a copied tables remap C Hsc H Hs Hok Hold; cbn [clone_tables].
  { rewrite app_nil_r. by exists (Ok remap), h, a, tables. }
  destruct (create_ok h a _ H) as (r & h1 & a1 & -> & S1 & Hr). rewrite outcome_bind_Ret.
  destruct r as [c|e].
  2: { destruct Hr as [-> H1]. exists (Err OutOfMemory), h1, a1, tables.
       split; [done|]. split; [done|]. split; [|done].
       apply (same_on_trans _ _ h); [done|]. apply (same_on_sub _ _ _ _ S1). set_solver. }
  destruct Hr as (H1 & Hc & Hz & Hnew). destruct (Hold p t) as [Ep Hhp]; [set_solver|].
  assert (Hpc : p <> ph_ptr c).
  { intros ->. apply (Hnew (mkFrame (ph_ptr c) PAGE_SIZE)); [|done]. apply elem_of_app. by right. }
  destruct (copy_from_ok h1 a1 _ t c H1) as (h2 & -> & H2 & K2 & O2).
  { rewrite Ep. unfold held_page in *. set_solver. }
  { apply handle_held; [done|left]. }
  { by rewrite Ep. }
  rewrite outcome_bind_Ret. cbv zeta. unfold as_phys_addr. rewrite Ep.
  destruct (copies_step held0 copied tables remap p t c C Hc Hnew) as [Hn C'].
  { intros t'. by apply (om_ok_middle _ todo p t). }
  unfold insert_table. rewrite Hn, !outcome_bind_Ret.
  assert (Hpg : forall q, held_page (table_frames tables ++ held0) q ->
    page_addr q /\ q <> ph_ptr c /\ forall k, idx k -> h2 !! (q + 8 * k) = h !! (q + 8 * k)).
  { intros q Hq. assert (Pq : page_addr q) by (by apply (held_page_addr h a _ q H)).
    assert (Hqc : q <> ph_ptr c) by (by apply (Hnew (mkFrame q PAGE_SIZE))).
    split; [done|]. split; [done|]. intros k Hk.
    rewrite (only_table_other (ph_ptr c) q k h1 h2 O2); try done.
    - apply (S1 (mkFrame q PAGE_SIZE)); [done|by apply word_in_page].
    - apply (held_page_addr h1 a1 _ _ H1). apply handle_held; [done|left]. }
  assert (Hh2 : fs_rep h2 a1 (table_frames (om_insert (ph_ptr c) c tables) ++ held0)).
  { apply (fs_perm _ _ _ _ H2). unfold table_frames.
    rewrite (om_insert_new _ c tables) by (done || apply C). simpl. done. }
  destruct (IH h2 a1 (copied ++ [(p, t)]) _ _ C') as (r & h' & a' & tables' & -> & H' & S' & Hr).
  - intros p' q k. rewrite om_get_insert by apply C. destruct (decide (p' = p)) as [->|Hne].
    + intros [= <-] Hk. destruct (Hpg p) as (_ & _ & Ep'); [unfold held_page in *; set_solver|].
      rewrite K2, Ep, Ep' by done.
      apply (S1 (mkFrame p PAGE_SIZE)); [unfold held_page in *; set_solver|by apply word_in_page].
    + intros Hq Hk. destruct (cp_dom _ _ _ _ C p' q Hq) as [[t' Ht'] [u Hu]].
      destruct (Hold p' t') as [_ Hh']; [set_solver|].
      destruct (Hpg q) as (_ & _ & Eq); [by eapply copies_held|].
      destruct (Hpg p') as (_ & _ & Ep'); [unfold held_page in *; set_solver|].
      rewrite Eq, Ep' by done. by apply Hsc.
  - done.
  - apply (same_on_trans _ _ h); [done|]. intros g x Hg Hx.
    rewrite (only_table_same h1 a1 h1 h2 (ph_page c) (table_frames tables ++ held0) (ph_ptr c) H1
      (handle_page c Hc) O2 g x) by (done || set_solver).
    apply (S1 g x); [set_solver|done].
  - by rewrite <- app_assoc.
  - intros p' t' Hin. apply Hold. rewrite <- app_assoc in Hin. done.
  - rewrite <- app_assoc in Hr. by exists r, h', a', tables'.
Qed.

(** A table patch leaves the originals and the other copies alone. *)
Lemma only_copy_same h a held0 all tables remap q u h' : copies held0 all tables remap ->
  fs_rep h a (table_frames tables ++ held0) -> om_get q tables = Some u ->
  only_table q h h' -> same_on held0 h h' /\
  forall q' u' k, om_get q' tables = Some u' -> q' <> q -> idx k ->
    h' !! (q' + 8 * k) = h !! (q' + 8 * k).
Proof.
  intros C H Hu Ho. pose proof (copies_held _ _ _ _ q u C Hu) as Hq.
  pose proof (held_page_addr _ _ _ _ H Hq) as Pq. split.
  - apply (om_get_elem _ _ _ (cp_om _ _ _ _ C)) in Hu.
    destruct (cp_handle _ _ _ _ C q u Hu) as [Eu Hok].
    apply elem_of_Permutation in Hu as (rest & Hp).
    apply (same_on_sub (table_frames rest ++ held0)); [|set_solver].
    apply (only_table_same h a h h' (ph_page u) _ q); [|by rewrite handle_page, Eu|done].
    apply (fs_perm _ _ _ _ H). unfold table_frames. by rewrite Hp.
  - intros q' u' k Hu' Hne Hk. pose proof (copies_held _ _ _ _ q' u' C Hu') as Hq'.
    apply (only_table_other q q' k h h' Ho); [done| |congruence|done].
    by apply (held_page_addr _ _ _ _ H).
Qed.

Lemma patch_tables_ok todo h a held0 all tables remap :
  copies held0 all tables remap -> fs_rep h a (table_frames tables ++ held0) ->
  om_ok todo -> todo ⊆ all ->
  (forall p t, (p, t) ∈ todo -> ph_ptr t = p /\ held_page held0 p) ->
  (forall p t q k, (p, t) ∈ todo -> om_get p remap = Some q -> idx k ->
     h !! (q + 8 * k) = h !! (p + 8 * k)) ->
  exists h', patch_tables h todo tables remap = Ret (Ok tt, h') /\
    fs_rep h' a (table_frames tables ++ held0) /\ same_on held0 h h' /\
    (forall p t q k, (p, t) ∈ todo -> om_get p remap = Some q -> idx k ->
       h' !! (q + 8 * k) = patched remap <$> h !! (p + 8 * k)) /\
    (forall p q k, om_get p remap = Some q -> (forall t, (p, t) ∉ todo) -> idx k ->
       h' !! (q + 8 * k) = h !! (q + 8 * k)).
Proof.
  intros C. revert h. induction todo as [|[p t] todo IH]; intros h H Hok Hsub Hold Hcon;
    cbn [patch_tables].
  { exists h. split; [done|]. split; [done|]. split; [apply same_on_refl|]. split; [|done].
    by intros ? ? ? ? ?%not_elem_of_nil. }
  destruct (cp_copy _ _ _ _ C p t) as [q Hq]; [apply Hsub; left|]. rewrite Hq.
  destruct (cp_dom _ _ _ _ C p q Hq) as [_ [u Hu]]. rewrite Hu.
  destruct (Hold p t) as [Ep Hhp]; [left|].
  pose proof (om_get_elem q u _ (cp_om _ _ _ _ C)) as Hiu.
  destruct (cp_handle _ _ _ _ C q u) as [Eu Hok']; [by apply Hiu|]. rewrite Ep, Eu.
  pose proof (copies_held _ _ _ _ q u C Hu) as Hhq.
  assert (Hpq : p <> q).
  { intros ->. apply (cp_new _ _ _ _ C q u (mkFrame q PAGE_SIZE)); [by apply Hiu|done|done]. }
  assert (Hhp' : held_page (table_frames tables ++ held0) p) by (unfold held_page in *; set_solver).
  destruct (patch_entries_ok PTE_NUMBER h a _ p q 0 remap H Hhp' Hhq Hpq)
    as (h1 & -> & H1 & K1 & X1); [lia|done| |].
  { intros k Hk. apply (Hcon p t q k); [left|done|exact Hk]. }
  rewrite outcome_bind_Ret.
  destruct (only_copy_same h a held0 all tables remap q u h1 C H Hu) as [S1 Oth].
  { intros x Hx. apply X1. intros k Hk. by apply Hx. }
  apply om_ok_cons in Hok as [Hok Hlt].
  assert (Hpn : forall t', (p, t') ∉ todo).
  { intros t' Hin. by apply (klt_irrefl p), (Hlt p t'). }
  assert (Hoth : forall p' q' k, om_get p' remap = Some q' -> p' <> p -> idx k ->
    h1 !! (q' + 8 * k) = h !! (q' + 8 * k)).
  { intros p' q' k Hq' Hne Hk. destruct (cp_dom _ _ _ _ C p' q' Hq') as [_ [u' Hu']].
    apply (Oth q' u' k Hu'); [|done]. intros ->. by apply Hne, (cp_inj _ _ _ _ C p' p q). }
  assert (Hsp : forall p' t' k, (p', t') ∈ todo -> idx k -> h1 !! (p' + 8 * k) = h !! (p' + 8 * k)).
  { intros p' t' k Hin Hk. destruct (Hold p' t') as [_ Hh]; [by right|].
    apply (S1 (mkFrame p' PAGE_SIZE)); [done|by apply word_in_page]. }
  destruct (IH h1 H1 Hok) as (h' & E' & H' & S' & K' & X').
  - set_solver.
  - intros p' t' Hin. apply Hold. by right.
  - intros p' t' q' k Hin Hq' Hk. rewrite (Hsp p' t') by done.
    rewrite (Hoth p' q' k Hq') by (done || intros ->; by apply (Hpn t')).
    apply (Hcon p' t'); [by right|done|done].
  - exists h'. split; [done|]. split; [done|]. split; [by eapply same_on_trans|]. split.
    + intros p' t' q' k Hin Hq' Hk. apply elem_of_cons in Hin as [E|Hin].
      * injection E as -> ->. assert (q' = q) as -> by congruence.
        rewrite X' with p q k by done. apply K1. exact Hk.
      * rewrite (K' p' t' q' k Hin Hq' Hk). by rewrite (Hsp p' t').
    + intros p' q' k Hq' Hn Hk. rewrite X' with p' q' k; [|done| |done].
      * apply (Hoth p'); [done| |done]. intros ->. by apply (Hn t); left.
      * intros t' Hin. by apply (Hn t'); right.
Qed.

(** ** The clone *)

(** No page is mapped onto one of the tables of the space itself. *)
Definition leaves_data (s : AddressSpace) (T : tree) : Prop :=
  forall i j k p, t_0 T i j = Some p -> idx k ->
    om_get (entry_phys_addr (t_leaf T i j k)) (as_tables s) = None.

Definition remap_tree (remap : list (Z * Z)) (T : tree) : tree :=
  mkTree (t_sh T)
    (fun i => p ← t_1 T i; om_get p remap)
    (fun i j => p ← t_0 T i j; om_get p remap) (t_leaf T).

Lemma patched_ref remap p q : page_addr p -> om_get p remap = Some q ->
  patched remap (ref_pte p) = ref_pte q.
Proof.
  intros Hp Hq. unfold patched. rewrite entry_phys_addr_ref, Hq by done. apply set_ppn_ref.
Qed.

Lemma patched_none remap e : om_get (entry_phys_addr e) remap = None -> patched remap e = e.
Proof. intros H. unfold patched. by rewrite H. Qed.

Section CloneRep.
Context (h h5 : heap) (a : A) (s : AddressSpace) (T : tree) (rest held0 : list Frame).
Context (tables : list (Z * PageTableHandle)) (remap : list (Z * Z)) (c : PageTableHandle).
Hypothesis SI : space_in h a s T rest.
Hypothesis C : copies held0 (as_tables s) tables remap.
Hypothesis Hleaf : leaves_data s T.
Hypothesis Hc : handle_ok c.
Hypothesis Hc0 : ph_page c ∈ held0.
Hypothesis Hsub : rest ⊆ held0.
Hypothesis Hroot : forall k, idx k ->
  h5 !! (ph_ptr c + 8 * k) = Some (patched remap (node_ent T NRoot k)).
Hypothesis Htab : forall p t q k, (p, t) ∈ as_tables s -> om_get p remap = Some q -> idx k ->
  h5 !! (q + 8 * k) = patched remap <$> h !! (p + 8 * k).

Lemma remap_none p : om_get p (as_tables s) = None -> om_get p remap = None.
Proof using SI C.
  intros Hn. destruct (om_get p remap) as [q|] eqn:E; [|done].
  destruct (cp_dom _ _ _ _ C p q E) as [[t Ht] _].
  apply (om_get_elem _ _ _ (sr_om _ _ _ (si_rep _ _ _ _ _ SI))) in Ht. congruence.
Qed.

Lemma remap_node n p : node_addr (ph_ptr (as_root s)) T n = Some p -> n <> NRoot ->
  exists q t, (p, t) ∈ as_tables s /\ om_get p remap = Some q /\ page_addr p.
Proof using SI C.
  intros Hn Hne. pose proof (si_rep _ _ _ _ _ SI) as R.
  destruct (sr_tab _ _ _ R n p Hn Hne) as [t Ht].
  apply (om_get_elem _ _ _ (sr_om _ _ _ R)) in Ht.
  destruct (cp_copy _ _ _ _ C p t Ht) as [q Hq]. exists q, t. split; [done|]. split; [done|].
  apply (node_page h a s T n p rest R); [apply SI|done].
Qed.

Lemma remap_zero : om_get 0 (as_tables s) = None.
Proof using SI.
  pose proof (si_rep _ _ _ _ _ SI) as R. destruct (om_get 0 (as_tables s)) as [t|] eqn:E; [|done].
  apply (om_get_elem _ _ _ (sr_om _ _ _ R)) in E. destruct (sr_handle _ _ _ R 0 t E) as [E0 Hok].
  assert (Hp : page_addr 0); [|unfold page_addr in Hp; lia].
  apply (held_page_addr h a _ 0 (si_held _ _ _ _ _ SI)). rewrite <- E0. apply handle_held; [done|].
  apply elem_of_app. left. right. apply list_elem_of_fmap. by exists (0, t).
Qed.

(** The patched entries are those of the new tree. *)
Lemma patched_ent n k : idx k -> (n <> NRoot -> is_Some (node_addr (ph_ptr (as_root s)) T n)) ->
  patched remap (node_ent T n k) = node_ent (remap_tree remap T) n k.
Proof using SI C Hleaf.
  intros Hk Hn. pose proof (si_rep _ _ _ _ _ SI) as R.
  assert (Hz : patched remap 0 = 0) by (apply patched_none, remap_none, remap_zero).
  assert (Ho : forall m o, node_addr (ph_ptr (as_root s)) T m = o -> m <> NRoot ->
    patched remap (opt_pte o) = opt_pte (p ← o; om_get p remap)).
  { intros m [p|] Hm Hne; [|done]. destruct (remap_node m p Hm Hne) as (q & t & _ & Hq & Hp).
    simpl. rewrite Hq. by apply patched_ref. }
  destruct n as [|i|i j]; simpl.
  - destruct (t_sh T k) as [q|] eqn:Esh; [|by apply (Ho (N1 k))].
    destruct (sr_sh _ _ _ R k q Esh) as (_ & Hq & _ & Hg). apply patched_none, remap_none.
    by rewrite entry_phys_addr_ref.
  - by apply (Ho (N0 i k)).
  - destruct (Hn ltac:(done)) as [p Hp]. by apply patched_none, remap_none, (Hleaf i j k p).
Qed.

Lemma remap_tree_addr n q : node_addr (ph_ptr c) (remap_tree remap T) n = Some q ->
  (n = NRoot /\ q = ph_ptr c) \/
  (n <> NRoot /\ exists p, node_addr (ph_ptr (as_root s)) T n = Some p /\ om_get p remap = Some q).
Proof using.
  destruct n as [|i|i j]; simpl.
  - intros [= <-]. by left.
  - intros Hq. right. split; [done|]. by destruct (t_1 T i) as [p|]; [exists p|].
  - intros Hq. right. split; [done|]. by destruct (t_0 T i j) as [p|]; [exists p|].
Qed.

Lemma root_not_copy p : om_get p remap <> Some (ph_ptr c).
Proof using C Hc Hc0.
  intros Hq. destruct (cp_dom _ _ _ _ C _ _ Hq) as [_ [u Hu]].
  apply (om_get_elem _ _ _ (cp_om _ _ _ _ C)) in Hu.
  apply (cp_new _ _ _ _ C _ _ _ Hu Hc0). apply Hc.
Qed.

Lemma clone_rep : space_rep h5 (mkSpace c tables) (remap_tree remap T).
Proof using SI C Hleaf Hc Hc0 Hsub Hroot Htab.
  pose proof (si_rep _ _ _ _ _ SI) as R.
  split; cbn [as_root as_tables].
  - apply C.
  - apply C.
  - done.
  - intros i q Hq. simpl in Hq. destruct (t_1 T i) as [p|] eqn:E; [|done].
    by apply (sr_1 _ _ _ R i p).
  - intros i j q Hq. simpl in *. destruct (t_0 T i j) as [p|] eqn:E; [|done].
    destruct (sr_0 _ _ _ R i j p E) as [Hj [p1 Hp1]]. split; [done|]. rewrite Hp1. simpl.
    destruct (remap_node (N1 i) p1 Hp1 ltac:(done)) as (q1 & t & _ & -> & _). done.
  - intros i q Hq. simpl in *. destruct (sr_sh _ _ _ R i q Hq) as (Hi & Hpg & H1 & _).
    split; [done|]. split; [done|]. rewrite H1. split; [done|].
    destruct (om_get q tables) as [u|] eqn:E; [|done].
    apply (om_get_elem _ _ _ (cp_om _ _ _ _ C)) in E.
    destruct (cp_new _ _ _ _ C q u (mkFrame q PAGE_SIZE) E); [|done].
    apply Hsub. by apply (si_sh _ _ _ _ _ SI i).
  - intros n q Hq Hne. destruct (remap_tree_addr n q Hq) as [[? _]|(_ & p & Hp & Hq')]; [done|].
    by apply (cp_dom _ _ _ _ C p).
  - intros n q k Hq Hk. destruct (remap_tree_addr n q Hq) as [[-> ->]|(Hne & p & Hp & Hq')].
    + rewrite Hroot by done. by rewrite patched_ent by done.
    + destruct (remap_node n p Hp Hne) as (q2 & t & Ht & Hq2 & _).
      rewrite (Htab p t q k Ht Hq' Hk), (sr_ent _ _ _ R n p k Hp Hk). simpl.
      by rewrite patched_ent by (done || by rewrite Hp).
  - intros n m q Hn Hm.
    destruct (remap_tree_addr n q Hn) as [[-> ->]|(Hne & p & Hp & Hq)],
      (remap_tree_addr m _ Hm) as [[-> E]|(Hne' & p' & Hp' & Hq')]; try done.
    + by destruct (root_not_copy p').
    + subst. by destruct (root_not_copy p).
    + assert (p = p') as <- by (by apply (cp_inj _ _ _ _ C p p' q)).
      by apply (sr_inj _ _ _ R n m p).
  - apply R.
Qed.

Lemma remap_view va : own_view (remap_tree remap T) va = own_view T va.
Proof using SI C.
  unfold own_view, view. simpl. destruct (t_0 T _ _) as [p|] eqn:E; [|done]. simpl.
  by destruct (remap_node (N0 _ _) p E ltac:(done)) as (q & t & _ & -> & _).
Qed.

End CloneRep.

Lemma clone_abort_ok h a c tables e held :
  fs_rep h a (table_frames tables ++ ph_page c :: held) ->
  exists h' a', clone_abort h a c tables e = Ret (Err e, h', a') /\ fs_rep h' a' held /\
    same_on held h h'.
Proof.
  intros H. unfold clone_abort.
  destruct (drop_tables_ok tables h a _ H) as (h1 & a1 & -> & H1 & S1). rewrite outcome_bind_Ret.
  destruct (drop_handle_ok h1 a1 c held H1) as (h2 & a2 & -> & H2 & S2). rewrite outcome_bind_Ret.
  exists h2, a2. split; [done|]. split; [done|]. apply (same_on_trans _ _ h1); [|done].
  apply (same_on_sub _ _ _ _ S1). set_solver.
Qed.

Lemma copies_nil held0 : copies held0 [] [] [].
Proof.
  split; try done; try apply om_ok_nil; by intros ? ? ?%not_elem_of_nil || intros ? ? ? ?%not_elem_of_nil.
Qed.

(** Patching the root copy [c]: its entries are patched, the tables and their
    copies keep their contents. *)
Lemma patch_root_ok h a s T rest c tables remap : space_rep h s T ->
  handle_ok c -> (forall f, f ∈ space_frames s ++ rest -> fr_start f <> ph_ptr c) ->
  copies (ph_page c :: space_frames s ++ rest) (as_tables s) tables remap ->
  same_contents h remap -> fs_rep h a (table_frames tables ++ ph_page c :: space_frames s ++ rest) ->
  (forall k, idx k -> h !! (ph_ptr c + 8 * k) = h !! (ph_ptr (as_root s) + 8 * k)) ->
  exists h', patch_entries PTE_NUMBER h (ph_ptr (as_root s)) (ph_ptr c) 0 remap = Ret h' /\
    fs_rep h' a (table_frames tables ++ ph_page c :: space_frames s ++ rest) /\
    same_on (space_frames s ++ rest) h h' /\ same_contents h' remap /\
    (forall k, idx k -> h' !! (ph_ptr c + 8 * k) = Some (patched remap (node_ent T NRoot k))).
Proof.
  intros R Hc Hnew C Hsc H Hcon.
  assert (Hr : held_page (space_frames s ++ rest) (ph_ptr (as_root s)))
    by (by apply (node_held h s T NRoot)).
  assert (Hne : ph_ptr (as_root s) <> ph_ptr c).
  { by apply (Hnew (mkFrame (ph_ptr (as_root s)) PAGE_SIZE)). }
  assert (Hhr : held_page (table_frames tables ++ ph_page c :: space_frames s ++ rest) (ph_ptr (as_root s)))
    by (unfold held_page in *; set_solver).
  assert (Hhc : held_page (table_frames tables ++ ph_page c :: space_frames s ++ rest) (ph_ptr c))
    by (apply handle_held; [done|set_solver]).
  destruct (patch_entries_ok PTE_NUMBER h a _ _ _ 0 remap H Hhr Hhc Hne)
    as (h' & -> & H' & K & X); [lia|done|exact Hcon|].
  assert (Ho : only_table (ph_ptr c) h h') by (intros x Hx; apply X; intros k Hk; by apply Hx).
  pose proof (held_page_addr _ _ _ _ H Hhc) as Pc.
  exists h'. split; [done|]. split; [done|]. split; [|split].
  - apply (same_on_sub (table_frames tables ++ space_frames s ++ rest)); [|set_solver].
    apply (only_table_same h a h h' (ph_page c) _ (ph_ptr c)); [|by apply handle_page|done].
    apply (fs_perm _ _ _ _ H). by rewrite <- Permutation_middle.
  - intros p q k Hq Hk. destruct (cp_dom _ _ _ _ C p q Hq) as [[t Ht] [u Hu]].
    pose proof (copies_held _ _ _ _ q u C Hu) as Hhq.
    apply (om_get_elem _ _ _ (cp_om _ _ _ _ C)) in Hu.
    destruct (sr_handle _ _ _ R p t Ht) as [Et Hok].
    assert (Hhp : held_page (space_frames s ++ rest) p).
    { rewrite <- Et. apply handle_held; [done|]. apply elem_of_app. left. right.
      apply list_elem_of_fmap. by exists (p, t). }
    rewrite !(only_table_other (ph_ptr c) _ k h h' Ho); try done; [by apply Hsc|..].
    + apply (held_page_addr _ _ _ _ H). apply elem_of_app. right. right. exact Hhp.
    + intros E. apply (Hnew (mkFrame p PAGE_SIZE)); [done|done].
    + by apply (held_page_addr _ _ _ _ H).
    + intros E. apply (cp_new _ _ _ _ C q u (ph_page c) Hu); [left|]. rewrite <- E. apply Hc.
  - intros k Hk. rewrite K by exact Hk.
    by rewrite (sr_ent _ _ _ R NRoot _ k eq_refl Hk).
Qed.

Lemma try_clone_ok h a s T rest : space_in h a s T rest -> leaves_data s T ->
  exists r h' a', AddressSpace_try_clone h a s = Ret (r, h', a') /\
    same_on (space_frames s ++ rest) h h' /\
    match r with
    | Err e => e = OutOfMemory /\ fs_rep h' a' (space_frames s ++ rest)
    | Ok s' => exists T', space_rep h' s' T' /\
        fs_rep h' a' (space_frames s' ++ space_frames s ++ rest) /\
        t_sh T' = t_sh T /\ forall va, own_view T' va = own_view T va
    end.
Proof.
  intros SI Hleaf. pose proof SI as [R H Hsh]. unfold AddressSpace_try_clone.
  set (F := space_frames s ++ rest) in *.
  destruct (create_ok h a F H) as (r & h1 & a1 & -> & S1 & Hr). rewrite outcome_bind_Ret.
  destruct r as [c|e]; [|destruct Hr as [-> H1]; by exists (Err OutOfMemory), h1, a1].
  destruct Hr as (H1 & Hc & _ & Hnew).
  assert (Hr0 : held_page F (ph_ptr (as_root s))) by (by apply (node_held h s T NRoot)).
  assert (Hne : ph_ptr (as_root s) <> ph_ptr c).
  { by apply (Hnew (mkFrame (ph_ptr (as_root s)) PAGE_SIZE)). }
  destruct (copy_from_ok h1 a1 (ph_page c :: F) (as_root s) c H1) as (h2 & -> & H2 & K2 & O2);
    [unfold held_page in *; set_solver|apply handle_held; [done|left]|done|].
  rewrite outcome_bind_Ret.
  assert (S2 : same_on F h h2).
  { apply (same_on_trans _ _ h1); [done|].
    by apply (only_table_same h1 a1 h1 h2 (ph_page c) F (ph_ptr c) H1); [apply handle_page|]. }
  destruct (clone_tables_ok (as_tables s) h2 h2 a1 (ph_page c :: F) [] [] [] (copies_nil _))
    as (r & h3 & a3 & tables & -> & H3 & S3 & Hr); [done|done|apply same_on_refl|apply R| |].
  { intros p t Hin. destruct (sr_handle _ _ _ R p t Hin) as [Et Hok]. split; [done|].
    rewrite <- Et. apply handle_held; [done|]. right. apply elem_of_app. left. right.
    apply list_elem_of_fmap. by exists (p, t). }
  rewrite outcome_bind_Ret.
  assert (S23 : same_on F h h3).
  { apply (same_on_trans _ _ h2); [done|]. apply (same_on_sub _ _ _ _ S3). set_solver. }
  destruct r as [remap|e].
  2: { subst e. destruct (clone_abort_ok h3 a3 c tables OutOfMemory F H3) as (h4 & a4 & -> & H4 & S4).
       exists (Err OutOfMemory), h4, a4. split; [done|]. split; [by eapply same_on_trans|done]. }
  destruct Hr as [C Hsc].
  assert (R3 : space_rep h3 s T) by (apply (same_on_rep h h3 s T F S23); [set_solver|done]).
  assert (Hcon : forall k, idx k -> h3 !! (ph_ptr c + 8 * k) = h3 !! (ph_ptr (as_root s) + 8 * k)).
  { intros k Hk. rewrite (S3 (ph_page c) (ph_ptr c + 8 * k)), K2 by
      (done || left || (rewrite handle_page by done; by apply word_in_page)).
    rewrite (S23 (mkFrame (ph_ptr (as_root s)) PAGE_SIZE)) by (done || by apply word_in_page).
    apply (S1 (mkFrame (ph_ptr (as_root s)) PAGE_SIZE)); [done|by apply word_in_page]. }
  destruct (patch_root_ok h3 a3 s T rest c tables remap R3 Hc Hnew C Hsc H3 Hcon)
    as (h4 & -> & H4 & S4 & Hsc4 & K4). rewrite outcome_bind_Ret.
  destruct (patch_tables_ok (as_tables s) h4 a3 (ph_page c :: F) (as_tables s) tables remap C H4)
    as (h5 & -> & H5 & S5 & K5 & _); [apply R|done| |by eauto|].
  { intros p t Hin. destruct (sr_handle _ _ _ R p t Hin) as [Et Hok]. split; [done|].
    rewrite <- Et. apply handle_held; [done|]. right. apply elem_of_app. left. right.
    apply list_elem_of_fmap. by exists (p, t). }
  rewrite outcome_bind_Ret. exists (Ok (mkSpace c tables)), h5, a3. split; [done|].
  assert (S45 : same_on F h h4) by (by eapply same_on_trans).
  split. { apply (same_on_trans _ _ h4); [done|]. apply (same_on_sub _ _ _ _ S5). set_solver. }
  exists (remap_tree remap T). split; [|split; [|split; [done|]]].
  - apply (clone_rep h h5 a s T rest (ph_page c :: F)); try done; [left|set_solver|..].
    + intros k Hk. rewrite (S5 (ph_page c)); [by apply K4|left|].
      rewrite handle_page by done. by apply word_in_page.
    + intros p t q k Hin Hq Hk. rewrite (K5 p t q k Hin Hq Hk). f_equal.
      destruct (sr_handle _ _ _ R p t Hin) as [Et Hok].
      apply (S45 (mkFrame p PAGE_SIZE)); [|by apply word_in_page].
      apply elem_of_app. left. right. apply list_elem_of_fmap. exists (p, t).
      split; [|done]. rewrite <- Et. symmetry. by apply handle_page.
  - apply (fs_perm _ _ _ _ H5). unfold space_frames. simpl. by rewrite Permutation_middle.
  - intros va. by apply (remap_view h a s T rest (ph_page c :: F) tables).
Qed.

End Clone.
