(* ===== verification/SpaceManager.v ===== *)
(** * SpaceManager: the address space manager against its abstract picture

    The operations of [AddressSpaceManager] ([src/mm/page_table.rs]), run in any
    order on a consistent memory, against an abstract state: a partial function
    from addresses to leaf entries for the kernel and for every task. A task's
    space shares the part of the kernel's lower half that had a level-1 table
    when the space was created. *)

From stdpp Require Import gmap.
From S2P Require Import Prelude OrdMap Buddy FrameAlloc BitFields Abi PageTable SpaceClone.

(** ** The abstract state *)

(** A task's space: the root entries it shares with the kernel, and the leaf
    entries of its own. *)
Record uspace : Type := mkU { u_sh : Z -> bool; u_view : Z -> option Z }.

(** [k_l1]: the root entries of the kernel that have a level-1 table. *)
Record mabs : Type := mkAbs {
  k_view : Z -> option Z;
  k_l1 : Z -> bool;
  a_users : Z -> option uspace;
  a_stash : list uspace
}.

Definition abs_init : mabs := mkAbs (fun _ => None) (fun _ => false) (fun _ => None) [].

(** The leaf entry a task's hardware walk ends in. *)
Definition seen (abs : mabs) (u : uspace) (va : Z) : option Z :=
  if u_sh u (VirtualAddr_vpn2 va) then k_view abs va else u_view u va.

Definition put_page (f : Z -> option Z) (va : Z) (e : option Z) : Z -> option Z :=
  fun va' => if same_page va' va then e else f va'.

Definition put_user (abs : mabs) (tid : Z) (u : option uspace) : mabs :=
  mkAbs (k_view abs) (k_l1 abs) (fun tid' => if tid' =? tid then u else a_users abs tid')
    (a_stash abs).

(** ** Operations and their outcomes *)

Inductive mop : Type :=
| OpCreate (tid : Z)
| OpRemove (tid : Z)
| OpRestore (tid : Z)
| OpDrop
| OpMap (id : AddressSpaceId) (va pa flags : Z) (flush : bool)
| OpUnmap (id : AddressSpaceId) (va : Z) (flush : bool)
| OpIdentity (start end_ : Z)
| OpClone (tid new_tid : Z).

Abbreviation mres := (result MemError unit).

(** Whether the allocator runs dry during the operation, after how many mapped
    pages, and whether a level-1 table had been linked by then. *)
Inductive oracle : Type := Enough | Dry (pages : nat) (linked : bool).

(** A kernel mapping. *)
Definition spec_kmap (o : oracle) (abs : mabs) (va e : Z) : mres * mabs :=
  let l1 (b : bool) := fun i => k_l1 abs i || (b && (i =? VirtualAddr_vpn2 va)) in
  match o with
  | Enough => (Ok tt, mkAbs (put_page (k_view abs) va (Some e)) (l1 true) (a_users abs) (a_stash abs))
  | Dry _ linked => (Err OutOfMemory, mkAbs (k_view abs) (l1 linked) (a_users abs) (a_stash abs))
  end.

(** The identity mapping of [n] pages from [i] on. *)
Fixpoint spec_identity (n : nat) (o : oracle) (abs : mabs) (i flags : Z) : mres * mabs :=
  match n with
  | O => (Ok tt, abs)
  | S n =>
      match o with
      | Dry O linked => spec_kmap o abs i (leaf_pte i flags)
      | _ =>
          let (_, abs) := spec_kmap Enough abs i (leaf_pte i flags) in
          spec_identity n (match o with Dry (S m) l => Dry m l | _ => Enough end) abs
            (i + PAGE_SIZE) flags
      end
  end.

Definition identity_flags : Z :=
  PageTableEntryFlags_set_x
    (PageTableEntryFlags_set_w (PageTableEntryFlags_set_r PageTableEntryFlags_new true) true) true.

Definition mspec (op : mop) (o : oracle) (abs : mabs) : mres * mabs :=
  match op with
  | OpCreate tid =>
      match o with
      | Enough => (Ok tt, put_user abs tid
          (Some (mkU (fun i => (i <? 256) && k_l1 abs i) (fun _ => None))))
      | Dry _ _ => (Err OutOfMemory, abs)
      end
  | OpRemove tid =>
      match a_users abs tid with
      | None => (Ok tt, abs)
      | Some u =>
          let abs := put_user abs tid None in
          (Ok tt, mkAbs (k_view abs) (k_l1 abs) (a_users abs) (u :: a_stash abs))
      end
  | OpRestore tid =>
      match a_stash abs with
      | [] => (Ok tt, abs)
      | u :: stash =>
          let abs := put_user abs tid (Some u) in
          (Ok tt, mkAbs (k_view abs) (k_l1 abs) (a_users abs) stash)
      end
  | OpDrop => (Ok tt, mkAbs (k_view abs) (k_l1 abs) (a_users abs) (tail (a_stash abs)))
  | OpMap IdKernel va pa flags _ => spec_kmap o abs va (leaf_pte pa flags)
  | OpMap (IdUser tid) va pa flags _ =>
      match a_users abs tid with
      | None => (Err AddressSpaceNotFound, abs)
      | Some u =>
          if u_sh u (VirtualAddr_vpn2 va) then (Err PageTableMissing, abs)
          else
            match o with
            | Enough => (Ok tt, put_user abs tid
                (Some (mkU (u_sh u) (put_page (u_view u) va (Some (leaf_pte pa flags))))))
            | Dry _ _ => (Err OutOfMemory, abs)
            end
      end
  | OpUnmap IdKernel va _ =>
      (Ok tt, mkAbs (put_page (k_view abs) va None) (k_l1 abs) (a_users abs) (a_stash abs))
  | OpUnmap (IdUser tid) va _ =>
      match a_users abs tid with
      | None => (Err AddressSpaceNotFound, abs)
      | Some u => (Ok tt, put_user abs tid (Some (mkU (u_sh u) (put_page (u_view u) va None))))
      end
  | OpIdentity start end_ => spec_identity (page_steps start end_) o abs start identity_flags
  | OpClone tid new_tid =>
      match a_users abs tid with
      | None => (Err AddressSpaceNotFound, abs)
      | Some u =>
          match o with
          | Enough => (Ok tt, put_user abs new_tid (Some u))
          | Dry _ _ => (Err OutOfMemory, abs)
          end
      end
  end.

(** ** The concrete system *)

Section Manager.
Context {A : Type} {FS : FrameSource A} {FL : FrameLaws A}.

(** The memory, the frame allocator, the manager, and the spaces taken out of
    it by [remove_user] and not yet put back or dropped. *)
Record msys : Type := mkMsys {
  ms_heap : heap;
  ms_alloc : A;
  ms_mgr : AddressSpaceManager;
  ms_stash : list AddressSpace
}.

Definition mexec (op : mop) (s : msys) : outcome (mres * msys) :=
  let h := ms_heap s in
  let a := ms_alloc s in
  let m := ms_mgr s in
  match op with
  | OpCreate tid =>
      '(r, h, a, m) ← AddressSpaceManager_create_user_address_space h a m tid;
      mret (r, mkMsys h a m (ms_stash s))
  | OpRemove tid =>
      let (space, m) := AddressSpaceManager_remove_user m tid in
      mret (Ok tt, mkMsys h a m (option_list space ++ ms_stash s))
  | OpRestore tid =>
      match ms_stash s with
      | [] => mret (Ok tt, s)
      | space :: stash =>
          '(h, a, m) ← AddressSpaceManager_insert_user h a m tid space;
          mret (Ok tt, mkMsys h a m stash)
      end
  | OpDrop =>
      match ms_stash s with
      | [] => mret (Ok tt, s)
      | space :: stash => '(h, a) ← drop_space h a space; mret (Ok tt, mkMsys h a m stash)
      end
  | OpMap id va pa flags flush =>
      '(r, h, a, m) ← AddressSpaceManager_map h a m id va pa flags flush;
      mret (r, mkMsys h a m (ms_stash s))
  | OpUnmap id va flush =>
      '(r, h) ← AddressSpaceManager_unmap h m id va flush;
      mret (r, mkMsys h a m (ms_stash s))
  | OpIdentity start end_ =>
      '(r, h, a, m) ← AddressSpaceManager_identity_map h a m start end_;
      mret (r, mkMsys h a m (ms_stash s))
  | OpClone tid new_tid =>
      '(r, h, a, m) ← AddressSpaceManager_clone h a m (IdUser tid) new_tid;
      mret (r, mkMsys h a m (ms_stash s))
  end.

(** A space can be cloned when none of the pages it maps itself is one of its
    own tables. *)
Definition clone_safe (h : heap) (s : AddressSpace) : Prop :=
  forall va p1 e, walk_ref h (ph_ptr (as_root s)) (VirtualAddr_vpn2 va) = Some p1 ->
    is_Some (om_get p1 (as_tables s)) -> walk1 h p1 va = Some e ->
    om_get (entry_phys_addr e) (as_tables s) = None.

Definition mpre (op : mop) (s : msys) : Prop :=
  match op with
  | OpClone tid _ => forall space, om_get tid (am_user (ms_mgr s)) = Some space ->
      clone_safe (ms_heap s) space
  | _ => True
  end.

(** Runs, with the operations and their results. *)
Inductive mrun : msys -> list (mop * mres) -> msys -> Prop :=
| mrun_nil s : mrun s [] s
| mrun_cons s op r s1 tr s2 : mpre op s -> mexec op s = Ret (r, s1) -> mrun s1 tr s2 ->
    mrun s ((op, r) :: tr) s2.

Inductive srun : mabs -> list (mop * mres) -> mabs -> Prop :=
| srun_nil abs : srun abs [] abs
| srun_cons abs op o r abs1 tr abs2 : mspec op o abs = (r, abs1) -> srun abs1 tr abs2 ->
    srun abs ((op, r) :: tr) abs2.

(** The kernel at boot: an empty space. *)
Definition minit (rest : list Frame) (s : msys) : Prop :=
  exists h a, fs_rep h a rest /\
    AddressSpaceManager_new h a = Ret (ms_mgr s, ms_heap s, ms_alloc s) /\ ms_stash s = [].

(** ** The relation between the two *)

Definition frames_of (l : list AddressSpace) : list Frame := concat (space_frames <$> l).

(** A task's space [s] shows [u] when the kernel's tree is [TK]. *)
Definition user_rel (h : heap) (TK : tree) (s : AddressSpace) (u : uspace) : Prop :=
  exists T, space_rep h s T /\
    (forall i q, t_sh T i = Some q -> i < 256 /\ t_1 TK i = Some q) /\
    (forall i, idx i -> u_sh u i = bool_decide (is_Some (t_sh T i))) /\
    (forall va, u_view u va = own_view T va).

Record mrel (rest : list Frame) (s : msys) (abs : mabs) (TK : tree) : Prop := {
  mr_om : om_ok (am_user (ms_mgr s));
  mr_k : space_rep (ms_heap s) (am_kernel (ms_mgr s)) TK;
  mr_ksh : forall i, t_sh TK i = None;
  mr_kview : forall va, k_view abs va = own_view TK va;
  mr_kl1 : forall i, idx i -> k_l1 abs i = bool_decide (is_Some (t_1 TK i));
  mr_user : forall tid,
    match om_get tid (am_user (ms_mgr s)) with
    | Some sp => exists u, a_users abs tid = Some u /\ user_rel (ms_heap s) TK sp u
    | None => a_users abs tid = None
    end;
  mr_stash : Forall2 (user_rel (ms_heap s) TK) (ms_stash s) (a_stash abs);
  mr_frames : fs_rep (ms_heap s) (ms_alloc s)
    (space_frames (am_kernel (ms_mgr s)) ++ frames_of (am_user (ms_mgr s)).*2 ++
     frames_of (ms_stash s) ++ rest)
}.

(** The level-1 tables of the kernel stay. *)
Definition l1_grows (TK TK' : tree) : Prop :=
  forall i p, t_1 TK i = Some p -> t_1 TK' i = Some p.

Lemma user_rel_mono h h' TK TK' s u held : user_rel h TK s u -> same_on held h h' ->
  space_frames s ⊆ held -> l1_grows TK TK' -> user_rel h' TK' s u.
Proof.
  intros (T & R & Hsh & Hu & Hv) Hs Hsub Hg. exists T.
  split; [by apply (same_on_rep h h' s T held)|]. split; [|done].
  intros i q Hq. destruct (Hsh i q Hq) as [? ?]. split; [done|by apply Hg].
Qed.

Lemma frames_of_elem s l : s ∈ l -> space_frames s ⊆ frames_of l.
Proof.
  intros Hs f Hf. unfold frames_of. apply list_elem_of_In, in_concat.
  exists (space_frames s). split; [|by apply list_elem_of_In].
  apply list_elem_of_In, list_elem_of_fmap. by exists s.
Qed.

Lemma frames_of_perm l l' : l ≡ₚ l' -> frames_of l ≡ₚ frames_of l'.
Proof.
  intros Hp. unfold frames_of. induction Hp as [|x l l' Hp IH|x y l|l1 l2 l3 _ IH1 _ IH2].
  - done.
  - by apply (Permutation_app_head (space_frames x)).
  - apply (Permutation_app_swap_app (space_frames y) (space_frames x)).
  - by rewrite IH1.
Qed.

Lemma users_perm (m : list (Z * AddressSpace)) tid s : om_get tid m = Some s ->
  frames_of m.*2 ≡ₚ space_frames s ++ frames_of (om_remove tid m).*2.
Proof.
  intros Hg. change (space_frames s ++ frames_of (om_remove tid m).*2) with
    (frames_of ((tid, s) :: om_remove tid m).*2).
  apply frames_of_perm. by rewrite <- om_remove_perm.
Qed.

Lemma stash_mono h h' TK TK' stash astash held :
  Forall2 (user_rel h TK) stash astash -> same_on held h h' -> frames_of stash ⊆ held ->
  l1_grows TK TK' -> Forall2 (user_rel h' TK') stash astash.
Proof.
  intros HF Hs Hsub Hg. apply Forall2_same_length_lookup. split; [by eapply Forall2_length|].
  intros i s u Es Eu. apply (user_rel_mono h h' TK TK' s u held); [|done| |done].
  - by apply (Forall2_lookup_lr _ _ _ _ _ _ HF Es Eu).
  - apply list_elem_of_lookup_2 in Es. etrans; [by apply frames_of_elem|done].
Qed.

Lemma om_get_snd {V} k (v : V) m : om_ok m -> om_get k m = Some v -> v ∈ m.*2.
Proof.
  intros Hok Hg. apply om_get_elem in Hg; [|done]. apply list_elem_of_fmap. by exists (k, v).
Qed.

(** *** Focusing on the kernel's space *)

Definition kernel_rest (rest : list Frame) (s : msys) : list Frame :=
  frames_of (am_user (ms_mgr s)).*2 ++ frames_of (ms_stash s) ++ rest.

Lemma rest_in_kernel rest s : rest ⊆ kernel_rest rest s.
Proof. unfold kernel_rest. set_solver. Qed.

Lemma kernel_focus rest s abs TK : mrel rest s abs TK ->
  space_in (ms_heap s) (ms_alloc s) (am_kernel (ms_mgr s)) TK (kernel_rest rest s).
Proof.
  intros M. split; [apply M|apply M|]. intros i q Hq. by rewrite (mr_ksh _ _ _ _ M) in Hq.
Qed.

(** A step on the kernel's space. *)
Lemma kernel_update rest s abs TK h' a' k' TK' kv l1 : mrel rest s abs TK ->
  space_in h' a' k' TK' (kernel_rest rest s) -> same_on (kernel_rest rest s) (ms_heap s) h' ->
  t_sh TK' = t_sh TK -> l1_grows TK TK' ->
  (forall va, kv va = own_view TK' va) ->
  (forall i, idx i -> l1 i = bool_decide (is_Some (t_1 TK' i))) ->
  mrel rest (mkMsys h' a' (mkManager k' (am_user (ms_mgr s))) (ms_stash s))
    (mkAbs kv l1 (a_users abs) (a_stash abs)) TK'.
Proof.
  intros M [R H _] Hs Hsh Hg Hv Hl. pose proof M as [M1 M2 M3 M4 M5 M6 M7 M8].
  split; simpl; try done.
  - by rewrite Hsh.
  - intros tid. specialize (M6 tid). destruct (om_get tid _) as [sp|] eqn:E; [|done].
    destruct M6 as (u & Hu & Hr). exists u. split; [done|].
    apply (user_rel_mono (ms_heap s) h' TK TK' sp u (kernel_rest rest s)); [done|done| |done].
    etrans; [apply frames_of_elem; by eapply om_get_snd|]. unfold kernel_rest. set_solver.
  - apply (stash_mono (ms_heap s) h' TK TK' _ _ (kernel_rest rest s)); [done|done| |done].
    unfold kernel_rest. set_solver.
Qed.

(** *** Focusing on a task's space *)

Definition user_rest (rest : list Frame) (s : msys) (tid : Z) (stash : list AddressSpace)
    : list Frame :=
  space_frames (am_kernel (ms_mgr s)) ++ frames_of (om_remove tid (am_user (ms_mgr s))).*2 ++
  frames_of stash ++ rest.

Lemma user_rest_stash rest s tid stash : frames_of stash ⊆ user_rest rest s tid stash.
Proof. unfold user_rest. set_solver. Qed.

Lemma user_rest_nil rest s tid stash : user_rest rest s tid [] ⊆ user_rest rest s tid stash.
Proof. unfold user_rest. simpl. set_solver. Qed.

Lemma user_rest_kernel rest s tid stash :
  space_frames (am_kernel (ms_mgr s)) ⊆ user_rest rest s tid stash.
Proof. unfold user_rest. set_solver. Qed.

Lemma rest_in_user rest s tid stash : rest ⊆ user_rest rest s tid stash.
Proof. unfold user_rest. set_solver. Qed.

Lemma user_focus rest s abs TK tid sp : mrel rest s abs TK ->
  om_get tid (am_user (ms_mgr s)) = Some sp ->
  exists u T, a_users abs tid = Some u /\
    space_in (ms_heap s) (ms_alloc s) sp T (user_rest rest s tid (ms_stash s)) /\
    (forall i q, t_sh T i = Some q -> i < 256 /\ t_1 TK i = Some q) /\
    (forall i, idx i -> u_sh u i = bool_decide (is_Some (t_sh T i))) /\
    (forall va, u_view u va = own_view T va).
Proof.
  intros M Hg. pose proof (mr_user _ _ _ _ M tid) as Hu. rewrite Hg in Hu.
  destruct Hu as (u & Hu & T & R & Hsh & Hus & Huv). exists u, T. split; [done|].
  split; [|done]. split; [done| |].
  - apply (fs_perm _ _ _ _ (mr_frames _ _ _ _ M)). rewrite (users_perm _ tid sp Hg).
    unfold user_rest. rewrite <- app_assoc. apply Permutation_app_swap_app.
  - intros i q Hq. destruct (Hsh i q Hq) as [_ H1].
    pose proof (node_held _ _ _ (N1 i) q [] (mr_k _ _ _ _ M) H1) as Hh.
    rewrite app_nil_r in Hh. unfold held_page, user_rest in *. apply elem_of_app. by left.
Qed.

(** Putting the space [sp'] in the place of task [tid]. *)
Lemma user_update rest s abs TK tid sp' u' h' a' stash' astash' : mrel rest s abs TK ->
  user_rel h' TK sp' u' -> Forall2 (user_rel h' TK) stash' astash' ->
  fs_rep h' a' (space_frames sp' ++ user_rest rest s tid stash') ->
  same_on (user_rest rest s tid []) (ms_heap s) h' ->
  mrel rest
    (mkMsys h' a' (mkManager (am_kernel (ms_mgr s)) (om_insert tid sp' (am_user (ms_mgr s)))) stash')
    (mkAbs (k_view abs) (k_l1 abs) (fun tid' => if tid' =? tid then Some u' else a_users abs tid')
       astash') TK.
Proof.
  intros M Hu' Hst H Hs. pose proof M as [M1 M2 M3 M4 M5 M6 M7 M8].
  split; simpl; try done.
  - by apply om_insert_ok.
  - apply (same_on_rep (ms_heap s) h' _ TK _ Hs); [|done]. unfold user_rest. set_solver.
  - intros tid'. rewrite om_get_insert by done.
    destruct (decide (tid' = tid)) as [->|Hne]; [rewrite Z.eqb_refl; by exists u'|].
    destruct (Z.eqb_spec tid' tid); [done|]. specialize (M6 tid').
    destruct (om_get tid' (am_user (ms_mgr s))) as [sp|] eqn:E; [|done].
    destruct M6 as (u & Hu & Hr). exists u. split; [done|].
    apply (user_rel_mono (ms_heap s) h' TK TK sp u _ Hr Hs); [|by intros ? ?].
    assert (Hin : sp ∈ (om_remove tid (am_user (ms_mgr s))).*2).
    { apply (om_get_snd tid'); [by apply om_remove_ok|]. rewrite om_get_remove by done.
      by rewrite decide_False. }
    apply frames_of_elem in Hin. unfold user_rest. set_solver.
  - apply (fs_perm _ _ _ _ H). unfold user_rest.
    assert (Hp : frames_of (om_insert tid sp' (am_user (ms_mgr s))).*2 ≡ₚ
      space_frames sp' ++ frames_of (om_remove tid (am_user (ms_mgr s))).*2).
    { change (space_frames sp' ++ frames_of (om_remove tid (am_user (ms_mgr s))).*2) with
        (frames_of ((tid, sp') :: om_remove tid (am_user (ms_mgr s))).*2).
      apply frames_of_perm. by rewrite om_insert_perm. }
    rewrite Hp, <- app_assoc.
    apply (Permutation_app_swap_app (space_frames sp') (space_frames (am_kernel (ms_mgr s)))).
Qed.

(** ** The operations *)

(** The level-1 tables after a kernel mapping. *)
Lemma l1_after abs TK TK' va b :
  (forall i, idx i -> k_l1 abs i = bool_decide (is_Some (t_1 TK i))) ->
  (forall i, t_1 TK' i = t_1 TK i \/ (i = VirtualAddr_vpn2 va /\ t_1 TK i = None)) ->
  b = bool_decide (is_Some (t_1 TK' (VirtualAddr_vpn2 va))) ->
  l1_grows TK TK' /\
  forall i, idx i ->
    k_l1 abs i || (b && (i =? VirtualAddr_vpn2 va)) = bool_decide (is_Some (t_1 TK' i)).
Proof.
  intros Hl Hg Hb. assert (G : l1_grows TK TK').
  { intros i p Hp. destruct (Hg i) as [E|[_ E]]; congruence. }
  split; [done|]. intros i Hi. rewrite Hl by done.
  destruct (Z.eqb_spec i (VirtualAddr_vpn2 va)) as [->|Hne].
  - rewrite andb_true_r, Hb. destruct (t_1 TK (VirtualAddr_vpn2 va)) as [p|] eqn:E; [|done].
    by rewrite (G _ p E).
  - rewrite andb_false_r, orb_false_r. by destruct (Hg i) as [->|[? _]].
Qed.

Lemma kmap_ok rest s abs TK va pa flags : mrel rest s abs TK ->
  exists r h' a' k' o abs' TK',
    AddressSpace_map (ms_heap s) (ms_alloc s) (am_kernel (ms_mgr s)) va pa flags =
      Ret (r, h', a', k') /\
    spec_kmap o abs va (leaf_pte pa flags) = (r, abs') /\
    mrel rest (mkMsys h' a' (mkManager k' (am_user (ms_mgr s))) (ms_stash s)) abs' TK' /\
    same_on rest (ms_heap s) h' /\
    match r with Ok _ => o = Enough | Err _ => exists b, o = Dry 0 b end.
Proof.
  intros M. pose proof (kernel_focus _ _ _ _ M) as SI.
  destruct (AddressSpace_map_ok _ _ _ _ _ va pa flags SI)
    as (r & h' & a' & k' & TK' & E & SI' & Hs & _ & Hsh & Hg & Hr).
  rewrite (mr_ksh _ _ _ _ M) in Hr.
  assert (Hrest : same_on rest (ms_heap s) h')
    by (apply (same_on_sub _ _ _ _ Hs), rest_in_kernel).
  destruct (l1_after abs TK TK' va _ (mr_kl1 _ _ _ _ M) Hg eq_refl) as [G L].
  destruct Hr as [(-> & [p Hp] & Hv)|(-> & Hv)].
  - exists (Ok tt), h', a', k', Enough. eexists _, TK'. split; [done|]. split; [done|].
    split; [|by split]. apply (kernel_update rest s abs TK); try done.
    + intros va'. unfold put_page. rewrite Hv. by rewrite (mr_kview _ _ _ _ M).
    + rewrite Hp in L. exact L.
  - exists (Err OutOfMemory), h', a', k',
      (Dry 0 (bool_decide (is_Some (t_1 TK' (VirtualAddr_vpn2 va))))). eexists _, TK'.
    split; [done|]. split; [done|]. split; [|split; [done|by eexists]].
    apply (kernel_update rest s abs TK); try done.
    intros va'. rewrite Hv. apply (mr_kview _ _ _ _ M).
Qed.

(** What every operation establishes; the frames of others keep their words. *)
Definition refines_step (rest : list Frame) (op : mop) (s : msys) (abs : mabs) : Prop :=
  exists r s' o abs' TK', mexec op s = Ret (r, s') /\ mspec op o abs = (r, abs') /\
    same_on rest (ms_heap s) (ms_heap s') /\ mrel rest s' abs' TK'.

Lemma map_kernel_ok rest s abs TK va pa flags flush : mrel rest s abs TK ->
  refines_step rest (OpMap IdKernel va pa flags flush) s abs.
Proof.
  intros M. destruct (kmap_ok rest s abs TK va pa flags M)
    as (r & h' & a' & k' & o & abs' & TK' & E & Sp & M' & S' & _).
  eexists _, _, o, abs', TK'. split; [|split; [done|split; [|exact M']; exact S']].
  simpl. unfold AddressSpaceManager_kernel_map. by rewrite E, !outcome_bind_Ret.
Qed.

Lemma om_modify_insert {V} k (v w : V) m : om_get k m = Some w ->
  om_modify (fun _ => v) k m = om_insert k v m.
Proof. intros E. unfold om_modify. by rewrite E. Qed.

Lemma map_user_ok rest s abs TK tid va pa flags flush : mrel rest s abs TK ->
  refines_step rest (OpMap (IdUser tid) va pa flags flush) s abs.
Proof.
  intros M. unfold refines_step. cbn [mexec mspec AddressSpaceManager_map].
  unfold AddressSpaceManager_user_map. pose proof (mr_user _ _ _ _ M tid) as Hu.
  destruct (om_get tid (am_user (ms_mgr s))) as [sp|] eqn:Eg.
  2: { rewrite Hu. eexists _, _, Enough, _, TK. rewrite outcome_bind_Ret. split; [done|].
       split; [done|]. split; [apply same_on_refl|]. by destruct s as [? ? [? ?] ?]. }
  destruct (user_focus rest s abs TK tid sp M Eg) as (u & T & Eu & SI & Hsh & Hus & Huv).
  rewrite Eu. destruct (AddressSpace_map_ok _ _ _ _ _ va pa flags SI)
    as (r & h' & a' & sp' & T' & -> & SI' & Hs & _ & Hsh' & _ & Hr).
  rewrite !outcome_bind_Ret, (om_modify_insert _ _ sp _ Eg).
  assert (Hrest : same_on rest (ms_heap s) h') by (apply (same_on_sub _ _ _ _ Hs), rest_in_user).
  assert (Hupd : forall u', u_sh u' = u_sh u -> (forall va', u_view u' va' = own_view T' va') ->
    mrel rest (mkMsys h' a' (mkManager (am_kernel (ms_mgr s))
      (om_insert tid sp' (am_user (ms_mgr s)))) (ms_stash s)) (put_user abs tid (Some u')) TK).
  { intros u' Es Ev. apply (user_update rest s abs TK); try done.
    - exists T'. split; [apply SI'|]. rewrite Hsh', Es. done.
    - apply (stash_mono (ms_heap s) h' TK TK _ _ _ (mr_stash _ _ _ _ M) Hs); [|by intros ? ?].
      apply user_rest_stash.
    - apply SI'.
    - apply (same_on_sub _ _ _ _ Hs). apply user_rest_nil. }
  rewrite (Hus _ (proj1 (vpn_range va))).
  assert (Hkeep : (forall va', own_view T' va' = own_view T va') ->
    mrel rest (mkMsys h' a' (mkManager (am_kernel (ms_mgr s))
      (om_insert tid sp' (am_user (ms_mgr s)))) (ms_stash s)) abs TK).
  { intros Hv. specialize (Hupd u eq_refl).
    assert (M' := Hupd (fun va' => eq_trans (Huv va') (eq_sym (Hv va')))).
    pose proof (mr_user _ _ _ _ M') as Hm. destruct M'. split; try done. intros tid'.
    specialize (Hm tid'). cbn [put_user a_users] in Hm.
    destruct (Z.eqb_spec tid' tid) as [E|]; [|done]. rewrite E in Hm |- *. by rewrite Eu. }
  destruct (t_sh T (VirtualAddr_vpn2 va)) as [q|] eqn:Eq; [rewrite bool_decide_true by done|
    rewrite bool_decide_false by (by intros [? ?])].
  - destruct Hr as [-> Hv]. eexists _, _, Enough, _, TK. split; [done|]. split; [done|]. split; [done|]. by apply Hkeep.
  - destruct Hr as [(-> & _ & Hv)|(-> & Hv)].
    + eexists _, _, Enough, _, TK. split; [done|]. split; [done|]. split; [done|]. apply Hupd; [done|].
      intros va'. simpl. unfold put_page. by rewrite Hv, Huv.
    + eexists _, _, (Dry 0 false), _, TK. split; [done|]. split; [done|]. split; [done|]. by apply Hkeep.
Qed.

Lemma unmap_ok rest s abs TK id va flush : mrel rest s abs TK ->
  refines_step rest (OpUnmap id va flush) s abs.
Proof.
  intros M. unfold refines_step. destruct id as [|tid]; cbn [mexec mspec AddressSpaceManager_unmap].
  - unfold AddressSpaceManager_kernel_unmap. pose proof (kernel_focus _ _ _ _ M) as SI.
    destruct (AddressSpace_unmap_ok _ _ _ _ _ va SI) as (h' & TK' & -> & SI' & Hs & Hsh & H1 & Hv).
    rewrite !outcome_bind_Ret. eexists _, _, Enough, _, TK'. split; [done|]. split; [done|].
    split; [apply (same_on_sub _ _ _ _ Hs), rest_in_kernel|].
    replace (ms_mgr s) with (mkManager (am_kernel (ms_mgr s)) (am_user (ms_mgr s))) at 1
      by (by destruct (ms_mgr s)).
    apply (kernel_update rest s abs TK); try done.
    + intros i p Hp. by rewrite H1.
    + intros va'. unfold put_page. by rewrite Hv, (mr_kview _ _ _ _ M).
    + intros i Hi. rewrite H1. by apply (mr_kl1 _ _ _ _ M).
  - unfold AddressSpaceManager_user_unmap. pose proof (mr_user _ _ _ _ M tid) as Hu.
    destruct (om_get tid (am_user (ms_mgr s))) as [sp|] eqn:Eg.
    2: { rewrite Hu. eexists _, _, Enough, _, TK. rewrite outcome_bind_Ret. split; [done|].
         split; [done|]. split; [apply same_on_refl|]. by destruct s as [? ? [? ?] ?]. }
    destruct (user_focus rest s abs TK tid sp M Eg) as (u & T & Eu & SI & Hsh & Hus & Huv).
    rewrite Eu. destruct (AddressSpace_unmap_ok _ _ _ _ _ va SI)
      as (h' & T' & -> & SI' & Hs & Hsh' & _ & Hv).
    rewrite !outcome_bind_Ret. eexists _, _, Enough, _, TK. split; [done|]. split; [done|].
    split; [apply (same_on_sub _ _ _ _ Hs), rest_in_user|].
    assert (M' : mrel rest (mkMsys h' (ms_alloc s) (mkManager (am_kernel (ms_mgr s))
      (om_insert tid sp (am_user (ms_mgr s)))) (ms_stash s))
      (put_user abs tid (Some (mkU (u_sh u) (put_page (u_view u) va None)))) TK).
    { apply (user_update rest s abs TK); try done.
      - exists T'. split; [apply SI'|]. rewrite Hsh'. simpl. split; [done|]. split; [done|].
        intros va'. unfold put_page. by rewrite Hv, Huv.
      - apply (stash_mono (ms_heap s) h' TK TK _ _ _ (mr_stash _ _ _ _ M) Hs); [|by intros ? ?].
        apply user_rest_stash.
      - apply SI'.
      - apply (same_on_sub _ _ _ _ Hs). apply user_rest_nil. }
    replace (ms_mgr s) with (mkManager (am_kernel (ms_mgr s)) (am_user (ms_mgr s))) at 1
      by (by destruct (ms_mgr s)).
    replace (am_user (ms_mgr s)) with (om_insert tid sp (am_user (ms_mgr s))) at 1; [done|].
    apply om_ext; [by apply om_insert_ok, M|apply M|].
    intros k. rewrite om_get_insert by apply M. by destruct (decide (k = tid)) as [->|].
Qed.

(** Registering the space [sp'] for task [tid]. *)
Lemma insert_user_ok rest s abs TK tid sp' u' h a stash' astash' : mrel rest s abs TK ->
  user_rel h TK sp' u' -> Forall2 (user_rel h TK) stash' astash' ->
  fs_rep h a (space_frames sp' ++ space_frames (am_kernel (ms_mgr s)) ++
    frames_of (am_user (ms_mgr s)).*2 ++ frames_of stash' ++ rest) ->
  same_on (space_frames (am_kernel (ms_mgr s)) ++ frames_of (am_user (ms_mgr s)).*2 ++ rest)
    (ms_heap s) h ->
  exists h' a' m', AddressSpaceManager_insert_user h a (ms_mgr s) tid sp' = Ret (h', a', m') /\
    same_on rest h h' /\
    mrel rest (mkMsys h' a' m' stash')
      (mkAbs (k_view abs) (k_l1 abs) (fun tid' => if tid' =? tid then Some u' else a_users abs tid')
         astash') TK.
Proof.
  intros M Hu' Hst H Hs. unfold AddressSpaceManager_insert_user.
  destruct (om_get tid (am_user (ms_mgr s))) as [old|] eqn:Eg.
  - assert (H1 : fs_rep h a (space_frames old ++ space_frames sp' ++ user_rest rest s tid stash')).
    { apply (fs_perm _ _ _ _ H). rewrite (users_perm _ tid old Eg). unfold user_rest.
      rewrite <- app_assoc, (Permutation_app_swap_app (space_frames (am_kernel (ms_mgr s)))).
      apply Permutation_app_swap_app. }
    destruct (drop_space_ok h a old _ H1) as (h' & a' & -> & H' & S').
    rewrite outcome_bind_Ret. eexists h', a', _. split; [done|].
    split; [apply (same_on_sub _ _ _ _ S'); etrans; [apply (rest_in_user rest s tid stash')|]; clear; set_solver|].
    apply (user_update rest s abs TK); try done.
    + apply (user_rel_mono h h' TK TK sp' u' _ Hu' S'); [set_solver|by intros ? ?].
    + apply (stash_mono h h' TK TK _ _ _ Hst S'); [|by intros ? ?].
      etrans; [apply (user_rest_stash rest s tid)|]. set_solver.
    + apply (same_on_trans _ _ h).
      * apply (same_on_sub _ _ _ _ Hs). unfold user_rest. rewrite (users_perm _ tid old Eg).
        simpl. set_solver.
      * apply (same_on_sub _ _ _ _ S'). etrans; [apply (user_rest_nil _ _ _ stash')|set_solver].
  - rewrite outcome_bind_Ret. eexists h, a, _. split; [done|]. split; [apply same_on_refl|].
    assert (Er : forall st, user_rest rest s tid st = space_frames (am_kernel (ms_mgr s)) ++
      frames_of (am_user (ms_mgr s)).*2 ++ frames_of st ++ rest).
    { intros st. unfold user_rest. by rewrite om_remove_absent. }
    apply (user_update rest s abs TK); try done; by rewrite Er.
Qed.

Definition all_frames (rest : list Frame) (s : msys) : list Frame :=
  space_frames (am_kernel (ms_mgr s)) ++ frames_of (am_user (ms_mgr s)).*2 ++
  frames_of (ms_stash s) ++ rest.

Lemma rest_in_all rest s : rest ⊆ all_frames rest s.
Proof. unfold all_frames. set_solver. Qed.

(** The memory outside the held frames does not matter. *)
Lemma mrel_same rest s abs TK h' a' : mrel rest s abs TK ->
  same_on (all_frames rest s) (ms_heap s) h' -> fs_rep h' a' (all_frames rest s) ->
  mrel rest (mkMsys h' a' (ms_mgr s) (ms_stash s)) abs TK.
Proof.
  intros M Hs H'. destruct M as [M1 M2 M3 M4 M5 M6 M7 M8]. unfold all_frames in *.
  split; try done; cbn [ms_mgr ms_heap ms_stash].
  - apply (same_on_rep _ _ _ _ _ Hs); [|done]. set_solver.
  - intros tid'. specialize (M6 tid'). destruct (om_get tid' _) as [sp|] eqn:E; [|done].
    destruct M6 as (u & ? & Hu). exists u. split; [done|].
    apply (user_rel_mono _ _ TK TK _ _ _ Hu Hs); [|by intros ? ?].
    apply om_get_snd, frames_of_elem in E; [|done]. set_solver.
  - apply (stash_mono _ _ TK TK _ _ _ M7 Hs); [|by intros ? ?]. set_solver.
Qed.

(** A new root table with the lower half of the kernel's root table. *)
Definition fresh_tree (TK : tree) : tree :=
  mkTree (fun i => if (0 <=? i) && (i <? 256) then t_1 TK i else None) (fun _ => None)
    (fun _ _ => None) (fun _ _ _ => 0).

Lemma fresh_space_rep h a k TK rest t : space_in h a k TK rest -> handle_ok t ->
  (forall i, t_sh TK i = None) ->
  (forall i, 0 <= i < 256 -> h !! (ph_ptr t + 8 * i) = h !! (ph_ptr (as_root k) + 8 * i)) ->
  (forall i, 256 <= i < 512 -> h !! (ph_ptr t + 8 * i) = Some 0) ->
  space_rep h (mkSpace t []) (fresh_tree TK).
Proof.
  intros SI Ht Hsh Hlow Hhigh. pose proof SI as [R H _].
  split; cbn [as_root as_tables]; try done.
  - apply om_ok_nil.
  - by intros p u ?%not_elem_of_nil.
  - intros i q Hq. cbn [fresh_tree t_sh] in Hq.
    destruct ((0 <=? i) && (i <? 256)) eqn:E; [|done]. zify_bool.
    split; [unfold idx; lia|]. split; [|done]. by apply (node_page h a k TK (N1 i) q rest).
  - by intros [|i|i j] p Hp Hne.
  - intros [|i|i j] p k' Hp Hk; [|done|done]. injection Hp as <-. cbn [node_ent fresh_tree t_sh t_1].
    destruct ((0 <=? k') && (k' <? 256)) eqn:E; zify_bool.
    + rewrite Hlow by lia. rewrite (sr_ent _ _ _ R NRoot _ k' eq_refl Hk).
      cbn [node_ent]. rewrite Hsh. by destruct (t_1 TK k').
    + unfold idx in Hk. rewrite Hhigh; [done|].
      destruct (Z.leb_spec 0 k'), (Z.ltb_spec k' 256); try lia; done.
  - by intros [|i|i j] [|i'|i' j'] p.
  - intros. by left.
Qed.

Lemma create_user_ok rest s abs TK tid : mrel rest s abs TK ->
  refines_step rest (OpCreate tid) s abs.
Proof.
  intros M. unfold refines_step. cbn [mexec mspec].
  unfold AddressSpaceManager_create_user_address_space.
  destruct (create_ok _ _ _ (mr_frames _ _ _ _ M)) as (r & h1 & a1 & -> & S1 & Hr).
  rewrite outcome_bind_Ret. destruct r as [t|e].
  2: { destruct Hr as [-> H1]. rewrite outcome_bind_Ret. eexists _, _, (Dry 0 false), _, TK.
       split; [done|]. split; [done|].
       split; [apply (same_on_sub _ _ _ _ S1), rest_in_all|by apply mrel_same]. }
  destruct Hr as (H1 & Ht & Hz & Hnew). fold (all_frames rest s) in *.
  assert (SK : space_in h1 a1 (am_kernel (ms_mgr s)) TK (ph_page t :: kernel_rest rest s)).
  { split; [|apply (fs_perm _ _ _ _ H1); by rewrite <- Permutation_middle|].
    - apply (same_on_rep _ _ _ _ _ S1); [|apply M]. unfold all_frames. set_solver.
    - intros i q Hq. by rewrite (mr_ksh _ _ _ _ M) in Hq. }
  assert (Hkr : held_page (all_frames rest s) (ph_ptr (as_root (am_kernel (ms_mgr s)))))
    by exact (node_held _ _ _ NRoot _ (kernel_rest rest s) (mr_k _ _ _ _ M) eq_refl).
  unfold PageTableHandle_copy_low_half.
  destruct (copy_entries_ok 256 h1 a1 (ph_page t :: all_frames rest s)
    (ph_ptr (as_root (am_kernel (ms_mgr s)))) (ph_ptr t) 0 H1) as (h2 & -> & H2 & K2 & X2);
    [by right|apply handle_held; [done|left]|by apply (Hnew _ Hkr)|lia|lia|].
  rewrite outcome_bind_Ret.
  assert (O2 : only_table (ph_ptr t) h1 h2).
  { intros x Hx. apply X2. intros k Hk. apply Hx. unfold idx. lia. }
  assert (S2 : same_on (all_frames rest s) h1 h2).
  { by apply (only_table_same h1 a1 h1 h2 (ph_page t) _ (ph_ptr t) H1); [apply handle_page|]. }
  assert (S12 : same_on (all_frames rest s) (ms_heap s) h2) by (by eapply same_on_trans).
  destruct (insert_user_ok rest s abs TK tid (mkSpace t [])
    (mkU (fun i => (i <? 256) && k_l1 abs i) (fun _ => None)) h2 a1 (ms_stash s) (a_stash abs) M)
    as (h' & a' & m' & -> & S' & M').
  - exists (fresh_tree TK). split; [|split; [|split]].
    + apply (fresh_space_rep h2 a1 (am_kernel (ms_mgr s)) TK (ph_page t :: kernel_rest rest s));
        [|done|apply M|..].
      * split; [|apply (fs_perm _ _ _ _ H2); by rewrite <- Permutation_middle|].
        -- apply (same_on_rep _ _ _ _ _ S12); [|apply M]. unfold all_frames. set_solver.
        -- intros i q Hq. by rewrite (mr_ksh _ _ _ _ M) in Hq.
      * intros i Hi. rewrite K2 by lia. symmetry.
        apply (S2 (mkFrame (ph_ptr (as_root (am_kernel (ms_mgr s)))) PAGE_SIZE)); [done|].
        apply word_in_page. unfold idx. lia.
      * intros i Hi. rewrite X2 by (intros; lia). apply Hz. unfold idx. lia.
    + intros i q Hq. cbn [fresh_tree t_sh] in Hq.
      destruct ((0 <=? i) && (i <? 256)) eqn:E; [|done]. zify_bool. split; [lia|done].
    + intros i Hi. cbn [u_sh fresh_tree t_sh]. rewrite (mr_kl1 _ _ _ _ M i Hi).
      unfold idx in Hi. destruct (Z.leb_spec 0 i); [|lia]. cbn [andb].
      by destruct (i <? 256).
    + done.
  - apply (stash_mono _ _ TK TK _ _ _ (mr_stash _ _ _ _ M) S12); [|by intros ? ?].
    unfold all_frames. set_solver.
  - exact H2.
  - apply (same_on_sub _ _ _ _ S12). unfold all_frames. set_solver.
  - rewrite !outcome_bind_Ret. eexists _, _, Enough, _, TK. split; [done|]. split; [done|].
    split; [|exact M']. apply (same_on_trans _ _ h2); [|exact S'].
    apply (same_on_sub _ _ _ _ S12), rest_in_all.
Qed.

Lemma remove_user_ok rest s abs TK tid : mrel rest s abs TK ->
  refines_step rest (OpRemove tid) s abs.
Proof.
  intros M. unfold refines_step. cbn [mexec mspec AddressSpaceManager_remove_user].
  pose proof M as [M1 M2 M3 M4 M5 M6 M7 M8]. pose proof (M6 tid) as Hu.
  destruct (om_get tid (am_user (ms_mgr s))) as [sp|] eqn:Eg.
  - destruct Hu as (u & Eu & Hr). rewrite Eu. eexists _, _, Enough, _, TK. split; [done|].
    split; [done|]. split; [apply same_on_refl|].
    cbn [option_list app]. split; try done; cbn [ms_mgr ms_heap ms_stash am_user am_kernel].
    + by apply om_remove_ok.
    + intros tid'. cbn [a_users put_user]. rewrite om_get_remove by done.
      destruct (decide (tid' = tid)) as [->|Hne]; [by rewrite Z.eqb_refl|].
      destruct (Z.eqb_spec tid' tid); [done|]. apply M6.
    + by constructor.
    + apply (fs_perm _ _ _ _ M8). rewrite (users_perm _ tid sp Eg).
      apply Permutation_app_head.
      change (frames_of (option_list (Some sp) ++ ms_stash s)) with
        (space_frames sp ++ frames_of (ms_stash s)).
      rewrite <- !app_assoc. apply (Permutation_app_swap_app (space_frames sp)).
  - rewrite Hu. eexists _, _, Enough, _, TK. split; [done|]. split; [done|].
    split; [apply same_on_refl|]. rewrite om_remove_absent by done. by destruct s as [? ? [? ?] ?].
Qed.

(** The frames of the first stashed space, moved to the front. *)
Lemma stash_perm (k us : list Frame) sp stash rest :
  k ++ us ++ frames_of (sp :: stash) ++ rest ≡ₚ
  space_frames sp ++ k ++ us ++ frames_of stash ++ rest.
Proof.
  change (frames_of (sp :: stash)) with (space_frames sp ++ frames_of stash).
  rewrite (Permutation_app_swap_app (space_frames sp) k). apply Permutation_app_head.
  rewrite (Permutation_app_swap_app (space_frames sp) us). by rewrite <- app_assoc.
Qed.

Lemma restore_ok rest s abs TK tid : mrel rest s abs TK ->
  refines_step rest (OpRestore tid) s abs.
Proof.
  intros M. unfold refines_step. cbn [mexec mspec].
  pose proof (mr_stash _ _ _ _ M) as Hst. pose proof (mr_frames _ _ _ _ M) as H.
  destruct (ms_stash s) as [|sp stash] eqn:Es; inversion Hst as [|? u ? astash Hu Hst' E1 E2];
    rewrite <- ?E2.
  { eexists _, _, Enough, _, TK. split; [done|]. split; [done|]. split; [apply same_on_refl|done]. }
  destruct (insert_user_ok rest s abs TK tid sp u (ms_heap s) (ms_alloc s) stash astash M Hu Hst')
    as (h' & a' & m' & -> & S' & M').
  - by apply (fs_perm _ _ _ _ H), stash_perm.
  - apply same_on_refl.
  - rewrite outcome_bind_Ret. eexists _, _, Enough, _, TK. split; [done|]. split; [done|].
    split; [exact S'|exact M'].
Qed.

Lemma drop_ok rest s abs TK : mrel rest s abs TK -> refines_step rest OpDrop s abs.
Proof.
  intros M. unfold refines_step. cbn [mexec mspec].
  pose proof M as [M1 M2 M3 M4 M5 M6 Hst H].
  destruct (ms_stash s) as [|sp stash] eqn:Es; inversion Hst as [|? u ? astash Hu Hst' E1 E2].
  { eexists _, _, Enough, _, TK. split; [done|]. split; [done|].
    split; [apply same_on_refl|]. destruct abs.
    cbn [k_view k_l1 a_users a_stash tail] in *. subst. exact M. }
  assert (H1 : fs_rep (ms_heap s) (ms_alloc s) (space_frames sp ++
    space_frames (am_kernel (ms_mgr s)) ++ frames_of (am_user (ms_mgr s)).*2 ++
    frames_of stash ++ rest)) by (by apply (fs_perm _ _ _ _ H), stash_perm).
  destruct (drop_space_ok _ _ _ _ H1) as (h' & a' & -> & H' & S').
  rewrite outcome_bind_Ret. eexists _, _, Enough, _, TK. split; [done|]. split; [done|].
  split; [apply (same_on_sub _ _ _ _ S'); clear; set_solver|].
  split; try done; cbn [ms_mgr ms_heap ms_stash ms_alloc a_users a_stash tail].
  - apply (same_on_rep _ _ _ _ _ S'); [|done]. set_solver.
  - intros tid'. specialize (M6 tid'). destruct (om_get tid' _) as [sp'|] eqn:E; [|done].
    destruct M6 as (u' & ? & Hu'). exists u'. split; [done|].
    apply (user_rel_mono _ _ TK TK _ _ _ Hu' S'); [|by intros ? ?].
    apply om_get_snd, frames_of_elem in E; [|done]. set_solver.
  - apply (stash_mono _ _ TK TK _ _ _ Hst' S'); [|by intros ? ?]. set_solver.
Qed.

(** An address with given page numbers. *)
Lemma vpn_of i j k : idx i -> idx j -> idx k ->
  let va := i * 2 ^ 30 + j * 2 ^ 21 + k * 2 ^ 12 in
  VirtualAddr_vpn2 va = i /\ VirtualAddr_vpn1 va = j /\ VirtualAddr_vpn0 va = k.
Proof.
  intros Hi Hj Hk va. unfold idx in *.
  unfold VirtualAddr_vpn2, VirtualAddr_vpn1, VirtualAddr_vpn0. rewrite !bits_get_div by lia.
  subst va. change (38 - 30 + 1) with 9. change (29 - 21 + 1) with 9. change (20 - 12 + 1) with 9.
  split; [|split].
  - rewrite Z.mod_small; [|split; [apply Z.div_pos; lia|apply Z.div_lt_upper_bound; lia]].
    symmetry. apply Z.div_unique with (j * 2 ^ 21 + k * 2 ^ 12); lia.
  - replace (i * 2 ^ 30 + j * 2 ^ 21 + k * 2 ^ 12) with ((i * 2 ^ 9 + j) * 2 ^ 21 + k * 2 ^ 12) by lia.
    rewrite Z.div_add_l, Z.div_small, Z.add_0_r by lia.
    rewrite Z.add_comm, Z.mod_add by lia. apply Z.mod_small. lia.
  - replace (i * 2 ^ 30 + j * 2 ^ 21 + k * 2 ^ 12) with ((k + (i * 2 ^ 9 + j) * 2 ^ 9) * 2 ^ 12) by lia.
    rewrite Z.div_mul, Z.mod_add by lia. apply Z.mod_small. lia.
Qed.

Lemma clone_safe_leaves h a s T rest : space_in h a s T rest -> clone_safe h s -> leaves_data s T.
Proof.
  intros SI Hc i j k p0 H0 Hk. pose proof SI as [R H Hsh].
  destruct (sr_0 _ _ _ R i j p0 H0) as [Hj [p1 H1]]. pose proof (sr_1 _ _ _ R i p1 H1) as Hi.
  destruct (PageTableEntry_v (t_leaf T i j k)) eqn:Ev.
  - destruct (vpn_of i j k Hi Hj Hk) as (E2 & E1 & E0).
    apply (Hc (i * 2 ^ 30 + j * 2 ^ 21 + k * 2 ^ 12) p1).
    + rewrite E2. apply walk_ref_pte; [|by apply (node_page h a s T (N1 i) p1 rest)].
      rewrite (sr_ent _ _ _ R NRoot _ i eq_refl Hi). cbn [node_ent].
      destruct (t_sh T i) as [q|] eqn:Eq; [|by rewrite H1].
      destruct (sr_sh _ _ _ R i q Eq) as (_ & _ & ? & _). congruence.
    + by apply (sr_tab _ _ _ R (N1 i)).
    + rewrite (walk1_own h a s T rest i p1 _ SI H1), E1, E0. unfold view. by rewrite H0, Ev.
  - destruct (sr_leaf _ _ _ R i j k) as [->|(pa & fl & E)].
    + by apply (remap_zero h a s T rest).
    + rewrite E, leaf_pte_v in Ev. done.
Qed.

Lemma clone_leaves_ok rest s abs TK tid new_tid : mrel rest s abs TK ->
  (forall sp u T, om_get tid (am_user (ms_mgr s)) = Some sp -> a_users abs tid = Some u ->
    space_in (ms_heap s) (ms_alloc s) sp T (user_rest rest s tid (ms_stash s)) ->
    (forall va, u_view u va = own_view T va) -> leaves_data sp T) ->
  refines_step rest (OpClone tid new_tid) s abs.
Proof.
  intros M Hleaf. unfold refines_step. cbn [mexec mspec]. unfold AddressSpaceManager_clone.
  pose proof (mr_user _ _ _ _ M tid) as Hu.
  destruct (om_get tid (am_user (ms_mgr s))) as [sp|] eqn:Eg.
  2: { rewrite Hu. eexists _, _, Enough, _, TK. rewrite outcome_bind_Ret. split; [done|].
       split; [done|]. split; [apply same_on_refl|]. by destruct s as [? ? [? ?] ?]. }
  destruct (user_focus rest s abs TK tid sp M Eg) as (u & T & Eu & SI & Hsh & Hus & Huv).
  rewrite Eu. destruct (try_clone_ok _ _ _ _ _ SI) as (r & h' & a' & -> & S' & Hr).
  { by apply (Hleaf sp u T). }
  rewrite !outcome_bind_Ret.
  assert (Hp : space_frames sp ++ user_rest rest s tid (ms_stash s) ≡ₚ all_frames rest s).
  { unfold all_frames, user_rest. rewrite (users_perm _ tid sp Eg), <- app_assoc.
    apply (Permutation_app_swap_app (space_frames sp)). }
  assert (S2 : same_on (all_frames rest s) (ms_heap s) h').
  { apply (same_on_sub _ _ _ _ S'). by rewrite Hp. }
  destruct r as [sp'|e].
  - destruct Hr as (T' & R' & H' & Hsh' & Hv').
    destruct (insert_user_ok rest s abs TK new_tid sp' u h' a' (ms_stash s) (a_stash abs) M)
      as (h2 & a2 & m2 & -> & S3 & M').
    + exists T'. split; [done|]. rewrite Hsh'. split; [done|]. split; [done|].
      intros va. by rewrite Hv'.
    + apply (stash_mono _ _ TK TK _ _ _ (mr_stash _ _ _ _ M) S2); [|by intros ? ?].
      unfold all_frames. set_solver.
    + apply (fs_perm _ _ _ _ H'). by apply Permutation_app_head.
    + apply (same_on_sub _ _ _ _ S2). unfold all_frames. set_solver.
    + rewrite !outcome_bind_Ret. eexists _, _, Enough, _, TK. split; [done|]. split; [done|].
      split; [|exact M']. apply (same_on_trans _ _ h'); [|exact S3].
      apply (same_on_sub _ _ _ _ S2), rest_in_all.
  - destruct Hr as [-> H']. rewrite outcome_bind_Ret. eexists _, _, (Dry 0 false), _, TK.
    split; [done|]. split; [done|]. split; [apply (same_on_sub _ _ _ _ S2), rest_in_all|].
    apply mrel_same; [done|done|].
    by apply (fs_perm _ _ _ _ H').
Qed.

Lemma clone_ok rest s abs TK tid new_tid : mrel rest s abs TK -> mpre (OpClone tid new_tid) s ->
  refines_step rest (OpClone tid new_tid) s abs.
Proof.
  intros M Hpre. apply (clone_leaves_ok _ _ _ TK); [done|]. intros sp u T Hg _ SI _. apply (clone_safe_leaves _ _ _ _ _ SI). by apply Hpre.
Qed.

Lemma identity_loop_ok n rest s abs TK i flags : mrel rest s abs TK ->
  exists r h' a' m' o abs' TK',
    identity_loop n (ms_heap s) (ms_alloc s) (ms_mgr s) i flags = Ret (r, h', a', m') /\
    spec_identity n o abs i flags = (r, abs') /\
    same_on rest (ms_heap s) h' /\ mrel rest (mkMsys h' a' m' (ms_stash s)) abs' TK'.
Proof.
  revert s abs TK i. induction n as [|n IH]; intros s abs TK i M; cbn [identity_loop spec_identity].
  { eexists _, _, _, _, Enough, abs, TK. split; [done|]. split; [done|].
    split; [apply same_on_refl|]. by destruct s. }
  destruct (kmap_ok rest s abs TK i i flags M)
    as (r & h1 & a1 & k1 & o1 & abs1 & TK1 & -> & Sp & M1 & S1 & Ho). rewrite outcome_bind_Ret. cbv zeta.
  destruct r as [[]|e].
  - subst o1. destruct (IH _ _ _ (i + PAGE_SIZE) M1) as (r & h' & a' & m' & o & abs' & TK' & E & Sp' & S' & M').
    cbn [ms_heap ms_alloc ms_mgr ms_stash] in *.
    exists r, h', a', m', (match o with Dry m l => Dry (S m) l | Enough => Enough end), abs', TK'.
    split; [done|]. split; [rewrite Sp; by destruct o|]. split; [by eapply same_on_trans|done].
  - destruct Ho as [b ->]. eexists _, _, _, _, (Dry 0 b), abs1, TK1. split; [done|]. by split; [|split].
Qed.

Lemma identity_ok rest s abs TK start end_ : mrel rest s abs TK ->
  refines_step rest (OpIdentity start end_) s abs.
Proof.
  intros M. unfold refines_step. cbn [mexec mspec]. unfold AddressSpaceManager_identity_map.
  destruct (identity_loop_ok (page_steps start end_) rest s abs TK start identity_flags M)
    as (r & h' & a' & m' & o & abs' & TK' & E & Sp & S' & M').
  unfold identity_flags in E. cbv zeta. rewrite E, outcome_bind_Ret.
  eexists _, _, o, abs', TK'. split; [done|]. by split; [|split].
Qed.

Lemma mexec_refines rest s abs TK op : mrel rest s abs TK -> mpre op s ->
  refines_step rest op s abs.
Proof.
  intros M Hp. destruct op as [tid|tid|tid| |[|tid] va pa fl f|id va f|st en|tid new].
  - by eapply create_user_ok.
  - by eapply remove_user_ok.
  - by eapply restore_ok.
  - by eapply drop_ok.
  - by eapply map_kernel_ok.
  - by eapply map_user_ok.
  - by eapply unmap_ok.
  - by eapply identity_ok.
  - by eapply clone_ok.
Qed.

(** ** Booting, and what the hardware sees *)

Definition empty_tree : tree :=
  mkTree (fun _ => None) (fun _ => None) (fun _ _ => None) (fun _ _ _ => 0).

Lemma empty_space_rep h t : handle_ok t -> zeroed h (ph_ptr t) ->
  space_rep h (mkSpace t []) empty_tree.
Proof.
  intros Ht Hz. split; cbn [as_root as_tables]; try done.
  - apply om_ok_nil.
  - by intros p u ?%not_elem_of_nil.
  - by intros [|i|i j] p Hp Hne.
  - intros [|i|i j] p k Hp Hk; [|done|done]. injection Hp as <-. by apply Hz.
  - by intros [|i|i j] [|i'|i' j'] p.
  - intros. by left.
Qed.

Lemma minit_rel rest s : minit rest s -> mrel rest s abs_init empty_tree.
Proof.
  intros (h & a & H & E & Est). unfold AddressSpaceManager_new in E.
  destruct (create_ok h a rest H) as (r & h1 & a1 & E1 & _ & Hr).
  rewrite E1, outcome_bind_Ret in E. destruct r as [t|e]; [|done].
  destruct Hr as (H1 & Ht & Hz & _). injection E as E2 E3 E4.
  destruct s as [sh sa sm ss]. cbn [ms_mgr ms_heap ms_alloc ms_stash] in *. subst.
  split; cbn [ms_mgr ms_heap ms_alloc ms_stash am_kernel am_user]; try done.
  - apply om_ok_nil.
  - by apply empty_space_rep.
Qed.

(** The walk of the hardware from every root table gives the abstract leaf
    entries. *)
Definition hw_agrees (s : msys) (abs : mabs) : Prop :=
  (forall va, walk (ms_heap s) (AddressSpaceManager_kernel_root_addr (ms_mgr s)) va = k_view abs va) /\
  forall tid,
    match om_get tid (am_user (ms_mgr s)) with
    | Some sp => exists u, a_users abs tid = Some u /\
        AddressSpaceManager_user_root_addr (ms_mgr s) tid = Ok (ph_ptr (as_root sp)) /\
        forall va, walk (ms_heap s) (ph_ptr (as_root sp)) va = seen abs u va
    | None => a_users abs tid = None /\
        AddressSpaceManager_user_root_addr (ms_mgr s) tid = Err AddressSpaceNotFound
    end.

Lemma mrel_hw rest s abs TK : mrel rest s abs TK -> hw_agrees s abs.
Proof.
  intros M. pose proof (kernel_focus _ _ _ _ M) as SK. split.
  - intros va. unfold AddressSpaceManager_kernel_root_addr, as_phys_addr.
    rewrite (walk_space _ _ _ _ _ va SK), (mr_ksh _ _ _ _ M). symmetry. apply M.
  - intros tid. unfold AddressSpaceManager_user_root_addr. pose proof (mr_user _ _ _ _ M tid) as Hu.
    destruct (om_get tid (am_user (ms_mgr s))) as [sp|] eqn:Eg; [|done].
    destruct (user_focus rest s abs TK tid sp M Eg) as (u & T & Eu & SI & Hsh & Hus & Huv).
    exists u. split; [done|]. split; [done|]. intros va.
    rewrite (walk_space _ _ _ _ _ va SI). unfold seen. rewrite (Hus _ (proj1 (vpn_range va))).
    destruct (t_sh T (VirtualAddr_vpn2 va)) as [q|] eqn:Eq.
    + destruct (Hsh _ q Eq) as [_ H1]. rewrite bool_decide_true by done.
      rewrite (walk1_own _ _ _ _ _ _ q va SK H1). symmetry. apply M.
    + rewrite bool_decide_false by (by intros [? ?]). by rewrite Huv.
Qed.

Lemma mrun_refines rest s0 tr s abs0 TK0 : mrel rest s0 abs0 TK0 -> mrun s0 tr s ->
  exists abs TK, srun abs0 tr abs /\ same_on rest (ms_heap s0) (ms_heap s) /\ mrel rest s abs TK.
Proof.
  intros M Hr. revert abs0 TK0 M. induction Hr as [s|s op r s1 tr s2 Hp E Hr IH]; intros abs0 TK0 M.
  - exists abs0, TK0. split; [constructor|]. split; [apply same_on_refl|done].
  - destruct (mexec_refines rest s abs0 TK0 op M Hp) as (r' & s' & o & abs1 & TK1 & E' & Sp & S1 & M1).
    rewrite E in E'. injection E' as <- <-. destruct (IH _ _ M1) as (abs & TK & Hs & S2 & M').
    exists abs, TK. split; [by econstructor|]. split; [by eapply same_on_trans|done].
Qed.


Lemma satp_value root : page_addr root ->
  let v := SatpValue_set_mode (SatpValue_set_ppn SatpValue_new (PhysicalAddr_ppn root)) SatpMode_SV39 in
  SatpValue_mode v = SatpMode_SV39 /\ SatpValue_ppn v * PAGE_SIZE = root.
Proof.
  intros Hp v. destruct Hp as [Hb Hm]. pose proof fits64_0 as F.
  assert (F1 : fits 64 (SatpValue_set_ppn SatpValue_new (PhysicalAddr_ppn root)))
    by (apply bits_set_fits; [lia|lia|done]).
  destruct (bits_get_set 64 60 63 _ SatpMode_SV39 ltac:(lia) ltac:(lia) F1) as [E1 E2].
  split; [exact E1|]. unfold SatpValue_ppn. subst v. unfold SatpValue_set_mode.
  rewrite E2 by lia. unfold SatpValue_set_ppn.
  destruct (bits_get_set 64 0 43 SatpValue_new (PhysicalAddr_ppn root) ltac:(lia) ltac:(lia) F)
    as [-> _].
  unfold PhysicalAddr_ppn. rewrite bits_get_div by lia.
  change (55 - 12 + 1) with 44. change (43 - 0 + 1) with 44.
  assert (Hr : 0 <= root / 2 ^ 12 < 2 ^ 44).
  { split; [apply Z.div_pos; lia|]. apply Z.div_lt_upper_bound; lia. }
  rewrite !(Z.mod_small _ _ Hr). unfold PAGE_SIZE in *. change (2 ^ 12) with 4096.
  rewrite Z.mul_comm. symmetry. apply Z.div_exact; [lia|done].
Qed.

(** After any run, [activate] fails exactly for a task without an address
    space; otherwise the [satp] value selects Sv39 and a root table from which
    the hardware sees exactly the pages of the kernel or of the task. *)
Theorem AddressSpaceManager_activate_ok rest s0 tr s id : minit rest s0 -> mrun s0 tr s ->
  exists abs, srun abs_init tr abs /\
    match AddressSpaceManager_activate (ms_mgr s) id with
    | Err e => e = AddressSpaceNotFound /\ exists tid, id = IdUser tid /\ a_users abs tid = None
    | Ok v => SatpValue_mode v = SatpMode_SV39 /\
        forall va, walk (ms_heap s) (SatpValue_ppn v * PAGE_SIZE) va =
          match id with
          | IdKernel => k_view abs va
          | IdUser tid => match a_users abs tid with Some u => seen abs u va | None => None end
          end
    end.
Proof.
  intros Hi Hr. destruct (mrun_refines rest s0 tr s _ _ (minit_rel rest s0 Hi) Hr)
    as (abs & TK & Hs & _ & M).
  exists abs. split; [done|]. pose proof (mrel_hw _ _ _ _ M) as [Hk Hu].
  unfold AddressSpaceManager_activate. destruct id as [|tid]; cbv beta iota zeta.
  - pose proof (kernel_focus _ _ _ _ M) as [R H _].
    destruct (satp_value (as_phys_addr (as_root (am_kernel (ms_mgr s))))) as [E1 E2].
    { by apply (node_page _ _ _ _ NRoot _ _ R H). }
    split; [exact E1|]. intros va. rewrite E2. apply Hk.
  - specialize (Hu tid). destruct (om_get tid (am_user (ms_mgr s))) as [sp|] eqn:Eg.
    2: { destruct Hu as [Hn _]. split; [done|]. by exists tid. }
    destruct Hu as (u & Eu & _ & Hw). rewrite Eu.
    destruct (user_focus rest s abs TK tid sp M Eg) as (_ & T & _ & SI & _).
    destruct (satp_value (as_phys_addr (as_root sp))) as [E1 E2].
    { by apply (node_page _ _ _ _ NRoot _ _ (si_rep _ _ _ _ _ SI) (si_held _ _ _ _ _ SI)). }
    split; [exact E1|]. intros va. rewrite E2. apply Hw.
Qed.

End Manager.

(** ** Examples on the buddy allocator *)

Definition pool_lo : Z := 8388608.

Lemma pool_low : order_size (BUDDY_MAX_ORDER - 1) < 8388608.
Proof. vm_compute. done. Qed.

Lemma pool_high : 8404992 <= 2 ^ 56.
Proof. lia. Qed.

#[local] Instance pool_laws : FrameLaws BuddyAllocator :=
  buddy_laws 8388608 8404992 pool_low pool_high.

(** Booting on a pool of four pages. *)
Definition pool_boot : outcome (AddressSpaceManager * heap * BuddyAllocator) :=
  AddressSpaceManager_new ex_heap ex_buddy.

Definition booted (r : outcome (AddressSpaceManager * heap * BuddyAllocator)) : bool :=
  match r with Ret _ => true | Panic => false end.

Lemma pool_booted : booted pool_boot = true.
Proof. vm_compute. reflexivity. Qed.

Lemma pool_minit : exists s, minit [] s.
Proof.
  pose proof pool_booted as Hb. destruct pool_boot as [[[m h] a]|] eqn:E; [|done].
  exists (mkMsys h a m []), ex_heap, ex_buddy. split; [|split; [exact E|reflexivity]].
  exists ex_lists, [], []. split; [exact ex_rep|constructor].
Qed.


Lemma AddressSpaceManager_activate_witness :
  exists s, minit [] s /\ mrun s [] s /\
    match AddressSpaceManager_activate (ms_mgr s) IdKernel with
    | Err _ => False
    | Ok v => SatpValue_mode v = SatpMode_SV39
    end.
Proof.
  destruct pool_minit as [s H0]. exists s. split; [exact H0|]. split; [constructor|].
  destruct (AddressSpaceManager_activate_ok [] s [] s IdKernel H0 (mrun_nil s)) as (abs & _ & Ha).
  destruct (AddressSpaceManager_activate (ms_mgr s) IdKernel) as [v|e].
  - exact (proj1 Ha).
  - destruct Ha as (_ & tid & Hi & _). discriminate.
Defined.

(** Booting on a pool of eight pages, mapping it onto itself and cloning the
    kernel's space: the leaf entries of the second page in the kernel's space
    and in the clone. *)
Definition kernel_clone_leaves : outcome (option Z * option Z) :=
  '(m, h, a) ← AddressSpaceManager_new (zero_heap 8388608 8421376)
                 (mkBuddy [0; 0; 0; 8388608; 0; 0; 0; 0; 0; 0; 0]);
  '(_, h, a, m) ← AddressSpaceManager_identity_map h a m 8388608 8421376;
  '(_, h, a, m) ← AddressSpaceManager_clone h a m IdKernel 1;
  match om_get 1 (am_user m) with
  | Some c => mret (walk h (ph_ptr (as_root (am_kernel m))) 8392704,
                    walk h (ph_ptr (as_root c)) 8392704)
  | None => Panic
  end.

(** Cloning the kernel's space does not keep its pages: the identity
    mapping also maps the pages that hold its own tables, and [try_clone]
    redirects those leaf entries to the copies of the tables. Here the page at
    0x801000 is mapped onto itself in the kernel's space and onto 0x804000 in
    the clone. *)
Theorem kernel_clone_redirects : exists e e',
  kernel_clone_leaves = Ret (Some e, Some e') /\
  entry_phys_addr e = 0x801000 /\ entry_phys_addr e' = 0x804000.
Proof. exists 2098191, 2101263. vm_compute. done. Qed.
