(* ===== verification/MemoryMap.v ===== *)
(** * MemoryMap: anonymous user mappings ([src/mm/memory_map.rs])

    [mmap], [munmap] and [mremap] on a task's table of mappings
    ([MemorySet] of [src/task.rs]), its page table and the frames behind it.
    Memory is read and written a 64-bit word at a time; a page is 512 words. *)

From stdpp Require Import gmap.
From S2P Require Import Prelude OrdMap Buddy FrameAlloc BitFields Abi PageTable SpaceClone SpaceManager.

(** ** Constants *)

Definition USIZE_MAX : Z := 2 ^ 64 - 1.
Definition USER_STACK_LOWER_BOUND : Z := 0x100000000 - 8 * PAGE_SIZE.
Definition LOW_HALF_END : Z := 0x0000004000000000.
Definition HIGH_HALF_START : Z := 0xffffffc000000000.
Definition PROT_MASK : Z := Z.lor (Z.lor MmapProt_READ MmapProt_WRITE) MmapProt_EXEC.

(** [flags & bit != 0]. *)
Definition has (flags bit : Z) : bool := negb (Z.land flags bit =? 0).

Definition is_multiple_of (x n : Z) : bool := x mod n =? 0.

(** ** The mappings of a task ([src/task.rs]) *)

Record UserMapping : Type := mkMapping {
  um_va : Z;
  um_frames : list Frame;
  um_flags : Z
}.

Record MemorySet : Type := mkMemorySet {
  ms_mappings : list UserMapping;
  ms_root : Z
}.

Definition with_mappings (ms : MemorySet) (l : list UserMapping) : MemorySet :=
  mkMemorySet l (ms_root ms).

(** ** Queries of the table of mappings *)

(** [addr & !(PAGE_SIZE - 1)]. *)
Definition align_down (addr : Z) : Z := Z.land addr (wnot 64 (PAGE_SIZE - 1)).

Definition align_up (addr : Z) : outcome Z :=
  s ← usize_add addr PAGE_SIZE;
  s ← usize_sub s 1;
  mret (align_down s).

Definition mem_errno (err : MemError) : Z :=
  match err with
  | OutOfMemory => ENOMEM
  | _ => EINVAL
  end.

Fixpoint sum_sizes (acc : Z) (frames : list Frame) : outcome Z :=
  match frames with
  | [] => mret acc
  | f :: frames =>
      s ← align_up (fr_size f);
      acc ← usize_add acc s;
      sum_sizes acc frames
  end.

Definition mapping_range (m : UserMapping) : outcome (Z * Z) :=
  let start := align_down (um_va m) in
  size ← sum_sizes 0 (um_frames m);
  end_ ← usize_add start size;
  mret (start, end_).

Definition overlaps (m : UserMapping) (start end_ : Z) : outcome bool :=
  '(s, e) ← mapping_range m;
  mret ((s <? end_) && (start <? e)).

Fixpoint overlapping_from (i : nat) (l : list UserMapping) (start end_ : Z) : outcome (list nat) :=
  match l with
  | [] => mret []
  | m :: l =>
      o ← overlaps m start end_;
      r ← overlapping_from (S i) l start end_;
      mret (if o : bool then i :: r else r)
  end.

Definition overlapping_indices (ms : MemorySet) (start end_ : Z) : outcome (list nat) :=
  overlapping_from 0 (ms_mappings ms) start end_.

(** [Iterator::any]. *)
Fixpoint any_overlaps (l : list UserMapping) (start end_ : Z) : outcome bool :=
  match l with
  | [] => mret false
  | m :: l =>
      o ← overlaps m start end_;
      if o : bool then mret true else any_overlaps l start end_
  end.

Definition range_is_free (ms : MemorySet) (start end_ : Z) : outcome bool :=
  o ← any_overlaps (ms_mappings ms) start end_; mret (negb o).

Fixpoint phys_at_offset (frames : list Frame) (remaining : Z) : outcome Z :=
  match frames with
  | [] => Panic
  | f :: frames =>
      if remaining <? fr_size f then usize_add (fr_start f) remaining
      else
        r ← usize_sub remaining (fr_size f);
        phys_at_offset frames r
  end.

Fixpoint mappings_phys (l : list UserMapping) (va : Z) : outcome (option Z) :=
  match l with
  | [] => mret None
  | m :: l =>
      '(s, e) ← mapping_range m;
      if (s <=? va) && (va <? e) then p ← phys_at_offset (um_frames m) (va - s); mret (Some p)
      else mappings_phys l va
  end.

Definition page_phys (ms : MemorySet) (va : Z) : outcome (option Z) :=
  mappings_phys (ms_mappings ms) va.

(** The pages from [va] on, [n] of them. *)
Fixpoint pages_mapped (n : nat) (ms : MemorySet) (va : Z) : outcome bool :=
  match n with
  | O => mret true
  | S n =>
      r ← page_phys ms va;
      match r with
      | None => mret false
      | Some _ => pages_mapped n ms (va + PAGE_SIZE)
      end
  end.

Definition range_fully_mapped (ms : MemorySet) (start end_ : Z) : outcome bool :=
  pages_mapped (page_steps start end_) ms start.

Fixpoint find_flags (l : list UserMapping) (va va1 : Z) : outcome (option Z) :=
  match l with
  | [] => mret None
  | m :: l =>
      o ← overlaps m va va1;
      if o : bool then mret (Some (um_flags m)) else find_flags l va va1
  end.

Definition flags_of_first (ms : MemorySet) (va : Z) : outcome (option Z) :=
  va1 ← usize_add va 1;
  find_flags (ms_mappings ms) va va1.

Fixpoint mapping_ranges (l : list UserMapping) : outcome (list (Z * Z)) :=
  match l with
  | [] => mret []
  | m :: l => r ← mapping_range m; rs ← mapping_ranges l; mret (r :: rs)
  end.

(** [sort_unstable_by_key(|(s, _)| *s)]. *)
Fixpoint insert_range (r : Z * Z) (l : list (Z * Z)) : list (Z * Z) :=
  match l with
  | [] => [r]
  | q :: l => if fst r <=? fst q then r :: q :: l else q :: insert_range r l
  end.

Fixpoint sort_ranges (l : list (Z * Z)) : list (Z * Z) :=
  match l with
  | [] => []
  | r :: l => insert_range r (sort_ranges l)
  end.

Fixpoint free_below (top : Z) (ranges : list (Z * Z)) (length : Z) : option Z :=
  match ranges with
  | [] => if length <=? top then Some (top - length) else None
  | (s, e) :: ranges =>
      if (e <? top) && (length <=? top - e) then Some (top - length)
      else free_below s ranges length
  end.

Definition find_free_region (ms : MemorySet) (length : Z) : outcome (option Z) :=
  ranges ← mapping_ranges (ms_mappings ms);
  let ranges := base.filter (fun r : Z * Z => r.2 <= USER_STACK_LOWER_BOUND) ranges in
  mret (free_below USER_STACK_LOWER_BOUND (reverse (sort_ranges ranges)) length).

Definition is_canonical_user_range (start end_ : Z) : bool :=
  (end_ <=? LOW_HALF_END) || (HIGH_HALF_START <=? start).

Definition prot_to_page_flags (prot : Z) : Z :=
  let flags := PageTableEntryFlags_new in
  let flags := PageTableEntryFlags_set_u flags true in
  let flags := PageTableEntryFlags_set_a flags true in
  let flags := PageTableEntryFlags_set_d flags true in
  let flags := if has prot PROT_MASK then PageTableEntryFlags_set_r flags true else flags in
  let flags := if has prot MmapProt_WRITE then PageTableEntryFlags_set_w flags true else flags in
  if has prot MmapProt_EXEC then PageTableEntryFlags_set_x flags true else flags.

(** [flags.r() || flags.w() || flags.x()]. *)
Definition flags_leaf (flags : Z) : bool :=
  PageTableEntryFlags_r flags || PageTableEntryFlags_w flags || PageTableEntryFlags_x flags.

(** ** Operations *)

Section Ops.
Context {A : Type} {FS : FrameSource A}.

(** The memory, the frame allocator and [ADDRESS_SPACE_MANAGER]. *)
Record world : Type := mkW {
  w_heap : heap;
  w_alloc : A;
  w_mgr : AddressSpaceManager
}.

Definition w_user_map (w : world) (tid va pa flags : Z) : outcome (result MemError unit * world) :=
  '(r, h, a, m) ← AddressSpaceManager_user_map (w_heap w) (w_alloc w) (w_mgr w) tid va pa flags false;
  mret (r, mkW h a m).

(** [let _ = manager.user_unmap(..)]. *)
Definition w_user_unmap (w : world) (tid va : Z) : outcome world :=
  '(_, h) ← AddressSpaceManager_user_unmap (w_heap w) (w_mgr w) tid va false;
  mret (mkW h (w_alloc w) (w_mgr w)).

Definition w_alloc_frames (w : world) (size : Z) : outcome (option (list Frame) * world) :=
  '(r, h, a) ← take_frames (w_heap w) (w_alloc w) size;
  mret (r, mkW h a (w_mgr w)).

Definition w_drop_frames (w : world) (frames : list Frame) : outcome world :=
  '(h, a) ← free_frames (w_heap w) (w_alloc w) frames;
  mret (mkW h a (w_mgr w)).

(** Unmaps the [n] pages from [va] on. *)
Fixpoint unmap_pages (n : nat) (w : world) (tid va : Z) : outcome world :=
  match n with
  | O => mret w
  | S n =>
      w ← w_user_unmap w tid va;
      unmap_pages n w tid (va + PAGE_SIZE)
  end.

(** The pages of one segment: [n] of them from [step] on. [Some (err, step)] when
    the mapping of the page at [step] failed. *)
Fixpoint map_segment (n : nat) (w : world) (tid base start step flags : Z)
    : outcome (option (MemError * Z) * world) :=
  match n with
  | O => mret (None, w)
  | S n =>
      va ← usize_add base step;
      pa ← usize_add start step;
      '(r, w) ← w_user_map w tid va pa flags;
      match r with
      | Err err => mret (Some (err, step), w)
      | Ok _ => map_segment n w tid base start (step + PAGE_SIZE) flags
      end
  end.

Fixpoint map_segments (w : world) (tid addr mapped : Z) (frames : list Frame) (flags : Z)
    : outcome (result Z unit * world) :=
  match frames with
  | [] => mret (Ok tt, w)
  | f :: frames =>
      base ← usize_add addr mapped;
      '(r, w) ← map_segment (page_steps 0 (fr_size f)) w tid base (fr_start f) 0 flags;
      match r with
      | Some (err, step) =>
          w ← unmap_pages (page_steps 0 (mapped + step)) w tid addr;
          mret (Err (mem_errno err), w)
      | None =>
          mapped ← usize_add mapped (fr_size f);
          map_segments w tid addr mapped frames flags
      end
  end.

(** On an error the frames are dropped. *)
Definition map_frame (w : world) (ms : MemorySet) (tid addr : Z) (frames : list Frame) (flags : Z)
    : outcome (result Z unit * world * MemorySet) :=
  '(r, w) ← if flags_leaf flags then map_segments w tid addr 0 frames flags
            else mret (Ok tt, w);
  match r with
  | Err e => w ← w_drop_frames w frames; mret (Err e, w, ms)
  | Ok _ =>
      mret (Ok tt, w, with_mappings ms (ms_mappings ms ++ [mkMapping addr frames flags]))
  end.

Definition zero_frame (h : heap) (f : Frame) : outcome heap :=
  fill_entries (Z.to_nat (fr_size f / 8)) h (fr_start f) 0 0.

Fixpoint zero_frames (h : heap) (frames : list Frame) : outcome heap :=
  match frames with
  | [] => mret h
  | f :: frames => h ← zero_frame h f; zero_frames h frames
  end.

(** [ptr::copy(src, dst, PAGE_SIZE)]. *)
Definition copy_page (h : heap) (src dst : Z) : outcome heap :=
  copy_entries PTE_NUMBER h src dst 0.

(** Copies the [n] pages from [va + off] on behind the mappings of [ms] into
    [frames]; [false] when a page is not mapped. *)
Fixpoint copy_mapped (n : nat) (h : heap) (ms : MemorySet) (va off : Z) (frames : list Frame)
    : outcome (bool * heap) :=
  match n with
  | O => mret (true, h)
  | S n =>
      at_ ← usize_add va off;
      src ← page_phys ms at_;
      match src with
      | None => mret (false, h)
      | Some src =>
          dst ← phys_at_offset frames off;
          h ← copy_page h src dst;
          copy_mapped n h ms va (off + PAGE_SIZE) frames
      end
  end.

Record Keep : Type := mkKeep { k_va : Z; k_size : Z; k_flags : Z }.

(** What stays of one mapping: a part on the left and one on the right. *)
Definition keeps_of (m : UserMapping) (start end_ : Z) : outcome (list Keep) :=
  o ← overlaps m start end_;
  if o : bool then
    '(s, e) ← mapping_range m;
    let o_start := Z.max s start in
    let o_end := Z.min e end_ in
    mret ((if s <? o_start then [mkKeep s (o_start - s) (um_flags m)] else []) ++
          (if o_end <? e then [mkKeep o_end (e - o_end) (um_flags m)] else []))
  else mret [].

Fixpoint collect_keeps (l : list UserMapping) (start end_ : Z) : outcome (list Keep) :=
  match l with
  | [] => mret []
  | m :: l =>
      k ← keeps_of m start end_;
      ks ← collect_keeps l start end_;
      mret (k ++ ks)
  end.

Fixpoint drop_buffers (w : world) (buffers : list (list Frame * Keep)) : outcome world :=
  match buffers with
  | [] => mret w
  | (frames, _) :: buffers => w ← w_drop_frames w frames; drop_buffers w buffers
  end.

(** Step 2: frames and contents for the parts that stay. *)
Fixpoint back_up (w : world) (ms : MemorySet) (keeps : list Keep) (buffers : list (list Frame * Keep))
    : outcome (result Z (list (list Frame * Keep)) * world) :=
  match keeps with
  | [] => mret (Ok buffers, w)
  | k :: keeps =>
      '(r, w) ← w_alloc_frames w (k_size k);
      match r with
      | None => w ← drop_buffers w buffers; mret (Err ENOMEM, w)
      | Some frames =>
          '(b, h) ← copy_mapped (page_steps 0 (k_size k)) (w_heap w) ms (k_va k) 0 frames;
          let w := mkW h (w_alloc w) (w_mgr w) in
          if b : bool then back_up w ms keeps (buffers ++ [(frames, k)])
          else
            w ← w_drop_frames w frames;
            w ← drop_buffers w buffers;
            mret (Err EFAULT, w)
      end
  end.

(** Step 3: takes down the mappings at the indices. *)
Fixpoint tear_down (w : world) (ms : MemorySet) (tid : Z) (indices : list nat)
    : outcome (world * MemorySet) :=
  match indices with
  | [] => mret (w, ms)
  | idx :: indices =>
      mapping ← expect (ms_mappings ms !! idx);
      let ms := with_mappings ms (delete idx (ms_mappings ms)) in
      '(s, e) ← mapping_range mapping;
      w ← unmap_pages (page_steps s e) w tid s;
      w ← w_drop_frames w (um_frames mapping);
      tear_down w ms tid indices
  end.

(** Step 4: maps the parts that stay; the rest is dropped at the first error. *)
Fixpoint put_back (w : world) (ms : MemorySet) (tid : Z) (buffers : list (list Frame * Keep))
    : outcome (result Z unit * world * MemorySet) :=
  match buffers with
  | [] => mret (Ok tt, w, ms)
  | (frames, k) :: buffers =>
      '(r, w, ms) ← map_frame w ms tid (k_va k) frames (k_flags k);
      match r with
      | Err e => w ← drop_buffers w buffers; mret (Err e, w, ms)
      | Ok _ => put_back w ms tid buffers
      end
  end.

Definition unmap_range (w : world) (ms : MemorySet) (tid start end_ : Z)
    : outcome (result Z unit * world * MemorySet) :=
  keeps ← collect_keeps (ms_mappings ms) start end_;
  '(r, w) ← back_up w ms keeps [];
  match r with
  | Err e => mret (Err e, w, ms)
  | Ok buffers =>
      indices ← overlapping_indices ms start end_;
      '(w, ms) ← tear_down w ms tid (reverse indices);
      put_back w ms tid buffers
  end.

Definition rebuild (w : world) (ms : MemorySet) (tid old_start old_end dest new_size flags : Z)
    : outcome (result Z unit * world * MemorySet) :=
  old_size ← usize_sub old_end old_start;
  let copy_len := Z.min old_size new_size in
  '(r, w) ← w_alloc_frames w new_size;
  match r with
  | None => mret (Err ENOMEM, w, ms)
  | Some frames =>
      h ← zero_frames (w_heap w) frames;
      '(b, h) ← copy_mapped (page_steps 0 copy_len) h ms old_start 0 frames;
      let w := mkW h (w_alloc w) (w_mgr w) in
      if b : bool then
        '(r, w, ms) ← unmap_range w ms tid old_start old_end;
        match r with
        | Err e => w ← w_drop_frames w frames; mret (Err e, w, ms)
        | Ok _ => map_frame w ms tid dest frames flags
        end
      else w ← w_drop_frames w frames; mret (Err EFAULT, w, ms)
  end.

(** The address of a new mapping. *)
Definition mmap_target (ms : MemorySet) (addr length : Z) (fixed : bool) : outcome (result Z Z) :=
  if fixed then
    mret (if is_multiple_of addr PAGE_SIZE then Ok addr else Err EINVAL)
  else
    hint ← (if negb (addr =? 0) && is_multiple_of addr PAGE_SIZE then
              match checked_add addr length with
              | None => mret false
              | Some hint_end => range_is_free ms addr hint_end
              end
            else mret false);
    if hint : bool then mret (Ok addr)
    else r ← find_free_region ms length; mret (ok_or r ENOMEM).

(** Zeroed frames at the address. *)
Definition mmap_frames (w : world) (ms : MemorySet) (tid target length prot : Z)
    : outcome (result Z Z * world * MemorySet) :=
  '(r, w) ← w_alloc_frames w length;
  match r with
  | None => mret (Err ENOMEM, w, ms)
  | Some frames =>
      h ← zero_frames (w_heap w) frames;
      let w := mkW h (w_alloc w) (w_mgr w) in
      '(r, w, ms) ← map_frame w ms tid target frames (prot_to_page_flags prot);
      mret (match r with Ok _ => Ok target | Err e => Err e end, w, ms)
  end.

(** [mmap] once the task's memory set is found. *)
Definition mmap_in (w : world) (ms : MemorySet) (tid addr length prot : Z) (fixed noreplace : bool)
    : outcome (result Z Z * world * MemorySet) :=
  target ← mmap_target ms addr length fixed;
  match target with
  | Err e => mret (Err e, w, ms)
  | Ok target =>
      match checked_add target length with
      | None => mret (Err ENOMEM, w, ms)
      | Some end_ =>
          if negb (is_canonical_user_range target end_) then mret (Err ENOMEM, w, ms)
          else
            busy ← (if noreplace : bool then free ← range_is_free ms target end_; mret (negb free)
                    else mret false);
            if busy : bool then mret (Err EEXIST, w, ms)
            else
              '(r, w, ms) ← (if fixed && negb noreplace then unmap_range w ms tid target end_
                             else mret (Ok tt, w, ms));
              match r with
              | Err e => mret (Err e, w, ms)
              | Ok _ => mmap_frames w ms tid target length prot
              end
      end
  end.

(** [tasks.get_mut(&tid)]: an operation on the memory set of a task. *)
Definition on_task {T} (w : world) (tasks : list (Z * MemorySet)) (tid : Z)
    (f : MemorySet -> outcome (result Z T * world * MemorySet))
    : outcome (result Z T * world * list (Z * MemorySet)) :=
  match om_get tid tasks with
  | None => mret (Err ESRCH, w, tasks)
  | Some ms => '(r, w, ms) ← f ms; mret (r, w, om_modify (fun _ => ms) tid tasks)
  end.

Definition mmap (w : world) (tasks : list (Z * MemorySet)) (tid addr length prot flags fd offset : Z)
    : outcome (result Z Z * world * list (Z * MemorySet)) :=
  if negb (has flags MmapFlags_ANONYMOUS) then mret (Err ENOSYS, w, tasks)
  else if negb (fd =? -1) || negb (offset =? 0) then mret (Err EINVAL, w, tasks)
  else if has prot (wnot 64 PROT_MASK) then mret (Err EINVAL, w, tasks)
  else if (length =? 0) || (USIZE_MAX - PAGE_SIZE <=? length) then mret (Err EINVAL, w, tasks)
  else
    length ← align_up length;
    let noreplace := has flags MmapFlags_FIXED_NOREPLACE in
    let fixed := has flags (Z.lor MmapFlags_FIXED MmapFlags_FIXED_NOREPLACE) in
    on_task w tasks tid (fun ms => mmap_in w ms tid addr length prot fixed noreplace).

Definition munmap (w : world) (tasks : list (Z * MemorySet)) (tid addr length : Z)
    : outcome (result Z unit * world * list (Z * MemorySet)) :=
  if negb (is_multiple_of addr PAGE_SIZE) || (length =? 0) then mret (Err EINVAL, w, tasks)
  else
    match checked_add addr length with
    | None => mret (Err EINVAL, w, tasks)
    | Some end_ => on_task w tasks tid (fun ms => unmap_range w ms tid addr end_)
    end.

Definition move_to (w : world) (ms : MemorySet) (tid old_start old_end dest new_size : Z) (replace : bool)
    : outcome (result Z Z * world * MemorySet) :=
  match checked_add dest new_size with
  | None => mret (Err ENOMEM, w, ms)
  | Some dest_end =>
      if negb (is_canonical_user_range dest dest_end) then mret (Err ENOMEM, w, ms)
      else if (dest <? old_end) && (old_start <? dest_end) then mret (Err ENOMEM, w, ms)
      else
        '(r, w, ms) ←
          (if replace : bool then unmap_range w ms tid dest dest_end
           else
             free ← range_is_free ms dest dest_end;
             mret (if free : bool then Ok tt else Err ENOMEM, w, ms));
        match r with
        | Err e => mret (Err e, w, ms)
        | Ok _ =>
            fl ← flags_of_first ms old_start;
            match fl with
            | None => mret (Err EFAULT, w, ms)
            | Some prot_flags =>
                '(r, w, ms) ← rebuild w ms tid old_start old_end dest new_size prot_flags;
                mret (match r with Ok _ => Ok dest | Err e => Err e end, w, ms)
            end
        end
  end.

(** Rebuilds the mapping at its own address. *)
Definition rebuild_in_place (w : world) (ms : MemorySet) (tid old_address old_end new_size : Z)
    : outcome (result Z Z * world * MemorySet) :=
  fl ← flags_of_first ms old_address;
  match fl with
  | None => mret (Err EFAULT, w, ms)
  | Some prot_flags =>
      '(r, w, ms) ← rebuild w ms tid old_address old_end old_address new_size prot_flags;
      mret (match r with Ok _ => Ok old_address | Err e => Err e end, w, ms)
  end.

Definition mremap_in (w : world) (ms : MemorySet)
    (tid old_address old_size old_end new_size flags new_address : Z) (fixed : bool)
    : outcome (result Z Z * world * MemorySet) :=
  if new_size =? old_size then
    if fixed && negb (new_address =? old_address)
    then move_to w ms tid old_address old_end new_address old_size true
    else mret (Ok old_address, w, ms)
  else
    full ← range_fully_mapped ms old_address old_end;
    if negb full then mret (Err EFAULT, w, ms)
    else if new_size <? old_size then rebuild_in_place w ms tid old_address old_end new_size
    else
      growth ← usize_sub new_size old_size;
      grow_in_place ←
        match checked_add old_end growth with
        | None => mret false
        | Some end_ =>
            free ← range_is_free ms old_end end_;
            mret (free && is_canonical_user_range old_address end_)
        end;
      if grow_in_place : bool then rebuild_in_place w ms tid old_address old_end new_size
      else if fixed then move_to w ms tid old_address old_end new_address new_size true
      else if has flags MremapFlags_MAYMOVE then
        dest ← find_free_region ms new_size;
        match dest with
        | None => mret (Err ENOMEM, w, ms)
        | Some dest => move_to w ms tid old_address old_end dest new_size false
        end
      else mret (Err ENOMEM, w, ms).

Definition mremap (w : world) (tasks : list (Z * MemorySet))
    (tid old_address old_size new_size flags new_address : Z)
    : outcome (result Z Z * world * list (Z * MemorySet)) :=
  if negb (is_multiple_of old_address PAGE_SIZE) || (old_size =? 0) || (new_size =? 0)
     || negb (is_multiple_of old_size PAGE_SIZE) || negb (is_multiple_of new_size PAGE_SIZE)
     || (USIZE_MAX - PAGE_SIZE <=? new_size)
  then mret (Err EINVAL, w, tasks)
  else
    match checked_add old_address old_size with
    | None => mret (Err EINVAL, w, tasks)
    | Some old_end =>
        let fixed := has flags MremapFlags_FIXED in
        if fixed && negb (is_multiple_of new_address PAGE_SIZE) then mret (Err EINVAL, w, tasks)
        else
          on_task w tasks tid (fun ms =>
            mremap_in w ms tid old_address old_size old_end new_size flags new_address fixed)
    end.

End Ops.

(** ** The table of mappings as intervals *)

(** [[a, b)] meets no interval of the list. *)
Definition clear_of (rs : list (Z * Z)) (a b : Z) : Prop :=
  Forall (fun r : Z * Z => b <= r.1 \/ r.2 <= a) rs.

Definition disjoint_ranges (rs : list (Z * Z)) : Prop :=
  ForallOrdPairs (fun r q : Z * Z => r.2 <= q.1 \/ q.2 <= r.1) rs.

#[export] Instance clear_of_dec rs a b : Decision (clear_of rs a b).
Proof. apply _. Defined.

Lemma any_overlaps_ranges l rs a b : mapping_ranges l = Ret rs ->
  any_overlaps l a b = Ret (negb (bool_decide (clear_of rs a b))).
Proof.
  revert rs. induction l as [|m l IH]; intros rs H; simpl in *.
  { injection H as <-. rewrite bool_decide_true; [done|]. by apply Forall_nil_2. }
  apply outcome_bind_inv in H as ([s e] & Hm & H). apply outcome_bind_inv in H as (rs' & Hr & H).
  injection H as <-. unfold overlaps. rewrite Hm. simpl. unfold clear_of.
  destruct (Z.ltb_spec s b), (Z.ltb_spec a e); simpl;
    [rewrite bool_decide_false; [done|]; rewrite Forall_cons; simpl; lia| | |];
    rewrite (IH _ Hr); do 2 f_equal; apply bool_decide_ext; rewrite Forall_cons; simpl;
    unfold clear_of; intuition lia.
Qed.

Lemma range_is_free_ranges ms rs a b : mapping_ranges (ms_mappings ms) = Ret rs ->
  range_is_free ms a b = Ret (bool_decide (clear_of rs a b)).
Proof.
  intros H. unfold range_is_free. rewrite (any_overlaps_ranges _ _ _ _ H). simpl.
  by rewrite negb_involutive.
Qed.

(** Ascending disjoint intervals from [lo] on, and descending ones below [top]. *)
Fixpoint asc (lo : Z) (rs : list (Z * Z)) : Prop :=
  match rs with
  | [] => True
  | (s, e) :: rs => lo <= s /\ s < e /\ asc e rs
  end.

Fixpoint desc (top : Z) (rs : list (Z * Z)) : Prop :=
  match rs with
  | [] => True
  | (s, e) :: rs => e <= top /\ s < e /\ desc s rs
  end.

Lemma asc_weaken lo lo' rs : asc lo rs -> lo' <= lo -> asc lo' rs.
Proof. destruct rs as [|[s e] rs]; simpl; intuition lia. Qed.

Lemma asc_insert lo s e rs : asc lo rs -> lo <= s -> s < e -> clear_of rs s e ->
  asc lo (insert_range (s, e) rs).
Proof.
  revert lo. induction rs as [|[s' e'] rs IH]; intros lo Ha Hlo Hse Hc; simpl; [done|].
  apply Forall_cons in Hc as [Hd Hc]. simpl in *. destruct Ha as (? & ? & Ha).
  destruct (Z.leb_spec s s'); simpl.
  - split; [done|]. split; [done|]. split; [lia|done].
  - split; [done|]. split; [done|]. apply IH; [done|lia|done..].
Qed.

Lemma insert_range_perm r rs : insert_range r rs ≡ₚ r :: rs.
Proof.
  induction rs as [|q rs IH]; simpl; [done|]. destruct (fst r <=? fst q); [done|].
  rewrite IH. apply perm_swap.
Qed.

Lemma sort_ranges_perm rs : sort_ranges rs ≡ₚ rs.
Proof. induction rs as [|r rs IH]; simpl; [done|]. by rewrite insert_range_perm, IH. Qed.

Lemma sort_ranges_asc rs : Forall (fun r : Z * Z => 0 <= r.1 < r.2) rs -> disjoint_ranges rs ->
  asc 0 (sort_ranges rs).
Proof.
  induction rs as [|[s e] rs IH]; intros Hb Hd; simpl; [done|].
  apply Forall_cons in Hb as [Hse Hb]. simpl in *. inversion Hd as [|? ? Hd1 Hd2]; subst.
  apply asc_insert; [by apply IH|lia|lia|]. unfold clear_of. rewrite sort_ranges_perm.
  exact Hd1.
Qed.

Lemma asc_starts lo rs : asc lo rs -> Forall (fun r : Z * Z => lo <= r.1 /\ lo < r.2) rs.
Proof.
  revert lo. induction rs as [|[s e] rs IH]; intros lo Ha; [by apply Forall_nil_2|].
  destruct Ha as (? & ? & Ha). constructor; [simpl; lia|].
  apply (Forall_impl _ _ _ (IH _ Ha)). intros r; simpl. lia.
Qed.

Lemma desc_snoc top rs s e : desc top rs -> s < e -> e <= top ->
  Forall (fun r : Z * Z => e <= r.1) rs -> desc top (rs ++ [(s, e)]).
Proof.
  revert top. induction rs as [|[s' e'] rs IH]; intros top Hd Hse He Hf; simpl; [done|].
  apply Forall_cons in Hf as [H1 Hf]. simpl in H1. destruct Hd as (? & ? & Hd).
  split; [done|]. split; [done|]. by apply IH.
Qed.

Lemma asc_reverse lo rs top : asc lo rs -> Forall (fun r : Z * Z => r.2 <= top) rs ->
  desc top (reverse rs).
Proof.
  revert lo. induction rs as [|[s e] rs IH]; intros lo Ha Hf; [done|].
  destruct Ha as (_ & Hse & Ha). apply Forall_cons in Hf as [He Hf]. rewrite reverse_cons.
  apply desc_snoc; [by apply (IH e)|done|done|]. apply Forall_reverse.
  apply (Forall_impl _ _ _ (asc_starts _ _ Ha)). intros r [? _]. done.
Qed.

Lemma free_below_ok rs top length : desc top rs -> 0 < length ->
  Forall (fun r : Z * Z => 0 <= r.1) rs ->
  match free_below top rs length with
  | Some t => 0 <= t /\ t + length <= top /\ clear_of rs t (t + length) /\
      forall t', t < t' -> t' + length <= top -> ~ clear_of rs t' (t' + length)
  | None => forall t', 0 <= t' -> t' + length <= top -> ~ clear_of rs t' (t' + length)
  end.
Proof.
  revert top. induction rs as [|[s e] rs IH]; intros top Hd Hl Hf; simpl.
  { destruct (Z.leb_spec length top); [|lia]. split; [lia|]. split; [lia|].
    split; [apply Forall_nil_2|lia]. }
  apply Forall_cons in Hf as [Hs Hf]. simpl in Hs. destruct Hd as (He & Hse & Hd).
  assert (Hin : Forall (fun r : Z * Z => r.2 <= s) rs).
  { clear -Hd. revert s Hd. induction rs as [|[s' e'] rs IH]; intros s Hd; [by apply Forall_nil_2|].
    destruct Hd as (? & ? & Hd). constructor; [done|].
    apply (Forall_impl _ _ _ (IH _ Hd)). intros r; simpl. lia. }
  destruct ((e <? top) && (length <=? top - e)) eqn:Hgap.
  - apply andb_true_iff in Hgap as [?%Z.ltb_lt ?%Z.leb_le]. split; [lia|]. split; [lia|].
    split; [|lia]. apply Forall_cons. simpl. split; [lia|].
    apply (Forall_impl _ _ _ Hin). intros r Hr. simpl. lia.
  - assert (Hno : forall t', s <= t' + length -> t' + length <= top -> s < t' + length ->
      ~ clear_of ((s, e) :: rs) t' (t' + length)).
    { intros t' _ H2 H3 Hc. apply Forall_cons in Hc as [[?|?] _]; simpl in *; [lia|].
      apply andb_false_iff in Hgap as [?%Z.ltb_ge|?%Z.leb_gt]; lia. }
    specialize (IH s Hd Hl Hf). unfold clear_of in *. destruct (free_below s rs length) as [t|].
    + destruct IH as (H0 & H1 & H2 & H3). split; [done|]. split; [lia|]. split.
      { apply Forall_cons. simpl. split; [lia|done]. }
      intros t' Ht Hb. destruct (Z_le_gt_dec (t' + length) s); [|apply Hno; lia].
      rewrite Forall_cons. intros [_ Hc]. by apply (H3 t').
    + intros t' Ht Hb. destruct (Z_le_gt_dec (t' + length) s); [|apply Hno; lia].
      rewrite Forall_cons. intros [_ Hc]. by apply (IH t').
Qed.

(** The mappings do not overlap, and none lies across the lower end of the
    stack area. *)
Record table_ok (rs : list (Z * Z)) : Prop := {
  tab_bounds : Forall (fun r : Z * Z => 0 <= r.1 < r.2) rs;
  tab_disjoint : disjoint_ranges rs;
  tab_stack : Forall (fun r : Z * Z =>
    r.2 <= USER_STACK_LOWER_BOUND \/ USER_STACK_LOWER_BOUND <= r.1) rs
}.

Lemma disjoint_filter (P : Z * Z -> Prop) `{!forall x, Decision (P x)} rs :
  disjoint_ranges rs -> disjoint_ranges (base.filter P rs).
Proof.
  induction 1 as [|r rs Hr _ IH]; [constructor|]. rewrite filter_cons. destruct (decide _); [|done].
  constructor; [|done]. rewrite List.Forall_forall in *. intros q Hq.
  apply list_elem_of_In, list_elem_of_filter in Hq as [_ Hq]. apply Hr. by apply list_elem_of_In.
Qed.

Lemma clear_of_below rs a b : table_ok rs -> b <= USER_STACK_LOWER_BOUND ->
  clear_of rs a b <-> clear_of (base.filter (fun r : Z * Z => r.2 <= USER_STACK_LOWER_BOUND) rs) a b.
Proof.
  intros [_ _ Hs] Hb. unfold clear_of. rewrite !Forall_forall. split; intros H r Hr.
  - apply list_elem_of_filter in Hr as [_ Hr]. by apply H.
  - rewrite Forall_forall in Hs. destruct (Hs r Hr) as [?|?]; [|left; lia].
    apply H. by apply list_elem_of_filter.
Qed.

(** A free region is found whenever there is one below the stack, and it is the one with
    the highest address: [find_free_region] returns an address from which
    [length] bytes below the stack area are free, no higher address has that,
    and it returns nothing only when no address has it. *)
Theorem find_free_region_ok ms rs length :
  mapping_ranges (ms_mappings ms) = Ret rs -> table_ok rs -> 0 < length ->
  exists r, find_free_region ms length = Ret r /\
    match r with
    | Some t => 0 <= t /\ t + length <= USER_STACK_LOWER_BOUND /\
        range_is_free ms t (t + length) = Ret true /\
        forall t', t < t' -> t' + length <= USER_STACK_LOWER_BOUND ->
          range_is_free ms t' (t' + length) = Ret false
    | None => forall t', 0 <= t' -> t' + length <= USER_STACK_LOWER_BOUND ->
        range_is_free ms t' (t' + length) = Ret false
    end.
Proof.
  intros Hr Hok Hl. eexists. split; [unfold find_free_region; by rewrite Hr|].
  set (fs := base.filter _ rs).
  assert (Hrev : forall a b, clear_of (reverse (sort_ranges fs)) a b <-> clear_of fs a b).
  { intros a b. unfold clear_of. by rewrite reverse_Permutation, sort_ranges_perm. }
  assert (Hfree : forall a b, b <= USER_STACK_LOWER_BOUND ->
    range_is_free ms a b = Ret (bool_decide (clear_of (reverse (sort_ranges fs)) a b))).
  { intros a b Hb. rewrite (range_is_free_ranges _ _ _ _ Hr). f_equal. apply bool_decide_ext.
    rewrite Hrev. by apply clear_of_below. }
  assert (Hsub : forall P : Z * Z -> Prop, Forall P rs -> Forall P fs).
  { intros P HP. rewrite Forall_forall in *. intros r [_ Hin]%list_elem_of_filter. by apply HP. }
  assert (Hb : Forall (fun r : Z * Z => r.2 <= USER_STACK_LOWER_BOUND) fs).
  { apply Forall_forall. by intros r [He _]%list_elem_of_filter. }
  destruct Hok as [Hbd Hdis _]. apply Hsub in Hbd.
  assert (H := free_below_ok (reverse (sort_ranges fs)) USER_STACK_LOWER_BOUND length).
  ospecialize (H _ Hl _).
  2: { rewrite reverse_Permutation, sort_ranges_perm. apply (Forall_impl _ _ _ Hbd). lia. }
  { apply (asc_reverse 0); [|by rewrite sort_ranges_perm].
    apply sort_ranges_asc; [done|]. by apply disjoint_filter. }
  destruct (free_below _ _ _) as [t|].
  - destruct H as (H0 & H1 & H2 & H3). split; [done|]. split; [done|].
    split; [rewrite Hfree by done; by rewrite bool_decide_true|].
    intros t' Ht Ht'. rewrite Hfree by done. rewrite bool_decide_false; [done|by apply H3].
  - intros t' Ht Ht'. rewrite Hfree by done. rewrite bool_decide_false; [done|by apply H].
Qed.
