(* ===== verification/MapTable.v ===== *)
(** * MapTable: addresses, runs of frames and tables of mappings

    The pure side of [MemoryMap]: page numbers and canonical addresses, the
    physical address at an offset into a run of frames, and what a table of
    mappings says about an address. The hardware looks at 27 bits of the page
    number, which tell canonical addresses apart. *)

From stdpp Require Import gmap.
From S2P Require Import Prelude Buddy FrameAlloc BitFields PageTable MemoryMap.

(** Case analysis on comparisons of addresses. *)
Ltac between :=
  repeat case_match; zify_bool;
  repeat match goal with
  | H : (_ && _) = false |- _ => apply andb_false_iff in H as [H|H]; zify_bool
  end; unfold PAGE_SIZE in *; try done; lia.

(** ** Canonical addresses *)

Definition canon (va : Z) : Prop := 0 <= va < LOW_HALF_END \/ HIGH_HALF_START <= va < 2 ^ 64.

(** All of [[a, b)] is canonical, in one half. *)
Definition canon_range (a b : Z) : Prop :=
  0 <= a /\ b <= 2 ^ 64 /\ (b <= LOW_HALF_END \/ HIGH_HALF_START <= a).

Lemma canon_in a b va : canon_range a b -> a <= va < b -> canon va.
Proof. unfold canon_range, canon, LOW_HALF_END, HIGH_HALF_START. lia. Qed.

Definition page (va : Z) : Z := va / PAGE_SIZE.

Lemma page_spec va : PAGE_SIZE * page va <= va < PAGE_SIZE * page va + PAGE_SIZE.
Proof.
  unfold page, PAGE_SIZE. pose proof (Z.div_mod va 4096 ltac:(lia)).
  pose proof (Z.mod_pos_bound va 4096 ltac:(lia)). lia.
Qed.

Lemma vpn_page va : 0 <= va ->
  page va mod 2 ^ 27 = VirtualAddr_vpn2 va * 2 ^ 18 + VirtualAddr_vpn1 va * 2 ^ 9 + VirtualAddr_vpn0 va.
Proof.
  intros Hva. unfold VirtualAddr_vpn2, VirtualAddr_vpn1, VirtualAddr_vpn0, page, PAGE_SIZE.
  rewrite !bits_get_div by lia. change (38 - 30 + 1) with 9. change (29 - 21 + 1) with 9.
  change (20 - 12 + 1) with 9. change (2 ^ 12) with 4096. set (p := va / 4096).
  replace (va / 2 ^ 30) with (p / 2 ^ 18) by (subst p; rewrite Z.div_div by lia; reflexivity).
  replace (va / 2 ^ 21) with (p / 2 ^ 9) by (subst p; rewrite Z.div_div by lia; reflexivity).
  replace (p / 2 ^ 18) with (p / 2 ^ 9 / 2 ^ 9) by (rewrite Z.div_div by lia; reflexivity).
  generalize p. clear. intros p.
  pose proof (Z.div_mod p (2 ^ 9) ltac:(lia)). pose proof (Z.div_mod (p / 2 ^ 9) (2 ^ 9) ltac:(lia)).
  pose proof (Z.div_mod (p / 2 ^ 9 / 2 ^ 9) (2 ^ 9) ltac:(lia)).
  pose proof (Z.mod_pos_bound p (2 ^ 9) ltac:(lia)).
  pose proof (Z.mod_pos_bound (p / 2 ^ 9) (2 ^ 9) ltac:(lia)).
  pose proof (Z.mod_pos_bound (p / 2 ^ 9 / 2 ^ 9) (2 ^ 9) ltac:(lia)).
  symmetry. apply (Z.mod_unique_pos _ _ (p / 2 ^ 9 / 2 ^ 9 / 2 ^ 9)); lia.
Qed.

Lemma canon_page va va' : canon va -> canon va' ->
  page va mod 2 ^ 27 = page va' mod 2 ^ 27 -> page va = page va'.
Proof.
  assert (H : forall va, canon va -> 0 <= page va < 2 ^ 26 \/ 2 ^ 52 - 2 ^ 26 <= page va < 2 ^ 52).
  { intros x Hx. pose proof (page_spec x).
    unfold canon, LOW_HALF_END, HIGH_HALF_START, PAGE_SIZE in *. lia. }
  intros H1%H H2%H E. assert (Hm : forall x, 0 <= x < 2 ^ 26 \/ 2 ^ 52 - 2 ^ 26 <= x < 2 ^ 52 ->
    x mod 2 ^ 27 = if x <? 2 ^ 26 then x else x - 2 ^ 52 + 2 ^ 27).
  { intros x Hx. symmetry. destruct (Z.ltb_spec x (2 ^ 26)).
    - apply (Z.mod_unique_pos _ _ 0); lia.
    - apply (Z.mod_unique_pos _ _ (2 ^ 25 - 1)); lia. }
  rewrite !Hm in E by done.
  destruct (Z.ltb_spec (page va) (2 ^ 26)), (Z.ltb_spec (page va') (2 ^ 26)); lia.
Qed.

Lemma canon_pos va : canon va -> 0 <= va.
Proof. unfold canon, HIGH_HALF_START. lia. Qed.

Lemma same_page_canon va va' : canon va -> canon va' ->
  same_page va va' = (page va =? page va').
Proof.
  intros H1 H2. unfold same_page. destruct (Z.eqb_spec (page va) (page va')) as [E|E].
  - assert (Hv := vpn_page va (canon_pos _ H1)). rewrite E, (vpn_page va') in Hv by (by apply canon_pos).
    pose proof (vpn_range va). pose proof (vpn_range va').
    rewrite !andb_true_iff, !Z.eqb_eq. lia.
  - apply not_true_is_false. rewrite !andb_true_iff, !Z.eqb_eq. intros [[Ea Eb] Ec]. apply E.
    apply canon_page; [done..|]. rewrite !vpn_page by (by apply canon_pos). by rewrite Ea, Eb, Ec.
Qed.

(** The first address of the page. *)
Definition page_start (va : Z) : Z := PAGE_SIZE * page va.

Definition aligned (x : Z) : Prop := x mod PAGE_SIZE = 0.

Lemma aligned_page x : aligned x -> x = PAGE_SIZE * page x.
Proof.
  unfold aligned, page, PAGE_SIZE. intros H. pose proof (Z.div_mod x 4096 ltac:(lia)). lia.
Qed.

Lemma aligned_mul k : aligned (PAGE_SIZE * k).
Proof. unfold aligned, PAGE_SIZE. rewrite Z.mul_comm. apply Z.mod_mul. lia. Qed.

Lemma aligned_iff x : aligned x <-> exists k, x = PAGE_SIZE * k.
Proof.
  split; [intros H; exists (page x); by apply aligned_page|]. intros [k ->]. apply aligned_mul.
Qed.

Lemma aligned_add x y : aligned x -> aligned y -> aligned (x + y).
Proof. rewrite !aligned_iff. intros [k ->] [l ->]. exists (k + l). lia. Qed.

Lemma aligned_sub x y : aligned x -> aligned y -> aligned (x - y).
Proof. rewrite !aligned_iff. intros [k ->] [l ->]. exists (k - l). lia. Qed.

(** An address lies between aligned bounds with its whole page. *)
Lemma page_start_between va a b : aligned a -> aligned b -> a <= va < b ->
  a <= page_start va /\ page_start va + PAGE_SIZE <= b.
Proof.
  intros [k ->]%aligned_iff [l ->]%aligned_iff H. pose proof (page_spec va).
  unfold page_start, PAGE_SIZE in *. lia.
Qed.

Lemma page_start_aligned x : aligned x -> page_start x = x.
Proof. intros H. symmetry. by apply aligned_page. Qed.

Lemma page_eq va b : aligned b -> page va = page b <-> b <= va < b + PAGE_SIZE.
Proof.
  intros Hb%aligned_page. pose proof (page_spec va). unfold PAGE_SIZE in *. lia.
Qed.

Lemma page_steps_aligned a b : aligned (b - a) -> a <= b -> PAGE_SIZE * Z.of_nat (page_steps a b) = b - a.
Proof.
  intros [k Hk]%aligned_iff Hab. unfold page_steps.
  replace ((b - a + PAGE_SIZE - 1) / PAGE_SIZE) with k; [unfold PAGE_SIZE in *; lia|].
  apply (Z.div_unique _ _ _ (PAGE_SIZE - 1)); unfold PAGE_SIZE in *; lia.
Qed.

(** ** Runs of frames *)

(** The physical address at an offset into a run of frames. *)
Fixpoint phys_of (frames : list Frame) (off : Z) : option Z :=
  match frames with
  | [] => None
  | f :: frames => if off <? fr_size f then Some (fr_start f + off) else phys_of frames (off - fr_size f)
  end.

Lemma phys_at_offset_ok frames off : Forall frame_ok frames -> 0 <= off ->
  phys_at_offset frames off = expect (phys_of frames off).
Proof.
  intros Hf. revert off. induction Hf as [|f frames Hf _ IH]; intros off Ho; [done|].
  cbn [phys_at_offset phys_of]. destruct Hf as (? & ? & ? & ? & ?).
  destruct (Z.ltb_spec off (fr_size f)).
  - unfold usize_add. destruct (Z.ltb_spec (fr_start f + off) (2 ^ 64)); [done|lia].
  - unfold usize_sub. destruct (Z.leb_spec (fr_size f) off); [|lia]. rewrite outcome_bind_Ret.
    apply IH. lia.
Qed.

Lemma phys_of_some frames off : 0 <= off < frames_total frames -> exists f o,
  f ∈ frames /\ phys_of frames off = Some (fr_start f + o) /\ 0 <= o < fr_size f.
Proof.
  revert off. induction frames as [|f frames IH]; intros off Ho; simpl in *; [lia|].
  destruct (Z.ltb_spec off (fr_size f)).
  - exists f, off. split; [left|]. split; [done|lia].
  - destruct (IH (off - fr_size f)) as (g & o & Hg & E & Hb); [lia|].
    exists g, o. split; [by right|done].
Qed.

Lemma phys_of_none frames off : Forall frame_ok frames -> frames_total frames <= off ->
  phys_of frames off = None.
Proof.
  intros Hf. revert off. induction Hf as [|f frames Hf HF IH]; intros off Ho; [done|].
  simpl in *. assert (0 <= frames_total frames).
  { clear -HF. induction HF as [|f l (? & ? & ? & ? & ?) _ IH]; simpl; [lia|].
    unfold PAGE_SIZE in *. lia. }
  destruct (Z.ltb_spec off (fr_size f)); [lia|]. apply IH. lia.
Qed.

Lemma total_pos frames : Forall frame_ok frames -> 0 <= frames_total frames.
Proof.
  induction 1 as [|f l (? & ? & ? & ? & ?) _ IH]; simpl; [lia|]. unfold PAGE_SIZE in *. lia.
Qed.

Lemma total_aligned frames : Forall frame_ok frames -> aligned (frames_total frames).
Proof.
  induction 1 as [|f l (? & ? & ? & ? & ?) _ IH]; simpl; [done|]. by apply aligned_add.
Qed.

(** A page of the run lies in one frame. *)
Lemma phys_of_page frames off : Forall frame_ok frames -> aligned off ->
  0 <= off -> off + PAGE_SIZE <= frames_total frames ->
  exists f o, f ∈ frames /\ aligned o /\ 0 <= o /\ o + PAGE_SIZE <= fr_size f /\
    forall d, 0 <= d < PAGE_SIZE -> phys_of frames (off + d) = Some (fr_start f + o + d).
Proof.
  intros HF. revert off. induction HF as [|f frames Hf _ IH]; intros off Ha H0 Ht; simpl in Ht.
  { unfold PAGE_SIZE in *. lia. }
  destruct Hf as (_ & _ & Hz & Hz' & _). cbn [phys_of].
  destruct (Z.ltb_spec off (fr_size f)) as [Hl|Hl].
  - destruct (page_start_between off 0 (fr_size f)) as [_ Hp]; [done|done|lia|].
    rewrite page_start_aligned in Hp by done.
    exists f, off. split; [left|]. split; [done|]. split; [done|]. split; [done|].
    intros d Hd. destruct (Z.ltb_spec (off + d) (fr_size f)); [f_equal; lia|lia].
  - destruct (IH (off - fr_size f)) as (g & o & Hg & Ho & Ho0 & Hoz & Hph);
      [by apply aligned_sub|lia|unfold frames_total in *; lia|].
    exists g, o. split; [by right|]. split; [done|]. split; [done|]. split; [done|].
    intros d Hd. destruct (Z.ltb_spec (off + d) (fr_size f)); [lia|].
    rewrite <- Hph by done. f_equal. lia.
Qed.

Lemma phys_of_inj frames o1 o2 p : ForallOrdPairs frame_dis frames -> 0 <= o1 -> 0 <= o2 ->
  phys_of frames o1 = Some p -> phys_of frames o2 = Some p -> o1 = o2.
Proof.
  intros HD. revert o1 o2. induction HD as [|f frames Hf HD IH]; intros o1 o2 H1 H2 E1 E2; [done|].
  assert (Hin : forall o, 0 <= o -> phys_of frames o = Some p ->
    exists g, g ∈ frames /\ fr_start g <= p < fr_start g + fr_size g).
  { clear -HD. intros o. revert o. clear HD. induction frames as [|g frames IH]; intros o Ho E; [done|].
    cbn [phys_of] in E. destruct (Z.ltb_spec o (fr_size g)).
    - injection E as <-. exists g. split; [left|lia].
    - destruct (IH (o - fr_size g)) as (g' & ? & ?); [lia|done|]. exists g'. split; [by right|done]. }
  rewrite List.Forall_forall in Hf.
  cbn [phys_of] in E1, E2.
  destruct (Z.ltb_spec o1 (fr_size f)), (Z.ltb_spec o2 (fr_size f)).
  - injection E1; injection E2; lia.
  - injection E1 as <-. destruct (Hin (o2 - fr_size f)) as (g & Hg & Hb); [lia|done|].
    destruct (Hf g) as [?|?]; [by apply list_elem_of_In|lia..].
  - injection E2 as <-. destruct (Hin (o1 - fr_size f)) as (g & Hg & Hb); [lia|done|].
    destruct (Hf g) as [?|?]; [by apply list_elem_of_In|lia..].
  - assert (o1 - fr_size f = o2 - fr_size f) by (apply IH; [lia|lia|done|done]). lia.
Qed.

(** ** The table of mappings *)

Lemma align_down_eq x : 0 <= x < 2 ^ 64 -> align_down x = page_start x.
Proof.
  intros Hx. unfold align_down, wnot, page_start, page, PAGE_SIZE. rewrite Z.land_assoc.
  change (4096 - 1) with (Z.ones 12). rewrite <- Z.ldiff_land, Z.ldiff_ones_r by lia.
  rewrite Z.shiftl_mul_pow2, Z.shiftr_div_pow2, Z.land_ones by lia. change (2 ^ 12) with 4096.
  rewrite (Z.mul_comm 4096). apply Z.mod_small. pose proof (Z.div_mod x 4096 ltac:(lia)).
  pose proof (Z.mod_pos_bound x 4096 ltac:(lia)). lia.
Qed.

Lemma align_up_aligned x : aligned x -> 0 <= x -> x + PAGE_SIZE < 2 ^ 64 -> align_up x = Ret x.
Proof.
  intros Ha H0 Hb. unfold align_up, usize_add, usize_sub.
  destruct (Z.ltb_spec (x + PAGE_SIZE) (2 ^ 64)); [|lia]. rewrite outcome_bind_Ret.
  destruct (Z.leb_spec 1 (x + PAGE_SIZE)); [|unfold PAGE_SIZE in *; lia]. rewrite outcome_bind_Ret.
  rewrite align_down_eq by (unfold PAGE_SIZE in *; lia). f_equal.
  unfold page_start. rewrite (proj2 (page_eq (x + PAGE_SIZE - 1) x Ha)) by (unfold PAGE_SIZE; lia).
  by rewrite <- aligned_page.
Qed.

Definition m_end (m : UserMapping) : Z := um_va m + frames_total (um_frames m).

(** A mapping of whole pages at canonical addresses. *)
Record mapping_wf (m : UserMapping) : Prop := {
  mw_frames : Forall frame_ok (um_frames m);
  mw_va : aligned (um_va m);
  mw_range : canon_range (um_va m) (m_end m);
  mw_some : um_va m < m_end m < 2 ^ 64
}.

Lemma sum_sizes_ok frames acc : Forall frame_ok frames -> 0 <= acc ->
  acc + frames_total frames < 2 ^ 64 -> sum_sizes acc frames = Ret (acc + frames_total frames).
Proof.
  intros HF. revert acc. induction HF as [|f frames Hf HF IH]; intros acc Ha Hb; cbn [sum_sizes].
  { simpl. by rewrite Z.add_0_r. }
  pose proof (total_pos _ HF). pose proof Hf as (? & ? & ? & ? & ?).
  cbn [frames_total foldr] in *. fold (frames_total frames) in *.
  rewrite align_up_aligned by (try done; unfold PAGE_SIZE in *; lia). rewrite outcome_bind_Ret.
  unfold usize_add. destruct (Z.ltb_spec (acc + fr_size f) (2 ^ 64)); [|lia].
  rewrite outcome_bind_Ret, IH by (unfold PAGE_SIZE in *; lia). f_equal. lia.
Qed.

Lemma mapping_range_ok m : mapping_wf m -> mapping_range m = Ret (um_va m, m_end m).
Proof.
  intros [HF Ha Hr Hs]. unfold mapping_range, m_end in *. destruct Hr as (H0 & _ & _).
  rewrite sum_sizes_ok by (try done; lia). rewrite outcome_bind_Ret.
  rewrite align_down_eq, page_start_aligned by (try done; lia). unfold usize_add.
  destruct (Z.ltb_spec (um_va m + (0 + frames_total (um_frames m))) (2 ^ 64)); [|lia].
  by rewrite outcome_bind_Ret, Z.add_0_l.
Qed.

Lemma m_end_aligned m : mapping_wf m -> aligned (m_end m).
Proof. intros [HF Ha _ _]. apply aligned_add; [done|]. by apply total_aligned. Qed.

Definition in_mapping (m : UserMapping) (va : Z) : bool := (um_va m <=? va) && (va <? m_end m).

Definition mapping_at (l : list UserMapping) (va : Z) : option UserMapping :=
  List.find (fun m => in_mapping m va) l.

(** The physical address, the leaf entry and the flags for an address. *)
Definition m_phys (m : UserMapping) (va : Z) : option Z := phys_of (um_frames m) (va - um_va m).

Definition tab_view (l : list UserMapping) (va : Z) : option Z :=
  m ← mapping_at l va;
  if flags_leaf (um_flags m) then (fun p => leaf_pte p (um_flags m)) <$> m_phys m (page_start va)
  else None.

Definition tab_flags (l : list UserMapping) (va : Z) : option Z := um_flags <$> mapping_at l va.

(** The flags of a user page with these permissions. *)
Definition grants (flags : Z) (r w x : bool) : Prop :=
  PageTableEntryFlags_r flags = r /\ PageTableEntryFlags_w flags = w /\ PageTableEntryFlags_x flags = x /\ PageTableEntryFlags_u flags = true.

(** The word behind an address. *)
Definition tab_word (l : list UserMapping) (h : heap) (va : Z) : option Z :=
  m ← mapping_at l va; p ← m_phys m va; h !! p.

Definition tab_frames (l : list UserMapping) : list Frame := concat (um_frames <$> l).

Definition m_dis (m m' : UserMapping) : Prop := m_end m <= um_va m' \/ m_end m' <= um_va m.

Record tab_wf (l : list UserMapping) : Prop := {
  tw_wf : Forall mapping_wf l;
  tw_dis : ForallOrdPairs m_dis l
}.

Lemma mappings_phys_ok l va : Forall mapping_wf l ->
  mappings_phys l va = Ret (m ← mapping_at l va; m_phys m va).
Proof.
  induction 1 as [|m l Hm _ IH]; [done|]. cbn [mappings_phys].
  rewrite (mapping_range_ok m Hm), outcome_bind_Ret. unfold mapping_at. cbn [List.find].
  unfold in_mapping at 1. destruct ((um_va m <=? va) && (va <? m_end m)) eqn:E; [|exact IH].
  apply andb_true_iff in E as [H1%Z.leb_le H2%Z.ltb_lt].
  rewrite phys_at_offset_ok by (try apply Hm; lia). cbn [mbind option_bind]. unfold m_phys, m_end in *.
  destruct (phys_of_some (um_frames m) (va - um_va m)) as (f & o & _ & -> & _); [lia|done].
Qed.

Lemma overlaps_ok m a b : mapping_wf m -> overlaps m a b = Ret ((um_va m <? b) && (a <? m_end m)).
Proof. intros Hm. unfold overlaps. by rewrite (mapping_range_ok m Hm), outcome_bind_Ret. Qed.

Lemma mapping_ranges_ok l : Forall mapping_wf l ->
  mapping_ranges l = Ret ((fun m => (um_va m, m_end m)) <$> l).
Proof.
  induction 1 as [|m l Hm _ IH]; [done|]. cbn [mapping_ranges].
  by rewrite (mapping_range_ok m Hm), outcome_bind_Ret, IH, outcome_bind_Ret.
Qed.

(** [[a, b)] meets no mapping. *)
Definition tab_clear (l : list UserMapping) (a b : Z) : Prop :=
  Forall (fun m => b <= um_va m \/ m_end m <= a) l.

#[export] Instance tab_clear_dec l a b : Decision (tab_clear l a b).
Proof. apply _. Defined.

Lemma range_is_free_ok ms a b : Forall mapping_wf (ms_mappings ms) ->
  range_is_free ms a b = Ret (bool_decide (tab_clear (ms_mappings ms) a b)).
Proof.
  intros H. rewrite (range_is_free_ranges _ _ _ _ (mapping_ranges_ok _ H)). f_equal.
  apply bool_decide_ext. unfold clear_of, tab_clear. by rewrite Forall_fmap.
Qed.

Lemma mapping_at_clear l a b va : tab_clear l a b -> a <= va < b -> mapping_at l va = None.
Proof.
  intros Hc Hv. induction Hc as [|m l Hm _ IH]; [done|]. unfold mapping_at. cbn [List.find].
  unfold in_mapping at 1. destruct ((um_va m <=? va) && (va <? m_end m)) eqn:E; [|exact IH].
  zify_bool. lia.
Qed.

Lemma mapping_at_app l l' va : mapping_at (l ++ l') va =
  match mapping_at l va with Some m => Some m | None => mapping_at l' va end.
Proof.
  unfold mapping_at. induction l as [|m l IH]; [done|]. cbn [app List.find].
  by destruct (in_mapping m va).
Qed.

Lemma mapping_at_some l va m : mapping_at l va = Some m -> m ∈ l /\ um_va m <= va < m_end m.
Proof.
  intros E. apply List.find_some in E as [Hi E]. split; [by apply list_elem_of_In|].
  unfold in_mapping in E. zify_bool. lia.
Qed.

Lemma in_mapping_page m x : mapping_wf m -> in_mapping m (page_start x) = in_mapping m x.
Proof.
  intros Hm. pose proof (m_end_aligned m Hm) as He. destruct Hm as [_ Ha _ _].
  apply aligned_iff in He as [k Hk], Ha as [l Hl]. unfold in_mapping. rewrite Hk, Hl.
  pose proof (page_spec x). unfold page_start, PAGE_SIZE in *.
  destruct (Z.leb_spec (4096 * l) (4096 * page x)), (Z.leb_spec (4096 * l) x); try lia; cbn [andb];
    try done; destruct (Z.ltb_spec (4096 * page x) (4096 * k)), (Z.ltb_spec x (4096 * k)); lia || done.
Qed.

Lemma mapping_at_page l x : Forall mapping_wf l -> mapping_at l (page_start x) = mapping_at l x.
Proof.
  induction 1 as [|m l Hm _ IH]; [done|]. unfold mapping_at in *. cbn [List.find].
  rewrite in_mapping_page by done. by destruct (in_mapping m x).
Qed.

Lemma page_start_plus va d : aligned va -> 0 <= d < PAGE_SIZE -> page_start (va + d) = va.
Proof.
  intros Ha Hd. unfold page_start. rewrite (proj2 (page_eq (va + d) va Ha)) by lia.
  by rewrite <- aligned_page.
Qed.

(** Disjoint mappings: the one that contains an address is the one found. *)
Lemma mapping_at_elem l m va : ForallOrdPairs m_dis l -> m ∈ l -> um_va m <= va < m_end m ->
  mapping_at l va = Some m.
Proof.
  intros HD Hm Hv. induction HD as [|m' l Hd HD IH]; [by apply not_elem_of_nil in Hm|].
  unfold mapping_at. cbn [List.find]. unfold in_mapping at 1.
  apply elem_of_cons in Hm as [->|Hm].
  - destruct (Z.leb_spec (um_va m') va), (Z.ltb_spec va (m_end m')); try lia. done.
  - rewrite List.Forall_forall in Hd. destruct (Hd m) as [?|?]; [by apply list_elem_of_In|..];
      destruct (Z.leb_spec (um_va m') va), (Z.ltb_spec va (m_end m')); try lia; cbn [andb];
      by apply IH.
Qed.

(** Every word of the frames is zero. *)
Definition all_zero (h : heap) (frames : list Frame) : Prop :=
  forall f x, f ∈ frames -> in_frame f x -> x mod 8 = 0 -> h !! x = Some 0.

Lemma mod8_add x y : x mod 8 = 0 -> y mod 8 = 0 -> (x + y) mod 8 = 0.
Proof. intros Hx Hy. by rewrite Zplus_mod, Hx, Hy. Qed.

Lemma mod8_sub x y : x mod 8 = 0 -> y mod 8 = 0 -> (x - y) mod 8 = 0.
Proof. intros Hx Hy. by rewrite Zminus_mod, Hx, Hy. Qed.

Lemma mul8_page x : aligned x -> x mod 8 = 0.
Proof.
  intros [k ->]%aligned_iff. unfold PAGE_SIZE. replace (4096 * k) with (512 * k * 8) by lia.
  apply Z.mod_mul. lia.
Qed.

(** The frames hold what the task sees from [va] on, between two offsets. *)
Definition holds (h : heap) (fs : list Frame) (lo hi : Z) (word : Z -> option Z) : Prop :=
  forall o, lo <= o < hi -> o mod 8 = 0 -> exists p, phys_of fs o = Some p /\ h !! p = word o.

Lemma word_elem (h : heap) (fs : list Frame) lo hi word h' :
  holds h fs lo hi word -> same_on fs h h' -> 0 <= lo -> hi <= frames_total fs -> holds h' fs lo hi word.
Proof.
  intros H S Hlo Hhi o Ho Hm. destruct (H o Ho Hm) as (p & Ep & Ew). exists p. split; [done|].
  destruct (phys_of_some fs o) as (f & x & Hf & E & Hx); [lia|].
  rewrite Ep in E. injection E as ->. rewrite (S f); [done|done|]. unfold in_frame. lia.
Qed.

(** The words of the mappings do not depend on other memory. *)
Lemma word_same l rest h h' va : Forall mapping_wf l -> same_on (tab_frames l ++ rest) h h' ->
  tab_word l h' va = tab_word l h va.
Proof.
  intros HF S. unfold tab_word. destruct (mapping_at l va) as [m|] eqn:Em; [|done].
  cbn [mbind option_bind]. destruct (mapping_at_some _ _ _ Em) as [Hin Hb].
  unfold m_phys, m_end in *.
  destruct (phys_of_some (um_frames m) (va - um_va m)) as (f & o & Hf & -> & Ho); [lia|].
  cbn [mbind option_bind]. apply (S f); [|unfold in_frame; lia]. apply elem_of_app. left.
  unfold tab_frames. apply list_elem_of_In, in_concat. exists (um_frames m).
  split; [|by apply list_elem_of_In]. apply list_elem_of_In, list_elem_of_fmap. by exists m.
Qed.

(** The page of a mapping that holds [va], and the words in it. *)
Lemma mapping_page l va m : Forall mapping_wf l -> mapping_at l va = Some m -> aligned va ->
  exists f o, f ∈ tab_frames l /\ aligned o /\ 0 <= o /\ o + PAGE_SIZE <= fr_size f /\
    m_phys m va = Some (fr_start f + o) /\
    forall h d, 0 <= d < PAGE_SIZE -> tab_word l h (va + d) = h !! (fr_start f + o + d).
Proof.
  intros HF Hm Ha. destruct (mapping_at_some _ _ _ Hm) as [Hin Hb].
  rewrite Forall_forall in HF. destruct (HF m Hin) as [Hf Hva Hr Hs].
  assert (Hal : aligned (m_end m)) by (by apply m_end_aligned).
  destruct (page_start_between va (um_va m) (m_end m)) as [_ Hp]; [done..|].
  rewrite page_start_aligned in Hp by done.
  destruct (phys_of_page (um_frames m) (va - um_va m)) as (f & o & Hfi & Ho & Ho0 & Hoz & Hph);
    [done|by apply aligned_sub|lia|unfold m_end in *; lia|].
  exists f, o. split.
  { unfold tab_frames. apply list_elem_of_In, in_concat. exists (um_frames m).
    split; [|by apply list_elem_of_In]. apply list_elem_of_In, list_elem_of_fmap. by exists m. }
  split; [done|]. split; [done|]. split; [done|]. split.
  { unfold m_phys. rewrite <- (Z.add_0_r (va - um_va m)), Hph by (unfold PAGE_SIZE; lia).
    f_equal. lia. }
  intros h d Hd. unfold tab_word.
  rewrite <- mapping_at_page, page_start_plus, Hm by (try apply Forall_forall; done).
  cbn [mbind option_bind]. unfold m_phys. replace (va + d - um_va m) with (va - um_va m + d) by lia.
  by rewrite Hph.
Qed.

(** ** Changes of the view *)

(** The addresses in [[lo, hi)] are mapped to the frames from [start] on. *)
Definition over (v : Z -> option Z) (lo hi start flags : Z) : Z -> option Z := fun va =>
  if (lo <=? va) && (va <? hi) then Some (leaf_pte (start + (page_start va - lo)) flags) else v va.

Definition cleared (v : Z -> option Z) (lo hi : Z) : Z -> option Z := fun va =>
  if (lo <=? va) && (va <? hi) then None else v va.

(** The addresses from [addr] on are mapped to the run of frames. *)
Definition over_frames (v : Z -> option Z) (addr : Z) (frames : list Frame) (flags : Z)
    : Z -> option Z := fun va =>
  if addr <=? va then
    match phys_of frames (page_start va - addr) with
    | Some p => Some (leaf_pte p flags)
    | None => v va
    end
  else v va.

Lemma over_frames_cons v addr f frames flags va : frame_ok f -> Forall frame_ok frames ->
  aligned addr ->
  over_frames (over v addr (addr + fr_size f) (fr_start f) flags) (addr + fr_size f) frames flags va =
  over_frames v addr (f :: frames) flags va.
Proof.
  intros (_ & _ & Hs1 & Hs2 & _) HF Ha. unfold over_frames, over. cbn [phys_of].
  destruct (Z.leb_spec addr va) as [Hl|Hl].
  2: { destruct (Z.leb_spec (addr + fr_size f) va); [unfold PAGE_SIZE in *; lia|done]. }
  assert (Hal : aligned (addr + fr_size f)) by (by apply aligned_add).
  destruct (Z.leb_spec (addr + fr_size f) va) as [Hg|Hg].
  - destruct (page_start_between va (addr + fr_size f) (page_start va + PAGE_SIZE)) as [Hp _];
      [done|apply aligned_add; [apply aligned_mul|done]| |].
    { pose proof (page_spec va). unfold page_start in *. lia. }
    destruct (Z.ltb_spec (page_start va - addr) (fr_size f)); [lia|].
    destruct (Z.ltb_spec va (addr + fr_size f)); [lia|]. cbn [andb].
    by replace (page_start va - (addr + fr_size f)) with (page_start va - addr - fr_size f) by lia.
  - destruct (page_start_between va addr (addr + fr_size f)) as [_ Hp]; [done|done|lia|].
    destruct (Z.ltb_spec (page_start va - addr) (fr_size f)); [|unfold PAGE_SIZE in *; lia].
    destruct (Z.ltb_spec va (addr + fr_size f)); [done|lia].
Qed.

Lemma tab_view_clear l a b va : tab_clear l a b -> a <= va < b -> tab_view l va = None.
Proof. intros Hc Hv. unfold tab_view. by rewrite (mapping_at_clear l a b). Qed.

Lemma tab_frames_app l l' : tab_frames (l ++ l') = tab_frames l ++ tab_frames l'.
Proof. unfold tab_frames. by rewrite fmap_app, concat_app. Qed.

Lemma tab_wf_snoc l m : tab_wf l -> mapping_wf m -> tab_clear l (um_va m) (m_end m) -> tab_wf (l ++ [m]).
Proof.
  intros [HF HD] Hm Hc. split; [by apply Forall_app_2; [|constructor]|].
  clear HF. induction HD as [|m' l Hd HD IH]; [repeat constructor|]. apply Forall_cons in Hc as [H1 Hc].
  constructor; [|by apply IH]. apply Forall_app_2; [done|]. constructor; [|done].
  unfold m_dis. lia.
Qed.

Lemma tab_view_snoc l m va : mapping_wf m -> tab_clear l (um_va m) (m_end m) ->
  tab_view (l ++ [m]) va =
  if flags_leaf (um_flags m) then over_frames (tab_view l) (um_va m) (um_frames m) (um_flags m) va
  else tab_view l va.
Proof.
  intros Hm Hc. unfold tab_view at 1. rewrite mapping_at_app.
  destruct (mapping_at l va) as [m'|] eqn:E.
  - assert (Hn : ~ (um_va m <= va < m_end m)).
    { intros Hv. by rewrite (mapping_at_clear l _ _ va Hc Hv) in E. }
    assert (Ev : tab_view l va = (m' ← Some m'; if flags_leaf (um_flags m')
      then (fun p => leaf_pte p (um_flags m')) <$> m_phys m' (page_start va) else None))
      by (unfold tab_view; by rewrite E).
    destruct (flags_leaf (um_flags m)); [|done]. unfold over_frames.
    destruct (Z.leb_spec (um_va m) va) as [Hl|Hl]; [|done].
    rewrite phys_of_none; [done|apply Hm|]. unfold m_end in Hn.
    pose proof (mw_va _ Hm) as [k Hk]%aligned_iff. pose proof (total_aligned _ (mw_frames _ Hm)) as [j Hj]%aligned_iff.
    pose proof (page_spec va). unfold page_start, PAGE_SIZE in *. lia.
  - assert (Ev : tab_view l va = None) by (unfold tab_view; by rewrite E).
    unfold mapping_at. cbn [List.find]. destruct (in_mapping m va) eqn:Ei; unfold in_mapping in Ei; cbn [mbind option_bind].
    + zify_bool. destruct (flags_leaf (um_flags m)); [|done]. unfold over_frames.
      destruct (Z.leb_spec (um_va m) va); [|lia]. unfold m_phys. by destruct (phys_of _ _).
    + destruct (flags_leaf (um_flags m)); [|done]. unfold over_frames.
      destruct (Z.leb_spec (um_va m) va) as [Hl|Hl]; [|done]. cbn [andb] in Ei. zify_bool.
      rewrite phys_of_none; [done|apply Hm|]. unfold m_end in Ei.
      pose proof (mw_va _ Hm) as [k Hk]%aligned_iff. pose proof (total_aligned _ (mw_frames _ Hm)) as [j Hj]%aligned_iff.
      pose proof (page_spec va). unfold page_start, PAGE_SIZE in *. lia.
Qed.

Lemma tab_frames_delete l i m : l !! i = Some m ->
  tab_frames l ≡ₚ um_frames m ++ tab_frames (delete i l).
Proof.
  intros Hi. pose proof (delete_Permutation l i m Hi) as Hp.
  change (um_frames m ++ tab_frames (delete i l)) with (tab_frames (m :: delete i l)).
  unfold tab_frames. revert Hp. generalize (m :: delete i l). intros l' Hp. clear -Hp.
  induction Hp as [|x l l' _ IH|x y l|l1 l2 l3 _ IH1 _ IH2]; [done| | |by rewrite IH1].
  - rewrite !fmap_cons. cbn [concat]. by rewrite IH.
  - rewrite !fmap_cons. cbn [concat]. apply Permutation_app_swap_app.
Qed.

Lemma pairs_delete {B} (R : B -> B -> Prop) l i : ForallOrdPairs R l -> ForallOrdPairs R (delete i l).
Proof.
  intros H. revert i. induction H as [|x l Hx H IH]; intros [|i]; [constructor|constructor|done|].
  cbn [delete list_delete]. constructor; [|apply IH].
  apply Forall_forall. intros y Hy. rewrite List.Forall_forall in Hx. apply Hx, list_elem_of_In.
  apply list_elem_of_lookup in Hy as [j Hj]. clear -Hj. revert i j Hj.
  induction l as [|z l IH]; intros i j Hj; [by destruct i|]. destruct i as [|i]; cbn in Hj.
  - apply list_elem_of_lookup. by exists (S j).
  - destruct j as [|j]; cbn in Hj; [injection Hj as ->; left|]. right. by apply (IH i j).
Qed.

Lemma tab_wf_delete l i : tab_wf l -> tab_wf (delete i l).
Proof. intros [H1 H2]. split; [by apply Forall_delete|by apply pairs_delete]. Qed.

Lemma mapping_at_delete l i m va : ForallOrdPairs m_dis l -> Forall mapping_wf l -> l !! i = Some m ->
  mapping_at (delete i l) va = if in_mapping m va then None else mapping_at l va.
Proof.
  intros HD HF Hi. revert l HD HF Hi. induction i as [|i IH]; intros [|m' l] HD HF Hi; try done;
    inversion HD as [|? ? Hd HD']; subst; apply Forall_cons in HF as [Hm' HF].
  - injection Hi as ->. cbn [delete list_delete]. unfold mapping_at at 2. cbn [List.find].
    destruct (in_mapping m va) eqn:E; [|done]. unfold in_mapping in E. zify_bool.
    apply (mapping_at_clear l (um_va m) (m_end m)); [|lia].
    apply (Forall_impl _ _ _ Hd). intros m2 [?|?]; lia.
  - cbn [delete list_delete]. unfold mapping_at in *. cbn [List.find].
    rewrite IH by done. destruct (in_mapping m' va) eqn:E; [|done].
    destruct (in_mapping m va) eqn:E2; [|done]. exfalso.
    assert (Hd' : m_dis m' m).
    { rewrite List.Forall_forall in Hd. apply Hd, list_elem_of_In.
      apply list_elem_of_lookup. by exists i. }
    unfold in_mapping, m_dis in *. zify_bool. lia.
Qed.

(** The indices are in range, one after the other. *)
Fixpoint valid_indices (js : list nat) (l : list UserMapping) : Prop :=
  match js with
  | [] => True
  | i :: js => is_Some (l !! i) /\ valid_indices js (delete i l)
  end.

Definition delete_all (l : list UserMapping) (js : list nat) : list UserMapping :=
  foldl (fun l i => delete i l) l js.

Lemma delete_all_frames l js : tab_frames (delete_all l js) ⊆ tab_frames l.
Proof.
  revert l. induction js as [|j js IH]; intros l; [done|]. etrans; [apply (IH (delete j l))|].
  destruct (l !! j) as [m|] eqn:E.
  - rewrite (tab_frames_delete l j m E). clear. set_solver.
  - replace (delete j l) with l; [done|]. clear -E. revert j E.
    induction l as [|x l IH]; intros [|j] E; try done. cbn. f_equal. by apply IH.
Qed.

(** The indices [overlapping_indices] finds, taken from the last to the first. *)
Fixpoint hits (i : nat) (l : list UserMapping) (a b : Z) : list nat :=
  match l with
  | [] => []
  | m :: l => if (um_va m <? b) && (a <? m_end m) then i :: hits (S i) l a b else hits (S i) l a b
  end.

Definition apart (a b : Z) (m : UserMapping) : Prop := b <= um_va m \/ m_end m <= a.

#[export] Instance apart_dec a b m : Decision (apart a b m).
Proof. unfold apart. apply _. Defined.

Lemma hits_ok i l a b : Forall mapping_wf l -> overlapping_from i l a b = Ret (hits i l a b).
Proof.
  intros HF. revert i. induction HF as [|m l Hm _ IH]; intros i; [done|]. cbn [overlapping_from hits].
  rewrite (overlaps_ok m a b Hm), outcome_bind_Ret, IH, outcome_bind_Ret.
  by destruct ((um_va m <? b) && (a <? m_end m)).
Qed.

Lemma hits_S i l a b : hits (S i) l a b = S <$> hits i l a b.
Proof.
  revert i. induction l as [|m l IH]; intros i; [done|]. cbn [hits]. rewrite IH.
  by destruct (_ && _).
Qed.

Lemma delete_all_S m l js : delete_all (m :: l) (S <$> js) = m :: delete_all l js.
Proof. revert l. induction js as [|j js IH]; intros l; [done|]. apply (IH (delete j l)). Qed.

Lemma valid_S m l js : valid_indices js l -> valid_indices (S <$> js) (m :: l).
Proof. revert l. induction js as [|j js IH]; intros l; [done|]. intros [H1 H2]. split; [done|by apply IH]. Qed.

Lemma valid_app js ks l : valid_indices js l -> valid_indices ks (delete_all l js) ->
  valid_indices (js ++ ks) l.
Proof.
  revert l. induction js as [|j js IH]; intros l H1 H2; [done|]. destruct H1 as [H0 H1].
  split; [done|]. by apply IH.
Qed.

Lemma hits_delete l a b : valid_indices (reverse (hits 0 l a b)) l /\
  delete_all l (reverse (hits 0 l a b)) = base.filter (apart a b) l.
Proof.
  induction l as [|m l [IH1 IH2]]; [done|]. cbn [hits]. rewrite hits_S, filter_cons.
  assert (Hd : (um_va m <? b) && (a <? m_end m) = negb (bool_decide (apart a b m))).
  { unfold apart. case_bool_decide; destruct (Z.ltb_spec (um_va m) b), (Z.ltb_spec a (m_end m));
      try done; lia. }
  rewrite Hd. case_bool_decide as Ha; cbn [negb].
  - rewrite decide_True by done. rewrite <- fmap_reverse. split; [by apply valid_S|].
    by rewrite delete_all_S, IH2.
  - rewrite decide_False by done. rewrite reverse_cons, <- fmap_reverse. split.
    + apply valid_app; [by apply valid_S|]. rewrite delete_all_S. split; [by eexists|done].
    + unfold delete_all. rewrite foldl_app. fold (delete_all (m :: l) (S <$> reverse (hits 0 l a b))).
      rewrite delete_all_S, IH2. done.
Qed.
(** *** Keeping the parts outside a range *)

Definition keep_of (a b : Z) (m : UserMapping) : list Keep :=
  if (um_va m <? b) && (a <? m_end m) then
    (if um_va m <? Z.max (um_va m) a then [mkKeep (um_va m) (Z.max (um_va m) a - um_va m) (um_flags m)] else []) ++
    (if Z.min (m_end m) b <? m_end m then [mkKeep (Z.min (m_end m) b) (m_end m - Z.min (m_end m) b) (um_flags m)] else [])
  else [].

Definition keeps (l : list UserMapping) (a b : Z) : list Keep := concat (keep_of a b <$> l).

Lemma collect_keeps_ok l a b : Forall mapping_wf l -> collect_keeps l a b = Ret (keeps l a b).
Proof.
  induction 1 as [|m l Hm _ IH]; [done|]. cbn [collect_keeps]. unfold keeps_of.
  rewrite (overlaps_ok m a b Hm), outcome_bind_Ret, IH. unfold keeps. rewrite fmap_cons. cbn [concat].
  unfold keep_of at 2. rewrite (mapping_range_ok m Hm), outcome_bind_Ret.
  by destruct ((um_va m <? b) && (a <? m_end m)).
Qed.

Definition k_end (k : Keep) : Z := k_va k + k_size k.

(** A kept part lies in a mapping that meets the range, and outside the range. *)
Record keep_ok (l : list UserMapping) (a b : Z) (k : Keep) : Prop := {
  ko_va : aligned (k_va k);
  ko_size : aligned (k_size k);
  ko_pos : 0 < k_size k;
  ko_out : k_end k <= a \/ b <= k_va k;
  ko_in : exists m, m ∈ l /\ ~ apart a b m /\ um_va m <= k_va k /\ k_end k <= m_end m /\ k_flags k = um_flags m
}.

Lemma keep_of_ok l a b m k : aligned a -> aligned b -> m ∈ l -> mapping_wf m ->
  k ∈ keep_of a b m -> keep_ok l a b k /\ um_va m <= k_va k /\ k_end k <= m_end m.
Proof.
  intros Ha Hb Hin Hm Hk. unfold keep_of in Hk. destruct ((um_va m <? b) && (a <? m_end m)) eqn:Eo;
    [|by apply not_elem_of_nil in Hk]. zify_bool.
  assert (Hal := mw_va _ Hm). assert (Hae := m_end_aligned _ Hm). destruct (mw_some _ Hm) as [Hs _].
  assert (Hn : ~ apart a b m) by (unfold apart; lia).
  apply elem_of_app in Hk as [Hk|Hk].
  - destruct (Z.ltb_spec (um_va m) (Z.max (um_va m) a)); [|by apply not_elem_of_nil in Hk].
    apply list_elem_of_singleton in Hk as ->. unfold k_end. cbn [k_va k_size].
    split; [split; unfold k_end; cbn [k_va k_size k_flags]|lia]; [done| |lia|lia|].
    + rewrite Z.max_r by lia. by apply aligned_sub.
    + exists m. split; [done|]. split; [done|]. split; [lia|]. split; [lia|done].
  - destruct (Z.ltb_spec (Z.min (m_end m) b) (m_end m)); [|by apply not_elem_of_nil in Hk].
    apply list_elem_of_singleton in Hk as ->. unfold k_end. cbn [k_va k_size].
    rewrite Z.min_r by lia.
    split; [split; unfold k_end; cbn [k_va k_size k_flags]|lia]; [done|by apply aligned_sub|lia|lia|].
    exists m. split; [done|]. split; [done|]. split; [lia|]. split; [lia|done].
Qed.

Definition k_dis (k k' : Keep) : Prop := k_end k <= k_va k' \/ k_end k' <= k_va k.

Lemma keeps_ok l a b : tab_wf l -> aligned a -> aligned b -> a <= b ->
  Forall (keep_ok l a b) (keeps l a b) /\ ForallOrdPairs k_dis (keeps l a b).
Proof.
  intros [HF HD] Ha Hb Hab.
  assert (Hin : forall l', Forall mapping_wf l' -> forall k, k ∈ keeps l' a b -> exists m, m ∈ l' /\ k ∈ keep_of a b m).
  { intros l' _ k Hk. unfold keeps in Hk. apply list_elem_of_In, in_concat in Hk as (ks & Hks & Hk).
    apply list_elem_of_In, list_elem_of_fmap in Hks as (m & -> & Hm). exists m.
    split; [done|by apply list_elem_of_In]. }
  split.
  - apply Forall_forall. intros k Hk. destruct (Hin l HF k Hk) as (m & Hm & Hkm).
    apply (keep_of_ok l a b m k); try done. rewrite Forall_forall in HF. by apply HF.
  - revert HF. induction HD as [|m l Hd HD IH]; intros HF; [constructor|].
    apply Forall_cons in HF as [Hm HF]. unfold keeps. rewrite fmap_cons. cbn [concat].
    assert (Hself : ForallOrdPairs k_dis (keep_of a b m)).
    { unfold keep_of. destruct (_ && _); [|constructor].
      destruct (Z.ltb_spec (um_va m) (Z.max (um_va m) a)), (Z.ltb_spec (Z.min (m_end m) b) (m_end m));
        cbn [app]; repeat constructor. unfold k_dis, k_end. cbn [k_va k_size]. lia. }
    assert (Hcross : forall k k', k ∈ keep_of a b m -> k' ∈ keeps l a b -> k_dis k k').
    { intros k k' Hk Hk'. destruct (Hin l HF k' Hk') as (m' & Hm' & Hkm').
      destruct (keep_of_ok (m :: l) a b m k) as (_ & ? & ?); [done|done|left|done|done|].
      assert (Hw' : mapping_wf m') by (rewrite Forall_forall in HF; by apply HF).
      destruct (keep_of_ok l a b m' k') as (K' & ? & ?); [done..|].
      rewrite List.Forall_forall in Hd. destruct (Hd m') as [?|?]; [by apply list_elem_of_In|..];
        unfold k_dis; lia. }
    clear -Hself Hcross IH HF. specialize (IH HF). unfold keeps in *.
    induction Hself as [|k ks Hk Hself IHk]; [done|]. cbn [app]. constructor.
    + apply Forall_app_2; [done|]. apply Forall_forall. intros k' Hk'. apply Hcross; [left|done].
    + apply IHk. intros k1 k2 H1 H2. apply Hcross; [by right|done].
Qed.
