(* ===== verification/MapTheory.v ===== *)
(** * MapTheory: one task's page table

    The steps of [MemoryMap] seen from one task: what its page table shows on
    canonical addresses after mapping and unmapping pages, with the rest of the
    system and the contents of other frames unchanged. *)

From stdpp Require Import gmap.
From S2P Require Import Prelude OrdMap Buddy FrameAlloc BitFields Abi PageTable SpaceClone SpaceManager.
From S2P Require Import MemoryMap MapTable.

(** ** One task in the system *)

Section Task.
Context {A : Type} {FS : FrameSource A} {FL : FrameLaws A}.

(** The rest of the system as it was, the task at hand, and the root entries it
    shares with the kernel. *)
Context (abs0 : mabs) (tid : Z) (sh : Z -> bool).

Definition wsys (w : @world A) : @msys A := mkMsys (w_heap w) (w_alloc w) (w_mgr w) [].

(** The page table of the task shows the leaf entries [v] on canonical
    addresses, the kernel and the other tasks are as in [abs0], and the frames
    in [rest] belong to others than the page tables. *)
Definition trel (rest : list Frame) (w : @world A) (v : Z -> option Z) : Prop :=
  exists abs TK u, mrel rest (wsys w) abs TK /\
    (forall va, k_view abs va = k_view abs0 va) /\
    (forall i, k_l1 abs i = k_l1 abs0 i) /\
    (forall t, t <> tid -> a_users abs t = a_users abs0 t) /\
    a_users abs tid = Some u /\
    (forall i, u_sh u i = sh i) /\
    (forall va, canon va -> u_view u va = v va).

Lemma trel_intro rest w v abs TK u : mrel rest (wsys w) abs TK ->
  (forall va, k_view abs va = k_view abs0 va) ->
  (forall i, k_l1 abs i = k_l1 abs0 i) ->
  (forall t, t <> tid -> a_users abs t = a_users abs0 t) ->
  a_users abs tid = Some u ->
  (forall i, u_sh u i = sh i) ->
  (forall va, canon va -> u_view u va = v va) -> trel rest w v.
Proof. intros. by exists abs, TK, u. Qed.

Lemma trel_ext rest w v v' : trel rest w v -> (forall va, canon va -> v va = v' va) -> trel rest w v'.
Proof. intros (abs & TK & u & ? & ? & ? & ? & ? & ? & Hv) E. apply (trel_intro _ _ _ abs TK u); try done. intros va Hc. by rewrite Hv, E. Qed.

Lemma trel_map rest w v va pa flags : trel rest w v -> canon va ->
  exists r w', w_user_map w tid va pa flags = Ret (r, w') /\ same_on rest (w_heap w) (w_heap w') /\
    match r with
    | Ok _ => sh (VirtualAddr_vpn2 va) = false /\
        trel rest w' (fun va' => if page va' =? page va then Some (leaf_pte pa flags) else v va')
    | Err e => (e = OutOfMemory \/ e = PageTableMissing /\ sh (VirtualAddr_vpn2 va) = true) /\
        trel rest w' v
    end.
Proof.
  intros (abs & TK & u & M & Hk & Hl & Ho & Hu & Hs & Hv) Hc.
  destruct (map_user_ok rest (wsys w) abs TK tid va pa flags false M)
    as (r & s' & o & abs' & TK' & E & Sp & S' & M').
  unfold w_user_map. cbn [mexec wsys ms_heap ms_alloc ms_mgr ms_stash AddressSpaceManager_map] in E.
  destruct (AddressSpaceManager_user_map _ _ _ _ _ _ _ _) as [[[[r1 h1] a1] m1]|]; [|done].
  injection E as <- <-. rewrite outcome_bind_Ret.
  cbn [mspec] in Sp. rewrite Hu, Hs in Sp. exists r1, (mkW h1 a1 m1). split; [done|]. split; [done|].
  destruct (sh (VirtualAddr_vpn2 va)) eqn:Esh; [|destruct o]; injection Sp as <- <-.
  - split; [by right|]. by apply (trel_intro _ _ _ abs TK' u).
  - split; [done|]. eapply (trel_intro _ (mkW _ _ _) _ _ TK' _ M'); [done|done| | |..]; cbn [put_user a_users].
    + intros t Ht. destruct (Z.eqb_spec t tid); [done|]. by apply Ho.
    + by rewrite Z.eqb_refl.
    + done.
    + intros va' Hc'. cbn [u_view]. unfold put_page. rewrite same_page_canon by done.
      by rewrite Hv.
  - split; [by left|]. by apply (trel_intro _ _ _ abs TK' u).
Qed.

Lemma trel_unmap rest w v va : trel rest w v -> canon va ->
  exists w', w_user_unmap w tid va = Ret w' /\ same_on rest (w_heap w) (w_heap w') /\
    trel rest w' (fun va' => if page va' =? page va then None else v va').
Proof.
  intros (abs & TK & u & M & Hk & Hl & Ho & Hu & Hs & Hv) Hc.
  destruct (unmap_ok rest (wsys w) abs TK (IdUser tid) va false M)
    as (r & s' & o & abs' & TK' & E & Sp & S' & M').
  unfold w_user_unmap. cbn [mexec wsys ms_heap ms_alloc ms_mgr ms_stash AddressSpaceManager_unmap] in E.
  destruct (AddressSpaceManager_user_unmap _ _ _ _ _) as [[r1 h1]|]; [|done].
  injection E as <- <-. rewrite outcome_bind_Ret.
  cbn [mspec] in Sp. rewrite Hu in Sp. injection Sp as <- <-.
  eexists. split; [done|]. split; [done|].
  eapply (trel_intro _ (mkW _ _ _) _ _ TK' _ M'); [done|done| | |..]; cbn [put_user a_users].
  - intros t Ht. destruct (Z.eqb_spec t tid); [done|]. by apply Ho.
  - by rewrite Z.eqb_refl.
  - done.
  - intros va' Hc'. cbn [u_view]. unfold put_page. rewrite same_page_canon by done. by rewrite Hv.
Qed.

(** The frames of the page tables. *)
Definition table_frames (w : @world A) : list Frame :=
  space_frames (am_kernel (w_mgr w)) ++ frames_of (am_user (w_mgr w)).*2.

Lemma trel_rep rest w v : trel rest w v -> fs_rep (w_heap w) (w_alloc w) (table_frames w ++ rest).
Proof.
  intros (abs & TK & u & M & _). pose proof (mr_frames _ _ _ _ M) as H.
  cbn [wsys ms_heap ms_alloc ms_mgr ms_stash] in H. unfold table_frames. by rewrite <- app_assoc.
Qed.

(** Memory and allocator change, the words of the tables do not. *)
Lemma trel_same rest rest' w v h a : trel rest w v -> same_on (table_frames w) (w_heap w) h ->
  fs_rep h a (table_frames w ++ rest') -> trel rest' (mkW h a (w_mgr w)) v.
Proof.
  intros (abs & TK & u & M & Hk & Hl & Ho & Hu & Hs & Hv) S H.
  apply (trel_intro _ _ _ abs TK u); try done.
  destruct M as [M1 M2 M3 M4 M5 M6 M7 M8].
  cbn [wsys ms_heap ms_alloc ms_mgr ms_stash w_heap w_alloc w_mgr] in *.
  split; cbn [wsys ms_heap ms_alloc ms_mgr ms_stash w_heap w_alloc w_mgr]; try done.
  - apply (same_on_rep _ _ _ _ _ S); [|done]. unfold table_frames. clear. set_solver.
  - intros t. specialize (M6 t). destruct (om_get t _) as [sp|] eqn:E; [|done].
    destruct M6 as (u' & ? & Hu'). exists u'. split; [done|].
    apply (user_rel_mono _ _ TK TK _ _ _ Hu' S); [|by intros ? ?].
    apply om_get_snd, frames_of_elem in E; [|done]. unfold table_frames. clear -E. set_solver.
  - inversion M7. constructor.
  - unfold table_frames in H. by rewrite <- app_assoc in H.
Qed.

Lemma trel_perm rest rest' w v : trel rest w v -> rest ≡ₚ rest' -> trel rest' w v.
Proof.
  intros T Hp. replace w with (mkW (w_heap w) (w_alloc w) (w_mgr w)) by (by destruct w).
  apply (trel_same rest); [done|apply same_on_refl|].
  apply (fs_perm _ _ _ _ (trel_rep _ _ _ T)). by rewrite Hp.
Qed.

Lemma trel_alloc rest w v size : trel rest w v ->
  exists r w', w_alloc_frames w size = Ret (r, w') /\ same_on rest (w_heap w) (w_heap w') /\
    match r with
    | Some fs => trel (fs ++ rest) w' v /\ size <= frames_total fs /\ frames_total fs = served size
    | None => trel rest w' v
    end.
Proof.
  intros T. pose proof (trel_rep _ _ _ T) as H. unfold w_alloc_frames.
  destruct (take_frames_ok _ _ _ size H) as (r & h & a & -> & S & Hr).
  rewrite outcome_bind_Ret. exists r, (mkW h a (w_mgr w)). split; [done|].
  split; [apply (same_on_sub _ _ _ _ S); clear; set_solver|].
  assert (S1 : same_on (table_frames w) (w_heap w) h)
    by (apply (same_on_sub _ _ _ _ S); clear; set_solver).
  destruct r as [fs|]; [destruct Hr as [H' Ht]; split; [|done]|];
    apply (trel_same rest); try done.
  apply (fs_perm _ _ _ _ H'). apply Permutation_app_swap_app.
Qed.

Lemma trel_drop fs rest w v : trel (fs ++ rest) w v ->
  exists w', w_drop_frames w fs = Ret w' /\ same_on rest (w_heap w) (w_heap w') /\ trel rest w' v.
Proof.
  intros T. pose proof (trel_rep _ _ _ T) as H. unfold w_drop_frames.
  assert (H1 : fs_rep (w_heap w) (w_alloc w) (fs ++ table_frames w ++ rest))
    by (apply (fs_perm _ _ _ _ H), Permutation_app_swap_app).
  destruct (free_frames_ok _ _ _ _ H1) as (h & a & -> & H' & S).
  rewrite outcome_bind_Ret. exists (mkW h a (w_mgr w)). split; [done|].
  split; [apply (same_on_sub _ _ _ _ S); clear; set_solver|].
  apply (trel_same (fs ++ rest)); [done| |done].
  apply (same_on_sub _ _ _ _ S). clear. set_solver.
Qed.

(** A store into a frame of [rest]. *)
Lemma trel_write rest w v f x y : trel rest w v -> f ∈ rest -> in_frame f x ->
  trel rest (mkW (<[x := y]> (w_heap w)) (w_alloc w) (w_mgr w)) v.
Proof.
  intros T Hf Hx. pose proof (trel_rep _ _ _ T) as H. apply (trel_same rest); [done| |].
  - intros g z Hg Hz. apply lookup_insert_ne. intros <-.
    apply elem_of_Permutation in Hf as (rest' & Hp).
    assert (H1 : fs_rep (w_heap w) (w_alloc w) (f :: table_frames w ++ rest')).
    { apply (fs_perm _ _ _ _ H). rewrite Hp. by rewrite <- Permutation_middle. }
    destruct (fs_disjoint _ _ _ _ g H1) as [Hd|Hd]; [clear -Hg; set_solver|..];
      unfold in_frame in *; lia.
  - apply (fs_write _ _ _ f); [done|clear -Hf; set_solver|done].
Qed.

Lemma trel_frame rest w v f : trel rest w v -> f ∈ rest ->
  frame_ok f /\ forall x, in_frame f x -> x mod 8 = 0 -> is_Some (w_heap w !! x).
Proof.
  intros T Hf. apply (fs_held _ _ _ f (trel_rep _ _ _ T)). apply elem_of_app. by right.
Qed.

(** *** Runs of pages *)

Lemma unmap_pages_ok n rest w v va : trel rest w v -> aligned va ->
  canon_range va (va + PAGE_SIZE * Z.of_nat n) ->
  exists w', unmap_pages n w tid va = Ret w' /\ same_on rest (w_heap w) (w_heap w') /\
    trel rest w' (cleared v va (va + PAGE_SIZE * Z.of_nat n)).
Proof.
  revert w v va. induction n as [|n IH]; intros w v va T Ha Hc; cbn [unmap_pages].
  { exists w. split; [done|]. split; [apply same_on_refl|]. apply (trel_ext _ _ _ _ T).
    intros x _. unfold cleared. destruct (Z.leb_spec va x), (Z.ltb_spec x (va + PAGE_SIZE * Z.of_nat 0));
      simpl; try done; lia. }
  destruct (trel_unmap rest w v va T) as (w1 & -> & S1 & T1).
  { apply (canon_in _ _ _ Hc). unfold PAGE_SIZE. lia. }
  rewrite outcome_bind_Ret.
  destruct (IH w1 _ (va + PAGE_SIZE) T1) as (w2 & -> & S2 & T2).
  { apply aligned_add; [done|]. reflexivity. }
  { unfold canon_range, PAGE_SIZE in *. lia. }
  exists w2. split; [done|]. split; [by eapply same_on_trans|]. apply (trel_ext _ _ _ _ T2).
  intros x _. unfold cleared. assert (Hx := page_eq x va Ha).
  destruct (Z.eqb_spec (page x) (page va)) as [E|E]; rewrite Hx in E; unfold PAGE_SIZE in *;
    between.
Qed.

Lemma map_segment_ok n rest w v base start step flags : trel rest w v ->
  aligned base -> aligned step -> 0 <= step -> 0 <= start ->
  canon_range base (base + step + PAGE_SIZE * Z.of_nat n) ->
  start + step + PAGE_SIZE * Z.of_nat n <= 2 ^ 63 ->
  exists r w', map_segment n w tid base start step flags = Ret (r, w') /\
    same_on rest (w_heap w) (w_heap w') /\
    match r with
    | None => trel rest w' (over v (base + step) (base + step + PAGE_SIZE * Z.of_nat n)
        (start + step) flags)
    | Some (err, step') => step <= step' < step + PAGE_SIZE * Z.of_nat n /\ aligned step' /\
        (err = OutOfMemory \/ err = PageTableMissing) /\
        trel rest w' (over v (base + step) (base + step') (start + step) flags)
    end.
Proof.
  revert w v step. induction n as [|n IH]; intros w v step T Hb Hs H0 Hst Hc Hp; cbn [map_segment].
  { exists None, w. split; [done|]. split; [apply same_on_refl|]. apply (trel_ext _ _ _ _ T).
    intros x _. unfold over. between. }
  assert (Hr : base + step < 2 ^ 64) by (unfold canon_range, PAGE_SIZE in *; lia).
  unfold usize_add. rewrite (proj2 (Z.ltb_lt _ _) Hr), outcome_bind_Ret.
  destruct (Z.ltb_spec (start + step) (2 ^ 64)) as [_|]; [|unfold PAGE_SIZE in *; lia].
  rewrite outcome_bind_Ret.
  destruct (trel_map rest w v (base + step) (start + step) flags T) as (r & w1 & -> & S1 & Hr1).
  { apply (canon_in _ _ _ Hc). unfold PAGE_SIZE. lia. }
  rewrite outcome_bind_Ret. assert (Ha : aligned (base + step)) by (by apply aligned_add).
  destruct r as [[]|e].
  2: { exists (Some (e, step)), w1. split; [done|]. split; [done|]. destruct Hr1 as [He T1].
       split; [unfold PAGE_SIZE; lia|]. split; [done|]. split; [clear -He; tauto|].
       apply (trel_ext _ _ _ _ T1). intros x _. unfold over. between. }
  destruct Hr1 as [_ T1]. destruct (IH w1 _ (step + PAGE_SIZE) T1) as (r & w2 & -> & S2 & Hr2);
    [done|by apply aligned_add|unfold PAGE_SIZE; lia|done|unfold canon_range, PAGE_SIZE in *; lia|
     unfold PAGE_SIZE in *; lia|].
  exists r, w2. split; [done|]. split; [by eapply same_on_trans|].
  assert (Hv : forall hi x, base + step + PAGE_SIZE <= hi -> aligned hi ->
    over (fun va' => if page va' =? page (base + step) then Some (leaf_pte (start + step) flags)
       else v va') (base + (step + PAGE_SIZE)) hi (start + (step + PAGE_SIZE)) flags x =
    over v (base + step) hi (start + step) flags x).
  { intros hi x Hhi Hal. unfold over. assert (Hx := page_eq x _ Ha).
    destruct (Z.eqb_spec (page x) (page (base + step))) as [E|E].
    - assert (Ep : page_start x = base + step).
      { unfold page_start. rewrite E. symmetry. by apply aligned_page. }
      rewrite Hx in E. rewrite Ep.
      destruct (Z.leb_spec (base + (step + PAGE_SIZE)) x); [unfold PAGE_SIZE in *; lia|].
      destruct (Z.leb_spec (base + step) x), (Z.ltb_spec x hi); try lia. cbn [andb].
      do 2 f_equal. lia.
    - rewrite Hx in E. destruct (Z.ltb_spec x hi); [|by rewrite !andb_false_r].
      destruct (Z.leb_spec (base + (step + PAGE_SIZE)) x), (Z.leb_spec (base + step) x);
        cbn [andb]; try (unfold PAGE_SIZE in *; lia); [|done]. do 2 f_equal. lia. }
  destruct r as [[err step']|].
  - destruct Hr2 as (Hs1 & Hs2 & He & T2). split; [unfold PAGE_SIZE in *; lia|]. split; [done|].
    split; [done|]. apply (trel_ext _ _ _ _ T2). intros x _. apply Hv; [lia|by apply aligned_add].
  - apply (trel_ext _ _ _ _ Hr2). intros x _.
    replace (base + (step + PAGE_SIZE) + PAGE_SIZE * Z.of_nat n)
      with (base + step + PAGE_SIZE * Z.of_nat (S n)) by (unfold PAGE_SIZE; lia).
    apply Hv; [unfold PAGE_SIZE; lia|]. apply aligned_add; [done|apply aligned_mul].
Qed.

(** A mapping that stopped after [k] bytes, taken back from [addr] on. *)
Lemma map_segments_ok frames rest w v addr mapped flags : trel rest w v ->
  Forall frame_ok frames -> aligned addr -> aligned mapped -> 0 <= mapped ->
  canon_range addr (addr + mapped + frames_total frames) ->
  exists r w', map_segments w tid addr mapped frames flags = Ret (r, w') /\
    same_on rest (w_heap w) (w_heap w') /\
    match r with
    | Ok _ => trel rest w' (over_frames v (addr + mapped) frames flags)
    | Err e => (e = ENOMEM \/ e = EINVAL) /\
        exists k, aligned k /\ mapped <= k <= mapped + frames_total frames /\
        trel rest w' (cleared v addr (addr + k))
    end.
Proof.
  intros T HF. revert w v mapped T. induction HF as [|f frames Hf HF IH];
    intros w v mapped T Ha Hm H0 Hc; cbn [map_segments].
  { exists (Ok tt), w. split; [done|]. split; [apply same_on_refl|]. apply (trel_ext _ _ _ _ T).
    intros va _. unfold over_frames. by destruct (_ <=? _). }
  pose proof (total_pos _ HF) as Hpos. cbn [frames_total foldr] in Hc.
  fold (frames_total frames) in Hc. pose proof Hf as (Hs & _ & Hz & Hz' & Hhi).
  assert (Hn : PAGE_SIZE * Z.of_nat (page_steps 0 (fr_size f)) = fr_size f).
  { rewrite page_steps_aligned; [lia|by rewrite Z.sub_0_r|unfold PAGE_SIZE in *; lia]. }
  assert (Hb : addr + mapped < 2 ^ 64 /\ mapped + fr_size f < 2 ^ 64)
    by (unfold canon_range, LOW_HALF_END, HIGH_HALF_START, PAGE_SIZE in *; lia).
  unfold usize_add. rewrite (proj2 (Z.ltb_lt _ _) (proj1 Hb)), outcome_bind_Ret.
  destruct (map_segment_ok (page_steps 0 (fr_size f)) rest w v (addr + mapped) (fr_start f) 0 flags T)
    as (r & w1 & -> & S1 & Hr1);
    [by apply aligned_add|done|lia|lia|rewrite Z.add_0_r, Hn; unfold canon_range in *; lia|lia|].
  rewrite outcome_bind_Ret, !Z.add_0_r, Hn in *. destruct r as [[err step]|].
  - destruct Hr1 as (Hstep & Hal & He & T1).
    assert (Hk : PAGE_SIZE * Z.of_nat (page_steps 0 (mapped + step)) = mapped + step).
    { rewrite page_steps_aligned; [lia|rewrite Z.sub_0_r; by apply aligned_add|lia]. }
    destruct (unmap_pages_ok (page_steps 0 (mapped + step)) rest w1 _ addr T1 Ha)
      as (w2 & -> & S2 & T2); [rewrite Hk; unfold canon_range in *; lia|].
    rewrite Hk in T2. rewrite outcome_bind_Ret. eexists (Err _), w2. split; [done|].
    split; [by eapply same_on_trans|]. split; [destruct He as [-> | ->]; [by left|by right]|].
    exists (mapped + step). split; [by apply aligned_add|]. cbn [frames_total foldr].
    fold (frames_total frames). split; [lia|]. apply (trel_ext _ _ _ _ T2).
    intros va _. unfold cleared, over. between.
  - rewrite (proj2 (Z.ltb_lt _ _) (proj2 Hb)), outcome_bind_Ret.
    destruct (IH w1 _ (mapped + fr_size f) Hr1) as (r & w2 & -> & S2 & Hr2);
      [done|by apply aligned_add|unfold PAGE_SIZE in *; lia|unfold canon_range in *; lia|].
    exists r, w2. split; [done|]. split; [by eapply same_on_trans|]. destruct r as [[]|e].
    + apply (trel_ext _ _ _ _ Hr2). intros va _. rewrite <- over_frames_cons by (try done; by apply aligned_add).
      by rewrite Z.add_assoc.
    + destruct Hr2 as (He & k & Hk1 & Hk2 & T2). split; [done|]. exists k. split; [done|].
      cbn [frames_total foldr]. fold (frames_total frames).
      split; [unfold PAGE_SIZE in *; lia|]. apply (trel_ext _ _ _ _ T2).
      intros va _. unfold cleared, over. between.
Qed.

Lemma map_frame_ok rest w v ms addr frames flags : trel (frames ++ rest) w v -> aligned addr ->
  canon_range addr (addr + frames_total frames) ->
  exists r w' ms', map_frame w ms tid addr frames flags = Ret (r, w', ms') /\
    match r with
    | Ok _ => same_on (frames ++ rest) (w_heap w) (w_heap w') /\
        ms' = with_mappings ms (ms_mappings ms ++ [mkMapping addr frames flags]) /\
        trel (frames ++ rest) w' (if flags_leaf flags then over_frames v addr frames flags else v)
    | Err e => same_on rest (w_heap w) (w_heap w') /\ ms' = ms /\ (e = ENOMEM \/ e = EINVAL) /\
        exists k, aligned k /\ 0 <= k <= frames_total frames /\
        trel rest w' (cleared v addr (addr + k))
    end.
Proof.
  intros T Ha Hc. assert (HF : Forall frame_ok frames).
  { apply Forall_forall. intros f Hf. apply (trel_frame _ _ _ f T). apply elem_of_app. by left. }
  unfold map_frame. destruct (flags_leaf flags).
  2: { rewrite outcome_bind_Ret. eexists (Ok tt), w, _. split; [done|].
       split; [apply same_on_refl|]. by split. }
  destruct (map_segments_ok frames _ w v addr 0 flags T HF Ha) as (r & w1 & -> & S1 & Hr);
    [done|lia|by rewrite Z.add_0_r|].
  rewrite outcome_bind_Ret, Z.add_0_r in *. destruct r as [[]|e].
  - eexists (Ok tt), w1, _. split; [done|]. by split; [|split].
  - destruct Hr as (He & k & Hk1 & Hk2 & T1). destruct (trel_drop _ _ _ _ T1) as (w2 & -> & S2 & T2).
    rewrite outcome_bind_Ret. eexists (Err e), w2, ms. split; [done|].
    split. { apply (same_on_trans _ _ (w_heap w1)); [|done].
             apply (same_on_sub _ _ _ _ S1). clear. set_solver. }
    split; [done|]. split; [done|]. exists k. split; [done|]. split; [lia|done].
Qed.

End Task.
