(* ===== verification/MapOps.v ===== *)
(** * MapOps: [mmap], [munmap] and [mremap] against the table of mappings

    What the operations of [MemoryMap] do to the flags and the words a task
    sees at its addresses, on every result. *)

From stdpp Require Import gmap.
From S2P Require Import Prelude OrdMap Buddy FrameAlloc BitFields Abi PageTable SpaceClone SpaceManager.
From S2P Require Import MemoryMap MapTable MapTheory.

Section Ops.
Context {A : Type} {FS : FrameSource A} {FL : FrameLaws A}.
Context (abs0 : mabs) (tid : Z) (sh : Z -> bool).

Abbreviation trel := (trel abs0 tid sh).

(** ** Words of frames *)

Definition set_heap (w : @world A) (h : heap) : @world A := mkW h (w_alloc w) (w_mgr w).

Lemma fill_words n rest w v f p i x : trel rest w v -> f ∈ rest -> p mod 8 = 0 ->
  fr_start f <= p + 8 * i -> p + 8 * (i + Z.of_nat n) <= fr_start f + fr_size f ->
  exists h', fill_entries n (w_heap w) p i x = Ret h' /\ trel rest (set_heap w h') v /\
    (forall k, i <= k < i + Z.of_nat n -> h' !! (p + 8 * k) = Some x) /\
    (forall y, (forall k, i <= k < i + Z.of_nat n -> y <> p + 8 * k) -> h' !! y = w_heap w !! y).
Proof.
  revert w i. induction n as [|n IH]; intros w i T Hf Hp Hlo Hhi; cbn [fill_entries].
  { exists (w_heap w). split; [done|]. split; [by destruct w|]. split; [lia|done]. }
  assert (Hin : in_frame f (p + 8 * i)) by (unfold in_frame; lia).
  destruct (proj2 (trel_frame _ _ _ _ _ _ _ T Hf) (p + 8 * i) Hin) as [e He].
  { rewrite Z.mul_comm, Z.mod_add by lia. done. }
  unfold entry_put, store. rewrite He, outcome_bind_Ret.
  pose proof (trel_write _ _ _ _ _ _ _ _ x T Hf Hin) as T1.
  destruct (IH _ (i + 1) T1) as (h' & E & T' & H1 & H2); [done|done|lia|lia|].
  exists h'. split; [exact E|]. split; [done|]. cbn [w_heap] in *. split.
  - intros k Hk. destruct (decide (k = i)) as [->|]; [|apply H1; lia].
    rewrite H2 by lia. apply lookup_insert_eq.
  - intros y Hy. rewrite H2 by (intros; apply Hy; lia). apply lookup_insert_ne.
    intros E0. by apply (Hy i); [lia|].
Qed.

Lemma copy_words n rest w v f src dst i : trel rest w v -> f ∈ rest -> dst mod 8 = 0 ->
  fr_start f <= dst + 8 * i -> dst + 8 * (i + Z.of_nat n) <= fr_start f + fr_size f ->
  (forall k, i <= k < i + Z.of_nat n -> is_Some (w_heap w !! (src + 8 * k)) /\ ~ in_frame f (src + 8 * k)) ->
  exists h', copy_entries n (w_heap w) src dst i = Ret h' /\ trel rest (set_heap w h') v /\
    (forall k, i <= k < i + Z.of_nat n -> h' !! (dst + 8 * k) = w_heap w !! (src + 8 * k)) /\
    (forall y, (forall k, i <= k < i + Z.of_nat n -> y <> dst + 8 * k) -> h' !! y = w_heap w !! y).
Proof.
  revert w i. induction n as [|n IH]; intros w i T Hf Hp Hlo Hhi Hs; cbn [copy_entries].
  { exists (w_heap w). split; [done|]. split; [by destruct w|]. split; [lia|done]. }
  assert (Hin : in_frame f (dst + 8 * i)) by (unfold in_frame; lia).
  destruct (proj2 (trel_frame _ _ _ _ _ _ _ T Hf) (dst + 8 * i) Hin) as [e He].
  { rewrite Z.mul_comm, Z.mod_add by lia. done. }
  destruct (Hs i ltac:(lia)) as [[x Hx] _]. unfold entry_get, load. rewrite Hx. cbn [expect].
  rewrite outcome_bind_Ret. unfold entry_put, store. rewrite He, outcome_bind_Ret.
  pose proof (trel_write _ _ _ _ _ _ _ _ x T Hf Hin) as T1.
  assert (Hne : forall k, i <= k < i + Z.of_nat (S n) -> dst + 8 * i <> src + 8 * k).
  { intros k Hk E. destruct (Hs k Hk) as [_ Hn]. apply Hn. by rewrite <- E. }
  destruct (IH _ (i + 1) T1) as (h' & E & T' & H1 & H2); [done|done|lia|lia| |].
  { intros k Hk. cbn [w_heap]. destruct (Hs k ltac:(lia)) as [Hk1 Hk2]. split; [|done].
    by rewrite lookup_insert_ne by (apply Hne; lia). }
  exists h'. split; [exact E|]. split; [done|]. cbn [w_heap] in *. split.
  - intros k Hk. destruct (decide (k = i)) as [->|].
    + rewrite H2 by lia. by rewrite lookup_insert_eq.
    + rewrite H1 by lia. by rewrite lookup_insert_ne by (apply Hne; lia).
  - intros y Hy. rewrite H2 by (intros; apply Hy; lia). apply lookup_insert_ne.
    intros E0. by apply (Hy i); [lia|].
Qed.

(** A frame in the hands of the client meets no other frame of theirs. *)
Lemma trel_apart rest w v f g x : trel (f :: rest) w v -> g ∈ rest -> in_frame g x -> ~ in_frame f x.
Proof.
  intros T Hg Hx Hf. pose proof (trel_rep _ _ _ _ _ _ T) as H.
  assert (H1 : fs_rep (w_heap w) (w_alloc w) (f :: table_frames w ++ rest))
    by (apply (fs_perm _ _ _ _ H); by rewrite <- Permutation_middle).
  destruct (fs_disjoint _ _ _ _ g H1) as [Hd|Hd]; [clear -Hg; set_solver|..];
    unfold in_frame in *; lia.
Qed.

Lemma zero_frames_ok frames rest w v : trel (frames ++ rest) w v ->
  exists h', zero_frames (w_heap w) frames = Ret h' /\ trel (frames ++ rest) (set_heap w h') v /\
    same_on rest (w_heap w) h' /\ all_zero h' frames.
Proof.
  revert rest w. induction frames as [|f frames IH]; intros rest w T; cbn [zero_frames].
  { exists (w_heap w). split; [done|]. split; [by destruct w|]. split; [apply same_on_refl|].
    by intros f x ?%not_elem_of_nil. }
  destruct (trel_frame _ _ _ _ _ _ f T) as [(H1 & H2 & H3 & H4 & H5) _]; [left|].
  assert (Hal : fr_start f mod 8 = 0 /\ fr_size f mod 8 = 0).
  { apply aligned_iff in H2 as [k ->], H4 as [l ->]. unfold PAGE_SIZE.
    change 4096 with (512 * 8). rewrite <- !Z.mul_assoc, !(Z.mul_comm 512), <- !Z.mul_assoc, !(Z.mul_comm 8).
    by rewrite !Z.mod_mul. }
  destruct Hal as [Hal1 Hal2].
  assert (Hsz : 8 * Z.of_nat (Z.to_nat (fr_size f / 8)) = fr_size f).
  { pose proof (Z.div_mod (fr_size f) 8 ltac:(lia)). rewrite Z2Nat.id; [lia|].
    apply Z.div_pos; unfold PAGE_SIZE in *; lia. }
  unfold zero_frame.
  destruct (fill_words (Z.to_nat (fr_size f / 8)) _ w v f (fr_start f) 0 0 T)
    as (h1 & -> & T1 & Z1 & N1); [left|done|lia|lia|].
  rewrite outcome_bind_Ret.
  assert (S1 : same_on (frames ++ rest) (w_heap w) h1).
  { intros g x Hg Hx. apply N1. intros k Hk ->.
    apply (trel_apart _ _ _ _ _ _ T Hg Hx). unfold in_frame. lia. }
  destruct (IH (f :: rest) (set_heap w h1)) as (h2 & E & T2 & S2 & Z2).
  { apply (trel_perm _ _ _ _ _ _ _ T1). apply (Permutation_middle frames rest f). }
  exists h2. split; [exact E|]. split.
  { apply (trel_perm _ _ _ _ _ _ _ T2). symmetry. apply (Permutation_middle frames rest f). }
  split.
  - apply (same_on_trans _ _ h1); [apply (same_on_sub _ _ _ _ S1); clear; set_solver|].
    apply (same_on_sub _ _ _ _ S2). clear. set_solver.
  - intros g x Hg Hx Hm. apply elem_of_cons in Hg as [->|Hg]; [|by apply (Z2 g)].
    rewrite (S2 f x) by (done || left). cbn [set_heap w_heap].
    replace x with (fr_start f + 8 * ((x - fr_start f) / 8)).
    + apply Z1. unfold in_frame in Hx. pose proof (Z.div_mod (x - fr_start f) 8 ltac:(lia)).
      pose proof (Z.mod_pos_bound (x - fr_start f) 8 ltac:(lia)). lia.
    + assert (Hd : (x - fr_start f) mod 8 = 0) by (rewrite Zminus_mod, Hm, Hal1; done).
      pose proof (Z.div_mod (x - fr_start f) 8 ltac:(lia)). lia.
Qed.

Lemma trel_frames frames rest w v : trel (frames ++ rest) w v ->
  Forall frame_ok frames /\ ForallOrdPairs frame_dis frames.
Proof.
  intros T. split.
  { apply Forall_forall. intros f Hf. apply (trel_frame _ _ _ _ _ _ f T), elem_of_app. by left. }
  pose proof (trel_rep _ _ _ _ _ _ T) as H.
  assert (H1 : fs_rep (w_heap w) (w_alloc w) (frames ++ table_frames w ++ rest))
    by (apply (fs_perm _ _ _ _ H), Permutation_app_swap_app).
  revert H1. generalize (table_frames w ++ rest). clear -FL.
  induction frames as [|f frames IH]; intros l H; [constructor|]. constructor.
  - apply List.Forall_forall. intros g Hg%list_elem_of_In. apply (fs_disjoint _ _ _ _ g H).
    apply elem_of_app. by left.
  - apply (IH (f :: l)). apply (fs_perm _ _ _ _ H). apply (Permutation_middle frames l f).
Qed.

Lemma copy_page_ok frames rest w v l va off m : trel (frames ++ tab_frames l ++ rest) w v ->
  Forall mapping_wf l -> aligned va -> mapping_at l va = Some m -> aligned off -> 0 <= off ->
  off + PAGE_SIZE <= frames_total frames ->
  exists src dst h', m_phys m va = Some src /\ phys_at_offset frames off = Ret dst /\
    copy_page (w_heap w) src dst = Ret h' /\ trel (frames ++ tab_frames l ++ rest) (set_heap w h') v /\
    same_on (tab_frames l ++ rest) (w_heap w) h' /\
    holds h' frames off (off + PAGE_SIZE) (fun o => tab_word l (w_heap w) (va + (o - off))) /\
    forall o p, 0 <= o -> ~ (off <= o < off + PAGE_SIZE) -> phys_of frames o = Some p ->
      h' !! p = w_heap w !! p.
Proof.
  intros T HF Ha Hm Hal H0 Ht. destruct (trel_frames _ _ _ _ T) as [Hok Hdis].
  destruct (mapping_page l va m HF Hm Ha) as (f & x & Hf & Hx & Hx0 & Hxz & Eph & Hw).
  destruct (phys_of_page frames off Hok Hal H0 Ht) as (g & y & Hg & Hy & Hy0 & Hyz & Hph).
  assert (Eoff : phys_of frames off = Some (fr_start g + y)).
  { rewrite <- (Z.add_0_r off), Hph by (unfold PAGE_SIZE; lia). f_equal. lia. }
  destruct (trel_frame _ _ _ _ _ _ g T) as [(Hg1 & Hg2 & _) _]; [apply elem_of_app; by left|].
  assert (Hfin : f ∈ frames ++ tab_frames l ++ rest) by (clear -Hf; set_solver).
  destruct (trel_frame _ _ _ _ _ _ f T Hfin) as [(Hf1 & Hf2 & _) Hsome].
  pose proof Hg as (frames' & Hp)%elem_of_Permutation.
  assert (T1 : trel (g :: frames' ++ tab_frames l ++ rest) w v).
  { apply (trel_perm _ _ _ _ _ _ _ T). by rewrite Hp. }
  assert (Hapart : forall z, in_frame f z -> ~ in_frame g z).
  { intros z Hz. apply (trel_apart _ _ _ _ f z T1); [|done]. clear -Hf. set_solver. }
  destruct (copy_words PTE_NUMBER _ w v g (fr_start f + x) (fr_start g + y) 0 T)
    as (h' & Ec & T' & C1 & C2).
  { apply elem_of_app. by left. }
  { apply mul8_page. by apply aligned_add. }
  { lia. }
  { change (Z.of_nat PTE_NUMBER) with 512. unfold PAGE_SIZE in *. lia. }
  { intros k Hk. change (Z.of_nat PTE_NUMBER) with 512 in Hk.
    assert (Hin : in_frame f (fr_start f + x + 8 * k)) by (unfold in_frame, PAGE_SIZE in *; lia).
    split; [|by apply Hapart]. apply Hsome; [done|]. rewrite (Z.mul_comm 8), Z.mod_add by lia.
    apply mul8_page. by apply aligned_add. }
  change (Z.of_nat PTE_NUMBER) with 512 in *.
  assert (Hsame : same_on (tab_frames l ++ rest) (w_heap w) h').
  { intros r z Hr Hz. apply C2. intros k Hk ->.
    apply (trel_apart _ _ _ _ r _ T1) in Hz; [|clear -Hr; set_solver]. apply Hz.
    unfold in_frame, PAGE_SIZE in *. lia. }
  exists (fr_start f + x), (fr_start g + y), h'. split; [done|].
  split; [rewrite phys_at_offset_ok by done; by rewrite Eoff|].
  split; [done|]. split; [done|]. split; [done|]. split.
  - intros o Ho Hm8. exists (fr_start g + y + (o - off)). split.
    { rewrite <- Hph by lia. f_equal. lia. }
    assert (Hd : (o - off) mod 8 = 0) by (rewrite Zminus_mod, Hm8, (mul8_page off Hal); done).
    pose proof (Z.div_mod (o - off) 8 ltac:(lia)) as Hdiv. rewrite Hd, Z.add_0_r in Hdiv.
    rewrite Hw by lia. rewrite Hdiv. apply C1. unfold PAGE_SIZE in *. lia.
  - intros o p Ho0 Ho Ep. apply C2. intros k Hk ->.
    assert (off + 8 * k = o); [|unfold PAGE_SIZE in *; lia]. apply (phys_of_inj frames _ _ (fr_start g + y + 8 * k) Hdis);
      [lia|lia| |done]. apply Hph. unfold PAGE_SIZE in *. lia.
Qed.

(** Copying ends early only at a page without a mapping. *)
Lemma copy_mapped_ok n frames rest w v ms va off :
  let l := ms_mappings ms in
  trel (frames ++ tab_frames l ++ rest) w v -> Forall mapping_wf l -> aligned va -> aligned off ->
  0 <= va -> 0 <= off -> off + PAGE_SIZE * Z.of_nat n <= frames_total frames ->
  va + off + PAGE_SIZE * Z.of_nat n <= 2 ^ 64 ->
  exists b h', copy_mapped n (w_heap w) ms va off frames = Ret (b, h') /\
    trel (frames ++ tab_frames l ++ rest) (set_heap w h') v /\
    same_on (tab_frames l ++ rest) (w_heap w) h' /\
    (forall o p, 0 <= o -> ~ (off <= o < off + PAGE_SIZE * Z.of_nat n) ->
      phys_of frames o = Some p -> h' !! p = w_heap w !! p) /\
    if b : bool then
      holds h' frames off (off + PAGE_SIZE * Z.of_nat n) (fun o => tab_word l (w_heap w) (va + o))
    else exists x, off <= x < off + PAGE_SIZE * Z.of_nat n /\ mapping_at l (va + x) = None.
Proof.
  intros l. revert w off. induction n as [|n IH]; intros w off T HF Ha Hal Hv H0 Ht Hb; cbn [copy_mapped].
  { exists true, (w_heap w). split; [done|]. split; [by destruct w|]. split; [apply same_on_refl|].
    split; [done|]. intros o Ho. lia. }
  unfold usize_add. destruct (Z.ltb_spec (va + off) (2 ^ 64)); [|unfold PAGE_SIZE in *; lia].
  rewrite outcome_bind_Ret. unfold page_phys. rewrite mappings_phys_ok by done. fold l.
  rewrite outcome_bind_Ret. destruct (mapping_at l (va + off)) as [m|] eqn:Em; cbn [mbind option_bind].
  2: { exists false, (w_heap w). split; [done|]. split; [by destruct w|]. split; [apply same_on_refl|].
       split; [done|]. exists off. split; [unfold PAGE_SIZE; lia|done]. }
  destruct (copy_page_ok frames rest w v l (va + off) off m T HF)
    as (src & dst & h1 & -> & -> & E1 & T1 & S1 & W1 & K1);
    [by apply aligned_add|done|done|done|unfold PAGE_SIZE in *; lia|].
  rewrite outcome_bind_Ret, E1, outcome_bind_Ret.
  destruct (IH (set_heap w h1) (off + PAGE_SIZE) T1 HF) as (b & h2 & E2 & T2 & S2 & K2 & Hr);
    [done|by apply aligned_add|done|unfold PAGE_SIZE; lia|unfold PAGE_SIZE in *; lia..|].
  exists b, h2. split; [exact E2|]. split; [done|]. cbn [set_heap w_heap] in *.
  split; [by eapply same_on_trans|]. split.
  { intros o p Ho0 Ho Ep. rewrite (K2 o) by (try done; unfold PAGE_SIZE in *; lia).
    apply (K1 o); [done| |done]. unfold PAGE_SIZE in *. lia. }
  destruct b.
  - intros o Ho Hm8. destruct (Z_lt_ge_dec o (off + PAGE_SIZE)) as [Hlo|Hhi].
    + destruct (W1 o ltac:(lia) Hm8) as (p & Ep & Ew). exists p. split; [done|].
      rewrite (K2 o) by (done || lia). rewrite Ew. f_equal. lia.
    + destruct (Hr o ltac:(unfold PAGE_SIZE in *; lia) Hm8) as (p & Ep & Ew). exists p. split; [done|].
      rewrite Ew. by apply (word_same l rest).
  - destruct Hr as (x & Hx & E). exists x. split; [unfold PAGE_SIZE in *; lia|done].
Qed.

(** ** The invariant *)

(** The page table shows the table of mappings, whose frames the task owns. *)
Record minv (rest : list Frame) (w : @world A) (l : list UserMapping) : Prop := {
  mi_rel : trel (tab_frames l ++ rest) w (tab_view l);
  mi_wf : tab_wf l
}.

(** Mapping a run of frames where no mapping is. *)
Lemma map_frame_inv frames rest w ms addr flags :
  let l := ms_mappings ms in
  let m := mkMapping addr frames flags in
  trel (frames ++ tab_frames l ++ rest) w (tab_view l) -> tab_wf l -> mapping_wf m ->
  tab_clear l addr (m_end m) ->
  exists r w' ms', map_frame w ms tid addr frames flags = Ret (r, w', ms') /\
    match r with
    | Ok _ => ms_mappings ms' = l ++ [m] /\ minv rest w' (l ++ [m]) /\
        same_on (frames ++ tab_frames l ++ rest) (w_heap w) (w_heap w')
    | Err e => ms_mappings ms' = l /\ minv rest w' l /\ (e = ENOMEM \/ e = EINVAL) /\
        same_on (tab_frames l ++ rest) (w_heap w) (w_heap w')
    end.
Proof.
  intros l m T Hw Hm Hc. destruct (map_frame_ok abs0 tid sh _ w _ ms addr frames flags T)
    as (r & w' & ms' & E & Hr); [apply Hm|apply (mw_range _ Hm)|].
  exists r, w', ms'. split; [done|]. destruct r as [[]|e].
  - destruct Hr as (S & -> & T'). split; [done|]. split; [|done]. split; [|by apply tab_wf_snoc].
    rewrite tab_frames_app. cbn [tab_frames fmap list_fmap concat um_frames]. rewrite app_nil_r.
    apply (trel_perm _ _ _ (frames ++ tab_frames l ++ rest)).
    + apply (trel_ext _ _ _ _ _ _ _ T'). intros va _. rewrite tab_view_snoc by done.
      unfold m. cbn [um_flags um_va um_frames]. by destruct (flags_leaf flags).
    + rewrite <- app_assoc. apply Permutation_app_swap_app.
  - destruct Hr as (S & -> & He & k & Hk1 & Hk2 & T'). split; [done|]. split; [|done].
    split; [|done]. apply (trel_ext _ _ _ _ _ _ _ T'). intros va _. unfold cleared.
    destruct ((addr <=? va) && (va <? addr + k)) eqn:E1; [|done]. zify_bool. symmetry.
    apply (tab_view_clear l addr (m_end m)); [done|]. unfold m_end, m. cbn [um_va um_frames]. lia.
Qed.

(** *** Taking mappings down *)

Lemma tear_down_ok js rest w ms : minv rest w (ms_mappings ms) -> valid_indices js (ms_mappings ms) ->
  exists w' ms', tear_down w ms tid js = Ret (w', ms') /\
    ms_mappings ms' = delete_all (ms_mappings ms) js /\ minv rest w' (ms_mappings ms') /\
    same_on (tab_frames (ms_mappings ms') ++ rest) (w_heap w) (w_heap w') .
Proof.
  revert w ms. induction js as [|i js IH]; intros w ms [T [HF HD]] Hv; cbn [tear_down].
  { exists w, ms. split; [done|]. split; [done|]. split; [by split; [|split]|apply same_on_refl]. }
  destruct Hv as [[m Hi] Hv]. rewrite Hi. cbn [expect]. rewrite outcome_bind_Ret.
  assert (Hm : mapping_wf m) by (by apply (Forall_lookup_1 _ _ _ _ HF Hi)).
  rewrite (mapping_range_ok m Hm), outcome_bind_Ret.
  assert (Hn : PAGE_SIZE * Z.of_nat (page_steps (um_va m) (m_end m)) = m_end m - um_va m).
  { apply page_steps_aligned; [|destruct (mw_some _ Hm); lia].
    apply aligned_sub; [by apply m_end_aligned|apply Hm]. }
  destruct (unmap_pages_ok _ _ _ (page_steps (um_va m) (m_end m)) _ w _ (um_va m) T)
    as (w1 & -> & S1 & T1).
  { apply Hm. }
  { rewrite Hn. replace (um_va m + (m_end m - um_va m)) with (m_end m) by lia. apply Hm. }
  rewrite outcome_bind_Ret, Hn in *. replace (um_va m + (m_end m - um_va m)) with (m_end m) in T1 by lia.
  assert (T2 : trel (um_frames m ++ tab_frames (delete i (ms_mappings ms)) ++ rest) w1
    (tab_view (delete i (ms_mappings ms)))).
  { apply (trel_perm _ _ _ (tab_frames (ms_mappings ms) ++ rest)).
    - apply (trel_ext _ _ _ _ _ _ _ T1). intros va _. unfold tab_view.
      rewrite (mapping_at_delete _ _ _ _ HD HF Hi). unfold cleared.
      change ((um_va m <=? va) && (va <? m_end m)) with (in_mapping m va).
      by destruct (in_mapping m va).
    - by rewrite (tab_frames_delete _ _ _ Hi), <- app_assoc. }
  destruct (trel_drop _ _ _ _ _ _ _ T2) as (w2 & -> & S2 & T3). rewrite outcome_bind_Ret.
  destruct (IH w2 (with_mappings ms (delete i (ms_mappings ms)))) as (w3 & ms3 & E3 & L3 & I3 & S3).
  { split; [done|]. by apply tab_wf_delete. }
  { done. }
  exists w3, ms3. split; [exact E3|]. split; [exact L3|]. split; [done|].
  assert (Hsub : tab_frames (ms_mappings ms3) ⊆ tab_frames (delete i (ms_mappings ms)))
    by (rewrite L3; apply delete_all_frames).
  apply (same_on_trans _ _ (w_heap w2)); [|done]. apply (same_on_trans _ _ (w_heap w1)).
  - apply (same_on_sub _ _ _ _ S1). pose proof (delete_all_frames (ms_mappings ms) [i]) as H1.
    cbn [delete_all foldl] in H1. clear -Hsub H1. set_solver.
  - apply (same_on_sub _ _ _ _ S2). clear -Hsub. set_solver.
Qed.

End Ops.
