(* ===== verification/MapCalls.v ===== *)
(** * MapCalls: the system calls on the table of mappings

    [unmap_range], [rebuild], [mmap], [munmap] and [mremap]: what a task sees at
    its addresses afterwards. *)

From stdpp Require Import gmap.
From S2P Require Import Prelude OrdMap Buddy FrameAlloc BitFields Abi PageTable SpaceClone SpaceManager.
From S2P Require Import MemoryMap MapTable MapTheory MapOps.

(** ** Buffers *)

Abbreviation buffer := (list Frame * Keep)%type.

Definition buf_frames (bufs : list buffer) : list Frame := concat (fst <$> bufs).

(** The frames of a buffer hold what the task saw at the kept part. *)
Definition buf_ok (l : list UserMapping) (h0 h : heap) (buf : buffer) : Prop :=
  frames_total buf.1 = k_size buf.2 /\
  holds h buf.1 0 (k_size buf.2) (fun o => tab_word l h0 (k_va buf.2 + o)).

Lemma buf_frames_app b b' : buf_frames (b ++ b') = buf_frames b ++ buf_frames b'.
Proof. unfold buf_frames. by rewrite fmap_app, concat_app. Qed.

Lemma buf_frames_elem buf bufs : buf ∈ bufs -> buf.1 ⊆ buf_frames bufs.
Proof.
  intros Hb f Hf. unfold buf_frames. apply list_elem_of_In, in_concat. exists buf.1.
  split; [|by apply list_elem_of_In]. apply list_elem_of_In, list_elem_of_fmap. by exists buf.
Qed.

Lemma bufs_same l h0 h h' bufs : Forall (buf_ok l h0 h) bufs -> same_on (buf_frames bufs) h h' ->
  Forall (buf_ok l h0 h') bufs.
Proof.
  intros HB S. rewrite Forall_forall in *. intros buf Hb. destruct (HB buf Hb) as [Ht Hh].
  split; [done|]. apply (word_elem h _ _ _ _ h' Hh); [|lia|lia].
  apply (same_on_sub _ _ _ _ S). by apply buf_frames_elem.
Qed.

(** The size is served without rounding up. *)
Definition exact (n : Z) : Prop := served n = n.

(** The words of a kept part are those of a mapping. *)
Lemma keep_mapped l a b k x : tab_wf l -> keep_ok l a b k -> k_va k <= x < k_end k ->
  exists m, mapping_at l x = Some m /\ ~ apart a b m /\ um_flags m = k_flags k.
Proof.
  intros [_ HD] [_ _ _ _ (m & Hm & Hn & H1 & H2 & Hf)] Hx. exists m.
  split; [|done]. apply mapping_at_elem; [done|done|]. unfold k_end in *. lia.
Qed.

Lemma keep_bounds l a b k : tab_wf l -> keep_ok l a b k ->
  0 <= k_va k /\ k_end k < 2 ^ 64 /\ canon_range (k_va k) (k_end k).
Proof.
  intros [HF _] [_ _ Hp _ (m & Hm & _ & H1 & H2 & _)]. rewrite Forall_forall in HF.
  destruct (HF m Hm) as [_ _ Hr Hs]. unfold canon_range, k_end in *. lia.
Qed.

Definition buf_mapping (buf : buffer) : UserMapping :=
  mkMapping (k_va buf.2) buf.1 (k_flags buf.2).

Lemma buf_mapping_frames bufs : tab_frames (buf_mapping <$> bufs) = buf_frames bufs.
Proof. unfold tab_frames, buf_frames. rewrite <- list_fmap_compose. done. Qed.

Lemma keeps_cover l a b va m : mapping_at l va = Some m -> ~ apart a b m -> ~ (a <= va < b) ->
  exists k, k ∈ keeps l a b /\ k_va k <= va < k_end k /\ k_flags k = um_flags m.
Proof.
  intros Hm Hn Hv. destruct (mapping_at_some _ _ _ Hm) as [Hin Hb].
  assert (Hk : exists k, k ∈ keep_of a b m /\ k_va k <= va < k_end k /\ k_flags k = um_flags m).
  { unfold apart in Hn. unfold keep_of, k_end.
    destruct (Z.ltb_spec (um_va m) b), (Z.ltb_spec a (m_end m)); try lia. cbn [andb].
    destruct (Z_lt_ge_dec va a).
    - destruct (Z.ltb_spec (um_va m) (Z.max (um_va m) a)); [|lia]. eexists. split; [left|].
      cbn [k_va k_size k_flags]. split; [lia|done].
    - destruct (Z.ltb_spec (Z.min (m_end m) b) (m_end m)); [|lia]. eexists.
      split; [apply elem_of_app; right; left|]. cbn [k_va k_size k_flags]. split; [lia|done]. }
  destruct Hk as (k & Hk & Hr). exists k. split; [|done]. unfold keeps.
  apply list_elem_of_In, in_concat. exists (keep_of a b m). split; [|by apply list_elem_of_In].
  apply list_elem_of_In, list_elem_of_fmap. by exists m.
Qed.

Lemma pairs_elem l m m' : ForallOrdPairs m_dis l -> m ∈ l -> m' ∈ l -> m <> m' -> m_dis m m'.
Proof.
  intros HD. induction HD as [|x l Hd _ IH]; intros H1 H2 Hne; [by apply not_elem_of_nil in H1|].
  rewrite List.Forall_forall in Hd. unfold m_dis in *.
  apply elem_of_cons in H1 as [->|H1], H2 as [->|H2]; [done| | |by apply IH].
  - apply Hd. by apply list_elem_of_In.
  - destruct (Hd m) as [?|?]; [by apply list_elem_of_In|by right|by left].
Qed.

Lemma pairs_fmap {B C} (f : B -> C) (R : C -> C -> Prop) l : ForallOrdPairs R (f <$> l) ->
  ForallOrdPairs (fun x y => R (f x) (f y)) l.
Proof.
  induction l as [|x l IH]; intros H; [constructor|]. rewrite fmap_cons in H.
  inversion H as [|? ? H1 H2]; subst. constructor; [|by apply IH].
  rewrite Forall_fmap in H1. exact H1.
Qed.

Lemma pairs_impl {B} (R R' : B -> B -> Prop) l : ForallOrdPairs R l ->
  (forall x y, x ∈ l -> y ∈ l -> R x y -> R' x y) -> ForallOrdPairs R' l.
Proof.
  induction 1 as [|x l H1 H2 IH]; intros Hi; [constructor|]. constructor.
  - rewrite List.Forall_forall in *. intros y Hy. apply Hi; [left|right; by apply list_elem_of_In|by apply H1].
  - apply IH. intros y z Hy Hz. apply Hi; by right.
Qed.

Lemma tab_clear_points l a b : Forall mapping_wf l -> a < b ->
  (forall va, a <= va < b -> mapping_at l va = None) -> tab_clear l a b.
Proof.
  intros HF Hab H. apply Forall_forall. intros m Hm.
  destruct (Z_le_gt_dec b (um_va m)); [by left|]. destruct (Z_le_gt_dec (m_end m) a); [by right|]. exfalso.
  pose proof (proj1 (Forall_forall _ _) HF m Hm) as W. destruct (mw_some _ W) as [Hs _].
  assert (Hn : mapping_at l (Z.max (um_va m) a) = None) by (apply H; lia).
  unfold mapping_at in Hn. pose proof (List.find_none _ _ Hn m) as Hf.
  rewrite list_elem_of_In in Hm. specialize (Hf Hm). unfold in_mapping in Hf.
  destruct (Z.leb_spec (um_va m) (Z.max (um_va m) a)), (Z.ltb_spec (Z.max (um_va m) a) (m_end m)); lia || done.
Qed.

(** What a task sees is the same at an address. *)
Definition sees_same (l l' : list UserMapping) (h h' : heap) (va : Z) : Prop :=
  tab_flags l' va = tab_flags l va /\ (va mod 8 = 0 -> tab_word l' h' va = tab_word l h va).

Definition sees_nothing (l : list UserMapping) (va : Z) : Prop := mapping_at l va = None.

(** The table after taking a range out, with the buffers put back. *)
Section Result.
Context (l : list UserMapping) (a b : Z) (h h' : heap) (bufs : list buffer).
Context (Hw : tab_wf l) (Hab : aligned a /\ aligned b /\ a <= b).
Let l1 := base.filter (apart a b) l.
Let l' := l1 ++ (buf_mapping <$> bufs).
Context (Hw' : tab_wf l') (Hks : bufs.*2 `prefix_of` keeps l a b).
Context (Hh : same_on (tab_frames l1) h h') (Hb : Forall (buf_ok l h h') bufs).

Lemma result_keep buf : buf ∈ bufs -> keep_ok l a b buf.2 /\ m_end (buf_mapping buf) = k_end buf.2.
Proof using Hw Hab Hks Hb.
  intros Hi. destruct (keeps_ok l a b Hw) as [HK _]; [apply Hab..|]. rewrite Forall_forall in HK.
  pose proof (proj1 (Forall_forall _ _) Hb buf Hi) as [Ht _].
  split; [|unfold m_end, k_end; cbn [buf_mapping um_va um_frames]; by rewrite Ht].
  apply HK. destruct Hks as [k' ->]. apply elem_of_app. left. by apply list_elem_of_fmap_2.
Qed.

Lemma result_clear : tab_clear l' a b.
Proof using Hw Hab Hks Hb.
  apply Forall_app_2.
  - apply Forall_forall. by intros m [Hm _]%list_elem_of_filter.
  - apply Forall_fmap, Forall_forall. intros buf Hi. cbn [compose]. destruct (result_keep buf Hi) as [K ->].
    cbn [buf_mapping um_va]. destruct (ko_out _ _ _ _ K); lia.
Qed.

Lemma result_at va m : mapping_at l va = Some m -> apart a b m -> sees_same l l' h h' va.
Proof using Hw Hw' Hh.
  intros Hm Ha. destruct (mapping_at_some _ _ _ Hm) as [Hin Hr].
  assert (Hm1 : m ∈ l1) by (by apply list_elem_of_filter).
  assert (E : mapping_at l' va = Some m).
  { apply mapping_at_elem; [apply Hw'|apply elem_of_app; by left|done]. }
  split; [unfold tab_flags; by rewrite E, Hm|]. intros _. unfold tab_word. rewrite E, Hm.
  cbn [mbind option_bind]. unfold m_phys, m_end in *.
  destruct (phys_of_some (um_frames m) (va - um_va m)) as (f & o & Hf & -> & Ho); [lia|].
  cbn [mbind option_bind]. apply (Hh f); [|unfold in_frame; lia].
  unfold tab_frames. apply list_elem_of_In, in_concat. exists (um_frames m).
  split; [|by apply list_elem_of_In]. apply list_elem_of_In, list_elem_of_fmap. by exists m.
Qed.

Lemma result_buf va buf : buf ∈ bufs -> k_va buf.2 <= va < k_end buf.2 -> sees_same l l' h h' va.
Proof using Hw Hw' Hb Hab Hks.
  intros Hi Hr. destruct (result_keep buf Hi) as [K Ek].
  destruct (keep_mapped l a b _ va Hw K Hr) as (m & Em & _ & Ef).
  assert (E : mapping_at l' va = Some (buf_mapping buf)).
  { apply mapping_at_elem; [apply Hw'| |rewrite Ek; done]. apply elem_of_app. right.
    by apply list_elem_of_fmap_2. }
  split; [unfold tab_flags; by rewrite E, Em; cbn; rewrite Ef|]. intros H8.
  pose proof (proj1 (Forall_forall _ _) Hb buf Hi) as [Et Hhold].
  destruct (Hhold (va - k_va buf.2)) as (p & Ep & Ew).
  { unfold k_end in Hr. lia. }
  { rewrite Zminus_mod, H8, (mul8_page _ (ko_va _ _ _ _ K)). done. }
  unfold tab_word at 1. rewrite E. cbn [mbind option_bind]. unfold m_phys. cbn [buf_mapping um_frames um_va].
  rewrite Ep. cbn [mbind option_bind]. rewrite Ew. f_equal. lia.
Qed.

Lemma result_none va : mapping_at l va = None -> sees_nothing l' va.
Proof using Hw Hab Hks Hb.
  intros Hn. unfold sees_nothing. destruct (mapping_at l' va) as [m|] eqn:E; [|done]. exfalso.
  apply mapping_at_some in E as [Hi Hr]. apply elem_of_app in Hi as [Hi|Hi].
  - apply list_elem_of_filter in Hi as [_ Hi].
    rewrite (mapping_at_elem l m va) in Hn by (done || apply Hw). done.
  - apply list_elem_of_fmap in Hi as (buf & -> & Hi). destruct (result_keep buf Hi) as [K Ek].
    rewrite Ek in Hr. destruct (keep_mapped l a b _ va Hw K Hr) as (m & Em & _). congruence.
Qed.

Lemma result_all va : bufs.*2 = keeps l a b -> ~ (a <= va < b) -> sees_same l l' h h' va.
Proof using Hw Hw' Hb Hab Hks Hh.
  intros Hall Hv. destruct (mapping_at l va) as [m|] eqn:Em.
  - destruct (decide (apart a b m)) as [Ha|Ha]; [by apply (result_at va m)|].
    destruct (keeps_cover l a b va m Em Ha Hv) as (k & Hk & Hr & _).
    rewrite <- Hall in Hk. apply list_elem_of_fmap in Hk as (buf & -> & Hi). by apply (result_buf va buf).
  - pose proof (result_none va Em) as En. unfold sees_nothing in En.
    unfold sees_same, tab_flags, tab_word. by rewrite En, Em.
Qed.

End Result.

(** ** Adding a mapping *)

Lemma all_zero_holds h frames : Forall frame_ok frames -> all_zero h frames ->
  holds h frames 0 (frames_total frames) (fun _ => Some 0).
Proof.
  intros HF Hz o Ho H8.
  assert (Ha : aligned (page_start o)) by apply aligned_mul.
  pose proof (page_spec o) as Hp. fold (page_start o) in Hp.
  destruct (page_start_between o 0 (frames_total frames)) as [Hlo Hhi];
    [done|by apply total_aligned|lia|].
  destruct (phys_of_page frames (page_start o) HF Ha Hlo Hhi) as (f & x & Hf & Hx & Hx0 & Hxz & Hph).
  specialize (Hph (o - page_start o) ltac:(lia)).
  replace (page_start o + (o - page_start o)) with o in Hph by lia. eexists. split; [exact Hph|].
  apply (Hz f); [done|unfold in_frame; lia|].
  pose proof (proj1 (Forall_forall _ _) HF f Hf) as (_ & Hs & _).
  apply mod8_add; [apply mod8_add; by apply mul8_page|]. apply mod8_sub; [done|by apply mul8_page].
Qed.

(** A new mapping at the end of the table, where nothing was. *)
Section Added.
Context (l : list UserMapping) (m : UserMapping) (h h' : heap) (word : Z -> option Z).
Context (Hw : tab_wf l) (Hm : mapping_wf m) (Hc : tab_clear l (um_va m) (m_end m)).
Context (Hh : same_on (tab_frames l) h h') (Hold : holds h' (um_frames m) 0 (frames_total (um_frames m)) word).

Lemma added_new va : um_va m <= va < m_end m ->
  tab_flags (l ++ [m]) va = Some (um_flags m) /\
  (va mod 8 = 0 -> tab_word (l ++ [m]) h' va = word (va - um_va m)).
Proof using Hc Hm Hold.
  intros Hv. assert (E : mapping_at (l ++ [m]) va = Some m).
  { rewrite mapping_at_app, (mapping_at_clear l _ _ va Hc Hv). unfold mapping_at. cbn [List.find].
    unfold in_mapping. destruct (Z.leb_spec (um_va m) va), (Z.ltb_spec va (m_end m)); lia || done. }
  split; [unfold tab_flags; by rewrite E|]. intros H8. unfold tab_word. rewrite E. cbn [mbind option_bind].
  destruct (Hold (va - um_va m)) as (p & Ep & Ew).
  { unfold m_end in Hv. lia. }
  { by rewrite Zminus_mod, H8, (mul8_page _ (mw_va _ Hm)). }
  unfold m_phys. rewrite Ep. done.
Qed.

Lemma added_old va : ~ (um_va m <= va < m_end m) -> sees_same l (l ++ [m]) h h' va.
Proof using Hw Hh.
  intros Hv. assert (E : mapping_at (l ++ [m]) va = mapping_at l va).
  { rewrite mapping_at_app. destruct (mapping_at l va); [done|]. unfold mapping_at. cbn [List.find].
    unfold in_mapping. destruct (Z.leb_spec (um_va m) va), (Z.ltb_spec va (m_end m)); lia || done. }
  split; [unfold tab_flags; by rewrite E|]. intros _. unfold tab_word at 1. rewrite E.
  apply (word_same l []); [apply Hw|]. by rewrite app_nil_r.
Qed.

End Added.

(** ** Free regions *)

(** No mapping lies across the lower end of the stack area. *)
Definition stack_clear (l : list UserMapping) : Prop :=
  Forall (fun m => m_end m <= USER_STACK_LOWER_BOUND \/ USER_STACK_LOWER_BOUND <= um_va m) l.

Lemma table_ok_ranges l : tab_wf l -> stack_clear l -> table_ok ((fun m => (um_va m, m_end m)) <$> l).
Proof.
  intros [HF HD] Hs. split.
  - apply Forall_fmap, (Forall_impl _ _ _ HF). intros m [_ _ (H0 & _) Hm]. cbn. lia.
  - clear -HD. unfold disjoint_ranges. induction HD as [|m l Hd _ IH]; [constructor|].
    rewrite fmap_cons. constructor; [|done]. apply Forall_fmap, (Forall_impl _ _ _ Hd). done.
  - by apply Forall_fmap.
Qed.

Lemma free_below_aligned rs top length t : Forall (fun r : Z * Z => aligned r.1) rs ->
  aligned top -> aligned length -> free_below top rs length = Some t -> aligned t.
Proof.
  intros HF. revert top. induction HF as [|[s e] rs Hr HF IH]; intros top Ht Hl E; cbn [free_below] in E.
  - destruct (length <=? top); [|done]. injection E as <-. by apply aligned_sub.
  - destruct (_ && _); [injection E as <-; by apply aligned_sub|]. by apply (IH s).
Qed.

Lemma find_free_ok ms length : let l := ms_mappings ms in
  tab_wf l -> stack_clear l -> aligned length -> 0 < length ->
  exists r, find_free_region ms length = Ret r /\
    match r with
    | Some t => aligned t /\ 0 <= t /\ t + length <= USER_STACK_LOWER_BOUND /\ tab_clear l t (t + length)
    | None => True
    end.
Proof.
  intros l Hw Hs Ha Hl. pose proof (mapping_ranges_ok _ (tw_wf _ Hw)) as Hr.
  unfold find_free_region. fold l. rewrite Hr, outcome_bind_Ret. eexists. split; [done|].
  set (rs := (fun m => (um_va m, m_end m)) <$> l) in *. set (fs := base.filter _ rs).
  assert (Hsub : forall P : Z * Z -> Prop, Forall P rs -> Forall P fs).
  { intros P HP. rewrite Forall_forall in *. intros r [_ Hin]%list_elem_of_filter. by apply HP. }
  destruct (table_ok_ranges l Hw Hs) as [Hbd Hdis Hst]. fold rs in Hbd, Hdis, Hst.
  assert (H := free_below_ok (reverse (sort_ranges fs)) USER_STACK_LOWER_BOUND length).
  ospecialize (H _ Hl _).
  { apply (asc_reverse 0).
    - apply sort_ranges_asc; [by apply Hsub|by apply disjoint_filter].
    - rewrite sort_ranges_perm. apply Forall_forall. by intros r [He _]%list_elem_of_filter. }
  { rewrite reverse_Permutation, sort_ranges_perm. apply Hsub, (Forall_impl _ _ _ Hbd). lia. }
  destruct (free_below _ _ _) as [t|] eqn:E; [|done]. destruct H as (H0 & H1 & H2 & _).
  split; [|split; [done|split; [done|]]].
  - apply free_below_aligned in E; [done| |done|done].
    rewrite reverse_Permutation, sort_ranges_perm. apply Hsub, Forall_fmap, (Forall_impl _ _ _ (tw_wf _ Hw)).
    intros m Hm. apply Hm.
  - unfold clear_of in H2. rewrite reverse_Permutation, sort_ranges_perm in H2.
    apply (clear_of_below rs t (t + length)) in H2; [|by split|done].
    unfold clear_of in H2. by apply Forall_fmap in H2.
Qed.

(** ** Queries *)

Lemma flags_of_first_ok ms a : Forall mapping_wf (ms_mappings ms) -> 0 <= a -> a + 1 < 2 ^ 64 ->
  flags_of_first ms a = Ret (tab_flags (ms_mappings ms) a).
Proof.
  intros HF H0 Hb. unfold flags_of_first, usize_add. destruct (Z.ltb_spec (a + 1) (2 ^ 64)); [|lia].
  rewrite outcome_bind_Ret. induction HF as [|m l Hm _ IH]; [done|]. cbn [find_flags].
  rewrite (overlaps_ok m a (a + 1) Hm), outcome_bind_Ret. unfold tab_flags, mapping_at. cbn [List.find].
  assert (E : (um_va m <? a + 1) && (a <? m_end m) = in_mapping m a).
  { unfold in_mapping. destruct (Z.ltb_spec (um_va m) (a + 1)), (Z.leb_spec (um_va m) a); lia || done. }
  rewrite E. destruct (in_mapping m a); [done|]. exact IH.
Qed.

Lemma pages_mapped_ok n ms va : Forall mapping_wf (ms_mappings ms) -> aligned va ->
  exists b, pages_mapped n ms va = Ret b /\
    (b = true -> forall x, va <= x < va + PAGE_SIZE * Z.of_nat n -> is_Some (mapping_at (ms_mappings ms) x)).
Proof.
  intros HF. revert va. induction n as [|n IH]; intros va Ha; cbn [pages_mapped].
  { exists true. split; [done|]. lia. }
  unfold page_phys. rewrite mappings_phys_ok, outcome_bind_Ret by done.
  destruct (mapping_at (ms_mappings ms) va) as [m|] eqn:Em; cbn [mbind option_bind]; [|by exists false].
  destruct (mapping_page _ va m HF Em Ha) as (f & o & _ & _ & _ & _ & -> & _).
  destruct (IH (va + PAGE_SIZE)) as (b & -> & Hb); [by apply aligned_add|]. exists b. split; [done|].
  intros -> x Hx. destruct (Z_lt_ge_dec x (va + PAGE_SIZE)).
  - rewrite <- mapping_at_page by done.
    replace (page_start x) with va; [by rewrite Em|]. replace x with (va + (x - va)) by lia.
    by rewrite page_start_plus by (done || lia).
  - apply Hb; [done|]. unfold PAGE_SIZE in *. lia.
Qed.

(** A range that is mapped throughout lies in one half. *)
Lemma mapped_canon l a b : Forall mapping_wf l -> 0 <= a < b -> b <= 2 ^ 64 ->
  (forall x, a <= x < b -> is_Some (mapping_at l x)) -> canon_range a b.
Proof.
  intros HF Hab Hb H.
  assert (Hc : forall x, a <= x < b -> x < LOW_HALF_END \/ HIGH_HALF_START <= x).
  { intros x Hx. destruct (H x Hx) as [m Em]. apply mapping_at_some in Em as [Hm Hr].
    pose proof (proj1 (Forall_forall _ _) HF m Hm) as [_ _ (? & ? & ?) _]. lia. }
  split; [lia|]. split; [done|]. destruct (Z_le_gt_dec b LOW_HALF_END); [by left|]. right.
  destruct (Hc a ltac:(lia)) as [Hl|]; [|done]. exfalso.
  destruct (Hc LOW_HALF_END ltac:(lia)); unfold LOW_HALF_END, HIGH_HALF_START in *; lia.
Qed.

(** The range cuts through no mapping. *)
Definition uncut (l : list UserMapping) (a b : Z) : Prop :=
  Forall (fun m => apart a b m \/ (a <= um_va m /\ m_end m <= b)) l.

Lemma uncut_keeps l a b : uncut l a b -> keeps l a b = [].
Proof.
  induction 1 as [|m l Hm _ IH]; [done|]. unfold keeps in *. rewrite fmap_cons. cbn [concat].
  rewrite IH, app_nil_r. unfold keep_of, apart in *.
  destruct (Z.ltb_spec (um_va m) b), (Z.ltb_spec a (m_end m)); cbn [andb]; try done.
  destruct (Z.ltb_spec (um_va m) (Z.max (um_va m) a)), (Z.ltb_spec (Z.min (m_end m) b) (m_end m)); lia || done.
Qed.

Lemma keeps_filter (P : UserMapping -> Prop) `{!forall m, Decision (P m)} (Q : Keep -> Prop) l a b :
  Forall Q (keeps l a b) -> Forall Q (keeps (base.filter P l) a b).
Proof.
  induction l as [|m l IH]; intros HQ; [done|]. unfold keeps in *. rewrite fmap_cons in HQ.
  cbn [concat] in HQ. apply Forall_app in HQ as [H1 H2]. rewrite filter_cons. destruct (decide (P m)); [|by apply IH].
  rewrite fmap_cons. cbn [concat]. apply Forall_app_2; [done|by apply IH].
Qed.

(** ** Changes of a table *)

(** Only what [[a, b)] meets may have changed. *)
Definition untouched (l l' : list UserMapping) (h h' : heap) (a b : Z) : Prop :=
  (forall va m, mapping_at l va = Some m -> apart a b m -> sees_same l l' h h' va) /\
  forall va, mapping_at l va = None -> sees_nothing l' va.

(** The pages of a new mapping: zero, with the permissions of [prot]. A page that
    can be written or executed can also be read. *)
Definition fresh_at (l : list UserMapping) (h : heap) (a b prot : Z) : Prop :=
  forall va, a <= va < b ->
    (exists flags, tab_flags l va = Some flags /\
       grants flags (has prot MmapProt_READ || has prot MmapProt_WRITE || has prot MmapProt_EXEC) (has prot MmapProt_WRITE) (has prot MmapProt_EXEC)) /\
    (va mod 8 = 0 -> tab_word l h va = Some 0).

Lemma has_prot prot : has prot PROT_MASK = has prot MmapProt_READ || has prot MmapProt_WRITE || has prot MmapProt_EXEC.
Proof.
  change PROT_MASK with (Z.lor (Z.lor MmapProt_READ MmapProt_WRITE) MmapProt_EXEC). unfold has. rewrite !Z.land_lor_distr_r.
  assert (H : forall x y, negb (Z.lor x y =? 0) = negb (x =? 0) || negb (y =? 0)).
  { intros x y. destruct (Z.eqb_spec (Z.lor x y) 0) as [E|E].
    - apply Z.lor_eq_0_iff in E as [-> ->]. done.
    - destruct (Z.eqb_spec x 0), (Z.eqb_spec y 0); subst; done. }
  by rewrite !H.
Qed.

Lemma prot_grants prot : grants (prot_to_page_flags prot)
  (has prot MmapProt_READ || has prot MmapProt_WRITE || has prot MmapProt_EXEC) (has prot MmapProt_WRITE) (has prot MmapProt_EXEC).
Proof.
  rewrite <- has_prot. unfold prot_to_page_flags. destruct (has prot PROT_MASK), (has prot MmapProt_WRITE), (has prot MmapProt_EXEC); repeat split.
Qed.

Lemma mmap_target_ok ms addr len fixed : let l := ms_mappings ms in
  tab_wf l -> (fixed = false -> stack_clear l) -> aligned len -> 0 < len -> 0 <= addr < 2 ^ 64 ->
  exists r, mmap_target ms addr len fixed = Ret r /\
    match r with
    | Ok t => aligned t /\ 0 <= t < 2 ^ 64 /\ (if fixed then t = addr else tab_clear l t (t + len))
    | Err e => e = EINVAL \/ e = ENOMEM
    end.
Proof.
  intros l Hw Hs Ha Hl Hb. unfold mmap_target, is_multiple_of. destruct fixed.
  - eexists. split; [done|]. destruct (Z.eqb_spec (addr mod PAGE_SIZE) 0); [done|by left].
  - assert (Hff : exists r, (r ← find_free_region ms len; mret (ok_or r ENOMEM)) = Ret r /\
      match r with
      | Ok t => aligned t /\ 0 <= t < 2 ^ 64 /\ tab_clear l t (t + len)
      | Err e => e = EINVAL \/ e = ENOMEM
      end).
    { destruct (find_free_ok ms len Hw (Hs eq_refl) Ha Hl) as (r & -> & Hr). rewrite outcome_bind_Ret.
      eexists. split; [done|]. destruct r as [t|]; cbn [ok_or]; [|by right].
      destruct Hr as (H1 & H2 & H3 & H4). unfold USER_STACK_LOWER_BOUND, PAGE_SIZE in H3.
      split; [done|]. split; [lia|done]. }
    destruct (addr =? 0); cbn [negb andb]; [by rewrite outcome_bind_Ret|].
    destruct (Z.eqb_spec (addr mod PAGE_SIZE) 0) as [Hal|]; [|by rewrite outcome_bind_Ret].
    unfold checked_add. destruct (Z.ltb_spec (addr + len) (2 ^ 64)); [|by rewrite outcome_bind_Ret].
    rewrite (range_is_free_ok ms _ _ (tw_wf _ Hw)), outcome_bind_Ret. fold l.
    case_bool_decide as Hc; [|done]. eexists. split; [done|]. done.
Qed.

(** ** The calls *)

Section Calls.
Context {A : Type} {FS : FrameSource A} {FL : FrameLaws A}.
Context (abs0 : mabs) (tid : Z) (sh : Z -> bool).

Abbreviation trel := (trel abs0 tid sh).
Abbreviation minv := (minv abs0 tid sh).

Lemma drop_buffers_ok bufs rest w v : trel (buf_frames bufs ++ rest) w v ->
  exists w', drop_buffers w bufs = Ret w' /\ same_on rest (w_heap w) (w_heap w') /\ trel rest w' v.
Proof.
  revert w. induction bufs as [|[fs k] bufs IH]; intros w T; cbn [drop_buffers].
  { exists w. split; [done|]. split; [apply same_on_refl|done]. }
  change (buf_frames ((fs, k) :: bufs)) with (fs ++ buf_frames bufs) in T. rewrite <- app_assoc in T.
  destruct (trel_drop _ _ _ _ _ _ _ T) as (w1 & -> & S1 & T1). rewrite outcome_bind_Ret.
  destruct (IH w1 T1) as (w2 & -> & S2 & T2). exists w2. split; [done|]. split; [|done].
  apply (same_on_trans _ _ (w_heap w1)); [|done]. apply (same_on_sub _ _ _ _ S1). clear. set_solver.
Qed.

Lemma back_up_ok a b rest h0 ms v ks : tab_wf (ms_mappings ms) ->
  let l := ms_mappings ms in
  forall w bufs, trel (buf_frames bufs ++ tab_frames l ++ rest) w v ->
  Forall (keep_ok l a b) ks -> Forall (fun k => exact (k_size k)) ks ->
  Forall (buf_ok l h0 (w_heap w)) bufs -> same_on (tab_frames l ++ rest) h0 (w_heap w) ->
  exists r w', back_up w ms ks bufs = Ret (r, w') /\
    same_on (tab_frames l ++ rest) h0 (w_heap w') /\
    match r with
    | Ok bufs' => trel (buf_frames bufs' ++ tab_frames l ++ rest) w' v /\
        Forall (buf_ok l h0 (w_heap w')) bufs' /\ bufs'.*2 = bufs.*2 ++ ks
    | Err e => e = ENOMEM /\ trel (tab_frames l ++ rest) w' v
    end.
Proof.
  intros Hw l. induction ks as [|k ks IH]; intros w bufs T HK HE HB S0; cbn [back_up].
  { exists (Ok bufs), w. split; [done|]. split; [done|]. by rewrite app_nil_r. }
  apply Forall_cons in HK as [Hk HK]. apply Forall_cons in HE as [He HE].
  destruct (trel_alloc _ _ _ _ _ _ (k_size k) T) as (r & w1 & -> & S1 & Hr).
  assert (S1' : same_on (tab_frames l ++ rest) (w_heap w) (w_heap w1))
    by (apply (same_on_sub _ _ _ _ S1); clear; set_solver).
  rewrite outcome_bind_Ret. destruct r as [fs|].
  2: { destruct (drop_buffers_ok _ _ _ _ Hr) as (w2 & -> & S2 & T2). rewrite outcome_bind_Ret.
       exists (Err ENOMEM), w2. split; [done|]. split; [|done].
       apply (same_on_trans _ _ (w_heap w)); [done|by eapply same_on_trans]. }
  destruct Hr as (T1 & _ & Et). rewrite He in Et.
  destruct (keep_bounds l a b k Hw Hk) as (Hb1 & Hb2 & _). pose proof (ko_pos _ _ _ _ Hk) as Hpos.
  assert (Hn : PAGE_SIZE * Z.of_nat (page_steps 0 (k_size k)) = k_size k).
  { rewrite page_steps_aligned; [lia|rewrite Z.sub_0_r; apply Hk|lia]. }
  assert (T1' : trel (fs ++ tab_frames l ++ buf_frames bufs ++ rest) w1 v).
  { apply (trel_perm _ _ _ _ _ _ _ T1). apply Permutation_app_head, Permutation_app_swap_app. }
  destruct (copy_mapped_ok _ _ _ (page_steps 0 (k_size k)) fs (buf_frames bufs ++ rest) w1 v ms (k_va k) 0 T1')
    as (bb & h2 & -> & T2 & S2 & _ & Hr2); [apply Hw|apply Hk|done|done|lia|lia|unfold k_end in *; lia|].
  fold l in T2, S2, Hr2. rewrite outcome_bind_Ret, Hn, Z.add_0_l in *. destruct bb.
  2: { exfalso. destruct Hr2 as (x & Hx & En).
       destruct (keep_mapped l a b k (k_va k + x) Hw Hk) as (m & Em & _); [unfold k_end; lia|congruence]. }
  assert (S2' : same_on (tab_frames l ++ rest) (w_heap w1) h2)
    by (apply (same_on_sub _ _ _ _ S2); clear; set_solver).
  assert (S02 : same_on (tab_frames l ++ rest) h0 h2)
    by (apply (same_on_trans _ _ (w_heap w)); [done|by eapply same_on_trans]).
  destruct (IH (mkW h2 (w_alloc w1) (w_mgr w1)) (bufs ++ [(fs, k)])) as (r & w3 & E3 & S3 & Hr3).
  - rewrite buf_frames_app. change (buf_frames [(fs, k)]) with (fs ++ []). rewrite app_nil_r.
    apply (trel_perm _ _ _ _ _ _ _ T2). rewrite <- app_assoc.
    rewrite (Permutation_app_swap_app (tab_frames l) (buf_frames bufs) rest).
    apply (Permutation_app_swap_app fs (buf_frames bufs)).
  - done.
  - done.
  - apply Forall_app_2.
    + apply (bufs_same l h0 (w_heap w)); [done|]. cbn [w_heap].
      apply (same_on_trans _ _ (w_heap w1)).
      * apply (same_on_sub _ _ _ _ S1). clear. set_solver.
      * apply (same_on_sub _ _ _ _ S2). clear. set_solver.
    + constructor; [|done]. split; cbn [fst snd]; [done|]. intros o Ho Hm.
      destruct (Hr2 o Ho Hm) as (p & Ep & Ew). exists p. split; [done|]. cbn [w_heap].
      rewrite Ew. apply (word_same l rest); [apply Hw|]. by apply (same_on_trans _ _ (w_heap w)).
  - done.
  - exists r, w3. split; [exact E3|]. split; [done|]. destruct r as [bufs'|e]; [|done].
    destruct Hr3 as (T3 & B3 & E). split; [done|]. split; [done|]. rewrite E, fmap_app, <- app_assoc. done.
Qed.

Lemma put_back_ok bufs rest w ms : let l := ms_mappings ms in
  trel (buf_frames bufs ++ tab_frames l ++ rest) w (tab_view l) -> tab_wf l ->
  Forall (fun buf => mapping_wf (buf_mapping buf) /\ tab_clear l (k_va buf.2) (m_end (buf_mapping buf))) bufs ->
  ForallOrdPairs (fun b b' => m_dis (buf_mapping b) (buf_mapping b')) bufs ->
  exists r w' ms' bufs1, put_back w ms tid bufs = Ret (r, w', ms') /\
    ms_mappings ms' = l ++ (buf_mapping <$> bufs1) /\ minv rest w' (ms_mappings ms') /\
    same_on (tab_frames (ms_mappings ms') ++ rest) (w_heap w) (w_heap w') /\
    bufs1 `prefix_of` bufs /\
    match r with Ok _ => bufs1 = bufs | Err e => e = ENOMEM \/ e = EINVAL end.
Proof.
  intros l. subst l. revert w ms. induction bufs as [|[fs k] bufs IH]; intros w ms T Hw HB HD; cbn [put_back].
  { exists (Ok tt), w, ms, []. split; [done|]. cbn. rewrite app_nil_r. split; [done|].
    split; [done|]. split; [apply same_on_refl|]. done. }
  apply Forall_cons in HB as [[Hm Hc] HB]. inversion HD as [|? ? Hd HD']; subst.
  change (buf_frames ((fs, k) :: bufs)) with (fs ++ buf_frames bufs) in T.
  assert (T1 : trel (fs ++ tab_frames (ms_mappings ms) ++ buf_frames bufs ++ rest) w (tab_view (ms_mappings ms))).
  { apply (trel_perm _ _ _ _ _ _ _ T). rewrite <- app_assoc.
    apply Permutation_app_head, Permutation_app_swap_app. }
  destruct (map_frame_inv _ _ _ fs (buf_frames bufs ++ rest) w ms (k_va k) (k_flags k) T1 Hw Hm Hc)
    as (r & w1 & ms1 & -> & Hr). rewrite outcome_bind_Ret. destruct r as [[]|e].
  - destruct Hr as (L1 & [T2 W2] & S1). rewrite <- L1 in *.
    destruct (IH w1 ms1) as (r & w2 & ms2 & bufs1 & E & L2 & I2 & S2 & P2 & Hr2).
    + apply (trel_perm _ _ _ _ _ _ _ T2). apply Permutation_app_swap_app.
    + done.
    + rewrite Forall_forall in HB |- *. intros buf Hbuf. destruct (HB buf Hbuf) as [B1 B2].
      split; [done|]. rewrite L1. apply Forall_app_2; [done|]. constructor; [|done].
      rewrite List.Forall_forall in Hd. destruct (Hd buf) as [H|H]; [by apply list_elem_of_In|..];
        unfold buf_mapping, m_end in *; cbn [um_va um_frames fst snd] in *; lia.
    + done.
    + exists r, w2, ms2, ((fs, k) :: bufs1). split; [done|]. rewrite fmap_cons.
      change (buf_mapping (fs, k)) with (mkMapping (k_va k) fs (k_flags k)).
      split; [rewrite L2, L1, <- app_assoc; done|]. split; [done|]. split.
      * apply (same_on_trans _ _ (w_heap w1)); [|done]. apply (same_on_sub _ _ _ _ S1).
        rewrite L2, L1, !tab_frames_app, buf_mapping_frames.
        assert (Hsub : buf_frames bufs1 ⊆ buf_frames bufs).
        { destruct P2 as [b' ->]. rewrite buf_frames_app. clear. set_solver. }
        change (tab_frames [mkMapping (k_va k) fs (k_flags k)]) with (fs ++ []).
        clear -Hsub. set_solver.
      * split; [by apply prefix_cons|]. destruct r; [by subst|done].
  - destruct Hr as (L1 & [T2 W2] & He & S1).
    assert (T3 : trel (buf_frames bufs ++ tab_frames (ms_mappings ms) ++ rest) w1 (tab_view (ms_mappings ms))).
    { apply (trel_perm _ _ _ _ _ _ _ T2). apply Permutation_app_swap_app. }
    destruct (drop_buffers_ok _ _ _ _ T3) as (w2 & -> & S2 & T4). rewrite outcome_bind_Ret.
    exists (Err e), w2, ms1, []. split; [done|]. cbn. rewrite app_nil_r. split; [done|]. rewrite L1.
    split; [done|]. split; [|split; [apply prefix_nil|done]].
    apply (same_on_trans _ _ (w_heap w1)); [|done]. apply (same_on_sub _ _ _ _ S1). clear. set_solver.
Qed.

(** ** [unmap_range] *)

Lemma minv_swap fs rest w l : minv rest w l -> forall v, trel (fs ++ tab_frames l ++ rest) w v ->
  trel (tab_frames l ++ fs ++ rest) w v.
Proof. intros _ v T. apply (trel_perm _ _ _ _ _ _ _ T), Permutation_app_swap_app. Qed.

(** The buffers fit into the table once the mappings they stem from are gone. *)
Lemma bufs_fit l a b rest w v bufs h : tab_wf l -> aligned a -> aligned b -> a <= b ->
  trel (buf_frames bufs ++ rest) w v -> Forall (buf_ok l h (w_heap w)) bufs -> bufs.*2 = keeps l a b ->
  let l1 := base.filter (apart a b) l in
  Forall (fun buf => mapping_wf (buf_mapping buf) /\ tab_clear l1 (k_va buf.2) (m_end (buf_mapping buf))) bufs /\
  ForallOrdPairs (fun b b' => m_dis (buf_mapping b) (buf_mapping b')) bufs.
Proof.
  intros Hw Ha Hb Hab T HB Hks l1. destruct (keeps_ok l a b Hw Ha Hb Hab) as [HK HD].
  rewrite <- Hks in HK, HD. rewrite Forall_fmap in HK. rewrite Forall_forall in HK, HB.
  assert (He : forall buf, buf ∈ bufs -> m_end (buf_mapping buf) = k_end buf.2).
  { intros buf Hi. unfold m_end, k_end. cbn [buf_mapping um_va um_frames]. by rewrite (proj1 (HB buf Hi)). }
  split.
  - apply Forall_forall. intros buf Hi. pose proof (HK buf Hi) as K. cbn [compose] in K.
    destruct (keep_bounds l a b _ Hw K) as (Hb1 & Hb2 & Hb3). split.
    + split; [|apply K|rewrite He by done; exact Hb3|].
      * apply Forall_forall. intros f Hf. apply (trel_frame _ _ _ _ _ _ f T).
        apply elem_of_app. left. by apply (buf_frames_elem buf).
      * rewrite He by done. cbn [buf_mapping um_va]. pose proof (ko_pos _ _ _ _ K). unfold k_end in *. lia.
    + rewrite He by done. apply Forall_forall. intros m [Hap Hm]%list_elem_of_filter.
      destruct (ko_in _ _ _ _ K) as (m' & Hm' & Hn & H1 & H2 & _).
      assert (Hne : m' <> m) by (by intros ->). destruct (pairs_elem l m' m (tw_dis _ Hw) Hm' Hm Hne); lia.
  - apply pairs_fmap in HD. apply (pairs_impl _ _ _ HD). intros x y Hx Hy [H|H]; unfold m_dis;
      rewrite !He by done; cbn [buf_mapping um_va]; lia.
Qed.

Lemma unmap_range_ok rest w ms a b : let l := ms_mappings ms in
  minv rest w l -> aligned a -> aligned b -> a <= b -> Forall (fun k => exact (k_size k)) (keeps l a b) ->
  exists r w' ms', unmap_range w ms tid a b = Ret (r, w', ms') /\
    minv rest w' (ms_mappings ms') /\ same_on rest (w_heap w) (w_heap w') /\
    match r with
    | Ok _ => tab_clear (ms_mappings ms') a b /\
        (forall va, ~ (a <= va < b) -> sees_same l (ms_mappings ms') (w_heap w) (w_heap w') va) /\
        exists bufs, ms_mappings ms' = base.filter (apart a b) l ++ (buf_mapping <$> bufs) /\
          bufs.*2 = keeps l a b
    | Err e => (e = ENOMEM \/ e = EINVAL) /\
        (forall va m, mapping_at l va = Some m -> apart a b m ->
          sees_same l (ms_mappings ms') (w_heap w) (w_heap w') va) /\
        forall va, mapping_at l va = None -> sees_nothing (ms_mappings ms') va
    end.
Proof.
  intros l [T Hw] Ha Hb Hab HE. unfold unmap_range. fold l.
  rewrite (collect_keeps_ok _ a b (tw_wf _ Hw)), outcome_bind_Ret.
  destruct (back_up_ok a b rest (w_heap w) ms (tab_view l) (keeps l a b) Hw w [])
    as (r & w1 & -> & S1 & Hr1); [done|by apply keeps_ok|done|constructor|apply same_on_refl|].
  rewrite outcome_bind_Ret. destruct r as [bufs|e].
  2: { destruct Hr1 as [-> T1]. exists (Err ENOMEM), w1, ms. split; [done|]. split; [by split|].
       split; [apply (same_on_sub _ _ _ _ S1); clear; set_solver|]. split; [by left|]. split; [|done].
       intros va m _ _. split; [done|]. intros _. apply (word_same l rest); [apply Hw|done]. }
  destruct Hr1 as (T1 & B1 & K1). cbn [fmap list_fmap app] in K1.
  unfold overlapping_indices. fold l. rewrite (hits_ok 0 _ a b (tw_wf _ Hw)), outcome_bind_Ret.
  destruct (hits_delete l a b) as [V1 V2].
  destruct (tear_down_ok abs0 tid sh (reverse (hits 0 l a b)) (buf_frames bufs ++ rest) w1 ms)
    as (w2 & ms2 & -> & L2 & [T2 W2] & S2); [|done|].
  { split; [|done]. apply (trel_perm _ _ _ _ _ _ _ T1), Permutation_app_swap_app. }
  fold l in L2. rewrite V2 in L2. rewrite outcome_bind_Ret. rewrite L2 in *.
  assert (B2 : Forall (buf_ok l (w_heap w) (w_heap w2)) bufs).
  { apply (bufs_same l (w_heap w) (w_heap w1)); [done|]. apply (same_on_sub _ _ _ _ S2). clear. set_solver. }
  assert (T2' : trel (buf_frames bufs ++ tab_frames (base.filter (apart a b) l) ++ rest) w2
    (tab_view (base.filter (apart a b) l)))
    by (apply (trel_perm _ _ _ _ _ _ _ T2), Permutation_app_swap_app).
  destruct (bufs_fit l a b _ w2 _ bufs (w_heap w) Hw Ha Hb Hab T2' B2 K1) as [F1 F2].
  destruct (put_back_ok bufs rest w2 ms2) as (r & w3 & ms3 & bufs1 & -> & L3 & I3 & S3 & P3 & Hr3);
    [by rewrite L2|by rewrite L2|by rewrite L2|done|].
  rewrite L2 in L3. exists r, w3, ms3. split; [done|]. split; [done|]. rewrite L3 in *.
  assert (Hsub : buf_frames bufs1 ⊆ buf_frames bufs).
  { destruct P3 as [b' ->]. rewrite buf_frames_app. clear. set_solver. }
  rewrite tab_frames_app, buf_mapping_frames in S3.
  assert (Sl1 : same_on (tab_frames (base.filter (apart a b) l)) (w_heap w) (w_heap w3)).
  { apply (same_on_trans _ _ (w_heap w1)); [|apply (same_on_trans _ _ (w_heap w2))].
    - apply (same_on_sub _ _ _ _ S1). pose proof (delete_all_frames l (reverse (hits 0 l a b))) as Hd.
      rewrite V2 in Hd. clear -Hd. set_solver.
    - apply (same_on_sub _ _ _ _ S2). clear. set_solver.
    - apply (same_on_sub _ _ _ _ S3). clear. set_solver. }
  assert (B3 : Forall (buf_ok l (w_heap w) (w_heap w3)) bufs1).
  { apply (bufs_same l (w_heap w) (w_heap w2)).
    - destruct P3 as [b' ->]. by apply Forall_app in B2 as [B2 _].
    - apply (same_on_sub _ _ _ _ S3). clear. set_solver. }
  assert (Hpre : bufs1.*2 `prefix_of` keeps l a b).
  { rewrite <- K1. destruct P3 as [b' ->]. exists (b'.*2). by rewrite fmap_app. }
  split.
  { apply (same_on_trans _ _ (w_heap w1)); [|apply (same_on_trans _ _ (w_heap w2))].
    - apply (same_on_sub _ _ _ _ S1). clear. set_solver.
    - apply (same_on_sub _ _ _ _ S2). clear. set_solver.
    - apply (same_on_sub _ _ _ _ S3). clear. set_solver. }
  assert (Hal : aligned a /\ aligned b /\ a <= b) by done. pose proof (mi_wf _ _ _ _ _ _ I3) as W3.
  destruct r as [[]|e].
  - subst bufs1. split; [by apply (result_clear l a b (w_heap w) (w_heap w3))|].
    split; [|by exists bufs]. intros va Hv. by apply (result_all l a b _ _ bufs).
  - split; [done|]. split.
    + intros va m Em Hap. by apply (result_at l a b _ _ bufs1) with m.
    + intros va En. by apply (result_none l a b (w_heap w) (w_heap w3)).
Qed.

(** A run of frames with known contents becomes a mapping where none is. *)
Lemma place_ok frames rest w ms addr flags word : let l := ms_mappings ms in
  let m := mkMapping addr frames flags in
  trel (frames ++ tab_frames l ++ rest) w (tab_view l) -> tab_wf l -> aligned addr ->
  0 < frames_total frames -> canon_range addr (m_end m) -> m_end m < 2 ^ 64 ->
  tab_clear l addr (m_end m) -> holds (w_heap w) frames 0 (frames_total frames) word ->
  exists r w' ms', map_frame w ms tid addr frames flags = Ret (r, w', ms') /\
    minv rest w' (ms_mappings ms') /\ same_on rest (w_heap w) (w_heap w') /\
    match r with
    | Ok _ =>
        (forall va, addr <= va < m_end m -> tab_flags (ms_mappings ms') va = Some flags /\
          (va mod 8 = 0 -> tab_word (ms_mappings ms') (w_heap w') va = word (va - addr))) /\
        forall va, ~ (addr <= va < m_end m) -> sees_same l (ms_mappings ms') (w_heap w) (w_heap w') va
    | Err e => (e = ENOMEM \/ e = EINVAL) /\
        forall va, sees_same l (ms_mappings ms') (w_heap w) (w_heap w') va
    end.
Proof.
  intros l m T Hw Ha Hpos Hr He Hc Hh.
  assert (Hm : mapping_wf m).
  { split; [apply (trel_frames _ _ _ _ _ _ _ T)|done|done|]. unfold m_end, m in *.
    cbn [um_va um_frames] in *. lia. }
  destruct (map_frame_inv _ _ _ frames rest w ms addr flags T Hw Hm Hc) as (r & w' & ms' & E & Hr').
  exists r, w', ms'. split; [done|]. fold l m in Hr'. destruct r as [[]|e].
  - destruct Hr' as (-> & I & S). split; [done|]. split; [apply (same_on_sub _ _ _ _ S); clear; set_solver|].
    assert (Hh' : holds (w_heap w') frames 0 (frames_total frames) word).
    { apply (word_elem (w_heap w)); [done| |lia|lia]. apply (same_on_sub _ _ _ _ S). clear. set_solver. }
    split.
    + intros va Hv. by apply (added_new l m).
    + intros va Hv. apply (added_old l m); [done| |done]. apply (same_on_sub _ _ _ _ S). clear. set_solver.
  - destruct Hr' as (-> & I & He' & S). split; [done|].
    split; [apply (same_on_sub _ _ _ _ S); clear; set_solver|]. split; [done|]. intros va. split; [done|].
    intros _. by apply (word_same l rest); [apply Hw|].
Qed.

Lemma mmap_frames_ok rest w ms t len prot : let l := ms_mappings ms in
  minv rest w l -> aligned t -> 0 < len -> exact len -> canon_range t (t + len) -> t + len < 2 ^ 64 ->
  tab_clear l t (t + len) ->
  exists r w' ms', mmap_frames w ms tid t len prot = Ret (r, w', ms') /\
    minv rest w' (ms_mappings ms') /\ same_on rest (w_heap w) (w_heap w') /\
    match r with
    | Ok t' => t' = t /\ fresh_at (ms_mappings ms') (w_heap w') t (t + len) prot /\
        forall va, ~ (t <= va < t + len) -> sees_same l (ms_mappings ms') (w_heap w) (w_heap w') va
    | Err e => (e = EINVAL \/ e = ENOMEM) /\
        forall va, sees_same l (ms_mappings ms') (w_heap w) (w_heap w') va
    end.
Proof.
  intros l [T Hw] Ha Hl He Hr Hb Hc. unfold mmap_frames.
  destruct (trel_alloc _ _ _ _ _ _ len T) as (r & w1 & -> & S1 & Hr1). rewrite outcome_bind_Ret.
  assert (Hsame : forall h1, same_on (tab_frames l ++ rest) (w_heap w) h1 ->
    forall va, tab_word l h1 va = tab_word l (w_heap w) va).
  { intros h1 S va. by apply (word_same l rest); [apply Hw|]. }
  destruct r as [frames|].
  2: { exists (Err ENOMEM), w1, ms. split; [done|]. split; [by split|].
       split; [apply (same_on_sub _ _ _ _ S1); clear; set_solver|]. split; [by right|].
       intros va. split; [done|]. intros _. by apply Hsame. }
  destruct Hr1 as (T1 & _ & Et). rewrite He in Et.
  destruct (zero_frames_ok _ _ _ frames _ w1 _ T1) as (h2 & -> & T2 & S2 & Z2). rewrite outcome_bind_Ret.
  assert (S12 : same_on (tab_frames l ++ rest) (w_heap w) h2) by (by eapply same_on_trans).
  destruct (place_ok frames rest (set_heap w1 h2) ms t (prot_to_page_flags prot) (fun _ => Some 0) T2 Hw Ha)
    as (r & w3 & ms3 & E3 & I3 & S3 & Hr3); unfold m_end; cbn [um_va um_frames]; rewrite ?Et; try done.
  { rewrite <- Et. apply all_zero_holds; [apply (trel_frames _ _ _ _ _ _ _ T2)|done]. }
  unfold m_end in Hr3. cbn [um_va um_frames] in Hr3. rewrite Et in Hr3.
  change (mkW h2 (w_alloc w1) (w_mgr w1)) with (set_heap w1 h2). rewrite E3, outcome_bind_Ret.
  cbn [set_heap w_heap] in S3, Hr3.
  assert (Hvia : forall va, sees_same l (ms_mappings ms3) h2 (w_heap w3) va ->
    sees_same l (ms_mappings ms3) (w_heap w) (w_heap w3) va).
  { intros va [H1 H2]. split; [done|]. intros H8. rewrite H2 by done. by apply Hsame. }
  eexists _, w3, ms3. split; [done|]. split; [done|]. split.
  { apply (same_on_trans _ _ h2); [|done]. apply (same_on_sub _ _ _ _ S12). clear. set_solver. }
  destruct r as [[]|e].
  - destruct Hr3 as [H1 H2]. split; [done|]. split; [|intros va Hv; by apply Hvia, H2].
    intros va Hv. destruct (H1 va Hv) as [Hf Hz]. split; [|exact Hz]. eexists. split; [exact Hf|apply prot_grants].
  - destruct Hr3 as [H1 H2]. split; [clear -H1; tauto|]. intros va. by apply Hvia.
Qed.

End Calls.
