(* ===== verification/UserMemory.v ===== *)
(** * UserMemory: what [mmap], [munmap] and [mremap] do to a task's memory

    The system calls of [src/mm/memory_map.rs] on the tasks' tables: the flags
    and words a task sees at its addresses, on success and on every error, and
    what happens to a request that is not served exactly. *)

From stdpp Require Import gmap.
From S2P Require Import Prelude OrdMap Buddy FrameAlloc BitFields Abi PageTable SpaceClone SpaceManager.
From S2P Require Import MemoryMap MapTable MapTheory MapOps MapCalls.

(** The length of a mapping: rounded up to whole pages. *)
Definition page_up (x : Z) : Z := page_start (x + PAGE_SIZE - 1).

Lemma align_up_ok x : 0 <= x -> x + PAGE_SIZE < 2 ^ 64 -> align_up x = Ret (page_up x).
Proof.
  intros H0 Hb. unfold align_up, usize_add, usize_sub.
  destruct (Z.ltb_spec (x + PAGE_SIZE) (2 ^ 64)); [|lia]. rewrite outcome_bind_Ret.
  destruct (Z.leb_spec 1 (x + PAGE_SIZE)); [|unfold PAGE_SIZE in *; lia]. rewrite outcome_bind_Ret.
  rewrite align_down_eq by (unfold PAGE_SIZE in *; lia). done.
Qed.

Lemma page_up_bounds x : 0 < x -> aligned (page_up x) /\ x <= page_up x < x + PAGE_SIZE /\ 0 < page_up x.
Proof.
  intros Hx. unfold page_up. pose proof (page_spec (x + PAGE_SIZE - 1)) as H.
  fold (page_start (x + PAGE_SIZE - 1)) in H. split; [apply aligned_mul|]. unfold PAGE_SIZE in *. lia.
Qed.

Lemma sees_same_none l l' h h' va : sees_same l l' h h' va -> mapping_at l va = None ->
  mapping_at l' va = None.
Proof.
  intros [Hf _] En. unfold tab_flags in Hf. rewrite En in Hf. by destruct (mapping_at l' va).
Qed.

Lemma untouched_of_same l l' h h' a b : (forall va, sees_same l l' h h' va) -> untouched l l' h h' a b.
Proof.
  intros H. split; [by intros va m _ _|]. intros va En. by apply (sees_same_none _ _ _ _ va (H va)).
Qed.

Lemma sees_same_trans l1 l2 l3 h1 h2 h3 va : sees_same l1 l2 h1 h2 va -> sees_same l2 l3 h2 h3 va ->
  sees_same l1 l3 h1 h3 va.
Proof. intros [H1 H2] [H3 H4]. split; [congruence|]. intros H8. by rewrite H4, H2. Qed.

(** What [mmap] establishes: a fresh mapping of [len] bytes, at [addr] when the
    flags ask for it and where nothing was unless they allow replacing; or an
    error, with the rest of the task's memory as it was. *)
Definition mmap_post (l : list UserMapping) (h : heap) (addr len prot : Z) (fixed replace : bool)
    (r : result Z Z) (l' : list UserMapping) (h' : heap) : Prop :=
  match r with
  | Ok t => aligned t /\ canon_range t (t + len) /\ (fixed = true -> t = addr) /\
      (replace = false -> tab_clear l t (t + len)) /\ fresh_at l' h' t (t + len) prot /\
      forall va, ~ (t <= va < t + len) -> sees_same l l' h h' va
  | Err e => (e = EINVAL \/ e = ENOMEM \/ e = EEXIST \/ e = ENOSYS) /\
      (replace = false -> forall va, sees_same l l' h h' va) /\
      untouched l l' h h' addr (addr + len)
  end.

(** The [n] bytes from [dest] on: what was seen at [a], [size] bytes of it, and
    zeros after that. *)
Definition moved (l : list UserMapping) (h : heap) (a size dest n flags : Z)
    (l' : list UserMapping) (h' : heap) : Prop :=
  forall va, dest <= va < dest + n -> tab_flags l' va = Some flags /\
    (va mod 8 = 0 -> tab_word l' h' va =
       if va - dest <? size then tab_word l h (a + (va - dest)) else Some 0).

Section Calls.
Context {A : Type} {FS : FrameSource A} {FL : FrameLaws A}.
Context (abs0 : mabs) (tid : Z) (sh : Z -> bool) (rest : list Frame).

Abbreviation minv := (minv abs0 tid sh rest).

(** Only the entry of the task changes. *)
Definition task_updated (tasks tasks' : list (Z * MemorySet)) (ms' : MemorySet) : Prop :=
  om_ok tasks' /\ om_get tid tasks' = Some ms' /\
  forall t, t <> tid -> om_get t tasks' = om_get t tasks.

Lemma task_kept tasks ms : om_ok tasks -> om_get tid tasks = Some ms -> task_updated tasks tasks ms.
Proof. done. Qed.

Lemma task_modified tasks ms ms' : om_ok tasks -> om_get tid tasks = Some ms ->
  task_updated tasks (om_modify (fun _ => ms') tid tasks) ms'.
Proof.
  intros Hok Hg. rewrite (om_modify_insert _ _ _ _ Hg). split; [by apply om_insert_ok|].
  split; [|intros t Ht]; rewrite om_get_insert by done; [by rewrite decide_True|by rewrite decide_False].
Qed.

(** [flags] ask for the address itself, and allow replacing what is there. *)
Definition wants_fixed (flags : Z) : bool := has flags (Z.lor MmapFlags_FIXED MmapFlags_FIXED_NOREPLACE).
Definition replaces (flags : Z) : bool := wants_fixed flags && negb (has flags MmapFlags_FIXED_NOREPLACE).

Lemma fail_ok w ms addr len prot fixed replace e : minv w (ms_mappings ms) ->
  e = EINVAL \/ e = ENOMEM \/ e = EEXIST \/ e = ENOSYS ->
  exists r w' ms', (mret (Err e, w, ms) : outcome (result Z Z * world * MemorySet)) = Ret (r, w', ms') /\
    minv w' (ms_mappings ms') /\ same_on rest (w_heap w) (w_heap w') /\
    mmap_post (ms_mappings ms) (w_heap w) addr len prot fixed replace r (ms_mappings ms') (w_heap w').
Proof.
  intros I He. exists (Err e), w, ms. split; [done|]. split; [done|]. split; [apply same_on_refl|].
  split; [done|]. split; [done|]. by apply untouched_of_same.
Qed.

Lemma mmap_in_ok w ms addr len prot fixed noreplace : let l := ms_mappings ms in
  minv w l -> aligned len -> 0 < len -> exact len -> 0 <= addr < 2 ^ 64 ->
  (fixed = false -> stack_clear l) -> (noreplace = true -> fixed = true) ->
  (fixed && negb noreplace = true -> Forall (fun k => exact (k_size k)) (keeps l addr (addr + len))) ->
  exists r w' ms', mmap_in w ms tid addr len prot fixed noreplace = Ret (r, w', ms') /\
    minv w' (ms_mappings ms') /\ same_on rest (w_heap w) (w_heap w') /\
    mmap_post l (w_heap w) addr len prot fixed (fixed && negb noreplace) r (ms_mappings ms') (w_heap w').
Proof.
  intros l I Hal Hl He Hb Hs Hnr Hex. pose proof (mi_wf _ _ _ _ _ _ I) as Hw. unfold mmap_in.
  destruct (mmap_target_ok ms addr len fixed Hw Hs Hal Hl Hb) as (r & -> & Hr).
  rewrite outcome_bind_Ret. destruct r as [t|e]; [|apply fail_ok; [done|clear -Hr; tauto]].
  destruct Hr as (Ht & Htb & Hfix). unfold checked_add.
  destruct (Z.ltb_spec (t + len) (2 ^ 64)); [|apply fail_ok; [done|clear; tauto]].
  destruct (is_canonical_user_range t (t + len)) eqn:Ec; cbn [negb]; [|apply fail_ok; [done|clear; tauto]].
  assert (Hcr : canon_range t (t + len)).
  { unfold is_canonical_user_range in Ec. apply orb_true_iff in Ec. unfold canon_range.
    split; [lia|]. split; [lia|]. destruct Ec as [?%Z.leb_le|?%Z.leb_le]; [by left|by right]. }
  rewrite (range_is_free_ok ms _ _ (tw_wf _ Hw)). fold l.
  assert (Hbusy : (if noreplace then free ← Ret (bool_decide (tab_clear l t (t + len))); mret (negb free)
    else mret false) = Ret (noreplace && negb (bool_decide (tab_clear l t (t + len))))) by (by destruct noreplace).
  rewrite Hbusy, outcome_bind_Ret. clear Hbusy.
  destruct (noreplace && negb (bool_decide (tab_clear l t (t + len)))) eqn:Eb;
    [apply fail_ok; [done|clear; tauto]|].
  destruct (fixed && negb noreplace) eqn:Er.
  - apply andb_true_iff in Er as [-> Hn]. rewrite Hfix in *.
    destruct (unmap_range_ok abs0 tid sh rest w ms addr (addr + len) I)
      as (r & w1 & ms1 & -> & I1 & S1 & Hr1); [done|by apply aligned_add|lia|by apply Hex|].
    rewrite outcome_bind_Ret. destruct r as [[]|e].
    2: { eexists _, w1, ms1. split; [done|]. split; [done|]. split; [done|]. destruct Hr1 as [H1 H2].
         split; [clear -H1; tauto|]. split; [done|exact H2]. }
    destruct Hr1 as (Hc1 & Hs1 & _).
    destruct (mmap_frames_ok abs0 tid sh rest w1 ms1 addr len prot I1) as (r & w2 & ms2 & -> & I2 & S2 & Hr2);
      [done..|]. exists r, w2, ms2. split; [done|]. split; [done|]. split; [by eapply same_on_trans|].
    destruct r as [t'|e].
    + destruct Hr2 as (-> & Hf & Hs2). split; [done|]. split; [done|]. split; [done|]. split; [done|].
      split; [done|]. intros va Hv. by eapply sees_same_trans; [apply Hs1|apply Hs2].
    + destruct Hr2 as [He2 Hs2]. split; [clear -He2; tauto|]. split; [done|]. split.
      * intros va m Em Ha. eapply sees_same_trans; [apply Hs1|apply Hs2].
        destruct (mapping_at_some _ _ _ Em) as [_ Hin]. unfold apart in Ha. lia.
      * intros va En. destruct (untouched_of_same _ _ _ _ addr (addr + len) Hs2) as [_ H2]. apply H2.
        destruct (decide (addr <= va < addr + len)) as [Hv|Hv]; [by apply (mapping_at_clear _ _ _ va Hc1)|].
        by apply (sees_same_none _ _ _ _ va (Hs1 va Hv)).
  - rewrite outcome_bind_Ret. assert (Hc : tab_clear l t (t + len)).
    { destruct fixed; [|done]. destruct noreplace; [|done]. cbn [andb negb] in Eb.
      apply negb_false_iff, bool_decide_eq_true in Eb. done. }
    destruct (mmap_frames_ok abs0 tid sh rest w ms t len prot I) as (r & w2 & ms2 & -> & I2 & S2 & Hr2);
      [done..|]. exists r, w2, ms2. split; [done|]. split; [done|]. split; [done|].
    destruct r as [t'|e].
    + destruct Hr2 as (-> & Hf & Hs2). split; [done|]. split; [done|]. split; [by destruct fixed|].
      split; [done|]. by split.
    + destruct Hr2 as [He2 Hs2]. split; [clear -He2; tauto|]. split; [done|]. by apply untouched_of_same.
Qed.

(** [mmap] on a task whose page table agrees with its table of mappings, for
    a length that the frame allocator serves without rounding: the call does
    not fault, the page table and the table of mappings agree again, frames in
    other hands keep their contents, and either a fresh zeroed mapping with the
    flags of [prot] is added and everything else the task sees is as before, or
    the call fails and only what a replaced range met may have changed. *)
Theorem mmap_ok w tasks ms addr length prot flags fd offset :
  let l := ms_mappings ms in
  let len := page_up length in
  om_ok tasks -> om_get tid tasks = Some ms -> minv w l ->
  0 <= addr < 2 ^ 64 -> 0 <= length < 2 ^ 64 -> exact len ->
  (wants_fixed flags = false -> stack_clear l) ->
  (replaces flags = true -> Forall (fun k => exact (k_size k)) (keeps l addr (addr + len))) ->
  exists r w' tasks' ms', mmap w tasks tid addr length prot flags fd offset = Ret (r, w', tasks') /\
    task_updated tasks tasks' ms' /\ minv w' (ms_mappings ms') /\ same_on rest (w_heap w) (w_heap w') /\
    mmap_post l (w_heap w) addr len prot (wants_fixed flags) (replaces flags) r (ms_mappings ms') (w_heap w').
Proof.
  intros l len Hok Hg I Hb Hlb He Hs Hex. unfold mmap.
  assert (Hfail : forall e, e = EINVAL \/ e = ENOSYS -> exists r w' tasks' ms',
    (mret (Err e, w, tasks) : outcome (result Z Z * world * list (Z * MemorySet))) = Ret (r, w', tasks') /\
    task_updated tasks tasks' ms' /\ minv w' (ms_mappings ms') /\ same_on rest (w_heap w) (w_heap w') /\
    mmap_post l (w_heap w) addr len prot (wants_fixed flags) (replaces flags) r (ms_mappings ms') (w_heap w')).
  { intros e Hin. exists (Err e), w, tasks, ms. split; [done|]. split; [done|]. split; [done|].
    split; [apply same_on_refl|]. split; [clear -Hin; tauto|]. split; [done|]. by apply untouched_of_same. }
  destruct (has flags MmapFlags_ANONYMOUS); cbn [negb]; [|apply Hfail; by right].
  destruct (negb (fd =? -1) || negb (offset =? 0)); [apply Hfail; by left|].
  destruct (has prot (wnot 64 PROT_MASK)); [apply Hfail; by left|].
  destruct ((length =? 0) || (USIZE_MAX - PAGE_SIZE <=? length)) eqn:El; [apply Hfail; by left|].
  clear Hfail. zify_bool. unfold USIZE_MAX in *.
  rewrite align_up_ok by lia. rewrite outcome_bind_Ret. cbv zeta. unfold on_task. rewrite Hg.
  destruct (page_up_bounds length ltac:(lia)) as (Ha1 & _ & Ha3).
  destruct (mmap_in_ok w ms addr len prot (wants_fixed flags) (has flags MmapFlags_FIXED_NOREPLACE) I)
    as (r & w' & ms' & E & I' & S' & P'); try done.
  { unfold wants_fixed, has. intros Hn0. apply negb_true_iff, Z.eqb_neq in Hn0.
    apply negb_true_iff, Z.eqb_neq. intros E. apply Hn0. apply Z.bits_inj'. intros n Hn. rewrite Z.land_spec, Z.bits_0.
    assert (Hz := f_equal (fun z => Z.testbit z n) E). cbv beta in Hz.
    rewrite Z.land_spec, Z.lor_spec, Z.bits_0 in Hz.
    destruct (Z.testbit flags n), (Z.testbit MmapFlags_FIXED_NOREPLACE n), (Z.testbit MmapFlags_FIXED n);
      done. }
  unfold wants_fixed in E. fold len. rewrite E, outcome_bind_Ret. eexists r, w', _, ms'.
  split; [done|]. split; [by apply (task_modified _ ms)|]. done.
Qed.

(** [munmap] of a page-aligned range whose cuts through mappings leave parts
    that the frame allocator serves without rounding: afterwards the task sees
    nothing in the range and the same flags and words everywhere else; on an
    error only mappings that the range met may have changed. *)
Theorem munmap_ok w tasks ms addr length :
  let l := ms_mappings ms in
  om_ok tasks -> om_get tid tasks = Some ms -> minv w l ->
  aligned addr -> aligned length -> 0 <= addr -> 0 < length ->
  Forall (fun k => exact (k_size k)) (keeps l addr (addr + length)) ->
  exists r w' tasks' ms', munmap w tasks tid addr length = Ret (r, w', tasks') /\
    task_updated tasks tasks' ms' /\ minv w' (ms_mappings ms') /\ same_on rest (w_heap w) (w_heap w') /\
    match r with
    | Ok _ => (forall va, addr <= va < addr + length -> sees_nothing (ms_mappings ms') va) /\
        forall va, ~ (addr <= va < addr + length) ->
          sees_same l (ms_mappings ms') (w_heap w) (w_heap w') va
    | Err e => (e = EINVAL /\ 2 ^ 64 <= addr + length /\ ms' = ms) \/
        ((e = ENOMEM \/ e = EINVAL) /\
         untouched l (ms_mappings ms') (w_heap w) (w_heap w') addr (addr + length))
    end.
Proof.
  intros l Hok Hg I Ha Hl H0 Hpos Hex. unfold munmap, is_multiple_of. unfold aligned in Ha. rewrite Ha.
  destruct (Z.eqb_spec length 0); [lia|]. cbn [negb orb]. unfold checked_add.
  rewrite Z.eqb_refl. cbn [negb].
  destruct (Z.ltb_spec (addr + length) (2 ^ 64)).
  2: { exists (Err EINVAL), w, tasks, ms. split; [done|]. split; [done|]. split; [done|].
       split; [apply same_on_refl|]. by left. }
  unfold on_task. rewrite Hg.
  destruct (unmap_range_ok abs0 tid sh rest w ms addr (addr + length) I)
    as (r & w' & ms' & -> & I' & S' & Hr); [done|by apply aligned_add|lia|done|].
  rewrite outcome_bind_Ret. eexists r, w', _, ms'. split; [done|]. split; [by apply (task_modified _ ms)|].
  split; [done|]. split; [done|]. destruct r as [[]|e].
  - destruct Hr as (Hc & Hs & _). split; [|done]. intros va Hv. by apply (mapping_at_clear _ _ _ va Hc).
  - right. exact Hr.
Qed.

(** ** [mremap] *)

(** Zeroed frames with a copy of what the task sees from [a] on. *)
Lemma copied_frames w ms frames a size n : let l := ms_mappings ms in
  trel abs0 tid sh (frames ++ tab_frames l ++ rest) w (tab_view l) -> tab_wf l ->
  frames_total frames = n -> aligned a -> aligned size -> aligned n -> 0 <= a -> 0 < size -> 0 < n ->
  a + size <= 2 ^ 64 ->
  exists h1 b h2, zero_frames (w_heap w) frames = Ret h1 /\
    copy_mapped (page_steps 0 (Z.min size n)) h1 ms a 0 frames = Ret (b, h2) /\
    trel abs0 tid sh (frames ++ tab_frames l ++ rest) (set_heap w h2) (tab_view l) /\
    same_on (tab_frames l ++ rest) (w_heap w) h2 /\
    (b = true -> holds h2 frames 0 n
       (fun o => if o <? size then tab_word l (w_heap w) (a + o) else Some 0)).
Proof.
  intros l T Hw Et Ha Hs Hn Ha0 Hs0 Hn0 Hb.
  destruct (zero_frames_ok _ _ _ frames _ w _ T) as (h1 & -> & T1 & S1 & Z1).
  assert (Hmin : aligned (Z.min size n)) by (destruct (Z.min_spec size n) as [[_ ->]|[_ ->]]; done).
  assert (Hsteps : PAGE_SIZE * Z.of_nat (page_steps 0 (Z.min size n)) = Z.min size n).
  { rewrite page_steps_aligned; [lia|by rewrite Z.sub_0_r|lia]. }
  destruct (copy_mapped_ok _ _ _ (page_steps 0 (Z.min size n)) frames rest (set_heap w h1) _ ms a 0 T1 (tw_wf _ Hw))
    as (b & h2 & E2 & T2 & S2 & K2 & Hr2); [done|done|done|lia|lia|lia|].
  cbn [set_heap w_heap] in *. rewrite Hsteps, Z.add_0_l in *. fold l in T2, S2, Hr2.
  assert (S12 : same_on (tab_frames l ++ rest) (w_heap w) h2) by (by eapply same_on_trans).
  exists h1, b, h2. split; [done|]. split; [done|]. split; [done|]. split; [done|].
  intros ->. intros o Ho H8. destruct (Z_lt_ge_dec o (Z.min size n)) as [Hlt|Hge].
  - destruct (Hr2 o ltac:(lia) H8) as (p & Ep & Ew). exists p. split; [done|]. rewrite Ew.
    destruct (Z.ltb_spec o size); [|lia]. apply (word_same l rest); [apply Hw|done].
  - destruct (all_zero_holds h1 frames (proj1 (trel_frames _ _ _ _ _ _ _ T1)) Z1 o) as (p & Ep & Ew);
      [lia|done|]. exists p. split; [done|]. rewrite (K2 o p) by (done || lia). rewrite Ew.
    destruct (Z.ltb_spec o size); [lia|done].
Qed.

(** Frames with known contents take the place of a range, at [dest]. *)
Lemma replace_ok w ms frames a b dest n flags word : let l := ms_mappings ms in
  trel abs0 tid sh (frames ++ tab_frames l ++ rest) w (tab_view l) -> tab_wf l ->
  frames_total frames = n -> holds (w_heap w) frames 0 n word ->
  aligned a -> aligned b -> aligned dest -> a <= b -> 0 < n -> canon_range dest (dest + n) ->
  dest + n < 2 ^ 64 -> Forall (fun k => exact (k_size k)) (keeps l a b) ->
  (forall va, dest <= va < dest + n -> a <= va < b \/ mapping_at l va = None) ->
  exists r w' ms',
    ('(r, w, ms) ← unmap_range w ms tid a b;
     match r with
     | Err e => w ← w_drop_frames w frames; mret (Err e, w, ms)
     | Ok _ => map_frame w ms tid dest frames flags
     end) = Ret (r, w', ms') /\
    minv w' (ms_mappings ms') /\ same_on rest (w_heap w) (w_heap w') /\
    match r with
    | Ok _ => (forall va, dest <= va < dest + n -> tab_flags (ms_mappings ms') va = Some flags /\
          (va mod 8 = 0 -> tab_word (ms_mappings ms') (w_heap w') va = word (va - dest))) /\
        forall va, ~ (dest <= va < dest + n) ->
          if decide (a <= va < b) then sees_nothing (ms_mappings ms') va
          else sees_same l (ms_mappings ms') (w_heap w) (w_heap w') va
    | Err e => (e = ENOMEM \/ e = EINVAL) /\ untouched l (ms_mappings ms') (w_heap w) (w_heap w') a b
    end.
Proof.
  intros l T Hw Et Hh Ha Hb Hd Hab Hn0 Hc Hd64 Hex Hfree.
  destruct (unmap_range_ok abs0 tid sh (frames ++ rest) w ms a b) as (r & w3 & ms3 & -> & I3 & S3 & Hr3);
    [split; [|done]; apply (trel_perm _ _ _ _ _ _ _ T), Permutation_app_swap_app|done|done|lia|done|].
  rewrite outcome_bind_Ret. fold l in Hr3.
  assert (Sr : same_on rest (w_heap w) (w_heap w3)) by (apply (same_on_sub _ _ _ _ S3); clear; set_solver).
  assert (T3 : trel abs0 tid sh (frames ++ tab_frames (ms_mappings ms3) ++ rest) w3 (tab_view (ms_mappings ms3)))
    by (apply (trel_perm _ _ _ _ _ _ _ (mi_rel _ _ _ _ _ _ I3)), Permutation_app_swap_app).
  pose proof (mi_wf _ _ _ _ _ _ I3) as W3. destruct r as [[]|e].
  2: { destruct (trel_drop _ _ _ _ _ _ _ T3) as (w4 & -> & S4 & T4). rewrite outcome_bind_Ret.
       exists (Err e), w4, ms3. split; [done|]. split; [by split|].
       split; [apply (same_on_trans _ _ _ _ Sr); apply (same_on_sub _ _ _ _ S4); clear; set_solver|].
       destruct Hr3 as (He & H1 & H2). split; [done|]. split; [|done]. intros va m Em Hap.
       apply (sees_same_trans _ (ms_mappings ms3) _ _ (w_heap w3)); [by apply (H1 va m)|]. split; [done|].
       intros _. by apply (word_same _ rest); [apply W3|]. }
  destruct Hr3 as (Hc3 & Hs3 & _).
  assert (Hnone : forall va, mapping_at l va = None -> mapping_at (ms_mappings ms3) va = None).
  { intros va En. destruct (decide (a <= va < b)) as [Hv|Hv]; [by apply (mapping_at_clear _ _ _ va Hc3)|].
    by apply (sees_same_none _ _ _ _ va (Hs3 va Hv)). }
  destruct (place_ok abs0 tid sh frames rest w3 ms3 dest flags word T3 W3 Hd)
    as (r & w4 & ms4 & E4 & I4 & S4 & Hr4); unfold m_end in *; cbn [um_va um_frames] in *; rewrite ?Et; try done.
  { apply tab_clear_points; [apply W3|lia|]. intros va Hv.
    destruct (Hfree va Hv) as [Hin|En]; [by apply (mapping_at_clear _ _ _ va Hc3)|by apply Hnone]. }
  { apply (word_elem (w_heap w)); [done| |lia|lia]. apply (same_on_sub _ _ _ _ S3). clear. set_solver. }
  rewrite Et in Hr4. exists r, w4, ms4. split; [done|]. split; [done|]. split; [by eapply same_on_trans|].
  destruct r as [[]|e].
  - destruct Hr4 as [H1 H2]. split; [done|]. intros va Hv. specialize (H2 va Hv). destruct (decide _) as [Hv2|Hv2].
    + apply (sees_same_none _ _ _ _ va H2). by apply (mapping_at_clear _ _ _ va Hc3).
    + by apply (sees_same_trans _ (ms_mappings ms3) _ _ (w_heap w3)); [apply Hs3|].
  - destruct Hr4 as [H1 H2]. split; [done|]. split.
    + intros va m Em Hap. apply (sees_same_trans _ (ms_mappings ms3) _ _ (w_heap w3)); [|done]. apply Hs3.
      destruct (mapping_at_some _ _ _ Em) as [_ Hin]. unfold apart in Hap. lia.
    + intros va En. apply (sees_same_none _ _ _ _ va (H2 va)). by apply Hnone.
Qed.

Lemma rebuild_ok w ms a b dest n flags : let l := ms_mappings ms in
  minv w l -> aligned a -> aligned b -> aligned dest -> aligned n -> 0 <= a < b -> b < 2 ^ 64 ->
  0 < n -> exact n -> canon_range dest (dest + n) -> dest + n < 2 ^ 64 ->
  Forall (fun k => exact (k_size k)) (keeps l a b) ->
  (forall va, dest <= va < dest + n -> a <= va < b \/ mapping_at l va = None) ->
  exists r w' ms', rebuild w ms tid a b dest n flags = Ret (r, w', ms') /\
    minv w' (ms_mappings ms') /\ same_on rest (w_heap w) (w_heap w') /\
    match r with
    | Ok _ => moved l (w_heap w) a (b - a) dest n flags (ms_mappings ms') (w_heap w') /\
        forall va, ~ (dest <= va < dest + n) ->
          if decide (a <= va < b) then sees_nothing (ms_mappings ms') va
          else sees_same l (ms_mappings ms') (w_heap w) (w_heap w') va
    | Err e => (e = ENOMEM \/ e = EFAULT \/ e = EINVAL) /\
        untouched l (ms_mappings ms') (w_heap w) (w_heap w') a b
    end.
Proof.
  intros l [T Hw] Ha Hb Hd Hn Hab Hb64 Hn0 He Hc Hd64 Hex Hfree. unfold rebuild, usize_sub.
  destruct (Z.leb_spec a b); [|lia]. rewrite outcome_bind_Ret. cbv zeta.
  destruct (trel_alloc _ _ _ _ _ _ n T) as (r & w1 & -> & S1 & Hr1). rewrite outcome_bind_Ret.
  assert (Hsame : forall h1, same_on (tab_frames l ++ rest) (w_heap w) h1 ->
    forall va, sees_same l l (w_heap w) h1 va).
  { intros h1 S va. split; [done|]. intros _. by apply (word_same l rest); [apply Hw|]. }
  destruct r as [frames|].
  2: { exists (Err ENOMEM), w1, ms. split; [done|]. split; [by split|].
       split; [apply (same_on_sub _ _ _ _ S1); clear; set_solver|]. split; [by left|].
       apply untouched_of_same. by apply Hsame. }
  destruct Hr1 as (T1 & _ & Et). rewrite He in Et.
  destruct (copied_frames w1 ms frames a (b - a) n T1 Hw Et) as (h1 & bb & h2 & -> & E2 & T2 & S2 & Hh2);
    [done|by apply aligned_sub|done|lia|lia|lia|lia|].
  rewrite outcome_bind_Ret, E2, outcome_bind_Ret. fold (set_heap w1 h2). fold l in T2, S2, Hh2.
  assert (S02 : same_on (tab_frames l ++ rest) (w_heap w) h2) by (by eapply same_on_trans).
  assert (Sr : same_on rest (w_heap w) h2) by (apply (same_on_sub _ _ _ _ S02); clear; set_solver).
  destruct bb.
  2: { destruct (trel_drop _ _ _ _ _ _ _ T2) as (w3 & -> & S3 & T3). rewrite outcome_bind_Ret.
       exists (Err EFAULT), w3, ms. split; [done|]. split; [by split|]. cbn [set_heap w_heap] in S3.
       split; [apply (same_on_trans _ _ _ _ Sr); apply (same_on_sub _ _ _ _ S3); clear; set_solver|].
       split; [tauto|]. apply untouched_of_same. apply Hsame. by eapply same_on_trans. }
  destruct (replace_ok (set_heap w1 h2) ms frames a b dest n flags _ T2 Hw Et (Hh2 eq_refl))
    as (r & w3 & ms3 & E3 & I3 & S3 & Hr3); [done|done|done|lia|done..|].
  cbn [set_heap w_heap] in S3, Hr3. exists r, w3, ms3. split; [exact E3|]. split; [done|].
  split; [by eapply same_on_trans|]. destruct r as [[]|e].
  - destruct Hr3 as [H1 H2]. split.
    + intros va Hv. destruct (H1 va Hv) as [Hf Hwd]. split; [done|]. intros H8. rewrite Hwd by done.
      destruct (Z.ltb_spec (va - dest) (b - a)); [|done]. apply (word_same l rest); [apply Hw|done].
    + intros va Hv. specialize (H2 va Hv). destruct (decide _); [done|].
      by apply (sees_same_trans _ l _ _ h2); [apply Hsame|].
  - destruct Hr3 as (H1 & H2 & H3). split; [clear -H1; tauto|]. split; [|done]. intros va m Em Hap.
    by apply (sees_same_trans _ l _ _ h2); [apply Hsame|apply (H2 va m)].
Qed.

(** What a move establishes. *)
Definition move_post (l : list UserMapping) (h : heap) (a b dest n : Z) (replace : bool)
    (r : result Z Z) (l' : list UserMapping) (h' : heap) : Prop :=
  match r with
  | Ok t => t = dest /\ (exists fl, tab_flags l a = Some fl /\ moved l h a (b - a) t n fl l' h') /\
      forall va, ~ (t <= va < t + n) ->
        if decide (a <= va < b) then sees_nothing l' va else sees_same l l' h h' va
  | Err e => (e = EINVAL \/ e = ENOMEM \/ e = EFAULT) /\
      (forall va m, mapping_at l va = Some m -> apart a b m ->
        (replace = true -> apart dest (dest + n) m) -> sees_same l l' h h' va) /\
      forall va, mapping_at l va = None -> sees_nothing l' va
  end.

Lemma move_fail (w : @world A) ms a b dest n replace e : minv w (ms_mappings ms) ->
  e = EINVAL \/ e = ENOMEM \/ e = EFAULT ->
  exists r w' ms', (mret (Err e, w, ms) : outcome (result Z Z * world * MemorySet)) = Ret (r, w', ms') /\
    minv w' (ms_mappings ms') /\ same_on rest (w_heap w) (w_heap w') /\
    move_post (ms_mappings ms) (w_heap w) a b dest n replace r (ms_mappings ms') (w_heap w').
Proof.
  intros I He. exists (Err e), w, ms. split; [done|]. split; [done|]. split; [apply same_on_refl|]. done.
Qed.

(** The destination is free, or made free. *)
Lemma free_dest_ok w ms dest n (replace : bool) : let l := ms_mappings ms in
  minv w l -> aligned dest -> aligned n -> 0 < n -> (replace = true -> uncut l dest (dest + n)) ->
  exists r w' ms',
    (if replace then unmap_range w ms tid dest (dest + n)
     else
       free ← range_is_free ms dest (dest + n);
       mret (if free : bool then Ok tt else Err ENOMEM, w, ms)) = Ret (r, w', ms') /\
    minv w' (ms_mappings ms') /\ same_on rest (w_heap w) (w_heap w') /\
    match r with
    | Ok _ => tab_clear (ms_mappings ms') dest (dest + n) /\
        (forall va, ~ (dest <= va < dest + n) -> sees_same l (ms_mappings ms') (w_heap w) (w_heap w') va /\
          mapping_at (ms_mappings ms') va = mapping_at l va) /\
        (replace = false -> tab_clear l dest (dest + n)) /\
        (forall a b Q, Forall Q (keeps l a b) -> Forall Q (keeps (ms_mappings ms') a b))
    | Err e => (e = EINVAL \/ e = ENOMEM \/ e = EFAULT) /\
        (forall va m, mapping_at l va = Some m -> (replace = true -> apart dest (dest + n) m) ->
           sees_same l (ms_mappings ms') (w_heap w) (w_heap w') va) /\
        forall va, mapping_at l va = None -> sees_nothing (ms_mappings ms') va
    end.
Proof.
  intros l I Hd Hn Hn0 Hu. pose proof (mi_wf _ _ _ _ _ _ I) as Hw. destruct replace.
  - assert (Ek : keeps l dest (dest + n) = []) by (by apply uncut_keeps, Hu).
    destruct (unmap_range_ok abs0 tid sh rest w ms dest (dest + n) I) as (r & w1 & ms1 & -> & I1 & S1 & Hr1);
      [done|by apply aligned_add|lia|fold l; by rewrite Ek|].
    exists r, w1, ms1. split; [done|]. split; [done|]. split; [done|]. fold l in Hr1. destruct r as [[]|e].
    + destruct Hr1 as (Hc & Hs & bufs & El & Eb). split; [done|]. rewrite Ek in Eb.
      destruct bufs; [|done]. cbn [fmap list_fmap] in El. rewrite app_nil_r in El.
      split; [|split; [done|rewrite El; intros a b Q; by apply keeps_filter]].
      intros va Hv. split; [by apply Hs|]. destruct (mapping_at l va) as [m|] eqn:Em.
      * destruct (mapping_at_some _ _ _ Em) as [Hm Hr].
        apply mapping_at_elem; [apply (mi_wf _ _ _ _ _ _ I1)| |done]. rewrite El.
        apply list_elem_of_filter. split; [|done].
        destruct (proj1 (Forall_forall _ _) (Hu eq_refl) m Hm) as [?|?]; [done|lia].
      * by apply (sees_same_none _ _ _ _ va (Hs va Hv)).
    + destruct Hr1 as (He & H1 & H2). split; [clear -He; tauto|]. split; [|done].
      intros va m Em Ha. apply (H1 va m Em). by apply Ha.
  - rewrite (range_is_free_ok ms _ _ (tw_wf _ Hw)), outcome_bind_Ret. fold l. eexists _, w, ms.
    split; [done|]. split; [done|]. split; [apply same_on_refl|]. case_bool_decide; [done|].
    split; [tauto|]. done.
Qed.

Lemma move_to_ok w ms a b dest n replace : let l := ms_mappings ms in
  minv w l -> aligned a -> aligned b -> aligned dest -> aligned n -> 0 <= a < b -> b < 2 ^ 64 ->
  0 <= dest -> 0 < n -> exact n -> Forall (fun k => exact (k_size k)) (keeps l a b) ->
  (replace = true -> uncut l dest (dest + n)) ->
  exists r w' ms', move_to w ms tid a b dest n replace = Ret (r, w', ms') /\
    minv w' (ms_mappings ms') /\ same_on rest (w_heap w) (w_heap w') /\
    move_post l (w_heap w) a b dest n replace r (ms_mappings ms') (w_heap w').
Proof.
  intros l I Ha Hb Hd Hn Hab Hb64 Hd0 Hn0 He Hex Hu. unfold move_to, checked_add.
  destruct (Z.ltb_spec (dest + n) (2 ^ 64)) as [Hd64|]; [|apply move_fail; [done|tauto]].
  destruct (is_canonical_user_range dest (dest + n)) eqn:Ec; cbn [negb]; [|apply move_fail; [done|tauto]].
  destruct ((dest <? b) && (a <? dest + n)) eqn:Eo; [apply move_fail; [done|tauto]|].
  assert (Hno : forall x, dest <= x < dest + n -> ~ (a <= x < b)).
  { intros x Hx1 Hx2. destruct (Z.ltb_spec dest b), (Z.ltb_spec a (dest + n)); lia || done. }
  assert (Hno' : dest + n <= a \/ b <= dest).
  { destruct (Z.ltb_spec dest b), (Z.ltb_spec a (dest + n)); lia || done. }
  assert (Hcr : canon_range dest (dest + n)).
  { unfold is_canonical_user_range in Ec. apply orb_true_iff in Ec. unfold canon_range.
    split; [lia|]. split; [lia|]. destruct Ec as [?%Z.leb_le|?%Z.leb_le]; [by left|by right]. }
  destruct (free_dest_ok w ms dest n replace I Hd Hn Hn0 Hu) as (r & w1 & ms1 & -> & I1 & S1 & Hr1).
  rewrite outcome_bind_Ret. fold l in Hr1. destruct r as [[]|e].
  2: { eexists _, w1, ms1. split; [done|]. split; [done|]. split; [done|].
       destruct Hr1 as (H1 & H2 & H3). split; [done|]. split; [|done]. intros va m Em _. by apply (H2 va m). }
  destruct Hr1 as (Hc1 & Hs1 & Hfr & Hk1).
  assert (Hnone : forall va, mapping_at l va = None -> mapping_at (ms_mappings ms1) va = None).
  { intros va En. destruct (decide (dest <= va < dest + n)) as [|Hv]; [by apply (mapping_at_clear _ _ _ va Hc1)|].
    by rewrite (proj2 (Hs1 va Hv)). }
  assert (Hbad : forall e l2 h2, e = EINVAL \/ e = ENOMEM \/ e = EFAULT ->
    untouched (ms_mappings ms1) l2 (w_heap w1) h2 a b ->
    move_post l (w_heap w) a b dest n replace (Err e) l2 h2).
  { intros e l2 h2 Hin [H1 H2]. split; [done|]. split; [|intros va En; by apply H2, Hnone].
    intros va m Em Hap Hrep. destruct (mapping_at_some _ _ _ Em) as [_ Hr].
    assert (Hv : ~ (dest <= va < dest + n)).
    { intros Hv. destruct replace; [destruct (Hrep eq_refl); lia|].
      by rewrite (mapping_at_clear _ _ _ va (Hfr eq_refl) Hv) in Em. }
    destruct (Hs1 va Hv) as [Hs Hm]. apply (sees_same_trans _ _ _ _ _ _ _ Hs), (H1 va m); [|done].
    by rewrite Hm. }
  rewrite flags_of_first_ok by (try lia; apply (mi_wf _ _ _ _ _ _ I1)). rewrite outcome_bind_Ret.
  assert (Ea : tab_flags (ms_mappings ms1) a = tab_flags l a).
  { unfold tab_flags. rewrite (proj2 (Hs1 a ltac:(lia))). done. }
  rewrite Ea. destruct (tab_flags l a) as [fl|] eqn:Efl.
  2: { eexists _, w1, ms1. split; [done|]. split; [done|]. split; [done|]. apply Hbad; [tauto|].
       by apply untouched_of_same. }
  destruct (rebuild_ok w1 ms1 a b dest n fl I1) as (r & w2 & ms2 & -> & I2 & S2 & Hr2); try done.
  { by apply Hk1. }
  { intros va Hv. right. by apply (mapping_at_clear _ _ _ va Hc1). }
  rewrite outcome_bind_Ret. eexists _, w2, ms2. split; [done|]. split; [done|].
  split; [by eapply same_on_trans|]. destruct r as [[]|e].
  2: { destruct Hr2 as [H1 H2]. apply Hbad; [clear -H1; tauto|done]. }
  destruct Hr2 as [Hmv Hot]. split; [done|]. split.
  - exists fl. split; [done|]. intros va Hv. destruct (Hmv va Hv) as [Hf Hwd]. split; [done|].
    intros H8. rewrite Hwd by done. destruct (Z.ltb_spec (va - dest) (b - a)); [|done].
    apply (Hs1 (a + (va - dest))); [lia|].
    apply mod8_add; [by apply mul8_page|]. apply mod8_sub; [done|by apply mul8_page].
  - intros va Hv. specialize (Hot va Hv). destruct (decide _); [done|].
    by apply (sees_same_trans _ _ _ _ _ _ _ (proj1 (Hs1 va Hv))).
Qed.

Lemma rebuild_in_place_ok w ms a b n dest replace : let l := ms_mappings ms in
  minv w l -> aligned a -> aligned b -> aligned n -> 0 <= a < b -> b < 2 ^ 64 ->
  0 < n -> exact n -> canon_range a (a + n) -> a + n < 2 ^ 64 ->
  Forall (fun k => exact (k_size k)) (keeps l a b) ->
  (forall va, a <= va < a + n -> a <= va < b \/ mapping_at l va = None) ->
  exists r w' ms', rebuild_in_place w ms tid a b n = Ret (r, w', ms') /\
    minv w' (ms_mappings ms') /\ same_on rest (w_heap w) (w_heap w') /\
    match r with
    | Ok t => t = a /\ move_post l (w_heap w) a b a n replace r (ms_mappings ms') (w_heap w')
    | Err _ => move_post l (w_heap w) a b dest n replace r (ms_mappings ms') (w_heap w')
    end.
Proof.
  intros l I Ha Hb Hn Hab Hb64 Hn0 He Hc Hd64 Hex Hfree. unfold rebuild_in_place.
  rewrite flags_of_first_ok by (try lia; apply (mi_wf _ _ _ _ _ _ I)). rewrite outcome_bind_Ret. fold l.
  destruct (tab_flags l a) as [fl|] eqn:Efl.
  2: { exists (Err EFAULT), w, ms. split; [done|]. split; [done|]. split; [apply same_on_refl|].
       split; [tauto|]. done. }
  destruct (rebuild_ok w ms a b a n fl I) as (r & w2 & ms2 & -> & I2 & S2 & Hr2); try done.
  rewrite outcome_bind_Ret. eexists _, w2, ms2. split; [done|]. split; [done|]. split; [done|].
  destruct r as [[]|e].
  - destruct Hr2 as [H1 H2]. split; [done|]. split; [done|]. split; [by exists fl|done].
  - destruct Hr2 as (H1 & H2 & H3). split; [clear -H1; tauto|]. split; [|done].
    intros va m Em Hap _. by apply (H2 va m).
Qed.

Definition mremap_post (l : list UserMapping) (h : heap) (old old_size new_size new_address : Z)
    (fixed : bool) (r : result Z Z) (l' : list UserMapping) (h' : heap) : Prop :=
  match r with
  | Ok t => (t = old /\ new_size = old_size /\ l' = l /\ h' = h) \/
      ((t = old \/ (if fixed then t = new_address else tab_clear l t (t + new_size))) /\
       move_post l h old (old + old_size) t new_size fixed r l' h')
  | Err _ => move_post l h old (old + old_size) new_address new_size fixed r l' h'
  end.

Lemma mremap_in_ok w ms old old_size new_size flags new_address fixed : let l := ms_mappings ms in
  minv w l -> stack_clear l -> aligned old -> aligned old_size -> aligned new_size ->
  (fixed = true -> aligned new_address) -> 0 <= old -> 0 < old_size -> 0 < new_size -> 0 <= new_address ->
  old + old_size < 2 ^ 64 -> exact new_size ->
  Forall (fun k => exact (k_size k)) (keeps l old (old + old_size)) ->
  (fixed = true -> uncut l new_address (new_address + new_size)) ->
  exists r w' ms', mremap_in w ms tid old old_size (old + old_size) new_size flags new_address fixed =
      Ret (r, w', ms') /\
    minv w' (ms_mappings ms') /\ same_on rest (w_heap w) (w_heap w') /\
    mremap_post l (w_heap w) old old_size new_size new_address fixed r (ms_mappings ms') (w_heap w').
Proof.
  intros l I Hst Ha Hs Hn Hna H0 Hs0 Hn0 Hna0 Hb64 He Hex Hu. pose proof (mi_wf _ _ _ _ _ _ I) as Hw.
  assert (Hb : aligned (old + old_size)) by (by apply aligned_add).
  assert (Hmove : forall dest, (if fixed then dest = new_address else tab_clear l dest (dest + new_size)) ->
    aligned dest -> 0 <= dest -> exists r w' ms',
    move_to w ms tid old (old + old_size) dest new_size fixed = Ret (r, w', ms') /\
    minv w' (ms_mappings ms') /\ same_on rest (w_heap w) (w_heap w') /\
    mremap_post l (w_heap w) old old_size new_size new_address fixed r (ms_mappings ms') (w_heap w')).
  { intros dest Hd Hda Hd0.
    destruct (move_to_ok w ms old (old + old_size) dest new_size fixed I) as (r & w' & ms' & E & I' & S' & P');
      try done; [lia|intros ->; rewrite Hd; by apply Hu|].
    exists r, w', ms'. split; [done|]. split; [done|]. split; [done|]. destruct r as [t|e].
    - right. pose proof (proj1 P') as ->. split; [right; by destruct fixed|done].
    - destruct P' as (H1 & H2 & H3). split; [done|]. split; [|done]. intros va m Em Hap Hrep.
      apply (H2 va m Em Hap). intros ->. rewrite Hd. by apply Hrep. }
  unfold mremap_in. destruct (Z.eqb_spec new_size old_size) as [Es|Es].
  { subst new_size. destruct fixed; [destruct (new_address =? old)|]; cbn [andb negb].
    1, 3: eexists _, w, ms; split; [done|]; split; [done|]; split; [apply same_on_refl|]; by left.
    apply Hmove; [done|by apply Hna|done]. }
  unfold range_fully_mapped.
  destruct (pages_mapped_ok (page_steps old (old + old_size)) ms old (tw_wf _ Hw) Ha) as (full & -> & Hfull).
  rewrite page_steps_aligned in Hfull by (lia || (replace (old + old_size - old) with old_size by lia; done)).
  rewrite outcome_bind_Ret. destruct full; cbn [negb].
  2: { eexists _, w, ms. split; [done|]. split; [done|]. split; [apply same_on_refl|]. split; [tauto|]. done. }
  replace (old + (old + old_size - old)) with (old + old_size) in Hfull by lia. specialize (Hfull eq_refl).
  pose proof (mapped_canon l old (old + old_size) (tw_wf _ Hw) ltac:(lia) ltac:(lia) Hfull) as Hcan.
  assert (Hplace : canon_range old (old + new_size) -> old + new_size < 2 ^ 64 ->
    (forall va, old <= va < old + new_size -> old <= va < old + old_size \/ mapping_at l va = None) ->
    exists r w' ms', rebuild_in_place w ms tid old (old + old_size) new_size = Ret (r, w', ms') /\
    minv w' (ms_mappings ms') /\ same_on rest (w_heap w) (w_heap w') /\
    mremap_post l (w_heap w) old old_size new_size new_address fixed r (ms_mappings ms') (w_heap w')).
  { intros Hc Hc64 Hfree. destruct (rebuild_in_place_ok w ms old (old + old_size) new_size new_address fixed I)
      as (r & w' & ms' & E & I' & S' & P'); try done; [lia|].
    exists r, w', ms'. split; [done|]. split; [done|]. split; [done|]. destruct r as [t|e]; [|done].
    destruct P' as [-> P']. right. split; [by left|done]. }
  destruct (Z.ltb_spec new_size old_size).
  { apply Hplace; [unfold canon_range in *; lia|lia|]. intros va Hv. left. lia. }
  unfold usize_sub. destruct (Z.leb_spec old_size new_size); [|lia]. rewrite outcome_bind_Ret.
  unfold checked_add. replace (old + old_size + (new_size - old_size)) with (old + new_size) by lia.
  assert (Hgo : exists r w' ms',
    (if fixed then move_to w ms tid old (old + old_size) new_address new_size true
     else if has flags MremapFlags_MAYMOVE then
       dest ← find_free_region ms new_size;
       match dest with
       | None => mret (Err ENOMEM, w, ms)
       | Some dest => move_to w ms tid old (old + old_size) dest new_size false
       end
     else mret (Err ENOMEM, w, ms)) = Ret (r, w', ms') /\
    minv w' (ms_mappings ms') /\ same_on rest (w_heap w) (w_heap w') /\
    mremap_post l (w_heap w) old old_size new_size new_address fixed r (ms_mappings ms') (w_heap w')).
  { assert (Hno : exists r w' ms', (mret (Err ENOMEM, w, ms) : outcome (result Z Z * world * MemorySet)) =
      Ret (r, w', ms') /\ minv w' (ms_mappings ms') /\ same_on rest (w_heap w) (w_heap w') /\
      mremap_post l (w_heap w) old old_size new_size new_address fixed r (ms_mappings ms') (w_heap w')).
    { eexists _, w, ms. split; [done|]. split; [done|]. split; [apply same_on_refl|]. split; [tauto|]. done. }
    destruct fixed; [apply Hmove; [done|by apply Hna|done]|].
    destruct (has flags MremapFlags_MAYMOVE); [|done].
    destruct (find_free_ok ms new_size Hw Hst Hn Hn0) as (r & -> & Hr). rewrite outcome_bind_Ret.
    destruct r as [dest|]; [|done]. destruct Hr as (? & ? & _ & ?). by apply Hmove. }
  destruct (Z.ltb_spec (old + new_size) (2 ^ 64)); [|by rewrite outcome_bind_Ret].
  rewrite (range_is_free_ok ms _ _ (tw_wf _ Hw)), !outcome_bind_Ret. fold l.
  destruct (bool_decide (tab_clear l (old + old_size) (old + new_size)) &&
    is_canonical_user_range old (old + new_size)) eqn:Eg; [|done].
  apply andb_true_iff in Eg as [Hc%bool_decide_eq_true Hcr].
  apply Hplace; [|done|].
  - unfold is_canonical_user_range in Hcr. apply orb_true_iff in Hcr. unfold canon_range.
    split; [lia|]. split; [lia|]. destruct Hcr as [?%Z.leb_le|?%Z.leb_le]; [by left|by right].
  - intros va Hv. destruct (Z_lt_ge_dec va (old + old_size)); [left; lia|]. right.
    apply (mapping_at_clear _ _ _ va Hc). lia.
Qed.

(** [mremap] under the same conditions: on success the task sees, from the
    returned address on, the words it saw at the old address up to the smaller
    of the two sizes and zeros after them, nothing in what is left of the old
    range, and the same as before everywhere else; on an error only mappings
    that the old range or a replaced destination met may have changed. *)
Theorem mremap_ok w tasks ms old old_size new_size flags new_address :
  let l := ms_mappings ms in
  om_ok tasks -> om_get tid tasks = Some ms -> minv w l -> stack_clear l ->
  0 <= old -> 0 <= old_size -> 0 <= new_size -> 0 <= new_address -> exact new_size ->
  Forall (fun k => exact (k_size k)) (keeps l old (old + old_size)) ->
  (has flags MremapFlags_FIXED = true -> uncut l new_address (new_address + new_size)) ->
  exists r w' tasks' ms', mremap w tasks tid old old_size new_size flags new_address = Ret (r, w', tasks') /\
    task_updated tasks tasks' ms' /\ minv w' (ms_mappings ms') /\ same_on rest (w_heap w) (w_heap w') /\
    mremap_post l (w_heap w) old old_size new_size new_address (has flags MremapFlags_FIXED) r
      (ms_mappings ms') (w_heap w').
Proof.
  intros l Hok Hg I Hst H0 Hs0 Hn0 Hna0 He Hex Hu. unfold mremap, is_multiple_of.
  assert (Hfail : exists r w' tasks' ms',
    (mret (Err EINVAL, w, tasks) : outcome (result Z Z * world * list (Z * MemorySet))) = Ret (r, w', tasks') /\
    task_updated tasks tasks' ms' /\ minv w' (ms_mappings ms') /\ same_on rest (w_heap w) (w_heap w') /\
    mremap_post l (w_heap w) old old_size new_size new_address (has flags MremapFlags_FIXED) r
      (ms_mappings ms') (w_heap w')).
  { exists (Err EINVAL), w, tasks, ms. split; [done|]. split; [done|]. split; [done|].
    split; [apply same_on_refl|]. split; [tauto|]. done. }
  destruct (_ || _) eqn:Eo; [done|]. zify_bool. unfold checked_add.
  destruct (Z.ltb_spec (old + old_size) (2 ^ 64)); [|done].
  destruct (has flags MremapFlags_FIXED && negb (new_address mod PAGE_SIZE =? 0)) eqn:Ef; [done|].
  unfold on_task. rewrite Hg.
  destruct (mremap_in_ok w ms old old_size new_size flags new_address (has flags MremapFlags_FIXED) I Hst)
    as (r & w' & ms' & -> & I' & S' & P'); try done; try lia.
  { intros E. rewrite E in Ef. cbn [andb] in Ef. by apply negb_false_iff, Z.eqb_eq in Ef. }
  rewrite outcome_bind_Ret. eexists r, w', _, ms'. split; [done|].
  split; [by apply (task_modified _ ms)|]. done.
Qed.

End Calls.

(** ** Requests the allocator rounds up *)

Section Spill.
Context {A : Type} {FS : FrameSource A} {FL : FrameLaws A}.
Context (abs0 : mabs) (tid : Z) (sh : Z -> bool) (rest : list Frame).

(** The view [v] leads into the frames on all of [[a, b)]. *)
Definition leads_into (v : Z -> option Z) (frames : list Frame) (flags a b : Z) : Prop :=
  forall va, a <= va < b -> exists f o, f ∈ frames /\ 0 <= o < fr_size f /\
    v va = Some (leaf_pte (fr_start f + o) flags).

(** A request of three pages is served with four, and all four are mapped:
    when [mmap] places it at [t], the task's page table leads from the fourth
    page on, which is not part of the request, to the new frames, whatever the
    table of mappings has there. *)
Theorem mmap_spills w ms t prot : let l := ms_mappings ms in
  minv abs0 tid sh rest w l -> aligned t -> canon_range t (t + 16384) -> flags_leaf (prot_to_page_flags prot) = true ->
  exists r w' ms', mmap_frames w ms tid t 12288 prot = Ret (r, w', ms') /\
    match r with
    | Ok _ => exists frames v, frames_total frames = 16384 /\
        ms_mappings ms' = l ++ [mkMapping t frames (prot_to_page_flags prot)] /\
        trel abs0 tid sh (frames ++ tab_frames l ++ rest) w' v /\
        leads_into v frames (prot_to_page_flags prot) (t + 12288) (t + 16384)
    | Err e => e = ENOMEM \/ e = EINVAL
    end.
Proof.
  intros l [T Hw] Ha Hr Hl. unfold mmap_frames.
  destruct (trel_alloc _ _ _ _ _ _ 12288 T) as (r & w1 & -> & S1 & Hr1). rewrite outcome_bind_Ret.
  destruct r as [frames|]; [|exists (Err ENOMEM), w1, ms; split; [done|]; by left].
  destruct Hr1 as (T1 & _ & Et). change (served 12288) with 16384 in Et.
  destruct (zero_frames_ok _ _ _ frames _ w1 _ T1) as (h2 & -> & T2 & S2 & Z2). rewrite outcome_bind_Ret.
  destruct (map_frame_ok abs0 tid sh _ (set_heap w1 h2) _ ms t frames (prot_to_page_flags prot) T2 Ha)
    as (r & w3 & ms3 & E3 & Hr3); [by rewrite Et|].
  fold (set_heap w1 h2). rewrite E3, outcome_bind_Ret. eexists _, w3, ms3. split; [done|].
  destruct r as [[]|e]; [|by destruct Hr3 as (_ & _ & He & _)].
  destruct Hr3 as (_ & -> & T3). rewrite Hl in T3. eexists frames, _. split; [done|]. split; [done|].
  split; [exact T3|]. intros va Hv. unfold over_frames. destruct (Z.leb_spec t va); [|lia].
  destruct (page_start_between va t (t + 16384)) as [Hp1 Hp2]; [done|by apply aligned_add|lia|].
  destruct (phys_of_some frames (page_start va - t)) as (f & o & Hf & -> & Ho).
  { rewrite Et. unfold PAGE_SIZE in Hp2. lia. }
  by exists f, o.
Qed.

End Spill.

(** A mapping across the lower end of the stack area. *)
Definition ex_straddle : MemorySet :=
  mkMemorySet [mkMapping (USER_STACK_LOWER_BOUND - 0x1000) [mkFrame 0x80000000 0x2000] 0xd7] 0.

(** [find_free_region] skips mappings that end above the lower end of the
    stack area: with a mapping of two pages across that address, it returns
    the page below it, which the mapping occupies. *)
Theorem find_free_region_overlap :
  find_free_region ex_straddle 0x1000 = Ret (Some (USER_STACK_LOWER_BOUND - 0x1000)) /\
  range_is_free ex_straddle (USER_STACK_LOWER_BOUND - 0x1000) USER_STACK_LOWER_BOUND = Ret false.
Proof. vm_compute. done. Qed.

(** ** The first task *)

(** A task with no mappings, after boot. *)
Lemma boot_minv {A : Type} {FS : FrameSource A} {FL : FrameLaws A} h0 a0 m h a h1 a1 m1 : fs_rep h0 a0 [] ->
  AddressSpaceManager_new h0 a0 = Ret (m, h, a) -> AddressSpaceManager_create_user_address_space h a m 1 = Ret (Ok tt, h1, a1, m1) ->
  exists abs0 sh, minv abs0 1 sh [] (mkW h1 a1 m1) [].
Proof.
  intros H E Ec. assert (M0 : minit [] (mkMsys h a m [])) by (by exists h0, a0).
  apply minit_rel in M0.
  destruct (create_user_ok [] (mkMsys h a m []) _ _ 1 M0) as (r & s' & o & abs' & TK' & E1 & Sp & _ & M1).
  cbn [mexec ms_heap ms_alloc ms_mgr ms_stash] in E1. rewrite Ec in E1. injection E1 as <- <-.
  cbn [mspec] in Sp. destruct o; [|done]. injection Sp as <-.
  eexists _, (fun i => (i <? 256) && false). split; [|split; constructor].
  eapply (trel_intro _ _ _ _ (mkW h1 a1 m1) _ _ TK' _ M1); done.
Qed.

(** ** Examples *)

#[local] Existing Instance pool_laws.

(** A task on the pool of four pages. *)
Definition ex_created : outcome bool :=
  '(m, h, a) ← pool_boot;
  '(r, _, _, _) ← AddressSpaceManager_create_user_address_space h a m 1;
  mret (match r with Ok _ => true | Err _ => false end).

Lemma ex_created_ok : ex_created = Ret true.
Proof. vm_compute. reflexivity. Qed.

Lemma ex_minv : exists abs0 sh w, minv abs0 1 sh [] w [].
Proof.
  pose proof ex_created_ok as Hc. unfold ex_created in Hc. destruct pool_boot as [[[m h] a]|] eqn:E; [|done]. rewrite outcome_bind_Ret in Hc.
  destruct (AddressSpaceManager_create_user_address_space h a m 1) as [[[[r1 h1] a1] m1]|] eqn:E1; [|done].
  injection Hc as Hc. destruct r1 as [[]|]; [|done].
  destruct (boot_minv ex_heap ex_buddy m h a h1 a1 m1) as (abs0 & sh & I); [|done|done|by exists abs0, sh, (mkW h1 a1 m1)].
  exists ex_lists, [], []. split; [exact ex_rep|constructor].
Qed.

Lemma mmap_witness : exists abs0 sh w r w' tasks' ms',
  minv abs0 1 sh [] w [] /\
  mmap w [(1, mkMemorySet [] 0)] 1 0 4096 1 MmapFlags_ANONYMOUS (-1) 0 = Ret (r, w', tasks') /\
  minv abs0 1 sh [] w' (ms_mappings ms').
Proof.
  destruct ex_minv as (abs0 & sh & w & I).
  destruct (mmap_ok abs0 1 sh [] w [(1, mkMemorySet [] 0)] (mkMemorySet [] 0) 0 4096 1
    MmapFlags_ANONYMOUS (-1) 0) as (r & w' & tasks' & ms' & E & _ & I' & _).
  - repeat constructor.
  - reflexivity.
  - exact I.
  - lia.
  - lia.
  - vm_compute. reflexivity.
  - intros _. constructor.
  - intros H. discriminate H.
  - exists abs0, sh, w, r, w', tasks', ms'. split; [exact I|]. split; [exact E|exact I'].
Defined.

Lemma munmap_witness : exists abs0 sh w r w' tasks' ms',
  minv abs0 1 sh [] w [] /\
  munmap w [(1, mkMemorySet [] 0)] 1 0 4096 = Ret (r, w', tasks') /\
  minv abs0 1 sh [] w' (ms_mappings ms').
Proof.
  destruct ex_minv as (abs0 & sh & w & I).
  destruct (munmap_ok abs0 1 sh [] w [(1, mkMemorySet [] 0)] (mkMemorySet [] 0) 0 4096)
    as (r & w' & tasks' & ms' & E & _ & I' & _).
  - repeat constructor.
  - reflexivity.
  - exact I.
  - reflexivity.
  - reflexivity.
  - lia.
  - lia.
  - constructor.
  - exists abs0, sh, w, r, w', tasks', ms'. split; [exact I|]. split; [exact E|exact I'].
Defined.

Lemma mremap_witness : exists abs0 sh w r w' tasks' ms',
  minv abs0 1 sh [] w [] /\
  mremap w [(1, mkMemorySet [] 0)] 1 0 4096 8192 MremapFlags_MAYMOVE 0 = Ret (r, w', tasks') /\
  minv abs0 1 sh [] w' (ms_mappings ms').
Proof.
  destruct ex_minv as (abs0 & sh & w & I).
  destruct (mremap_ok abs0 1 sh [] w [(1, mkMemorySet [] 0)] (mkMemorySet [] 0) 0 4096 8192
    MremapFlags_MAYMOVE 0) as (r & w' & tasks' & ms' & E & _ & I' & _).
  - repeat constructor.
  - reflexivity.
  - exact I.
  - constructor.
  - lia.
  - lia.
  - lia.
  - lia.
  - vm_compute. reflexivity.
  - constructor.
  - intros H. discriminate H.
  - exists abs0, sh, w, r, w', tasks', ms'. split; [exact I|]. split; [exact E|exact I'].
Defined.

Lemma mmap_spills_witness : exists abs0 sh w r w' ms',
  minv abs0 1 sh [] w [] /\
  mmap_frames w (mkMemorySet [] 0) 1 0x10000000 12288 1 = Ret (r, w', ms').
Proof.
  destruct ex_minv as (abs0 & sh & w & I).
  destruct (mmap_spills abs0 1 sh [] w (mkMemorySet [] 0) 0x10000000 1 I) as (r & w' & ms' & E & _).
  - reflexivity.
  - unfold canon_range, LOW_HALF_END. lia.
  - reflexivity.
  - exists abs0, sh, w, r, w', ms'. split; [exact I|exact E].
Defined.

Lemma find_free_region_witness :
  mapping_ranges (ms_mappings (mkMemorySet [mkMapping 0x10000000 [mkFrame 0x80000000 0x1000] 0xd7] 0)) =
    Ret [(0x10000000, 0x10001000)] /\ table_ok [(0x10000000, 0x10001000)] /\
  exists r, find_free_region (mkMemorySet [mkMapping 0x10000000 [mkFrame 0x80000000 0x1000] 0xd7] 0) 0x1000 = Ret r.
Proof.
  assert (Hr : mapping_ranges (ms_mappings (mkMemorySet [mkMapping 0x10000000 [mkFrame 0x80000000 0x1000] 0xd7] 0)) =
    Ret [(0x10000000, 0x10001000)]) by (vm_compute; reflexivity).
  assert (Ht : table_ok [(0x10000000, 0x10001000)]).
  { split; [repeat constructor; simpl; lia| |].
    - constructor; [constructor|constructor].
    - constructor; [|constructor]. left. unfold USER_STACK_LOWER_BOUND, PAGE_SIZE. simpl. lia. }
  split; [exact Hr|]. split; [exact Ht|].
  destruct (find_free_region_ok _ _ 0x1000 Hr Ht) as (r & E & _); [lia|]. exists r. exact E.
Defined.
