(* ===== verification/Fork.v ===== *)
(** * Fork: the memory of a child process
      ([Frame::try_clone] of [src/mm/frame.rs], [MemorySet::try_clone] of
      [src/task.rs])

    A child gets a copy of its parent's page table, fresh frames with the
    contents of the parent's, and its page table is then changed to lead to
    them. *)

From stdpp Require Import gmap.
From S2P Require Import Prelude OrdMap Buddy FrameAlloc BitFields Abi PageTable SpaceClone SpaceManager.
From S2P Require Import MemoryMap MapTable MapTheory MapOps UserMemory.

(** ** Operations *)

Section Ops.
Context {A : Type} {FS : FrameSource A}.
Implicit Types (w : @world A).

Definition w_alloc_frame w (size : option Z) : outcome (option Frame * world) :=
  '(r, h, a) ← fs_alloc (w_heap w) (w_alloc w) size;
  mret (r, mkW h a (w_mgr w)).

(** [Frame::try_clone]; the size of a frame is a multiple of the word size. *)
Definition Frame_try_clone w (self : Frame) : outcome (option Frame * world) :=
  '(frame, w) ← w_alloc_frame w (Some (fr_size self));
  match frame with
  | None => mret (None, w)
  | Some frame =>
      h ← copy_entries (Z.to_nat (fr_size self / 8)) (w_heap w) (fr_start self) (fr_start frame) 0;
      mret (Some frame, set_heap w h)
  end.

(** The frames of one mapping; when memory runs out the ones that are there are
    dropped. *)
Fixpoint clone_frames w (frames cloned : list Frame) : outcome (result MemError (list Frame) * world) :=
  match frames with
  | [] => mret (Ok cloned, w)
  | f :: frames =>
      '(r, w) ← Frame_try_clone w f;
      match r with
      | None => w ← w_drop_frames w cloned; mret (Err OutOfMemory, w)
      | Some c => clone_frames w frames (cloned ++ [c])
      end
  end.

Fixpoint clone_mappings w (mappings : list UserMapping) (frames : list (UserMapping * list Frame))
    : outcome (result MemError (list (UserMapping * list Frame)) * world) :=
  match mappings with
  | [] => mret (Ok frames, w)
  | mapping :: mappings =>
      '(r, w) ← clone_frames w (um_frames mapping) [];
      match r with
      | Err e => w ← w_drop_frames w (concat frames.*2); mret (Err e, w)
      | Ok cloned => clone_mappings w mappings (frames ++ [(mapping, cloned)])
      end
  end.

(** The pages of one mapping in the child's page table. *)
Fixpoint remap_frames w (new_tid va off : Z) (frames : list Frame) (flags : Z) : outcome (result MemError unit * world) :=
  match frames with
  | [] => mret (Ok tt, w)
  | f :: frames =>
      base ← usize_add va off;
      '(r, w) ← map_segment (page_steps 0 (fr_size f)) w new_tid base (fr_start f) 0 flags;
      match r with
      | Some (err, _) => mret (Err err, w)
      | None => off ← usize_add off (fr_size f); remap_frames w new_tid va off frames flags
      end
  end.

(** When a page table cannot be extended, all the new frames are dropped. *)
Fixpoint remap_mappings w (new_tid : Z) (frames : list (UserMapping * list Frame)) (mappings : list UserMapping)
    : outcome (result MemError (list UserMapping) * world) :=
  match frames with
  | [] => mret (Ok mappings, w)
  | (mapping, fs) :: frames =>
      '(r, w) ← if flags_leaf (um_flags mapping) then remap_frames w new_tid (um_va mapping) 0 fs (um_flags mapping)
                else mret (Ok tt, w);
      match r with
      | Err e =>
          w ← w_drop_frames w fs;
          w ← w_drop_frames w (concat frames.*2);
          w ← w_drop_frames w (tab_frames mappings);
          mret (Err e, w)
      | Ok _ => remap_mappings w new_tid frames (mappings ++ [mkMapping (um_va mapping) fs (um_flags mapping)])
      end
  end.

Definition w_clone w (owner new_tid : Z) : outcome (result MemError unit * world) :=
  '(r, h, a, m) ← AddressSpaceManager_clone (w_heap w) (w_alloc w) (w_mgr w) (IdUser owner) new_tid;
  mret (r, mkW h a m).

Definition MemorySet_try_clone w (self : MemorySet) (owner new_tid : Z) : outcome (result MemError MemorySet * world) :=
  '(r, w) ← w_clone w owner new_tid;
  match r with
  | Err e => mret (Err e, w)
  | Ok _ =>
      match AddressSpaceManager_user_root_addr (w_mgr w) new_tid with
      | Err e => mret (Err e, w)
      | Ok user_root_page_table =>
          '(r, w) ← clone_mappings w (ms_mappings self) [];
          match r with
          | Err e => mret (Err e, w)
          | Ok frames =>
              '(r, w) ← remap_mappings w new_tid frames [];
              mret (match r with
                    | Err e => Err e
                    | Ok mappings => Ok (mkMemorySet mappings user_root_page_table)
                    end, w)
          end
      end
  end.

End Ops.

(** ** Frames and their copies *)

(** The words of [c] are those of [f]. *)
Definition copied (h : heap) (f c : Frame) : Prop :=
  fr_size c = fr_size f /\
  forall o, 0 <= o < fr_size f -> o mod 8 = 0 -> h !! (fr_start c + o) = h !! (fr_start f + o).

(** A frame as the allocator gives it. *)
Definition sized (f : Frame) : Prop := frame_bytes (fr_size f) = fr_size f.

Lemma copied_same h h' f c held : copied h f c -> same_on held h h' -> f ∈ held -> c ∈ held -> copied h' f c.
Proof.
  intros [Hs Hc] S Hf Hc'. split; [done|]. intros o Ho Hm. rewrite (S c), (S f); [by apply Hc|done|..|done|];
    unfold in_frame; lia.
Qed.

(** A mapping of the parent with the frames of the child. *)
Definition pair_copied (h : heap) (p : UserMapping * list Frame) : Prop := Forall2 (copied h) (um_frames p.1) p.2.

Lemma pair_copied_same h h' p held : pair_copied h p -> same_on held h h' -> um_frames p.1 ⊆ held -> p.2 ⊆ held -> pair_copied h' p.
Proof.
  unfold pair_copied. destruct p as [m cs]. cbn. intros H S. induction H as [|f c fs cs Hc H IH]; intros H1 H2; [constructor|].
  constructor; [|apply IH; set_solver]. apply (copied_same _ _ _ _ _ Hc S); set_solver.
Qed.

(** ** One mapping in place of another *)

Lemma mapping_at_middle d m p va : tab_wf (d ++ m :: p) ->
  mapping_at (d ++ m :: p) va = if in_mapping m va then Some m else mapping_at (d ++ p) va.
Proof.
  intros [HF HD]. assert (Hi : (d ++ m :: p) !! length d = Some m) by (by rewrite list_lookup_middle).
  pose proof (mapping_at_delete _ _ _ va HD HF Hi) as E. rewrite delete_middle in E.
  destruct (in_mapping m va) eqn:Em; [|by symmetry]. rewrite mapping_at_app in *.
  destruct (mapping_at d va); [done|]. unfold mapping_at. cbn [List.find]. by rewrite Em.
Qed.

(** [m'] covers the addresses of [m]. *)
Definition same_range (m m' : UserMapping) : Prop := um_va m' = um_va m /\ m_end m' = m_end m /\ um_flags m' = um_flags m.

Lemma tab_wf_swap d m m' p : tab_wf (d ++ m :: p) -> mapping_wf m' -> same_range m m' -> tab_wf (d ++ m' :: p).
Proof.
  intros [HF HD] Hm (Ea & Ee & _). apply Forall_app in HF as [HF1 HF2]. apply Forall_cons in HF2 as [_ HF2].
  split; [by apply Forall_app_2; [|constructor]|]. clear HF1 HF2. induction d as [|x d IH]; cbn [app] in *.
  - inversion HD as [|? ? Hd HD']; subst. constructor; [|done]. eapply Forall_impl; [exact Hd|]. unfold m_dis. by rewrite Ea, Ee.
  - inversion HD as [|? ? Hd HD']; subst. constructor; [|by apply IH]. apply Forall_app in Hd as [Hd1 Hd2].
    apply Forall_cons in Hd2 as [Hd2 Hd3]. apply Forall_app_2; [done|]. constructor; [|done]. unfold m_dis in *. by rewrite Ea, Ee.
Qed.

Lemma over_frames_mapping v m va : mapping_wf m ->
  over_frames v (um_va m) (um_frames m) (um_flags m) va =
  if in_mapping m va then (fun p => leaf_pte p (um_flags m)) <$> m_phys m (page_start va) else v va.
Proof.
  intros Hm. unfold over_frames, in_mapping, m_phys. destruct (Z.leb_spec (um_va m) va) as [Hl|Hl]; [|done]. cbn [andb].
  pose proof (mw_va _ Hm) as Ha. pose proof (m_end_aligned _ Hm) as He.
  destruct (Z.ltb_spec va (m_end m)) as [Hr|Hr].
  - destruct (page_start_between va (um_va m) (m_end m)) as [H1 H2]; [done|done|lia|].
    destruct (phys_of_some (um_frames m) (page_start va - um_va m)) as (f & o & _ & -> & _); [|done].
    unfold m_end, PAGE_SIZE in *. lia.
  - rewrite phys_of_none; [done|apply Hm|]. pose proof (page_spec va). pose proof He as [j Hj]%aligned_iff.
    unfold m_end, page_start, PAGE_SIZE in *. lia.
Qed.

Lemma tab_view_swap d m m' p va : tab_wf (d ++ m :: p) -> mapping_wf m' -> same_range m m' ->
  tab_view (d ++ m' :: p) va =
  if flags_leaf (um_flags m) then over_frames (tab_view (d ++ m :: p)) (um_va m') (um_frames m') (um_flags m') va
  else tab_view (d ++ m :: p) va.
Proof.
  intros Hw Hm Hr. pose proof (tab_wf_swap _ _ _ _ Hw Hm Hr) as Hw'. rewrite over_frames_mapping by done.
  destruct Hr as (Ea & Ee & Ef). assert (Ein : in_mapping m' va = in_mapping m va) by (unfold in_mapping; by rewrite Ea, Ee).
  unfold tab_view. rewrite !mapping_at_middle, Ein by done. destruct (in_mapping m va); cbn [mbind option_bind].
  - rewrite Ef. by destruct (flags_leaf (um_flags m)).
  - by destruct (flags_leaf (um_flags m)).
Qed.

Lemma copied_total h fs cs : Forall2 (copied h) fs cs -> frames_total cs = frames_total fs.
Proof. induction 1 as [|f c fs cs [Hs _] _ IH]; [done|]. cbn. unfold frames_total in IH. by rewrite Hs, IH. Qed.

Definition child_mapping (p : UserMapping * list Frame) : UserMapping := mkMapping (um_va p.1) p.2 (um_flags p.1).

Lemma child_mapping_ok m cs : mapping_wf m -> Forall frame_ok cs -> frames_total cs = frames_total (um_frames m) ->
  mapping_wf (child_mapping (m, cs)) /\ same_range m (child_mapping (m, cs)).
Proof.
  intros [H1 H2 H3 H4] Hf Ht. assert (E : m_end (child_mapping (m, cs)) = m_end m) by (unfold m_end, child_mapping; cbn [um_va um_frames fst snd]; by rewrite Ht).
  split; [split; cbn [child_mapping um_frames um_va fst snd]; try done; by rewrite E|]. by split.
Qed.

(** ** A page table that can be copied *)

Lemma entry_phys_addr_leaf p flags : page_addr p -> entry_phys_addr (leaf_pte p flags) = p.
Proof.
  intros Hp. apply Z.bits_inj'. intros i Hi. rewrite entry_phys_addr_testbit by lia.
  destruct (Z.leb_spec 12 i); simpl; [|by rewrite (page_addr_bits p) by (done || lia)].
  destruct (Z.leb_spec i 55); simpl; [|by rewrite (page_addr_bits p) by (done || lia)].
  unfold leaf_pte. rewrite leaf_entry_testbit by (apply fits64_0 || lia).
  destruct (Z.eqb_spec (i - 2) 0); [lia|]. destruct (Z.leb_spec (i - 2) 7); [lia|].
  destruct (Z.leb_spec 10 (i - 2)), (Z.leb_spec (i - 2) 53); try lia. cbn [andb]. f_equal. lia.
Qed.

(** A canonical address with given page numbers. *)
Lemma canon_vpn i j k : idx i -> idx j -> idx k ->
  exists va, canon va /\ VirtualAddr_vpn2 va = i /\ VirtualAddr_vpn1 va = j /\ VirtualAddr_vpn0 va = k.
Proof.
  intros Hi Hj Hk. set (x := i * 2 ^ 30 + j * 2 ^ 21 + k * 2 ^ 12). pose proof (vpn_of i j k Hi Hj Hk) as Hv. fold x in Hv. cbv zeta in Hv.
  unfold idx in *. destruct (Z.ltb_spec i 256) as [Hlo|Hhi].
  { exists x. split; [|done]. left. unfold LOW_HALF_END. lia. }
  exists (x + (2 ^ 64 - 2 ^ 39)). assert (Hc : canon (x + (2 ^ 64 - 2 ^ 39))) by (right; unfold HIGH_HALF_START; lia). split; [done|].
  pose proof (vpn_page x ltac:(lia)) as E1. pose proof (vpn_page _ (canon_pos _ Hc)) as E2.
  assert (Ep : page (x + (2 ^ 64 - 2 ^ 39)) mod 2 ^ 27 = page x mod 2 ^ 27).
  { unfold page, PAGE_SIZE. replace (x + (2 ^ 64 - 2 ^ 39)) with (x + (2 ^ 25 - 1) * 2 ^ 27 * 4096) by lia.
    rewrite Z.div_add, Z.mod_add by lia. done. }
  rewrite Ep, E1 in E2. pose proof (vpn_range x). pose proof (vpn_range (x + (2 ^ 64 - 2 ^ 39))). lia.
Qed.

Section Leaves.
Context {A : Type} {FS : FrameSource A} {FL : FrameLaws A}.

(** A task's pages are in its frames, which are not pages of its tables. *)
Lemma leaves_of_table h a sp T held l : space_in h a sp T held -> tab_frames l ⊆ held -> Forall mapping_wf l ->
  (forall va, canon va -> own_view T va = tab_view l va) -> leaves_data sp T.
Proof.
  intros SI Hsub HF Hv i j k p0 H0 Hk. pose proof SI as [R H Hsh]. destruct (sr_0 _ _ _ R i j p0 H0) as [Hj [p1 H1]].
  pose proof (sr_1 _ _ _ R i p1 H1) as Hi. destruct (PageTableEntry_v (t_leaf T i j k)) eqn:Ev.
  2: { destruct (sr_leaf _ _ _ R i j k) as [->|(pa & fl & E)]; [by apply (remap_zero h a sp T held)|]. by rewrite E, leaf_pte_v in Ev. }
  destruct (canon_vpn i j k Hi Hj Hk) as (va & Hc & E2 & E1 & E0). specialize (Hv va Hc).
  unfold own_view, view in Hv. rewrite E2, E1, E0, H0, Ev in Hv. unfold tab_view in Hv.
  destruct (mapping_at l va) as [m|] eqn:Em; [|done]. cbn [mbind option_bind] in Hv.
  destruct (flags_leaf (um_flags m)); [|done]. rewrite <- (mapping_at_page l va HF) in Em.
  destruct (mapping_page l (page_start va) m HF Em) as (f & o & Hf & Ho & Ho0 & Hoz & Hp & _); [apply aligned_mul|].
  rewrite Hp in Hv. injection Hv as ->.
  destruct (fs_held _ _ _ f H) as [(Hs & Ha & Hz & _ & Hhi) _]; [apply elem_of_app; right; by apply Hsub|].
  assert (Hpa : page_addr (fr_start f + o)).
  { split; [unfold PAGE_SIZE in *; lia|]. by apply aligned_add. }
  rewrite entry_phys_addr_leaf by done. destruct (om_get (fr_start f + o) (as_tables sp)) as [t|] eqn:Et; [|done]. exfalso.
  apply (om_get_elem _ _ _ (sr_om _ _ _ R)) in Et. destruct (sr_handle _ _ _ R _ t Et) as [Ept Hok]. apply handle_page in Hok.
  assert (Hin : ph_page t ∈ space_frames sp) by (right; apply list_elem_of_fmap; by exists (fr_start f + o, t)).
  apply elem_of_Permutation in Hin as [fs Hfs].
  destruct (fs_disjoint h a (ph_page t) (fs ++ held) f) as [Hd|Hd].
  - apply (fs_perm _ _ _ _ H). by rewrite Hfs.
  - apply elem_of_app. right. by apply Hsub.
  - rewrite Hok, Ept in Hd. cbn [fr_start fr_size] in Hd. unfold PAGE_SIZE in *. lia.
  - rewrite Hok, Ept in Hd. cbn [fr_start fr_size] in Hd. unfold PAGE_SIZE in *. lia.
Qed.

End Leaves.

(** ** The roots of the page tables stay *)

Section Roots.
Context {A : Type} {FS : FrameSource A}.
Implicit Types (w : @world A).

Lemma map_level2_root h a s vpn2 r h' a' s' : map_level2 h a s vpn2 = Ret (r, h', a', s') -> as_root s' = as_root s.
Proof.
  unfold map_level2. intros (pte2 & _ & H)%outcome_bind_inv. destruct (negb _); [|by injection H as <- <- <- <-].
  apply outcome_bind_inv in H as ([[[new|e] h1] a1] & _ & H); [|by injection H as <- <- <- <-].
  apply outcome_bind_inv in H as (h2 & _ & H). apply outcome_bind_inv in H as ([[h3 a3] tables] & _ & H). by injection H as <- <- <- <-.
Qed.

Lemma map_level1_root h a s p1 vpn1 r h' a' s' : map_level1 h a s p1 vpn1 = Ret (r, h', a', s') -> as_root s' = as_root s.
Proof.
  unfold map_level1. destruct (om_get p1 (as_tables s)) as [pt1|]; [|by intros [= <- <- <- <-]].
  intros (pte1 & _ & H)%outcome_bind_inv. apply outcome_bind_inv in H as ([[[r1 h1] a1] s1] & H1 & H).
  assert (E : as_root s1 = as_root s).
  { destruct (negb _); [|by injection H1 as <- <- <- <-].
    apply outcome_bind_inv in H1 as ([[[new|e] h2] a2] & _ & H1); [|by injection H1 as <- <- <- <-].
    apply outcome_bind_inv in H1 as (? & _ & H1). apply outcome_bind_inv in H1 as (? & _ & H1).
    apply outcome_bind_inv in H1 as ([[? ?] ?] & _ & H1). by injection H1 as <- <- <- <-. }
  rewrite <- E. destruct r1 as [[]|e]; [|by injection H as <- <- <- <-]. destruct (om_get p1 (as_tables s1)); [|by injection H as <- <- <- <-].
  apply outcome_bind_inv in H as (? & _ & H). by injection H as <- <- <- <-.
Qed.

Lemma AddressSpace_map_root h a s va pa flags r h' a' s' : AddressSpace_map h a s va pa flags = Ret (r, h', a', s') -> as_root s' = as_root s.
Proof.
  unfold AddressSpace_map. intros ([[[r1 h1] a1] s1] & H1%map_level2_root & H)%outcome_bind_inv. rewrite <- H1.
  destruct r1 as [p1|e]; [|by injection H as <- <- <- <-].
  apply outcome_bind_inv in H as ([[[r2 h2] a2] s2] & H2%map_level1_root & H). rewrite <- H2.
  destruct r2 as [p0|e]; [|by injection H as <- <- <- <-]. destruct (om_get p0 (as_tables s2)); [|by injection H as <- <- <- <-].
  apply outcome_bind_inv in H as (? & _ & H). apply outcome_bind_inv in H as (? & _ & H). by injection H as <- <- <- <-.
Qed.

(** The roots are the same. *)
Definition same_roots w w' : Prop :=
  om_ok (am_user (w_mgr w)) ->
  om_ok (am_user (w_mgr w')) /\ forall t, AddressSpaceManager_user_root_addr (w_mgr w') t = AddressSpaceManager_user_root_addr (w_mgr w) t.

Lemma same_roots_mgr w w' : w_mgr w' = w_mgr w -> same_roots w w'.
Proof. intros E Hok. by rewrite E. Qed.

Lemma same_roots_trans w w1 w2 : same_roots w w1 -> same_roots w1 w2 -> same_roots w w2.
Proof. intros H1 H2 Hok. destruct (H1 Hok) as [Hok1 E1]. destruct (H2 Hok1) as [Hok2 E2]. split; [done|]. intros t. by rewrite E2. Qed.

Lemma user_map_roots w tid va pa flags r w' : w_user_map w tid va pa flags = Ret (r, w') -> same_roots w w'.
Proof.
  unfold w_user_map. intros ([[[r1 h1] a1] m1] & H1 & H)%outcome_bind_inv. injection H as <- <-. intros Hok. cbn [w_mgr].
  unfold AddressSpaceManager_user_map in H1. destruct (om_get tid (am_user (w_mgr w))) as [sp|] eqn:Eg; [|by injection H1 as <- <- <- <-].
  apply outcome_bind_inv in H1 as ([[[r2 h2] a2] sp'] & E%AddressSpace_map_root & H1). injection H1 as <- <- <- <-. cbn [am_user].
  split; [by apply om_modify_ok|]. intros t. unfold AddressSpaceManager_user_root_addr. cbn [am_user]. rewrite om_get_modify by done.
  case_decide as Et; [subst t|done]. rewrite Eg. cbn. by rewrite E.
Qed.

Lemma map_segment_roots n w tid base start step flags r w' : map_segment n w tid base start step flags = Ret (r, w') -> same_roots w w'.
Proof.
  revert w step. induction n as [|n IH]; intros w step; cbn [map_segment]; [intros [= <- <-]; by apply same_roots_mgr|].
  intros (va & _ & H)%outcome_bind_inv. apply outcome_bind_inv in H as (pa & _ & H).
  apply outcome_bind_inv in H as ([r1 w1] & H1%user_map_roots & H). destruct r1 as [[]|e]; [|by injection H as <- <-].
  eapply same_roots_trans; [exact H1|by apply (IH w1 (step + PAGE_SIZE))].
Qed.

Lemma remap_frames_roots frames w tid va off flags r w' : remap_frames w tid va off frames flags = Ret (r, w') -> same_roots w w'.
Proof.
  revert w off. induction frames as [|f frames IH]; intros w off; cbn [remap_frames]; [intros [= <- <-]; by apply same_roots_mgr|].
  intros (base & _ & H)%outcome_bind_inv. apply outcome_bind_inv in H as ([r1 w1] & H1%map_segment_roots & H).
  destruct r1 as [[err step]|]; [by injection H as <- <-|]. apply outcome_bind_inv in H as (off' & _ & H).
  eapply same_roots_trans; [exact H1|by apply (IH w1 off')].
Qed.

Lemma remap_mappings_roots frames mappings w tid l w' : remap_mappings w tid frames mappings = Ret (Ok l, w') -> same_roots w w'.
Proof.
  revert w mappings. induction frames as [|[m fs] frames IH]; intros w mappings; cbn [remap_mappings]; [intros [= <- <-]; by apply same_roots_mgr|].
  intros ([r1 w1] & H1 & H)%outcome_bind_inv. destruct r1 as [[]|e].
  - eapply same_roots_trans; [|exact (IH _ _ H)]. destruct (flags_leaf _); [by apply remap_frames_roots in H1|].
    injection H1 as <-. by apply same_roots_mgr.
  - apply outcome_bind_inv in H as (? & _ & H). apply outcome_bind_inv in H as (? & _ & H). apply outcome_bind_inv in H as (? & _ & H). done.
Qed.

Lemma clone_frames_mgr frames cloned w cs w' : clone_frames w frames cloned = Ret (Ok cs, w') -> w_mgr w' = w_mgr w.
Proof.
  revert w cloned. induction frames as [|f frames IH]; intros w cloned; cbn [clone_frames]; [by intros [= <- <-]|].
  intros ([r1 w1] & H1 & H)%outcome_bind_inv. destruct r1 as [c|]; [|by apply outcome_bind_inv in H as (? & _ & H)].
  rewrite (IH _ _ H). unfold Frame_try_clone, w_alloc_frame in H1. apply outcome_bind_inv in H1 as ([r2 w2] & H2 & H1).
  apply outcome_bind_inv in H2 as ([[r3 h3] a3] & _ & H2). injection H2 as <- <-. destruct r3 as [frame|]; [|done].
  apply outcome_bind_inv in H1 as (? & _ & H1). by injection H1 as _ <-.
Qed.

Lemma clone_mappings_mgr mappings acc w all w' : clone_mappings w mappings acc = Ret (Ok all, w') -> w_mgr w' = w_mgr w.
Proof.
  revert w acc. induction mappings as [|m mappings IH]; intros w acc; cbn [clone_mappings]; [by intros [= <- <-]|].
  intros ([r1 w1] & H1 & H)%outcome_bind_inv. destruct r1 as [cs|e]; [|by apply outcome_bind_inv in H as (? & _ & H)].
  rewrite (IH _ _ H). by apply clone_frames_mgr in H1.
Qed.

End Roots.

Section Theory.
Context {A : Type} {FS : FrameSource A} {FL : FrameLaws A}.
Context (abs0 : mabs) (tid : Z) (sh : Z -> bool).
Implicit Types (w : @world A).

Abbreviation trel := (trel abs0 tid sh).

Lemma w_alloc_frame_ok rest w v size : trel rest w v -> 1 <= size ->
  exists r w', w_alloc_frame w (Some size) = Ret (r, w') /\ same_on rest (w_heap w) (w_heap w') /\
    match r with
    | None => trel rest w' v
    | Some f => trel (f :: rest) w' v /\ fr_size f = frame_bytes size
    end.
Proof.
  intros T Hs. pose proof (trel_rep _ _ _ _ _ _ T) as H. unfold w_alloc_frame.
  destruct (fs_alloc_ok _ _ _ (Some size) H Hs) as (r & h & a & -> & S & Hr). rewrite outcome_bind_Ret.
  exists r, (mkW h a (w_mgr w)). split; [done|]. split; [apply (same_on_sub _ _ _ _ S); clear; set_solver|].
  assert (S1 : same_on (table_frames w) (w_heap w) h) by (apply (same_on_sub _ _ _ _ S); clear; set_solver).
  destruct r as [f|]; [destruct Hr as [H' Hf]; split; [|done]|]; apply (trel_same _ _ _ rest); try done.
  apply (fs_perm _ _ _ _ H'). by rewrite <- Permutation_middle.
Qed.

Lemma Frame_try_clone_ok rest w v f : trel rest w v -> f ∈ rest -> sized f ->
  exists r w', Frame_try_clone w f = Ret (r, w') /\ same_on rest (w_heap w) (w_heap w') /\
    match r with
    | None => trel rest w' v
    | Some c => trel (c :: rest) w' v /\ copied (w_heap w') f c
    end.
Proof.
  intros T Hf Hz. destruct (trel_frame _ _ _ _ _ _ _ T Hf) as ((_ & Ha & Hsz & Hszm & _) & _).
  unfold Frame_try_clone. destruct (w_alloc_frame_ok rest w v (fr_size f) T) as (r & w1 & -> & S1 & Hr); [unfold PAGE_SIZE in *; lia|].
  rewrite outcome_bind_Ret. destruct r as [c|]; [|by exists None, w1]. destruct Hr as [T1 Hc]. rewrite Hz in Hc.
  destruct (trel_frame _ _ _ _ _ _ c T1) as ((_ & Hca & _) & _); [left|].
  assert (H8 : 8 * (fr_size f / 8) = fr_size f) by (pose proof (mul8_page _ Hszm); pose proof (Z.div_mod (fr_size f) 8); lia).
  assert (Hn : Z.of_nat (Z.to_nat (fr_size f / 8)) = fr_size f / 8) by (rewrite Z2Nat.id; [done|apply Z.div_pos; unfold PAGE_SIZE in *; lia]).
  destruct (copy_words abs0 tid sh (Z.to_nat (fr_size f / 8)) (c :: rest) w1 v c (fr_start f) (fr_start c) 0 T1)
    as (h & -> & T2 & H1 & H2); [left|by apply mul8_page|lia|lia| |].
  { intros k Hk. assert (Hin : in_frame f (fr_start f + 8 * k)) by (unfold in_frame; lia). split.
    - apply (trel_frame _ _ _ _ _ _ f T1); [by right|done|]. rewrite Z.mul_comm, Z.mod_add by lia. by apply mul8_page.
    - by apply (trel_apart _ _ _ _ _ _ _ f _ T1). }
  rewrite outcome_bind_Ret. exists (Some c), (set_heap w1 h). split; [done|].
  assert (S2 : same_on rest (w_heap w1) h).
  { intros g x Hg Hx. apply H2. intros k Hk E. apply (trel_apart _ _ _ _ _ _ _ g x T1 Hg Hx). unfold in_frame. lia. }
  split; [by apply (same_on_trans _ _ (w_heap w1))|]. split; [done|]. split; [done|]. intros o Ho Hm. cbn [set_heap w_heap].
  rewrite (S2 f (fr_start f + o)) by (first [done|unfold in_frame; lia]). pose proof (Z.div_mod o 8 ltac:(lia)) as Ed. rewrite Hm, Z.add_0_r in Ed.
  rewrite Ed. apply H1. split; [apply Z.div_pos; lia|]. rewrite Hn. lia.
Qed.

Lemma clone_frames_ok frames cloned rest w v : trel (cloned ++ rest) w v -> frames ⊆ rest -> Forall sized frames ->
  exists r w', clone_frames w frames cloned = Ret (r, w') /\
    match r with
    | Ok cs => exists new, cs = cloned ++ new /\ trel (cs ++ rest) w' v /\ Forall2 (copied (w_heap w')) frames new /\
        same_on (cloned ++ rest) (w_heap w) (w_heap w')
    | Err e => e = OutOfMemory /\ trel rest w' v /\ same_on rest (w_heap w) (w_heap w')
    end.
Proof.
  revert cloned w. induction frames as [|f frames IH]; intros cloned w T Hin Hz; cbn [clone_frames].
  { exists (Ok cloned), w. split; [done|]. exists []. rewrite app_nil_r. split; [done|]. split; [done|]. split; [constructor|apply same_on_refl]. }
  apply Forall_cons in Hz as [Hz1 Hz]. assert (Hf : f ∈ cloned ++ rest) by (apply elem_of_app; right; apply Hin; left).
  destruct (Frame_try_clone_ok _ w v f T Hf Hz1) as (r & w1 & -> & S1 & Hr). rewrite outcome_bind_Ret. destruct r as [c|].
  - destruct Hr as [T1 Hc].
    assert (Hp : c :: cloned ++ rest ≡ₚ (cloned ++ [c]) ++ rest) by (rewrite <- app_assoc; apply Permutation_middle).
    destruct (IH (cloned ++ [c]) w1) as (r & w2 & -> & Hr2); [by apply (trel_perm _ _ _ _ _ _ _ T1)|set_solver|done|].
    exists r, w2. split; [done|]. destruct r as [cs|e].
    + destruct Hr2 as (new & -> & T2 & Hcs & S2). exists (c :: new). split; [by rewrite <- app_assoc|]. split; [done|]. split.
      * constructor; [|done]. apply (copied_same _ _ _ _ _ Hc S2); rewrite <- Hp; [by right|left].
      * apply (same_on_trans _ _ (w_heap w1)); [done|]. apply (same_on_sub _ _ _ _ S2). set_solver.
    + destruct Hr2 as (He & T2 & S2). split; [done|]. split; [done|]. apply (same_on_trans _ _ (w_heap w1)); [|done].
      apply (same_on_sub _ _ _ _ S1). set_solver.
  - destruct (trel_drop _ _ _ _ _ _ _ Hr) as (w2 & -> & S2 & T2). rewrite outcome_bind_Ret. eexists (Err _), w2. split; [done|].
    split; [done|]. split; [done|]. apply (same_on_trans _ _ (w_heap w1)); [|done]. apply (same_on_sub _ _ _ _ S1). set_solver.
Qed.

Lemma clone_mappings_ok mappings acc rest w v : trel (concat acc.*2 ++ rest) w v -> tab_frames mappings ⊆ rest ->
  Forall sized (tab_frames mappings) ->
  exists r w', clone_mappings w mappings acc = Ret (r, w') /\
    match r with
    | Ok all => exists new, all = acc ++ new /\ new.*1 = mappings /\ trel (concat all.*2 ++ rest) w' v /\
        Forall (pair_copied (w_heap w')) new /\ same_on (concat acc.*2 ++ rest) (w_heap w) (w_heap w')
    | Err e => e = OutOfMemory /\ trel rest w' v /\ same_on rest (w_heap w) (w_heap w')
    end.
Proof.
  revert acc w. induction mappings as [|m mappings IH]; intros acc w T Hin Hz; cbn [clone_mappings].
  { exists (Ok acc), w. split; [done|]. exists []. rewrite app_nil_r. split; [done|]. split; [done|]. split; [done|]. split; [by apply Forall_nil|apply same_on_refl]. }
  cbn [tab_frames fmap list_fmap concat] in Hin, Hz. fold (tab_frames mappings) in Hin, Hz. apply Forall_app in Hz as [Hz1 Hz].
  destruct (clone_frames_ok (um_frames m) [] (concat acc.*2 ++ rest) w v T) as (r & w1 & -> & Hr); [set_solver|done|].
  rewrite outcome_bind_Ret. destruct r as [cs|e].
  - destruct Hr as (new & -> & T1 & Hc & S1). cbn [app] in *.
    assert (Hp : new ++ concat acc.*2 ++ rest ≡ₚ concat (acc ++ [(m, new)]).*2 ++ rest).
    { rewrite fmap_app, concat_app. cbn. rewrite app_nil_r, <- app_assoc. apply Permutation_app_swap_app. }
    destruct (IH (acc ++ [(m, new)]) w1) as (r & w2 & -> & Hr2); [by apply (trel_perm _ _ _ _ _ _ _ T1)|set_solver|done|].
    exists r, w2. split; [done|]. destruct r as [all|e].
    + destruct Hr2 as (new' & -> & Hn & T2 & Hc2 & S2). exists ((m, new) :: new'). rewrite <- app_assoc in T2 |- *.
      split; [done|]. split; [by rewrite fmap_cons, Hn|]. split; [done|]. split.
      * constructor; [|done]. apply (pair_copied_same _ _ (m, new) _ Hc S2); cbn; rewrite <- Hp; set_solver.
      * apply (same_on_trans _ _ (w_heap w1)); [done|]. apply (same_on_sub _ _ _ _ S2). rewrite <- Hp. set_solver.
    + destruct Hr2 as (He & T2 & S2). split; [done|]. split; [done|]. apply (same_on_trans _ _ (w_heap w1)); [|done].
      apply (same_on_sub _ _ _ _ S1). set_solver.
  - destruct Hr as (-> & T1 & S1). destruct (trel_drop _ _ _ _ _ _ _ T1) as (w2 & -> & S2 & T2). rewrite outcome_bind_Ret.
    eexists (Err _), w2. split; [done|]. split; [done|]. split; [done|]. apply (same_on_trans _ _ (w_heap w1)); [|done].
    apply (same_on_sub _ _ _ _ S1). set_solver.
Qed.

(** ** The child's page table *)

Lemma remap_frames_ok frames rest w v addr mapped flags : trel rest w v ->
  Forall frame_ok frames -> aligned addr -> aligned mapped -> 0 <= mapped ->
  canon_range addr (addr + mapped + frames_total frames) ->
  exists r w', remap_frames w tid addr mapped frames flags = Ret (r, w') /\ same_on rest (w_heap w) (w_heap w') /\
    match r with
    | Ok _ => trel rest w' (over_frames v (addr + mapped) frames flags)
    | Err e => exists v', trel rest w' v'
    end.
Proof.
  intros T HF. revert w v mapped T. induction HF as [|f frames Hf HF IH]; intros w v mapped T Ha Hm H0 Hc; cbn [remap_frames].
  { exists (Ok tt), w. split; [done|]. split; [apply same_on_refl|]. apply (trel_ext _ _ _ _ _ _ _ T).
    intros va _. unfold over_frames. by destruct (_ <=? _). }
  pose proof (total_pos _ HF) as Hpos. cbn [frames_total foldr] in Hc. fold (frames_total frames) in Hc. pose proof Hf as (Hs & _ & Hz & Hz' & Hhi).
  assert (Hn : PAGE_SIZE * Z.of_nat (page_steps 0 (fr_size f)) = fr_size f).
  { rewrite page_steps_aligned; [lia|by rewrite Z.sub_0_r|unfold PAGE_SIZE in *; lia]. }
  assert (Hb : addr + mapped < 2 ^ 64 /\ mapped + fr_size f < 2 ^ 64)
    by (unfold canon_range, LOW_HALF_END, HIGH_HALF_START, PAGE_SIZE in *; lia).
  unfold usize_add. rewrite (proj2 (Z.ltb_lt _ _) (proj1 Hb)), outcome_bind_Ret.
  destruct (map_segment_ok _ _ _ (page_steps 0 (fr_size f)) rest w v (addr + mapped) (fr_start f) 0 flags T) as (r & w1 & -> & S1 & Hr1);
    [by apply aligned_add|done|lia|lia|rewrite Z.add_0_r, Hn; unfold canon_range in *; lia|lia|].
  rewrite outcome_bind_Ret, !Z.add_0_r, Hn in *. destruct r as [[err step]|].
  - destruct Hr1 as (_ & _ & _ & T1). exists (Err err), w1. by eauto.
  - rewrite (proj2 (Z.ltb_lt _ _) (proj2 Hb)), outcome_bind_Ret.
    destruct (IH w1 _ (mapped + fr_size f) Hr1) as (r & w2 & -> & S2 & Hr2);
      [done|by apply aligned_add|unfold PAGE_SIZE in *; lia|unfold canon_range in *; lia|].
    exists r, w2. split; [done|]. split; [by eapply same_on_trans|]. destruct r as [[]|e]; [|done].
    apply (trel_ext _ _ _ _ _ _ _ Hr2). intros va _. rewrite <- over_frames_cons by (try done; by apply aligned_add).
    by rewrite Z.add_assoc.
Qed.

(** The child's table while it is built: the mappings that are done, and the
    parent's for the others. *)
Lemma remap_mappings_ok frames built rest w :
  trel (concat frames.*2 ++ tab_frames built ++ rest) w (tab_view (built ++ frames.*1)) -> tab_wf (built ++ frames.*1) ->
  Forall (fun p => frames_total p.2 = frames_total (um_frames p.1)) frames ->
  exists r w', remap_mappings w tid frames built = Ret (r, w') /\
    match r with
    | Ok l => l = built ++ (child_mapping <$> frames) /\ trel (tab_frames l ++ rest) w' (tab_view l) /\ tab_wf l /\
        same_on (concat frames.*2 ++ tab_frames built ++ rest) (w_heap w) (w_heap w')
    | Err e => (exists v, trel rest w' v) /\ same_on rest (w_heap w) (w_heap w')
    end.
Proof.
  revert built w. induction frames as [|[m cs] frames IH]; intros built w T Hw Ht; cbn [remap_mappings].
  { exists (Ok built), w. cbn in *. rewrite app_nil_r in *. split; [by rewrite ?app_nil_r|]. by rewrite ?app_nil_r; split; [|split; [|split; [|apply same_on_refl]]]. }
  apply Forall_cons in Ht as [Ht1 Ht]. cbn [fst snd] in Ht1. cbn [fmap list_fmap concat fst snd] in T, Hw.
  change (list_fmap _ _ snd frames) with (frames.*2) in T. change (list_fmap _ _ fst frames) with (frames.*1) in T, Hw.
  assert (Hm : mapping_wf m) by (apply (Forall_lookup_1 _ _ (length built) _ (tw_wf _ Hw)); by rewrite list_lookup_middle).
  assert (Hcs : Forall frame_ok cs) by (rewrite <- app_assoc in T; apply (trel_frames _ _ _ _ _ _ _ T)).
  destruct (child_mapping_ok m cs Hm Hcs Ht1) as [Hm' Hr].
  set (all := cs ++ concat frames.*2 ++ tab_frames built ++ rest). rewrite <- app_assoc in T. fold all in T.
  assert (Hstep : exists r w1, (if flags_leaf (um_flags m) then remap_frames w tid (um_va m) 0 cs (um_flags m) else mret (Ok tt, w)) = Ret (r, w1) /\
    same_on all (w_heap w) (w_heap w1) /\
    match r with
    | Ok _ => trel all w1 (tab_view (built ++ child_mapping (m, cs) :: frames.*1))
    | Err _ => exists v, trel all w1 v
    end).
  { pose proof (tab_view_swap built m (child_mapping (m, cs)) frames.*1) as Hv. destruct (flags_leaf (um_flags m)).
    - destruct (remap_frames_ok cs all w _ (um_va m) 0 (um_flags m) T) as (r & w1 & E & S1 & Hr1);
        [done|apply Hm|done|lia|rewrite Z.add_0_r, Ht1; apply Hm|].
      exists r, w1. split; [done|]. split; [done|]. destruct r as [[]|]; [|done]. rewrite Z.add_0_r in Hr1.
      apply (trel_ext _ _ _ _ _ _ _ Hr1). intros va _. by rewrite Hv.
    - exists (Ok tt), w. split; [done|]. split; [apply same_on_refl|]. apply (trel_ext _ _ _ _ _ _ _ T). intros va _. by rewrite Hv. }
  destruct Hstep as (r & w1 & -> & S1 & Hr1). rewrite outcome_bind_Ret. destruct r as [[]|e].
  - assert (Hp : all ≡ₚ concat frames.*2 ++ tab_frames (built ++ [child_mapping (m, cs)]) ++ rest).
    { unfold all. rewrite tab_frames_app. cbn. rewrite app_nil_r. rewrite (Permutation_app_swap_app cs). f_equiv.
      rewrite <- app_assoc. apply Permutation_app_swap_app. }
    change (mkMapping (um_va m) cs (um_flags m)) with (child_mapping (m, cs)).
    destruct (IH (built ++ [child_mapping (m, cs)]) w1) as (r & w2 & -> & Hr2).
    + rewrite <- app_assoc. by apply (trel_perm _ _ _ _ _ _ _ Hr1).
    + rewrite <- app_assoc. by apply (tab_wf_swap _ m).
    + done.
    + exists r, w2. split; [done|]. destruct r as [l|e].
      * destruct Hr2 as (El & T2 & W2 & S2). rewrite <- app_assoc in El. split; [done|]. split; [done|]. split; [done|].
        replace (concat ((m, cs) :: frames).*2 ++ tab_frames built ++ rest) with all by (unfold all; cbn; by rewrite <- app_assoc).
        apply (same_on_trans _ _ (w_heap w1)); [done|]. apply (same_on_sub _ _ _ _ S2). by rewrite <- Hp.
      * destruct Hr2 as [Hv S2]. split; [done|]. apply (same_on_trans _ _ (w_heap w1)); [|done]. apply (same_on_sub _ _ _ _ S1). unfold all. set_solver.
  - destruct Hr1 as [v1 T1]. unfold all in T1. destruct (trel_drop _ _ _ _ _ _ _ T1) as (w2 & -> & S2 & T2). rewrite outcome_bind_Ret.
    destruct (trel_drop _ _ _ _ _ _ _ T2) as (w3 & -> & S3 & T3). rewrite outcome_bind_Ret.
    destruct (trel_drop _ _ _ _ _ _ _ T3) as (w4 & -> & S4 & T4). rewrite outcome_bind_Ret.
    exists (Err e), w4. split; [done|]. split; [by exists v1|]. apply (same_on_trans _ _ (w_heap w1)); [apply (same_on_sub _ _ _ _ S1); unfold all; set_solver|].
    apply (same_on_trans _ _ (w_heap w2)); [apply (same_on_sub _ _ _ _ S2); set_solver|].
    apply (same_on_trans _ _ (w_heap w3)); [apply (same_on_sub _ _ _ _ S3); set_solver|done].
Qed.

End Theory.

(** ** What the child sees *)

Lemma copied_phys h fs cs off : Forall2 (copied h) fs cs -> Forall frame_ok fs -> 0 <= off < frames_total fs -> off mod 8 = 0 ->
  exists p q, phys_of fs off = Some p /\ phys_of cs off = Some q /\ h !! q = h !! p.
Proof.
  intros H. revert off. induction H as [|f c fs cs [Hs Hc] _ IH]; intros off HF Ho Hm; cbn [frames_total foldr] in Ho; [lia|].
  fold (frames_total fs) in Ho. apply Forall_cons in HF as [Hf HF]. cbn [phys_of]. rewrite Hs. destruct (Z.ltb_spec off (fr_size f)) as [Hl|Hl].
  - eexists _, _. split; [done|]. split; [done|]. apply Hc; [lia|done].
  - apply IH; [done|lia|]. apply mod8_sub; [done|]. apply mul8_page, Hf.
Qed.

(** The child has the parent's flags and words at every address. *)
Definition sees_copy (l l' : list UserMapping) (h : heap) : Prop :=
  forall va, tab_flags l' va = tab_flags l va /\ (va mod 8 = 0 -> tab_word l' h va = tab_word l h va).

Lemma children_see h frames : Forall (pair_copied h) frames -> Forall mapping_wf frames.*1 -> sees_copy frames.*1 (child_mapping <$> frames) h.
Proof.
  intros Hc HF va. unfold tab_flags, tab_word, mapping_at. induction Hc as [|[m cs] frames Hp _ IH]; [done|].
  rewrite fmap_cons in HF. apply Forall_cons in HF as [Hm HF]. rewrite !fmap_cons. cbn [List.find fst].
  assert (Ee : in_mapping (child_mapping (m, cs)) va = in_mapping m va).
  { unfold in_mapping, m_end, child_mapping. cbn [um_va um_frames fst snd]. by rewrite (copied_total h (um_frames m) cs). }
  rewrite Ee. destruct (in_mapping m va) eqn:Ei; [|by apply IH]. split; [done|]. intros H8. cbn [mbind option_bind].
  unfold in_mapping, m_end in Ei. zify_bool. unfold m_phys, child_mapping. cbn [um_va um_frames fst snd].
  destruct (copied_phys h (um_frames m) cs (va - um_va m)) as (p & q & -> & -> & E); [done|apply Hm|lia| |done].
  apply mod8_sub; [done|]. apply mul8_page, Hm.
Qed.

Lemma frames_in_concat (fs : list Frame) ls : fs ∈ ls -> fs ⊆ concat ls.
Proof. intros H f Hf. apply list_elem_of_In, in_concat. exists fs. by rewrite <- !list_elem_of_In. Qed.

Lemma frames_in_table m l : m ∈ l -> um_frames m ⊆ tab_frames l.
Proof. intros H. apply frames_in_concat, list_elem_of_fmap. by exists m. Qed.

Lemma children_sized h frames : Forall (pair_copied h) frames -> Forall sized (tab_frames frames.*1) ->
  Forall sized (tab_frames (child_mapping <$> frames)).
Proof.
  unfold tab_frames. induction 1 as [|[m cs] frames Hp _ IH]; [done|]. rewrite !fmap_cons. cbn [concat fst].
  rewrite !Forall_app. intros [Hm HF]. split; [|by apply IH]. unfold pair_copied in Hp. cbn [fst snd child_mapping um_frames] in *.
  clear - Hp Hm. induction Hp as [|f c fs cs [Hs _] _ IH]; [done|]. apply Forall_cons in Hm as [Hf Hm].
  constructor; [|by apply IH]. unfold sized in *. by rewrite Hs.
Qed.

Section Fork.
Context {A : Type} {FS : FrameSource A} {FL : FrameLaws A}.
Implicit Types (w : @world A).

(** The parent's page table, copied: the child's shows the same pages. *)
Lemma w_clone_ok abs0 owner sh rest w l new_tid : minv abs0 owner sh rest w l -> new_tid <> owner ->
  exists r w', w_clone w owner new_tid = Ret (r, w') /\ same_on (tab_frames l ++ rest) (w_heap w) (w_heap w') /\
    match r with
    | Ok _ => exists abs u, a_users abs owner = Some u /\ (forall i, u_sh u i = sh i) /\
        (forall va, canon va -> u_view u va = tab_view l va) /\ (forall va, k_view abs va = k_view abs0 va) /\
        (forall t, t <> owner -> t <> new_tid -> a_users abs t = a_users abs0 t) /\
        trel abs new_tid sh (tab_frames l ++ rest) w' (tab_view l)
    | Err _ => trel abs0 owner sh (tab_frames l ++ rest) w' (tab_view l)
    end.
Proof.
  intros [(abs & TK & u & M & Hk & Hl & Ho & Hu & Hs & Hv) Hw] Hne.
  destruct (clone_leaves_ok (tab_frames l ++ rest) (wsys w) abs TK owner new_tid M) as (r & s' & o & abs' & TK' & E & Sp & S' & M').
  { intros sp u' T _ Eu SI Hv'. rewrite Hu in Eu. injection Eu as <-.
    apply (leaves_of_table _ _ _ _ _ l SI); [unfold user_rest; set_solver|apply Hw|]. intros va Hc. by rewrite <- Hv', Hv. }
  unfold w_clone. cbn [mexec wsys ms_heap ms_alloc ms_mgr ms_stash] in E.
  destruct (AddressSpaceManager_clone _ _ _ _ _) as [[[[r1 h1] a1] m1]|]; [|done]. injection E as <- <-. rewrite outcome_bind_Ret.
  exists r1, (mkW h1 a1 m1). split; [done|]. split; [done|]. cbn [mspec] in Sp. rewrite Hu in Sp. destruct o; injection Sp as <- <-.
  - exists (put_user abs new_tid (Some u)), u. cbn [put_user a_users k_view]. destruct (Z.eqb_spec owner new_tid); [congruence|].
    split; [done|]. split; [done|]. split; [done|]. split; [done|]. split.
    + intros t Ht Ht'. destruct (Z.eqb_spec t new_tid); [done|]. by apply Ho.
    + eapply (trel_intro _ _ _ _ (mkW h1 a1 m1) _ _ TK' u M'); try done. cbn. by rewrite Z.eqb_refl.
  - by apply (trel_intro _ _ _ _ (mkW h1 a1 m1) _ abs TK' u).
Qed.

(** The kernel and the tasks other than parent and child are as before. *)
Definition others_same (abs0 abs : mabs) (owner new_tid : Z) : Prop :=
  (forall va, k_view abs va = k_view abs0 va) /\ forall t, t <> owner -> t <> new_tid -> a_users abs t = a_users abs0 t.

(** Task [tid] has the address space of its table of mappings. *)
Definition in_space (abs : mabs) (tid : Z) (sh : Z -> bool) (l : list UserMapping) : Prop :=
  exists u, a_users abs tid = Some u /\ (forall i, u_sh u i = sh i) /\ forall va, canon va -> u_view u va = tab_view l va.

Lemma in_space_minv abs TK tid sh all rest w l : mrel all (wsys w) abs TK -> all ≡ₚ tab_frames l ++ rest ->
  in_space abs tid sh l -> tab_wf l -> minv abs tid sh rest w l.
Proof.
  intros M P (u & Hu & Hs & Hv) Hw. split; [|done]. apply (trel_perm _ _ _ all); [|done].
  by apply (trel_intro _ _ _ _ _ _ abs TK u).
Qed.

(** The copy, in terms of the whole system of page tables. *)
Lemma try_clone_rel abs0 owner sh rest w (ms : MemorySet) new_tid : let l := ms_mappings ms in
  minv abs0 owner sh rest w l -> Forall sized (tab_frames l) -> new_tid <> owner ->
  exists r w' abs TK, MemorySet_try_clone w ms owner new_tid = Ret (r, w') /\
    same_on (tab_frames l ++ rest) (w_heap w) (w_heap w') /\
    in_space abs owner sh l /\ others_same abs0 abs owner new_tid /\
    match r with
    | Ok ms' => let l' := ms_mappings ms' in
        mrel (tab_frames l' ++ tab_frames l ++ rest) (wsys w') abs TK /\
        in_space abs new_tid sh l' /\ tab_wf l' /\ Forall sized (tab_frames l') /\ sees_copy l l' (w_heap w') /\
        AddressSpaceManager_user_root_addr (w_mgr w') new_tid = Ok (ms_root ms')
    | Err _ => mrel (tab_frames l ++ rest) (wsys w') abs TK
    end.
Proof.
  intros l I Hz Hne. unfold MemorySet_try_clone.
  destruct (w_clone_ok abs0 owner sh rest w l new_tid I Hne) as (r & w1 & -> & S1 & Hr). rewrite outcome_bind_Ret.
  pose proof (mi_wf _ _ _ _ _ _ I) as Hw.
  destruct r as [[]|e].
  2: { destruct Hr as (abs & TK & u & M & Hk & Hl & Ho & Hu & Hs & Hv). exists (Err e), w1, abs, TK.
       split; [done|]. split; [done|]. split; [by exists u|]. split; [split; [done|by intros t ? _; apply Ho]|done]. }
  destruct Hr as (abs1 & u & Hu & Hs & Hv & Hk & Ho & T1).
  assert (om_ok (am_user (w_mgr w1)) /\ exists root, AddressSpaceManager_user_root_addr (w_mgr w1) new_tid = Ok root) as [Hok [root Er]].
  { destruct T1 as (abs & TK & u1 & M & _ & _ & _ & Hu1 & _). split; [apply M|]. pose proof (mr_user _ _ _ _ M new_tid) as H. cbn [wsys ms_mgr] in H.
    unfold AddressSpaceManager_user_root_addr. destruct (om_get new_tid (am_user (w_mgr w1))); [by eexists|]. by rewrite Hu1 in H. }
  rewrite Er. destruct (clone_mappings_ok abs1 new_tid sh l [] (tab_frames l ++ rest) w1 (tab_view l) T1) as (r & w2 & E2 & Hr2); [set_solver|done|].
  fold l. rewrite E2, outcome_bind_Ret.
  assert (Hopen : forall all w' v, trel abs1 new_tid sh all w' v -> exists abs TK u', mrel all (wsys w') abs TK /\
    in_space abs owner sh l /\ others_same abs0 abs owner new_tid /\
    a_users abs new_tid = Some u' /\ (forall i, u_sh u' i = sh i) /\ forall va, canon va -> u_view u' va = v va).
  { intros all w' v (abs & TK & u' & M & Hk' & _ & Ho' & Hu' & Hs' & Hv'). exists abs, TK, u'. split; [done|]. split.
    - exists u. by rewrite Ho' by congruence.
    - split; [|done]. split; [intros va; by rewrite Hk', Hk|]. intros t H1 H2. by rewrite Ho', Ho. }
  destruct r as [all|e].
  2: { destruct Hr2 as (_ & T2 & S2). destruct (Hopen _ _ _ T2) as (abs & TK & u' & M & Hi & Hs' & _).
       exists (Err e), w2, abs, TK. split; [done|]. split; [by eapply same_on_trans|done]. }
  destruct Hr2 as (new & -> & En & T2 & Hc & S2). cbn [app] in *.
  destruct (remap_mappings_ok abs1 new_tid sh new [] (tab_frames l ++ rest) w2) as (r & w3 & E3 & Hr3).
  { cbn. by rewrite En. }
  { cbn. by rewrite En. }
  { eapply Forall_impl; [exact Hc|]. intros p. apply copied_total. }
  rewrite E3, outcome_bind_Ret. cbn in S2. assert (S12 : same_on (tab_frames l ++ rest) (w_heap w) (w_heap w2)) by (by eapply same_on_trans).
  destruct r as [l'|e].
  2: { destruct Hr3 as ([v T3] & S3). destruct (Hopen _ _ _ T3) as (abs & TK & u' & M & Hi & Hs' & _).
       exists (Err e), w3, abs, TK. split; [done|]. split; [by eapply same_on_trans|done]. }
  destruct Hr3 as (-> & T3 & W3 & S3). cbn in S3. destruct (Hopen _ _ _ T3) as (abs & TK & u' & M & Hi & Hs' & Hc').
  exists (Ok (mkMemorySet (child_mapping <$> new) root)), w3, abs, TK. split; [done|].
  split; [eapply same_on_trans; [exact S12|]; apply (same_on_sub _ _ _ _ S3); set_solver|].
  do 2 (split; [done|]). cbn [ms_mappings ms_root app] in *. split; [done|]. split; [by exists u'|]. split; [done|].
  split; [apply (children_sized (w_heap w2)); [done|by rewrite En]|]. split.
  - rewrite <- En. apply children_see; [|rewrite En; apply Hw]. rewrite Forall_forall in Hc. apply Forall_forall. intros p Hp.
    apply (pair_copied_same _ _ _ _ (Hc p Hp) S3).
    + assert (um_frames p.1 ⊆ tab_frames l); [|set_solver]. rewrite <- En. by apply frames_in_table, list_elem_of_fmap_2.
    + assert (p.2 ⊆ concat new.*2); [|set_solver]. by apply frames_in_concat, list_elem_of_fmap_2.
  - apply remap_mappings_roots in E3. apply clone_mappings_mgr in E2. destruct E3 as [_ E3]; [by rewrite E2|]. by rewrite E3, E2.
Qed.

(** [fork]. For a task whose page table agrees with its table of mappings and
    whose frames have sizes the allocator serves without rounding, the copy of
    its memory for a new task ID does not fault and changes no word of the
    parent's memory, nor of frames in other hands. When it succeeds the page
    tables of parent and child agree with their own tables of mappings, which
    share no frame; the child has the parent's flags and words at every address;
    the recorded root is that of the child's page table; the kernel and the
    other tasks see what they saw. When memory runs out the parent's page table
    and memory are as before and the frames taken have been given back. *)
Theorem MemorySet_try_clone_ok abs0 owner sh rest w (ms : MemorySet) new_tid : let l := ms_mappings ms in
  minv abs0 owner sh rest w l -> Forall sized (tab_frames l) -> new_tid <> owner ->
  exists r w', MemorySet_try_clone w ms owner new_tid = Ret (r, w') /\ same_on (tab_frames l ++ rest) (w_heap w) (w_heap w') /\
    match r with
    | Ok ms' => exists abs, let l' := ms_mappings ms' in
        minv abs owner sh (tab_frames l' ++ rest) w' l /\ minv abs new_tid sh (tab_frames l ++ rest) w' l' /\
        others_same abs0 abs owner new_tid /\ sees_copy l l' (w_heap w') /\
        AddressSpaceManager_user_root_addr (w_mgr w') new_tid = Ok (ms_root ms')
    | Err _ => exists abs, minv abs owner sh rest w' l /\ others_same abs0 abs owner new_tid
    end.
Proof.
  intros l I Hz Hne. pose proof (mi_wf _ _ _ _ _ _ I) as Hw.
  destruct (try_clone_rel abs0 owner sh rest w ms new_tid I Hz Hne) as (r & w' & abs & TK & E & S & Hi & Ho & Hr).
  exists r, w'. split; [done|]. split; [done|]. destruct r as [ms'|e]; exists abs.
  - destruct Hr as (M & Hi' & Hw' & _ & Hc & Er). cbn zeta. split; [|split; [|done]].
    + apply (in_space_minv abs TK _ _ _ _ _ _ M); [apply Permutation_app_swap_app|done|done].
    + by apply (in_space_minv abs TK _ _ _ _ _ _ M).
  - split; [|done]. by apply (in_space_minv abs TK _ _ _ _ _ _ Hr).
Qed.

End Fork.

#[local] Existing Instance pool_laws.

Lemma MemorySet_try_clone_witness : exists abs0 sh w r w',
  minv abs0 1 sh [] w [] /\ MemorySet_try_clone w (mkMemorySet [] 0) 1 2 = Ret (r, w').
Proof.
  destruct ex_minv as (abs0 & sh & w & I).
  destruct (MemorySet_try_clone_ok abs0 1 sh [] w (mkMemorySet [] 0) 2) as (r & w' & E & _).
  - exact I.
  - constructor.
  - lia.
  - exists abs0, sh, w, r, w'. split; [exact I|exact E].
Defined.
