(* ===== verification/Paths.v ===== *)
(** * Paths: [Path], [PathBuf] and their components ([src/fs/path.rs])

    A path is the string it was made from; its components are the parts between
    separators. Strings are lists of characters; the separator and the dot are
    single bytes in UTF-8, so that cutting a string at them respects the
    encoding. *)

From stdpp Require Import base list strings.
From Stdlib Require Import Ascii.
From S2P Require Import Prelude OrdMap.

Abbreviation str := (list ascii).

Definition sep : ascii := "/"%char.
Definition dot : ascii := "."%char.

(** Strings are ordered by their bytes. *)
#[export] Program Instance ascii_Ord : Ord ascii := { cmp a b := N.compare (N_of_ascii a) (N_of_ascii b) }.
Next Obligation.
  intros a b. rewrite N.compare_eq_iff. split; [|by intros ->].
  intros E. by rewrite <- (ascii_N_embedding a), <- (ascii_N_embedding b), E.
Qed.
Next Obligation. intros a b. apply N.compare_antisym. Qed.
Next Obligation. intros a b c. rewrite !N.compare_lt_iff. lia. Qed.

(** ** The string operations the module uses *)

Definition starts_with_sep (s : str) : bool :=
  match s with c :: _ => bool_decide (c = sep) | [] => false end.

Definition ends_with_sep (s : str) : bool :=
  match last s with Some c => bool_decide (c = sep) | None => false end.

(** [trim_end_matches(PATH_SEPARATOR)] *)
Fixpoint trim_end (s : str) : str :=
  match s with
  | [] => []
  | c :: s => match trim_end s with
              | [] => if bool_decide (c = sep) then [] else [c]
              | t => c :: t
              end
  end.

(** [rfind] of a single character. *)
Fixpoint rfind (x : ascii) (s : str) : option nat :=
  match s with
  | [] => None
  | c :: s => match rfind x s with
              | Some i => Some (S i)
              | None => if bool_decide (c = x) then Some O else None
              end
  end.

(** [split(PATH_SEPARATOR)]: one part more than there are separators. *)
Fixpoint split_sep (s : str) : list str :=
  match s with
  | [] => [[]]
  | c :: s =>
      if bool_decide (c = sep) then [] :: split_sep s
      else match split_sep s with
           | p :: ps => (c :: p) :: ps
           | [] => [[c]]
           end
  end.

(** ** [Path] *)

Record Path : Type := mkPath { inner : str }.

Definition Path_new (s : str) : Path := mkPath s.

Definition Path_is_absolute (self : Path) : bool := starts_with_sep (inner self).

Definition Path_is_relative (self : Path) : bool := negb (Path_is_absolute self).

Definition Path_parent (self : Path) : option str :=
  let s := trim_end (inner self) in
  match s with
  | [] => None
  | _ =>
      match rfind sep s with
      | Some O => Some [sep]
      | Some pos => Some (take pos s)
      | None => Some []
      end
  end.

Definition Path_file_name (self : Path) : option str :=
  let s := trim_end (inner self) in
  match rfind sep s with
  | Some pos => if (pos + 1 <? length s)%nat then Some (drop (pos + 1) s) else None
  | None => match s with [] => None | _ => Some s end
  end.

Definition Path_extension (self : Path) : option str :=
  name ← Path_file_name self;
  pos ← rfind dot name;
  if (pos + 1 <? length name)%nat then Some (drop (pos + 1) name) else None.

(** ** Components *)

Inductive Component : Type := RootDir | CurDir | ParentDir | Normal (s : str).

#[export] Instance Component_eq_dec : EqDecision Component.
Proof. solve_decision. Defined.

Definition Component_as_str (self : Component) : str :=
  match self with
  | RootDir => []
  | CurDir => [dot]
  | ParentDir => [dot; dot]
  | Normal s => s
  end.

Record Components : Type := mkComponents {
  parts : list str;
  is_absolute : bool;
  seen_root : bool
}.

(** The loop of [next] over the parts. *)
Fixpoint next_part (ps : list str) : option (Component * list str) :=
  match ps with
  | [] => None
  | p :: ps =>
      if bool_decide (p = []) then next_part ps
      else if bool_decide (p = [dot]) then Some (CurDir, ps)
      else if bool_decide (p = [dot; dot]) then Some (ParentDir, ps)
      else Some (Normal p, ps)
  end.

Definition Components_next (self : Components) : option Component * Components :=
  if is_absolute self && negb (seen_root self)
  then (Some RootDir, mkComponents (parts self) (is_absolute self) true)
  else
    match next_part (parts self) with
    | None => (None, mkComponents [] (is_absolute self) (seen_root self))
    | Some (c, ps) => (Some c, mkComponents ps (is_absolute self) (seen_root self))
    end.

Definition Path_components (self : Path) : Components :=
  mkComponents (split_sep (inner self)) (Path_is_absolute self) false.

(** [collect]: the root and at most one component per part. *)
Fixpoint collect_n (fuel : nat) (it : Components) : list Component :=
  match fuel with
  | O => []
  | S fuel =>
      match Components_next it with
      | (None, _) => []
      | (Some c, it) => c :: collect_n fuel it
      end
  end.

Definition collect (it : Components) : list Component := collect_n (S (S (length (parts it)))) it.

Definition Path_starts_with (self base : Path) : bool :=
  let a := collect (Path_components self) in
  let b := collect (Path_components base) in
  (length b <=? length a)%nat && bool_decide (take (length b) a = b).

Definition Path_ends_with (self child : Path) : bool :=
  let a := collect (Path_components self) in
  let b := collect (Path_components child) in
  (length b <=? length a)%nat && bool_decide (drop (length a - length b) a = b).

(** ** [PathBuf] *)

Definition PathBuf : Type := Path.

Definition PathBuf_new : PathBuf := mkPath [].

Definition PathBuf_push (self : PathBuf) (path : Path) : PathBuf :=
  if Path_is_absolute path then path
  else
    match inner path with
    | [] => self
    | path_str =>
        let s := inner self in
        let s := match s with
                 | [] => s
                 | _ => if ends_with_sep s then s else s ++ [sep]
                 end in
        mkPath (s ++ path_str)
    end.

Definition PathBuf_pop (self : PathBuf) : bool * PathBuf :=
  let s := trim_end (inner self) in
  match s with
  | [] => (false, self)
  | _ =>
      match rfind sep s with
      | Some pos => (true, mkPath (take (if (pos =? 0)%nat then 1 else pos) (inner self)))
      | None => (true, mkPath [])
      end
  end.

Definition PathBuf_set_file_name (self : PathBuf) (name : str) : PathBuf :=
  match Path_parent self with
  | Some parent =>
      let new := match parent with
                 | [] => parent
                 | _ => if ends_with_sep parent then parent else parent ++ [sep]
                 end in
      mkPath (new ++ name)
  | None => mkPath ((if Path_is_absolute self then [sep] else []) ++ name)
  end.

Definition Path_join (self path : Path) : PathBuf := PathBuf_push self path.

(** ** Theory *)

Definition part_component (p : str) : list Component :=
  if bool_decide (p = []) then []
  else if bool_decide (p = [dot]) then [CurDir]
  else if bool_decide (p = [dot; dot]) then [ParentDir]
  else [Normal p].

Definition parts_components (ps : list str) : list Component := concat (part_component <$> ps).

(** The components of a path string. *)
Definition components_of (s : str) : list Component :=
  (if starts_with_sep s then [RootDir] else []) ++ parts_components (split_sep s).

Lemma parts_cons p ps : parts_components (p :: ps) = part_component p ++ parts_components ps.
Proof. done. Qed.

Lemma next_part_spec ps :
  match next_part ps with
  | None => parts_components ps = []
  | Some (c, ps') => parts_components ps = c :: parts_components ps' /\ (length ps' < length ps)%nat
  end.
Proof.
  induction ps as [|p ps IH]; [done|]. cbn [next_part]. rewrite parts_cons. unfold part_component.
  destruct (bool_decide (p = [])).
  - cbn [app]. destruct (next_part ps) as [[c ps']|]; [|done]. destruct IH as [-> ?]. split; [done|]. simpl. lia.
  - destruct (bool_decide (p = [dot])); [split; [done|simpl; lia]|].
    destruct (bool_decide (p = [dot; dot])); (split; [done|simpl; lia]).
Qed.

Lemma collect_parts fuel ps b : (length ps < fuel)%nat ->
  collect_n fuel (mkComponents ps b true) = parts_components ps.
Proof.
  revert ps. induction fuel as [|fuel IH]; intros ps Hf; [lia|]. cbn [collect_n]. unfold Components_next.
  cbn [is_absolute seen_root parts]. rewrite andb_false_r. pose proof (next_part_spec ps) as H.
  destruct (next_part ps) as [[c ps']|]; [|by rewrite H]. destruct H as [-> Hl].
  rewrite IH; [done|lia].
Qed.

Lemma collect_relative fuel ps : (length ps < fuel)%nat ->
  collect_n fuel (mkComponents ps false false) = parts_components ps.
Proof.
  revert ps. induction fuel as [|fuel IH]; intros ps Hf; [lia|]. cbn [collect_n]. unfold Components_next.
  cbn [is_absolute seen_root parts andb]. pose proof (next_part_spec ps) as H.
  destruct (next_part ps) as [[c ps']|]; [|by rewrite H]. destruct H as [-> Hl].
  rewrite IH; [done|lia].
Qed.

Lemma collect_components p : collect (Path_components p) = components_of (inner p).
Proof.
  unfold collect, Path_components, components_of, Path_is_absolute. cbn [parts].
  destruct (starts_with_sep (inner p)).
  - change (RootDir :: collect_n (S (length (split_sep (inner p))))
      (mkComponents (split_sep (inner p)) true true) = RootDir :: parts_components (split_sep (inner p))).
    f_equal. apply collect_parts. lia.
  - apply collect_relative. lia.
Qed.

Lemma split_nonempty s : split_sep s <> [].
Proof.
  induction s as [|c s IH]; [done|]. cbn [split_sep]. destruct (bool_decide _); [done|].
  by destruct (split_sep s).
Qed.

Lemma split_app s1 s2 : split_sep (s1 ++ sep :: s2) = split_sep s1 ++ split_sep s2.
Proof.
  induction s1 as [|c s1 IH]; cbn [app split_sep]; [by rewrite bool_decide_true|].
  destruct (bool_decide (c = sep)); [by rewrite IH|]. rewrite IH.
  pose proof (split_nonempty s1) as H. by destruct (split_sep s1) as [|p ps].
Qed.

Lemma split_none s : sep ∉ s -> split_sep s = [s].
Proof.
  induction s as [|c s IH]; intros H; [done|]. cbn [split_sep]. apply not_elem_of_cons in H as [H1 H2].
  rewrite bool_decide_false by congruence. by rewrite IH.
Qed.

Lemma parts_app ps ps' : parts_components (ps ++ ps') = parts_components ps ++ parts_components ps'.
Proof. unfold parts_components. by rewrite fmap_app, concat_app. Qed.

Lemma parts_sep s1 s2 : parts_components (split_sep (s1 ++ sep :: s2)) =
  parts_components (split_sep s1) ++ parts_components (split_sep s2).
Proof. by rewrite split_app, parts_app. Qed.

Lemma parts_trailing s : parts_components (split_sep (s ++ [sep])) = parts_components (split_sep s).
Proof. rewrite parts_sep. cbn. by rewrite app_nil_r. Qed.

(** *** Trailing separators *)

Lemma trim_end_spec s : exists n, s = trim_end s ++ replicate n sep /\ last (trim_end s) <> Some sep.
Proof.
  induction s as [|c s (n & E & Hl)]; [by exists 0%nat|]. cbn [trim_end].
  destruct (trim_end s) as [|d t] eqn:Et.
  - case_bool_decide as Hc.
    + exists (S n). subst c. split; [|done]. cbn. by rewrite E at 1.
    + exists n. split; [cbn; by rewrite E at 1|]. cbn. congruence.
  - exists n. split; [cbn; by rewrite E at 1|]. by rewrite last_cons_cons.
Qed.

Lemma parts_trim s : parts_components (split_sep (trim_end s)) = parts_components (split_sep s).
Proof.
  destruct (trim_end_spec s) as (n & E & _). rewrite E at 2. clear E. revert n.
  generalize (trim_end s) as t. intros t n. induction n as [|n IH]; [by rewrite app_nil_r|].
  rewrite replicate_S_end, app_assoc, parts_trailing. exact IH.
Qed.

Lemma starts_trim s : trim_end s <> [] -> starts_with_sep (trim_end s) = starts_with_sep s.
Proof.
  intros Hn. destruct (trim_end_spec s) as (n & E & _). rewrite E at 2.
  by destruct (trim_end s).
Qed.

Lemma rfind_some s i : rfind sep s = Some i ->
  s = take i s ++ (sep :: drop (i + 1) s) /\ (sep ∉ drop (i + 1) s) /\ (i < length s)%nat.
Proof.
  revert i. induction s as [|c s IH]; intros i H; [done|]. cbn [rfind] in H.
  destruct (rfind sep s) as [j|] eqn:E.
  - injection H as <-. destruct (IH j eq_refl) as (E1 & E2 & E3). cbn [take drop length app Nat.add].
    split; [f_equal; exact E1|]. split; [done|lia].
  - case_bool_decide as Hc; [|done]. injection H as <-. subst c. cbn. rewrite drop_0.
    split; [done|]. split; [|lia]. clear IH. induction s as [|d s IHs]; [apply not_elem_of_nil|].
    cbn [rfind] in E. destruct (rfind sep s) eqn:E2; [done|]. case_bool_decide; [done|].
    apply not_elem_of_cons. split; [congruence|by apply IHs].
Qed.

Lemma rfind_none s : rfind sep s = None -> sep ∉ s.
Proof.
  induction s as [|d s IHs]; intros E; [apply not_elem_of_nil|].
  cbn [rfind] in E. destruct (rfind sep s) eqn:E2; [done|]. case_bool_decide; [done|].
  apply not_elem_of_cons. split; [congruence|by apply IHs].
Qed.

(** A part without separators is one component. *)
Lemma part_single p : p <> [] -> exists c, part_component p = [c] /\ Component_as_str c = p /\ c <> RootDir.
Proof.
  intros Hp. unfold part_component. rewrite bool_decide_false by done.
  case_bool_decide as H1; [by exists CurDir|]. case_bool_decide as H2; [by exists ParentDir|].
  by exists (Normal p).
Qed.

Lemma parts_one p : parts_components [p] = part_component p.
Proof. unfold parts_components. cbn. by rewrite app_nil_r. Qed.

Lemma collect_push p q : collect (Path_components (PathBuf_push p q)) =
  (if Path_is_absolute q then [] else collect (Path_components p)) ++ collect (Path_components q).
Proof.
  rewrite !collect_components. unfold PathBuf_push. destruct (Path_is_absolute q) eqn:Ha; [done|].
  unfold Path_is_absolute in Ha. unfold components_of. rewrite Ha.
  destruct (inner q) as [|c qs] eqn:Eq; [by rewrite app_nil_r|]. cbn [inner].
  destruct (inner p) as [|d ps] eqn:Ep; [cbn [app]; by rewrite Ha|].
  destruct (ends_with_sep (d :: ps)) eqn:He.
  - assert (Hl : exists t, d :: ps = t ++ [sep]).
    { unfold ends_with_sep in He. destruct (last (d :: ps)) as [x|] eqn:El; [|done].
      apply bool_decide_eq_true in He as ->. apply last_Some in El as [t ->]. by exists t. }
    destruct Hl as [t Et]. rewrite <- app_assoc. cbn [app starts_with_sep]. f_equal.
    change (d :: ps ++ c :: qs) with ((d :: ps) ++ c :: qs). rewrite Et, <- app_assoc. cbn [app].
    by rewrite parts_sep, parts_trailing.
  - rewrite <- !app_assoc. cbn [app starts_with_sep]. f_equal.
    change (d :: ps ++ sep :: c :: qs) with ((d :: ps) ++ sep :: c :: qs). by rewrite parts_sep.
Qed.

(** [push] and [join] put components together: pushing an absolute path
    replaces the path, pushing a relative one appends its components, and the
    result then starts with the old path and ends with the pushed one. *)
Theorem PathBuf_push_components p q :
  collect (Path_components (PathBuf_push p q)) =
    (if Path_is_absolute q then [] else collect (Path_components p)) ++ collect (Path_components q) /\
  (Path_is_absolute q = false ->
     Path_starts_with (Path_join p q) p = true /\ Path_ends_with (Path_join p q) q = true).
Proof.
  pose proof (collect_push p q) as E.
  split; [exact E|]. intros Ha. rewrite Ha in E. unfold Path_starts_with, Path_ends_with, Path_join.
  rewrite E, length_app. split; apply andb_true_iff; (split; [apply Nat.leb_le; lia|]);
    apply bool_decide_eq_true.
  - by rewrite take_app_length.
  - rewrite Nat.add_sub. by rewrite drop_app_length.
Qed.

(** [parent], [file_name] and [pop] cut off the last component: the path has
    the components of its parent and one more, whose text is the file name, and
    [pop] leaves the parent; only the root and the empty path have neither. *)
Theorem Path_parent_components p :
  match Path_parent p with
  | Some q => exists c, collect (Path_components p) = collect (Path_components (Path_new q)) ++ [c] /\
      Path_file_name p = Some (Component_as_str c) /\ PathBuf_pop p = (true, Path_new q)
  | None => collect (Path_components p) = (if Path_is_absolute p then [RootDir] else []) /\
      Path_file_name p = None /\ PathBuf_pop p = (false, p)
  end.
Proof.
  assert (Hc : collect (Path_components p) = (if starts_with_sep (inner p) then [RootDir] else []) ++
    parts_components (split_sep (trim_end (inner p)))).
  { rewrite collect_components. unfold components_of. by rewrite parts_trim. }
  rewrite Hc. clear Hc. unfold Path_parent, Path_file_name, PathBuf_pop, Path_is_absolute.
  destruct (trim_end_spec (inner p)) as (n & Ei & Hl).
  assert (Hst := starts_trim (inner p)). destruct (trim_end (inner p)) as [|d t] eqn:Et.
  { cbn. by rewrite app_nil_r. }
  specialize (Hst ltac:(done)). set (s := d :: t) in *. destruct (rfind sep s) as [i|] eqn:Er.
  - destruct (rfind_some s i Er) as (Es & Hn & Hi).
    assert (Hne : drop (i + 1) s <> []).
    { intros E0. rewrite E0 in Es. apply Hl. rewrite Es. by rewrite last_snoc. }
    destruct (part_single _ Hne) as (c & Ec & Ea & _).
    assert (Hlen : (i + 1 <? length s)%nat = true).
    { apply Nat.ltb_lt. destruct (decide (i + 1 < length s)%nat); [done|].
      exfalso. apply Hne. apply drop_ge. lia. }
    assert (Ep : parts_components (split_sep s) = parts_components (split_sep (take i s)) ++ [c]).
    { rewrite Es at 1. by rewrite parts_sep, (split_none _ Hn), parts_one, Ec. }
    rewrite Ep, Hlen.
    assert (Etk : forall k, (k <= length s)%nat -> take k (inner p) = take k s).
    { intros k Hk. rewrite Ei. by rewrite take_app_le. }
    destruct i as [|i]; exists c.
    + split; [|split; [by rewrite Ea|]].
      * rewrite <- Hst. rewrite Es at 1. rewrite collect_components. done.
      * cbn [Nat.eqb]. rewrite Etk by lia. rewrite Es. done.
    + split; [|split; [by rewrite Ea|]].
      * rewrite app_assoc. f_equal. rewrite collect_components, <- Hst. done.
      * cbn [Nat.eqb]. rewrite Etk by lia. done.
  - pose proof (rfind_none s Er) as Hn. destruct (part_single s ltac:(done)) as (c & Ec & Ea & _).
    exists c. rewrite (split_none s Hn), parts_one, Ec. split; [|split; [by rewrite Ea|done]].
    rewrite <- Hst. cbn. rewrite bool_decide_false; [done|]. intros ->. apply Hn. left.
Qed.

(** *** Building a path from its components *)

Lemma split_parts s p : p ∈ split_sep s -> sep ∉ p.
Proof.
  revert p. induction s as [|c s IH]; intros p Hp; cbn [split_sep] in Hp.
  - apply list_elem_of_singleton in Hp as ->. apply not_elem_of_nil.
  - case_bool_decide as Hc.
    + apply elem_of_cons in Hp as [->|Hp]; [apply not_elem_of_nil|by apply IH].
    + destruct (split_sep s) as [|q qs] eqn:E; [by apply split_nonempty in E|].
      apply elem_of_cons in Hp as [->|Hp]; [|apply IH; by right].
      apply not_elem_of_cons. split; [congruence|apply IH; left].
Qed.

(** The text of a component of a path is that component again. *)
Lemma part_again s c : c ∈ parts_components (split_sep s) ->
  components_of (Component_as_str c) = [c] /\ starts_with_sep (Component_as_str c) = false.
Proof.
  intros Hc. unfold parts_components in Hc. apply list_elem_of_In, in_concat in Hc as (cs & Hcs & Hc).
  apply list_elem_of_In, list_elem_of_fmap in Hcs as (p & -> & Hp). apply list_elem_of_In in Hc.
  apply split_parts in Hp.
  assert (Hne : p <> []) by (intros ->; by apply not_elem_of_nil in Hc).
  destruct (part_single p Hne) as (c' & E & Ea & _). rewrite E in Hc.
  apply list_elem_of_singleton in Hc as ->. rewrite Ea.
  assert (Hs : starts_with_sep p = false).
  { destruct p as [|x p]; [done|]. cbn. apply bool_decide_eq_false. intros ->. apply Hp. left. }
  split; [|done]. unfold components_of. by rewrite Hs, (split_none p Hp), parts_one, E.
Qed.

Definition push_all (p : PathBuf) (cs : list Component) : PathBuf :=
  foldl (fun p c => PathBuf_push p (Path_new (Component_as_str c))) p cs.

Lemma push_all_components cs p : Forall (fun c => components_of (Component_as_str c) = [c] /\
    starts_with_sep (Component_as_str c) = false) cs ->
  collect (Path_components (push_all p cs)) = collect (Path_components p) ++ cs.
Proof.
  intros H. revert p. induction H as [|c cs [H1 H2] _ IH]; intros p; [by rewrite app_nil_r|].
  cbn [push_all foldl]. change (foldl _ ?x cs) with (push_all x cs). rewrite IH.
  rewrite (collect_push p (Path_new (Component_as_str c))), !collect_components.
  unfold Path_is_absolute. cbn [inner Path_new]. by rewrite H2, H1, <- app_assoc.
Qed.

(** Pushing the components of a path one after the other, from the root for
    an absolute path and from the empty path otherwise, gives a path with the
    same components. *)
Theorem Path_components_rebuild p :
  collect (Path_components (push_all (Path_new (if Path_is_absolute p then [sep] else []))
    (collect (Path_components p)))) = collect (Path_components p).
Proof.
  rewrite (collect_components p). unfold components_of, Path_is_absolute.
  assert (HF : Forall (fun c => components_of (Component_as_str c) = [c] /\
    starts_with_sep (Component_as_str c) = false) (parts_components (split_sep (inner p)))).
  { apply Forall_forall. intros c Hc. by apply (part_again (inner p)). }
  destruct (starts_with_sep (inner p)).
  - change (push_all (Path_new [sep]) ([RootDir] ++ parts_components (split_sep (inner p))))
      with (push_all (Path_new [sep]) (parts_components (split_sep (inner p)))).
    by rewrite push_all_components.
  - cbn [app]. by rewrite push_all_components.
Qed.

Lemma PathBuf_push_witness : Path_is_absolute (Path_new ["b"%char]) = false /\
  Path_starts_with (Path_join (Path_new [sep; "a"%char]) (Path_new ["b"%char])) (Path_new [sep; "a"%char]) = true.
Proof.
  split; [reflexivity|].
  apply (proj2 (PathBuf_push_components (Path_new [sep; "a"%char]) (Path_new ["b"%char]))). reflexivity.
Defined.
