(* ===== verification/Harts.v ===== *)
(** * Harts, interrupts and the execution of lock operations

    The machine on which the synchronisation primitives run
    ([src/arch/riscv64.rs] for the interrupt bit, [src/sync/*.rs] for the
    protocols). A primitive is a [Proto]: its shared state, the program counters
    of its operations and one atomic memory access per step. Every hart has a
    running execution flow and the flows an interrupt has suspended; the steps of
    the harts interleave in any order. An interrupt is taken only while [SIE] is
    set, clears it, and the return from it sets it again. Memory is sequentially
    consistent: the acquire and release orderings of the source are what makes
    its accesses to the protected value as ordered as they are here. *)

From stdpp Require Import base list numbers.
From S2P Require Import Prelude.

(** ** The interrupt bit *)

(** Clear [SIE] and return whether it was set. *)
Definition disable_interrupt (sie : bool) : bool * bool := (sie, false).

Definition enable_interrupt (prev_sie sie : bool) : bool := if prev_sie then true else sie.

(** ** Protocols *)

(** [p_masks]: operations begin by disabling interrupts. [p_start]: the first
    program counter of an operation, given the saved interrupt state. [p_step]:
    the next atomic access of hart [i]; [inr prev] ends the operation with
    [enable_interrupt(prev)]. [p_use]: an update through the guard the flow
    holds; no update without a guard that allows it. *)
Class Proto (S P O U : Type) : Type := {
  p_masks : bool;
  p_start : O -> bool -> P;
  p_step : nat -> S -> P -> outcome (S * (P + bool));
  p_use : nat -> S -> P -> U -> S;
}.

Record hart (P : Type) : Type := mkHart {
  h_sie : bool;
  h_top : option P;
  h_below : list (option P);
}.
Arguments mkHart {P} _ _ _.
Arguments h_sie {P} _.
Arguments h_top {P} _.
Arguments h_below {P} _.

Record sys (S P : Type) : Type := mkSys { shared : S; harts : list (hart P) }.
Arguments mkSys {S P} _ _.
Arguments shared {S P} _.
Arguments harts {S P} _.

Inductive action (O U : Type) : Type :=
| Call (o : O)     (* the running flow begins an operation *)
| Run              (* the next atomic access of its operation *)
| Use (u : U)      (* an update of the protected value *)
| Irq              (* an interrupt arrives *)
| Sret.            (* the interrupt handler returns *)
Arguments Call {O U} _.
Arguments Run {O U}.
Arguments Use {O U} _.
Arguments Irq {O U}.
Arguments Sret {O U}.

Section Machine.
Context {S P O U : Type} {PR : Proto S P O U}.

Definition call (o : O) (h : hart P) : hart P :=
  if p_masks then
    let '(sie, now) := disable_interrupt (h_sie h) in
    mkHart now (Some (p_start o sie)) (h_below h)
  else mkHart (h_sie h) (Some (p_start o false)) (h_below h).

Definition settle (h : hart P) (n : P + bool) : hart P :=
  match n with
  | inl p => mkHart (h_sie h) (Some p) (h_below h)
  | inr prev => mkHart (enable_interrupt prev (h_sie h)) None (h_below h)
  end.

(** One action of hart [i]; an action that is not possible does nothing. *)
Definition hstep (i : nat) (a : action O U) (s : S) (h : hart P) : outcome (S * hart P) :=
  match a, h_top h with
  | Call o, None => Ret (s, call o h)
  | Run, Some p => '(s', n) ← p_step i s p; Ret (s', settle h n)
  | Use u, Some p => Ret (p_use i s p u, h)
  | Irq, t => Ret (s, if h_sie h then mkHart false None (t :: h_below h) else h)
  | Sret, None =>
      Ret (s, match h_below h with t :: b => mkHart true t b | [] => h end)
  | _, _ => Ret (s, h)
  end.

Definition step (x : sys S P) (e : nat * action O U) : outcome (sys S P) :=
  match harts x !! e.1 with
  | Some h => '(s', h') ← hstep e.1 e.2 (shared x) h; Ret (mkSys s' (<[e.1 := h']> (harts x)))
  | None => Ret x
  end.

Fixpoint steps (x : sys S P) (es : list (nat * action O U)) : outcome (sys S P) :=
  match es with
  | [] => Ret x
  | e :: es => x' ← step x e; steps x' es
  end.

(** [n] harts, all outside of the protocol, with interrupts on. *)
Definition boot (s : S) (n : nat) : sys S P := mkSys s (replicate n (mkHart true None [])).

(** Running only: the harts of [js] execute one access each, in this order. *)
Definition turns (js : list nat) : list (nat * action O U) := (fun i => (i, Run)) <$> js.

Definition pending (x : sys S P) : Prop := exists i h p, harts x !! i = Some h /\ h_top h = Some p.

End Machine.

(** ** Counting flows *)

Section Tally.
Context {P : Type}.

Definition weigh (f : P -> nat) (h : hart P) : nat := from_option f O (h_top h).

Definition tally (f : P -> nat) (hs : list (hart P)) : nat := sum_list (weigh f <$> hs).

Lemma tally_cons f h hs : tally f (h :: hs) = (weigh f h + tally f hs)%nat.
Proof. done. Qed.

Lemma tally_insert f hs i h h' : hs !! i = Some h ->
  (tally f (<[i := h']> hs) + weigh f h = tally f hs + weigh f h')%nat.
Proof.
  revert i. induction hs as [|k hs IH]; intros [|i] Hi; simplify_list_eq; rewrite !tally_cons; [lia|].
  specialize (IH i Hi). lia.
Qed.

Lemma tally_ge f hs i h : hs !! i = Some h -> (weigh f h <= tally f hs)%nat.
Proof.
  revert i. induction hs as [|k hs IH]; intros [|i] Hi; simplify_list_eq; rewrite tally_cons; [lia|].
  specialize (IH i Hi). lia.
Qed.

Lemma tally_pos f hs : (0 < tally f hs)%nat -> exists i h, hs !! i = Some h /\ (0 < weigh f h)%nat.
Proof.
  induction hs as [|k hs IH]; [cbn; lia|]. rewrite tally_cons. intros Hp.
  destruct (decide (0 < weigh f k)%nat); [by exists O, k|].
  destruct IH as (i & h & Hi & Hh); [lia|]. by exists (S i), h.
Qed.

Lemma tally_le f k hs : (forall p, (f p <= k)%nat) -> (tally f hs <= k * length hs)%nat.
Proof.
  intros Hf. induction hs as [|h hs IH]; [cbn; lia|]. rewrite tally_cons. cbn [length].
  unfold weigh. destruct (h_top h) as [p|]; cbn; [specialize (Hf p)|]; lia.
Qed.

Lemma tally_add f g hs : tally (fun p => f p + g p)%nat hs = (tally f hs + tally g hs)%nat.
Proof.
  induction hs as [|h hs IH]; [done|]. rewrite !tally_cons, IH.
  unfold weigh. destruct (h_top h); cbn; lia.
Qed.

Lemma tally_replicate f n b : tally f (replicate n (mkHart b None [])) = O.
Proof. induction n; [done|]. cbn [replicate]. by rewrite tally_cons. Qed.

Lemma tally_two f hs i j h k : i <> j -> hs !! i = Some h -> hs !! j = Some k ->
  (weigh f h + weigh f k <= tally f hs)%nat.
Proof.
  intros Hij Hi Hj. pose proof (tally_insert f hs i h (mkHart true None []) Hi) as E.
  pose proof (tally_ge f (<[i := mkHart true None []]> hs) j k) as L.
  rewrite list_lookup_insert_ne in L by done. specialize (L Hj).
  change (weigh f (mkHart true None [])) with O in E. lia.
Qed.

End Tally.

(** ** Runs *)

Section Runs.
Context {S P O U : Type} {PR : Proto S P O U}.
Implicit Types (x : sys S P) (h : hart P) (e : nat * action O U).

Lemma steps_app x es es' : steps x (es ++ es') = (x' ← steps x es; steps x' es').
Proof.
  revert x. induction es as [|e es IH]; intros x; cbn [steps app]; [done|].
  destruct (step x e); cbn; [apply IH|done].
Qed.

Lemma step_at x i a h : harts x !! i = Some h ->
  step x (i, a) = ('(s', h') ← hstep i a (shared x) h; Ret (mkSys s' (<[i := h']> (harts x)))).
Proof. unfold step. cbn. by intros ->. Qed.

(** An invariant of every step, which also excludes panics, holds along a run. *)
Lemma steps_inv (Inv : sys S P -> Prop) :
  (forall x e, Inv x -> exists x', step x e = Ret x' /\ Inv x') ->
  forall es x, Inv x -> exists x', steps x es = Ret x' /\ Inv x'.
Proof.
  intros Hs es. induction es as [|e es IH]; intros x Hx; cbn [steps]; [eauto|].
  destruct (Hs x e Hx) as (x' & E & Hx'). rewrite E. cbn. by apply IH.
Qed.

Lemma step_length x e x' : step x e = Ret x' -> length (harts x') = length (harts x).
Proof.
  unfold step. destruct (harts x !! e.1); [|by intros [= <-]].
  destruct (hstep _ _ _ _) as [[s' h']|]; cbn; [|done]. intros [= <-]. cbn. apply length_insert.
Qed.

Lemma steps_length es x x' : steps x es = Ret x' -> length (harts x') = length (harts x).
Proof.
  revert x. induction es as [|e es IH]; intros x E; cbn in E; [by simplify_eq|].
  destruct (step x e) as [x1|] eqn:E1; cbn in E; [|done]. rewrite (IH _ E). by apply (step_length _ e).
Qed.

(** Preservation needs to be shown for the harts that exist only. *)
Lemma inv_by_hart (Inv : sys S P -> Prop) :
  (forall x i a h, Inv x -> harts x !! i = Some h ->
     exists s' h', hstep i a (shared x) h = Ret (s', h') /\ Inv (mkSys s' (<[i := h']> (harts x)))) ->
  forall x e, Inv x -> exists x', step x e = Ret x' /\ Inv x'.
Proof.
  intros Hs x [i a] Hx. unfold step. cbn. destruct (harts x !! i) as [h|] eqn:Ei; [|by exists x].
  destruct (Hs x i a h Hx Ei) as (s' & h' & E & Hx'). rewrite E. cbn. eauto.
Qed.

End Runs.

(** ** Interrupts are off during an operation *)

(** A protocol that masks interrupts carries the saved state through its
    operation and restores it at the end. *)
Class ProtoMask (S P O U : Type) {PR : Proto S P O U} : Type := {
  p_saved : P -> bool;
  mask_on : p_masks = true;
  mask_start o b : p_saved (p_start o b) = b;
  mask_step i s p s' n : p_step i s p = Ret (s', n) ->
    match n with inl p' => p_saved p' = p_saved p | inr b => b = p_saved p end;
}.

Section Masked.
Context {S P O U : Type} {PR : Proto S P O U} {PM : ProtoMask S P O U}.
Implicit Types (x : sys S P) (h : hart P).

(** The flow that executes an operation is the running one and has interrupts
    off; the suspended flows are outside of the protocol; a hart with interrupts
    on, now or after the operation, is not in an interrupt handler, so that
    handlers do not nest. *)
Definition hart_wf h : Prop :=
  (h_below h = [] \/ h_below h = [None]) /\
  (h_sie h = true -> h_top h = None /\ h_below h = []) /\
  (forall p, h_top h = Some p -> p_saved p = true -> h_below h = []).

Lemma hstep_wf i a s h s' h' : hart_wf h -> hstep i a s h = Ret (s', h') -> hart_wf h'.
Proof.
  intros (Hb & Hs & Hp) E. unfold hstep in E.
  destruct a as [o| |u| |]; destruct (h_top h) as [p|] eqn:Et; simplify_eq;
    try by (split_and!; rewrite ?Et).
  - unfold call. rewrite mask_on. cbn. split_and!; cbn; [done|done|].
    intros p Ep. injection Ep as <-. rewrite mask_start. intros E. by apply Hs.
  - destruct (p_step i s p) as [[s1 n]|] eqn:Ep; cbn in E; simplify_eq. apply mask_step in Ep.
    destruct n as [p'|b]; cbn; split_and!; cbn; try done.
    + intros E. by apply Hs in E as [? _].
    + intros q [= <-]. rewrite Ep. by apply Hp.
    + subst b. intros E. split; [done|]. destruct (p_saved p) eqn:Es; [by apply (Hp p)|].
      cbn in E. by apply Hs in E as [? _].
  - destruct (h_sie h) eqn:Ei; [by destruct (Hs eq_refl)|]. by split_and!; rewrite ?Et, ?Ei.
  - destruct (h_sie h) eqn:Ei; split_and!; cbn; rewrite ?Et, ?Ei; try done.
    destruct (Hs eq_refl) as [_ ->]. by right.
  - destruct Hb as [Hb|Hb]; rewrite Hb; [by split_and!; rewrite ?Et, ?Hb; auto|].
    split_and!; cbn; auto; done.
Qed.

(** Seen from the protocol, an action is the begin of an operation, a step of it
    or an update of the value; interrupts do not show. *)
Lemma hstep_cases i a s h s' h' : hart_wf h -> hstep i a s h = Ret (s', h') ->
  match a, h_top h with
  | Call o, None => s' = s /\ h_top h' = Some (p_start o (h_sie h))
  | Run, Some p => exists n, p_step i s p = Ret (s', n) /\
      h_top h' = match n with inl p' => Some p' | inr _ => None end
  | Use u, Some p => s' = p_use i s p u /\ h_top h' = Some p
  | _, t => s' = s /\ h_top h' = t
  end.
Proof.
  intros (Hb & Hs & _) E. unfold hstep in E.
  destruct a as [o| |u| |]; destruct (h_top h) as [p|] eqn:Et; simplify_eq; try done.
  - unfold call. by rewrite mask_on.
  - destruct (p_step i s p) as [[s1 n]|] eqn:Ep; cbn in E; simplify_eq. exists n. split; [done|]. by destruct n.
  - destruct (h_sie h) eqn:Ei; [by destruct (Hs eq_refl)|done].
  - by destruct (h_sie h).
  - by destruct Hb as [Hb|Hb]; rewrite Hb.
Qed.

End Masked.

(** ** Progress *)

(** What a protocol has to promise so that every operation ends. [l_rank] counts
    the accesses an operation still has to make when nothing stands in its way:
    a step lowers it, or is a failed attempt, which changes neither it nor the
    shared state. [l_dist] bounds the failed attempts of an operation that nobody
    obstructs, and in every state with pending operations there is such a one. *)
Class ProtoLive (S P O U : Type) {PR : Proto S P O U} : Type := {
  l_inv : sys S P -> Prop;
  l_rank : P -> nat;
  l_dist : S -> P -> option nat;
  l_step x e : l_inv x -> exists x', step x e = Ret x' /\ l_inv x';
  l_run x i h p : l_inv x -> harts x !! i = Some h -> h_top h = Some p ->
    exists s' n, p_step i (shared x) p = Ret (s', n) /\
      match n with
      | inr _ => (0 < l_rank p)%nat
      | inl p' => (l_rank p' < l_rank p)%nat \/
          s' = shared x /\ l_rank p' = l_rank p /\
          forall d, l_dist (shared x) p = Some d ->
            exists d', d = Datatypes.S d' /\ l_dist (shared x) p' = Some d'
      end;
  l_mover x : l_inv x -> pending x ->
    exists i h p d, harts x !! i = Some h /\ h_top h = Some p /\
      l_dist (shared x) p = Some d /\ (d < 4)%nat;
  l_rank_pos p : (0 < l_rank p)%nat;
}.

Section Live.
Context {S P O U : Type} {PR : Proto S P O U} {PL : ProtoLive S P O U}.
Implicit Types (x : sys S P) (h : hart P).

Definition work x : nat := tally l_rank (harts x).

(** Every one of [n] harts has at least four turns. *)
Definition fair_block (n : nat) (b : list nat) : Prop :=
  forall i, (i < n)%nat -> (4 <= count_occ Nat.eq_dec b i)%nat.

Lemma turn_cases x i : l_inv x -> exists x', step x (i, Run) = Ret x' /\ l_inv x' /\
  length (harts x') = length (harts x) /\
  ((work x' < work x)%nat \/
   work x' = work x /\ shared x' = shared x /\
   forall j h p d, harts x !! j = Some h -> h_top h = Some p -> l_dist (shared x) p = Some d ->
     exists h' p', harts x' !! j = Some h' /\ h_top h' = Some p' /\
       if decide (i = j) then exists d', d = Datatypes.S d' /\ l_dist (shared x) p' = Some d'
       else l_dist (shared x) p' = Some d).
Proof.
  intros Hx. destruct (l_step x (i, Run) Hx) as (x' & E & Hx'). exists x'. split; [done|]. split; [done|].
  destruct (harts x !! i) as [h|] eqn:Ei; [|unfold step in E; cbn in E; rewrite Ei in E; simplify_eq;
    split; [done|right; split_and!; [done|done|]; intros j h p d Hj Ht Hd; exists h, p; rewrite decide_False; [done|congruence]]].
  rewrite (step_at x i _ h Ei) in E. unfold hstep in E. destruct (h_top h) as [p|] eqn:Et.
  2:{ cbn in E. simplify_eq. rewrite list_insert_id by done. destruct x as [s hs]; cbn in *.
      split; [done|]. right. split_and!; [done|done|]. intros j h' p d Hj Ht Hd.
      exists h', p. rewrite decide_False; [done|congruence]. }
  destruct (l_run x i h p Hx Ei Et) as (s' & n & Ep & Hn). rewrite Ep in E. cbn in E.
  injection E as <-. cbn [harts shared]. rewrite length_insert. split; [done|].
  pose proof (tally_insert l_rank (harts x) i h (settle h n) Ei) as W. unfold work. cbn [harts].
  assert (E1 : weigh l_rank h = l_rank p) by (unfold weigh; by rewrite Et). rewrite E1 in W.
  destruct n as [p'|b]; cbn [settle] in *; unfold weigh in W; cbn in W; [|left; lia].
  destruct Hn as [Hn|(-> & Hr & Hd)]; [left; lia|]. right. split_and!; [lia|done|].
  intros j k q d Hj Ht Hq. destruct (decide (i = j)) as [<-|Hij].
  - rewrite list_lookup_insert_eq by by eapply lookup_lt_Some. eexists _, p'. cbn.
    split; [done|]. split; [done|]. apply Hd. congruence.
  - rewrite list_lookup_insert_ne by done. by exists k, q.
Qed.

(** Work never grows while no operation begins. *)
Lemma turns_work js x : l_inv x -> exists x', steps x (turns js) = Ret x' /\ l_inv x' /\
  length (harts x') = length (harts x) /\ (work x' <= work x)%nat.
Proof.
  revert x. induction js as [|i js IH]; intros x Hx; cbn; [by exists x|].
  destruct (turn_cases x i Hx) as (x1 & E1 & H1 & L1 & Hw). rewrite E1. cbn.
  destruct (IH x1 H1) as (x2 & E2 & H2 & L2 & W2). exists x2. split_and!; [done|done|congruence|].
  destruct Hw as [Hw|[Hw _]]; lia.
Qed.

Lemma turns_progress js x i h p d : l_inv x -> harts x !! i = Some h -> h_top h = Some p ->
  l_dist (shared x) p = Some d -> (d < count_occ Nat.eq_dec js i)%nat ->
  exists x', steps x (turns js) = Ret x' /\ l_inv x' /\
    length (harts x') = length (harts x) /\ (work x' < work x)%nat.
Proof.
  revert x h p d. induction js as [|j js IH]; intros x h p d Hx Hi Ht Hd Hc; [cbn in Hc; lia|].
  cbn [turns fmap list_fmap steps]. destruct (turn_cases x j Hx) as (x1 & E1 & H1 & L1 & Hw).
  rewrite E1. cbn. destruct Hw as [Hw|(Hw & Hs & Hq)].
  { destruct (turns_work js x1 H1) as (x2 & E2 & H2 & L2 & W2).
    exists x2. split_and!; [done|done|congruence|lia]. }
  destruct (Hq i h p d Hi Ht Hd) as (h' & p' & Hi' & Ht' & Hd'). rewrite <- Hs in Hd'. cbn in Hc.
  destruct (Nat.eq_dec j i) as [->|Hji].
  - rewrite decide_True in Hd' by done. destruct Hd' as (d' & -> & Hd').
    destruct (IH x1 h' p' d' H1 Hi' Ht' Hd') as (x2 & E2 & H2 & L2 & W2); [lia|].
    exists x2. split_and!; [done|done|congruence|lia].
  - rewrite decide_False in Hd' by done.
    destruct (IH x1 h' p' d H1 Hi' Ht' Hd' Hc) as (x2 & E2 & H2 & L2 & W2).
    exists x2. split_and!; [done|done|congruence|lia].
Qed.

Lemma idle_or_pending x : ~ pending x /\ work x = 0%nat \/ pending x /\ (0 < work x)%nat.
Proof.
  destruct (decide (work x = 0%nat)) as [E|E].
  - left. split; [|done]. intros (i & h & p & Hi & Ht). pose proof (tally_ge l_rank _ _ _ Hi) as L.
    unfold work in E. unfold weigh in L. rewrite Ht in L. cbn in L. pose proof (l_rank_pos p). lia.
  - right. split; [|lia]. destruct (tally_pos l_rank (harts x)) as (i & h & Hi & Hh); [unfold work in E; lia|].
    unfold weigh in Hh. destruct (h_top h) as [p|] eqn:Et; [|cbn in Hh; lia]. by exists i, h, p.
Qed.

(** Under every fair schedule, as many blocks as there is work are enough for
    all pending operations to end. *)
Lemma blocks_finish bs x : l_inv x -> Forall (fair_block (length (harts x))) bs ->
  (work x <= length bs)%nat ->
  exists x', steps x (turns (concat bs)) = Ret x' /\ l_inv x' /\ ~ pending x'.
Proof.
  revert x. induction bs as [|b bs IH]; intros x Hx Hf Hw.
  - exists x. split_and!; [done|done|]. destruct (idle_or_pending x) as [[? _]|[? ?]]; [done|]. cbn in Hw. lia.
  - apply Forall_cons in Hf as [Hb Hf]. cbn [concat]. unfold turns. rewrite fmap_app, steps_app.
    assert (Hgo : exists x1, steps x (turns b) = Ret x1 /\ l_inv x1 /\
      length (harts x1) = length (harts x) /\ (work x1 <= length bs)%nat).
    { destruct (idle_or_pending x) as [[_ Hi]|[Hp Hpos]].
      - destruct (turns_work b x Hx) as (x1 & ? & ? & ? & ?). exists x1. split_and!; try done. lia.
      - destruct (l_mover x Hx Hp) as (i & h & p & d & Hi & Ht & Hd & Hlt).
        specialize (Hb i (lookup_lt_Some _ _ _ Hi)).
        destruct (turns_progress b x i h p d Hx Hi Ht Hd ltac:(lia)) as (x1 & ? & ? & ? & ?).
        exists x1. cbn in Hw. split_and!; try done; lia. }
    destruct Hgo as (x1 & E1 & H1 & L1 & W1). fold (turns (O:=O) (U:=U) b). rewrite E1. cbn.
    apply IH; [done|by rewrite L1|done].
Qed.

End Live.
