(* ===== verification/Locks.v ===== *)
(** * Spin locks and reader-writer locks ([src/sync/spin.rs], [src/sync/rwlock.rs])

    Both locks as protocols of the machine of [Harts]: one program counter per
    atomic access of [lock], [read], [write] and of the [Drop] of the guards, the
    saved interrupt state in each of them. *)

From stdpp Require Import base list numbers.
From S2P Require Import Prelude Harts.

(** [AtomicX::compare_exchange] on a cell: its new contents and [is_ok()]. *)
Definition compare_exchange {A} `{EqDecision A} (cell current new : A) : A * bool :=
  if decide (cell = current) then (new, true) else (cell, false).

(** [AtomicUsize::fetch_add] and [fetch_sub] wrap around. *)
Definition fetch_add (cell v : Z) : Z := wrap 64 (cell + v).
Definition fetch_sub (cell v : Z) : Z := wrap 64 (cell - v).

(** ** [SpinLock] *)

Record SpinLock (T : Type) : Type := mkSpinLock { sl_lock : bool; sl_value : T }.
Arguments mkSpinLock {T} _ _.
Arguments sl_lock {T} _.
Arguments sl_value {T} _.

Definition SpinLock_new {T} (value : T) : SpinLock T := mkSpinLock false value.

(** The [compare_exchange] of [lock], holding the guard, the end of its [Drop]. *)
Inductive spin_pc : Type := SpinEnter (sie : bool) | SpinGuard (sie : bool) | SpinDrop (sie : bool).

Definition SpinLock_lock {T} (s : SpinLock T) (p : spin_pc) :
    outcome (SpinLock T * (spin_pc + bool)) :=
  match p with
  | SpinEnter sie =>
      let '(l, ok) := compare_exchange (sl_lock s) false true in
      Ret (mkSpinLock l (sl_value s), inl (if ok : bool then SpinGuard sie else SpinEnter sie))
  | p => Ret (s, inl p)
  end.

Definition SpinLockGuard_drop {T} (s : SpinLock T) (p : spin_pc) :
    outcome (SpinLock T * (spin_pc + bool)) :=
  match p with
  | SpinGuard sie => Ret (mkSpinLock false (sl_value s), inl (SpinDrop sie))
  | SpinDrop sie => Ret (s, inr sie)
  | p => Ret (s, inl p)
  end.

Definition spin_step {T} (i : nat) (s : SpinLock T) (p : spin_pc) :
    outcome (SpinLock T * (spin_pc + bool)) :=
  match p with
  | SpinEnter _ => SpinLock_lock s p
  | _ => SpinLockGuard_drop s p
  end.

Definition spin_use {T} (i : nat) (s : SpinLock T) (p : spin_pc) (u : T -> T) : SpinLock T :=
  match p with
  | SpinGuard _ => mkSpinLock (sl_lock s) (u (sl_value s))
  | _ => s
  end.

#[export] Instance SpinLock_proto {T} : Proto (SpinLock T) spin_pc unit (T -> T) := {|
  p_masks := true;
  p_start := fun _ sie => SpinEnter sie;
  p_step := spin_step;
  p_use := spin_use;
|}.

(** ** [RwLock] *)

Definition WRITER : Z := 1.
Definition READER : Z := 2.

Record RwLock (T : Type) : Type := mkRwLock { rw_state : Z; waiting_writers : Z; rw_value : T }.
Arguments mkRwLock {T} _ _ _.
Arguments rw_state {T} _.
Arguments waiting_writers {T} _.
Arguments rw_value {T} _.

Definition RwLock_new {T} (value : T) : RwLock T := mkRwLock 0 0 value.

Inductive rw_op : Type := OpRead | OpWrite.

(** [read]: the load of [waiting_writers], the load of [state], the
    [compare_exchange]; the guard; the end of its [Drop]. [write]: the
    [fetch_add], the [compare_exchange], the [fetch_sub]; the guard; the end of
    its [Drop]. *)
Inductive rw_pc : Type :=
| ReadWaiting (sie : bool)
| ReadState (sie : bool)
| ReadEnter (sie : bool) (state next : Z)
| ReadGuard (sie : bool)
| ReadDrop (sie : bool)
| WriteAnnounce (sie : bool)
| WriteEnter (sie : bool)
| WriteEntered (sie : bool)
| WriteGuard (sie : bool)
| WriteDrop (sie : bool).

Definition RwLock_read {T} (s : RwLock T) (p : rw_pc) : RwLock T * (rw_pc + bool) :=
  match p with
  | ReadWaiting sie =>
      (s, inl (if decide (waiting_writers s <> 0) then ReadWaiting sie else ReadState sie))
  | ReadState sie =>
      let state := rw_state s in
      (s, inl (if decide (Z.land state WRITER <> 0) then ReadWaiting sie
               else match checked_add state READER with
                    | None => ReadWaiting sie
                    | Some next => ReadEnter sie state next
                    end))
  | ReadEnter sie state next =>
      let '(c, ok) := compare_exchange (rw_state s) state next in
      (mkRwLock c (waiting_writers s) (rw_value s),
       inl (if ok : bool then ReadGuard sie else ReadWaiting sie))
  | p => (s, inl p)
  end.

Definition RwLockReadGuard_drop {T} (s : RwLock T) (p : rw_pc) : RwLock T * (rw_pc + bool) :=
  match p with
  | ReadGuard sie =>
      (mkRwLock (fetch_sub (rw_state s) READER) (waiting_writers s) (rw_value s), inl (ReadDrop sie))
  | ReadDrop sie => (s, inr sie)
  | p => (s, inl p)
  end.

Definition RwLock_write {T} (s : RwLock T) (p : rw_pc) : RwLock T * (rw_pc + bool) :=
  match p with
  | WriteAnnounce sie =>
      (mkRwLock (rw_state s) (fetch_add (waiting_writers s) 1) (rw_value s), inl (WriteEnter sie))
  | WriteEnter sie =>
      let '(c, ok) := compare_exchange (rw_state s) 0 WRITER in
      (mkRwLock c (waiting_writers s) (rw_value s),
       inl (if ok : bool then WriteEntered sie else WriteEnter sie))
  | WriteEntered sie =>
      (mkRwLock (rw_state s) (fetch_sub (waiting_writers s) 1) (rw_value s), inl (WriteGuard sie))
  | p => (s, inl p)
  end.

Definition RwLockWriteGuard_drop {T} (s : RwLock T) (p : rw_pc) : RwLock T * (rw_pc + bool) :=
  match p with
  | WriteGuard sie => (mkRwLock 0 (waiting_writers s) (rw_value s), inl (WriteDrop sie))
  | WriteDrop sie => (s, inr sie)
  | p => (s, inl p)
  end.

Definition rw_step {T} (i : nat) (s : RwLock T) (p : rw_pc) : outcome (RwLock T * (rw_pc + bool)) :=
  Ret (match p with
       | ReadWaiting _ | ReadState _ | ReadEnter _ _ _ => RwLock_read s p
       | ReadGuard _ | ReadDrop _ => RwLockReadGuard_drop s p
       | WriteAnnounce _ | WriteEnter _ | WriteEntered _ => RwLock_write s p
       | WriteGuard _ | WriteDrop _ => RwLockWriteGuard_drop s p
       end).

Definition rw_use {T} (i : nat) (s : RwLock T) (p : rw_pc) (u : T -> T) : RwLock T :=
  match p with
  | WriteGuard _ => mkRwLock (rw_state s) (waiting_writers s) (u (rw_value s))
  | _ => s
  end.

#[export] Instance RwLock_proto {T} : Proto (RwLock T) rw_pc rw_op (T -> T) := {|
  p_masks := true;
  p_start := fun o sie => match o with OpRead => ReadWaiting sie | OpWrite => WriteAnnounce sie end;
  p_step := rw_step;
  p_use := rw_use;
|}.

(** ** Interrupts *)

#[export] Instance SpinLock_mask {T} : ProtoMask (SpinLock T) spin_pc unit (T -> T).
Proof.
  refine {| p_saved := fun p => match p with SpinEnter b | SpinGuard b | SpinDrop b => b end |}; [done|done|].
  intros i s [b|b|b] s' n E; cbn in E; unfold compare_exchange in E; repeat case_decide; by simplify_eq.
Defined.

Definition rw_saved (p : rw_pc) : bool :=
  match p with
  | ReadWaiting b | ReadState b | ReadEnter b _ _ | ReadGuard b | ReadDrop b
  | WriteAnnounce b | WriteEnter b | WriteEntered b | WriteGuard b | WriteDrop b => b
  end.

#[export] Instance RwLock_mask {T} : ProtoMask (RwLock T) rw_pc rw_op (T -> T).
Proof.
  refine {| p_saved := rw_saved |}; [done|by intros []|].
  intros i s p s' n E; destruct p; cbn in E; unfold rw_step in E; cbn in E; unfold compare_exchange in E;
    repeat case_decide; repeat case_match; by simplify_eq.
Defined.

(** Flow [p] runs on hart [i]. *)
Definition at_pc {S P} (x : sys S P) (i : nat) (p : P) : Prop :=
  exists h, harts x !! i = Some h /\ h_top h = Some p.

(** While a hart executes an operation its interrupts are off, and the flows its
    interrupts have suspended are outside of the lock. *)
Definition shielded {S P} (x : sys S P) : Prop := forall i h, harts x !! i = Some h ->
  (h_top h <> None -> h_sie h = false) /\ Forall (fun t => t = None) (h_below h).

Lemma wf_shielded {S P O U} {PR : Proto S P O U} {PM : ProtoMask S P O U} (x : sys S P) :
  Forall hart_wf (harts x) -> shielded x.
Proof.
  intros Hw i h Hi. pose proof (proj1 (Forall_lookup _ _) Hw i h Hi) as (Hb & Hs & _). split.
  - intros Ht. destruct (h_sie h); [|done]. by destruct (Hs eq_refl).
  - by destruct Hb as [-> | ->]; repeat constructor.
Qed.

Lemma boot_wf {S P O U} {PR : Proto S P O U} {PM : ProtoMask S P O U} (s : S) n :
  Forall hart_wf (harts (boot (P:=P) s n)).
Proof. apply Forall_replicate. split_and!; [by left|done|done]. Qed.

(** ** Theory of [SpinLock] *)

Section Spin.
Context {T : Type}.
Implicit Types (x : sys (SpinLock T) spin_pc) (v : T).

Definition spin_held (p : spin_pc) : nat := match p with SpinGuard _ => 1 | _ => 0 end.

Definition spin_inv x : Prop :=
  Forall (hart_wf (S:=SpinLock T)) (harts x) /\
  tally spin_held (harts x) = (if sl_lock (shared x) then 1 else 0)%nat.

Lemma spin_inv_boot v n : spin_inv (boot (SpinLock_new v) n).
Proof. split; [apply boot_wf|apply tally_replicate]. Qed.

Lemma spin_inv_step x e : spin_inv x -> exists x', step x e = Ret x' /\ spin_inv x'.
Proof.
  revert x e. apply inv_by_hart. intros x i a h [Hw Ht] Hi.
  assert (E : exists s' h', hstep i a (shared x) h = Ret (s', h')).
  { unfold hstep. destruct a, (h_top h) as [[]|]; cbn; unfold compare_exchange; repeat case_decide; cbn; eauto. }
  destruct E as (s' & h' & E). exists s', h'. split; [done|].
  pose proof (proj1 (Forall_lookup _ _) Hw i h Hi) as Hh. split; cbn [harts shared].
  { apply Forall_insert; [done|]. by apply (hstep_wf _ _ _ _ _ _ Hh E). }
  apply (hstep_cases _ _ _ _ _ _ Hh) in E.
  pose proof (tally_insert spin_held (harts x) i h h' Hi) as W.
  pose proof (tally_ge spin_held (harts x) i h Hi) as G. unfold weigh in W, G.
  destruct a, (h_top h) as [[]|] eqn:Et; 
    first [destruct E as (-> & Et') | destruct E as (n & E & Et'); cbn in E; unfold compare_exchange in E;
             repeat case_decide; simplify_eq]; rewrite Et' in W;
    cbn in *; destruct (sl_lock (shared x)); cbn in *; congruence || lia.
Qed.

#[export] Instance SpinLock_live : ProtoLive (SpinLock T) spin_pc unit (T -> T).
Proof.
  refine {|
    l_inv := spin_inv;
    l_rank := fun p => match p with SpinEnter _ => 3 | SpinGuard _ => 2 | SpinDrop _ => 1 end%nat;
    l_dist := fun s p => match p with
                         | SpinEnter _ => if sl_lock s then None else Some O
                         | _ => Some O
                         end |}.
  - apply spin_inv_step.
  - intros x i h p Hx Hi Ht. cbn. unfold spin_step, SpinLock_lock, compare_exchange.
    destruct p as [b|b|b]; [|eexists _, _; split; [done|cbn; lia]..].
    destruct (sl_lock (shared x)) eqn:El; case_decide; try done; eexists _, _; split; [done| |done|].
    + right. split_and!; [by destruct (shared x); cbn in *; subst|done|done].
    + cbn. left. lia.
  - intros x [_ Ht] (i & h & p & Hi & Hp). destruct (sl_lock (shared x)) eqn:El.
    + destruct (tally_pos spin_held (harts x)) as (j & k & Hj & Hk); [lia|]. unfold weigh in Hk.
      destruct (h_top k) as [q|] eqn:Eq; [|cbn in Hk; lia]. exists j, k, q, O.
      by destruct q; cbn in *; split_and!; try done; lia.
    + exists i, h, p, O. destruct p; split_and!; done || lia.
  - intros []; lia.
Defined.

(** [SpinLock] on any number of harts, under any interleaving of operations,
    updates and interrupts: at most one flow holds the guard, and only that flow
    changes the value; it is never interrupted by a flow of the same hart that
    also uses the lock; and under every fair schedule the pending operations
    end. *)
Theorem SpinLock_ok v n es : exists x, steps (boot (SpinLock_new v) n) es = Ret x /\
  (forall i j b c, at_pc x i (SpinGuard b) -> at_pc x j (SpinGuard c) -> i = j) /\
  (forall e x', step x e = Ret x' -> sl_value (shared x') <> sl_value (shared x) ->
     exists b, at_pc x e.1 (SpinGuard b)) /\
  shielded x /\
  (forall bs, Forall (fair_block n) bs -> (3 * n <= length bs)%nat ->
     exists x', steps x (turns (concat bs)) = Ret x' /\ ~ pending x').
Proof.
  destruct (steps_inv spin_inv spin_inv_step es _ (spin_inv_boot v n)) as (x & E & Hx).
  exists x. split; [done|]. split_and!.
  - intros i j b c (h & Hi & Hh) (k & Hj & Hk). destruct (decide (i = j)) as [|Hij]; [done|].
    pose proof (tally_two spin_held _ i j h k Hij Hi Hj) as Ht. unfold weigh in Ht. rewrite Hh, Hk in Ht.
    destruct Hx as [_ Hx]. rewrite Hx in Ht. cbn in Ht. destruct (sl_lock (shared x)); lia.
  - intros [i a] x' Es Hv. unfold step in Es. cbn in *. destruct (harts x !! i) as [h|] eqn:Hi; [|by simplify_eq].
    destruct (hstep i a (shared x) h) as [[s' h']|] eqn:Eh; cbn in Es; simplify_eq. cbn in Hv.
    apply hstep_cases in Eh; [|by apply (proj1 (Forall_lookup _ _) (proj1 Hx) i)].
    destruct a, (h_top h) as [[b|b|b]|] eqn:Et; try (by destruct Eh as [-> _]); try (by exists b, h);
      destruct Eh as (m & Em & _); cbn in Em; unfold compare_exchange in Em; repeat case_decide; by simplify_eq.
  - apply (wf_shielded x), Hx.
  - intros bs Hf Hw. apply steps_length in E. cbn in E. rewrite length_replicate in E. subst n.
    destruct (blocks_finish (PL:=SpinLock_live) bs x Hx Hf) as (x' & ? & _ & ?); [|eauto].
    etransitivity; [|exact Hw]. apply tally_le. intros []; cbn; lia.
Qed.

End Spin.

(** ** Theory of [RwLock] *)

(** The state word: two for every reader and one for the writer. *)
Lemma even_land st : Z.land st WRITER = st mod 2.
Proof. apply (Z.land_ones st 1). lia. Qed.

Lemma wrap_small v : 0 <= v < 2 ^ 64 -> wrap 64 v = v.
Proof. apply Z.mod_small. Qed.

Section Rw.
Context {T : Type}.
Implicit Types (x : sys (RwLock T) rw_pc) (v : T).

(** Flows with a read guard; with the writer bit; counted in [waiting_writers];
    between the load of [waiting_writers] and the [compare_exchange] of [read]. *)
Definition rd (p : rw_pc) : nat := match p with ReadGuard _ => 1 | _ => 0 end.
Definition wr (p : rw_pc) : nat := match p with WriteEntered _ | WriteGuard _ => 1 | _ => 0 end.
Definition an (p : rw_pc) : nat := match p with WriteEnter _ | WriteEntered _ => 1 | _ => 0 end.
Definition win (p : rw_pc) : nat := match p with ReadState _ | ReadEnter _ _ _ => 1 | _ => 0 end.

Definition entry_ok (t : option rw_pc) : Prop :=
  match t with
  | Some (ReadEnter _ st next) => Z.land st WRITER = 0 /\ 0 <= st /\ next = st + READER
  | _ => True
  end.

(** The words of the lock as they are with [r] readers, [w] writers and [a]
    announced writers. *)
Definition words_ok (s : RwLock T) (r w a : nat) : Prop :=
  rw_state s = 2 * Z.of_nat r + Z.of_nat w /\ (w <= 1)%nat /\ (w = 1 -> r = 0)%nat /\
  waiting_writers s = Z.of_nat a.

Definition next_pc (n : rw_pc + bool) : option rw_pc := match n with inl p => Some p | inr _ => None end.

Definition weight (f : rw_pc -> nat) (t : option rw_pc) : nat := from_option f O t.

(** One access of one flow, in terms of the counts. *)
Lemma rw_step_words i s p s' n r w a : words_ok s r w a -> entry_ok (Some p) ->
  (rd p <= r)%nat -> (wr p <= w)%nat -> (an p <= a)%nat ->
  Z.of_nat r < 2 ^ 62 -> Z.of_nat a < 2 ^ 62 -> rw_step i s p = Ret (s', n) ->
  entry_ok (next_pc n) /\
  words_ok s' (r - rd p + weight rd (next_pc n)) (w - wr p + weight wr (next_pc n))
    (a - an p + weight an (next_pc n)).
Proof.
  intros (Hs & Hw & Hr & Ha) He H1 H2 H3 B1 B3 E. unfold rw_step in E.
  destruct p as [b|b|b st nx|b|b|b|b|b|b|b]; cbn in *; unfold compare_exchange, checked_add, fetch_add, fetch_sub,
    READER, WRITER in *; repeat case_decide; repeat case_match; simplify_eq; cbn;
    unfold words_ok; cbn; try (split; [done|]);
    rewrite ?wrap_small by lia; rewrite ?Nat.sub_0_r, ?Nat.add_0_r; try (split_and!; done || lia).
  destruct He as (Hev & Hst & ->). change 1 with WRITER in Hev. rewrite even_land in Hev. split_and!; lia.
Qed.

Definition rw_inv x : Prop :=
  Z.of_nat (length (harts x)) < 2 ^ 62 /\
  Forall (hart_wf (S:=RwLock T)) (harts x) /\ Forall (fun h => entry_ok (h_top h)) (harts x) /\
  words_ok (shared x) (tally rd (harts x)) (tally wr (harts x)) (tally an (harts x)).

Lemma rw_inv_boot v n : Z.of_nat n < 2 ^ 62 -> rw_inv (boot (RwLock_new v) n).
Proof.
  intros Hn. unfold rw_inv. cbn [boot harts shared]. rewrite !tally_replicate, length_replicate.
  split; [done|]. split; [apply (boot_wf (RwLock_new v))|]. split; [by apply Forall_replicate|].
  split_and!; cbn; done || lia.
Qed.

Lemma rw_hstep i a (s : RwLock T) h : exists s' h', hstep i a s h = Ret (s', h').
Proof.
  unfold hstep. destruct a; destruct (h_top h); eauto. cbn. unfold rw_step.
  destruct (match _ with ReadWaiting _ => _ | _ => _ end) as [s' n]. cbn. eauto.
Qed.

Lemma rw_inv_step x e : rw_inv x -> exists x', step x e = Ret x' /\ rw_inv x'.
Proof.
  revert x e. apply inv_by_hart. intros x i a h (Hn & Hw & He & Hc) Hi.
  destruct (rw_hstep i a (shared x) h) as (s' & h' & E). exists s', h'. split; [done|].
  pose proof (proj1 (Forall_lookup _ _) Hw i h Hi) as Hh.
  pose proof (proj1 (Forall_lookup _ _) He i h Hi) as Heh. cbn in Heh.
  unfold rw_inv. cbn [harts shared]. rewrite length_insert. split; [done|].
  split; [apply Forall_insert; [done|by apply (hstep_wf _ _ _ _ _ _ Hh E)]|].
  apply (hstep_cases _ _ _ _ _ _ Hh) in E.
  pose proof (tally_insert rd (harts x) i h h' Hi) as W1. pose proof (tally_ge rd (harts x) i h Hi) as G1.
  pose proof (tally_insert wr (harts x) i h h' Hi) as W2. pose proof (tally_ge wr (harts x) i h Hi) as G2.
  pose proof (tally_insert an (harts x) i h h' Hi) as W3. pose proof (tally_ge an (harts x) i h Hi) as G3.
  pose proof (tally_le rd 1 (harts x) ltac:(intros []; cbn; lia)) as L1.
  pose proof (tally_le an 1 (harts x) ltac:(intros []; cbn; lia)) as L3.
  cut (entry_ok (h_top h') /\ words_ok s' (tally rd (harts x) - weigh rd h + weigh rd h')
    (tally wr (harts x) - weigh wr h + weigh wr h') (tally an (harts x) - weigh an h + weigh an h')).
  { intros [H1 H2]. split; [by apply Forall_insert|].
    replace (tally rd (<[i:=h']> (harts x))) with (tally rd (harts x) - weigh rd h + weigh rd h')%nat by lia.
    replace (tally wr (<[i:=h']> (harts x))) with (tally wr (harts x) - weigh wr h + weigh wr h')%nat by lia.
    by replace (tally an (<[i:=h']> (harts x))) with (tally an (harts x) - weigh an h + weigh an h')%nat by lia. }
  clear W1 W2 W3. unfold weigh in *. destruct a as [o| |u| |]; destruct (h_top h) as [p|];
    first [destruct E as (-> & Et') | destruct E as (n & E & Et')]; rewrite Et'; cbn [from_option] in *;
    rewrite ?Nat.sub_0_r, ?Nat.add_0_r, ?Nat.sub_add by done; try done.
  - by destruct o; cbn; rewrite !Nat.add_0_r.
  - by apply (rw_step_words i (shared x) p s' n _ _ _ Hc); try lia.
  - split; [done|]. by destruct p.
Qed.

Definition rw_rank (p : rw_pc) : nat :=
  match p with
  | WriteAnnounce _ => 5
  | WriteEnter _ => 4
  | ReadWaiting _ | ReadState _ | ReadEnter _ _ _ | WriteEntered _ => 3
  | ReadGuard _ | WriteGuard _ => 2
  | ReadDrop _ | WriteDrop _ => 1
  end.

(** A writer gets in when the lock is free, a reader when in addition no writer
    is announced; a reader that has seen an old state word goes round once. *)
Definition rw_dist (s : RwLock T) (p : rw_pc) : option nat :=
  let free := bool_decide (rw_state s = 0) in
  let quiet := free && bool_decide (waiting_writers s = 0) in
  match p with
  | WriteEnter _ => if free then Some 0%nat else None
  | ReadWaiting _ => if quiet then Some 2%nat else None
  | ReadState _ => if quiet then Some 1%nat else None
  | ReadEnter _ st _ => if quiet then Some (if bool_decide (st = 0) then 0%nat else 3%nat) else None
  | _ => Some 0%nat
  end.

Lemma rw_lock_eta (s : RwLock T) : mkRwLock (rw_state s) (waiting_writers s) (rw_value s) = s.
Proof. by destruct s. Qed.

Lemma rw_run i (s : RwLock T) p : exists s' n, rw_step i s p = Ret (s', n) /\
  match n with
  | inr _ => (0 < rw_rank p)%nat
  | inl p' => (rw_rank p' < rw_rank p)%nat \/
      s' = s /\ rw_rank p' = rw_rank p /\
      forall d, rw_dist s p = Some d -> exists d', d = S d' /\ rw_dist s p' = Some d'
  end.
Proof.
  unfold rw_step. destruct p as [b|b|b st nx|b|b|b|b|b|b|b]; cbn -[rw_dist]; unfold compare_exchange; repeat case_decide;
    rewrite ?rw_lock_eta; eexists _, _; (split; [reflexivity|]); cbn -[rw_dist]; try lia; unfold rw_dist.
  - right. split_and!; [done|done|]. intros d. rewrite (bool_decide_eq_false_2 (waiting_writers s = 0)) by done.
    by rewrite andb_false_r.
  - right. split_and!; [done|done|]. intros d. destruct (_ && _); [|done]. intros [= <-]. by exists 1%nat.
  - right. split_and!; [done|done|]. intros d. case_bool_decide as Hz; [|done]. by rewrite Hz in *.
  - right. destruct (checked_add (rw_state s) READER) as [nx|] eqn:Ec; (split; [done|]); (split; [done|]);
      cbn; intros d; case_bool_decide as Hz; cbn; try done; [|by rewrite Hz in Ec].
    case_bool_decide; [|done]. intros [= <-]. by exists 0%nat.
  - right. split_and!; [done|done|]. intros d. destruct (_ && _) eqn:Eq; [|done]. intros [= <-].
    destruct (bool_decide (st = 0)) eqn:Hz; [|by exists 2%nat]. apply bool_decide_eq_true in Hz. subst st.
    apply andb_true_iff in Eq as [Eq _]. by apply bool_decide_eq_true in Eq.
  - right. split_and!; [done|done|]. intros d. by case_bool_decide.
Qed.

Lemma tally_at (f : rw_pc -> nat) (hs : list (hart rw_pc)) : (0 < tally f hs)%nat ->
  exists i h p, hs !! i = Some h /\ h_top h = Some p /\ (0 < f p)%nat.
Proof.
  intros H. destruct (tally_pos f hs H) as (i & h & Hi & Hh). unfold weigh in Hh.
  destruct (h_top h) as [p|] eqn:E; [by exists i, h, p|cbn in Hh; lia].
Qed.

Lemma rw_mover x : rw_inv x -> pending x -> exists i h p d, harts x !! i = Some h /\ h_top h = Some p /\
  rw_dist (shared x) p = Some d /\ (d < 4)%nat.
Proof.
  intros (_ & _ & _ & Hs & _ & _ & Ha) (i & h & p & Hi & Hp).
  destruct (decide (0 < tally rd (harts x))%nat) as [C|C].
  { destruct (tally_at rd _ C) as (j & k & q & Hj & Hk & Hq). exists j, k, q, 0%nat.
    destruct q; cbn in *; split_and!; done || lia. }
  destruct (decide (0 < tally wr (harts x))%nat) as [C'|C'].
  { destruct (tally_at wr _ C') as (j & k & q & Hj & Hk & Hq). exists j, k, q, 0%nat.
    destruct q; cbn in *; split_and!; done || lia. }
  assert (Z0 : rw_state (shared x) = 0) by lia.
  destruct (decide (0 < tally an (harts x))%nat) as [C2|C2].
  { destruct (tally_at an _ C2) as (j & k & q & Hj & Hk & Hq). exists j, k, q, 0%nat.
    destruct q; cbn in *; rewrite ?Z0; split_and!; done || lia. }
  assert (Z1 : waiting_writers (shared x) = 0) by lia.
  exists i, h, p. unfold rw_dist. rewrite Z0, Z1. cbn.
  destruct p; try (eexists; split_and!; [done|done|done|lia]).
  eexists. split_and!; [done|done|done|]. case_bool_decide; lia.
Qed.

#[export] Instance RwLock_live : ProtoLive (RwLock T) rw_pc rw_op (T -> T).
Proof.
  refine {| l_inv := rw_inv; l_rank := rw_rank; l_dist := rw_dist |}.
  - apply rw_inv_step.
  - intros x i h p _ _ _. apply rw_run.
  - apply rw_mover.
  - intros []; cbn; lia.
Defined.

Definition reading x i : Prop := exists b, at_pc x i (ReadGuard b).
Definition writing x i : Prop := exists b, at_pc x i (WriteGuard b).

Lemma rw_changes x e x' : rw_inv x -> step x e = Ret x' ->
  rw_value (shared x') <> rw_value (shared x) -> writing x e.1.
Proof.
  destruct e as [i a]. intros Hx Es Hv. unfold step in Es. cbn in *.
  destruct (harts x !! i) as [h|] eqn:Hi; [|by simplify_eq].
  destruct (hstep i a (shared x) h) as [[s' h']|] eqn:Eh; cbn in Es; simplify_eq. cbn in Hv.
  destruct Hx as (_ & Hw & _). apply hstep_cases in Eh; [|by apply (proj1 (Forall_lookup _ _) Hw i)].
  destruct a, (h_top h) as [p|] eqn:Et; try (by destruct Eh as [-> _]).
  - destruct Eh as (m & Em & _). cbn in Em. unfold rw_step in Em. injection Em as Em. destruct Hv.
    destruct p; cbn in Em; unfold compare_exchange in Em; repeat case_decide; by simplify_eq.
  - destruct Eh as [-> _]. destruct p; try done. by eexists _, h.
Qed.

(** C17. [RwLock] on any number of harts below 2^62, under any interleaving of
    operations, updates and interrupts: a flow with the write guard is alone, no
    other flow holds a guard of either kind; only that flow changes the value, so
    that a reader sees one value for as long as it holds its guard; and a flow
    that uses the lock is not interrupted. *)
Theorem RwLock_excl v n es : Z.of_nat n < 2 ^ 62 ->
  exists x, steps (boot (RwLock_new v) n) es = Ret x /\
    (forall i j, writing x i -> ~ reading x j /\ (writing x j -> i = j)) /\
    (forall e x', step x e = Ret x' -> rw_value (shared x') <> rw_value (shared x) -> writing x e.1) /\
    shielded x.
Proof.
  intros Hn. destruct (steps_inv rw_inv rw_inv_step es _ (rw_inv_boot v n Hn)) as (x & E & Hx).
  exists x. split; [done|]. split_and!.
  - intros i j (b & h & Hi & Hh). destruct Hx as (_ & _ & _ & _ & H1 & H0 & _).
    pose proof (tally_ge wr _ i h Hi) as G. unfold weigh in G. rewrite Hh in G. cbn in G. split.
    + intros (c & k & Hj & Hk). pose proof (tally_ge rd _ j k Hj) as G'. unfold weigh in G'.
      rewrite Hk in G'. cbn in G'. specialize (H0 ltac:(lia)). lia.
    + intros (c & k & Hj & Hk). destruct (decide (i = j)) as [|Hij]; [done|].
      pose proof (tally_two wr _ i j h k Hij Hi Hj) as Ht. unfold weigh in Ht. rewrite Hh, Hk in Ht. cbn in Ht. lia.
  - intros e x'. by apply rw_changes.
  - apply (wf_shielded x), Hx.
Qed.

(** The steps of a run that give a read guard away. *)
Fixpoint read_entries x (es : list (nat * action rw_op (T -> T))) : nat :=
  match es with
  | [] => 0
  | e :: es => match step x e with
               | Ret x' => (tally rd (harts x') - tally rd (harts x)) + read_entries x' es
               | Panic => 0
               end
  end.

(** [Q] holds in all states of a run. *)
Fixpoint always (Q : sys (RwLock T) rw_pc -> Prop) x (es : list (nat * action rw_op (T -> T))) : Prop :=
  Q x /\ match es with
         | [] => True
         | e :: es => match step x e with Ret x' => always Q x' es | Panic => True end
         end.

Lemma window_step x e x' : rw_inv x -> waiting_writers (shared x) <> 0 -> step x e = Ret x' ->
  (tally rd (harts x') - tally rd (harts x) + tally win (harts x') <= tally win (harts x))%nat.
Proof.
  destruct e as [i a]. intros Hx Hq Es. unfold step in Es. cbn in Es.
  destruct (harts x !! i) as [h|] eqn:Hi; [|injection Es as <-; lia].
  destruct (hstep i a (shared x) h) as [[s' h']|] eqn:Eh; cbn in Es; [|done]. injection Es as <-. cbn [harts].
  destruct Hx as (_ & Hw & _). apply hstep_cases in Eh; [|by apply (proj1 (Forall_lookup _ _) Hw i)].
  pose proof (tally_insert rd (harts x) i h h' Hi) as W1.
  pose proof (tally_insert win (harts x) i h h' Hi) as W2.
  pose proof (tally_ge rd (harts x) i h Hi) as G1. pose proof (tally_ge win (harts x) i h Hi) as G2.
  unfold weigh in *.
  destruct a as [o| |u| |], (h_top h) as [p|]; first [destruct Eh as (_ & Et) | destruct Eh as (m & Em & Et)];
    rewrite Et in *; try (cbn in *; lia); [destruct o; cbn in *; lia|].
  cbn in Em. unfold rw_step in Em. injection Em as Em.
  destruct p; cbn in Em; unfold compare_exchange in Em; repeat case_decide; repeat case_match; simplify_eq;
    cbn in *; done || lia.
Qed.

(** A waiting writer is overtaken a bounded number of times: while the writer
    on hart [w] waits for the lock, the read guards given away are at most as
    many as there were readers past their check of [waiting_writers] when it
    began, each hart at most once, however many readers keep arriving. *)
Theorem RwLock_writer_first v n es0 x w es : Z.of_nat n < 2 ^ 62 ->
  steps (boot (RwLock_new v) n) es0 = Ret x ->
  always (fun y => exists b, at_pc y w (WriteEnter b)) x es ->
  (read_entries x es <= tally win (harts x))%nat /\ (tally win (harts x) < n)%nat.
Proof.
  intros Hn Es Ha. destruct (steps_inv rw_inv rw_inv_step es0 _ (rw_inv_boot v n Hn)) as (y & E & Hx).
  rewrite Es in E. injection E as <-. split.
  - clear Es. revert x Hx Ha. induction es as [|e es IH]; intros x Hx Ha; cbn [read_entries]; [lia|].
    destruct Ha as [(b & h & Hi & Hh) Ha]. destruct (rw_inv_step x e Hx) as (x' & E & Hx').
    rewrite E in *. specialize (IH x' Hx' Ha). pose proof (window_step x e x' Hx) as Hs.
    enough (waiting_writers (shared x) <> 0) by (specialize (Hs ltac:(done) E); lia).
    destruct Hx as (_ & _ & _ & _ & _ & _ & Hw).
    pose proof (tally_ge an _ w h Hi) as G. unfold weigh in G. rewrite Hh in G. cbn in G. lia.
  - apply steps_length in Es. cbn in Es. rewrite length_replicate in Es. subst n.
    assert (G : (0 < tally an (harts x))%nat).
    { destruct es; destruct Ha as [(b & h & Hi & Hh) _]; pose proof (tally_ge an _ w h Hi) as G;
        unfold weigh in G; rewrite Hh in G; cbn in G; lia. }
    pose proof (tally_le (fun p => win p + an p)%nat 1 (harts x) ltac:(intros []; cbn; lia)) as L.
    rewrite tally_add in L. lia.
Qed.


End Rw.

(** ** Examples *)

(** Two harts: a reader past its check, then a writer on the other hart, which
    has to let the reader in. *)
Definition race : list (nat * action rw_op (Z -> Z)) :=
  [(0%nat, Call OpRead); (0%nat, Run); (0%nat, Run); (1%nat, Call OpWrite); (1%nat, Run)].

Lemma RwLock_excl_witness : Z.of_nat 2 < 2 ^ 62 /\
  exists x, steps (boot (RwLock_new 7) 2) race = Ret x /\ shielded x.
Proof.
  split; [lia|]. destruct (RwLock_excl 7 2 race ltac:(lia)) as (x & E & _ & _ & H). by exists x.
Defined.

Definition overtaken : sys (RwLock Z) rw_pc :=
  mkSys (mkRwLock 0 1 7)
    [mkHart false (Some (ReadEnter true 0 2)) []; mkHart false (Some (WriteEnter true)) []].

Lemma RwLock_writer_first_witness :
  steps (boot (RwLock_new 7) 2) race = Ret overtaken /\
  read_entries overtaken [(0%nat, Run); (1%nat, Run)] = 1%nat /\
  (read_entries overtaken [(0%nat, Run); (1%nat, Run)] <= tally win (harts overtaken))%nat.
Proof.
  split; [reflexivity|]. split; [reflexivity|].
  apply (RwLock_writer_first 7 2 race overtaken 1 [(0%nat, Run); (1%nat, Run)]); [lia|reflexivity|].
  repeat (split; [eexists _, _; split; reflexivity|]). exact I.
Defined.


Lemma SpinLock_ok_witness : exists x, steps (boot (SpinLock_new 7) 2)
  [(0%nat, Call tt); (0%nat, Irq); (0%nat, Run); (1%nat, Call tt); (1%nat, Run)] = Ret x /\ shielded x.
Proof.
  destruct (SpinLock_ok 7 2 [(0%nat, Call tt); (0%nat, Irq); (0%nat, Run); (1%nat, Call tt); (1%nat, Run)])
    as (x & E & _ & _ & H & _). by exists x.
Defined.
