(* ===== verification/Once.v ===== *)
(** * One-time initialisation and per-hart data

    [OnceLock] ([src/sync/once.rs]), [LazyLock] ([src/sync/lazy.rs]) and [PerCpu]
    ([src/sync/per_cpu.rs]) on the machine of [Harts]. The initialisation closure
    acts on an environment of its own, which is part of the shared state, so that
    running it twice would show. [OnceLock] does not touch the interrupt bit:
    here a flow may be interrupted anywhere, and every flow of every hart counts. *)

From stdpp Require Import base list numbers.
From S2P Require Import Prelude Harts Locks.

(** ** [OnceLock] *)

Definition UNINITIALIZED : Z := 0.
Definition INITIALIZING : Z := 1.
Definition INITIALIZED : Z := 2.

(** [value] is uninitialised memory before the first write. *)
Record OnceLock (T : Type) : Type := mkOnceLock { ol_status : Z; ol_value : option T }.
Arguments mkOnceLock {T} _ _.
Arguments ol_status {T} _.
Arguments ol_value {T} _.

Definition OnceLock_new {T} : OnceLock T := mkOnceLock UNINITIALIZED None.

Inductive once_op : Type := OpGet | OpGetOrInit.

(** [get]: the load of [status], the read of the value. [get_or_init]: the same
    two, the [compare_exchange], the closure, the write of the value, the store
    of [status], the read of the value. The [Done] counters hold the result;
    reading uninitialised memory would give [None] in [GotValue] and [Done]. *)
Inductive once_pc (T : Type) : Type :=
| GetLoad
| GetRead
| GotNone
| GotValue (r : option T)
| InitGet
| InitRace
| InitRun
| InitWrite (val : T)
| InitStore
| InitRead
| InitDone (r : option T).
Arguments GetLoad {T}.
Arguments GetRead {T}.
Arguments GotNone {T}.
Arguments GotValue {T} _.
Arguments InitGet {T}.
Arguments InitRace {T}.
Arguments InitRun {T}.
Arguments InitWrite {T} _.
Arguments InitStore {T}.
Arguments InitRead {T}.
Arguments InitDone {T} _.

Section OnceDef.
Context {T E : Type} (f : E -> outcome (T * E)).

Definition OnceLock_get_step (s : OnceLock T) (p : once_pc T) : once_pc T + bool :=
  match p with
  | GetLoad => inl (if decide (ol_status s <> INITIALIZED) then GotNone else GetRead)
  | GetRead => inl (GotValue (ol_value s))
  | _ => inr false
  end.

Definition OnceLock_get_or_init_step (s : OnceLock T * E) (p : once_pc T) :
    outcome ((OnceLock T * E) * (once_pc T + bool)) :=
  let '(l, env) := s in
  match p with
  | InitGet => Ret (s, inl (if decide (ol_status l <> INITIALIZED) then InitRace else InitRead))
  | InitRace =>
      let current := ol_status l in
      let '(st, ok) := compare_exchange current UNINITIALIZED INITIALIZING in
      Ret (mkOnceLock st (ol_value l), env,
           inl (if ok : bool then InitRun
                else if decide (current = INITIALIZED) then InitRead else InitRace))
  | InitRun => '(val, env') ← f env; Ret (l, env', inl (InitWrite val))
  | InitWrite val => Ret (mkOnceLock (ol_status l) (Some val), env, inl InitStore)
  | InitStore => Ret (mkOnceLock INITIALIZED (ol_value l), env, inl InitRead)
  | InitRead => Ret (s, inl (InitDone (ol_value l)))
  | p => Ret (s, OnceLock_get_step l p)
  end.

#[local] Instance OnceLock_proto : Proto (OnceLock T * E) (once_pc T) once_op unit := {|
  p_masks := false;
  p_start := fun o _ => match o with OpGet => GetLoad | OpGetOrInit => InitGet end;
  p_step := fun _ => OnceLock_get_or_init_step;
  p_use := fun _ s _ _ => s;
|}.

(** All flows of a system, running and suspended. *)
Definition hart_flows {P} (h : hart P) : list (option P) := h_top h :: h_below h.
Definition flows {P} (hs : list (hart P)) : list (option P) := concat (hart_flows <$> hs).

Lemma flows_insert {P} (hs : list (hart P)) i h : hs !! i = Some h -> exists rest,
  flows hs ≡ₚ hart_flows h ++ rest /\ forall h', flows (<[i := h']> hs) ≡ₚ hart_flows h' ++ rest.
Proof.
  intros Hi. exists (flows (take i hs) ++ flows (drop (S i) hs)).
  assert (Hf : forall h' l1 l2, @flows P (l1 ++ h' :: l2) ≡ₚ hart_flows h' ++ flows l1 ++ flows l2).
  { intros h' l1 l2. unfold flows. rewrite fmap_app, concat_app, fmap_cons. cbn [concat].
    rewrite Permutation_app_comm, <- app_assoc. apply Permutation_app_head, Permutation_app_comm. }
  split.
  - rewrite <- (take_drop_middle hs i h Hi) at 1. apply Hf.
  - intros h'. rewrite insert_take_drop by by eapply lookup_lt_Some. apply Hf.
Qed.

Lemma flows_in {P} (h : hart P) hs q : h ∈ hs -> q ∈ hart_flows h -> q ∈ flows hs.
Proof. intros Hh Hq. induction Hh; unfold flows in *; cbn; set_solver. Qed.

(** The environment before and after the one run of the closure. *)
Context (e0 e1 : E) (v : T) (Hf : f e0 = Ret (v, e1)).

(** Flows that have won the race and not yet published the value. *)
Definition busy (t : option (once_pc T)) : nat :=
  match t with Some InitRun | Some (InitWrite _) | Some InitStore => 1 | _ => 0 end.

Definition flow_ok (s : OnceLock T * E) (t : option (once_pc T)) : Prop :=
  match t with
  | Some InitRun => ol_status s.1 = INITIALIZING /\ s.2 = e0
  | Some (InitWrite w) => ol_status s.1 = INITIALIZING /\ s.2 = e1 /\ w = v
  | Some InitStore => ol_status s.1 = INITIALIZING /\ s.2 = e1 /\ ol_value s.1 = Some v
  | Some GetRead | Some InitRead => ol_status s.1 = INITIALIZED
  | Some (GotValue r) | Some (InitDone r) => ol_status s.1 = INITIALIZED /\ r = Some v
  | _ => True
  end.

(** The shared state with [b] busy flows. *)
Definition once_ok (s : OnceLock T * E) (b : nat) : Prop :=
  ol_status s.1 = UNINITIALIZED /\ b = O /\ s.2 = e0 \/
  ol_status s.1 = INITIALIZING /\ b = 1%nat \/
  ol_status s.1 = INITIALIZED /\ b = O /\ s.2 = e1 /\ ol_value s.1 = Some v.

Lemma once_step_ok s p b : once_ok s (b + busy (Some p)) -> flow_ok s (Some p) ->
  exists s' n, OnceLock_get_or_init_step s p = Ret (s', n) /\
    let t := match n with inl p' => Some p' | inr _ => None end in
    once_ok s' (b + busy t) /\ flow_ok s' t /\
    forall q, flow_ok s q -> (busy q <= b)%nat -> flow_ok s' q.
Proof.
  intros Ho Hp.
  assert (K : forall n, let t := match n with inl p' => Some p' | inr _ => None end in
    OnceLock_get_or_init_step s p = Ret (s, n) -> busy t = busy (Some p) -> flow_ok s t ->
    exists s' n, OnceLock_get_or_init_step s p = Ret (s', n) /\
      let t := match n with inl p' => Some p' | inr _ => None end in
      once_ok s' (b + busy t) /\ flow_ok s' t /\
      forall q, flow_ok s q -> (busy q <= b)%nat -> flow_ok s' q).
  { intros n t En Hb Ht. exists s, n. rewrite En. cbn zeta. fold t. by rewrite Hb. }
  destruct s as [[st val] env]. unfold once_ok in Ho.
  destruct p as [| | |r| | | |w| | |r]; cbn [flow_ok busy fst snd ol_status ol_value] in Hp, Ho.
  - cbn in *. case_decide; [by apply (K (inl GotNone))|]. apply (K (inl GetRead)); cbn; tauto.
  - apply (K (inl (GotValue val))); [done|done|]. cbn. rewrite Hp in *. destruct Ho as [?|[?|?]]; naive_solver.
  - by apply (K (inr false)).
  - by apply (K (inr false)).
  - cbn in *. case_decide; [by apply (K (inl InitRace))|]. apply (K (inl InitRead)); cbn; tauto.
  - cbn in *. unfold compare_exchange in *. case_decide as E0.
    + eexists _, _. split; [reflexivity|]. subst st. cbn. destruct Ho as [(_ & Ho & He)|[[[=] _]|[[=] _]]].
      assert (b = O) as -> by lia. subst env. split; [right; left; done|]. split; [done|].
      intros [[]|] Hq; cbn in *; unfold UNINITIALIZED, INITIALIZING, INITIALIZED in *; try done; try lia; naive_solver lia.
    + case_decide; [by apply (K (inl InitRead))|by apply (K (inl InitRace))].
  - destruct Hp as [-> ->]. cbn in *. rewrite Hf. cbn. eexists _, _. split; [reflexivity|]. cbn.
    destruct Ho as [[[=] _]|[[_ Ho]|[[=] _]]]. assert (b = O) as -> by lia. split; [right; left; done|]. split; [done|].
    intros [[]|] Hq Hb; cbn in *; naive_solver lia.
  - destruct Hp as (-> & -> & ->). cbn in *. eexists _, _. split; [reflexivity|]. cbn.
    destruct Ho as [[[=] _]|[[_ Ho]|[[=] _]]]. assert (b = O) as -> by lia. split; [right; left; done|]. split; [done|].
    intros [[]|] Hq Hb; cbn in *; naive_solver lia.
  - destruct Hp as (-> & -> & ->). cbn in *. eexists _, _. split; [reflexivity|]. cbn.
    destruct Ho as [[[=] _]|[[_ Ho]|[[=] _]]]. assert (b = O) as -> by lia. split; [right; right; done|]. split; [done|].
    intros [[]|] Hq Hb; cbn in *; naive_solver lia.
  - apply (K (inl (InitDone val))); [done|done|]. cbn. rewrite Hp in *. destruct Ho as [?|[?|?]]; naive_solver.
  - by apply (K (inr false)).
Qed.

Definition once_inv (x : sys (OnceLock T * E) (once_pc T)) : Prop :=
  Forall (flow_ok (shared x)) (flows (harts x)) /\
  once_ok (shared x) (sum_list (busy <$> flows (harts x))).


(** Only the flows matter, not the harts they are on. *)
Definition flows_ok (s : OnceLock T * E) (fl : list (option (once_pc T))) : Prop :=
  Forall (flow_ok s) fl /\ once_ok s (sum_list (busy <$> fl)).

Lemma sum_perm l l' : l ≡ₚ l' -> sum_list l = sum_list l'.
Proof. induction 1; cbn; lia. Qed.

Lemma flows_ok_perm s fl fl' : fl ≡ₚ fl' -> flows_ok s fl -> flows_ok s fl'.
Proof.
  intros Hp [H1 H2]. split; [by rewrite <- Hp|]. by rewrite <- (sum_perm _ _ (fmap_Permutation busy _ _ Hp)).
Qed.

Lemma busy_in q fl : q ∈ fl -> (busy q <= sum_list (busy <$> fl))%nat.
Proof. induction 1; cbn; lia. Qed.

Lemma flows_ok_step s p fl : flows_ok s (Some p :: fl) -> exists s' n,
  OnceLock_get_or_init_step s p = Ret (s', n) /\
  flows_ok s' (match n with inl p' => Some p' | inr _ => None end :: fl).
Proof.
  intros [H1 H2]. apply Forall_cons in H1 as [Hp Hr]. rewrite fmap_cons in H2. cbn [sum_list] in H2.
  destruct (once_step_ok s p (sum_list (busy <$> fl))) as (s' & n & En & Ho & Ht & Hq); [|done|].
  { by rewrite Nat.add_comm. }
  exists s', n. split; [done|]. split.
  - constructor; [done|]. rewrite !Forall_forall in *. intros q Hi. apply Hq; [by apply Hr|by apply busy_in].
  - rewrite fmap_cons. cbn [sum_list]. by rewrite Nat.add_comm.
Qed.

Lemma once_inv_step x e : once_inv x -> exists x', step x e = Ret x' /\ once_inv x'.
Proof.
  revert x e. apply inv_by_hart. intros x i a h Hx Hi.
  destruct (flows_insert _ i h Hi) as (rest & P1 & P2).
  assert (Hx' : flows_ok (shared x) (h_top h :: h_below h ++ rest)) by by apply (flows_ok_perm _ _ _ P1).
  cut (exists s' h', hstep i a (shared x) h = Ret (s', h') /\ flows_ok s' (h_top h' :: h_below h' ++ rest)).
  { intros (s' & h' & Eh & Hok). exists s', h'. split; [done|]. apply (flows_ok_perm s' (hart_flows h' ++ rest)); [|done].
    symmetry. apply P2. }
  clear P1 P2. unfold hstep. destruct a as [o| |u| |]; destruct (h_top h) as [p|] eqn:Et.
  all: try (eexists _, _; split; [reflexivity|]; by rewrite ?Et).
  - eexists _, _. split; [reflexivity|]. destruct Hx' as [H1 H2]. apply Forall_cons in H1 as [_ H1].
    destruct o; (split; [by constructor|exact H2]).
  - destruct (flows_ok_step _ _ _ Hx') as (s' & n & En & Hok). change (p_step i (shared x) p) with
      (OnceLock_get_or_init_step (shared x) p). rewrite En. cbn. eexists _, _. split; [reflexivity|].
    by destruct n.
  - eexists _, _. split; [reflexivity|]. destruct (h_sie h); cbn; [|by rewrite Et].
    destruct Hx' as [H1 H2]. split; [by constructor|done].
  - eexists _, _. split; [reflexivity|]. destruct (h_sie h); cbn; [|by rewrite Et].
    destruct Hx' as [H1 H2]. split; [by constructor|done].
  - eexists _, _. split; [reflexivity|]. destruct (h_below h) as [|t b] eqn:Eb; cbn; [by rewrite Et, Eb|].
    destruct Hx' as [H1 H2]. apply Forall_cons in H1 as [_ H1]. split; done.
Qed.

Lemma once_inv_boot n : once_inv (boot (OnceLock_new, e0) n).
Proof.
  assert (Hr : flows (replicate n (mkHart (P:=once_pc T) true None [])) = replicate n None).
  { induction n; [done|]. cbn. by f_equal. }
  unfold once_inv. cbn [harts shared boot]. rewrite Hr. split; [by apply Forall_replicate|].
  left. split_and!; [done| |done]. clear Hr. by induction n.
Qed.

(** What every reachable state satisfies. *)
Definition once_safe (x : sys (OnceLock T * E) (once_pc T)) : Prop :=
  ((shared x).2 = e0 \/ (shared x).2 = e1) /\
  (forall h r, h ∈ harts x -> Some (GotValue r) ∈ hart_flows h \/ Some (InitDone r) ∈ hart_flows h ->
     r = Some v /\ (shared x).2 = e1) /\
  (ol_status (shared x).1 = INITIALIZED -> ol_value (shared x).1 = Some v).

Lemma once_reach n es : exists x, steps (boot (OnceLock_new, e0) n) es = Ret x /\ once_safe x.
Proof.
  destruct (steps_inv once_inv once_inv_step es _ (once_inv_boot n)) as (x & Es & Hx).
  exists x. split; [done|]. destruct Hx as [H1 H2].
  assert (Henv : (shared x).2 = e0 \/ (shared x).2 = e1).
  { destruct H2 as [?|[[Hs Hb]|?]]; [tauto| |tauto].
    assert (Hq : exists q, q ∈ flows (harts x) /\ (0 < busy q)%nat).
    { clear -Hb. induction (flows (harts x)) as [|q l IH]; cbn in Hb; [lia|].
      destruct (decide (0 < busy q)%nat); [exists q; split; [left|]; done|].
      destruct IH as (q' & ? & ?); [lia|]. exists q'. split; [by right|done]. }
    destruct Hq as (q & Hi & Hq). rewrite Forall_forall in H1. specialize (H1 q Hi).
    destruct q as [[]|]; cbn in *; try lia; tauto. }
  assert (Hdone : ol_status (shared x).1 = INITIALIZED -> ol_value (shared x).1 = Some v /\ (shared x).2 = e1).
  { intros Hs. destruct H2 as [(H & _)|[[H _]|(_ & _ & ? & ?)]]; [rewrite H in Hs; done..|done]. }
  split_and!; [done| |by intros Hs; apply Hdone].
  intros h r Hh Hr. assert (Hin : Some (GotValue r) ∈ flows (harts x) \/ Some (InitDone r) ∈ flows (harts x)).
  { destruct Hr; [left|right]; by apply (flows_in h). }
  rewrite Forall_forall in H1.
  destruct Hin as [Hin|Hin]; apply H1 in Hin as [Hs ->]; (split; [done|by apply Hdone]).
Qed.

End OnceDef.

(** ** [LazyLock] *)

(** The closure of [force]: it takes the initialiser out of its cell and panics
    when it is gone. *)
Definition LazyLock_force_init {T} (init : option (unit -> T)) : outcome (T * option (unit -> T)) :=
  f ← expect init; Ret (f tt, None).

(** [LazyLock { cell, init }]. *)
Definition LazyLock_new {T} (f : unit -> T) : OnceLock T * option (unit -> T) := (OnceLock_new, Some f).

(** C27. [get_or_init] on any number of flows, on any harts and in nested
    interrupt handlers, in any interleaving: the closure runs at most once (its
    environment is the one before or the one after a single run), it does not
    panic, and whoever gets a value, from [get] or from [get_or_init], gets the
    one the closure returned; uninitialised memory is never read. For [LazyLock]
    this means that the initialiser is there when [force] takes it, and that all
    callers get its value. *)
Theorem OnceLock_once {T E : Type} (f : E -> outcome (T * E)) e0 e1 v n :
  f e0 = Ret (v, e1) ->
  (forall es, exists x, steps (PR := OnceLock_proto f) (boot (OnceLock_new, e0) n) es = Ret x /\
     once_safe e0 e1 v x) /\
  (forall (g : unit -> T) es, exists x,
     steps (PR := OnceLock_proto LazyLock_force_init) (boot (LazyLock_new g) n) es = Ret x /\
     once_safe (Some g) None (g tt) x).
Proof.
  intros Hf. split; [intros es; by apply once_reach|].
  intros g es. by apply (once_reach LazyLock_force_init (Some g) None (g tt)).
Qed.

(** A counter as environment: a second run would return 1. *)
Lemma OnceLock_once_witness : exists x,
  steps (PR := OnceLock_proto (fun k : Z => Ret (k, k + 1))) (boot (OnceLock_new, 0) 2)
    [(0%nat, Call OpGetOrInit); (1%nat, Call OpGetOrInit); (0%nat, Run); (1%nat, Run); (0%nat, Run);
     (1%nat, Run); (0%nat, Run); (0%nat, Irq)] = Ret x /\ once_safe 0 1 0 x.
Proof. apply (OnceLock_once (fun k : Z => Ret (k, k + 1)) 0 1 0 2 eq_refl). Defined.

(** ** [PerCpu] *)

(** [current]: the indexing with [tp] after interrupts are off; the guard, whose
    [Drop] only restores them. *)
Inductive cpu_pc : Type := CpuIndex (sie : bool) | CpuGuard (sie : bool) (slot : nat).

(** One slot per hart; the boot code has put the number of the hart into [tp]. *)
Definition cpu_step {T} (tp : nat) (data : list T) (p : cpu_pc) : outcome (list T * (cpu_pc + bool)) :=
  match p with
  | CpuIndex sie => _ ← expect (data !! tp); Ret (data, inl (CpuGuard sie tp))
  | CpuGuard sie _ => Ret (data, inr sie)
  end.

Definition cpu_use {T} (tp : nat) (data : list T) (p : cpu_pc) (u : T -> T) : list T :=
  match p with
  | CpuGuard _ slot => alter u slot data
  | _ => data
  end.

#[export] Instance PerCpu_proto {T} : Proto (list T) cpu_pc unit (T -> T) := {|
  p_masks := true;
  p_start := fun _ sie => CpuIndex sie;
  p_step := cpu_step;
  p_use := cpu_use;
|}.

#[export] Instance PerCpu_mask {T} : ProtoMask (list T) cpu_pc unit (T -> T).
Proof.
  refine {| p_saved := fun p => match p with CpuIndex b | CpuGuard b _ => b end |}; [done|done|].
  intros i s [b|b k] s' n E; cbn in E; [destruct (s !! i); cbn in E|]; by simplify_eq.
Defined.

Section Cpu.
Context {T : Type}.
Implicit Types (x : sys (list T) cpu_pc) (v : T).

Definition cpu_inv (N : nat) x : Prop :=
  length (shared x) = N /\ (length (harts x) <= N)%nat /\ Forall (hart_wf (S:=list T)) (harts x) /\
  forall i b k, at_pc x i (CpuGuard b k) -> k = i.

Lemma cpu_inv_step N x e : cpu_inv N x -> exists x', step x e = Ret x' /\ cpu_inv N x' /\
  forall j, j <> e.1 -> shared x' !! j = shared x !! j.
Proof.
  destruct e as [i a]. intros (HN & Hn & Hw & Hg). unfold step. cbn.
  destruct (harts x !! i) as [h|] eqn:Hi; [|by exists x].
  pose proof (proj1 (Forall_lookup _ _) Hw i h Hi) as Hh.
  assert (Eh : exists s' h', hstep i a (shared x) h = Ret (s', h')).
  { unfold hstep. destruct a, (h_top h) as [[b|b k]|]; cbn; eauto.
    destruct (lookup_lt_is_Some_2 (shared x) i) as [y ->]; [apply lookup_lt_Some in Hi; lia|]. cbn. eauto. }
  destruct Eh as (s' & h' & Eh). rewrite Eh. cbn. eexists. split; [reflexivity|].
  pose proof (hstep_wf _ _ _ _ _ _ Hh Eh) as Hh'. apply (hstep_cases _ _ _ _ _ _ Hh) in Eh.
  assert (Hs : length s' = length (shared x) /\ (forall b k, h_top h' = Some (CpuGuard b k) -> k = i) /\
    forall j, j <> i -> s' !! j = shared x !! j).
  { destruct a, (h_top h) as [[b|b k]|] eqn:Et;
      first [destruct Eh as (-> & Et') | destruct Eh as (m & Em & Et'); cbn in Em];
      try (destruct (shared x !! i); cbn in Em); simplify_eq; rewrite Et'; split_and!;
      try naive_solver; cbn [p_use PerCpu_proto cpu_use]; rewrite ?length_alter; try done;
      try (by intros b0 k0 Ek; injection Ek as <- <-; apply (Hg i b k); exists h).
    intros j Hj. rewrite list_lookup_alter_ne; [done|]. rewrite (Hg i b k); [done|]. by exists h. }
  destruct Hs as (L & Hk & Ho). split; [|exact Ho]. split_and!; cbn; [lia|by rewrite length_insert|by apply Forall_insert|].
  intros j b k (h1 & Hj & Ht). cbn in Hj. destruct (decide (i = j)) as [<-|Hij].
  - rewrite list_lookup_insert_eq in Hj by by eapply lookup_lt_Some. simplify_eq. by apply (Hk b).
  - rewrite list_lookup_insert_ne in Hj by done. apply (Hg j b k). by exists h1.
Qed.

(** With at least as many slots as harts, [current] never goes out of bounds,
    in any interleaving; a step of one hart leaves the slots of all others as
    they are; and a flow that holds a guard is not interrupted. *)
Theorem PerCpu_private (items : list T) n es : (n <= length items)%nat ->
  exists x, steps (PR := PerCpu_proto) (boot items n) es = Ret x /\ shielded x /\
    forall e x', step (PR := PerCpu_proto) x e = Ret x' -> forall j, j <> e.1 -> shared x' !! j = shared x !! j.
Proof.
  intros Hn.
  assert (Hinv : forall x e, cpu_inv (length items) x ->
    exists x', step x e = Ret x' /\ cpu_inv (length items) x').
  { intros x e Hx. destruct (cpu_inv_step _ x e Hx) as (x' & ? & ? & _). eauto. }
  destruct (steps_inv _ Hinv es (boot items n)) as (x & E & Hx).
  - split_and!; cbn; [done|by rewrite length_replicate|apply (boot_wf items)|].
    intros i b k (h & Hi & Ht). apply lookup_replicate in Hi as [-> _]. done.
  - exists x. split; [done|]. split; [apply (wf_shielded x), Hx|].
    intros e x' E'. destruct (cpu_inv_step _ x e Hx) as (x1 & E1 & _ & Hj).
    rewrite E1 in E'. by injection E' as <-.
Qed.

End Cpu.

Lemma PerCpu_private_witness : (2 <= length [10; 20])%nat /\
  exists x, steps (boot [10; 20] 2) [(1%nat, Call tt); (1%nat, Run); (1%nat, Use Z.succ); (1%nat, Run)] = Ret x /\
    shielded x.
Proof.
  split; [cbn; lia|].
  destruct (PerCpu_private [10; 20] 2 [(1%nat, Call tt); (1%nat, Run); (1%nat, Use Z.succ); (1%nat, Run)]) as (x & E & H & _);
    [cbn; lia|]. by exists x.
Defined.
