(* ===== verification/Slub.v ===== *)
(** * Slub: the kernel heap ([src/mm/allocator/slub.rs])

    The object allocator behind the global allocator of the kernel: size classes
    of 16 to 2048 bytes, each a [Cache] of pages cut into equal objects, larger
    requests served by the frame allocator. The headers of the pages, the links
    between pages and the free lists inside them live in the memory of the pages
    themselves, so every operation acts on the heap of [Buddy] and takes frames
    from a [FrameSource]. A [SlubPage] is six words in the order of its
    declaration. *)

From stdpp Require Import gmap.
From S2P Require Import Prelude Buddy FrameAlloc.

Definition SLUB_MAX_ORDER : Z := 12.
Definition SLUB_MIN_ORDER : Z := 4.
Definition CACHES_MAX : Z := SLUB_MAX_ORDER - SLUB_MIN_ORDER.
Definition SLUB_MIN_OBJECTS : Z := 4.
Definition SLUB_MAX_PAGE_SIZE : Z := Z.shiftl 1 20.

(** ** [SlubPage]: the addresses of its fields *)

Definition f_page_size (p : Z) : Z := p.
Definition f_next (p : Z) : Z := p + 8.
Definition f_free_list (p : Z) : Z := p + 16.
Definition f_inuse (p : Z) : Z := p + 24.
Definition f_objects (p : Z) : Z := p + 32.
Definition f_page_start (p : Z) : Z := p + 40.

(** [size_of::<SlubPage>()] *)
Definition header_size : Z := 48.

(** ** [SlubPageList]: the address of its first page; 0 is the null pointer *)

Definition SlubPageList_new : Z := 0.

Definition SlubPageList_is_empty (head : Z) : bool := head =? 0.

Definition SlubPageList_push (h : heap) (head node : Z) : outcome (heap * Z) :=
  h ← store h (f_next node) head;
  mret (h, node).

Definition SlubPageList_pop (h : heap) (head : Z) : outcome (option Z * Z) :=
  if SlubPageList_is_empty head then mret (None, head)
  else n ← load h (f_next head); mret (Some head, n).

Fixpoint page_remove_loop (fuel : nat) (h : heap) (current item : Z) : outcome (bool * heap) :=
  match fuel with
  | O => Panic
  | S fuel =>
      if current =? 0 then mret (false, h)
      else
        next ← load h (f_next current);
        if next =? item then
          n ← load h (f_next next);
          h ← store h (f_next current) n;
          mret (true, h)
        else
          c ← load h (f_next current);
          page_remove_loop fuel h c item
  end.

Definition SlubPageList_remove (h : heap) (head item : Z) : outcome (bool * heap * Z) :=
  if head =? 0 then mret (false, h, head)
  else if head =? item then n ← load h (f_next head); mret (true, h, n)
  else '(b, h) ← page_remove_loop (S (size h)) h head item; mret (b, h, head).

(** [SlubPageListIterMut::next]. *)
Definition SlubPageListIter_next (h : heap) (current : Z) : outcome (option Z * Z) :=
  if current =? 0 then mret (None, current)
  else n ← load h (f_next current); mret (Some current, n).

(** ** Operations on one page *)

Definition SlubPage_is_full (h : heap) (p : Z) : outcome bool :=
  inuse ← load h (f_inuse p);
  objects ← load h (f_objects p);
  mret (inuse =? objects).

Definition SlubPage_is_empty (h : heap) (p : Z) : outcome bool :=
  inuse ← load h (f_inuse p);
  mret (inuse =? 0).

Definition SlubPage_alloc_obj (h : heap) (p : Z) : outcome (option Z * heap) :=
  fl ← load h (f_free_list p);
  if IntrusiveList_is_empty fl then mret (None, h)
  else
    '(r, fl) ← IntrusiveList_pop h fl;
    h ← store h (f_free_list p) fl;
    match r with
    | None => mret (None, h)
    | Some o =>
        inuse ← load h (f_inuse p);
        inuse ← usize_add inuse 1;
        h ← store h (f_inuse p) inuse;
        mret (Some o, h)
    end.

Definition SlubPage_dealloc_obj (h : heap) (p ptr : Z) : outcome heap :=
  fl ← load h (f_free_list p);
  '(h, fl) ← IntrusiveList_push h fl ptr;
  h ← store h (f_free_list p) fl;
  inuse ← load h (f_inuse p);
  inuse ← usize_sub inuse 1;
  store h (f_inuse p) inuse.

(** The page size: at least a page, large enough for one object, and doubled
    once when it holds few of them. *)
Fixpoint grow_page (fuel : nat) (page_size min_page_size : Z) : outcome Z :=
  match fuel with
  | O => Panic
  | S fuel => if page_size <? min_page_size then grow_page fuel (page_size * 2) min_page_size
              else mret page_size
  end.

Definition slub_page_size (object_size start_offset : Z) : outcome Z :=
  let min_page_size := start_offset + object_size in
  page_size ← grow_page 64 PAGE_SIZE min_page_size;
  let desired_objects := page_size / object_size in
  if (desired_objects <? SLUB_MIN_OBJECTS) && (page_size <? SLUB_MAX_PAGE_SIZE) then
    let new_page_size := page_size * 2 in
    mret (if 2 <=? new_page_size / object_size then new_page_size else page_size)
  else mret page_size.

(** The loop that links the objects of a new page into its free list. *)
Fixpoint cut_objects (fuel : nat) (h : heap) (p pos object_size page_end count : Z) : outcome (heap * Z) :=
  if pos + object_size <=? page_end then
    match fuel with
    | O => Panic
    | S fuel =>
        fl ← load h (f_free_list p);
        '(h, fl) ← IntrusiveList_push h fl pos;
        h ← store h (f_free_list p) fl;
        cut_objects fuel h p (pos + object_size) object_size page_end (count + 1)
    end
  else mret (h, count).

Definition write_header (h : heap) (p page_size : Z) : outcome heap :=
  h ← store h (f_page_size p) page_size;
  h ← store h (f_inuse p) 0;
  h ← store h (f_next p) 0;
  h ← store h (f_free_list p) IntrusiveList_new;
  h ← store h (f_objects p) 0;
  store h (f_page_start p) p.

Record Cache : Type := mkCache { objects_size : Z; partial_slubs : Z; full_slubs : Z }.

Definition Cache_new (objects_size : Z) : Cache := mkCache objects_size SlubPageList_new SlubPageList_new.

Definition Cache_is_full (self : Cache) : bool := SlubPageList_is_empty (partial_slubs self).

(** The page that contains [ptr], in the order of the list. *)
Fixpoint find_page (fuel : nat) (h : heap) (current ptr : Z) : outcome (option Z) :=
  match fuel with
  | O => Panic
  | S fuel =>
      '(r, current) ← SlubPageListIter_next h current;
      match r with
      | None => mret None
      | Some i =>
          page_start ← load h (f_page_start i);
          page_size ← load h (f_page_size i);
          if (page_start <=? ptr) && (ptr <? page_start + page_size) then mret (Some i)
          else find_page fuel h current ptr
      end
  end.

Section Slub.
Context {A : Type} {FS : FrameSource A}.

Definition SlubPage_new (h : heap) (a : A) (object_size : Z) : outcome (option Z * heap * A) :=
  start_offset ← align header_size object_size;
  page_size ← slub_page_size object_size start_offset;
  '(r, h, a) ← fs_alloc h a (Some page_size);
  match r with
  | None => mret (None, h, a)
  | Some f =>
      let page := fr_start f in
      h ← write_header h page page_size;
      '(h, count) ← cut_objects (Z.to_nat page_size) h page (page + start_offset) object_size
                      (page + page_size) 0;
      h ← store h (f_objects page) count;
      mret (Some page, h, a)
  end.

Definition Cache_alloc (h : heap) (a : A) (self : Cache) : outcome (option Z * heap * A * Cache) :=
  if negb (SlubPageList_is_empty (partial_slubs self)) then
    let page := partial_slubs self in
    '(r, h) ← SlubPage_alloc_obj h page;
    match r with
    | None => mret (None, h, a, self)
    | Some ptr =>
        full ← SlubPage_is_full h page;
        if full : bool then
          '(n, partial) ← SlubPageList_pop h (partial_slubs self);
          match n with
          | None => mret (None, h, a, mkCache (objects_size self) partial (full_slubs self))
          | Some n =>
              '(h, fulls) ← SlubPageList_push h (full_slubs self) n;
              mret (Some ptr, h, a, mkCache (objects_size self) partial fulls)
          end
        else mret (Some ptr, h, a, self)
    end
  else
    '(r, h, a) ← SlubPage_new h a (objects_size self);
    match r with
    | None => mret (None, h, a, self)
    | Some page =>
        '(r, h) ← SlubPage_alloc_obj h page;
        match r with
        | None => mret (None, h, a, self)
        | Some ptr =>
            '(h, partial) ← SlubPageList_push h (partial_slubs self) page;
            mret (Some ptr, h, a, mkCache (objects_size self) partial (full_slubs self))
        end
    end.

Definition Cache_dealloc (h : heap) (a : A) (self : Cache) (ptr : Z) : outcome (bool * heap * A * Cache) :=
  found ← find_page (S (size h)) h (full_slubs self) ptr;
  match found with
  | Some page =>
      h ← SlubPage_dealloc_obj h page ptr;
      '(_, h, fulls) ← SlubPageList_remove h (full_slubs self) page;
      '(h, partial) ← SlubPageList_push h (partial_slubs self) page;
      mret (true, h, a, mkCache (objects_size self) partial fulls)
  | None =>
      found ← find_page (S (size h)) h (partial_slubs self) ptr;
      match found with
      | None => mret (false, h, a, self)
      | Some page =>
          h ← SlubPage_dealloc_obj h page ptr;
          empty ← SlubPage_is_empty h page;
          if empty : bool then
            '(_, h, partial) ← SlubPageList_remove h (partial_slubs self) page;
            page_size ← load h (f_page_size page);
            '(h, a) ← fs_dealloc h a (mkFrame page page_size);
            mret (true, h, a, mkCache (objects_size self) partial (full_slubs self))
          else mret (true, h, a, self)
      end
  end.

End Slub.

(** ** Lists of pages as sequences *)

Fixpoint plink (h : heap) (p : Z) (l : list Z) : Prop :=
  match l with
  | [] => p = 0
  | x :: l => p = x /\ x <> 0 /\ exists n, h !! f_next x = Some n /\ plink h n l
  end.

Lemma plink_frame h h' p l : plink h p l -> (forall x, x ∈ l -> h' !! f_next x = h !! f_next x) ->
  plink h' p l.
Proof.
  revert p. induction l as [|x l IH]; intros p Hc Hf; [done|].
  destruct Hc as (-> & Hx & n & Hn & Hc). split; [done|]. split; [done|].
  exists n. rewrite Hf by left. split; [done|]. apply IH; [done|]. intros y Hy. apply Hf. by right.
Qed.

Lemma plink_insert h p l x v : plink h p l -> (forall y, y ∈ l -> f_next y <> x) ->
  plink (<[x := v]> h) p l.
Proof.
  intros Hc Hn. apply (plink_frame h); [done|]. intros y Hy. apply lookup_insert_ne. intros E. by apply (Hn y).
Qed.

Lemma plink_mapped h p l x : plink h p l -> x ∈ l -> is_Some (h !! f_next x) /\ x <> 0.
Proof.
  revert p. induction l as [|y l IH]; intros p Hc Hx; [by apply not_elem_of_nil in Hx|].
  destruct Hc as (-> & Hy & n & Hn & Hc).
  apply elem_of_cons in Hx as [->|Hx]; [by rewrite Hn|]. by eapply IH.
Qed.

Lemma plink_length h p l : plink h p l -> NoDup l -> (length l <= size h)%nat.
Proof.
  intros Hc Hnd. rewrite <- (size_dom h), <- (length_fmap f_next).
  rewrite <- (size_list_to_set (C := gset Z) (f_next <$> l)).
  - apply subseteq_size. intros x Hx%elem_of_list_to_set. apply list_elem_of_fmap in Hx as (y & -> & Hy).
    apply elem_of_dom. by apply (plink_mapped h p l).
  - apply NoDup_fmap_2; [|done]. intros x y. unfold f_next. lia.
Qed.

Lemma page_push_ok h p l x : plink h p l -> x ∉ l -> x <> 0 -> is_Some (h !! f_next x) ->
  SlubPageList_push h p x = Ret (<[f_next x := p]> h, x) /\ plink (<[f_next x := p]> h) x (x :: l).
Proof.
  intros Hc Hn H0 [v Hv]. unfold SlubPageList_push, store. rewrite Hv. split; [done|].
  split; [done|]. split; [done|]. exists p. rewrite lookup_insert_eq. split; [done|].
  apply plink_insert; [done|]. intros y Hy E. unfold f_next in E. assert (y = x) as -> by lia. done.
Qed.

Lemma page_pop_ok h p x l : plink h p (x :: l) ->
  exists n, SlubPageList_pop h p = Ret (Some x, n) /\ plink h n l.
Proof.
  intros (-> & H0 & n & Hn & Hc). exists n.
  unfold SlubPageList_pop, SlubPageList_is_empty, load. rewrite Hn. by destruct (Z.eqb_spec x 0).
Qed.

Lemma page_remove_loop_ok fuel h x l item : plink h x (x :: l) -> NoDup (x :: l) -> item ∈ l ->
  (length l + 1 <= fuel)%nat ->
  exists h' y n, page_remove_loop fuel h x item = Ret (true, h') /\ plink h' x (x :: del item l) /\
    y ∈ x :: l /\ h' = <[f_next y := n]> h.
Proof.
  revert fuel h x. induction l as [|y l IH]; intros [|fuel] h x Hc Hnd Hi Hf;
    try (by apply not_elem_of_nil in Hi); simpl in Hf; try lia. cbn [page_remove_loop].
  pose proof Hc as (_ & Hx & n & Hn & (-> & Hy & n2 & Hn2 & Hc2)).
  apply NoDup_cons in Hnd as [Hxl Hnd]. pose proof Hnd as Hnd'. apply NoDup_cons in Hnd' as [Hyl _].
  unfold load, store. rewrite Hn. destruct (Z.eqb_spec x 0); [done|]. cbn [expect]. rewrite !outcome_bind_Ret.
  destruct (Z.eqb_spec y item) as [->|Hne].
  - rewrite Hn2. cbn [expect]. rewrite outcome_bind_Ret. exists (<[f_next x := n2]> h), x, n2.
    split; [done|]. rewrite del_cons by done. split; [|by split; [left|]].
    split; [done|]. split; [done|]. exists n2. rewrite lookup_insert_eq. split; [done|].
    apply plink_insert; [done|]. intros z Hz E. apply Hxl. right. unfold f_next in E. by replace x with z by lia.
  - apply elem_of_cons in Hi as [->|Hi]; [done|].
    destruct (IH fuel h y) as (h' & z & m & Hr & Hc' & Hz & ->); try done; [|lia|].
    { split; [done|]. split; [done|]. eauto. }
    exists (<[f_next z := m]> h), z, m. rewrite Hr. split; [done|].
    assert (del item (y :: l) = y :: del item l) as ->.
    { unfold del. simpl. by destruct (Z.eqb_spec y item). }
    split; [|split; [by right|done]]. split; [done|]. split; [done|]. exists y.
    rewrite lookup_insert_ne; [by split|]. unfold f_next. intros E. assert (z = x) as -> by lia. done.
Qed.

Lemma page_remove_ok h p l item : plink h p l -> NoDup l -> item ∈ l ->
  exists h' p', SlubPageList_remove h p item = Ret (true, h', p') /\ plink h' p' (del item l) /\
    (h' = h \/ exists y n, y ∈ l /\ h' = <[f_next y := n]> h).
Proof.
  intros Hc Hnd Hi. pose proof (plink_length h p l Hc Hnd) as Hlen.
  destruct l as [|x l]; [by apply not_elem_of_nil in Hi|].
  pose proof Hc as (-> & Hx & n & Hn & Hc'). unfold SlubPageList_remove.
  destruct (Z.eqb_spec x 0); [done|]. destruct (Z.eqb_spec x item) as [->|Hne].
  - unfold load. rewrite Hn. cbn [expect]. rewrite outcome_bind_Ret. exists h, n. split; [done|].
    apply NoDup_cons in Hnd as [Hxl _]. rewrite del_cons by done. auto.
  - apply elem_of_cons in Hi as [->|Hi]; [done|].
    destruct (page_remove_loop_ok (S (size h)) h x l item) as (h' & y & m & -> & Hc2 & Hy & ->); try done.
    { simpl in Hlen. lia. }
    eexists _, x. split; [done|]. assert (del item (x :: l) = x :: del item l) as ->.
    { unfold del. simpl. by destruct (Z.eqb_spec x item). }
    split; [done|]. eauto.
Qed.

(** ** Size classes and the geometry of their pages *)

Definition slub_off (os : Z) : Z := (header_size + os - 1) / os * os.
Definition slub_bytes (os : Z) : Z := if os <=? 1024 then 4096 else 8192.
Definition slub_count (os : Z) : Z := (slub_bytes os - slub_off os) / os.

Definition size_classes : list Z := (fun i => 2 ^ (i + SLUB_MIN_ORDER)) <$> seqZ 0 CACHES_MAX.

(** The facts about a size class that the code relies on. *)
Record class_ok (os : Z) : Prop := {
  c_align : align header_size os = Ret (slub_off os);
  c_bytes : slub_page_size os (slub_off os) = Ret (slub_bytes os);
  c_frame : frame_bytes (slub_bytes os) = slub_bytes os;
  c_min : 16 <= os;
  c_words : os mod 8 = 0 /\ slub_off os mod 8 = 0;
  c_page : slub_off os mod os = 0 /\ PAGE_SIZE mod os = 0;
  c_off : header_size <= slub_off os;
  c_fit : slub_off os + slub_count os * os <= slub_bytes os < slub_off os + (slub_count os + 1) * os;
  c_two : 2 <= slub_count os <= 256;
}.

Lemma size_class_ok os : os ∈ size_classes -> class_ok os.
Proof.
  assert (size_classes = [16; 32; 64; 128; 256; 512; 1024; 2048]) as -> by reflexivity.
  intros H. repeat (apply elem_of_cons in H as [->|H]; [split; (vm_compute; repeat split; congruence) || vm_compute; done|]).
  by apply not_elem_of_nil in H.
Qed.

(** The addresses of the objects of the page at [p]. *)
Definition slot (os p k : Z) : Z := p + slub_off os + k * os.
Definition slots (os p : Z) : list Z := slot os p <$> seqZ 0 (slub_count os).

(** A page: its address and its free objects, in the order of the free list. *)
Record page : Type := mkPage { pg : Z; pf : list Z }.

Definition page_frame (os : Z) (p : page) : Frame := mkFrame (pg p) (slub_bytes os).

Definition page_ok (os : Z) (h : heap) (p : page) : Prop :=
  h !! f_page_size (pg p) = Some (slub_bytes os) /\
  h !! f_inuse (pg p) = Some (slub_count os - Z.of_nat (length (pf p))) /\
  h !! f_objects (pg p) = Some (slub_count os) /\
  h !! f_page_start (pg p) = Some (pg p) /\
  (exists fl, h !! f_free_list (pg p) = Some fl /\ chain h fl (pf p)) /\
  NoDup (pf p) /\ pf p ⊆ slots os (pg p).

(** The objects of a page in the hands of clients. *)
Definition used (os : Z) (p : page) : list Z := filter (fun o => o ∉ pf p) (slots os (pg p)).

(** The words a page depends on. *)
Definition page_word (p : page) (x : Z) : Prop :=
  x = f_page_size (pg p) \/ x = f_free_list (pg p) \/ x = f_inuse (pg p) \/ x = f_objects (pg p) \/
  x = f_page_start (pg p) \/ x ∈ pf p.

Lemma page_ok_frame os h h' p : page_ok os h p -> (forall x, page_word p x -> h' !! x = h !! x) ->
  page_ok os h' p.
Proof.
  intros (H1 & H2 & H3 & H4 & (fl & H5 & Hc) & H6 & H7) Hf.
  split_and!; try (rewrite Hf; [done|unfold page_word; tauto]); [|done|done].
  exists fl. split; [rewrite Hf; [done|unfold page_word; tauto]|].
  apply (chain_frame h); [done|]. intros x Hx. apply Hf. unfold page_word. tauto.
Qed.

Lemma elem_of_slots os p o : o ∈ slots os p <-> exists k, 0 <= k < slub_count os /\ o = slot os p k.
Proof.
  unfold slots. rewrite list_elem_of_fmap. setoid_rewrite elem_of_seqZ. split.
  - intros (k & -> & Hk). exists k. split; [lia|done].
  - intros (k & Hk & ->). exists k. split; [done|lia].
Qed.

Section Class.
Context (os : Z) (Hos : class_ok os).

Lemma slots_NoDup p : NoDup (slots os p).
Proof using Hos.
  apply NoDup_fmap_2; [|apply NoDup_seqZ]. intros i j. unfold slot. pose proof (c_min os Hos). nia.
Qed.

Lemma slots_length p : Z.of_nat (length (slots os p)) = slub_count os.
Proof using Hos. unfold slots. rewrite length_fmap, length_seqZ. pose proof (c_two os Hos). lia. Qed.

(** An object lies in its page, behind the header, and meets no other object. *)
Lemma slot_in p o : o ∈ slots os p -> p + header_size <= o /\ o + os <= p + slub_bytes os /\
  (p mod PAGE_SIZE = 0 -> o mod os = 0).
Proof using Hos.
  intros (k & Hk & ->)%elem_of_slots. unfold slot. pose proof (c_off os Hos). pose proof (c_fit os Hos).
  pose proof (c_min os Hos). destruct (c_page os Hos) as [D1 D2].
  split; [nia|]. split; [nia|]. intros Hp.
  apply Z.mod_divide in D1, D2; [|lia..]. apply Z.mod_divide in Hp; [|unfold PAGE_SIZE; lia].
  apply Z.mod_divide; [lia|]. repeat apply Z.divide_add_r; [by apply (Z.divide_trans _ PAGE_SIZE)|done|].
  apply Z.divide_factor_r.
Qed.

Lemma slot_apart p o o' : o ∈ slots os p -> o' ∈ slots os p -> o <> o' -> o + os <= o' \/ o' + os <= o.
Proof using Hos.
  intros (k & Hk & ->)%elem_of_slots (k' & Hk' & ->)%elem_of_slots. unfold slot. pose proof (c_min os Hos).
  intros Hn. assert (k < k' \/ k' < k) by (destruct (Z.lt_total k k') as [|[->|]]; tauto). nia.
Qed.

Lemma page_word_in h p x : page_ok os h p -> page_word p x -> in_frame (page_frame os p) x.
Proof using Hos.
  intros (_ & _ & _ & _ & _ & _ & Hs) Hx. unfold in_frame. cbn. pose proof (c_off os Hos). pose proof (c_fit os Hos).
  pose proof (c_two os Hos). pose proof (c_min os Hos). unfold header_size in *.
  unfold page_word, f_page_size, f_free_list, f_inuse, f_objects, f_page_start in Hx.
  destruct Hx as [->|[->|[->|[->|[->|Hx]]]]]; [nia..|].
  apply Hs, slot_in in Hx. unfold header_size in *. lia.
Qed.

Lemma elem_of_used p o : o ∈ used os p <-> o ∈ slots os (pg p) /\ o ∉ pf p.
Proof using. unfold used. rewrite list_elem_of_filter. tauto. Qed.

(** Writing into a used object does not disturb the page. *)
Lemma used_word h p o x y : page_ok os h p -> o ∈ used os p -> o <= x < o + os -> page_word p y -> x <> y.
Proof using Hos.
  intros (_ & _ & _ & _ & _ & _ & Hs) [Ho Hn]%elem_of_used Hx Hy ->.
  pose proof (slot_in _ _ Ho) as (H1 & _). unfold header_size in *.
  unfold page_word, f_page_size, f_free_list, f_inuse, f_objects, f_page_start in Hy.
  destruct Hy as [->|[->|[->|[->|[->|Hy]]]]]; [lia..|].
  assert (Hne : o <> y) by congruence. destruct (slot_apart (pg p) o y Ho (Hs _ Hy) Hne); lia.
Qed.

End Class.

(** ** One page *)

Section Pages.
Context {A : Type} {FS : FrameSource A} {FL : FrameLaws A}.
Context (os : Z) (Hos : class_ok os).
Implicit Types (p : page) (held : list Frame).

Lemma fs_load h a held f x : fs_rep h a held -> f ∈ held -> in_frame f x -> x mod 8 = 0 -> is_Some (h !! x).
Proof using. intros H Hf. by apply (fs_held h a held f H Hf). Qed.

Lemma fs_store h a held f x v : fs_rep h a held -> f ∈ held -> in_frame f x -> x mod 8 = 0 ->
  store h x v = Ret (<[x := v]> h) /\ fs_rep (<[x := v]> h) a held.
Proof using.
  intros H Hf Hx Hm. destruct (fs_load h a held f x H Hf Hx Hm) as [w Hw].
  unfold store. rewrite Hw. split; [done|]. by apply (fs_write h a held f).
Qed.

(** Header words and objects are words of the frame. *)
Lemma page_start_ok h a held p : fs_rep h a held -> page_frame os p ∈ held ->
  0 < pg p /\ pg p mod PAGE_SIZE = 0.
Proof using. intros H Hf. destruct (fs_held h a held _ H Hf) as [(H1 & H2 & _) _]. done. Qed.

Definition header_word (q x : Z) : Prop := q <= x < q + header_size /\ x mod 8 = 0.

Lemma header_in p x : header_word (pg p) x -> in_frame (page_frame os p) x.
Proof using Hos.
  intros [Hx _]. unfold in_frame. cbn. pose proof (c_off os Hos). pose proof (c_fit os Hos).
  pose proof (c_two os Hos). pose proof (c_min os Hos). nia.
Qed.

Lemma slot_word p o : pg p mod PAGE_SIZE = 0 -> o ∈ slots os (pg p) ->
  in_frame (page_frame os p) o /\ o mod 8 = 0 /\ ~ header_word (pg p) o.
Proof using Hos.
  intros Hp Ho. pose proof (slot_in os Hos _ _ Ho) as (H1 & H2 & _). unfold in_frame, header_word. cbn.
  pose proof (c_min os Hos). unfold header_size in *. split; [lia|]. split; [|lia].
  apply elem_of_slots in Ho as (k & Hk & ->). unfold slot. destruct (c_words os Hos) as [W1 W2].
  unfold PAGE_SIZE in Hp. apply Z.mod_divide in W1, W2, Hp; [|lia..]. apply Z.mod_divide; [lia|].
  repeat apply Z.divide_add_r; [|done|by apply Z.divide_mul_r].
  apply (Z.divide_trans _ 4096); [|done]. by exists 512.
Qed.

Lemma header_words q : q mod PAGE_SIZE = 0 ->
  header_word q (f_page_size q) /\ header_word q (f_next q) /\ header_word q (f_free_list q) /\
  header_word q (f_inuse q) /\ header_word q (f_objects q) /\ header_word q (f_page_start q).
Proof using.
  unfold header_word, f_page_size, f_next, f_free_list, f_inuse, f_objects, f_page_start, header_size, PAGE_SIZE.
  intros Hq. split_and!; lia.
Qed.

Lemma used_take q o l : o ∈ slots os q -> o ∉ l -> used os (mkPage q l) ≡ₚ o :: used os (mkPage q (o :: l)).
Proof using Hos.
  intros Ho Hl. apply NoDup_Permutation.
  - apply NoDup_filter, (slots_NoDup os Hos).
  - constructor; [|apply NoDup_filter, (slots_NoDup os Hos)]. rewrite elem_of_used. cbn. set_solver.
  - intros x. rewrite elem_of_cons, !elem_of_used. cbn. destruct (decide (x = o)) as [->|]; set_solver.
Qed.

Lemma free_count p h : page_ok os h p -> Z.of_nat (length (pf p)) <= slub_count os.
Proof using Hos.
  intros (_ & _ & _ & _ & _ & Hn & Hs). rewrite <- (slots_length os Hos (pg p)).
  apply Nat2Z.inj_le. apply submseteq_length, NoDup_submseteq; done.
Qed.

(** [h'] differs from [h] in the words of [l] only. *)
Definition only (l : list Z) (h h' : heap) : Prop := forall x, x ∉ l -> h' !! x = h !! x.

Lemma alloc_obj_ok h a held p o l : fs_rep h a held -> page_frame os p ∈ held -> page_ok os h p ->
  pf p = o :: l ->
  exists h', SlubPage_alloc_obj h (pg p) = Ret (Some o, h') /\ fs_rep h' a held /\
    page_ok os h' (mkPage (pg p) l) /\ only [f_free_list (pg p); f_inuse (pg p)] h h'.
Proof using Hos.
  intros H Hf Hp El. destruct (page_start_ok h a held p H Hf) as [H0 Hm].
  destruct (header_words (pg p) Hm) as (W1 & _ & W3 & W4 & W5 & W6).
  pose proof (free_count p h Hp) as Hc. pose proof (c_two os Hos) as Ht.
  destruct Hp as (H1 & H2 & H3 & H4 & (fl & H5 & Hch) & Hnd & Hs). rewrite El in *.
  destruct (pop_ok h fl o l Hch) as (n & Epop & Hch').
  destruct (fs_store h a held _ (f_free_list (pg p)) n H Hf (header_in p _ W3) (proj2 W3)) as [E1 R1].
  set (h1 := <[f_free_list (pg p) := n]> h) in *.
  destruct (fs_store h1 a held _ (f_inuse (pg p)) (slub_count os - Z.of_nat (length l)) R1 Hf
    (header_in p _ W4) (proj2 W4)) as [E2 R2].
  assert (Hiu : h1 !! f_inuse (pg p) = Some (slub_count os - Z.of_nat (length (o :: l)))).
  { unfold h1. by rewrite lookup_insert_ne by (unfold f_free_list, f_inuse; lia). }
  assert (Hw : forall x, header_word (pg p) x -> x ∉ l).
  { intros x Hx Hi. apply (slot_word p x Hm); [apply Hs; by right|done]. }
  eexists. split; [|split; [exact R2|split]].
  - unfold SlubPage_alloc_obj, load. rewrite H5. cbn [expect]. rewrite outcome_bind_Ret.
    assert (IntrusiveList_is_empty fl = false) as ->.
    { destruct Hch as (-> & ? & _). by apply Z.eqb_neq. }
    rewrite Epop, outcome_bind_Ret, E1, outcome_bind_Ret.
    rewrite Hiu. cbn [expect]. rewrite outcome_bind_Ret.
    unfold usize_add. rewrite (proj2 (Z.ltb_lt _ _)) by (cbn [length] in *; lia). rewrite outcome_bind_Ret.
    replace (slub_count os - Z.of_nat (length (o :: l)) + 1) with (slub_count os - Z.of_nat (length l))
      by (cbn [length]; lia). by rewrite E2.
  - unfold h1. apply NoDup_cons in Hnd as [_ Hnd]. unfold page_ok. cbn [pg pf].
    split_and!; rewrite ?lookup_insert_eq; try done;
      try (rewrite !lookup_insert_ne; [done|unfold f_page_size, f_inuse, f_objects, f_page_start, f_free_list; lia..]).
    + exists n. rewrite lookup_insert_ne, lookup_insert_eq by (unfold f_inuse, f_free_list; lia).
      split; [done|]. apply chain_insert; [apply chain_insert; [done|]|]; by apply Hw.
    + intros x Hx. apply Hs. by right.
  - intros x Hx. unfold h1. rewrite !lookup_insert_ne; [done|set_solver..].
Qed.

Lemma dealloc_obj_ok h a held p o : fs_rep h a held -> page_frame os p ∈ held -> page_ok os h p ->
  o ∈ used os p ->
  exists h', SlubPage_dealloc_obj h (pg p) o = Ret h' /\ fs_rep h' a held /\
    page_ok os h' (mkPage (pg p) (o :: pf p)) /\ only [o; f_free_list (pg p); f_inuse (pg p)] h h'.
Proof using Hos.
  intros H Hf Hp [Ho Hn]%elem_of_used. destruct (page_start_ok h a held p H Hf) as [H0 Hm].
  destruct (header_words (pg p) Hm) as (W1 & _ & W3 & W4 & W5 & W6).
  destruct (slot_word p o Hm Ho) as (I1 & I2 & I3).
  assert (Hw : forall x, header_word (pg p) x -> x ∉ o :: pf p).
  { intros x Hx [->|Hi]%elem_of_cons; [done|]. apply (slot_word p x Hm); [|done]. by apply Hp. }
  assert (Hlen : Z.of_nat (length (o :: pf p)) <= slub_count os).
  { destruct Hp as (_ & _ & _ & _ & _ & Hnd & Hs). rewrite <- (slots_length os Hos (pg p)).
    apply Nat2Z.inj_le, submseteq_length, NoDup_submseteq; [by constructor|set_solver]. }
  destruct Hp as (H1 & H2 & H3 & H4 & (fl & H5 & Hch) & Hnd & Hs).
  destruct (push_ok h fl (pf p) o Hch Hn) as [Ep Hch'].
  { pose proof (slot_in os Hos _ _ Ho). unfold header_size in *. lia. } { by apply (fs_load h a held (page_frame os p)). }
  assert (R0 : fs_rep (<[o := fl]> h) a held) by by apply (fs_write h a held (page_frame os p)).
  set (h0 := <[o := fl]> h) in *.
  destruct (fs_store h0 a held _ (f_free_list (pg p)) o R0 Hf (header_in p _ W3) (proj2 W3)) as [E1 R1].
  set (h1 := <[f_free_list (pg p) := o]> h0) in *.
  destruct (fs_store h1 a held _ (f_inuse (pg p)) (slub_count os - Z.of_nat (length (o :: pf p))) R1 Hf
    (header_in p _ W4) (proj2 W4)) as [E2 R2].
  assert (Hno : forall x, header_word (pg p) x -> o <> x) by (intros x Hx <-; done).
  assert (Hiu : h1 !! f_inuse (pg p) = Some (slub_count os - Z.of_nat (length (pf p)))).
  { unfold h1, h0. rewrite !lookup_insert_ne; [done|by apply Hno|unfold f_free_list, f_inuse; lia]. }
  eexists. split; [|split; [exact R2|split]].
  - unfold SlubPage_dealloc_obj, load. rewrite H5. cbn [expect]. rewrite outcome_bind_Ret, Ep, outcome_bind_Ret.
    fold h0. rewrite E1, outcome_bind_Ret, Hiu. cbn [expect]. rewrite outcome_bind_Ret.
    unfold usize_sub. rewrite (proj2 (Z.leb_le _ _)) by (cbn [length] in *; lia). rewrite outcome_bind_Ret.
    replace (slub_count os - Z.of_nat (length (pf p)) - 1) with (slub_count os - Z.of_nat (length (o :: pf p)))
      by (cbn [length]; lia). by rewrite E2.
  - unfold page_ok. cbn [pg pf]. unfold h1, h0.
    split_and!; rewrite ?lookup_insert_eq; try done.
    1-3: rewrite !lookup_insert_ne; [done|by apply Hno|unfold f_page_size, f_inuse, f_objects, f_page_start, f_free_list; lia..].
    + exists o. rewrite lookup_insert_ne, lookup_insert_eq by (unfold f_inuse, f_free_list; lia).
      split; [done|]. apply chain_insert; [apply chain_insert; [done|]|]; by apply Hw.
    + by constructor.
    + set_solver.
  - intros x Hx. unfold h1, h0. rewrite !lookup_insert_ne; [done|set_solver..].
Qed.

Lemma write_header_ok h a held q : fs_rep h a held -> page_frame os (mkPage q []) ∈ held ->
  exists h', write_header h q (slub_bytes os) = Ret h' /\ fs_rep h' a held /\
    (forall x, ~ header_word q x -> h' !! x = h !! x) /\
    h' !! f_page_size q = Some (slub_bytes os) /\ h' !! f_inuse q = Some 0 /\ h' !! f_next q = Some 0 /\
    h' !! f_free_list q = Some 0 /\ h' !! f_objects q = Some 0 /\ h' !! f_page_start q = Some q.
Proof using Hos.
  intros H Hf. destruct (page_start_ok h a held _ H Hf) as [H0 Hm]. cbn [pg] in *.
  destruct (header_words q Hm) as (W1 & W2 & W3 & W4 & W5 & W6).
  pose proof (fun h x v (R : fs_rep h a held) (W : header_word q x) =>
    fs_store h a held _ x v R Hf (header_in (mkPage q []) x W) (proj2 W)) as St.
  unfold write_header.
  destruct (St _ _ (slub_bytes os) H W1) as [-> R1]. rewrite outcome_bind_Ret.
  destruct (St _ _ 0 R1 W4) as [-> R2]. rewrite outcome_bind_Ret.
  destruct (St _ _ 0 R2 W2) as [-> R3]. rewrite outcome_bind_Ret.
  destruct (St _ _ IntrusiveList_new R3 W3) as [-> R4]. rewrite outcome_bind_Ret.
  destruct (St _ _ 0 R4 W5) as [-> R5]. rewrite outcome_bind_Ret.
  destruct (St _ _ q R5 W6) as [-> R6].
  eexists. split; [done|]. split; [exact R6|]. split.
  - intros x Hx. rewrite !lookup_insert_ne; [done|by intros <-; apply Hx..].
  - clear. unfold f_page_size, f_inuse, f_next, f_free_list, f_objects, f_page_start, IntrusiveList_new.
    split_and!; repeat (rewrite lookup_insert_eq || rewrite lookup_insert_ne by lia); done.
Qed.

(** The objects from the [j]th on. *)
Definition slots_from (q j : Z) : list Z := slot os q <$> seqZ j (slub_count os - j).

Lemma slots_from_cons q j : 0 <= j < slub_count os -> slots_from q j = slot os q j :: slots_from q (j + 1).
Proof using.
  intros Hj. unfold slots_from. rewrite (seqZ_cons j) by lia. cbn. f_equal. unfold Z.succ. do 2 f_equal; lia.
Qed.

Lemma slots_from_in q j o : 0 <= j -> o ∈ slots_from q j -> o ∈ slots os q.
Proof using.
  intros Hj Ho. unfold slots_from in Ho. apply list_elem_of_fmap in Ho as (k & -> & Hk).
  apply elem_of_seqZ in Hk. apply elem_of_slots. exists k. split; [lia|done].
Qed.

Lemma cut_objects_ok fuel h a held q j fl l : fs_rep h a held -> page_frame os (mkPage q []) ∈ held ->
  0 <= j <= slub_count os -> slub_count os - j <= Z.of_nat fuel ->
  h !! f_free_list q = Some fl -> chain h fl l -> NoDup (l ++ slots_from q j) -> l ⊆ slots os q ->
  exists h' fl', cut_objects fuel h q (slot os q j) os (q + slub_bytes os) j = Ret (h', slub_count os) /\
    fs_rep h' a held /\ h' !! f_free_list q = Some fl' /\ chain h' fl' (reverse (slots_from q j) ++ l) /\
    (forall x, x <> f_free_list q -> x ∉ slots_from q j -> h' !! x = h !! x).
Proof using Hos.
  intros H Hf. destruct (page_start_ok h a held _ H Hf) as [H0 Hm]. cbn [pg] in *.
  destruct (header_words q Hm) as (_ & _ & W3 & _). pose proof (c_fit os Hos) as Hfit. pose proof (c_min os Hos) as Hmin.
  revert h j fl l H. induction fuel as [|fuel IH]; intros h j fl l H Hj Hfu Hfl Hch Hnd Hl; cbn [cut_objects];
    destruct (Z.leb_spec (slot os q j + os) (q + slub_bytes os)) as [Hle|Hle]; unfold slot in Hle.
  1: assert (j < slub_count os) by nia; lia.
  2: assert (j < slub_count os) as Hlt by nia.
  1, 3: assert (j = slub_count os) as -> by nia; exists h, fl; split; [done|]; split; [done|]; split; [done|];
    unfold slots_from; rewrite Z.sub_diag; done.
  rewrite slots_from_cons in Hnd |- * by lia. set (o := slot os q j) in *.
  assert (Ho : o ∈ slots os q) by (apply elem_of_slots; exists j; split; [lia|done]).
  destruct (slot_word (mkPage q []) o Hm Ho) as (I1 & I2 & I3). cbn [pg] in I3.
  apply NoDup_app in Hnd as (N1 & N2 & N3). apply NoDup_cons in N3 as [N3 N4].
  assert (Hol : o ∉ l) by (intros Hi; apply (N2 _ Hi); left).
  unfold load. rewrite Hfl. cbn [expect]. rewrite outcome_bind_Ret.
  destruct (push_ok h fl l o Hch Hol) as [Ep Hch'].
  { pose proof (slot_in os Hos _ _ Ho). unfold header_size in *. lia. } { by apply (fs_load h a held (page_frame os (mkPage q []))). }
  rewrite Ep, outcome_bind_Ret.
  assert (R0 : fs_rep (<[o := fl]> h) a held) by by apply (fs_write h a held (page_frame os (mkPage q []))).
  destruct (fs_store _ a held _ (f_free_list q) o R0 Hf (header_in (mkPage q []) _ W3) (proj2 W3)) as [-> R1].
  rewrite outcome_bind_Ret. replace (o + os) with (slot os q (j + 1)) by (unfold o, slot; lia).
  destruct (IH _ (j + 1) o (o :: l) R1) as (h' & fl' & E & R2 & F2 & C2 & U2); try lia.
  - apply lookup_insert_eq.
  - apply chain_insert; [done|]. intros [E|Hi]%elem_of_cons; [by rewrite <- E in I3|].
    apply (slot_word (mkPage q []) (f_free_list q) Hm); [by apply Hl|done].
  - rewrite <- app_comm_cons. constructor.
    + rewrite not_elem_of_app. split; done.
    + apply NoDup_app. split_and!; [done| |done]. intros x Hx Hx'. apply (N2 x Hx). by right.
  - set_solver.
  - exists h', fl'. split; [exact E|]. split; [done|]. split; [done|]. split.
    + by rewrite reverse_cons, <- app_assoc.
    + intros x Hx1 Hx2. apply not_elem_of_cons in Hx2 as [Hx2 Hx3].
      rewrite (U2 x Hx1 Hx3), !lookup_insert_ne; done.
Qed.

(** Changes inside the frame [f] do not show in the others. *)
Lemma same_on_inside h0 a f held h h' : fs_rep h0 a (f :: held) ->
  (forall x, ~ in_frame f x -> h' !! x = h !! x) -> same_on held h h'.
Proof using.
  intros H Hx g x Hg Hi. apply Hx. intros Hf. pose proof (fs_disjoint _ _ _ _ _ H Hg) as D.
  unfold frame_dis, in_frame in *. lia.
Qed.

Lemma page_new_ok h a held : fs_rep h a held ->
  exists r h' a', SlubPage_new h a os = Ret (r, h', a') /\ same_on held h h' /\
    match r with
    | None => fs_rep h' a' held
    | Some q => fs_rep h' a' (page_frame os (mkPage q []) :: held) /\
        page_ok os h' (mkPage q (reverse (slots os q))) /\ h' !! f_next q = Some 0
    end.
Proof using Hos.
  intros H. unfold SlubPage_new. rewrite (c_align os Hos), outcome_bind_Ret, (c_bytes os Hos), outcome_bind_Ret.
  pose proof (c_two os Hos) as Ht. pose proof (c_fit os Hos) as Hfit. pose proof (c_min os Hos) as Hmin.
  pose proof (c_off os Hos) as Hoff.
  destruct (fs_alloc_ok h a held (Some (slub_bytes os)) H) as (r & h1 & a1 & -> & S1 & Hr).
  { cbn. unfold header_size in *. nia. }
  rewrite outcome_bind_Ret. destruct r as [[q sz]|]; [|by exists None, h1, a1].
  destruct Hr as [R1 Ez]. change (sz = frame_bytes (slub_bytes os)) in Ez. rewrite (c_frame os Hos) in Ez. subst sz. cbn [fr_start].
  change (mkFrame q (slub_bytes os)) with (page_frame os (mkPage q [])) in R1.
  assert (Hf : page_frame os (mkPage q []) ∈ page_frame os (mkPage q []) :: held) by left.
  destruct (page_start_ok h1 a1 _ _ R1 Hf) as [H0 Hm]. cbn [pg] in *.
  destruct (write_header_ok h1 a1 _ q R1 Hf) as (h2 & -> & R2 & U2 & V1 & V2 & V3 & V4 & V5 & V6). rewrite outcome_bind_Ret.
  assert (Eslot : q + slub_off os = slot os q 0) by (unfold slot; lia). rewrite Eslot.
  assert (Es : slots_from q 0 = slots os q) by (unfold slots_from, slots; by rewrite Z.sub_0_r).
  destruct (cut_objects_ok (Z.to_nat (slub_bytes os)) h2 a1 _ q 0 0 [] R2 Hf) as (h3 & fl & -> & R3 & F3 & C3 & U3).
  { lia. } { unfold header_size in *. nia. } { done. } { done. } { rewrite Es. apply (slots_NoDup os Hos). } { set_solver. }
  rewrite Es, app_nil_r in *. rewrite outcome_bind_Ret.
  destruct (header_words q Hm) as (W1 & W2 & W3 & W4 & W5 & W6).
  destruct (fs_store h3 a1 _ _ (f_objects q) (slub_count os) R3 Hf (header_in (mkPage q []) _ W5) (proj2 W5)) as [-> R4].
  rewrite outcome_bind_Ret. eexists _, _, _. split; [done|].
  assert (Hs : forall x, header_word q x -> x ∉ slots os q).
  { intros x Hx Hi. by apply (slot_word (mkPage q []) x Hm). }
  split; [|split; [exact R4|split]].
  - apply (same_on_trans _ _ h1); [done|]. apply (same_on_inside _ _ _ _ _ _ R1). intros x Hx.
    assert (Hh : ~ header_word q x) by (intros W; apply Hx; by apply (header_in (mkPage q []))).
    rewrite lookup_insert_ne by (intros <-; done). rewrite U3; [by apply U2|intros ->; done|].
    intros Hi. apply Hx. by apply (slot_word (mkPage q []) x Hm).
  - assert (K : forall x, header_word q x -> x <> f_objects q -> x <> f_free_list q ->
      (<[f_objects q := slub_count os]> h3 : heap) !! x = h2 !! x).
    { intros x Hx N1 N2. rewrite lookup_insert_ne by done. apply U3; [done|by apply Hs]. }
    pose proof (slots_length os Hos q) as Hlen.
    unfold page_ok. cbn [pg pf]. unfold f_page_size, f_inuse, f_objects, f_page_start, f_free_list in *.
    rewrite length_reverse, Hlen, Z.sub_diag. split_and!; rewrite ?K by (done || lia); try done.
    + apply lookup_insert_eq.
    + exists fl. rewrite lookup_insert_ne by lia. split; [done|]. apply chain_insert; [done|].
      rewrite elem_of_reverse. by apply Hs.
    + rewrite reverse_Permutation. apply (slots_NoDup os Hos).
    + intros x. by rewrite elem_of_reverse.
  - rewrite lookup_insert_ne by (unfold f_objects, f_next; lia).
    rewrite U3; [done|unfold f_free_list, f_next; lia|by apply Hs].
Qed.

End Pages.
