(* ===== verification/SlubCache.v ===== *)
(** * SlubCache: the caches of one size class are correct

    A [Cache] seen as its partial and its full pages, each with its free objects.
    Allocation takes an object that nobody has, release gives it back, pages
    without objects in use go back to the frame allocator, and neither changes a
    word of an object in use or of a frame in other hands. *)

From stdpp Require Import gmap.
From S2P Require Import Prelude Buddy FrameAlloc Slub.

Definition frames_of (os : Z) (l : list page) : list Frame := page_frame os <$> l.

(** The objects in use. *)
Definition live (os : Z) (l : list page) : list Z := concat (used os <$> l).

(** No page is empty: a partial page has free objects and objects in use. *)
Definition partial_page (os : Z) (p : page) : Prop := pf p <> [] /\ Z.of_nat (length (pf p)) < slub_count os.

Record cache_ok (os : Z) (h : heap) (c : Cache) (P F : list page) : Prop := {
  k_size : objects_size c = os;
  k_partial : plink h (partial_slubs c) (pg <$> P);
  k_full : plink h (full_slubs c) (pg <$> F);
  k_pages : Forall (page_ok os h) (P ++ F);
  k_some : Forall (partial_page os) P;
  k_none : Forall (fun p => pf p = []) F;
}.

(** The words of the objects in use are the same in both memories. *)
Definition keeps_objects (os : Z) (l : list Z) (h h' : heap) : Prop :=
  forall o x, o ∈ l -> o <= x < o + os -> h' !! x = h !! x.

Lemma elem_of_live os l o : o ∈ live os l <-> exists p, p ∈ l /\ o ∈ used os p.
Proof.
  unfold live. induction l as [|p l IH]; cbn; [set_solver|]. rewrite elem_of_app, IH. set_solver.
Qed.

Lemma live_cons os p l : live os (p :: l) = used os p ++ live os l.
Proof. done. Qed.

#[export] Instance live_perm os : Proper ((≡ₚ) ==> (≡ₚ)) (live os).
Proof. intros l l' H. unfold live. by rewrite H. Qed.

#[export] Instance frames_of_perm os : Proper ((≡ₚ) ==> (≡ₚ)) (frames_of os).
Proof. intros l l' H. unfold frames_of. by rewrite H. Qed.

Section Cache.
Context {A : Type} {FS : FrameSource A} {FL : FrameLaws A}.
Context (os : Z) (Hos : class_ok os).
Implicit Types (p q : page) (l : list page) (rest : list Frame).

Lemma pages_perm h a l l' rest : fs_rep h a (frames_of os l ++ rest) -> l ≡ₚ l' ->
  fs_rep h a (frames_of os l' ++ rest).
Proof using. intros H Hp. apply (fs_perm _ _ _ _ H). by rewrite Hp. Qed.

Lemma page_held p l rest : p ∈ l -> page_frame os p ∈ frames_of os l ++ rest.
Proof using. intros Hp. apply elem_of_app. left. by apply list_elem_of_fmap_2. Qed.

Lemma pages_start h a l rest p : fs_rep h a (frames_of os l ++ rest) -> p ∈ l ->
  0 < pg p /\ pg p mod PAGE_SIZE = 0.
Proof using. intros H Hp. by apply (page_start_ok os h a _ p H), page_held. Qed.

(** Two pages share no address. *)
Lemma pages_apart h a p l rest q x : fs_rep h a (frames_of os (p :: l) ++ rest) -> q ∈ l ->
  in_frame (page_frame os p) x -> ~ in_frame (page_frame os q) x.
Proof using.
  intros H Hq Hx Hx'. pose proof (fs_disjoint h a _ _ (page_frame os q) H (page_held q l rest Hq)) as D.
  unfold frame_dis, in_frame in *. lia.
Qed.

Lemma page_first p : in_frame (page_frame os p) (pg p).
Proof using Hos.
  unfold in_frame. cbn. pose proof (c_off os Hos). pose proof (c_fit os Hos). pose proof (c_two os Hos).
  pose proof (c_min os Hos). unfold header_size in *. nia.
Qed.

Lemma pages_NoDup h a l rest : fs_rep h a (frames_of os l ++ rest) -> NoDup (pg <$> l).
Proof using Hos.
  revert rest. induction l as [|p l IH]; intros rest H; [constructor|]. cbn. constructor.
  - intros (q & E & Hq)%list_elem_of_fmap. pose proof (pages_apart h a p l rest q (pg p) H Hq (page_first p)) as N.
    apply N. rewrite E. apply page_first.
  - apply (IH (page_frame os p :: rest)). apply (fs_perm _ _ _ _ H). cbn. by rewrite Permutation_middle.
Qed.

(** A page lies apart from the links of all pages. *)
Lemma word_no_link h a l rest p x : fs_rep h a (frames_of os l ++ rest) -> p ∈ l ->
  in_frame (page_frame os p) x -> x <> f_next (pg p) -> x ∉ f_next <$> (pg <$> l).
Proof using Hos.
  intros H Hp Hx Hn (y & -> & (q & -> & Hq)%list_elem_of_fmap)%list_elem_of_fmap.
  destruct (pages_start h a l rest q H Hq) as [_ Hm]. destruct (header_words (pg q) Hm) as (_ & W & _).
  apply (header_in os Hos q) in W. apply list_elem_of_split in Hp as (l1 & l2 & ->).
  assert (H' : fs_rep h a (frames_of os (p :: l1 ++ l2) ++ rest)) by (apply (pages_perm h a _ _ rest H); by rewrite Permutation_middle).
  assert (Hq' : q ∈ l1 ++ l2).
  { apply elem_of_app in Hq as [Hq|Hq]; [set_solver|]. apply elem_of_cons in Hq as [->|Hq]; [done|set_solver]. }
  by apply (pages_apart h a p (l1 ++ l2) rest q (f_next (pg q)) H').
Qed.

Lemma page_word_link h p : pg p mod PAGE_SIZE = 0 -> page_ok os h p -> ~ page_word p (f_next (pg p)).
Proof using Hos.
  intros Hm (_ & _ & _ & _ & _ & _ & Hs) Hw. destruct (header_words (pg p) Hm) as (_ & W & _).
  unfold page_word, f_page_size, f_free_list, f_inuse, f_objects, f_page_start in Hw.
  destruct Hw as [E|[E|[E|[E|[E|Hi]]]]]; try (unfold f_next in E; lia).
  by apply (slot_word os Hos p (f_next (pg p)) Hm (Hs _ Hi)).
Qed.

(** What happens inside one page and to the links leaves the other pages and
    their objects alone. *)
Lemma others_ok h a p l rest h' : fs_rep h a (frames_of os (p :: l) ++ rest) ->
  (forall x, ~ in_frame (page_frame os p) x -> x ∉ f_next <$> (pg <$> l) -> h' !! x = h !! x) ->
  Forall (page_ok os h) l -> Forall (page_ok os h') l /\ keeps_objects os (live os l) h h'.
Proof using Hos.
  intros H Hx Hl. pose proof (proj1 (Forall_forall _ _) Hl) as Hl'.
  assert (Hrest : fs_rep h a (frames_of os l ++ page_frame os p :: rest)).
  { apply (fs_perm _ _ _ _ H). cbn. by rewrite Permutation_middle. }
  split.
  - apply Forall_forall. intros q Hq. apply (page_ok_frame os h); [by apply Hl'|]. intros x Hw.
    pose proof (page_word_in os Hos h q x (Hl' q Hq) Hw) as Hin.
    destruct (pages_start h a l _ q Hrest Hq) as [_ Hm].
    apply Hx; [intros Hp; by apply (pages_apart h a p l rest q x H)|].
    apply (word_no_link h a l _ q x Hrest Hq Hin). intros ->. by apply (page_word_link h q Hm (Hl' q Hq)).
  - intros o x (q & Hq & [Ho Hn]%elem_of_used)%elem_of_live Hox.
    destruct (slot_in os Hos _ _ Ho) as (B1 & B2 & _).
    assert (Hin : in_frame (page_frame os q) x) by (unfold in_frame; cbn; unfold header_size in *; lia).
    apply Hx; [intros Hp; by apply (pages_apart h a p l rest q x H)|].
    apply (word_no_link h a l _ q x Hrest Hq Hin). unfold f_next, header_size in *. lia.
Qed.

Lemma rest_same h a l rest h' : fs_rep h a (frames_of os l ++ rest) ->
  (forall x, (forall q, q ∈ l -> ~ in_frame (page_frame os q) x) -> h' !! x = h !! x) -> same_on rest h h'.
Proof using Hos.
  intros H Hx g x Hg Hin. apply Hx. intros q Hq Hin'. apply list_elem_of_split in Hq as (l1 & l2 & ->).
  assert (H' : fs_rep h a (page_frame os q :: frames_of os (l1 ++ l2) ++ rest)).
  { apply (fs_perm _ _ _ _ H). change (page_frame os q :: frames_of os (l1 ++ l2) ++ rest)
      with (frames_of os (q :: l1 ++ l2) ++ rest). by rewrite Permutation_middle. }
  pose proof (fs_disjoint _ _ _ _ g H' ltac:(set_solver)) as D. unfold frame_dis, in_frame in *. lia.
Qed.

(** Changes of header words do not show in the objects of the page. *)
Lemma header_keeps h h' (q : Z) : (forall x, ~ header_word q x -> h' !! x = h !! x) -> keeps_objects os (slots os q) h h'.
Proof using Hos.
  intros Hx o x Ho Hox. apply Hx. intros [W _]. destruct (slot_in os Hos _ _ Ho) as [B _].
  unfold header_size in *. lia.
Qed.

Lemma used_slots p : used os p ⊆ slots os (pg p).
Proof using. intros o Ho. by apply elem_of_used in Ho as [? _]. Qed.

Lemma used_none p : slots os (pg p) ⊆ pf p -> used os p = [].
Proof using.
  intros Hs. apply elem_of_nil_inv. intros o [Ho Hn]%elem_of_used. by apply Hn, Hs.
Qed.

Lemma keeps_app (l1 l2 : list Z) h h' : keeps_objects os l1 h h' -> keeps_objects os l2 h h' -> keeps_objects os (l1 ++ l2) h h'.
Proof using. intros H1 H2 o x [Ho|Ho]%elem_of_app; [by apply (H1 o x)|by apply (H2 o x)]. Qed.

Lemma keeps_sub (l1 l2 : list Z) h h' : l1 ⊆ l2 -> keeps_objects os l2 h h' -> keeps_objects os l1 h h'.
Proof using. intros Hs H o x Ho Hx. apply (H o x); [by apply Hs|done]. Qed.

Lemma keeps_trans (l0 : list Z) h1 h2 h3 : keeps_objects os l0 h1 h2 -> keeps_objects os l0 h2 h3 -> keeps_objects os l0 h1 h3.
Proof using. intros H1 H2 o x Ho Hx. rewrite (H2 o x Ho Hx). by apply (H1 o x). Qed.

(** Everything about one page changing its header words: the rest of the cache
    and of the memory. *)
Lemma header_step h a p l rest h' : fs_rep h a (frames_of os (p :: l) ++ rest) -> Forall (page_ok os h) l ->
  (forall x, ~ header_word (pg p) x -> h' !! x = h !! x) ->
  Forall (page_ok os h') l /\ keeps_objects os (live os (p :: l)) h h' /\ same_on rest h h'.
Proof using Hos.
  intros H Hl Hx.
  assert (Hx' : forall x, ~ in_frame (page_frame os p) x -> h' !! x = h !! x).
  { intros x Hn. apply Hx. intros W. by apply Hn, (header_in os Hos p). }
  destruct (others_ok h a p l rest h' H (fun x Hn _ => Hx' x Hn) Hl) as [H1 H2]. split_and!; [done| |].
  - rewrite live_cons. apply keeps_app; [|done]. apply (keeps_sub _ (slots os (pg p))); [apply used_slots|].
    by apply header_keeps.
  - apply (rest_same h a (p :: l) rest h' H). intros x Hn. apply Hx', Hn. left.
Qed.

(** Header words of a page are not links of other pages. *)
Lemma plink_header h a p l rest h' r hd : fs_rep h a (frames_of os (p :: l) ++ rest) -> r ⊆ l ->
  (forall x, ~ header_word (pg p) x -> h' !! x = h !! x) ->
  plink h hd (pg <$> r) -> plink h' hd (pg <$> r).
Proof using Hos.
  intros H Hr Hx Hc. apply (plink_frame h); [done|]. intros y (q & -> & Hq)%list_elem_of_fmap. apply Hx. intros W.
  assert (Hrest : fs_rep h a (frames_of os l ++ page_frame os p :: rest)).
  { apply (fs_perm _ _ _ _ H). cbn. by rewrite Permutation_middle. }
  destruct (pages_start h a l _ q Hrest (Hr _ Hq)) as [_ Hm]. destruct (header_words (pg q) Hm) as (_ & W2 & _).
  apply (pages_apart h a p l rest q (f_next (pg q)) H (Hr _ Hq)); by apply header_in.
Qed.

(** What [Cache::alloc] does. *)
Definition alloc_post (h : heap) (P F : list page) (rest : list Frame) (r : option Z) (h' : heap) (a' : A) (c' : Cache) : Prop :=
  exists P' F', cache_ok os h' c' P' F' /\ fs_rep h' a' (frames_of os (P' ++ F') ++ rest) /\ same_on rest h h' /\
    keeps_objects os (live os (P ++ F)) h h' /\
    match r with
    | None => P' = P /\ F' = F
    | Some o => live os (P' ++ F') ≡ₚ o :: live os (P ++ F) /\
        exists p, p ∈ P' ++ F' /\ o ∈ slots os (pg p)
    end.

Lemma frames_mv q l1 l2 rest : frames_of os ((l1 ++ q :: l2)) ++ rest ≡ₚ frames_of os (q :: l1 ++ l2) ++ rest.
Proof using. by rewrite Permutation_middle. Qed.

(** The first page of the partial list gives an object away. *)
Lemma alloc_partial_ok h a c p P F rest : cache_ok os h c (p :: P) F ->
  fs_rep h a (frames_of os ((p :: P) ++ F) ++ rest) ->
  exists r h' a' c', Cache_alloc h a c = Ret (r, h', a', c') /\ alloc_post h (p :: P) F rest r h' a' c'.
Proof using Hos.
  intros [K1 K2 K3 K4 K5 K6] H. apply Forall_cons in K5 as [[Kp Kl] K5]. apply Forall_cons in K4 as [K4p K4].
  destruct (pages_start h a _ rest p H ltac:(left)) as [H0 Hm].
  destruct (header_words (pg p) Hm) as (W1 & W2 & W3 & W4 & W5 & W6).
  destruct K2 as (Eh & _ & n & Hn & K2). destruct (pf p) as [|o L] eqn:El; [done|].
  assert (Hfr : page_frame os p ∈ frames_of os ((p :: P) ++ F) ++ rest) by (cbn; left).
  destruct (alloc_obj_ok os Hos h a _ p o L H Hfr K4p El) as (h1 & Ea & R1 & Kp1 & U1).
  assert (Hx1 : forall x, ~ header_word (pg p) x -> h1 !! x = h !! x).
  { intros x Hx. apply U1. intros Hi. apply Hx. set_solver. }
  destruct (header_step h a p (P ++ F) rest h1 H K4 Hx1) as (K4' & Kk & Ks).
  assert (Ho : o ∈ slots os (pg p) /\ o ∉ L).
  { destruct K4p as (_ & _ & _ & _ & _ & Hnd & Hs). rewrite El in *. split; [apply Hs; left|].
    by apply NoDup_cons in Hnd as [? _]. }
  assert (Hlive : live os (mkPage (pg p) L :: P ++ F) ≡ₚ o :: live os ((p :: P) ++ F)).
  { cbn [app]. rewrite !live_cons, (used_take os Hos (pg p) o L) by tauto. rewrite <- El. by destruct p. }
  unfold Cache_alloc. rewrite Eh. assert (SlubPageList_is_empty (pg p) = false) as -> by (apply Z.eqb_neq; lia).
  cbn [negb]. rewrite Ea, outcome_bind_Ret. unfold SlubPage_is_full, load.
  pose proof (proj1 (proj2 Kp1)) as V2. pose proof (proj1 (proj2 (proj2 Kp1))) as V3. cbn [pg pf] in V2, V3.
  rewrite V2, V3. cbn [expect]. rewrite !outcome_bind_Ret.
  assert (Hn1 : h1 !! f_next (pg p) = Some n).
  { rewrite U1; [done|]. unfold f_next, f_free_list, f_inuse. rewrite !not_elem_of_cons. split_and!; [lia|lia|apply not_elem_of_nil]. }
  destruct (Z.eqb_spec (slub_count os - Z.of_nat (length L)) (slub_count os)) as [Hfull|Hfull].
  - (* the page is full now and changes lists *)
    assert (L = []) as -> by (destruct L; [done|cbn in Hfull; lia]).
    unfold SlubPageList_pop, load. assert (SlubPageList_is_empty (pg p) = false) as -> by (apply Z.eqb_neq; lia).
    rewrite Hn1. cbn [expect]. rewrite !outcome_bind_Ret.
    assert (K3' : plink h1 (full_slubs c) (pg <$> F)) by (apply (plink_header h a p (P ++ F) rest h1); try done; set_solver).
    assert (K2' : plink h1 n (pg <$> P)) by (apply (plink_header h a p (P ++ F) rest h1); try done; set_solver).
    assert (Hnp : pg p ∉ pg <$> (P ++ F)).
    { pose proof (pages_NoDup h a _ rest H) as Hnd. cbn in Hnd. by apply NoDup_cons in Hnd as [? _]. }
    rewrite fmap_app, not_elem_of_app in Hnp. destruct Hnp as [Hp1 Hp2].
    destruct (page_push_ok h1 (full_slubs c) (pg <$> F) (pg p) K3' Hp2 ltac:(lia) ltac:(by rewrite Hn1)) as [-> Kf].
    rewrite outcome_bind_Ret. eexists _, _, _, _. split; [reflexivity|].
    assert (R2 : fs_rep (<[f_next (pg p) := full_slubs c]> h1) a (frames_of os ((p :: P) ++ F) ++ rest)).
    { apply (fs_write h1 a _ (page_frame os p)); [done|done|]. by apply header_in. }
    assert (Hx2 : forall x, ~ header_word (pg p) x -> (<[f_next (pg p) := full_slubs c]> h1 : heap) !! x = h1 !! x).
    { intros x Hx. apply lookup_insert_ne. by intros <-. }
    destruct (header_step h1 a p (P ++ F) rest _ R1 K4' Hx2) as (K4'' & Kk2 & Ks2).
    exists P, (mkPage (pg p) [] :: F). split; [|split; [|split; [|split; [|split]]]].
    + split; cbn [objects_size partial_slubs full_slubs]; try done.
      * by apply (plink_header h1 a p (P ++ F) rest _ P n R1 ltac:(set_solver) Hx2).
      * apply Forall_app in K4'' as [Ka Kb]. apply Forall_app. split; [done|]. constructor; [|done].
        apply (page_ok_frame os h1); [done|]. intros x Hx. apply lookup_insert_ne. intros <-.
        by apply (page_word_link h1 (mkPage (pg p) []) Hm Kp1).
      * by constructor.
    + apply (fs_perm _ _ _ _ R2). symmetry. apply (frames_mv (mkPage (pg p) []) P F rest).
    + by apply (same_on_trans _ _ h1).
    + by apply (keeps_trans _ _ h1).
    + by rewrite <- Permutation_middle.
    + exists (mkPage (pg p) []). split; [set_solver|tauto].
  - (* the page stays where it is *)
    eexists _, _, _, _. split; [reflexivity|]. exists (mkPage (pg p) L :: P), F.
    split; [|split; [exact R1|split; [done|split; [done|split; [exact Hlive|]]]]].
    + split; try done.
      * rewrite Eh. split; [done|]. split; [cbn; lia|]. exists n. split; [exact Hn1|].
        apply (plink_header h a p (P ++ F) rest h1); try done; set_solver.
      * apply (plink_header h a p (P ++ F) rest h1); try done; set_solver.
      * by constructor.
      * constructor; [|done]. split; cbn [pf]; [intros ->; apply Hfull; cbn [length]; lia|]. cbn [length] in Kl. lia.
    + exists (mkPage (pg p) L). split; [left|tauto].
Qed.

(** A cache whose frames are not written stays as it is. *)
Lemma cache_same h a c P F rest h' : fs_rep h a (frames_of os (P ++ F) ++ rest) -> cache_ok os h c P F ->
  same_on (frames_of os (P ++ F)) h h' ->
  cache_ok os h' c P F /\ keeps_objects os (live os (P ++ F)) h h'.
Proof using Hos.
  intros H [K1 K2 K3 K4 K5 K6] Hs.
  assert (Hw : forall p x, p ∈ P ++ F -> in_frame (page_frame os p) x -> h' !! x = h !! x).
  { intros p x Hp. apply Hs. by apply list_elem_of_fmap_2. }
  assert (Hl : forall p, p ∈ P ++ F -> h' !! f_next (pg p) = h !! f_next (pg p)).
  { intros p Hp. apply (Hw p); [done|]. apply (header_in os Hos). destruct (pages_start h a _ rest p H Hp) as [_ Hm].
    by apply header_words. }
  pose proof (proj1 (Forall_forall _ _) K4) as K4'. split; [split; try done|].
  - apply (plink_frame h); [done|]. intros x (p & -> & Hp)%list_elem_of_fmap. apply Hl. set_solver.
  - apply (plink_frame h); [done|]. intros x (p & -> & Hp)%list_elem_of_fmap. apply Hl. set_solver.
  - apply Forall_forall. intros p Hp. apply (page_ok_frame os h); [by apply K4'|]. intros x Hx.
    apply (Hw p x Hp). by apply (page_word_in os Hos h p x (K4' p Hp)).
  - intros o x (p & Hp & Ho)%elem_of_live Hx. apply (Hw p x Hp). apply used_slots in Ho.
    destruct (slot_in os Hos _ _ Ho) as (B1 & B2 & _). unfold in_frame. cbn. unfold header_size in *. lia.
Qed.

Lemma alloc_fresh_ok h a c F rest : cache_ok os h c [] F -> fs_rep h a (frames_of os ([] ++ F) ++ rest) ->
  exists r h' a' c', Cache_alloc h a c = Ret (r, h', a', c') /\ alloc_post h [] F rest r h' a' c'.
Proof using Hos.
  intros Hc H. pose proof (k_size _ _ _ _ _ Hc) as Es. pose proof (k_partial _ _ _ _ _ Hc) as Ep. cbn in Ep.
  unfold Cache_alloc. rewrite Ep. cbn [SlubPageList_is_empty Z.eqb negb]. rewrite Es.
  destruct (page_new_ok os Hos h a _ H) as (r & h1 & a1 & -> & S1 & Hr). rewrite outcome_bind_Ret.
  assert (S1a : same_on (frames_of os ([] ++ F)) h h1) by (apply (same_on_sub _ _ _ _ S1); set_solver).
  assert (S1b : same_on rest h h1) by (apply (same_on_sub _ _ _ _ S1); set_solver).
  destruct (cache_same h a c [] F rest h1 H Hc S1a) as [Hc1 Kk1].
  destruct r as [q|]; [|eexists _, _, _, _; split; [reflexivity|]; exists [], F; done].
  destruct Hr as (R1 & Kp & Hn). set (p := mkPage q (reverse (slots os q))) in *.
  change (page_frame os (mkPage q [])) with (page_frame os p) in R1.
  change (fs_rep h1 a1 (frames_of os (p :: F) ++ rest)) in R1.
  destruct (pages_start h1 a1 _ rest p R1 ltac:(left)) as [H0 Hm].
  destruct (header_words (pg p) Hm) as (W1 & W2 & W3 & W4 & W5 & W6).
  pose proof (slots_length os Hos q) as Hlen. pose proof (c_two os Hos) as Ht.
  destruct (pf p) as [|o L] eqn:El.
  { cbn in El. rewrite <- length_reverse, El in Hlen. cbn [length] in Hlen. lia. }
  assert (HL : Z.of_nat (length L) = slub_count os - 1).
  { rewrite <- length_reverse in Hlen. cbn in El. rewrite El in Hlen. cbn [length] in Hlen. lia. }
  assert (Hfr : page_frame os p ∈ frames_of os (p :: F) ++ rest) by (cbn; left).
  destruct (alloc_obj_ok os Hos h1 a1 _ p o L R1 Hfr Kp El) as (h2 & Ea & R2 & Kp2 & U2).
  change (pg p) with q in *. rewrite Ea, outcome_bind_Ret.
  assert (Hx2 : forall x, ~ header_word q x -> h2 !! x = h1 !! x).
  { intros x Hx. apply U2. intros Hi. apply Hx. set_solver. }
  destruct (header_step h1 a1 p F rest h2 R1 (k_pages _ _ _ _ _ Hc1) Hx2) as (K4 & Kk2 & Ks2).
  assert (Ho : o ∈ slots os q /\ o ∉ L).
  { destruct Kp as (_ & _ & _ & _ & _ & Hnd & Hs). rewrite El in *. split; [apply Hs; left|].
    by apply NoDup_cons in Hnd as [? _]. }
  unfold SlubPageList_push.
  destruct (fs_store h2 a1 _ _ (f_next q) 0 R2 Hfr (header_in os Hos p _ W2) (proj2 W2)) as [-> R3].
  rewrite !outcome_bind_Ret. eexists _, _, _, _. split; [reflexivity|].
  assert (Hx3 : forall x, ~ header_word q x -> (<[f_next q := 0]> h2 : heap) !! x = h2 !! x).
  { intros x Hx. apply lookup_insert_ne. by intros <-. }
  destruct (header_step h2 a1 p F rest _ R2 K4 Hx3) as (K4' & Kk3 & Ks3).
  exists [mkPage q L], F. split; [|split; [exact R3|split; [|split; [|split]]]].
  - split; cbn [objects_size partial_slubs full_slubs]; try done.
    + split; [done|]. split; [cbn; lia|]. exists 0. by rewrite lookup_insert_eq.
    + apply (plink_header h2 a1 p F rest _ F _ R2 ltac:(done) Hx3).
      by apply (plink_header h1 a1 p F rest _ F _ R1 ltac:(done) Hx2), Hc1.
    + constructor; [|done]. apply (page_ok_frame os h2); [done|]. intros x Hx. apply lookup_insert_ne. intros <-.
      by apply (page_word_link h2 (mkPage q L) Hm Kp2).
    + constructor; [|constructor]. split; cbn [pf]; [intros ->; cbn [length] in HL; lia|lia].
    + apply Hc.
  - apply (same_on_trans _ _ h1); [done|]. by apply (same_on_trans _ _ h2).
  - apply (keeps_trans _ _ h1); [done|]. apply (keeps_trans _ _ h2);
      (eapply (keeps_sub _ (live os (p :: F))); [rewrite live_cons; set_solver|done]).
  - change (live os ([mkPage q L] ++ F)) with (used os (mkPage q L) ++ live os F).
    rewrite (used_take os Hos q o L) by tauto.
    assert (used os (mkPage q (o :: L)) = []) as ->; [|done]. apply used_none. cbn in El. cbn. rewrite <- El.
    intros x Hx. by apply elem_of_reverse.
  - exists (mkPage q L). split; [left|tauto].
Qed.

(** ** Release *)

Lemma find_page_hit fuel h cur p l1 l2 ptr : plink h cur (pg <$> l1 ++ p :: l2) ->
  Forall (page_ok os h) (l1 ++ p :: l2) -> (length l1 < fuel)%nat ->
  (forall q, q ∈ l1 -> ~ in_frame (page_frame os q) ptr) -> in_frame (page_frame os p) ptr ->
  find_page fuel h cur ptr = Ret (Some (pg p)).
Proof using.
  revert fuel cur. induction l1 as [|q l1 IH]; intros [|fuel] cur Hc Hl Hf Hn Hp; cbn [length] in Hf; try lia;
    cbn [app] in *; apply Forall_cons in Hl as [Hq Hl]; destruct Hc as (-> & H0 & n & Hn1 & Hc);
    cbn [find_page]; unfold SlubPageListIter_next, load; rewrite (proj2 (Z.eqb_neq _ _) H0), Hn1; cbn [expect];
    rewrite !outcome_bind_Ret; destruct Hq as (V1 & _ & _ & V4 & _); rewrite V4, V1; cbn [expect]; rewrite !outcome_bind_Ret.
  - unfold in_frame in Hp. cbn in Hp. by rewrite (proj2 (Z.leb_le _ _)), (proj2 (Z.ltb_lt _ _)) by lia.
  - assert ((pg q <=? ptr) && (ptr <? pg q + slub_bytes os) = false) as ->.
    { specialize (Hn q ltac:(left)). unfold in_frame in Hn. cbn in Hn.
      destruct (Z.leb_spec (pg q) ptr); [|done]. destruct (Z.ltb_spec ptr (pg q + slub_bytes os)); [|done]. lia. }
    apply IH; [done|done|lia| |done]. intros q' Hq'. apply Hn. by right.
Qed.

Lemma find_page_miss fuel h cur l ptr : plink h cur (pg <$> l) -> Forall (page_ok os h) l ->
  (length l < fuel)%nat -> (forall q, q ∈ l -> ~ in_frame (page_frame os q) ptr) ->
  find_page fuel h cur ptr = Ret None.
Proof using.
  revert fuel cur. induction l as [|q l IH]; intros [|fuel] cur Hc Hl Hf Hn; cbn [length] in Hf; try lia; cbn [find_page].
  { cbn in Hc. subst cur. done. }
  apply Forall_cons in Hl as [Hq Hl]; destruct Hc as (-> & H0 & n & Hn1 & Hc).
  unfold SlubPageListIter_next, load; rewrite (proj2 (Z.eqb_neq _ _) H0), Hn1; cbn [expect].
  rewrite !outcome_bind_Ret; destruct Hq as (V1 & _ & _ & V4 & _); rewrite V4, V1; cbn [expect]; rewrite !outcome_bind_Ret.
  assert ((pg q <=? ptr) && (ptr <? pg q + slub_bytes os) = false) as ->.
  { specialize (Hn q ltac:(left)). unfold in_frame in Hn. cbn in Hn.
    destruct (Z.leb_spec (pg q) ptr); [|done]. destruct (Z.ltb_spec ptr (pg q + slub_bytes os)); [|done]. lia. }
  apply IH; [done|done|lia|]. intros q' Hq'. apply Hn. by right.
Qed.

(** An object of [p] and header words of [p] change, and links. *)
Lemma release_step h a p l rest o h' : fs_rep h a (frames_of os (p :: l) ++ rest) -> Forall (page_ok os h) l ->
  o ∈ slots os (pg p) ->
  (forall x, x <> o -> ~ header_word (pg p) x -> x ∉ f_next <$> (pg <$> l) -> h' !! x = h !! x) ->
  Forall (page_ok os h') l /\ keeps_objects os (used os (mkPage (pg p) (o :: pf p)) ++ live os l) h h' /\
  same_on rest h h'.
Proof using Hos.
  intros H Hl Ho Hx. destruct (pages_start h a _ rest p H ltac:(left)) as [_ Hm].
  pose proof (slot_word os Hos p o Hm Ho) as (Io & _ & _).
  assert (Hx' : forall x, ~ in_frame (page_frame os p) x -> x ∉ f_next <$> (pg <$> l) -> h' !! x = h !! x).
  { intros x Hn Hn'. apply Hx; [by intros ->| |done]. intros W. by apply Hn, (header_in os Hos p). }
  destruct (others_ok h a p l rest h' H Hx' Hl) as [H1 H2]. split_and!; [done| |].
  - apply keeps_app; [|done]. intros o' x [Ho' Hn]%elem_of_used Hox. cbn [pg pf] in *.
    destruct (slot_in os Hos _ _ Ho') as (B1 & B2 & _). unfold header_size in *.
    assert (o' <> o) by set_solver. pose proof (slot_apart os Hos _ _ _ Ho' Ho ltac:(done)).
    apply Hx; [lia|unfold header_word, header_size; lia|].
    intros Hi. eapply (word_no_link h a (p :: l) rest p x H); [left| | |].
    { unfold in_frame. cbn. lia. } { unfold f_next. lia. } { cbn. by right. }
  - apply (rest_same h a (p :: l) rest h' H). intros x Hn. apply Hx'; [apply Hn; left|].
    intros (y & -> & (q & -> & Hq)%list_elem_of_fmap)%list_elem_of_fmap.
    destruct (pages_start h a _ rest q H ltac:(by right)) as [_ Hmq]. destruct (header_words (pg q) Hmq) as (_ & W & _).
    apply (Hn q); [by right|]. by apply (header_in os Hos).
Qed.

Definition dealloc_post (h : heap) (P F : list page) (rest : list Frame) (o : Z) (h' : heap) (a' : A) (c' : Cache) : Prop :=
  exists P' F', cache_ok os h' c' P' F' /\ fs_rep h' a' (frames_of os (P' ++ F') ++ rest) /\ same_on rest h h' /\
    live os (P ++ F) ≡ₚ o :: live os (P' ++ F') /\ keeps_objects os (live os (P' ++ F')) h h'.

(** The links of a list of pages without the page that is removed. *)
Lemma del_pages l1 p l2 : NoDup (pg <$> l1 ++ p :: l2) -> del (pg p) (pg <$> l1 ++ p :: l2) = pg <$> l1 ++ l2.
Proof using.
  rewrite fmap_app, fmap_cons, fmap_app. intros (N1 & N2 & N3)%NoDup_app. apply NoDup_cons in N3 as [N3 _].
  unfold del. rewrite List.filter_app. cbn [List.filter]. rewrite Z.eqb_refl. cbn [negb].
  change (del (pg p) (pg <$> l1) ++ del (pg p) (pg <$> l2) = (pg <$> l1) ++ (pg <$> l2)).
  rewrite !del_notin; [done|done|]. intros Hi. apply (N2 _ Hi). left.
Qed.

Lemma in_own_frame p o : o ∈ slots os (pg p) -> in_frame (page_frame os p) o.
Proof using Hos.
  intros Ho. destruct (slot_in os Hos _ _ Ho) as (B1 & B2 & _). unfold in_frame. cbn.
  pose proof (c_min os Hos). unfold header_size in *. lia.
Qed.

(** Only the page of an object contains its address. *)
Lemma not_in_others h a p l rest o q : fs_rep h a (frames_of os (p :: l) ++ rest) -> o ∈ slots os (pg p) ->
  q ∈ l -> ~ in_frame (page_frame os q) o.
Proof using Hos. intros H Ho Hq. by apply (pages_apart h a p l rest q o H Hq), in_own_frame. Qed.

(** Giving an object back changes its first word and the header of its page, but
    no link. *)
Lemma release_obj h a p l rest o : fs_rep h a (frames_of os (p :: l) ++ rest) -> page_ok os h p -> o ∈ used os p ->
  exists h1, SlubPage_dealloc_obj h (pg p) o = Ret h1 /\ fs_rep h1 a (frames_of os (p :: l) ++ rest) /\
    page_ok os h1 (mkPage (pg p) (o :: pf p)) /\
    (forall x, x <> o -> ~ header_word (pg p) x -> h1 !! x = h !! x) /\
    (forall q, q ∈ p :: l -> h1 !! f_next (pg q) = h !! f_next (pg q)).
Proof using Hos.
  intros H Hp Hu. destruct (proj1 (elem_of_used os p o) Hu) as [Ho _].
  destruct (pages_start h a _ rest p H ltac:(left)) as [_ Hm].
  destruct (header_words (pg p) Hm) as (_ & W2 & W3 & W4 & _).
  assert (Hfr : page_frame os p ∈ frames_of os (p :: l) ++ rest) by (cbn; left).
  destruct (dealloc_obj_ok os Hos h a _ p o H Hfr Hp Hu) as (h1 & E1 & R1 & Kp1 & U1).
  exists h1. split; [done|]. split; [done|]. split; [done|]. split.
  { intros x Hx Hh. apply U1. rewrite !elem_of_cons, elem_of_nil. intros [->|[->|[->|[]]]]; done. }
  intros q Hq. apply U1. intros Hi. destruct (pages_start h a _ rest q H Hq) as [_ Hmq].
  destruct (header_words (pg q) Hmq) as (_ & Wq & _).
  assert (Hqf : in_frame (page_frame os q) (f_next (pg q))) by by apply (header_in os Hos).
  apply elem_of_cons in Hq as [->|Hq].
  - apply elem_of_cons in Hi as [Hi|Hi]; [rewrite Hi in Wq; by apply (slot_word os Hos p o Hm)|].
    unfold f_next, f_free_list, f_inuse in Hi. rewrite !elem_of_cons, elem_of_nil in Hi. lia.
  - apply (pages_apart h a p l rest q (f_next (pg q)) H Hq); [|done].
    apply elem_of_cons in Hi as [->|Hi]; [by apply in_own_frame|]. apply (header_in os Hos p).
    rewrite !elem_of_cons, elem_of_nil in Hi. by destruct Hi as [->|[->|[]]].
Qed.

(** Writing a link is a write inside the frame of its page. *)
Lemma fs_link h a l rest q v : fs_rep h a (frames_of os l ++ rest) -> q ∈ l ->
  fs_rep (<[f_next (pg q) := v]> h) a (frames_of os l ++ rest) /\ is_Some (h !! f_next (pg q)).
Proof using Hos.
  intros H Hq. destruct (pages_start h a _ rest q H Hq) as [_ Hmq]. destruct (header_words (pg q) Hmq) as (_ & Wq & _).
  pose proof (header_in os Hos q _ Wq) as Hin. split.
  - apply (fs_write h a _ (page_frame os q)); [done|by apply page_held|done].
  - apply (fs_load h a (frames_of os l ++ rest) (page_frame os q)); [done|by apply page_held|done|apply Wq].
Qed.

Lemma link_ne q y : pg q <> y -> f_next (pg q) <> f_next y.
Proof using. unfold f_next. lia. Qed.

(** Removing a page from a list of pages writes links of that list only. *)
Lemma remove_page h a l rest hd l1 p l2 : fs_rep h a (frames_of os l ++ rest) -> l1 ++ p :: l2 ⊆ l ->
  plink h hd (pg <$> l1 ++ p :: l2) -> NoDup (pg <$> l1 ++ p :: l2) ->
  exists h' hd', SlubPageList_remove h hd (pg p) = Ret (true, h', hd') /\
    fs_rep h' a (frames_of os l ++ rest) /\ plink h' hd' (pg <$> l1 ++ l2) /\
    forall x, x ∉ f_next <$> (pg <$> l1 ++ p :: l2) -> h' !! x = h !! x.
Proof using Hos.
  intros H Hs Hc Hnd.
  destruct (page_remove_ok h hd _ (pg p) Hc Hnd) as (h' & hd' & E & Hc' & C).
  { apply list_elem_of_fmap_2. set_solver. }
  rewrite (del_pages l1 p l2 Hnd) in Hc'. exists h', hd'. split; [done|].
  destruct C as [->|(y & n & (q & -> & Hq)%list_elem_of_fmap & ->)]; [done|].
  split; [by apply (fs_link h a l rest q n H), Hs|]. split; [done|].
  intros x Hx. apply lookup_insert_ne. intros <-. apply Hx. by do 2 apply list_elem_of_fmap_2.
Qed.

Lemma dealloc_full_ok h a c P F1 p F2 rest o : cache_ok os h c P (F1 ++ p :: F2) ->
  fs_rep h a (frames_of os (P ++ F1 ++ p :: F2) ++ rest) -> o ∈ used os p ->
  exists h' a' c', Cache_dealloc h a c o = Ret (true, h', a', c') /\
    dealloc_post h P (F1 ++ p :: F2) rest o h' a' c'.
Proof using Hos.
  intros [K1 K2 K3 K4 K5 K6] H Hu. destruct (proj1 (elem_of_used os p o) Hu) as [Ho Hno].
  assert (Hperm : P ++ F1 ++ p :: F2 ≡ₚ p :: P ++ F1 ++ F2) by by rewrite <- Permutation_middle, <- Permutation_middle.
  pose proof (pages_perm h a _ _ rest H Hperm) as H'.
  pose proof (pages_NoDup h a _ rest H) as Hnd. rewrite fmap_app in Hnd. apply NoDup_app in Hnd as (NP & NPF & NF).
  pose proof (plink_length h _ _ K3 NF) as HlF. rewrite length_fmap, length_app in HlF. cbn [length] in HlF.
  apply Forall_app in K4 as [K4P K4F]. pose proof K4F as K4F'. apply Forall_app in K4F' as [K4a K4b].
  apply Forall_cons in K4b as [K4p K4b].
  unfold Cache_dealloc. rewrite (find_page_hit (S (size h)) h (full_slubs c) p F1 F2 o K3 K4F);
    [|lia|intros q Hq; apply (not_in_others h a p (P ++ F1 ++ F2) rest o q H' Ho); set_solver|by apply in_own_frame].
  rewrite outcome_bind_Ret.
  destruct (release_obj h a p (P ++ F1 ++ F2) rest o H' K4p Hu) as (h1 & -> & R1 & Kp1 & U1 & L1). rewrite outcome_bind_Ret.
  assert (K3' : plink h1 (full_slubs c) (pg <$> F1 ++ p :: F2)).
  { apply (plink_frame h); [done|]. intros x (q & -> & Hq)%list_elem_of_fmap. apply L1. set_solver. }
  destruct (remove_page h1 a _ rest _ F1 p F2 R1 ltac:(set_solver) K3' NF) as (h2 & fulls & -> & R2 & K3'' & U2).
  rewrite outcome_bind_Ret.
  assert (Hpp : pg p ∉ pg <$> P) by (intros Hi; apply (NPF _ Hi), list_elem_of_fmap_2; set_solver).
  assert (K2' : plink h2 (partial_slubs c) (pg <$> P)).
  { apply (plink_frame h); [done|]. intros x (q & -> & Hq)%list_elem_of_fmap. rewrite U2; [apply L1; set_solver|].
    intros (y & E & Hy)%list_elem_of_fmap. unfold f_next in E. assert (pg q = y) as <- by lia.
    apply (NPF (pg q)); [by apply list_elem_of_fmap_2|done]. }
  destruct (fs_link h2 a _ rest p (partial_slubs c) R2 ltac:(left)) as [R3 Hsome].
  destruct (pages_start h a _ rest p H' ltac:(left)) as [H0 Hm].
  destruct (page_push_ok h2 (partial_slubs c) (pg <$> P) (pg p) K2' Hpp ltac:(lia) Hsome) as [-> K2''].
  rewrite outcome_bind_Ret. eexists _, _, _. split; [reflexivity|].
  set (h3 := <[f_next (pg p) := partial_slubs c]> h2) in *. set (p' := mkPage (pg p) (o :: pf p)) in *.
  destruct (header_words (pg p) Hm) as (_ & W2 & _).
  assert (Hx : forall x, x <> o -> ~ header_word (pg p) x -> x ∉ f_next <$> (pg <$> P ++ F1 ++ F2) -> h3 !! x = h !! x).
  { intros x X1 X2 X3. unfold h3. rewrite lookup_insert_ne by by intros <-. rewrite U2; [by apply U1|].
    intros (y & -> & (q & -> & Hq)%list_elem_of_fmap)%list_elem_of_fmap. assert (q = p \/ q ∈ P ++ F1 ++ F2) as [->|Hq'] by set_solver; [done|].
    apply X3. by do 2 apply list_elem_of_fmap_2. }
  destruct (release_step h a p (P ++ F1 ++ F2) rest o h3 H') as (Kl & Kk & Ks); [|done|done|].
  { apply Forall_app. split; [done|]. by apply Forall_app. }
  assert (Kp3 : page_ok os h3 p').
  { apply (page_ok_frame os h1); [done|]. intros x Hw. pose proof (page_word_in os Hos h1 p' x Kp1 Hw) as Hin.
    assert (Hne : x <> f_next (pg p)) by (intros ->; by apply (page_word_link h1 p' Hm Kp1)).
    unfold h3. rewrite lookup_insert_ne by done. apply U2. intros Hi.
    apply (word_no_link h a _ rest p x H'); [left|exact Hin|done|].
    apply list_elem_of_fmap in Hi as (y & -> & Hy). apply list_elem_of_fmap_2. revert Hy. rewrite !fmap_app. set_solver. }
  exists (p' :: P), (F1 ++ F2). split; [|split; [exact R3|split; [exact Ks|split]]].
  - split; cbn [objects_size partial_slubs full_slubs]; try done.
    + apply plink_insert; [done|]. intros y (q & -> & Hq)%list_elem_of_fmap E. unfold f_next in E.
      rewrite fmap_app, fmap_cons in NF. apply NoDup_app in NF as (_ & N2 & N3). apply NoDup_cons in N3 as [N3 _].
      assert (Eq : pg q = pg p) by lia. apply elem_of_app in Hq as [Hq|Hq].
      * apply (N2 (pg q)); [by apply list_elem_of_fmap_2|]. rewrite Eq. left.
      * apply N3. rewrite <- Eq. by apply list_elem_of_fmap_2.
    + by constructor.
    + constructor; [|done]. apply Forall_app in K6 as [_ K6]. apply Forall_cons in K6 as [K6 _].
      split; cbn [p' pf]; [done|]. rewrite K6. cbn [length]. pose proof (c_two os Hos). lia.
    + apply Forall_app in K6 as [K6a K6b]. apply Forall_cons in K6b as [_ K6b]. by apply Forall_app.
  - rewrite Hperm. cbn [app]. rewrite !live_cons. unfold p'. destruct p as [q pf0]. cbn [pg pf] in *.
    by rewrite (used_take os Hos q o pf0 Ho Hno).
  - exact Kk.
Qed.

(** The object is given back and its page keeps other objects in use. *)
Lemma dealloc_stays h a c P1 p P2 F rest o h1 : cache_ok os h c (P1 ++ p :: P2) F ->
  fs_rep h a (frames_of os (p :: P1 ++ P2 ++ F) ++ rest) -> o ∈ used os p ->
  fs_rep h1 a (frames_of os (p :: P1 ++ P2 ++ F) ++ rest) -> page_ok os h1 (mkPage (pg p) (o :: pf p)) ->
  (forall x, x <> o -> ~ header_word (pg p) x -> h1 !! x = h !! x) ->
  (forall q, q ∈ p :: P1 ++ P2 ++ F -> h1 !! f_next (pg q) = h !! f_next (pg q)) ->
  Z.of_nat (length (o :: pf p)) < slub_count os ->
  dealloc_post h (P1 ++ p :: P2) F rest o h1 a c.
Proof using Hos.
  intros [K1 K2 K3 K4 K5 K6] H' Hu R1 Kp1 U1 L1 Hlt. destruct (proj1 (elem_of_used os p o) Hu) as [Ho Hno].
  set (p' := mkPage (pg p) (o :: pf p)) in *.
  assert (Hperm : forall q, (P1 ++ q :: P2) ++ F ≡ₚ q :: P1 ++ P2 ++ F).
  { intros q. by rewrite <- Permutation_middle, <- app_comm_cons, <- app_assoc. }
  assert (Kl0 : Forall (page_ok os h) (P1 ++ P2 ++ F)).
  { rewrite Hperm in K4. by apply Forall_cons in K4 as [_ K4]. }
  destruct (release_step h a p (P1 ++ P2 ++ F) rest o h1 H' Kl0 Ho (fun x X1 X2 _ => U1 x X1 X2)) as (Kl & Kk & Ks).
  exists (P1 ++ p' :: P2), F. split; [|split; [|split; [done|split]]].
  - assert (Epg : pg <$> P1 ++ p' :: P2 = pg <$> P1 ++ p :: P2) by by rewrite !fmap_app, !fmap_cons.
    split; try done.
    + rewrite Epg. apply (plink_frame h); [done|]. intros x (q & -> & Hq)%list_elem_of_fmap. apply L1. clear -Hq. set_solver.
    + apply (plink_frame h); [done|]. intros x (q & -> & Hq)%list_elem_of_fmap. apply L1. clear -Hq. set_solver.
    + rewrite Hperm. by constructor.
    + apply Forall_app in K5 as [K5a K5b]. apply Forall_cons in K5b as [_ K5b]. apply Forall_app. split; [done|].
      constructor; [|done]. by split.
  - apply (pages_perm h1 a (p' :: P1 ++ P2 ++ F)); [exact R1|]. by rewrite Hperm.
  - rewrite !Hperm, !live_cons. unfold p'. destruct p as [q pf0]. cbn [pg pf] in *.
    by rewrite (used_take os Hos q o pf0 Ho Hno).
  - apply (keeps_sub _ (live os (p' :: P1 ++ P2 ++ F))); [|done]. intros y. by rewrite Hperm.
Qed.

(** The last object of a page is given back, and the page to the frame allocator. *)
Lemma dealloc_page h a c P1 p P2 F rest o h1 : cache_ok os h c (P1 ++ p :: P2) F ->
  fs_rep h a (frames_of os (p :: P1 ++ P2 ++ F) ++ rest) -> o ∈ used os p ->
  fs_rep h1 a (frames_of os (p :: P1 ++ P2 ++ F) ++ rest) -> page_ok os h1 (mkPage (pg p) (o :: pf p)) ->
  (forall x, x <> o -> ~ header_word (pg p) x -> h1 !! x = h !! x) ->
  (forall q, q ∈ p :: P1 ++ P2 ++ F -> h1 !! f_next (pg q) = h !! f_next (pg q)) ->
  Z.of_nat (length (o :: pf p)) = slub_count os -> NoDup (pg <$> P1 ++ p :: P2) ->
  exists h' a' c', ('(_, h2, partial) ← SlubPageList_remove h1 (partial_slubs c) (pg p);
       page_size ← load h2 (f_page_size (pg p));
       '(h2, a) ← fs_dealloc h2 a (mkFrame (pg p) page_size);
       mret (true, h2, a, mkCache (objects_size c) partial (full_slubs c))) = Ret (true, h', a', c') /\
    dealloc_post h (P1 ++ p :: P2) F rest o h' a' c'.
Proof using Hos.
  intros [K1 K2 K3 K4 K5 K6] H' Hu R1 Kp1 U1 L1 Heq NP. destruct (proj1 (elem_of_used os p o) Hu) as [Ho Hno].
  set (p' := mkPage (pg p) (o :: pf p)) in *. set (l := P1 ++ P2 ++ F) in *.
  assert (Hperm : forall q, (P1 ++ q :: P2) ++ F ≡ₚ q :: l).
  { intros q. by rewrite <- Permutation_middle, <- app_comm_cons, <- app_assoc. }
  destruct (pages_start h a _ rest p H' ltac:(left)) as [H0 Hm].
  assert (K2' : plink h1 (partial_slubs c) (pg <$> P1 ++ p :: P2)).
  { apply (plink_frame h); [done|]. intros x (q & -> & Hq)%list_elem_of_fmap. apply L1. clear -Hq. set_solver. }
  destruct (remove_page h1 a (p :: l) rest (partial_slubs c) P1 p P2 R1) as (h2 & partial & -> & R2 & K2'' & U2); [|done|done|].
  { clear. set_solver. }
  rewrite outcome_bind_Ret.
  assert (Hlinks : forall x, x ∈ f_next <$> (pg <$> P1 ++ p :: P2) -> x = f_next (pg p) \/ x ∈ f_next <$> (pg <$> l)).
  { intros x (y & -> & (q & -> & Hq)%list_elem_of_fmap)%list_elem_of_fmap.
    assert (q = p \/ q ∈ l) as [->|Hq'] by (clear -Hq; set_solver); [by left|right]. by do 2 apply list_elem_of_fmap_2. }
  destruct (header_words (pg p) Hm) as (W1 & W2 & _).
  assert (Hps : h2 !! f_page_size (pg p) = Some (slub_bytes os)).
  { rewrite U2; [apply Kp1|]. intros [E|Hi]%Hlinks; [unfold f_page_size, f_next in E; lia|].
    eapply (word_no_link h a (p :: l) rest p (f_page_size (pg p)) H'); [left|by apply header_in| |cbn; by right].
    unfold f_page_size, f_next. lia. }
  unfold load. rewrite Hps. cbn [expect]. rewrite outcome_bind_Ret.
  destruct (fs_dealloc_ok h2 a (page_frame os p) (frames_of os l ++ rest) R2) as (h3 & a3 & E3 & S3 & R3).
  change (mkFrame (pg p) (slub_bytes os)) with (page_frame os p). rewrite E3, outcome_bind_Ret.
  eexists _, _, _. split; [reflexivity|].
  assert (Kl0 : Forall (page_ok os h) l) by (rewrite Hperm in K4; by apply Forall_cons in K4 as [_ K4]).
  destruct (release_step h a p l rest o h2 H' Kl0 Ho) as (Kl & Kk & Ks).
  { intros x X1 X2 X3. rewrite U2; [by apply U1|]. intros [->|Hi]%Hlinks; done. }
  assert (Hc2 : cache_ok os h2 (mkCache (objects_size c) partial (full_slubs c)) (P1 ++ P2) F).
  { split; cbn [objects_size partial_slubs full_slubs]; try done.
    - apply (plink_frame h); [done|]. intros x (q & -> & Hq)%list_elem_of_fmap.
      rewrite U2; [apply L1; clear -Hq; set_solver|].
      intros (y & E & (r & -> & Hr)%list_elem_of_fmap)%list_elem_of_fmap. unfold f_next in E.
      assert (Hnd : NoDup (pg <$> (P1 ++ p :: P2) ++ F)).
      { apply (pages_NoDup h a _ rest). apply (pages_perm h a _ _ rest H'). by rewrite Hperm. }
      rewrite fmap_app in Hnd. apply NoDup_app in Hnd as (_ & Hnd & _). apply (Hnd (pg r)); [by apply list_elem_of_fmap_2|].
      replace (pg r) with (pg q) by lia. by apply list_elem_of_fmap_2.
    - by rewrite <- app_assoc.
    - apply Forall_app in K5 as [K5a K5b]. apply Forall_cons in K5b as [_ K5b]. by apply Forall_app. }
  assert (El : (P1 ++ P2) ++ F = l) by by rewrite <- app_assoc.
  assert (S3a : same_on (frames_of os l) h2 h3) by (apply (same_on_sub _ _ _ _ S3); clear; set_solver).
  destruct (cache_same h2 a (mkCache (objects_size c) partial (full_slubs c)) (P1 ++ P2) F
    (page_frame os p :: rest) h3) as [Hc3 Kk3]; [|done|by rewrite El|].
  { rewrite El. apply (fs_perm _ _ _ _ R2). cbn. by rewrite Permutation_middle. }
  exists (P1 ++ P2), F. rewrite El in *. split; [done|]. split; [done|]. split; [|split].
  - apply (same_on_trans _ _ h2); [done|]. apply (same_on_sub _ _ _ _ S3). clear; set_solver.
  - rewrite Hperm, live_cons.
    assert (used os p ≡ₚ o :: used os p') as ->.
    { unfold p'. destruct p as [q pf0]. by apply (used_take os Hos). }
    assert (used os p' = []) as ->; [|done]. apply used_none. cbn [p' pg pf].
    destruct Kp1 as (_ & _ & _ & _ & _ & Hnd & Hs). cbn [p' pg pf] in Hnd, Hs.
    assert (Hp : o :: pf p ≡ₚ slots os (pg p)).
    { apply submseteq_length_Permutation; [by apply NoDup_submseteq|].
      pose proof (slots_length os Hos (pg p)). lia. }
    by rewrite Hp.
  - apply (keeps_trans _ _ h2); [|done].
    apply (keeps_sub _ _ _ _ (list_subseteq_app_r _ _ _ (reflexivity _)) Kk).
Qed.

Lemma dealloc_partial_ok h a c P1 p P2 F rest o : cache_ok os h c (P1 ++ p :: P2) F ->
  fs_rep h a (frames_of os ((P1 ++ p :: P2) ++ F) ++ rest) -> o ∈ used os p ->
  exists h' a' c', Cache_dealloc h a c o = Ret (true, h', a', c') /\
    dealloc_post h (P1 ++ p :: P2) F rest o h' a' c'.
Proof using Hos.
  intros Hc H Hu. destruct (proj1 (elem_of_used os p o) Hu) as [Ho Hno].
  pose proof (k_pages _ _ _ _ _ Hc) as K4. pose proof (k_partial _ _ _ _ _ Hc) as K2. pose proof (k_full _ _ _ _ _ Hc) as K3.
  assert (Hperm : (P1 ++ p :: P2) ++ F ≡ₚ p :: P1 ++ P2 ++ F) by by rewrite <- Permutation_middle, <- app_comm_cons, <- app_assoc.
  pose proof (pages_perm h a _ _ rest H Hperm) as H'.
  pose proof (pages_NoDup h a _ rest H) as Hnd. rewrite fmap_app in Hnd. apply NoDup_app in Hnd as (NP & _ & NF).
  pose proof (plink_length h _ _ K2 NP) as HlP. rewrite length_fmap, length_app in HlP. cbn [length] in HlP.
  pose proof (plink_length h _ _ K3 NF) as HlF. rewrite length_fmap in HlF.
  assert (K4p : page_ok os h p) by (rewrite Hperm in K4; by apply Forall_cons in K4 as [? _]).
  apply Forall_app in K4 as [K4P K4F]. unfold Cache_dealloc.
  rewrite (find_page_miss (S (size h)) h (full_slubs c) F o K3 K4F ltac:(lia));
    [|intros q Hq; apply (not_in_others h a p (P1 ++ P2 ++ F) rest o q H' Ho); clear -Hq; set_solver].
  rewrite outcome_bind_Ret. rewrite (find_page_hit (S (size h)) h (partial_slubs c) p P1 P2 o K2 K4P);
    [|lia|intros q Hq; apply (not_in_others h a p (P1 ++ P2 ++ F) rest o q H' Ho); clear -Hq; set_solver|by apply in_own_frame].
  rewrite outcome_bind_Ret.
  destruct (release_obj h a p (P1 ++ P2 ++ F) rest o H' K4p Hu) as (h1 & -> & R1 & Kp1 & U1 & L1). rewrite outcome_bind_Ret.
  unfold SlubPage_is_empty. pose proof (proj1 (proj2 Kp1)) as V2. cbn [pg pf] in V2. 
  assert (load h1 (f_inuse (pg p)) = Ret (slub_count os - Z.of_nat (length (o :: pf p)))) as -> by (unfold load; by rewrite V2).
  rewrite !outcome_bind_Ret. pose proof (free_count os Hos _ h1 Kp1) as Hcnt. cbn [pf] in Hcnt.
  destruct (Z.eqb_spec (slub_count os - Z.of_nat (length (o :: pf p))) 0) as [He|He].
  - apply (dealloc_page h a c P1 p P2 F rest o h1); try done. lia.
  - eexists _, _, _. split; [reflexivity|]. apply (dealloc_stays h a c P1 p P2 F rest o h1); try done. lia.
Qed.

(** ** The two operations of a cache *)

Lemma Cache_alloc_ok h a c P F rest : cache_ok os h c P F -> fs_rep h a (frames_of os (P ++ F) ++ rest) ->
  exists r h' a' c', Cache_alloc h a c = Ret (r, h', a', c') /\ alloc_post h P F rest r h' a' c'.
Proof using Hos. intros Hc H. destruct P; [by apply alloc_fresh_ok|by apply alloc_partial_ok]. Qed.

Lemma Cache_dealloc_ok h a c P F rest o : cache_ok os h c P F -> fs_rep h a (frames_of os (P ++ F) ++ rest) ->
  o ∈ live os (P ++ F) ->
  exists h' a' c', Cache_dealloc h a c o = Ret (true, h', a', c') /\ dealloc_post h P F rest o h' a' c'.
Proof using Hos.
  intros Hc H (p & Hp & Hu)%elem_of_live. apply elem_of_app in Hp as [Hp|Hp];
    apply list_elem_of_split in Hp as (l1 & l2 & ->); [by apply dealloc_partial_ok|by apply dealloc_full_ok].
Qed.

(** An address in none of its pages is not the cache's, and nothing happens. *)
Lemma Cache_dealloc_foreign h a c P F rest o : cache_ok os h c P F -> fs_rep h a (frames_of os (P ++ F) ++ rest) ->
  (forall p, p ∈ P ++ F -> ~ in_frame (page_frame os p) o) ->
  Cache_dealloc h a c o = Ret (false, h, a, c).
Proof using Hos.
  intros [K1 K2 K3 K4 _ _] H Hn. pose proof (pages_NoDup h a _ rest H) as Hnd. rewrite fmap_app in Hnd.
  apply NoDup_app in Hnd as (NP & _ & NF).
  pose proof (plink_length h _ _ K2 NP) as HlP. pose proof (plink_length h _ _ K3 NF) as HlF. rewrite length_fmap in HlP, HlF.
  apply Forall_app in K4 as [K4P K4F]. unfold Cache_dealloc.
  rewrite (find_page_miss _ h (full_slubs c) F o K3 K4F) by (try lia; intros q Hq; apply Hn; set_solver).
  rewrite outcome_bind_Ret.
  rewrite (find_page_miss _ h (partial_slubs c) P o K2 K4P) by (try lia; intros q Hq; apply Hn; set_solver). done.
Qed.

End Cache.
