(* ===== verification/Heap.v ===== *)
(** * Heap: the global allocator of the kernel

    [SlowCaches] and [Caches] of [src/mm/allocator/slub.rs] behind the
    [GlobalAlloc] of [src/mm/allocator.rs]: one cache per size class, a set of
    caches per hart and a shared one. The theorems are about any sequence of
    allocations, releases and writes of the clients: blocks in use are disjoint,
    large enough and aligned, keep their contents, and all memory returns to the
    frame allocator when they are released. *)

From stdpp Require Import gmap.
From S2P Require Import Prelude Buddy FrameAlloc Slub SlubCache.

(** [core::alloc::Layout] *)
Record Layout : Type := mkLayout { l_size : Z; l_align : Z }.

(** [usize::next_power_of_two], which overflows above 2^63. *)
Definition next_power_of_two (x : Z) : outcome Z :=
  let p := 2 ^ Z.log2_up x in
  if p <? 2 ^ 64 then mret p else Panic.

Definition layout_order (layout : Layout) : outcome Z :=
  let adjusted_size := Z.max (l_size layout) (l_align layout) in
  let size := Z.max adjusted_size (Z.shiftl 1 SLUB_MIN_ORDER) in
  p ← next_power_of_two size;
  mret (trailing_zeros p).

Abbreviation SlowCaches := (list Cache).

Definition SlowCaches_new : SlowCaches := Cache_new <$> size_classes.

Record Caches : Type := mkCaches { cpu_caches : list SlowCaches; slow_caches : SlowCaches }.

(** [MAX_CPU] sets of caches. *)
Definition Caches_new (max_cpu : nat) : Caches := mkCaches (replicate max_cpu SlowCaches_new) SlowCaches_new.

Section Heap.
Context {A : Type} {FS : FrameSource A}.

(** The null pointer is 0. *)
Definition SlowCaches_alloc (h : heap) (a : A) (self : SlowCaches) (layout : Layout)
    : outcome (Z * heap * A * SlowCaches) :=
  order ← layout_order layout;
  if SLUB_MAX_ORDER <=? order then
    '(r, h, a) ← fs_alloc h a (Some (Z.shiftl 1 order));
    mret (from_option fr_start 0 r, h, a, self)
  else
    index ← usize_sub order SLUB_MIN_ORDER;
    c ← expect (self !! Z.to_nat index);
    '(r, h, a, c) ← Cache_alloc h a c;
    mret (default 0 r, h, a, <[Z.to_nat index := c]> self).

Definition SlowCaches_dealloc (h : heap) (a : A) (self : SlowCaches) (ptr : Z) (layout : Layout)
    : outcome (bool * heap * A * SlowCaches) :=
  order ← layout_order layout;
  if SLUB_MAX_ORDER <=? order then
    '(h, a) ← fs_dealloc h a (mkFrame ptr (Z.shiftl 1 order));
    mret (true, h, a, self)
  else
    index ← usize_sub order SLUB_MIN_ORDER;
    c ← expect (self !! Z.to_nat index);
    '(found, h, a, c) ← Cache_dealloc h a c ptr;
    mret (found, h, a, <[Z.to_nat index := c]> self).

(** [tp] is the hart. *)
Definition Caches_alloc (tp : nat) (h : heap) (a : A) (self : Caches) (layout : Layout)
    : outcome (Z * heap * A * Caches) :=
  cc ← expect (cpu_caches self !! tp);
  '(ptr, h, a, cc) ← SlowCaches_alloc h a cc layout;
  let self := mkCaches (<[tp := cc]> (cpu_caches self)) (slow_caches self) in
  if negb (ptr =? 0) then mret (ptr, h, a, self)
  else
    '(ptr, h, a, sc) ← SlowCaches_alloc h a (slow_caches self) layout;
    mret (ptr, h, a, mkCaches (cpu_caches self) sc).

Definition Caches_dealloc (tp : nat) (h : heap) (a : A) (self : Caches) (ptr : Z) (layout : Layout)
    : outcome (heap * A * Caches) :=
  cc ← expect (cpu_caches self !! tp);
  '(found, h, a, cc) ← SlowCaches_dealloc h a cc ptr layout;
  let self := mkCaches (<[tp := cc]> (cpu_caches self)) (slow_caches self) in
  if negb found then
    '(_, h, a, sc) ← SlowCaches_dealloc h a (slow_caches self) ptr layout;
    mret (h, a, mkCaches (cpu_caches self) sc)
  else mret (h, a, self).

(** ** Clients

    The blocks in use, in the order of their allocation; a client releases one of
    them with its layout or writes a word inside of it. *)
Record hstate : Type := mkHeap {
  hs_heap : heap;
  hs_alloc : A;
  hs_caches : Caches;
  hs_live : list (Z * Layout);
}.

Inductive hop : Type :=
| HAlloc (tp : nat) (layout : Layout)
| HFree (tp : nat) (k : nat)
| HWrite (k : nat) (off v : Z).

Definition heap_step (s : hstate) (op : hop) : outcome hstate :=
  match op with
  | HAlloc tp layout =>
      '(ptr, h, a, c) ← Caches_alloc tp (hs_heap s) (hs_alloc s) (hs_caches s) layout;
      mret (mkHeap h a c (if ptr =? 0 then hs_live s else hs_live s ++ [(ptr, layout)]))
  | HFree tp k =>
      match hs_live s !! k with
      | None => mret s
      | Some (ptr, layout) =>
          '(h, a, c) ← Caches_dealloc tp (hs_heap s) (hs_alloc s) (hs_caches s) ptr layout;
          mret (mkHeap h a c (delete k (hs_live s)))
      end
  | HWrite k off v =>
      match hs_live s !! k with
      | None => mret s
      | Some (ptr, layout) =>
          if (0 <=? off) && (off <? l_size layout) && (off mod 8 =? 0) then
            h ← store (hs_heap s) (ptr + off) v;
            mret (mkHeap h (hs_alloc s) (hs_caches s) (hs_live s))
          else mret s
      end
  end.

Fixpoint heap_run (s : hstate) (ops : list hop) : outcome hstate :=
  match ops with
  | [] => mret s
  | op :: ops => s ← heap_step s op; heap_run s ops
  end.

Definition heap_init (h : heap) (a : A) (max_cpu : nat) : hstate := mkHeap h a (Caches_new max_cpu) [].

End Heap.

(** A layout of Rust (the alignment is a power of two), up to the largest block
    of the frame allocator. *)
Definition layout_ok (l : Layout) : Prop :=
  0 <= l_size l <= 2 ^ 22 /\ exists k, 0 <= k <= 22 /\ l_align l = 2 ^ k.

(** The bytes a layout takes: a power of two. *)
Definition block_bytes (l : Layout) : Z := 2 ^ Z.log2_up (Z.max (Z.max (l_size l) (l_align l)) 16).

Lemma trailing_zeros_pow k : 0 <= k < 64 -> trailing_zeros (2 ^ k) = k.
Proof.
  intros Hk. destruct (trailing_zeros_spec (2 ^ k)) as (H1 & H2 & H3).
  - split; [apply Z.pow_nonneg; lia|]. apply Z.pow_lt_mono_r; lia.
  - apply Z.pow_nonzero; lia.
  - rewrite Z.pow2_bits_eqb in H2 by lia. apply Z.eqb_eq in H2. done.
Qed.

Lemma block_bytes_order l : layout_ok l -> exists o, layout_order l = Ret o /\ block_bytes l = 2 ^ o /\
  SLUB_MIN_ORDER <= o <= 22 /\ l_size l <= 2 ^ o /\ l_align l <= 2 ^ o.
Proof.
  intros (Hs & k & Hk & Ha). unfold layout_order, block_bytes. change (Z.shiftl 1 SLUB_MIN_ORDER) with 16.
  assert (Hka : 1 <= l_align l <= 2 ^ 22).
  { rewrite Ha. split; [|by apply Z.pow_le_mono_r; lia]. apply (Z.pow_le_mono_r 2 0 k); lia. }
  set (m := Z.max (Z.max (l_size l) (l_align l)) 16) in *. assert (Hm : 16 <= m <= 2 ^ 22) by lia.
  assert (Ho : 4 <= Z.log2_up m <= 22).
  { split; [|by apply Z.log2_up_le_pow2; lia]. change 4 with (Z.log2_up 16). apply Z.log2_up_le_mono; lia. }
  assert (Hle : m <= 2 ^ Z.log2_up m) by (apply Z.log2_up_le_pow2; lia).
  exists (Z.log2_up m). split_and!; try lia; [|unfold SLUB_MIN_ORDER; lia].
  unfold next_power_of_two. rewrite (proj2 (Z.ltb_lt _ _)) by (apply Z.pow_lt_mono_r; lia).
  change (Ret (trailing_zeros (2 ^ Z.log2_up m)) = Ret (Z.log2_up m)). by rewrite trailing_zeros_pow by lia.
Qed.

(** ** Pairwise disjoint blocks *)

Lemma elem_of_concat {B} (x : B) ls : x ∈ concat ls <-> exists l, l ∈ ls /\ x ∈ l.
Proof. induction ls as [|l ls IH]; cbn; [set_solver|]. rewrite elem_of_app, IH. set_solver. Qed.

Fixpoint pairs {B} (R : B -> B -> Prop) (l : list B) : Prop :=
  match l with [] => True | x :: l => Forall (R x) l /\ pairs R l end.

Lemma pairs_app {B} (R : B -> B -> Prop) l1 l2 :
  pairs R (l1 ++ l2) <-> pairs R l1 /\ pairs R l2 /\ forall x y, x ∈ l1 -> y ∈ l2 -> R x y.
Proof.
  induction l1 as [|z l1 IH]; cbn; [set_solver|]. rewrite Forall_app, IH, !Forall_forall. set_solver.
Qed.

Lemma pairs_perm {B} (R : B -> B -> Prop) {HR : Symmetric R} l l' : l ≡ₚ l' -> pairs R l -> pairs R l'.
Proof.
  induction 1 as [|x l l' Hp IH|x y l|]; cbn; [done| | |tauto].
  - intros [H1 H2]. split; [by rewrite <- Hp|tauto].
  - rewrite !Forall_cons. intros ((H1 & H2) & H3 & H4). split_and!; [by symmetry| | |]; done.
Qed.

Abbreviation block := (Z * Z)%type.

Definition block_dis (b c : block) : Prop := b.1 + b.2 <= c.1 \/ c.1 + c.2 <= b.1.

#[export] Instance block_dis_sym : Symmetric block_dis.
Proof. intros b c. unfold block_dis. lia. Qed.

(** A frame and the blocks inside of it. *)
Abbreviation region := (Frame * list block)%type.

Definition block_in (f : Frame) (b : block) : Prop :=
  fr_start f <= b.1 /\ b.1 + b.2 <= fr_start f + fr_size f /\ 0 < b.2.

Definition region_ok (r : region) : Prop := Forall (block_in r.1) r.2 /\ pairs block_dis r.2.

Lemma regions_pairs (rs : list region) : pairs frame_dis rs.*1 -> Forall region_ok rs ->
  pairs block_dis (concat rs.*2).
Proof.
  induction rs as [|[f bs] rs IH]; cbn; [done|]. intros [H1 H2] [Hr Hrs]%Forall_cons.
  rewrite pairs_app. split_and!; [apply Hr|by apply IH|].
  intros b c Hb (l & (g & -> & Hg)%list_elem_of_fmap & Hc)%elem_of_concat.
  destruct Hr as [Hr _]. pose proof (proj1 (Forall_forall _ _) Hr b Hb) as Hb'.
  pose proof (proj1 (Forall_forall _ _) Hrs g Hg) as [Hg' _].
  pose proof (proj1 (Forall_forall _ _) Hg' c Hc) as Hc'.
  pose proof (proj1 (Forall_forall _ _) H1 g.1 (list_elem_of_fmap_2 _ _ _ Hg)) as D.
  unfold frame_dis, block_in, block_dis in *. cbn in *. lia.
Qed.

Section Regions.
Context {A : Type} {FS : FrameSource A} {FL : FrameLaws A}.

Lemma held_pairs h a held rest : fs_rep h a (held ++ rest) -> pairs frame_dis held.
Proof.
  revert rest. induction held as [|f held IH]; intros rest H; cbn; [done|]. split.
  - apply Forall_forall. intros g Hg. apply (fs_disjoint h a f (held ++ rest) g H). set_solver.
  - apply (IH (f :: rest)). apply (fs_perm _ _ _ _ H). cbn. by rewrite Permutation_middle.
Qed.

(** ** All caches and their pages *)

Record pool : Type := mkPool { po_cache : Cache; po_part : list page; po_full : list page }.

Definition po_size (po : pool) : Z := objects_size (po_cache po).
Definition po_pages (po : pool) : list page := po_part po ++ po_full po.

Definition page_region (os : Z) (p : page) : region := (page_frame os p, (fun o => (o, os)) <$> used os p).
Definition po_regions (po : pool) : list region := page_region (po_size po) <$> po_pages po.
Definition big_region (f : Frame) : region := (f, [(fr_start f, fr_size f)]).

Definition regions (pools : list pool) (big : list Frame) : list region :=
  concat (po_regions <$> pools) ++ (big_region <$> big).

(** The blocks that are not free. *)
Definition blocks (pools : list pool) (big : list Frame) : list block := concat (regions pools big).*2.

Definition pool_ok (h : heap) (po : pool) : Prop :=
  class_ok (po_size po) /\ cache_ok (po_size po) h (po_cache po) (po_part po) (po_full po).

(** The caches of all harts, and the shared ones last. *)
Definition sets_of (pools : list (list pool)) : list SlowCaches :=
  (fun ps : list pool => po_cache <$> ps) <$> pools.

Record rep (h : heap) (a : A) (sets : list SlowCaches) (pools : list (list pool)) (big rest : list Frame) : Prop := {
  r_sets : sets = sets_of pools;
  r_class : Forall (fun ps : list pool => po_size <$> ps = size_classes) pools;
  r_pools : Forall (pool_ok h) (concat pools);
  r_held : fs_rep h a ((regions (concat pools) big).*1 ++ rest);
}.

Definition blocks_kept (bs : list block) (h h' : heap) : Prop :=
  forall b x, b ∈ bs -> b.1 <= x < b.1 + b.2 -> h' !! x = h !! x.

Lemma po_frames po : (po_regions po).*1 = frames_of (po_size po) (po_pages po).
Proof using. unfold po_regions, frames_of. rewrite <- list_fmap_compose. done. Qed.

Lemma po_blocks po : concat (po_regions po).*2 = (fun o => (o, po_size po)) <$> live (po_size po) (po_pages po).
Proof using.
  unfold po_regions, live. induction (po_pages po) as [|p l IH]; [done|]. cbn. by rewrite fmap_app, <- IH.
Qed.

#[local] Instance regions_perm : Proper ((≡ₚ) ==> (=) ==> (≡ₚ)) regions.
Proof using. intros l l' H b b' <-. unfold regions. by rewrite H. Qed.

#[local] Instance blocks_perm : Proper ((≡ₚ) ==> (=) ==> (≡ₚ)) blocks.
Proof using. intros l l' H b b' <-. unfold blocks. by rewrite H. Qed.

Lemma regions_cons po pools big : regions (po :: pools) big = po_regions po ++ regions pools big.
Proof using. unfold regions. cbn. by rewrite app_assoc. Qed.

Lemma blocks_cons po pools big :
  blocks (po :: pools) big = ((fun o => (o, po_size po)) <$> live (po_size po) (po_pages po)) ++ blocks pools big.
Proof using. unfold blocks. rewrite regions_cons, fmap_app, concat_app. by rewrite po_blocks. Qed.

Lemma blocks_big pools f big : blocks pools (f :: big) ≡ₚ (fr_start f, fr_size f) :: blocks pools big.
Proof using.
  unfold blocks, regions. rewrite !fmap_app, !concat_app. cbn. by rewrite <- Permutation_middle.
Qed.

Lemma held_cons po pools big rest :
  (regions (po :: pools) big).*1 ++ rest = frames_of (po_size po) (po_part po ++ po_full po) ++ (regions pools big).*1 ++ rest.
Proof using. rewrite regions_cons, fmap_app, po_frames, <- app_assoc. done. Qed.

Lemma held_big pools f big rest :
  (regions pools (f :: big)).*1 ++ rest ≡ₚ f :: (regions pools big).*1 ++ rest.
Proof using. unfold regions. rewrite !fmap_app, <- !app_assoc. cbn. by rewrite <- Permutation_middle. Qed.

Lemma page_region_ok os p : class_ok os -> region_ok (page_region os p).
Proof using.
  intros Hos. split; cbn.
  - apply Forall_forall. intros b (o & -> & Ho)%list_elem_of_fmap. apply elem_of_used in Ho as [Ho _].
    destruct (slot_in os Hos _ _ Ho) as (B1 & B2 & _). pose proof (c_min os Hos). unfold block_in, header_size in *. cbn. lia.
  - unfold used. assert (Hs : filter (fun o => o ∉ pf p) (slots os (pg p)) ⊆ slots os (pg p)).
    { intros o Ho. by apply list_elem_of_filter in Ho as [_ ?]. }
    pose proof (NoDup_filter (fun o => o ∉ pf p) _ (slots_NoDup os Hos (pg p))) as Hnd. revert Hs Hnd.
    induction (filter _ _) as [|o l IH]; intros Hs Hnd; cbn; [done|]. apply NoDup_cons in Hnd as [Ho Hnd]. split.
    + apply Forall_forall. intros b (o' & -> & Ho')%list_elem_of_fmap. unfold block_dis. cbn.
      apply (slot_apart os Hos (pg p)); [apply Hs; left|apply Hs; by right|]. by intros ->.
    + apply IH; [|done]. intros x Hx. apply Hs. by right.
Qed.

Lemma rep_regions h a sets pools big rest : rep h a sets pools big rest ->
  Forall region_ok (regions (concat pools) big).
Proof using.
  intros [_ _ Hp Hh]. apply Forall_app. split.
  - apply Forall_forall. intros r (l & (po & -> & Hpo)%list_elem_of_fmap & Hr)%elem_of_concat.
    apply list_elem_of_fmap in Hr as (p & -> & _). apply page_region_ok.
    by apply (proj1 (Forall_forall _ _) Hp po Hpo).
  - apply Forall_forall. intros r (f & -> & Hf)%list_elem_of_fmap. split; cbn; [|by split].
    constructor; [|constructor]. destruct (fs_held h a _ f Hh) as [(F1 & F2 & F3 & _) _].
    { unfold regions. rewrite fmap_app. apply elem_of_app. left. apply elem_of_app. right. rewrite <- list_fmap_compose.
      apply list_elem_of_fmap. by exists f. }
    unfold block_in. cbn. unfold PAGE_SIZE in *. lia.
Qed.

(** The blocks in use never overlap. *)
Lemma rep_disjoint h a sets pools big rest : rep h a sets pools big rest -> pairs block_dis (blocks (concat pools) big).
Proof using.
  intros H. apply regions_pairs; [|by apply (rep_regions h a sets pools big rest)].
  apply (held_pairs h a _ rest), H.
Qed.

(** What is not written is kept. *)
Lemma regions_kept pools big h h' : Forall region_ok (regions pools big) ->
  same_on (regions pools big).*1 h h' -> blocks_kept (blocks pools big) h h'.
Proof using.
  intros Hr Hs b x (l & (r & -> & Hi)%list_elem_of_fmap & Hb)%elem_of_concat Hx.
  apply (Hs r.1); [by apply list_elem_of_fmap_2|].
  destruct (proj1 (Forall_forall _ _) Hr r Hi) as [Hin _].
  pose proof (proj1 (Forall_forall _ _) Hin b Hb) as B. unfold block_in, in_frame in *. lia.
Qed.

Lemma select (pools : list (list pool)) t ps i po : pools !! t = Some ps -> ps !! i = Some po -> exists others,
  concat pools ≡ₚ po :: others /\ forall po', concat (<[t := <[i := po']> ps]> pools) ≡ₚ po' :: others.
Proof using.
  intros Ht Hi. exists (concat (take t pools) ++ (take i ps ++ drop (S i) ps) ++ concat (drop (S t) pools)).
  assert (Hl : forall po' l1 l2, l1 ++ (take i ps ++ po' :: drop (S i) ps) ++ l2 ≡ₚ po' :: l1 ++ (take i ps ++ drop (S i) ps) ++ l2).
  { intros po' l1 l2. rewrite <- (Permutation_middle (take i ps)). cbn. by rewrite <- Permutation_middle. }
  split.
  - rewrite <- (take_drop_middle pools t ps Ht) at 1. rewrite concat_app. cbn [concat].
    rewrite <- (take_drop_middle ps i po Hi) at 1. apply Hl.
  - intros po'. rewrite (insert_take_drop pools) by by eapply lookup_lt_Some.
    rewrite (insert_take_drop ps) by by eapply lookup_lt_Some. rewrite concat_app. cbn [concat]. apply Hl.
Qed.

Lemma same_on_app l1 l2 h h' : same_on (l1 ++ l2) h h' -> same_on l1 h h' /\ same_on l2 h h'.
Proof using.
  intros H. split; intros g x Hg; apply H, elem_of_app; [by left|by right].
Qed.

Lemma pool_held h a pools big rest : fs_rep h a ((regions pools big).*1 ++ rest) ->
  forall po, po ∈ pools -> exists rest', fs_rep h a (frames_of (po_size po) (po_part po ++ po_full po) ++ rest').
Proof using.
  intros H po Hpo. apply list_elem_of_split in Hpo as (l1 & l2 & ->).
  exists ((regions (l1 ++ l2) big).*1 ++ rest). rewrite <- held_cons. apply (fs_perm _ _ _ _ H). by rewrite Permutation_middle.
Qed.

(** Caches whose frames are not written stay as they are. *)
Lemma pools_same h a pools big rest h' : fs_rep h a ((regions pools big).*1 ++ rest) ->
  Forall (pool_ok h) pools -> same_on (regions pools big).*1 h h' -> Forall (pool_ok h') pools.
Proof using.
  intros H Hp Hs. apply Forall_forall. intros po Hpo. destruct (proj1 (Forall_forall _ _) Hp po Hpo) as [Hc Hk].
  split; [done|]. destruct (pool_held h a pools big rest H po Hpo) as [rest' H'].
  apply (cache_same _ Hc h a _ _ _ rest' h' H' Hk). apply (same_on_sub _ _ _ _ Hs).
  intros f Hf. unfold regions. rewrite fmap_app. apply elem_of_app. left.
  change (po_part po ++ po_full po) with (po_pages po) in Hf. rewrite <- po_frames in Hf.
  apply list_elem_of_fmap in Hf as (r & -> & Hr). apply list_elem_of_fmap_2. apply elem_of_concat.
  exists (po_regions po). split; [by apply list_elem_of_fmap_2|done].
Qed.

(** One cache changes. *)
Lemma pool_step h a sets pools big rest t ps i po others po' h' a' : rep h a sets pools big rest ->
  pools !! t = Some ps -> ps !! i = Some po -> concat pools ≡ₚ po :: others ->
  (forall q, concat (<[t := <[i := q]> ps]> pools) ≡ₚ q :: others) ->
  po_size po' = po_size po -> pool_ok h' po' ->
  fs_rep h' a' (frames_of (po_size po') (po_part po' ++ po_full po') ++ (regions others big).*1 ++ rest) ->
  same_on ((regions others big).*1 ++ rest) h h' ->
  rep h' a' (<[t := <[i := po_cache po']> (po_cache <$> ps)]> sets) (<[t := <[i := po']> ps]> pools) big rest /\
  same_on rest h h' /\ blocks_kept (blocks others big) h h'.
Proof using.
  intros [Hsets Hcl Hp Hh] Ht Hi Hperm Hperm' Esz Hok' R' S'.
  assert (Hh2 : fs_rep h a ((regions others big).*1 ++ frames_of (po_size po) (po_part po ++ po_full po) ++ rest)).
  { apply (fs_perm _ _ _ _ Hh). rewrite Hperm, held_cons. by rewrite Permutation_app_swap_app. }
  apply same_on_app in S' as [S1 S2].
  rewrite Hperm in Hp. apply Forall_cons in Hp as [Hpo Hp].
  split; [|split; [exact S2|]].
  - split.
    + rewrite Hsets. unfold sets_of. rewrite list_fmap_insert. f_equal. by rewrite list_fmap_insert.
    + apply Forall_insert; [done|]. rewrite list_fmap_insert. rewrite Esz.
      rewrite <- (proj1 (Forall_lookup _ _) Hcl t ps Ht). apply list_insert_id. by rewrite list_lookup_fmap, Hi.
    + rewrite Hperm'. constructor; [done|]. by apply (pools_same h a others big _ h' Hh2).
    + apply (fs_perm _ _ _ _ R'). rewrite Hperm'. by rewrite held_cons.
  - apply regions_kept; [|done].
    assert (Hr : rep h a sets pools big rest).
    { split; [done|done| |done]. rewrite Hperm. by constructor. }
    apply rep_regions in Hr. rewrite Hperm, regions_cons in Hr. by apply Forall_app in Hr as [_ Hr].
Qed.

Lemma class_at pools t ps i : Forall (fun ps : list pool => po_size <$> ps = size_classes) pools ->
  pools !! t = Some ps -> 0 <= i < CACHES_MAX ->
  exists po, ps !! Z.to_nat i = Some po /\ po_size po = 2 ^ (i + SLUB_MIN_ORDER).
Proof using.
  intros Hcl Ht Hi. pose proof (proj1 (Forall_lookup _ _) Hcl t ps Ht) as E. cbn in E.
  assert (Hl : (po_size <$> ps) !! Z.to_nat i = Some (2 ^ (i + SLUB_MIN_ORDER))).
  { rewrite E. unfold size_classes. rewrite list_lookup_fmap, lookup_seqZ_lt by lia. cbn. do 2 f_equal. lia. }
  rewrite list_lookup_fmap in Hl. destruct (ps !! Z.to_nat i) as [po|]; [|done]. exists po. split; [done|]. by injection Hl.
Qed.

Lemma sets_lookup h a sets pools big rest t sc : rep h a sets pools big rest -> sets !! t = Some sc ->
  exists ps, pools !! t = Some ps /\ sc = po_cache <$> ps.
Proof using.
  intros [-> _ _ _] H. unfold sets_of in H. rewrite list_lookup_fmap in H.
  destruct (pools !! t) as [ps|]; [|done]. exists ps. split; [done|]. by injection H as <-.
Qed.

(** What an allocation from one set of caches does. *)
Definition set_alloc_post (h : heap) (sets : list SlowCaches) (pools : list (list pool)) (big rest : list Frame)
    (t : nat) (l : Layout) (ptr : Z) (h' : heap) (a' : A) (sc' : SlowCaches) : Prop :=
  exists pools' big', rep h' a' (<[t := sc']> sets) pools' big' rest /\ length pools' = length pools /\
    same_on rest h h' /\ blocks_kept (blocks (concat pools) big) h h' /\
    if decide (ptr = 0) then blocks (concat pools') big' ≡ₚ blocks (concat pools) big
    else blocks (concat pools') big' ≡ₚ (ptr, block_bytes l) :: blocks (concat pools) big /\
         (l_align l <= PAGE_SIZE -> ptr mod l_align l = 0).

Lemma set_alloc_ok h a sets pools big rest t sc l : rep h a sets pools big rest -> sets !! t = Some sc -> layout_ok l ->
  exists ptr h' a' sc', SlowCaches_alloc h a sc l = Ret (ptr, h', a', sc') /\
    set_alloc_post h sets pools big rest t l ptr h' a' sc'.
Proof using.
  intros Hr Hsc Hl. destruct (block_bytes_order l Hl) as (o & Eo & Eb & Ho & Hsz & Hal).
  pose proof Ho as Ho4. unfold SLUB_MIN_ORDER in Ho4.
  unfold SlowCaches_alloc. rewrite Eo, outcome_bind_Ret.
  destruct (Z.leb_spec SLUB_MAX_ORDER o) as [Hbig|Hsmall].
  - (* a frame of its own *)
    assert (E2 : Z.shiftl 1 o = 2 ^ o) by (rewrite Z.shiftl_1_l; done). rewrite E2.
    assert (Hpos : 1 <= 2 ^ o) by (apply (Z.pow_le_mono_r 2 0 o); unfold SLUB_MIN_ORDER in Ho; lia).
    destruct (fs_alloc_ok h a _ (Some (2 ^ o)) (r_held _ _ _ _ _ _ Hr) Hpos) as (r & h' & a' & -> & S1 & R1).
    rewrite outcome_bind_Ret. eexists _, _, _, _. split; [reflexivity|].
    destruct Hr as [Hsets Hcl Hp Hh]. pose proof S1 as S1'. apply same_on_app in S1' as [S2 S3].
    assert (Hp' : Forall (pool_ok h') (concat pools)) by by apply (pools_same h a _ big rest h' Hh).
    assert (Hk : blocks_kept (blocks (concat pools) big) h h').
    { apply regions_kept; [|done]. by apply (rep_regions h a sets pools big rest). }
    destruct r as [f|]; cbn [from_option].
    + destruct R1 as [R1 Ef]. change (fr_size f = frame_bytes (2 ^ o)) in Ef.
      assert (Ef' : fr_size f = block_bytes l).
      { rewrite Ef, Eb. unfold frame_bytes. unfold SLUB_MAX_ORDER in Hbig.
        replace (2 ^ o) with (order_size (Z.to_nat (o - 12))) by (rewrite order_size_pow; f_equal; lia).
        by rewrite size_to_order_size by (unfold BUDDY_MAX_ORDER; lia). }
      destruct (fs_held h' a' _ f R1 ltac:(left)) as [(F1 & F2 & _) _].
      exists pools, (f :: big). rewrite decide_False by lia. split; [|split; [done|split; [done|split; [done|split]]]].
      * split; [by rewrite list_insert_id|done|done|]. apply (fs_perm _ _ _ _ R1). by rewrite held_big.
      * rewrite blocks_big, Ef'. done.
      * intros Hle. destruct Hl as (_ & k & Hk' & Ek). rewrite Ek in *. apply Z.mod_divide; [apply Z.pow_nonzero; lia|].
        apply Z.mod_divide in F2; [|unfold PAGE_SIZE; lia]. apply (Z.divide_trans _ PAGE_SIZE); [|done].
        change PAGE_SIZE with (2 ^ 12) in *. apply Z.pow_le_mono_r_iff in Hle; [|lia..].
        exists (2 ^ (12 - k)). rewrite <- Z.pow_add_r by lia. f_equal. lia.
    + exists pools, big. rewrite decide_True by done. split; [|done].
      split; [by rewrite list_insert_id|done|done|done].
  - (* an object of a cache *)
    unfold usize_sub. rewrite (proj2 (Z.leb_le _ _)) by lia. rewrite outcome_bind_Ret.
    destruct (sets_lookup h a sets pools big rest t sc Hr Hsc) as (ps & Ht & ->).
    destruct (class_at pools t ps (o - SLUB_MIN_ORDER) (r_class _ _ _ _ _ _ Hr) Ht) as (po & Hi & Esz).
    { unfold CACHES_MAX. lia. }
    replace (o - SLUB_MIN_ORDER + SLUB_MIN_ORDER) with o in Esz by lia. set (i := Z.to_nat (o - SLUB_MIN_ORDER)) in *.
    rewrite list_lookup_fmap, Hi. cbn [expect fmap option_fmap option_map]. rewrite outcome_bind_Ret.
    destruct (select pools t ps i po Ht Hi) as (others & Hperm & Hperm').
    pose proof (r_pools _ _ _ _ _ _ Hr) as Hp. rewrite Hperm in Hp. apply Forall_cons in Hp as [[Hc Hk] _].
    assert (Hh : fs_rep h a (frames_of (po_size po) (po_part po ++ po_full po) ++ (regions others big).*1 ++ rest)).
    { rewrite <- held_cons. apply (fs_perm _ _ _ _ (r_held _ _ _ _ _ _ Hr)). by rewrite Hperm. }
    destruct (Cache_alloc_ok _ Hc h a _ _ _ _ Hk Hh) as (r & h' & a' & c' & -> & P' & F' & Hk' & R' & S' & Kp & Hres).
    rewrite outcome_bind_Ret. eexists _, _, _, _. split; [reflexivity|].
    set (po' := mkPool c' P' F') in *.
    assert (Esz' : po_size po' = po_size po) by apply (k_size _ _ _ _ _ Hk').
    assert (Hok' : pool_ok h' po') by (split; rewrite Esz'; done).
    destruct (pool_step h a sets pools big rest t ps i po others po' h' a' Hr Ht Hi Hperm Hperm' Esz' Hok') as (Hr' & Sr & Kb).
    { by rewrite Esz'. } { done. }
    exists (<[t := <[i := po']> ps]> pools), big. split; [exact Hr'|]. split; [by rewrite length_insert|]. split; [done|].
    split.
    + intros b x Hb Hx. rewrite Hperm, blocks_cons in Hb. apply elem_of_app in Hb as [Hb|Hb]; [|by apply (Kb b)].
      apply list_elem_of_fmap in Hb as (ob & -> & Hb). by apply (Kp ob).
    + destruct r as [ob|].
      * destruct Hres as (Hlive & p & Hp & Hs). destruct (pages_start _ h' a' _ _ p R' Hp) as [H0 Hm].
        destruct (slot_in _ Hc _ _ Hs) as (B1 & _ & Hmod). unfold header_size in B1.
        change (default 0 (Some ob)) with ob. rewrite decide_False by lia. split.
        -- rewrite Hperm', Hperm, !blocks_cons, Esz'. change (po_pages po') with (P' ++ F').
           rewrite Hlive. cbn. by rewrite Eb, Esz.
        -- intros _. specialize (Hmod Hm). rewrite Esz in Hmod. destruct Hl as (_ & k & Hk2 & Ek). rewrite Ek in *.
           apply Z.mod_divide in Hmod; [|apply Z.pow_nonzero; lia]. apply Z.mod_divide; [apply Z.pow_nonzero; lia|].
           apply (Z.divide_trans _ (2 ^ o)); [|done]. apply Z.pow_le_mono_r_iff in Hal; [|lia..].
           exists (2 ^ (o - k)). rewrite <- Z.pow_add_r by lia. f_equal. lia.
      * destruct Hres as [-> ->]. change (default 0 None) with 0. rewrite decide_True by done.
        by rewrite Hperm', Hperm, !blocks_cons, Esz'.
Qed.

(** ** Release *)

Lemma class_small os : os ∈ size_classes -> os < PAGE_SIZE.
Proof using.
  assert (size_classes = [16; 32; 64; 128; 256; 512; 1024; 2048]) as -> by reflexivity.
  rewrite !elem_of_cons, elem_of_nil. unfold PAGE_SIZE. lia.
Qed.

Lemma pool_class pools po : Forall (fun ps : list pool => po_size <$> ps = size_classes) pools ->
  po ∈ concat pools -> po_size po ∈ size_classes.
Proof using.
  intros Hcl (ps & Hps & Hpo)%elem_of_concat. rewrite <- (proj1 (Forall_forall _ _) Hcl ps Hps).
  by apply list_elem_of_fmap_2.
Qed.

Lemma class_unique (ps : list pool) i po po2 : po_size <$> ps = size_classes -> ps !! i = Some po -> po2 ∈ ps ->
  po_size po2 = po_size po -> po2 = po.
Proof using.
  intros Ecl Hi (j & Hj)%list_elem_of_lookup E.
  assert (Hnd : NoDup size_classes) by (apply (bool_decide_unpack _); vm_compute; done).
  assert (Ei : size_classes !! i = Some (po_size po)) by (rewrite <- Ecl, list_lookup_fmap, Hi; done).
  assert (Ej : size_classes !! j = Some (po_size po)) by (rewrite <- Ecl, list_lookup_fmap, Hj, <- E; done).
  pose proof (NoDup_lookup _ i j _ Hnd Ei Ej) as ->. congruence.
Qed.

Lemma frame_vs_rest os h a l rest p g : fs_rep h a (frames_of os l ++ rest) -> p ∈ l -> g ∈ rest ->
  frame_dis (page_frame os p) g.
Proof using.
  intros H (l1 & l2 & ->)%list_elem_of_split Hg.
  apply (fs_disjoint h a _ (frames_of os (l1 ++ l2) ++ rest) g); [|apply elem_of_app; by right].
  apply (fs_perm _ _ _ _ H). change (page_frame os p :: frames_of os (l1 ++ l2) ++ rest)
    with (frames_of os (p :: l1 ++ l2) ++ rest). by rewrite Permutation_middle.
Qed.

Lemma elem_of_in_use ptr n pools big : (ptr, n) ∈ blocks pools big <->
  (exists po, po ∈ pools /\ po_size po = n /\ ptr ∈ live n (po_pages po)) \/ mkFrame ptr n ∈ big.
Proof using.
  induction pools as [|po pools IH].
  - unfold blocks, regions. cbn. induction big as [|[s z] big IH]; cbn; [set_solver|].
    rewrite !elem_of_cons. rewrite IH. split.
    + intros [E|[(po & Hpo & _)|H]]; [injection E as -> ->; auto|by apply not_elem_of_nil in Hpo|auto].
    + intros [(po & Hpo & _)|[E|H]]; [by apply not_elem_of_nil in Hpo|injection E as -> ->; auto|auto].
  - rewrite blocks_cons, elem_of_app, IH, list_elem_of_fmap. setoid_rewrite elem_of_cons. split.
    + intros [(o & E & Ho)|[(po' & ? & ? & ?)|H]]; [|eauto 10|auto].
      injection E as -> ->. left. exists po. auto.
    + intros [(po' & [->|Hpo] & <- & Ho)|H]; [left; by exists ptr|right; left; eauto|auto].
Qed.

(** What a release in one set of caches does: the block is found and free, or it
    is in none of the pages of the set and nothing happens. *)
Definition set_dealloc_post (h : heap) (a : A) (sets : list SlowCaches) (sc : SlowCaches) (pools : list (list pool)) (big rest : list Frame)
    (t : nat) (ptr : Z) (l : Layout) (found : bool) (h' : heap) (a' : A) (sc' : SlowCaches) : Prop :=
  if found then
    exists pools' big', rep h' a' (<[t := sc']> sets) pools' big' rest /\ length pools' = length pools /\
      same_on rest h h' /\ blocks (concat pools) big ≡ₚ (ptr, block_bytes l) :: blocks (concat pools') big' /\
      blocks_kept (blocks (concat pools') big') h h'
  else h' = h /\ a' = a /\ sc' = sc /\ block_bytes l < PAGE_SIZE /\
    forall ps po, pools !! t = Some ps -> po ∈ ps -> po_size po = block_bytes l ->
      ptr ∉ live (block_bytes l) (po_pages po).

Lemma big_dealloc_ok h a sets sc pools big rest t ptr l o : rep h a sets pools big rest -> sets !! t = Some sc ->
  block_bytes l = 2 ^ o -> SLUB_MAX_ORDER <= o -> (ptr, 2 ^ o) ∈ blocks (concat pools) big ->
  exists h' a', fs_dealloc h a (mkFrame ptr (2 ^ o)) = Ret (h', a') /\
    set_dealloc_post h a sets sc pools big rest t ptr l true h' a' sc.
Proof using.
  intros [Hsets Hcl Hp Hh] Hsc Eb Ho Hb. apply elem_of_in_use in Hb as [(po & Hpo & Esz & _)|Hb].
  { pose proof (class_small _ (pool_class pools po Hcl Hpo)) as H. rewrite Esz in H. unfold SLUB_MAX_ORDER in Ho.
    assert (2 ^ 12 <= 2 ^ o) by (apply Z.pow_le_mono_r; lia). unfold PAGE_SIZE in H. lia. }
  apply elem_of_Permutation in Hb as (big' & Hbig). set (f := mkFrame ptr (2 ^ o)) in *.
  assert (Hreg : (regions (concat pools) big).*1 ++ rest ≡ₚ f :: (regions (concat pools) big').*1 ++ rest).
  { unfold regions. rewrite !fmap_app, <- !app_assoc. rewrite Hbig. cbn. by rewrite <- Permutation_middle. }
  assert (Hblk : blocks (concat pools) big ≡ₚ (ptr, 2 ^ o) :: blocks (concat pools) big').
  { change (ptr, 2 ^ o) with (fr_start f, fr_size f). rewrite <- blocks_big. unfold blocks, regions. by rewrite Hbig. }
  destruct (fs_dealloc_ok h a f _ (fs_perm _ _ _ _ Hh Hreg)) as (h' & a' & E & S1 & R1). exists h', a'. split; [done|].
  pose proof S1 as S1'. apply same_on_app in S1' as [S2 S3].
  assert (Hh' : fs_rep h a ((regions (concat pools) big').*1 ++ f :: rest)).
  { apply (fs_perm _ _ _ _ Hh). rewrite Hreg. by rewrite Permutation_middle. }
  assert (Hr0 : rep h a sets pools big' (f :: rest)) by by split.
  exists pools, big'. split; [|split; [done|split; [done|split]]].
  - split; [by rewrite list_insert_id|done| |done]. by apply (pools_same h a _ big' (f :: rest) h').
  - by rewrite Hblk, Eb.
  - apply regions_kept; [|done]. by apply (rep_regions h a sets pools big' (f :: rest)).
Qed.

Lemma set_dealloc_ok h a sets pools big rest t sc l ptr : rep h a sets pools big rest -> sets !! t = Some sc -> layout_ok l ->
  (ptr, block_bytes l) ∈ blocks (concat pools) big ->
  exists found h' a' sc', SlowCaches_dealloc h a sc ptr l = Ret (found, h', a', sc') /\
    set_dealloc_post h a sets sc pools big rest t ptr l found h' a' sc'.
Proof using.
  intros Hr Hsc Hl Hb. destruct (block_bytes_order l Hl) as (o & Eo & Eb & Ho & _).
  pose proof Ho as Ho4. unfold SLUB_MIN_ORDER in Ho4.
  unfold SlowCaches_dealloc. rewrite Eo, outcome_bind_Ret.
  destruct (Z.leb_spec SLUB_MAX_ORDER o) as [Hbig|Hsmall].
  { rewrite Z.shiftl_1_l. rewrite Eb in Hb.
    destruct (big_dealloc_ok h a sets sc pools big rest t ptr l o Hr Hsc Eb Hbig Hb) as (h' & a' & -> & Hpost).
    rewrite outcome_bind_Ret. eexists _, _, _, _. split; [reflexivity|done]. }
  unfold usize_sub. rewrite (proj2 (Z.leb_le _ _)) by lia. rewrite outcome_bind_Ret.
  destruct (sets_lookup h a sets pools big rest t sc Hr Hsc) as (ps & Ht & ->).
  destruct (class_at pools t ps (o - SLUB_MIN_ORDER) (r_class _ _ _ _ _ _ Hr) Ht) as (po & Hi & Esz).
  { unfold CACHES_MAX. lia. }
  replace (o - SLUB_MIN_ORDER + SLUB_MIN_ORDER) with o in Esz by lia. set (i := Z.to_nat (o - SLUB_MIN_ORDER)) in *.
  rewrite list_lookup_fmap, Hi. cbn [expect fmap option_fmap option_map]. rewrite outcome_bind_Ret.
  destruct (select pools t ps i po Ht Hi) as (others & Hperm & Hperm').
  pose proof (r_pools _ _ _ _ _ _ Hr) as Hp. rewrite Hperm in Hp. apply Forall_cons in Hp as [[Hc Hk] _].
  assert (Hh : fs_rep h a (frames_of (po_size po) (po_part po ++ po_full po) ++ (regions others big).*1 ++ rest)).
  { rewrite <- held_cons. apply (fs_perm _ _ _ _ (r_held _ _ _ _ _ _ Hr)). by rewrite Hperm. }
  destruct (decide (ptr ∈ live (po_size po) (po_part po ++ po_full po))) as [Hin|Hout].
  - destruct (Cache_dealloc_ok _ Hc h a _ _ _ _ ptr Hk Hh Hin) as (h' & a' & c' & -> & P' & F' & Hk' & R' & S' & Hlive & Kp).
    rewrite outcome_bind_Ret. eexists _, _, _, _. split; [reflexivity|]. set (po' := mkPool c' P' F') in *.
    assert (Esz' : po_size po' = po_size po) by apply (k_size _ _ _ _ _ Hk').
    assert (Hok' : pool_ok h' po') by (split; rewrite Esz'; done).
    destruct (pool_step h a sets pools big rest t ps i po others po' h' a' Hr Ht Hi Hperm Hperm' Esz' Hok') as (Hr' & Sr & Kb).
    { by rewrite Esz'. } { done. }
    exists (<[t := <[i := po']> ps]> pools), big. split; [exact Hr'|]. split; [by rewrite length_insert|]. split; [done|].
    split.
    + rewrite Hperm', Hperm, !blocks_cons, Esz'. unfold po_pages. rewrite Hlive. cbn. by rewrite Eb, Esz.
    + intros b x Hb' Hx. rewrite Hperm', blocks_cons in Hb'. apply elem_of_app in Hb' as [Hb'|Hb']; [|by apply (Kb b)].
      apply list_elem_of_fmap in Hb' as (ob & -> & Hb'). rewrite Esz' in *. by apply (Kp ob).
  - rewrite (Cache_dealloc_foreign _ Hc h a _ _ _ _ ptr Hk Hh).
    + rewrite outcome_bind_Ret. eexists _, _, _, _. split; [reflexivity|]. split_and!; try done.
      * apply list_insert_id. by rewrite list_lookup_fmap, Hi.
      * rewrite Eb, <- Esz. apply class_small. apply (pool_class pools); [apply Hr|]. rewrite Hperm. left.
      * intros ps2 po2 Hps2 Hpo2 Esz2. rewrite Ht in Hps2. injection Hps2 as <-.
        assert (po2 = po) as -> by (apply (class_unique ps i po); [by apply (proj1 (Forall_lookup _ _) (r_class _ _ _ _ _ _ Hr) t)|done|done|by rewrite Esz2, Esz]).
        rewrite Eb, <- Esz. exact Hout.
    + intros p Hp Hptr. rewrite Hperm, blocks_cons in Hb. apply elem_of_app in Hb as [Hb|Hb].
      * apply list_elem_of_fmap in Hb as (ob & E & Hb). by injection E as <- _.
      * apply elem_of_concat in Hb as (bs & (r & -> & Hri)%list_elem_of_fmap & Hb).
        pose proof (rep_regions _ _ _ _ _ _ Hr) as Hro. rewrite Hperm, regions_cons in Hro. apply Forall_app in Hro as [_ Hro].
        destruct (proj1 (Forall_forall _ _) Hro r Hri) as [Hbin _].
        pose proof (proj1 (Forall_forall _ _) Hbin _ Hb) as B. unfold block_in in B. cbn in B.
        pose proof (frame_vs_rest _ h a _ _ p r.1 Hh Hp) as D.
        specialize (D ltac:(apply elem_of_app; left; by apply list_elem_of_fmap_2)).
        unfold frame_dis, in_frame in *. lia.
Qed.

(** ** Writes of the clients *)

Lemma region_unique (rs : list region) r1 r2 x : pairs frame_dis rs.*1 -> r1 ∈ rs -> r2 ∈ rs ->
  in_frame r1.1 x -> in_frame r2.1 x -> r1 = r2.
Proof using.
  induction rs as [|r rs IH]; intros Hdp H1 H2 X1 X2; [by apply not_elem_of_nil in H1|]. destruct Hdp as [Hd Hp].
  assert (Hne : forall r', r' ∈ rs -> in_frame r.1 x -> in_frame r'.1 x -> False).
  { intros r' Hr' Xr Xr'. pose proof (proj1 (Forall_forall _ _) Hd r'.1 (list_elem_of_fmap_2 _ _ _ Hr')).
    unfold frame_dis, in_frame in *. lia. }
  apply elem_of_cons in H1 as [->|H1]; apply elem_of_cons in H2 as [->|H2]; [done| | |by apply IH].
  - by destruct (Hne r2).
  - by destruct (Hne r1).
Qed.

(** A word of a block in use is in a frame of the heap and no part of its
    book-keeping. *)
Lemma write_ok h a sets pools big rest b x v : rep h a sets pools big rest -> b ∈ blocks (concat pools) big ->
  b.1 <= x < b.1 + b.2 -> x mod 8 = 0 ->
  is_Some (h !! x) /\ rep (<[x := v]> h) a sets pools big rest /\ same_on rest h (<[x := v]> h).
Proof using.
  intros Hr Hb Hx Hm. pose proof (rep_regions _ _ _ _ _ _ Hr) as Hro. destruct Hr as [Hsets Hcl Hp Hh].
  apply elem_of_concat in Hb as (bs & (r & -> & Hri)%list_elem_of_fmap & Hb).
  destruct (proj1 (Forall_forall _ _) Hro r Hri) as [Hbin _]. pose proof (proj1 (Forall_forall _ _) Hbin _ Hb) as B.
  assert (Hin : in_frame r.1 x) by (unfold block_in, in_frame in *; lia).
  assert (Hheld : r.1 ∈ (regions (concat pools) big).*1 ++ rest) by (apply elem_of_app; left; by apply list_elem_of_fmap_2).
  split; [by apply (fs_held h a _ r.1 Hh Hheld)|]. split.
  - split; [done|done| |by apply (fs_write h a _ r.1)].
    pose proof (held_pairs h a _ rest Hh) as Hd.
    apply Forall_forall. intros po Hpo. destruct (proj1 (Forall_forall _ _) Hp po Hpo) as [Hc [K1 K2 K3 K4 K5 K6]].
    assert (Hpage : forall p, p ∈ po_pages po -> page_ok (po_size po) h p ->
      (forall y, page_word p y -> x <> y) /\ f_next (pg p) <> x).
    { intros p Hpp Hpok.
      assert (Hreg : page_region (po_size po) p ∈ regions (concat pools) big).
      { apply elem_of_app. left. apply elem_of_concat. exists (po_regions po).
        split; [by apply list_elem_of_fmap_2|by apply list_elem_of_fmap_2]. }
      assert (Hown : in_frame (page_frame (po_size po) p) x -> exists o, o ∈ used (po_size po) p /\ o <= x < o + po_size po).
      { intros Hxp. pose proof (region_unique _ r _ x Hd Hri Hreg Hin Hxp) as ->. cbn in Hb.
        apply list_elem_of_fmap in Hb as (o & -> & Ho). by exists o. }
      destruct (pool_held h a _ _ _ Hh po Hpo) as [rest' Hh']. destruct (pages_start _ h a _ _ p Hh' Hpp) as [_ Hpm].
      destruct (header_words (pg p) Hpm) as (_ & W2 & _). split.
      - intros y Hy Exy. subst y. destruct Hown as (o & Ho & Hox); [by apply (page_word_in _ Hc h)|].
        by apply (used_word _ Hc h p o x x Hpok Ho Hox).
      - intros E. destruct Hown as (o & Ho & Hox); [rewrite <- E; by apply (header_in _ Hc)|].
        apply elem_of_used in Ho as [Ho _]. destruct (slot_in _ Hc _ _ Ho) as (B1 & _). unfold f_next, header_size in *. lia. }
    pose proof (proj1 (Forall_forall _ _) K4) as K4'. split; [done|]. split; try done.
    + apply plink_insert; [done|]. intros y (p & -> & Hpp)%list_elem_of_fmap. assert (Hpp' : p ∈ po_pages po) by (apply elem_of_app; by left).
      apply (Hpage p Hpp'), K4', Hpp'.
    + apply plink_insert; [done|]. intros y (p & -> & Hpp)%list_elem_of_fmap. assert (Hpp' : p ∈ po_pages po) by (apply elem_of_app; by right).
      apply (Hpage p Hpp'), K4', Hpp'.
    + apply Forall_forall. intros p Hpp. apply (page_ok_frame _ h); [by apply K4'|]. intros y Hy. apply lookup_insert_ne.
      by apply (Hpage p Hpp (K4' p Hpp)).
  - intros g y Hg Hy. apply lookup_insert_ne. intros <-.
    pose proof (list_elem_of_fmap_2 fst _ _ Hri) as Hreg. apply elem_of_Permutation in Hreg as (l & Hl).
    pose proof (fs_disjoint h a r.1 (l ++ rest) g) as D. unfold frame_dis, in_frame in *.
    destruct D; [|apply elem_of_app; by right|lia..]. apply (fs_perm _ _ _ _ Hh). by rewrite Hl.
Qed.

(** ** [Caches] *)

Definition sets (c : Caches) : list SlowCaches := cpu_caches c ++ [slow_caches c].

Lemma sets_cpu c tp cc cc' : cpu_caches c !! tp = Some cc ->
  sets c !! tp = Some cc /\ sets (mkCaches (<[tp := cc']> (cpu_caches c)) (slow_caches c)) = <[tp := cc']> (sets c).
Proof using.
  intros H. pose proof (lookup_lt_Some _ _ _ H) as Hlt. unfold sets. cbn. split; [by rewrite lookup_app_l|].
  by rewrite insert_app_l.
Qed.

Lemma sets_slow c sc' : sets c !! length (cpu_caches c) = Some (slow_caches c) /\
  sets (mkCaches (cpu_caches c) sc') = <[length (cpu_caches c) := sc']> (sets c).
Proof using.
  unfold sets. cbn. split; [by rewrite lookup_app_r, Nat.sub_diag|].
  rewrite insert_app_r_alt by done. by rewrite Nat.sub_diag.
Qed.

Definition caches_alloc_post (h : heap) (c : Caches) (pools : list (list pool)) (big rest : list Frame)
    (l : Layout) (ptr : Z) (h' : heap) (a' : A) (c' : Caches) : Prop :=
  exists pools' big', rep h' a' (sets c') pools' big' rest /\ length (cpu_caches c') = length (cpu_caches c) /\
    same_on rest h h' /\ blocks_kept (blocks (concat pools) big) h h' /\
    if decide (ptr = 0) then blocks (concat pools') big' ≡ₚ blocks (concat pools) big
    else blocks (concat pools') big' ≡ₚ (ptr, block_bytes l) :: blocks (concat pools) big /\
         (l_align l <= PAGE_SIZE -> ptr mod l_align l = 0).

Lemma kept_trans bs h1 h2 h3 : blocks_kept bs h1 h2 -> blocks_kept bs h2 h3 -> blocks_kept bs h1 h3.
Proof using. intros H1 H2 b x Hb Hx. rewrite (H2 b x Hb Hx). by apply (H1 b). Qed.

Lemma kept_perm bs bs' h h' : bs ≡ₚ bs' -> blocks_kept bs h h' -> blocks_kept bs' h h'.
Proof using. intros Hp H b x Hb. rewrite <- Hp in Hb. by apply (H b). Qed.

Lemma Caches_alloc_ok tp h a c pools big rest l : rep h a (sets c) pools big rest ->
  (tp < length (cpu_caches c))%nat -> layout_ok l ->
  exists ptr h' a' c', Caches_alloc tp h a c l = Ret (ptr, h', a', c') /\
    caches_alloc_post h c pools big rest l ptr h' a' c'.
Proof using.
  intros Hr Htp Hl. destruct (lookup_lt_is_Some_2 _ _ Htp) as [cc Ecc].
  unfold Caches_alloc. rewrite Ecc. cbn [expect]. rewrite outcome_bind_Ret.
  destruct (set_alloc_ok h a (sets c) pools big rest tp cc l Hr (proj1 (sets_cpu c tp cc cc Ecc)) Hl)
    as (ptr & h1 & a1 & cc' & -> & pools1 & big1 & Hr1 & L1 & S1 & K1 & B1).
  rewrite outcome_bind_Ret. rewrite <- (proj2 (sets_cpu c tp cc cc' Ecc)) in Hr1.
  set (c1 := mkCaches (<[tp := cc']> (cpu_caches c)) (slow_caches c)) in *.
  destruct (Z.eqb_spec ptr 0) as [->|Hp]; cbn [negb].
  - rewrite decide_True in B1 by done.
    destruct (set_alloc_ok h1 a1 (sets c1) pools1 big1 rest _ (slow_caches c1) l Hr1 (proj1 (sets_slow c1 (slow_caches c1))) Hl)
      as (ptr & h2 & a2 & sc' & -> & pools2 & big2 & Hr2 & L2 & S2 & K2 & B2).
    rewrite outcome_bind_Ret. rewrite <- (proj2 (sets_slow c1 sc')) in Hr2. eexists _, _, _, _. split; [reflexivity|].
    exists pools2, big2. split; [exact Hr2|]. split; [cbn; by rewrite length_insert|].
    split; [by apply (same_on_trans _ _ h1)|]. split; [apply (kept_trans _ _ h1); [done|by apply (kept_perm _ _ _ _ B1)]|].
    case_decide; [by rewrite B2|]. destruct B2 as [B2 B3]. split; [by rewrite B2, B1|done].
  - eexists _, _, _, _. split; [reflexivity|]. exists pools1, big1. split; [exact Hr1|]. split; [cbn; by rewrite length_insert|].
    split; [done|]. split; done.
Qed.

(** The block is free again, or the hart does not know it: then nothing happens,
    which takes a second hart. *)
Definition caches_dealloc_post (h : heap) (a : A) (c : Caches) (pools : list (list pool)) (big rest : list Frame)
    (ptr : Z) (l : Layout) (h' : heap) (a' : A) (c' : Caches) : Prop :=
  (exists pools' big', rep h' a' (sets c') pools' big' rest /\ length (cpu_caches c') = length (cpu_caches c) /\
    same_on rest h h' /\ blocks (concat pools) big ≡ₚ (ptr, block_bytes l) :: blocks (concat pools') big' /\
    blocks_kept (blocks (concat pools') big') h h') \/
  (h' = h /\ a' = a /\ c' = c /\ length (cpu_caches c) <> 1%nat).

Lemma found_somewhere h a c pools big rest ptr n : rep h a (sets c) pools big rest -> length (cpu_caches c) = 1%nat ->
  n < PAGE_SIZE -> (ptr, n) ∈ blocks (concat pools) big ->
  exists t ps po, (t < 2)%nat /\ pools !! t = Some ps /\ po ∈ ps /\ po_size po = n /\ ptr ∈ live n (po_pages po).
Proof using.
  intros [Hsets Hcl Hp Hh] Hn Hlt Hb. apply elem_of_in_use in Hb as [(po & (ps & Hps & Hpo)%elem_of_concat & Esz & Hl)|Hb].
  - apply list_elem_of_lookup in Hps as [t Ht]. exists t, ps, po. split_and!; try done.
    apply lookup_lt_Some in Ht. pose proof (f_equal length Hsets) as E. unfold sets, sets_of in E.
    rewrite length_app, length_fmap in E. cbn in E. lia.
  - exfalso. destruct (fs_held h a _ (mkFrame ptr n) Hh) as [(_ & _ & F3 & _) _]; [|cbn in F3; lia].
    apply elem_of_app. left. unfold regions. rewrite fmap_app. apply elem_of_app. right. rewrite <- list_fmap_compose.
    apply list_elem_of_fmap. by exists (mkFrame ptr n).
Qed.

Lemma Caches_dealloc_ok tp h a c pools big rest l ptr : rep h a (sets c) pools big rest ->
  (tp < length (cpu_caches c))%nat -> layout_ok l -> (ptr, block_bytes l) ∈ blocks (concat pools) big ->
  exists h' a' c', Caches_dealloc tp h a c ptr l = Ret (h', a', c') /\
    caches_dealloc_post h a c pools big rest ptr l h' a' c'.
Proof using.
  intros Hr Htp Hl Hb. destruct (lookup_lt_is_Some_2 _ _ Htp) as [cc Ecc].
  unfold Caches_dealloc. rewrite Ecc. cbn [expect]. rewrite outcome_bind_Ret.
  destruct (set_dealloc_ok h a (sets c) pools big rest tp cc l ptr Hr (proj1 (sets_cpu c tp cc cc Ecc)) Hl Hb)
    as (found & h1 & a1 & cc' & -> & Hpost).
  rewrite outcome_bind_Ret. destruct found; cbn [negb set_dealloc_post] in *.
  { destruct Hpost as (pools1 & big1 & Hr1 & L1 & S1 & B1 & K1). rewrite <- (proj2 (sets_cpu c tp cc cc' Ecc)) in Hr1.
    eexists _, _, _. split; [reflexivity|]. left. exists pools1, big1. split; [exact Hr1|]. split; [cbn; by rewrite length_insert|done]. }
  destruct Hpost as (-> & -> & -> & Hlt & Hno). rewrite list_insert_id by done.
  assert (Ec : mkCaches (cpu_caches c) (slow_caches c) = c) by by destruct c. rewrite Ec.
  destruct (set_dealloc_ok h a (sets c) pools big rest _ (slow_caches c) l ptr Hr (proj1 (sets_slow c (slow_caches c))) Hl Hb)
    as (found & h2 & a2 & sc' & -> & Hpost).
  rewrite outcome_bind_Ret. destruct found; cbn [set_dealloc_post] in *.
  { destruct Hpost as (pools1 & big1 & Hr1 & L1 & S1 & B1 & K1). rewrite <- (proj2 (sets_slow c sc')) in Hr1.
    eexists _, _, _. split; [reflexivity|]. left. exists pools1, big1. split; [exact Hr1|]. done. }
  destruct Hpost as (-> & -> & -> & _ & Hno2). rewrite Ec. eexists _, _, _. split; [reflexivity|]. right. split_and!; try done.
  intros Hone. destruct (found_somewhere h a c pools big rest ptr _ Hr Hone Hlt Hb) as (t & ps & po & Ht & Hps & Hpo & Esz & Hlive).
  destruct t as [|[|t]]; [|rewrite Hone in Hno2; by apply (Hno2 ps po)|lia].
  assert (tp = 0%nat) as -> by lia. by apply (Hno ps po).
Qed.

(** ** Sequences of operations *)

Definition blk (e : Z * Layout) : block := (e.1, block_bytes e.2).

Definition entry_ok (e : Z * Layout) : Prop :=
  layout_ok e.2 /\ (l_align e.2 <= PAGE_SIZE -> e.1 mod l_align e.2 = 0).

(** With [n] harts; [lost] are blocks released on a hart that does not know them. *)
Definition heap_inv (n : nat) (rest : list Frame) (s : @hstate A) : Prop :=
  exists pools big lost, rep (hs_heap s) (hs_alloc s) (sets (hs_caches s)) pools big rest /\
    length (cpu_caches (hs_caches s)) = n /\
    blocks (concat pools) big ≡ₚ (blk <$> hs_live s) ++ lost /\ (n = 1%nat -> lost = []) /\
    Forall entry_ok (hs_live s).

Definition hop_ok (n : nat) (op : hop) : Prop :=
  match op with
  | HAlloc tp l => (tp < n)%nat /\ layout_ok l
  | HFree tp _ => (tp < n)%nat
  | HWrite _ _ _ => True
  end.

(** The word an operation writes for a client. *)
Definition written (s : @hstate A) (op : hop) : option Z :=
  match op with
  | HWrite k off _ => (fun e : Z * Layout => e.1 + off) <$> hs_live s !! k
  | _ => None
  end.

(** Blocks in use before and after an operation keep their words. *)
Definition contents_kept (s : @hstate A) (op : hop) (s' : @hstate A) : Prop :=
  forall e x, e ∈ hs_live s -> e ∈ hs_live s' -> e.1 <= x < e.1 + block_bytes e.2 -> Some x <> written s op ->
    hs_heap s' !! x = hs_heap s !! x.

Lemma delete_perm {B} (l : list B) k x : l !! k = Some x -> l ≡ₚ x :: delete k l.
Proof using. intros H. by apply delete_Permutation. Qed.

(** Blocks begin at words. *)
Lemma block_words h a c pools big rest b : rep h a c pools big rest -> b ∈ blocks (concat pools) big -> b.1 mod 8 = 0.
Proof using.
  intros [_ _ Hp Hh] Hb. destruct b as [ptr n]. apply elem_of_in_use in Hb as [(po & Hpo & <- & Hl)|Hb]; cbn.
  - apply elem_of_live in Hl as (p & Hpp & Hu). apply elem_of_used in Hu as [Ho _].
    destruct (proj1 (Forall_forall _ _) Hp po Hpo) as [Hc _].
    destruct (pool_held h a _ _ _ Hh po Hpo) as [rest' Hh']. destruct (pages_start _ h a _ _ p Hh' Hpp) as [_ Hm].
    by apply (slot_word _ Hc p ptr Hm).
  - destruct (fs_held h a _ (mkFrame ptr n) Hh) as [(_ & F2 & _) _].
    { apply elem_of_app. left. unfold regions. rewrite fmap_app. apply elem_of_app. right. rewrite <- list_fmap_compose.
      apply list_elem_of_fmap. by exists (mkFrame ptr n). }
    cbn in F2. unfold PAGE_SIZE in F2. lia.
Qed.

Lemma heap_step_ok n rest s op : heap_inv n rest s -> hop_ok n op ->
  exists s', heap_step s op = Ret s' /\ heap_inv n rest s' /\ same_on rest (hs_heap s) (hs_heap s') /\
    contents_kept s op s'.
Proof using.
  intros (pools & big & lost & Hr & Hn & Hb & Hlost & Hlive) Hop. destruct s as [h a c live0]. cbn in *.
  destruct op as [tp l|tp k|k off v]; cbn [heap_step hs_heap hs_alloc hs_caches hs_live] in *.
  - destruct Hop as [Htp Hl]. rewrite <- Hn in Htp.
    destruct (Caches_alloc_ok tp h a c pools big rest l Hr Htp Hl) as (ptr & h' & a' & c' & -> & pools' & big' & Hr' & Hn' & S' & K' & B').
    rewrite outcome_bind_Ret. eexists. split; [reflexivity|]. cbn. split; [|split; [done|]].
    + exists pools', big', lost. cbn. split; [done|]. split; [congruence|].
      destruct (Z.eqb_spec ptr 0) as [->|Hp].
      * rewrite decide_True in B' by done. split; [by rewrite B'|done].
      * rewrite decide_False in B' by done. destruct B' as [B1 B2]. split; [|split; [done|]].
        -- rewrite B1, Hb, fmap_app, <- app_assoc. apply Permutation_middle.
        -- apply Forall_app. split; [done|]. constructor; [done|constructor].
    + intros e x He _ Hx _. apply (K' (blk e)); [|done]. rewrite Hb. apply elem_of_app. left. by apply list_elem_of_fmap_2.
  - destruct (live0 !! k) as [[ptr l]|] eqn:Ek.
    2:{ eexists. split; [reflexivity|]. split; [by exists pools, big, lost|]. split; [apply same_on_refl|]. by intros e x. }
    pose proof (delete_perm _ _ _ Ek) as Hdel. pose proof Hlive as Hlive'. rewrite Hdel in Hlive'. apply Forall_cons in Hlive' as [[Hl _] Hlive'].
    cbn in Hl. rewrite <- Hn in Hop.
    destruct (Caches_dealloc_ok tp h a c pools big rest l ptr Hr Hop Hl) as (h' & a' & c' & -> & Hpost).
    { rewrite Hb. apply elem_of_app. left. apply list_elem_of_fmap. exists (ptr, l). split; [done|]. by apply list_elem_of_lookup_2 in Ek. }
    rewrite outcome_bind_Ret. eexists. split; [reflexivity|].
    destruct Hpost as [(pools' & big' & Hr' & Hn' & S' & B' & K')|(-> & -> & -> & Hne)].
    + assert (Hb' : blocks (concat pools') big' ≡ₚ (blk <$> delete k live0) ++ lost).
      { apply (Permutation_cons_inv (a := (ptr, block_bytes l))). rewrite <- B', Hb. rewrite Hdel at 1. done. }
      split; [|split; [done|]].
      * exists pools', big', lost. cbn. split; [done|]. split; [congruence|]. done.
      * intros e x _ He Hx _. cbn in *. apply (K' (blk e)); [|done]. rewrite Hb'. apply elem_of_app. left. by apply list_elem_of_fmap_2.
    + split; [|split; [apply same_on_refl|by intros e x]]. exists pools, big, ((ptr, block_bytes l) :: lost). cbn.
      split; [done|]. split; [done|]. split; [|split; [intros ->; congruence|done]].
      rewrite Hb. rewrite Hdel at 1. cbn. by rewrite <- Permutation_middle.
  - destruct (live0 !! k) as [[ptr l]|] eqn:Ek.
    2:{ eexists. split; [reflexivity|]. split; [by exists pools, big, lost|]. split; [apply same_on_refl|]. by intros e x. }
    destruct ((0 <=? off) && (off <? l_size l) && (off mod 8 =? 0)) eqn:Ec.
    2:{ eexists. split; [reflexivity|]. split; [by exists pools, big, lost|]. split; [apply same_on_refl|]. by intros e x. }
    apply andb_true_iff in Ec as [[E1%Z.leb_le E2%Z.ltb_lt]%andb_true_iff E3%Z.eqb_eq].
    assert (Hin : blk (ptr, l) ∈ blocks (concat pools) big).
    { rewrite Hb. apply elem_of_app. left. apply list_elem_of_fmap_2. by apply list_elem_of_lookup_2 in Ek. }
    destruct (proj1 (Forall_lookup _ _) Hlive k _ Ek) as [Hl _]. destruct (block_bytes_order _ Hl) as (o & _ & Eo & _ & Hsz & _).
    pose proof (block_words h a _ pools big rest _ Hr Hin) as Hw. cbn in Hw, Hsz, Eo.
    destruct (write_ok h a _ pools big rest (blk (ptr, l)) (ptr + off) v Hr Hin) as ([w Ew] & Hr' & S').
    { cbn. lia. } { rewrite Z.add_mod by lia. by rewrite Hw, E3. }
    unfold store. rewrite Ew. eexists. split; [reflexivity|]. split; [by exists pools, big, lost|]. split; [done|].
    intros e x He _ Hx Hne. cbn in *. rewrite Ek in Hne. cbn in Hne. apply lookup_insert_ne. congruence.
Qed.

(** A heap without blocks in use has no pages. *)
Lemma page_in_use os p : class_ok os -> Z.of_nat (length (pf p)) < slub_count os -> used os p <> [].
Proof using.
  intros Hc Hlt E. assert (Hs : slots os (pg p) ⊆ pf p).
  { intros o Ho. destruct (decide (o ∈ pf p)) as [|Hn]; [done|]. exfalso.
    assert (Hu : o ∈ used os p) by by apply elem_of_used. rewrite E in Hu. by apply not_elem_of_nil in Hu. }
  pose proof (submseteq_length _ _ (NoDup_submseteq _ _ (slots_NoDup os Hc (pg p)) Hs)) as Hle.
  pose proof (slots_length os Hc (pg p)). lia.
Qed.

Lemma no_blocks h a c pools big rest : rep h a c pools big rest -> blocks (concat pools) big = [] -> fs_rep h a rest.
Proof using.
  intros [_ _ Hp Hh] E. assert (Er : regions (concat pools) big = []).
  { apply elem_of_nil_inv. intros r Hr. apply elem_of_app in Hr as [Hr|(f & -> & Hf)%list_elem_of_fmap].
    - apply elem_of_concat in Hr as (l & (po & -> & Hpo)%list_elem_of_fmap & (p & -> & Hpp)%list_elem_of_fmap).
      destruct (proj1 (Forall_forall _ _) Hp po Hpo) as [Hc [_ _ _ _ K5 K6]].
      assert (Hu : used (po_size po) p <> []).
      { apply page_in_use; [done|]. apply elem_of_app in Hpp as [Hpp|Hpp].
        - by apply (proj1 (Forall_forall _ _) K5 p).
        - rewrite (proj1 (Forall_forall _ _) K6 p Hpp). cbn. pose proof (c_two _ Hc). lia. }
      destruct (used (po_size po) p) as [|o us] eqn:Eu; [done|].
      assert (Hin : (o, po_size po) ∈ blocks (concat pools) big).
      { apply elem_of_in_use. left. exists po. split; [done|]. split; [done|]. apply elem_of_live. exists p. split; [done|]. rewrite Eu. left. }
      rewrite E in Hin. by apply not_elem_of_nil in Hin.
    - assert (Hin : (fr_start f, fr_size f) ∈ blocks (concat pools) big) by (apply elem_of_in_use; right; by destruct f).
      rewrite E in Hin. by apply not_elem_of_nil in Hin. }
  rewrite Er in Hh. exact Hh.
Qed.

Lemma rep_init h a n rest : fs_rep h a rest -> heap_inv n rest (heap_init h a n).
Proof using.
  intros H. set (ps := (fun os => mkPool (Cache_new os) [] []) <$> size_classes).
  set (pools := replicate n ps ++ [ps]).
  assert (Hall : forall po, po ∈ concat pools -> exists os, os ∈ size_classes /\ po = mkPool (Cache_new os) [] []).
  { intros po (l & Hl & Hpo)%elem_of_concat.
    assert (l = ps) as -> by (apply elem_of_app in Hl as [Hl%elem_of_replicate_inv|Hl%list_elem_of_singleton]; done).
    apply list_elem_of_fmap in Hpo as (os & -> & Hos). by exists os. }
  assert (Ereg : regions (concat pools) [] = []).
  { apply elem_of_nil_inv. intros r Hr. apply elem_of_app in Hr as [Hr|Hr]; [|by apply not_elem_of_nil in Hr].
    apply elem_of_concat in Hr as (l & (po & -> & Hpo)%list_elem_of_fmap & Hr).
    destruct (Hall po Hpo) as (os & _ & ->). by apply not_elem_of_nil in Hr. }
  exists pools, [], []. unfold heap_init, Caches_new. cbn [hs_heap hs_alloc hs_caches hs_live cpu_caches].
  split; [|split; [by rewrite length_replicate|split; [by unfold blocks; rewrite Ereg|split; [done|constructor]]]].
  split.
  - unfold sets, sets_of, pools. cbn [cpu_caches slow_caches]. rewrite fmap_app, fmap_replicate. f_equal.
  - apply Forall_app. split; [apply Forall_replicate|constructor; [|constructor]]; unfold ps; rewrite <- list_fmap_compose; apply list_fmap_id.
  - apply Forall_forall. intros po Hpo. destruct (Hall po Hpo) as (os & Hos & ->).
    split; [by apply size_class_ok|]. by split; cbn; try constructor.
  - by rewrite Ereg.
Qed.

(** What every reachable state of the heap satisfies. *)
Record heap_safe (n : nat) (rest : list Frame) (h0 : heap) (s : @hstate A) : Prop := {
  s_disjoint : forall i j e f, i <> j -> hs_live s !! i = Some e -> hs_live s !! j = Some f -> block_dis (blk e) (blk f);
  s_fits : forall e, e ∈ hs_live s -> l_size e.2 <= block_bytes e.2 /\ (l_align e.2 <= PAGE_SIZE -> e.1 mod l_align e.2 = 0);
  s_apart : forall e g, e ∈ hs_live s -> g ∈ rest -> block_dis (blk e) (fr_start g, fr_size g);
  s_others : same_on rest h0 (hs_heap s);
  s_step : forall op, hop_ok n op -> exists s', heap_step s op = Ret s' /\ contents_kept s op s';
  s_returned : n = 1%nat -> hs_live s = [] -> fs_rep (hs_heap s) (hs_alloc s) rest;
}.

Lemma pairs_lookup {B} (R : B -> B -> Prop) {HR : Symmetric R} l i j x y : pairs R l -> i <> j ->
  l !! i = Some x -> l !! j = Some y -> R x y.
Proof using.
  revert i j. induction l as [|z l IH]; intros [|i] [|j] Hp Hij Hi Hj; try done; destruct Hp as [H1 H2]; cbn in *; simplify_eq.
  - by apply (proj1 (Forall_lookup _ _) H1 j).
  - symmetry. by apply (proj1 (Forall_lookup _ _) H1 i).
  - apply (IH i j); [done|lia|done|done].
Qed.

Lemma inv_safe n rest h0 s : heap_inv n rest s -> same_on rest h0 (hs_heap s) -> heap_safe n rest h0 s.
Proof using.
  intros Hinv Hs. pose proof Hinv as (pools & big & lost & Hr & Hn & Hb & Hlost & Hlive).
  pose proof (rep_disjoint _ _ _ _ _ _ Hr) as Hd. apply (pairs_perm _ _ _ Hb), pairs_app in Hd as (Hd & _ & _). split.
  - intros i j e f Hij Hi Hj. apply (pairs_lookup _ _ i j _ _ Hd Hij); by rewrite list_lookup_fmap, ?Hi, ?Hj.
  - intros e He. destruct (proj1 (Forall_forall _ _) Hlive e He) as [Hl Ha]. split; [|done].
    destruct (block_bytes_order _ Hl) as (o & _ & -> & _ & Hsz & _). done.
  - intros e g He Hg. assert (Hin : blk e ∈ blocks (concat pools) big).
    { rewrite Hb. apply elem_of_app. left. by apply list_elem_of_fmap_2. }
    pose proof (rep_regions _ _ _ _ _ _ Hr) as Hro.
    apply elem_of_concat in Hin as (bs & (r & -> & Hri)%list_elem_of_fmap & Hin).
    destruct (proj1 (Forall_forall _ _) Hro r Hri) as [Hbin _]. pose proof (proj1 (Forall_forall _ _) Hbin _ Hin) as B.
    pose proof (list_elem_of_fmap_2 fst _ _ Hri) as Hreg. apply elem_of_Permutation in Hreg as (l & Hl).
    pose proof (fs_disjoint (hs_heap s) (hs_alloc s) r.1 (l ++ rest) g) as D.
    destruct D; [apply (fs_perm _ _ _ _ (r_held _ _ _ _ _ _ Hr)); by rewrite Hl|apply elem_of_app; by right|..];
      unfold block_dis, block_in in *; cbn in *; lia.
  - done.
  - intros op Hop. destruct (heap_step_ok n rest s op Hinv Hop) as (s' & ? & _ & _ & ?). eauto.
  - intros E1 E2. apply (no_blocks _ _ _ pools big rest Hr). rewrite (Hlost E1), E2 in Hb. by apply Permutation_nil_r in Hb.
Qed.

Lemma heap_run_inv n rest ops s : heap_inv n rest s -> Forall (hop_ok n) ops ->
  exists s', heap_run s ops = Ret s' /\ heap_inv n rest s' /\ same_on rest (hs_heap s) (hs_heap s').
Proof using.
  revert s. induction ops as [|op ops IH]; intros s Hs Ho; cbn [heap_run].
  { exists s. split; [done|]. split; [done|apply same_on_refl]. }
  apply Forall_cons in Ho as [Hop Ho]. destruct (heap_step_ok n rest s op Hs Hop) as (s1 & -> & H1 & S1 & _).
  rewrite outcome_bind_Ret. destruct (IH s1 H1 Ho) as (s2 & E2 & H2 & S2). exists s2. split; [done|]. split; [done|].
  by apply (same_on_trans _ _ (hs_heap s1)).
Qed.


End Regions.

(** ** Requests beyond the largest frame *)

Section Large.
Context {A : Type} {FS : FrameSource A} {FL : FrameLaws A}.

Lemma frame_bytes_max o : 22 <= o -> frame_bytes (2 ^ o) = 2 ^ 22.
Proof using.
  intros Ho. unfold frame_bytes, size_to_order.
  rewrite ilog2_ceil_ok by (apply (Z.pow_le_mono_r 2 0 o); lia). rewrite outcome_bind_Ret, Z.log2_up_pow2 by lia.
  unfold PAGE_SIZE_LOG_2. destruct (Z.leb_spec o 12); [lia|]. unfold BUDDY_MAX_ORDER. cbn [mret outcome_ret].
  rewrite Nat.min_r by lia. reflexivity.
Qed.

(** A request of more than 4 MiB is served with a block of 4 MiB: [alloc] asks
    the frame allocator for the rounded size, which answers with its largest
    block, and returns the address of that as if it were large enough. *)
Theorem SlowCaches_alloc_short h a held self layout : fs_rep h a held ->
  2 ^ 22 < l_size layout <= 2 ^ 63 -> 0 < l_align layout <= 2 ^ 63 ->
  exists ptr h' a', SlowCaches_alloc h a self layout = Ret (ptr, h', a', self) /\
    (ptr = 0 \/ exists f, fs_rep h' a' (f :: held) /\ fr_start f = ptr /\ fr_size f = 2 ^ 22 /\
       fr_size f < l_size layout).
Proof using.
  intros H Hs Ha. unfold SlowCaches_alloc, layout_order. change (Z.shiftl 1 SLUB_MIN_ORDER) with 16.
  set (m := Z.max (Z.max (l_size layout) (l_align layout)) 16). assert (Hm : 2 ^ 22 < m <= 2 ^ 63) by lia.
  assert (Ho : 22 <= Z.log2_up m <= 63).
  { split; [|by apply Z.log2_up_le_pow2; lia]. change 22 with (Z.log2_up (2 ^ 22)). apply Z.log2_up_le_mono; lia. }
  unfold next_power_of_two. rewrite (proj2 (Z.ltb_lt _ _)) by (apply Z.pow_lt_mono_r; lia).
  change (mret ?x) with (Ret x). rewrite !outcome_bind_Ret. rewrite trailing_zeros_pow by lia.
  rewrite (proj2 (Z.leb_le _ _)) by (unfold SLUB_MAX_ORDER; lia). rewrite Z.shiftl_1_l.
  destruct (fs_alloc_ok h a held (Some (2 ^ Z.log2_up m)) H) as (r & h' & a' & -> & _ & Hr).
  { cbn. apply (Z.pow_le_mono_r 2 0); lia. }
  rewrite outcome_bind_Ret. exists (from_option fr_start 0 r), h', a'. split; [done|].
  destruct r as [f|]; [right|by left]. destruct Hr as [R E]. change (fr_size f = frame_bytes (2 ^ Z.log2_up m)) in E.
  rewrite frame_bytes_max in E by lia. exists f. split_and!; [done|done|done|lia].
Qed.

End Large.

(** ** Examples *)

(** A machine with four pages and no frames handed out yet. *)
#[local] Instance four_pages : FrameLaws BuddyAllocator :=
  buddy_laws 8388608 8404992 ltac:(vm_compute; reflexivity) ltac:(vm_compute; discriminate).

Lemma four_pages_free : fs_rep ex_heap ex_buddy [].
Proof. exists ex_lists, [], []. split; [exact ex_rep|constructor]. Qed.


Lemma SlowCaches_alloc_short_witness : 2 ^ 22 < l_size (mkLayout 5000000 8) <= 2 ^ 63 /\
  exists ptr h' a', SlowCaches_alloc ex_heap ex_buddy SlowCaches_new (mkLayout 5000000 8) = Ret (ptr, h', a', SlowCaches_new).
Proof.
  split; [cbn; lia|].
  destruct (SlowCaches_alloc_short ex_heap ex_buddy [] SlowCaches_new (mkLayout 5000000 8) four_pages_free)
    as (ptr & h' & a' & E & _); [cbn; lia|cbn; lia|]. by exists ptr, h', a'.
Defined.
