(* ===== verification/Bytes.v ===== *)
(** * Bytes: byte strings, little-endian numbers and UTF-8

    What the file system, the loader and the drivers use of byte slices: numbers
    of several bytes as the machine stores them, slices cut into pieces of one
    length, and the standard library's UTF-8 decoding. *)

From S2P Require Import Prelude.

Definition is_byte (x : Z) : Prop := 0 <= x < 256.
Abbreviation bytes := (Forall is_byte).

(** A byte slice seen as an array of [u16] or of [u64], and back. *)
Definition as_u16s (buf : list Z) : list Z := from_le_bytes <$> chunks 2 buf.
Definition u16s_bytes (l : list Z) : list Z := concat (to_le_bytes 2 <$> l).
Definition as_words (buf : list Z) : list Z := from_le_bytes <$> chunks 8 buf.
Definition words_bytes (ws : list Z) : list Z := concat (to_le_bytes 8 <$> ws).

(** The [n] bytes at offset [off] of a structure, as a little-endian number. *)
Definition le_at (off n : nat) (buf : list Z) : Z := from_le_bytes (take n (drop off buf)).

(** ** Little-endian numbers *)

Lemma from_le_bytes_range bs : bytes bs -> 0 <= from_le_bytes bs < 256 ^ Z.of_nat (length bs).
Proof.
  induction 1 as [|b bs Hb _ IH]; [simpl; lia|].
  cbn [from_le_bytes length]. rewrite Nat2Z.inj_succ, Z.pow_succ_r by lia.
  unfold is_byte in Hb. lia.
Qed.

Lemma from_le_bytes_fits w bs : bytes bs -> w = 8 * Z.of_nat (length bs) -> fits w (from_le_bytes bs).
Proof.
  intros Hb ->. unfold fits. rewrite Z.pow_mul_r by lia. by apply from_le_bytes_range.
Qed.

Lemma to_le_bytes_bytes n x : bytes (to_le_bytes n x).
Proof.
  revert x. induction n as [|n IH]; intros x; simpl; constructor; [unfold is_byte; lia|done].
Qed.

Lemma from_to_le_bytes n x : 0 <= x < 256 ^ Z.of_nat n -> from_le_bytes (to_le_bytes n x) = x.
Proof.
  revert x. induction n as [|n IH]; intros x Hx; [simpl in *; lia|].
  cbn [to_le_bytes from_le_bytes]. rewrite Nat2Z.inj_succ, Z.pow_succ_r in Hx by lia.
  rewrite IH by lia. lia.
Qed.

Lemma to_from_le_bytes bs : bytes bs -> to_le_bytes (length bs) (from_le_bytes bs) = bs.
Proof.
  induction 1 as [|b bs Hb _ IH]; [done|]. cbn [length from_le_bytes to_le_bytes].
  unfold is_byte in Hb. f_equal; [lia|].
  replace ((b + 256 * from_le_bytes bs) / 256) with (from_le_bytes bs) by lia. done.
Qed.

(** Bit [j] of a number of several bytes is bit [j mod 8] of byte [j / 8]. *)
Lemma from_le_bytes_testbit bs j : bytes bs -> 0 <= j ->
  Z.testbit (from_le_bytes bs) j = Z.testbit (nth (Z.to_nat (j / 8)) bs 0) (j mod 8).
Proof.
  intros Hb. revert j. induction Hb as [|b bs Hb Hbs IH]; intros j Hj.
  { simpl. destruct (Z.to_nat _); by rewrite !Z.bits_0. }
  cbn [from_le_bytes]. pose proof (from_le_bytes_range bs Hbs).
  unfold is_byte in Hb.
  destruct (Z.lt_ge_cases j 8).
  - rewrite <- (Z.mod_pow2_bits_low (b + _) 8) by lia. change (2 ^ 8) with 256.
    replace ((b + 256 * from_le_bytes bs) mod 256) with b by lia.
    replace (j / 8) with 0 by lia. by replace (j mod 8) with j by lia.
  - replace j with (j - 8 + 8) at 1 by lia. rewrite <- Z.div_pow2_bits by lia.
    change (2 ^ 8) with 256.
    replace ((b + 256 * from_le_bytes bs) / 256) with (from_le_bytes bs) by lia.
    rewrite IH by lia. replace (Z.to_nat (j / 8)) with (S (Z.to_nat ((j - 8) / 8))) by lia.
    cbn [nth]. by replace ((j - 8) mod 8) with (j mod 8) by lia.
Qed.

Lemma to_le_bytes_testbit n x j : 0 <= j < 8 * Z.of_nat n ->
  Z.testbit (nth (Z.to_nat (j / 8)) (to_le_bytes n x) 0) (j mod 8) = Z.testbit x j.
Proof.
  revert x j. induction n as [|n IH]; intros x j Hj; [lia|]. cbn [to_le_bytes].
  destruct (Z.lt_ge_cases j 8).
  - replace (j / 8) with 0 by lia. change (nth (Z.to_nat 0) _ 0) with (x mod 2 ^ 8).
    replace (j mod 8) with j by lia. by rewrite Z.mod_pow2_bits_low by lia.
  - replace (Z.to_nat (j / 8)) with (S (Z.to_nat ((j - 8) / 8))) by lia. cbn [nth].
    replace (j mod 8) with ((j - 8) mod 8) by lia. rewrite IH by lia.
    change (x / 256) with (x / 2 ^ 8). rewrite Z.div_pow2_bits by lia. f_equal. lia.
Qed.

(** ** Slices cut into pieces *)

Lemma chunks_fuel_concat {A} (k : nat) (ls : list (list A)) fuel :
  (0 < k)%nat -> Forall (fun l => length l = k) ls -> (length (concat ls) <= fuel)%nat ->
  chunks_fuel fuel k (concat ls) = ls.
Proof.
  intros Hk Hls. revert fuel. induction Hls as [|l ls Hl Hls IH]; intros fuel Hf.
  { by destruct fuel. }
  cbn [concat] in *. rewrite length_app in Hf. destruct fuel as [|fuel]; [lia|].
  cbn [chunks_fuel]. destruct (l ++ concat ls) eqn:E.
  { apply (f_equal length) in E. rewrite length_app in E. simpl in E. lia. }
  rewrite <- E. rewrite take_app_length', drop_app_length' by done. f_equal. apply IH. lia.
Qed.

Lemma chunks_concat {A} (k : nat) (ls : list (list A)) :
  (0 < k)%nat -> Forall (fun l => length l = k) ls -> chunks k (concat ls) = ls.
Proof. intros. unfold chunks. by apply chunks_fuel_concat. Qed.

(** Every slice of whole pieces comes from pieces. *)
Lemma pieces {A} (k m : nat) (l : list A) : length l = (m * k)%nat ->
  exists ls, l = concat ls /\ Forall (fun x => length x = k) ls /\ length ls = m.
Proof.
  revert l. induction m as [|m IH]; intros l Hl.
  { exists []. destruct l; [done|simpl in Hl; lia]. }
  simpl in Hl. destruct (IH (drop k l)) as (ls & E & Hls & Hm).
  { rewrite length_drop. lia. }
  exists (take k l :: ls). split; [|split; [constructor; [rewrite length_take; lia|done]|simpl; lia]].
  cbn [concat]. rewrite <- E. by rewrite take_drop.
Qed.

Lemma length_concat_pieces {A} (k : nat) (ls : list (list A)) :
  Forall (fun x => length x = k) ls -> length (concat ls) = (length ls * k)%nat.
Proof. induction 1 as [|l ls Hl _ IH]; [done|]. cbn [concat length]. rewrite length_app. lia. Qed.

Lemma nth_concat_pieces {A} (k : nat) (ls : list (list A)) (i j : nat) (a : A) :
  Forall (fun x => length x = k) ls -> (j < k)%nat ->
  nth (i * k + j) (concat ls) a = nth j (nth i ls []) a.
Proof.
  intros Hls Hj. revert i. induction Hls as [|l ls Hl Hls IH]; intros i.
  { simpl. destruct i; [by destruct j|]. by destruct (S i * k + j)%nat, j. }
  cbn [concat]. destruct i as [|i]; cbn [nth].
  - rewrite app_nth1 by lia. done.
  - rewrite app_nth2 by lia. rewrite <- IH. f_equal. lia.
Qed.

(** ** Arrays of numbers *)

Lemma le_pieces n (l : list Z) : Forall (fun x => length x = n) (to_le_bytes n <$> l).
Proof. apply Forall_fmap, Forall_forall. intros x _. apply to_le_bytes_length. Qed.

Lemma concat_bytes (ls : list (list Z)) : Forall bytes ls -> bytes (concat ls).
Proof. induction 1; [done|]. by apply Forall_app. Qed.

Lemma u16s_bytes_length l : length (u16s_bytes l) = (length l * 2)%nat.
Proof. unfold u16s_bytes. rewrite (length_concat_pieces 2) by apply le_pieces. by rewrite length_fmap. Qed.

Lemma u16s_bytes_bytes l : bytes (u16s_bytes l).
Proof. apply concat_bytes, Forall_fmap, Forall_forall. intros x _. apply to_le_bytes_bytes. Qed.

Lemma as_u16s_of_bytes l : Forall (fits 16) l -> as_u16s (u16s_bytes l) = l.
Proof.
  intros Hl. unfold as_u16s, u16s_bytes. rewrite chunks_concat by (lia || apply le_pieces).
  rewrite <- list_fmap_compose. induction Hl as [|x l Hx Hl IH]; [done|].
  cbn [fmap list_fmap]. rewrite IH. f_equal. unfold compose. apply from_to_le_bytes. exact Hx.
Qed.

Lemma as_u16s_length buf m : length buf = (m * 2)%nat -> length (as_u16s buf) = m.
Proof.
  intros Hl. destruct (pieces 2 m buf Hl) as (ls & -> & Hls & Hm).
  unfold as_u16s. rewrite chunks_concat by (lia || done). by rewrite length_fmap.
Qed.

Lemma concat_bytes_inv (ls : list (list Z)) : bytes (concat ls) -> Forall bytes ls.
Proof. induction ls as [|l ls IH]; intros H; [done|]. apply Forall_app in H as [? ?]. constructor; auto. Qed.

Lemma as_u16s_fits buf m : length buf = (m * 2)%nat -> bytes buf -> Forall (fits 16) (as_u16s buf).
Proof.
  intros Hl Hb. destruct (pieces 2 m buf Hl) as (ls & -> & Hls & Hm).
  unfold as_u16s. rewrite chunks_concat by (lia || done).
  apply Forall_fmap, Forall_forall. intros x Hx. apply from_le_bytes_fits.
  - apply concat_bytes_inv in Hb. rewrite Forall_forall in Hb. by apply Hb.
  - rewrite Forall_forall in Hls. rewrite (Hls x Hx). done.
Qed.

Lemma words_bytes_length ws : length (words_bytes ws) = (length ws * 8)%nat.
Proof. unfold words_bytes. rewrite (length_concat_pieces 8) by apply le_pieces. by rewrite length_fmap. Qed.

Lemma words_bytes_bytes ws : bytes (words_bytes ws).
Proof. apply concat_bytes, Forall_fmap, Forall_forall. intros x _. apply to_le_bytes_bytes. Qed.

Lemma as_words_length buf m : length buf = (m * 8)%nat -> length (as_words buf) = m.
Proof.
  intros Hl. destruct (pieces 8 m buf Hl) as (ls & -> & Hls & Hm).
  unfold as_words. rewrite chunks_concat by (lia || done). by rewrite length_fmap.
Qed.

Lemma as_words_fits buf m : length buf = (m * 8)%nat -> bytes buf -> Forall (fits 64) (as_words buf).
Proof.
  intros Hl Hb. destruct (pieces 8 m buf Hl) as (ls & -> & Hls & Hm).
  unfold as_words. rewrite chunks_concat by (lia || done).
  apply Forall_fmap, Forall_forall. intros x Hx. apply from_le_bytes_fits.
  - apply concat_bytes_inv in Hb. rewrite Forall_forall in Hb. by apply Hb.
  - rewrite Forall_forall in Hls. rewrite (Hls x Hx). done.
Qed.

(** Bit [j] of an array of words in the bytes of the array. *)
Lemma as_words_testbit buf m j : length buf = (m * 8)%nat -> bytes buf ->
  0 <= j < 64 * Z.of_nat m ->
  Z.testbit (nth (Z.to_nat (j / 64)) (as_words buf) 0) (j mod 64) =
  Z.testbit (nth (Z.to_nat (j / 8)) buf 0) (j mod 8).
Proof.
  intros Hl Hb Hj. destruct (pieces 8 m buf Hl) as (ls & -> & Hls & Hm).
  unfold as_words. rewrite chunks_concat by (lia || done).
  assert (Hk : (Z.to_nat (j / 64) < length ls)%nat) by lia.
  rewrite (nth_indep _ 0 (from_le_bytes [])) by (rewrite length_fmap; lia).
  change (from_le_bytes <$> ls) with (map from_le_bytes ls). rewrite map_nth.
  rewrite from_le_bytes_testbit by
    (try lia; apply concat_bytes_inv in Hb; rewrite Forall_forall in Hb; apply Hb;
     apply list_elem_of_In, nth_In; lia).
  replace (Z.to_nat (j / 8)) with (Z.to_nat (j / 64) * 8 + Z.to_nat (j mod 64 / 8))%nat by lia.
  rewrite nth_concat_pieces by (try done; lia).
  by replace ((j mod 64) mod 8) with (j mod 8) by lia.
Qed.

Lemma words_bytes_testbit ws j : 0 <= j < 64 * Z.of_nat (length ws) ->
  Z.testbit (nth (Z.to_nat (j / 8)) (words_bytes ws) 0) (j mod 8) =
  Z.testbit (nth (Z.to_nat (j / 64)) ws 0) (j mod 64).
Proof.
  intros Hj. unfold words_bytes.
  replace (Z.to_nat (j / 8)) with (Z.to_nat (j / 64) * 8 + Z.to_nat (j mod 64 / 8))%nat by lia.
  rewrite nth_concat_pieces by (try apply le_pieces; lia).
  rewrite (nth_indep _ [] (to_le_bytes 8 0)) by (rewrite length_fmap; lia).
  change (to_le_bytes 8 <$> ws) with (map (to_le_bytes 8) ws). rewrite map_nth.
  replace (j mod 8) with ((j mod 64) mod 8) by lia. apply to_le_bytes_testbit. lia.
Qed.

(** ** UTF-8

    [utf8_step] reads one character: the number of bytes of the character, or of
    the longest part of an ill-formed one, and whether it is well-formed. *)

Definition in_range (lo hi x : Z) : bool := (lo <=? x) && (x <=? hi).

(** The bytes that may follow the first byte of a character of three or four bytes. *)
Definition second_ok (b c : Z) : bool :=
  if b =? 224 then in_range 160 191 c
  else if b =? 237 then in_range 128 159 c
  else if b =? 240 then in_range 144 191 c
  else if b =? 244 then in_range 128 143 c
  else in_range 128 191 c.

Definition continuation (l : list Z) : bool :=
  match l with c :: _ => in_range 128 191 c | [] => false end.

Definition utf8_step (b : Z) (rest : list Z) : nat * bool :=
  let second := match rest with c :: _ => second_ok b c | [] => false end in
  if b <? 128 then (1%nat, true)
  else if in_range 194 223 b then if second then (2%nat, true) else (1%nat, false)
  else if in_range 224 239 b then
    if negb second then (1%nat, false)
    else if continuation (drop 1 rest) then (3%nat, true) else (2%nat, false)
  else if in_range 240 244 b then
    if negb second then (1%nat, false)
    else if negb (continuation (drop 1 rest)) then (2%nat, false)
    else if continuation (drop 2 rest) then (4%nat, true) else (3%nat, false)
  else (1%nat, false).

(** The characters of a byte string, in order, with their validity. *)
Fixpoint utf8_parts (fuel : nat) (l : list Z) : list (list Z * bool) :=
  match fuel, l with
  | S fuel, b :: rest =>
      let '(n, ok) := utf8_step b rest in
      (take n l, ok) :: utf8_parts fuel (drop n l)
  | _, _ => []
  end.

(** [str::from_utf8] succeeds. *)
Definition utf8_valid (l : list Z) : bool := forallb snd (utf8_parts (length l) l).

(** [String::from_utf8_lossy]: ill-formed parts become U+FFFD. *)
Definition from_utf8_lossy (l : list Z) : list Z :=
  concat ((fun p : list Z * bool => if p.2 then p.1 else [239; 191; 189]) <$> utf8_parts (length l) l).

Lemma utf8_step_pos b rest : (0 < (utf8_step b rest).1)%nat.
Proof.
  unfold utf8_step. set (s := match rest with [] => false | c :: _ => _ end). clearbody s.
  set (c1 := continuation _). set (c2 := continuation (drop 2 rest)). clearbody c1 c2.
  destruct (b <? 128), (in_range 194 223 b), (in_range 224 239 b), (in_range 240 244 b), s, c1, c2;
    simpl; lia.
Qed.

(** The parts cover the string. *)
Lemma utf8_parts_concat fuel l : (length l <= fuel)%nat -> concat (utf8_parts fuel l).*1 = l.
Proof.
  revert l. induction fuel as [|fuel IH]; intros l Hf; [by destruct l; simpl in *; [|lia]|].
  destruct l as [|b rest]; [done|]. cbn [utf8_parts].
  pose proof (utf8_step_pos b rest) as Hp. destruct (utf8_step b rest) as [n ok].
  cbn [fmap list_fmap fst concat]. rewrite IH.
  - by rewrite take_drop.
  - rewrite length_drop. cbn [length fst] in *. lia.
Qed.

(** A well-formed string is its own lossy conversion. *)
Lemma from_utf8_lossy_valid l : utf8_valid l = true -> from_utf8_lossy l = l.
Proof.
  intros Hv. unfold from_utf8_lossy, utf8_valid in *.
  etrans; [|apply (utf8_parts_concat (length l) l); lia]. f_equal.
  revert Hv. generalize (utf8_parts (length l) l). intros ps.
  induction ps as [|[p ok] ps IH]; intros Hv; [reflexivity|].
  cbn [forallb snd fmap list_fmap] in *. apply andb_true_iff in Hv as [-> Hv].
  by rewrite IH.
Qed.

Lemma utf8_valid_ascii l : Forall (fun b => 0 <= b < 128) l -> utf8_valid l = true.
Proof.
  intros Hl. unfold utf8_valid. induction Hl as [|b l Hb Hl IH]; [done|].
  cbn [length utf8_parts]. unfold utf8_step. destruct (Z.ltb_spec b 128); [|lia].
  cbn [forallb snd drop]. exact IH.
Qed.

(** ** [chunks] of a slice of any length *)

Lemma chunks_fuel_ok {A} (k fuel : nat) (l : list A) : (0 < k)%nat -> (length l <= fuel)%nat ->
  concat (chunks_fuel fuel k l) = l /\
  length (chunks_fuel fuel k l) = ((length l + (k - 1)) / k)%nat /\
  Forall (fun c => (0 < length c <= k)%nat) (chunks_fuel fuel k l).
Proof.
  intros Hk. revert l. induction fuel as [|fuel IH]; intros l Hf.
  { destruct l; [|simpl in Hf; lia]. cbn. split; [done|]. split; [|constructor].
    by rewrite Nat.div_small by lia. }
  cbn [chunks_fuel]. destruct (decide (length l = 0)%nat) as [H0|H0].
  { destruct l; [|done]. cbn. split; [done|]. split; [|constructor]. by rewrite Nat.div_small by lia. }
  assert (E : match l with [] => [] | _ :: _ => take k l :: chunks_fuel fuel k (drop k l) end =
              take k l :: chunks_fuel fuel k (drop k l)) by (by destruct l).
  rewrite E. destruct (IH (drop k l)) as (H1 & H2 & H3); [rewrite length_drop; lia|].
  cbn [concat length]. rewrite H1, H2, length_drop, take_drop. split; [done|]. split.
  - destruct (decide (length l <= k)%nat).
    + replace (length l - k)%nat with 0%nat by lia. rewrite Nat.div_small by lia.
      replace (length l + (k - 1))%nat with ((length l - 1) + 1 * k)%nat by lia.
      rewrite Nat.div_add by lia. by rewrite Nat.div_small by lia.
    + replace (length l + (k - 1))%nat with ((length l - k + (k - 1)) + 1 * k)%nat by lia.
      rewrite Nat.div_add by lia. lia.
  - constructor; [rewrite length_take; lia|done].
Qed.

Lemma chunks_ok {A} (k : nat) (l : list A) : (0 < k)%nat ->
  concat (chunks k l) = l /\ length (chunks k l) = ((length l + (k - 1)) / k)%nat /\
  Forall (fun c => (0 < length c <= k)%nat) (chunks k l).
Proof. intros Hk. by apply chunks_fuel_ok. Qed.
