(* ===== verification/ByteMem.v ===== *)
(** * ByteMem: the bytes of the memory

    The memory is a map of words ([Buddy]); the loader and the system calls
    read and write single bytes and strings. A byte is one of the eight
    little-endian bytes of the word it lies in. *)

From stdpp Require Import gmap.
From S2P Require Import Prelude Buddy FrameAlloc Bytes.

(** ** Operations *)

Definition word_of (a : Z) : Z := 8 * (a / 8).
Definition byte_ix (a : Z) : nat := Z.to_nat (a mod 8).

Definition set_byte (w : Z) (i : nat) (b : Z) : Z := from_le_bytes (<[i := b]> (to_le_bytes 8 w)).

(** [unsafe { *p }] and [unsafe { *p = b }] on a byte pointer. *)
Definition load_byte (h : heap) (a : Z) : outcome Z :=
  w ← load h (word_of a);
  expect (to_le_bytes 8 w !! byte_ix a).

Definition store_byte (h : heap) (a b : Z) : outcome heap :=
  w ← load h (word_of a);
  store h (word_of a) (set_byte w (byte_ix a) b).

(** [ptr::copy] of a slice to [a]. *)
Fixpoint store_bytes (h : heap) (a : Z) (bs : list Z) : outcome heap :=
  match bs with
  | [] => mret h
  | b :: bs => h ← store_byte h a b; store_bytes h (a + 1) bs
  end.

(** [w.write(x); w = w.add(1);] for the words in turn. *)
Fixpoint store_words (h : heap) (p : Z) (ws : list Z) : outcome heap :=
  match ws with
  | [] => mret h
  | x :: ws => h ← store h p x; store_words h (p + 8) ws
  end.

(** ** The byte at an address *)

Definition byte_at (h : heap) (a : Z) : option Z := w ← h !! word_of a; to_le_bytes 8 w !! byte_ix a.

(** The bytes from [a] on are [bs]. *)
Definition bytes_at (h : heap) (a : Z) (bs : list Z) : Prop :=
  forall i b, bs !! i = Some b -> byte_at h (a + Z.of_nat i) = Some b.

(** The words of [[a, a + n)] are there. *)
Definition present (h : heap) (a n : Z) : Prop := forall x, a <= x < a + n -> is_Some (h !! word_of x).

Lemma word_of_spec a : a = word_of a + Z.of_nat (byte_ix a) /\ (byte_ix a < 8)%nat.
Proof.
  unfold word_of, byte_ix. pose proof (Z.div_mod a 8 ltac:(lia)). pose proof (Z.mod_pos_bound a 8 ltac:(lia)).
  rewrite Z2Nat.id by lia. lia.
Qed.

Lemma word_of_mod a : word_of a mod 8 = 0.
Proof. unfold word_of. by rewrite Z.mul_comm, Z.mod_mul. Qed.

Lemma word_of_aligned p : p mod 8 = 0 -> word_of p = p.
Proof. unfold word_of. intros H. pose proof (Z.div_mod p 8 ltac:(lia)). lia. Qed.

Lemma word_of_in p x : p mod 8 = 0 -> p <= x < p + 8 <-> word_of x = p.
Proof.
  intros H. unfold word_of. pose proof (Z.div_mod p 8 ltac:(lia)). pose proof (Z.div_mod x 8 ltac:(lia)).
  pose proof (Z.mod_pos_bound x 8 ltac:(lia)). nia.
Qed.

Lemma set_byte_bytes w i b : is_byte b -> to_le_bytes 8 (set_byte w i b) = <[i := b]> (to_le_bytes 8 w).
Proof.
  intros Hb. unfold set_byte. rewrite <- (to_le_bytes_length 8 w) at 1. rewrite <- (length_insert (to_le_bytes 8 w) i b).
  apply to_from_le_bytes. apply Forall_insert; [apply to_le_bytes_bytes|done].
Qed.

Lemma byte_at_store h a b w : is_byte b -> h !! word_of a = Some w ->
  forall x, byte_at (<[word_of a := set_byte w (byte_ix a) b]> h) x = if decide (x = a) then Some b else byte_at h x.
Proof.
  intros Hb Hw x. unfold byte_at. destruct (word_of_spec a) as [Ea Ha], (word_of_spec x) as [Ex Hx].
  destruct (decide (word_of x = word_of a)) as [E|E].
  - rewrite E, lookup_insert_eq. cbn [mbind option_bind]. rewrite set_byte_bytes by done. rewrite Hw. cbn [mbind option_bind].
    destruct (decide (x = a)) as [->|Hne].
    + apply list_lookup_insert_eq. by rewrite to_le_bytes_length.
    + apply list_lookup_insert_ne. lia.
  - rewrite lookup_insert_ne by done. by rewrite decide_False by (intros ->; done).
Qed.

Lemma byte_at_word h p v : p mod 8 = 0 ->
  forall x, byte_at (<[p := v]> h) x = if decide (p <= x < p + 8) then to_le_bytes 8 v !! Z.to_nat (x - p) else byte_at h x.
Proof.
  intros Hp x. unfold byte_at. destruct (word_of_spec x) as [Ex Hx]. pose proof (word_of_in p x Hp) as Hi. case_decide as Hd.
  - apply Hi in Hd. rewrite Hd, lookup_insert_eq. cbn [mbind option_bind]. f_equal. lia.
  - rewrite lookup_insert_ne; [done|]. intros E. by apply Hd, Hi.
Qed.

(** ** Writing inside a frame *)

(** [h'] is [h] after writes to words of the frame [f]. *)
Inductive writes (f : Frame) : heap -> heap -> Prop :=
| writes_refl h : writes f h h
| writes_step h x v h' : in_frame f x -> writes f (<[x := v]> h) h' -> writes f h h'.

Lemma writes_trans f h1 h2 h3 : writes f h1 h2 -> writes f h2 h3 -> writes f h1 h3.
Proof. induction 1 as [|h x v h' Hx _ IH]; [done|]. intros H. by apply (writes_step _ _ x v), IH. Qed.

Lemma writes_out f h h' x : writes f h h' -> ~ in_frame f x -> h' !! x = h !! x.
Proof.
  induction 1 as [|h y v h' Hy _ IH]; [done|]. intros Hx. rewrite IH by done. apply lookup_insert_ne. by intros ->.
Qed.

Lemma writes_present f h h' x : writes f h h' -> is_Some (h !! x) -> is_Some (h' !! x).
Proof.
  induction 1 as [|h y v h' Hy _ IH]; [done|]. intros Hx. apply IH. destruct (decide (y = x)) as [->|]; [by rewrite lookup_insert_eq|].
  by rewrite lookup_insert_ne.
Qed.

Lemma present_writes f h h' a n : writes f h h' -> present h a n -> present h' a n.
Proof. intros H Hp x Hx. by apply (writes_present f h), Hp. Qed.

(** The words of a frame of whole words. *)
Lemma in_frame_word f x : fr_start f mod 8 = 0 -> in_frame f x -> in_frame f (word_of x).
Proof.
  unfold in_frame, word_of. intros H Hx. pose proof (Z.div_mod (fr_start f) 8 ltac:(lia)). pose proof (Z.div_mod x 8 ltac:(lia)).
  pose proof (Z.mod_pos_bound x 8 ltac:(lia)). assert (fr_start f / 8 <= x / 8) by (apply Z.div_le_mono; lia). lia.
Qed.

Lemma store_bytes_ok f bs h a : fr_start f mod 8 = 0 -> bytes bs -> present h a (Z.of_nat (length bs)) ->
  fr_start f <= a -> a + Z.of_nat (length bs) <= fr_start f + fr_size f ->
  exists h', store_bytes h a bs = Ret h' /\ writes f h h' /\
    forall x, byte_at h' x = if decide (a <= x < a + Z.of_nat (length bs)) then bs !! Z.to_nat (x - a) else byte_at h x.
Proof.
  intros Hf Hb. revert h a. induction Hb as [|b bs Hb Hbs IH]; intros h a Hp Hlo Hhi; cbn [store_bytes length] in *.
  { exists h. split; [done|]. split; [constructor|]. intros x. by rewrite decide_False by lia. }
  destruct (Hp a) as [w Hw]; [lia|]. unfold store_byte, load, store. rewrite Hw. cbn [expect]. rewrite !outcome_bind_Ret.
  assert (Hin : in_frame f (word_of a)) by (apply in_frame_word; [done|unfold in_frame; lia]).
  set (h1 := <[word_of a := set_byte w (byte_ix a) b]> h).
  assert (W1 : writes f h h1) by (apply (writes_step _ _ (word_of a) (set_byte w (byte_ix a) b) _ Hin), writes_refl).
  destruct (IH h1 (a + 1)) as (h' & -> & W & Hx); [|lia|lia|].
  { apply (present_writes f h); [done|]. intros x Hx. apply Hp. lia. }
  exists h'. split; [done|]. split; [by eapply writes_trans|]. intros x. rewrite Hx. unfold h1. rewrite (byte_at_store h a b w Hb Hw).
  destruct (decide (x = a)) as [->|Hne].
  - rewrite decide_False, decide_True by lia. by rewrite Z.sub_diag.
  - case_decide.
    + rewrite decide_True by lia. replace (Z.to_nat (x - a)) with (S (Z.to_nat (x - (a + 1)))) by lia. done.
    + by rewrite decide_False by lia.
Qed.

Lemma store_words_ok f ws h p : p mod 8 = 0 -> present h p (8 * Z.of_nat (length ws)) ->
  fr_start f <= p -> p + 8 * Z.of_nat (length ws) <= fr_start f + fr_size f ->
  exists h', store_words h p ws = Ret h' /\ writes f h h' /\
    (forall i x, ws !! i = Some x -> h' !! (p + 8 * Z.of_nat i) = Some x) /\
    forall x, ~ p <= x < p + 8 * Z.of_nat (length ws) -> h' !! x = h !! x /\ byte_at h' x = byte_at h x.
Proof.
  revert h p. induction ws as [|y ws IH]; intros h p Hm Hp Hlo Hhi; cbn [store_words length] in *.
  { exists h. split; [done|]. split; [constructor|]. done. }
  destruct (Hp p) as [w Hw]; [lia|]. rewrite word_of_aligned in Hw by done. unfold store. rewrite Hw, outcome_bind_Ret.
  assert (Hin : in_frame f p) by (unfold in_frame; lia).
  assert (W1 : writes f h (<[p := y]> h)) by (apply (writes_step _ _ p y _ Hin), writes_refl).
  destruct (IH (<[p := y]> h) (p + 8)) as (h' & -> & W & H1 & H2); [|..|lia|lia|].
  { rewrite <- Zplus_mod_idemp_l, Hm. done. }
  { apply (present_writes f h); [done|]. intros x Hx. apply Hp. lia. }
  exists h'. split; [done|]. split; [by eapply writes_trans|]. split.
  - intros [|i] x; cbn.
    + intros [= <-]. rewrite Z.add_0_r. destruct (H2 p) as [-> _]; [lia|]. apply lookup_insert_eq.
    + intros Hx. replace (p + 8 * Z.of_nat (S i)) with (p + 8 + 8 * Z.of_nat i) by lia. by apply H1.
  - intros x Hx. destruct (H2 x) as [-> ->]; [lia|]. rewrite byte_at_word by done. rewrite decide_False by lia.
    split; [|done]. apply lookup_insert_ne. lia.
Qed.

Lemma same_on_byte held h h' f x : same_on held h h' -> f ∈ held -> fr_start f mod 8 = 0 -> in_frame f x -> byte_at h' x = byte_at h x.
Proof. intros S Hf Ha Hx. unfold byte_at. rewrite (S f); [done|done|]. by apply in_frame_word. Qed.
