(* ===== verification/Disk.v ===== *)
(** * Disk: block devices and the programs that use them

    [src/driver/traits.rs]: a block device reads and writes bytes at an offset
    and may fail. A program on a device of type [D] is an [io D A]: it passes the
    state of the device along, keeps it when the program fails half way, and may
    panic. [DiskLaws] is what a device that works promises; the theorems on the
    file system are proved against it. *)

From S2P Require Import Prelude Abi Bytes.

(** ** Programs on a device *)

Definition io (D A : Type) : Type := D -> outcome (result IoError A * D).

#[export] Instance io_ret {D} : MRet (io D) := fun A a d => Ret (Ok a, d).

(** [?] on an [IoResult]. *)
#[export] Instance io_bind {D} : MBind (io D) := fun A B k m d =>
  match m d with
  | Ret (Ok a, d) => k a d
  | Ret (Err e, d) => Ret (Err e, d)
  | Panic => Panic
  end.

Definition io_fail {D A} (e : IoError) : io D A := fun d => Ret (Err e, d).

(** A computation that may panic and does not touch the device. *)
Definition io_pure {D A} (m : outcome A) : io D A := fun d =>
  match m with Ret a => Ret (Ok a, d) | Panic => Panic end.

(** The result of a call as a value, for [match] and [let _ =]. *)
Definition io_attempt {D A} (m : io D A) : io D (result IoError A) := fun d =>
  match m d with Ret (r, d) => Ret (Ok r, d) | Panic => Panic end.

(** [ReadAt] and [WriteAt]: [read_at] gets a buffer and returns the number of
    bytes read with the new contents of the buffer. *)
Class BlockDevice (D : Type) := {
  dev_read_at : list Z -> Z -> io D (Z * list Z);
  dev_write_at : list Z -> Z -> io D Z
}.

(** ** Contents of a disk

    Contents are a function from offsets to bytes. *)

Definition slice (f : Z -> Z) (off n : Z) : list Z := f <$> seqZ off n.

(** The contents after writing [buf] at [off]. *)
Definition splice (f : Z -> Z) (off : Z) (buf : list Z) : Z -> Z := fun i =>
  if (off <=? i) && (i <? off + Z.of_nat (length buf))
  then nth (Z.to_nat (i - off)) buf 0 else f i.

(** What a working device promises: inside its size reads give the contents and
    writes change exactly the bytes they name. *)
Class DiskLaws (D : Type) `{BlockDevice D} := {
  disk_size : D -> Z;
  disk_byte : D -> Z -> Z;
  disk_is_byte d i : is_byte (disk_byte d i);
  disk_read_ok d buf off : 0 <= off -> off + Z.of_nat (length buf) <= disk_size d ->
    exists d', dev_read_at buf off d =
        Ret (Ok (Z.of_nat (length buf), slice (disk_byte d) off (Z.of_nat (length buf))), d') /\
      disk_size d' = disk_size d /\ forall i, 0 <= i < disk_size d -> disk_byte d' i = disk_byte d i;
  disk_write_ok d buf off : 0 <= off -> off + Z.of_nat (length buf) <= disk_size d -> bytes buf ->
    exists d', dev_write_at buf off d = Ret (Ok (Z.of_nat (length buf)), d') /\
      disk_size d' = disk_size d /\
      forall i, 0 <= i < disk_size d -> disk_byte d' i = splice (disk_byte d) off buf i
}.

(** ** Slices and splices *)

Lemma length_slice f off n : Z.of_nat (length (slice f off n)) = Z.max 0 n.
Proof. unfold slice. rewrite length_fmap, length_seqZ. lia. Qed.

Lemma slice_lookup f off n k : 0 <= k < n -> slice f off n !! Z.to_nat k = Some (f (off + k)).
Proof.
  intros Hk. unfold slice. rewrite list_lookup_fmap, lookup_seqZ_lt by lia.
  simpl. f_equal. f_equal. lia.
Qed.

Lemma slice_nth f off n k : 0 <= k < n -> nth (Z.to_nat k) (slice f off n) 0 = f (off + k).
Proof. intros Hk. apply nth_lookup_Some, slice_lookup, Hk. Qed.

Lemma slice_ext f g off n : (forall i, off <= i < off + n -> f i = g i) ->
  slice f off n = slice g off n.
Proof.
  intros E. apply list_fmap_ext. intros j i Hi%list_elem_of_lookup_2%elem_of_seqZ. apply E. lia.
Qed.

Lemma slice_app f off n m : 0 <= n -> 0 <= m ->
  slice f off (n + m) = slice f off n ++ slice f (off + n) m.
Proof. intros. unfold slice. rewrite seqZ_app by lia. by rewrite fmap_app. Qed.

Lemma slice_bytes f off n : (forall i, is_byte (f i)) -> bytes (slice f off n).
Proof. intros Hf. apply Forall_fmap, Forall_forall. intros i _. apply Hf. Qed.

Lemma splice_out f off buf i : i < off \/ off + Z.of_nat (length buf) <= i -> splice f off buf i = f i.
Proof. intros Hi. unfold splice. case_if as E; [lia|done]. Qed.

Lemma splice_in f off buf k : 0 <= k < Z.of_nat (length buf) ->
  splice f off buf (off + k) = nth (Z.to_nat k) buf 0.
Proof. intros Hk. unfold splice. case_if as E; [|lia]. f_equal. lia. Qed.

Lemma splice_is_byte f off buf : (forall i, is_byte (f i)) -> bytes buf ->
  forall i, is_byte (splice f off buf i).
Proof.
  intros Hf Hb i. unfold splice. case_if as E; [|done].
  rewrite Forall_forall in Hb. apply Hb.
  destruct (nth_lookup_or_length buf (Z.to_nat (i - off)) 0) as [El|]; [|lia].
  by eapply list_elem_of_lookup_2.
Qed.

Lemma splice_app F p a b i : splice (splice F p a) (p + Z.of_nat (length a)) b i = splice F p (a ++ b) i.
Proof.
  unfold splice. rewrite length_app.
  repeat match goal with
  | |- context [?x <=? ?y] => destruct (Z.leb_spec x y)
  | |- context [?x <? ?y] => destruct (Z.ltb_spec x y)
  end; cbn [andb]; try lia; try done.
  - rewrite app_nth2 by lia. f_equal. lia.
  - by rewrite app_nth1 by lia.
Qed.

Lemma splice_ext F F' p a i : F i = F' i -> splice F p a i = splice F' p a i.
Proof. intros E. unfold splice. by destruct (_ && _). Qed.

Lemma splice_here f off b : splice f off [b] off = b.
Proof. rewrite <- (Z.add_0_r off) at 2. by rewrite splice_in by (cbn [length]; lia). Qed.

(** A slice that the write does not meet, and the slice that was written. *)
Lemma slice_splice_out f off buf o n :
  o + n <= off \/ off + Z.of_nat (length buf) <= o -> slice (splice f off buf) o n = slice f o n.
Proof. intros Hd. apply slice_ext. intros i Hi. apply splice_out. lia. Qed.

Lemma slice_splice_eq f off buf n : n = Z.of_nat (length buf) -> slice (splice f off buf) off n = buf.
Proof.
  intros ->. apply list_eq. intros j.
  destruct (decide (j < length buf)%nat) as [Hj|Hj].
  - rewrite <- (Nat2Z.id j) at 1. rewrite slice_lookup by lia. rewrite splice_in by lia.
    destruct (lookup_lt_is_Some_2 buf j Hj) as [x Hx]. rewrite Hx. f_equal.
    rewrite Nat2Z.id. by apply nth_lookup_Some.
  - rewrite !lookup_ge_None_2; [done|lia|].
    pose proof (length_slice (splice f off buf) off (Z.of_nat (length buf))). lia.
Qed.

(** A part of what was written. *)
Lemma slice_splice_in f off buf k n : 0 <= k -> 0 <= n -> k + n <= Z.of_nat (length buf) ->
  slice (splice f off buf) (off + k) n = take (Z.to_nat n) (drop (Z.to_nat k) buf).
Proof.
  intros Hk Hn Hl. pose proof (slice_splice_eq f off buf _ eq_refl) as E.
  rewrite <- E at 2.
  replace (Z.of_nat (length buf)) with (k + (n + (Z.of_nat (length buf) - k - n))) by lia.
  rewrite !slice_app by lia.
  pose proof (length_slice (splice f off buf) off k).
  pose proof (length_slice (splice f off buf) (off + k) n).
  rewrite drop_app_length' by lia. by rewrite take_app_length' by lia.
Qed.

(** Writing back a slice of which a part was replaced. *)
Lemma splice_patch f base n s bs i : 0 <= s -> s + Z.of_nat (length bs) <= n ->
  splice f base (take (Z.to_nat s) (slice f base n) ++ bs ++ drop (Z.to_nat s + length bs) (slice f base n)) i =
  splice f (base + s) bs i.
Proof.
  intros Hs Hl. set (b := Z.of_nat (length bs)) in *.
  replace n with (s + (b + (n - s - b))) by lia. rewrite !slice_app by lia.
  pose proof (length_slice f base s) as L1. pose proof (length_slice f (base + s) b) as L2.
  pose proof (length_slice f (base + s + b) (n - s - b)) as L3.
  rewrite take_app_length' by lia. rewrite drop_app_add' by lia. rewrite drop_app_length' by lia.
  unfold splice. rewrite !length_app. fold b.
  destruct (Z.leb_spec base i), (Z.ltb_spec i (base + Z.of_nat (length (slice f base s) + (length bs + length (slice f (base + s + b) (n - s - b))))));
    destruct (Z.leb_spec (base + s) i), (Z.ltb_spec i (base + s + b)); cbn [andb]; try lia; try done.
  - rewrite app_nth2, app_nth1 by lia. f_equal. lia.
  - rewrite app_nth2, app_nth2 by lia.
    replace (Z.to_nat (i - base) - length (slice f base s) - length bs)%nat with (Z.to_nat (i - (base + s + b))) by lia.
    rewrite slice_nth by lia. f_equal. lia.
  - rewrite app_nth1 by lia. rewrite slice_nth by lia. f_equal. lia.
Qed.

(** ** Total correctness on a working device

    [triple f m Q]: on a device of [N] bytes with contents [f] the program [m]
    returns without failure or panic, and the value and the new contents
    satisfy [Q]. *)

Section Triples.
Context {D : Type} `{DiskLaws D} (N : Z).

Definition on_disk (d : D) (f : Z -> Z) : Prop :=
  disk_size d = N /\ (forall i, is_byte (f i)) /\ forall i, 0 <= i < N -> disk_byte d i = f i.

Definition triple {A} (f : Z -> Z) (m : io D A) (Q : A -> (Z -> Z) -> Prop) : Prop :=
  forall d, on_disk d f -> exists a d' f', m d = Ret (Ok a, d') /\ on_disk d' f' /\ Q a f'.

Lemma triple_ret {A} f (a : A) (Q : A -> (Z -> Z) -> Prop) : Q a f -> triple f (mret a) Q.
Proof. intros HQ d Hd. by exists a, d, f. Qed.

Lemma triple_bind {A B} f (m : io D A) (k : A -> io D B) P Q :
  triple f m P -> (forall a f', P a f' -> triple f' (k a) Q) -> triple f (m ≫= k) Q.
Proof.
  intros Hm Hk d Hd. destruct (Hm d Hd) as (a & d1 & f1 & E & Hd1 & HP).
  destruct (Hk a f1 HP d1 Hd1) as (b & d2 & f2 & E2 & Hd2 & HQ).
  exists b, d2, f2. split; [|done].
  unfold mbind, io_bind. by rewrite E.
Qed.

(** The rule that steps through a program. *)
Lemma triple_seq {A B} f (m : io D A) (k : A -> io D B) Q :
  triple f m (fun a f' => triple f' (k a) Q) -> triple f (m ≫= k) Q.
Proof. intros Hm. eapply triple_bind; [exact Hm|]. done. Qed.

Lemma triple_mono {A} f (m : io D A) (P Q : A -> (Z -> Z) -> Prop) :
  triple f m P -> (forall a f', P a f' -> Q a f') -> triple f m Q.
Proof.
  intros Hm HPQ d Hd. destruct (Hm d Hd) as (a & d1 & f1 & E & Hd1 & HP).
  exists a, d1, f1. split; [done|]. split; [done|]. by apply HPQ.
Qed.

(** Contents that agree are the same contents. *)
Lemma triple_equiv {A} f (m : io D A) (P Q : A -> (Z -> Z) -> Prop) :
  triple f m P -> (forall a f1, P a f1 -> exists f2, (forall i, f1 i = f2 i) /\ Q a f2) -> triple f m Q.
Proof.
  intros Hm HPQ d Hd. destruct (Hm d Hd) as (a & d1 & f1 & E & (Hs & Hb & Hc) & HP).
  destruct (HPQ a f1 HP) as (f2 & Ef & HQ). exists a, d1, f2. split; [done|]. split; [|done].
  split; [done|]. split; [intros i; rewrite <- Ef; apply Hb|]. intros i Hi. rewrite <- Ef. by apply Hc.
Qed.

Lemma triple_pure {A} f (m : outcome A) a (Q : A -> (Z -> Z) -> Prop) :
  m = Ret a -> Q a f -> triple f (io_pure m) Q.
Proof. intros -> HQ d Hd. by exists a, d, f. Qed.

Lemma triple_attempt {A} f (m : io D A) (Q : result IoError A -> (Z -> Z) -> Prop) :
  triple f m (fun a f' => Q (Ok a) f') -> triple f (io_attempt m) Q.
Proof.
  intros Hm d Hd. destruct (Hm d Hd) as (a & d1 & f1 & E & Hd1 & HP).
  exists (Ok a), d1, f1. split; [|done]. unfold io_attempt. by rewrite E.
Qed.

(** The byte bounds of the contents are available in every proof. *)
Lemma triple_is_byte {A} f (m : io D A) Q :
  ((forall i, is_byte (f i)) -> triple f m Q) -> triple f m Q.
Proof. intros Hm d Hd. apply Hm; [apply Hd|done]. Qed.

Lemma triple_read f buf off (Q : Z * list Z -> (Z -> Z) -> Prop) :
  0 <= off -> off + Z.of_nat (length buf) <= N ->
  Q (Z.of_nat (length buf), slice f off (Z.of_nat (length buf))) f ->
  triple f (dev_read_at buf off) Q.
Proof.
  intros Ho Hb HQ d (Hs & Hf & Hc).
  destruct (disk_read_ok d buf off Ho ltac:(by rewrite Hs)) as (d' & E & Hs' & Hc').
  rewrite (slice_ext (disk_byte d) f) in E by (intros; apply Hc; lia).
  eexists _, d', f. split; [exact E|]. split; [|done].
  split; [lia|]. split; [done|]. intros i Hi. rewrite Hc' by lia. by apply Hc.
Qed.

Lemma triple_write f buf off (Q : Z -> (Z -> Z) -> Prop) :
  0 <= off -> off + Z.of_nat (length buf) <= N -> bytes buf ->
  Q (Z.of_nat (length buf)) (splice f off buf) ->
  triple f (dev_write_at buf off) Q.
Proof.
  intros Ho Hb Hby HQ d (Hs & Hf & Hc).
  destruct (disk_write_ok d buf off Ho ltac:(by rewrite Hs) Hby) as (d' & E & Hs' & Hc').
  eexists _, d', (splice f off buf). split; [exact E|]. split; [|done].
  split; [lia|]. split; [by apply splice_is_byte|].
  intros i Hi. rewrite Hc' by lia. unfold splice. case_if as Ei; [done|]. by apply Hc.
Qed.

End Triples.

(** ** A disk in memory

    The simplest device that keeps the laws. *)

Record RamDisk : Type := mkRamDisk { ram_size : Z; ram_byte : Z -> Z }.

#[export] Instance RamDisk_device : BlockDevice RamDisk := {
  dev_read_at buf off d :=
    let n := Z.of_nat (length buf) in
    if off + n <=? ram_size d then Ret (Ok (n, (fun x => x mod 256) <$> slice (ram_byte d) off n), d)
    else Ret (Err IoError_Request, d);
  dev_write_at buf off d :=
    let n := Z.of_nat (length buf) in
    if off + n <=? ram_size d then Ret (Ok n, mkRamDisk (ram_size d) (splice (ram_byte d) off buf))
    else Ret (Err IoError_Request, d)
}.

#[export] Program Instance RamDisk_laws : DiskLaws RamDisk := {
  disk_size := ram_size;
  disk_byte d i := ram_byte d i mod 256
}.
Next Obligation. intros d i. unfold is_byte. lia. Qed.
Next Obligation.
  intros d buf off Ho Hb. exists d. cbn.
  destruct (Z.leb_spec (off + Z.of_nat (length buf)) (ram_size d)); [|lia].
  split; [|done]. do 3 f_equal. unfold slice. by rewrite <- list_fmap_compose.
Qed.
Next Obligation.
  intros d buf off Ho Hb Hby. cbn.
  destruct (Z.leb_spec (off + Z.of_nat (length buf)) (ram_size d)); [|lia].
  eexists. split; [done|]. split; [done|]. intros i Hi. cbn. unfold splice.
  case_if as Ei; [|done].
  destruct (nth_lookup_or_length buf (Z.to_nat (i - off)) 0) as [El|]; [|lia].
  rewrite Forall_forall in Hby. specialize (Hby _ (list_elem_of_lookup_2 _ _ _ El)).
  unfold is_byte in Hby. by rewrite Z.mod_small.
Qed.
