(* ===== verification/Minix.v ===== *)
(** * Minix: the MINIX V1 file system on a block device

    [src/fs/minix/types.rs] (the structures on disk), [src/fs/minix.rs]
    ([MinixFs]: inodes, zones, bitmaps) and [src/fs/minix/file.rs] with
    [write_file_zones] of [src/fs/minix/write.rs] (open files). The superblock
    is the copy that [MinixFs] holds in memory; the device is any
    [BlockDevice]. The lock around the device is that of [Locks]: an operation
    here is what runs while it is held. *)

From S2P Require Import Prelude Bitmap BitFields Abi Paths Bytes Disk.

(** [usize] multiplication and [u16] addition with overflow checks. *)
Definition usize_mul (a b : Z) : outcome Z := if a * b <? 2 ^ 64 then Ret (a * b) else Panic.
Definition u16_add (a b : Z) : outcome Z := if a + b <? 2 ^ 16 then Ret (a + b) else Panic.

(** ** Structures on disk *)

Definition SUPERBLOCK_OFFSET : Z := 1024.
Definition MINIX_DIRECT_ZONES : nat := 7.

Definition MinixFsMagic_V1_14 : Z := 4991.
Definition MinixFsMagic_V1_30 : Z := 5007.

Record DiskSuperBlock : Type := mkSuperBlock {
  ninodes : Z;
  nzones : Z;
  imap_blocks : Z;
  zmap_blocks : Z;
  first_data_zone : Z;
  log_zone_size : Z;
  max_size : Z;
  magic : Z;
  sb_state : Z
}.

Record DiskInode : Type := mkInode {
  i_mode : Z;
  i_uid : Z;
  i_size : Z;
  i_mtime : Z;
  i_gid : Z;
  i_nlinks : Z;
  i_zone : list Z
}.

(** [read_unaligned] of the [repr(C)] structures. *)
Definition DiskSuperBlock_read (buf : list Z) : DiskSuperBlock :=
  mkSuperBlock (le_at 0 2 buf) (le_at 2 2 buf) (le_at 4 2 buf) (le_at 6 2 buf) (le_at 8 2 buf)
    (le_at 10 2 buf) (le_at 12 4 buf) (le_at 16 2 buf) (le_at 18 2 buf).
Definition superblock_bytes : nat := 20.

Definition DiskInode_read (buf : list Z) : DiskInode :=
  mkInode (le_at 0 2 buf) (le_at 2 2 buf) (le_at 4 4 buf) (le_at 8 4 buf) (le_at 12 1 buf)
    (le_at 13 1 buf) (as_u16s (take 18 (drop 14 buf))).
Definition inode_bytes : nat := 32.

(** The bytes of an inode, as [write_inode] sends them. *)
Definition DiskInode_bytes (inode : DiskInode) : list Z :=
  to_le_bytes 2 (i_mode inode) ++ to_le_bytes 2 (i_uid inode) ++ to_le_bytes 4 (i_size inode) ++
  to_le_bytes 4 (i_mtime inode) ++ to_le_bytes 1 (i_gid inode) ++ to_le_bytes 1 (i_nlinks inode) ++
  u16s_bytes (i_zone inode).

Definition DiskSuperBlock_zone_size (sb : DiskSuperBlock) : outcome Z :=
  if log_zone_size sb <? 64 then Ret (wrap 64 (Z.shiftl 1024 (log_zone_size sb))) else Panic.

Definition inode_table_offset (sb : DiskSuperBlock) : outcome Z :=
  blocks ← u16_add 2 (imap_blocks sb);
  blocks ← u16_add blocks (zmap_blocks sb);
  zone_size ← DiskSuperBlock_zone_size sb;
  usize_mul blocks zone_size.

(** The entry of index [i] of the zone array. *)
Definition set_zone (inode : DiskInode) (i : nat) (zone : Z) : DiskInode :=
  mkInode (i_mode inode) (i_uid inode) (i_size inode) (i_mtime inode) (i_gid inode)
    (i_nlinks inode) (<[i := zone]> (i_zone inode)).
Definition set_size (inode : DiskInode) (size : Z) : DiskInode :=
  mkInode (i_mode inode) (i_uid inode) size (i_mtime inode) (i_gid inode) (i_nlinks inode) (i_zone inode).
Definition set_nlinks (inode : DiskInode) (nlinks : Z) : DiskInode :=
  mkInode (i_mode inode) (i_uid inode) (i_size inode) (i_mtime inode) (i_gid inode) nlinks (i_zone inode).

(** [take_while(|&z| z != 0)] *)
Fixpoint until_zero (l : list Z) : list Z :=
  match l with
  | [] => []
  | z :: l => if z =? 0 then [] else z :: until_zero l
  end.

(** ** [MinixFs] *)

Section Minix.
Context {D : Type} `{BlockDevice D}.

Definition from_device : io D (option DiskSuperBlock) :=
  '(_, buffer) ← dev_read_at (replicate superblock_bytes 0) SUPERBLOCK_OFFSET;
  let superblock := DiskSuperBlock_read buffer in
  mret (if (magic superblock =? MinixFsMagic_V1_14) || (magic superblock =? MinixFsMagic_V1_30)
        then Some superblock else None).

Context (sb : DiskSuperBlock).

Definition read_inode (ino : Z) : io D DiskInode :=
  index ← io_pure (usize_sub ino 1);
  table ← io_pure (inode_table_offset sb);
  offset ← io_pure (usize_add table (index * Z.of_nat inode_bytes));
  '(_, buffer) ← dev_read_at (replicate inode_bytes 0) offset;
  mret (DiskInode_read buffer).

Definition write_inode (ino : Z) (inode : DiskInode) : io D unit :=
  table ← io_pure (inode_table_offset sb);
  index ← io_pure (usize_sub ino 1);
  offset ← io_pure (usize_add table (index * Z.of_nat inode_bytes));
  _ ← dev_write_at (DiskInode_bytes inode) offset;
  mret tt.

(** The first [len] bytes of a zone. *)
Definition read_zone_into (zone len : Z) : io D (list Z) :=
  zone_size ← io_pure (DiskSuperBlock_zone_size sb);
  if zone_size <? len then io_pure Panic
  else
    offset ← io_pure (usize_mul zone zone_size);
    '(_, buffer) ← dev_read_at (replicate (Z.to_nat len) 0) offset;
    mret buffer.

Definition read_zone (zone : Z) (out : list Z) : io D (list Z) :=
  zone_size ← io_pure (DiskSuperBlock_zone_size sb);
  buffer ← read_zone_into zone zone_size;
  mret (out ++ buffer).

Definition write_zone (zone : Z) (data : list Z) : io D unit :=
  zone_size ← io_pure (DiskSuperBlock_zone_size sb);
  if zone_size <? Z.of_nat (length data) then io_pure Panic
  else
    offset ← io_pure (usize_mul zone zone_size);
    _ ← dev_write_at data offset;
    mret tt.

Definition read_zone_table (zone : Z) : io D (list Z) :=
  zone_size ← io_pure (DiskSuperBlock_zone_size sb);
  offset ← io_pure (usize_mul zone zone_size);
  '(_, buffer) ← dev_read_at (replicate (Z.to_nat zone_size) 0) offset;
  mret (as_u16s buffer).

Definition zone_table (zone : Z) : io D (list Z) :=
  if zone =? 0 then mret []
  else table ← read_zone_table zone; mret (until_zero table).

Definition write_zone_table (zone : Z) (table : list Z) : io D unit :=
  zone_size ← io_pure (DiskSuperBlock_zone_size sb);
  if negb (Z.of_nat (length table) =? zone_size / 2) then io_pure Panic
  else
    offset ← io_pure (usize_mul zone zone_size);
    _ ← dev_write_at (u16s_bytes table) offset;
    mret tt.

(** The zones of the tables named by a second-level table. *)
Fixpoint zone_tables (indirect : list Z) (zones : list Z) : io D (list Z) :=
  match indirect with
  | [] => mret zones
  | indirect_zone :: indirect =>
      table ← zone_table indirect_zone;
      zone_tables indirect (zones ++ table)
  end.

Definition data_zones (inode : DiskInode) : io D (list Z) :=
  let direct := until_zero (take MINIX_DIRECT_ZONES (i_zone inode)) in
  if (length direct <? MINIX_DIRECT_ZONES)%nat then mret direct
  else
    z7 ← io_pure (expect (i_zone inode !! 7%nat));
    single ← zone_table z7;
    z8 ← io_pure (expect (i_zone inode !! 8%nat));
    double ← zone_table z8;
    zone_tables double (direct ++ single).

Fixpoint read_zones (zones : list Z) (out : list Z) : io D (list Z) :=
  match zones with
  | [] => mret out
  | zone :: zones => out ← read_zone zone out; read_zones zones out
  end.

Definition data (inode : DiskInode) : io D (list Z) :=
  if i_size inode =? 0 then mret []
  else
    zones ← data_zones inode;
    out ← read_zones zones [];
    mret (take (Z.to_nat (i_size inode)) out).

(** *** The bitmaps *)

Definition with_bitmap {R} (map_offset map_bytes bits : Z)
    (f : BitMapView -> outcome (R * BitMapView)) : io D R :=
  let words := map_bytes / 8 in
  '(_, buffer) ← dev_read_at (replicate (Z.to_nat map_bytes) 0) map_offset;
  let bits := Z.min bits (words * 64) in
  map ← io_pure (View_new_with_capacity (as_words buffer) bits);
  '(result, map) ← io_pure (f map);
  _ ← dev_write_at (words_bytes (vw_words map)) map_offset;
  mret result.

(** [map.alloc_from(1).map(name)] and [let _ = map.clear(bit)]. *)
Definition map_alloc (name : Z -> Z) (map : BitMapView) : outcome (option Z * BitMapView) :=
  '(bit, map) ← View_alloc_from map 1;
  Ret (option_map name bit, map).
Definition map_clear (bit : Z) (map : BitMapView) : outcome (unit * BitMapView) :=
  '(_, map) ← View_clear map bit;
  Ret (tt, map).

Definition alloc_inode : io D (option Z) :=
  zone_size ← io_pure (DiskSuperBlock_zone_size sb);
  map_offset ← io_pure (usize_mul 2 zone_size);
  map_bytes ← io_pure (usize_mul (imap_blocks sb) zone_size);
  with_bitmap map_offset map_bytes (ninodes sb + 1) (map_alloc (fun bit => wrap 16 bit)).

Definition free_inode (ino : Z) : io D unit :=
  if (ino =? 0) || (ninodes sb <? ino) then mret tt
  else
    zone_size ← io_pure (DiskSuperBlock_zone_size sb);
    map_offset ← io_pure (usize_mul 2 zone_size);
    map_bytes ← io_pure (usize_mul (imap_blocks sb) zone_size);
    with_bitmap map_offset map_bytes (ninodes sb + 1) (map_clear ino).

Definition alloc_zone : io D (option Z) :=
  zone_size ← io_pure (DiskSuperBlock_zone_size sb);
  map_offset ← io_pure (usize_mul (2 + imap_blocks sb) zone_size);
  map_bytes ← io_pure (usize_mul (zmap_blocks sb) zone_size);
  let first := first_data_zone sb in
  bits ← io_pure (usize_sub (nzones sb) first);
  let bits := bits + 1 in
  with_bitmap map_offset map_bytes bits (map_alloc (fun bit => wrap 16 (bit + first - 1))).

Definition free_zone (zone : Z) : io D unit :=
  let first := first_data_zone sb in
  if (zone <? first) || (nzones sb <=? zone) then mret tt
  else
    zone_size ← io_pure (DiskSuperBlock_zone_size sb);
    map_offset ← io_pure (usize_mul (2 + imap_blocks sb) zone_size);
    map_bytes ← io_pure (usize_mul (zmap_blocks sb) zone_size);
    bits ← io_pure (usize_sub (nzones sb) first);
    let bits := bits + 1 in
    with_bitmap map_offset map_bytes bits (map_clear (zone - first + 1)).

(** *** Writing the zone list of a file back *)

(** [table.resize(per, 0)] *)
Definition resize (per : nat) (table : list Z) : list Z :=
  take per table ++ replicate (per - length table) 0.

(** [for (i, group) in groups.enumerate()] over the second-level table; the flag
    tells that the disk was full, where the code returns at once. *)
Fixpoint write_groups (per : nat) (groups : list (list Z)) (i : nat) (dbl : list Z)
    : io D (list Z * bool) :=
  match groups with
  | [] => mret (dbl, false)
  | group :: groups =>
      if (per <=? i)%nat then mret (dbl, false)
      else
        entry ← io_pure (expect (dbl !! i));
        ind ← (if negb (entry =? 0) then mret (Some entry) else alloc_zone);
        match ind with
        | None => mret (dbl, true)
        | Some ind =>
            let dbl := if negb (entry =? 0) then dbl else <[i := ind]> dbl in
            _ ← write_zone_table ind (resize per group);
            write_groups per groups (S i) dbl
        end
  end.

(** The direct part: [zones.get(i).copied().unwrap_or(0)]. *)
Definition set_direct (inode : DiskInode) (zones : list Z) : DiskInode :=
  mkInode (i_mode inode) (i_uid inode) (i_size inode) (i_mtime inode) (i_gid inode) (i_nlinks inode)
    (((fun i => nth i zones 0) <$> seq 0 MINIX_DIRECT_ZONES) ++ drop MINIX_DIRECT_ZONES (i_zone inode)).

(** The first-level table, in [zone[7]]; the flag tells that the disk was full. *)
Definition write_single (per : nat) (inode : DiskInode) (zones : list Z) : io D (DiskInode * bool) :=
  if (length zones <=? MINIX_DIRECT_ZONES)%nat then mret (set_zone inode MINIX_DIRECT_ZONES 0, false)
  else
    let table := resize per (drop MINIX_DIRECT_ZONES (take (MINIX_DIRECT_ZONES + per) zones)) in
    z7 ← io_pure (expect (i_zone inode !! MINIX_DIRECT_ZONES));
    ind ← (if z7 =? 0 then alloc_zone else mret (Some z7));
    match ind with
    | None => mret (inode, true)
    | Some ind =>
        _ ← write_zone_table ind table;
        mret (set_zone inode MINIX_DIRECT_ZONES ind, false)
    end.

(** The second-level tables, below [zone[8]]. *)
Definition write_double (per : nat) (inode : DiskInode) (zones : list Z) : io D DiskInode :=
  let z8_slot := S MINIX_DIRECT_ZONES in
  if (length zones <=? MINIX_DIRECT_ZONES + per)%nat then mret (set_zone inode z8_slot 0)
  else
    z8 ← io_pure (expect (i_zone inode !! z8_slot));
    ind ← (if z8 =? 0 then
             ind ← alloc_zone;
             match ind with
             | None => mret None
             | Some ind => _ ← write_zone_table ind (replicate per 0); mret (Some ind)
             end
           else mret (Some z8));
    match ind with
    | None => mret inode
    | Some ind =>
        let inode := set_zone inode z8_slot ind in
        dbl ← read_zone_table ind;
        '(dbl, full) ← write_groups per (chunks per (drop (MINIX_DIRECT_ZONES + per) zones)) 0 dbl;
        if full : bool then mret inode
        else _ ← write_zone_table ind dbl; mret inode
    end.

Definition write_file_zones (inode : DiskInode) (zones : list Z) : io D DiskInode :=
  zone_size ← io_pure (DiskSuperBlock_zone_size sb);
  let per := Z.to_nat (zone_size / 2) in
  '(inode, full) ← write_single per (set_direct inode zones) zones;
  if full : bool then mret inode else write_double per inode zones.

(** ** Open files *)

Record File : Type := mkFile {
  fl_path : Path;
  fl_ino : Z;
  fl_inode : DiskInode;
  fl_zone_size : Z;
  fl_zones : list Z;
  fl_offset : Z
}.

Definition File_new (path : Path) (ino : Z) (inode : DiskInode) (zone_size : Z) (zones : list Z) : File :=
  mkFile path ino inode zone_size zones 0.

Definition File_size (self : File) : Z := i_size (fl_inode self).

Definition i64_add (a b : Z) : outcome Z :=
  if (- 2 ^ 63 <=? a + b) && (a + b <? 2 ^ 63) then Ret (a + b) else Panic.

(** [seek]: the new position is kept between 0 and the size. *)
Definition File_seek (self : File) (offset : Z) (whence : Whence) : outcome (result IoError Z * File) :=
  let size := File_size self in
  let move new :=
    let offset := Z.min (Z.max new 0) size in
    (Ok offset, mkFile (fl_path self) (fl_ino self) (fl_inode self) (fl_zone_size self) (fl_zones self) offset) in
  match whence with
  | SEEK_SET => mret (move offset)
  | SEEK_END => new ← i64_add size offset; mret (move new)
  | SEEK_CUR => new ← i64_add (fl_offset self) offset; mret (move new)
  | SEEK_other _ => mret (Err IoError_Request, self)
  end.

(** The loop of [read_at]: [out] is the part of the buffer that is filled,
    [room] the number of bytes left in it. Every round moves at least a byte, so
    the length of the buffer bounds the rounds. *)
Fixpoint File_read_loop (fuel : nat) (self : File) (pos room : Z) (out : list Z) : io D (list Z) :=
  let size := File_size self in
  if (pos <? size) && (0 <? room) then
    match fuel with
    | O => io_pure Panic
    | S fuel =>
        let zone_size := fl_zone_size self in
        if zone_size =? 0 then io_pure Panic
        else
          let zone_index := pos / zone_size in
          let in_zone := pos mod zone_size in
          let n := Z.min (Z.min (zone_size - in_zone) (size - pos)) room in
          match fl_zones self !! Z.to_nat zone_index with
          | None => mret out
          | Some zone =>
              base ← io_pure (usize_mul zone zone_size);
              '(_, part) ← dev_read_at (replicate (Z.to_nat n) 0) (base + in_zone);
              File_read_loop fuel self (pos + n) (room - n) (out ++ part)
          end
    end
  else mret out.

(** The bytes read into a buffer of [len] bytes; their number is the result. *)
Definition File_read_at (self : File) (len offset : Z) : io D (list Z) :=
  File_read_loop (Z.to_nat len) self offset len [].

Definition with_offset (self : File) (offset : Z) : File :=
  mkFile (fl_path self) (fl_ino self) (fl_inode self) (fl_zone_size self) (fl_zones self) offset.

Definition File_read (self : File) (len : Z) : io D (list Z * File) :=
  out ← File_read_at self len (fl_offset self);
  mret (out, with_offset self (fl_offset self + Z.of_nat (length out))).

(** Step 1 of [write_at]: allocate the missing zones, as far as the disk has them. *)
Fixpoint grow_zones (missing : nat) (zones : list Z) : io D (list Z) :=
  match missing with
  | O => mret zones
  | S missing =>
      zone ← alloc_zone;
      match zone with
      | None => mret zones
      | Some zone => grow_zones missing (zones ++ [zone])
      end
  end.

(** Step 2: write what falls into the zones; returns the number of bytes. *)
Fixpoint File_write_loop (fuel : nat) (zone_size : Z) (zones : list Z) (buf : list Z)
    (stop pos done : Z) : io D Z :=
  if (pos <? stop) && (done <? Z.of_nat (length buf)) then
    match fuel with
    | O => io_pure Panic
    | S fuel =>
        match zones !! Z.to_nat (pos / zone_size) with
        | None => mret done
        | Some zone =>
            let in_zone := pos mod zone_size in
            let n := Z.min (zone_size - in_zone) (Z.of_nat (length buf) - done) in
            base ← io_pure (usize_mul zone zone_size);
            _ ← dev_write_at (take (Z.to_nat n) (drop (Z.to_nat done) buf)) (base + in_zone);
            File_write_loop fuel zone_size zones buf stop (pos + n) (done + n)
        end
    end
  else mret done.

Definition usize_saturating_add (a b : Z) : Z := Z.min (a + b) (2 ^ 64 - 1).

Definition File_write_at (self : File) (buf : list Z) (offset : Z) : io D (Z * File) :=
  let len := Z.of_nat (length buf) in
  if len =? 0 then mret (0, self)
  else
    let zone_size := fl_zone_size self in
    let size := File_size self in
    let offset := Z.min offset size in
    let stop := usize_saturating_add offset len in
    if zone_size =? 0 then io_pure Panic
    else
      let need_zones := Z.to_nat (div_ceil stop zone_size) in
      let grew := (length (fl_zones self) <? need_zones)%nat in
      zones ← grow_zones (need_zones - length (fl_zones self)) (fl_zones self);
      inode ← (if grew then write_file_zones (fl_inode self) zones else mret (fl_inode self));
      done ← File_write_loop (length buf) zone_size zones buf stop offset 0;
      let new_size := Z.max size (usize_saturating_add offset done) in
      if i_size inode <? new_size then
        let inode := set_size inode (wrap 32 new_size) in
        _ ← write_inode (fl_ino self) inode;
        mret (done, mkFile (fl_path self) (fl_ino self) inode zone_size zones (fl_offset self))
      else mret (done, mkFile (fl_path self) (fl_ino self) inode zone_size zones (fl_offset self)).

Definition File_write (self : File) (buf : list Z) : io D (Z * File) :=
  '(n, self) ← File_write_at self buf (fl_offset self);
  mret (n, with_offset self (fl_offset self + n)).

End Minix.
