(* ===== verification/MinixDisk.v ===== *)
(** * MinixDisk: what the operations of [Minix] do to the contents of the disk

    The layout of a MINIX disk as functions of its contents: the inode of a
    number, the table in a zone, the bits of the two bitmaps. The operations of
    [Minix] that touch one structure read it, or change it and nothing else. *)

From S2P Require Import Prelude Bitmap BitFields Paths Bytes Disk Minix.

(** ** Bitmaps in a region of the disk *)

Definition bit_at (f : Z -> Z) (off j : Z) : bool := Z.testbit (f (off + j / 8)) (j mod 8).

(** The contents agree outside of a region. *)
Definition same_outside (lo hi : Z) (f f' : Z -> Z) : Prop :=
  forall i, i < lo \/ hi <= i -> f' i = f i.

(** The bitmap of [n] bytes at [off] gets the bit [o], if any, set to [b]. *)
Definition bitmap_upd (off n : Z) (o : option Z) (b : bool) (f f' : Z -> Z) : Prop :=
  same_outside off (off + n) f f' /\
  forall j, 0 <= j < 8 * n -> bit_at f' off j = if decide (o = Some j) then b else bit_at f off j.

Lemma bit_nth ws j : bit ws j = Z.testbit (nth (Z.to_nat (j / 64)) ws 0) (j mod 64).
Proof.
  unfold bit, WORD_BITS. destruct (ws !! Z.to_nat (j / 64)) as [w|] eqn:E.
  - by rewrite (nth_lookup_Some _ _ _ _ E).
  - rewrite nth_overflow by (by apply lookup_ge_None). by rewrite Z.bits_0.
Qed.

Lemma bit_slice f off n j : (forall i, is_byte (f i)) -> n mod 8 = 0 -> 0 <= j < 8 * n ->
  bit (as_words (slice f off n)) j = bit_at f off j.
Proof.
  intros Hf Hn Hj. pose proof (length_slice f off n) as Hl.
  rewrite bit_nth, (as_words_testbit _ (Z.to_nat (n / 8))) by (try apply slice_bytes; auto; lia).
  unfold bit_at. by rewrite slice_nth by lia.
Qed.

Lemma bit_splice f off ws j : 0 <= j < 64 * Z.of_nat (length ws) ->
  bit_at (splice f off (words_bytes ws)) off j = bit ws j.
Proof.
  intros Hj. rewrite bit_nth. unfold bit_at.
  rewrite splice_in by (rewrite words_bytes_length; lia). by apply words_bytes_testbit.
Qed.

(** Allocation in a view whose bits past the capacity are all set. *)
Lemma View_alloc_padded ws bits start :
  words_ok ws -> 0 <= bits <= nbits ws -> 0 <= start ->
  (forall j, bits <= j < nbits ws -> bit ws j = true) ->
  exists r v, View_alloc_from (mkView ws bits) start = Ret (r, v) /\
    first_in (fun j => negb (bit ws j)) start bits r /\
    words_ok (vw_words v) /\ length (vw_words v) = length ws /\
    forall j, 0 <= j -> bit (vw_words v) j = if decide (r = Some j) then true else bit ws j.
Proof.
  intros Hok Hb Hs Hpad. unfold View_alloc_from, View_find_free_from. cbn [vw_words vw_bits].
  destruct (scan_words_ok ws bits start true Hok Hb Hs) as (r & -> & Hr).
  rewrite outcome_bind_Ret. destruct r as [i|].
  - destruct Hr as (H1 & H2 & H3 & _). cbn [wanted xorb] in *. unfold wanted in *. cbn [xorb] in *.
    assert (Hi : i < bits).
    { destruct (Z.lt_ge_cases i bits); [done|]. by rewrite Hpad in H2 by lia. }
    destruct (set_bit_ok ws i Hok ltac:(lia)) as (ws' & -> & [U1 U2 U3]).
    exists (Some i), (mkView ws' bits). split; [done|]. split; [split; [lia|by split]|].
    split; [done|]. split; [done|]. intros j Hj. cbn [vw_words]. rewrite U3 by done.
    destruct (Z.eqb_spec j i) as [->|]; [by rewrite decide_True|].
    rewrite decide_False by congruence. done.
  - exists None, (mkView ws bits). split; [done|]. split; [exact Hr|]. split; [done|]. split; [done|].
    intros j _. by rewrite decide_False.
Qed.

Section WithBitmap.
Context {D : Type} `{DiskLaws D} (N : Z).

(** The region of a bitmap of [bits] bits, the rest of which is set. *)
Definition map_region (off n bits : Z) : Prop :=
  0 <= off /\ off + n <= N /\ n mod 8 = 0 /\ 0 <= n /\ 0 <= bits <= 8 * n.
Definition padded (off n bits : Z) (f : Z -> Z) : Prop :=
  forall j, bits <= j < 8 * n -> bit_at f off j = true.

Lemma with_bitmap_view {R} f off n bits (g : BitMapView -> outcome (R * BitMapView)) (Q : R -> (Z -> Z) -> Prop) :
  map_region off n bits ->
  ((forall i, is_byte (f i)) -> exists r v,
     g (mkView (as_words (slice f off n)) bits) = Ret (r, v) /\
     length (vw_words v) = Z.to_nat (n / 8) /\ Q r (splice f off (words_bytes (vw_words v)))) ->
  triple N f (with_bitmap off n bits g) Q.
Proof.
  intros (Ho & Hn & Hm & Hp & Hb) Hg. apply triple_is_byte. intros Hf.
  destruct (Hg Hf) as (r & v & Eg & Hl & HQ). unfold with_bitmap.
  apply triple_seq, triple_read; [lia|rewrite length_replicate; lia|]. cbn beta iota.
  rewrite length_replicate, Z2Nat.id by lia. pose proof (length_slice f off n).
  apply triple_seq. eapply triple_pure.
  { unfold View_new_with_capacity. rewrite (as_words_length _ (Z.to_nat (n / 8))) by lia.
    unfold WORD_BITS. rewrite Z.min_l by lia. case_if as E; [done|lia]. }
  cbn beta. apply triple_seq. eapply triple_pure; [exact Eg|]. cbn beta iota.
  apply triple_seq, triple_write; [lia|rewrite words_bytes_length; lia|apply words_bytes_bytes|].
  by apply triple_ret.
Qed.

(** The written words as an update of the bits. *)
Lemma bitmap_upd_splice f off n o b ws :
  (forall i, is_byte (f i)) -> n mod 8 = 0 -> 0 <= n -> length ws = Z.to_nat (n / 8) ->
  (forall j, 0 <= j -> bit ws j = if decide (o = Some j) then b else bit (as_words (slice f off n)) j) ->
  bitmap_upd off n o b f (splice f off (words_bytes ws)).
Proof.
  intros Hf Hm Hn Hl Hb. split.
  - intros i Hi. apply splice_out. rewrite words_bytes_length. lia.
  - intros j Hj. rewrite bit_splice by lia. rewrite Hb by lia.
    case_decide; [done|]. by apply bit_slice.
Qed.

Lemma with_bitmap_alloc f off n bits name (Q : option Z -> (Z -> Z) -> Prop) :
  map_region off n bits -> padded off n bits f ->
  (forall r f', first_in (fun j => negb (bit_at f off j)) 1 bits r ->
     bitmap_upd off n r true f f' -> Q (option_map name r) f') ->
  triple N f (with_bitmap off n bits (map_alloc name)) Q.
Proof.
  intros Hreg Hpad HQ. apply with_bitmap_view; [done|]. intros Hf.
  destruct Hreg as (Ho & Hn & Hm & Hp & Hb). pose proof (length_slice f off n).
  assert (Hlen : length (as_words (slice f off n)) = Z.to_nat (n / 8)) by (apply as_words_length; lia).
  destruct (View_alloc_padded (as_words (slice f off n)) bits 1) as (r & v & E & Hr & Hok & Hl & Hu).
  - apply (as_words_fits _ (Z.to_nat (n / 8))); [lia|]. by apply slice_bytes.
  - unfold nbits, WORD_BITS. lia.
  - lia.
  - unfold nbits, WORD_BITS. intros j Hj. rewrite bit_slice by (auto; lia). apply Hpad. lia.
  - exists (option_map name r), v. split; [unfold map_alloc; by rewrite E|]. split; [lia|].
    apply HQ; [|by apply bitmap_upd_splice; auto; lia].
    eapply first_in_ext; [|exact Hr]. intros j Hj. cbn beta. by rewrite bit_slice by (auto; lia).
Qed.

Lemma with_bitmap_clear f off n bits i (Q : unit -> (Z -> Z) -> Prop) :
  map_region off n bits -> 0 <= i < bits ->
  (forall f', bitmap_upd off n (Some i) false f f' -> Q tt f') ->
  triple N f (with_bitmap off n bits (map_clear i)) Q.
Proof.
  intros Hreg Hi HQ. apply with_bitmap_view; [done|]. intros Hf.
  destruct Hreg as (Ho & Hn & Hm & Hp & Hb). pose proof (length_slice f off n).
  assert (Hlen : length (as_words (slice f off n)) = Z.to_nat (n / 8)) by (apply as_words_length; lia).
  destruct (clear_bit_ok (as_words (slice f off n)) i) as (ws' & E & [U1 U2 U3]).
  - apply (as_words_fits _ (Z.to_nat (n / 8))); [lia|]. by apply slice_bytes.
  - unfold nbits, WORD_BITS. lia.
  - exists tt, (mkView ws' bits). split.
    { unfold map_clear, View_clear, View_contains. cbn [vw_words vw_bits].
      destruct (Z.ltb_spec i bits); [|lia]. cbn [negb]. by rewrite E. }
    split; [cbn; lia|]. apply HQ, bitmap_upd_splice; auto; cbn; try lia.
    intros j Hj. rewrite U3 by done. destruct (Z.eqb_spec j i) as [->|]; [by rewrite decide_True|].
    by rewrite decide_False by congruence.
Qed.

End WithBitmap.

(** ** The layout *)

Section Layout.
Context (sb : DiskSuperBlock) (N : Z).

Definition zsize : Z := 1024 * 2 ^ log_zone_size sb.
Definition imap_off : Z := 2 * zsize.
Definition zmap_off : Z := (2 + imap_blocks sb) * zsize.
Definition itab : Z := (2 + imap_blocks sb + zmap_blocks sb) * zsize.
Definition inode_off (ino : Z) : Z := itab + (ino - 1) * 32.

(** A superblock that fits a disk of [N] bytes: the bitmaps have room for their
    bits, the inode table lies before the first data zone, the zones lie on the
    disk. *)
Record geometry : Prop := {
  g_log : 0 <= log_zone_size sb <= 15;
  g_imap : 0 <= imap_blocks sb;
  g_zmap : 0 <= zmap_blocks sb;
  g_blocks : 2 + imap_blocks sb + zmap_blocks sb < 2 ^ 16;
  g_inodes : 1 <= ninodes sb < 2 ^ 16;
  g_table : itab + ninodes sb * 32 <= first_data_zone sb * zsize;
  g_zones : first_data_zone sb <= nzones sb < 2 ^ 16;
  g_disk : nzones sb * zsize <= N;
  g_imap_bits : ninodes sb + 1 <= 8 * (imap_blocks sb * zsize);
  g_zmap_bits : nzones sb - first_data_zone sb + 1 <= 8 * (zmap_blocks sb * zsize)
}.

(** The structures of the disk with contents [f]. *)
Definition inode_at (f : Z -> Z) (ino : Z) : DiskInode := DiskInode_read (slice f (inode_off ino) 32).
Definition table_at (f : Z -> Z) (zone : Z) : list Z := as_u16s (slice f (zone * zsize) zsize).
Definition zone_bit (zone : Z) : Z := zone - first_data_zone sb + 1.
Definition zone_used (f : Z -> Z) (zone : Z) : bool := bit_at f zmap_off (zone_bit zone).
Definition inode_used (f : Z -> Z) (ino : Z) : bool := bit_at f imap_off ino.

(** A zone that holds data or tables. *)
Definition data_zone (zone : Z) : Prop := first_data_zone sb <= zone < nzones sb.

(** The bits of the bitmaps past the last zone and the last inode are set, as
    the program that makes the file system leaves them. *)
Definition zmap_padded : (Z -> Z) -> Prop :=
  padded zmap_off (zmap_blocks sb * zsize) (nzones sb - first_data_zone sb + 1).
Definition imap_padded : (Z -> Z) -> Prop :=
  padded imap_off (imap_blocks sb * zsize) (ninodes sb + 1).

(** Fields of an inode within their types. *)
Record inode_ok (i : DiskInode) : Prop := {
  io_mode : fits 16 (i_mode i);
  io_uid : fits 16 (i_uid i);
  io_size : fits 32 (i_size i);
  io_mtime : fits 32 (i_mtime i);
  io_gid : fits 8 (i_gid i);
  io_nlinks : fits 8 (i_nlinks i);
  io_zone : length (i_zone i) = 9%nat;
  io_zones : Forall (fits 16) (i_zone i)
}.

(** *** Inodes as bytes *)

Lemma DiskInode_bytes_length i : inode_ok i -> length (DiskInode_bytes i) = 32%nat.
Proof.
  intros Hi. unfold DiskInode_bytes. rewrite !length_app, !to_le_bytes_length, u16s_bytes_length.
  rewrite (io_zone _ Hi). done.
Qed.

Lemma DiskInode_bytes_bytes i : bytes (DiskInode_bytes i).
Proof.
  unfold DiskInode_bytes. repeat (apply Forall_app; split); try apply to_le_bytes_bytes.
  apply u16s_bytes_bytes.
Qed.

Lemma le_at_app_r off n (l1 l2 : list Z) k : length l1 = k -> le_at (k + off) n (l1 ++ l2) = le_at off n l2.
Proof. intros <-. unfold le_at. by rewrite drop_app_add. Qed.

Lemma le_at_app_l n (l : list Z) x : fits (8 * Z.of_nat n) x ->
  le_at 0 n (to_le_bytes n x ++ l) = x.
Proof.
  intros Hx. unfold le_at. rewrite drop_0, take_app_length' by (symmetry; apply to_le_bytes_length).
  apply from_to_le_bytes. unfold fits in Hx. by rewrite Z.pow_mul_r in Hx by lia.
Qed.

Lemma DiskInode_roundtrip i : inode_ok i -> DiskInode_read (DiskInode_bytes i) = i.
Proof.
  intros [H1 H2 H3 H4 H5 H6 H7 H8]. destruct i as [mode uid size mtime gid nlinks zone].
  cbn [i_mode i_uid i_size i_mtime i_gid i_nlinks i_zone] in *.
  unfold DiskInode_read, DiskInode_bytes. cbn [i_mode i_uid i_size i_mtime i_gid i_nlinks i_zone].
  f_equal.
  - by apply le_at_app_l.
  - rewrite (le_at_app_r 0 2 _ _ 2) by done. by apply le_at_app_l.
  - rewrite (le_at_app_r 2 4 _ _ 2), (le_at_app_r 0 4 _ _ 2) by done. by apply le_at_app_l.
  - rewrite (le_at_app_r 6 4 _ _ 2), (le_at_app_r 4 4 _ _ 2), (le_at_app_r 0 4 _ _ 4) by done.
    by apply le_at_app_l.
  - rewrite (le_at_app_r 10 1 _ _ 2), (le_at_app_r 8 1 _ _ 2), (le_at_app_r 4 1 _ _ 4),
      (le_at_app_r 0 1 _ _ 4) by done. by apply le_at_app_l.
  - rewrite (le_at_app_r 11 1 _ _ 2), (le_at_app_r 9 1 _ _ 2), (le_at_app_r 5 1 _ _ 4),
      (le_at_app_r 1 1 _ _ 4), (le_at_app_r 0 1 _ _ 1) by done. by apply le_at_app_l.
  - change 14%nat with (2 + (2 + (4 + (4 + (1 + (1 + 0))))))%nat.
    do 6 (rewrite drop_app_add' by done). rewrite drop_0.
    rewrite firstn_all2 by (rewrite u16s_bytes_length, H7; done).
    by apply as_u16s_of_bytes.
Qed.

Lemma DiskInode_read_ok buf : length buf = 32%nat -> bytes buf -> inode_ok (DiskInode_read buf).
Proof.
  intros Hl Hb.
  assert (Hle : forall off n, (off + n <= 32)%nat -> fits (8 * Z.of_nat n) (le_at off n buf)).
  { intros off n Ho. unfold le_at. apply from_le_bytes_fits.
    - by apply Forall_take, Forall_drop.
    - rewrite length_take, length_drop. lia. }
  unfold DiskInode_read. split; cbn [i_mode i_uid i_size i_mtime i_gid i_nlinks i_zone].
  1: apply (Hle 0%nat 2%nat); lia.
  1: apply (Hle 2%nat 2%nat); lia.
  1: apply (Hle 4%nat 4%nat); lia.
  1: apply (Hle 8%nat 4%nat); lia.
  1: apply (Hle 12%nat 1%nat); lia.
  1: apply (Hle 13%nat 1%nat); lia.
  - apply (as_u16s_length _ 9). rewrite length_take, length_drop. lia.
  - apply (as_u16s_fits _ 9); [rewrite length_take, length_drop; lia|].
    by apply Forall_take, Forall_drop.
Qed.

Lemma inode_at_ok f ino : (forall i, is_byte (f i)) -> inode_ok (inode_at f ino).
Proof.
  intros Hf. apply DiskInode_read_ok; [|by apply slice_bytes].
  pose proof (length_slice f (inode_off ino) 32). lia.
Qed.

End Layout.

(** ** The operations on one structure *)

(** Step over a computation that does not touch the device. *)
Ltac pure_step E := apply triple_seq; eapply triple_pure; [exact E|]; cbn beta iota.

Section Ops.
Context {D : Type} `{DiskLaws D} (sb : DiskSuperBlock) (N : Z) (G : geometry sb N).

Lemma zsize_cases : exists p, zsize sb = 1024 * p /\ 1 <= p <= 32768.
Proof.
  destruct (g_log _ _ G). exists (2 ^ log_zone_size sb). split; [done|].
  split; [pose proof (Z.pow_pos_nonneg 2 (log_zone_size sb)); lia|].
  change 32768 with (2 ^ 15). apply Z.pow_le_mono_r; lia.
Qed.

Lemma zone_size_eq : DiskSuperBlock_zone_size sb = Ret (zsize sb).
Proof.
  unfold DiskSuperBlock_zone_size. pose proof (g_log _ _ G). case_if as E; [|lia].
  rewrite Z.shiftl_mul_pow2 by lia. unfold wrap. rewrite Z.mod_small; [done|].
  destruct zsize_cases as (p & E' & Hp). unfold zsize in E'. lia.
Qed.

Lemma usize_mul_zsize a : 0 <= a < 2 ^ 17 -> usize_mul a (zsize sb) = Ret (a * zsize sb).
Proof.
  intros Ha. destruct zsize_cases as (p & -> & Hp). unfold usize_mul.
  case_if as E; [done|]. nia.
Qed.

Lemma itab_eq : inode_table_offset sb = Ret (itab sb).
Proof.
  destruct G. unfold inode_table_offset, u16_add.
  case_if as E1; [|lia]. rewrite outcome_bind_Ret. case_if as E2; [|lia]. rewrite outcome_bind_Ret.
  rewrite zone_size_eq, outcome_bind_Ret. by rewrite usize_mul_zsize by lia.
Qed.

(** Offsets of the regions, in order. *)
Lemma layout_order_facts :
  0 < zsize sb /\ zsize sb mod 1024 = 0 /\ imap_off sb + imap_blocks sb * zsize sb = zmap_off sb /\
  zmap_off sb + zmap_blocks sb * zsize sb = itab sb /\
  itab sb + ninodes sb * 32 <= first_data_zone sb * zsize sb /\
  first_data_zone sb * zsize sb <= nzones sb * zsize sb /\ nzones sb * zsize sb <= N /\
  0 < imap_off sb /\ itab sb < 2 ^ 41 /\ 0 <= imap_blocks sb * zsize sb /\
  0 <= zmap_blocks sb * zsize sb.
Proof.
  destruct G. destruct zsize_cases as (p & E & Hp). unfold imap_off, zmap_off, itab in *.
  rewrite E in *. repeat split; try nia.
Qed.

Lemma itab_pos : 0 < imap_off sb /\ 0 < zmap_off sb /\ 0 < itab sb.
Proof. pose proof layout_order_facts. lia. Qed.

Lemma first_positive : 2 < first_data_zone sb.
Proof.
  destruct G. pose proof layout_order_facts as (H1 & H2 & H3 & H4 & H5 & _). unfold itab in *. nia.
Qed.

Lemma zone_offset_ok zone : data_zone sb zone ->
  itab sb + ninodes sb * 32 <= zone * zsize sb /\ zone * zsize sb + zsize sb <= N.
Proof.
  intros Hz. unfold data_zone in Hz. pose proof layout_order_facts as (H1 & _ & _ & _ & H5 & _ & H7 & _).
  nia.
Qed.

Lemma zones_apart z1 z2 : z1 <> z2 ->
  z1 * zsize sb + zsize sb <= z2 * zsize sb \/ z2 * zsize sb + zsize sb <= z1 * zsize sb.
Proof. intros Hne. destruct zsize_cases as (p & E & Hp). destruct (Z.lt_total z1 z2) as [|[|]]; nia. Qed.

Lemma inode_offset_ok ino : 1 <= ino <= ninodes sb ->
  usize_sub ino 1 = Ret (ino - 1) /\
  usize_add (itab sb) ((ino - 1) * Z.of_nat inode_bytes) = Ret (inode_off sb ino) /\
  itab sb <= inode_off sb ino /\ inode_off sb ino + 32 <= itab sb + ninodes sb * 32.
Proof.
  intros Hi. pose proof layout_order_facts as (_ & _ & _ & _ & H5 & H6 & H7 & _ & H8 & _).
  pose proof (g_inodes _ _ G). unfold usize_sub, usize_add, inode_off, inode_bytes in *.
  change (Z.of_nat 32) with 32. split; [case_if as E; [done|lia]|].
  split; [case_if as E; [done|lia]|]. lia.
Qed.

Lemma read_inode_ok f ino (Q : DiskInode -> (Z -> Z) -> Prop) : 1 <= ino <= ninodes sb ->
  Q (inode_at sb f ino) f -> triple N f (read_inode sb ino) Q.
Proof.
  intros Hi HQ. destruct (inode_offset_ok ino Hi) as (E1 & E2 & H1 & H2).
  pose proof layout_order_facts as (_ & _ & H3 & H4 & H5 & H6 & H7 & H8 & _).
  unfold read_inode. pure_step E1. pure_step itab_eq. pure_step E2.
  apply triple_seq, triple_read; cbn [length replicate Z.of_nat inode_bytes].
  - pose proof itab_pos. lia.
  - lia.
  - by apply triple_ret.
Qed.

Lemma write_inode_ok f ino i (Q : unit -> (Z -> Z) -> Prop) : 1 <= ino <= ninodes sb -> inode_ok i ->
  Q tt (splice f (inode_off sb ino) (DiskInode_bytes i)) -> triple N f (write_inode sb ino i) Q.
Proof.
  intros Hi Hok HQ. destruct (inode_offset_ok ino Hi) as (E1 & E2 & H1 & H2).
  pose proof layout_order_facts as (_ & _ & H3 & H4 & H5 & H6 & H7 & H8 & _).
  unfold write_inode. pure_step itab_eq. pure_step E1. pure_step E2.
  apply triple_seq, triple_write; rewrite ?(DiskInode_bytes_length _ Hok).
  - pose proof itab_pos. lia.
  - lia.
  - apply DiskInode_bytes_bytes.
  - by apply triple_ret.
Qed.

Lemma data_zone_mul zone : data_zone sb zone -> usize_mul zone (zsize sb) = Ret (zone * zsize sb).
Proof.
  intros Hz. apply usize_mul_zsize. unfold data_zone in Hz.
  pose proof first_positive. pose proof (g_zones _ _ G). lia.
Qed.

Lemma data_zone_pos zone : data_zone sb zone -> 0 <= zone * zsize sb.
Proof.
  intros Hz. pose proof first_positive. unfold data_zone in Hz.
  pose proof layout_order_facts as (Hzs & _). nia.
Qed.

Lemma read_zone_into_ok f zone len (Q : list Z -> (Z -> Z) -> Prop) :
  data_zone sb zone -> 0 <= len <= zsize sb ->
  Q (slice f (zone * zsize sb) len) f -> triple N f (read_zone_into sb zone len) Q.
Proof.
  intros Hz Hl HQ. destruct (zone_offset_ok zone Hz) as [_ H2]. unfold read_zone_into.
  pure_step zone_size_eq. case_if as E; [lia|]. pure_step (data_zone_mul zone Hz).
  apply triple_seq, triple_read; rewrite ?length_replicate, ?Z2Nat.id by lia.
  - by apply data_zone_pos.
  - lia.
  - by apply triple_ret.
Qed.

Lemma write_zone_ok f zone buf (Q : unit -> (Z -> Z) -> Prop) :
  data_zone sb zone -> Z.of_nat (length buf) <= zsize sb -> bytes buf ->
  Q tt (splice f (zone * zsize sb) buf) -> triple N f (write_zone sb zone buf) Q.
Proof.
  intros Hz Hl Hb HQ. destruct (zone_offset_ok zone Hz) as [_ H2]. unfold write_zone.
  pure_step zone_size_eq. case_if as E; [lia|]. pure_step (data_zone_mul zone Hz).
  apply triple_seq, triple_write; [by apply data_zone_pos|lia|done|]. by apply triple_ret.
Qed.

Lemma read_zone_table_ok f zone (Q : list Z -> (Z -> Z) -> Prop) :
  data_zone sb zone -> Q (table_at sb f zone) f -> triple N f (read_zone_table sb zone) Q.
Proof.
  intros Hz HQ. destruct (zone_offset_ok zone Hz) as [_ H2]. unfold read_zone_table.
  pose proof layout_order_facts as (H1 & _).
  pure_step zone_size_eq. pure_step (data_zone_mul zone Hz).
  apply triple_seq, triple_read; rewrite ?length_replicate, ?Z2Nat.id by lia.
  - by apply data_zone_pos.
  - lia.
  - by apply triple_ret.
Qed.

Lemma write_zone_table_ok f zone table (Q : unit -> (Z -> Z) -> Prop) :
  data_zone sb zone -> Z.of_nat (length table) = zsize sb / 2 ->
  Q tt (splice f (zone * zsize sb) (u16s_bytes table)) -> triple N f (write_zone_table sb zone table) Q.
Proof.
  intros Hz Hl HQ. destruct (zone_offset_ok zone Hz) as [_ H2]. unfold write_zone_table.
  pose proof layout_order_facts as (H1 & H1' & _).
  pure_step zone_size_eq. rewrite Hl, Z.eqb_refl. cbn [negb].
  pure_step (data_zone_mul zone Hz).
  apply triple_seq, triple_write; [by apply data_zone_pos| |apply u16s_bytes_bytes|].
  - rewrite u16s_bytes_length. lia.
  - by apply triple_ret.
Qed.

(** *** Allocation *)

(** The zone bitmap gets the bit of the zone [o], if any, set to [b]. *)
Definition zmap_step (o : option Z) (b : bool) (f f' : Z -> Z) : Prop :=
  same_outside (zmap_off sb) (itab sb) f f' /\
  (forall z, data_zone sb z -> zone_used sb f' z = if decide (o = Some z) then b else zone_used sb f z) /\
  zmap_padded sb f'.

Definition imap_step (o : option Z) (b : bool) (f f' : Z -> Z) : Prop :=
  same_outside (imap_off sb) (zmap_off sb) f f' /\
  (forall i, 1 <= i <= ninodes sb -> inode_used sb f' i = if decide (o = Some i) then b else inode_used sb f i) /\
  imap_padded sb f'.

Lemma zmap_region_ok : map_region N (zmap_off sb) (zmap_blocks sb * zsize sb) (nzones sb - first_data_zone sb + 1).
Proof.
  destruct G. pose proof layout_order_facts. pose proof itab_pos.
  assert ((zmap_blocks sb * zsize sb) mod 8 = 0).
  { destruct zsize_cases as (p & -> & Hp). replace (zmap_blocks sb * (1024 * p)) with (zmap_blocks sb * p * 128 * 8) by lia.
    apply Z.mod_mul. lia. }
  unfold map_region. lia.
Qed.

Lemma imap_region_ok : map_region N (imap_off sb) (imap_blocks sb * zsize sb) (ninodes sb + 1).
Proof.
  destruct G. pose proof layout_order_facts. pose proof itab_pos.
  assert ((imap_blocks sb * zsize sb) mod 8 = 0).
  { destruct zsize_cases as (p & -> & Hp). replace (imap_blocks sb * (1024 * p)) with (imap_blocks sb * p * 128 * 8) by lia.
    apply Z.mod_mul. lia. }
  unfold map_region. lia.
Qed.

Lemma zmap_step_of r b f f' : zmap_padded sb f -> (forall z, r = Some z -> data_zone sb z) ->
  bitmap_upd (zmap_off sb) (zmap_blocks sb * zsize sb) (option_map (zone_bit sb) r) b f f' ->
  zmap_step r b f f'.
Proof.
  intros Hpad Hr [Hs Hb]. pose proof layout_order_facts as (_ & _ & _ & E & _).
  pose proof (g_zmap_bits _ _ G). rewrite E in Hs. split; [done|]. split.
  - intros z Hz. unfold zone_used. unfold data_zone, zone_bit in *. rewrite Hb by lia.
    destruct r as [z'|]; cbn [option_map].
    + destruct (decide (Some z' = Some z)) as [E'|Hne]; [injection E' as ->; by rewrite decide_True|].
      rewrite decide_False; [done|]. intros [=]. apply Hne. f_equal. lia.
    + by rewrite !decide_False.
  - intros j Hj. rewrite Hb by (pose proof (g_zones _ _ G); lia). rewrite decide_False; [by apply Hpad|].
    destruct r as [z'|]; [|done]. cbn [option_map]. intros [=].
    specialize (Hr z' eq_refl). unfold data_zone, zone_bit in *. lia.
Qed.

Lemma imap_step_of r b f f' : imap_padded sb f -> (forall i, r = Some i -> 1 <= i <= ninodes sb) ->
  bitmap_upd (imap_off sb) (imap_blocks sb * zsize sb) r b f f' -> imap_step r b f f'.
Proof.
  intros Hpad Hr [Hs Hb]. pose proof layout_order_facts as (_ & _ & E & _).
  pose proof (g_imap_bits _ _ G). rewrite E in Hs. split; [done|]. split.
  - intros i Hi. unfold inode_used. by rewrite Hb by lia.
  - intros j Hj. rewrite Hb by (pose proof (g_inodes _ _ G); lia). rewrite decide_False; [by apply Hpad|].
    intros ->. specialize (Hr j eq_refl). lia.
Qed.

Lemma alloc_zone_ok f (Q : option Z -> (Z -> Z) -> Prop) : zmap_padded sb f ->
  (forall r f', first_in (fun z => negb (zone_used sb f z)) (first_data_zone sb) (nzones sb) r ->
     zmap_step r true f f' -> Q r f') ->
  triple N f (alloc_zone sb) Q.
Proof.
  intros Hpad HQ. pose proof (g_zones _ _ G). pose proof (g_blocks _ _ G). pose proof (g_imap _ _ G).
  pose proof (g_zmap _ _ G). pose proof first_positive.
  unfold alloc_zone. pure_step zone_size_eq. pure_step (usize_mul_zsize (2 + imap_blocks sb) ltac:(lia)).
  pure_step (usize_mul_zsize (zmap_blocks sb) ltac:(lia)).
  apply triple_seq. eapply triple_pure; [unfold usize_sub; case_if as E; [done|lia]|]. cbn beta.
  apply with_bitmap_alloc; [apply zmap_region_ok|done|].
  intros r f' Hr Hu.
  assert (Hr' : first_in (fun z => negb (zone_used sb f z)) (first_data_zone sb) (nzones sb)
            (option_map (fun bit => wrap 16 (bit + first_data_zone sb - 1)) r)).
  { destruct r as [j|]; cbn [option_map first_in] in *.
    - destruct Hr as (H1' & H2' & H3').
      replace (wrap 16 (j + first_data_zone sb - 1)) with (j + first_data_zone sb - 1)
        by (unfold wrap; rewrite Z.mod_small; lia).
      unfold zone_used, zone_bit. split; [lia|]. split.
      + by replace (j + first_data_zone sb - 1 - first_data_zone sb + 1) with j by lia.
      + intros z Hz. apply H3'. lia.
    - intros z Hz. unfold zone_used, zone_bit. apply Hr. lia. }
  apply HQ; [exact Hr'|]. apply zmap_step_of; [done| |].
  - intros z E. rewrite E in Hr'. destruct Hr' as (? & _). done.
  - assert (Er : option_map (zone_bit sb) (option_map (fun bit => wrap 16 (bit + first_data_zone sb - 1)) r) = r).
    { destruct r as [j|]; cbn [option_map first_in] in *; [|done]. destruct Hr as (H1' & _).
      unfold zone_bit, wrap. rewrite Z.mod_small by lia. f_equal. lia. }
    by rewrite Er.
Qed.

Lemma free_zone_ok f zone (Q : unit -> (Z -> Z) -> Prop) : zmap_padded sb f -> data_zone sb zone ->
  (forall f', zmap_step (Some zone) false f f' -> Q tt f') -> triple N f (free_zone sb zone) Q.
Proof.
  intros Hpad Hz HQ. pose proof (g_zones _ _ G). pose proof (g_blocks _ _ G). pose proof (g_imap _ _ G).
  pose proof (g_zmap _ _ G). pose proof first_positive. unfold data_zone in Hz.
  unfold free_zone. case_if as E; [lia|].
  pure_step zone_size_eq. pure_step (usize_mul_zsize (2 + imap_blocks sb) ltac:(lia)).
  pure_step (usize_mul_zsize (zmap_blocks sb) ltac:(lia)).
  apply triple_seq. eapply triple_pure; [unfold usize_sub; case_if as E'; [done|lia]|]. cbn beta.
  apply with_bitmap_clear; [apply zmap_region_ok|lia|]. intros f' Hu. apply HQ.
  apply zmap_step_of; [done|by intros ? [= <-]|exact Hu].
Qed.

Lemma alloc_inode_ok f (Q : option Z -> (Z -> Z) -> Prop) : imap_padded sb f ->
  (forall r f', first_in (fun i => negb (inode_used sb f i)) 1 (ninodes sb + 1) r ->
     imap_step r true f f' -> Q r f') ->
  triple N f (alloc_inode sb) Q.
Proof.
  intros Hpad HQ. pose proof (g_inodes _ _ G). pose proof (g_blocks _ _ G).
  pose proof (g_imap _ _ G). pose proof (g_zmap _ _ G).
  unfold alloc_inode. pure_step zone_size_eq. pure_step (usize_mul_zsize 2 ltac:(lia)).
  pure_step (usize_mul_zsize (imap_blocks sb) ltac:(lia)).
  apply with_bitmap_alloc; [apply imap_region_ok|done|].
  intros r f' Hr Hu.
  assert (Er : option_map (fun bit => wrap 16 bit) r = r).
  { destruct r as [j|]; cbn [option_map first_in] in *; [|done]. destruct Hr as (H1' & _).
    unfold wrap. rewrite Z.mod_small by lia. done. }
  rewrite Er. apply HQ; [exact Hr|]. apply imap_step_of; [done| |done].
  intros i ->. destruct Hr as (? & _). lia.
Qed.

Lemma free_inode_ok f ino (Q : unit -> (Z -> Z) -> Prop) : imap_padded sb f -> 1 <= ino <= ninodes sb ->
  (forall f', imap_step (Some ino) false f f' -> Q tt f') -> triple N f (free_inode sb ino) Q.
Proof.
  intros Hpad Hi HQ. pose proof (g_blocks _ _ G). pose proof (g_imap _ _ G). pose proof (g_zmap _ _ G).
  unfold free_inode. case_if as E; [lia|].
  pure_step zone_size_eq. pure_step (usize_mul_zsize 2 ltac:(lia)).
  pure_step (usize_mul_zsize (imap_blocks sb) ltac:(lia)).
  apply with_bitmap_clear; [apply imap_region_ok|lia|]. intros f' Hu. apply HQ.
  apply imap_step_of; [done|by intros ? [= <-]|exact Hu].
Qed.

End Ops.
