(* ===== verification/MinixZones.v ===== *)
(** * MinixZones: the zones of a file

    The zone list of a file as [data_zones] finds it and [write_file_zones]
    leaves it: seven entries in the inode, then a table, then a table of tables.
    [layout] describes it, [alloc_step] what a program that allocates zones and
    writes some of them changes on the disk. *)

From S2P Require Import Prelude Bitmap BitFields Paths Bytes Disk Minix MinixDisk.

Section Zones.
Context {D : Type} `{DiskLaws D} (sb : DiskSuperBlock) (N : Z) (G : geometry sb N).
Abbreviation zs := (zsize sb).
Abbreviation used := (zone_used sb).
Abbreviation contents := (Z -> Z).

(** ** Changes of the disk *)

Definition in_zone (z i : Z) : Prop := z * zs <= i < z * zs + zs.

(** The contents agree outside of the zone bitmap and the zones [W]. *)
Definition touches (W : list Z) (f f' : contents) : Prop :=
  forall i, i < zmap_off sb \/ itab sb <= i -> (forall z, z ∈ W -> ~ in_zone z i) -> f' i = f i.

(** The number of zones that are not in use. *)
Definition nfree (f : contents) : Z :=
  countb (fun z => negb (used f z)) (seqZ (first_data_zone sb) (nzones sb - first_data_zone sb)).

(** The zones [l] were free and are in use now; the zones [W] may have changed. *)
Record alloc_step (l W : list Z) (f f' : contents) : Prop := {
  as_touches : touches W f f';
  as_used : forall z, data_zone sb z -> used f' z = used f z || bool_decide (z ∈ l);
  as_fresh : Forall (fun z => data_zone sb z /\ used f z = false) l;
  as_nodup : NoDup l;
  as_free : nfree f' = nfree f - Z.of_nat (length l);
  as_padded : zmap_padded sb f'
}.

Lemma touches_refl W f : touches W f f.
Proof. by intros i _ _. Qed.

Lemma touches_trans W1 W2 f f1 f2 : touches W1 f f1 -> touches W2 f1 f2 -> touches (W1 ++ W2) f f2.
Proof.
  intros H1 H2 i Hi Hz. rewrite H2, H1; [done|done| |done|].
  - intros z Hw. apply Hz, elem_of_app. by left.
  - intros z Hw. apply Hz, elem_of_app. by right.
Qed.

Lemma touches_mono W W' f f' : W ⊆ W' -> touches W f f' -> touches W' f f'.
Proof. intros Hw H1 i Hi Hz. apply H1; [done|]. intros z Hz'. apply Hz. by apply Hw. Qed.

Lemma alloc_step_refl f : zmap_padded sb f -> alloc_step [] [] f f.
Proof.
  intros Hp. split; [apply touches_refl| |done|constructor|simpl; lia|done].
  intros z _. rewrite bool_decide_eq_false_2 by apply not_elem_of_nil. by rewrite orb_false_r.
Qed.

Lemma alloc_step_trans l1 l2 W1 W2 f f1 f2 :
  alloc_step l1 W1 f f1 -> alloc_step l2 W2 f1 f2 -> alloc_step (l1 ++ l2) (W1 ++ W2) f f2.
Proof.
  intros [A1 A2 A3 A4 A5 A6] [B1 B2 B3 B4 B5 B6].
  assert (Hold : forall z, z ∈ l2 -> data_zone sb z /\ used f z = false /\ z ∉ l1).
  { intros z Hz. rewrite Forall_forall in B3. destruct (B3 z Hz) as [Hd Hu]. split; [done|].
    rewrite A2 in Hu by done. apply orb_false_iff in Hu as [Hu Hn]. split; [done|].
    by apply bool_decide_eq_false in Hn. }
  split.
  - by eapply touches_trans.
  - intros z Hz. rewrite B2, A2 by done. rewrite <- orb_assoc. f_equal.
    apply eq_true_iff_eq. rewrite orb_true_iff, !bool_decide_eq_true, elem_of_app. done.
  - apply Forall_app. split; [done|]. apply Forall_forall. intros z Hz. destruct (Hold z Hz) as (?&?&?). done.
  - apply NoDup_app. split; [done|]. split; [|done]. intros z H1' H2'. destruct (Hold z H2') as (_&_&Hn). done.
  - rewrite B5, A5, length_app. lia.
  - done.
Qed.

Lemma alloc_step_mono l W W' f f' : W ⊆ W' -> alloc_step l W f f' -> alloc_step l W' f f'.
Proof. intros Hw [A1 A2 A3 A4 A5 A6]. split; try done. by eapply touches_mono. Qed.

(** The bitmap region lies before the inode table and the zones. *)
Lemma in_zone_after z i : data_zone sb z -> in_zone z i -> itab sb + ninodes sb * 32 <= i < N.
Proof.
  intros Hz Hi. destruct (zone_offset_ok sb N G z Hz). unfold in_zone in Hi. lia.
Qed.

Lemma in_zone_inj z1 z2 i : in_zone z1 i -> in_zone z2 i -> z1 = z2.
Proof.
  intros H1 H2. destruct (Z.eq_dec z1 z2) as [|Hne]; [done|].
  destruct (zones_apart sb N G z1 z2 Hne); unfold in_zone in *; lia.
Qed.

(** A zone outside of [W] keeps its bytes. *)
Lemma touches_zone W f f' z i : touches W f f' -> data_zone sb z -> z ∉ W -> in_zone z i -> f' i = f i.
Proof.
  intros Ht Hd Hz Hi. pose proof (in_zone_after z i Hd Hi). apply Ht.
  - right. pose proof (g_inodes _ _ G). lia.
  - intros z' Hz' Hi'. by rewrite (in_zone_inj z z' i Hi Hi') in Hz.
Qed.

Lemma touches_table W f f' z : touches W f f' -> data_zone sb z -> z ∉ W -> table_at sb f' z = table_at sb f z.
Proof.
  intros Ht Hd Hz. unfold table_at. f_equal. apply slice_ext. intros i Hi.
  by eapply touches_zone.
Qed.

(** The inodes keep their bytes. *)
Lemma touches_inode W f f' ino : touches W f f' -> Forall (data_zone sb) W -> 1 <= ino <= ninodes sb ->
  inode_at sb f' ino = inode_at sb f ino.
Proof.
  intros Ht HW Hi. destruct (inode_offset_ok sb N G ino Hi) as (_ & _ & H1 & H2).
  unfold inode_at. f_equal. apply slice_ext. intros i Hi'. apply Ht; [lia|].
  intros z Hz Hin. rewrite Forall_forall in HW. pose proof (in_zone_after z i (HW z Hz) Hin). lia.
Qed.

(** A write into zone [z]. *)
Lemma splice_touches f z off buf : in_zone z off -> off + Z.of_nat (length buf) <= z * zs + zs ->
  touches [z] f (splice f off buf).
Proof.
  intros Ho Hb i _ Hz. apply splice_out. specialize (Hz z ltac:(by apply list_elem_of_singleton)).
  unfold in_zone in *. lia.
Qed.

Lemma used_ext f f' z : (forall i, zmap_off sb <= i < itab sb -> f' i = f i) -> data_zone sb z -> used f' z = used f z.
Proof.
  intros He Hz. unfold zone_used, bit_at. rewrite He; [done|].
  pose proof (layout_order_facts sb N G). pose proof (g_zmap_bits _ _ G). unfold zone_bit, data_zone in *. lia.
Qed.

Lemma nfree_ext f f' : (forall z, data_zone sb z -> used f' z = used f z) -> nfree f' = nfree f.
Proof.
  intros He. apply countb_ext. intros z Hz%elem_of_seqZ. cbn beta. rewrite He; [done|]. unfold data_zone. lia.
Qed.

(** A write outside of the bitmap changes no bit. *)
Lemma alloc_step_write W f f' : zmap_padded sb f -> touches W f f' ->
  (forall i, zmap_off sb <= i < itab sb -> f' i = f i) -> alloc_step [] W f f'.
Proof.
  intros Hp Ht He. split; try done.
  - intros z Hz. rewrite bool_decide_eq_false_2 by apply not_elem_of_nil. rewrite orb_false_r. by apply used_ext.
  - constructor.
  - rewrite (nfree_ext f f'); [cbn; lia|]. intros z Hz. by apply used_ext.
  - intros j Hj. unfold bit_at. rewrite He; [by apply Hp|].
    pose proof (layout_order_facts sb N G). pose proof (g_zones _ _ G). lia.
Qed.

Lemma alloc_step_splice f z off buf : zmap_padded sb f -> data_zone sb z -> in_zone z off ->
  off + Z.of_nat (length buf) <= z * zs + zs -> alloc_step [] [z] f (splice f off buf).
Proof.
  intros Hp Hz Ho Hb. apply alloc_step_write; [done|by apply splice_touches|].
  intros i Hi. apply splice_out. pose proof (in_zone_after z off Hz Ho). pose proof (g_inodes _ _ G). lia.
Qed.

Lemma alloc_zone_step f (Q : option Z -> contents -> Prop) : zmap_padded sb f ->
  (nfree f = 0 -> forall f', alloc_step [] [] f f' -> Q None f') ->
  (forall z f', alloc_step [z] [] f f' -> Q (Some z) f') ->
  triple N f (alloc_zone sb) Q.
Proof.
  intros Hp Hnone Hsome. apply (alloc_zone_ok sb N G); [done|]. intros r f' Hr (Hs & Hu & Hp').
  assert (Ht : touches [] f f') by (intros i Hi _; apply Hs; lia).
  destruct r as [z|]; cbn [first_in] in Hr.
  - destruct Hr as (Hz & Hf & _). apply negb_true_iff in Hf.
    apply Hsome. split; try done.
    + intros z' Hz'. rewrite Hu by done. rewrite (bool_decide_ext _ (z' = z)) by apply list_elem_of_singleton.
      destruct (decide (Some z = Some z')) as [E|Hne]; [injection E as <-; rewrite bool_decide_eq_true_2 by done|].
      * by rewrite orb_true_r.
      * rewrite bool_decide_eq_false_2 by congruence. by rewrite orb_false_r.
    + constructor; [by split|constructor].
    + apply NoDup_singleton.
    + unfold nfree. set (l := seqZ _ _).
      pose proof (countb_update (fun y => negb (used f y))
        (fun y => if decide (y = z) then false else negb (used f y)) l z (NoDup_seqZ _ _)) as E.
      cbn beta in E. rewrite decide_True, Hf in E by done. cbn [negb] in E.
      rewrite (countb_ext (fun y => negb (used f' y)) (fun y => if decide (y = z) then false else negb (used f y))).
      * cbn [length]. specialize (E ltac:(apply elem_of_seqZ; lia)).
        specialize (E ltac:(intros a Ha; by rewrite decide_False)). lia.
      * intros y Hy%elem_of_seqZ. rewrite Hu by (unfold data_zone; lia).
        destruct (decide (y = z)) as [->|]; [by rewrite decide_True|]. by rewrite decide_False by congruence.
  - assert (Hsame : forall z, data_zone sb z -> used f' z = used f z) by (intros z Hz; by rewrite Hu).
    apply Hnone.
    + unfold nfree. apply countb_zero. intros z Hz%elem_of_seqZ. apply Hr. lia.
    + split; try done.
      * intros z Hz. rewrite Hsame by done. rewrite bool_decide_eq_false_2 by apply not_elem_of_nil.
        by rewrite orb_false_r.
      * constructor.
      * rewrite (nfree_ext f f') by done. cbn. lia.
Qed.

(** ** Zone lists in tables *)

Definition per : nat := Z.to_nat (zs / 2).

Lemma per_eq : Z.of_nat per = zs / 2 /\ (512 <= per)%nat.
Proof. destruct (zsize_cases sb N G) as (p & E & Hp). unfold per. rewrite E. lia. Qed.

Lemma resize_length k l : length (resize k l) = k.
Proof. unfold resize. rewrite length_app, length_take, length_replicate. lia. Qed.

Lemma resize_small k l : (length l <= k)%nat -> resize k l = l ++ replicate (k - length l) 0.
Proof. intros Hl. unfold resize. by rewrite take_ge. Qed.

Lemma until_zero_app l r : Forall (fun z => z <> 0) l -> until_zero (l ++ r) = l ++ until_zero r.
Proof.
  induction 1 as [|z l Hz _ IH]; [done|]. cbn [app until_zero].
  destruct (Z.eqb_spec z 0); [done|]. by rewrite IH.
Qed.

Lemma until_zero_resize k l : Forall (fun z => z <> 0) l -> (length l <= k)%nat -> until_zero (resize k l) = l.
Proof.
  intros Hz Hl. rewrite resize_small, until_zero_app by done.
  destruct (k - length l)%nat; cbn; by rewrite app_nil_r.
Qed.

Lemma resize_lookup k l i : (i < length l <= k)%nat -> resize k l !! i = l !! i.
Proof. intros Hi. rewrite resize_small by lia. by rewrite lookup_app_l by lia. Qed.

Lemma resize_lookup_end k l : (length l < k)%nat -> resize k l !! length l = Some 0.
Proof.
  intros Hl. rewrite resize_small by lia. rewrite lookup_app_r by lia.
  rewrite lookup_replicate_2; [done|lia].
Qed.

Lemma resize_insert k l z : (length l < k)%nat -> <[length l := z]> (resize k l) = resize k (l ++ [z]).
Proof.
  intros Hl. rewrite !resize_small by (rewrite ?length_app; cbn; lia).
  rewrite insert_app_r_alt, Nat.sub_diag by lia. rewrite <- app_assoc. f_equal.
  rewrite length_app. cbn [length]. replace (k - length l)%nat with (S (k - (length l + 1)))%nat by lia. done.
Qed.

Lemma resize_fits k l : Forall (fits 16) l -> Forall (fits 16) (resize k l).
Proof.
  intros Hl. unfold resize. apply Forall_app. split; [by apply Forall_take|].
  apply Forall_replicate. unfold fits. lia.
Qed.

Lemma data_zone_fits l : Forall (data_zone sb) l -> Forall (fits 16) l.
Proof.
  intros Hl. eapply Forall_impl; [exact Hl|]. intros z Hz. pose proof (first_positive sb N G). pose proof (g_zones _ _ G).
  unfold data_zone, fits in *. lia.
Qed.

Lemma data_zone_nonzero l : Forall (data_zone sb) l -> Forall (fun z => z <> 0) l.
Proof.
  intros Hl. eapply Forall_impl; [exact Hl|]. intros z Hz. pose proof (first_positive sb N G). unfold data_zone in *. lia.
Qed.

(** The table in zone [z] holds the list [l]. *)
Definition table_of (f : contents) (z : Z) (l : list Z) : Prop := table_at sb f z = resize per l.

Lemma zone_start z : in_zone z (z * zs).
Proof. pose proof (layout_order_facts sb N G). unfold in_zone. lia. Qed.

Lemma write_table_step f z l (Q : unit -> contents -> Prop) :
  zmap_padded sb f -> data_zone sb z -> Forall (data_zone sb) l ->
  (forall f', alloc_step [] [z] f f' -> table_of f' z l -> Q tt f') ->
  triple N f (write_zone_table sb z (resize per l)) Q.
Proof.
  intros Hp Hz Hl HQ. destruct per_eq as [Hper _].
  pose proof (layout_order_facts sb N G) as (Hzs & Hmod & _).
  assert (Hlen : Z.of_nat (length (u16s_bytes (resize per l))) = zs).
  { rewrite u16s_bytes_length, resize_length. lia. }
  apply (write_zone_table_ok sb N G); [done|by rewrite resize_length|]. apply HQ.
  - apply alloc_step_splice; auto using zone_start. lia.
  - unfold table_of, table_at. rewrite slice_splice_eq by lia.
    apply as_u16s_of_bytes, resize_fits. by apply data_zone_fits.
Qed.

(** Zones that belong to someone: distinct and in use. *)
Definition owned (f : contents) (l : list Z) : Prop :=
  NoDup l /\ Forall (fun z => data_zone sb z /\ used f z = true) l.

Lemma owned_zones f l : owned f l -> Forall (data_zone sb) l.
Proof. intros [_ Hl]. eapply Forall_impl; [exact Hl|]. by intros z [? _]. Qed.

Lemma owned_step l new W f f' : alloc_step new W f f' -> owned f l -> owned f' (l ++ new).
Proof.
  intros [A1 A2 A3 A4 A5 A6] [Hnd Hl]. rewrite Forall_forall in Hl, A3. split.
  - apply NoDup_app. split; [done|]. split; [|done]. intros z H1 H2.
    destruct (Hl z H1) as [_ E1]. destruct (A3 z H2) as [_ E2]. congruence.
  - apply Forall_forall. intros z Hz. apply elem_of_app in Hz as [Hz|Hz].
    + destruct (Hl z Hz) as [Hd Hu]. split; [done|]. rewrite A2, Hu by done. done.
    + destruct (A3 z Hz) as [Hd Hu]. split; [done|]. rewrite A2 by done.
      rewrite bool_decide_eq_true_2 by done. apply orb_true_r.
Qed.

(** The new zones are none of those that were owned. *)
Lemma step_fresh l new W f f' z : alloc_step new W f f' -> owned f l -> z ∈ l -> z ∉ new.
Proof.
  intros Hs [_ Hl] Hz Hn. pose proof (as_fresh _ _ _ _ Hs) as Hf. rewrite Forall_forall in Hl, Hf.
  destruct (Hl z Hz) as [_ E1]. destruct (Hf z Hn) as [_ E2]. congruence.
Qed.

Lemma table_of_step l W f f' z t : alloc_step l W f f' -> data_zone sb z -> z ∉ W ->
  table_of f z t -> table_of f' z t.
Proof. intros Hs Hd Hz Ht. unfold table_of. by rewrite (touches_table W f f') by (try done; apply Hs). Qed.

Lemma tables_step l W f f' zl gs : alloc_step l W f f' -> Forall (data_zone sb) zl ->
  (forall z, z ∈ zl -> z ∉ W) -> Forall2 (table_of f) zl gs -> Forall2 (table_of f') zl gs.
Proof.
  intros Hs Hd HW Ht. induction Ht as [|z t zl gs Ht _ IH]; [constructor|].
  apply Forall_cons in Hd as [Hd Hds]. constructor.
  - eapply table_of_step; [exact Hs|done| |done]. apply HW. by left.
  - apply IH; [done|]. intros z' Hz'. apply HW. by right.
Qed.

(** ** Writing the second-level tables *)

Lemma write_groups_ok gs i inds f (Q : list Z * bool -> contents -> Prop) :
  zmap_padded sb f -> owned f inds -> Forall (Forall (data_zone sb)) gs ->
  (i <= length inds)%nat -> (length inds <= i + length gs <= per)%nat ->
  Z.of_nat (i + length gs - length inds) <= nfree f ->
  (forall new f', alloc_step new (drop i (inds ++ new)) f f' ->
     length (inds ++ new) = (i + length gs)%nat ->
     Forall2 (table_of f') (drop i (inds ++ new)) gs ->
     Q (resize per (inds ++ new), false) f') ->
  triple N f (write_groups sb per gs i (resize per inds)) Q.
Proof.
  revert i inds f Q. induction gs as [|g gs IH]; intros i inds f Q Hp Ho Hg Hi Hl Hn HQ.
  { cbn [write_groups length] in *. apply triple_ret.
    specialize (HQ [] f). rewrite app_nil_r in HQ. rewrite drop_ge in HQ by lia.
    apply HQ; [by apply alloc_step_refl|lia|constructor]. }
  cbn [write_groups length] in *. apply Forall_cons in Hg as [Hg Hgs].
  destruct (Nat.leb_spec per i); [lia|].
  destruct (decide (i < length inds)%nat) as [Hlt|Hge].
  - destruct (lookup_lt_is_Some_2 inds i Hlt) as [z Hz].
    assert (Hzin : z ∈ inds) by (by eapply list_elem_of_lookup_2).
    assert (Hdz : data_zone sb z) by (by eapply Forall_forall in Hzin; [|exact (owned_zones _ _ Ho)]).
    assert (Hz0 : z <> 0) by (pose proof (first_positive sb N G); unfold data_zone in Hdz; lia).
    apply triple_seq. eapply triple_pure; [rewrite resize_lookup, Hz by lia; done|]. cbn beta.
    apply triple_seq. apply Z.eqb_neq in Hz0. rewrite Hz0. cbn [negb]. apply triple_ret.
    apply triple_seq, write_table_step; [done|done|done|]. intros f1 Hs1 Ht1.
    apply IH; [apply Hs1| |done|lia|lia| |].
    + rewrite <- (app_nil_r inds). by eapply owned_step.
    + pose proof (as_free _ _ _ _ Hs1) as E. cbn in E. lia.
    + intros new f2 Hs2 Hlen Hall. apply HQ.
      * rewrite (drop_S (inds ++ new) z i) by (by rewrite lookup_app_l by lia).
        by eapply (alloc_step_trans [] new [z]).
      * lia.
      * rewrite (drop_S (inds ++ new) z i) by (by rewrite lookup_app_l by lia). constructor; [|done].
        eapply table_of_step; [exact Hs2|done| |done].
        intros Hin. assert (Ho2 : owned f2 (inds ++ new)).
        { eapply owned_step; [exact Hs2|]. rewrite <- (app_nil_r inds). by eapply owned_step. }
        destruct Ho2 as [Hnd _]. apply list_elem_of_lookup in Hin as [k Hk]. rewrite lookup_drop in Hk.
        assert (i = S i + k)%nat; [|lia]. eapply NoDup_lookup; [exact Hnd| |exact Hk].
        by rewrite lookup_app_l by lia.
  - assert (i = length inds) as -> by lia.
    apply triple_seq. eapply triple_pure; [rewrite resize_lookup_end by lia; done|]. cbn beta.
    apply triple_seq. cbn [Z.eqb negb]. apply alloc_zone_step; [done|lia|].
    intros z f1 Hs1. pose proof (as_fresh _ _ _ _ Hs1) as Hfr. apply Forall_cons in Hfr as [[Hdz _] _].
    apply triple_seq, write_table_step; [apply Hs1|done|done|]. intros f2 Hs2 Ht2.
    rewrite resize_insert by lia.
    assert (Ho2 : owned f2 (inds ++ [z])).
    { rewrite <- (app_nil_r (inds ++ [z])). eapply owned_step; [exact Hs2|]. by eapply owned_step. }
    apply IH; [apply Hs2|done|done|rewrite length_app; cbn; lia|rewrite length_app; cbn; lia| |].
    + pose proof (as_free _ _ _ _ Hs1) as E1. pose proof (as_free _ _ _ _ Hs2) as E2.
      cbn [length] in *. rewrite length_app. cbn. lia.
    + intros new f3 Hs3 Hlen Hall. rewrite <- app_assoc in *. cbn [app] in *.
      assert (Hd : drop (length inds) (inds ++ z :: new) = z :: new) by (by rewrite drop_app_length).
      assert (Hd' : drop (S (length inds)) (inds ++ z :: new) = new).
      { rewrite (drop_S _ z) in Hd by (by rewrite list_lookup_middle). congruence. }
      rewrite Hd' in *. apply HQ; rewrite ?Hd.
      * pose proof (alloc_step_trans _ _ _ _ _ _ _ (alloc_step_trans _ _ _ _ _ _ _ Hs1 Hs2) Hs3) as Hs. done.
      * lia.
      * constructor; [|done]. eapply table_of_step; [exact Hs3|done| |done].
        intros Hin. pose proof (step_fresh (inds ++ [z]) _ _ _ _ z Hs3 Ho2) as Hf.
        apply Hf; [|done]. apply elem_of_app. right. by apply list_elem_of_singleton.
Qed.

(** ** The zones of a file *)

(** The zones of the tables, and the number of them a file of [n] zones has. *)
Definition metas (z7 z8 : Z) (inds : list Z) : list Z :=
  (if z7 =? 0 then [] else [z7]) ++ (if z8 =? 0 then [] else [z8]) ++ inds.

Definition groups (zones : list Z) : list (list Z) := chunks per (drop (7 + per) zones).

Definition nmeta (n : nat) : nat :=
  ((if n <=? 7 then 0 else 1) +
   (if n <=? 7 + per then 0 else 1 + (n - (7 + per) + (per - 1)) / per))%nat.

(** The largest number of zones of a file. *)
Definition max_zones : nat := 7 + per + per * per.

Record layout (f : contents) (inode : DiskInode) (zones : list Z) (z7 z8 : Z) (inds : list Z) : Prop := {
  ly_zone : i_zone inode = resize 7 zones ++ [z7; z8];
  ly_single : if (length zones <=? 7)%nat then z7 = 0
              else z7 <> 0 /\ table_of f z7 (take per (drop 7 zones));
  ly_double : if (length zones <=? 7 + per)%nat then z8 = 0 /\ inds = []
              else z8 <> 0 /\ table_of f z8 inds /\ Forall2 (table_of f) inds (groups zones);
  ly_cap : (length zones <= max_zones)%nat;
  ly_owned : owned f (zones ++ metas z7 z8 inds)
}.

Lemma groups_length zones : (7 + per <= length zones)%nat ->
  length (groups zones) = ((length zones - (7 + per) + (per - 1)) / per)%nat.
Proof.
  intros Hl. unfold groups. destruct per_eq as [_ Hp].
  destruct (chunks_ok per (drop (7 + per) zones)) as (_ & E & _); [lia|]. by rewrite E, length_drop.
Qed.

Lemma groups_cap zones : (length zones <= max_zones)%nat -> (length (groups zones) <= per)%nat.
Proof.
  intros Hl. destruct per_eq as [_ Hp].
  destruct (chunks_ok per (drop (7 + per) zones)) as (_ & E & _); [lia|]. unfold groups.
  rewrite E, length_drop. unfold max_zones in Hl.
  apply Nat.lt_succ_r, Nat.Div0.div_lt_upper_bound; nia.
Qed.

Lemma groups_zones zones : Forall (data_zone sb) zones -> Forall (Forall (data_zone sb)) (groups zones).
Proof.
  intros Hz. destruct per_eq as [_ Hp].
  destruct (chunks_ok per (drop (7 + per) zones)) as (E & _ & _); [lia|]. unfold groups.
  assert (Hd : Forall (data_zone sb) (drop (7 + per) zones)) by (by apply Forall_drop).
  rewrite <- E in Hd. clear E. induction (chunks per (drop (7 + per) zones)) as [|c cs IH]; [constructor|].
  cbn [concat] in Hd. apply Forall_app in Hd as [? ?]. constructor; auto.
Qed.

Lemma metas_length f inode zones z7 z8 inds : layout f inode zones z7 z8 inds ->
  length (metas z7 z8 inds) = nmeta (length zones).
Proof.
  intros [L1 L2 L3 L4 L5]. unfold metas, nmeta. rewrite !length_app.
  destruct (Nat.leb_spec (length zones) 7) as [H7|H7].
  - subst z7. destruct (Nat.leb_spec (length zones) (7 + per)) as [Hd|Hd]; [|lia].
    destruct L3 as [-> ->]. done.
  - destruct L2 as [Hz7 _]. apply Z.eqb_neq in Hz7. rewrite Hz7. cbn [length].
    destruct (Nat.leb_spec (length zones) (7 + per)) as [Hd|Hd].
    + destruct L3 as [-> ->]. done.
    + destruct L3 as (Hz8 & _ & Hf). apply Z.eqb_neq in Hz8. rewrite Hz8. cbn [length].
      rewrite (Forall2_length _ _ _ Hf), groups_length by lia. lia.
Qed.

Lemma zone_lookup (d : list Z) (z7 z8 : Z) : length d = 7%nat ->
  (d ++ [z7; z8]) !! 7%nat = Some z7 /\ (d ++ [z7; z8]) !! 8%nat = Some z8 /\
  (forall z, <[7%nat := z]> (d ++ [z7; z8]) = d ++ [z; z8]) /\
  (forall z, <[8%nat := z]> (d ++ [z7; z8]) = d ++ [z7; z]) /\
  take 7 (d ++ [z7; z8]) = d /\ drop 7 (d ++ [z7; z8]) = [z7; z8].
Proof. intros Hd. do 8 (destruct d as [|? d]; try done). Qed.

(** The zone list that [data_zones] finds. *)
Lemma data_zones_ok f inode zones z7 z8 inds (Q : list Z -> contents -> Prop) :
  layout f inode zones z7 z8 inds -> Q zones f -> triple N f (data_zones sb inode) Q.
Proof.
  intros [L1 L2 L3 L4 L5] HQ. pose proof (owned_zones _ _ L5) as Hz.
  apply Forall_app in Hz as [Hz Hm]. pose proof (data_zone_nonzero _ Hz) as Hnz. destruct per_eq as [_ Hper].
  destruct (zone_lookup (resize 7 zones) z7 z8 (resize_length _ _)) as (E7 & E8 & _ & _ & E1 & _).
  unfold data_zones. rewrite L1. unfold MINIX_DIRECT_ZONES. rewrite E1, E7, E8. cbn [expect].
  assert (Ed : until_zero (resize 7 zones) = take 7 zones).
  { replace (resize 7 zones) with (resize 7 (take 7 zones)).
    - apply until_zero_resize; [by apply Forall_take|]. rewrite length_take. lia.
    - unfold resize. rewrite take_take, length_take.
      by replace (7 - 7 `min` length zones)%nat with (7 - length zones)%nat by lia. }
  rewrite Ed, length_take. destruct (Nat.ltb_spec (7 `min` length zones) 7) as [Hlt|Hge].
  { apply triple_ret. by rewrite take_ge by lia. }
  pure_step (@eq_refl _ (Ret z7)). apply triple_seq.
  assert (Hsingle : triple N f (zone_table sb z7) (fun r f' => r = take per (drop 7 zones) /\ f' = f)).
  { unfold zone_table. destruct (Nat.leb_spec (length zones) 7) as [H7|H7].
    - subst z7. apply triple_ret. split; [|done]. by rewrite (drop_ge zones), take_nil by lia.
    - destruct L2 as [Hz7 Ht]. apply Z.eqb_neq in Hz7. rewrite Hz7.
      apply triple_seq, (read_zone_table_ok sb N G).
      { unfold metas in Hm. rewrite Hz7 in Hm. apply Forall_app in Hm as [Hm _].
        by apply Forall_cons in Hm as [? _]. }
      apply triple_ret. split; [|done]. rewrite Ht. apply until_zero_resize.
      + by apply Forall_take, Forall_drop.
      + rewrite length_take. lia. }
  eapply triple_mono; [exact Hsingle|]. intros ? ? [-> ->].
  pure_step (@eq_refl _ (Ret z8)). apply triple_seq.
  destruct (Nat.leb_spec (length zones) (7 + per)) as [Hd|Hd].
  - destruct L3 as [-> ->]. unfold zone_table. cbn [Z.eqb]. apply triple_ret. cbn [zone_tables].
    apply triple_ret. rewrite (take_ge (drop 7 zones)) by (rewrite length_drop; lia). by rewrite take_drop.
  - destruct L3 as (Hz8 & Ht8 & Hf). unfold metas in Hm. apply Forall_app in Hm as [_ Hm].
    apply Z.eqb_neq in Hz8. rewrite Hz8 in Hm. cbn [app] in Hm. apply Forall_cons in Hm as [Hdz8 Hinds].
    unfold zone_table at 1. rewrite Hz8. apply triple_seq, (read_zone_table_ok sb N G); [done|].
    rewrite Ht8, until_zero_resize; [|by apply data_zone_nonzero|].
    2: { rewrite (Forall2_length _ _ _ Hf). by apply groups_cap. }
    apply triple_ret.
    assert (Hg : zones = (take 7 zones ++ take per (drop 7 zones)) ++ concat (groups zones)).
    { unfold groups. destruct (chunks_ok per (drop (7 + per) zones)) as (E & _ & _); [lia|].
      rewrite E, <- app_assoc, <- drop_drop, take_drop, take_drop. done. }
    rewrite Hg in HQ. revert HQ. generalize (take 7 zones ++ take per (drop 7 zones)).
    assert (Hgl : Forall (fun g => Forall (fun z => z <> 0) g /\ (length g <= per)%nat) (groups zones)).
    { destruct (chunks_ok per (drop (7 + per) zones)) as (_ & _ & Hc); [lia|].
      pose proof (groups_zones zones Hz) as Hgz. fold (groups zones) in Hc.
      rewrite Forall_forall in Hc, Hgz |- *. intros g Hin. split; [by apply data_zone_nonzero, Hgz|].
      specialize (Hc g Hin). lia. }
    clear -Hf Hinds Hgl G. induction Hf as [|ind g inds gs Ht Hf IH]; intros acc HQ.
    + cbn [zone_tables concat] in *. apply triple_ret. by rewrite app_nil_r in HQ.
    + apply Forall_cons in Hinds as [Hd Hinds]. apply Forall_cons in Hgl as [[Hg0 Hg1] Hgl].
      cbn [zone_tables]. apply triple_seq. unfold zone_table.
      assert (Hz : (ind =? 0) = false).
      { apply Z.eqb_neq. pose proof (first_positive sb N G). unfold data_zone in Hd. lia. }
      rewrite Hz. apply triple_seq, (read_zone_table_ok sb N G); [done|].
      apply triple_ret. rewrite Ht, until_zero_resize by done.
      apply IH; [done|done|]. cbn [concat] in HQ. by rewrite <- app_assoc.
Qed.

(** ** Writing the zone list back *)

Definition with_zones (i : DiskInode) (l : list Z) : DiskInode :=
  mkInode (i_mode i) (i_uid i) (i_size i) (i_mtime i) (i_gid i) (i_nlinks i) l.

Lemma nth_resize (zones : list Z) (k : nat) : (fun i => nth i zones 0) <$> seq 0 k = resize k zones.
Proof.
  apply list_eq. intros i. rewrite list_lookup_fmap.
  destruct (decide (i < k)%nat) as [Hi|Hi].
  - rewrite lookup_seq_lt by done. cbn [fmap option_fmap option_map]. unfold resize. symmetry.
    destruct (decide (i < length zones)%nat) as [Hl|Hl].
    + rewrite lookup_app_l by (rewrite length_take; lia). rewrite lookup_take_lt by done.
      destruct (lookup_lt_is_Some_2 zones i Hl) as [z Hz]. rewrite Hz. by rewrite (nth_lookup_Some _ _ _ _ Hz).
    + rewrite lookup_app_r by (rewrite length_take; lia). rewrite length_take.
      rewrite lookup_replicate_2 by lia. by rewrite nth_overflow by lia.
  - rewrite (lookup_ge_None_2 (seq 0 k)) by (rewrite length_seq; lia).
    by rewrite lookup_ge_None_2 by (rewrite resize_length; lia).
Qed.

Lemma set_direct_eq i (d : list Z) (z7 z8 : Z) zones : length d = 7%nat -> i_zone i = d ++ [z7; z8] ->
  set_direct i zones = with_zones i (resize 7 zones ++ [z7; z8]).
Proof.
  intros Hd E. unfold set_direct, with_zones, MINIX_DIRECT_ZONES. rewrite nth_resize, E.
  by destruct (zone_lookup d z7 z8 Hd) as (_ & _ & _ & _ & _ & ->).
Qed.

Lemma write_single_ok f (i0 : DiskInode) (d : list Z) (z7 z8 : Z) zones (Q : DiskInode * bool -> contents -> Prop) :
  length d = 7%nat -> zmap_padded sb f -> Forall (data_zone sb) zones ->
  (z7 = 0 \/ data_zone sb z7) -> ((7 < length zones)%nat -> z7 = 0 -> 0 < nfree f) ->
  ((length zones <= 7)%nat -> Q (with_zones i0 (d ++ [0; z8]), false) f) ->
  (forall z7' l f', (7 < length zones)%nat -> data_zone sb z7' ->
     l = (if z7 =? 0 then [z7'] else []) -> (z7 <> 0 -> z7' = z7) -> alloc_step l [z7'] f f' ->
     table_of f' z7' (take per (drop 7 zones)) -> Q (with_zones i0 (d ++ [z7'; z8]), false) f') ->
  triple N f (write_single sb per (with_zones i0 (d ++ [z7; z8])) zones) Q.
Proof.
  intros Hd Hp Hz Hz7 Hn HQ1 HQ2. destruct (zone_lookup d z7 z8 Hd) as (E7 & _ & I7 & _).
  unfold write_single, MINIX_DIRECT_ZONES, set_zone. cbn [i_zone with_zones]. rewrite I7.
  destruct (Nat.leb_spec (length zones) 7) as [Hl|Hl]; [by apply triple_ret, HQ1|].
  rewrite skipn_firstn_comm. replace (7 + per - 7)%nat with per by lia.
  rewrite E7. pure_step (@eq_refl _ (Ret z7)). apply triple_seq.
  assert (Hgo : forall z l f1, data_zone sb z -> l = (if z7 =? 0 then [z] else []) -> (z7 <> 0 -> z = z7) ->
    alloc_step l [] f f1 ->
    triple N f1 (_ ← write_zone_table sb z (resize per (take per (drop 7 zones)));
       mret (mkInode (i_mode i0) (i_uid i0) (i_size i0) (i_mtime i0) (i_gid i0) (i_nlinks i0)
               (<[7%nat := z]> (d ++ [z7; z8])), false)) Q).
  { intros z l f1 Hdz El Ez Hs. apply triple_seq, write_table_step; [apply Hs|done|by apply Forall_take, Forall_drop|].
    intros f2 Hs2 Ht. apply triple_ret. rewrite I7. eapply (HQ2 z l); try done.
    rewrite <- (app_nil_r l). by eapply (alloc_step_trans l [] [] [z]). }
  destruct (Z.eqb_spec z7 0) as [E|E].
  - apply alloc_zone_step; [done|intros H0'; specialize (Hn ltac:(lia) E); lia|].
    intros z f1 Hs. pose proof (as_fresh _ _ _ _ Hs) as Hf. apply Forall_cons in Hf as [[Hdz _] _].
    by eapply Hgo.
  - destruct Hz7 as [|Hz7]; [done|]. apply triple_ret. eapply Hgo; try done. by apply alloc_step_refl.
Qed.

Lemma write_double_ok f (i0 : DiskInode) (d : list Z) (z7 z8 : Z) inds zones (Q : DiskInode -> contents -> Prop) :
  length d = 7%nat -> zmap_padded sb f -> Forall (data_zone sb) zones -> (length zones <= max_zones)%nat ->
  owned f ((if z8 =? 0 then [] else [z8]) ++ inds) -> (z8 = 0 -> inds = []) ->
  (z8 <> 0 -> table_of f z8 inds) ->
  (length inds <= length (groups zones))%nat ->
  ((7 + per < length zones)%nat ->
     (if z8 =? 0 then 1 else 0) + Z.of_nat (length (groups zones) - length inds) <= nfree f) ->
  ((length zones <= 7 + per)%nat -> Q (with_zones i0 (d ++ [z7; 0])) f) ->
  (forall z8' new f', (7 + per < length zones)%nat -> z8' <> 0 -> (z8 <> 0 -> z8' = z8) ->
     alloc_step ((if z8 =? 0 then [z8'] else []) ++ new) (z8' :: inds ++ new) f f' ->
     table_of f' z8' (inds ++ new) -> Forall2 (table_of f') (inds ++ new) (groups zones) ->
     Q (with_zones i0 (d ++ [z7; z8'])) f') ->
  triple N f (write_double sb per (with_zones i0 (d ++ [z7; z8])) zones) Q.
Proof.
  intros Hd Hp Hz Hcap Ho Hi0 Ht8 Hl Hn HQ1 HQ2. destruct (zone_lookup d z7 z8 Hd) as (_ & E8 & _ & I8 & _).
  unfold write_double, MINIX_DIRECT_ZONES, set_zone. cbn [i_zone with_zones Nat.add]. rewrite I8.
  destruct (Nat.leb_spec (length zones) (S (S (S (S (S (S (S per)))))))) as [Hs|Hs]; [by apply triple_ret, HQ1|].
  rewrite E8. pure_step (@eq_refl _ (Ret z8)). apply triple_seq.
  assert (Hgo : forall z f1, data_zone sb z -> (z8 <> 0 -> z = z8) ->
    alloc_step (if z8 =? 0 then [z] else []) [z] f f1 -> table_of f1 z inds ->
    triple N f1 (dbl ← read_zone_table sb z;
      '(dbl, full) ← write_groups sb per (groups zones) 0 dbl;
      if full : bool then mret (with_zones i0 (d ++ [z7; z]))
      else _ ← write_zone_table sb z dbl; mret (with_zones i0 (d ++ [z7; z]))) Q).
  { intros z f1 Hdz Ez Hs1 Ht.
    assert (Ho1 : owned f1 (z :: inds)).
    { pose proof (owned_step _ _ _ _ _ Hs1 Ho) as [Ho1 Ho2]. destruct (Z.eqb_spec z8 0) as [E|E].
      - rewrite (Hi0 E) in *. done.
      - rewrite app_nil_r in *. rewrite (Ez E). done. }
    assert (Hz0 : z <> 0) by (pose proof (first_positive sb N G); unfold data_zone in Hdz; lia).
    pose proof (as_free _ _ _ _ Hs1) as Ef. specialize (Hn Hs).
    assert (Hoi : owned f1 inds).
    { destruct Ho1 as [H1 H2]. apply NoDup_cons in H1 as [_ H1]. by apply Forall_cons in H2 as [_ H2]. }
    apply triple_seq, (read_zone_table_ok sb N G); [done|]. rewrite Ht.
    apply triple_seq, write_groups_ok; [apply Hs1|done|by apply groups_zones|lia| | |].
    { split; [lia|]. by apply groups_cap. }
    { destruct (z8 =? 0); cbn [length] in Ef; lia. }
    intros new f2 Hs2 Hlen Hall. rewrite drop_0 in *.
    apply triple_seq, write_table_step; [apply Hs2|done| |].
    { apply (owned_zones f2). eapply owned_step; [exact Hs2|done]. }
    intros f3 Hs3 Ht3. apply triple_ret. apply (HQ2 z new f3); try done.
    - pose proof (alloc_step_trans _ _ _ _ _ _ _ (alloc_step_trans _ _ _ _ _ _ _ Hs1 Hs2) Hs3) as Hs'.
      rewrite app_nil_r in Hs'. eapply alloc_step_mono; [|exact Hs'].
      intros x. rewrite !elem_of_app, !elem_of_cons, !elem_of_app. set_solver.
    - pose proof (owned_step _ _ _ _ _ Hs2 Ho1) as [Hnd _]. cbn [app] in Hnd. apply NoDup_cons in Hnd as [Hnz _].
      eapply tables_step; [exact Hs3| | |exact Hall].
      + apply (owned_zones f2). eapply owned_step; [exact Hs2|done].
      + intros x Hx ->%list_elem_of_singleton. done. }
  destruct (Z.eqb_spec z8 0) as [E|E].
  - apply triple_seq, alloc_zone_step; [done|specialize (Hn Hs); lia|].
    intros z f1 Hs1. pose proof (as_fresh _ _ _ _ Hs1) as Hf. apply Forall_cons in Hf as [[Hdz _] _].
    apply triple_seq. replace (replicate per 0) with (resize per []).
    2: { unfold resize. rewrite take_nil, Nat.sub_0_r. done. }
    apply write_table_step; [apply Hs1|done|constructor|]. intros f2 Hs2 Ht2. apply triple_ret. cbn beta iota.
    rewrite I8. apply Hgo; [done|done| |by rewrite (Hi0 E)].
    apply (alloc_step_trans _ _ _ _ _ _ _ Hs1 Hs2).
  - apply triple_ret. cbn beta iota. rewrite I8. apply Hgo; [|done| |by apply Ht8].
    + pose proof (owned_zones _ _ Ho) as Hz'. by apply Forall_cons in Hz' as [? _].
    + eapply alloc_step_mono; [|by apply alloc_step_refl]. apply list_subseteq_nil.
Qed.

Lemma owned_sub f l l' : l' ⊆ l -> NoDup l' -> owned f l -> owned f l'.
Proof.
  intros Hs Hnd [_ Hl]. split; [done|]. rewrite Forall_forall in Hl |- *. intros z Hz. by apply Hl, Hs.
Qed.

Lemma owned_app_inv f l1 l2 : owned f (l1 ++ l2) -> owned f l1 /\ owned f l2 /\ forall z, z ∈ l1 -> z ∉ l2.
Proof.
  intros [Hnd Hl]. apply NoDup_app in Hnd as (H1 & H2 & H3). apply Forall_app in Hl as [Ha Hb]. by repeat split.
Qed.

Lemma owned_perm f l l' : l ≡ₚ l' -> owned f l -> owned f l'.
Proof. intros Hp [H1 H2]. split; [by rewrite <- Hp|by rewrite <- Hp]. Qed.

Lemma metas_in z7 z8 inds : (z7 <> 0 -> z7 ∈ metas z7 z8 inds) /\ (z8 <> 0 -> z8 ∈ metas z7 z8 inds) /\
  (forall z, z ∈ inds -> z ∈ metas z7 z8 inds).
Proof.
  unfold metas. split; [|split].
  - intros Hz. apply Z.eqb_neq in Hz. rewrite Hz. by left.
  - intros Hz. apply Z.eqb_neq in Hz. rewrite Hz, !elem_of_app. right. left. by left.
  - intros z Hz. rewrite !elem_of_app. tauto.
Qed.

(** A file whose tables are not written keeps its zone list. *)
Lemma layout_step l W f f' inode zones z7 z8 inds : alloc_step l W f f' ->
  (forall z, z ∈ metas z7 z8 inds -> z ∉ W) ->
  layout f inode zones z7 z8 inds -> layout f' inode zones z7 z8 inds.
Proof.
  intros Hs HW [A1 A2 A3 A4 A5]. destruct (owned_app_inv _ _ _ A5) as (_ & Hom & _).
  pose proof (owned_zones _ _ Hom) as Hm. rewrite Forall_forall in Hm.
  destruct (metas_in z7 z8 inds) as (I7 & I8 & Ii). split; try done.
  - destruct (Nat.leb_spec (length zones) 7); [done|]. destruct A2 as [Hz7 A2]. split; [done|].
    eapply table_of_step; [exact Hs|by apply Hm, I7|by apply HW, I7|done].
  - destruct (Nat.leb_spec (length zones) (7 + per)); [done|]. destruct A3 as (Hz8 & A31 & A32). split; [done|]. split.
    + eapply table_of_step; [exact Hs|by apply Hm, I8|by apply HW, I8|done].
    + eapply tables_step; [exact Hs| | |done].
      * apply Forall_forall. intros z Hz. by apply Hm, Ii.
      * intros z Hz. by apply HW, Ii.
  - eapply owned_sub; [|apply A5|eapply owned_step; [exact Hs|exact A5]]. intros x. rewrite !elem_of_app. tauto.
Qed.

Lemma metas_step z7 z8 z8' inds new : (z8 <> 0 -> z8' = z8) -> (z8 = 0 -> inds = []) -> z8' <> 0 ->
  metas z7 z8' (inds ++ new) ≡ₚ metas z7 z8 inds ++ (if z8 =? 0 then [z8'] else []) ++ new.
Proof.
  intros H1 H2 H3. unfold metas. apply Z.eqb_neq in H3. rewrite H3.
  destruct (Z.eqb_spec z8 0) as [E|E].
  - rewrite (H2 E). cbn [app]. rewrite !app_nil_r. done.
  - rewrite (H1 E). cbn [app]. rewrite <- app_assoc. done.
Qed.

(** [write_double] when the inode and the first-level table are done. *)
Lemma write_rest_ok f inode zones z7 z8 inds (Q : DiskInode -> contents -> Prop) :
  zmap_padded sb f -> owned f (zones ++ metas z7 z8 inds) -> (length zones <= max_zones)%nat ->
  (if (length zones <=? 7)%nat then z7 = 0 else z7 <> 0 /\ table_of f z7 (take per (drop 7 zones))) ->
  (z8 = 0 -> inds = []) -> (z8 <> 0 -> table_of f z8 inds) ->
  (length inds <= length (groups zones))%nat -> ((length zones <= 7 + per)%nat -> z8 = 0) ->
  ((7 + per < length zones)%nat ->
     (if z8 =? 0 then 1 else 0) + Z.of_nat (length (groups zones) - length inds) <= nfree f) ->
  (forall z8' inds' l f', layout f' (with_zones inode (resize 7 zones ++ [z7; z8'])) zones z7 z8' inds' ->
     alloc_step l (metas z7 z8' inds') f f' -> metas z7 z8' inds' ≡ₚ metas z7 z8 inds ++ l ->
     Q (with_zones inode (resize 7 zones ++ [z7; z8'])) f') ->
  triple N f (write_double sb per (with_zones inode (resize 7 zones ++ [z7; z8])) zones) Q.
Proof.
  intros Hp Ho Hcap H7 Hi8 Ht8 Hl H8 Hn HQ.
  destruct (owned_app_inv _ _ _ Ho) as (Hoz & Hom & Hdis). pose proof (owned_zones _ _ Hoz) as Hz.
  unfold metas in Hom. destruct (owned_app_inv _ _ _ Hom) as (_ & Ho8 & _).
  apply (write_double_ok f inode (resize 7 zones) z7 z8 inds); try done; [apply resize_length| |].
  - intros Hd. pose proof (H8 Hd) as E8. subst z8. apply (HQ 0 inds []).
    + split; try done. destruct (Nat.leb_spec (length zones) (7 + per)); [|lia]. by split; [|apply Hi8].
    + eapply alloc_step_mono; [apply list_subseteq_nil|]. by apply alloc_step_refl.
    + by rewrite app_nil_r.
  - intros z8' new f' Hd Hz8' Ez8 Hs Ht8' Hall.
    pose proof (metas_step z7 z8 z8' inds new Ez8 Hi8 Hz8') as Hperm.
    assert (Ho' : owned f' (zones ++ metas z7 z8' (inds ++ new))).
    { eapply owned_perm; [|eapply owned_step; [exact Hs|exact Ho]]. rewrite <- app_assoc. by rewrite Hperm. }
    apply (HQ z8' (inds ++ new) ((if z8 =? 0 then [z8'] else []) ++ new)); [|  |done].
    + split; try done.
      * destruct (Nat.leb_spec (length zones) 7); [lia|]. destruct H7 as [Hz7 Ht7]. split; [done|].
        destruct (owned_app_inv _ _ _ Ho') as (_ & Hom' & _). unfold metas in Hom'.
        apply Z.eqb_neq in Hz7. apply Z.eqb_neq in Hz8'. rewrite Hz7, Hz8' in Hom'.
        destruct (owned_app_inv _ _ _ Hom') as (H1' & _ & Hd').
        eapply table_of_step; [exact Hs| |apply Hd'; by left|done].
        pose proof (owned_zones _ _ H1') as Hz7'. by apply Forall_cons in Hz7' as [? _].
      * destruct (Nat.leb_spec (length zones) (7 + per)); [lia|]. done.
    + eapply alloc_step_mono; [|exact Hs]. intros x Hx. unfold metas. apply Z.eqb_neq in Hz8'. rewrite Hz8'.
      apply elem_of_app. right. done.
Qed.

(** After [write_file_zones] the file has the new zone list; the tables that were
    missing have been allocated. *)
Lemma write_file_zones_ok f inode zones0 dn z7 z8 inds (Q : DiskInode -> contents -> Prop) :
  layout f inode zones0 z7 z8 inds -> zmap_padded sb f ->
  owned f ((zones0 ++ dn) ++ metas z7 z8 inds) -> (length (zones0 ++ dn) <= max_zones)%nat ->
  Z.of_nat (nmeta (length (zones0 ++ dn)) - nmeta (length zones0)) <= nfree f ->
  (forall z7' z8' inds' l f', layout f' (with_zones inode (resize 7 (zones0 ++ dn) ++ [z7'; z8'])) (zones0 ++ dn) z7' z8' inds' ->
     alloc_step l (metas z7' z8' inds') f f' -> metas z7' z8' inds' ≡ₚ metas z7 z8 inds ++ l ->
     Q (with_zones inode (resize 7 (zones0 ++ dn) ++ [z7'; z8'])) f') ->
  triple N f (write_file_zones sb inode (zones0 ++ dn)) Q.
Proof.
  intros L Hp Ho Hcap Hn HQ. set (zones := zones0 ++ dn) in *.
  pose proof (metas_length _ _ _ _ _ _ L) as Hml. destruct L as [L1 L2 L3 L4 L5].
  destruct (owned_app_inv _ _ _ Ho) as (Hoz & Hom & Hdis). pose proof (owned_zones _ _ Hoz) as Hz.
  assert (Hlen : (length zones0 <= length zones)%nat) by (unfold zones; rewrite length_app; lia).
  assert (Hinds : (length inds <= length (groups zones))%nat).
  { destruct (Nat.leb_spec (length zones0) (7 + per)) as [Hd|Hd]; [by destruct L3 as [_ ->]; cbn; lia|].
    destruct L3 as (_ & _ & Hf). rewrite (Forall2_length _ _ _ Hf), !groups_length by lia.
    apply Nat.Div0.div_le_mono. lia. }
  assert (H78 : z7 = 0 -> z8 = 0).
  { intros E7. destruct (Nat.leb_spec (length zones0) (7 + per)) as [Hd|Hd]; [by destruct L3|].
    destruct (Nat.leb_spec (length zones0) 7); [lia|]. by destruct L2. }
  unfold write_file_zones. pure_step (zone_size_eq sb N G). apply triple_seq. fold per.
  rewrite (set_direct_eq inode (resize 7 zones0) z7 z8) by (try apply resize_length; done).
  assert (Hi8 : z8 = 0 -> inds = []).
  { intros E. destruct (Nat.leb_spec (length zones0) (7 + per)); [by destruct L3|]. by destruct L3. }
  assert (Ht8 : z8 <> 0 -> table_of f z8 inds).
  { intros E. destruct (Nat.leb_spec (length zones0) (7 + per)); [by destruct L3|]. by destruct L3 as (_ & ? & _). }
  assert (Hs8 : (length zones <= 7 + per)%nat -> z8 = 0).
  { intros Hd. destruct (Nat.leb_spec (length zones0) (7 + per)); [by destruct L3|lia]. }
  assert (Hs7 : (length zones <= 7)%nat -> z7 = 0).
  { intros Hd. destruct (Nat.leb_spec (length zones0) 7); [done|lia]. }
  assert (Hn1 : (7 < length zones)%nat -> z7 = 0 -> 1 <= nfree f).
  { intros Hd E. rewrite (Hi8 (H78 E)), (H78 E), E in Hml. cbn in Hml. rewrite <- Hml in Hn. unfold nmeta in Hn.
    destruct (Nat.leb_spec (length zones) 7); [lia|]. destruct (_ <=? _)%nat; lia. }
  assert (Hn2 : (7 + per < length zones)%nat ->
    (if z7 =? 0 then 1 else 0) + (if z8 =? 0 then 1 else 0) + Z.of_nat (length (groups zones) - length inds) <= nfree f).
  { intros Hd. rewrite <- Hml in Hn. unfold metas, nmeta in Hn. rewrite !length_app in Hn.
    destruct (Nat.leb_spec (length zones) 7); [lia|]. destruct (Nat.leb_spec (length zones) (7 + per)); [lia|].
    rewrite <- groups_length in Hn by lia. destruct (z7 =? 0), (z8 =? 0); cbn [length] in Hn; lia. }
  apply (write_single_ok f inode (resize 7 zones) z7 z8); [apply resize_length|done|done| |lia| |].
  - destruct (Z.eq_dec z7 0) as [|E]; [by left|right]. pose proof (owned_zones _ _ Hom) as Hm.
    unfold metas in Hm. apply Z.eqb_neq in E. rewrite E in Hm. by apply Forall_cons in Hm as [? _].
  - intros Hd. cbn beta iota. pose proof (Hs7 Hd) as E7. subst z7.
    apply write_rest_ok with (z7 := 0) (inds := inds); try done.
    + destruct (Nat.leb_spec (length zones) 7); [done|lia].
    + lia.
    + intros z8' inds' l f' HL Hst Hpm. by apply (HQ 0 z8' inds' l).
  - intros z7' l1 f1 Hd Hdz El E7 Hst Ht7. cbn beta iota.
    assert (Hz7' : z7' <> 0) by (pose proof (first_positive sb N G); unfold data_zone in Hdz; lia).
    assert (Hpm : metas z7' z8 inds ≡ₚ metas z7 z8 inds ++ l1).
    { unfold metas. apply Z.eqb_neq in Hz7'. rewrite Hz7', El. destruct (Z.eqb_spec z7 0) as [E|E].
      - cbn [app]. rewrite (Permutation_app_comm _ [z7']). done.
      - rewrite (E7 E), app_nil_r. done. }
    assert (Ho1 : owned f1 (zones ++ metas z7' z8 inds)).
    { eapply owned_perm; [|eapply owned_step; [exact Hst|exact Ho]]. rewrite <- app_assoc. by rewrite Hpm. }
    apply write_rest_ok with (z7 := z7') (inds := inds); try done.
    + apply Hst.
    + destruct (Nat.leb_spec (length zones) 7); [lia|done].
    + intros E8. eapply table_of_step; [exact Hst| | |by apply Ht8].
      * pose proof (owned_zones _ _ Hom) as Hm. unfold metas in Hm. apply Z.eqb_neq in E8. rewrite E8 in Hm.
        apply Forall_app in Hm as [_ Hm]. by apply Forall_cons in Hm as [? _].
      * intros Hin%list_elem_of_singleton. destruct (owned_app_inv _ _ _ Ho1) as (_ & [Hnd _] & _).
        unfold metas in Hnd. apply Z.eqb_neq in Hz7'. apply Z.eqb_neq in E8. rewrite Hz7', E8 in Hnd.
        cbn [app] in Hnd. apply NoDup_cons in Hnd as [Hnd _]. apply Hnd. rewrite Hin. by left.
    + intros Hdd. specialize (Hn2 Hdd). pose proof (as_free _ _ _ _ Hst) as Ef.
      rewrite El in Ef. destruct (z7 =? 0); cbn [length] in Ef; lia.
    + intros z8' inds' l f' HL Hst' Hpm'. apply (HQ z7' z8' inds' (l1 ++ l)); [done| |].
      * eapply alloc_step_mono; [|eapply alloc_step_trans; [exact Hst|exact Hst']].
        unfold metas. apply Z.eqb_neq in Hz7'. rewrite Hz7'. intros x. rewrite !elem_of_app. tauto.
      * by rewrite Hpm', Hpm, <- app_assoc.
Qed.

End Zones.
