(* ===== verification/MinixFile.v ===== *)
(** * MinixFile: reading and writing files

    The bytes of a file are those of its zones, one after the other.
    [File_read_at] returns a part of them, [File_write_at] replaces a part and
    extends the file, and neither changes another file. *)

From stdpp Require Import gmap.
From S2P Require Import Prelude Bitmap BitFields Paths Bytes Disk Minix MinixDisk MinixZones.

Section Files.
Context {D : Type} `{DiskLaws D} (sb : DiskSuperBlock) (N : Z) (G : geometry sb N).
Abbreviation zs := (zsize sb).
Abbreviation contents := (Z -> Z).

(** ** The bytes of a list of zones *)

Definition fbyte (f : contents) (zones : list Z) (k : Z) : Z :=
  f (nth (Z.to_nat (k / zs)) zones 0 * zs + k mod zs).

Definition room (zones : list Z) : Z := Z.of_nat (length zones) * zs.

Lemma zs_pos : 1024 <= zs.
Proof. destruct (zsize_cases sb N G) as (p & -> & Hp). lia. Qed.

Lemma zone_index zones k : 0 <= k < room zones -> exists z, zones !! Z.to_nat (k / zs) = Some z.
Proof.
  intros Hk. pose proof zs_pos. apply lookup_lt_is_Some_2. unfold room in Hk.
  assert (0 <= k / zs < Z.of_nat (length zones)).
  { split; [apply Z.div_pos; lia|]. apply Z.div_lt_upper_bound; lia. }
  lia.
Qed.

Lemma mod_zs k : 0 <= k mod zs < zs.
Proof. pose proof zs_pos. apply Z.mod_pos_bound. lia. Qed.

(** Positions of one zone. *)
Lemma same_zone pos k : 0 <= k -> pos mod zs + k < zs ->
  (pos + k) / zs = pos / zs /\ (pos + k) mod zs = pos mod zs + k.
Proof.
  intros Hk Hlt. pose proof zs_pos. pose proof (mod_zs pos).
  pose proof (Z.div_mod pos zs ltac:(lia)).
  split; symmetry; [apply (Z.div_unique _ _ _ (pos mod zs + k))|apply (Z.mod_unique _ _ (pos / zs))]; lia.
Qed.

(** A part of the file that lies in one zone is a part of that zone. *)
Lemma slice_fbyte f zones pos n z : 0 <= n -> zones !! Z.to_nat (pos / zs) = Some z ->
  pos mod zs + n <= zs -> slice (fbyte f zones) pos n = slice f (z * zs + pos mod zs) n.
Proof.
  intros Hn Hz Hb. unfold slice. apply list_eq. intros j. rewrite !list_lookup_fmap.
  destruct (decide (Z.of_nat j < n)) as [Hj|Hj].
  - rewrite !lookup_seqZ_lt by lia. cbn [fmap option_fmap option_map]. f_equal. unfold fbyte.
    destruct (same_zone pos (Z.of_nat j)) as [-> ->]; [lia|lia|].
    rewrite (nth_lookup_Some _ _ _ _ Hz). f_equal. lia.
  - rewrite !lookup_seqZ_ge by lia. done.
Qed.

Lemma fbyte_prefix f zones new k : 0 <= k < room zones -> fbyte f (zones ++ new) k = fbyte f zones k.
Proof.
  intros Hk. destruct (zone_index zones k Hk) as [z Hz]. unfold fbyte.
  rewrite (nth_lookup_Some _ _ _ _ Hz). by rewrite (nth_lookup_Some _ _ _ z (lookup_app_l_Some _ _ _ _ Hz)).
Qed.

(** Zones that keep their bytes. *)
Lemma fbyte_touches W f f' zones k : touches sb W f f' -> Forall (data_zone sb) zones ->
  (forall z, z ∈ zones -> z ∉ W) -> 0 <= k < room zones -> fbyte f' zones k = fbyte f zones k.
Proof.
  intros Ht Hd HW Hk. destruct (zone_index zones k Hk) as [z Hz]. unfold fbyte.
  rewrite (nth_lookup_Some _ _ _ _ Hz). assert (Hin : z ∈ zones) by (by eapply list_elem_of_lookup_2).
  rewrite Forall_forall in Hd. eapply (touches_zone sb N G); [exact Ht|by apply Hd|by apply HW|].
  pose proof (mod_zs k). unfold in_zone. lia.
Qed.

(** ** Reading *)

Lemma File_read_loop_ok fuel self f pos n out (Q : list Z -> contents -> Prop) :
  fl_zone_size self = zs -> Forall (data_zone sb) (fl_zones self) -> File_size self <= room (fl_zones self) ->
  0 <= pos -> 0 <= n <= Z.of_nat fuel ->
  Q (out ++ slice (fbyte f (fl_zones self)) pos (Z.min n (File_size self - pos))) f ->
  triple N f (File_read_loop fuel self pos n out) Q.
Proof.
  intros Ezs Hd Hsz. revert pos n out. pose proof zs_pos as Hzs.
  induction fuel as [|fuel IH]; intros pos n out Hp Hn HQ; cbn [File_read_loop].
  - case_if as E; [lia|]. apply triple_ret. replace (Z.min _ _) with (Z.min 0 (File_size self - pos)) in HQ by lia.
    unfold slice in HQ. rewrite seqZ_nil in HQ by lia. by rewrite app_nil_r in HQ.
  - destruct ((pos <? File_size self) && (0 <? n)) eqn:E.
    2: { apply triple_ret. unfold slice in HQ. rewrite seqZ_nil in HQ by lia. by rewrite app_nil_r in HQ. }
    zify_bool. rewrite Ezs. destruct (Z.eqb_spec zs 0); [lia|].
    destruct (zone_index (fl_zones self) pos) as [z Hz]; [lia|]. rewrite Hz.
    assert (Hdz : data_zone sb z) by (rewrite Forall_forall in Hd; apply Hd; by eapply list_elem_of_lookup_2).
    pure_step (data_zone_mul sb N G z Hdz). pose proof (mod_zs pos) as Hm.
    destruct (zone_offset_ok sb N G z Hdz) as [_ Hend]. pose proof (data_zone_pos sb N G z Hdz).
    set (m := Z.min _ n). assert (0 < m) by lia.
    apply triple_seq, triple_read; rewrite ?length_replicate, ?Z2Nat.id by lia; [lia|lia|]. cbn beta iota.
    apply IH; [lia|lia|]. rewrite <- (slice_fbyte f (fl_zones self) pos m z) by (try done; lia).
    rewrite <- app_assoc, <- slice_app by lia.
    replace (m + Z.min (n - m) (File_size self - (pos + m))) with (Z.min n (File_size self - pos)) by lia. done.
Qed.

(** ** Writing *)

(** A write into the zone of position [pos] is a write at [pos] of the file. *)
Lemma fbyte_splice f zones pos part z k : NoDup zones -> Forall (data_zone sb) zones ->
  zones !! Z.to_nat (pos / zs) = Some z -> 0 <= pos -> pos mod zs + Z.of_nat (length part) <= zs ->
  0 <= k < room zones ->
  fbyte (splice f (z * zs + pos mod zs) part) zones k = splice (fbyte f zones) pos part k.
Proof.
  intros Hnd Hd Hz Hp Hb Hk. pose proof zs_pos. pose proof (mod_zs pos). pose proof (mod_zs k).
  destruct (zone_index zones k Hk) as [z' Hz']. unfold fbyte at 1. rewrite (nth_lookup_Some _ _ _ _ Hz').
  destruct (Z.eq_dec (k / zs) (pos / zs)) as [E|E].
  - assert (z' = z) as -> by congruence.
    assert (Ek : k - pos = k mod zs - pos mod zs).
    { pose proof (Z.div_mod k zs ltac:(lia)). pose proof (Z.div_mod pos zs ltac:(lia)). rewrite E in *. lia. }
    unfold splice. replace (z * zs + pos mod zs <=? z * zs + k mod zs) with (pos <=? k) by
      (apply eq_true_iff_eq; rewrite !Z.leb_le; lia).
    replace (z * zs + k mod zs <? z * zs + pos mod zs + Z.of_nat (length part)) with
      (k <? pos + Z.of_nat (length part)) by (apply eq_true_iff_eq; rewrite !Z.ltb_lt; lia).
    replace (z * zs + k mod zs - (z * zs + pos mod zs)) with (k - pos) by lia.
    destruct (_ && _); [done|]. unfold fbyte. by rewrite (nth_lookup_Some _ _ _ _ Hz').
  - assert (z' <> z).
    { intros ->. apply E. pose proof (NoDup_lookup _ _ _ _ Hnd Hz' Hz) as En.
      pose proof (Z.div_pos k zs ltac:(lia) ltac:(lia)). pose proof (Z.div_pos pos zs ltac:(lia) ltac:(lia)). lia. }
    rewrite splice_out by (destruct (zones_apart sb N G z' z); [done|lia|lia]).
    rewrite splice_out; [unfold fbyte; by rewrite (nth_lookup_Some _ _ _ _ Hz')|].
    pose proof (Z.div_mod k zs ltac:(lia)). pose proof (Z.div_mod pos zs ltac:(lia)).
    destruct (Z.lt_total (k / zs) (pos / zs)) as [|[|]]; [left; nia|lia|right; nia].
Qed.

Lemma File_write_loop_ok fuel zones buf f pos done (Q : Z -> contents -> Prop) :
  NoDup zones -> Forall (data_zone sb) zones -> zmap_padded sb f -> bytes buf ->
  let len := Z.of_nat (length buf) in
  0 <= pos -> 0 <= done <= len -> len - done <= Z.of_nat fuel -> pos + (len - done) <= room zones ->
  (forall f', alloc_step sb [] zones f f' ->
     (forall k, 0 <= k < room zones ->
        fbyte f' zones k = splice (fbyte f zones) pos (drop (Z.to_nat done) buf) k) -> Q len f') ->
  triple N f (File_write_loop fuel zs zones buf (pos + (len - done)) pos done) Q.
Proof.
  intros Hnd Hd Hp Hb len. revert f pos done Hp. pose proof zs_pos as Hzs.
  induction fuel as [|fuel IH]; intros f pos done Hp Hpos Hdone Hf Hr HQ.
  - cbn [File_write_loop]. fold len. destruct (_ && _) eqn:E; zify_bool; [lia|].
    apply triple_ret. assert (done = len) as -> by lia. apply HQ.
    + eapply alloc_step_mono; [apply list_subseteq_nil|]. by apply alloc_step_refl.
    + intros k _. rewrite drop_ge by lia. symmetry. apply splice_out. cbn. lia.
  - cbn [File_write_loop]. fold len. destruct (Z.ltb_spec done len) as [Hlt|Hge].
    2: { rewrite andb_false_r. apply triple_ret. assert (done = len) as -> by lia. apply HQ.
         + eapply alloc_step_mono; [apply list_subseteq_nil|]. by apply alloc_step_refl.
         + intros k _. rewrite drop_ge by lia. symmetry. apply splice_out. cbn. lia. }
    destruct (Z.ltb_spec pos (pos + (len - done))); [|lia]. cbn [andb].
    destruct (zone_index zones pos) as [z Hz]; [lia|]. rewrite Hz.
    assert (Hdz : data_zone sb z) by (rewrite Forall_forall in Hd; apply Hd; by eapply list_elem_of_lookup_2).
    pure_step (data_zone_mul sb N G z Hdz). pose proof (mod_zs pos) as Hm.
    destruct (zone_offset_ok sb N G z Hdz) as [_ Hend]. pose proof (data_zone_pos sb N G z Hdz).
    set (n := Z.min _ (len - done)). assert (0 < n) by lia.
    set (part := take (Z.to_nat n) (drop (Z.to_nat done) buf)).
    assert (Hpl : Z.of_nat (length part) = n) by (unfold part; rewrite length_take, length_drop; lia).
    apply triple_seq, triple_write; [lia|lia|by apply Forall_take, Forall_drop|].
    set (f1 := splice f (z * zs + pos mod zs) part).
    assert (Hs1 : alloc_step sb [] [z] f f1).
    { apply (alloc_step_splice sb N G); [done|done|unfold in_zone; lia|lia]. }
    replace (pos + (len - done)) with ((pos + n) + (len - (done + n))) by lia.
    apply IH; [apply Hs1|lia|lia|lia|lia|]. intros f' Hs' Hk. apply HQ.
    + eapply alloc_step_mono; [|exact (alloc_step_trans _ _ _ _ _ _ _ _ Hs1 Hs')].
      intros x. rewrite elem_of_app, list_elem_of_singleton. intros [->|]; [by eapply list_elem_of_lookup_2|done].
    + intros k Hkr. rewrite Hk by done. rewrite <- Hpl.
      rewrite (splice_ext _ (splice (fbyte f zones) pos part)) by (apply fbyte_splice; try done; lia).
      rewrite splice_app. f_equal. unfold part at 1.
      replace (Z.to_nat (done + Z.of_nat (length part))) with (Z.to_nat done + Z.to_nat n)%nat by lia.
      rewrite <- drop_drop, take_drop. done.
Qed.

Lemma grow_zones_ok m zones f (Q : list Z -> contents -> Prop) :
  zmap_padded sb f -> Z.of_nat m <= nfree sb f ->
  (forall new f', length new = m -> alloc_step sb new [] f f' -> Q (zones ++ new) f') ->
  triple N f (grow_zones sb m zones) Q.
Proof.
  revert zones f. induction m as [|m IH]; intros zones f Hp Hn HQ; cbn [grow_zones].
  - apply triple_ret. rewrite <- (app_nil_r zones). apply HQ; [done|]. by apply alloc_step_refl.
  - apply triple_seq, (alloc_zone_step sb N G); [done|lia|]. intros z f1 Hs.
    pose proof (as_free _ _ _ _ _ Hs) as Ef. cbn [length] in Ef.
    apply IH; [apply Hs|lia|]. intros new f2 Hl Hs2. rewrite <- app_assoc. cbn [app].
    apply HQ; [cbn; lia|]. apply (alloc_step_trans _ _ _ _ _ _ _ _ Hs Hs2).
Qed.

(** ** Open files and their inode *)

(** The inode number [ino] has the zones [zones]; [inode] is its inode. *)
Record file_ok (f : contents) (inode : DiskInode) (zones : list Z) (z7 z8 : Z) (inds : list Z) : Prop := {
  fo_layout : layout sb f inode zones z7 z8 inds;
  fo_size : i_size inode <= room zones;
  fo_inode : inode_ok inode
}.

(** The zones a write up to position [stop] needs on top of [zones], those of
    the tables included. *)
Definition zones_needed (zones : list Z) (stop : Z) : Z :=
  let need := Z.to_nat (div_ceil stop zs) in
  Z.of_nat (need - length zones) + Z.of_nat (nmeta sb need - nmeta sb (length zones)).

Lemma div_ceil_bounds a : 0 <= a -> a <= div_ceil a zs * zs < a + zs /\ 0 <= div_ceil a zs.
Proof.
  intros Ha. pose proof zs_pos. unfold div_ceil. pose proof (Z.div_mod a zs ltac:(lia)).
  pose proof (mod_zs a). pose proof (Z.div_pos a zs Ha ltac:(lia)). case_if as E; lia.
Qed.

(** What [write_at] does to the zones and the bytes of the file, before the inode
    is written back. *)
Record data_written (f : contents) (zones mt : list Z) (off : Z) (buf : list Z)
    (zones' mt' : list Z) (f' : contents) : Prop := {
  dw_zones : zones `prefix_of` zones';
  dw_step : exists l, alloc_step sb l (zones' ++ mt') f f' /\ zones' ++ mt' ≡ₚ (zones ++ mt) ++ l;
  dw_length : length zones' = Nat.max (length zones) (Z.to_nat (div_ceil (off + Z.of_nat (length buf)) zs));
  dw_room : off + Z.of_nat (length buf) <= room zones';
  dw_bytes : forall k, 0 <= k < room zones' -> fbyte f' zones' k = splice (fbyte f zones') off buf k
}.

Lemma write_data_ok {A} f inode zones z7 z8 inds buf off (k : Z -> DiskInode -> list Z -> io D A)
    (Q : A -> contents -> Prop) :
  file_ok f inode zones z7 z8 inds -> zmap_padded sb f -> bytes buf -> 0 <= off <= i_size inode ->
  let len := Z.of_nat (length buf) in let stop := off + len in let need := Z.to_nat (div_ceil stop zs) in
  (need <= max_zones sb)%nat -> zones_needed zones stop <= nfree sb f ->
  (forall zones' z7' z8' inds' f',
     let inode' := if (length zones <? need)%nat then with_zones inode (resize 7 zones' ++ [z7'; z8']) else inode in
     layout sb f' inode' zones' z7' z8' inds' ->
     data_written f zones (metas z7 z8 inds) off buf zones' (metas z7' z8' inds') f' ->
     triple N f' (k len inode' zones') Q) ->
  triple N f
    (zones' ← grow_zones sb (need - length zones) zones;
     inode' ← (if (length zones <? need)%nat then write_file_zones sb inode zones' else mret inode);
     n ← File_write_loop (length buf) zs zones' buf stop off 0;
     k n inode' zones') Q.
Proof.
  intros [L Hsz Hok] Hp Hb Hoff len stop need Hcap Hn HQ. pose proof zs_pos as Hzs.
  destruct (div_ceil_bounds stop ltac:(lia)) as [[Hdc1 _] Hdc2].
  pose proof (ly_owned _ _ _ _ _ _ _ L) as Ho. destruct (owned_app_inv _ _ _ _ Ho) as (Hoz & Hom & Hdis).
  unfold zones_needed in Hn. fold stop need in Hn.
  apply triple_seq, grow_zones_ok; [done|lia|]. intros new f1 Hnew Hs1.
  pose proof (owned_step _ _ _ _ _ _ Hs1 Ho) as Ho1. pose proof (as_free _ _ _ _ _ Hs1) as Ef1.
  assert (Hroom : stop <= room (zones ++ new)) by (unfold room; rewrite length_app; nia).
  assert (Hloop : forall inode' z7' z8' inds' l f2, let zones' := zones ++ new in
    layout sb f2 inode' zones' z7' z8' inds' -> alloc_step sb l (metas z7' z8' inds') f1 f2 ->
    metas z7' z8' inds' ≡ₚ metas z7 z8 inds ++ l ->
    inode' = (if (length zones <? need)%nat then with_zones inode (resize 7 zones' ++ [z7'; z8']) else inode) ->
    triple N f2 (n ← File_write_loop (length buf) zs zones' buf stop off 0; k n inode' zones') Q).
  { intros inode' z7' z8' inds' l f2 zones' L2 Hs2 Hpm Ei.
    pose proof (ly_owned _ _ _ _ _ _ _ L2) as Ho2. destruct (owned_app_inv _ _ _ _ Ho2) as (Hoz2 & Hom2 & Hdis2).
    pose proof (owned_zones _ _ _ Hoz2) as Hz2.
    apply triple_seq. replace stop with (off + (len - 0)) by lia.
    apply File_write_loop_ok; [apply Hoz2|done|apply Hs2|done|lia|lia|lia|fold zones' in Hroom; lia|].
    intros f3 Hs3 Hk. rewrite Ei. apply (HQ zones' z7' z8' inds' f3); rewrite <- ?Ei.
    - eapply (layout_step sb N G); [exact Hs3| |exact L2]. intros z Hz Hz'. by apply (Hdis2 z Hz').
    - split.
      + by exists new.
      + exists (new ++ l). split.
        * pose proof (alloc_step_trans _ _ _ _ _ _ _ _ (alloc_step_trans _ _ _ _ _ _ _ _ Hs1 Hs2) Hs3) as Hs.
          rewrite app_nil_r in Hs. eapply alloc_step_mono; [|exact Hs]. clear. set_solver.
        * rewrite Hpm. unfold zones'. rewrite <- !app_assoc. f_equiv. rewrite !app_assoc. f_equiv. apply Permutation_app_comm.
      + unfold zones'. rewrite length_app. fold len stop need. lia.
      + done.
      + intros j Hkr. rewrite Hk by done. rewrite drop_0. apply splice_ext.
        pose proof (alloc_step_trans _ _ _ _ _ _ _ _ Hs1 Hs2) as Hs12.
        apply (fbyte_touches _ _ _ _ _ (as_touches _ _ _ _ _ Hs12)); [done| |done].
        intros z Hz. by apply Hdis2. }
  apply triple_seq. destruct (Nat.ltb_spec (length zones) need) as [Hg|Hg].
  - assert (El : length (zones ++ new) = need) by (rewrite length_app; lia).
    apply (write_file_zones_ok sb N G f1 inode zones new z7 z8 inds); [| |  | | |].
    + eapply (layout_step sb N G); [exact Hs1|intros ? _; by apply not_elem_of_nil|done].
    + apply Hs1.
    + eapply owned_perm; [|exact Ho1]. rewrite <- !app_assoc. f_equiv. apply Permutation_app_comm.
    + lia.
    + rewrite El. lia.
    + intros z7' z8' inds' l f2 L2 Hs2 Hpm. by eapply Hloop.
  - apply triple_ret. destruct new; [|cbn in Hnew; lia]. rewrite app_nil_r in *.
    eapply (Hloop inode z7 z8 inds [] f1); [| | |done].
    + eapply (layout_step sb N G); [exact Hs1|intros ? _; by apply not_elem_of_nil|done].
    + eapply alloc_step_mono; [apply list_subseteq_nil|]. apply alloc_step_refl, Hs1.
    + by rewrite app_nil_r.
Qed.

(** *** Writing an inode back *)

(** Only the inode table differs. *)
Definition same_but_inodes (f f' : contents) : Prop :=
  forall i, i < itab sb \/ itab sb + ninodes sb * 32 <= i -> f' i = f i.

Lemma inode_write_same f ino i : 1 <= ino <= ninodes sb -> inode_ok i ->
  same_but_inodes f (splice f (inode_off sb ino) (DiskInode_bytes i)).
Proof.
  intros Hi Hok j Hj. destruct (inode_offset_ok sb N G ino Hi) as (_ & _ & H1 & H2).
  apply splice_out. rewrite DiskInode_bytes_length by done. lia.
Qed.

Lemma inode_at_write f ino i : inode_ok i ->
  inode_at sb (splice f (inode_off sb ino) (DiskInode_bytes i)) ino = i.
Proof.
  intros Hok. unfold inode_at. rewrite slice_splice_eq by (by rewrite DiskInode_bytes_length).
  by apply DiskInode_roundtrip.
Qed.

Lemma inode_at_write_ne f ino i ino' : inode_ok i -> ino' <> ino ->
  inode_at sb (splice f (inode_off sb ino) (DiskInode_bytes i)) ino' = inode_at sb f ino'.
Proof.
  intros Hok Hne. unfold inode_at. rewrite slice_splice_out; [done|].
  rewrite DiskInode_bytes_length by done. unfold inode_off. lia.
Qed.

(** The layout depends on the zones of the inode, on the use of the zones and on
    the tables. *)
Lemma layout_kept f f' inode inode' zones z7 z8 inds : i_zone inode' = i_zone inode ->
  (forall z, z ∈ zones ++ metas z7 z8 inds -> zone_used sb f' z = zone_used sb f z) ->
  (forall z, z ∈ metas z7 z8 inds -> table_at sb f' z = table_at sb f z) ->
  layout sb f inode zones z7 z8 inds -> layout sb f' inode' zones z7 z8 inds.
Proof.
  intros Ez Hu Ht [A1 A2 A3 A4 A5]. destruct (metas_in z7 z8 inds) as (I7 & I8 & Ii).
  unfold table_of in *. split; try done.
  - by rewrite Ez.
  - destruct (Nat.leb_spec (length zones) 7); [done|]. destruct A2 as [Hz7 A2]. split; [done|].
    unfold table_of. by rewrite Ht by auto.
  - destruct (Nat.leb_spec (length zones) (7 + per sb)); [done|]. destruct A3 as (Hz8 & A31 & A32).
    split; [done|]. split; [unfold table_of; by rewrite Ht by auto|].
    apply Forall2_same_length_lookup_2; [by eapply Forall2_length|]. intros i z t Hz Hl.
    unfold table_of. rewrite Ht by (by apply Ii; eapply list_elem_of_lookup_2).
    exact (Forall2_lookup_lr _ _ _ _ _ _ A32 Hz Hl).
  - destruct A5 as [Hnd Ho]. split; [done|]. rewrite Forall_forall in *.
    intros z Hz. destruct (Ho z Hz) as [? Hz']. split; [done|]. by rewrite Hu.
Qed.

Section SameButInodes.
Context (f f' : contents) (Hsame : same_but_inodes f f').

Lemma same_zone_bytes z i : data_zone sb z -> in_zone sb z i -> f' i = f i.
Proof. intros Hz Hi. apply Hsame. pose proof (in_zone_after sb N G z i Hz Hi). lia. Qed.

Lemma same_used z : data_zone sb z -> zone_used sb f' z = zone_used sb f z.
Proof. intros Hz. apply (used_ext sb N G); [|done]. intros i Hi. apply Hsame. lia. Qed.

Lemma same_owned l : owned sb f l -> owned sb f' l.
Proof.
  intros [Hnd Hl]. split; [done|]. eapply Forall_impl; [exact Hl|]. cbn.
  intros z [Hz Hu]. split; [done|]. by rewrite same_used.
Qed.

Lemma same_table z : data_zone sb z -> table_at sb f' z = table_at sb f z.
Proof.
  intros Hz. unfold table_at. f_equal. apply slice_ext. intros i Hi. by apply (same_zone_bytes z).
Qed.

Lemma same_layout inode inode' zones z7 z8 inds : i_zone inode' = i_zone inode ->
  layout sb f inode zones z7 z8 inds -> layout sb f' inode' zones z7 z8 inds.
Proof.
  intros Ez L. pose proof (owned_zones _ _ _ (ly_owned _ _ _ _ _ _ _ L)) as Hd. rewrite Forall_forall in Hd.
  apply (layout_kept f f' inode inode'); [done| | |done].
  - intros z Hz. by apply same_used, Hd.
  - intros z Hz. apply same_table, Hd, elem_of_app. by right.
Qed.

Lemma same_fbyte zones k : Forall (data_zone sb) zones -> 0 <= k < room zones -> fbyte f' zones k = fbyte f zones k.
Proof.
  intros Hd Hk. destruct (zone_index zones k Hk) as [z Hz]. unfold fbyte.
  rewrite (nth_lookup_Some _ _ _ _ Hz). rewrite Forall_forall in Hd. apply (same_zone_bytes z).
  - apply Hd. by eapply list_elem_of_lookup_2.
  - pose proof (mod_zs k). unfold in_zone. lia.
Qed.

Lemma same_zmap_padded : zmap_padded sb f -> zmap_padded sb f'.
Proof.
  intros Hp j Hj. unfold bit_at. rewrite Hsame; [by apply Hp|].
  pose proof (layout_order_facts sb N G). pose proof (g_zones _ _ G). lia.
Qed.

Lemma same_imap_padded : imap_padded sb f -> imap_padded sb f'.
Proof.
  intros Hp j Hj. unfold bit_at. rewrite Hsame; [by apply Hp|].
  pose proof (layout_order_facts sb N G). pose proof (g_inodes _ _ G). lia.
Qed.

End SameButInodes.

(** ** The files of a file system *)

(** Where the bytes of a file are: its data zones and the zones of its tables. *)
Record node : Type := mkNode {
  nd_zones : list Z;
  nd_z7 : Z;
  nd_z8 : Z;
  nd_inds : list Z
}.

Definition node_all (n : node) : list Z := nd_zones n ++ metas (nd_z7 n) (nd_z8 n) (nd_inds n).

(** The disk holds the files [M], no two of which share a zone. *)
Record fs_ok (f : contents) (M : gmap Z node) : Prop := {
  fk_zmap : zmap_padded sb f;
  fk_imap : imap_padded sb f;
  fk_file ino n : M !! ino = Some n -> 1 <= ino <= ninodes sb /\
    file_ok f (inode_at sb f ino) (nd_zones n) (nd_z7 n) (nd_z8 n) (nd_inds n);
  fk_used ino n : M !! ino = Some n -> inode_used sb f ino = true;
  fk_disjoint ino1 ino2 n1 n2 : M !! ino1 = Some n1 -> M !! ino2 = Some n2 -> ino1 <> ino2 ->
    forall z, z ∈ node_all n1 -> z ∉ node_all n2
}.

(** The contents of the file [ino]. *)
Definition content (f : contents) (ino : Z) (n : node) : list Z :=
  slice (fbyte f (nd_zones n)) 0 (i_size (inode_at sb f ino)).

(** The open file is the file on disk. *)
Record opened (f : contents) (n : node) (self : File) : Prop := {
  op_inode : fl_inode self = inode_at sb f (fl_ino self);
  op_zones : fl_zones self = nd_zones n;
  op_zone_size : fl_zone_size self = zs
}.

(** The list [c] with the bytes from [off] on replaced by [buf]. *)
Definition overwrite (c : list Z) (off : Z) (buf : list Z) : list Z :=
  take (Z.to_nat off) c ++ buf ++ drop (Z.to_nat off + length buf) c.

Lemma slice_overwrite F size off buf : 0 <= off <= size ->
  slice (splice F off buf) 0 (Z.max size (off + Z.of_nat (length buf))) = overwrite (slice F 0 size) off buf.
Proof.
  intros Ho. set (len := Z.of_nat (length buf)).
  replace (Z.max size (off + len)) with (off + (len + (Z.max size (off + len) - (off + len)))) by lia.
  rewrite !slice_app by lia. rewrite !Z.add_0_l. unfold overwrite.
  rewrite slice_splice_out, slice_splice_eq, slice_splice_out by lia. f_equal; [|f_equal].
  - replace size with (off + (size - off)) at 1 by lia. rewrite slice_app by lia.
    pose proof (length_slice F 0 off). by rewrite take_app_length' by lia.
  - pose proof (length_slice F 0 size). destruct (Z.le_gt_cases size (off + len)).
    + rewrite drop_ge by lia. unfold slice. by rewrite seqZ_nil by lia.
    + rewrite Z.max_l by lia.
      replace (slice F 0 size) with (slice F 0 (off + len) ++ slice F (0 + (off + len)) (size - (off + len)))
        by (rewrite <- slice_app by lia; f_equal; lia).
      pose proof (length_slice F 0 (off + len)). by rewrite drop_app_length' by lia.
Qed.

Lemma touches_low W f f' i : touches sb W f f' -> Forall (data_zone sb) W -> i < zmap_off sb -> f' i = f i.
Proof.
  intros Ht HW Hi. apply Ht; [by left|]. intros z Hz Hin. rewrite Forall_forall in HW.
  pose proof (in_zone_after sb N G z i (HW z Hz) Hin). pose proof (layout_order_facts sb N G).
  pose proof (g_inodes _ _ G). lia.
Qed.

Lemma touches_imap W f f' : touches sb W f f' -> Forall (data_zone sb) W -> imap_padded sb f -> imap_padded sb f'.
Proof.
  intros Ht HW Hp j Hj. unfold bit_at. rewrite (touches_low W f f'); [by apply Hp|done|done|].
  pose proof (layout_order_facts sb N G). pose proof (g_inodes _ _ G). lia.
Qed.

Lemma inode_used_low f f' i : (forall k, k < zmap_off sb -> f' k = f k) -> 1 <= i <= ninodes sb ->
  inode_used sb f' i = inode_used sb f i.
Proof.
  intros Hlow Hi. unfold inode_used, bit_at. rewrite Hlow; [done|].
  pose proof (layout_order_facts sb N G). pose proof (g_imap_bits _ _ G). lia.
Qed.

(** A file other than [ino] after [ino] got the zones [l] and wrote its own. *)
Lemma others_kept f M ino n l W f' ino' n' : fs_ok f M -> M !! ino = Some n ->
  alloc_step sb l W f f' -> W ≡ₚ node_all n ++ l -> Forall (data_zone sb) W ->
  ino' <> ino -> M !! ino' = Some n' ->
  inode_at sb f' ino' = inode_at sb f ino' /\
  file_ok f' (inode_at sb f' ino') (nd_zones n') (nd_z7 n') (nd_z8 n') (nd_inds n') /\
  content f' ino' n' = content f ino' n' /\ (forall z, z ∈ node_all n' -> z ∉ W).
Proof.
  intros Hfs Hn Hs HW Hd Hne Hn'. destruct (fk_file _ _ Hfs ino' n' Hn') as [Hi' [L Hsz Hok]].
  assert (Hdis : forall z, z ∈ node_all n' -> z ∉ W).
  { intros z Hz Hz'. rewrite HW in Hz'. apply elem_of_app in Hz' as [Hz'|Hz'].
    - by apply (fk_disjoint _ _ Hfs ino' ino n' n Hn' Hn Hne z Hz).
    - eapply step_fresh; [exact Hs|exact (ly_owned _ _ _ _ _ _ _ L)|exact Hz|exact Hz']. }
  assert (Ei : inode_at sb f' ino' = inode_at sb f ino').
  { eapply (touches_inode sb N G); [apply Hs|done|done]. }
  split; [done|]. rewrite Ei. split; [|split; [|done]].
  - split; [|done|done]. eapply (layout_step sb N G); [exact Hs| |done].
    intros z Hz. apply Hdis. apply elem_of_app. by right.
  - unfold content. rewrite Ei. apply slice_ext. intros k Hk.
    eapply fbyte_touches; [apply Hs| | |lia].
    + pose proof (owned_zones _ _ _ (ly_owned _ _ _ _ _ _ _ L)) as Hz. by apply Forall_app in Hz as [? _].
    + intros z Hz. apply Hdis. apply elem_of_app. by left.
Qed.

(** The attributes of an inode that a write leaves alone. *)
Definition same_attributes (i i' : DiskInode) : Prop :=
  i_mode i' = i_mode i /\ i_uid i' = i_uid i /\ i_mtime i' = i_mtime i /\ i_gid i' = i_gid i /\
  i_nlinks i' = i_nlinks i.

Lemma with_zones_ok f i zones z7 z8 inds : inode_ok i -> layout sb f (with_zones i (resize 7 zones ++ [z7; z8])) zones z7 z8 inds ->
  inode_ok (with_zones i (resize 7 zones ++ [z7; z8])).
Proof.
  intros [H1 H2 H3 H4 H5 H6 H7 H8] L. split; try done; cbn [with_zones i_zone].
  - rewrite length_app, resize_length. done.
  - destruct (owned_app_inv _ _ _ _ (ly_owned _ _ _ _ _ _ _ L)) as (Hoz & Hom & _).
    pose proof (data_zone_fits sb N G _ (owned_zones _ _ _ Hom)) as Hm. rewrite Forall_forall in Hm.
    apply Forall_app. split; [apply resize_fits, (data_zone_fits sb N G), (owned_zones _ _ _ Hoz)|].
    destruct (metas_in z7 z8 inds) as (I7 & I8 & _).
    assert (H0' : fits 16 0) by (unfold fits; lia).
    constructor; [destruct (Z.eq_dec z7 0) as [->|]; auto|].
    constructor; [destruct (Z.eq_dec z8 0) as [->|]; auto|constructor].
Qed.

Lemma set_size_ok i n : inode_ok i -> fits 32 n -> inode_ok (set_size i n).
Proof. intros [H1 H2 H3 H4 H5 H6 H7 H8] Hn. by split. Qed.

(** The file system with one file changed. *)
Lemma fs_ok_update f M ino n l W f1 f' n' : fs_ok f M -> M !! ino = Some n ->
  alloc_step sb l W f f1 -> W ≡ₚ node_all n ++ l -> node_all n' = W -> same_but_inodes f1 f' ->
  (forall i, i <> ino -> inode_at sb f' i = inode_at sb f1 i) ->
  file_ok f' (inode_at sb f' ino) (nd_zones n') (nd_z7 n') (nd_z8 n') (nd_inds n') ->
  fs_ok f' (<[ino := n']> M) /\
  (forall i m, i <> ino -> M !! i = Some m -> inode_at sb f' i = inode_at sb f i /\ content f' i m = content f i m).
Proof.
  intros Hfs Hn Hs HW Hall Hsame Hin Hfile.
  assert (Hd : Forall (data_zone sb) W).
  { rewrite <- Hall. exact (owned_zones _ _ _ (ly_owned _ _ _ _ _ _ _ (fo_layout _ _ _ _ _ _ Hfile))). }
  assert (Hoth : forall i m, i <> ino -> M !! i = Some m ->
    inode_at sb f' i = inode_at sb f i /\ file_ok f' (inode_at sb f' i) (nd_zones m) (nd_z7 m) (nd_z8 m) (nd_inds m) /\
    content f' i m = content f i m /\ (forall z, z ∈ node_all m -> z ∉ W)).
  { intros i m Hi Hm. destruct (others_kept f M ino n l W f1 i m Hfs Hn Hs HW Hd Hi Hm) as (E & [L Hz Hok] & Ec & Hdis).
    rewrite (Hin i Hi). split; [done|]. split; [split; [by eapply same_layout|done|done]|]. split; [|done].
    rewrite <- Ec. unfold content. rewrite (Hin i Hi). apply slice_ext. intros k Hk. apply (same_fbyte f1 f' Hsame); [|lia].
    pose proof (owned_zones _ _ _ (ly_owned _ _ _ _ _ _ _ L)) as Hzz. by apply Forall_app in Hzz as [? _]. }
  split; [split|].
  - eapply same_zmap_padded; [exact Hsame|apply Hs].
  - eapply same_imap_padded; [exact Hsame|]. eapply touches_imap; [apply Hs|done|apply Hfs].
  - intros i m Hm. apply lookup_insert_Some in Hm as [[<- <-]|[Hi Hm]].
    + split; [by apply (fk_file _ _ Hfs ino n)|done].
    + split; [by apply (fk_file _ _ Hfs i m)|]. by apply Hoth.
  - intros i m Hm.
    assert (Hm' : exists m', M !! i = Some m') by (apply lookup_insert_Some in Hm as [[<- _]|[_ Hm]]; eauto).
    destruct Hm' as [m' Hm']. destruct (fk_file _ _ Hfs i m' Hm') as [Hi _].
    rewrite (inode_used_low f f' i); [by apply (fk_used _ _ Hfs i m')| |done].
    intros k Hk. pose proof (layout_order_facts sb N G). rewrite Hsame by lia. apply (touches_low W); [apply Hs|done|done].
  - intros i1 i2 m1 m2 H1 H2 Hne z. apply lookup_insert_Some in H1 as [[<- <-]|[Hi1 H1]];
      apply lookup_insert_Some in H2 as [[<- <-]|[Hi2 H2]]; [done| | |].
    + intros Hz Hz'. rewrite Hall in Hz. destruct (Hoth i2 m2) as (_ & _ & _ & Hdis); [done|done|]. by apply (Hdis z).
    + rewrite Hall. by apply (Hoth i1 m1).
    + by apply (fk_disjoint _ _ Hfs i1 i2).
  - intros i m Hi Hm. destruct (Hoth i m Hi Hm) as (? & _ & ? & _). done.
Qed.

(** What a write of [buf] at [off] to the file [ino] leaves. *)
Definition file_written (f : contents) (M : gmap Z node) (n : node) (self : File) (off : Z) (buf : list Z)
    (self' : File) (f' : contents) : Prop :=
  let ino := fl_ino self in
  exists n', fs_ok f' (<[ino := n']> M) /\ opened f' n' self' /\ fl_ino self' = ino /\
    content f' ino n' = overwrite (content f ino n) off buf /\
    same_attributes (inode_at sb f ino) (inode_at sb f' ino) /\
    forall i m, i <> ino -> M !! i = Some m -> inode_at sb f' i = inode_at sb f i /\ content f' i m = content f i m.

Lemma written_content f f2 f' ino n zones' off buf :
  nd_zones n `prefix_of` zones' -> 0 <= off <= i_size (inode_at sb f ino) ->
  i_size (inode_at sb f ino) <= room (nd_zones n) -> off + Z.of_nat (length buf) <= room zones' ->
  (forall k, 0 <= k < room zones' -> fbyte f2 zones' k = splice (fbyte f zones') off buf k) ->
  (forall k, 0 <= k < room zones' -> fbyte f' zones' k = fbyte f2 zones' k) ->
  i_size (inode_at sb f' ino) = Z.max (i_size (inode_at sb f ino)) (off + Z.of_nat (length buf)) ->
  slice (fbyte f' zones') 0 (i_size (inode_at sb f' ino)) = overwrite (content f ino n) off buf.
Proof.
  intros [new ->] Ho Hsz Hr H2 H' Es. pose proof zs_pos. unfold content. rewrite <- slice_overwrite by done. rewrite Es.
  assert (room (nd_zones n) <= room (nd_zones n ++ new)) by (unfold room; rewrite length_app; nia).
  apply slice_ext. intros k Hk. rewrite H', H2 by lia.
  destruct (Z.lt_ge_cases k (i_size (inode_at sb f ino))) as [Hlt|Hge].
  - apply splice_ext, fbyte_prefix. lia.
  - unfold splice. case_if as E; [done|].
    exfalso. apply andb_false_iff in E as [E|E]; zify_bool; lia.
Qed.

Lemma File_write_at_ok f M n self buf offset (Q : Z * File -> contents -> Prop) :
  fs_ok f M -> M !! fl_ino self = Some n -> opened f n self -> bytes buf -> 0 <= offset ->
  let off := Z.min offset (i_size (inode_at sb f (fl_ino self))) in let stop := off + Z.of_nat (length buf) in
  stop < 2 ^ 32 -> (Z.to_nat (div_ceil stop zs) <= max_zones sb)%nat ->
  zones_needed (nd_zones n) stop <= nfree sb f ->
  (forall self' f', file_written f M n self off buf self' f' -> Q (Z.of_nat (length buf), self') f') ->
  triple N f (File_write_at sb self buf offset) Q.
Proof.
  intros Hfs Hn [Oi Oz Os] Hb Hoff off stop Hstop Hcap Hneed HQ. pose proof zs_pos as Hzs.
  destruct (fk_file _ _ Hfs _ _ Hn) as [Hino Hfo]. pose proof (fo_size _ _ _ _ _ _ Hfo) as Hsz.
  pose proof (io_size _ (fo_inode _ _ _ _ _ _ Hfo)) as Hs32. unfold fits in Hs32.
  set (ino := fl_ino self) in *. set (inode := inode_at sb f ino) in *.
  assert (Ho : 0 <= off <= i_size inode) by lia.
  unfold File_write_at. destruct (Z.eqb_spec (Z.of_nat (length buf)) 0) as [E0|E0].
  { apply triple_ret. destruct buf; [|cbn in E0; lia]. apply (HQ self f). exists n. fold ino.
    rewrite insert_id by done. split; [done|]. split; [by split|]. split; [done|]. split; [|by repeat split].
    unfold overwrite. cbn. by rewrite Nat.add_0_r, take_drop. }
  unfold File_size. rewrite Os, Oi. fold inode off.
  assert (Esat : usize_saturating_add off (Z.of_nat (length buf)) = stop) by (unfold usize_saturating_add; lia).
  rewrite Esat. destruct (Z.eqb_spec zs 0); [lia|]. rewrite Oz.
  apply (write_data_ok f inode (nd_zones n) (nd_z7 n) (nd_z8 n) (nd_inds n) buf off); try done; [apply Hfs|].
  intros zones' z7' z8' inds' f2 inode1 L [Wz [l [Wst Wpm]] Wlen Wr Wb]. fold stop in Wlen.
  assert (Ei1 : i_size inode1 = i_size inode /\ same_attributes inode inode1 /\ inode_ok inode1).
  { subst inode1. destruct (_ <? _)%nat; [|by split; [|split; [|apply Hfo]]].
    split; [done|]. split; [done|]. eapply with_zones_ok; [apply Hfo|exact L]. }
  destruct Ei1 as (Es1 & Ea1 & Hok1). rewrite Es1, Esat.
  set (n' := mkNode zones' z7' z8' inds').
  assert (Hzz : Forall (data_zone sb) zones').
  { pose proof (owned_zones _ _ _ (ly_owned _ _ _ _ _ _ _ L)) as Hzz. by apply Forall_app in Hzz as [? _]. }
  destruct (Z.ltb_spec (i_size inode) (Z.max (i_size inode) stop)) as [Hgrow|Hgrow].
  - set (inode2 := set_size inode1 (wrap 32 (Z.max (i_size inode) stop))).
    assert (Esz : wrap 32 (Z.max (i_size inode) stop) = stop) by (unfold wrap; rewrite Z.mod_small; lia).
    assert (Es2 : i_size inode2 = stop) by exact Esz.
    assert (Hok2 : inode_ok inode2) by (apply set_size_ok; [done|]; rewrite Esz; unfold fits; lia).
    apply triple_seq, (write_inode_ok sb N G); [done|done|]. apply triple_ret.
    set (f' := splice f2 (inode_off sb ino) (DiskInode_bytes inode2)).
    pose proof (inode_write_same f2 ino inode2 Hino Hok2) as Hsame.
    assert (Eat : inode_at sb f' ino = inode2) by (by apply inode_at_write).
    assert (Hfile : file_ok f' (inode_at sb f' ino) zones' z7' z8' inds').
    { rewrite Eat. split; [eapply (same_layout f2 f' Hsame inode1); [done|exact L]|rewrite Es2; exact Wr|done]. }
    destruct (fs_ok_update f M ino n l (zones' ++ metas z7' z8' inds') f2 f' n' Hfs Hn Wst Wpm eq_refl Hsame) as [Hfs' Hoth].
    { intros i Hi. by apply inode_at_write_ne. }
    { exact Hfile. }
    apply (HQ _ f'). exists n'. fold ino. split; [done|]. split; [by split|]. split; [done|]. split; [|split; [by rewrite Eat|done]].
    apply (written_content f f2 f' ino n zones' off buf); try done.
    + intros k Hk. by apply same_fbyte.
    + rewrite Eat, Es2. fold inode stop. lia.
  - assert (Hle : stop <= i_size inode) by lia.
    assert (Hng : (Z.to_nat (div_ceil stop zs) <= length (nd_zones n))%nat).
    { destruct (div_ceil_bounds stop ltac:(lia)) as [Hd _]. unfold room in Hsz. nia. }
    assert (zones' = nd_zones n) as ->.
    { destruct Wz as [new ->]. rewrite length_app in Wlen. destruct new; [by rewrite app_nil_r|cbn in Wlen; lia]. }
    assert (E1 : inode1 = inode).
    { unfold inode1. fold stop. by rewrite (proj2 (Nat.ltb_ge _ _) Hng). }
    clearbody inode1. subst inode1. apply triple_ret.
    assert (Eat : inode_at sb f2 ino = inode).
    { eapply (touches_inode sb N G); [apply Wst| |done]. exact (owned_zones _ _ _ (ly_owned _ _ _ _ _ _ _ L)). }
    destruct (fs_ok_update f M ino n l (nd_zones n ++ metas z7' z8' inds') f2 f2 n' Hfs Hn Wst Wpm eq_refl) as [Hfs' Hoth].
    { by intros i _. }
    { done. }
    { rewrite Eat. split; [exact L|apply Hfo|apply Hfo]. }
    apply HQ. exists n'. fold ino. split; [done|]. split; [by split|]. split; [done|]. split; [|split; [by rewrite Eat|done]].
    apply (written_content f f2 f2 ino n (nd_zones n) off buf); try done.
    rewrite Eat. fold inode stop. lia.
Qed.

End Files.

(** ** A small file system

    Ten zones of a kilobyte; inode 1 is a file of three bytes in zone 5. *)

Definition ex_sb : DiskSuperBlock := mkSuperBlock 32 10 1 1 5 0 268966912 MinixFsMagic_V1_14 1.
(** The bytes outside of the bitmaps that are not zero: the superblock, the
    inodes 1 (a directory) and 2 (a file), the entries of the directory in zone 5, the bytes
    of the file in zone 6. *)
Definition ex_table : list (Z * Z) :=
  [(1024, 32); (1026, 10); (1028, 1); (1030, 1); (1032, 5); (1037, 28); (1038, 8); (1039, 16);
   (1040, 127); (1041, 19); (1042, 1);
   (4096, 237); (4097, 65); (4100, 48); (4109, 2); (4110, 5);
   (4129, 129); (4132, 3); (4141, 1); (4142, 6);
   (5120, 1); (5122, 46); (5136, 1); (5138, 46); (5139, 46); (5152, 2); (5154, 97);
   (6144, 97); (6145, 98); (6146, 99)].
Definition ex_byte (i : Z) : Z :=
  if (2048 <=? i) && (i <? 3072) then
    (if i =? 2048 then 7 else if i - 2048 <? 4 then 0 else if i - 2048 =? 4 then 254 else 255)
  else if (3072 <=? i) && (i <? 4096) then (if i =? 3072 then 199 else 255)
  else match find (fun p => p.1 =? i) ex_table with Some p => p.2 | None => 0 end.
Definition ex_disk : RamDisk := mkRamDisk 10240 ex_byte.
Definition ex_dir : node := mkNode [5] 0 0 [].
Definition ex_node : node := mkNode [6] 0 0 [].
Definition ex_nodes : gmap Z node := {[1 := ex_dir; 2 := ex_node]}.
Definition ex_dir_inode : DiskInode := mkInode 16877 0 48 0 0 2 [5; 0; 0; 0; 0; 0; 0; 0; 0].
Definition ex_inode : DiskInode := mkInode 33024 0 3 0 0 1 [6; 0; 0; 0; 0; 0; 0; 0; 0].
Definition ex_file : File := mkFile (mkPath []) 2 ex_inode 1024 [6] 0.

Lemma ex_geometry : geometry ex_sb 10240.
Proof. split; vm_compute; intuition congruence. Qed.

Lemma ex_byte_ok i : is_byte (ex_byte i).
Proof.
  unfold ex_byte. case_match; [repeat case_match; done|]. case_match; [case_match; done|].
  destruct (find _ ex_table) as [p|] eqn:E; [|done]. apply find_some in E as [E _]. cbn in E.
  repeat (destruct E as [<-|E]; [done|]). done.
Qed.

Lemma ex_on_disk : on_disk 10240 ex_disk ex_byte.
Proof.
  split; [done|]. split; [apply ex_byte_ok|]. intros i _. cbn. pose proof (ex_byte_ok i).
  unfold is_byte in *. by rewrite Z.mod_small.
Qed.

Lemma ex_inode_at : inode_at ex_sb ex_byte 2 = ex_inode.
Proof. vm_compute. reflexivity. Qed.

Lemma ex_dir_inode_at : inode_at ex_sb ex_byte 1 = ex_dir_inode.
Proof. vm_compute. reflexivity. Qed.

Lemma bit_255 j : 0 <= j -> Z.testbit 255 (j mod 8) = true.
Proof.
  intros Hj. change 255 with (Z.ones 8). rewrite Z.testbit_ones_nonneg by lia. apply Z.ltb_lt. lia.
Qed.

Lemma ex_byte_full i : 2052 < i < 3072 \/ 3072 < i < 4096 -> ex_byte i = 255.
Proof.
  intros [Hi|Hi]; unfold ex_byte.
  - replace ((2048 <=? i) && (i <? 3072)) with true by lia.
    replace (i =? 2048) with false by lia. replace (i - 2048 <? 4) with false by lia. by replace (i - 2048 =? 4) with false by lia.
  - replace ((2048 <=? i) && (i <? 3072)) with false by lia.
    replace ((3072 <=? i) && (i <? 4096)) with true by lia. by replace (i =? 3072) with false by lia.
Qed.

Lemma ex_padded : zmap_padded ex_sb ex_byte /\ imap_padded ex_sb ex_byte.
Proof.
  split; intros j Hj; unfold bit_at.
  - change (zmap_off ex_sb) with 3072.
    change (nzones ex_sb - first_data_zone ex_sb + 1) with 6 in Hj.
    change (8 * (zmap_blocks ex_sb * zsize ex_sb)) with 8192 in Hj.
    destruct (Z.lt_ge_cases j 8) as [Hlt|Hge].
    + assert (j = 6 \/ j = 7) as [->| ->] by lia; reflexivity.
    + rewrite ex_byte_full by lia. apply bit_255. lia.
  - change (imap_off ex_sb) with 2048.
    change (ninodes ex_sb + 1) with 33 in Hj.
    change (8 * (imap_blocks ex_sb * zsize ex_sb)) with 8192 in Hj.
    destruct (Z.lt_ge_cases j 40) as [Hlt|Hge].
    + assert (j = 33 \/ j = 34 \/ j = 35 \/ j = 36 \/ j = 37 \/ j = 38 \/ j = 39) as
        [->|[->|[->|[->|[->|[->| ->]]]]]] by lia; reflexivity.
    + rewrite ex_byte_full by lia. apply bit_255. lia.
Qed.

Lemma ex_nodes_cases ino n : ex_nodes !! ino = Some n -> ino = 1 /\ n = ex_dir \/ ino = 2 /\ n = ex_node.
Proof.
  unfold ex_nodes. intros [[<- <-]|[_ [<- <-]%lookup_singleton_Some]]%lookup_insert_Some; [by left|by right].
Qed.

(** A file with one zone. *)
Lemma ex_file_ok f i z : inode_ok i -> i_zone i = [z; 0; 0; 0; 0; 0; 0; 0; 0] -> i_size i <= 1024 ->
  data_zone ex_sb z -> zone_used ex_sb f z = true -> file_ok ex_sb f i [z] 0 0 [].
Proof.
  intros Hok Ez Hs Hz Hu. split; [|done|done].
  split; [done|done|done|cbn; unfold max_zones; lia|]. split; [apply NoDup_singleton|]. by apply Forall_singleton.
Qed.

Lemma ex_inodes_ok : inode_ok ex_dir_inode /\ inode_ok ex_inode.
Proof. split; (split; [done|done|done|done|done|done|done|repeat (constructor; [done|]); constructor]). Qed.

Lemma ex_fs_ok : fs_ok ex_sb ex_byte ex_nodes.
Proof.
  destruct ex_padded as [Hz Hi], ex_inodes_ok as [Hd Hf]. split; [done|done| | |].
  - intros ino n [[-> ->]|[-> ->]]%ex_nodes_cases; (split; [done|]).
    + rewrite ex_dir_inode_at. by apply ex_file_ok.
    + rewrite ex_inode_at. by apply ex_file_ok.
  - by intros ino n [[-> ->]|[-> ->]]%ex_nodes_cases.
  - intros ino1 ino2 n1 n2 [[-> ->]|[-> ->]]%ex_nodes_cases [[-> ->]|[-> ->]]%ex_nodes_cases Hne z; [done| | |done].
    + by intros ->%list_elem_of_singleton ?%list_elem_of_singleton.
    + by intros ->%list_elem_of_singleton ?%list_elem_of_singleton.
Qed.

Lemma ex_opened : opened ex_sb ex_byte ex_node ex_file.
Proof. split; [exact (eq_sym ex_inode_at)|done|done]. Qed.

(** ** Properties *)

(** Reading, as a step of a program. *)
Lemma File_read_at_ok {D : Type} `{DiskLaws D} sb N f M n self len offset (Q : list Z -> (Z -> Z) -> Prop) :
  geometry sb N -> fs_ok sb f M -> M !! fl_ino self = Some n -> opened sb f n self -> 0 <= len -> 0 <= offset ->
  Q (take (Z.to_nat len) (drop (Z.to_nat offset) (content sb f (fl_ino self) n))) f ->
  triple N f (File_read_at self len offset) Q.
Proof.
  intros G Hfs Hn Ho Hl Hoff HQ. destruct (fk_file _ _ _ Hfs _ _ Hn) as [_ [L Hsz _]].
  eapply triple_mono; [apply (File_read_loop_ok sb N G (Z.to_nat len) self f offset len []
    (fun r f' => f' = f /\ r = take (Z.to_nat len) (drop (Z.to_nat offset) (content sb f (fl_ino self) n))));
    [by destruct Ho| | |done|lia|]|by intros r f' [-> ->]].
  - rewrite (op_zones _ _ _ _ Ho).
    pose proof (owned_zones _ _ _ (ly_owned _ _ _ _ _ _ _ L)) as Hz. by apply Forall_app in Hz as [? _].
  - unfold File_size. by rewrite (op_inode _ _ _ _ Ho), (op_zones _ _ _ _ Ho).
  - split; [done|]. unfold File_size, content. rewrite (op_inode _ _ _ _ Ho), (op_zones _ _ _ _ Ho).
    set (size := i_size _) in *. set (F := fbyte sb f (nd_zones n)). cbn [app].
    destruct (Z.le_gt_cases size offset) as [Hge|Hlt].
    + pose proof (length_slice F 0 size). rewrite drop_ge, take_nil by lia.
      unfold slice. by rewrite seqZ_nil by lia.
    + replace (slice F 0 size) with (slice F 0 offset ++ slice F (0 + offset) (size - offset))
        by (rewrite <- slice_app by lia; f_equal; lia).
      pose proof (length_slice F 0 offset). rewrite drop_app_length' by lia.
      destruct (Z.le_gt_cases len (size - offset)).
      * replace (slice F (0 + offset) (size - offset)) with
          (slice F (0 + offset) len ++ slice F (0 + offset + len) (size - offset - len))
          by (rewrite <- slice_app by lia; f_equal; lia).
        pose proof (length_slice F (0 + offset) len). rewrite take_app_length' by lia.
        by rewrite Z.min_l by lia.
      * pose proof (length_slice F (0 + offset) (size - offset)). rewrite take_ge by lia. by rewrite Z.min_r by lia.
Qed.

(** Reading a file returns the bytes of its contents from the offset on, as
    many as the buffer takes and the file has, on any device that keeps the laws;
    the disk stays as it is. *)
Theorem File_read_at_correct {D : Type} `{DiskLaws D} sb N (d : D) f M n self len offset :
  geometry sb N -> on_disk N d f -> fs_ok sb f M -> M !! fl_ino self = Some n -> opened sb f n self ->
  0 <= len -> 0 <= offset ->
  exists d', File_read_at self len offset d =
      Ret (Ok (take (Z.to_nat len) (drop (Z.to_nat offset) (content sb f (fl_ino self) n))), d') /\
    on_disk N d' f.
Proof.
  intros G Hd Hfs Hn Ho Hl Hoff.
  destruct (File_read_at_ok sb N f M n self len offset
    (fun r f' => f' = f /\ r = take (Z.to_nat len) (drop (Z.to_nat offset) (content sb f (fl_ino self) n)))
    G Hfs Hn Ho Hl Hoff (conj eq_refl eq_refl) d Hd) as (r & d' & f' & E & Hd' & -> & ->).
  by exists d'.
Qed.

Lemma File_read_at_witness : exists d', File_read_at ex_file 10 1 ex_disk = Ret (Ok [98; 99], d') /\ on_disk 10240 d' ex_byte.
Proof.
  apply (File_read_at_correct ex_sb 10240 ex_disk ex_byte ex_nodes ex_node ex_file 10 1 ex_geometry ex_on_disk ex_fs_ok).
  - reflexivity.
  - exact ex_opened.
  - lia.
  - lia.
Defined.

(** C6. Writing to a file replaces the bytes from the offset (at most the file's
    size) on by the whole buffer and reports its length: while the disk has the
    zones the file comes to need, data and indirect, the file holds the new
    contents, on the disk as in the open file, its other attributes are kept,
    every other file keeps its inode and its contents, and the zone bitmap, the
    inodes and the indirect zones of all of them stay consistent. *)
Theorem File_write_at_correct {D : Type} `{DiskLaws D} sb N (d : D) f M n self buf offset :
  geometry sb N -> on_disk N d f -> fs_ok sb f M -> M !! fl_ino self = Some n -> opened sb f n self ->
  bytes buf -> 0 <= offset ->
  let off := Z.min offset (i_size (inode_at sb f (fl_ino self))) in let stop := off + Z.of_nat (length buf) in
  stop < 2 ^ 32 -> (Z.to_nat (div_ceil stop (zsize sb)) <= max_zones sb)%nat ->
  zones_needed sb (nd_zones n) stop <= nfree sb f ->
  exists self' d' f', File_write_at sb self buf offset d = Ret (Ok (Z.of_nat (length buf), self'), d') /\
    on_disk N d' f' /\ file_written sb f M n self off buf self' f'.
Proof.
  intros G Hd Hfs Hn Ho Hb Hoff off stop Hstop Hcap Hneed.
  destruct (File_write_at_ok sb N G f M n self buf offset
    (fun r f' => r.1 = Z.of_nat (length buf) /\ file_written sb f M n self off buf r.2 f'))
    with (d := d) as ([k self'] & d' & f' & E & Hd' & Ek & W); try done.
  cbn in Ek. subst k. by exists self', d', f'.
Qed.

Lemma File_write_at_witness : exists self' d' f',
  File_write_at ex_sb ex_file (replicate 1022 120) 7 ex_disk = Ret (Ok (1022, self'), d') /\
  on_disk 10240 d' f' /\ file_written ex_sb ex_byte ex_nodes ex_node ex_file 3 (replicate 1022 120) self' f'.
Proof.
  apply (File_write_at_correct ex_sb 10240 ex_disk ex_byte ex_nodes ex_node ex_file (replicate 1022 120) 7
    ex_geometry ex_on_disk ex_fs_ok).
  - reflexivity.
  - exact ex_opened.
  - by apply Forall_replicate.
  - lia.
  - reflexivity.
  - transitivity 2%nat; [by apply Nat.leb_le|unfold max_zones; lia].
  - vm_compute. congruence.
Defined.
