(* ===== verification/MinixDir.v ===== *)
(** * MinixDir: directories of the MINIX file system

    The directory operations of [src/fs/minix/write.rs] (creating and removing
    files, links and directories), the directory iterator of
    [src/fs/minix/dir.rs] and the path resolution of [src/fs/minix/open.rs]. As
    in [Minix], an operation is what runs while the device is locked. *)

From Stdlib Require Import Ascii.
From S2P Require Import Prelude Bitmap BitFields Abi Paths Bytes Disk Minix.

(** ** Names *)

(** A string is its bytes. *)
Definition byte_ascii (b : Z) : ascii := ascii_of_N (Z.to_N b).
Definition ascii_byte (c : ascii) : Z := Z.of_N (N_of_ascii c).
Definition bytes_str (l : list Z) : str := byte_ascii <$> l.
Definition str_bytes (s : str) : list Z := ascii_byte <$> s.

Definition file_type (mode : Z) : Z := bits_get 12 15 mode.
Definition FileType_DIR : Z := 4.
Definition FileType_REG : Z := 8.
Definition FileType_LNK : Z := 10.

(** [Mode::from(u16::from(FileType::...) << 12 | permissions)] *)
Definition Mode_of (type permissions : Z) : Z := Z.lor (Z.shiftl type 12) permissions.

Definition valid_name (sb : DiskSuperBlock) (name : str) : bool :=
  let max_name := if magic sb =? MinixFsMagic_V1_30 then 30%nat else 14%nat in
  negb (bool_decide (name = [])) && (length name <=? max_name)%nat && negb (bool_decide (sep ∈ name)).

Definition entry_size (sb : DiskSuperBlock) : Z := if magic sb =? MinixFsMagic_V1_30 then 32 else 16.

(** ** Slots of a directory block *)

(** [block[lo..hi]] *)
Definition range_of (block : list Z) (lo hi : Z) : outcome (list Z) :=
  if (lo <=? hi) && (hi <=? Z.of_nat (length block))
  then Ret (take (Z.to_nat (hi - lo)) (drop (Z.to_nat lo) block)) else Panic.

(** [(0..zone_size).step_by(entry_size)] *)
Definition slots (zone_size entry_size : Z) : list Z :=
  (fun i => i * entry_size) <$> seqZ 0 (div_ceil zone_size entry_size).

(** [u16::from_le_bytes([block[slot], block[slot + 1]])] *)
Definition slot_ino (block : list Z) (slot : Z) : outcome Z :=
  a ← expect (block !! Z.to_nat slot);
  b ← expect (block !! Z.to_nat (slot + 1));
  Ret (from_le_bytes [a; b]).

(** The bytes before the first NUL, and [""] when they are not UTF-8. *)
Definition slot_name (raw : list Z) : str :=
  let name := until_zero raw in
  if utf8_valid name then bytes_str name else [].

(** The first slot that passes the test. *)
Fixpoint find_slot (test : Z -> outcome bool) (slots : list Z) : outcome (option Z) :=
  match slots with
  | [] => Ret None
  | slot :: slots =>
      found ← test slot;
      if found : bool then Ret (Some slot) else find_slot test slots
  end.

(** A slot in use whose name passes the test. *)
Definition slot_named (entry_size : Z) (block : list Z) (p : str -> bool) (slot : Z) : outcome bool :=
  ino ← slot_ino block slot;
  if ino =? 0 then Ret false
  else
    raw ← range_of block (slot + 2) (slot + entry_size);
    Ret (p (slot_name raw)).

Definition slot_free (block : list Z) (slot : Z) : outcome bool :=
  ino ← slot_ino block slot;
  Ret (ino =? 0).

(** [block[offset..offset + bytes.len()].copy_from_slice(bytes)] *)
Definition copy_into (block : list Z) (offset : Z) (bytes : list Z) : outcome (list Z) :=
  if offset + Z.of_nat (length bytes) <=? Z.of_nat (length block)
  then Ret (take (Z.to_nat offset) block ++ bytes ++ drop (Z.to_nat offset + length bytes) block)
  else Panic.

Definition write_dir_slot (block : list Z) (offset entry_size ino : Z) (name : str) : outcome (list Z) :=
  raw ← copy_into (replicate 32 0) 0 (to_le_bytes 2 ino);
  raw ← copy_into raw 2 (str_bytes name);
  raw ← range_of raw 0 entry_size;
  copy_into block offset raw.

Section Dirs.
Context {D : Type} `{BlockDevice D}.
Context (sb : DiskSuperBlock).

(** ** Searching a directory *)

(** [for zone in zones { let block = ...; ... }] with an early return. *)
Fixpoint scan_zones {R} (visit : Z -> list Z -> io D (option R)) (zone_size : Z) (zones : list Z)
    : io D (option R) :=
  match zones with
  | [] => mret None
  | zone :: zones =>
      block ← read_zone_into sb zone zone_size;
      r ← visit zone block;
      match r with
      | Some r => mret (Some r)
      | None => scan_zones visit zone_size zones
      end
  end.

Definition find_dir_entry_ino (dir_ino : Z) (name : str) : io D (option Z) :=
  let entry_size := entry_size sb in
  zone_size ← io_pure (DiskSuperBlock_zone_size sb);
  dir ← read_inode sb dir_ino;
  zones ← data_zones sb dir;
  scan_zones (fun zone block =>
    slot ← io_pure (find_slot (slot_named entry_size block (fun n => bool_decide (n = name)))
                      (slots zone_size entry_size));
    match slot with
    | Some slot => ino ← io_pure (slot_ino block slot); mret (Some ino)
    | None => mret None
    end) zone_size zones.

Definition remove_dir_entry (dir_ino : Z) (name : str) : io D bool :=
  let entry_size := entry_size sb in
  zone_size ← io_pure (DiskSuperBlock_zone_size sb);
  dir ← read_inode sb dir_ino;
  zones ← data_zones sb dir;
  found ← scan_zones (fun zone block =>
    slot ← io_pure (find_slot (slot_named entry_size block (fun n => bool_decide (n = name)))
                      (slots zone_size entry_size));
    match slot with
    | Some slot =>
        block ← io_pure (copy_into block slot (replicate (Z.to_nat entry_size) 0));
        _ ← write_zone sb zone block;
        mret (Some tt)
    | None => mret None
    end) zone_size zones;
  mret (match found with Some _ => true | None => false end).

(** ** Adding an entry *)

(** The loop over the blocks of the directory. Every round past the zones of
    the directory takes a zone of the disk, of which there are at most 2^16. *)
Fixpoint add_dir_entry_loop (fuel : nat) (zone_size : Z) (dir_ino : Z) (name : str) (new_ino : Z)
    (dir : DiskInode) (zones : list Z) (block_index : nat) : io D unit :=
  match fuel with
  | O => io_pure Panic
  | S fuel =>
      more ← (if (length zones <=? block_index)%nat then
                zone ← alloc_zone sb;
                match zone with
                | None => mret None
                | Some zone =>
                    let zones := zones ++ [zone] in
                    dir ← write_file_zones sb dir zones;
                    mret (Some (dir, zones))
                end
              else mret (Some (dir, zones)));
      match more with
      | None => mret tt
      | Some (dir, zones) =>
          let entry_size := entry_size sb in
          zone ← io_pure (expect (zones !! block_index));
          block ← read_zone_into sb zone zone_size;
          slot ← io_pure (find_slot (slot_free block) (slots zone_size entry_size));
          match slot with
          | Some slot =>
              block ← io_pure (write_dir_slot block slot entry_size new_ino name);
              _ ← write_zone sb zone block;
              let end_ := Z.of_nat block_index * zone_size + slot + entry_size in
              if i_size dir <? end_ then write_inode sb dir_ino (set_size dir (wrap 32 end_))
              else mret tt
          | None => add_dir_entry_loop fuel zone_size dir_ino name new_ino dir zones (S block_index)
          end
      end
  end.

Definition add_dir_entry_at (dir_ino : Z) (name : str) (new_ino : Z) : io D unit :=
  zone_size ← io_pure (DiskSuperBlock_zone_size sb);
  dir ← read_inode sb dir_ino;
  zones ← data_zones sb dir;
  add_dir_entry_loop (length zones + Z.to_nat (nzones sb) + 1) zone_size dir_ino name new_ino dir zones 0.

(** ** Creating and removing files *)

Definition alloc_empty_inode (mode : Z) : io D (option Z) :=
  ino ← alloc_inode sb;
  match ino with
  | None => mret None
  | Some ino =>
      _ ← write_inode sb ino (mkInode mode 0 0 0 0 1 (replicate 9 0));
      mret (Some ino)
  end.

Fixpoint free_zones (zones : list Z) : io D unit :=
  match zones with
  | [] => mret tt
  | zone :: zones => _ ← free_zone sb zone; free_zones zones
  end.

Definition free_inode_blocks_at (ino : Z) : io D unit :=
  inode ← read_inode sb ino;
  zones ← data_zones sb inode;
  _ ← free_zones zones;
  z7 ← io_pure (expect (i_zone inode !! 7%nat));
  _ ← (if negb (z7 =? 0) then free_zone sb z7 else mret tt);
  z8 ← io_pure (expect (i_zone inode !! 8%nat));
  _ ← (if negb (z8 =? 0) then
         inds ← zone_table sb z8;
         _ ← free_zones inds;
         free_zone sb z8
       else mret tt);
  _ ← write_inode sb ino (mkInode 0 0 0 0 0 0 (replicate 9 0));
  free_inode sb ino.

(** [if let Err(err) = call { let _ = undo; return Err(err) }] *)
Definition or_undo {A} (call : io D A) (undo : io D unit) : io D A :=
  r ← io_attempt call;
  match r with
  | Ok a => mret a
  | Err err => _ ← io_attempt undo; io_fail err
  end.

Definition create_file (dir_ino : Z) (name : str) : io D (option Z) :=
  if negb (valid_name sb name) then mret None
  else
    ino ← alloc_empty_inode (Mode_of FileType_REG 420);
    match ino with
    | None => mret None
    | Some ino =>
        _ ← or_undo (add_dir_entry_at dir_ino name ino) (free_inode sb ino);
        mret (Some ino)
    end.

Definition link (old_ino dir_ino : Z) (name : str) : io D bool :=
  if negb (valid_name sb name) || (old_ino =? 0) || (ninodes sb <? old_ino) then mret false
  else
    inode ← read_inode sb old_ino;
    if (i_nlinks inode =? 0) || (i_nlinks inode =? 255) then mret false
    else if file_type (i_mode inode) =? FileType_DIR then mret false
    else
      _ ← add_dir_entry_at dir_ino name old_ino;
      _ ← write_inode sb old_ino (set_nlinks inode (i_nlinks inode + 1));
      mret true.

Definition unlink (dir_ino : Z) (name : str) : io D bool :=
  if negb (valid_name sb name) then mret false
  else
    ino ← find_dir_entry_ino dir_ino name;
    match ino with
    | None => mret false
    | Some ino =>
        inode ← read_inode sb ino;
        if file_type (i_mode inode) =? FileType_DIR then mret false
        else
          removed ← remove_dir_entry dir_ino name;
          if negb removed then mret false
          else
            let nlinks := Z.max 0 (i_nlinks inode - 1) in
            _ ← (if nlinks =? 0 then free_inode_blocks_at ino
                 else write_inode sb ino (set_nlinks inode nlinks));
            mret true
    end.

Definition symlink (dir_ino : Z) (name target : str) : io D (option Z) :=
  if negb (valid_name sb name) || bool_decide (target = []) then mret None
  else
    ino ← alloc_empty_inode (Mode_of FileType_LNK 511);
    match ino with
    | None => mret None
    | Some ino =>
        inode ← read_inode sb ino;
        zone_size ← io_pure (DiskSuperBlock_zone_size sb);
        let file := File_new (Path_new []) ino inode zone_size [] in
        '(done, _) ← or_undo (File_write_at sb file (str_bytes target) 0) (free_inode_blocks_at ino);
        if negb (done =? Z.of_nat (length target)) then
          _ ← io_attempt (free_inode_blocks_at ino);
          mret None
        else
          _ ← or_undo (add_dir_entry_at dir_ino name ino) (free_inode_blocks_at ino);
          mret (Some ino)
    end.

(** ** Directories *)

Definition create_dir (dir_ino : Z) (name : str) : io D (option Z) :=
  if negb (valid_name sb name) then mret None
  else
    ino ← alloc_empty_inode (Mode_of FileType_DIR 493);
    match ino with
    | None => mret None
    | Some ino =>
        let entry_size := entry_size sb in
        zone_size ← io_pure (DiskSuperBlock_zone_size sb);
        zone ← alloc_zone sb;
        match zone with
        | None => _ ← io_attempt (free_inode sb ino); mret None
        | Some zone =>
            block ← io_pure (write_dir_slot (replicate (Z.to_nat zone_size) 0) 0 entry_size ino [dot]);
            block ← io_pure (write_dir_slot block entry_size entry_size dir_ino [dot; dot]);
            _ ← write_zone sb zone block;
            inode ← read_inode sb ino;
            _ ← write_inode sb ino (set_size (set_zone (set_nlinks inode 2) 0 zone) (2 * entry_size));
            _ ← or_undo (add_dir_entry_at dir_ino name ino)
                  (_ ← io_attempt (free_zone sb zone); free_inode sb ino);
            parent ← read_inode sb dir_ino;
            _ ← write_inode sb dir_ino (set_nlinks parent (Z.min 255 (i_nlinks parent + 1)));
            mret (Some ino)
        end
    end.

Definition remove_dir (dir_ino : Z) (name : str) : io D bool :=
  if negb (valid_name sb name) then mret false
  else
    ino ← find_dir_entry_ino dir_ino name;
    match ino with
    | None => mret false
    | Some ino =>
        inode ← read_inode sb ino;
        if negb (file_type (i_mode inode) =? FileType_DIR) then mret false
        else
          let entry_size := entry_size sb in
          zone_size ← io_pure (DiskSuperBlock_zone_size sb);
          zones ← data_zones sb inode;
          other ← scan_zones (fun _ block =>
            io_pure (find_slot (slot_named entry_size block
                (fun n => negb (bool_decide (n = [dot])) && negb (bool_decide (n = [dot; dot]))))
              (slots zone_size entry_size))) zone_size zones;
          match other with
          | Some _ => mret false
          | None =>
              removed ← remove_dir_entry dir_ino name;
              if negb removed then mret false
              else
                parent ← read_inode sb dir_ino;
                _ ← write_inode sb dir_ino (set_nlinks parent (Z.max 0 (i_nlinks parent - 1)));
                _ ← free_inode_blocks_at ino;
                mret true
          end
    end.

Definition remove (dir_ino : Z) (name : str) : io D bool :=
  ino ← find_dir_entry_ino dir_ino name;
  match ino with
  | None => mret false
  | Some ino =>
      inode ← read_inode sb ino;
      if file_type (i_mode inode) =? FileType_DIR then remove_dir dir_ino name else unlink dir_ino name
  end.

(** ** The directory iterator *)

Record DirEntry : Type := mkDirEntry { de_ino : Z; de_name : str }.

Record DirEntries : Type := mkDirEntries {
  it_zone_size : Z;
  it_zones : list Z;
  it_next_zone : nat;
  it_remaining : Z;
  it_buffer : list Z;
  it_offset : Z;
  it_entry_size : Z;
  it_failed : bool
}.

(** [MinixString::to_string]: the ASCII characters before the first NUL. *)
Definition minix_string (raw : list Z) : str :=
  bytes_str (filter (fun b => b < 128) (until_zero raw)).

Definition parse_slot (chunk : list Z) : option DirEntry :=
  let ino := le_at 0 2 chunk in
  let name := minix_string (drop 2 chunk) in
  if negb (ino =? 0) && negb (bool_decide (name = [])) then Some (mkDirEntry ino name) else None.

Definition DirEntries_new (zone_size : Z) (zones : list Z) (remaining entry_size : Z) : DirEntries :=
  mkDirEntries zone_size zones 0 remaining [] 0 entry_size false.

Definition dir_entries_iter (inode : DiskInode) : io D DirEntries :=
  zones ← data_zones sb inode;
  zone_size ← io_pure (DiskSuperBlock_zone_size sb);
  mret (DirEntries_new zone_size zones (i_size inode) (entry_size sb)).

(** The next block is read when the buffer holds no whole slot: [inl] ends the
    call, [inr] goes on. *)
Definition DirEntries_fill (self : DirEntries)
    : io D (option (result IoError DirEntry) * DirEntries + DirEntries) :=
  if Z.of_nat (length (it_buffer self)) <? it_offset self + it_entry_size self then
    if it_remaining self =? 0 then mret (inl (None, self))
    else
      match it_zones self !! it_next_zone self with
      | None => mret (inl (None, self))
      | Some zone =>
          let chunk_len := Z.min (it_zone_size self) (it_remaining self) in
          buffer ← io_attempt (read_zone_into sb zone chunk_len);
          match buffer with
          | Err err =>
              mret (inl (Some (Err err), mkDirEntries (it_zone_size self) (it_zones self)
                (S (it_next_zone self)) (it_remaining self) (resize (Z.to_nat chunk_len) (it_buffer self))
                (it_offset self) (it_entry_size self) true))
          | Ok buffer =>
              mret (inr (mkDirEntries (it_zone_size self) (it_zones self) (S (it_next_zone self))
                (it_remaining self - chunk_len) buffer 0 (it_entry_size self) false))
          end
      end
  else mret (inr self).

(** The loop of [next]. Every round takes a slot of the bytes that remain. *)
Fixpoint DirEntries_loop (fuel : nat) (self : DirEntries)
    : io D (option (result IoError DirEntry) * DirEntries) :=
  match fuel with
  | O => io_pure Panic
  | S fuel =>
      filled ← DirEntries_fill self;
      match filled with
      | inl r => mret r
      | inr self =>
          chunk ← io_pure (range_of (it_buffer self) (it_offset self) (it_offset self + it_entry_size self));
          let self := mkDirEntries (it_zone_size self) (it_zones self) (it_next_zone self)
            (it_remaining self) (it_buffer self) (it_offset self + it_entry_size self)
            (it_entry_size self) (it_failed self) in
          match parse_slot chunk with
          | Some entry => mret (Some (Ok entry), self)
          | None => DirEntries_loop fuel self
          end
      end
  end.

(** The bytes that are left bound the rounds. *)
Definition bytes_left (self : DirEntries) : nat :=
  Z.to_nat (it_remaining self) + length (it_buffer self) - Z.to_nat (it_offset self).

Definition DirEntries_next (self : DirEntries) : io D (option (result IoError DirEntry) * DirEntries) :=
  if it_failed self then mret (None, self) else DirEntries_loop (S (bytes_left self)) self.

(** [collect] into an [IoResult<Vec<DirEntry>>]. *)
Fixpoint DirEntries_collect (fuel : nat) (self : DirEntries) (out : list DirEntry) : io D (list DirEntry) :=
  match fuel with
  | O => io_pure Panic
  | S fuel =>
      '(item, self) ← DirEntries_next self;
      match item with
      | None => mret out
      | Some (Err err) => io_fail err
      | Some (Ok entry) => DirEntries_collect fuel self (out ++ [entry])
      end
  end.

Definition dir_entries (inode : DiskInode) : io D (list DirEntry) :=
  iter ← dir_entries_iter inode;
  DirEntries_collect (S (bytes_left iter)) iter [].

(** The loop of [resolve_path] over the entries. *)
Fixpoint find_entry (fuel : nat) (self : DirEntries) (name : str) : io D (option Z) :=
  match fuel with
  | O => io_pure Panic
  | S fuel =>
      '(item, self) ← DirEntries_next self;
      match item with
      | None => mret None
      | Some (Err err) => io_fail err
      | Some (Ok entry) =>
          if bool_decide (de_name entry = name) then mret (Some (de_ino entry))
          else find_entry fuel self name
      end
  end.

(** ** Opening a path *)

Definition MAX_SYMLINK_HOPS : nat := 40.

(** [split(PATH_SEPARATOR).filter(|s| !s.is_empty())] *)
Definition name_parts (s : str) : list str := filter (fun p => p <> []) (split_sep s).

(** One round of the loop: the directory entry and its inode. *)
Definition lookup_name (dir : DiskInode) (name : str) : io D (option (Z * DiskInode)) :=
  iter ← dir_entries_iter dir;
  next_ino ← find_entry (S (bytes_left iter)) iter name;
  match next_ino with
  | None => mret None
  | Some next_ino => next ← read_inode sb next_ino; mret (Some (next_ino, next))
  end.

(** The target of a symbolic link, and the directory it starts from. *)
Definition follow (next : DiskInode) (dir_ino : Z) (dir : DiskInode) : io D (str * Z * DiskInode) :=
  target ← data sb next;
  let target := bytes_str (from_utf8_lossy target) in
  if starts_with_sep target then
    root ← read_inode sb 1;
    mret (target, 1, root)
  else mret (target, dir_ino, dir).

(** The loop over the queue of components. [hops] is the number of links that
    may still be followed; a link puts the parts of its target in front. *)
Fixpoint resolve_loop (hops : nat) : list str -> Z -> DiskInode -> io D (option (Z * DiskInode)) :=
  fix walk (components : list str) (dir_ino : Z) (dir : DiskInode) :=
    match components with
    | [] => mret (Some (dir_ino, dir))
    | name :: components =>
        found ← lookup_name dir name;
        match found with
        | None => mret None
        | Some (next_ino, next) =>
            if file_type (i_mode next) =? FileType_LNK then
              match hops with
              | O => mret None
              | S hops =>
                  '(target, dir_ino, dir) ← follow next dir_ino dir;
                  resolve_loop hops (name_parts target ++ components) dir_ino dir
              end
            else if negb (bool_decide (components = [])) && negb (file_type (i_mode next) =? FileType_DIR)
            then mret None
            else walk components next_ino next
        end
    end.

Definition resolve_path (path : Path) (hops : nat) : io D (option File) :=
  let components := name_parts (inner path) in
  dir ← read_inode sb 1;
  found ← resolve_loop (MAX_SYMLINK_HOPS - hops) components 1 dir;
  match found with
  | None => mret None
  | Some (dir_ino, dir) =>
      zones ← data_zones sb dir;
      zone_size ← io_pure (DiskSuperBlock_zone_size sb);
      mret (Some (File_new path dir_ino dir zone_size zones))
  end.

Definition open (path : Path) : io D (option File) := resolve_path path 0.

End Dirs.
