(* ===== verification/MinixTree.v ===== *)
(** * MinixTree: steps that change a file system by one file

    Creating, changing and removing a file leave all other files as they are:
    [keeps] says that a file is untouched, and the lemmas here show that the
    single writes of the directory operations keep the file system consistent. *)

From stdpp Require Import gmap.
From S2P Require Import Prelude Bitmap BitFields Paths Bytes Disk Minix MinixDisk MinixZones MinixFile MinixDir.

Section Tree.
Context {D : Type} `{DiskLaws D} (sb : DiskSuperBlock) (N : Z) (G : geometry sb N).
Abbreviation zs := (zsize sb).
Abbreviation contents := (Z -> Z).

(** The file [ino] with its zones is as it was. *)
Record keeps (f f' : contents) (ino : Z) (n : node) : Prop := {
  kp_inode : inode_at sb f' ino = inode_at sb f ino;
  kp_used z : z ∈ node_all n -> zone_used sb f' z = zone_used sb f z;
  kp_bytes z i : z ∈ node_all n -> in_zone sb z i -> f' i = f i
}.

Definition file_is (f : contents) (ino : Z) (n : node) : Prop :=
  file_ok sb f (inode_at sb f ino) (nd_zones n) (nd_z7 n) (nd_z8 n) (nd_inds n).

Definition all_keep (f f' : contents) (M : gmap Z node) : Prop :=
  forall ino n, M !! ino = Some n -> keeps f f' ino n.

Lemma keeps_refl f ino n : keeps f f ino n.
Proof. by split. Qed.

Lemma node_keeps_trans f f1 f2 ino n : keeps f f1 ino n -> keeps f1 f2 ino n -> keeps f f2 ino n.
Proof.
  intros [A1 A2 A3] [B1 B2 B3]. split; [by rewrite B1| |].
  - intros z Hz. by rewrite B2, A2.
  - intros z i Hz Hi. by rewrite (B3 z), (A3 z).
Qed.

Lemma file_zones f ino n : file_is f ino n -> Forall (data_zone sb) (node_all n).
Proof. intros [L _ _]. exact (owned_zones _ _ _ (ly_owned _ _ _ _ _ _ _ L)). Qed.

Lemma table_kept f f' z : (forall i, in_zone sb z i -> f' i = f i) -> table_at sb f' z = table_at sb f z.
Proof. intros Hi. unfold table_at. f_equal. apply slice_ext. intros i Hi'. by apply Hi. Qed.

Lemma keeps_file f f' ino n : keeps f f' ino n -> file_is f ino n ->
  file_is f' ino n /\ content sb f' ino n = content sb f ino n.
Proof.
  intros [K1 K2 K3] Hf. pose proof (file_zones _ _ _ Hf) as Hd. destruct Hf as [L Hs Hi].
  unfold file_is. rewrite K1. split; [split; [|done|done]|].
  - apply (layout_kept sb f f' (inode_at sb f ino)); [done|exact K2| |done].
    intros z Hz. apply table_kept. intros i. apply K3, elem_of_app. by right.
  - unfold content. rewrite K1. apply slice_ext. intros k Hk. unfold fbyte.
    destruct (zone_index sb N G (nd_zones n) k ltac:(lia)) as [z Hz].
    rewrite (nth_lookup_Some _ _ _ _ Hz). apply (K3 z).
    + apply elem_of_app. left. by eapply list_elem_of_lookup_2.
    + pose proof (mod_zs sb N G k). unfold in_zone. lia.
Qed.

(** The file system after a change, file by file. *)
Lemma fs_ok_change f f' M : fs_ok sb f M -> zmap_padded sb f' -> imap_padded sb f' ->
  (forall ino n, M !! ino = Some n -> inode_used sb f' ino = true /\ (keeps f f' ino n \/ file_is f' ino n)) ->
  fs_ok sb f' M.
Proof.
  intros Hfs Hz Hi Hall. split; [done|done| | |apply Hfs].
  - intros ino n Hn. destruct (fk_file _ _ _ Hfs ino n Hn) as [Hr Hf]. split; [done|].
    destruct (Hall ino n Hn) as [_ [Hk|?]]; [|done]. by apply (keeps_file f f' ino n).
  - intros ino n Hn. by apply (Hall ino n).
Qed.

Lemma fs_ok_insert f M ino n : fs_ok sb f M -> 1 <= ino <= ninodes sb -> file_is f ino n ->
  inode_used sb f ino = true ->
  (forall i m z, M !! i = Some m -> i <> ino -> z ∈ node_all m -> z ∉ node_all n) ->
  fs_ok sb f (<[ino := n]> M).
Proof.
  intros Hfs Hr Hf Hu Hdis. split; [apply Hfs|apply Hfs| | |].
  - intros i m [[<- <-]|[_ Hm]]%lookup_insert_Some; [done|by apply (fk_file _ _ _ Hfs)].
  - intros i m [[<- <-]|[_ Hm]]%lookup_insert_Some; [done|by apply (fk_used _ _ _ Hfs i m)].
  - intros i1 i2 m1 m2 H1 H2 Hne z. apply lookup_insert_Some in H1 as [[<- <-]|[Hi1 H1]];
      apply lookup_insert_Some in H2 as [[<- <-]|[Hi2 H2]]; [done| | |].
    + intros Hz Hz'. by apply (Hdis i2 m2 z).
    + by apply Hdis with i1.
    + by apply (fk_disjoint _ _ _ Hfs i1 i2).
Qed.

Lemma fs_ok_delete f M ino : fs_ok sb f M -> fs_ok sb f (delete ino M).
Proof.
  intros Hfs. split; [apply Hfs|apply Hfs| | |].
  - intros i m [_ Hm]%lookup_delete_Some. by apply (fk_file _ _ _ Hfs).
  - intros i m [_ Hm]%lookup_delete_Some. by apply (fk_used _ _ _ Hfs i m).
  - intros i1 i2 m1 m2 [_ H1]%lookup_delete_Some [_ H2]%lookup_delete_Some. by apply (fk_disjoint _ _ _ Hfs).
Qed.

(** ** Writing an inode *)

Lemma inode_write_keeps f ino i ino' n' : 1 <= ino <= ninodes sb -> inode_ok i -> ino' <> ino ->
  file_is f ino' n' -> keeps f (splice f (inode_off sb ino) (DiskInode_bytes i)) ino' n'.
Proof.
  intros Hr Hi Hne Hf. pose proof (file_zones _ _ _ Hf) as Hd. rewrite Forall_forall in Hd.
  pose proof (inode_write_same sb N G f ino i Hr Hi) as Hs. split.
  - by apply inode_at_write_ne.
  - intros z Hz. apply (same_used sb N G f _ Hs). by apply Hd.
  - intros z k Hz Hk. apply (same_zone_bytes sb N G f _ Hs z); [by apply Hd|done].
Qed.

Lemma inode_write_used f ino i ino' : 1 <= ino <= ninodes sb -> inode_ok i -> 1 <= ino' <= ninodes sb ->
  inode_used sb (splice f (inode_off sb ino) (DiskInode_bytes i)) ino' = inode_used sb f ino'.
Proof.
  intros Hr Hi Hr'. apply (inode_used_low sb N G); [|done]. intros k Hk.
  apply (inode_write_same sb N G); [done|done|]. pose proof (layout_order_facts sb N G). lia.
Qed.

(** An inode of the file system with other attributes and the same zones. *)
Lemma write_inode_fs f M ino n i : fs_ok sb f M -> M !! ino = Some n -> inode_ok i ->
  i_zone i = i_zone (inode_at sb f ino) -> i_size i <= room sb (nd_zones n) ->
  let f' := splice f (inode_off sb ino) (DiskInode_bytes i) in
  fs_ok sb f' M /\ inode_at sb f' ino = i /\
  (forall ino' n', ino' <> ino -> M !! ino' = Some n' -> keeps f f' ino' n').
Proof.
  intros Hfs Hn Hi Ez Hsz f'. destruct (fk_file _ _ _ Hfs ino n Hn) as [Hr Hf].
  pose proof (inode_write_same sb N G f ino i Hr Hi) as Hs.
  assert (Hk : forall ino' n', ino' <> ino -> M !! ino' = Some n' -> keeps f f' ino' n').
  { intros ino' n' Hne Hn'. apply inode_write_keeps; [done|done|done|]. by apply (fk_file _ _ _ Hfs ino' n'). }
  assert (Ei : inode_at sb f' ino = i) by by apply inode_at_write.
  split; [|split; [exact Ei|exact Hk]].
  apply (fs_ok_change f); [done| | |].
  - apply (same_zmap_padded sb N G f _ Hs), Hfs.
  - apply (same_imap_padded sb N G f _ Hs), Hfs.
  - intros ino' n' Hn'. destruct (fk_file _ _ _ Hfs ino' n' Hn') as [Hr' _].
    unfold f'. rewrite inode_write_used by done. split; [by apply (fk_used _ _ _ Hfs ino' n')|]. fold f'.
    destruct (decide (ino' = ino)) as [->|Hne]; [right|left; by apply Hk].
    rewrite Hn in Hn'. injection Hn' as <-. destruct Hf as [L _ _].
    unfold file_is. rewrite Ei. split; [|done|done]. by apply (same_layout sb N G f f' Hs (inode_at sb f ino)).
Qed.

(** An inode that belongs to no file. *)
Lemma write_inode_outside f M ino i : fs_ok sb f M -> M !! ino = None -> 1 <= ino <= ninodes sb -> inode_ok i ->
  let f' := splice f (inode_off sb ino) (DiskInode_bytes i) in
  fs_ok sb f' M /\ all_keep f f' M /\ inode_at sb f' ino = i /\ nfree sb f' = nfree sb f /\
  forall z, data_zone sb z -> zone_used sb f' z = zone_used sb f z.
Proof.
  intros Hfs HM Hr Hi f'. pose proof (inode_write_same sb N G f ino i Hr Hi) as Hs.
  assert (Hk : all_keep f f' M).
  { intros j n Hn. apply inode_write_keeps; [done|done|congruence|]. by apply (fk_file _ _ _ Hfs j n). }
  assert (Hu : forall z, data_zone sb z -> zone_used sb f' z = zone_used sb f z)
    by (intros z Hz; by apply (same_used sb N G f f' Hs)).
  split; [|split; [done|split; [by apply inode_at_write|split; [by apply nfree_ext|done]]]].
  apply (fs_ok_change f); [done|by apply (same_zmap_padded sb N G f f' Hs), Hfs
    |by apply (same_imap_padded sb N G f f' Hs), Hfs|].
  intros j n Hn. split; [|left; by apply Hk]. destruct (fk_file _ _ _ Hfs j n Hn) as [Hrj _].
  unfold f'. rewrite inode_write_used by done. by apply (fk_used _ _ _ Hfs j n).
Qed.

(** ** Writing to a zone of a file *)

Lemma zone_write_fs f M ino n z off buf : fs_ok sb f M -> M !! ino = Some n -> z ∈ nd_zones n ->
  z * zs <= off -> off + Z.of_nat (length buf) <= z * zs + zs ->
  let f' := splice f off buf in
  fs_ok sb f' M /\ (forall i, 1 <= i <= ninodes sb -> inode_at sb f' i = inode_at sb f i) /\ nfree sb f' = nfree sb f /\
  (forall ino' n', ino' <> ino -> M !! ino' = Some n' -> keeps f f' ino' n').
Proof.
  intros Hfs Hn Hz Ho Hl f'. destruct (fk_file _ _ _ Hfs ino n Hn) as [Hr Hf].
  pose proof (file_zones _ _ _ Hf) as Hd. rewrite Forall_forall in Hd.
  assert (Hzd : data_zone sb z) by (apply Hd, elem_of_app; by left).
  assert (Hlow : forall i, i < itab sb + ninodes sb * 32 -> f' i = f i).
  { intros i Hi. apply splice_out. pose proof (in_zone_after sb N G z (z * zs) Hzd (zone_start sb N G z)). lia. }
  assert (Hout : forall z' i, z' <> z -> in_zone sb z' i -> f' i = f i).
  { intros z' i Hne Hi. apply splice_out. unfold in_zone in Hi. pose proof (zones_apart sb N G z z'). lia. }
  pose proof (layout_order_facts sb N G) as LO. pose proof (g_inodes _ _ G) as Gi.
  assert (Hu : forall z', data_zone sb z' -> zone_used sb f' z' = zone_used sb f z').
  { intros z' Hz'. apply (used_ext sb N G); [|done]. intros i Hi. apply Hlow. lia. }
  assert (Hin : forall i, 1 <= i <= ninodes sb -> inode_at sb f' i = inode_at sb f i).
  { intros i Hi. unfold inode_at. f_equal. apply slice_ext. intros k Hk. apply Hlow. unfold inode_off in Hk. lia. }
  assert (Hk : forall ino' n', ino' <> ino -> M !! ino' = Some n' -> keeps f f' ino' n').
  { intros ino' n' Hne Hn'. destruct (fk_file _ _ _ Hfs ino' n' Hn') as [Hr' Hf'].
    pose proof (file_zones _ _ _ Hf') as Hd'. rewrite Forall_forall in Hd'. split; [by apply Hin| |].
    - intros z' Hz'. by apply Hu, Hd'.
    - intros z' i Hz' Hi. apply (Hout z'); [|done]. intros ->.
      apply (fk_disjoint _ _ _ Hfs ino' ino n' n Hn' Hn Hne z Hz'). apply elem_of_app. by left. }
  split; [|split; [|split; [|exact Hk]]].
  - apply (fs_ok_change f); [done| | |].
    + intros j Hj. unfold bit_at. rewrite Hlow; [by apply Hfs|]. pose proof (g_zones _ _ G). lia.
    + intros j Hj. unfold bit_at. rewrite Hlow; [by apply Hfs|]. lia.
    + intros ino' n' Hn'. destruct (fk_file _ _ _ Hfs ino' n' Hn') as [Hr' _].
      rewrite (inode_used_low sb N G f) by (try done; intros; apply Hlow; lia).
      split; [by apply (fk_used _ _ _ Hfs ino' n')|].
      destruct (decide (ino' = ino)) as [->|Hne]; [right|left; by apply Hk].
      rewrite Hn in Hn'. injection Hn' as <-. destruct Hf as [L Hs Hi]. unfold file_is. rewrite Hin by done.
      split; [|done|done]. apply (layout_kept sb f f' (inode_at sb f ino)); [done| | |done].
      * intros z' Hz'. by apply Hu, Hd.
      * intros z' Hz'. apply table_kept. intros i. apply Hout. intros ->.
        destruct (owned_app_inv _ _ _ _ (ly_owned _ _ _ _ _ _ _ L)) as (_ & _ & Hdj). by apply (Hdj z).
  - exact Hin.
  - apply nfree_ext. exact Hu.
Qed.

(** ** Taking an inode *)

Definition empty_node : node := mkNode [] 0 0 [].
Definition new_inode (mode : Z) : DiskInode := mkInode mode 0 0 0 0 1 (replicate 9 0).

Lemma new_inode_ok mode : fits 16 mode -> inode_ok (new_inode mode).
Proof.
  intros Hm. unfold new_inode. split; cbn [i_mode i_uid i_size i_mtime i_gid i_nlinks i_zone]; try done.
  repeat (constructor; [done|]). constructor.
Qed.

(** A change of the inode bitmap only. *)
Lemma imap_step_keeps f f' o b M : fs_ok sb f M -> imap_step sb o b f f' ->
  all_keep f f' M /\ nfree sb f' = nfree sb f.
Proof.
  intros Hfs (Hs & _ & _). pose proof (layout_order_facts sb N G) as LO. pose proof (g_inodes _ _ G) as Gi.
  assert (Hhigh : forall i, zmap_off sb <= i -> f' i = f i) by (intros i Hi; apply Hs; lia).
  assert (Hu : forall z, data_zone sb z -> zone_used sb f' z = zone_used sb f z).
  { intros z Hz. apply (used_ext sb N G); [|done]. intros i Hi. apply Hhigh. lia. }
  split; [|by apply nfree_ext]. intros ino n Hn. destruct (fk_file _ _ _ Hfs ino n Hn) as [Hr Hf].
  pose proof (file_zones _ _ _ Hf) as Hd. rewrite Forall_forall in Hd. split.
  - unfold inode_at. f_equal. apply slice_ext. intros k Hk. apply Hhigh. unfold inode_off in Hk. lia.
  - intros z Hz. by apply Hu, Hd.
  - intros z i Hz Hi. apply Hhigh. pose proof (in_zone_after sb N G z i (Hd z Hz) Hi). lia.
Qed.

Lemma imap_step_zmap f f' o b : imap_step sb o b f f' -> zmap_padded sb f -> zmap_padded sb f'.
Proof.
  intros (Hs & _ & _) Hp j Hj. unfold bit_at. rewrite Hs; [by apply Hp|].
  pose proof (g_zones _ _ G). right. pose proof (Z.div_pos j 8). lia.
Qed.

Lemma imap_step_fs f f' o b M : fs_ok sb f M -> imap_step sb o b f f' ->
  (b = true \/ forall ino, o = Some ino -> M !! ino = None) -> fs_ok sb f' M.
Proof.
  intros Hfs Hst Hb. destruct (imap_step_keeps f f' o b M Hfs Hst) as [Hk _].
  apply (fs_ok_change f); [done|by eapply imap_step_zmap; [|apply Hfs]|apply Hst|].
  intros ino n Hn. split; [|left; by apply Hk]. destruct (fk_file _ _ _ Hfs ino n Hn) as [Hr _].
  destruct Hst as (_ & Hu & _). rewrite Hu by done. case_decide as E; [|by apply (fk_used _ _ _ Hfs ino n)].
  destruct Hb as [->|Hb]; [done|]. rewrite (Hb ino E) in Hn. done.
Qed.

Lemma empty_file f ino mode : inode_at sb f ino = new_inode mode -> fits 16 mode ->
  file_is f ino empty_node /\ content sb f ino empty_node = [].
Proof.
  intros E Hm. unfold file_is, content. rewrite E. split; [|done]. split; [|done|by apply new_inode_ok].
  split; [done|done|done|cbn; lia|]. split; [constructor|done].
Qed.

Lemma alloc_empty_inode_ok f M mode (Q : option Z -> contents -> Prop) : fs_ok sb f M -> fits 16 mode ->
  (forall f', (forall i, 1 <= i <= ninodes sb -> inode_used sb f i = true) -> fs_ok sb f' M -> all_keep f f' M ->
     Q None f') ->
  (forall ino f', inode_used sb f ino = false -> M !! ino = None -> inode_at sb f' ino = new_inode mode ->
     fs_ok sb f' (<[ino := empty_node]> M) -> all_keep f f' M -> nfree sb f' = nfree sb f -> Q (Some ino) f') ->
  triple N f (alloc_empty_inode sb mode) Q.
Proof.
  intros Hfs Hm HN HS. unfold alloc_empty_inode. apply triple_seq.
  apply (alloc_inode_ok sb N G); [apply Hfs|]. intros r f1 Hr Hstep.
  destruct (imap_step_keeps f f1 r true M Hfs Hstep) as [Hk Hnf].
  pose proof (imap_step_fs f f1 r true M Hfs Hstep (or_introl eq_refl)) as Hfs1.
  destruct r as [ino|]; cbn [first_in] in Hr.
  2: { apply triple_ret, HN; [|done|done]. intros i Hi. specialize (Hr i ltac:(lia)).
       by destruct (inode_used sb f i). }
  destruct Hr as (Hr & Hfree & _). apply negb_true_iff in Hfree.
  assert (HM : M !! ino = None).
  { destruct (M !! ino) as [n|] eqn:E; [|done]. pose proof (fk_used _ _ _ Hfs ino n E). congruence. }
  pose proof (new_inode_ok mode Hm) as Hok.
  apply triple_seq, (write_inode_ok sb N G); [lia|done|]. apply triple_ret.
  destruct (write_inode_outside f1 M ino (new_inode mode) Hfs1 HM ltac:(lia) Hok) as (Hfs2 & Hk2 & Ei & Hnf2 & _).
  set (f' := splice f1 (inode_off sb ino) (DiskInode_bytes (new_inode mode))) in *.
  destruct (empty_file f' ino mode Ei Hm) as [Hfile _].
  apply (HS ino f'); [done|done|done| | |by rewrite Hnf2].
  - apply fs_ok_insert; [done|lia|done| |intros i m z _ _ _; apply not_elem_of_nil].
    unfold f'. rewrite inode_write_used by (try done; lia). destruct Hstep as (_ & Hu & _).
    rewrite Hu by lia. by rewrite decide_True.
  - intros i n Hn. eapply node_keeps_trans; [by apply Hk|by apply Hk2].
Qed.

(** ** Giving a file back *)

(** The zones [l] were in use and are free now; nothing else changed. *)
Record freed (l : list Z) (f f' : contents) : Prop := {
  fr_same : same_outside (zmap_off sb) (itab sb) f f';
  fr_used z : data_zone sb z -> zone_used sb f' z = zone_used sb f z && negb (bool_decide (z ∈ l));
  fr_count : nfree sb f' = nfree sb f + Z.of_nat (length l);
  fr_padded : zmap_padded sb f'
}.

Lemma freed_nil f : zmap_padded sb f -> freed [] f f.
Proof.
  intros Hp. split; [done| |cbn; lia|done]. intros z _.
  rewrite bool_decide_eq_false_2 by apply not_elem_of_nil. by rewrite andb_true_r.
Qed.

Lemma freed_trans l1 l2 f f1 f2 : freed l1 f f1 -> freed l2 f1 f2 -> freed (l1 ++ l2) f f2.
Proof.
  intros [A1 A2 A3 A4] [B1 B2 B3 B4]. split; [| |rewrite length_app; lia|done].
  - intros i Hi. by rewrite B1, A1.
  - intros z Hz. rewrite B2, A2 by done. rewrite (bool_decide_ext (z ∈ l1 ++ l2) (z ∈ l1 \/ z ∈ l2)) by apply elem_of_app.
    repeat case_bool_decide; try tauto; by rewrite ?andb_true_r, ?andb_false_r.
Qed.

Lemma freed_owned l1 l2 f f1 : freed l1 f f1 -> owned sb f (l1 ++ l2) -> owned sb f1 l2.
Proof.
  intros [_ Hu _ _] Ho. destruct (owned_app_inv _ _ _ _ Ho) as (_ & [Hnd Hl2] & Hdj). split; [done|].
  rewrite Forall_forall in *. intros z Hz. destruct (Hl2 z Hz) as [Hd Hz']. split; [done|].
  rewrite Hu, Hz' by done. rewrite bool_decide_eq_false_2; [done|]. intros Hz1. by apply (Hdj z).
Qed.

Lemma free_zone_freed f z (Q : unit -> contents -> Prop) : zmap_padded sb f -> data_zone sb z ->
  zone_used sb f z = true -> (forall f', freed [z] f f' -> Q tt f') -> triple N f (free_zone sb z) Q.
Proof.
  intros Hp Hz Hu HQ. apply (free_zone_ok sb N G); [done|done|]. intros f' (Hs & Hu' & Hp').
  assert (Hb : forall z', data_zone sb z' -> zone_used sb f' z' = if decide (z' = z) then false else zone_used sb f z').
  { intros z' Hz'. rewrite Hu' by done. destruct (decide (z' = z)) as [->|]; [by rewrite decide_True|].
    by rewrite decide_False by congruence. }
  apply HQ. split; [done| | |done].
  - intros z' Hz'. rewrite Hb by done. rewrite (bool_decide_ext _ (z' = z)) by apply list_elem_of_singleton.
    case_decide as E; [subst z'; by rewrite bool_decide_eq_true_2, andb_false_r|].
    by rewrite bool_decide_eq_false_2, andb_true_r.
  - unfold nfree. set (l := seqZ _ _). unfold data_zone in Hz.
    pose proof (countb_update (fun y => negb (zone_used sb f y))
      (fun y => if decide (y = z) then true else negb (zone_used sb f y)) l z (NoDup_seqZ _ _)) as E.
    cbn beta in E. rewrite decide_True, Hu in E by done. cbn [negb] in E.
    rewrite (countb_ext (fun y => negb (zone_used sb f' y)) (fun y => if decide (y = z) then true else negb (zone_used sb f y))).
    + specialize (E ltac:(apply elem_of_seqZ; lia)). specialize (E ltac:(intros a Ha; by rewrite decide_False)).
      cbn [length]. lia.
    + intros y Hy%elem_of_seqZ. rewrite Hb by (unfold data_zone; lia). by case_decide.
Qed.

Lemma free_zones_ok l f (Q : unit -> contents -> Prop) : zmap_padded sb f -> owned sb f l ->
  (forall f', freed l f f' -> Q tt f') -> triple N f (free_zones sb l) Q.
Proof.
  revert f Q. induction l as [|z l IH]; intros f Q Hp Ho HQ; cbn [free_zones].
  { apply triple_ret, HQ. by apply freed_nil. }
  pose proof Ho as [_ Hl]. apply Forall_cons in Hl as [[Hz Hu] _].
  apply triple_seq, free_zone_freed; [done|done|done|]. intros f1 H1.
  apply IH; [apply H1|by apply (freed_owned [z] l f f1)|]. intros f2 H2.
  apply (HQ f2). exact (freed_trans [z] l f f1 f2 H1 H2).
Qed.

Lemma freed_perm l l' f f' : l ≡ₚ l' -> freed l f f' -> freed l' f f'.
Proof.
  intros Hl [A1 A2 A3 A4]. split; [done| |by rewrite <- Hl|done].
  intros z Hz. rewrite A2 by done. do 2 f_equal. apply bool_decide_ext. by rewrite Hl.
Qed.

Lemma freed_table l f f' z : freed l f f' -> data_zone sb z -> table_at sb f' z = table_at sb f z.
Proof.
  intros [Hs _ _ _] Hz. apply table_kept. intros i Hi. apply Hs.
  pose proof (in_zone_after sb N G z i Hz Hi). pose proof (g_inodes _ _ G). lia.
Qed.

Lemma zone_table_ok f z l (Q : list Z -> contents -> Prop) : z <> 0 -> data_zone sb z -> table_of sb f z l ->
  Forall (data_zone sb) l -> (length l <= per sb)%nat -> Q l f -> triple N f (zone_table sb z) Q.
Proof.
  intros Hz Hd Ht Hl Hlen HQ. unfold zone_table. destruct (Z.eqb_spec z 0); [done|].
  apply triple_seq, (read_zone_table_ok sb N G); [done|]. rewrite Ht.
  rewrite until_zero_resize by (try done; by apply (data_zone_nonzero sb N G)). by apply triple_ret.
Qed.

(** An optional zone, and the second-level table with the tables it names. *)
Definition opt_zone (z : Z) : list Z := if z =? 0 then [] else [z].

Lemma free_opt_ok f z (Q : unit -> contents -> Prop) : zmap_padded sb f -> owned sb f (opt_zone z) ->
  (forall f', freed (opt_zone z) f f' -> Q tt f') ->
  triple N f (if negb (z =? 0) then free_zone sb z else mret tt) Q.
Proof.
  intros Hp Ho HQ. unfold opt_zone in *. destruct (z =? 0); cbn [negb].
  - apply triple_ret, HQ. by apply freed_nil.
  - destruct Ho as [_ Ho]. apply Forall_cons in Ho as [[? ?] _]. by apply free_zone_freed.
Qed.

Lemma free_double_ok f z8 inds (Q : unit -> contents -> Prop) : zmap_padded sb f ->
  owned sb f (inds ++ opt_zone z8) -> (z8 = 0 -> inds = []) -> (z8 <> 0 -> table_of sb f z8 inds) ->
  (length inds <= per sb)%nat -> (forall f', freed (inds ++ opt_zone z8) f f' -> Q tt f') ->
  triple N f (if negb (z8 =? 0) then
                inds ← zone_table sb z8;
                _ ← free_zones sb inds;
                free_zone sb z8
              else mret tt) Q.
Proof.
  intros Hp Ho Hz8 Ht Hl HQ. unfold opt_zone in *. destruct (Z.eqb_spec z8 0) as [E|Hne]; cbn [negb].
  { rewrite (Hz8 E) in HQ. apply triple_ret, HQ. by apply freed_nil. }
  pose proof (owned_zones _ _ _ Ho) as Hd. apply Forall_app in Hd as [Hdi Hd8]. apply Forall_cons in Hd8 as [Hd8 _].
  apply triple_seq, (zone_table_ok f z8 inds); [done|done|by apply Ht|done|done|].
  apply triple_seq, free_zones_ok; [done|by apply (owned_app_inv _ _ _ _ Ho)|]. intros f1 H1.
  pose proof (freed_owned inds [z8] f f1 H1 Ho) as [_ Ho1]. apply Forall_cons in Ho1 as [[_ Hu] _].
  apply free_zone_freed; [apply H1|done|done|]. intros f2 H2. apply HQ. by eapply freed_trans.
Qed.

(** What is left when the file [ino] with its zones is gone. *)
Record file_gone (f : contents) (M : gmap Z node) (ino : Z) (n : node) (f' : contents) : Prop := {
  fg_ok : fs_ok sb f' (delete ino M);
  fg_keep : all_keep f f' (delete ino M);
  fg_inode : inode_used sb f' ino = false;
  fg_zones z : data_zone sb z -> zone_used sb f' z = zone_used sb f z && negb (bool_decide (z ∈ node_all n));
  fg_count : nfree sb f' = nfree sb f + Z.of_nat (length (node_all n))
}.

Lemma freed_fs f M ino n f1 : fs_ok sb f M -> M !! ino = Some n -> freed (node_all n) f f1 ->
  fs_ok sb f1 (delete ino M) /\ all_keep f f1 (delete ino M).
Proof.
  intros Hfs Hn [Hs Hu _ Hp]. pose proof (layout_order_facts sb N G) as LO. pose proof (g_inodes _ _ G) as Gi.
  assert (Hk1 : all_keep f f1 (delete ino M)).
  { intros i m [Hne Hm]%lookup_delete_Some. destruct (fk_file _ _ _ Hfs i m Hm) as [Hri Hfi].
    pose proof (file_zones _ _ _ Hfi) as Hd. rewrite Forall_forall in Hd. split.
    - unfold inode_at. f_equal. apply slice_ext. intros k Hk. apply Hs. unfold inode_off in Hk. lia.
    - intros z Hz. rewrite Hu by (by apply Hd). rewrite bool_decide_eq_false_2; [by rewrite andb_true_r|].
      by apply (fk_disjoint _ _ _ Hfs i ino m n Hm Hn).
    - intros z k Hz Hk. apply Hs. pose proof (in_zone_after sb N G z k (Hd z Hz) Hk). lia. }
  split; [|done]. apply (fs_ok_change f); [by apply fs_ok_delete|done| |].
  - intros j Hj. unfold bit_at. rewrite Hs; [by apply Hfs|]. left. lia.
  - intros i m Hm. split; [|left; by apply Hk1]. apply lookup_delete_Some in Hm as [_ Hm].
    destruct (fk_file _ _ _ Hfs i m Hm) as [Hri _].
    rewrite (inode_used_low sb N G f); [by apply (fk_used _ _ _ Hfs i m)| |done]. intros k Hk. apply Hs. lia.
Qed.

Definition zero_inode : DiskInode := mkInode 0 0 0 0 0 0 (replicate 9 0).

Lemma zero_inode_ok : inode_ok zero_inode.
Proof. split; try done. repeat (constructor; [done|]). constructor. Qed.

Lemma file_gone_intro f M ino n l f1 f3 : fs_ok sb f M -> M !! ino = Some n -> l ≡ₚ node_all n -> freed l f f1 ->
  imap_step sb (Some ino) false (splice f1 (inode_off sb ino) (DiskInode_bytes zero_inode)) f3 ->
  file_gone f M ino n f3.
Proof.
  intros Hfs Hn Hl Hfr Hst. apply (freed_perm _ _ _ _ Hl) in Hfr.
  destruct (fk_file _ _ _ Hfs ino n Hn) as [Hr _]. destruct (freed_fs f M ino n f1 Hfs Hn Hfr) as [Hfs1 Hk1].
  pose proof (lookup_delete_eq M ino) as HM.
  destruct (write_inode_outside f1 _ ino _ Hfs1 HM Hr zero_inode_ok) as (Hfs2 & Hk2 & _ & Hc2 & Hu2).
  set (f2 := splice f1 _ _) in *. destruct (imap_step_keeps f2 f3 _ _ _ Hfs2 Hst) as [Hk3 Hc3].
  split.
  - eapply imap_step_fs; [done|exact Hst|right; by intros ? [= <-]].
  - intros i m Hm. eapply node_keeps_trans; [by apply Hk1|]. eapply node_keeps_trans; [by apply Hk2|by apply Hk3].
  - destruct Hst as (_ & Hu3 & _). rewrite Hu3 by done. by rewrite decide_True.
  - intros z Hz. rewrite <- (fr_used _ _ _ Hfr z Hz), <- (Hu2 z Hz).
    destruct Hst as (Hs3 & _ & _). apply (used_ext sb N G); [|done]. intros i Hi. apply Hs3. lia.
  - rewrite Hc3, Hc2. apply Hfr.
Qed.

Lemma free_inode_blocks_ok f M ino n (Q : unit -> contents -> Prop) : fs_ok sb f M -> M !! ino = Some n ->
  (forall f', file_gone f M ino n f' -> Q tt f') -> triple N f (free_inode_blocks_at sb ino) Q.
Proof.
  intros Hfs Hn HQ. destruct (fk_file _ _ _ Hfs ino n Hn) as [Hr [L Hsz Hio]].
  destruct n as [zones z7 z8 inds]. cbn [nd_zones nd_z7 nd_z8 nd_inds] in *.
  pose proof (ly_owned _ _ _ _ _ _ _ L) as Ho.
  assert (Hl : zones ++ opt_zone z7 ++ inds ++ opt_zone z8 ≡ₚ node_all (mkNode zones z7 z8 inds)).
  { unfold node_all, metas, opt_zone. cbn. do 2 apply Permutation_app_head. by apply Permutation_app_comm. }
  apply (owned_perm _ _ _ _ (symmetry Hl)) in Ho.
  unfold free_inode_blocks_at. apply triple_seq, (read_inode_ok sb N G); [done|].
  apply triple_seq, (data_zones_ok sb N G f _ zones z7 z8 inds); [done|].
  apply triple_seq, free_zones_ok; [apply Hfs|by apply (owned_app_inv _ _ _ _ Ho)|]. intros f1 H1.
  pose proof (freed_owned _ _ _ _ H1 Ho) as Ho1.
  destruct (zone_lookup (resize 7 zones) z7 z8 (resize_length _ _)) as (E7 & E8 & _).
  rewrite (ly_zone _ _ _ _ _ _ _ L), E7, E8. cbn [expect].
  apply triple_seq. eapply triple_pure; [done|]. cbn beta.
  apply triple_seq, free_opt_ok; [apply H1|by apply (owned_app_inv _ _ _ _ Ho1)|]. intros f2 H2.
  pose proof (freed_owned _ _ _ _ H2 Ho1) as Ho2.
  apply triple_seq. eapply triple_pure; [done|]. cbn beta. apply triple_seq.
  pose proof (ly_double _ _ _ _ _ _ _ L) as L8. apply (free_double_ok f2 z8 inds); [apply H2|done| | | |].
  - intros E. destruct (Nat.leb_spec (length zones) (7 + per sb)); [by destruct L8|]. by destruct L8.
  - intros E. destruct (Nat.leb_spec (length zones) (7 + per sb)); [by destruct L8|]. destruct L8 as (_ & L8 & _).
    pose proof (owned_zones _ _ _ Ho2) as Hd. apply Forall_app in Hd as [_ Hd]. unfold opt_zone in Hd.
    destruct (Z.eqb_spec z8 0); [done|]. apply Forall_cons in Hd as [Hd _].
    unfold table_of. by rewrite (freed_table _ _ _ _ H2), (freed_table _ _ _ _ H1).
  - destruct (Nat.leb_spec (length zones) (7 + per sb)); [destruct L8 as [_ ->]; cbn; lia|].
    destruct L8 as (_ & _ & L8). rewrite (Forall2_length _ _ _ L8). apply (groups_cap sb N G), L.
  - intros f3 H3. apply triple_seq, (write_inode_ok sb N G); [done|apply zero_inode_ok|].
    apply (free_inode_ok sb N G); [|done|].
    + destruct (freed_fs f M ino _ f3 Hfs Hn) as [Hfs3 _].
      { eapply freed_perm; [exact Hl|]. eapply freed_trans; [exact H1|]. by eapply freed_trans. }
      apply (write_inode_outside f3 _ ino zero_inode Hfs3 (lookup_delete_eq M ino) Hr zero_inode_ok).
    + intros f4 H4. apply HQ. eapply file_gone_intro; [done|done|exact Hl| |exact H4].
      eapply freed_trans; [exact H1|]. by eapply freed_trans.
Qed.

End Tree.
