(* ===== verification/MinixDirOps.v ===== *)
(** * MinixDirOps: the entries of a directory

    A directory is the sequence of slots in its zones. Looking a name up finds
    the first slot in use with the name, removing it clears that slot, adding
    fills the first free slot. *)

From Stdlib Require Import Ascii.
From stdpp Require Import gmap.
From S2P Require Import Prelude Bitmap BitFields Abi Paths Bytes Disk Minix MinixDisk MinixZones MinixFile MinixDir MinixTree.

(** ** Names as bytes *)

Lemma ascii_byte_ascii c : byte_ascii (ascii_byte c) = c.
Proof. unfold byte_ascii, ascii_byte. rewrite N2Z.id. apply ascii_N_embedding. Qed.

Lemma byte_ascii_byte b : is_byte b -> ascii_byte (byte_ascii b) = b.
Proof.
  unfold is_byte, byte_ascii, ascii_byte. intros Hb. rewrite N_ascii_embedding by lia. lia.
Qed.

Lemma bytes_str_bytes s : bytes_str (str_bytes s) = s.
Proof.
  unfold bytes_str, str_bytes. rewrite <- list_fmap_compose. rewrite <- (list_fmap_id s) at 2.
  apply list_fmap_ext. intros _ c _. apply ascii_byte_ascii.
Qed.

Lemma str_bytes_bytes s : bytes (str_bytes s).
Proof.
  apply Forall_fmap, Forall_forall. intros c _. unfold compose, ascii_byte, is_byte.
  pose proof (N_ascii_bounded c). lia.
Qed.

Lemma length_str_bytes s : length (str_bytes s) = length s.
Proof. apply length_fmap. Qed.

(** The names that [slot_name] reads back: UTF-8 without NUL. *)
Definition good_name (name : str) : Prop :=
  utf8_valid (str_bytes name) = true /\ Forall (fun b => b <> 0) (str_bytes name).

Lemma slot_name_padded name k : good_name name -> slot_name (str_bytes name ++ replicate k 0) = name.
Proof.
  intros [Hu Hn]. unfold slot_name. rewrite until_zero_app by done.
  replace (until_zero (replicate k 0)) with (@nil Z) by (by destruct k). rewrite app_nil_r, Hu.
  apply bytes_str_bytes.
Qed.

(** ** Searching lists *)

Lemma find_slot_pure (test : Z -> outcome bool) (q : Z -> bool) l :
  (forall s, s ∈ l -> test s = Ret (q s)) -> find_slot test l = Ret (find q l).
Proof.
  induction l as [|s l IH]; intros Ht; [done|]. cbn [find_slot find].
  rewrite Ht by (by left). rewrite outcome_bind_Ret. destruct (q s); [done|].
  apply IH. intros s' Hs'. apply Ht. by right.
Qed.

Lemma find_fmap {A B} (g : A -> B) (q : B -> bool) l : find q (g <$> l) = g <$> find (fun a => q (g a)) l.
Proof. induction l as [|a l IH]; [done|]. cbn. by destruct (q (g a)). Qed.

Lemma find_app_cases {A} (q : A -> bool) l1 l2 :
  find q (l1 ++ l2) = match find q l1 with Some x => Some x | None => find q l2 end.
Proof. induction l1 as [|a l1 IH]; [done|]. cbn. by destruct (q a). Qed.

Lemma find_ext_in {A} (q q' : A -> bool) l : (forall x, x ∈ l -> q x = q' x) -> find q l = find q' l.
Proof.
  induction l as [|a l IH]; intros Hq; [done|]. cbn. rewrite Hq by (by left).
  rewrite IH; [done|]. intros x Hx. apply Hq. by right.
Qed.

Lemma find_Some_elem {A} (q : A -> bool) l x : find q l = Some x -> x ∈ l /\ q x = true.
Proof. intros Hf. apply find_some in Hf as [Hx Hq]. split; [by apply list_elem_of_In|done]. Qed.

Lemma find_None_elem {A} (q : A -> bool) l x : find q l = None -> x ∈ l -> q x = false.
Proof. intros Hf Hx. eapply find_none; [exact Hf|]. by apply list_elem_of_In. Qed.

Lemma find_only {A} (q : A -> bool) l x : x ∈ l -> q x = true -> (forall y, y ∈ l -> q y = true -> y = x) ->
  find q l = Some x.
Proof.
  intros Hx Hq Hu. destruct (find q l) as [y|] eqn:E.
  - apply find_Some_elem in E as [Hy Hy']. f_equal. by apply Hu.
  - by rewrite (find_None_elem q l x E Hx) in Hq.
Qed.

Lemma find_all_false {A} (q : A -> bool) l : (forall y, y ∈ l -> q y = false) -> find q l = None.
Proof.
  intros Hq. destruct (find q l) as [y|] eqn:E; [|done]. apply find_Some_elem in E as [Hy Hy'].
  by rewrite Hq in Hy'.
Qed.

Section DirOps.
Context {D : Type} `{DiskLaws D} (sb : DiskSuperBlock) (N : Z) (G : geometry sb N).
Abbreviation zs := (zsize sb).
Abbreviation es := (entry_size sb).
Abbreviation contents := (Z -> Z).

Lemma es_facts : 16 <= es <= 32 /\ zs mod es = 0 /\ zs / es * es = zs.
Proof.
  assert (He : es = 16 \/ es = 32) by (unfold entry_size; case_match; lia).
  destruct (zsize_cases sb N G) as (p & Ez & Hp). rewrite Ez.
  destruct He as [-> | ->].
  - replace (1024 * p) with (64 * p * 16) by lia. rewrite Z.mod_mul, Z.div_mul by lia. lia.
  - replace (1024 * p) with (32 * p * 32) by lia. rewrite Z.mod_mul, Z.div_mul by lia. lia.
Qed.

Lemma elem_slots s : s ∈ slots zs es -> 0 <= s /\ s + es <= zs /\ s mod es = 0.
Proof.
  destruct es_facts as (He & Hm & Hd). unfold slots. intros (k & -> & Hk%elem_of_seqZ)%list_elem_of_fmap.
  unfold div_ceil in Hk. rewrite Hm in Hk. cbn in Hk. rewrite Z.mod_mul by lia. nia.
Qed.

(** The entry at an offset of the disk. *)
Definition ino_at (f : contents) (p : Z) : Z := from_le_bytes (slice f p 2).
Definition name_at (f : contents) (p : Z) : str := slot_name (slice f (p + 2) (es - 2)).

Lemma slot_ino_slice f base s : 0 <= s -> s + 2 <= zs -> slot_ino (slice f base zs) s = Ret (ino_at f (base + s)).
Proof.
  intros Hs Hl. unfold slot_ino. rewrite !slice_lookup by lia. cbn [expect].
  rewrite !outcome_bind_Ret. unfold ino_at. do 2 f_equal.
  change (slice f (base + s) 2) with [f (0 + (base + s)); f (1 + (base + s))].
  do 3 f_equal. lia.
Qed.

Lemma range_of_slice f base n lo hi : 0 <= lo -> lo <= hi -> hi <= n ->
  range_of (slice f base n) lo hi = Ret (slice f (base + lo) (hi - lo)).
Proof.
  intros Hlo Hhi Hn. unfold range_of. pose proof (length_slice f base n) as L.
  rewrite (proj2 (andb_true_iff _ _)) by lia. f_equal.
  replace n with (lo + ((hi - lo) + (n - hi))) by lia. rewrite !slice_app by lia.
  pose proof (length_slice f base lo). pose proof (length_slice f (base + lo) (hi - lo)).
  rewrite drop_app_length' by lia. by rewrite take_app_length' by lia.
Qed.

(** A slot in use whose name passes the test, and a free slot. *)
Definition named (f : contents) (p : str -> bool) (off : Z) : bool := negb (ino_at f off =? 0) && p (name_at f off).
Definition free_spot (f : contents) (off : Z) : bool := ino_at f off =? 0.

Lemma slot_named_slice f base p s : s ∈ slots zs es ->
  slot_named es (slice f base zs) p s = Ret (named f p (base + s)).
Proof.
  intros (Hk & Hl & _)%elem_slots. destruct es_facts as (He & _).
  unfold slot_named, named. rewrite slot_ino_slice by lia. rewrite outcome_bind_Ret.
  destruct (ino_at f (base + s) =? 0); [done|]. rewrite range_of_slice by lia. rewrite outcome_bind_Ret.
  cbn [negb andb]. unfold name_at. do 4 f_equal; lia.
Qed.

Lemma slot_free_slice f base s : s ∈ slots zs es ->
  slot_free (slice f base zs) s = Ret (free_spot f (base + s)).
Proof.
  intros (Hk & Hl & _)%elem_slots. destruct es_facts as (He & _).
  unfold slot_free. rewrite slot_ino_slice by lia. by rewrite outcome_bind_Ret.
Qed.

(** ** The slots of a list of zones

    Each with its position in the directory and its offset on the disk; the
    first zone has index [i]. *)
Fixpoint spots (i : nat) (zones : list Z) : list (Z * Z) :=
  match zones with
  | [] => []
  | z :: zones => ((fun s => (Z.of_nat i * zs + s, z * zs + s)) <$> slots zs es) ++ spots (S i) zones
  end.

Definition dir_find (f : contents) (zones : list Z) (p : str -> bool) : option (Z * Z) :=
  find (fun sp => named f p sp.2) (spots 0 zones).
Definition is_name (name n : str) : bool := bool_decide (n = name).

(** The inode number of a name. *)
Definition dir_lookup (f : contents) (zones : list Z) (name : str) : option Z :=
  (fun sp => ino_at f sp.2) <$> dir_find f zones (is_name name).

(** The loop over the blocks runs to the first slot that passes the test [q]. *)
Lemma scan_zones_ok {R} f (visit : Z -> list Z -> io D (option R)) (q : Z -> bool)
    (Q : option R -> contents -> Prop) zones i :
  Forall (data_zone sb) zones ->
  (forall z, z ∈ zones -> find (fun s => q (z * zs + s)) (slots zs es) = None ->
     triple N f (visit z (slice f (z * zs) zs)) (fun r f' => r = None /\ f' = f)) ->
  match find (fun sp => q sp.2) (spots i zones) with
  | None => Q None f
  | Some (pos, off) => forall z s, z ∈ zones -> s ∈ slots zs es -> off = z * zs + s ->
      find (fun s => q (z * zs + s)) (slots zs es) = Some s ->
      triple N f (visit z (slice f (z * zs) zs)) (fun r f' => is_Some r /\ Q r f')
  end ->
  triple N f (scan_zones sb visit zs zones) Q.
Proof.
  pose proof (zs_pos sb N G) as Hzs. revert i Q. induction zones as [|z zones IH]; intros i Q Hd Hno Hyes.
  { by apply triple_ret. }
  apply Forall_cons in Hd as [Hz Hd]. cbn [scan_zones]. cbn [spots] in Hyes.
  rewrite find_app_cases, find_fmap in Hyes. cbn beta in Hyes. cbn [snd] in Hyes.
  apply triple_seq, (read_zone_into_ok sb N G); [done|lia|].
  destruct (find (fun s => q (z * zs + s)) (slots zs es)) as [s|] eqn:E; cbn [fmap option_fmap option_map] in Hyes.
  - apply triple_seq. eapply triple_mono.
    + apply (Hyes z s); [by left|by apply (find_Some_elem _ _ _ E)|done|done].
    + intros r f' [[x ->] HQ]. by apply triple_ret.
  - apply triple_seq. eapply triple_mono; [apply Hno; [by left|done]|]. intros r f' [-> ->].
    apply (IH (S i)); [done|intros z' Hz'; apply Hno; by right|].
    destruct (find _ (spots (S i) zones)) as [[pos off]|]; [|done].
    intros z' s Hz'. apply Hyes. by right.
Qed.

Lemma find_dir_entry_ino_ok f dir_ino zones z7 z8 inds name (Q : option Z -> contents -> Prop) :
  1 <= dir_ino <= ninodes sb -> layout sb f (inode_at sb f dir_ino) zones z7 z8 inds ->
  Q (dir_lookup f zones name) f -> triple N f (find_dir_entry_ino sb dir_ino name) Q.
Proof.
  intros Hr L HQ. destruct es_facts as (He & _).
  pose proof (owned_zones _ _ _ (ly_owned _ _ _ _ _ _ _ L)) as Hd. apply Forall_app in Hd as [Hd _].
  unfold find_dir_entry_ino. pure_step (zone_size_eq sb N G).
  apply triple_seq, (read_inode_ok sb N G); [done|]. apply triple_seq, (data_zones_ok sb N G f _ zones z7 z8 inds); [done|].
  assert (Hfs : forall z, find_slot (slot_named es (slice f (z * zs) zs) (fun n => bool_decide (n = name))) (slots zs es) =
    Ret (find (fun s => named f (is_name name) (z * zs + s)) (slots zs es))).
  { intros z. apply find_slot_pure. intros s Hs. by apply slot_named_slice. }
  apply (scan_zones_ok f _ (named f (is_name name)) Q zones 0); [done| |].
  - intros z _ E. pure_step (Hfs z). rewrite E. by apply triple_ret.
  - unfold dir_lookup, dir_find in HQ. destruct (find _ (spots 0 zones)) as [[pos off]|]; [|done].
    intros z s Hz Hs -> E. pure_step (Hfs z). rewrite E.
    destruct (elem_slots s Hs) as (Hk & Hl & _).
    pure_step (slot_ino_slice f (z * zs) s ltac:(lia) ltac:(lia)). apply triple_ret. split; [by eexists|done].
Qed.

(** ** Writing a slot *)

Definition patched (f : contents) (base s : Z) (bs : list Z) : list Z :=
  take (Z.to_nat s) (slice f base zs) ++ bs ++ drop (Z.to_nat s + length bs) (slice f base zs).

Lemma copy_into_slice f base s bs : s + Z.of_nat (length bs) <= zs ->
  copy_into (slice f base zs) s bs = Ret (patched f base s bs).
Proof.
  intros Hl. unfold copy_into. pose proof (length_slice f base zs).
  destruct (Z.leb_spec (s + Z.of_nat (length bs)) (Z.of_nat (length (slice f base zs)))); [done|lia].
Qed.

Lemma write_patched_ok f z s bs (Q : unit -> contents -> Prop) : data_zone sb z -> 0 <= s ->
  s + Z.of_nat (length bs) <= zs -> bytes bs -> Q tt (splice f (z * zs + s) bs) ->
  triple N f (write_zone sb z (patched f (z * zs) s bs)) Q.
Proof.
  intros Hz Hs Hl Hb HQ. apply triple_is_byte. intros Hf.
  eapply (triple_equiv _ _ _ (fun _ f' => f' = splice f (z * zs) (patched f (z * zs) s bs))).
  - apply (write_zone_ok sb N G); [done| | |done].
    + unfold patched. pose proof (length_slice f (z * zs) zs). rewrite !length_app, length_take, length_drop. lia.
    + unfold patched. pose proof (slice_bytes f (z * zs) zs Hf). repeat (apply Forall_app; split); [|done|].
      * by apply Forall_take.
      * by apply Forall_drop.
  - intros [] f1 ->. eexists. split; [|exact HQ]. intros i. by apply splice_patch.
Qed.

(** The bytes of an entry. *)
Definition dir_slot (ino : Z) (name : str) : list Z :=
  to_le_bytes 2 ino ++ str_bytes name ++ replicate (Z.to_nat es - 2 - length name) 0.

Definition fits_slot (name : str) : Prop := Z.of_nat (length name) + 2 <= es.

Lemma valid_name_fits name : valid_name sb name = true -> fits_slot name.
Proof.
  unfold valid_name, fits_slot, entry_size. intros [[_ Hv]%andb_prop _]%andb_prop. apply Nat.leb_le in Hv.
  destruct (magic sb =? MinixFsMagic_V1_30); lia.
Qed.

Lemma length_dir_slot ino name : fits_slot name -> length (dir_slot ino name) = Z.to_nat es.
Proof.
  intros Hf. unfold fits_slot in Hf. destruct es_facts as (He & _). unfold dir_slot.
  rewrite !length_app, to_le_bytes_length, length_str_bytes, length_replicate. lia.
Qed.

Lemma replicate_bytes n : bytes (replicate n 0).
Proof. by apply Forall_replicate. Qed.

Lemma dir_slot_bytes ino name : bytes (dir_slot ino name).
Proof.
  unfold dir_slot. repeat (apply Forall_app; split); [apply to_le_bytes_bytes|apply str_bytes_bytes|apply replicate_bytes].
Qed.

Lemma write_dir_slot_eq block s ino name : fits_slot name ->
  write_dir_slot block s es ino name = copy_into block s (dir_slot ino name).
Proof.
  intros Hf. unfold fits_slot in Hf. destruct es_facts as (He & _). unfold write_dir_slot.
  assert (E1 : copy_into (replicate 32 0) 0 (to_le_bytes 2 ino) = Ret (to_le_bytes 2 ino ++ replicate 30 0)) by done.
  rewrite E1, outcome_bind_Ret.
  assert (E2 : copy_into (to_le_bytes 2 ino ++ replicate 30 0) 2 (str_bytes name) =
    Ret (to_le_bytes 2 ino ++ str_bytes name ++ replicate (30 - length name) 0)).
  { unfold copy_into. rewrite length_app, to_le_bytes_length, length_replicate, length_str_bytes.
    destruct (Z.leb_spec (2 + Z.of_nat (length name)) (Z.of_nat (2 + 30))); [|lia]. do 2 f_equal.
    change (Z.to_nat 2) with 2%nat. rewrite drop_app_add' by (by rewrite to_le_bytes_length). by rewrite drop_replicate. }
  rewrite E2, outcome_bind_Ret. unfold range_of.
  rewrite !length_app, to_le_bytes_length, length_str_bytes, length_replicate.
  destruct (Z.leb_spec 0 es); [|lia]. destruct (Z.leb_spec es (Z.of_nat (2 + (length name + (30 - length name))))); [|lia]. cbn [andb]. rewrite outcome_bind_Ret. f_equal. unfold dir_slot.
  change (Z.to_nat 0) with 0%nat. rewrite drop_0, Z.sub_0_r.
  rewrite !take_app, to_le_bytes_length, length_str_bytes, take_replicate.
  rewrite !firstn_all2 by (rewrite ?to_le_bytes_length, ?length_str_bytes; lia).
  do 3 f_equal. lia.
Qed.

(** ** Entries after a slot was written *)

Lemma elem_spots i zones sp : sp ∈ spots i zones -> exists k z s, zones !! k = Some z /\ s ∈ slots zs es /\
  sp = (Z.of_nat (i + k) * zs + s, z * zs + s).
Proof.
  revert i. induction zones as [|z zones IH]; intros i; cbn [spots]; [by intros ?%not_elem_of_nil|].
  intros [(s & -> & Hs)%list_elem_of_fmap|Hsp]%elem_of_app.
  - exists 0%nat, z, s. split; [done|]. split; [done|]. by rewrite Nat.add_0_r.
  - destruct (IH (S i) Hsp) as (k & z' & s & Hk & Hs & ->). exists (S k), z', s. split; [done|]. split; [done|].
    by rewrite Nat.add_succ_r.
Qed.

Lemma spots_aligned i zones sp : sp ∈ spots i zones -> sp.2 mod es = 0.
Proof.
  intros (k & z & s & _ & Hs & ->)%elem_spots. destruct es_facts as (He & Hm & Hd).
  destruct (elem_slots s Hs) as (_ & _ & Hs'). cbn. rewrite Z.add_mod, Z.mul_mod, Hm, Hs' by lia.
  by rewrite Z.mul_0_r.
Qed.

Lemma aligned_apart p q : p mod es = 0 -> q mod es = 0 -> p <> q -> p + es <= q \/ q + es <= p.
Proof.
  destruct es_facts as (He & _). intros Hp Hq Hne. pose proof (Z.div_mod p es ltac:(lia)).
  pose proof (Z.div_mod q es ltac:(lia)). rewrite Hp, Hq in *.
  destruct (Z.lt_total (p / es) (q / es)) as [?|[E|?]]; [left; nia|rewrite E in *; lia|right; nia].
Qed.

Lemma named_other f p bs t q : Z.of_nat (length bs) = es -> p mod es = 0 -> q mod es = 0 -> q <> p ->
  ino_at (splice f p bs) q = ino_at f q /\ named (splice f p bs) t q = named f t q.
Proof.
  intros Hl Hp Hq Hne. destruct es_facts as (He & _). pose proof (aligned_apart q p Hq Hp Hne).
  assert (Ei : ino_at (splice f p bs) q = ino_at f q) by (unfold ino_at; rewrite slice_splice_out by lia; done).
  split; [done|]. unfold named, name_at. rewrite Ei. rewrite slice_splice_out by lia. done.
Qed.

Lemma slot_written f p ino name : fits 16 ino -> good_name name -> fits_slot name ->
  ino_at (splice f p (dir_slot ino name)) p = ino /\ name_at (splice f p (dir_slot ino name)) p = name.
Proof.
  intros Hi Hg Hf. pose proof (length_dir_slot ino name Hf) as Hl. destruct es_facts as (He & _). split.
  - unfold ino_at. rewrite <- (Z.add_0_r p) at 2. rewrite slice_splice_in by lia.
    unfold dir_slot. change (Z.to_nat 0) with 0%nat. rewrite drop_0.
    rewrite take_app_length' by (by rewrite to_le_bytes_length). by apply from_to_le_bytes.
  - unfold name_at. rewrite slice_splice_in by lia. unfold dir_slot.
    rewrite drop_app_length' by (by rewrite to_le_bytes_length).
    unfold fits_slot in Hf. rewrite take_ge by (rewrite length_app, length_str_bytes, length_replicate; lia).
    by apply slot_name_padded.
Qed.

Lemma slot_cleared f p : ino_at (splice f p (replicate (Z.to_nat es) 0)) p = 0.
Proof.
  destruct es_facts as (He & _). unfold ino_at. rewrite <- (Z.add_0_r p) at 2.
  rewrite slice_splice_in by (rewrite ?length_replicate; lia).
  rewrite drop_replicate, take_replicate. by replace (Z.to_nat 2 `min` (Z.to_nat es - Z.to_nat 0))%nat with 2%nat by lia.
Qed.

(** Adding an entry in a free slot, and clearing the slot of a name. *)
Lemma dir_lookup_add f zones pos p ino name name' : (pos, p) ∈ spots 0 zones -> free_spot f p = true ->
  1 <= ino < 2 ^ 16 -> good_name name -> fits_slot name ->
  dir_lookup (splice f p (dir_slot ino name)) zones name' =
    if decide (name' = name)
    then match dir_lookup f zones name with Some _ => dir_lookup (splice f p (dir_slot ino name)) zones name | None => Some ino end
    else dir_lookup f zones name'.
Proof.
  intros Hp Hfree Hi Hg Hf. pose proof (length_dir_slot ino name Hf) as Hl. destruct es_facts as (He & _).
  destruct (slot_written f p ino name ltac:(unfold fits; lia) Hg Hf) as [Ei En].
  set (f' := splice f p (dir_slot ino name)) in *. pose proof (spots_aligned 0 zones _ Hp) as Ha. cbn in Ha.
  apply Z.eqb_eq in Hfree.
  assert (Hoth : forall t sp, sp ∈ spots 0 zones -> sp.2 <> p -> ino_at f' sp.2 = ino_at f sp.2 /\ named f' t sp.2 = named f t sp.2).
  { intros t sp Hsp Hne. apply named_other; [lia|done|by apply (spots_aligned 0 zones)|done]. }
  unfold dir_lookup, dir_find. case_decide as E.
  - subst name'. destruct (find (fun sp => named f (is_name name) sp.2) (spots 0 zones)) as [sp|] eqn:Ef; [done|].
    cbn [fmap option_fmap option_map].
    destruct (find (fun sp => named f' (is_name name) sp.2) (spots 0 zones)) as [sp|] eqn:Ef'; cbn [fmap option_fmap option_map].
    + apply find_Some_elem in Ef' as [Hsp Hn]. destruct (decide (sp.2 = p)) as [->|Hne]; [by rewrite Ei|].
      rewrite (proj2 (Hoth _ sp Hsp Hne)), (find_None_elem _ _ sp Ef Hsp) in Hn. done.
    + pose proof (find_None_elem _ _ _ Ef' Hp) as Hn. cbn in Hn. unfold named, is_name in Hn. rewrite Ei, En in Hn.
      rewrite bool_decide_eq_true_2 in Hn by done. destruct (Z.eqb_spec ino 0); [lia|done].
  - assert (Hq : forall sp, sp ∈ spots 0 zones -> named f' (is_name name') sp.2 = named f (is_name name') sp.2).
    { intros sp Hsp. destruct (decide (sp.2 = p)) as [Ep|Hne]; [|by apply Hoth]. unfold named, is_name.
      rewrite Ep, Ei, En, Hfree. rewrite bool_decide_eq_false_2 by congruence. by rewrite andb_false_r. }
    rewrite (find_ext_in _ _ _ Hq).
    destruct (find (fun sp => named f (is_name name') sp.2) (spots 0 zones)) as [sp|] eqn:Ef; [|done].
    cbn [fmap option_fmap option_map]. f_equal. apply find_Some_elem in Ef as [Hsp Hn].
    destruct (decide (sp.2 = p)) as [Ep|Hne]; [|by apply (Hoth (is_name name'))].
    unfold named in Hn. by rewrite Ep, Hfree in Hn.
Qed.

(** The name is in one slot at most. *)
Definition name_once (f : contents) (zones : list Z) (name : str) : Prop :=
  forall sp sp', sp ∈ spots 0 zones -> sp' ∈ spots 0 zones ->
    named f (is_name name) sp.2 = true -> named f (is_name name) sp'.2 = true -> sp.2 = sp'.2.

Lemma dir_lookup_remove f zones pos p name name' : dir_find f zones (is_name name) = Some (pos, p) ->
  (name' = name -> name_once f zones name) ->
  dir_lookup (splice f p (replicate (Z.to_nat es) 0)) zones name' =
    if decide (name' = name) then None else dir_lookup f zones name'.
Proof.
  intros Hf Hu. apply find_Some_elem in Hf as [Hp Hn]. cbn in Hn. destruct es_facts as (He & _).
  pose proof (slot_cleared f p) as Ei.
  set (f' := splice f p (replicate (Z.to_nat es) 0)) in *. pose proof (spots_aligned 0 zones _ Hp) as Ha. cbn in Ha.
  assert (Hoth : forall t sp, sp ∈ spots 0 zones -> sp.2 <> p -> ino_at f' sp.2 = ino_at f sp.2 /\ named f' t sp.2 = named f t sp.2).
  { intros t sp Hsp Hne. apply named_other; [rewrite length_replicate; lia|done|by apply (spots_aligned 0 zones)|done]. }
  assert (Hclr : forall t, named f' t p = false) by (intros t; unfold named; by rewrite Ei).
  unfold dir_lookup, dir_find. case_decide as E.
  - subst name'. rewrite find_all_false; [done|]. intros sp Hsp.
    destruct (decide (sp.2 = p)) as [->|Hne]; [done|]. rewrite (proj2 (Hoth _ sp Hsp Hne)).
    destruct (named f (is_name name) sp.2) eqn:Hs; [|done]. destruct Hne. by apply (Hu eq_refl sp (pos, p)).
  - assert (Hold : named f (is_name name') p = false).
    { unfold named, is_name in *. apply andb_prop in Hn as [_ Hn]. apply bool_decide_eq_true_1 in Hn. rewrite Hn.
      rewrite bool_decide_eq_false_2 by congruence. by rewrite andb_false_r. }
    assert (Hq : forall sp, sp ∈ spots 0 zones -> named f' (is_name name') sp.2 = named f (is_name name') sp.2).
    { intros sp Hsp. destruct (decide (sp.2 = p)) as [->|Hne]; [by rewrite Hclr|by apply Hoth]. }
    rewrite (find_ext_in _ _ _ Hq).
    destruct (find (fun sp => named f (is_name name') sp.2) (spots 0 zones)) as [sp|] eqn:Ef; [|done].
    cbn [fmap option_fmap option_map]. f_equal. apply find_Some_elem in Ef as [Hsp Hs].
    destruct (decide (sp.2 = p)) as [Ep|Hne]; [|by apply (Hoth (is_name name'))]. rewrite Ep in Hs. congruence.
Qed.

Lemma remove_dir_entry_ok f dir_ino zones z7 z8 inds name (Q : bool -> contents -> Prop) :
  1 <= dir_ino <= ninodes sb -> layout sb f (inode_at sb f dir_ino) zones z7 z8 inds ->
  match dir_find f zones (is_name name) with
  | None => Q false f
  | Some (_, p) => Q true (splice f p (replicate (Z.to_nat es) 0))
  end -> triple N f (remove_dir_entry sb dir_ino name) Q.
Proof.
  intros Hr L HQ. destruct es_facts as (He & _).
  pose proof (owned_zones _ _ _ (ly_owned _ _ _ _ _ _ _ L)) as Hd. apply Forall_app in Hd as [Hd _].
  unfold remove_dir_entry. pure_step (zone_size_eq sb N G).
  apply triple_seq, (read_inode_ok sb N G); [done|]. apply triple_seq, (data_zones_ok sb N G f _ zones z7 z8 inds); [done|].
  assert (Hfs : forall z, find_slot (slot_named es (slice f (z * zs) zs) (fun n => bool_decide (n = name))) (slots zs es) =
    Ret (find (fun s => named f (is_name name) (z * zs + s)) (slots zs es))).
  { intros z. apply find_slot_pure. intros s Hs. by apply slot_named_slice. }
  apply triple_seq, (scan_zones_ok f _ (named f (is_name name)) _ zones 0); [done| |].
  - intros z _ E. pure_step (Hfs z). rewrite E. by apply triple_ret.
  - unfold dir_find in HQ. destruct (find _ (spots 0 zones)) as [[pos off]|]; [|by apply triple_ret].
    intros z s Hz Hs -> E. pure_step (Hfs z). rewrite E. destruct (elem_slots s Hs) as (Hk & Hl & _).
    rewrite Forall_forall in Hd.
    assert (Hle : s + Z.of_nat (length (replicate (Z.to_nat es) 0)) <= zs) by (rewrite length_replicate; lia).
    pure_step (copy_into_slice f (z * zs) s (replicate (Z.to_nat es) 0) Hle).
    apply triple_seq, write_patched_ok; [by apply Hd|done|done|apply replicate_bytes|].
    apply triple_ret. split; [by eexists|]. by apply triple_ret.
Qed.

(** ** Adding an entry *)

(** The contents after the entry was written at [p], position [pos] of the
    directory with the inode [dir]. *)
Definition entry_added (f : contents) (dir_ino : Z) (dir : DiskInode) (pos p ino : Z) (name : str) : contents :=
  let f1 := splice f p (dir_slot ino name) in
  if i_size dir <? pos + es
  then splice f1 (inode_off sb dir_ino) (DiskInode_bytes (set_size dir (wrap 32 (pos + es)))) else f1.

(** The block in which the loop stops. *)
Lemma add_block_ok f dir_ino dir (k : nat) z s ino name (Q : unit -> contents -> Prop) :
  data_zone sb z -> s ∈ slots zs es -> 1 <= dir_ino <= ninodes sb -> inode_ok dir -> fits_slot name ->
  Q tt (entry_added f dir_ino dir (Z.of_nat k * zs + s) (z * zs + s) ino name) ->
  triple N f (block ← io_pure (write_dir_slot (slice f (z * zs) zs) s es ino name);
              _ ← write_zone sb z block;
              let end_ := Z.of_nat k * zs + s + es in
              if i_size dir <? end_ then write_inode sb dir_ino (set_size dir (wrap 32 end_)) else mret tt) Q.
Proof.
  intros Hz Hs Hr Hok Hf HQ. destruct (elem_slots s Hs) as (Hk & Hl & _). destruct es_facts as (He & _).
  pose proof (length_dir_slot ino name Hf) as Hlen.
  rewrite write_dir_slot_eq by done.
  pure_step (copy_into_slice f (z * zs) s (dir_slot ino name) ltac:(lia)).
  apply triple_seq, write_patched_ok; [done|done|lia|apply dir_slot_bytes|].
  unfold entry_added in HQ. cbv zeta. destruct (i_size dir <? Z.of_nat k * zs + s + es); [|by apply triple_ret].
  apply (write_inode_ok sb N G); [done| |done]. apply set_size_ok; [done|].
  unfold fits, wrap. apply Z.mod_pos_bound. lia.
Qed.

Lemma add_loop_slot fuel f dir_ino dir zones k ino name pos p (Q : unit -> contents -> Prop) :
  (length zones - k < fuel)%nat -> Forall (data_zone sb) zones ->
  1 <= dir_ino <= ninodes sb -> inode_ok dir -> fits_slot name ->
  find (fun sp => free_spot f sp.2) (spots k (drop k zones)) = Some (pos, p) ->
  Q tt (entry_added f dir_ino dir pos p ino name) ->
  triple N f (add_dir_entry_loop sb fuel zs dir_ino name ino dir zones k) Q.
Proof.
  intros Hfuel Hd Hr Hok Hf Hfind HQ. pose proof (zs_pos sb N G) as Hzs. revert k Hfuel Hfind.
  induction fuel as [|fuel IH]; intros k Hfuel Hfind; [lia|]. cbn [add_dir_entry_loop].
  destruct (zones !! k) as [z|] eqn:Ez.
  2: { apply lookup_ge_None_1 in Ez. by rewrite drop_ge in Hfind by done. }
  pose proof (lookup_lt_Some _ _ _ Ez) as Hlt. destruct (Nat.leb_spec (length zones) k); [lia|].
  apply triple_seq, triple_ret. cbn beta. rewrite Ez. cbn [expect].
  apply triple_seq. eapply triple_pure; [done|]. cbn beta.
  assert (Hz : data_zone sb z) by (rewrite Forall_forall in Hd; by eapply Hd, list_elem_of_lookup_2).
  apply triple_seq, (read_zone_into_ok sb N G); [done|lia|].
  assert (Hfs : find_slot (slot_free (slice f (z * zs) zs)) (slots zs es) =
    Ret (find (fun s => free_spot f (z * zs + s)) (slots zs es))).
  { apply find_slot_pure. intros s Hs. by apply slot_free_slice. }
  pure_step Hfs. rewrite (drop_S _ _ _ Ez) in Hfind. cbn [spots] in Hfind.
  rewrite find_app_cases, find_fmap in Hfind. cbn beta in Hfind. cbn [snd] in Hfind.
  destruct (find (fun s => free_spot f (z * zs + s)) (slots zs es)) as [s|] eqn:E; cbn [fmap option_fmap option_map] in Hfind.
  - injection Hfind as <- <-. apply find_Some_elem in E as [Hs _]. by apply add_block_ok.
  - apply IH; [lia|done].
Qed.

Lemma add_dir_entry_slot_ok f dir_ino zones z7 z8 inds ino name pos p (Q : unit -> contents -> Prop) :
  1 <= dir_ino <= ninodes sb -> layout sb f (inode_at sb f dir_ino) zones z7 z8 inds -> fits_slot name ->
  find (fun sp => free_spot f sp.2) (spots 0 zones) = Some (pos, p) ->
  Q tt (entry_added f dir_ino (inode_at sb f dir_ino) pos p ino name) ->
  triple N f (add_dir_entry_at sb dir_ino name ino) Q.
Proof.
  intros Hr L Hf Hfind HQ. apply triple_is_byte. intros Hb.
  pose proof (owned_zones _ _ _ (ly_owned _ _ _ _ _ _ _ L)) as Hd. apply Forall_app in Hd as [Hd _].
  unfold add_dir_entry_at. pure_step (zone_size_eq sb N G).
  apply triple_seq, (read_inode_ok sb N G); [done|]. apply triple_seq, (data_zones_ok sb N G f _ zones z7 z8 inds); [done|].
  apply (add_loop_slot _ f dir_ino _ zones 0 ino name pos p); [lia|done|done|by apply inode_at_ok|done| |done].
  by rewrite drop_0.
Qed.

End DirOps.
