(* ===== verification/MinixLink.v ===== *)
(** * MinixLink: creating and removing files

    [create_file], [link] and [unlink] change the directory by the one entry
    and the file system by the one file; the other names of the directory and
    all other files stay. *)

From Stdlib Require Import Ascii.
From stdpp Require Import gmap.
From S2P Require Import Prelude Bitmap BitFields Abi Paths Bytes Disk Minix MinixDisk MinixZones MinixFile MinixDir MinixTree MinixDirOps.

Section Links.
Context {D : Type} `{DiskLaws D} (sb : DiskSuperBlock) (N : Z) (G : geometry sb N).
Abbreviation zs := (zsize sb).
Abbreviation es := (entry_size sb).
Abbreviation contents := (Z -> Z).

(** ** Entries depend on the bytes of the zones *)

Lemma spot_bytes zones sp i : sp ∈ spots sb 0 zones -> sp.2 <= i < sp.2 + es ->
  exists z, z ∈ zones /\ in_zone sb z i.
Proof.
  intros (k & z & s & Hk & Hs & ->)%elem_spots Hi. cbn in Hi. destruct (elem_slots sb N G s Hs) as (H1 & H2 & _).
  exists z. split; [by eapply list_elem_of_lookup_2|]. unfold in_zone. lia.
Qed.

Lemma spot_ext f f' zones sp t : (forall z i, z ∈ zones -> in_zone sb z i -> f' i = f i) -> sp ∈ spots sb 0 zones ->
  ino_at f' sp.2 = ino_at f sp.2 /\ named sb f' t sp.2 = named sb f t sp.2.
Proof.
  intros Hb Hsp. destruct (es_facts sb N G) as (He & _).
  assert (Hi : forall i, sp.2 <= i < sp.2 + es -> f' i = f i).
  { intros i Hi. destruct (spot_bytes zones sp i Hsp Hi) as (z & Hz & Hz'). by apply (Hb z). }
  assert (Ei : ino_at f' sp.2 = ino_at f sp.2) by (unfold ino_at; f_equal; apply slice_ext; intros; apply Hi; lia).
  split; [done|]. unfold named. rewrite Ei. do 2 f_equal. unfold name_at. f_equal.
  apply slice_ext. intros. apply Hi. lia.
Qed.

Lemma dir_find_ext f f' zones t : (forall z i, z ∈ zones -> in_zone sb z i -> f' i = f i) ->
  dir_find sb f' zones t = dir_find sb f zones t.
Proof. intros Hb. apply find_ext_in. intros sp Hsp. by apply (spot_ext f f' zones sp). Qed.

Lemma dir_lookup_ext f f' zones name : (forall z i, z ∈ zones -> in_zone sb z i -> f' i = f i) ->
  dir_lookup sb f' zones name = dir_lookup sb f zones name.
Proof.
  intros Hb. unfold dir_lookup. rewrite (dir_find_ext f f' zones _ Hb).
  destruct (dir_find sb f zones (is_name name)) as [sp|] eqn:E; [|done]. cbn. f_equal.
  apply find_Some_elem in E as [Hsp _]. by apply (spot_ext f f' zones sp (is_name name)).
Qed.

Lemma find_free_ext f f' zones : (forall z i, z ∈ zones -> in_zone sb z i -> f' i = f i) ->
  find (fun sp => free_spot f' sp.2) (spots sb 0 zones) = find (fun sp => free_spot f sp.2) (spots sb 0 zones).
Proof.
  intros Hb. apply find_ext_in. intros sp Hsp. unfold free_spot.
  by rewrite (proj1 (spot_ext f f' zones sp (fun _ => true) Hb Hsp)).
Qed.

(** ** A file that an operation does not touch *)

Definition untouched (f f' : contents) (ino : Z) (n : node) : Prop :=
  inode_at sb f' ino = inode_at sb f ino /\ content sb f' ino n = content sb f ino n /\
  forall name, dir_lookup sb f' (nd_zones n) name = dir_lookup sb f (nd_zones n) name.

Lemma keeps_zones f f' ino n : keeps sb f f' ino n ->
  forall z i, z ∈ nd_zones n -> in_zone sb z i -> f' i = f i.
Proof. intros [_ _ Hk] z i Hz. apply Hk, elem_of_app. by left. Qed.

Lemma keeps_untouched f f' ino n : keeps sb f f' ino n -> file_is sb f ino n -> untouched f f' ino n.
Proof.
  intros Hk Hf. split; [apply Hk|]. split; [by apply (keeps_file sb N G)|].
  intros name. apply dir_lookup_ext. by eapply keeps_zones.
Qed.

(** ** Adding an entry to a directory of the file system *)

Definition free_slot (f : contents) (zones : list Z) (sp : Z * Z) : Prop :=
  find (fun sp => free_spot f sp.2) (spots sb 0 zones) = Some sp.

Lemma spot_in zones pos p : (pos, p) ∈ spots sb 0 zones ->
  exists z, z ∈ zones /\ z * zs <= p /\ p + es <= z * zs + zs /\ 0 <= pos /\ pos + es <= room sb zones.
Proof.
  intros (k & z & s & Hk & Hs & [= -> ->])%elem_spots. destruct (elem_slots sb N G s Hs) as (H1 & H2 & _).
  pose proof (zs_pos sb N G). pose proof (lookup_lt_Some _ _ _ Hk). exists z.
  split; [by eapply list_elem_of_lookup_2|]. unfold room. cbn [Nat.add] in *. nia.
Qed.

Lemma entry_added_fs f M dir n pos p ino name : fs_ok sb f M -> M !! dir = Some n -> (pos, p) ∈ spots sb 0 (nd_zones n) ->
  fits_slot sb name -> room sb (nd_zones n) < 2 ^ 32 -> (forall i, is_byte (f i)) ->
  let f' := entry_added sb f dir (inode_at sb f dir) pos p ino name in
  fs_ok sb f' M /\ (forall i m, i <> dir -> M !! i = Some m -> keeps sb f f' i m) /\
  inode_at sb f' dir = set_size (inode_at sb f dir) (Z.max (i_size (inode_at sb f dir)) (pos + es)) /\
  nfree sb f' = nfree sb f /\
  (forall z i, z ∈ nd_zones n -> in_zone sb z i -> f' i = splice f p (dir_slot sb ino name) i).
Proof.
  intros Hfs Hn Hsp Hf Hroom Hb f'. destruct (spot_in _ _ _ Hsp) as (z & Hz & Hp1 & Hp2 & Hpos & Hend).
  pose proof (length_dir_slot sb N G ino name Hf) as Hlen. destruct (es_facts sb N G) as (He & _).
  destruct (zone_write_fs sb N G f M dir n z p (dir_slot sb ino name) Hfs Hn Hz Hp1 ltac:(lia)) as (Hfs1 & Hin & Hnf & Hk).
  set (f1 := splice f p (dir_slot sb ino name)) in *. destruct (fk_file _ _ _ Hfs dir n Hn) as [Hr Hfile].
  pose proof (file_zones sb _ _ _ Hfile) as Hd. pose proof (inode_at_ok sb f dir Hb) as Hok.
  unfold f', entry_added. fold f1. destruct (Z.ltb_spec (i_size (inode_at sb f dir)) (pos + es)) as [Hlt|Hge].
  - assert (Hwr : wrap 32 (pos + es) = pos + es) by (unfold wrap; apply Z.mod_small; lia). rewrite Hwr.
    set (i' := set_size (inode_at sb f dir) (pos + es)).
    assert (Hok' : inode_ok i') by (apply set_size_ok; [done|unfold fits; lia]).
    destruct (write_inode_fs sb N G f1 M dir n i' Hfs1 Hn Hok') as (Hfs2 & Ei & Hk2); [by rewrite Hin|done|].
    pose proof (inode_write_same sb N G f1 dir i' Hr Hok') as Hs.
    split; [done|]. split; [|split; [by rewrite Ei, Z.max_r by lia|split]].
    + intros i m Hi Hm. eapply node_keeps_trans; [by apply Hk|by apply Hk2].
    + rewrite <- Hnf. apply nfree_ext. intros z' Hz'. by apply (same_used sb N G f1 _ Hs).
    + intros z' k Hz' Hk'. apply (same_zone_bytes sb N G f1 _ Hs z'); [|done].
      rewrite Forall_forall in Hd. apply Hd, elem_of_app. by left.
  - split; [done|]. split; [done|]. split; [|done]. rewrite Hin by done. rewrite Z.max_l by lia.
    by destruct (inode_at sb f dir).
Qed.

(** ** Creating a file

    The entry fills the first free slot, and the size covers it. *)

Record file_created (f : contents) (M : gmap Z node) (dir : Z) (n : node) (name : str) (mode : Z)
    (ino : Z) (f' : contents) : Prop := {
  fc_fresh : M !! ino = None /\ inode_used sb f ino = false;
  fc_ok : fs_ok sb f' (<[ino := empty_node]> M);
  fc_inode : inode_at sb f' ino = new_inode mode;
  fc_name : dir_lookup sb f' (nd_zones n) name = Some ino;
  fc_names name' : name' <> name -> dir_lookup sb f' (nd_zones n) name' = dir_lookup sb f (nd_zones n) name';
  fc_slot : exists pos p, free_slot f (nd_zones n) (pos, p) /\
    (forall z i, z ∈ nd_zones n -> in_zone sb z i -> f' i = splice f p (dir_slot sb ino name) i) /\
    inode_at sb f' dir = set_size (inode_at sb f dir) (Z.max (i_size (inode_at sb f dir)) (pos + es));
  fc_others i m : i <> dir -> M !! i = Some m -> untouched f f' i m;
  fc_space : nfree sb f' = nfree sb f
}.

Lemma create_file_ok f M dir n name sp (Q : option Z -> contents -> Prop) : fs_ok sb f M -> M !! dir = Some n ->
  valid_name sb name = true -> good_name name -> dir_lookup sb f (nd_zones n) name = None ->
  free_slot f (nd_zones n) sp -> room sb (nd_zones n) < 2 ^ 32 ->
  (forall f', (forall i, 1 <= i <= ninodes sb -> inode_used sb f i = true) -> fs_ok sb f' M -> all_keep sb f f' M -> Q None f') ->
  (forall ino f', file_created f M dir n name (Mode_of FileType_REG 420) ino f' -> Q (Some ino) f') ->
  triple N f (create_file sb dir name) Q.
Proof.
  intros Hfs Hn Hv Hg Hno Hsp Hroom HQN HQ. unfold create_file. rewrite Hv. cbn [negb].
  apply triple_seq, (alloc_empty_inode_ok sb N G f M); [done|done| |].
  { intros f1 Hall Hfs1 Hk. by apply triple_ret, HQN. }
  intros ino f1 Hu HM Ei Hfs1 Hk Hnf. destruct sp as [pos p].
  assert (Hne : dir <> ino) by congruence.
  pose proof (keeps_zones f f1 dir n (Hk dir n Hn)) as Hz.
  assert (Hn1 : <[ino := empty_node]> M !! dir = Some n) by by rewrite lookup_insert_ne.
  destruct (fk_file _ _ _ Hfs1 dir n Hn1) as [Hr [L _ _]]. pose proof (valid_name_fits sb name Hv) as Hfit.
  unfold free_slot in Hsp. rewrite <- (find_free_ext f f1 _ Hz) in Hsp.
  pose proof (find_Some_elem _ _ _ Hsp) as [Hin Hfree]. cbn in Hfree.
  destruct (fk_file _ _ _ Hfs1 ino empty_node (lookup_insert_eq _ _ _)) as [Hri _].
  apply triple_seq. unfold or_undo. apply triple_seq, triple_attempt. apply triple_is_byte. intros Hb.
  apply (add_dir_entry_slot_ok sb N G f1 dir (nd_zones n) (nd_z7 n) (nd_z8 n) (nd_inds n) ino name pos p); [done|done|done|done|].
  apply triple_ret, triple_ret, HQ.
  destruct (entry_added_fs f1 _ dir n pos p ino name Hfs1 Hn1 Hin Hfit Hroom Hb) as (Hfs2 & Hk2 & Ed & Hnf2 & Hdl).
  set (f2 := entry_added sb f1 dir (inode_at sb f1 dir) pos p ino name) in *.
  pose proof (fun nm => dir_lookup_add sb N G f1 (nd_zones n) pos p ino name nm Hin Hfree
    ltac:(pose proof (g_inodes _ _ G); lia) Hg Hfit) as Hadd.
  split; [done|done| | | | | |by rewrite Hnf2].
  - rewrite <- Ei. apply (Hk2 ino empty_node); [congruence|apply lookup_insert_eq].
  - rewrite (dir_lookup_ext _ f2 _ _ Hdl), Hadd, decide_True by done. by rewrite (dir_lookup_ext f f1 _ _ Hz), Hno.
  - intros nm Hnm. rewrite (dir_lookup_ext _ f2 _ _ Hdl), Hadd, decide_False by done. by apply dir_lookup_ext.
  - exists pos, p. split; [unfold free_slot; by rewrite <- (find_free_ext f f1 _ Hz)|].
    split; [|by rewrite Ed, (kp_inode _ _ _ _ _ (Hk dir n Hn))].
    intros z k Hz' Hk'. rewrite (Hdl z k Hz' Hk'). apply splice_ext. by apply (Hz z).
  - intros i m Hi Hm. destruct (fk_file _ _ _ Hfs i m Hm) as [_ Hfi]. apply keeps_untouched; [|done].
    eapply node_keeps_trans; [by apply Hk|]. apply Hk2; [done|]. rewrite lookup_insert_ne; [done|congruence].
Qed.

(** ** Removing a file *)

(** The file [ino] after one of its links went: with the last link the inode and
    all zones are free again. *)
Definition link_dropped (f : contents) (M : gmap Z node) (ino : Z) (m : node) (f' : contents) : Prop :=
  if i_nlinks (inode_at sb f ino) <=? 1
  then fs_ok sb f' (delete ino M) /\ inode_used sb f' ino = false /\
    (forall z, z ∈ node_all m -> zone_used sb f' z = false) /\
    nfree sb f' = nfree sb f + Z.of_nat (length (node_all m))
  else fs_ok sb f' M /\ inode_at sb f' ino = set_nlinks (inode_at sb f ino) (i_nlinks (inode_at sb f ino) - 1) /\
    content sb f' ino m = content sb f ino m /\ nfree sb f' = nfree sb f.

Record file_unlinked (f : contents) (M : gmap Z node) (dir : Z) (n : node) (name : str) (ino : Z) (m : node)
    (f' : contents) : Prop := {
  fu_name : dir_lookup sb f' (nd_zones n) name = None;
  fu_names name' : name' <> name -> dir_lookup sb f' (nd_zones n) name' = dir_lookup sb f (nd_zones n) name';
  fu_dir : inode_at sb f' dir = inode_at sb f dir;
  fu_others i m' : i <> dir -> i <> ino -> M !! i = Some m' -> untouched f f' i m';
  fu_file : link_dropped f M ino m f'
}.

Lemma set_nlinks_ok i k : inode_ok i -> fits 8 k -> inode_ok (set_nlinks i k).
Proof. intros [H1 H2 H3 H4 H5 H6 H7 H8] Hk. by split. Qed.

(** The number of links of a file that stays. *)
Lemma write_nlinks_fs f M ino m k : fs_ok sb f M -> M !! ino = Some m -> fits 8 k ->
  let i' := set_nlinks (inode_at sb f ino) k in
  let f' := splice f (inode_off sb ino) (DiskInode_bytes i') in
  inode_ok i' /\ fs_ok sb f' M /\ inode_at sb f' ino = i' /\ content sb f' ino m = content sb f ino m /\
  nfree sb f' = nfree sb f /\
  (forall j n, j <> ino -> M !! j = Some n -> keeps sb f f' j n).
Proof.
  intros Hfs Hm Hk i' f'. destruct (fk_file _ _ _ Hfs ino m Hm) as [Hr [L Hsz Hok]].
  assert (Hok' : inode_ok i') by by apply set_nlinks_ok.
  destruct (write_inode_fs sb N G f M ino m i' Hfs Hm Hok' eq_refl Hsz) as (Hfs' & Ei & Hkeep). fold f' in Hfs', Ei, Hkeep.
  pose proof (inode_write_same sb N G f ino i' Hr Hok') as Hs. fold f' in Hs.
  split; [done|]. split; [done|]. split; [done|]. split; [|split; [|done]].
  - unfold content. rewrite Ei. cbn [i' set_nlinks i_size]. apply slice_ext. intros k' Hk'.
    apply (same_fbyte sb N G f f' Hs); [|lia].
    pose proof (owned_zones _ _ _ (ly_owned _ _ _ _ _ _ _ L)) as Hd. by apply Forall_app in Hd as [? _].
  - apply nfree_ext. intros z Hz. by apply (same_used sb N G f f' Hs).
Qed.

Lemma unlink_ok f M dir n name ino m (Q : bool -> contents -> Prop) : fs_ok sb f M -> M !! dir = Some n ->
  valid_name sb name = true -> dir_lookup sb f (nd_zones n) name = Some ino -> M !! ino = Some m ->
  file_type (i_mode (inode_at sb f dir)) = FileType_DIR -> file_type (i_mode (inode_at sb f ino)) <> FileType_DIR ->
  name_once sb f (nd_zones n) name ->
  (forall f', file_unlinked f M dir n name ino m f' -> Q true f') -> triple N f (unlink sb dir name) Q.
Proof.
  intros Hfs Hn Hv Hl Hm Hdir Hfile Honce HQ. destruct (fk_file _ _ _ Hfs dir n Hn) as [Hr [L _ _]].
  destruct (fk_file _ _ _ Hfs ino m Hm) as [Hri [Li Hszi Hoki]].
  unfold unlink. rewrite Hv. cbn [negb].
  apply triple_seq, (find_dir_entry_ino_ok sb N G f dir (nd_zones n) (nd_z7 n) (nd_z8 n) (nd_inds n)); [done|done|].
  rewrite Hl. apply triple_seq, (read_inode_ok sb N G); [done|]. destruct (Z.eqb_spec (file_type (i_mode (inode_at sb f ino))) FileType_DIR); [done|].
  apply triple_seq, (remove_dir_entry_ok sb N G f dir (nd_zones n) (nd_z7 n) (nd_z8 n) (nd_inds n)); [done|done|].
  unfold dir_lookup in Hl. destruct (dir_find sb f (nd_zones n) (is_name name)) as [[pos p]|] eqn:Ef; [|done].
  pose proof (find_Some_elem _ _ _ Ef) as [Hin _]. destruct (spot_in _ _ _ Hin) as (z & Hz & Hp1 & Hp2 & _).
  assert (Hne : ino <> dir) by congruence. destruct (es_facts sb N G) as (He & _).
  destruct (zone_write_fs sb N G f M dir n z p (replicate (Z.to_nat es) 0) Hfs Hn Hz Hp1) as (Hfs1 & Hin1 & Hnf1 & Hk1);
    [rewrite length_replicate; lia|].
  pose proof (fun nm H => dir_lookup_remove sb N G f (nd_zones n) pos p name nm Ef H) as Hrem.
  set (f1 := splice f p (replicate (Z.to_nat es) 0)) in *. cbn [negb].
  assert (Hfin : forall f', all_keep sb f1 f' (delete ino M) ->
    link_dropped f M ino m f' -> triple N f' (mret true) Q).
  { intros f' Hk' Hf'. apply triple_ret, HQ. assert (Hd : delete ino M !! dir = Some n) by by rewrite lookup_delete_ne.
    pose proof (keeps_zones f1 f' dir n (Hk' dir n Hd)) as Hzd. split; [| | | |exact Hf'].
    - rewrite (dir_lookup_ext f1 f' _ _ Hzd), Hrem by done. by rewrite decide_True.
    - intros nm Hnm. rewrite (dir_lookup_ext f1 f' _ _ Hzd), Hrem by done. by rewrite decide_False.
    - rewrite (kp_inode _ _ _ _ _ (Hk' dir n Hd)). by apply Hin1.
    - intros i m' Hi Hi' Hm'. apply keeps_untouched; [|by apply (fk_file _ _ _ Hfs i m')].
      eapply node_keeps_trans; [by apply Hk1|]. apply Hk'. by rewrite lookup_delete_ne. }
  pose proof (io_nlinks _ Hoki) as Hnl. unfold fits in Hnl. unfold link_dropped in Hfin.
  destruct (Z.leb_spec (i_nlinks (inode_at sb f ino)) 1) as [Hle|Hgt].
  - rewrite (proj2 (Z.eqb_eq (Z.max 0 (i_nlinks (inode_at sb f ino) - 1)) 0)) by lia.
    apply triple_seq, (free_inode_blocks_ok sb N G f1 M ino m); [done|done|]. intros f' Hg. apply Hfin; [apply Hg|].
    split; [apply Hg|]. split; [apply Hg|]. split; [|rewrite <- Hnf1; apply Hg].
    intros z' Hz'. rewrite (fg_zones _ _ _ _ _ _ Hg), bool_decide_eq_true_2, andb_false_r; [done|done|].
    pose proof (owned_zones _ _ _ (ly_owned _ _ _ _ _ _ _ Li)) as Hd. rewrite Forall_forall in Hd. by apply Hd.
  - rewrite (proj2 (Z.eqb_neq (Z.max 0 (i_nlinks (inode_at sb f ino) - 1)) 0)) by lia.
    rewrite Z.max_r by lia. rewrite <- (Hin1 ino Hri).
    destruct (write_nlinks_fs f1 M ino m (i_nlinks (inode_at sb f1 ino) - 1) Hfs1 Hm) as (Hok' & Hfs2 & Ei & Ec & Hnf2 & Hk2);
      [rewrite Hin1 by done; unfold fits; lia|].
    apply triple_seq, (write_inode_ok sb N G); [done|done|]. apply Hfin.
    + intros i m' [Hi Hm']%lookup_delete_Some. by apply Hk2.
    + split; [done|]. split; [by rewrite Ei, Hin1|]. split; [|by rewrite Hnf2].
      rewrite Ec. apply (keeps_file sb N G f f1 ino m); [by apply Hk1|done].
Qed.

End Links.

(** ** Properties *)

(** C21. Creating a file: in a directory with a free slot, a valid name that is
    not taken and a free inode, the call returns an inode that was free; the new
    file is empty with one link, the name leads to it, all other names of the
    directory and all other files are as they were, and the file system with
    the new file is consistent. When no inode is free nothing changes. *)
Theorem create_file_correct {D : Type} `{DiskLaws D} sb N (d : D) f M dir n name sp :
  geometry sb N -> on_disk N d f -> fs_ok sb f M -> M !! dir = Some n ->
  valid_name sb name = true -> good_name name -> dir_lookup sb f (nd_zones n) name = None ->
  free_slot sb f (nd_zones n) sp -> room sb (nd_zones n) < 2 ^ 32 ->
  exists r d' f', create_file sb dir name d = Ret (Ok r, d') /\ on_disk N d' f' /\
    match r with
    | Some ino => file_created sb f M dir n name (Mode_of FileType_REG 420) ino f'
    | None => (forall i, 1 <= i <= ninodes sb -> inode_used sb f i = true) /\ fs_ok sb f' M /\
        forall i m, M !! i = Some m -> untouched sb f f' i m
    end.
Proof.
  intros G Hd Hfs Hn Hv Hg Hno Hsp Hroom.
  destruct (create_file_ok sb N G f M dir n name sp (fun r f' => match r with
    | Some ino => file_created sb f M dir n name (Mode_of FileType_REG 420) ino f'
    | None => (forall i, 1 <= i <= ninodes sb -> inode_used sb f i = true) /\ fs_ok sb f' M /\
        forall i m, M !! i = Some m -> untouched sb f f' i m
    end)) with (d := d) as (r & d' & f' & E & Hd' & HQ); try done.
  - intros f' Hall Hfs' Hk. split; [done|]. split; [done|]. intros i m Hm.
    apply (keeps_untouched sb N G); [by apply Hk|by apply (fk_file _ _ _ Hfs i m)].
  - by exists r, d', f'.
Qed.

(** C20. Removing a file: the name is gone, all other names of the directory and
    all other files are as they were. With the last link the inode and every
    zone of the file, data and tables, is free again; before that the number of
    links goes down by one and the contents stay. *)
Theorem unlink_correct {D : Type} `{DiskLaws D} sb N (d : D) f M dir n name ino m :
  geometry sb N -> on_disk N d f -> fs_ok sb f M -> M !! dir = Some n ->
  valid_name sb name = true -> dir_lookup sb f (nd_zones n) name = Some ino -> M !! ino = Some m ->
  file_type (i_mode (inode_at sb f dir)) = FileType_DIR -> file_type (i_mode (inode_at sb f ino)) <> FileType_DIR ->
  name_once sb f (nd_zones n) name ->
  exists d' f', unlink sb dir name d = Ret (Ok true, d') /\ on_disk N d' f' /\
    file_unlinked sb f M dir n name ino m f'.
Proof.
  intros G Hd Hfs Hn Hv Hl Hm Hdir Hfile Honce.
  destruct (unlink_ok sb N G f M dir n name ino m (fun r f' => r = true /\ file_unlinked sb f M dir n name ino m f'))
    with (d := d) as (r & d' & f' & E & Hd' & -> & HQ); try done.
  by exists d', f'.
Qed.

(** A name that the list of slots has once. *)
Lemma name_once_filter sb f zones name sp :
  List.filter (fun sp => named sb f (is_name name) sp.2) (spots sb 0 zones) = [sp] -> name_once sb f zones name.
Proof.
  intros E. assert (Hone : forall sp', sp' ∈ spots sb 0 zones -> named sb f (is_name name) sp'.2 = true -> sp' = sp).
  { intros sp' Hin Hn. apply list_elem_of_singleton. rewrite <- E. apply list_elem_of_In, filter_In.
    split; [by apply list_elem_of_In|done]. }
  intros sp1 sp2 H1 H2 N1 N2. by rewrite (Hone sp1), (Hone sp2).
Qed.

(** The file [b] next to [a] in the directory of the example. *)
Lemma create_file_witness : exists r d' f', create_file ex_sb 1 ["b"%char] ex_disk = Ret (Ok r, d') /\ on_disk 10240 d' f' /\
  match r with
  | Some ino => file_created ex_sb ex_byte ex_nodes 1 ex_dir ["b"%char] (Mode_of FileType_REG 420) ino f'
  | None => (forall i, 1 <= i <= ninodes ex_sb -> inode_used ex_sb ex_byte i = true) /\ fs_ok ex_sb f' ex_nodes /\
      forall i m, ex_nodes !! i = Some m -> untouched ex_sb ex_byte f' i m
  end.
Proof.
  apply (create_file_correct ex_sb 10240 ex_disk ex_byte ex_nodes 1 ex_dir ["b"%char] (48, 5168)
    ex_geometry ex_on_disk ex_fs_ok).
  - reflexivity.
  - reflexivity.
  - split; [reflexivity|]. repeat constructor; discriminate.
  - vm_compute. reflexivity.
  - vm_compute. reflexivity.
  - reflexivity.
Defined.

Lemma unlink_witness : exists d' f', unlink ex_sb 1 ["a"%char] ex_disk = Ret (Ok true, d') /\ on_disk 10240 d' f' /\
  file_unlinked ex_sb ex_byte ex_nodes 1 ex_dir ["a"%char] 2 ex_node f'.
Proof.
  apply (unlink_correct ex_sb 10240 ex_disk ex_byte ex_nodes 1 ex_dir ["a"%char] 2 ex_node
    ex_geometry ex_on_disk ex_fs_ok).
  - reflexivity.
  - reflexivity.
  - vm_compute. reflexivity.
  - reflexivity.
  - rewrite ex_dir_inode_at. reflexivity.
  - rewrite ex_inode_at. discriminate.
  - apply (name_once_filter _ _ _ _ (32, 5152)). vm_compute. reflexivity.
Defined.
