(* ===== verification/MinixGrow.v ===== *)
(** * MinixGrow: a directory that needs another zone

    When no slot is free, [add_dir_entry_at] appends a zone to the directory and
    looks for a free slot in it. The zone is not cleared: what it held before
    becomes part of the directory. *)

From Stdlib Require Import Ascii.
From stdpp Require Import gmap.
From S2P Require Import Prelude Bitmap BitFields Abi Paths Bytes Disk Minix MinixDisk MinixZones MinixFile MinixDir MinixTree MinixDirOps MinixLink.

Section Grow.
Context {D : Type} `{DiskLaws D} (sb : DiskSuperBlock) (N : Z) (G : geometry sb N).
Abbreviation zs := (zsize sb).
Abbreviation es := (entry_size sb).
Abbreviation contents := (Z -> Z).

(** The first free slot of a zone. *)
Definition zone_slot (f : contents) (z : Z) : option Z := find (fun s => free_spot f (z * zs + s)) (slots zs es).

Lemma zone_slot_eq f z : find_slot (slot_free (slice f (z * zs) zs)) (slots zs es) = Ret (zone_slot f z).
Proof. apply find_slot_pure. intros s Hs. by apply (slot_free_slice sb N G). Qed.

(** The loop passes over the zones without a free slot. *)
Lemma add_loop_skip fuel f dir_ino dir zones k ino name (Q : unit -> contents -> Prop) :
  (k <= length zones)%nat -> (length zones - k <= fuel)%nat -> Forall (data_zone sb) zones ->
  Forall (fun z => zone_slot f z = None) (drop k zones) ->
  triple N f (add_dir_entry_loop sb (fuel - (length zones - k)) zs dir_ino name ino dir zones (length zones)) Q ->
  triple N f (add_dir_entry_loop sb fuel zs dir_ino name ino dir zones k) Q.
Proof.
  intros Hk Hfuel Hd Hno HQ. pose proof (zs_pos sb N G) as Hzs. revert k Hk Hfuel Hno HQ.
  induction fuel as [|fuel IH]; intros k Hk Hfuel Hno HQ.
  { by replace k with (length zones) by lia. }
  destruct (zones !! k) as [z|] eqn:Ez.
  2: { apply lookup_ge_None_1 in Ez. replace k with (length zones) in * by lia. by rewrite Nat.sub_diag, Nat.sub_0_r in HQ. }
  pose proof (lookup_lt_Some _ _ _ Ez) as Hlt. cbn [add_dir_entry_loop].
  destruct (Nat.leb_spec (length zones) k); [lia|]. rewrite (drop_S _ _ _ Ez) in Hno. apply Forall_cons in Hno as [Hz Hno].
  apply triple_seq, triple_ret. cbn beta. rewrite Ez. cbn [expect].
  apply triple_seq. eapply triple_pure; [done|]. cbn beta.
  assert (Hdz : data_zone sb z) by (rewrite Forall_forall in Hd; by eapply Hd, list_elem_of_lookup_2).
  apply triple_seq, (read_zone_into_ok sb N G); [done|lia|]. pure_step (zone_slot_eq f z). rewrite Hz.
  apply IH; [lia|lia|done|].
  by replace (fuel - (length zones - S k))%nat with (S fuel - (length zones - k))%nat by lia.
Qed.

(** What the directory is after it grew by the zone [z]. *)
Record grown (f : contents) (M : gmap Z node) (dir : Z) (n : node) (name : str) (ino z s : Z)
    (n' : node) (f' : contents) : Prop := {
  gr_fresh : data_zone sb z /\ zone_used sb f z = false;
  gr_zones : nd_zones n' = nd_zones n ++ [z];
  gr_ok : fs_ok sb f' (<[dir := n']> M);
  gr_size : i_size (inode_at sb f' dir) = room sb (nd_zones n) + s + es;
  gr_old i : i ∈ nd_zones n -> forall k, in_zone sb i k -> f' k = f k;
  gr_new k : in_zone sb z k -> f' k = splice f (z * zs + s) (dir_slot sb ino name) k;
  gr_others i m : i <> dir -> M !! i = Some m -> inode_at sb f' i = inode_at sb f i /\ content sb f' i m = content sb f i m
}.

Lemma write_entry_ok f dir_ino dir zones k z s ino name fuel (Q : unit -> contents -> Prop) :
  data_zone sb z -> zones !! k = Some z -> zone_slot f z = Some s -> 1 <= dir_ino <= ninodes sb -> inode_ok dir ->
  fits_slot sb name -> (k < length zones)%nat ->
  Q tt (entry_added sb f dir_ino dir (Z.of_nat k * zs + s) (z * zs + s) ino name) ->
  triple N f (zone ← io_pure (expect (zones !! k));
      block ← read_zone_into sb zone zs;
      slot ← io_pure (find_slot (slot_free block) (slots zs es));
      match slot with
      | Some slot =>
          block ← io_pure (write_dir_slot block slot es ino name);
          _ ← write_zone sb zone block;
          let end_ := Z.of_nat k * zs + slot + es in
          if i_size dir <? end_ then write_inode sb dir_ino (set_size dir (wrap 32 end_)) else mret tt
      | None => add_dir_entry_loop sb fuel zs dir_ino name ino dir zones (S k)
      end) Q.
Proof.
  intros Hz Ez Hs Hr Hok Hf Hk HQ. pose proof (zs_pos sb N G) as Hzs. rewrite Ez. cbn [expect].
  apply triple_seq. eapply triple_pure; [done|]. cbn beta. apply triple_seq, (read_zone_into_ok sb N G); [done|lia|].
  pure_step (zone_slot_eq f z). rewrite Hs. apply find_Some_elem in Hs as [Hs _]. by apply (add_block_ok sb N G).
Qed.

Lemma zone_slot_ext f f' z : (forall k, in_zone sb z k -> f' k = f k) -> zone_slot f' z = zone_slot f z.
Proof.
  intros Hb. apply find_ext_in. intros s Hs. destruct (elem_slots sb N G s Hs) as (H1 & H2 & _).
  destruct (es_facts sb N G) as (He & _). unfold free_spot, ino_at. do 2 f_equal.
  apply slice_ext. intros k Hk. apply Hb. unfold in_zone. lia.
Qed.

Lemma grown_intro f M dir n name ino z s f1 l f2 z7' z8' inds' : let inode := inode_at sb f dir in
  let zones' := nd_zones n ++ [z] in let dir' := with_zones inode (resize 7 zones' ++ [z7'; z8']) in
  fs_ok sb f M -> M !! dir = Some n -> fits_slot sb name -> room sb (nd_zones n) + zs < 2 ^ 32 ->
  alloc_step sb [z] [] f f1 -> alloc_step sb l (metas z7' z8' inds') f1 f2 ->
  metas z7' z8' inds' ≡ₚ metas (nd_z7 n) (nd_z8 n) (nd_inds n) ++ l ->
  layout sb f2 dir' zones' z7' z8' inds' -> zone_slot f z = Some s ->
  grown f M dir n name ino z s (mkNode zones' z7' z8' inds')
    (entry_added sb f2 dir dir' (Z.of_nat (length (nd_zones n)) * zs + s) (z * zs + s) ino name).
Proof.
  intros inode zones' dir' Hfs Hn Hf Hroom Hs1 Hs2 Hpm L Hslot. pose proof (zs_pos sb N G) as Hzs.
  destruct (fk_file _ _ _ Hfs dir n Hn) as [Hr [L0 Hsz Hok]]. destruct (es_facts sb N G) as (He & _).
  apply find_Some_elem in Hslot as [Hs _]. destruct (elem_slots sb N G s Hs) as (Hs0 & Hse & _).
  pose proof (length_dir_slot sb N G ino name Hf) as Hlen.
  pose proof (as_fresh _ _ _ _ _ Hs1) as Hfr. apply Forall_cons in Hfr as [[Hz Hu] _].
  destruct (owned_app_inv _ _ _ _ (ly_owned _ _ _ _ _ _ _ L)) as (Hoz & Hom & Hdj).
  pose proof (owned_zones _ _ _ Hoz) as Hdz.
  set (p := z * zs + s). set (fe := splice f2 p (dir_slot sb ino name)).
  assert (Hin : in_zone sb z p) by (unfold in_zone, p; lia).
  assert (Hs3 : alloc_step sb [] [z] f2 fe).
  { apply (alloc_step_splice sb N G); [apply Hs2|done|done|]. unfold p. lia. }
  assert (Hsz' : i_size dir' = i_size inode) by done.
  assert (Hok' : inode_ok dir') by (by eapply (with_zones_ok sb N G)).
  unfold entry_added. fold p fe. rewrite Hsz'. unfold room in Hsz, Hroom. fold inode in Hsz.
  destruct (Z.ltb_spec (i_size inode) (Z.of_nat (length (nd_zones n)) * zs + s + es)); [|lia].
  set (pos := Z.of_nat (length (nd_zones n)) * zs + s). replace (wrap 32 (pos + es)) with (pos + es) by (unfold wrap; rewrite Z.mod_small; lia).
  set (i' := set_size dir' (pos + es)).
  assert (Hoki : inode_ok i') by (apply set_size_ok; [done|unfold fits; lia]).
  set (f' := splice fe (inode_off sb dir) (DiskInode_bytes i')).
  pose proof (inode_write_same sb N G fe dir i' Hr Hoki) as Hsame. fold f' in Hsame.
  assert (Eat : inode_at sb f' dir = i') by by apply inode_at_write.
  assert (Le : layout sb fe dir' zones' z7' z8' inds').
  { eapply (layout_step sb N G); [exact Hs3| |exact L]. intros z' Hz' ->%list_elem_of_singleton.
    apply (Hdj z); [|done]. apply elem_of_app. right. by left. }
  assert (Hall : alloc_step sb ([z] ++ l) (zones' ++ metas z7' z8' inds') f fe).
  { pose proof (alloc_step_trans sb _ _ _ _ _ _ _ (alloc_step_trans sb _ _ _ _ _ _ _ Hs1 Hs2) Hs3) as Ha.
    rewrite app_nil_r in Ha. eapply alloc_step_mono; [|exact Ha]. clear. set_solver. }
  destruct (fs_ok_update sb N G f M dir n ([z] ++ l) (zones' ++ metas z7' z8' inds') fe f' (mkNode zones' z7' z8' inds')
    Hfs Hn Hall) as [Hfs' Hoth]; [|done|done| | |].
  { rewrite Hpm. unfold zones', node_all. rewrite <- !app_assoc. f_equiv. rewrite !app_assoc. f_equiv. apply Permutation_app_comm. }
  { intros i Hi. by apply inode_at_write_ne. }
  { rewrite Eat. split; [by apply (same_layout sb N G fe f' Hsame dir')| |done].
    cbn [i' set_size i_size nd_zones]. unfold room, zones'. rewrite length_app. cbn [length]. lia. }
  assert (Hbytes : forall y k, y ∈ zones' -> in_zone sb y k -> f' k = fe k /\ f2 k = f k).
  { intros y k Hy Hk. rewrite Forall_forall in Hdz. specialize (Hdz y Hy).
    split; [by apply (same_zone_bytes sb N G fe f' Hsame y)|].
    rewrite (touches_zone sb N G (metas z7' z8' inds') f1 f2 y k); [|apply Hs2|done|by apply Hdj|done].
    apply (touches_zone sb N G [] f f1 y k); [apply Hs1|done|apply not_elem_of_nil|done]. }
  split; [by split|done|done|rewrite Eat; done| | |exact Hoth].
  - intros y Hy k Hk. destruct (Hbytes y k) as [-> <-]; [apply elem_of_app; by left|done|].
    apply splice_out. assert (y <> z). { intros ->. destruct Hoz as [Hnd _]. apply NoDup_app in Hnd as (_ & Hnd & _). by apply (Hnd z Hy), list_elem_of_singleton. }
    pose proof (zones_apart sb N G y z ltac:(done)). unfold in_zone in Hk. unfold p. lia.
  - intros k Hk. destruct (Hbytes z k) as [-> E]; [apply elem_of_app; right; by left|done|].
    unfold fe. by apply splice_ext.
Qed.

Lemma add_dir_entry_full_ok f M dir n ino name (Q : unit -> contents -> Prop) :
  fs_ok sb f M -> M !! dir = Some n -> fits_slot sb name -> Forall (fun z => zone_slot f z = None) (nd_zones n) ->
  (forall z, data_zone sb z -> zone_used sb f z = false -> is_Some (zone_slot f z)) ->
  let k := length (nd_zones n) in
  (S k <= max_zones sb)%nat -> 1 + Z.of_nat (nmeta sb (S k) - nmeta sb k) <= nfree sb f ->
  room sb (nd_zones n) + zs < 2 ^ 32 ->
  (forall z s n' f', zone_slot f z = Some s -> grown f M dir n name ino z s n' f' -> Q tt f') ->
  triple N f (add_dir_entry_at sb dir name ino) Q.
Proof.
  intros Hfs Hn Hf Hno Hfree k Hcap Hspace Hroom HQ.
  destruct (fk_file _ _ _ Hfs dir n Hn) as [Hr [L Hsz Hok]]. pose proof (ly_owned _ _ _ _ _ _ _ L) as Ho.
  pose proof (owned_zones _ _ _ Ho) as Hd. apply Forall_app in Hd as [Hd _].
  unfold add_dir_entry_at. pure_step (zone_size_eq sb N G).
  apply triple_seq, (read_inode_ok sb N G); [done|].
  apply triple_seq, (data_zones_ok sb N G f _ (nd_zones n) (nd_z7 n) (nd_z8 n) (nd_inds n)); [done|].
  apply add_loop_skip; [lia|lia|done|by rewrite drop_0|]. fold k.
  replace (k + Z.to_nat (nzones sb) + 1 - (k - 0))%nat with (S (Z.to_nat (nzones sb))) by lia.
  cbn [add_dir_entry_loop]. fold k. rewrite Nat.leb_refl.
  apply triple_seq, triple_seq, (alloc_zone_step sb N G); [apply Hfs|lia|]. intros z f1 Hs1.
  pose proof (as_free _ _ _ _ _ Hs1) as Ef1. cbn [length] in Ef1.
  pose proof (as_fresh _ _ _ _ _ Hs1) as Hfr. apply Forall_cons in Hfr as [[Hz Hu] _].
  destruct (Hfree z Hz Hu) as [s Hslot].
  assert (El : length (nd_zones n ++ [z]) = S k) by (rewrite length_app; cbn; lia).
  apply triple_seq, (write_file_zones_ok sb N G f1 _ (nd_zones n) [z] (nd_z7 n) (nd_z8 n) (nd_inds n)).
  - eapply (layout_step sb N G); [exact Hs1|intros ? _; by apply not_elem_of_nil|done].
  - apply Hs1.
  - eapply owned_perm; [|exact (owned_step _ _ _ _ _ _ Hs1 Ho)]. rewrite <- !app_assoc. f_equiv. apply Permutation_app_comm.
  - lia.
  - rewrite El. fold k. lia.
  - intros z7' z8' inds' l f2 L2 Hs2 Hpm. apply triple_ret. cbv iota beta.
    destruct (owned_app_inv _ _ _ _ (ly_owned _ _ _ _ _ _ _ L2)) as (_ & _ & Hdj).
    apply (write_entry_ok _ _ _ _ k z s); [done| | |done|by eapply (with_zones_ok sb N G)|done|rewrite El; lia|].
    + apply list_lookup_middle. done.
    + rewrite <- Hslot. apply zone_slot_ext. intros j Hj.
      rewrite (touches_zone sb N G (metas z7' z8' inds') f1 f2 z j); [|apply Hs2|done| |done].
      * apply (touches_zone sb N G [] f f1 z j); [apply Hs1|done|apply not_elem_of_nil|done].
      * apply Hdj, elem_of_app. right. by left.
    + apply (HQ z s (mkNode (nd_zones n ++ [z]) z7' z8' inds')); [done|]. by eapply grown_intro.
Qed.

(** ** Names of a directory that grew *)

Lemma spots_offsets i j zones : (spots sb i zones).*2 = (spots sb j zones).*2.
Proof.
  revert i j. induction zones as [|z zones IH]; intros i j; [done|]. cbn [spots]. rewrite !fmap_app.
  rewrite (IH (S i) (S j)). f_equal. by rewrite <- !list_fmap_compose.
Qed.

Lemma spots_app i a b : (spots sb i (a ++ b)).*2 = (spots sb 0 a).*2 ++ (spots sb 0 b).*2.
Proof.
  revert i. induction a as [|z a IH]; intros i; cbn [app spots]; [apply spots_offsets|].
  rewrite !fmap_app, IH, <- app_assoc. rewrite (spots_offsets 1 0 a). f_equal. by rewrite <- !list_fmap_compose.
Qed.

Lemma dir_lookup_offsets f zones name :
  dir_lookup sb f zones name = ino_at f <$> find (named sb f (is_name name)) (spots sb 0 zones).*2.
Proof.
  unfold dir_lookup, dir_find. rewrite find_fmap. by destruct (find _ (spots sb 0 zones)).
Qed.

Lemma dir_lookup_app f a b name :
  dir_lookup sb f (a ++ b) name = match dir_lookup sb f a name with Some i => Some i | None => dir_lookup sb f b name end.
Proof.
  rewrite !dir_lookup_offsets, spots_app, find_app_cases. by destruct (find _ (spots sb 0 a).*2).
Qed.

Lemma grown_lookup f M dir n name ino z s n' f' nm : grown f M dir n name ino z s n' f' -> zone_slot f z = Some s ->
  1 <= ino < 2 ^ 16 -> good_name name -> fits_slot sb name ->
  nm <> name \/ dir_lookup sb f [z] nm = None ->
  dir_lookup sb f' (nd_zones n') nm =
    match dir_lookup sb f (nd_zones n) nm with
    | Some i => Some i
    | None => if decide (nm = name) then Some ino else dir_lookup sb f [z] nm
    end.
Proof.
  intros [_ Ez _ _ Hold Hnew _] Hs Hi Hg Hf Hnm. rewrite Ez, dir_lookup_app.
  rewrite (dir_lookup_ext sb N G f f' (nd_zones n)) by (intros y k Hy Hk; by apply (Hold y)).
  rewrite (dir_lookup_ext sb N G (splice f (z * zs + s) (dir_slot sb ino name)) f' [z])
    by (intros y k ->%list_elem_of_singleton Hk; by apply Hnew).
  destruct (dir_lookup sb f (nd_zones n) nm); [done|]. apply find_Some_elem in Hs as [Hs Hfree].
  rewrite (dir_lookup_add sb N G f [z] s (z * zs + s) ino name nm); [|..|done|done|done|done].
  - case_decide as E; [|done]. subst nm. destruct Hnm as [?|Hnm]; [done|]. by rewrite Hnm.
  - cbn [spots]. rewrite app_nil_r. apply list_elem_of_fmap. exists s. split; [f_equal; lia|done].
Qed.

End Grow.

(** ** Properties *)

(** C28. A full directory grows by a zone that was free, and whatever that zone
    held before is read as entries of the directory: besides the new name, every
    name found in the old contents of the zone is a name of the directory from
    then on. The names the directory had and all other files stay, and the
    zones stay consistent. *)
Theorem add_dir_entry_stale {D : Type} `{DiskLaws D} sb N (d : D) f M dir n ino name :
  geometry sb N -> on_disk N d f -> fs_ok sb f M -> M !! dir = Some n ->
  good_name name -> fits_slot sb name -> 1 <= ino < 2 ^ 16 -> Forall (fun z => zone_slot sb f z = None) (nd_zones n) ->
  (forall z, data_zone sb z -> zone_used sb f z = false -> is_Some (zone_slot sb f z)) ->
  let k := length (nd_zones n) in
  (S k <= max_zones sb)%nat -> 1 + Z.of_nat (nmeta sb (S k) - nmeta sb k) <= nfree sb f ->
  room sb (nd_zones n) + zsize sb < 2 ^ 32 ->
  exists z n' d' f', add_dir_entry_at sb dir name ino d = Ret (Ok tt, d') /\ on_disk N d' f' /\
    data_zone sb z /\ zone_used sb f z = false /\ nd_zones n' = nd_zones n ++ [z] /\ fs_ok sb f' (<[dir := n']> M) /\
    (forall nm, nm <> name \/ dir_lookup sb f [z] nm = None -> dir_lookup sb f' (nd_zones n') nm =
       match dir_lookup sb f (nd_zones n) nm with
       | Some i => Some i
       | None => if decide (nm = name) then Some ino else dir_lookup sb f [z] nm
       end) /\
    (forall i m, i <> dir -> M !! i = Some m ->
       inode_at sb f' i = inode_at sb f i /\ content sb f' i m = content sb f i m).
Proof.
  intros G Hd Hfs Hn Hg Hf Hi Hno Hfree k Hcap Hspace Hroom.
  destruct (add_dir_entry_full_ok sb N G f M dir n ino name (fun _ f' => exists z s n',
    zone_slot sb f z = Some s /\ grown sb f M dir n name ino z s n' f'))
    with (d := d) as ([] & d' & f' & E & Hd' & z & s & n' & Hs & Hgr); try done.
  { intros z s n' f' Hs Hgr. by exists z, s, n'. }
  exists z, n', d', f'. split; [done|]. split; [done|]. pose proof Hgr as [[Hz Hu] Ez Hok _ _ _ Ho].
  split; [done|]. split; [done|]. split; [done|]. split; [done|]. split; [|done].
  intros nm Hnm. by eapply (grown_lookup sb N G).
Qed.

(** The example with a full directory, and an entry [x] for inode 2 in zone 7,
    which is free. *)
Definition ex_full (i : Z) : Z :=
  if (5120 <=? i) && (i <? 6144) then (if i mod 16 =? 0 then 1 else if i mod 16 =? 2 then 46 else 0)
  else if i =? 4100 then 0 else if i =? 4101 then 4
  else if i =? 7168 then 2 else if i =? 7170 then 120
  else ex_byte i.
Definition ex_full_disk : RamDisk := mkRamDisk 10240 ex_full.

Lemma ex_full_low i : i < 4096 -> ex_full i = ex_byte i.
Proof.
  intros Hi. unfold ex_full. replace (5120 <=? i) with false by lia. replace (i =? 4100) with false by lia.
  replace (i =? 4101) with false by lia. replace (i =? 7168) with false by lia. by replace (i =? 7170) with false by lia.
Qed.

Lemma ex_full_on_disk : on_disk 10240 ex_full_disk ex_full.
Proof.
  assert (Hb : forall i, is_byte (ex_full i)).
  { intros i. unfold ex_full. repeat (case_match; [try done|]); try done. apply ex_byte_ok. }
  split; [done|]. split; [done|]. intros i _. cbn. specialize (Hb i). unfold is_byte in *. by rewrite Z.mod_small.
Qed.

Lemma ex_full_fs_ok : fs_ok ex_sb ex_full ex_nodes.
Proof.
  destruct ex_padded as [Hz Hi], ex_inodes_ok as [[Hd1 Hd2 Hd3 Hd4 Hd5 Hd6 Hd7 Hd8] Hf]. split.
  - intros j Hj. unfold bit_at. rewrite ex_full_low; [by apply Hz|].
    change (8 * (zmap_blocks ex_sb * zsize ex_sb)) with 8192 in Hj. change (zmap_off ex_sb) with 3072. lia.
  - intros j Hj. unfold bit_at. rewrite ex_full_low; [by apply Hi|].
    change (8 * (imap_blocks ex_sb * zsize ex_sb)) with 8192 in Hj. change (imap_off ex_sb) with 2048. lia.
  - intros ino n [[-> ->]|[-> ->]]%ex_nodes_cases; (split; [done|]).
    + replace (inode_at ex_sb ex_full 1) with (set_size ex_dir_inode 1024) by (vm_compute; reflexivity).
      apply ex_file_ok; [by split|done|done|done|reflexivity].
    + replace (inode_at ex_sb ex_full 2) with ex_inode by (vm_compute; reflexivity). by apply ex_file_ok.
  - by intros ino n [[-> ->]|[-> ->]]%ex_nodes_cases.
  - apply (fk_disjoint _ _ _ ex_fs_ok).
Qed.

Lemma add_dir_entry_stale_witness : exists z n' d' f',
  add_dir_entry_at ex_sb 1 ["b"%char] 3 ex_full_disk = Ret (Ok tt, d') /\ on_disk 10240 d' f' /\
  data_zone ex_sb z /\ zone_used ex_sb ex_full z = false /\ nd_zones n' = [5] ++ [z] /\ fs_ok ex_sb f' (<[1 := n']> ex_nodes) /\
  (forall nm, nm <> ["b"%char] \/ dir_lookup ex_sb ex_full [z] nm = None -> dir_lookup ex_sb f' (nd_zones n') nm =
     match dir_lookup ex_sb ex_full [5] nm with
     | Some i => Some i
     | None => if decide (nm = ["b"%char]) then Some 3 else dir_lookup ex_sb ex_full [z] nm
     end) /\
  (forall i m, i <> 1 -> ex_nodes !! i = Some m ->
     inode_at ex_sb f' i = inode_at ex_sb ex_full i /\ content ex_sb f' i m = content ex_sb ex_full i m).
Proof.
  apply (add_dir_entry_stale ex_sb 10240 ex_full_disk ex_full ex_nodes 1 ex_dir 3 ["b"%char]
    ex_geometry ex_full_on_disk ex_full_fs_ok).
  - reflexivity.
  - split; [reflexivity|]. repeat constructor; discriminate.
  - vm_compute. discriminate.
  - lia.
  - constructor; [vm_compute; reflexivity|constructor].
  - intros z Hz Hu. assert (z = 5 \/ z = 6 \/ z = 7 \/ z = 8 \/ z = 9) as [->|[->|[->|[->| ->]]]]
      by (unfold data_zone in Hz; cbn in Hz; lia); try (vm_compute in Hu; discriminate Hu); vm_compute; by eexists.
  - transitivity 2%nat; [by apply Nat.leb_le|unfold max_zones; lia].
  - vm_compute. discriminate.
  - vm_compute. reflexivity.
Defined.
