(* ===== verification/MinixOpen.v ===== *)
(** * MinixOpen: reading directories and resolving paths

    The directory iterator yields the entries in use of the directory, in
    order. [open] finds what a path means: [resolves] says it without fuel or
    queues, and counts the symbolic links on the way. *)

From Stdlib Require Import Ascii.
From stdpp Require Import gmap.
From S2P Require Import Prelude Bitmap BitFields Abi Paths Bytes Disk Minix MinixDisk MinixZones MinixFile MinixDir MinixTree MinixDirOps.

Section Listing.
Context {D : Type} `{DiskLaws D} (sb : DiskSuperBlock) (N : Z) (G : geometry sb N).
Abbreviation zs := (zsize sb).
Abbreviation es := (entry_size sb).
Abbreviation contents := (Z -> Z).

(** ** The iterator *)

Section Iterator.
Context (f : contents) (zones : list Z) (size : Z).
Hypothesis (Hd : Forall (data_zone sb) zones).
Hypothesis (Hsize : 0 <= size <= room sb zones).
Hypothesis (Hmod : size mod es = 0).

Abbreviation F := (fbyte sb f zones).

(** The entries from the slot [k] on. *)
Definition entries_from (k : Z) : list DirEntry :=
  omap (fun i => parse_slot (slice F (i * es) es)) (seqZ k (size / es - k)).

(** The iterator is about to look at the slot [k]; its buffer holds the bytes
    from [lo] to [hi]. *)
Record it_at (self : DirEntries) (k : Z) : Prop := {
  ia_zone_size : it_zone_size self = zs;
  ia_zones : it_zones self = zones;
  ia_entry_size : it_entry_size self = es;
  ia_failed : it_failed self = false;
  ia_buffer : let hi := Z.min (Z.of_nat (it_next_zone self) * zs) size in
    exists lo, 0 <= lo <= k * es /\ k * es <= hi /\ it_buffer self = slice F lo (hi - lo) /\
      it_remaining self = size - hi /\ it_offset self = k * es - lo
}.

Lemma size_slots : size = size / es * es.
Proof. destruct (es_facts sb N G) as (He & _). pose proof (Z.div_mod size es ltac:(lia)). lia. Qed.

Lemma zones_aligned j : exists q, Z.of_nat j * zs = q * es.
Proof.
  destruct (es_facts sb N G) as (He & _ & Hq). exists (Z.of_nat j * (zs / es)). rewrite <- Hq at 1. lia.
Qed.

Lemma it_at_new : it_at (DirEntries_new zs zones size es) 0.
Proof.
  split; try done. cbn [it_next_zone DirEntries_new Z.of_nat]. exists 0.
  rewrite Z.mul_0_l, Z.min_l by lia. split; [lia|]. split; [lia|]. split; [done|]. cbn. lia.
Qed.

(** Filling the buffer: a slot is left, or the iterator is at the end. *)
Lemma fill_ok self k (Q : _ -> contents -> Prop) : it_at self k ->
  (size / es <= k -> Q (inl (None, self)) f) ->
  (forall self', k < size / es -> it_at self' k -> it_offset self' + es <= Z.of_nat (length (it_buffer self')) ->
     Q (inr self') f) ->
  triple N f (DirEntries_fill sb self) Q.
Proof.
  intros [I1 I2 I3 I4 (lo & Hlo & Hk & Eb & Er & Eo)] Hend Hgo. destruct (es_facts sb N G) as (He & _).
  pose proof (zs_pos sb N G) as Hzs. pose proof size_slots as Hs. set (j := it_next_zone self) in *.
  destruct (zones_aligned j) as [q Hq].
  assert (Hhi : exists h, Z.min (Z.of_nat j * zs) size = h * es).
  { destruct (Z.min_spec (Z.of_nat j * zs) size) as [[_ ->]|[_ ->]]; eauto. }
  destruct Hhi as [h Hh]. pose proof (length_slice F lo (Z.min (Z.of_nat j * zs) size - lo)) as Hlen.
  unfold DirEntries_fill. fold j. rewrite I3, I1, I2, Eo, Er.
  destruct (Z.ltb_spec (Z.of_nat (length (it_buffer self))) (k * es - lo + es)) as [Hlt|Hge].
  2: { apply triple_ret, Hgo; [|split; try done; by exists lo|by rewrite Eo]. rewrite Eb in Hge. nia. }
  assert (Hkh : k = h) by (rewrite Eb in Hlt; nia). subst h.
  destruct (Z.eqb_spec (size - Z.min (Z.of_nat j * zs) size) 0) as [E|E].
  { apply triple_ret, Hend. nia. }
  assert (Hjs : Z.of_nat j * zs < size) by lia. rewrite Z.min_l in * by lia.
  destruct (zones !! j) as [z|] eqn:Ez.
  2: { apply lookup_ge_None_1 in Ez. unfold room in Hsize. nia. }
  assert (Hz : data_zone sb z) by (rewrite Forall_forall in Hd; by eapply Hd, list_elem_of_lookup_2).
  apply triple_seq, triple_attempt, (read_zone_into_ok sb N G); [done|lia|]. apply triple_ret.
  set (c := Z.min zs (size - Z.of_nat j * zs)).
  assert (Ej : Z.of_nat j * zs / zs = Z.of_nat j) by (apply Z.div_mul; lia).
  assert (Emod : (Z.of_nat j * zs) mod zs = 0) by (apply Z.mod_mul; lia).
  assert (Ebuf : slice f (z * zs) c = slice F (Z.of_nat j * zs) c).
  { rewrite (slice_fbyte sb N G f zones _ c z); [by rewrite Emod, Z.add_0_r|lia|by rewrite Ej, Nat2Z.id|lia]. }
  assert (Emin : Z.min (Z.of_nat (S j) * zs) size = Z.of_nat j * zs + c) by lia.
  assert (Hkk : k < size / es) by (apply (Z.mul_lt_mono_pos_r es); lia).
  apply Hgo; cbn [it_offset it_buffer]; [done| |].
  - split; try done. cbn [it_next_zone it_buffer it_remaining it_offset]. rewrite Emin. exists (Z.of_nat j * zs).
    split; [lia|]. split; [lia|]. split; [by rewrite Z.add_simpl_l|]. lia.
  - rewrite Ebuf. pose proof (length_slice F (Z.of_nat j * zs) c).
    pose proof (Z.mul_le_mono_nonneg_r (k + 1) (size / es) es ltac:(lia) ltac:(lia)). lia.
Qed.

Lemma entries_cons k : k < size / es ->
  entries_from k = match parse_slot (slice F (k * es) es) with
                   | Some e => e :: entries_from (k + 1)
                   | None => entries_from (k + 1)
                   end.
Proof.
  intros Hk. unfold entries_from. rewrite (seqZ_cons k) by lia. cbn [omap list_omap].
  replace (Z.pred (size / es - k)) with (size / es - (k + 1)) by lia. by rewrite Z.add_1_r.
Qed.

Lemma entries_end k : size / es <= k -> entries_from k = [].
Proof. intros Hk. unfold entries_from. by rewrite seqZ_nil by lia. Qed.

(** The result of [next]: the entry that is next in the list, or the end. *)
Definition yields (k : Z) (r : option (result IoError DirEntry) * DirEntries) : Prop :=
  match entries_from k with
  | [] => r.1 = None
  | e :: rest => r.1 = Some (Ok e) /\ exists k', k < k' /\ it_at r.2 k' /\ entries_from k' = rest
  end.

Lemma loop_ok fuel self k (Q : _ -> contents -> Prop) : it_at self k -> size / es - k < Z.of_nat fuel ->
  (forall r, yields k r -> Q r f) -> triple N f (DirEntries_loop sb fuel self) Q.
Proof.
  destruct (es_facts sb N G) as (He & _). revert self k Q.
  induction fuel as [|fuel IH]; intros self k Q Hat Hfuel HQ; cbn [DirEntries_loop].
  { assert (Hat' := Hat). destruct Hat' as [_ _ _ _ (lo & Hlo & Hk & _)]. pose proof size_slots. cbn in Hfuel. nia. }
  apply triple_seq, (fill_ok self k); [done| |].
  { intros Hk. apply triple_ret, HQ. unfold yields. by rewrite entries_end. }
  intros self' Hk [I1 I2 I3 I4 (lo & Hlo & Hk' & Eb & Er & Eo)] Hroom. rewrite I3.
  set (hi := Z.min (Z.of_nat (it_next_zone self') * zs) size) in *.
  pose proof (length_slice F lo (hi - lo)) as Hlen. rewrite Eb, Eo in Hroom.
  assert (Er' : range_of (it_buffer self') (it_offset self') (it_offset self' + es) = Ret (slice F (k * es) es)).
  { rewrite Eb, Eo. rewrite range_of_slice by lia. f_equal. f_equal; lia. }
  pure_step Er'. set (self1 := mkDirEntries _ _ _ _ _ _ _ _).
  assert (Hat1 : it_at self1 (k + 1)).
  { split; try done. exists lo. split; [lia|]. split; [change (it_next_zone self1) with (it_next_zone self'); fold hi; lia|]. split; [done|]. split; [done|]. cbn. lia. }
  pose proof (entries_cons k Hk) as Ee. destruct (parse_slot (slice F (k * es) es)) as [e|].
  - apply triple_ret, HQ. unfold yields. rewrite Ee. split; [done|]. exists (k + 1). split; [lia|]. by split.
  - apply (IH self1 (k + 1)); [done|lia|]. intros r Hr. apply HQ. unfold yields in *. rewrite Ee.
    destruct (entries_from (k + 1)); [done|]. destruct Hr as [? (k' & ? & ?)]. split; [done|]. exists k'. split; [lia|done].
Qed.

Lemma bytes_left_at self k : it_at self k -> size / es - k <= Z.of_nat (bytes_left self).
Proof.
  intros [_ _ _ _ (lo & Hlo & Hk & Eb & Er & Eo)]. destruct (es_facts sb N G) as (He & _). pose proof size_slots as Hs.
  unfold bytes_left. rewrite Eb, Er, Eo. set (hi := Z.min _ size) in *. pose proof (length_slice F lo (hi - lo)).
  assert (Hle : hi <= size) by lia. clearbody hi. nia.
Qed.

Lemma next_ok self k (Q : _ -> contents -> Prop) : it_at self k ->
  (forall r, yields k r -> Q r f) -> triple N f (DirEntries_next sb self) Q.
Proof.
  intros Hat HQ. unfold DirEntries_next. rewrite (ia_failed _ _ Hat).
  apply (loop_ok _ self k); [done| |done]. pose proof (bytes_left_at self k Hat). lia.
Qed.

Lemma entries_length k : Z.of_nat (length (entries_from k)) <= Z.max 0 (size / es - k).
Proof.
  unfold entries_from. set (g := fun i => _).
  assert (Hl : forall l, (length (omap g l) <= length l)%nat).
  { intros l. induction l as [|i l IH]; [done|]. cbn. destruct (g i); cbn; lia. }
  specialize (Hl (seqZ k (size / es - k))). rewrite length_seqZ in Hl. lia.
Qed.

Lemma DirEntries_collect_ok fuel self k out (Q : list DirEntry -> contents -> Prop) : it_at self k ->
  (length (entries_from k) < fuel)%nat -> Q (out ++ entries_from k) f ->
  triple N f (DirEntries_collect sb fuel self out) Q.
Proof.
  revert self k out. induction fuel as [|fuel IH]; intros self k out Hat Hfuel HQ; [lia|]. cbn [DirEntries_collect].
  apply triple_seq, (next_ok self k); [done|]. intros [item self'] Hy. unfold yields in Hy.
  destruct (entries_from k) as [|e rest] eqn:E; cbn [fst snd] in Hy.
  - subst item. apply triple_ret. by rewrite app_nil_r in HQ.
  - destruct Hy as [-> (k' & Hk' & Hat' & E')]. apply (IH self' k'); [done|rewrite E'; cbn in Hfuel; lia|].
    by rewrite E', <- app_assoc.
Qed.

Lemma find_entry_ok fuel self k name (Q : option Z -> contents -> Prop) : it_at self k ->
  (length (entries_from k) < fuel)%nat ->
  Q (de_ino <$> find (fun e => bool_decide (de_name e = name)) (entries_from k)) f ->
  triple N f (find_entry sb fuel self name) Q.
Proof.
  revert self k. induction fuel as [|fuel IH]; intros self k Hat Hfuel HQ; [lia|]. cbn [find_entry].
  apply triple_seq, (next_ok self k); [done|]. intros [item self'] Hy. unfold yields in Hy.
  destruct (entries_from k) as [|e rest] eqn:E; cbn [fst snd] in Hy.
  - subst item. by apply triple_ret.
  - destruct Hy as [-> (k' & Hk' & Hat' & E')]. cbn [find] in HQ.
    destruct (bool_decide (de_name e = name)); [by apply triple_ret|].
    apply (IH self' k'); [done|rewrite E'; cbn in Hfuel; lia|by rewrite E'].
Qed.

End Iterator.
(** ** The contents of a file read at once *)

Lemma concat_zones f zones : concat ((fun z => slice f (z * zs) zs) <$> zones) = slice (fbyte sb f zones) 0 (room sb zones).
Proof.
  pose proof (zs_pos sb N G) as Hzs. induction zones as [|z zones IH] using rev_ind; [done|].
  rewrite fmap_app, concat_app, IH. cbn [fmap list_fmap concat]. rewrite app_nil_r.
  assert (Er : room sb (zones ++ [z]) = room sb zones + zs) by (unfold room; rewrite length_app; cbn; lia).
  assert (Hr0 : 0 <= room sb zones) by (unfold room; lia). rewrite Er, slice_app by lia. f_equal.
  - apply slice_ext. intros k Hk. symmetry. apply (fbyte_prefix sb N G). lia.
  - rewrite Z.add_0_l. unfold room in *. rewrite (slice_fbyte sb N G f _ _ zs z); rewrite ?Z.div_mul, ?Z.mod_mul by lia.
    + by rewrite Z.add_0_r.
    + lia.
    + rewrite Nat2Z.id. by apply list_lookup_middle.
    + lia.
Qed.

Lemma read_zones_ok f zones out (Q : list Z -> contents -> Prop) : Forall (data_zone sb) zones ->
  Q (out ++ concat ((fun z => slice f (z * zs) zs) <$> zones)) f -> triple N f (read_zones sb zones out) Q.
Proof.
  pose proof (zs_pos sb N G) as Hzs. revert out. induction zones as [|z zones IH]; intros out Hd HQ; cbn [read_zones].
  { apply triple_ret. by rewrite app_nil_r in HQ. }
  apply Forall_cons in Hd as [Hz Hd]. apply triple_seq. unfold read_zone. pure_step (zone_size_eq sb N G).
  apply triple_seq, (read_zone_into_ok sb N G); [done|lia|]. apply triple_ret. apply IH; [done|].
  by rewrite <- app_assoc.
Qed.

Lemma data_ok f ino n (Q : list Z -> contents -> Prop) : file_is sb f ino n -> Q (content sb f ino n) f ->
  triple N f (data sb (inode_at sb f ino)) Q.
Proof.
  intros [L Hsz Hok] HQ. pose proof (io_size _ Hok) as Hs. unfold fits in Hs. unfold data.
  destruct (Z.eqb_spec (i_size (inode_at sb f ino)) 0) as [E|E].
  { apply triple_ret. unfold content in HQ. by rewrite E in HQ. }
  pose proof (owned_zones _ _ _ (ly_owned _ _ _ _ _ _ _ L)) as Hd. apply Forall_app in Hd as [Hd _].
  apply triple_seq, (data_zones_ok sb N G f _ (nd_zones n) (nd_z7 n) (nd_z8 n) (nd_inds n)); [done|].
  apply triple_seq, read_zones_ok; [done|]. apply triple_ret. cbn [app]. rewrite concat_zones.
  unfold content in HQ. set (size := i_size _) in *. set (F := fbyte _ _ _) in *.
  replace (room sb (nd_zones n)) with (size + (room sb (nd_zones n) - size)) by lia. rewrite slice_app by lia.
  pose proof (length_slice F 0 size). by rewrite take_app_length' by lia.
Qed.

(** ** The tree of a file system *)

Inductive vnode : Type := VDir (entries : list DirEntry) | VLink (target : str) | VFile.

Definition listing (f : contents) (ino : Z) (n : node) : list DirEntry :=
  entries_from f (nd_zones n) (i_size (inode_at sb f ino)) 0.

Definition view (f : contents) (ino : Z) (n : node) : vnode :=
  let type := file_type (i_mode (inode_at sb f ino)) in
  if type =? FileType_LNK then VLink (bytes_str (from_utf8_lossy (content sb f ino n)))
  else if type =? FileType_DIR then VDir (listing f ino n) else VFile.

Definition tree (f : contents) (M : gmap Z node) (ino : Z) : option vnode := view f ino <$> M !! ino.

(** The entries of every directory lead to files of the tree, whose root is a
    directory; directories hold whole entries. *)
Record tree_ok (f : contents) (M : gmap Z node) : Prop := {
  to_fs : fs_ok sb f M;
  to_root : exists l, tree f M 1 = Some (VDir l);
  to_dirs ino n : M !! ino = Some n -> file_type (i_mode (inode_at sb f ino)) = FileType_DIR ->
    i_size (inode_at sb f ino) mod es = 0 /\ Forall (fun e => is_Some (M !! de_ino e)) (listing f ino n)
}.

End Listing.

(** ** What a path means *)

Section Meaning.
Context (T : Z -> option vnode).

Definition entry_of (dir : Z) (name : str) : option Z :=
  match T dir with
  | Some (VDir l) => de_ino <$> find (fun e => bool_decide (de_name e = name)) l
  | _ => None
  end.

Definition is_link (ino : Z) : bool := match T ino with Some (VLink _) => true | _ => false end.
Definition is_dir (ino : Z) : bool := match T ino with Some (VDir _) => true | _ => false end.

(** From the directory [dir], the names lead to the file [r] over [k] links. *)
Inductive resolves : nat -> list str -> Z -> Z -> Prop :=
| res_end dir : resolves 0 [] dir dir
| res_step k name rest dir next r :
    entry_of dir name = Some next -> is_link next = false -> rest = [] \/ is_dir next = true ->
    resolves k rest next r -> resolves k (name :: rest) dir r
| res_link k name rest dir next target r :
    entry_of dir name = Some next -> T next = Some (VLink target) ->
    resolves k (name_parts target ++ rest) (if starts_with_sep target then 1 else dir) r ->
    resolves (S k) (name :: rest) dir r.

Lemma resolves_fun k names dir r : resolves k names dir r -> forall k' r', resolves k' names dir r' -> k = k' /\ r = r'.
Proof.
  induction 1 as [dir|k name rest dir next r He Hl Hr H IH|k name rest dir next target r He Ht H IH]; intros k' r' H'.
  - by inversion H'.
  - inversion H' as [|? ? ? ? next' ? He' Hl' Hr' H''|? ? ? ? next' target' ? He' Ht' H'']; subst;
      rewrite He in He'; injection He' as <-.
    + by apply IH.
    + unfold is_link in Hl. by rewrite Ht' in Hl.
  - inversion H' as [|? ? ? ? next' ? He' Hl' Hr' H''|? ? ? ? next' target' ? He' Ht' H'']; subst;
      rewrite He in He'; injection He' as <-.
    + unfold is_link in Hl'. by rewrite Ht in Hl'.
    + rewrite Ht in Ht'. injection Ht' as <-. destruct (IH _ _ H'') as [-> ->]. done.
Qed.

(** What [open] has to answer when it may follow [hops] links. *)
Definition answers (hops : nat) (names : list str) (dir : Z) (r : option Z) : Prop :=
  match r with
  | Some ino => exists k, (k <= hops)%nat /\ resolves k names dir ino
  | None => forall k ino, resolves k names dir ino -> (hops < k)%nat
  end.

Lemma answers_end hops dir : answers hops [] dir (Some dir).
Proof. exists 0%nat. split; [lia|constructor]. Qed.

Lemma answers_missing hops name rest dir : entry_of dir name = None -> answers hops (name :: rest) dir None.
Proof. intros E k ino H. inversion H; subst; congruence. Qed.

Lemma answers_step hops name rest dir next r : entry_of dir name = Some next -> is_link next = false ->
  rest = [] \/ is_dir next = true -> answers hops rest next r -> answers hops (name :: rest) dir r.
Proof.
  intros E Hl Hr. destruct r as [ino|]; cbn [answers].
  - intros (k & Hk & H). exists k. split; [done|]. by eapply res_step.
  - intros Hn k ino H. inversion H as [|? ? ? ? next' ? He' Hl' Hr' H''|? ? ? ? next' target' ? He' Ht' H'']; subst.
    + rewrite E in He'. injection He' as <-. by eapply Hn.
    + rewrite E in He'. injection He' as <-. unfold is_link in Hl. by rewrite Ht' in Hl.
Qed.

Lemma answers_not_dir hops name rest dir next : entry_of dir name = Some next -> is_link next = false ->
  rest <> [] -> is_dir next = false -> answers hops (name :: rest) dir None.
Proof.
  intros E Hl Hr Hd k ino H. inversion H as [|? ? ? ? next' ? He' Hl' Hr' H''|? ? ? ? next' target' ? He' Ht' H'']; subst;
    rewrite E in He'; injection He' as <-.
  - destruct Hr' as [?|?]; congruence.
  - unfold is_link in Hl. by rewrite Ht' in Hl.
Qed.

Lemma answers_link_end name rest dir next target : entry_of dir name = Some next -> T next = Some (VLink target) ->
  answers 0 (name :: rest) dir None.
Proof.
  intros E Ht k ino H. inversion H as [|? ? ? ? next' ? He' Hl' Hr' H''|]; subst; [|lia].
  rewrite E in He'. injection He' as <-. unfold is_link in Hl'. by rewrite Ht in Hl'.
Qed.

Lemma answers_link hops name rest dir next target r : entry_of dir name = Some next -> T next = Some (VLink target) ->
  answers hops (name_parts target ++ rest) (if starts_with_sep target then 1 else dir) r ->
  answers (S hops) (name :: rest) dir r.
Proof.
  intros E Ht. destruct r as [ino|]; cbn [answers].
  - intros (k & Hk & H). exists (S k). split; [lia|]. by eapply res_link.
  - intros Hn k ino H. inversion H as [|? ? ? ? next' ? He' Hl' Hr' H''|? ? ? ? next' target' ? He' Ht' H'']; subst;
      rewrite E in He'; injection He' as <-.
    + unfold is_link in Hl'. by rewrite Ht in Hl'.
    + rewrite Ht in Ht'. injection Ht' as <-. specialize (Hn _ _ H''). lia.
Qed.

End Meaning.

(** ** [open] *)

Section Open.
Context {D : Type} `{DiskLaws D} (sb : DiskSuperBlock) (N : Z) (G : geometry sb N).
Abbreviation contents := (Z -> Z).

Lemma tree_file f M ino n : M !! ino = Some n -> tree sb f M ino = Some (view sb f ino n).
Proof. intros E. unfold tree. by rewrite E. Qed.

Lemma tree_link f M ino n : M !! ino = Some n -> file_type (i_mode (inode_at sb f ino)) = FileType_LNK ->
  tree sb f M ino = Some (VLink (bytes_str (from_utf8_lossy (content sb f ino n)))).
Proof. intros E Ht. rewrite (tree_file f M ino n E). unfold view. by rewrite Ht. Qed.

Lemma tree_not_link f M ino n : M !! ino = Some n -> file_type (i_mode (inode_at sb f ino)) <> FileType_LNK ->
  is_link (tree sb f M) ino = false /\
  is_dir (tree sb f M) ino = (file_type (i_mode (inode_at sb f ino)) =? FileType_DIR).
Proof.
  intros E Ht. unfold is_link, is_dir. rewrite (tree_file f M ino n E). unfold view.
  destruct (Z.eqb_spec (file_type (i_mode (inode_at sb f ino))) FileType_LNK); [done|]. by destruct (_ =? FileType_DIR).
Qed.

Lemma tree_dir f M dir : is_dir (tree sb f M) dir = true -> exists n, M !! dir = Some n /\
  file_type (i_mode (inode_at sb f dir)) = FileType_DIR /\ tree sb f M dir = Some (VDir (listing sb f dir n)).
Proof.
  unfold is_dir, tree. destruct (M !! dir) as [n|] eqn:E; [|done]. cbn. unfold view.
  destruct (_ =? FileType_LNK); [done|]. destruct (Z.eqb_spec (file_type (i_mode (inode_at sb f dir))) FileType_DIR); [|done].
  intros _. by exists n.
Qed.

(** Looking a name up in a directory of the tree. *)
Lemma lookup_name_ok f M dir name (Q : option (Z * DiskInode) -> contents -> Prop) : tree_ok sb f M ->
  is_dir (tree sb f M) dir = true ->
  match entry_of (tree sb f M) dir name with
  | None => Q None f
  | Some next => is_Some (M !! next) -> Q (Some (next, inode_at sb f next)) f
  end ->
  triple N f (lookup_name sb (inode_at sb f dir) name) Q.
Proof.
  intros HT Hdir HQ. destruct (tree_dir f M dir Hdir) as (n & Hn & Ht & Etree).
  pose proof (to_fs _ _ _ HT) as Hfs. destruct (fk_file _ _ _ Hfs dir n Hn) as [Hr [L Hsz Hok]].
  destruct (to_dirs _ _ _ HT dir n Hn Ht) as [Hmod Hin]. pose proof (io_size _ Hok) as Hs. unfold fits in Hs.
  pose proof (owned_zones _ _ _ (ly_owned _ _ _ _ _ _ _ L)) as Hd. apply Forall_app in Hd as [Hd _].
  unfold lookup_name. apply triple_seq. unfold dir_entries_iter.
  apply triple_seq, (data_zones_ok sb N G f _ (nd_zones n) (nd_z7 n) (nd_z8 n) (nd_inds n)); [done|].
  pure_step (zone_size_eq sb N G). apply triple_ret. apply triple_seq.
  set (size := i_size (inode_at sb f dir)) in *.
  pose proof (it_at_new sb f (nd_zones n) size ltac:(lia)) as Hat.
  apply (find_entry_ok sb N G f (nd_zones n) size Hd ltac:(lia) Hmod _ _ 0); [done| |].
  - pose proof (bytes_left_at sb N G f (nd_zones n) size Hmod _ 0 Hat).
    pose proof (entries_length sb f (nd_zones n) size 0). lia.
  - unfold entry_of in HQ. rewrite Etree in HQ. unfold listing in HQ, Hin. fold size in HQ, Hin.
    destruct (find _ _) as [e|] eqn:E; cbn [fmap option_fmap option_map] in *; [|by apply triple_ret].
    apply find_Some_elem in E as [He _]. rewrite Forall_forall in Hin. specialize (Hin e He).
    destruct Hin as [m Hm]. destruct (fk_file _ _ _ Hfs _ m Hm) as [Hre _].
    apply triple_seq, (read_inode_ok sb N G); [done|]. apply triple_ret, HQ. by exists m.
Qed.

(** What the answer [r] of the loop is worth. *)
Definition found (f : contents) (M : gmap Z node) (hops : nat) (names : list str) (dir : Z)
    (Q : option (Z * DiskInode) -> contents -> Prop) : Prop :=
  forall r, answers (tree sb f M) hops names dir r -> (forall ino, r = Some ino -> is_Some (M !! ino)) ->
    Q ((fun ino => (ino, inode_at sb f ino)) <$> r) f.

(** A component that is not a link. *)
Lemma step_ok f M hops name rest dir next m (walk : io D (option (Z * DiskInode))) (Q : option (Z * DiskInode) -> contents -> Prop) :
  entry_of (tree sb f M) dir name = Some next -> M !! next = Some m ->
  file_type (i_mode (inode_at sb f next)) <> FileType_LNK -> found f M hops (name :: rest) dir Q ->
  (rest = [] \/ is_dir (tree sb f M) next = true -> is_Some (M !! next) -> found f M hops rest next Q -> triple N f walk Q) ->
  triple N f (if negb (bool_decide (rest = [])) && negb (file_type (i_mode (inode_at sb f next)) =? FileType_DIR)
              then mret None else walk) Q.
Proof.
  intros Ee Em Hl HQ Hw. destruct (tree_not_link f M next m Em Hl) as [El Ed]. rewrite <- Ed.
  assert (Hgo : rest = [] \/ is_dir (tree sb f M) next = true -> triple N f walk Q).
  { intros Hr. apply Hw; [done|by exists m|]. intros r Ha Hi. apply HQ; [|done]. by eapply answers_step. }
  destruct (bool_decide (rest = [])) eqn:Er; cbn [negb andb].
  - apply Hgo. left. by apply bool_decide_eq_true_1 in Er.
  - apply bool_decide_eq_false_1 in Er. destruct (is_dir (tree sb f M) next) eqn:Ed'; cbn [negb]; [apply Hgo; by right|].
    apply triple_ret, (HQ None); [|done]. by eapply answers_not_dir.
Qed.

(** Following a link. *)
Lemma follow_ok f M next m dir (Q : str * Z * DiskInode -> contents -> Prop) : tree_ok sb f M -> M !! next = Some m ->
  let target := bytes_str (from_utf8_lossy (content sb f next m)) in
  let start := if starts_with_sep target then 1 else dir in
  Q (target, start, inode_at sb f start) f -> triple N f (follow sb (inode_at sb f next) dir (inode_at sb f dir)) Q.
Proof.
  intros HT Em target start HQ. pose proof (to_fs _ _ _ HT) as Hfs. destruct (fk_file _ _ _ Hfs next m Em) as [_ Hfile].
  unfold follow. apply triple_seq, (data_ok sb N G f next m); [done|]. fold target. unfold start in HQ.
  destruct (starts_with_sep target); [|by apply triple_ret].
  destruct (to_root _ _ _ HT) as [l Hroot]. destruct (tree_dir f M 1) as (n1 & Hn1 & _); [unfold is_dir; by rewrite Hroot|].
  destruct (fk_file _ _ _ Hfs 1 n1 Hn1) as [Hri _]. apply triple_seq, (read_inode_ok sb N G); [done|]. by apply triple_ret.
Qed.

Lemma resolve_loop_ok f M hops names dir (Q : option (Z * DiskInode) -> contents -> Prop) : tree_ok sb f M ->
  names = [] \/ is_dir (tree sb f M) dir = true -> is_Some (M !! dir) -> found f M hops names dir Q ->
  triple N f (resolve_loop sb hops names dir (inode_at sb f dir)) Q.
Proof.
  intros HT. revert names dir Q. induction hops as [|hops IHh]; intros names; induction names as [|name rest IHn];
    intros dir Q Hdir Hm HQ; try (apply triple_ret, (HQ (Some dir)); [apply answers_end|by intros ? [= <-]]).
  all: destruct Hdir as [?|Hdir]; [done|].
  all: cbn [resolve_loop]; apply triple_seq, (lookup_name_ok f M dir name); [done|done|].
  all: destruct (entry_of (tree sb f M) dir name) as [next|] eqn:Ee;
    [|by apply triple_ret, (HQ None); [apply answers_missing|]].
  all: intros [m Em]; destruct (Z.eqb_spec (file_type (i_mode (inode_at sb f next))) FileType_LNK) as [Hl|Hl].
  - apply triple_ret, (HQ None); [|done]. eapply answers_link_end; [done|]. by apply (tree_link f M next m).
  - eapply step_ok; [done|done|done|exact HQ|]. intros. by apply IHn.
  - apply triple_seq, (follow_ok f M next m dir); [done|done|]. pose proof (tree_link f M next m Em Hl) as Et.
    set (target := bytes_str _) in *. cbv iota beta.
    destruct (to_root _ _ _ HT) as [l Hroot]. assert (Hr1 : is_dir (tree sb f M) 1 = true) by (unfold is_dir; by rewrite Hroot).
    apply IHh; [right; by destruct (starts_with_sep target)| |].
    + destruct (starts_with_sep target); [|done]. destruct (tree_dir f M 1 Hr1) as (n1 & Hn1 & _). by exists n1.
    + intros r Hr Hi. apply HQ; [|done]. by eapply answers_link.
  - eapply step_ok; [done|done|done|exact HQ|]. intros. by apply IHn.
Qed.

Lemma open_ok f M path (Q : option File -> contents -> Prop) : tree_ok sb f M ->
  (forall r, answers (tree sb f M) MAX_SYMLINK_HOPS (name_parts (inner path)) 1 (fl_ino <$> r) ->
     (forall self, r = Some self -> fl_path self = path /\ fl_offset self = 0 /\
        exists n, M !! fl_ino self = Some n /\ opened sb f n self) -> Q r f) ->
  triple N f (open sb path) Q.
Proof.
  intros HT HQ. pose proof (to_fs _ _ _ HT) as Hfs. destruct (to_root _ _ _ HT) as [l Hroot].
  assert (Hr1 : is_dir (tree sb f M) 1 = true) by (unfold is_dir; by rewrite Hroot).
  destruct (tree_dir f M 1 Hr1) as (n1 & Hn1 & _). destruct (fk_file _ _ _ Hfs 1 n1 Hn1) as [Hri _].
  unfold open, resolve_path. apply triple_seq, (read_inode_ok sb N G); [done|].
  rewrite Nat.sub_0_r. apply triple_seq, (resolve_loop_ok f M); [done|by right|by exists n1|].
  intros r Ha Hi. destruct r as [ino|]; cbn [fmap option_fmap option_map]; [|by apply triple_ret, HQ].
  destruct (Hi ino eq_refl) as [n Hn]. destruct (fk_file _ _ _ Hfs ino n Hn) as [_ [L _ _]].
  apply triple_seq, (data_zones_ok sb N G f _ (nd_zones n) (nd_z7 n) (nd_z8 n) (nd_inds n)); [done|].
  pure_step (zone_size_eq sb N G). apply triple_ret, HQ; [done|]. intros self [= <-]. split; [done|]. split; [done|].
  by exists n.
Qed.

End Open.

(** ** Properties *)

(** C19. Opening a path: on a consistent file system [open] returns the file the
    path means, with its inode and zones as they are on the disk, when the
    meaning takes at most 40 symbolic links; it returns nothing when the path
    means no file or takes more links, so that link cycles end. The disk stays
    as it is. *)
Theorem open_correct {D : Type} `{DiskLaws D} sb N (d : D) f M path :
  geometry sb N -> on_disk N d f -> tree_ok sb f M ->
  exists r d', open sb path d = Ret (Ok r, d') /\ on_disk N d' f /\
    match r with
    | Some self => (exists k, (k <= 40)%nat /\ resolves (tree sb f M) k (name_parts (inner path)) 1 (fl_ino self)) /\
        exists n, M !! fl_ino self = Some n /\ opened sb f n self
    | None => forall k ino, resolves (tree sb f M) k (name_parts (inner path)) 1 ino -> (40 < k)%nat
    end.
Proof.
  intros G Hd HT.
  destruct (open_ok sb N G f M path (fun r f' => f' = f /\ match r with
    | Some self => (exists k, (k <= 40)%nat /\ resolves (tree sb f M) k (name_parts (inner path)) 1 (fl_ino self)) /\
        exists n, M !! fl_ino self = Some n /\ opened sb f n self
    | None => forall k ino, resolves (tree sb f M) k (name_parts (inner path)) 1 ino -> (40 < k)%nat
    end)) with (d := d) as (r & d' & f' & E & Hd' & -> & HQ); [done| |done|].
  - intros r Ha Ho. split; [done|]. destruct r as [self|]; [|exact Ha]. split; [exact Ha|]. by apply (Ho self).
  - by exists r, d'.
Qed.

(** The tree of the example: the root with the file [a]. *)
Lemma ex_tree_ok : tree_ok ex_sb ex_byte ex_nodes.
Proof.
  split; [exact ex_fs_ok| |].
  - eexists. rewrite (tree_file ex_sb ex_byte ex_nodes 1 ex_dir eq_refl). unfold view. rewrite ex_dir_inode_at. reflexivity.
  - intros ino n [[-> ->]|[-> ->]]%ex_nodes_cases Ht.
    + split; [by rewrite ex_dir_inode_at|].
      replace (listing ex_sb ex_byte 1 ex_dir) with [mkDirEntry 1 [dot]; mkDirEntry 1 [dot; dot]; mkDirEntry 2 ["a"%char]]
        by (vm_compute; reflexivity).
      repeat (constructor; [by eexists|]). constructor.
    + by rewrite ex_inode_at in Ht.
Qed.

Lemma open_witness : exists r d', open ex_sb (mkPath [sep; "a"%char]) ex_disk = Ret (Ok r, d') /\ on_disk 10240 d' ex_byte /\
  match r with
  | Some self => (exists k, (k <= 40)%nat /\
      resolves (tree ex_sb ex_byte ex_nodes) k (name_parts (inner (mkPath [sep; "a"%char]))) 1 (fl_ino self)) /\
      exists n, ex_nodes !! fl_ino self = Some n /\ opened ex_sb ex_byte n self
  | None => forall k ino, resolves (tree ex_sb ex_byte ex_nodes) k (name_parts (inner (mkPath [sep; "a"%char]))) 1 ino -> (40 < k)%nat
  end.
Proof. apply (open_correct ex_sb 10240 ex_disk ex_byte ex_nodes _ ex_geometry ex_on_disk ex_tree_ok). Defined.
