(* ===== verification/MinixNew.v ===== *)
(** * MinixNew: a new file can be opened

    [create_file] and [open] together: the view of a directory that the
    iterator has (ASCII names, up to the size) follows the view that the
    writing side has (whole blocks). *)

From Stdlib Require Import Ascii Sorted.
From stdpp Require Import gmap.
From S2P Require Import Prelude Bitmap BitFields Abi Paths Bytes Disk Minix MinixDisk MinixZones MinixFile MinixDir MinixTree MinixDirOps MinixLink MinixOpen.

(** ** Lists with one element more *)

Section OneMore.
Context {A : Type} (g g' : Z -> option A) (l : list Z) (h : Z) (e : A).
Hypothesis (Hh : h ∈ l) (Hg : g h = None) (Hg' : g' h = Some e).
Hypothesis (Heq : forall i, i ∈ l -> i <> h -> g' i = g i).

Lemma elem_omap_more x : x ∈ omap g' l <-> x = e \/ x ∈ omap g l.
Proof.
  rewrite !list_elem_of_omap. split.
  - intros (i & Hi & Ei). destruct (decide (i = h)) as [->|Hne]; [left; congruence|right].
    exists i. split; [done|]. by rewrite <- Heq.
  - intros [->|(i & Hi & Ei)]; [by exists h|]. exists i. split; [done|]. rewrite Heq; [done|done|congruence].
Qed.

Lemma find_omap_same (q : A -> bool) : q e = false -> find q (omap g' l) = find q (omap g l).
Proof.
  intros Hq. clear Hh. revert Heq. induction l as [|i l' IH]; intros Heq'; [done|]. cbn [omap list_omap].
  assert (IH' : find q (omap g' l') = find q (omap g l')) by (apply IH; intros j Hj; apply Heq'; by right).
  destruct (decide (i = h)) as [->|Hne].
  - rewrite Hg, Hg'. cbn [find]. by rewrite Hq.
  - rewrite (Heq' i) by (by left || done). destruct (g i); [|done]. cbn [find]. by rewrite IH'.
Qed.

Lemma find_omap_new (q : A -> bool) : q e = true -> find q (omap g l) = None -> find q (omap g' l) = Some e.
Proof.
  intros Hq Hno. apply find_only; [apply elem_omap_more; by left|done|].
  intros y [->|Hy]%elem_omap_more Hqy; [done|]. by rewrite (find_None_elem _ _ y Hno Hy) in Hqy.
Qed.

End OneMore.

Lemma find_sorted (l : list (Z * Z)) q x y : StronglySorted Z.le l.*1 -> find q l = Some x ->
  y ∈ l -> q y = true -> x.1 <= y.1.
Proof.
  induction l as [|a l IH]; intros Hs Hf Hy Hq; [done|]. cbn [fmap list_fmap] in Hs. apply StronglySorted_inv in Hs as [Hs Ha].
  cbn [find] in Hf. destruct (q a) eqn:Eq.
  - injection Hf as <-. apply elem_of_cons in Hy as [->|Hy]; [lia|]. rewrite Forall_forall in Ha.
    apply Ha, list_elem_of_fmap. by exists y.
  - apply elem_of_cons in Hy as [->|Hy]; [congruence|]. by apply IH.
Qed.

(** A tree that has all entries of another one resolves all its paths. *)
Lemma resolves_mono (T T' : Z -> option vnode) k names dir r :
  (forall d nm x, entry_of T d nm = Some x -> entry_of T' d nm = Some x) ->
  (forall i t, T i = Some (VLink t) -> T' i = Some (VLink t)) ->
  (forall i, is_link T i = false -> is_link T' i = false) -> (forall i, is_dir T i = true -> is_dir T' i = true) ->
  resolves T k names dir r -> resolves T' k names dir r.
Proof.
  intros He Hl Hnl Hd. induction 1 as [dir|k name rest dir next r E El Hr _ IH|k name rest dir next target r E Et _ IH].
  - constructor.
  - eapply res_step; [by apply He|by apply Hnl| |done]. destruct Hr as [?|?]; [by left|right; by apply Hd].
  - eapply res_link; [by apply He|by apply Hl|done].
Qed.

Lemma resolves_app T k names dir mid k' rest r : resolves T k names dir mid -> is_dir T mid = true ->
  resolves T k' rest mid r -> resolves T (k + k') (names ++ rest) dir r.
Proof.
  intros H Hm Hr. induction H as [dir|k name rest' dir next r' E El Hr' H IH|k name rest' dir next target r' E Et H IH].
  - done.
  - cbn [app]. eapply res_step; [done|done| |by apply IH]. destruct Hr' as [->|?]; [right|by right].
    inversion H; subst. done.
  - cbn [app Nat.add]. eapply res_link; [done|done|]. rewrite app_assoc. by apply IH.
Qed.

(** ** Names *)

Definition ascii_name (name : str) : Prop := Forall (fun b => 0 < b < 128) (str_bytes name).

Lemma ascii_good name : ascii_name name -> good_name name.
Proof.
  intros Ha. split; [apply utf8_valid_ascii|]; (eapply Forall_impl; [exact Ha|]; cbn; lia).
Qed.

Lemma filter_small (l : list Z) : Forall (fun b => 0 < b < 128) l -> filter (fun b => b < 128) l = l.
Proof.
  induction 1 as [|b l Hb _ IH]; [done|]. rewrite filter_cons_True by lia. by rewrite IH.
Qed.

Lemma minix_string_padded name k : ascii_name name -> minix_string (str_bytes name ++ replicate k 0) = name.
Proof.
  intros Ha. unfold minix_string. rewrite until_zero_app by (eapply Forall_impl; [exact Ha|]; cbn; lia).
  replace (until_zero (replicate k 0)) with (@nil Z) by (by destruct k). rewrite app_nil_r.
  rewrite filter_small by done. apply bytes_str_bytes.
Qed.

Lemma name_parts_app a b : name_parts (a ++ sep :: b) = name_parts a ++ name_parts b.
Proof. unfold name_parts. by rewrite split_app, filter_app. Qed.

Lemma name_parts_one name : sep ∉ name -> name <> [] -> name_parts name = [name].
Proof. intros Hs Hne. unfold name_parts. rewrite split_none by done. by rewrite filter_cons_True. Qed.

Lemma name_parts_join path name : sep ∉ name -> name <> [] ->
  name_parts (inner (Path_join path (Path_new name))) = name_parts (inner path) ++ [name].
Proof.
  intros Hs Hne. rewrite <- (name_parts_one name Hs Hne). unfold Path_join, PathBuf_push, Path_is_absolute, Path_new. cbn [inner].
  assert (starts_with_sep name = false) as ->.
  { destruct name as [|c s]; [done|]. cbn. apply bool_decide_eq_false_2. intros ->. apply Hs. by left. }
  destruct name as [|c s]; [done|]. set (nm := c :: s). destruct (inner path) as [|a r] eqn:Ep; [done|]. rewrite <- Ep. cbn [inner].
  unfold ends_with_sep. destruct (last (inner path)) as [x|] eqn:El; [|rewrite <- app_assoc; apply name_parts_app].
  case_bool_decide as Ex; [|rewrite <- app_assoc; apply name_parts_app]. subst x.
  apply last_Some in El as [r' ->]. rewrite <- app_assoc. cbn [app]. rewrite !name_parts_app. cbn. by rewrite app_nil_r.
Qed.

(** An ASCII name that the writing side reads is the one the iterator reads. *)
Lemma slot_name_ascii raw name : bytes raw -> slot_name raw = name -> ascii_name name -> name <> [] -> minix_string raw = name.
Proof.
  intros Hb Hs Ha Hne. unfold slot_name in Hs. destruct (utf8_valid (until_zero raw)); [|congruence].
  unfold minix_string. rewrite <- Hs. f_equal. apply filter_small.
  assert (Hu : bytes (until_zero raw)).
  { clear -Hb. induction Hb as [|b raw Hb Hr IH]; [done|]. cbn. destruct (b =? 0); [done|]. by constructor. }
  unfold ascii_name in Ha. rewrite <- Hs in Ha. unfold str_bytes, bytes_str in Ha. rewrite <- list_fmap_compose in Ha.
  rewrite Forall_forall in *. intros b Hin. specialize (Ha (compose ascii_byte byte_ascii b)).
  unfold compose in Ha. rewrite byte_ascii_byte in Ha by (by apply Hu). apply Ha. apply list_elem_of_fmap.
  exists b. split; [|done]. unfold compose. by rewrite byte_ascii_byte by (by apply Hu).
Qed.

Section New.
Context {D : Type} `{DiskLaws D} (sb : DiskSuperBlock) (N : Z) (G : geometry sb N).
Abbreviation zs := (zsize sb).
Abbreviation es := (entry_size sb).
Abbreviation contents := (Z -> Z).

Lemma parse_dir_slot ino name : 1 <= ino < 2 ^ 16 -> ascii_name name -> name <> [] -> fits_slot sb name ->
  parse_slot (dir_slot sb ino name) = Some (mkDirEntry ino name).
Proof.
  intros Hi Ha Hne Hf. unfold parse_slot, dir_slot.
  rewrite (le_at_app_l 2 _ ino) by (unfold fits; lia).
  rewrite drop_app_length' by (by rewrite to_le_bytes_length). rewrite minix_string_padded by done.
  destruct (Z.eqb_spec ino 0); [lia|]. by rewrite bool_decide_eq_false_2.
Qed.

(** A slot of the directory, by its position and by its place on the disk. *)
Lemma spot_slice f zones pos p : (pos, p) ∈ spots sb 0 zones -> slice (fbyte sb f zones) pos es = slice f p es.
Proof.
  intros (k & z & s & Hk & Hs & [= -> ->])%elem_spots. destruct (elem_slots sb N G s Hs) as (H1 & H2 & _).
  destruct (es_facts sb N G) as (He & _). cbn [Nat.add].
  assert (Ed : (Z.of_nat k * zs + s) / zs = Z.of_nat k).
  { rewrite Z.div_add_l by lia. rewrite Z.div_small by lia. lia. }
  assert (Em : (Z.of_nat k * zs + s) mod zs = s).
  { rewrite Z.add_comm, Z.mod_add by lia. by apply Z.mod_small; lia. }
  rewrite (slice_fbyte sb N G f zones _ es z); rewrite ?Ed, ?Em; [done|lia|by rewrite Nat2Z.id|lia].
Qed.

Lemma spot_index zones pos p : (pos, p) ∈ spots sb 0 zones -> exists h, pos = h * es /\ 0 <= h.
Proof.
  intros (k & z & s & Hk & Hs & [= -> ->])%elem_spots. destruct (elem_slots sb N G s Hs) as (H1 & H2 & H3).
  destruct (es_facts sb N G) as (He & _ & Hq). cbn [Nat.add]. pose proof (Z.div_mod s es ltac:(lia)) as Hd. rewrite H3 in Hd.
  exists (Z.of_nat k * (zs / es) + s / es). pose proof (Z.div_pos s es ltac:(lia) ltac:(lia)).
  pose proof (Z.div_pos zs es ltac:(lia) ltac:(lia)). split; [|nia]. rewrite <- Hq at 1. lia.
Qed.

(** Every position of a slot in the zones is a spot. *)
Lemma spot_exists zones h : 0 <= h -> h * es + es <= room sb zones -> exists p, (h * es, p) ∈ spots sb 0 zones.
Proof.
  intros Hh Hr. destruct (es_facts sb N G) as (He & Hm & Hq). pose proof (zs_pos sb N G) as Hzs.
  cut (forall i, exists p, (Z.of_nat i * zs + h * es, p) ∈ spots sb i zones).
  { intros Hc. destruct (Hc 0%nat) as [p Hp]. exists p. by rewrite Z.mul_0_l, Z.add_0_l in Hp. }
  revert h Hh Hr. induction zones as [|z zones IH]; intros h Hh Hr i; unfold room in Hr; cbn [length] in Hr; [nia|].
  cbn [spots]. setoid_rewrite elem_of_app. destruct (Z.lt_ge_cases (h * es) zs) as [Hlt|Hge].
  - exists (z * zs + h * es). left. apply list_elem_of_fmap. exists (h * es). split; [done|].
    unfold slots. apply list_elem_of_fmap. exists h. split; [done|]. apply elem_of_seqZ. unfold div_ceil. rewrite Hm. cbn.
    assert (h < zs / es) by (apply (Z.mul_lt_mono_pos_r es); lia). lia.
  - assert (Hh' : 0 <= h - zs / es) by (assert (zs / es <= h) by (apply (Z.mul_le_mono_pos_r _ _ es); lia); lia).
    destruct (IH (h - zs / es) Hh') with (i := S i) as [p Hp].
    { unfold room. rewrite Z.mul_sub_distr_r, Hq. lia. }
    exists p. right. rewrite Z.mul_sub_distr_r, Hq in Hp.
    by replace (Z.of_nat i * zs + h * es) with (Z.of_nat (S i) * zs + (h * es - zs)) by lia.
Qed.

Lemma spots_sorted i zones : StronglySorted Z.le (spots sb i zones).*1.
Proof.
  destruct (es_facts sb N G) as (He & Hm & Hq). pose proof (zs_pos sb N G) as Hzs.
  assert (E : (spots sb i zones).*1 = (fun k => k * es) <$> seqZ (Z.of_nat i * (zs / es)) (Z.of_nat (length zones) * (zs / es))).
  { revert i. induction zones as [|z zones IH]; intros i; [done|]. cbn [spots length]. rewrite fmap_app, IH.
    replace (Z.of_nat (S (length zones)) * (zs / es)) with (zs / es + Z.of_nat (length zones) * (zs / es)) by lia.
    pose proof (Z.div_pos zs es ltac:(lia) ltac:(lia)). rewrite seqZ_app, fmap_app by lia. f_equal.
    - unfold slots. rewrite <- !list_fmap_compose. unfold div_ceil. rewrite Hm. cbn [Z.eqb].
      rewrite <- (Z.add_0_r (Z.of_nat i * (zs / es))), <- (fmap_add_seqZ _ 0), <- list_fmap_compose.
      apply list_fmap_ext. intros _ k _. unfold compose. cbn [fst]. rewrite <- Hq at 1. lia.
    - f_equal. f_equal. lia. }
  rewrite E. generalize (Z.of_nat i * (zs / es)) as a. generalize (Z.of_nat (length zones) * (zs / es)) as m. intros m.
  destruct (Z.le_gt_cases m 0) as [|Hm0]; [intros a; rewrite seqZ_nil by lia; constructor|].
  rewrite <- (Z2Nat.id m) by lia. generalize (Z.to_nat m) as k. clear -He. induction k as [|k IH]; intros a; [constructor|].
  rewrite seqZ_cons by lia. replace (Z.pred (Z.of_nat (S k))) with (Z.of_nat k) by lia. cbn [fmap list_fmap].
  constructor; [apply IH|]. apply Forall_fmap, Forall_forall. intros x Hx%elem_of_seqZ. unfold compose. nia.
Qed.

(** No entry lies past the size of the directory. *)
Definition clean (f : contents) (ino : Z) (n : node) : Prop :=
  forall sp, sp ∈ spots sb 0 (nd_zones n) -> i_size (inode_at sb f ino) <= sp.1 -> free_spot f sp.2 = true.

(** The slot that is filled next is one of the directory, or the one after it. *)
Lemma next_slot f dir n pos p : file_is sb f dir n -> clean f dir n -> i_size (inode_at sb f dir) mod es = 0 ->
  free_slot sb f (nd_zones n) (pos, p) -> pos <= i_size (inode_at sb f dir).
Proof.
  intros [_ Hsz Hok] Hc Hm Hfree. destruct (es_facts sb N G) as (He & _). pose proof (io_size _ Hok) as Hs. unfold fits in Hs.
  set (size := i_size (inode_at sb f dir)) in *. destruct (Z.le_gt_cases pos size) as [?|Hgt]; [done|exfalso].
  unfold free_slot in Hfree. pose proof (find_Some_elem _ _ _ Hfree) as [Hin _].
  destruct (spot_in sb N G _ _ _ Hin) as (_ & _ & _ & _ & _ & Hroom). destruct (spot_index _ _ _ Hin) as (h & Eh & Hh).
  pose proof (Z.div_mod size es ltac:(lia)) as Hd. rewrite Hm in Hd.
  assert (size / es < h) by (apply (Z.mul_lt_mono_pos_r es); lia).
  destruct (spot_exists (nd_zones n) (size / es)) as [p' Hp']; [apply Z.div_pos; lia|nia|].
  assert (Hfp : free_spot f p' = true) by (apply (Hc _ Hp'); cbn [fst]; fold size; lia).
  pose proof (find_sorted (spots sb 0 (nd_zones n)) (fun sp => free_spot f sp.2) (pos, p) (size / es * es, p')
    (spots_sorted 0 (nd_zones n)) Hfree Hp' Hfp) as Hle. cbn [fst] in Hle. lia.
Qed.

Lemma spots_inj zones pos1 pos2 p : NoDup zones -> (pos1, p) ∈ spots sb 0 zones -> (pos2, p) ∈ spots sb 0 zones -> pos1 = pos2.
Proof.
  intros Hnd (k1 & z1 & s1 & Hk1 & Hs1 & [= -> ->])%elem_spots (k2 & z2 & s2 & Hk2 & Hs2 & [= -> Ep])%elem_spots.
  destruct (elem_slots sb N G s1 Hs1) as (A1 & A2 & _), (elem_slots sb N G s2 Hs2) as (B1 & B2 & _).
  destruct (es_facts sb N G) as (He & _). pose proof (zs_pos sb N G).
  assert (z1 = z2) as -> by (destruct (Z.lt_total z1 z2) as [?|[?|?]]; [nia|done|nia]).
  assert (s1 = s2) as -> by lia. by rewrite (NoDup_lookup _ _ _ _ Hnd Hk1 Hk2).
Qed.

Lemma parse_free f p : free_spot f p = true -> parse_slot (slice f p es) = None.
Proof.
  intros Hf. apply Z.eqb_eq in Hf. destruct (es_facts sb N G) as (He & _). unfold parse_slot.
  replace (le_at 0 2 (slice f p es)) with (ino_at f p); [by rewrite Hf|].
  unfold ino_at, le_at. rewrite drop_0. replace es with (2 + (es - 2)) at 1 by lia. rewrite slice_app by lia.
  by rewrite take_app_length' by done.
Qed.

(** The entry of slot [k] of a directory. *)
Definition slot_entry (f : contents) (n : node) (k : Z) : option DirEntry :=
  parse_slot (slice (fbyte sb f (nd_zones n)) (k * es) es).

(** The list of entries of the directory with the new file, slot by slot. *)
Lemma listing_created f M dir n name ino mode f' : fs_ok sb f M -> M !! dir = Some n -> clean f dir n ->
  i_size (inode_at sb f dir) mod es = 0 -> ascii_name name -> name <> [] -> fits_slot sb name -> 1 <= ino < 2 ^ 16 ->
  file_created sb f M dir n name mode ino f' ->
  exists K h, 0 <= h < K /\ i_size (inode_at sb f' dir) = K * es /\
    listing sb f dir n = omap (slot_entry f n) (seqZ 0 K) /\ listing sb f' dir n = omap (slot_entry f' n) (seqZ 0 K) /\
    slot_entry f n h = None /\ slot_entry f' n h = Some (mkDirEntry ino name) /\
    (forall i, i ∈ seqZ 0 K -> i <> h -> slot_entry f' n i = slot_entry f n i).
Proof.
  intros Hfs Hn Hc Hm Ha Hne Hfit Hi Hcr. destruct (fk_file _ _ _ Hfs dir n Hn) as [Hr Hfile].
  destruct (fc_slot _ _ _ _ _ _ _ _ _ Hcr) as (pos & p & Hfree & Hbytes & Edir).
  pose proof (next_slot f dir n pos p Hfile Hc Hm Hfree) as Hle. destruct (es_facts sb N G) as (He & _).
  pose proof (find_Some_elem _ _ _ Hfree) as [Hin Hfp]. cbn [snd] in Hfp.
  destruct (spot_in sb N G _ _ _ Hin) as (z0 & _ & _ & _ & _ & Hroom). destruct (spot_index _ _ _ Hin) as (h & Eh & Hh).
  destruct Hfile as [L Hsz Hok]. pose proof (io_size _ Hok) as Hs. unfold fits in Hs.
  set (size := i_size (inode_at sb f dir)) in *. pose proof (Z.div_mod size es ltac:(lia)) as Hd. rewrite Hm in Hd.
  assert (Hhk : h <= size / es) by (apply (Z.mul_le_mono_pos_r _ _ es); lia).
  set (K := Z.max (size / es) (h + 1)).
  assert (EK : Z.max size (pos + es) = K * es) by (unfold K; destruct (Z.max_spec (size / es) (h + 1)) as [[? ->]|[? ->]]; nia).
  pose proof (length_dir_slot sb N G ino name Hfit) as Hlen.
  destruct (owned_app_inv _ _ _ _ (ly_owned _ _ _ _ _ _ _ L)) as ([Hnd _] & _ & _).
  assert (Hspot : forall i, 0 <= i < K -> exists q, (i * es, q) ∈ spots sb 0 (nd_zones n) /\ forall g, slot_entry g n i = parse_slot (slice g q es)).
  { intros i Hi'. destruct (spot_exists (nd_zones n) i ltac:(lia)) as [q Hq]; [nia|]. exists q. split; [done|].
    intros g. unfold slot_entry. by rewrite (spot_slice g _ _ _ Hq). }
  assert (Hsl : forall q pos', (pos', q) ∈ spots sb 0 (nd_zones n) -> slice f' q es = slice (splice f p (dir_slot sb ino name)) q es).
  { intros q pos' Hq. apply slice_ext. intros j Hj. destruct (spot_bytes sb N G _ _ j Hq Hj) as (z & Hz & Hzj). by apply (Hbytes z). }
  assert (Hnone : slot_entry f n h = None).
  { unfold slot_entry. rewrite <- Eh, (spot_slice f _ _ _ Hin). by apply parse_free. }
  exists K, h. split; [unfold K; lia|]. split; [rewrite Edir; exact EK|]. split; [|split; [|split; [exact Hnone|split]]].
  - unfold listing, entries_from. fold size. rewrite Z.sub_0_r. unfold K.
    destruct (Z.max_spec (size / es) (h + 1)) as [[Hlt ->]|[_ ->]]; [|done].
    replace (size / es) with h by lia. rewrite seqZ_app, omap_app by lia. cbn. rewrite Z.add_0_l in *.
    change (seqZ h 1) with [h]. cbn. by rewrite Hnone, app_nil_r.
  - unfold listing, entries_from. rewrite Edir. cbn [set_size i_size]. by rewrite EK, Z.div_mul, Z.sub_0_r by lia.
  - unfold slot_entry. rewrite <- Eh, (spot_slice f' _ _ _ Hin), (Hsl _ _ Hin), slice_splice_eq by lia. by apply parse_dir_slot.
  - intros i Hi'%elem_of_seqZ Hne'. destruct (Hspot i ltac:(lia)) as (q & Hq & E). rewrite !E, (Hsl _ _ Hq). f_equal.
    apply slice_splice_out. rewrite Hlen, Z2Nat.id by lia.
    apply (aligned_apart sb N G); [by apply (spots_aligned sb N G _ _ _ Hq)|by apply (spots_aligned sb N G _ _ _ Hin)|].
    intros ->. apply Hne', (Z.mul_reg_r _ _ es); [lia|]. rewrite <- Eh. by apply (spots_inj (nd_zones n) _ _ p).
Qed.

(** A name that the iterator does not find is free for the writing side. *)
Lemma lookup_none f dir n name : file_is sb f dir n -> clean f dir n -> i_size (inode_at sb f dir) mod es = 0 ->
  (forall i, is_byte (f i)) -> ascii_name name -> name <> [] ->
  find (fun e => bool_decide (de_name e = name)) (listing sb f dir n) = None -> dir_lookup sb f (nd_zones n) name = None.
Proof.
  intros [_ _ Hok] Hc Hm Hb Ha Hne Hno. unfold dir_lookup. destruct (dir_find sb f (nd_zones n) (is_name name)) as [[pos p]|] eqn:E; [|done].
  exfalso. destruct (find_Some_elem _ _ _ E) as [Hin Hnm]. cbn [snd] in Hnm. unfold named, is_name in Hnm.
  apply andb_prop in Hnm as [Hi Hnm]. apply negb_true_iff in Hi. apply bool_decide_eq_true_1 in Hnm.
  destruct (spot_index _ _ _ Hin) as (h & Eh & Hh). destruct (es_facts sb N G) as (He & _).
  set (size := i_size (inode_at sb f dir)) in *. pose proof (Z.div_mod size es ltac:(lia)) as Hd. rewrite Hm in Hd.
  assert (Hlt : pos < size).
  { destruct (Z.lt_ge_cases pos size) as [?|Hge]; [done|]. specialize (Hc _ Hin). cbn [fst snd] in Hc.
    unfold free_spot in Hc. rewrite Hc in Hi by (unfold size in Hge; lia). done. }
  assert (Hhk : h < size / es) by (apply (Z.mul_lt_mono_pos_r es); lia).
  assert (Hp : parse_slot (slice f p es) = Some (mkDirEntry (ino_at f p) name)).
  { unfold parse_slot. replace es with (2 + (es - 2)) by lia. rewrite slice_app by lia. unfold le_at. rewrite drop_0.
    rewrite take_app_length', drop_app_length' by done. fold (ino_at f p). rewrite Hi.
    rewrite (slot_name_ascii (slice f (p + 2) (es - 2)) name); [|by apply slice_bytes|done|done|done].
    by rewrite bool_decide_eq_false_2. }
  assert (Hel : mkDirEntry (ino_at f p) name ∈ listing sb f dir n).
  { unfold listing, entries_from. fold size. apply list_elem_of_omap. exists h. split; [apply elem_of_seqZ; lia|].
    by rewrite <- Eh, (spot_slice f _ _ _ Hin). }
  pose proof (find_None_elem _ _ _ Hno Hel) as Hf. cbn in Hf. by rewrite bool_decide_eq_true_2 in Hf.
Qed.

(** ** The tree with the new file *)

Lemma content_bytes f f' i m : content sb f' i m = content sb f i m -> inode_at sb f' i = inode_at sb f i ->
  forall k, 0 <= k < i_size (inode_at sb f i) -> fbyte sb f' (nd_zones m) k = fbyte sb f (nd_zones m) k.
Proof.
  unfold content. intros Ec Ei k Hk. rewrite Ei in Ec. set (size := i_size _) in *.
  pose proof (slice_lookup (fbyte sb f (nd_zones m)) 0 size k Hk) as E1.
  pose proof (slice_lookup (fbyte sb f' (nd_zones m)) 0 size k Hk) as E2. rewrite Ec, E1, Z.add_0_l in E2. congruence.
Qed.

Lemma untouched_view f f' i m : untouched sb f f' i m -> i_size (inode_at sb f i) mod es = 0 \/ file_type (i_mode (inode_at sb f i)) <> FileType_DIR ->
  view sb f' i m = view sb f i m.
Proof.
  intros (Ei & Ec & _) Hm. unfold view. rewrite Ei, Ec. case_match; [done|]. case_match eqn:Et; [|done].
  apply Z.eqb_eq in Et. destruct Hm as [Hm|]; [|done]. f_equal. unfold listing, entries_from. rewrite Ei.
  destruct (es_facts sb N G) as (He & _). set (size := i_size _) in *. pose proof (Z.div_mod size es ltac:(lia)) as Hd.
  apply list_omap_ext, Forall_Forall2_diag, Forall_forall. intros k Hk%elem_of_seqZ. f_equal. apply slice_ext.
  intros j Hj. apply (content_bytes f f' i m Ec Ei). fold size. nia.
Qed.

Section Created.
Context (f f' : contents) (M : gmap Z node) (dir ino : Z) (n : node) (name : str).
Hypothesis (HT : tree_ok sb f M) (Hn : M !! dir = Some n).
Hypothesis (Hdir : file_type (i_mode (inode_at sb f dir)) = FileType_DIR).
Hypothesis (Hclean : clean f dir n) (Ha : ascii_name name) (Hne : name <> []) (Hfit : fits_slot sb name).
Hypothesis (Hnew : entry_of (tree sb f M) dir name = None).
Hypothesis (Hcr : file_created sb f M dir n name (Mode_of FileType_REG 420) ino f').

Abbreviation T := (tree sb f M).
Abbreviation M' := (<[ino := empty_node]> M).
Abbreviation T' := (tree sb f' M').

Lemma created_range : 1 <= ino <= ninodes sb.
Proof. apply (fk_file _ _ _ (fc_ok _ _ _ _ _ _ _ _ _ Hcr) ino empty_node), lookup_insert_eq. Qed.

Lemma created_ne i m : M !! i = Some m -> i <> ino.
Proof. destruct (fc_fresh _ _ _ _ _ _ _ _ _ Hcr) as [Hf _]. congruence. Qed.

Lemma created_other i : i <> dir -> i <> ino -> T' i = T i.
Proof.
  intros Hi Hi'. unfold tree. rewrite lookup_insert_ne by done. destruct (M !! i) as [m|] eqn:E; [|done]. cbn. f_equal.
  apply untouched_view; [by apply (fc_others _ _ _ _ _ _ _ _ _ Hcr)|].
  destruct (decide (file_type (i_mode (inode_at sb f i)) = FileType_DIR)) as [Et|Et]; [left|by right].
  by apply (to_dirs _ _ _ HT i m).
Qed.

Lemma created_new : T' ino = Some VFile.
Proof.
  unfold tree. rewrite lookup_insert_eq. cbn. f_equal. unfold view. by rewrite (fc_inode _ _ _ _ _ _ _ _ _ Hcr).
Qed.

Lemma created_dir : T dir = Some (VDir (listing sb f dir n)) /\ T' dir = Some (VDir (listing sb f' dir n)).
Proof.
  destruct (fc_slot _ _ _ _ _ _ _ _ _ Hcr) as (pos & p & _ & _ & Ed).
  split; unfold tree; rewrite ?lookup_insert_ne by (pose proof (created_ne dir n Hn); done); rewrite Hn; cbn; unfold view.
  - by rewrite Hdir.
  - rewrite Ed. cbn [set_size i_mode]. by rewrite Hdir.
Qed.

Lemma created_entries nm x : entry_of T dir nm = Some x \/ nm = name /\ x = ino -> entry_of T' dir nm = Some x.
Proof.
  destruct created_dir as [E E']. unfold entry_of in *. rewrite E in *. rewrite E'. pose proof created_range as Hr.
  destruct (to_dirs _ _ _ HT dir n Hn Hdir) as [Hm _].
  destruct (listing_created f M dir n name ino _ f' (to_fs _ _ _ HT) Hn Hclean Hm Ha Hne Hfit
    ltac:(pose proof (g_inodes _ _ G); lia) Hcr) as (K & h & Hh & _ & El & El' & G1 & G2 & G3).
  rewrite El in *. rewrite El'. assert (Hin : h ∈ seqZ 0 K) by (apply elem_of_seqZ; lia).
  destruct (decide (nm = name)) as [->|Hnm].
  - assert (Hno : find (fun e => bool_decide (de_name e = name)) (omap (slot_entry f n) (seqZ 0 K)) = None)
      by (by destruct (find _ _)).
    rewrite Hno. intros [?|[_ ->]]; [done|].
    rewrite (find_omap_new (slot_entry f n) (slot_entry f' n) _ h (mkDirEntry ino name) Hin G1 G2 G3); [done| |done].
    by rewrite bool_decide_eq_true_2.
  - intros [Hx|[? _]]; [|done]. rewrite <- Hx. f_equal.
    apply (find_omap_same (slot_entry f n) (slot_entry f' n) _ h (mkDirEntry ino name) G1 G2 G3).
    apply bool_decide_eq_false_2. cbn. congruence.
Qed.

Lemma created_mono k names r : resolves T k names 1 r -> resolves T' k names 1 r.
Proof.
  destruct created_dir as [E E']. apply resolves_mono.
  - intros d nm x Hx. destruct (decide (d = dir)) as [->|Hd]; [apply created_entries; by left|].
    unfold entry_of in *. destruct (decide (d = ino)) as [->|Hi]; [|by rewrite created_other].
    unfold tree in Hx. by rewrite (proj1 (fc_fresh _ _ _ _ _ _ _ _ _ Hcr)) in Hx.
  - intros i t Ht. assert (i <> ino).
    { intros ->. unfold tree in Ht. by rewrite (proj1 (fc_fresh _ _ _ _ _ _ _ _ _ Hcr)) in Ht. }
    rewrite created_other; [done| |done]. intros ->. congruence.
  - intros i Hi. unfold is_link in *. destruct (decide (i = ino)) as [->|Hi']; [by rewrite created_new|].
    destruct (decide (i = dir)) as [->|Hd]; [by rewrite E'|]. by rewrite created_other.
  - intros i Hi. unfold is_dir in *. destruct (decide (i = dir)) as [->|Hd]; [by rewrite E'|].
    rewrite created_other; [done|done|]. intros ->. unfold tree in Hi. by rewrite (proj1 (fc_fresh _ _ _ _ _ _ _ _ _ Hcr)) in Hi.
Qed.

Lemma created_tree_ok : tree_ok sb f' M'.
Proof.
  destruct created_dir as [E E']. split; [apply Hcr| |].
  - destruct (to_root _ _ _ HT) as [l Hl]. destruct (decide (1 = dir)) as [Hd|Hd]; [rewrite Hd, E'; by eexists|].
    exists l. rewrite created_other; [done|done|]. intros Hi. unfold tree in Hl.
    rewrite Hi, (proj1 (fc_fresh _ _ _ _ _ _ _ _ _ Hcr)) in Hl. done.
  - assert (Hdom : forall l, Forall (fun e => is_Some (M !! de_ino e)) l -> Forall (fun e => is_Some (M' !! de_ino e)) l).
    { intros l Hl. eapply Forall_impl; [exact Hl|]. intros e He. apply lookup_insert_is_Some'. by right. }
    intros i m Hm Ht. destruct (decide (i = ino)) as [->|Hi].
    { exfalso. by rewrite (fc_inode _ _ _ _ _ _ _ _ _ Hcr) in Ht. }
    rewrite lookup_insert_ne in Hm by done. destruct (decide (i = dir)) as [->|Hd].
    + rewrite Hn in Hm. injection Hm as <-. destruct (to_dirs _ _ _ HT dir n Hn Hdir) as [Hmod Hall].
      destruct (listing_created f M dir n name ino _ f' (to_fs _ _ _ HT) Hn Hclean Hmod Ha Hne Hfit
        ltac:(pose proof created_range; pose proof (g_inodes _ _ G); lia) Hcr) as (K & h & Hh & Es & El & El' & G1 & G2 & G3).
      destruct (es_facts sb N G) as (He & _). split; [rewrite Es; apply Z.mod_mul; lia|]. rewrite El', Forall_forall.
      rewrite El in Hall. apply Hdom in Hall. rewrite Forall_forall in Hall.
      assert (Hin : h ∈ seqZ 0 K) by (apply elem_of_seqZ; lia).
      intros e [->|He']%(elem_omap_more (slot_entry f n) _ _ h (mkDirEntry ino name) Hin G1 G2 G3);
        [|by apply Hall]. cbn. rewrite lookup_insert_eq. by eexists.
    + destruct (fc_others _ _ _ _ _ _ _ _ _ Hcr i m Hd Hm) as (Ei & Ec & _). rewrite Ei in Ht.
      destruct (to_dirs _ _ _ HT i m Hm Ht) as [Hmod Hall]. rewrite Ei. split; [done|].
      assert (Ev : T' i = T i) by by apply created_other. unfold tree in Ev. rewrite lookup_insert_ne, Hm in Ev by done.
      cbn in Ev. unfold view in Ev. rewrite Ei, Ht in Ev. injection Ev as ->. by apply Hdom.
Qed.

End Created.

End New.

(** ** Properties *)


(** The slots of the example past its three entries are free. *)
Lemma ex_clean : clean ex_sb ex_byte 1 ex_dir.
Proof.
  intros sp Hsp Hs. rewrite ex_dir_inode_at in Hs. cbn [ex_dir_inode i_size] in Hs.
  assert (E : forallb (fun sp => (sp.1 <? 48) || free_spot ex_byte sp.2) (spots ex_sb 0 [5]) = true) by (vm_compute; reflexivity).
  rewrite forallb_forall in E. specialize (E sp (proj1 (list_elem_of_In _ _) Hsp)). destruct (Z.ltb_spec sp.1 48); [lia|done].
Qed.

