(* ===== verification/Devices.v ===== *)
(** * Devices: the device manager ([src/driver/tree.rs], [src/driver/descriptor.rs],
      [src/driver/device.rs])

    Device numbers come from the ID allocator, the tables are ordered maps. A
    driver is the record of the methods of its trait, over the state [D] of the
    hardware. The theorems say which number each probed device gets, and that
    the disk the file system works on is the first block device in the order of
    the device tree. *)

From Stdlib Require Import Ascii.
From S2P Require Import Prelude OrdMap IdAlloc BitFields Abi Paths Bytes Disk.

(** ** Descriptors *)

Record Region : Type := mkRegion { reg_base : Z; reg_size : Z }.

Record Descriptor : Type := mkDescriptor {
  desc_name : str; compatible : list str; resource : list Region; desc_irq : list Z
}.

Record DeviceInfo : Type := mkDeviceInfo { di_mmio : Region; di_irq : option Z }.

Definition DeviceInfo_from_descriptor (desc : Descriptor) : option DeviceInfo :=
  region ← head (resource desc);
  mret (mkDeviceInfo region (head (desc_irq desc))).

(** ** Device numbers *)

Definition MAJOR_BITS : Z := 12.
Definition MINOR_BITS : Z := 20.

Definition Did_minor : Z -> Z := bits_get 0 19.
Definition Did_major : Z -> Z := bits_get 20 31.
Definition Did_set_major : Z -> Z -> Z := bits_set 32 20 31.

Definition Did_mkdev (major minor : Z) : Z :=
  Z.lor (Z.shiftl (Z.land major (Z.ones MAJOR_BITS)) MINOR_BITS) (Z.land minor (Z.ones MINOR_BITS)).

Definition PRESET_MAJORS : list Z := [1; 4; 8; 10; 252].

(** ** Drivers *)

Inductive MajorAlloc : Type := StaticAlloc (did : Z) | DynamicAlloc.

Record CharDevice (D : Type) : Type := mkCharDevice {
  ch_major : MajorAlloc; ch_read : list Z -> io D (Z * list Z); ch_write : list Z -> io D Z
}.
Arguments mkCharDevice {D} _ _ _.
Arguments ch_major {D} _.
Arguments ch_read {D} _.
Arguments ch_write {D} _.

Record BlockDriver (D : Type) : Type := mkBlockDriver {
  bl_major : MajorAlloc; bl_read_at : list Z -> Z -> io D (Z * list Z); bl_write_at : list Z -> Z -> io D Z
}.
Arguments mkBlockDriver {D} _ _ _.
Arguments bl_major {D} _.
Arguments bl_read_at {D} _.
Arguments bl_write_at {D} _.

(** [fill_bytes] of an entropy source: the buffer it leaves and whether it
    succeeded. *)
Definition EntropyDevice (D : Type) : Type := list Z -> D -> outcome (result unit unit * list Z * D).

Inductive DeviceOps (D : Type) : Type :=
| Block (ops : BlockDriver D)
| Char (ops : CharDevice D)
| Entropy (ops : EntropyDevice D).
Arguments Block {D} _.
Arguments Char {D} _.
Arguments Entropy {D} _.

Record DeviceNode (D : Type) : Type := mkDeviceNode {
  dn_did : Z; dn_mode : Z; dn_name : str; dn_ops : DeviceOps D; dn_desc : Descriptor
}.
Arguments mkDeviceNode {D} _ _ _ _ _.
Arguments dn_did {D} _.
Arguments dn_mode {D} _.
Arguments dn_name {D} _.
Arguments dn_ops {D} _.
Arguments dn_desc {D} _.

Record DeviceManager (D : Type) : Type := mkDeviceManager {
  id_alloc : IdAlloc; alloc_majors : list Z;
  by_id : list (Z * DeviceNode D); by_name : list (str * DeviceNode D)
}.
Arguments mkDeviceManager {D} _ _ _ _.
Arguments id_alloc {D} _.
Arguments alloc_majors {D} _.
Arguments by_id {D} _.
Arguments by_name {D} _.

(** ** The manager *)

Definition did_alloc_major_at := IdAlloc_alloc_major_at 32 20.
Definition did_alloc_major := IdAlloc_alloc_major 32 20.
Definition did_alloc_minor := IdAlloc_alloc_minor 32.

(** The loop of [new] over the preset majors. *)
Fixpoint preset (majors : list Z) (ids : IdAlloc) (taken : list Z) : IdAlloc * list Z :=
  match majors with
  | [] => (ids, taken)
  | i :: majors =>
      let (r, ids) := did_alloc_major_at ids (Did_set_major 0 i) in
      preset majors ids (match r with Ok major => taken ++ [major] | Err _ => taken end)
  end.

Section Manager.
Context {D : Type}.
Implicit Types self : DeviceManager D.

Definition DeviceManager_new : outcome (DeviceManager D) :=
  match IdAlloc_from_range 32 20 0 (2 ^ 32 - 1) with
  | Err _ => Panic
  | Ok ids => let (ids, majors) := preset PRESET_MAJORS ids [] in mret (mkDeviceManager ids majors [] [])
  end.

Definition DeviceManager_register self (desc : Descriptor) (ops : DeviceOps D) (mode : Z) : outcome (DeviceManager D) :=
  let major := match ops with Block ops => bl_major ops | Char ops => ch_major ops | Entropy _ => DynamicAlloc end in
  '(major, ids, majors) ← (match major with
    | DynamicAlloc =>
        '(r, ids) ← did_alloc_major (id_alloc self);
        major ← expect r;
        mret (major, ids, alloc_majors self ++ [major])
    | StaticAlloc did => mret (did, id_alloc self, alloc_majors self)
    end);
  '(r, ids) ← did_alloc_minor ids major;
  did ← expect r;
  let node := mkDeviceNode did mode (desc_name desc) ops desc in
  mret (mkDeviceManager ids majors (om_insert did node (by_id self)) (om_insert (dn_name node) node (by_name self))).

Definition DeviceManager_remove self (did : Z) : option (DeviceNode D) * DeviceManager D :=
  match om_get did (by_id self) with
  | None => (None, self)
  | Some node =>
      (om_get (dn_name node) (by_name self),
       mkDeviceManager (id_alloc self) (alloc_majors self) (om_remove did (by_id self))
         (om_remove (dn_name node) (by_name self)))
  end.

Definition DeviceManager_find_by_name self (name : str) : option (DeviceNode D) := om_get name (by_name self).

Definition DeviceManager_find_by_id self (id : Z) : option (DeviceNode D) := om_get id (by_id self).

Definition is_char (ops : DeviceOps D) : bool := match ops with Char _ => true | _ => false end.
Definition is_block (ops : DeviceOps D) : bool := match ops with Block _ => true | _ => false end.
Definition is_entropy (ops : DeviceOps D) : bool := match ops with Entropy _ => true | _ => false end.

(** [by_id.iter().find_map]: the first device of a kind. *)
Definition first_device self (kind : DeviceOps D -> bool) : option Z :=
  fst <$> List.find (fun e => kind (dn_ops e.2)) (by_id self).

Definition DeviceManager_first_char self : option Z := first_device self is_char.
Definition DeviceManager_first_block self : option Z := first_device self is_block.

Definition DeviceManager_read self (did : Z) (buf : list Z) : io D (Z * list Z) :=
  match DeviceManager_find_by_id self did with
  | None => io_fail IoError_NotReady
  | Some node => match dn_ops node with Char device => ch_read device buf | _ => io_fail IoError_Request end
  end.

Definition DeviceManager_write self (did : Z) (buf : list Z) : io D Z :=
  match DeviceManager_find_by_id self did with
  | None => io_fail IoError_NotReady
  | Some node => match dn_ops node with Char device => ch_write device buf | _ => io_fail IoError_Request end
  end.

Definition DeviceManager_read_at self (did : Z) (buf : list Z) (offset : Z) : io D (Z * list Z) :=
  match DeviceManager_find_by_id self did with
  | None => io_fail IoError_NotReady
  | Some node => match dn_ops node with Block device => bl_read_at device buf offset | _ => io_fail IoError_Request end
  end.

Definition DeviceManager_write_at self (did : Z) (buf : list Z) (offset : Z) : io D Z :=
  match DeviceManager_find_by_id self did with
  | None => io_fail IoError_NotReady
  | Some node => match dn_ops node with Block device => bl_write_at device buf offset | _ => io_fail IoError_Request end
  end.

Definition DeviceManager_fill_entropy self (dest : list Z) (d : D) : outcome (result unit unit * list Z * D) :=
  match first_device self is_entropy with
  | None => mret (Err (), dest, d)
  | Some did =>
      match DeviceManager_find_by_id self did with
      | Some node => match dn_ops node with Entropy source => source dest d | _ => mret (Err (), dest, d) end
      | None => mret (Err (), dest, d)
      end
  end.

(** The handle of the file system: every call goes through the manager. *)
Definition ManagedBlockDevice self (did : Z) : BlockDevice D := {|
  dev_read_at buf offset := DeviceManager_read_at self did buf offset;
  dev_write_at buf offset := DeviceManager_write_at self did buf offset
|}.

Definition DeviceManager_block_handle self : option (BlockDevice D) :=
  ManagedBlockDevice self <$> DeviceManager_first_block self.

(** *** Probing

    The drivers' constructors and the device ID register of a virtio device are
    parameters: the hardware is behind them. *)

Context (uart : DeviceInfo -> CharDevice D) (blk : DeviceInfo -> BlockDriver D) (rng : DeviceInfo -> EntropyDevice D).
Context (device_id : DeviceInfo -> Z).

Definition ns16550a : str := ["n"; "s"; "1"; "6"; "5"; "5"; "0"; "a"]%char.
Definition virtio_mmio : str := ["v"; "i"; "r"; "t"; "i"; "o"; ","; "m"; "m"; "i"; "o"]%char.

Definition CHR_rw : Z := Z.lor (Z.shiftl 2 12) 0x1b6.
Definition BLK_rw : Z := Z.lor (Z.shiftl 6 12) 0x1b0.
Definition CHR_ro : Z := Z.lor (Z.shiftl 2 12) 0x124.

Definition has (value : str) (desc : Descriptor) : bool := existsb (fun c => bool_decide (c = value)) (compatible desc).

(** [from_desc] of the two virtio drivers. *)
Definition virtio_from_desc (type : Z) (desc : Descriptor) : option DeviceInfo :=
  device ← DeviceInfo_from_descriptor desc;
  if device_id device =? type then Some device else None.

Definition probe_desc self (desc : Descriptor) : outcome (DeviceManager D) :=
  self ← (if has ns16550a desc then
            match DeviceInfo_from_descriptor desc with
            | Some device => DeviceManager_register self desc (Char (uart device)) CHR_rw
            | None => mret self
            end
          else mret self);
  if has virtio_mmio desc then
    match virtio_from_desc 2 desc with
    | Some device => DeviceManager_register self desc (Block (blk device)) BLK_rw
    | None =>
        match virtio_from_desc 4 desc with
        | Some device => DeviceManager_register self desc (Entropy (rng device)) CHR_ro
        | None => mret self
        end
    end
  else mret self.

Fixpoint probe_descs self (descs : list Descriptor) : outcome (DeviceManager D) :=
  match descs with
  | [] => mret self
  | desc :: descs => self ← probe_desc self desc; probe_descs self descs
  end.

(** The initialiser of [DEVICE_MANAGER]. *)
Definition DEVICE_MANAGER (descs : list Descriptor) : outcome (DeviceManager D) :=
  manager ← DeviceManager_new; probe_descs manager descs.

End Manager.

(** ** Which number a device gets *)

(** The majors that dynamic allocation hands out, in this order; the last block
    of [2 ^ 20] numbers is not whole, so it is never reserved. *)
Definition free_majors : list Z := filter (fun m => m ∉ PRESET_MAJORS) (seqZ 0 4095).

Definition did_of (major : Z) : Z := major * 2 ^ 20.

(** The majors [left] are those whose block is free. *)
Record left_in (st : IdState) (left : list Z) : Prop := {
  li_start : sp_start st = 0;
  li_end : sp_end st = 2 ^ 32 - 1;
  li_sorted : StronglySorted Z.lt left;
  li_range m : m ∈ left -> 0 <= m < 4095;
  li_major m : m ∈ left -> sp_major st (did_of m) = false;
  li_free m : 0 <= m < 4095 -> block_free 20 (sp_flat st) (did_of m) = true <-> m ∈ left
}.

Definition majors_left (ids : IdAlloc) (left : list Z) : Prop :=
  exists st, Id_rep 32 20 ids st /\ left_in st left.

Lemma did_bits : 0 <= 20 < 32 /\ 32 <= 64.
Proof. lia. Qed.

Lemma sorted_filter (P : Z -> Prop) `{forall x, Decision (P x)} l :
  StronglySorted Z.lt l -> StronglySorted Z.lt (filter P l).
Proof.
  induction 1 as [|x l Hl IH Hx]; [constructor|]. rewrite filter_cons. case_decide; [|done].
  constructor; [done|]. rewrite Forall_forall in *. intros y [_ Hy]%list_elem_of_filter. by apply Hx.
Qed.

Lemma filter_all (P : Z -> Prop) `{forall x, Decision (P x)} l : Forall P l -> filter P l = l.
Proof. induction 1 as [|x l Hx _ IH]; [done|]. rewrite filter_cons_True by done. by f_equal. Qed.

(** Reserving a block. *)
Lemma reserve_left st left m : left_in st left -> 0 <= m < 4095 ->
  left_in (reserve 20 st (did_of m)) (filter (fun k => k <> m) left).
Proof.
  intros [H1 H2 Hs Hr Hj Hf] Hm. split; cbn [reserve sp_start sp_end sp_flat sp_major]; try done.
  - by apply sorted_filter.
  - intros k [_ Hk]%list_elem_of_filter. by apply Hr.
  - intros k [Hne Hk]%list_elem_of_filter. rewrite fill_out; [by apply Hj|]. unfold did_of. lia.
  - intros k Hk. rewrite list_elem_of_filter, <- Hf, !block_free_spec by done. unfold did_of. split.
    + intros [Hal Hall]. assert (k <> m) as Hne.
      { intros ->. specialize (Hall (m * 2 ^ 20) ltac:(lia)). rewrite fill_in in Hall; [done|lia]. }
      split; [done|]. split; [done|]. intros i Hi. specialize (Hall i Hi). rewrite fill_out in Hall; [done|lia].
    + intros [Hne [Hal Hall]]. split; [done|]. intros i Hi. rewrite fill_out; [by apply Hall|lia].
Qed.

Lemma find_app {A} (p : A -> bool) l l' :
  List.find p (l ++ l') = match List.find p l with Some x => Some x | None => List.find p l' end.
Proof. induction l as [|x l IH]; [done|]. cbn. by destruct (p x). Qed.

Lemma find_first (p : Z -> bool) lo n x : lo <= x < lo + n -> p x = true ->
  (forall y, lo <= y < x -> p y = false) -> List.find p (seqZ lo n) = Some x.
Proof.
  intros Hx Hp Hlow. replace n with ((x - lo) + (1 + (lo + n - x - 1))) by lia.
  rewrite !seqZ_app by lia. replace (lo + (x - lo)) with x by lia.
  replace (seqZ x 1) with [x] by (rewrite seqZ_cons by lia; by rewrite seqZ_nil by lia).
  assert (E : List.find p (seqZ lo (x - lo)) = None).
  { destruct (List.find p (seqZ lo (x - lo))) as [y|] eqn:Ef; [|done].
    apply List.find_some in Ef as [Hy Hpy]. apply list_elem_of_In, elem_of_seqZ in Hy.
    rewrite Hlow in Hpy by lia. done. }
  rewrite find_app, E. cbn. by rewrite Hp.
Qed.

(** A dynamic registration gets the first free major, and minor 0 of it. *)
Lemma alloc_dynamic ids m left : majors_left ids (m :: left) ->
  exists ids1 ids2, did_alloc_major ids = Ret (Some (did_of m), ids1) /\
    did_alloc_minor ids1 (did_of m) = Ret (Some (did_of m), ids2) /\ majors_left ids2 left.
Proof.
  intros (st & Hrep & HL). destruct HL as [H1 H2 Hs Hr Hj Hf] eqn:EL. clear EL.
  pose proof (Hr m ltac:(left)) as Hm.
  destruct (Id_alloc_major_ok 32 20 did_bits ids st Hrep) as (ids1 & E1 & Hrep1).
  assert (Ef : List.find (fun b => (b + 2 ^ 20 <=? sp_end st) && block_free 20 (sp_flat st) b)
    (seqZ (sp_start st) (sp_end st - sp_start st)) = Some (did_of m)).
  { rewrite H1, H2. apply find_first; [unfold did_of; lia| |].
    - apply andb_true_iff. split; [unfold did_of; lia|]. apply Hf; [done|left].
    - intros y Hy. destruct (_ && _) eqn:E; [|done]. apply andb_true_iff in E as [Ele Efree].
      assert (Ey : y = did_of (y / 2 ^ 20)).
      { apply block_free_spec in Efree as [Hal _]. unfold did_of. lia. }
      rewrite Ey in Efree. apply Hf in Efree; [|unfold did_of in *; lia].
      apply StronglySorted_inv in Hs as [_ Hlt]. rewrite Forall_forall in Hlt.
      apply elem_of_cons in Efree as [Em|Hin]; [unfold did_of in *; lia|]. apply Hlt in Hin. unfold did_of in *. lia. }
  cbn [IdAlloc_exec id_step] in E1, Hrep1. rewrite Ef in E1, Hrep1. cbn [fst snd] in E1, Hrep1.
  apply outcome_bind_inv in E1 as ([r ids1'] & E1 & [= -> ->]). exists ids1.
  destruct (Id_alloc_minor_ok 32 20 did_bits ids1 _ (did_of m) Hrep1) as (ids2 & E2 & Hrep2).
  cbn [IdAlloc_exec id_step] in E2, Hrep2.
  cbn [reserve sp_major sp_minor] in E2, Hrep2. rewrite fill_in in E2, Hrep2 by lia.
  rewrite (find_first _ (did_of m) (2 ^ 20) (did_of m)) in E2, Hrep2 by (try lia; by rewrite fill_in by lia).
  cbn [fst snd] in E2, Hrep2. apply outcome_bind_inv in E2 as ([r ids2'] & E2 & [= -> ->]).
  exists ids2. split; [done|]. split; [done|]. eexists. split; [exact Hrep2|].
  pose proof (reserve_left st (m :: left) m ltac:(by split) Hm) as HR.
  rewrite filter_cons_False in HR by tauto. rewrite filter_all in HR; [by destruct HR|].
  apply StronglySorted_inv in Hs as [_ Hlt]. eapply Forall_impl; [exact Hlt|]. cbn. lia.
Qed.

(** *** The new manager *)

Lemma init_left : left_in (init_state 0 (2 ^ 32 - 1)) (seqZ 0 4095).
Proof.
  split; cbn [init_state sp_start sp_end sp_flat sp_major]; try done.
  - assert (H : forall n lo, StronglySorted Z.lt (seqZ lo (Z.of_nat n))).
    { induction n as [|n IH]; intros lo; [rewrite seqZ_nil by lia; constructor|].
      rewrite seqZ_cons by lia. replace (Z.pred (Z.of_nat (S n))) with (Z.of_nat n) by lia.
      constructor; [apply IH|]. apply Forall_forall. intros x Hx%elem_of_seqZ. lia. }
    exact (H 4095%nat 0).
  - intros m Hm%elem_of_seqZ. lia.
  - intros m Hm. rewrite elem_of_seqZ, block_free_spec. unfold did_of. split; [lia|].
    intros _. split; [lia|done].
Qed.

(** [alloc_major_at] of a free major. *)
Lemma alloc_at_left ids left m : majors_left ids left -> m ∈ left ->
  exists ids', did_alloc_major_at ids (did_of m) = (Ok (did_of m), ids') /\
    majors_left ids' (filter (fun k => k <> m) left).
Proof.
  intros (st & Hrep & HL) Hm. pose proof (li_range _ _ HL m Hm) as Hr.
  destruct (Id_alloc_major_at_ok 32 20 did_bits ids st (did_of m) Hrep) as (ids' & E & Hrep').
  cbn [IdAlloc_exec] in E. unfold id_step in E, Hrep'. unfold in_ids in E, Hrep'.
  rewrite (li_major _ _ HL m Hm), (li_start _ _ HL), (li_end _ _ HL) in E, Hrep'.
  pose proof (proj2 (li_free _ _ HL m Hr) Hm) as Hfree. unfold block_free in Hfree.
  apply andb_true_iff in Hfree as [Hal Hall]. rewrite Hal, Hall in E, Hrep'.
  replace ((0 <=? did_of m) && (did_of m <? 2 ^ 32 - 1)) with true in E, Hrep' by (unfold did_of; lia).
  replace (2 ^ 32 - 1 <? did_of m + 2 ^ 20) with false in E, Hrep' by (unfold did_of; lia).
  cbn [negb orb fst snd] in E, Hrep'. unfold did_alloc_major_at.
  destruct (IdAlloc_alloc_major_at 32 20 ids (did_of m)) as [r ids'']. injection E as -> ->.
  exists ids'. split; [done|]. eexists. split; [exact Hrep'|]. by apply reserve_left.
Qed.

Lemma preset_left majors ids left taken : majors_left ids left -> NoDup majors ->
  Forall (fun m => m ∈ left /\ Did_set_major 0 m = did_of m) majors ->
  exists ids', preset majors ids taken = (ids', taken ++ (did_of <$> majors)) /\
    majors_left ids' (filter (fun k => k ∉ majors) left).
Proof.
  revert ids left taken. induction majors as [|m majors IH]; intros ids left taken HL Hd Hin.
  { exists ids. cbn. rewrite app_nil_r, filter_all; [done|]. apply Forall_forall. intros x _. apply not_elem_of_nil. }
  inversion_clear Hd as [|? ? Hn Hd']. inversion_clear Hin as [|? ? [Hm Es] Hin']. cbn [preset]. rewrite Es.
  destruct (alloc_at_left ids left m HL Hm) as (ids1 & -> & HL1).
  destruct (IH ids1 _ (taken ++ [did_of m]) HL1 Hd') as (ids' & -> & HL').
  { rewrite Forall_forall in *. intros y Hy. destruct (Hin' y Hy). split; [|done].
    apply list_elem_of_filter. split; [|done]. congruence. }
  exists ids'. rewrite <- app_assoc. split; [done|]. rewrite list_filter_filter in HL'.
  rewrite (list_filter_iff _ (fun k => (k ∉ majors) /\ k <> m)); [exact HL'|]. intros k. rewrite not_elem_of_cons. tauto.
Qed.

Lemma new_ok D : exists ids, DeviceManager_new (D := D) = Ret (mkDeviceManager ids (did_of <$> PRESET_MAJORS) [] []) /\
  majors_left ids free_majors.
Proof.
  assert (HL : majors_left (mkIdAlloc (FlatAlloc_new 0 (2 ^ 32 - 1)) []) (seqZ 0 4095)).
  { exists (init_state 0 (2 ^ 32 - 1)). split; [|apply init_left].
    apply (Id_init_rep 32 20 did_bits); [lia|lia|done]. }
  destruct (preset_left PRESET_MAJORS _ _ [] HL) as (ids & E & HL').
  - by apply (bool_decide_unpack _).
  - repeat (apply Forall_cons; split; [split; [apply elem_of_seqZ; lia|reflexivity]|]). apply Forall_nil_2.
  - exists ids. split; [|exact HL']. unfold DeviceManager_new.
    assert (Er : IdAlloc_from_range 32 20 0 (2 ^ 32 - 1) = Ok (mkIdAlloc (FlatAlloc_new 0 (2 ^ 32 - 1)) [])) by reflexivity.
    by rewrite Er, E.
Qed.

(** *** Registering a list of devices *)

Section Probe.
Context {D : Type}.
Implicit Types self : DeviceManager D.

Definition device : Type := Descriptor * DeviceOps D * Z.

Definition dynamic (dev : device) : Prop :=
  match dev.1.2 with Block ops => bl_major ops = DynamicAlloc | Char ops => ch_major ops = DynamicAlloc | Entropy _ => True end.

Definition numbered (major : Z) (dev : device) : Z * DeviceNode D :=
  (did_of major, mkDeviceNode (did_of major) dev.2 (desc_name dev.1.1) dev.1.2 dev.1.1).

Fixpoint register_all self (devs : list device) : outcome (DeviceManager D) :=
  match devs with
  | [] => mret self
  | dev :: devs => self ← DeviceManager_register self dev.1.1 dev.1.2 dev.2; register_all self devs
  end.

Lemma register_all_app self l1 l2 :
  register_all self (l1 ++ l2) = (self ← register_all self l1; register_all self l2).
Proof.
  revert self. induction l1 as [|dev l1 IH]; intros self; [done|]. cbn [app register_all].
  destruct (DeviceManager_register _ _ _ _) as [self'|]; [|done]. rewrite !outcome_bind_Ret. apply IH.
Qed.

Lemma register_dynamic self dev m left : majors_left (id_alloc self) (m :: left) -> dynamic dev ->
  exists self', DeviceManager_register self dev.1.1 dev.1.2 dev.2 = Ret self' /\
    majors_left (id_alloc self') left /\
    by_id self' = om_insert (did_of m) (numbered m dev).2 (by_id self).
Proof.
  intros HL Hdyn. destruct dev as [[desc ops] mode]. cbn [fst snd] in *. unfold DeviceManager_register.
  replace (match ops with Block o => bl_major o | Char o => ch_major o | Entropy _ => DynamicAlloc end)
    with DynamicAlloc by (by destruct ops).
  destruct (alloc_dynamic _ _ _ HL) as (ids1 & ids2 & E1 & E2 & HL2).
  rewrite E1, !outcome_bind_Ret. cbn [expect]. rewrite !outcome_bind_Ret, E2, !outcome_bind_Ret. cbn [expect].
  rewrite outcome_bind_Ret. by eexists.
Qed.

Lemma om_insert_end {V} k (v : V) (m : list (Z * V)) : Forall (fun e => e.1 < k) m -> om_insert k v m = m ++ [(k, v)].
Proof.
  induction 1 as [|[k' v'] m Hk _ IH]; [done|]. cbn [om_insert app fst] in *. cbn [cmp Z_Ord].
  replace (Z.compare k k') with Gt by (symmetry; apply Z.compare_gt_iff; done). by rewrite IH.
Qed.

Lemma register_all_ok devs self left :
  majors_left (id_alloc self) left -> (length devs <= length left)%nat -> Forall dynamic devs ->
  (forall m, m ∈ left -> Forall (fun e => e.1 < did_of m) (by_id self)) ->
  exists self', register_all self devs = Ret self' /\ by_id self' = by_id self ++ zip_with numbered left devs.
Proof.
  revert self left. induction devs as [|dev devs IH]; intros self left HL Hlen Hdyn Hlow.
  { exists self. split; [done|]. destruct left; cbn; by rewrite app_nil_r. }
  destruct left as [|m left]; [cbn in Hlen; lia|]. inversion_clear Hdyn as [|? ? Hd Hdyn'].
  destruct (register_dynamic self dev m left HL Hd) as (self1 & E & HL1 & Eid).
  cbn [register_all]. rewrite E, outcome_bind_Ret.
  rewrite om_insert_end in Eid by (apply Hlow; left).
  destruct (IH self1 left HL1 ltac:(cbn in Hlen; lia) Hdyn') as (self' & E' & Eid').
  { intros k Hk. rewrite Eid. apply Forall_app. split; [apply Hlow; by right|]. repeat constructor. cbn.
    destruct HL as (st & _ & HL). pose proof (li_sorted _ _ HL) as Hs. apply StronglySorted_inv in Hs as [_ Hlt].
    rewrite Forall_forall in Hlt. apply Hlt in Hk. unfold did_of. lia. }
  exists self'. split; [done|]. rewrite Eid', Eid, <- app_assoc. done.
Qed.

(** The devices that a list of descriptors gives. *)
Context (uart : DeviceInfo -> CharDevice D) (blk : DeviceInfo -> BlockDriver D) (rng : DeviceInfo -> EntropyDevice D).
Context (device_id : DeviceInfo -> Z).

Definition devices_of (desc : Descriptor) : list device :=
  match has ns16550a desc, DeviceInfo_from_descriptor desc with
  | true, Some info => [(desc, Char (uart info), CHR_rw)]
  | _, _ => []
  end ++
  match has virtio_mmio desc, DeviceInfo_from_descriptor desc with
  | true, Some info =>
      if device_id info =? 2 then [(desc, Block (blk info), BLK_rw)]
      else if device_id info =? 4 then [(desc, Entropy (rng info), CHR_ro)] else []
  | _, _ => []
  end.

Lemma probe_desc_devices self desc : probe_desc uart blk rng device_id self desc = register_all self (devices_of desc).
Proof.
  unfold devices_of. rewrite register_all_app. unfold probe_desc, virtio_from_desc.
  destruct (DeviceInfo_from_descriptor desc) as [info|]; cbn [mbind option_bind].
  2: { by destruct (has ns16550a desc), (has virtio_mmio desc). }
  assert (Hone : forall self dev, register_all self [dev] = DeviceManager_register self dev.1.1 dev.1.2 dev.2).
  { intros s dev. cbn. by destruct (DeviceManager_register _ _ _ _). }
  destruct (has ns16550a desc); [rewrite Hone; cbn [fst snd]; destruct (DeviceManager_register _ _ _ _) as [s|]; [|done]|];
    cbn [mbind outcome_bind mret outcome_ret register_all];
    (destruct (has virtio_mmio desc); [|done]);
    (destruct (device_id info =? 2); [by rewrite Hone|]; destruct (device_id info =? 4); [by rewrite Hone|done]).
Qed.

Lemma probe_descs_devices self descs :
  probe_descs uart blk rng device_id self descs = register_all self (concat (devices_of <$> descs)).
Proof.
  revert self. induction descs as [|desc descs IH]; intros self; [done|]. cbn [probe_descs fmap list_fmap concat].
  rewrite register_all_app, probe_desc_devices. destruct (register_all _ _); [|done]. rewrite !outcome_bind_Ret. apply IH.
Qed.

End Probe.

(** The first device of a kind, in the order in which the devices were found. *)
Lemma first_numbered {D} (kind : DeviceOps D -> bool) (devs : list device) majors :
  (length devs <= length majors)%nat ->
  fst <$> List.find (fun e => kind (dn_ops e.2)) (zip_with numbered majors devs) =
  (p ← list_find (fun dev => kind dev.1.2 = true) devs; did_of <$> majors !! p.1).
Proof.
  revert majors. induction devs as [|dev devs IH]; intros majors Hlen; [by destruct majors|].
  destruct majors as [|m majors]; [cbn in Hlen; lia|]. cbn [zip_with List.find list_find numbered snd dn_ops].
  destruct (kind dev.1.2) eqn:E.
  - by rewrite decide_True.
  - rewrite decide_False by congruence. rewrite IH by (cbn in Hlen; lia).
    by destruct (list_find (fun x : Descriptor * DeviceOps D * Z => kind x.1.2 = true) devs) as [[i x]|].
Qed.

Lemma numbered_ok {D} (devs : list device) majors :
  StronglySorted Z.lt majors -> om_ok (zip_with (@numbered D) majors devs).
Proof.
  intros Hs. revert devs. induction Hs as [|m majors Hs IH Hm]; intros devs; [constructor|].
  destruct devs as [|dev devs]; [constructor|]. cbn [zip_with]. unfold numbered at 1. apply om_ok_cons. split; [apply IH|].
  intros k v Hin. apply klt_Z. apply list_elem_of_lookup_1 in Hin as (i & Hi). apply lookup_zip_with_Some in Hi as (x & y & E & Hx & _).
  rewrite Forall_forall in Hm. specialize (Hm x (list_elem_of_lookup_2 _ _ _ Hx)). injection E as -> ->. unfold did_of. lia.
Qed.

Lemma free_majors_ok : StronglySorted Z.lt free_majors /\ length free_majors = 4090%nat.
Proof.
  split; [apply sorted_filter, (li_sorted _ _ init_left)|]. vm_compute. reflexivity.
Qed.

(** Probing. For every device tree with at most 4090 devices the kernel
    drives, building the device manager neither panics nor runs out of numbers;
    the devices get, in the order of the tree, minor 0 of the free majors in
    increasing order, all numbers distinct; every device is found under its
    number; and the disk that the file system is given is the first block device
    of the tree, whatever other devices it has. *)
Theorem DEVICE_MANAGER_ok {D} (uart : DeviceInfo -> CharDevice D) (blk : DeviceInfo -> BlockDriver D)
    (rng : DeviceInfo -> EntropyDevice D) device_id descs :
  let devs := concat (devices_of uart blk rng device_id <$> descs) in
  (forall i, ch_major (uart i) = DynamicAlloc) -> (forall i, bl_major (blk i) = DynamicAlloc) ->
  (length devs <= 4090)%nat ->
  exists m, DEVICE_MANAGER uart blk rng device_id descs = Ret m /\
    by_id m = zip_with numbered free_majors devs /\ NoDup (by_id m).*1 /\
    (forall did node, (did, node) ∈ by_id m -> DeviceManager_find_by_id m did = Some node) /\
    DeviceManager_first_block m = (p ← list_find (fun dev => is_block dev.1.2 = true) devs; did_of <$> free_majors !! p.1) /\
    DeviceManager_first_char m = (p ← list_find (fun dev => is_char dev.1.2 = true) devs; did_of <$> free_majors !! p.1).
Proof.
  intros devs Hu Hb Hlen. destruct free_majors_ok as [Hs Hl]. destruct (new_ok D) as (ids & En & HL).
  destruct (register_all_ok devs (mkDeviceManager ids (did_of <$> PRESET_MAJORS) [] []) free_majors HL ltac:(lia)) as (m & E & Eid).
  - apply Forall_concat, Forall_fmap, Forall_forall. intros desc _. unfold devices_of, compose.
    repeat case_match; repeat constructor; cbn; auto.
  - intros k _. constructor.
  - cbn [by_id app] in Eid. pose proof (numbered_ok devs free_majors Hs) as Hok. exists m.
    split; [unfold DEVICE_MANAGER; rewrite En, outcome_bind_Ret, probe_descs_devices; exact E|]. split; [done|].
    unfold DeviceManager_find_by_id, DeviceManager_first_block, DeviceManager_first_char, first_device. rewrite Eid.
    split; [by apply om_keys_NoDup|]. split; [intros did node; by apply om_get_elem|].
    assert (Hle : (length devs <= length free_majors)%nat) by (rewrite Hl; exact Hlen).
    split; [exact (first_numbered is_block devs _ Hle)|exact (first_numbered is_char devs _ Hle)].
Qed.

(** A serial port, an entropy source and a disk, in this order in the tree. *)
Definition ex_desc (name : ascii) (compat : str) (base : Z) : Descriptor := mkDescriptor [name] [compat] [mkRegion base 4096] [10].

Definition ex_tree : list Descriptor := [
  mkDescriptor ["m"%char] [] [] []; ex_desc "r"%char virtio_mmio 4; ex_desc "u"%char ns16550a 1; ex_desc "d"%char virtio_mmio 2].

Definition ex_uart (i : DeviceInfo) : CharDevice RamDisk := mkCharDevice DynamicAlloc (fun buf => mret (0, buf)) (fun buf => mret (Z.of_nat (length buf))).
Definition ex_blk (i : DeviceInfo) : BlockDriver RamDisk := mkBlockDriver DynamicAlloc dev_read_at dev_write_at.
Definition ex_rng (i : DeviceInfo) : EntropyDevice RamDisk := fun buf d => Ret (Ok (), buf, d).
Definition ex_device_id (i : DeviceInfo) : Z := reg_base (di_mmio i).

Lemma DEVICE_MANAGER_witness :
  let devs := concat (devices_of ex_uart ex_blk ex_rng ex_device_id <$> ex_tree) in
  exists m, DEVICE_MANAGER ex_uart ex_blk ex_rng ex_device_id ex_tree = Ret m /\
    by_id m = zip_with numbered free_majors devs /\ NoDup (by_id m).*1 /\
    (forall did node, (did, node) ∈ by_id m -> DeviceManager_find_by_id m did = Some node) /\
    DeviceManager_first_block m = (p ← list_find (fun dev => is_block dev.1.2 = true) devs; did_of <$> free_majors !! p.1) /\
    DeviceManager_first_char m = (p ← list_find (fun dev => is_char dev.1.2 = true) devs; did_of <$> free_majors !! p.1).
Proof.
  apply (DEVICE_MANAGER_ok ex_uart ex_blk ex_rng ex_device_id ex_tree); [done|done|].
  apply Nat.leb_le. reflexivity.
Defined.

(** The handle keeps the laws of the disk behind it: the theorems on file
    systems hold for the disk that the manager hands out. *)
Definition managed_laws {D} `{B : BlockDevice D} `{L : !DiskLaws D} (m : DeviceManager D) did node major
    (Hnode : DeviceManager_find_by_id m did = Some node)
    (Hops : dn_ops node = Block (mkBlockDriver major dev_read_at dev_write_at))
    : @DiskLaws D (ManagedBlockDevice m did).
Proof.
  assert (Hr : forall buf off, @dev_read_at D (ManagedBlockDevice m did) buf off = @dev_read_at D B buf off).
  { intros buf off. cbn. unfold DeviceManager_read_at. by rewrite Hnode, Hops. }
  assert (Hw : forall buf off, @dev_write_at D (ManagedBlockDevice m did) buf off = @dev_write_at D B buf off).
  { intros buf off. cbn. unfold DeviceManager_write_at. by rewrite Hnode, Hops. }
  refine {| disk_size := @disk_size D B L; disk_byte := @disk_byte D B L |}.
  - apply disk_is_byte.
  - intros d buf off. rewrite Hr. apply disk_read_ok.
  - intros d buf off. rewrite Hw. apply disk_write_ok.
Defined.
