(* ===== verification/Virtio.v ===== *)
(** * Virtio: the virtio-mmio transport ([src/driver/virtio_mmio.rs],
      [src/driver/virtio_mmio/queue.rs], [src/driver/virtio_mmio/handshake.rs])

    The split queue of a device, the handshake that configures it and the
    request cycle: fill descriptors, publish, notify, poll the used ring. The
    hardware is a parameter: what it answers to register accesses and what it
    does to the queue and to memory between two polls. *)

From S2P Require Import Prelude BitFields Abi Bytes Disk.

(** ** The queue *)

Definition RING_SIZE : Z := 256.

Record VirtQueueDescriptor : Type := mkDesc { vq_addr : Z; vq_len : Z; vq_flags : Z; vq_next : Z }.

Definition Flags_new : Z := 0.
Definition Flags_next : Z -> bool := bit_get 0.
Definition Flags_write : Z -> bool := bit_get 1.
Definition Flags_set_next : Z -> bool -> Z := bit_set 16 0.
Definition Flags_set_write : Z -> bool -> Z := bit_set 16 1.

Record UsedElement : Type := mkUsed { ue_id : Z; ue_len : Z }.

(** The descriptor table, the available ring and the used ring; the flags of the
    two rings stay 0. *)
Record Queue : Type := mkQueue {
  desc : list VirtQueueDescriptor;
  avail_idx : Z; avail_ring : list Z;
  used_idx : Z; used_ring : list UsedElement
}.

Definition Queue_zeroed : Queue :=
  mkQueue (replicate 256 (mkDesc 0 0 0 0)) 0 (replicate 256 0) 0 (replicate 256 (mkUsed 0 0)).

Definition set_desc (q : Queue) (i : nat) (d : VirtQueueDescriptor) : Queue :=
  mkQueue (<[i := d]> (desc q)) (avail_idx q) (avail_ring q) (used_idx q) (used_ring q).

Definition VirtQueue_post_avail (self : Queue) (head : Z) : Z * Queue :=
  let last_used := used_idx self in
  let slot := Z.to_nat (avail_idx self mod RING_SIZE) in
  (last_used, mkQueue (desc self) (wrap 16 (avail_idx self + 1)) (<[slot := head]> (avail_ring self))
                (used_idx self) (used_ring self)).

(** ** The hardware *)

Class VirtioHw (HW : Type) := {
  hw_read : Z -> HW -> Z * HW;
  hw_write : Z -> Z -> HW -> HW;
  hw_poll : HW -> Queue -> (Z -> Z) -> HW * Queue * (Z -> Z);
  hw_patience : nat
}.

(** Offsets of the registers. *)
Definition VERSION_OFFSET : Z := 0x004.
Definition DEVICE_FEATURES_OFFSET : Z := 0x010.
Definition DEVICE_FEATURES_SEL_OFFSET : Z := 0x014.
Definition DRIVER_FEATURES_OFFSET : Z := 0x020.
Definition DRIVER_FEATURES_SEL_OFFSET : Z := 0x024.
Definition GUEST_PAGE_SIZE_OFFSET : Z := 0x028.
Definition QUEUE_SEL_OFFSET : Z := 0x030.
Definition QUEUE_NUM_MAX_OFFSET : Z := 0x034.
Definition QUEUE_NUM_OFFSET : Z := 0x038.
Definition QUEUE_ALIGN_OFFSET : Z := 0x03C.
Definition QUEUE_PFN_OFFSET : Z := 0x040.
Definition QUEUE_READY_OFFSET : Z := 0x044.
Definition QUEUE_NOTIFY_OFFSET : Z := 0x050.
Definition STATUS_OFFSET : Z := 0x070.
Definition QUEUE_DESC_LOW_OFFSET : Z := 0x080.
Definition QUEUE_DESC_HIGH_OFFSET : Z := 0x084.
Definition QUEUE_DRIVER_LOW_OFFSET : Z := 0x090.
Definition QUEUE_DRIVER_HIGH_OFFSET : Z := 0x094.
Definition QUEUE_DEVICE_LOW_OFFSET : Z := 0x0A0.
Definition QUEUE_DEVICE_HIGH_OFFSET : Z := 0x0A4.

Definition VIRTIO_VERSION_LEGACY : Z := 1.

Definition DeviceStatus_features_ok : Z -> bool := bit_get 3.
Definition DeviceStatus_set_acknowledge : Z -> bool -> Z := bit_set 32 0.
Definition DeviceStatus_set_driver : Z -> bool -> Z := bit_set 32 1.
Definition DeviceStatus_set_driver_ok : Z -> bool -> Z := bit_set 32 2.
Definition DeviceStatus_set_features_ok : Z -> bool -> Z := bit_set 32 3.
Definition DeviceStatus_set_failed : Z -> bool -> Z := bit_set 32 7.

(** ** Register programs *)

Definition mmio (HW A : Type) : Type := HW -> result DevError A * HW.

#[export] Instance mmio_ret {HW} : MRet (mmio HW) := fun A a h => (Ok a, h).
#[export] Instance mmio_bind {HW} : MBind (mmio HW) := fun A B k m h =>
  match m h with (Ok a, h) => k a h | (Err e, h) => (Err e, h) end.

Section Handshake.
Context {HW : Type} `{VirtioHw HW}.

Definition mmio_read (offset : Z) : mmio HW Z := fun h => let (v, h) := hw_read offset h in (Ok v, h).
Definition mmio_write (offset v : Z) : mmio HW unit := fun h => (Ok (), hw_write offset v h).
Definition mmio_fail {A} (e : DevError) : mmio HW A := fun h => (Err e, h).

Definition VirtQueueConfig_handshake : mmio HW unit :=
  _ ← mmio_write STATUS_OFFSET 0;
  let status := DeviceStatus_set_acknowledge 0 true in
  _ ← mmio_write STATUS_OFFSET status;
  let status := DeviceStatus_set_driver status true in
  mmio_write STATUS_OFFSET status.

Definition HandshakeBegin_commit_features : mmio HW unit :=
  status ← mmio_read STATUS_OFFSET;
  _ ← mmio_write STATUS_OFFSET (DeviceStatus_set_features_ok status true);
  got_status ← mmio_read STATUS_OFFSET;
  if negb (DeviceStatus_features_ok got_status) then
    _ ← mmio_write STATUS_OFFSET (DeviceStatus_set_failed got_status true);
    mmio_fail VirtioFeaturesNotOk
  else mret ().

Definition HandshakeBegin_legacy (negotiate : Z -> Z) : mmio HW unit :=
  _ ← mmio_write DEVICE_FEATURES_SEL_OFFSET 0;
  features ← mmio_read DEVICE_FEATURES_OFFSET;
  _ ← mmio_write DRIVER_FEATURES_SEL_OFFSET 0;
  _ ← mmio_write DRIVER_FEATURES_OFFSET (negotiate features);
  HandshakeBegin_commit_features.

Definition HandshakeBegin_modern (negotiate : Z -> Z -> Z * Z) : mmio HW unit :=
  _ ← mmio_write DEVICE_FEATURES_SEL_OFFSET 0;
  features_low ← mmio_read DEVICE_FEATURES_OFFSET;
  _ ← mmio_write DEVICE_FEATURES_SEL_OFFSET 1;
  features_high ← mmio_read DEVICE_FEATURES_OFFSET;
  let negotiated := negotiate features_low features_high in
  _ ← mmio_write DRIVER_FEATURES_SEL_OFFSET 0;
  _ ← mmio_write DRIVER_FEATURES_OFFSET negotiated.1;
  _ ← mmio_write DRIVER_FEATURES_SEL_OFFSET 1;
  _ ← mmio_write DRIVER_FEATURES_OFFSET negotiated.2;
  HandshakeBegin_commit_features.

(** The offsets of the rings in the frame of the queue. *)
Definition avail_addr (start : Z) : Z := start + 4096.
Definition used_addr (start : Z) : Z := start + 8192.

(** The low and the high half of an address in two registers. *)
Definition write_address (low high addr : Z) : mmio HW unit :=
  _ ← mmio_write low (wrap 32 addr);
  mmio_write high (wrap 32 (Z.shiftr addr 32)).

(** [setup_queues] for the one queue the drivers use; [frame] is what the frame
    allocator returns for it. *)
Definition FeaturesNegotiated_setup_queue (index size : Z) (frame : option Z) : mmio HW Queue :=
  version ← mmio_read VERSION_OFFSET;
  _ ← mmio_write QUEUE_SEL_OFFSET index;
  num_max ← mmio_read QUEUE_NUM_MAX_OFFSET;
  if num_max <? size then mmio_fail VirtioHandshakeFailed
  else
    _ ← mmio_write QUEUE_NUM_OFFSET size;
    match frame with
    | None => mmio_fail (DevMem OutOfMemory)
    | Some start =>
        _ ← (if version =? VIRTIO_VERSION_LEGACY then
               _ ← mmio_write GUEST_PAGE_SIZE_OFFSET 4096;
               _ ← mmio_write QUEUE_ALIGN_OFFSET 4096;
               mmio_write QUEUE_PFN_OFFSET (wrap 32 (PhysicalAddr_ppn start))
             else
               _ ← write_address QUEUE_DESC_LOW_OFFSET QUEUE_DESC_HIGH_OFFSET start;
               _ ← write_address QUEUE_DRIVER_LOW_OFFSET QUEUE_DRIVER_HIGH_OFFSET (avail_addr start);
               _ ← write_address QUEUE_DEVICE_LOW_OFFSET QUEUE_DEVICE_HIGH_OFFSET (used_addr start);
               mmio_write QUEUE_READY_OFFSET 1);
        mret Queue_zeroed
    end.

Definition QueuesReady_finish : mmio HW unit :=
  status ← mmio_read STATUS_OFFSET;
  mmio_write STATUS_OFFSET (DeviceStatus_set_driver_ok status true).

(** [VirtioDevice::handshake], with the negotiation of the driver. *)
Definition VirtioDevice_handshake (negotiate : Z -> Z -> Z * Z) (negotiate_legacy : Z -> Z) (frame : option Z)
    : mmio HW Queue :=
  version ← mmio_read VERSION_OFFSET;
  _ ← VirtQueueConfig_handshake;
  _ ← (if negb (version =? VIRTIO_VERSION_LEGACY) then HandshakeBegin_modern negotiate
       else HandshakeBegin_legacy negotiate_legacy);
  q ← FeaturesNegotiated_setup_queue 0 RING_SIZE frame;
  _ ← QueuesReady_finish;
  mret q.

End Handshake.

(** ** The request cycle *)

(** A driver's device: its queue once it is configured, the memory it shares with
    the device, the hardware, and the frame the allocator has for the queue. *)
Record VirtioState (HW : Type) : Type := mkVirtio {
  vs_queue : option Queue; vs_mem : Z -> Z; vs_hw : HW; vs_frame : option Z
}.
Arguments mkVirtio {HW} _ _ _ _.
Arguments vs_queue {HW} _.
Arguments vs_mem {HW} _.
Arguments vs_hw {HW} _.
Arguments vs_frame {HW} _.

Section Cycle.
Context {HW : Type} `{VirtioHw HW}.

(** The polling loop, at most [fuel] rounds. *)
Fixpoint VirtQueue_wait_used (fuel : nat) (last_used : Z) (hw : HW) (q : Queue) (mem : Z -> Z)
    : outcome (UsedElement * (HW * Queue * (Z -> Z))) :=
  if negb (used_idx q =? last_used) then
    let slot := Z.to_nat (wrap 16 (used_idx q - 1) mod RING_SIZE) in
    elem ← expect (used_ring q !! slot);
    mret (elem, (hw, q, mem))
  else
    match fuel with
    | O => Panic
    | S fuel => let '(hw, q, mem) := hw_poll hw q mem in VirtQueue_wait_used fuel last_used hw q mem
    end.

(** [queue]: the configured queue, after a handshake when there is none. *)
Definition VirtioDevice_queue (negotiate : Z -> Z -> Z * Z) (negotiate_legacy : Z -> Z) (s : VirtioState HW)
    : result DevError Queue * VirtioState HW :=
  match vs_queue s with
  | Some q => (Ok q, s)
  | None =>
      match VirtioDevice_handshake negotiate negotiate_legacy (vs_frame s) (vs_hw s) with
      | (Ok q, hw) => (Ok q, mkVirtio (Some q) (vs_mem s) hw (vs_frame s))
      | (Err e, hw) => (Err e, mkVirtio None (vs_mem s) hw (vs_frame s))
      end
  end.

Definition VirtioDevice_submit (negotiate : Z -> Z -> Z * Z) (negotiate_legacy : Z -> Z)
    (configure : Queue -> Queue) (s : VirtioState HW) : outcome (result DevError UsedElement * VirtioState HW) :=
  match VirtioDevice_queue negotiate negotiate_legacy s with
  | (Err e, s) => mret (Err e, s)
  | (Ok q, s) =>
      let q := configure q in
      let (last_used, q) := VirtQueue_post_avail q 0 in
      let hw := hw_write QUEUE_NOTIFY_OFFSET 0 (vs_hw s) in
      '(elem, (hw, q, mem)) ← VirtQueue_wait_used hw_patience last_used hw q (vs_mem s);
      mret (Ok elem, mkVirtio (Some q) mem hw (vs_frame s))
  end.

End Cycle.
