(* ===== verification/VirtioBlk.v ===== *)
(** * VirtioBlk: the block driver ([src/driver/virtio_blk.rs])

    Reads and writes at any byte offset on top of requests for whole sectors. A
    request is a chain of three descriptors (header, data, status) in the queue
    of the device. [BlkHw] says what a virtio block device does with such a
    chain; the driver is then a [DiskLaws] device, which is the interface the
    file system is verified against. *)

From S2P Require Import Prelude BitFields Abi Bytes Disk Virtio.

Definition VIRTIO_BLK_T_IN : Z := 0.
Definition VIRTIO_BLK_T_OUT : Z := 1.
Definition VIRTIO_BLK_S_OK : Z := 0.
Definition SECTOR_SIZE : Z := 512.

(** [VirtioBlkReq], 16 bytes in memory. *)
Record VirtioBlkReq : Type := mkReq { request_type : Z; req_reserved : Z; req_sector : Z }.

Definition VirtioBlkReq_bytes (r : VirtioBlkReq) : list Z :=
  to_le_bytes 4 (request_type r) ++ to_le_bytes 4 (req_reserved r) ++ to_le_bytes 8 (req_sector r).

Definition VirtioBlk_negotiate (features_low features_high : Z) : Z * Z :=
  if negb (Z.land features_high 1 =? 0) then (0, 1) else (0, 0).

(** The default of the trait. *)
Definition VirtioBlk_negotiate_legacy (features : Z) : Z := 0.

(** Where the header, the status byte and the data buffer of a request are in
    memory. *)
Record ReqFrame : Type := mkFrame { rf_req : Z; rf_status : Z; rf_data : Z }.

Section Driver.
Context {HW : Type} `{VirtioHw HW} (fr : ReqFrame).

Definition configure_request (data_len : Z) (data_write : bool) (q : Queue) : Queue :=
  let flags := Flags_set_next Flags_new true in
  let q := set_desc q 0 (mkDesc (rf_req fr) 16 flags 1) in
  let flags := Flags_set_write (Flags_set_next Flags_new true) data_write in
  let q := set_desc q 1 (mkDesc (rf_data fr) (wrap 32 data_len) flags 2) in
  let flags := Flags_set_write Flags_new true in
  set_desc q 2 (mkDesc (rf_status fr) 1 flags 0).

(** One request: the buffers are put in memory, the request is submitted, the
    status is checked. The result is the data buffer afterwards. *)
Definition submit_request (req_type sector : Z) (data : list Z) (data_write : bool) : io (VirtioState HW) (list Z) := fun s =>
  let req := mkReq req_type 0 sector in
  let mem := splice (vs_mem s) (rf_req fr) (VirtioBlkReq_bytes req) in
  let mem := splice mem (rf_status fr) [wnot 8 VIRTIO_BLK_S_OK] in
  let mem := splice mem (rf_data fr) data in
  let s := mkVirtio (vs_queue s) mem (vs_hw s) (vs_frame s) in
  '(r, s) ← VirtioDevice_submit VirtioBlk_negotiate VirtioBlk_negotiate_legacy
              (configure_request (Z.of_nat (length data)) data_write) s;
  mret (match r with
        | Err _ => Err IoError_NotReady
        | Ok elem =>
            if negb (ue_id elem =? 0) then Err IoError_Request
            else if negb (vs_mem s (rf_status fr) =? VIRTIO_BLK_S_OK) then Err IoError_Request
            else Ok (slice (vs_mem s) (rf_data fr) (Z.of_nat (length data)))
        end, s).

(** A fresh sector buffer. *)
Definition zero_sector : list Z := replicate 512 0.

(** The loop of [read_at]: [out] is the part of the buffer that is filled. Every
    round fills at least a byte, so [fuel] is the number of bytes left. *)
Fixpoint VirtioBlk_read_loop (fuel : nat) (offset done len : Z) (out : list Z) : io (VirtioState HW) (list Z) :=
  match fuel with
  | O => mret out
  | S fuel =>
      if done <? len then
        pos ← io_pure (usize_add offset done);
        let sector := pos / SECTOR_SIZE in
        let shift := pos mod SECTOR_SIZE in
        sector_buf ← submit_request VIRTIO_BLK_T_IN sector zero_sector true;
        let n := Z.min (SECTOR_SIZE - shift) (len - done) in
        VirtioBlk_read_loop fuel offset (done + n) len
          (out ++ take (Z.to_nat n) (drop (Z.to_nat shift) sector_buf))
      else mret out
  end.

Definition VirtioBlk_read_at (buf : list Z) (offset : Z) : io (VirtioState HW) (Z * list Z) :=
  out ← VirtioBlk_read_loop (length buf) offset 0 (Z.of_nat (length buf)) [];
  mret (Z.of_nat (length out), out).

(** The loop of [write_at]. *)
Fixpoint VirtioBlk_write_loop (fuel : nat) (buf : list Z) (offset done : Z) : io (VirtioState HW) Z :=
  match fuel with
  | O => mret done
  | S fuel =>
      if done <? Z.of_nat (length buf) then
        pos ← io_pure (usize_add offset done);
        let sector := pos / SECTOR_SIZE in
        let shift := pos mod SECTOR_SIZE in
        let n := Z.min (SECTOR_SIZE - shift) (Z.of_nat (length buf) - done) in
        let part := take (Z.to_nat n) (drop (Z.to_nat done) buf) in
        _ ← (if (shift =? 0) && (n =? SECTOR_SIZE) then
               _ ← submit_request VIRTIO_BLK_T_OUT sector part false; mret ()
             else
               sector_buf ← submit_request VIRTIO_BLK_T_IN sector zero_sector true;
               let sector_buf := take (Z.to_nat shift) sector_buf ++ part ++ drop (Z.to_nat shift + length part) sector_buf in
               _ ← submit_request VIRTIO_BLK_T_OUT sector sector_buf false; mret ());
        VirtioBlk_write_loop fuel buf offset (done + n)
      else mret done
  end.

Definition VirtioBlk_write_at (buf : list Z) (offset : Z) : io (VirtioState HW) Z :=
  VirtioBlk_write_loop (length buf) buf offset 0.

End Driver.

(** ** What a virtio block device does *)

Section Device.
Context {HW : Type} `{VirtioHw HW}.

(** The effect of [k] polls. *)
Fixpoint polls (k : nat) (x : HW * Queue * (Z -> Z)) : HW * Queue * (Z -> Z) :=
  match k with O => x | S k => polls k (hw_poll x.1.1 x.1.2 x.2) end.

(** A queue with room for everything, all of whose requests are done. *)
Record ready (q : Queue) : Prop := {
  rd_desc : length (desc q) = 256%nat;
  rd_avail : length (avail_ring q) = 256%nat;
  rd_used : length (used_ring q) = 256%nat;
  rd_idx : fits 16 (used_idx q);
  rd_done : avail_idx q = used_idx q
}.

(** One published request, whose chain starts at descriptor [head]. *)
Record pending (q : Queue) (head : Z) : Prop := {
  pd_avail : length (avail_ring q) = 256%nat;
  pd_used : length (used_ring q) = 256%nat;
  pd_idx : fits 16 (used_idx q);
  pd_one : avail_idx q = wrap 16 (used_idx q + 1);
  pd_head : avail_ring q !! Z.to_nat (used_idx q mod RING_SIZE) = Some head
}.

(** The chain of a block request: a header to read, the data, a status byte to
    write. *)
Record request_chain (q : Queue) (head : Z) (hdr dat st : VirtQueueDescriptor) : Prop := {
  rc_hdr : desc q !! Z.to_nat head = Some hdr /\ vq_len hdr = 16 /\
    Flags_next (vq_flags hdr) = true /\ Flags_write (vq_flags hdr) = false;
  rc_dat : desc q !! Z.to_nat (vq_next hdr) = Some dat /\ vq_len dat = SECTOR_SIZE /\
    Flags_next (vq_flags dat) = true;
  rc_st : desc q !! Z.to_nat (vq_next dat) = Some st /\ vq_len st = 1 /\
    Flags_next (vq_flags st) = false /\ Flags_write (vq_flags st) = true;
  rc_apart : vq_addr st < vq_addr dat \/ vq_addr dat + SECTOR_SIZE <= vq_addr st
}.

(** The queue after the device has put the chain into the used ring. *)
Definition completed (q : Queue) (head n : Z) : Queue :=
  mkQueue (desc q) (avail_idx q) (avail_ring q) (wrap 16 (used_idx q + 1))
    (<[Z.to_nat (used_idx q mod RING_SIZE) := mkUsed head n]> (used_ring q)).

(** After some polls within the patience of the driver, and not before, the
    request is in the used ring and memory is [mem']. *)
Definition served (h : HW) (q : Queue) (mem : Z -> Z) (head : Z) (h' : HW) (mem' : Z -> Z) : Prop :=
  exists k n, (k <= hw_patience)%nat /\
    (forall j, (j < k)%nat -> used_idx (polls j (h, q, mem)).1.2 = used_idx q) /\
    (polls k (h, q, mem)).1 = (h', completed q head n) /\
    forall i, (polls k (h, q, mem)).2 i = mem' i.

Definition header_type (mem : Z -> Z) (addr : Z) : Z := from_le_bytes (slice mem addr 4).
Definition header_sector (mem : Z -> Z) (addr : Z) : Z := from_le_bytes (slice mem (addr + 8) 8).

End Device.

Class BlkHw (HW : Type) `{VirtioHw HW} := {
  blk_sectors : HW -> Z;
  blk_byte : HW -> Z -> Z;
  blk_is_byte h i : is_byte (blk_byte h i);
  blk_size h : 0 <= blk_sectors h * SECTOR_SIZE < 2 ^ 64;
  blk_notify h : blk_sectors (hw_write QUEUE_NOTIFY_OFFSET 0 h) = blk_sectors h /\
    forall i, blk_byte (hw_write QUEUE_NOTIFY_OFFSET 0 h) i = blk_byte h i;
  blk_in h q mem head hdr dat st :
    pending q head -> request_chain q head hdr dat st -> Flags_write (vq_flags dat) = true ->
    header_type mem (vq_addr hdr) = VIRTIO_BLK_T_IN -> header_sector mem (vq_addr hdr) < blk_sectors h ->
    exists h', served h q mem head h'
        (splice (splice mem (vq_addr dat) (slice (blk_byte h) (header_sector mem (vq_addr hdr) * SECTOR_SIZE) SECTOR_SIZE))
           (vq_addr st) [VIRTIO_BLK_S_OK]) /\
      blk_sectors h' = blk_sectors h /\ forall i, blk_byte h' i = blk_byte h i;
  blk_out h q mem head hdr dat st :
    pending q head -> request_chain q head hdr dat st -> Flags_write (vq_flags dat) = false ->
    header_type mem (vq_addr hdr) = VIRTIO_BLK_T_OUT -> header_sector mem (vq_addr hdr) < blk_sectors h ->
    bytes (slice mem (vq_addr dat) SECTOR_SIZE) ->
    exists h', served h q mem head h' (splice mem (vq_addr st) [VIRTIO_BLK_S_OK]) /\
      blk_sectors h' = blk_sectors h /\
      forall i, blk_byte h' i =
        splice (blk_byte h) (header_sector mem (vq_addr hdr) * SECTOR_SIZE) (slice mem (vq_addr dat) SECTOR_SIZE) i
}.

(** ** One request *)

Lemma io_bind_Ok {D A B} (m : io D A) (k : A -> io D B) d a d' : m d = Ret (Ok a, d') -> (m ≫= k) d = k a d'.
Proof. intros E. unfold mbind, io_bind. by rewrite E. Qed.

(** The three buffers of a request do not overlap. *)
Definition frame_apart (fr : ReqFrame) : Prop :=
  (rf_req fr + 16 <= rf_status fr \/ rf_status fr < rf_req fr) /\
  (rf_req fr + 16 <= rf_data fr \/ rf_data fr + 512 <= rf_req fr) /\
  (rf_status fr < rf_data fr \/ rf_data fr + 512 <= rf_status fr).

Lemma wait_ok {HW} `{VirtioHw HW} k fuel h q mem h' q' mem' last :
  (k <= fuel)%nat -> (forall j, (j < k)%nat -> used_idx (polls j (h, q, mem)).1.2 = last) ->
  polls k (h, q, mem) = (h', q', mem') -> used_idx q' <> last ->
  VirtQueue_wait_used fuel last h q mem =
    (elem ← expect (used_ring q' !! Z.to_nat (wrap 16 (used_idx q' - 1) mod RING_SIZE)); mret (elem, (h', q', mem'))).
Proof.
  revert fuel h q mem. induction k as [|k IH]; intros fuel h q mem Hk Hj E Hne.
  - injection E as -> -> ->. destruct fuel; cbn [VirtQueue_wait_used]; by rewrite (proj2 (Z.eqb_neq _ _) Hne).
  - destruct fuel as [|fuel]; [lia|]. cbn [VirtQueue_wait_used].
    pose proof (Hj 0%nat ltac:(lia)) as H0. cbn [polls fst snd] in H0. rewrite (proj2 (Z.eqb_eq _ _) H0). cbn [negb]. cbn [polls fst snd] in E.
    destruct (hw_poll h q mem) as [[h1 q1] mem1] eqn:Ep.
    apply IH; [lia| |done|done]. intros j Hjk. specialize (Hj (S j) ltac:(lia)). cbn [polls fst snd] in Hj. by rewrite Ep in Hj.
Qed.

Lemma served_wait {HW} `{VirtioHw HW} h q mem head h' mem' : pending q head -> served h q mem head h' mem' ->
  exists n mem2, VirtQueue_wait_used hw_patience (used_idx q) h q mem = Ret (mkUsed head n, (h', completed q head n, mem2)) /\
    forall i, mem2 i = mem' i.
Proof.
  intros [Ha Hu Hi H1 Hh] (k & n & Hk & Hbefore & E & Em). exists n, (polls k (h, q, mem)).2. split; [|done].
  destruct (polls k (h, q, mem)) as [[h1 q1] mem1] eqn:Ep. cbn [fst snd] in *. injection E as -> ->.
  rewrite (wait_ok k hw_patience h q mem h' (completed q head n) mem1 (used_idx q)); try done.
  - cbn [completed used_idx used_ring]. unfold wrap, fits, RING_SIZE in *.
    replace (((used_idx q + 1) mod 2 ^ 16 - 1) mod 2 ^ 16) with (used_idx q) by lia.
    by rewrite list_lookup_insert_eq by lia.
  - cbn [completed used_idx]. unfold wrap, fits in *. lia.
Qed.

(** The queue that the driver publishes. *)
Lemma configured_pending fr q w : ready q ->
  pending (VirtQueue_post_avail (configure_request fr SECTOR_SIZE w q) 0).2 0.
Proof.
  intros [Hd Ha Hu Hi Hdone]. split; cbn; try done.
  - by rewrite length_insert.
  - by rewrite Hdone.
  - rewrite Hdone. apply list_lookup_insert_eq. unfold RING_SIZE. lia.
Qed.

Lemma configured_chain fr q w : ready q -> frame_apart fr ->
  exists hdr dat st, request_chain (VirtQueue_post_avail (configure_request fr SECTOR_SIZE w q) 0).2 0 hdr dat st /\
    vq_addr hdr = rf_req fr /\ vq_addr dat = rf_data fr /\ vq_addr st = rf_status fr /\ Flags_write (vq_flags dat) = w.
Proof.
  intros [Hd _ _ _ _] (_ & _ & Hap).
  eexists (mkDesc _ _ _ _), (mkDesc _ _ _ _), (mkDesc _ _ _ _). split; [split|].
  - cbn [VirtQueue_post_avail snd desc configure_request set_desc].
    rewrite !list_lookup_insert_ne by (cbn; lia). rewrite list_lookup_insert_eq by (cbn; lia). done.
  - cbn [VirtQueue_post_avail snd desc configure_request set_desc vq_next].
    rewrite !list_lookup_insert_ne by (cbn; lia). rewrite list_lookup_insert_eq by (rewrite ?length_insert; cbn; lia).
    split; [done|]. split; [done|]. by destruct w.
  - cbn [VirtQueue_post_avail snd desc configure_request set_desc vq_next].
    rewrite list_lookup_insert_eq by (rewrite ?length_insert; cbn; lia). done.
  - cbn [vq_addr]. unfold SECTOR_SIZE. lia.
  - cbn [vq_addr vq_flags]. split; [done|]. split; [done|]. split; [done|]. by destruct w.
Qed.

(** Memory with the buffers of a request in it. *)
Definition prepared (fr : ReqFrame) (mem : Z -> Z) (ty sector : Z) (data : list Z) : Z -> Z :=
  splice (splice (splice mem (rf_req fr) (VirtioBlkReq_bytes (mkReq ty 0 sector))) (rf_status fr) [wnot 8 VIRTIO_BLK_S_OK])
    (rf_data fr) data.

Lemma prepared_ok fr mem ty sector data : frame_apart fr -> length data = 512%nat ->
  0 <= ty < 2 ^ 32 -> 0 <= sector < 2 ^ 64 ->
  header_type (prepared fr mem ty sector data) (rf_req fr) = ty /\
  header_sector (prepared fr mem ty sector data) (rf_req fr) = sector /\
  slice (prepared fr mem ty sector data) (rf_data fr) SECTOR_SIZE = data.
Proof.
  intros (H1 & H2 & H3) Hl Ht Hs. unfold prepared, header_type, header_sector.
  set (rb := VirtioBlkReq_bytes (mkReq ty 0 sector)).
  assert (Erb : rb = to_le_bytes 4 ty ++ to_le_bytes 4 0 ++ to_le_bytes 8 sector) by done.
  assert (Hrb : length rb = 16%nat) by (rewrite Erb, !length_app, !to_le_bytes_length; done).
  assert (Hin : forall k n, 0 <= k -> 0 <= n -> k + n <= 16 ->
    slice (splice (splice (splice mem (rf_req fr) rb) (rf_status fr) [wnot 8 VIRTIO_BLK_S_OK]) (rf_data fr) data) (rf_req fr + k) n =
    take (Z.to_nat n) (drop (Z.to_nat k) rb)).
  { intros k n Hk Hn Hkn. rewrite !slice_splice_out by (cbn [length]; lia). apply slice_splice_in; lia. }
  split; [|split].
  - pose proof (Hin 0 4 ltac:(lia) ltac:(lia) ltac:(lia)) as E. rewrite Z.add_0_r in E. rewrite E. change (Z.to_nat 0) with 0%nat. rewrite drop_0, Erb.
    rewrite take_app_length' by (by rewrite to_le_bytes_length). apply from_to_le_bytes. lia.
  - rewrite (Hin 8 8) by lia. rewrite Erb.
    rewrite app_assoc, drop_app_length' by (by rewrite length_app, !to_le_bytes_length).
    rewrite take_ge by (rewrite to_le_bytes_length; lia). apply from_to_le_bytes. lia.
  - apply slice_splice_eq. unfold SECTOR_SIZE. lia.
Qed.

Section Requests.
Context {HW : Type} `{BlkHw HW} (fr : ReqFrame) (Hfr : frame_apart fr).

Definition ready_state (s : VirtioState HW) : Prop := exists q, vs_queue s = Some q /\ ready q.

Lemma submit_ok s q ty sector data w h' mem' :
  vs_queue s = Some q -> ready q -> length data = 512%nat ->
  served (hw_write QUEUE_NOTIFY_OFFSET 0 (vs_hw s)) (VirtQueue_post_avail (configure_request fr SECTOR_SIZE w q) 0).2
    (prepared fr (vs_mem s) ty sector data) 0 h' mem' ->
  mem' (rf_status fr) = VIRTIO_BLK_S_OK ->
  exists s', submit_request fr ty sector data w s = Ret (Ok (slice mem' (rf_data fr) SECTOR_SIZE), s') /\
    vs_hw s' = h' /\ ready_state s'.
Proof.
  intros Hq Hr Hl Hserved Hst. pose proof (configured_pending fr q w Hr) as Hp.
  destruct (served_wait _ _ _ _ _ _ Hp Hserved) as (n & mem2 & Ew & Em).
  assert (El : Z.of_nat (length data) = SECTOR_SIZE) by (rewrite Hl; done).
  eexists. split; [|split].
  - unfold submit_request, VirtioDevice_submit, VirtioDevice_queue. cbn [vs_queue vs_mem vs_hw]. rewrite Hq, El.
    cbn beta iota zeta. rewrite (surjective_pairing (VirtQueue_post_avail _ 0)).
    change (VirtQueue_post_avail (configure_request fr SECTOR_SIZE w q) 0).1 with
      (used_idx (VirtQueue_post_avail (configure_request fr SECTOR_SIZE w q) 0).2).
    change (splice (splice (splice (vs_mem s) (rf_req fr) _) (rf_status fr) _) (rf_data fr) data) with
      (prepared fr (vs_mem s) ty sector data).
    cbn [vs_hw vs_mem]. rewrite Ew, !outcome_bind_Ret. cbn [fst snd vs_mem ue_id]. rewrite Em, Hst. cbn [Z.eqb negb].
    rewrite (slice_ext mem2 mem') by (intros; apply Em). reflexivity.
  - done.
  - eexists. split; [reflexivity|]. destruct Hr as [R1 R2 R3 R4 R5]. split; cbn.
    + by rewrite !length_insert.
    + by rewrite length_insert.
    + by rewrite length_insert.
    + unfold wrap, fits in *. lia.
    + by rewrite R5.
Qed.

(** The device has [n] sectors with contents [f] and waits for requests. *)
Definition holds (n : Z) (s : VirtioState HW) (f : Z -> Z) : Prop :=
  ready_state s /\ blk_sectors (vs_hw s) = n /\ forall i, blk_byte (vs_hw s) i = f i.

Lemma blk_sectors_range h : 0 <= blk_sectors h < 2 ^ 64.
Proof. pose proof (blk_size h). unfold SECTOR_SIZE in *. lia. Qed.

Lemma submit_in n s f sector : holds n s f -> 0 <= sector < n ->
  exists s', submit_request fr VIRTIO_BLK_T_IN sector zero_sector true s =
      Ret (Ok (slice f (sector * SECTOR_SIZE) SECTOR_SIZE), s') /\ holds n s' f.
Proof.
  intros ((q & Hq & Hr) & Hn & Hf) Hs. destruct (blk_notify (vs_hw s)) as [Hns Hnb].
  pose proof (blk_sectors_range (vs_hw s)).
  destruct (configured_chain fr q true Hr Hfr) as (hdr & dat & st & Hc & Eh & Ed & Es & Ew).
  assert (Hz : length zero_sector = 512%nat) by apply length_replicate.
  destruct (prepared_ok fr (vs_mem s) VIRTIO_BLK_T_IN sector zero_sector Hfr Hz ltac:(unfold VIRTIO_BLK_T_IN; lia) ltac:(lia))
    as (Ety & Ese & _).
  destruct (blk_in (hw_write QUEUE_NOTIFY_OFFSET 0 (vs_hw s)) _ (prepared fr (vs_mem s) VIRTIO_BLK_T_IN sector zero_sector)
    0 hdr dat st (configured_pending fr q true Hr) Hc Ew) as (h' & Hserved & Hs' & Hb').
  { by rewrite Eh. }
  { rewrite Eh, Ese. lia. }
  rewrite Eh, Ed, Es, Ese in Hserved.
  destruct (submit_ok s q _ _ _ _ _ _ Hq Hr Hz Hserved) as (s' & E & Eh' & Hr').
  { apply splice_here. }
  exists s'. split.
  - rewrite E. do 3 f_equal. destruct Hfr as (_ & _ & Hap).
    rewrite slice_splice_out by (cbn [length]; unfold SECTOR_SIZE; lia).
    rewrite slice_splice_eq by (rewrite length_slice; unfold SECTOR_SIZE; lia).
    apply slice_ext. intros i _. by rewrite Hnb.
  - split; [done|]. rewrite Eh', Hs', Hns. split; [done|]. intros i. by rewrite Hb', Hnb.
Qed.

Lemma submit_out n s f sector data : holds n s f -> 0 <= sector < n -> length data = 512%nat -> bytes data ->
  exists s', submit_request fr VIRTIO_BLK_T_OUT sector data false s = Ret (Ok data, s') /\
    holds n s' (splice f (sector * SECTOR_SIZE) data).
Proof.
  intros ((q & Hq & Hr) & Hn & Hf) Hs Hl Hby. destruct (blk_notify (vs_hw s)) as [Hns Hnb].
  pose proof (blk_sectors_range (vs_hw s)).
  destruct (configured_chain fr q false Hr Hfr) as (hdr & dat & st & Hc & Eh & Ed & Es & Ew).
  destruct (prepared_ok fr (vs_mem s) VIRTIO_BLK_T_OUT sector data Hfr Hl ltac:(unfold VIRTIO_BLK_T_OUT; lia) ltac:(lia))
    as (Ety & Ese & Eda).
  destruct (blk_out (hw_write QUEUE_NOTIFY_OFFSET 0 (vs_hw s)) _ (prepared fr (vs_mem s) VIRTIO_BLK_T_OUT sector data)
    0 hdr dat st (configured_pending fr q false Hr) Hc Ew) as (h' & Hserved & Hs' & Hb').
  { by rewrite Eh. }
  { rewrite Eh, Ese. lia. }
  { by rewrite Ed, Eda. }
  rewrite Es in Hserved. rewrite Eh, Ed, Ese, Eda in Hb'.
  destruct (submit_ok s q _ _ _ _ _ _ Hq Hr Hl Hserved) as (s' & E & Eh' & Hr').
  { apply splice_here. }
  exists s'. split.
  - rewrite E. do 3 f_equal. destruct Hfr as (_ & _ & Hap).
    by rewrite slice_splice_out by (cbn [length]; unfold SECTOR_SIZE; lia).
  - split; [done|]. rewrite Eh', Hs', Hns. split; [done|]. intros i. rewrite Hb'. unfold splice.
    case_match; [done|]. by rewrite Hnb.
Qed.

(** ** Reads and writes at any offset *)

Lemma read_loop_ok n f offset len fuel done out s :
  holds n s f -> 0 <= offset -> 0 <= done <= len -> offset + len <= n * SECTOR_SIZE -> len - done <= Z.of_nat fuel ->
  exists s', VirtioBlk_read_loop fr fuel offset done len out s = Ret (Ok (out ++ slice f (offset + done) (len - done)), s') /\
    holds n s' f.
Proof.
  revert done out s. induction fuel as [|fuel IH]; intros done out s Hh Ho Hd Hb Hfuel.
  { exists s. split; [|done]. unfold slice. rewrite seqZ_nil by lia. cbn. by rewrite app_nil_r. }
  cbn [VirtioBlk_read_loop]. destruct (Z.ltb_spec done len) as [Hlt|Hge].
  2: { exists s. split; [|done]. unfold slice. rewrite seqZ_nil by lia. cbn. by rewrite app_nil_r. }
  assert (Hn : n * SECTOR_SIZE < 2 ^ 64) by (destruct Hh as (_ & <- & _); apply blk_size).
  unfold mbind at 1, io_bind at 1, io_pure, usize_add. destruct (Z.ltb_spec (offset + done) (2 ^ 64)); [|lia].
  set (pos := offset + done) in *. set (k := Z.min _ _).
  destruct (submit_in n s f (pos / SECTOR_SIZE) Hh) as (s1 & E & Hh1).
  { unfold SECTOR_SIZE in *. split; [apply Z.div_pos; lia|]. apply Z.div_lt_upper_bound; lia. }
  unfold mbind, io_bind. rewrite E.
  assert (Hk : 1 <= k <= len - done /\ pos mod SECTOR_SIZE + k <= SECTOR_SIZE) by (unfold k, SECTOR_SIZE; lia).
  destruct (IH (done + k) (out ++ take (Z.to_nat k) (drop (Z.to_nat (pos mod SECTOR_SIZE))
    (slice f (pos / SECTOR_SIZE * SECTOR_SIZE) SECTOR_SIZE))) s1 Hh1 Ho ltac:(lia) Hb ltac:(lia)) as (s' & E' & Hh').
  exists s'. split; [|done]. rewrite E'. do 3 f_equal. rewrite <- app_assoc. f_equal.
  replace (len - done) with (k + (len - (done + k))) by lia. rewrite slice_app by lia. f_equal; [|unfold pos; f_equal; lia].
  set (a := pos mod SECTOR_SIZE) in *. assert (Epos : pos = pos / SECTOR_SIZE * SECTOR_SIZE + a) by (unfold a, SECTOR_SIZE; lia).
  assert (0 <= a) by (unfold a, SECTOR_SIZE; lia).
  rewrite Epos at 2. set (base := pos / SECTOR_SIZE * SECTOR_SIZE) in *. clearbody a base k.
  replace SECTOR_SIZE with (a + (k + (SECTOR_SIZE - a - k))) by lia. rewrite !slice_app by lia.
  pose proof (length_slice f base a). pose proof (length_slice f (base + a) k).
  rewrite drop_app_length' by lia. by rewrite take_app_length' by lia.
Qed.

(** One round of [write_at]: whole sectors are written directly, others are read
    first and written back with the part replaced. *)
Lemma write_part_ok n s f sector shift part :
  holds n s f -> (forall i, is_byte (f i)) -> 0 <= sector < n -> 0 <= shift -> bytes part ->
  shift + Z.of_nat (length part) <= SECTOR_SIZE ->
  exists s', (if (shift =? 0) && (Z.of_nat (length part) =? SECTOR_SIZE) then
       _ ← submit_request fr VIRTIO_BLK_T_OUT sector part false; mret ()
     else
       sector_buf ← submit_request fr VIRTIO_BLK_T_IN sector zero_sector true;
       let sector_buf := take (Z.to_nat shift) sector_buf ++ part ++ drop (Z.to_nat shift + length part) sector_buf in
       _ ← submit_request fr VIRTIO_BLK_T_OUT sector sector_buf false; mret ()) s = Ret (Ok (), s') /\
    holds n s' (splice f (sector * SECTOR_SIZE + shift) part).
Proof.
  intros Hh Hf Hs Hsh Hp Hle. destruct (_ && _) eqn:E.
  - apply andb_true_iff in E as [E1%Z.eqb_eq E2%Z.eqb_eq]. rewrite E1, Z.add_0_r.
    destruct (submit_out n s f sector part Hh Hs) as (s' & Eo & Hh'); [unfold SECTOR_SIZE in *; lia|done|].
    exists s'. split; [|done]. unfold mbind, io_bind. by rewrite Eo.
  - destruct (submit_in n s f sector Hh Hs) as (s1 & Ei & Hh1). unfold mbind, io_bind. rewrite Ei. cbn zeta.
    set (old := slice f (sector * SECTOR_SIZE) SECTOR_SIZE).
    assert (Hold : length old = 512%nat) by (pose proof (length_slice f (sector * SECTOR_SIZE) SECTOR_SIZE); unfold old, SECTOR_SIZE in *; lia).
    assert (Hby : bytes old) by (by apply slice_bytes).
    destruct (submit_out n s1 f sector (take (Z.to_nat shift) old ++ part ++ drop (Z.to_nat shift + length part) old) Hh1 Hs)
      as (s2 & Eo & Hr & Hn & Hc).
    { rewrite !length_app, length_take, length_drop. unfold SECTOR_SIZE in *. lia. }
    { apply Forall_app. split; [by apply Forall_take|]. apply Forall_app. split; [done|by apply Forall_drop]. }
    rewrite Eo. exists s2. split; [done|]. split; [done|]. split; [done|]. intros i. rewrite Hc. unfold old. by apply splice_patch.
Qed.

Lemma write_loop_ok n buf offset fuel done f s :
  bytes buf -> 0 <= offset -> offset + Z.of_nat (length buf) <= n * SECTOR_SIZE ->
  holds n s f -> (forall i, is_byte (f i)) -> 0 <= done <= Z.of_nat (length buf) -> Z.of_nat (length buf) - done <= Z.of_nat fuel ->
  exists s', VirtioBlk_write_loop fr fuel buf offset done s = Ret (Ok (Z.of_nat (length buf)), s') /\
    holds n s' (splice f (offset + done) (drop (Z.to_nat done) buf)).
Proof.
  intros Hby Ho Hb. revert done f s. induction fuel as [|fuel IH]; intros done f s Hh Hf Hd Hfuel.
  { exists s. assert (done = Z.of_nat (length buf)) as -> by lia. split; [done|].
    destruct Hh as (Hr & Hn & Hc). split; [done|]. split; [done|]. intros i. rewrite Hc.
    symmetry. apply splice_out. rewrite length_drop. lia. }
  cbn [VirtioBlk_write_loop]. destruct (Z.ltb_spec done (Z.of_nat (length buf))) as [Hlt|Hge].
  2: { exists s. assert (done = Z.of_nat (length buf)) as -> by lia. split; [done|].
    destruct Hh as (Hr & Hn & Hc). split; [done|]. split; [done|]. intros i. rewrite Hc.
    symmetry. apply splice_out. rewrite length_drop. lia. }
  assert (Hn : n * SECTOR_SIZE < 2 ^ 64) by (destruct Hh as (_ & <- & _); apply blk_size).
  unfold mbind at 1, io_bind at 1, io_pure, usize_add. destruct (Z.ltb_spec (offset + done) (2 ^ 64)); [|lia].
  set (pos := offset + done) in *. set (k := Z.min _ _).
  assert (Hk : 1 <= k <= Z.of_nat (length buf) - done /\ pos mod SECTOR_SIZE + k <= SECTOR_SIZE) by (unfold k, SECTOR_SIZE; lia).
  set (part := take (Z.to_nat k) (drop (Z.to_nat done) buf)).
  assert (Hpl : Z.of_nat (length part) = k) by (unfold part; rewrite length_take, length_drop; lia).
  assert (Hpb : bytes part) by (by apply Forall_take, Forall_drop).
  destruct (write_part_ok n s f (pos / SECTOR_SIZE) (pos mod SECTOR_SIZE) part Hh Hf) as (s1 & E & Hr1 & Hn1 & Hc1);
    [|unfold SECTOR_SIZE; lia|done|lia|].
  { unfold SECTOR_SIZE in *. split; [apply Z.div_pos; lia|]. apply Z.div_lt_upper_bound; lia. }
  rewrite Hpl in E. rewrite (io_bind_Ok _ _ _ _ _ E).
  replace (pos / SECTOR_SIZE * SECTOR_SIZE + pos mod SECTOR_SIZE) with pos in Hc1 by (unfold SECTOR_SIZE; lia).
  destruct (IH (done + k) (splice f pos part) s1) as (s' & E' & Hr' & Hn' & Hc'); [|by apply splice_is_byte|lia|lia|].
  { split; [done|]. split; [done|]. exact Hc1. }
  exists s'. split; [done|]. split; [done|]. split; [done|]. intros i. rewrite Hc'.
  replace (offset + (done + k)) with (pos + Z.of_nat (length part)) by (unfold pos; lia). rewrite splice_app.
  f_equal. unfold part. replace (Z.to_nat (done + k)) with (Z.to_nat done + Z.to_nat k)%nat by lia.
  rewrite <- drop_drop. apply take_drop.
Qed.

End Requests.

(** ** The driver is a disk *)

Section Laws.
Context {HW : Type} `{BlkHw HW} (fr : ReqFrame) (Hfr : frame_apart fr).

Lemma read_at_ok n s f buf offset : holds n s f -> 0 <= offset -> offset + Z.of_nat (length buf) <= n * SECTOR_SIZE ->
  exists s', VirtioBlk_read_at fr buf offset s =
      Ret (Ok (Z.of_nat (length buf), slice f offset (Z.of_nat (length buf))), s') /\ holds n s' f.
Proof.
  intros Hh Ho Hb. destruct (read_loop_ok fr Hfr n f offset (Z.of_nat (length buf)) (length buf) 0 [] s Hh Ho)
    as (s' & E & Hh'); [lia|done|lia|].
  exists s'. split; [|done]. unfold VirtioBlk_read_at. rewrite (io_bind_Ok _ _ _ _ _ E). cbn [app].
  rewrite Z.add_0_r, Z.sub_0_r, length_slice, Z.max_r by lia. done.
Qed.

Lemma write_at_ok n s f buf offset : holds n s f -> (forall i, is_byte (f i)) -> bytes buf ->
  0 <= offset -> offset + Z.of_nat (length buf) <= n * SECTOR_SIZE ->
  exists s', VirtioBlk_write_at fr buf offset s = Ret (Ok (Z.of_nat (length buf)), s') /\ holds n s' (splice f offset buf).
Proof.
  intros Hh Hf Hby Ho Hb. destruct (write_loop_ok fr Hfr n buf offset (length buf) 0 f s Hby Ho Hb Hh Hf) as (s' & E & Hh'); [lia|lia|].
  exists s'. split; [done|]. by rewrite Z.add_0_r in Hh'.
Qed.

Definition readyb (q : Queue) : bool :=
  (length (desc q) =? 256)%nat && (length (avail_ring q) =? 256)%nat && (length (used_ring q) =? 256)%nat &&
  (0 <=? used_idx q) && (used_idx q <? 2 ^ 16) && (avail_idx q =? used_idx q).

Lemma readyb_spec q : readyb q = true <-> ready q.
Proof.
  unfold readyb. rewrite !andb_true_iff, !Nat.eqb_eq, Z.leb_le, Z.ltb_lt, Z.eqb_eq. split.
  - intros [[[[[H1 H2] H3] H4] H5] H6]. by split.
  - intros [H1 H2 H3 [H4 H5] H6]. done.
Qed.

Definition VirtioBlk_device : BlockDevice (VirtioState HW) := {|
  dev_read_at := VirtioBlk_read_at fr;
  dev_write_at := VirtioBlk_write_at fr
|}.

(** The bytes that can be reached: none before the queue is configured. *)
Definition VirtioBlk_size (s : VirtioState HW) : Z :=
  match vs_queue s with Some q => if readyb q then blk_sectors (vs_hw s) * SECTOR_SIZE else 0 | None => 0 end.

Lemma size_holds s off len : 0 <= off -> 0 < len -> off + len <= VirtioBlk_size s ->
  exists n, VirtioBlk_size s = n * SECTOR_SIZE /\ holds n s (blk_byte (vs_hw s)).
Proof.
  unfold VirtioBlk_size. intros Ho Hl Hs. destruct (vs_queue s) as [q|] eqn:Eq; [|lia]. destruct (readyb q) eqn:Er; [|lia].
  exists (blk_sectors (vs_hw s)). split; [done|]. split; [|done]. exists q. split; [done|]. by apply readyb_spec.
Qed.

Lemma holds_size n s f : holds n s f -> VirtioBlk_size s = n * SECTOR_SIZE.
Proof.
  intros ((q & Eq & Hr) & <- & _). unfold VirtioBlk_size. rewrite Eq. by rewrite (proj2 (readyb_spec q) Hr).
Qed.

#[program]
Definition VirtioBlk_laws : @DiskLaws (VirtioState HW) VirtioBlk_device := {|
  disk_size := VirtioBlk_size;
  disk_byte s := blk_byte (vs_hw s)
|}.
Next Obligation. intros s i. apply blk_is_byte. Qed.
Next Obligation.
  intros s buf off Ho Hb. cbn. destruct buf as [|b buf].
  { exists s. split; [|done]. done. }
  destruct (size_holds s off (Z.of_nat (length (b :: buf)))) as (n & En & Hh); [done|cbn; lia|done|]. rewrite En in *.
  destruct (read_at_ok n s _ (b :: buf) off Hh Ho Hb) as (s' & E & Hh'). exists s'. split; [done|].
  split; [by apply (holds_size _ _ _ Hh')|]. intros i _. apply Hh'.
Qed.
Next Obligation.
  intros s buf off Ho Hb Hby. cbn. destruct buf as [|b buf].
  { exists s. split; [done|]. split; [done|]. intros i _. symmetry. apply splice_out. cbn. lia. }
  destruct (size_holds s off (Z.of_nat (length (b :: buf)))) as (n & En & Hh); [done|cbn; lia|done|]. rewrite En in *.
  destruct (write_at_ok n s _ (b :: buf) off Hh (blk_is_byte _) Hby Ho Hb) as (s' & E & Hh'). exists s'. split; [done|].
  split; [by apply (holds_size _ _ _ Hh')|]. intros i _. apply Hh'.
Qed.

End Laws.

(** C30. The block driver. On a configured virtio block device of [n] sectors that
    serves its requests, and for every range of bytes inside the disk, aligned to
    sectors or not: [read_at] returns exactly these bytes and changes nothing;
    [write_at] changes exactly these bytes, also where it must read a sector and
    write it back; the queue is ready for the next request, wherever its 16-bit
    indices stand. Both loops end, and no request runs past the disk. *)
Theorem VirtioBlk_correct {HW} `{BlkHw HW} fr n (s : VirtioState HW) f buf offset :
  frame_apart fr -> holds n s f -> (forall i, is_byte (f i)) ->
  0 <= offset -> offset + Z.of_nat (length buf) <= n * SECTOR_SIZE ->
  (exists s', VirtioBlk_read_at fr buf offset s =
     Ret (Ok (Z.of_nat (length buf), slice f offset (Z.of_nat (length buf))), s') /\ holds n s' f) /\
  (bytes buf -> exists s', VirtioBlk_write_at fr buf offset s = Ret (Ok (Z.of_nat (length buf)), s') /\
     holds n s' (splice f offset buf)).
Proof.
  intros Hfr Hh Hf Ho Hb. split; [by apply read_at_ok|]. intros Hby. by apply write_at_ok.
Qed.

(** ** A device

    A disk in memory that serves a pending request at the next poll. *)

Record RamBlk : Type := mkRamBlk { rb_sectors : Z; rb_byte : Z -> Z }.

Definition RamBlk_serve (h : RamBlk) (q : Queue) (mem : Z -> Z) (head : Z) (hdr dat st : VirtQueueDescriptor)
    : RamBlk * Queue * (Z -> Z) :=
  let base := header_sector mem (vq_addr hdr) * SECTOR_SIZE in
  if header_type mem (vq_addr hdr) =? VIRTIO_BLK_T_IN then
    (h, completed q head 513,
     splice (splice mem (vq_addr dat) (slice (fun i => rb_byte h i mod 256) base SECTOR_SIZE)) (vq_addr st) [VIRTIO_BLK_S_OK])
  else
    (mkRamBlk (rb_sectors h) (splice (rb_byte h) base (slice mem (vq_addr dat) SECTOR_SIZE)),
     completed q head 1, splice mem (vq_addr st) [VIRTIO_BLK_S_OK]).

Definition RamBlk_poll (h : RamBlk) (q : Queue) (mem : Z -> Z) : RamBlk * Queue * (Z -> Z) :=
  match (head ← avail_ring q !! Z.to_nat (used_idx q mod RING_SIZE);
         hdr ← desc q !! Z.to_nat head;
         dat ← desc q !! Z.to_nat (vq_next hdr);
         st ← desc q !! Z.to_nat (vq_next dat);
         Some (head, hdr, dat, st)) with
  | Some (head, hdr, dat, st) => RamBlk_serve h q mem head hdr dat st
  | None => (h, q, mem)
  end.

#[export] Instance RamBlk_hw : VirtioHw RamBlk := {
  hw_read _ h := (0, h);
  hw_write _ _ h := h;
  hw_poll := RamBlk_poll;
  hw_patience := 1
}.

Lemma RamBlk_polled h q mem head hdr dat st : pending q head -> request_chain q head hdr dat st ->
  RamBlk_poll h q mem = RamBlk_serve h q mem head hdr dat st.
Proof.
  intros [_ _ _ _ Hh] [(H1 & _) (H2 & _) (H3 & _) _]. unfold RamBlk_poll. rewrite Hh. cbn [mbind option_bind].
  rewrite H1. cbn [mbind option_bind]. rewrite H2. cbn [mbind option_bind]. rewrite H3. done.
Qed.

#[export] Program Instance RamBlk_blk : BlkHw RamBlk := {
  blk_sectors h := Z.max 0 (Z.min (rb_sectors h) 4096);
  blk_byte h i := rb_byte h i mod 256
}.
Next Obligation. intros h i. unfold is_byte. lia. Qed.
Next Obligation. intros h. unfold SECTOR_SIZE. lia. Qed.
Next Obligation. done. Qed.
Next Obligation.
  intros h q mem head hdr dat st Hp Hc Hw Ht Hs. exists h. split; [|done].
  exists 1%nat, 513. split; [done|]. cbn [polls fst snd]. unfold hw_poll, RamBlk_hw.
  rewrite (RamBlk_polled h q mem head hdr dat st Hp Hc). unfold RamBlk_serve. rewrite Ht. cbn [Z.eqb VIRTIO_BLK_T_IN fst snd].
  split; [|done]. intros j Hj. by replace j with 0%nat by lia.
Qed.
Next Obligation.
  intros h q mem head hdr dat st Hp Hc Hw Ht Hs Hby. eexists. split.
  - exists 1%nat, 1. split; [done|]. cbn [polls fst snd]. unfold hw_poll, RamBlk_hw.
    rewrite (RamBlk_polled h q mem head hdr dat st Hp Hc). unfold RamBlk_serve. rewrite Ht.
    cbn [Z.eqb VIRTIO_BLK_T_OUT VIRTIO_BLK_T_IN fst snd]. split; [|done]. intros j Hj. by replace j with 0%nat by lia.
  - split; [done|]. intros i. cbn [rb_byte]. unfold splice. case_match; [|done].
    destruct (nth_lookup_or_length (slice mem (vq_addr dat) SECTOR_SIZE)
      (Z.to_nat (i - header_sector mem (vq_addr hdr) * SECTOR_SIZE)) 0) as [El|Hge]; [|by rewrite nth_overflow].
    rewrite Forall_forall in Hby. specialize (Hby _ (list_elem_of_lookup_2 _ _ _ El)). unfold is_byte in Hby. by rewrite Z.mod_small.
Qed.

Definition ex_frame : ReqFrame := mkFrame 0 16 1024.

Definition ex_disk : VirtioState RamBlk := mkVirtio (Some Queue_zeroed) (fun _ => 0) (mkRamBlk 8 (fun i => i)) None.

(** An unaligned range over two sectors. *)
Lemma VirtioBlk_witness :
  (exists s', VirtioBlk_read_at ex_frame [1; 2; 3; 4] 510 ex_disk =
     Ret (Ok (4, slice (fun i => i mod 256) 510 4), s') /\ holds 8 s' (fun i => i mod 256)) /\
  (bytes [1; 2; 3; 4] -> exists s', VirtioBlk_write_at ex_frame [1; 2; 3; 4] 510 ex_disk = Ret (Ok 4, s') /\
     holds 8 s' (splice (fun i => i mod 256) 510 [1; 2; 3; 4])).
Proof.
  apply (VirtioBlk_correct ex_frame 8 ex_disk (fun i => i mod 256) [1; 2; 3; 4] 510).
  - unfold frame_apart. cbn. lia.
  - split; [|done]. exists Queue_zeroed. split; [done|]. by split.
  - intros i. unfold is_byte. lia.
  - lia.
  - unfold SECTOR_SIZE. cbn. lia.
Defined.
