(* ===== verification/Vfs.v ===== *)
(** * Vfs: the virtual file system layer ([src/fs/vfs.rs], [src/fs/vfs/file_ops.rs])

    Open files, the traits [FileOps] and [FileSystem], and the mount table: a
    prefix tree over path components that sends a path to the file system
    mounted at its longest prefix. Trait objects are records of their methods;
    an [Arc] of a file system has an address, which [Arc::ptr_eq] compares. *)

From Stdlib Require Import Ascii.
From S2P Require Import Prelude OrdMap Trie BitFields Abi Paths Disk.

(** ** Programs of the file system layer

    The state is the devices and the cells of the [Arc<Atomic...>]s that open
    files share: the address of a cell is its index, so that the clones of an
    open file have the same one. *)

Record World (D : Type) : Type := mkWorld { dev : D; cells : list Z }.
Arguments mkWorld {D} _ _.
Arguments dev {D} _.
Arguments cells {D} _.

Definition fio (D A : Type) : Type := World D -> outcome (result FsError A * World D).

#[export] Instance fio_ret {D} : MRet (fio D) := fun A a w => Ret (Ok a, w).

(** [?] on an [FsResult]. *)
#[export] Instance fio_bind {D} : MBind (fio D) := fun A B k m w =>
  match m w with
  | Ret (Ok a, w) => k a w
  | Ret (Err e, w) => Ret (Err e, w)
  | Panic => Panic
  end.

Definition fio_fail {D A} (e : FsError) : fio D A := fun w => Ret (Err e, w).

Definition fio_result {D A} (r : result FsError A) : fio D A := fun w => Ret (r, w).

Definition fio_pure {D A} (m : outcome A) : fio D A := fun w =>
  match m with Ret a => Ret (Ok a, w) | Panic => Panic end.

(** [map_err(FsError::from)] on a program of the devices. *)
Definition fio_dev {D A} (m : io D A) : fio D A := fun w =>
  match m (dev w) with
  | Ret (Ok a, d) => Ret (Ok a, mkWorld d (cells w))
  | Ret (Err e, d) => Ret (Err (FsError_from_IoError e), mkWorld d (cells w))
  | Panic => Panic
  end.

(** [Arc::new(Atomic::new(v))], [load], [store] and [fetch_add] on 64 bits. *)
Definition cell_new {D} (v : Z) : fio D nat := fun w =>
  Ret (Ok (length (cells w)), mkWorld (dev w) (cells w ++ [v])).

Definition cell_load {D} (c : nat) : fio D Z := fun w =>
  match cells w !! c with Some v => Ret (Ok v, w) | None => Panic end.

Definition cell_store {D} (c : nat) (v : Z) : fio D unit := fun w =>
  Ret (Ok (), mkWorld (dev w) (<[c := v]> (cells w))).

Definition cell_fetch_add {D} (c : nat) (n : Z) : fio D Z :=
  v ← cell_load c; _ ← cell_store c (wrap 64 (v + n)); mret v.

(** ** Metadata and flags *)

Record Stat : Type := mkStat {
  st_ino : Z; st_mode : Z; st_size : Z; st_nlinks : Z; st_mtime : Z; st_uid : Z; st_gid : Z
}.

Definition AccessMode_READ_ONLY : Z := 0.
Definition AccessMode_WRITE_ONLY : Z := 1.
Definition AccessMode_READ_WRITE : Z := 2.

Definition OpenFlags_accmode : Z -> Z := bits_get 0 1.
Definition OpenFlags_create : Z -> bool := bit_get 6.
Definition OpenFlags_append : Z -> bool := bit_get 10.
Definition OpenFlags_directory : Z -> bool := bit_get 16.

Definition OpenFlags_can_read (self : Z) : bool := negb (OpenFlags_accmode self =? AccessMode_WRITE_ONLY).
Definition OpenFlags_can_write (self : Z) : bool := negb (OpenFlags_accmode self =? AccessMode_READ_ONLY).

Record VfsDirEntry : Type := mkVfsDirEntry { ve_ino : Z; ve_name : str; ve_type : Z }.

(** The in-memory inode and directory entry. Their links to the superblock, to
    the parent and to the children are created empty and never set. *)
Record Inode : Type := mkVfsInode {
  vi_ino : Z; vi_mode : Z; vi_uid : Z; vi_gid : Z; vi_size : Z; vi_mtime : Z; vi_nlinks : Z
}.

Record Dentry : Type := mkDentry { d_name : str; d_inode : Inode }.

(** ** [FileOps]

    A read gets the buffer and returns the number of bytes read with the new
    contents of the buffer. *)

Record FileOps (D : Type) : Type := mkFileOps {
  ops_read : list Z -> fio D (Z * list Z);
  ops_write : list Z -> fio D Z;
  ops_read_at : list Z -> Z -> fio D (Z * list Z);
  ops_write_at : list Z -> Z -> fio D Z;
  ops_seek : Z -> Z -> Whence -> fio D Z;
  ops_ioctl : Z -> Z -> fio D Z;
  ops_read_dir : fio D (option VfsDirEntry)
}.
Arguments mkFileOps {D} _ _ _ _ _ _ _.
Arguments ops_read {D} _.
Arguments ops_write {D} _.
Arguments ops_read_at {D} _.
Arguments ops_write_at {D} _.
Arguments ops_seek {D} _.
Arguments ops_ioctl {D} _.
Arguments ops_read_dir {D} _.

(** The default methods: an implementation gives those it overrides. *)
Definition FileOps_with {D}
    (read : option (list Z -> fio D (Z * list Z))) (write : option (list Z -> fio D Z))
    (read_at : option (list Z -> Z -> fio D (Z * list Z))) (write_at : option (list Z -> Z -> fio D Z))
    (seek : option (Z -> Z -> Whence -> fio D Z)) (read_dir : option (fio D (option VfsDirEntry)))
    : FileOps D :=
  let read := default (fun _ => fio_fail Unsupported) read in
  let write := default (fun _ => fio_fail Unsupported) write in
  {| ops_read := read;
     ops_write := write;
     ops_read_at := default (fun buf _ => read buf) read_at;
     ops_write_at := default (fun buf _ => write buf) write_at;
     ops_seek := default (fun _ _ _ => fio_fail Unsupported) seek;
     ops_ioctl := fun _ _ => fio_fail Unsupported;
     ops_read_dir := default (fio_fail Unsupported) read_dir |}.

(** ** Open files *)

Record VfsFile (D : Type) : Type := mkVfsFile {
  vf_ops : FileOps D; vf_dentry : Dentry; vf_offset : nat; vf_flags : Z
}.
Arguments mkVfsFile {D} _ _ _ _.
Arguments vf_ops {D} _.
Arguments vf_dentry {D} _.
Arguments vf_offset {D} _.
Arguments vf_flags {D} _.

Section VfsFiles.
Context {D : Type}.
Implicit Types self : VfsFile D.

Definition VfsFile_from_ops (name : str) (ino mode : Z) (ops : FileOps D) (flags : Z) : fio D (VfsFile D) :=
  let inode := mkVfsInode ino mode 0 0 0 0 1 in
  let dentry := mkDentry name inode in
  offset ← cell_new 0;
  mret (mkVfsFile ops dentry offset flags).

(** [Clone]: the clone has the same cell. *)
Definition VfsFile_clone self : VfsFile D := mkVfsFile (vf_ops self) (vf_dentry self) (vf_offset self) (vf_flags self).

Definition VfsFile_read self (buf : list Z) : fio D (Z * list Z) :=
  offset ← cell_load (vf_offset self);
  r ← ops_read_at (vf_ops self) buf offset;
  _ ← cell_fetch_add (vf_offset self) r.1;
  mret r.

Definition VfsFile_write self (buf : list Z) : fio D Z :=
  offset ← cell_load (vf_offset self);
  n ← ops_write_at (vf_ops self) buf offset;
  _ ← cell_fetch_add (vf_offset self) n;
  mret n.

Definition VfsFile_read_at self (buf : list Z) (offset : Z) : fio D (Z * list Z) := ops_read_at (vf_ops self) buf offset.

Definition VfsFile_write_at self (buf : list Z) (offset : Z) : fio D Z := ops_write_at (vf_ops self) buf offset.

Definition VfsFile_seek self (offset : Z) (whence : Whence) : fio D Z :=
  current ← cell_load (vf_offset self);
  new_offset ← ops_seek (vf_ops self) current offset whence;
  _ ← (if 0 <=? new_offset then cell_store (vf_offset self) new_offset else mret ());
  mret new_offset.

Definition VfsFile_stat self : Stat :=
  let i := d_inode (vf_dentry self) in
  mkStat (vi_ino i) (vi_mode i) (vi_size i) (vi_nlinks i) (vi_mtime i) (vi_uid i) (vi_gid i).

Definition VfsFile_read_dir self : fio D (option VfsDirEntry) := ops_read_dir (vf_ops self).

End VfsFiles.

(** ** [FileSystem] *)

Record FileSystem (D : Type) : Type := mkFileSystem {
  fs_open : Path -> Z -> Z -> fio D (VfsFile D);
  fs_stat : Path -> fio D Stat;
  fs_mkdir : Path -> Z -> fio D unit;
  fs_unlink : Path -> fio D unit;
  fs_rmdir : Path -> fio D unit;
  fs_rename : Path -> Path -> fio D unit;
  fs_link : Path -> Path -> fio D unit;
  fs_symlink : str -> Path -> fio D unit;
  fs_readlink : Path -> fio D Path;
  fs_sync : fio D unit
}.
Arguments fs_open {D} _.
Arguments fs_stat {D} _.
Arguments fs_mkdir {D} _.
Arguments fs_unlink {D} _.
Arguments fs_rmdir {D} _.
Arguments fs_rename {D} _.
Arguments fs_link {D} _.
Arguments fs_symlink {D} _.
Arguments fs_readlink {D} _.
Arguments fs_sync {D} _.

(** [Arc<dyn FileSystem>] *)
Record ArcFs (D : Type) : Type := mkArcFs { arc_ptr : Z; arc_fs : FileSystem D }.
Arguments mkArcFs {D} _ _.
Arguments arc_ptr {D} _.
Arguments arc_fs {D} _.

Record SuperBlock (D : Type) : Type := mkVfsSuper { sup_fs : ArcFs D; sup_root : Dentry }.
Arguments mkVfsSuper {D} _ _.
Arguments sup_fs {D} _.
Arguments sup_root {D} _.

Record MountEntry (D : Type) : Type := mkMount { me_dentry : Dentry; me_superblock : SuperBlock D }.
Arguments mkMount {D} _ _.
Arguments me_dentry {D} _.
Arguments me_superblock {D} _.

(** ** The mount table *)

Record Vfs (D : Type) : Type := mkVfs { mount_table : Trie str (MountEntry D); super_blocks : list (SuperBlock D) }.
Arguments mkVfs {D} _ _.
Arguments mount_table {D} _.
Arguments super_blocks {D} _.

Definition Vfs_new {D} : Vfs D := mkVfs Trie_new [].

Definition Vfs_mount_path (path : Path) : result FsError str :=
  if negb (Path_is_absolute path) then Err Invalid
  else
    let path := trim_end (inner path) in
    Ok (match path with [] => [sep] | _ => path end).

Definition Vfs_root_dir_entry (path : str) (stat : Stat) : Dentry :=
  let name := if bool_decide (path = [sep]) then [sep] else default path (last (split_sep path)) in
  mkDentry name (mkVfsInode (st_ino stat) (st_mode stat) (st_uid stat) (st_gid stat) (st_size stat)
    (st_mtime stat) (st_nlinks stat)).

Definition Vfs_components (path : str) : list str := filter (fun s => s <> []) (split_sep path).

Fixpoint push_components (path : str) (rest : list str) : str :=
  match rest with
  | [] => path
  | component :: rest => push_components ((path ++ [sep]) ++ component) rest
  end.

Definition Vfs_relative_path (rest : list str) : Path :=
  let path := push_components [] rest in
  mkPath (match path with [] => [sep] | _ => path end).

Section VfsOps.
Context {D : Type}.
Implicit Types self : Vfs D.

Definition Vfs_mount self (path : Path) (fs : ArcFs D) : fio D (Vfs D) :=
  mount_path ← fio_result (Vfs_mount_path path);
  stat ← fs_stat (arc_fs fs) (mkPath [sep]);
  let key := Vfs_components mount_path in
  if Trie_contains_key (mount_table self) key then fio_fail AlreadyExists
  else
    let root := Vfs_root_dir_entry mount_path stat in
    let superblock := mkVfsSuper fs root in
    let entry := mkMount root superblock in
    t ← fio_pure (Trie_insert (mount_table self) key entry);
    mret (mkVfs t.2 (super_blocks self ++ [superblock])).

Definition Vfs_resolve self (path : Path) : result FsError (ArcFs D * Path) :=
  if negb (Path_is_absolute path) then Err Invalid
  else
    let components := Vfs_components (inner path) in
    match Trie_longest_prefix (mount_table self) components with
    | None => Err NotFound
    | Some (key, mount) =>
        let relative := Vfs_relative_path (drop (length key) components) in
        Ok (sup_fs (me_superblock mount), relative)
    end.

Definition Vfs_same_filesystem {T} self (old new : Path) (operation : FileSystem D -> Path -> Path -> fio D T) : fio D T :=
  o ← fio_result (Vfs_resolve self old);
  n ← fio_result (Vfs_resolve self new);
  if negb (arc_ptr o.1 =? arc_ptr n.1) then fio_fail CrossDevice
  else operation (arc_fs o.1) o.2 n.2.

(** A call on the file system of a path. *)
Definition Vfs_on {T} self (path : Path) (operation : FileSystem D -> Path -> fio D T) : fio D T :=
  r ← fio_result (Vfs_resolve self path);
  operation (arc_fs r.1) r.2.

Fixpoint sync_all (sbs : list (SuperBlock D)) : fio D unit :=
  match sbs with
  | [] => mret ()
  | superblock :: sbs => _ ← fs_sync (arc_fs (sup_fs superblock)); sync_all sbs
  end.

Definition Vfs_FileSystem self : FileSystem D := {|
  fs_open path flags mode := Vfs_on self path (fun fs relative => fs_open fs relative flags mode);
  fs_stat path := Vfs_on self path fs_stat;
  fs_mkdir path mode := Vfs_on self path (fun fs relative => fs_mkdir fs relative mode);
  fs_unlink path := Vfs_on self path fs_unlink;
  fs_rmdir path := Vfs_on self path fs_rmdir;
  fs_rename old new := Vfs_same_filesystem self old new fs_rename;
  fs_link old new := Vfs_same_filesystem self old new fs_link;
  fs_symlink target linkpath := Vfs_on self linkpath (fun fs relative => fs_symlink fs target relative);
  fs_readlink path := Vfs_on self path fs_readlink;
  fs_sync := sync_all (super_blocks self)
|}.

End VfsOps.

(** ** Reference: a map from component lists to file systems *)

Section Reference.
Context {D : Type}.

Definition mounts (self : Vfs D) : list (list str * ArcFs D) :=
  (fun e => (e.1, sup_fs (me_superblock e.2))) <$> entries (root (mount_table self)).

(** The mount at the longest of the prefixes of at most [n] components. *)
Fixpoint longest_mount (M : list (list str * ArcFs D)) (comps : list str) (n : nat) : option (nat * ArcFs D) :=
  match om_get (take n comps) M with
  | Some fs => Some (n, fs)
  | None => match n with O => None | S n => longest_mount M comps n end
  end.

Definition resolve_spec (M : list (list str * ArcFs D)) (path : Path) : result FsError (ArcFs D * Path) :=
  if Path_is_absolute path then
    let comps := Vfs_components (inner path) in
    match longest_mount M comps (length comps) with
    | Some (n, fs) => Ok (fs, Vfs_relative_path (drop n comps))
    | None => Err NotFound
    end
  else Err Invalid.

Definition mount_spec (M : list (list str * ArcFs D)) (path : Path) (fs : ArcFs D)
    : result FsError (list (list str * ArcFs D)) :=
  if Path_is_absolute path then
    let key := Vfs_components (inner path) in
    if om_contains key M then Err AlreadyExists else Ok (om_insert key fs M)
  else Err Invalid.

(** A sequence of mounts that goes on after a failed one. *)
Fixpoint Vfs_mounts (self : Vfs D) (ms : list (Path * ArcFs D)) (w : World D)
    : outcome (list (result FsError unit) * Vfs D * World D) :=
  match ms with
  | [] => mret ([], self, w)
  | (path, fs) :: ms =>
      r ← Vfs_mount self path fs w;
      let '(res, self') := match r.1 with Ok self' => (Ok (), self') | Err e => (Err e, self) end in
      s ← Vfs_mounts self' ms r.2;
      mret (res :: s.1.1, s.1.2, s.2)
  end.

Fixpoint mounts_spec (M : list (list str * ArcFs D)) (ms : list (Path * ArcFs D))
    : list (result FsError unit) * list (list str * ArcFs D) :=
  match ms with
  | [] => ([], M)
  | (path, fs) :: ms =>
      let '(res, M') := match mount_spec M path fs with Ok M' => (Ok (), M') | Err e => (Err e, M) end in
      let s := mounts_spec M' ms in
      (res :: s.1, s.2)
  end.

(** Reading the root of the file system works on the worlds of [P]. *)
Definition root_stat (P : World D -> Prop) (fs : ArcFs D) : Prop :=
  forall w, P w -> exists st w', fs_stat (arc_fs fs) (mkPath [sep]) w = Ret (Ok st, w') /\ P w'.

End Reference.

(** ** Components of paths *)

Definition part (s : str) : Prop := s <> [] /\ sep ∉ s.

Lemma components_app a b : Vfs_components (a ++ sep :: b) = Vfs_components a ++ Vfs_components b.
Proof. unfold Vfs_components. by rewrite split_app, filter_app. Qed.

Lemma components_one s : part s -> Vfs_components s = [s].
Proof. intros [Hn Hs]. unfold Vfs_components. rewrite split_none by done. by rewrite filter_cons_True. Qed.

Lemma split_sep_parts s : Forall (fun p => sep ∉ p) (split_sep s).
Proof.
  induction s as [|c s IH]; cbn [split_sep]; [by repeat constructor; apply not_elem_of_nil|].
  case_bool_decide; [constructor; [apply not_elem_of_nil|done]|].
  destruct (split_sep s) as [|p ps]; inversion_clear IH; repeat constructor; try done;
    apply not_elem_of_cons; (split; [congruence|try done; apply not_elem_of_nil]).
Qed.

Lemma components_parts s : Forall part (Vfs_components s).
Proof.
  apply Forall_forall. intros p [Hn Hp]%list_elem_of_filter. split; [done|].
  pose proof (split_sep_parts s) as H. rewrite Forall_forall in H. by apply H.
Qed.

Lemma components_trim s : Vfs_components (trim_end s) = Vfs_components s.
Proof.
  destruct (trim_end_spec s) as (n & E & _). rewrite E at 2. clear E. revert n.
  generalize (trim_end s) as t. intros t n. induction n as [|n IH]; [by rewrite app_nil_r|].
  rewrite replicate_S_end, app_assoc, components_app. cbn. rewrite app_nil_r. exact IH.
Qed.

Lemma push_components_app path rest :
  Forall part rest -> Vfs_components (push_components path rest) = Vfs_components path ++ rest.
Proof.
  revert path. induction rest as [|c rest IH]; intros path Hr; [by rewrite app_nil_r|].
  inversion_clear Hr as [|? ? Hc Hr']. cbn [push_components]. rewrite IH by done.
  rewrite <- app_assoc. cbn [app]. rewrite components_app, (components_one c) by done.
  by rewrite <- app_assoc.
Qed.

(** The path built from parts is absolute and has these parts. *)
Lemma relative_path_ok rest : Forall part rest ->
  Vfs_components (inner (Vfs_relative_path rest)) = rest /\ Path_is_absolute (Vfs_relative_path rest) = true.
Proof.
  intros Hr. pose proof (push_components_app [] rest Hr) as E. cbn in E.
  assert (Ha : push_components [] rest = [] \/ starts_with_sep (push_components [] rest) = true).
  { destruct rest as [|c rest]; [by left|right]. cbn [push_components app]. clear.
    generalize c as d. induction rest as [|e rest IH]; intros d; [cbn; by rewrite bool_decide_true|].
    cbn [push_components]. apply (IH ((d ++ [sep]) ++ e)). }
  unfold Vfs_relative_path, Path_is_absolute. cbn [inner]. destruct Ha as [Ha|Ha].
  - rewrite Ha in *. cbn in *. by rewrite bool_decide_true.
  - by destruct (push_components [] rest).
Qed.

(** ** The mount table implements the reference *)

Section Refinement.
Context {D : Type}.
Implicit Types self : Vfs D.

Lemma om_get_mounts self key :
  om_get key (mounts self) = (fun m => sup_fs (me_superblock m)) <$> om_get key (entries (root (mount_table self))).
Proof.
  unfold mounts. induction (entries _) as [|[k v] l IH]; [done|]. cbn. by destruct (list_cmp key k).
Qed.

Lemma longest_mount_ok M comps n :
  match longest_mount (D := D) M comps n with
  | Some (k, fs) => (k <= n)%nat /\ om_get (take k comps) M = Some fs /\
      forall j, (k < j <= n)%nat -> om_get (take j comps) M = None
  | None => forall j, (j <= n)%nat -> om_get (take j comps) M = None
  end.
Proof.
  induction n as [|n IH]; cbn [longest_mount]; destruct (om_get _ M) as [fs|] eqn:E.
  - split; [lia|]. split; [done|lia].
  - intros j Hj. by replace j with 0%nat by lia.
  - split; [lia|]. split; [done|lia].
  - destruct (longest_mount M comps n) as [[k fs]|].
    + destruct IH as (Hk & Hg & Hm). split; [lia|]. split; [done|]. intros j Hj.
      destruct (decide (j = S n)) as [->|]; [done|]. apply Hm. lia.
    + intros j Hj. destruct (decide (j = S n)) as [->|]; [done|]. apply IH. lia.
Qed.

Lemma resolve_ok self path : Trie_ok (mount_table self) ->
  Vfs_resolve self path = resolve_spec (mounts self) path.
Proof.
  intros Hok. unfold Vfs_resolve, resolve_spec. destruct (Path_is_absolute path); [cbn [negb]|done].
  set (comps := Vfs_components (inner path)).
  pose proof (longest_prefix_ok _ comps Hok) as HL.
  pose proof (longest_mount_ok (mounts self) comps (length comps)) as HM.
  destruct (Trie_longest_prefix (mount_table self) comps) as [[p m]|], (longest_mount _ _ _) as [[k fs]|].
  - destruct HL as (Hp & Hg & Hmax), HM as (Hk & Hf & Hlong).
    assert (E : p = take (length p) comps) by (destruct Hp as [r ->]; by rewrite take_app_length).
    assert (length p <= length comps)%nat by (by apply prefix_length).
    rewrite om_get_mounts in Hf. destruct (om_get (take k comps) (entries _)) as [m'|] eqn:Em; [|done].
    pose proof (prefix_length _ _ (Hmax _ _ (prefix_take comps k) Em)) as Hle. rewrite length_take in Hle.
    assert (length p = k) as Hpk.
    { destruct (decide (k < length p)%nat) as [Hlt|]; [|lia].
      specialize (Hlong (length p) ltac:(lia)). by rewrite <- E, om_get_mounts, Hg in Hlong. }
    rewrite Hpk in *. rewrite <- E, Hg in Em. injection Em as <-. injection Hf as <-. done.
  - destruct HL as (Hp & Hg & _). specialize (HM (length p) (prefix_length _ _ Hp)).
    destruct Hp as [r Er]. rewrite Er, take_app_length, om_get_mounts, Hg in HM. done.
  - destruct HM as (_ & Hf & _). by rewrite om_get_mounts, (HL _ (prefix_take comps k)) in Hf.
  - done.
Qed.

Lemma mounts_insert self key entry t : Trie_ok (mount_table self) ->
  entries (root t) = om_insert key entry (entries (root (mount_table self))) ->
  (fun e => (e.1, sup_fs (me_superblock e.2))) <$> entries (root t) =
    om_insert key (sup_fs (me_superblock entry)) (mounts self).
Proof.
  intros _ ->. unfold mounts. induction (entries _) as [|[k v] l IH]; [done|]. cbn.
  destruct (list_cmp key k); [done|done|]. cbn. by f_equal.
Qed.

(** One mount: the table and the reference make the same step. *)
Lemma mount_ok P self path fs w :
  Trie_ok (mount_table self) -> tlen (mount_table self) + 1 < 2 ^ 64 -> root_stat P fs -> P w ->
  exists w', P w' /\
    match mount_spec (mounts self) path fs with
    | Err e => Vfs_mount self path fs w = Ret (Err e, w')
    | Ok M' => exists self', Vfs_mount self path fs w = Ret (Ok self', w') /\ Trie_ok (mount_table self') /\
        mounts self' = M' /\ sup_fs <$> super_blocks self' = (sup_fs <$> super_blocks self) ++ [fs] /\
        tlen (mount_table self') = tlen (mount_table self) + 1
    end.
Proof.
  intros Hok Hb Hs Hw. unfold mount_spec, Vfs_mount, Vfs_mount_path.
  destruct (Path_is_absolute path); cbn [negb]; [|by exists w].
  destruct (Hs w Hw) as (st & w' & E & Hw'). exists w'. split; [done|].
  set (mp := match trim_end (inner path) with [] => [sep] | _ => _ end).
  assert (Ek : Vfs_components mp = Vfs_components (inner path)).
  { rewrite <- (components_trim (inner path)). unfold mp. by destruct (trim_end (inner path)). }
  unfold mbind, fio_bind, fio_result. cbn -[sep]. rewrite E. rewrite Ek.
  set (key := Vfs_components (inner path)). unfold Trie_contains_key, om_contains.
  rewrite Trie_get_ok, om_get_mounts by done.
  destruct (om_get key (entries (root (mount_table self)))) as [m|] eqn:Eg; [done|]. cbn [fmap option_fmap option_map].
  set (entry := mkMount _ _).
  destruct (Trie_insert_ok (mount_table self) key entry Hok Hb) as (t & Et & Hok' & He).
  unfold fio_pure. rewrite Et. eexists. split; [reflexivity|]. cbn [mount_table super_blocks snd].
  split; [done|]. split; [by apply (mounts_insert self key entry)|]. split; [by rewrite fmap_app|].
  rewrite (to_len _ Hok'), He, om_insert_length, Eg by (apply entries_ok, Hok). rewrite (to_len _ Hok). cbn. lia.
Qed.

(** The file systems of the mounts that succeed, in their order. *)
Fixpoint mounted (M : list (list str * ArcFs D)) (ms : list (Path * ArcFs D)) : list (ArcFs D) :=
  match ms with
  | [] => []
  | (path, fs) :: ms => match mount_spec M path fs with Ok M' => fs :: mounted M' ms | Err _ => mounted M ms end
  end.

Lemma mounts_ok P ms self w :
  Trie_ok (mount_table self) -> tlen (mount_table self) + Z.of_nat (length ms) < 2 ^ 64 ->
  Forall (fun m => root_stat P m.2) ms -> P w ->
  exists self' w', Vfs_mounts self ms w = Ret ((mounts_spec (mounts self) ms).1, self', w') /\ P w' /\
    Trie_ok (mount_table self') /\ mounts self' = (mounts_spec (mounts self) ms).2 /\
    sup_fs <$> super_blocks self' = (sup_fs <$> super_blocks self) ++ mounted (mounts self) ms.
Proof.
  revert self w. induction ms as [|[path fs] ms IH]; intros self w Hok Hb Hm Hw.
  { exists self, w. cbn. rewrite app_nil_r. done. }
  inversion_clear Hm as [|? ? Hfs Hms]. cbn [length] in Hb.
  destruct (mount_ok P self path fs w Hok ltac:(lia) Hfs Hw) as (w1 & Hw1 & HE).
  cbn [Vfs_mounts mounts_spec mounted]. destruct (mount_spec (mounts self) path fs) as [M'|e].
  - destruct HE as (self1 & -> & Hok1 & EM & Esb & El). rewrite outcome_bind_Ret. cbn [fst snd].
    destruct (IH self1 w1 Hok1 ltac:(lia) Hms Hw1) as (self2 & w2 & -> & Hw2 & Hok2 & E2 & Esb2).
    rewrite outcome_bind_Ret. rewrite EM in *. exists self2, w2. cbn [fst snd].
    by rewrite Esb2, Esb, <- app_assoc.
  - rewrite HE, outcome_bind_Ret. cbn [fst snd].
    destruct (IH self w1 Hok ltac:(lia) Hms Hw1) as (self2 & w2 & -> & Hw2 & Hok2 & E2 & Esb2).
    rewrite outcome_bind_Ret. by exists self2, w2.
Qed.

End Refinement.

(** C29. The mount table. Mounting file systems whose root can be read, in any
    order and at any paths, gives the answers of a map from component lists to
    file systems: a relative path is refused, a path whose components are
    already mounted is refused, every other mount succeeds. Afterwards each path
    goes to the file system at the longest mounted prefix of its components; the
    path handed to it is absolute and has exactly the components that remain, so
    that a mount at [/dev] never captures [/devx]; the superblocks that [sync]
    visits are those of the successful mounts, in their order. *)
Theorem Vfs_refines {D} (P : World D -> Prop) (ms : list (Path * ArcFs D)) w :
  Forall (fun m => root_stat P m.2) ms -> P w -> Z.of_nat (length ms) < 2 ^ 64 ->
  exists self w', Vfs_mounts Vfs_new ms w = Ret ((mounts_spec [] ms).1, self, w') /\ P w' /\
    sup_fs <$> super_blocks self = mounted [] ms /\
    forall path, Vfs_resolve self path = resolve_spec (mounts_spec [] ms).2 path /\
      forall fs rel, Vfs_resolve self path = Ok (fs, rel) ->
        exists p, Vfs_components (inner path) = p ++ Vfs_components (inner rel) /\
          Path_is_absolute rel = true /\ om_get p (mounts_spec [] ms).2 = Some fs.
Proof.
  intros Hms Hw Hb.
  destruct (mounts_ok P ms Vfs_new w (Trie_new_ok) ltac:(cbn; lia) Hms Hw) as (self & w' & E & Hw' & Hok & EM & Esb).
  change (mounts Vfs_new) with (@nil (list str * ArcFs D)) in *.
  exists self, w'. split; [done|]. split; [done|]. split; [done|]. intros path. rewrite <- EM.
  rewrite resolve_ok by done. split; [done|]. intros fs rel. unfold resolve_spec.
  destruct (Path_is_absolute path); [|done]. set (comps := Vfs_components (inner path)).
  pose proof (longest_mount_ok (mounts self) comps (length comps)) as HM.
  destruct (longest_mount _ _ _) as [[k f]|]; [|done]. intros [= <- <-].
  destruct HM as (Hk & Hg & _). exists (take k comps).
  destruct (relative_path_ok (drop k comps)) as [-> ->]; [apply Forall_drop, components_parts|].
  by rewrite take_drop.
Qed.

(** A file system that has only its root, mounted at [/] and, another one, at
    [/d/]; a second mount at [/d] fails. *)
Definition ex_root_fs : FileSystem unit := {|
  fs_open path _ _ := fio_fail NotFound;
  fs_stat path := if bool_decide (Vfs_components (inner path) = []) then mret (mkStat 1 0x41ed 0 1 0 0 0) else fio_fail NotFound;
  fs_mkdir _ _ := fio_fail Unsupported;
  fs_unlink _ := fio_fail Unsupported;
  fs_rmdir _ := fio_fail Unsupported;
  fs_rename _ _ := fio_fail Unsupported;
  fs_link _ _ := fio_fail Unsupported;
  fs_symlink _ _ := fio_fail Unsupported;
  fs_readlink _ := fio_fail Unsupported;
  fs_sync := mret ()
|}.

Definition ex_arc (p : Z) : ArcFs unit := mkArcFs p ex_root_fs.

Definition ex_mounts : list (Path * ArcFs unit) := [
  (mkPath [sep], ex_arc 1); (mkPath [sep; "d"%char; sep], ex_arc 2);
  (mkPath [sep; sep; "d"%char], ex_arc 3); (mkPath ["e"%char], ex_arc 4)].

Lemma Vfs_refines_witness :
  exists self w', Vfs_mounts Vfs_new ex_mounts (mkWorld () []) =
      Ret ([Ok (); Ok (); Err AlreadyExists; Err Invalid], self, w') /\ True /\
    sup_fs <$> super_blocks self = [ex_arc 1; ex_arc 2] /\
    forall path, Vfs_resolve self path = resolve_spec [([], ex_arc 1); ([["d"%char]], ex_arc 2)] path /\
      forall fs rel, Vfs_resolve self path = Ok (fs, rel) ->
        exists p, Vfs_components (inner path) = p ++ Vfs_components (inner rel) /\
          Path_is_absolute rel = true /\ om_get p [([], ex_arc 1); ([["d"%char]], ex_arc 2)] = Some fs.
Proof.
  exact (Vfs_refines (fun _ => True) ex_mounts (mkWorld () [])
    ltac:(repeat constructor; intros w _; by eexists _, w) I eq_refl).
Defined.
