(* ===== verification/DevFs.v ===== *)
(** * DevFs: the device file system ([src/fs/devfs.rs], [src/fs/devfs/])

    A file system with a fixed set of nodes: the pseudo devices, the console on
    the first serial port and the first disk. The nodes go through the device
    manager at every call. *)

From Stdlib Require Import Ascii.
From S2P Require Import Prelude OrdMap BitFields Abi Paths Disk Devices Vfs.

Definition FileType_CHR : Z := 2.
Definition FileType_DIR : Z := 4.
Definition FileType_BLK : Z := 6.

Definition Mode_file_type : Z -> Z := bits_get 12 15.
Definition Mode_from (type permissions : Z) : Z := Z.lor (Z.shiftl type 12) permissions.

(** [trim_matches] of the separator. *)
Fixpoint trim_start (s : str) : str :=
  match s with [] => [] | c :: s' => if bool_decide (c = sep) then trim_start s' else s end.
Definition trim (s : str) : str := trim_end (trim_start s).

Section DevFs.
Context {D : Type} (manager : DeviceManager D).

(** ** The devices *)

Definition Null : FileOps D :=
  FileOps_with (Some (fun buf => mret (0, buf))) (Some (fun buf => mret (Z.of_nat (length buf)))) None None None None.

Definition Zero : FileOps D :=
  FileOps_with (Some (fun buf => mret (Z.of_nat (length buf), replicate (length buf) 0)))
    (Some (fun buf => mret (Z.of_nat (length buf)))) None None None None.

(** [ok_or(NotFound)?] *)
Definition or_not_found {A} (o : option A) : fio D A := fio_result (ok_or o NotFound).

Definition Uart : FileOps D :=
  FileOps_with
    (Some (fun buf => did ← or_not_found (DeviceManager_first_char manager); fio_dev (DeviceManager_read manager did buf)))
    (Some (fun buf => did ← or_not_found (DeviceManager_first_char manager); fio_dev (DeviceManager_write manager did buf)))
    None None None None.

Definition VirtioBlk : FileOps D :=
  FileOps_with None None
    (Some (fun buf offset => did ← or_not_found (DeviceManager_first_block manager); fio_dev (DeviceManager_read_at manager did buf offset)))
    (Some (fun buf offset => did ← or_not_found (DeviceManager_first_block manager); fio_dev (DeviceManager_write_at manager did buf offset)))
    None None.

Record DevFsNode : Type := mkDevNode { nd_name : str; nd_ino : Z; nd_mode : Z; make_ops : FileOps D }.

Definition DEVICES : list DevFsNode := [
  mkDevNode ["n"; "u"; "l"; "l"]%char 2 (Mode_from FileType_CHR 0x1b6) Null;
  mkDevNode ["z"; "e"; "r"; "o"]%char 3 (Mode_from FileType_CHR 0x1b6) Zero;
  mkDevNode ["c"; "o"; "n"; "s"; "o"; "l"; "e"]%char 4 (Mode_from FileType_CHR 0x1b6) Uart;
  mkDevNode ["v"; "d"; "a"]%char 5 (Mode_from FileType_BLK 0x1b0) VirtioBlk].

(** ** The directory: its position is an atomic counter. *)
Definition DeviceDirectory (next : nat) : FileOps D :=
  FileOps_with None None None None None
    (Some (index ← cell_fetch_add next 1;
           mret (match DEVICES !! Z.to_nat index with
                 | None => None
                 | Some node => Some (mkVfsDirEntry (nd_ino node) (nd_name node) (Mode_file_type (nd_mode node)))
                 end))).

(** ** Paths *)

Definition DevFs_node (path : Path) : result FsError (option DevFsNode) :=
  if negb (Path_is_absolute path) then Err Invalid
  else
    let name := trim (inner path) in
    if bool_decide (name = []) then Ok None
    else if bool_decide (sep ∈ name) then Err NotFound
    else Ok (List.find (fun node => bool_decide (nd_name node = name)) DEVICES).

Definition DevFs_root (flags : Z) : fio D (VfsFile D) :=
  next ← cell_new 0;
  VfsFile_from_ops [sep] 1 (Mode_from FileType_DIR 0x1ed) (DeviceDirectory next) flags.

Definition DevFs_open (path : Path) (flags mode : Z) : fio D (VfsFile D) :=
  if negb (Path_is_absolute path) then fio_fail Invalid
  else if bool_decide (trim (inner path) = []) then DevFs_root flags
  else
    found ← fio_result (DevFs_node path);
    node ← or_not_found found;
    if OpenFlags_directory flags then fio_fail NotDir
    else VfsFile_from_ops (nd_name node) (nd_ino node) (nd_mode node) (make_ops node) flags.

Definition DevFs_stat (path : Path) : fio D Stat :=
  if negb (Path_is_absolute path) then fio_fail Invalid
  else if bool_decide (trim (inner path) = []) then mret (mkStat 1 (Mode_from FileType_DIR 0x1ed) 0 1 0 0 0)
  else
    found ← fio_result (DevFs_node path);
    node ← or_not_found found;
    mret (mkStat (nd_ino node) (nd_mode node) 0 1 0 0 0).

Definition DevFs : FileSystem D := {|
  fs_open := DevFs_open;
  fs_stat := DevFs_stat;
  fs_mkdir _ _ := fio_fail Unsupported;
  fs_unlink _ := fio_fail Unsupported;
  fs_rmdir _ := fio_fail Unsupported;
  fs_rename _ _ := fio_fail Unsupported;
  fs_link _ _ := fio_fail Unsupported;
  fs_symlink _ _ := fio_fail Unsupported;
  fs_readlink _ := fio_fail Unsupported;
  fs_sync := mret ()
|}.

(** [File::uart] of [src/fs/vfs.rs]. *)
Definition VfsFile_uart (flags : Z) : fio D (VfsFile D) :=
  VfsFile_from_ops ["c"; "o"; "n"; "s"; "o"; "l"; "e"]%char 0 (Mode_from FileType_CHR 0x1b6) Uart flags.

End DevFs.

(** ** Paths by their components *)

Lemma components_sep s : Vfs_components (sep :: s) = Vfs_components s.
Proof. unfold Vfs_components. cbn [split_sep]. by rewrite bool_decide_true, filter_cons_False by tauto. Qed.

Lemma components_char c s : c <> sep -> Vfs_components (c :: s) <> [].
Proof.
  intros Hc. unfold Vfs_components. cbn [split_sep]. rewrite bool_decide_false by done.
  destruct (split_sep s); by rewrite filter_cons_True.
Qed.

Lemma components_nil s : Vfs_components s = [] <-> Forall (fun c => c = sep) s.
Proof.
  induction s as [|c s IH]; [done|]. rewrite Forall_cons, <- IH. destruct (decide (c = sep)) as [->|Hc].
  - rewrite components_sep. tauto.
  - split; [by intros ?%components_char|]. tauto.
Qed.

Lemma trim_start_spec s : Vfs_components (trim_start s) = Vfs_components s /\ head (trim_start s) <> Some sep.
Proof.
  induction s as [|c s [IH1 IH2]]; [done|]. cbn [trim_start]. case_bool_decide as Hc.
  - subst c. by rewrite components_sep.
  - split; [done|]. cbn. congruence.
Qed.

Lemma trim_spec s : Vfs_components (trim s) = Vfs_components s /\ head (trim s) <> Some sep /\ last (trim s) <> Some sep.
Proof.
  destruct (trim_start_spec s) as [H1 H2]. unfold trim. destruct (trim_end_spec (trim_start s)) as (n & E & Hl).
  split; [by rewrite components_trim|]. split; [|done]. intros Hh. apply H2. rewrite E.
  destruct (trim_end (trim_start s)); [done|]. exact Hh.
Qed.

(** The name of a node is the only component of its path. *)
Lemma DevFs_node_components {D} (m : DeviceManager D) path : Path_is_absolute path = true ->
  DevFs_node m path =
    match Vfs_components (inner path) with
    | [] => Ok None
    | [name] => Ok (List.find (fun node => bool_decide (nd_name node = name)) (DEVICES m))
    | _ => Err NotFound
    end.
Proof.
  intros Ha. unfold DevFs_node. rewrite Ha. cbn [negb]. destruct (trim_spec (inner path)) as (E & Hh & Hl).
  rewrite <- E. set (t := trim (inner path)) in *. clearbody t. case_bool_decide as Hn; [by subst t|].
  case_bool_decide as Hs.
  - apply list_elem_of_split in Hs as (a & b & ->). rewrite components_app.
    assert (Hne : forall s, s <> [] -> (head s <> Some sep \/ last s <> Some sep) -> Vfs_components s <> []).
    { intros s Hs Hor Hc. apply components_nil in Hc. destruct s as [|c s] using rev_ind; [done|]. clear IHs.
      rewrite last_snoc in Hor. rewrite Forall_forall in Hc.
      destruct Hor as [Hor|Hor]; [|apply Hor; f_equal; apply Hc, elem_of_app; right; by left].
      destruct (s ++ [c]) as [|x l] eqn:Ex; [done|]. apply Hor. cbn. f_equal. apply Hc. by left. }
    pose proof (Hne a) as Hca. pose proof (Hne b) as Hcb. destruct (Vfs_components a) as [|x l].
    { destruct Hca; [intros ->; by apply Hh|left; by destruct a|done]. }
    destruct (Vfs_components b) as [|y r].
    { destruct Hcb; [intros ->; by rewrite last_snoc in Hl| |done]. right. intros Hb. apply Hl.
      apply last_Some in Hb as [b' ->]. rewrite app_comm_cons, app_assoc. apply last_snoc. }
    by destruct l.
  - by rewrite components_one.
Qed.
