(* ===== verification/MinixVfs.v ===== *)
(** * MinixVfs: the Minix file system under the mount table

    The adapter [MinixVfs] and the open files [MinixFileOps] of
    [src/fs/minix.rs], the initialisation of the file systems ([src/fs.rs]) and
    the loader of whole files ([read_file] of [src/task/exec.rs]). The theorems
    tie the layers together: device manager, disk, Minix, mount table, open
    file. *)

From Stdlib Require Import Ascii.
From stdpp Require Import gmap.
From S2P Require Import Prelude OrdMap IdAlloc Trie BitFields Abi Paths Bytes Disk Minix MinixDisk MinixZones MinixFile MinixDir MinixTree MinixDirOps MinixOpen Devices Vfs DevFs.

(** [as i64] of a [u64], and [saturating_add] on [i64]. *)
Definition as_i64 (x : Z) : Z := if x <? 2 ^ 63 then x else x - 2 ^ 64.
Definition i64_saturating_add (a b : Z) : Z := Z.max (- 2 ^ 63) (Z.min (a + b) (2 ^ 63 - 1)).

(** The result of a call as a value. *)
Definition fio_attempt {D A} (m : fio D A) : fio D (result FsError A) := fun w =>
  match m w with Ret (r, w) => Ret (Ok r, w) | Panic => Panic end.

Section MinixVfs.
Context {D : Type} `{BlockDevice D} (sb : DiskSuperBlock).

Definition MinixFileOps_open (path : Path) : fio D File :=
  r ← fio_dev (open sb path);
  fio_result (ok_or r NotFound).

Definition MinixFileOps_read_at (path : Path) (buf : list Z) (offset : Z) : fio D (Z * list Z) :=
  file ← MinixFileOps_open path;
  out ← fio_dev (File_read_at file (Z.of_nat (length buf)) offset);
  mret (Z.of_nat (length out), out ++ drop (length out) buf).

Definition MinixFileOps_write_at (path : Path) (buf : list Z) (offset : Z) : fio D Z :=
  file ← MinixFileOps_open path;
  r ← fio_dev (File_write_at sb file buf offset);
  mret r.1.

Definition MinixFileOps_seek (path : Path) (current offset : Z) (whence : Whence) : fio D Z :=
  file ← MinixFileOps_open path;
  let current := as_i64 current in
  let size := File_size file in
  new ← match whence with
        | SEEK_SET => mret offset
        | SEEK_CUR => mret (i64_saturating_add current offset)
        | SEEK_END => mret (i64_saturating_add size offset)
        | SEEK_other _ => fio_fail Invalid
        end;
  if new <? 0 then fio_fail Invalid else mret new.

Definition MinixFileOps (path : Path) : FileOps D :=
  FileOps_with None None (Some (MinixFileOps_read_at path)) (Some (MinixFileOps_write_at path))
    (Some (MinixFileOps_seek path)) None.

Definition MinixVfs_open (path : Path) (flags mode : Z) : fio D (VfsFile D) :=
  file ← MinixFileOps_open path;
  VfsFile_from_ops (default [sep] (Path_file_name path)) (fl_ino file) (i_mode (fl_inode file)) (MinixFileOps path) flags.

Definition MinixVfs_stat (path : Path) : fio D Stat :=
  file ← MinixFileOps_open path;
  mret (mkStat (fl_ino file) (i_mode (fl_inode file)) (File_size file) 1 0 0 0).

Definition MinixVfs : FileSystem D := {|
  fs_open := MinixVfs_open;
  fs_stat := MinixVfs_stat;
  fs_mkdir _ _ := fio_fail Unsupported;
  fs_unlink _ := fio_fail Unsupported;
  fs_rmdir _ := fio_fail Unsupported;
  fs_rename _ _ := fio_fail Unsupported;
  fs_link _ _ := fio_fail Unsupported;
  fs_symlink _ _ := fio_fail Unsupported;
  fs_readlink _ := fio_fail Unsupported;
  fs_sync := mret ()
|}.

End MinixVfs.

Definition dev_name : str := ["d"; "e"; "v"]%char.

(** [fs::init]: the state of [VFS] is kept when the second mount fails. The
    addresses are those of the two new [Arc]s. *)
Definition fs_init {D} (manager : DeviceManager D) (p1 p2 : Z) (vfs : Vfs D) (w : World D)
    : outcome (result FsError unit * Vfs D * World D) :=
  match DeviceManager_block_handle manager with
  | None => mret (Err NotFound, vfs, w)
  | Some device =>
      r ← fio_dev (@from_device D device) w;
      match r with
      | (Err e, w) => mret (Err e, vfs, w)
      | (Ok None, w) => mret (Err NotFound, vfs, w)
      | (Ok (Some sb), w) =>
          r ← Vfs_mount vfs (mkPath [sep]) (mkArcFs p1 (@MinixVfs D device sb)) w;
          match r with
          | (Err e, w) => mret (Err e, vfs, w)
          | (Ok vfs, w) =>
              r ← Vfs_mount vfs (mkPath (sep :: dev_name)) (mkArcFs p2 (DevFs manager)) w;
              match r with
              | (Err e, w) => mret (Err e, vfs, w)
              | (Ok vfs, w) => mret (Ok (), vfs, w)
              end
          end
      end
  end.

(** [read_file]: open, size from [stat], one read of the whole file. *)
Definition read_file {D} (vfs : Vfs D) (path : str) : fio D (option (list Z)) :=
  let fs := Vfs_FileSystem vfs in
  f ← fio_attempt (fs_open fs (mkPath path) 0 0);
  match f with
  | Err _ => mret None
  | Ok f =>
      st ← fio_attempt (fs_stat fs (mkPath path));
      match st with
      | Err _ => mret None
      | Ok st =>
          let buf := replicate (Z.to_nat (st_size st)) 0 in
          r ← fio_attempt (VfsFile_read f buf);
          match r with
          | Err _ => mret None
          | Ok (read, buf) => if negb (read =? Z.of_nat (length buf)) then mret None else mret (Some buf)
          end
      end
  end.

(** ** Programs of the layer *)

Lemma fio_bind_Ok {D A B} (m : fio D A) (k : A -> fio D B) w a w' : m w = Ret (Ok a, w') -> (m ≫= k) w = k a w'.
Proof. intros E. unfold mbind, fio_bind. by rewrite E. Qed.

Lemma fio_bind_Err {D A B} (m : fio D A) (k : A -> fio D B) w e w' : m w = Ret (Err e, w') -> (m ≫= k) w = Ret (Err e, w').
Proof. intros E. unfold mbind, fio_bind. by rewrite E. Qed.

Lemma fio_attempt_Ret {D A} (m : fio D A) w r w' : m w = Ret (r, w') -> fio_attempt m w = Ret (Ok r, w').
Proof. intros E. unfold fio_attempt. by rewrite E. Qed.

Section Reads.
Context {D : Type} `{DiskLaws D} (sb : DiskSuperBlock) (N : Z) (G : geometry sb N) (f : Z -> Z) (M : gmap Z node).
Hypothesis HT : tree_ok sb f M.

(** A program of the disk that leaves its contents alone. *)
Lemma fio_dev_ok {A} (m : io D A) (P : A -> Prop) w :
  triple N f m (fun a f' => f' = f /\ P a) -> on_disk N (dev w) f ->
  exists a d', fio_dev m w = Ret (Ok a, mkWorld d' (cells w)) /\ on_disk N d' f /\ P a.
Proof.
  intros Hm Hd. destruct (Hm (dev w) Hd) as (a & d' & f' & E & Hd' & -> & HP).
  exists a, d'. split; [|done]. unfold fio_dev. by rewrite E.
Qed.

(** The file that a path names. *)
Definition names (path : Path) (ino : Z) : Prop :=
  exists k, (k <= 40)%nat /\ resolves (tree sb f M) k (name_parts (inner path)) 1 ino.

Lemma names_fun path i j : names path i -> names path j -> i = j.
Proof. intros (k & _ & H1) (k' & _ & H2). by destruct (resolves_fun _ _ _ _ _ H1 _ _ H2). Qed.

Lemma minix_open_ok path w : on_disk N (dev w) f ->
  exists d', on_disk N d' f /\
    ((exists self n, MinixFileOps_open sb path w = Ret (Ok self, mkWorld d' (cells w)) /\
        names path (fl_ino self) /\ M !! fl_ino self = Some n /\ opened sb f n self) \/
     (MinixFileOps_open sb path w = Ret (Err NotFound, mkWorld d' (cells w)) /\ forall ino, ~ names path ino)).
Proof.
  intros Hd. destruct (fio_dev_ok (open sb path)
    (fun r => answers (tree sb f M) MAX_SYMLINK_HOPS (name_parts (inner path)) 1 (fl_ino <$> r) /\
       forall self, r = Some self -> exists n, M !! fl_ino self = Some n /\ opened sb f n self) w)
    as (r & d' & E & Hd' & Ha & Ho); [|done|].
  - apply (open_ok sb N G f M path); [done|]. intros r Ha Hr. split; [done|]. split; [done|].
    intros self ->. by destruct (Hr self eq_refl) as (_ & _ & ?).
  - exists d'. split; [done|]. unfold MinixFileOps_open. rewrite (fio_bind_Ok _ _ _ _ _ E).
    destruct r as [self|]; [left|right].
    + destruct (Ho self eq_refl) as (n & Hn & Hop). by exists self, n.
    + split; [done|]. intros ino (k & Hk & Hres). specialize (Ha k ino Hres). unfold MAX_SYMLINK_HOPS in Ha. lia.
Qed.

(** A read at an offset through the open file. *)
Lemma minix_read_at_ok path ino n buf off w :
  on_disk N (dev w) f -> names path ino -> M !! ino = Some n -> 0 <= off ->
  exists d', on_disk N d' f /\
    let out := take (length buf) (drop (Z.to_nat off) (content sb f ino n)) in
    MinixFileOps_read_at sb path buf off w = Ret (Ok (Z.of_nat (length out), out ++ drop (length out) buf), mkWorld d' (cells w)).
Proof.
  intros Hd Hnames Hn Hoff.
  destruct (minix_open_ok path w Hd) as (d1 & Hd1 & [(self & n' & E & Hn' & Hm & Ho)|[_ Hno]]); [|by destruct (Hno ino)].
  assert (fl_ino self = ino) as Ei by (by eapply names_fun). rewrite Ei in Hm. simplify_eq.
  destruct (fio_dev_ok (File_read_at self (Z.of_nat (length buf)) off)
    (fun out => out = take (length buf) (drop (Z.to_nat off) (content sb f (fl_ino self) n))) (mkWorld d1 (cells w)))
    as (out & d' & E' & Hd' & ->); [|done|].
  - apply (File_read_at_ok sb N f M n); [done|apply (to_fs _ _ _ HT)|done|done|lia|done|]. by rewrite Nat2Z.id.
  - exists d'. split; [done|]. unfold MinixFileOps_read_at. rewrite (fio_bind_Ok _ _ _ _ _ E), (fio_bind_Ok _ _ _ _ _ E'). done.
Qed.

Lemma content_length ino n : M !! ino = Some n ->
  Z.of_nat (length (content sb f ino n)) = i_size (inode_at sb f ino) /\ 0 <= i_size (inode_at sb f ino) < 2 ^ 32.
Proof.
  intros Hn. destruct (fk_file _ _ _ (to_fs _ _ _ HT) ino n Hn) as [_ Hfo].
  pose proof (io_size _ (fo_inode _ _ _ _ _ _ _ Hfo)) as Hs. unfold fits in Hs.
  unfold content. rewrite length_slice. lia.
Qed.

(** A read at the current position moves the position by what was read. *)
Lemma vfs_read_ok (file : VfsFile D) path ino n buf off w :
  vf_ops file = MinixFileOps sb path -> cells w !! vf_offset file = Some (Z.of_nat off) ->
  (off <= length (content sb f ino n))%nat ->
  on_disk N (dev w) f -> names path ino -> M !! ino = Some n ->
  let out := take (length buf) (drop off (content sb f ino n)) in
  exists d', on_disk N d' f /\
    VfsFile_read file buf w = Ret (Ok (Z.of_nat (length out), out ++ drop (length out) buf),
      mkWorld d' (<[vf_offset file := Z.of_nat (off + length out)]> (cells w))).
Proof.
  intros Hops Hc Hle Hd Hnames Hn out. destruct (content_length ino n Hn) as [Hlen Hsz].
  destruct (minix_read_at_ok path ino n buf (Z.of_nat off) w Hd Hnames Hn ltac:(lia)) as (d' & Hd' & E).
  rewrite Nat2Z.id in E. fold out in E. exists d'. split; [done|].
  unfold VfsFile_read. erewrite fio_bind_Ok; [|unfold cell_load; by rewrite Hc].
  rewrite Hops. cbn [MinixFileOps FileOps_with ops_read_at default]. rewrite (fio_bind_Ok _ _ _ _ _ E). cbn [fst snd].
  unfold cell_fetch_add. erewrite fio_bind_Ok.
  2: { erewrite fio_bind_Ok; [|unfold cell_load; cbn [cells]; by rewrite Hc].
       erewrite fio_bind_Ok; [|reflexivity]. reflexivity. }
  unfold mret, fio_ret. cbn [dev cells]. do 4 f_equal. unfold wrap.
  assert (length out <= length (content sb f ino n) - off)%nat by (unfold out; rewrite length_take, length_drop; lia).
  rewrite Z.mod_small; lia.
Qed.

(** Reads one after the other, each into a buffer of its own. *)
Fixpoint read_seq (file : VfsFile D) (bufs : list (list Z)) : fio D (list (list Z)) :=
  match bufs with
  | [] => mret []
  | buf :: bufs =>
      r ← VfsFile_read file buf;
      rs ← read_seq file bufs;
      mret (take (Z.to_nat r.1) r.2 :: rs)
  end.

Lemma read_seq_ok (file : VfsFile D) path ino n bufs off w :
  vf_ops file = MinixFileOps sb path -> cells w !! vf_offset file = Some (Z.of_nat off) ->
  (off <= length (content sb f ino n))%nat ->
  on_disk N (dev w) f -> names path ino -> M !! ino = Some n ->
  exists pieces w', read_seq file bufs w = Ret (Ok pieces, w') /\ on_disk N (dev w') f /\
    concat pieces = take (length (concat bufs)) (drop off (content sb f ino n)).
Proof.
  intros Hops. revert off w. induction bufs as [|buf bufs IH]; intros off w Hc Hle Hd Hnames Hn.
  { exists [], w. split; [done|]. split; [done|]. by rewrite take_0. }
  destruct (vfs_read_ok file path ino n buf off w Hops Hc Hle Hd Hnames Hn) as (d' & Hd' & E). cbn zeta in E.
  set (out := take (length buf) (drop off (content sb f ino n))) in *.
  assert (Hout : (length out <= length (content sb f ino n) - off)%nat) by (unfold out; rewrite length_take, length_drop; lia).
  cbn [read_seq]. rewrite (fio_bind_Ok _ _ _ _ _ E). cbn [fst snd].
  destruct (IH (off + length out)%nat (mkWorld d' (<[vf_offset file := Z.of_nat (off + length out)]> (cells w))))
    as (pieces & w' & E' & Hw' & Ep); [|lia|done|done|done|].
  { cbn [cells]. apply list_lookup_insert_eq. by eapply lookup_lt_Some. }
  rewrite (fio_bind_Ok _ _ _ _ _ E'). eexists _, w'. split; [reflexivity|]. split; [done|].
  cbn [concat]. rewrite Ep, Nat2Z.id, take_app_length, length_app. rewrite <- drop_drop.
  set (rest := drop off (content sb f ino n)) in *. unfold out. rewrite length_take.
  destruct (Nat.le_gt_cases (length buf) (length rest)).
  - rewrite Nat.min_l by done. apply take_take_drop.
  - rewrite Nat.min_r by lia. rewrite drop_ge, take_nil, app_nil_r by lia. rewrite !take_ge by lia. done.
Qed.

End Reads.

(** C31. Reading an open file. Opening a path that leads to a file, through
    directories and at most 40 symbolic links, gives an open file at position 0;
    whatever the sizes of the buffers of the reads that follow, the bytes they
    deliver are, put together, the bytes of the file from its beginning, as many
    as the buffers hold or the file has; the disk does not change. Opening any
    other path is [NotFound]. *)
Theorem MinixVfs_stream {D : Type} `{DiskLaws D} sb N f M path flags mode (w : World D) :
  geometry sb N -> tree_ok sb f M -> on_disk N (dev w) f ->
  (exists file ino n w1, MinixVfs_open sb path flags mode w = Ret (Ok file, w1) /\
     names sb f M path ino /\ M !! ino = Some n /\ vi_ino (d_inode (vf_dentry file)) = ino /\
     forall bufs, exists pieces w2, read_seq file bufs w1 = Ret (Ok pieces, w2) /\ on_disk N (dev w2) f /\
       concat pieces = take (length (concat bufs)) (content sb f ino n)) \/
  (exists w1, MinixVfs_open sb path flags mode w = Ret (Err NotFound, w1) /\ on_disk N (dev w1) f /\
     forall ino, ~ names sb f M path ino).
Proof.
  intros G HT Hd.
  destruct (minix_open_ok sb N G f M HT path w Hd) as (d1 & Hd1 & [(self & n & E & Hn & Hm & Ho)|[E Hno]]); [left|right].
  - unfold MinixVfs_open. rewrite (fio_bind_Ok _ _ _ _ _ E). eexists _, (fl_ino self), n, _. split; [reflexivity|].
    split; [done|]. split; [done|]. split; [done|]. intros bufs.
    eapply (read_seq_ok sb N G f M HT _ path (fl_ino self) n bufs 0); [reflexivity| |lia|exact Hd1|done|done].
    cbn [cells vf_offset]. apply list_lookup_middle. done.
  - unfold MinixVfs_open. rewrite (fio_bind_Err _ _ _ _ _ E). by eexists.
Qed.

Section Kernel.
Context {D : Type} `{DiskLaws D} (sb : DiskSuperBlock) (N : Z) (G : geometry sb N) (f : Z -> Z) (M : gmap Z node).
Hypothesis HT : tree_ok sb f M.

(** [read_file] of a path that the mount table sends to the Minix file system. *)
Lemma read_file_ok vfs p path rel w :
  Vfs_resolve vfs (mkPath path) = Ok (mkArcFs p (MinixVfs sb), rel) -> on_disk N (dev w) f ->
  exists r w', read_file vfs path w = Ret (Ok r, w') /\ on_disk N (dev w') f /\
    match r with
    | Some bs => exists ino n, names sb f M rel ino /\ M !! ino = Some n /\ bs = content sb f ino n
    | None => forall ino, ~ names sb f M rel ino
    end.
Proof.
  intros Hres Hd. unfold read_file. cbn [Vfs_FileSystem fs_open fs_stat]. unfold Vfs_on. rewrite Hres.
  destruct (minix_open_ok sb N G f M HT rel w Hd) as (d1 & Hd1 & [(self & n & E & Hn & Hm & Ho)|[E Hno]]).
  2: { erewrite fio_bind_Ok; [|apply fio_attempt_Ret; rewrite (fio_bind_Ok _ _ w (mkArcFs p (MinixVfs sb), rel) w eq_refl);
         cbn [arc_fs fst snd MinixVfs fs_open]; unfold MinixVfs_open; apply (fio_bind_Err _ _ _ _ _ E)].
       by eexists None, _. }
  erewrite fio_bind_Ok; [|apply fio_attempt_Ret; rewrite (fio_bind_Ok _ _ w (mkArcFs p (MinixVfs sb), rel) w eq_refl);
    cbn [arc_fs fst snd MinixVfs fs_open]; unfold MinixVfs_open; rewrite (fio_bind_Ok _ _ _ _ _ E); reflexivity].
  set (w1 := mkWorld d1 (cells w ++ [0])). set (file := mkVfsFile _ _ _ _).
  destruct (minix_open_ok sb N G f M HT rel w1 Hd1) as (d2 & Hd2 & [(self2 & n2 & E2 & Hn2 & Hm2 & Ho2)|[_ Hno]]); [|by destruct (Hno (fl_ino self))].
  assert (fl_ino self2 = fl_ino self) as Ei by (by eapply names_fun). rewrite Ei in Hm2. simplify_eq.
  erewrite fio_bind_Ok; [|apply fio_attempt_Ret; rewrite (fio_bind_Ok _ _ _ (mkArcFs p (MinixVfs sb), rel) _ eq_refl);
    cbn [arc_fs fst snd MinixVfs fs_stat]; unfold MinixVfs_stat; rewrite (fio_bind_Ok _ _ _ _ _ E2); reflexivity].
  cbn [st_size]. destruct (content_length sb f M HT (fl_ino self) n Hm) as [Hlen Hsz].
  assert (Es : Z.to_nat (File_size self2) = length (content sb f (fl_ino self) n)).
  { unfold File_size. rewrite (op_inode _ _ _ _ Ho2), Ei. lia. }
  rewrite Es. set (buf := replicate _ 0). assert (Hb : length buf = length (content sb f (fl_ino self) n)) by apply length_replicate.
  destruct (vfs_read_ok sb N G f M HT file rel (fl_ino self) n buf 0 (mkWorld d2 (cells w1))) as (d3 & Hd3 & E3);
    [done|cbn [cells w1 vf_offset file]; by apply list_lookup_middle|lia|done|done|done|].
  erewrite fio_bind_Ok; [|apply fio_attempt_Ret; exact E3]. rewrite drop_0, take_ge by lia.
  rewrite drop_ge, app_nil_r by lia. cbn iota. rewrite Z.eqb_refl. cbn [negb].
  eexists (Some _), _. split; [reflexivity|]. split; [done|]. by exists (fl_ino self), n.
Qed.

Lemma from_device_ok : 1044 <= N -> DiskSuperBlock_read (slice f 1024 20) = sb ->
  magic sb = MinixFsMagic_V1_14 \/ magic sb = MinixFsMagic_V1_30 ->
  triple N f (from_device (D := D)) (fun r f' => f' = f /\ r = Some sb).
Proof.
  intros HN Hsb Hm. unfold from_device. apply triple_seq, triple_read; [unfold SUPERBLOCK_OFFSET; lia|rewrite length_replicate; change (Z.of_nat superblock_bytes) with 20; unfold SUPERBLOCK_OFFSET; lia|].
  rewrite length_replicate. cbn beta iota. apply triple_ret. split; [done|].
  change (Z.of_nat superblock_bytes) with 20. unfold SUPERBLOCK_OFFSET. rewrite Hsb. by destruct Hm as [-> | ->].
Qed.

End Kernel.

(** The table after [fs::init]: a path whose first component is not [dev] goes
    to the root file system, with all its components. *)
Lemma resolve_root {D} (a b : ArcFs D) path :
  Path_is_absolute path = true -> head (Vfs_components (inner path)) <> Some dev_name ->
  resolve_spec [([], a); ([dev_name], b)] path = Ok (a, Vfs_relative_path (Vfs_components (inner path))).
Proof.
  intros Ha Hh. unfold resolve_spec. rewrite Ha. set (comps := Vfs_components (inner path)) in *.
  pose proof (longest_mount_ok [([], a); ([dev_name], b)] comps (length comps)) as HL.
  destruct (longest_mount _ comps (length comps)) as [[k fs]|]; [|by specialize (HL 0%nat ltac:(lia))].
  destruct HL as (Hk & Hg & _). destruct comps as [|c comps]; [cbn in Hk; by replace k with 0%nat in * by lia; injection Hg as <-|].
  destruct k as [|k]; [by injection Hg as <-|]. exfalso. cbn [take] in Hg.
  apply om_get_elem in Hg; [|repeat constructor].
  apply elem_of_cons in Hg as [Hg|Hg]; [done|]. apply list_elem_of_singleton in Hg. injection Hg as Hc _ _. by apply Hh; cbn; f_equal.
Qed.

(** C32. The file systems after the boot. When the device manager has a disk with
    a Minix file system, [init] mounts it at the root and the device file system
    at [/dev]. From then on [read_file] of any absolute path outside [/dev], the
    call with which programs are loaded, returns all bytes of the file that the
    path leads to, and [None] exactly when it leads to none; it neither panics nor
    changes the disk. *)
Theorem fs_init_read_file {D : Type} {B : BlockDevice D} {L : DiskLaws D} (manager : DeviceManager D) sb N f M p1 p2 (w : World D) :
  DeviceManager_block_handle manager = Some B -> geometry sb N -> 1044 <= N ->
  DiskSuperBlock_read (slice f 1024 20) = sb ->
  magic sb = MinixFsMagic_V1_14 \/ magic sb = MinixFsMagic_V1_30 ->
  tree_ok sb f M -> on_disk N (dev w) f ->
  exists vfs w', fs_init manager p1 p2 Vfs_new w = Ret (Ok (), vfs, w') /\ on_disk N (dev w') f /\
    forall path w1, Path_is_absolute (mkPath path) = true -> head (Vfs_components path) <> Some dev_name ->
      on_disk N (dev w1) f ->
      exists r w2, read_file vfs path w1 = Ret (Ok r, w2) /\ on_disk N (dev w2) f /\
        match r with
        | Some bs => exists ino n, names sb f M (mkPath path) ino /\ M !! ino = Some n /\ bs = content sb f ino n
        | None => forall ino, ~ names sb f M (mkPath path) ino
        end.
Proof.
  intros Hman G HN Hsb Hmag HT Hd. unfold fs_init. rewrite Hman.
  destruct (fio_dev_ok N f from_device (fun r => r = Some sb) w (from_device_ok sb N f HN Hsb Hmag) Hd)
    as (r & d1 & E1 & Hd1 & ->).
  rewrite E1, outcome_bind_Ret. set (P := fun w : World D => on_disk N (dev w) f).
  set (a := mkArcFs p1 (MinixVfs sb)). set (b := mkArcFs p2 (DevFs manager)).
  assert (Ha : root_stat P a).
  { intros w0 Hw0. destruct (minix_open_ok sb N G f M HT (mkPath [sep]) w0 Hw0) as (d2 & Hd2 & [(self & n & E & _)|[_ Hno]]).
    - eexists _, (mkWorld d2 (cells w0)). split; [|exact Hd2]. cbn [a arc_fs MinixVfs fs_stat]. unfold MinixVfs_stat. by rewrite (fio_bind_Ok _ _ _ _ _ E).
    - destruct (Hno 1). exists 0%nat. split; [lia|]. constructor. }
  assert (Hb : root_stat P b) by (intros w0 Hw0; by eexists _, w0).
  destruct (mount_ok P Vfs_new (mkPath [sep]) a (mkWorld d1 (cells w)) Trie_new_ok ltac:(done) Ha Hd1)
    as (w2 & Hw2 & vfs1 & E2 & Hok1 & EM1 & _ & Hl1).
  rewrite E2, outcome_bind_Ret.
  pose proof (mount_ok P vfs1 (mkPath (sep :: dev_name)) b w2 Hok1 ltac:(rewrite Hl1; done) Hb Hw2) as (w3 & Hw3 & HE).
  rewrite EM1 in HE. destruct HE as (vfs2 & E3 & Hok2 & EM2 & _ & _).
  rewrite E3, outcome_bind_Ret. exists vfs2, w3. split; [done|]. split; [exact Hw3|].
  intros path w1 Habs Hhead Hw1.
  assert (EM : mounts vfs2 = [([], a); ([dev_name], b)]) by exact EM2.
  pose proof (resolve_ok vfs2 (mkPath path) Hok2) as Hres. rewrite EM, resolve_root in Hres by done.
  destruct (read_file_ok sb N G f M HT vfs2 p1 path _ w1 Hres Hw1) as (r & w4 & E4 & Hw4 & Hr).
  exists r, w4. split; [done|]. split; [done|].
  assert (En : forall ino, names sb f M (Vfs_relative_path (Vfs_components path)) ino <-> names sb f M (mkPath path) ino).
  { intros ino. unfold names. change name_parts with Vfs_components. cbn [inner].
    by rewrite (proj1 (relative_path_ok _ (components_parts path))). }
  destruct r as [bs|].
  - destruct Hr as (ino & n & H1 & H2 & H3). exists ino, n. by rewrite <- En.
  - intros ino. by rewrite <- En.
Qed.

Definition ex_world : World RamDisk := mkWorld ex_disk [].

Lemma MinixVfs_stream_witness :
  (exists file ino n w1, MinixVfs_open ex_sb (mkPath [sep; "a"%char]) 0 0 ex_world = Ret (Ok file, w1) /\
     names ex_sb ex_byte ex_nodes (mkPath [sep; "a"%char]) ino /\ ex_nodes !! ino = Some n /\ vi_ino (d_inode (vf_dentry file)) = ino /\
     forall bufs, exists pieces w2, read_seq file bufs w1 = Ret (Ok pieces, w2) /\ on_disk 10240 (dev w2) ex_byte /\
       concat pieces = take (length (concat bufs)) (content ex_sb ex_byte ino n)) \/
  (exists w1, MinixVfs_open ex_sb (mkPath [sep; "a"%char]) 0 0 ex_world = Ret (Err NotFound, w1) /\ on_disk 10240 (dev w1) ex_byte /\
     forall ino, ~ names ex_sb ex_byte ex_nodes (mkPath [sep; "a"%char]) ino).
Proof. exact (MinixVfs_stream ex_sb 10240 ex_byte ex_nodes (mkPath [sep; "a"%char]) 0 0 ex_world ex_geometry ex_tree_ok ex_on_disk). Defined.

(** A manager with the example disk as its only device. *)
Definition ex_block : DeviceNode RamDisk :=
  mkDeviceNode 0 BLK_rw dev_name (Block (mkBlockDriver DynamicAlloc dev_read_at dev_write_at)) (mkDescriptor dev_name [] [] []).

Definition ex_manager : DeviceManager RamDisk := mkDeviceManager IdAlloc_new [] [(0, ex_block)] [(dev_name, ex_block)].

Lemma fs_init_witness :
  exists vfs w', fs_init ex_manager 1 2 Vfs_new ex_world = Ret (Ok (), vfs, w') /\ on_disk 10240 (dev w') ex_byte /\
    forall path w1, Path_is_absolute (mkPath path) = true -> head (Vfs_components path) <> Some dev_name ->
      on_disk 10240 (dev w1) ex_byte ->
      exists r w2, read_file vfs path w1 = Ret (Ok r, w2) /\ on_disk 10240 (dev w2) ex_byte /\
        match r with
        | Some bs => exists ino n, names ex_sb ex_byte ex_nodes (mkPath path) ino /\ ex_nodes !! ino = Some n /\
            bs = content ex_sb ex_byte ino n
        | None => forall ino, ~ names ex_sb ex_byte ex_nodes (mkPath path) ino
        end.
Proof.
  refine (fs_init_read_file (B := ManagedBlockDevice ex_manager 0)
    (L := managed_laws ex_manager 0 ex_block DynamicAlloc eq_refl eq_refl)
    ex_manager ex_sb 10240 ex_byte ex_nodes 1 2 ex_world eq_refl ex_geometry _ _ (or_introl eq_refl) ex_tree_ok ex_on_disk).
  - lia.
  - reflexivity.
Defined.
