(* ===== verification/Tasks.v ===== *)
(** * Tasks: the task table, the scheduler and the process calls
      ([src/task.rs], [src/task/scheduler.rs], [src/task/process.rs],
      [TrapContext] of [src/arch/riscv64/trap.rs])

    The kernel runs on one hart: [CURRENT_TASK] is one slot. The table is an
    ordered map from task IDs to task control blocks with a cursor for round
    robin. *)

From stdpp Require Import gmap sorting.
From S2P Require Import Prelude OrdMap Buddy BitFields Abi MemoryMap Paths Disk Vfs.

(** ** Task control blocks *)

Definition A0_INDEX : nat := 10.

Record TrapContext : Type := mkTrap { tc_context : list Z; tc_satp : Z; tc_sepc : Z; tc_sstatus : Z }.

Definition u64_add (a b : Z) : outcome Z := usize_add a b.

Definition TrapContext_clone_child (self : TrapContext) (frame : list Z) (sepc satp : Z) : outcome TrapContext :=
  sepc ← u64_add sepc 4;
  mret (mkTrap (<[A0_INDEX := 0]> frame) satp sepc (tc_sstatus self)).

Inductive TaskStatus : Set := Running | Waiting | Sleeping | Zombie | Stopped | Dead.

#[export] Instance TaskStatus_eq_dec : EqDecision TaskStatus.
Proof. solve_decision. Defined.

Definition TaskStatus_is_runnable (self : TaskStatus) : bool := match self with Running => true | _ => false end.

Record Task (D : Type) : Type := mkTask {
  t_parent : option Z; t_children : list Z; t_status : TaskStatus; t_memory_set : MemorySet;
  t_trap_context : TrapContext; t_exit_code : Z; t_fd_table : list (VfsFile D)
}.
Arguments mkTask {D} _ _ _ _ _ _ _.
Arguments t_parent {D} _.
Arguments t_children {D} _.
Arguments t_status {D} _.
Arguments t_memory_set {D} _.
Arguments t_trap_context {D} _.
Arguments t_exit_code {D} _.
Arguments t_fd_table {D} _.

(** The table with its cursor, and [CURRENT_TASK]. *)
Record Tasks (D : Type) : Type := mkTasks { t_map : list (Z * Task D); t_cursor : option Z; t_current : option Z }.
Arguments mkTasks {D} _ _ _.
Arguments t_map {D} _.
Arguments t_cursor {D} _.
Arguments t_current {D} _.

Section Ops.
Context {D : Type}.
Implicit Types (self : Tasks D) (task : Task D).

Definition set_status task (status : TaskStatus) : Task D :=
  mkTask (t_parent task) (t_children task) status (t_memory_set task) (t_trap_context task) (t_exit_code task) (t_fd_table task).

Definition set_children task (children : list Z) : Task D :=
  mkTask (t_parent task) children (t_status task) (t_memory_set task) (t_trap_context task) (t_exit_code task) (t_fd_table task).

Definition Task_mark_runnable task : Task D := set_status task Running.

Definition Task_set_exit_code task (code : Z) : Task D :=
  mkTask (t_parent task) (t_children task) (t_status task) (t_memory_set task) (t_trap_context task) code (t_fd_table task).

Definition set_context task (context : TrapContext) : Task D :=
  mkTask (t_parent task) (t_children task) (t_status task) (t_memory_set task) context (t_exit_code task) (t_fd_table task).

(** A change of one entry through [get_mut]. *)
Definition update self (tid : Z) (g : Task D -> Task D) : Tasks D :=
  mkTasks (om_modify g tid (t_map self)) (t_cursor self) (t_current self).

(** ** The table *)

Definition Tasks_new : Tasks D := mkTasks [] None None.

Definition Tasks_select_first self : result ProcError TrapContext * Tasks D :=
  match t_map self with
  | (tid, tcb) :: _ =>
      (Ok (t_trap_context tcb), update (mkTasks (t_map self) (Some tid) (Some tid)) tid Task_mark_runnable)
  | [] => (Err NoOtherTask, self)
  end.

Definition Tasks_add self (tid : Z) (parent : option Z) (tcb : Task D) : Tasks D :=
  let self := update self (default 1 parent) (fun p => set_children p (t_children p ++ [tid])) in
  mkTasks (om_insert tid tcb (t_map self)) (t_cursor self) (t_current self).

(** The first runnable task of the part of the map after a key. *)
Definition next_runnable (m : list (Z * Task D)) : option Z :=
  fst <$> List.find (fun e => TaskStatus_is_runnable (t_status e.2)) m.

Definition after (tid : Z) (m : list (Z * Task D)) : list (Z * Task D) := filter (fun e => tid < e.1) m.

Definition Tasks_select_next self : result ProcError (Z * TrapContext) * Tasks D :=
  let found := match t_cursor self with
               | Some current =>
                   match next_runnable (after current (t_map self)) with
                   | Some tid => Some tid
                   | None => next_runnable (t_map self)
                   end
               | None => next_runnable (t_map self)
               end in
  match found with
  | None => (Err NoOtherTask, self)
  | Some tid =>
      let self := mkTasks (t_map self) (Some tid) (t_current self) in
      match om_get tid (t_map self) with
      | None => (Err NoOtherTask, self)
      | Some tcb =>
          let self := mkTasks (t_map self) (t_cursor self) (Some tid) in
          (Ok (tid, t_trap_context tcb), update self tid Task_mark_runnable)
      end
  end.

(** [TasksCursor::next]: the tasks in a cycle. *)
Definition TasksCursor_next self (current : option Z) : option (Z * Task D) * option Z :=
  let next := match current with
              | Some current => match after current (t_map self) with e :: _ => Some e | [] => head (t_map self) end
              | None => head (t_map self)
              end in
  match next with
  | None => (None, current)
  | Some e => (Some e, Some e.1)
  end.

(** ** The scheduler *)

Definition save_current self (frame : list Z) (sepc sstatus satp : Z) : Tasks D :=
  match t_current self with
  | None => self
  | Some current => update self current (fun task => set_context task (mkTrap frame satp sepc sstatus))
  end.

(** One round of [switch]: [None] when the table is empty and the loop goes on;
    the context that is restored otherwise. *)
Definition switch self : outcome (option TrapContext * Tasks D) :=
  match t_map self with
  | [] => mret (None, self)
  | _ =>
      match Tasks_select_next self with
      | (Err _, _) => Panic
      | (Ok (tid, ctx), self) => mret (Some ctx, mkTasks (t_map self) (t_cursor self) (Some tid))
      end
  end.

(** ** Processes *)

Definition exit self (code : Z) : outcome (Tasks D) :=
  match t_current self with
  | None => mret self
  | Some tid =>
      if tid =? 1 then Panic
      else
        match om_get tid (t_map self) with
        | None => mret self
        | Some task =>
            let self := update self tid (fun task => set_children (set_status (Task_set_exit_code task code) Zombie) []) in
            mret (update self 1 (fun init => set_children init (t_children init ++ t_children task)))
        end
  end.

(** The loop over the children: the first that is a zombie; it stops at a child
    that is not in the table. *)
Fixpoint first_zombie (m : list (Z * Task D)) (children : list Z) : option Z :=
  match children with
  | [] => None
  | child :: children =>
      match om_get child m with
      | None => None
      | Some task => if bool_decide (t_status task = Zombie) then Some child else first_zombie m children
      end
  end.

Definition find_zombie_child self (parent : Z) (target : option Z) : option Z :=
  task ← om_get parent (t_map self);
  let children := t_children task in
  match target with
  | Some target =>
      if bool_decide (target ∈ children) then
        child ← om_get target (t_map self);
        if bool_decide (t_status child = Zombie) then Some target else None
      else None
  | None => first_zombie (t_map self) children
  end.

Record WaitResult : Type := mkWait { wr_tid : Z; wr_exit_code : Z }.

(** [tid] is an [isize]. *)
Definition wait4 self (tid : Z) (nohang : bool) : option WaitResult * Tasks D :=
  match t_current self with
  | None => (None, self)
  | Some current =>
      let target := if tid <=? 0 then None else Some tid in
      if nohang then
        match find_zombie_child self current target with
        | None => (Some (mkWait 0 0), self)
        | Some tid =>
            (Some (mkWait tid (default 0 (t_exit_code <$> om_get tid (t_map self)))), self)
        end
      else (None, update self current (fun task => set_status task Waiting))
  end.

Inductive FdError : Set := NoTask | BadFd | NotReadable | NotWritable | FdIo (err : FsError).

Definition file_for_fd self (fd : Z) : result FdError (VfsFile D) :=
  match t_current self with
  | None => Err NoTask
  | Some current => ok_or (task ← om_get current (t_map self); t_fd_table task !! Z.to_nat fd) BadFd
  end.

(** The calls on open files run on the state of the devices. *)
Definition on_fd {A} (r : World D -> outcome (result FsError A * World D)) (w : World D) : outcome (result FdError A * World D) :=
  '(r, w) ← r w;
  mret (match r with Ok a => Ok a | Err e => Err (FdIo e) end, w).

Definition read_fd self (fd : Z) (buf : list Z) (w : World D) : outcome (result FdError (Z * list Z) * World D) :=
  match file_for_fd self fd with
  | Err e => mret (Err e, w)
  | Ok file => if negb (OpenFlags_can_read (vf_flags file)) then mret (Err NotReadable, w) else on_fd (VfsFile_read file buf) w
  end.

Definition write_fd self (fd : Z) (buf : list Z) (w : World D) : outcome (result FdError Z * World D) :=
  match file_for_fd self fd with
  | Err e => mret (Err e, w)
  | Ok file => if negb (OpenFlags_can_write (vf_flags file)) then mret (Err NotWritable, w) else on_fd (VfsFile_write file buf) w
  end.

End Ops.

(** ** Round robin *)

Section RoundRobin.
Context {D : Type}.
Implicit Types (self : Tasks D) (task : Task D).

(** The runnable tasks, in the order of their IDs. *)
Definition runnable (m : list (Z * Task D)) : list Z := (filter (fun e => t_status e.2 = Running) m).*1.

Lemma next_runnable_head m : next_runnable m = head (runnable m).
Proof.
  unfold next_runnable, runnable. induction m as [|[k task] m IH]; [done|]. cbn [List.find].
  cbn [snd]. rewrite filter_cons. cbn [snd]. destruct (t_status task); cbn [TaskStatus_is_runnable];
    try (case_decide; [done|]); done.
Qed.

Lemma runnable_after c m : runnable (after c m) = filter (fun x => c < x) (runnable m).
Proof.
  unfold runnable, after. induction m as [|[k task] m IH]; [done|].
  destruct (decide (t_status task = Running)) as [Hs|Hs], (decide (c < k)) as [Hc|Hc];
    rewrite ?(filter_cons_True _ (k, task)), ?(filter_cons_False _ (k, task)) by done; cbn [fmap list_fmap fst];
    rewrite ?(filter_cons_True _ (k, task)), ?(filter_cons_False _ (k, task)) by done; cbn [fmap list_fmap fst];
    rewrite ?(filter_cons_True _ k), ?(filter_cons_False _ k) by done; by rewrite ?IH.
Qed.

Lemma runnable_sorted m : om_ok m -> StronglySorted Z.lt (runnable m).
Proof.
  unfold runnable. induction m as [|[k task] m IH]; intros Hok; [constructor|]. apply om_ok_cons in Hok as [Hok Hlt].
  rewrite filter_cons. case_decide; [|by apply IH]. rewrite fmap_cons. constructor; [by apply IH|].
  apply Forall_forall. intros x ([k' t'] & -> & [_ Hin]%list_elem_of_filter)%list_elem_of_fmap.
  apply Hlt in Hin. unfold klt in Hin. cbn in *. by apply Z.compare_lt_iff in Hin.
Qed.

Lemma runnable_elem m x : om_ok m -> x ∈ runnable m <-> exists task, om_get x m = Some task /\ t_status task = Running.
Proof.
  intros Hok. unfold runnable. rewrite list_elem_of_fmap. split.
  - intros ([k task] & -> & [Hs Hin]%list_elem_of_filter). exists task. by apply om_get_elem in Hin.
  - intros (task & Hg & Hs). exists (x, task). split; [done|]. apply list_elem_of_filter. split; [done|]. by apply om_get_elem.
Qed.

Lemma mark_runnable_same task : t_status task = Running -> Task_mark_runnable task = task.
Proof. destruct task. cbn. by intros ->. Qed.

(** The next task after the cursor, around the table. *)
Definition pick (cursor : option Z) (R : list Z) : option Z :=
  match cursor with
  | Some c => match filter (fun x => c < x) R with x :: _ => Some x | [] => head R end
  | None => head R
  end.

Lemma select_next_ok self : om_ok (t_map self) ->
  match pick (t_cursor self) (runnable (t_map self)) with
  | Some tid => exists task, om_get tid (t_map self) = Some task /\ t_status task = Running /\
      Tasks_select_next self = (Ok (tid, t_trap_context task), mkTasks (t_map self) (Some tid) (Some tid))
  | None => Tasks_select_next self = (Err NoOtherTask, self)
  end.
Proof.
  intros Hok. unfold Tasks_select_next.
  replace (match t_cursor self with
    | Some current => match next_runnable (after current (t_map self)) with Some tid => Some tid | None => next_runnable (t_map self) end
    | None => next_runnable (t_map self) end) with (pick (t_cursor self) (runnable (t_map self))).
  - destruct (pick _ _) as [tid|] eqn:Ep; [|done].
    assert (Hin : tid ∈ runnable (t_map self)).
    { unfold pick in Ep. destruct (t_cursor self) as [c|]; [destruct (filter _ _) as [|x l] eqn:Ef|].
      - by apply head_Some_elem_of in Ep.
      - injection Ep as ->. assert (H : tid ∈ filter (fun x => c < x) (runnable (t_map self))) by (rewrite Ef; left).
        by apply list_elem_of_filter in H as [_ ?].
      - by apply head_Some_elem_of in Ep. }
    apply runnable_elem in Hin as (task & Hg & Hs); [|done]. exists task. split; [done|]. split; [done|].
    cbn zeta iota. cbn [t_map t_cursor t_current]. rewrite Hg. unfold update. cbn [t_map t_cursor t_current].
    by rewrite (om_modify_same _ _ _ task) by (auto using mark_runnable_same).
  - unfold pick. destruct (t_cursor self) as [c|]; [|by rewrite next_runnable_head].
    rewrite !next_runnable_head, runnable_after. by destruct (filter _ _).
Qed.

(** The next [n] choices. *)
Fixpoint turns (n : nat) (cursor : option Z) (R : list Z) : list Z :=
  match n with
  | O => []
  | S n => match pick cursor R with None => [] | Some tid => tid :: turns n (Some tid) R end
  end.

Lemma filter_none (P : Z -> Prop) `{forall x, Decision (P x)} l : Forall (fun x => ~ P x) l -> filter P l = [].
Proof. induction 1 as [|x l Hx _ IH]; [done|]. by rewrite filter_cons_False. Qed.

Lemma pick_next c a x b : Forall (fun y => y <= c) a -> c < x -> pick (Some c) (a ++ x :: b) = Some x.
Proof.
  intros Ha Hx. unfold pick. rewrite filter_app, (filter_none _ a); [by rewrite filter_cons_True|].
  eapply Forall_impl; [exact Ha|]. cbn. lia.
Qed.

(** From a cursor before [b1], the next choices are [b1]. *)
Lemma turns_run n R a b1 b2 c : StronglySorted Z.lt R -> R = a ++ b1 ++ b2 ->
  Forall (fun y => y <= c) a -> Forall (fun y => c < y) b1 ->
  turns (length b1 + n) (Some c) R = b1 ++ turns n (Some (default c (last b1))) R.
Proof.
  intros Hs. revert a c. induction b1 as [|x b1 IH]; intros a c E Ha Hb; [done|].
  inversion_clear Hb as [|? ? Hx Hb']. cbn [length turns Nat.add]. rewrite E at 1. cbn [app]. rewrite pick_next by done.
  assert (Hxs : Forall (fun y => x < y) (b1 ++ b2)).
  { rewrite E in Hs. apply StronglySorted_app_1_r in Hs. by apply StronglySorted_inv in Hs as [_ ?]. }
  rewrite (IH (a ++ [x])).
  - rewrite last_cons. by destruct (last b1).
  - rewrite E. by rewrite <- app_assoc.
  - apply Forall_app. split; [eapply Forall_impl; [exact Ha|cbn; lia]|repeat constructor; lia].
  - by apply Forall_app in Hxs as [? _].
Qed.

(** From a cursor whose next task is the first one, the next choices start over. *)
Lemma turns_wrap R x b1 b2 cursor : StronglySorted Z.lt R -> R = x :: b1 ++ b2 -> pick cursor R = Some x ->
  turns (S (length b1)) cursor R = x :: b1.
Proof.
  intros Hs E Hp. cbn [turns]. rewrite Hp. f_equal. pose proof Hs as Hs'. rewrite E in Hs'. apply StronglySorted_inv in Hs' as [_ [Hb _]%Forall_app].
  rewrite <- (Nat.add_0_r (length b1)), (turns_run 0 R [x] b1 b2 x); [by rewrite app_nil_r|done..|repeat constructor; lia|done].
Qed.

Lemma sorted_split c l : StronglySorted Z.lt l -> l = filter (fun x => x <= c) l ++ filter (fun x => c < x) l.
Proof.
  induction 1 as [|x l Hs IH Hx]; [done|]. destruct (decide (x <= c)) as [Hc|Hc].
  - rewrite (filter_cons_True _ x), (filter_cons_False _ x) by lia. cbn. by f_equal.
  - assert (Hno : filter (fun x => x <= c) l = []) by (apply filter_none; eapply Forall_impl; [exact Hx|cbn; lia]).
    rewrite (filter_cons_False _ x), (filter_cons_True _ x), Hno by lia. cbn. f_equal. by rewrite IH, Hno at 1.
Qed.

Lemma lt_sorted_NoDup l : StronglySorted Z.lt l -> NoDup l.
Proof.
  induction 1 as [|x l _ IH Hx]; constructor; [|done]. intros Hin. rewrite Forall_forall in Hx. by apply Hx, Z.lt_irrefl in Hin.
Qed.

(** No element is above the last of the upper part, or the bound. *)
Lemma sorted_last c l lo hi y : l = lo ++ hi -> StronglySorted Z.lt l -> Forall (fun y => y <= c) lo -> Forall (fun y => c < y) hi ->
  y ∈ lo ++ hi -> y <= default c (last hi).
Proof.
  intros -> Hs Hlo Hhi Hy. rewrite Forall_forall in Hlo, Hhi. destruct (last hi) as [z|] eqn:El; cbn.
  - apply last_Some in El as [l' ->]. rewrite app_assoc in Hs, Hy. apply elem_of_app in Hy as [Hy|Hy%list_elem_of_singleton]; [|lia].
    assert (y < z) by (eapply StronglySorted_app_1_elem_of; [exact Hs|done|by left]). lia.
  - apply last_None in El as ->. rewrite app_nil_r in Hy. by apply Hlo.
Qed.

(** The runnable tasks from the cursor on, around the table. *)
Definition in_turn (cursor : option Z) (R : list Z) : list Z :=
  match cursor with
  | None => R
  | Some c => filter (fun x => c < x) R ++ filter (fun x => x <= c) R
  end.

Lemma in_turn_perm cursor R : in_turn cursor R ≡ₚ R.
Proof.
  destruct cursor as [c|]; [|done]. cbn. rewrite <- (filter_app_complement (fun x => c < x) R) at 3.
  f_equiv. erewrite list_filter_iff; [done|]. intros x. cbn. lia.
Qed.

Lemma turns_round R cursor : StronglySorted Z.lt R -> turns (length R) cursor R = in_turn cursor R.
Proof.
  intros Hs. destruct cursor as [c|]; cbn [in_turn].
  - pose proof (sorted_split c _ Hs) as E.
    set (lo := filter (fun x => x <= c) R) in *. set (hi := filter (fun x => c < x) R) in *.
    assert (Hlo : Forall (fun y => y <= c) lo) by (apply Forall_forall; intros y [? _]%list_elem_of_filter; done).
    assert (Hhi : Forall (fun y => c < y) hi) by (apply Forall_forall; intros y [? _]%list_elem_of_filter; done).
    replace (length R) with (length hi + length lo)%nat by (rewrite E, length_app; lia).
    rewrite (turns_run _ R lo hi [] c); [|done|by rewrite app_nil_r|done..]. f_equal.
    destruct lo as [|x lo']; [done|]. apply (turns_wrap R x lo' hi); [done..|].
    unfold pick. rewrite filter_none; [by rewrite E|]. rewrite E. apply Forall_forall. intros y Hy.
    pose proof (sorted_last c _ _ _ y E Hs Hlo Hhi Hy). cbn. lia.
  - destruct R as [|x R]; [done|]. apply (turns_wrap _ x R []); [done|by rewrite app_nil_r|done].
Qed.

(** ** Timer interrupts *)

(** What the interrupt finds in the registers of the task that runs. *)
Record Interrupted : Type := mkInt { i_frame : list Z; i_sepc : Z; i_sstatus : Z; i_satp : Z }.

(** The timer branch of [trap_handler]. *)
Definition timer_interrupt self (r : Interrupted) : outcome (option TrapContext * Tasks D) :=
  switch (save_current self (i_frame r) (i_sepc r) (i_sstatus r) (i_satp r)).

(** The tasks that run after each of a sequence of interrupts. *)
Fixpoint ticks (l : list Interrupted) self : outcome (list (option Z) * Tasks D) :=
  match l with
  | [] => mret ([], self)
  | r :: l =>
      '(_, self) ← timer_interrupt self r;
      '(tids, self') ← ticks l self;
      mret (t_current self :: tids, self')
  end.

Lemma runnable_modify g (k : Z) m : om_ok m -> (forall task, t_status (g task) = t_status task) -> runnable (om_modify g k m) = runnable m.
Proof.
  intros Hok Hg. unfold om_modify. destruct (om_get k m) as [task|] eqn:E; [|done]. revert E.
  unfold runnable. induction m as [|[k' t'] m IH]; [done|]. apply om_ok_cons in Hok as [Hok _]. cbn [om_get om_insert].
  destruct (cmp k k') eqn:Ec; [|done|].
  - intros [= ->]. apply cmp_eq in Ec as ->. rewrite !filter_cons. cbn [snd]. rewrite Hg. by case_decide.
  - intros E. rewrite !filter_cons. cbn [snd]. case_decide; rewrite ?fmap_cons, IH; done.
Qed.

Lemma save_current_runnable self frame sepc sstatus satp : om_ok (t_map self) ->
  let self' := save_current self frame sepc sstatus satp in
  om_ok (t_map self') /\ runnable (t_map self') = runnable (t_map self) /\ t_cursor self' = t_cursor self.
Proof.
  intros Hok. unfold save_current. destruct (t_current self) as [c|]; [|done]. cbn. split; [by apply om_modify_ok|]. split; [|done].
  by apply runnable_modify.
Qed.

Lemma switch_pick self : om_ok (t_map self) -> t_map self <> [] ->
  match pick (t_cursor self) (runnable (t_map self)) with
  | Some tid => exists task, om_get tid (t_map self) = Some task /\ t_status task = Running /\
      switch self = Ret (Some (t_trap_context task), mkTasks (t_map self) (Some tid) (Some tid))
  | None => switch self = Panic
  end.
Proof.
  intros Hok Hne. pose proof (select_next_ok self Hok) as H. unfold switch. destruct (t_map self) as [|e m] eqn:Em; [done|].
  destruct (pick _ _) as [tid|]; [|by rewrite H]. destruct H as (task & Hg & Hs & ->). by exists task.
Qed.

Lemma pick_some cursor x R : exists tid, pick cursor (x :: R) = Some tid.
Proof. destruct cursor as [c|]; [|by exists x]. unfold pick. destruct (filter _ _) as [|y l]; eauto. Qed.

Lemma ticks_turns l self R : om_ok (t_map self) -> runnable (t_map self) = R -> R <> [] ->
  exists self', ticks l self = Ret (Some <$> turns (length l) (t_cursor self) R, self') /\ om_ok (t_map self') /\ runnable (t_map self') = R.
Proof.
  intros Hok HR Hne. revert self Hok HR. induction l as [|r l IH]; intros self Hok HR; [by exists self|]. cbn [ticks length turns].
  unfold timer_interrupt. set (s1 := save_current self _ _ _ _).
  destruct (save_current_runnable self (i_frame r) (i_sepc r) (i_sstatus r) (i_satp r) Hok) as (Hok1 & HR1 & Hc1). fold s1 in Hok1, HR1, Hc1.
  pose proof (switch_pick s1 Hok1) as Hsw. rewrite HR1, Hc1, HR in Hsw. destruct R as [|x R]; [done|].
  destruct (pick_some (t_cursor self) x R) as [tid E]. rewrite E in Hsw. destruct Hsw as (task & Hg & Hs & Hsw).
  { intros E1. rewrite E1 in HR1. rewrite HR in HR1. done. }
  destruct (IH (mkTasks (t_map s1) (Some tid) (Some tid))) as (self' & E' & Hok' & HR'); [done|by rewrite <- HR|].
  exists self'. split; [|done]. rewrite Hsw. unfold mbind, outcome_bind. cbn [t_cursor] in E'. rewrite E', E. done.
Qed.

End RoundRobin.

(** ** Properties *)

(** C33. Round robin: from any table with a runnable task, over as many timer
    interrupts as there are runnable tasks each runnable task is switched to
    exactly once, in the order of the task IDs that starts after the cursor and
    goes around the table; the kernel does not panic and the set of runnable
    tasks stays the same, whatever registers the interrupts save. *)
Theorem round_robin_fair {D} (self : Tasks D) (l : list Interrupted) : om_ok (t_map self) -> runnable (t_map self) <> [] ->
  length l = length (runnable (t_map self)) ->
  exists order self', ticks l self = Ret (Some <$> order, self') /\ runnable (t_map self') = runnable (t_map self) /\
    order = in_turn (t_cursor self) (runnable (t_map self)) /\ order ≡ₚ runnable (t_map self) /\ NoDup order.
Proof.
  intros Hok Hne Hl. pose proof (runnable_sorted _ Hok) as Hs.
  destruct (ticks_turns l self _ Hok eq_refl Hne) as (self' & E & _ & HR). exists (in_turn (t_cursor self) (runnable (t_map self))), self'.
  rewrite Hl, turns_round in E by done. split; [done|]. split; [done|]. split; [done|]. split; [apply in_turn_perm|].
  rewrite in_turn_perm. by apply lt_sorted_NoDup.
Qed.

Lemma round_robin_witness : exists order self',
  let task s := mkTask None [] s (mkMemorySet [] 0) (mkTrap [] 0 0 0) 0 [] in
  let r := mkInt [] 0 0 0 in
  ticks [r; r] (mkTasks [(1, task Running); (2, task Waiting); (3, task Running)] (Some 1) (Some 1) : Tasks unit) =
    Ret (Some <$> order, self') /\ order = [3; 1].
Proof.
  destruct (round_robin_fair (mkTasks [(1, mkTask None [] Running (mkMemorySet [] 0) (mkTrap [] 0 0 0) 0 []);
      (2, mkTask None [] Waiting (mkMemorySet [] 0) (mkTrap [] 0 0 0) 0 []);
      (3, mkTask None [] Running (mkMemorySet [] 0) (mkTrap [] 0 0 0) 0 [])] (Some 1) (Some 1) : Tasks unit)
    [mkInt [] 0 0 0; mkInt [] 0 0 0]) as (order & self' & E & _ & Eo & _); [|discriminate|reflexivity|].
  - repeat constructor.
  - exists order, self'. split; [exact E|rewrite Eo; reflexivity].
Defined.
