(* ===== verification/Processes.v ===== *)
(** * Processes: the life of the tasks

    The traps that reach the task table as a step relation on the table of
    [Tasks]: the timer, [clone], [execve], [exit], [wait4], the memory calls and
    the programs the kernel starts. The tree of processes is an invariant of
    the relation. *)

From stdpp Require Import gmap.
From S2P Require Import Prelude OrdMap Buddy BitFields Abi MemoryMap Paths Disk Vfs Tasks.

Section Steps.
Context {D : Type}.
Implicit Types (self : Tasks D) (task : Task D).

Definition set_memory task (ms : MemorySet) : Task D :=
  mkTask (t_parent task) (t_children task) (t_status task) ms (t_trap_context task) (t_exit_code task) (t_fd_table task).

(** A control block as [exec_buffer] and [Task::try_clone] build it. *)
Definition new_task (parent : option Z) task : Prop :=
  t_parent task = parent /\ t_children task = [] /\ t_status task = Running.

(** One trap, until a task runs again. *)
Inductive step : Tasks D -> Tasks D -> Prop :=
| step_start self ctx self' :
    t_current self = None -> switch self = Ret (Some ctx, self') -> step self self'
| step_timer self frame sepc sstatus satp ctx self' :
    switch (save_current self frame sepc sstatus satp) = Ret (Some ctx, self') -> step self self'
| step_memory self current ms :
    t_current self = Some current -> step self (update self current (fun task => set_memory task ms))
| step_clone self current tid task :
    t_current self = Some current -> om_get tid (t_map self) = None -> new_task (Some current) task ->
    step self (Tasks_add self tid (Some current) task)
| step_exec self tid task :
    om_get tid (t_map self) = None -> new_task None task -> step self (Tasks_add self tid None task)
| step_execve self current ms context ctx self' :
    t_current self = Some current ->
    switch (update self current (fun task => Task_mark_runnable (set_context (set_memory task ms) context))) = Ret (Some ctx, self') ->
    step self self'
| step_exit self code self1 ctx self' :
    exit self code = Ret self1 -> switch self1 = Ret (Some ctx, self') -> step self self'
| step_wait self tid nohang r self' :
    wait4 self tid nohang = (Some r, self') -> step self self'
| step_block self tid nohang self1 ctx self' :
    wait4 self tid nohang = (None, self1) -> switch self1 = Ret (Some ctx, self') -> step self self'.

(** The table once the first program is loaded: its task is init. *)
Inductive boot : Tasks D -> Prop :=
| boot_init task : new_task None task -> boot (Tasks_add Tasks_new 1 None task).

Inductive reachable : Tasks D -> Prop :=
| reach_boot self : boot self -> reachable self
| reach_step self self' : reachable self -> step self self' -> reachable self'.

(** ** The tree of processes *)

Definition offspring (m : list (Z * Task D)) : list Z := m ≫= (fun e => t_children e.2).

#[local] Instance offspring_Proper : Proper ((≡ₚ) ==> (≡ₚ)) offspring.
Proof. intros m m' H. by apply bind_Permutation. Qed.

(** Every task but init is in one list of children, once; zombies have no
    children, and init does not exit. *)
Record tree_ok (m : list (Z * Task D)) : Prop := {
  to_ok : om_ok m;
  to_keys : m.*1 ≡ₚ 1 :: offspring m;
  to_zombie : forall tid task, om_get tid m = Some task -> t_status task = Zombie -> t_children task = [] /\ tid <> 1
}.

Definition current_ok self : Prop :=
  forall tid, t_current self = Some tid -> exists task, om_get tid (t_map self) = Some task /\ t_status task = Running.

Definition procs_ok self : Prop := tree_ok (t_map self) /\ current_ok self.

Lemma offspring_modify g k m task : om_ok m -> om_get k m = Some task ->
  offspring (om_modify g k m) ++ t_children task ≡ₚ offspring m ++ t_children (g task).
Proof.
  intros Hok Hg. rewrite (om_modify_perm _ _ _ task Hok Hg). rewrite (om_remove_perm k task m Hg) at 2. cbn.
  set (rest := om_remove k m ≫= _). rewrite <- !app_assoc, (Permutation_app_comm rest), (Permutation_app_comm rest (t_children (g task))).
  rewrite !app_assoc. f_equiv. apply Permutation_app_comm.
Qed.

Lemma keys_modify (g : Task D -> Task D) (k : Z) m : om_ok m -> (om_modify g k m).*1 ≡ₚ m.*1.
Proof.
  intros Hok. unfold om_modify. destruct (om_get k m) as [task|] eqn:E; [|done].
  rewrite om_insert_perm by done. rewrite (om_remove_perm k task m E) at 2. done.
Qed.

Lemma tree_init m : tree_ok m -> exists task, om_get 1 m = Some task.
Proof.
  intros [Hok Hk _]. assert (H : 1 ∈ m.*1) by (rewrite Hk; left).
  apply list_elem_of_fmap in H as ([k task] & -> & Hin). exists task. by apply om_get_elem.
Qed.

(** A change that keeps the children, and makes no zombie. *)
Lemma tree_modify g k m : tree_ok m ->
  (forall task, om_get k m = Some task -> t_children (g task) = t_children task /\ (t_status (g task) = Zombie -> t_status task = Zombie)) ->
  tree_ok (om_modify g k m).
Proof.
  intros [Hok Hk Hz] Hg. split; [by apply om_modify_ok| |].
  - rewrite keys_modify, Hk by done. f_equiv. destruct (om_get k m) as [task|] eqn:E.
    + pose proof (offspring_modify g k m task Hok E) as H. destruct (Hg task eq_refl) as [Hc _]. rewrite Hc in H. by apply Permutation_app_inv_r in H.
    + unfold om_modify. by rewrite E.
  - intros tid task. rewrite om_get_modify by done. case_decide as Et; [subst tid|by apply Hz].
    destruct (om_get k m) as [task0|] eqn:E; [|done]. intros [= <-] Hs. destruct (Hg task0 eq_refl) as [-> Hg2]. eauto.
Qed.

Lemma switch_tree self ctx self' : om_ok (t_map self) -> switch self = Ret (Some ctx, self') ->
  t_map self' = t_map self /\ current_ok self'.
Proof.
  intros Hok. unfold switch. destruct (t_map self) as [|e m] eqn:Em; [done|]. rewrite <- Em in *.
  pose proof (select_next_ok self Hok) as H. destruct (pick _ _) as [tid|]; [|by rewrite H].
  destruct H as (task & Hg & Hs & ->). intros [= <- <-]. split; [done|].
  intros tid' [= <-]. by exists task.
Qed.

(** A new task becomes a child of its parent, or of init. *)
Lemma tree_add self tid parent task : tree_ok (t_map self) -> om_get tid (t_map self) = None -> new_task parent task ->
  is_Some (om_get (default 1 parent) (t_map self)) -> 
  (forall p, om_get (default 1 parent) (t_map self) = Some p -> t_status p <> Zombie) ->
  tree_ok (t_map (Tasks_add self tid parent task)).
Proof.
  intros [Hok Hk Hz] Hn (_ & Hc & Hs) [p Hp] Hlive. unfold Tasks_add, update. cbn [t_map].
  set (g := fun p => set_children p (t_children p ++ [tid])). pose proof (om_modify_ok g (default 1 parent) _ Hok) as Hok1.
  assert (Hn1 : om_get tid (om_modify g (default 1 parent) (t_map self)) = None).
  { rewrite om_get_modify by done. case_decide as E; [|done]. rewrite <- E, Hn in Hp. done. }
  split; [by apply om_insert_ok| |].
  - rewrite !om_insert_new, fmap_cons, keys_modify, Hk by done. cbn. rewrite Hc, perm_swap. f_equiv.
    change (tid :: offspring (t_map self) ≡ₚ offspring (om_modify g (default 1 parent) (t_map self))).
    pose proof (offspring_modify g _ _ p Hok Hp) as H. cbn in H. rewrite (Permutation_app_comm (t_children p)), app_assoc in H.
    apply Permutation_app_inv_r in H. rewrite H. apply Permutation_cons_append.
  - intros tid' task'. rewrite om_get_insert by done. case_decide; [by intros [= <-]; rewrite Hs|].
    rewrite om_get_modify by done. case_decide; [|by apply Hz]. rewrite Hp. intros [= <-] Hs'. by destruct (Hlive p Hp).
Qed.

(** The children of a task that exits go to init. *)
Lemma tree_exit self code self' : procs_ok self -> exit self code = Ret self' -> tree_ok (t_map self').
Proof.
  intros [[Hok Hk Hz] Hcur]. unfold exit. destruct (t_current self) as [tid|] eqn:Ec; [|by intros [= <-]].
  destruct (Z.eqb_spec tid 1) as [|Ht]; [done|]. destruct (Hcur _ Ec) as (task & Hg & _). rewrite Hg. intros [= <-].
  unfold update. cbn [t_map].
  set (g := fun task => set_children (set_status (Task_set_exit_code task code) Zombie) []).
  set (g' := fun init => set_children init (t_children init ++ t_children task)).
  destruct (tree_init (t_map self)) as [init Hi]; [done|]. pose proof (om_modify_ok g tid _ Hok) as Hok1.
  assert (Hi1 : om_get 1 (om_modify g tid (t_map self)) = Some init) by (rewrite om_get_modify, decide_False by auto; done).
  pose proof (offspring_modify g tid _ task Hok Hg) as H1. pose proof (offspring_modify g' 1 _ init Hok1 Hi1) as H2.
  cbn in H1, H2. rewrite app_nil_r in H1. rewrite (Permutation_app_comm (t_children init)), app_assoc, H1 in H2.
  apply Permutation_app_inv_r in H2. split; [by apply om_modify_ok| |].
  - by rewrite !keys_modify, Hk, H2 by done.
  - intros k t. rewrite om_get_modify by done. case_decide as E; [subst k; rewrite Hi1|].
    { intros [= <-] Hs. by apply Hz in Hi as [_ ?]. }
    rewrite om_get_modify by done. case_decide as E'; [subst k; rewrite Hg|by apply Hz]. intros [= <-] _. by split.
Qed.

Lemma wait4_block self tid nohang self' : wait4 self tid nohang = (None, self') ->
  self' = self \/ exists current, t_current self = Some current /\ self' = update self current (fun task => set_status task Waiting).
Proof.
  unfold wait4. destruct (t_current self) as [current|]; [|intros [= <-]; by left].
  destruct nohang; [by destruct (find_zombie_child _ _ _)|]. intros [= <-]. right. eauto.
Qed.

Lemma wait4_same self tid nohang r self' : wait4 self tid nohang = (Some r, self') -> self' = self.
Proof.
  unfold wait4. destruct (t_current self); [|done]. destruct nohang; [|done]. by destruct (find_zombie_child _ _ _); intros [= _ <-].
Qed.

(** A change of the current task that keeps it runnable. *)
Lemma procs_update self g current : procs_ok self -> t_current self = Some current ->
  (forall task, t_children (g task) = t_children task /\ (t_status task = Running -> t_status (g task) = Running)) ->
  procs_ok (update self current g).
Proof.
  intros [Ht Hc] E Hg. destruct (Hc _ E) as (task & Hgt & Hs). split.
  - apply tree_modify; [done|]. intros task' Hgt'. destruct (Hg task') as [-> Hr]. split; [done|].
    rewrite Hgt in Hgt'. injection Hgt' as <-. rewrite Hr by done. done.
  - intros tid E'. cbn in E'. rewrite E in E'. injection E' as <-. cbn. exists (g task). destruct (Hg task) as [_ Hr].
    rewrite om_get_modify, decide_True, Hgt by (done || apply Ht). split; [done|auto].
Qed.

Lemma procs_add self tid parent task : procs_ok self -> om_get tid (t_map self) = None -> new_task parent task ->
  parent = t_current self \/ parent = None -> procs_ok (Tasks_add self tid parent task).
Proof.
  intros [Ht Hc] Hn Hnew Hp.
  assert (exists p, om_get (default 1 parent) (t_map self) = Some p /\ t_status p <> Zombie) as (p & Hgp & Hsp).
  { destruct parent as [q|]; cbn.
    - destruct Hp as [Hp|]; [|done]. destruct (Hc q) as (p & Hgp & Hs); [done|]. exists p. by rewrite Hs.
    - destruct (tree_init _ Ht) as [p Hgp]. exists p. split; [done|]. intros Hs. by destruct (to_zombie _ Ht 1 p Hgp Hs). }
  split.
  - apply tree_add; [done..|by exists p|]. intros p' E. rewrite Hgp in E. by injection E as <-.
  - intros c E. cbn in E. destruct (Hc c E) as (t & Hgt & Hs). unfold Tasks_add, update. cbn [t_map].
    rewrite om_get_insert by (apply om_modify_ok, Ht). case_decide as Ec; [subst c; by rewrite Hn in Hgt|].
    rewrite om_get_modify by apply Ht. case_decide as Ed; [|by exists t]. rewrite <- Ed, Hgt. by eexists.
Qed.

Lemma procs_switch self ctx self' : tree_ok (t_map self) -> switch self = Ret (Some ctx, self') -> procs_ok self'.
Proof. intros Ht E. destruct (switch_tree _ _ _ (to_ok _ Ht) E) as [Em Hc]. split; [by rewrite Em|done]. Qed.

Lemma procs_step self self' : procs_ok self -> step self self' -> procs_ok self'.
Proof.
  intros H Hs. destruct Hs as [self ctx self' _ E|self frame sepc sstatus satp ctx self' E|self current ms Ec|
    self current tid task Ec Hn Hnew|self tid task Hn Hnew|self current ms context ctx self' Ec E|
    self code self1 ctx self' E1 E|self tid nohang r self' E|self tid nohang self1 ctx self' E1 E].
  - eapply procs_switch; [apply H|exact E].
  - eapply procs_switch; [|exact E]. unfold save_current. destruct (t_current self) as [c|] eqn:Ec; [|apply H].
    eapply procs_update; [done..|]. by intros task.
  - apply procs_update; [done..|]. by intros task.
  - apply procs_add; [done..|]. by left.
  - apply procs_add; [done..|]. by right.
  - eapply procs_switch; [|exact E]. eapply procs_update; [done..|]. by intros task.
  - eapply procs_switch; [|exact E]. by eapply tree_exit.
  - apply wait4_same in E as ->. done.
  - eapply procs_switch; [|exact E]. apply wait4_block in E1 as [->|(c & _ & ->)]; [apply H|].
    apply tree_modify; [apply H|]. by intros task.
Qed.

Lemma procs_boot self : boot self -> procs_ok self.
Proof.
  intros [task (_ & Hc & Hs)]. split; [|done]. unfold Tasks_add, update. cbn. split.
  - repeat constructor.
  - cbn. by rewrite Hc.
  - intros tid t Hg. cbn in Hg. destruct (tid ?= 1); [|done..]. injection Hg as <-. by rewrite Hs.
Qed.

Lemma procs_reachable self : reachable self -> procs_ok self.
Proof. induction 1; eauto using procs_boot, procs_step. Qed.

(** ** What a task that does not run can expect *)

Definition frozen (m m' : list (Z * Task D)) : Prop :=
  forall tid task, om_get tid m = Some task -> t_status task <> Running ->
    exists task', om_get tid m' = Some task' /\ t_status task' = t_status task /\
      t_trap_context task' = t_trap_context task /\ t_exit_code task' = t_exit_code task.

Lemma frozen_refl m : frozen m m.
Proof. intros tid task Hg _. eauto. Qed.

Lemma frozen_trans m m1 m2 : frozen m m1 -> frozen m1 m2 -> frozen m m2.
Proof.
  intros H1 H2 tid task Hg Hs. destruct (H1 tid task Hg Hs) as (t1 & Hg1 & Es1 & Ec1 & Ex1).
  destruct (H2 tid t1 Hg1) as (t2 & Hg2 & Es2 & Ec2 & Ex2); [by rewrite Es1|]. exists t2. by rewrite Es2, Ec2, Ex2.
Qed.

(** A change of the children, or of a task that runs. *)
Lemma frozen_modify g (k : Z) m : om_ok m ->
  (forall task, om_get k m = Some task -> t_status task = Running \/
    (t_status (g task) = t_status task /\ t_trap_context (g task) = t_trap_context task /\ t_exit_code (g task) = t_exit_code task)) ->
  frozen m (om_modify g k m).
Proof.
  intros Hok Hg tid task Hgt Hs. rewrite om_get_modify by done. case_decide as E; [subst tid|by eauto].
  rewrite Hgt. exists (g task). destruct (Hg task Hgt) as [|(? & ? & ?)]; done.
Qed.

Lemma frozen_current self g current : procs_ok self -> t_current self = Some current -> frozen (t_map self) (t_map (update self current g)).
Proof.
  intros [Ht Hc] E. apply frozen_modify; [apply Ht|]. intros task Hg. destruct (Hc _ E) as (t & Hgt & Hs).
  rewrite Hgt in Hg. injection Hg as <-. by left.
Qed.

Lemma frozen_add self tid parent task : om_ok (t_map self) -> om_get tid (t_map self) = None ->
  frozen (t_map self) (t_map (Tasks_add self tid parent task)).
Proof.
  intros Hok Hn. eapply frozen_trans; [apply (frozen_modify (fun p => set_children p (t_children p ++ [tid])) (default 1 parent)); [done|by right]|].
  intros tid' t Hg _. cbn [t_map Tasks_add update]. rewrite om_get_insert by (by apply om_modify_ok). case_decide as E; [|by exists t].
  subst tid'. rewrite om_get_modify in Hg by done. by case_decide as Ed; [rewrite <- Ed in Hg|]; rewrite Hn in Hg.
Qed.

Lemma frozen_exit self code self' : procs_ok self -> exit self code = Ret self' -> frozen (t_map self) (t_map self').
Proof.
  intros H. unfold exit. destruct (t_current self) as [tid|] eqn:Ec; [|intros [= <-]; apply frozen_refl].
  destruct (tid =? 1); [done|]. destruct (om_get tid (t_map self)) as [task|] eqn:Eg; [|intros [= <-]; apply frozen_refl].
  intros [= <-]. eapply frozen_trans; [by apply frozen_current|]. apply frozen_modify; [apply om_modify_ok, H|by right].
Qed.

Lemma frozen_step self self' : procs_ok self -> step self self' -> frozen (t_map self) (t_map self').
Proof.
  intros H Hs. pose proof (to_ok _ (proj1 H)) as Hok. destruct Hs as [self ctx self' _ E|self frame sepc sstatus satp ctx self' E|self current ms Ec|
    self current tid task Ec Hn Hnew|self tid task Hn Hnew|self current ms context ctx self' Ec E|
    self code self1 ctx self' E1 E|self tid nohang r self' E|self tid nohang self1 ctx self' E1 E].
  - apply switch_tree in E as [-> _]; [apply frozen_refl|done].
  - assert (Hf : frozen (t_map self) (t_map (save_current self frame sepc sstatus satp))).
    { unfold save_current. destruct (t_current self) eqn:Ec; [by apply frozen_current|apply frozen_refl]. }
    apply switch_tree in E as [-> _]; [done|]. unfold save_current. destruct (t_current self); [by apply om_modify_ok|done].
  - by apply frozen_current.
  - by apply frozen_add.
  - by apply frozen_add.
  - apply switch_tree in E as [-> _]; [by apply frozen_current|by apply om_modify_ok].
  - pose proof (tree_exit _ _ _ H E1) as Ht. apply switch_tree in E as [-> _]; [by eapply frozen_exit|apply Ht].
  - apply wait4_same in E as ->. apply frozen_refl.
  - apply wait4_block in E1 as [->|(c & Ec & ->)]; (apply switch_tree in E as [-> _]; [|try done; by apply om_modify_ok]);
      [apply frozen_refl|by apply frozen_current].
Qed.

(** ** [wait4] *)

(** The first zombie among the children of a task that are all in the table. *)
Lemma first_zombie_ok (m : list (Z * Task D)) children : (forall c, c ∈ children -> is_Some (om_get c m)) ->
  first_zombie m children = List.find (fun c => bool_decide (t_status <$> om_get c m = Some Zombie)) children.
Proof.
  induction children as [|c children IH]; intros Hin; [done|]. cbn [first_zombie List.find].
  destruct (Hin c) as [task Hg]; [by left|]. rewrite Hg. cbn. rewrite IH by (intros c' Hc'; apply Hin; by right).
  repeat case_bool_decide; congruence.
Qed.

Lemma child_in_table (m : list (Z * Task D)) tid task c : tree_ok m -> om_get tid m = Some task -> c ∈ t_children task -> is_Some (om_get c m).
Proof.
  intros [Hok Hk _] Hg Hc. assert (H : c ∈ m.*1).
  { rewrite Hk. right. unfold offspring. apply list_elem_of_bind. exists (tid, task). split; [done|]. by apply om_get_elem. }
  apply list_elem_of_fmap in H as ([k t] & -> & Hin). exists t. by apply om_get_elem.
Qed.

(** The children of a task that have exited, oldest first. *)
Definition zombies (m : list (Z * Task D)) (parent : Z) : list Z :=
  filter (fun c => t_status <$> om_get c m = Some Zombie) (from_option t_children [] (om_get parent m)).

Lemma find_head (P : Z -> Prop) `{forall x, Decision (P x)} l : List.find (fun x => bool_decide (P x)) l = head (filter P l).
Proof. induction l as [|x l IH]; [done|]. cbn [List.find]. rewrite filter_cons. by case_bool_decide; case_decide. Qed.

Lemma find_zombie_child_ok self parent task target : tree_ok (t_map self) -> om_get parent (t_map self) = Some task ->
  find_zombie_child self parent target =
    match target with
    | None => head (zombies (t_map self) parent)
    | Some t => if bool_decide (t ∈ zombies (t_map self) parent) then Some t else None
    end.
Proof.
  intros Ht Hg. unfold find_zombie_child, zombies. rewrite Hg. cbn. destruct target as [t|].
  - destruct (decide (t ∈ t_children task)) as [Hin|Hin].
    + rewrite bool_decide_true by done. destruct (child_in_table _ _ _ t Ht Hg Hin) as [child Hc]. rewrite Hc. cbn.
      rewrite (bool_decide_ext (t ∈ filter _ _) (t_status child = Zombie)); [done|]. rewrite list_elem_of_filter, Hc.
      cbn. split; [by intros [[= ?] _]|by intros ->].
    + rewrite !bool_decide_false; [done|by rewrite list_elem_of_filter; intros [_ ?]|done].
  - rewrite first_zombie_ok; [apply find_head|]. intros c Hc. by eapply child_in_table.
Qed.

(** The answer of [wait4] without blocking. *)
Definition wait_spec (m : list (Z * Task D)) (current tid : Z) : WaitResult :=
  let answer c := mkWait c (from_option t_exit_code 0 (om_get c m)) in
  if tid <=? 0 then from_option answer (mkWait 0 0) (head (zombies m current))
  else if bool_decide (tid ∈ zombies m current) then answer tid else mkWait 0 0.

Lemma wait4_ok self current tid : procs_ok self -> t_current self = Some current ->
  wait4 self tid true = (Some (wait_spec (t_map self) current tid), self).
Proof.
  intros [Ht Hc] E. destruct (Hc _ E) as (task & Hg & _). unfold wait4, wait_spec. rewrite E.
  rewrite (find_zombie_child_ok _ _ task) by done. destruct (tid <=? 0).
  - destruct (head _) as [c|]; [|done]. cbn. by destruct (om_get c (t_map self)).
  - case_bool_decide; [|done]. by destruct (om_get tid (t_map self)).
Qed.

Lemma bind_once {A} (f : A -> list Z) l e e' c : NoDup (l ≫= f) -> e ∈ l -> e' ∈ l -> c ∈ f e -> c ∈ f e' -> e = e'.
Proof.
  intros Hd He He' Hc Hc'. induction l as [|x l IH]; [by apply elem_of_nil in He|]. cbn in Hd.
  apply NoDup_app in Hd as (_ & Hx & Hd). assert (Hl : forall y, y ∈ l -> c ∈ f y -> c ∈ l ≫= f) by (intros y; rewrite list_elem_of_bind; eauto).
  rewrite elem_of_cons in He, He'. destruct He as [->|He], He' as [->|He']; [done|..|by apply IH]; edestruct Hx; eauto.
Qed.

Lemma bind_each {A} (f : A -> list Z) l e : NoDup (l ≫= f) -> e ∈ l -> NoDup (f e).
Proof.
  intros Hd He. induction l as [|x l IH]; [by apply elem_of_nil in He|]. cbn in Hd. apply NoDup_app in Hd as (Hx & _ & Hd).
  apply elem_of_cons in He as [->|He]; auto.
Qed.

(** No task is twice among the children. *)
Lemma tree_unique m : tree_ok m ->
  (forall p task, om_get p m = Some task -> 1 ∉ t_children task) /\
  (forall c p p' task task', om_get p m = Some task -> c ∈ t_children task -> om_get p' m = Some task' -> c ∈ t_children task' -> p = p') /\
  (forall p task, om_get p m = Some task -> NoDup (t_children task)).
Proof.
  intros [Hok Hk _]. pose proof (om_keys_NoDup _ Hok) as Hd. rewrite Hk in Hd. apply NoDup_cons in Hd as [H1 Hd]. split; [|split].
  - intros p task Hg Hin. apply H1, list_elem_of_bind. exists (p, task). split; [done|]. by apply om_get_elem.
  - intros c p p' task task' Hg Hc Hg' Hc'. apply om_get_elem in Hg, Hg'; [|done..].
    pose proof (bind_once _ _ _ _ c Hd Hg Hg' Hc Hc') as E. by injection E.
  - intros p task Hg. apply om_get_elem in Hg; [|done]. exact (bind_each _ _ _ Hd Hg).
Qed.

Lemma tree_parent m c : tree_ok m -> is_Some (om_get c m) -> c <> 1 -> exists p task, om_get p m = Some task /\ c ∈ t_children task.
Proof.
  intros [Hok Hk _] [t Hg] Hc. assert (H : c ∈ m.*1) by (apply list_elem_of_fmap; exists (c, t); by rewrite <- om_get_elem).
  rewrite Hk in H. apply elem_of_cons in H as [|H]; [done|]. apply list_elem_of_bind in H as ([p task] & Hch & Hin).
  exists p, task. by rewrite om_get_elem.
Qed.

End Steps.

(** ** Properties *)

(** C34. The tree of processes is an invariant of the kernel: in every table
    reachable from the one that holds init alone, by timer interrupts, [clone],
    [execve], [exit], [wait4], memory calls and programs started by the kernel,
    every task but init (and init itself never) is in exactly one list of
    children, a task that has exited has no children left, init has not exited,
    and the current task is a runnable task of the table. *)
Theorem processes_tree {D} (self : Tasks D) : reachable self ->
  om_ok (t_map self) /\
  (forall c, is_Some (om_get c (t_map self)) -> c <> 1 ->
    exists! p, exists task, om_get p (t_map self) = Some task /\ c ∈ t_children task) /\
  (forall p task, om_get p (t_map self) = Some task -> NoDup (t_children task) /\ (1 ∉ t_children task) /\
    (forall c, c ∈ t_children task -> is_Some (om_get c (t_map self))) /\
    (t_status task = Zombie -> t_children task = [] /\ p <> 1)) /\
  (forall c, t_current self = Some c -> exists task, om_get c (t_map self) = Some task /\ t_status task = Running).
Proof.
  intros Hr. destruct (procs_reachable self Hr) as [Ht Hc]. pose proof Ht as [Hok Hk Hz]. destruct (tree_unique _ Ht) as (H1 & Hone & Hdup).
  split; [done|]. split; [|split; [|done]].
  - intros c Hin Hc1. destruct (tree_parent _ c Ht Hin Hc1) as (p & task & Hg & Hch). exists p. split; [by exists task|].
    intros p' (task' & Hg' & Hch'). by eapply Hone.
  - intros p task Hg. split; [by eapply Hdup|]. split; [by eapply H1|]. split; [|by apply Hz].
    intros c Hch. by eapply child_in_table.
Qed.

Definition ex_context : TrapContext := mkTrap (replicate 32 0) 0 0 0.
Definition ex_task : Task unit := mkTask None [] Running (mkMemorySet [] 0) ex_context 0 [].
Definition ex_child : Task unit := mkTask (Some 1) [] Running (mkMemorySet [] 0) ex_context 0 [].

(** Init forks task 2, which runs and exits with code 7; init asks for it. *)
Definition ex_forked : Tasks unit := mkTasks (t_map (Tasks_add (Tasks_add Tasks_new 1 None ex_task) 2 (Some 1) ex_child)) (Some 1) (Some 1).
Definition ex_exited : Tasks unit :=
  mkTasks [(1, set_children ex_task [2]); (2, set_status (Task_set_exit_code ex_child 7) Zombie)] (Some 1) (Some 1).

Lemma ex_reachable : reachable ex_exited.
Proof.
  apply (reach_step (mkTasks (t_map ex_forked) (Some 2) (Some 2))).
  - apply (reach_step ex_forked).
    + apply (reach_step (mkTasks (t_map (Tasks_add Tasks_new 1 None ex_task)) (Some 1) (Some 1))).
      * apply (reach_step (Tasks_add Tasks_new 1 None ex_task)); [by apply reach_boot, boot_init|]. by apply (step_start _ ex_context).
      * by apply (step_clone (mkTasks (t_map (Tasks_add Tasks_new 1 None ex_task)) (Some 1) (Some 1)) 1 2 ex_child).
    + by apply (step_timer _ (replicate 32 0) 0 0 0 ex_context).
  - by apply (step_exit _ 7 (mkTasks (t_map ex_exited) (Some 2) (Some 2)) ex_context).
Qed.

Lemma processes_tree_witness : reachable ex_exited /\
  exists! p, exists task, om_get p (t_map ex_exited) = Some task /\ 2 ∈ t_children task.
Proof.
  split; [exact ex_reachable|]. apply (proj1 (proj2 (processes_tree ex_exited ex_reachable)) 2); [by eexists|done].
Defined.

(** [wait4] without blocking, in every reachable table: it answers with the
    oldest child of the caller that has exited (with the child asked for, when
    the argument is positive and that child has exited), and its exit code, and
    with 0 when there is none; the table does not change, so the child is not
    reaped and the next call gives the same answer. *)
Theorem wait4_correct {D} (self : Tasks D) (current tid : Z) : reachable self -> t_current self = Some current ->
  wait4 self tid true = (Some (wait_spec (t_map self) current tid), self) /\
  (forall c, c ∈ zombies (t_map self) current <-> exists task child,
    om_get current (t_map self) = Some task /\ c ∈ t_children task /\ om_get c (t_map self) = Some child /\ t_status child = Zombie).
Proof.
  intros Hr E. split; [by apply wait4_ok; [apply procs_reachable|]|]. intros c. unfold zombies. rewrite list_elem_of_filter.
  destruct (om_get current (t_map self)) as [task|]; cbn.
  - split.
    + intros [Hs Hin]. destruct (om_get c (t_map self)) as [child|]; [|done]. injection Hs as Hs. by exists task, child.
    + intros (task' & child & [= <-] & Hin & -> & Hs). cbn. by rewrite Hs.
  - split; [by intros [_ ?%elem_of_nil]|by intros (? & ? & ? & _)].
Qed.

Lemma wait4_witness : t_current ex_exited = Some 1 /\ wait4 ex_exited (-1) true = (Some (mkWait 2 7), ex_exited).
Proof. split; [reflexivity|]. exact (proj1 (wait4_correct ex_exited 1 (-1) ex_reachable eq_refl)). Defined.

(** C35. Nothing wakes a task: a task that is not runnable in a reachable table
    (it waits for a child, or has exited) is in the table with the same status,
    context and exit code after any further steps, so that a task that blocks
    in [wait4] never runs again, and the entry of a task that has exited is
    never freed. *)
Theorem not_runnable_forever {D} (self self' : Tasks D) (tid : Z) (task : Task D) : reachable self ->
  om_get tid (t_map self) = Some task -> t_status task <> Running -> rtc step self self' ->
  exists task', om_get tid (t_map self') = Some task' /\ t_status task' = t_status task /\
    t_trap_context task' = t_trap_context task /\ t_exit_code task' = t_exit_code task.
Proof.
  intros Hr Hg Hs Hrtc. enough (frozen (t_map self) (t_map self')) as H by by apply H. clear tid task Hg Hs.
  apply procs_reachable in Hr. induction Hrtc as [|self self1 self' Hstep _ IH]; [apply frozen_refl|].
  eapply frozen_trans; [by apply frozen_step|]. apply IH. by eapply procs_step.
Qed.

Lemma not_runnable_witness : exists task', om_get 2 (t_map ex_exited) = Some task' /\ t_status task' = Zombie.
Proof.
  destruct (not_runnable_forever ex_exited ex_exited 2 (set_status (Task_set_exit_code ex_child 7) Zombie) ex_reachable)
    as (task' & Hg & Hs & _); [reflexivity|discriminate|apply rtc_refl|]. by exists task'.
Defined.

(** C36. A blocking [wait4] of the only runnable task stops the kernel: the task
    is marked as waiting, and [switch], which finds no runnable task in a table
    that is not empty, panics. *)
Theorem wait4_last_panics {D} (self : Tasks D) (current tid : Z) : reachable self -> t_current self = Some current ->
  runnable (t_map self) = [current] ->
  exists self', wait4 self tid false = (None, self') /\ switch self' = Panic.
Proof.
  intros Hr E HR. destruct (procs_reachable self Hr) as [Ht _]. pose proof (to_ok _ Ht) as Hok.
  exists (update self current (fun task => set_status task Waiting)). split; [unfold wait4; by rewrite E|].
  set (m' := om_modify (fun task => set_status task Waiting) current (t_map self)).
  assert (Hok' : om_ok m') by by apply om_modify_ok.
  assert (HR' : runnable m' = []).
  { destruct (runnable m') as [|x l] eqn:El; [done|]. assert (Hx : x ∈ runnable m') by (rewrite El; left).
    apply runnable_elem in Hx as (task & Hg & Hs); [|done]. unfold m' in Hg. rewrite om_get_modify in Hg by done. case_decide as Ex.
    - destruct (om_get current (t_map self)); [|done]. injection Hg as <-. done.
    - assert (Hx : x ∈ runnable (t_map self)) by (apply runnable_elem; eauto). rewrite HR in Hx. by apply list_elem_of_singleton in Hx. }
  assert (Hp : forall c, pick c (@nil Z) = None) by (by intros [c|]).
  pose proof (switch_pick (update self current (fun task => set_status task Waiting)) Hok') as H. cbn [t_map update t_cursor] in H.
  fold m' in H. rewrite HR', Hp in H. apply H. destruct (tree_init _ Ht) as [init Hi]. unfold m', om_modify.
  intros E0. pose proof (keys_modify (fun task => set_status task Waiting) current _ Hok) as Hk. fold m' in Hk. unfold m', om_modify in Hk.
  rewrite E0 in Hk. apply Permutation_nil in Hk. by destruct (t_map self).
Qed.

Lemma wait4_last_witness : exists self', wait4 ex_exited 2 false = (None, self') /\ switch self' = Panic.
Proof. apply (wait4_last_panics ex_exited 1 2 ex_reachable); reflexivity. Defined.
