(* ===== verification/Clone.v ===== *)
(** * Clone: the [clone] system call
      ([Task::try_clone], [clone_task], [alloc_tid], [dealloc_tid] of
      [src/task.rs])

    The task table, the allocator of task IDs and the memory of the tasks
    together, with the invariant that relates them: every task in the table
    holds its ID, its page table agrees with its table of mappings, and no two
    tasks share a frame. *)

From stdpp Require Import gmap sorting.
From S2P Require Import Prelude OrdMap IdAlloc Buddy FrameAlloc BitFields Abi PageTable SpaceClone SpaceManager.
From S2P Require Import MemoryMap MapTable MapTheory MapOps UserMemory Fork Paths Disk Vfs Tasks Processes.

(** ** Operations *)

Definition TID_MAX : Z := 1024.
Definition TID_BITS : Z := 64.

(** [TASKS] with [CURRENT_TASK], [TID_ALLOCATOR], and the memory. *)
Record Kernel (D A : Type) : Type := mkKernel { kn_tasks : Tasks D; kn_tids : IdAlloc; kn_world : @world A }.
Arguments mkKernel {D A} _ _ _.
Arguments kn_tasks {D A} _.
Arguments kn_tids {D A} _.
Arguments kn_world {D A} _.

Section Ops.
Context {D A : Type} {FS : FrameSource A}.
Implicit Types (k : Kernel D A).

Definition TID_ALLOCATOR : outcome IdAlloc :=
  match IdAlloc_from_range TID_BITS 0 1 TID_MAX with Ok ids => Ret ids | Err _ => Panic end.

Definition alloc_tid k : outcome (option Z * Kernel D A) :=
  '(r, ids) ← IdAlloc_alloc TID_BITS (kn_tids k);
  mret (r, mkKernel (kn_tasks k) ids (kn_world k)).

Definition dealloc_tid k (tid : Z) : outcome (Kernel D A) :=
  '(_, ids) ← IdAlloc_dealloc TID_BITS 0 (kn_tids k) tid;
  mret (mkKernel (kn_tasks k) ids (kn_world k)).

(** The [satp] value of a root page table. *)
Definition satp_of (root : Z) : Z := SatpValue_set_mode (SatpValue_set_ppn SatpValue_new (PhysicalAddr_ppn root)) SatpMode_SV39.

Definition Task_try_clone (w : @world A) (self : Task D) (tid new_tid : Z) (frame : list Z) (sepc : Z)
    : outcome (result Error (Task D) * world) :=
  '(r, w) ← MemorySet_try_clone w (t_memory_set self) tid new_tid;
  match r with
  | Err e => mret (Err (ErrMem e), w)
  | Ok memory_set =>
      trap_context ← TrapContext_clone_child (t_trap_context self) frame sepc (satp_of (ms_root memory_set));
      mret (Ok (mkTask (Some tid) [] Running memory_set trap_context 0 (VfsFile_clone <$> t_fd_table self)), w)
  end.

Definition clone_task k (frame : list Z) (sepc : Z) : outcome (result Error Z * Kernel D A) :=
  match t_current (kn_tasks k) with
  | None => mret (Err (ErrProc NoOtherTask), k)
  | Some tid =>
      '(r, k) ← alloc_tid k;
      match r with
      | None => mret (Err NoTidAvailable, k)
      | Some new_tid =>
          '(cloned, w) ← match om_get tid (t_map (kn_tasks k)) with
                         | Some tcb => Task_try_clone (kn_world k) tcb tid new_tid frame sepc
                         | None => mret (Err (ErrProc NoOtherTask), kn_world k)
                         end;
          let k := mkKernel (kn_tasks k) (kn_tids k) w in
          match cloned with
          | Ok tcb => mret (Ok new_tid, mkKernel (Tasks_add (kn_tasks k) new_tid (Some tid) tcb) (kn_tids k) w)
          | Err err => k ← dealloc_tid k new_tid; mret (Err err, k)
          end
      end
  end.

End Ops.

(** ** Task IDs *)

(** The allocator of task IDs, with the IDs that are free. *)
Definition tids_rep (ids : IdAlloc) (free : Z -> bool) : Prop :=
  Id_rep TID_BITS 0 ids (mkState 1 TID_MAX free (fun _ => false) (fun _ => false)).

Lemma tid_bits : 0 <= 0 < TID_BITS /\ TID_BITS <= 64.
Proof. unfold TID_BITS. lia. Qed.

Lemma tids_rep_ext ids free free' : (forall i, free i = free' i) -> tids_rep ids free -> tids_rep ids free'.
Proof.
  intros E [Hr Ha Hf Hm Hs]. split; [done|done| |done|].
  - apply (Flat_rep_ext TID_BITS _ _ _ _ _ (fun i _ => E i) (fun i _ => eq_refl) Hf).
  - intros b. specialize (Hs b). destruct (om_get b (ia_majors ids)); [|done]. by destruct Hs.
Qed.

Lemma alloc_tid_rep ids free : tids_rep ids free -> let r := List.find free (seqZ 1 (TID_MAX - 1)) in
  exists ids', IdAlloc_alloc TID_BITS ids = Ret (r, ids') /\
    tids_rep ids' (match r with Some id => fill free id 1 false | None => free end).
Proof.
  intros H. destruct (Id_alloc_ok TID_BITS 0 tid_bits _ _ H) as (ids' & E & H'). cbn [IdAlloc_exec id_step fst snd sp_flat sp_start sp_end] in *.
  apply outcome_bind_inv in E as ([r i] & E1 & E2). injection E2 as -> ->. exists ids'. split; [done|]. by destruct (List.find _ _).
Qed.

Lemma dealloc_tid_rep ids free tid : tids_rep ids free -> 1 <= tid < TID_MAX -> free tid = false ->
  exists ids', IdAlloc_dealloc TID_BITS 0 ids tid = Ret (Ok tt, ids') /\ tids_rep ids' (fill free tid 1 true).
Proof.
  intros H Hr Hf. destruct (Id_dealloc_ok TID_BITS 0 tid_bits _ _ tid H) as (ids' & E & H'). cbn [IdAlloc_exec id_step] in *.
  unfold in_ids in *. cbn [sp_start sp_end sp_major sp_flat] in *. replace ((1 <=? tid) && (tid <? TID_MAX)) with true in * by lia.
  cbn [negb] in *. rewrite Hf in *. cbn [fst snd] in *. apply outcome_bind_inv in E as ([r i] & E1 & E2). injection E2 as -> ->.
  exists ids'. by split.
Qed.

Lemma find_tid free tid : List.find free (seqZ 1 (TID_MAX - 1)) = Some tid -> 1 <= tid < TID_MAX /\ free tid = true.
Proof. intros [Hin Hf]%List.find_some. apply list_elem_of_In, elem_of_seqZ in Hin. split; [lia|done]. Qed.

(** ** The memory of the tasks *)

Section Memory.
Context {D A : Type} {FS : FrameSource A} {FL : FrameLaws A}.
Implicit Types (m : list (Z * Task D)) (w : @world A).

Definition task_table (task : Task D) : list UserMapping := ms_mappings (t_memory_set task).

Definition all_frames m : list Frame := m ≫= (fun e => tab_frames (task_table e.2)).

#[export] Instance all_frames_Proper : Proper ((≡ₚ) ==> (≡ₚ)) all_frames.
Proof. intros m m' H. by apply bind_Permutation. Qed.

(** The page table of every task agrees with its table of mappings; the frames
    of the tasks, and [extra], are held apart from each other and from the page
    tables. *)
Record mem_ok (extra : list Frame) m w : Prop := {
  mo_rel : exists abs TK frames, frames ≡ₚ all_frames m ++ extra /\ mrel frames (wsys w) abs TK /\
    forall tid task, om_get tid m = Some task -> exists sh, in_space abs tid sh (task_table task);
  mo_tabs : forall tid task, om_get tid m = Some task -> tab_wf (task_table task) /\ Forall sized (tab_frames (task_table task))
}.

Lemma all_frames_modify g (k : Z) m : om_ok m -> (forall task, t_memory_set (g task) = t_memory_set task) ->
  all_frames (om_modify g k m) ≡ₚ all_frames m.
Proof.
  intros Hok Hg. destruct (om_get k m) as [task|] eqn:E; [|unfold om_modify; by rewrite E].
  rewrite (om_modify_perm _ _ _ task Hok E). rewrite (om_remove_perm k task m E) at 2.
  unfold all_frames, task_table. cbn. rewrite Hg. done.
Qed.

Lemma mem_ok_modify extra g (k : Z) m w : om_ok m -> (forall task, t_memory_set (g task) = t_memory_set task) ->
  mem_ok extra (om_modify g k m) w <-> mem_ok extra m w.
Proof.
  intros Hok Hg.
  pose proof (all_frames_modify g k m Hok Hg) as Hf.
  assert (Hl : forall (P : list UserMapping -> Z -> Prop), (forall tid task, om_get tid (om_modify g k m) = Some task -> P (task_table task) tid) <->
    (forall tid task, om_get tid m = Some task -> P (task_table task) tid)).
  { intros P. unfold task_table. split; intros H tid task Ht.
    - destruct (decide (tid = k)) as [->|Hne].
      + specialize (H k (g task)). rewrite Hg in H. apply H. rewrite om_get_modify, decide_True, Ht by done. done.
      + apply H. by rewrite om_get_modify, decide_False.
    - rewrite om_get_modify in Ht by done. case_decide; [subst tid|by apply H].
      destruct (om_get k m) as [task0|] eqn:E; [|done]. injection Ht as <-. rewrite Hg. by apply H. }
  split; intros [(abs & TK & frames & Hp & M & Hi) Ht]; (split; [exists abs, TK, frames|]).
  - rewrite <- Hf. split; [done|]. split; [done|]. apply (Hl (fun l tid => exists sh, in_space abs tid sh l)), Hi.
  - apply (Hl (fun l _ => tab_wf l /\ Forall sized (tab_frames l))), Ht.
  - rewrite Hf. split; [done|]. split; [done|]. apply (Hl (fun l tid => exists sh, in_space abs tid sh l)), Hi.
  - apply (Hl (fun l _ => tab_wf l /\ Forall sized (tab_frames l))), Ht.
Qed.

(** A copy of a task's memory for a new ID. *)
Lemma mem_try_clone extra m w tid task new_tid : om_ok m -> mem_ok extra m w -> om_get tid m = Some task -> om_get new_tid m = None ->
  exists r w', MemorySet_try_clone w (t_memory_set task) tid new_tid = Ret (r, w') /\
    same_on (all_frames m ++ extra) (w_heap w) (w_heap w') /\
    match r with
    | Ok ms => sees_copy (task_table task) (ms_mappings ms) (w_heap w') /\
        AddressSpaceManager_user_root_addr (w_mgr w') new_tid = Ok (ms_root ms) /\
        forall child, t_memory_set child = ms -> mem_ok extra (om_insert new_tid child m) w'
    | Err _ => mem_ok extra m w'
    end.
Proof.
  intros Hok [(abs0 & TK0 & frames & Hp & M & Hi) Ht] Eg En. destruct (Ht _ _ Eg) as [Hw Hz]. destruct (Hi _ _ Eg) as [sh Hs].
  set (rest := all_frames (om_remove tid m) ++ extra).
  assert (Hall : all_frames m ++ extra ≡ₚ tab_frames (task_table task) ++ rest).
  { unfold rest. rewrite app_assoc. f_equiv. by rewrite (om_remove_perm tid task m Eg) at 1. }
  assert (I : minv abs0 tid sh rest w (task_table task)).
  { apply (in_space_minv abs0 TK0 _ _ _ _ _ _ M); [by rewrite Hp|done|done]. }
  assert (Hne : new_tid <> tid) by congruence.
  destruct (try_clone_rel abs0 tid sh rest w (t_memory_set task) new_tid I Hz Hne) as (r & w' & abs & TK & E & S & Hi' & [_ Ho] & Hr).
  exists r, w'. split; [done|]. split.
  { apply (same_on_sub _ _ _ _ S). intros f Hf. by rewrite Hall in Hf. }
  assert (Hothers : forall t task', om_get t m = Some task' -> exists sh', in_space abs t sh' (task_table task')).
  { intros t task' Et. destruct (decide (t = tid)) as [->|Hd].
    - rewrite Eg in Et. injection Et as <-. by exists sh.
    - destruct (Hi _ _ Et) as (sh' & u & Hu & Hus). exists sh', u. rewrite Ho; [done|done|congruence]. }
  destruct r as [ms|e].
  - destruct Hr as (M' & Hin & Hw' & Hz' & Hc & Er). split; [done|]. split; [done|]. intros child Hms.
    split; [exists abs, TK; eexists; split; [|split; [exact M'|]]|].
    + rewrite om_insert_new by done. unfold all_frames, task_table at 1. cbn. rewrite Hms, <- app_assoc. by rewrite Hall.
    + intros t task'. rewrite om_get_insert by done. case_decide as Et; [|by apply Hothers]. intros [= <-]. subst t. exists sh.
      unfold task_table. by rewrite Hms.
    + intros t task'. rewrite om_get_insert by done. case_decide as Et; [|by apply Ht]. intros [= <-]. unfold task_table. by rewrite Hms.
  - split; [|done]. exists abs, TK. eexists. split; [|split; [exact Hr|done]]. by rewrite Hall.
Qed.

End Memory.

(** ** The kernel *)

Section Clone.
Context {D A : Type} {FS : FrameSource A} {FL : FrameLaws A}.
Implicit Types (k : Kernel D A).

(** The tree of processes, the IDs of the tasks and their memory. *)
Record kernel_ok (extra : list Frame) (free : Z -> bool) k : Prop := {
  ko_procs : procs_ok (kn_tasks k);
  ko_tids : tids_rep (kn_tids k) free;
  ko_used : forall tid task, om_get tid (t_map (kn_tasks k)) = Some task -> 1 <= tid < TID_MAX /\ free tid = false;
  ko_mem : mem_ok extra (t_map (kn_tasks k)) (kn_world k)
}.

(** The control block of a child that returns from the call with [a0 = 0]. *)
Definition child_of (tid : Z) (task child : Task D) (frame : list Z) (sepc : Z) : Prop :=
  t_parent child = Some tid /\ t_children child = [] /\ t_status child = Running /\ t_exit_code child = 0 /\
  t_fd_table child = t_fd_table task /\
  t_trap_context child = mkTrap (<[A0_INDEX := 0]> frame) (satp_of (ms_root (t_memory_set child))) (sepc + 4)
    (tc_sstatus (t_trap_context task)).

Lemma fd_table_clone (l : list (VfsFile D)) : VfsFile_clone <$> l = l.
Proof. induction l as [|[] l IH]; [done|]. rewrite fmap_cons, IH. done. Qed.

Lemma Task_try_clone_ok extra m (w : @world A) tid task new_tid frame sepc :
  om_ok m -> mem_ok extra m w -> om_get tid m = Some task -> om_get new_tid m = None -> 0 <= sepc < 2 ^ 64 - 4 ->
  exists r w', Task_try_clone w task tid new_tid frame sepc = Ret (r, w') /\
    same_on (all_frames m ++ extra) (w_heap w) (w_heap w') /\
    match r with
    | Ok child => child_of tid task child frame sepc /\ sees_copy (task_table task) (task_table child) (w_heap w') /\
        AddressSpaceManager_activate (w_mgr w') (IdUser new_tid) = Ok (tc_satp (t_trap_context child)) /\
        forall child', t_memory_set child' = t_memory_set child -> mem_ok extra (om_insert new_tid child' m) w'
    | Err e => (exists err, e = ErrMem err) /\ mem_ok extra m w'
    end.
Proof.
  intros Hok Hm Eg En Hs. unfold Task_try_clone.
  destruct (mem_try_clone extra m w tid task new_tid Hok Hm Eg En) as (r & w' & -> & S & Hr). rewrite outcome_bind_Ret.
  destruct r as [ms|e]; [|exists (Err (ErrMem e)), w'; split; [done|]; split; [done|]; split; [by eexists|done]].
  destruct Hr as (Hc & Er & Hi). unfold TrapContext_clone_child, u64_add, usize_add.
  destruct (Z.ltb_spec (sepc + 4) (2 ^ 64)); [|lia]. rewrite !outcome_bind_Ret. eexists (Ok _), w'. split; [done|]. split; [done|].
  split; [repeat split; by rewrite ?fd_table_clone|]. split; [done|]. split; [|by intros child' E; apply Hi].
  unfold AddressSpaceManager_user_root_addr in Er. unfold AddressSpaceManager_activate. destruct (om_get new_tid (am_user (w_mgr w'))) as [sp|]; [|done].
  injection Er as Er. cbn. by rewrite Er.
Qed.

(** The [clone] system call. In a kernel whose process tree, task IDs and
    memory are consistent, [clone] does not panic and leaves them so. When it
    succeeds the table is that before with one more task, under the smallest
    free task ID, as a child of the caller; the child resumes after the call
    with [a0 = 0] and the caller's registers, shares its open files, and has
    the caller's flags and words at every address, in frames of its own, with
    the [satp] of its own page table. When it fails the table and the free
    task IDs are as before. In both cases no word of any task's memory changes. *)
Theorem clone_task_ok extra free k tid frame sepc :
  kernel_ok extra free k -> t_current (kn_tasks k) = Some tid -> 0 <= sepc < 2 ^ 64 - 4 ->
  exists r k', clone_task k frame sepc = Ret (r, k') /\
    same_on (all_frames (t_map (kn_tasks k)) ++ extra) (w_heap (kn_world k)) (w_heap (kn_world k')) /\
    match r with
    | Ok new_tid => exists task child, om_get tid (t_map (kn_tasks k)) = Some task /\
        List.find free (seqZ 1 (TID_MAX - 1)) = Some new_tid /\ om_get new_tid (t_map (kn_tasks k)) = None /\
        kn_tasks k' = Tasks_add (kn_tasks k) new_tid (Some tid) child /\ child_of tid task child frame sepc /\
        sees_copy (task_table task) (task_table child) (w_heap (kn_world k')) /\
        AddressSpaceManager_activate (w_mgr (kn_world k')) (IdUser new_tid) = Ok (tc_satp (t_trap_context child)) /\
        kernel_ok extra (fill free new_tid 1 false) k'
    | Err e => (e = NoTidAvailable \/ exists err, e = ErrMem err) /\ kn_tasks k' = kn_tasks k /\ kernel_ok extra free k'
    end.
Proof.
  intros [Hp Hids Hused Hmem] Hc Hs. unfold clone_task, alloc_tid. rewrite Hc.
  destruct (alloc_tid_rep _ _ Hids) as (ids & -> & Hids'). rewrite !outcome_bind_Ret.
  destruct (List.find _ _) as [new_tid|] eqn:Ef.
  2: { eexists _, _. split; [done|]. split; [apply same_on_refl|]. split; [by left|]. split; [done|]. by split. }
  destruct Hp as [Ht Hcur]. destruct (Hcur _ Hc) as (task & Eg & Hst). apply find_tid in Ef as Hnew. destruct Hnew as [Hr Hfree].
  assert (En : om_get new_tid (t_map (kn_tasks k)) = None).
  { destruct (om_get new_tid _) as [t|] eqn:E; [|done]. destruct (Hused _ _ E). congruence. }
  cbn [kn_tasks kn_world kn_tids]. rewrite Eg. set (m := t_map (kn_tasks k)) in *.
  set (g := fun p : Task D => set_children p (t_children p ++ [new_tid])).
  assert (Hok : om_ok m) by apply Ht. assert (Hok1 : om_ok (om_modify g tid m)) by (by apply om_modify_ok).
  assert (Hsame : forall p, t_memory_set (g p) = t_memory_set p) by done.
  destruct (Task_try_clone_ok extra (om_modify g tid m) (kn_world k) tid (g task) new_tid frame sepc) as (r & w' & E & S & Hres); try done.
  { by apply mem_ok_modify. }
  { by rewrite om_get_modify, decide_True, Eg. }
  { rewrite om_get_modify by done. case_decide; [congruence|done]. }
  change (Task_try_clone (kn_world k) task tid new_tid frame sepc = Ret (r, w')) in E. rewrite E, outcome_bind_Ret.
  assert (S' : same_on (all_frames m ++ extra) (w_heap (kn_world k)) (w_heap w')).
  { apply (same_on_sub _ _ _ _ S). intros f. rewrite !elem_of_app. intros [Hf|]; [left|by right]. by rewrite all_frames_modify. }
  destruct r as [child|e].
  - destruct Hres as (Hch & Hsee & Hact & Hmo). eexists (Ok new_tid), _. split; [done|]. split; [done|]. exists task, child.
    do 7 (split; [done|]). split; cbn [kn_tasks kn_tids kn_world]; [|done| |].
    + apply procs_add; [done|done| |by left]. destruct Hch as (H1 & H2 & H3 & _). done.
    + intros t task'. unfold Tasks_add, update. cbn [t_map]. rewrite om_get_insert by done. rewrite fill_one.
      case_decide as Et; [by intros _; subst t|].
      change (om_modify _ _ _) with (om_modify g tid m). rewrite om_get_modify by done. case_decide; [|by apply Hused]. subst t. rewrite Eg. intros _. by apply (Hused tid task).
    + by apply Hmo.
  - destruct Hres as ([err ->] & Hmo). destruct (dealloc_tid_rep _ _ new_tid Hids') as (ids2 & Ed & Hids2); [done|by rewrite fill_one, decide_True|].
    unfold dealloc_tid. cbn [kn_tasks kn_tids kn_world]. rewrite Ed, !outcome_bind_Ret. eexists _, _. split; [done|]. split; [done|].
    split; [by right; eexists|]. split; [done|]. split; cbn [kn_tasks kn_tids kn_world]; [done| |done|by apply mem_ok_modify in Hmo].
    eapply tids_rep_ext; [|exact Hids2]. intros i. rewrite !fill_one. by case_decide; [subst i|].
Qed.

End Clone.

(** ** The first task *)

(** The first task ID in use. *)
Lemma first_tid : exists ids free, tids_rep ids free /\ free 1 = false.
Proof.
  destruct (alloc_tid_rep (mkIdAlloc (FlatAlloc_new 1 TID_MAX) []) (fun _ => true)) as (ids & _ & Hids).
  { apply (Id_init_rep TID_BITS 0 tid_bits 1 TID_MAX); done. }
  exists ids, (fill (fun _ => true) 1 1 false). by split.
Qed.

(** Init alone, with no mappings. *)
Lemma init_kernel {D A : Type} {FS : FrameSource A} {FL : FrameLaws A} abs0 sh (w : @world A) (task : Task D) ids free : minv abs0 1 sh [] w [] ->
  new_task None task -> task_table task = [] -> tids_rep ids free -> free 1 = false ->
  kernel_ok [] free (mkKernel (mkTasks [(1, task)] (Some 1) (Some 1)) ids w).
Proof.
  intros [(abs & TK & u & M & _ & _ & _ & Hu & Hs & Hv) Hw] (_ & Hch & Hst) Et Hids Hf.
  assert (Hget : forall tid t, om_get tid [(1, task)] = Some t -> tid = 1 /\ t = task).
  { intros tid t [H|H%elem_of_nil]%om_get_elem%elem_of_cons; [by injection H|done|repeat constructor]. }
  split; cbn [kn_tasks kn_tids kn_world t_map].
  - split; [split; [repeat constructor| |]|].
    + unfold offspring. cbn. by rewrite Hch.
    + intros tid t [-> ->]%Hget. by rewrite Hst.
    + intros tid [= <-]. by exists task.
  - exact Hids.
  - intros tid t [-> ->]%Hget. by split.
  - split; [exists abs, TK, []; split; [unfold all_frames; cbn; by rewrite Et|]; split; [exact M|]|].
    + intros tid t [-> ->]%Hget. exists sh, u. by rewrite Et.
    + intros tid t [-> ->]%Hget. rewrite Et. split; [exact Hw|constructor].
Qed.

(** ** Example *)

#[local] Existing Instance pool_laws.

(** Init alone, on the pool of four pages. *)
Lemma ex_kernel_ok : exists free (k : Kernel unit BuddyAllocator), kernel_ok [] free k /\ t_current (kn_tasks k) = Some 1.
Proof.
  destruct ex_minv as (abs0 & sh & w & I). set (task := mkTask None [] Running (mkMemorySet [] 0) ex_context 0 [] : Task unit).
  destruct first_tid as (ids & free & Hids & Hf). exists free. eexists. split; [by apply (init_kernel abs0 sh w task ids free I)|done].
Qed.

Lemma clone_task_witness : exists free (k : Kernel unit BuddyAllocator) r k',
  kernel_ok [] free k /\ clone_task k (replicate 32 0) 0x1000 = Ret (r, k').
Proof.
  destruct ex_kernel_ok as (free & k & Hk & Hc).
  destruct (clone_task_ok [] free k 1 (replicate 32 0) 0x1000) as (r & k' & E & _).
  - exact Hk.
  - exact Hc.
  - lia.
  - exists free, k, r, k'. split; [exact Hk|exact E].
Defined.
