(* ===== verification/InitStack.v ===== *)
(** * InitStack: the stack a program starts with
      ([build_initial_stack] and its helpers in [src/task/exec.rs])

    From the lowest address up: [argc], the pointers to the arguments and a null
    pointer, the pointers to the environment and a null pointer, the auxiliary
    vector, padding, the argument strings and the environment strings, each
    with its final NUL. Strings are lists of bytes. *)

From stdpp Require Import gmap.
From S2P Require Import Prelude Buddy FrameAlloc Bytes ByteMem Abi PageTable MemoryMap.

(** ** Operations *)

Definition STACK_ALIGN : Z := 16.
Definition AT_NULL : Z := 0.
Definition AT_PHDR : Z := 3.
Definition AT_PHENT : Z := 4.
Definition AT_PHNUM : Z := 5.
Definition AT_PAGESZ : Z := 6.
Definition AT_ENTRY : Z := 9.

Definition len {X} (l : list X) : Z := Z.of_nat (length l).

(** A sum that does not fit in [usize] panics. *)
Definition usize_fit (x : Z) : outcome Z := if x <? 2 ^ 64 then mret x else Panic.

(** [usize::next_multiple_of]. *)
Definition next_multiple_of (x m : Z) : Z := if x mod m =? 0 then x else x + (m - x mod m).

Definition pointer_words (argv envp : list (list Z)) (auxv : list (Z * Z)) : Z :=
  1 + len argv + 1 + len envp + 1 + len auxv * 2.

Fixpoint strings_size (strs : list (list Z)) : Z :=
  match strs with [] => 0 | s :: strs => len s + 1 + strings_size strs end.

Definition initial_stack_size (argv envp : list (list Z)) (auxv : list (Z * Z)) : outcome Z :=
  let pointer_block := pointer_words argv envp auxv * 8 in
  usize_fit (next_multiple_of (pointer_block + strings_size (argv ++ envp)) STACK_ALIGN).

Definition push_cstr (h : heap) (sp : Z) (s : list Z) : outcome (Z * heap) :=
  sp ← usize_sub sp (len s + 1);
  h ← store_bytes h sp s;
  h ← store_byte h (sp + len s) 0;
  mret (sp, h).

(** The closure [to_va] of [build_initial_stack]. *)
Definition to_va (user_stack : Frame) (pa : Z) : outcome Z :=
  off ← usize_sub pa (fr_start user_stack);
  usize_add USER_STACK_LOWER_BOUND off.

(** [for s in strs.iter().rev() { addrs.push(to_va(push_cstr(&mut sp, s))) }],
    with the strings in the order of the loop. *)
Fixpoint push_strings (user_stack : Frame) (h : heap) (sp : Z) (strs : list (list Z)) (addrs : list Z)
    : outcome (list Z * Z * heap) :=
  match strs with
  | [] => mret (addrs, sp, h)
  | s :: strs =>
      '(sp, h) ← push_cstr h sp s;
      va ← to_va user_stack sp;
      push_strings user_stack h sp strs (addrs ++ [va])
  end.

Definition auxv_words (auxv : list (Z * Z)) : list Z := auxv ≫= (fun e => [e.1; e.2]).

Definition build_initial_stack (h : heap) (argv envp : list (list Z)) (auxv : list (Z * Z)) (user_stack : Frame)
    : outcome (result Error Z * heap) :=
  required ← initial_stack_size argv envp auxv;
  if fr_size user_stack <? required then mret (Err (ErrProc ArgsTooLong), h)
  else
    stack_top ← usize_add (fr_start user_stack) (fr_size user_stack);
    '(envp_addrs, sp, h) ← push_strings user_stack h stack_top (rev envp) [];
    let envp_addrs := rev envp_addrs in
    '(argv_addrs, sp, h) ← push_strings user_stack h sp (rev argv) [];
    let argv_addrs := rev argv_addrs in
    sp ← usize_sub sp (pointer_words argv envp auxv * 8);
    let sp := Z.land sp (Z.lnot (STACK_ALIGN - 1)) in
    h ← store_words h sp (len argv :: argv_addrs ++ 0 :: envp_addrs ++ 0 :: auxv_words auxv);
    sp_va ← to_va user_stack sp;
    if sp_va mod STACK_ALIGN =? 0 then mret (Ok sp_va, h) else Panic.

(** ** What the program finds *)

(** The word and the string at a user address of the stack. *)
Definition stack_word (f : Frame) (h : heap) (va : Z) : option Z := h !! (fr_start f + (va - USER_STACK_LOWER_BOUND)).

Definition cstr_at (f : Frame) (h : heap) (va : Z) (s : list Z) : Prop :=
  USER_STACK_LOWER_BOUND <= va /\ va + len s + 1 <= USER_STACK_LOWER_BOUND + fr_size f /\
  bytes_at h (fr_start f + (va - USER_STACK_LOWER_BOUND)) (s ++ [0]).

(** A null-terminated array of pointers to the strings. *)
Definition args_at (f : Frame) (h : heap) (va : Z) (strs : list (list Z)) : Prop :=
  (forall i s, strs !! i = Some s -> exists p, stack_word f h (va + 8 * Z.of_nat i) = Some p /\ cstr_at f h p s) /\
  stack_word f h (va + 8 * len strs) = Some 0.

Definition auxv_at (f : Frame) (h : heap) (va : Z) (auxv : list (Z * Z)) : Prop :=
  forall i t v, auxv !! i = Some (t, v) ->
    stack_word f h (va + 16 * Z.of_nat i) = Some t /\ stack_word f h (va + 16 * Z.of_nat i + 8) = Some v.

(** The words from [va] up, as a program reads them. *)
Definition stack_layout (f : Frame) (h : heap) (va : Z) (argv envp : list (list Z)) (auxv : list (Z * Z)) : Prop :=
  (USER_STACK_LOWER_BOUND <= va /\ va + 8 * pointer_words argv envp auxv <= USER_STACK_LOWER_BOUND + fr_size f /\ va mod STACK_ALIGN = 0) /\
  stack_word f h va = Some (len argv) /\ args_at f h (va + 8) argv /\ args_at f h (va + 8 + 8 * (len argv + 1)) envp /\
  auxv_at f h (va + 8 + 8 * (len argv + 1) + 8 * (len envp + 1)) auxv.

(** ** Sizes *)

Lemma len_nonneg {X} (l : list X) : 0 <= len l.
Proof. unfold len. lia. Qed.

Lemma len_cons {X} (x : X) l : len (x :: l) = 1 + len l.
Proof. unfold len. cbn [length]. lia. Qed.

Lemma len_app {X} (l l' : list X) : len (l ++ l') = len l + len l'.
Proof. unfold len. rewrite length_app. lia. Qed.

Lemma strings_size_nonneg strs : 0 <= strings_size strs.
Proof. induction strs as [|s strs IH]; cbn [strings_size]; [lia|]. pose proof (len_nonneg s). lia. Qed.

Lemma strings_size_app l l' : strings_size (l ++ l') = strings_size l + strings_size l'.
Proof. induction l as [|s l IH]; cbn [strings_size app]; lia. Qed.

Lemma strings_size_rev l : strings_size (rev l) = strings_size l.
Proof. induction l as [|s l IH]; [done|]. cbn [rev]. rewrite strings_size_app. cbn [strings_size]. lia. Qed.

Lemma next_multiple_of_ok x m : 0 < m -> exists k, next_multiple_of x m = m * k /\ x <= m * k < x + m.
Proof.
  intros Hm. unfold next_multiple_of. pose proof (Z.div_mod x m ltac:(lia)). pose proof (Z.mod_pos_bound x m Hm).
  destruct (Z.eqb_spec (x mod m) 0); [exists (x / m)|exists (x / m + 1)]; lia.
Qed.

Lemma auxv_words_length auxv : length (auxv_words auxv) = (length auxv * 2)%nat.
Proof. induction auxv as [|e auxv IH]; [done|]. cbn. by f_equal; f_equal. Qed.

Lemma auxv_words_lookup auxv i t v : auxv !! i = Some (t, v) ->
  auxv_words auxv !! (2 * i)%nat = Some t /\ auxv_words auxv !! (2 * i + 1)%nat = Some v.
Proof.
  revert i. induction auxv as [|[t' v'] auxv IH]; intros [|i]; cbn [lookup list_lookup]; [done|done|by intros [= -> ->]|].
  intros H. replace (2 * S i)%nat with (S (S (2 * i))) by lia. replace (2 * S i + 1)%nat with (S (S (2 * i + 1))) by lia. by apply IH.
Qed.

(** ** The strings *)

(** A frame of whole pages. *)
Definition stack_frame (f : Frame) : Prop :=
  0 <= fr_start f /\ fr_start f mod 16 = 0 /\ 0 <= fr_size f /\ fr_size f mod 16 = 0 /\ fr_start f + fr_size f < 2 ^ 63.

Lemma to_va_ok f pa : stack_frame f -> fr_start f <= pa <= fr_start f + fr_size f ->
  to_va f pa = Ret (USER_STACK_LOWER_BOUND + (pa - fr_start f)).
Proof.
  intros (H0 & _ & _ & _ & Hb) Hp. unfold to_va, usize_sub, usize_add. destruct (Z.leb_spec (fr_start f) pa); [|lia]. rewrite outcome_bind_Ret.
  unfold USER_STACK_LOWER_BOUND, PAGE_SIZE in *. destruct (Z.ltb_spec (0x100000000 - 8 * 4096 + (pa - fr_start f)) (2 ^ 64)); [done|lia].
Qed.

Lemma mod16_mod8 x : x mod 16 = 0 -> x mod 8 = 0.
Proof. intros H. pose proof (Z.div_mod x 16 ltac:(lia)). replace x with (2 * (x / 16) * 8) by lia. by rewrite Z.mod_mul. Qed.

Lemma push_cstr_ok f h sp s : stack_frame f -> bytes s -> present h (fr_start f) (fr_size f) ->
  fr_start f + len s + 1 <= sp <= fr_start f + fr_size f ->
  let p := sp - (len s + 1) in
  exists h', push_cstr h sp s = Ret (p, h') /\ writes f h h' /\ bytes_at h' p (s ++ [0]) /\
    forall x, ~ p <= x < sp -> byte_at h' x = byte_at h x.
Proof.
  intros (H0 & Hm & _ & _ & Hb) Hs Hp Hr p. pose proof (len_nonneg s). unfold push_cstr, usize_sub.
  destruct (Z.leb_spec (len s + 1) sp); [|lia]. rewrite outcome_bind_Ret. fold p.
  assert (Hl : Z.of_nat (length s) = len s) by done.
  destruct (store_bytes_ok f s h p) as (h1 & -> & W1 & B1); [by apply mod16_mod8|done| |lia|lia|].
  { intros x Hx. apply Hp. lia. }
  rewrite outcome_bind_Ret.
  destruct (store_bytes_ok f [0] h1 (p + len s)) as (h2 & E2 & W2 & B2); [by apply mod16_mod8|by repeat constructor| |cbn [length]; lia|cbn [length]; lia|].
  { apply (present_writes f h); [done|]. intros x Hx. cbn [length] in Hx. apply Hp. lia. }
  cbn [store_bytes] in E2. destruct (store_byte h1 (p + len s) 0) as [h2'|]; [|done]. rewrite outcome_bind_Ret in E2. injection E2 as ->.
  rewrite outcome_bind_Ret. exists h2. split; [done|]. split; [by eapply writes_trans|]. cbn [length] in B2. split.
  - intros i b. rewrite B2, B1. rewrite lookup_app_Some. intros [Hi|[Hi Hi']].
    + pose proof (lookup_lt_Some _ _ _ Hi). rewrite decide_False, decide_True by lia. by replace (Z.to_nat (p + Z.of_nat i - p)) with i by lia.
    + apply list_lookup_singleton_Some in Hi' as [Hi0 <-]. rewrite decide_True by lia.
      by replace (Z.to_nat (p + Z.of_nat i - (p + len s))) with O by lia.
  - intros x Hx. rewrite B2, B1. by rewrite !decide_False by lia.
Qed.

Lemma bytes_at_same h h' a bs lo hi : bytes_at h a bs -> lo <= a -> a + len bs <= hi ->
  (forall x, lo <= x < hi -> byte_at h' x = byte_at h x) -> bytes_at h' a bs.
Proof.
  intros H Hlo Hhi Hs i b Hi. pose proof (lookup_lt_Some _ _ _ Hi). unfold len in Hhi. rewrite Hs by lia. by apply H.
Qed.

(** The strings lie below [sp], the first at the highest address. *)
Definition strings_below (f : Frame) (h : heap) (lo sp : Z) (strs : list (list Z)) (addrs : list Z) : Prop :=
  Forall2 (fun s va => lo <= fr_start f + (va - USER_STACK_LOWER_BOUND) /\
    fr_start f + (va - USER_STACK_LOWER_BOUND) + len s + 1 <= sp /\ cstr_at f h va s) strs addrs.

Lemma strings_below_same f h h' lo hi strs addrs : strings_below f h lo hi strs addrs ->
  (forall x, lo <= x < hi -> byte_at h' x = byte_at h x) -> strings_below f h' lo hi strs addrs.
Proof.
  intros H Hs. eapply Forall2_impl; [exact H|]. cbn. intros s va (H1 & H2 & H3 & H4 & H5). split; [done|]. split; [done|]. split; [done|].
  split; [done|]. apply (bytes_at_same h h' _ _ lo hi H5); [done|rewrite len_app; change (len [0]) with 1; lia|done].
Qed.

Lemma strings_below_mono f h lo lo' hi hi' strs addrs : strings_below f h lo hi strs addrs -> lo' <= lo -> hi <= hi' -> strings_below f h lo' hi' strs addrs.
Proof. intros H Hl Hh. eapply Forall2_impl; [exact H|]. cbn. intros s va (H1 & H2 & H3). split; [lia|]. split; [lia|done]. Qed.

Lemma push_strings_ok f strs h sp addrs : stack_frame f -> Forall bytes strs -> present h (fr_start f) (fr_size f) ->
  fr_start f + strings_size strs <= sp <= fr_start f + fr_size f ->
  let p := sp - strings_size strs in
  exists new h', push_strings f h sp strs addrs = Ret (addrs ++ new, p, h') /\ writes f h h' /\
    strings_below f h' p sp strs new /\ forall x, ~ p <= x < sp -> byte_at h' x = byte_at h x.
Proof.
  intros Hf HF. revert h sp addrs. induction HF as [|s strs Hs _ IH]; intros h sp addrs Hp Hr p; cbn [push_strings strings_size] in *.
  { exists [], h. rewrite app_nil_r. unfold p. rewrite Z.sub_0_r. split; [done|]. split; [constructor|]. split; [constructor|done]. }
  pose proof (len_nonneg s). pose proof (strings_size_nonneg strs).
  destruct (push_cstr_ok f h sp s Hf Hs Hp) as (h1 & -> & W1 & B1 & N1); [lia|]. rewrite outcome_bind_Ret. set (q := sp - (len s + 1)) in *.
  rewrite to_va_ok by (done || lia). rewrite outcome_bind_Ret.
  destruct (IH h1 q (addrs ++ [USER_STACK_LOWER_BOUND + (q - fr_start f)])) as (new & h2 & -> & W2 & B2 & N2);
    [by apply (present_writes f h)|lia|].
  exists (USER_STACK_LOWER_BOUND + (q - fr_start f) :: new), h2. replace (q - strings_size strs) with p in * by lia.
  split; [by rewrite <- app_assoc|]. split; [by eapply writes_trans|]. split.
  - constructor.
    + unfold cstr_at. replace (fr_start f + (USER_STACK_LOWER_BOUND + (q - fr_start f) - USER_STACK_LOWER_BOUND)) with q by lia.
      split; [lia|]. split; [lia|]. split; [lia|]. split; [lia|]. apply (bytes_at_same h1 h2 _ _ q sp B1); [lia|rewrite len_app; change (len [0]) with 1; lia|].
      intros x Hx. apply N2. lia.
    + apply (strings_below_mono _ _ _ _ _ _ _ _ B2); lia.
  - intros x Hx. rewrite N2, N1 by lia. done.
Qed.

(** ** The whole stack *)

Lemma Forall2_rev {X Y} (P : X -> Y -> Prop) l k : Forall2 P l k -> Forall2 P (rev l) (rev k).
Proof. induction 1 as [|x y l k Hxy _ IH]; cbn [rev]; [constructor|]. apply Forall2_app; [done|by repeat constructor]. Qed.

Lemma land_align x : Z.land x (Z.lnot (STACK_ALIGN - 1)) = 16 * (x / 16).
Proof.
  unfold STACK_ALIGN. change (16 - 1) with (Z.ones 4). rewrite <- Z.ldiff_land, Z.ldiff_ones_r by lia.
  rewrite Z.shiftl_mul_pow2, Z.shiftr_div_pow2 by lia. change (2 ^ 4) with 16. lia.
Qed.

(** The bottom of the stack: what is left of a multiple of 16. *)
Lemma stack_bottom top x k : top mod 16 = 0 -> x <= 16 * k < x + 16 -> 16 * ((top - x) / 16) = top - 16 * k.
Proof.
  intros Hm Hk. pose proof (Z.div_mod top 16 ltac:(lia)). 
  replace ((top - x) / 16) with (top / 16 - k); [lia|]. apply (Z.div_unique_pos _ _ _ (16 * k - x)); lia.
Qed.

(** An array of pointers in the words written at [sp]. *)
Lemma args_at_words f h sp va (ws : list Z) (off : nat) strs (addrs : list Z) lo hi :
  (forall i x, ws !! i = Some x -> h !! (sp + 8 * Z.of_nat i) = Some x) -> va = USER_STACK_LOWER_BOUND + (sp - fr_start f) ->
  strings_below f h lo hi strs addrs -> (forall i x, (addrs ++ [0]) !! i = Some x -> ws !! (off + i)%nat = Some x) ->
  args_at f h (va + 8 * Z.of_nat off) strs.
Proof.
  intros Hw -> Hs Ha. pose proof (Forall2_length _ _ _ Hs) as Hl.
  assert (Hword : forall i x, (addrs ++ [0]) !! i = Some x -> stack_word f h (USER_STACK_LOWER_BOUND + (sp - fr_start f) + 8 * Z.of_nat off + 8 * Z.of_nat i) = Some x).
  { intros i x Hi. unfold stack_word. rewrite <- (Hw _ _ (Ha i x Hi)). f_equal. lia. }
  split.
  - intros i s Hi. destruct (Forall2_lookup_l _ _ _ _ _ Hs Hi) as (va & Hva & _ & _ & Hc). exists va. split; [|done].
    apply Hword. by apply lookup_app_l_Some.
  - unfold len. apply Hword. rewrite Hl. by apply list_lookup_middle.
Qed.

(** The words at [sp] as the program reads them. *)
Lemma layout_ok f h sp argv envp auxv aa ea lo mid hi :
  let ws := len argv :: aa ++ 0 :: ea ++ 0 :: auxv_words auxv in
  let va := USER_STACK_LOWER_BOUND + (sp - fr_start f) in
  (forall i x, ws !! i = Some x -> h !! (sp + 8 * Z.of_nat i) = Some x) ->
  strings_below f h lo mid argv aa -> strings_below f h mid hi envp ea ->
  fr_start f <= sp -> sp + 8 * pointer_words argv envp auxv <= fr_start f + fr_size f -> va mod STACK_ALIGN = 0 ->
  stack_layout f h va argv envp auxv.
Proof.
  intros ws va S3 B3 B4 Hlo Hhi Hal. pose proof (Forall2_length _ _ _ B3) as Hla. pose proof (Forall2_length _ _ _ B4) as Hle.
  assert (Hws : ws = (len argv :: aa ++ [0]) ++ (ea ++ [0]) ++ auxv_words auxv) by (unfold ws; cbn; by rewrite <- !app_assoc).
  assert (Hl1 : length (len argv :: aa ++ [0]) = (2 + length argv)%nat) by (cbn; rewrite length_app; cbn; lia).
  assert (Hl2 : length (ea ++ [0]) = (1 + length envp)%nat) by (rewrite length_app; cbn; lia).
  split; [split; [lia|split; [lia|done]]|]. split; [|split; [|split]].
  - unfold stack_word, va. rewrite <- (S3 O (len argv) eq_refl). f_equal. lia.
  - apply (args_at_words f h sp va ws 1 argv aa lo mid S3 eq_refl B3). intros i x Hi. rewrite Hws. by apply lookup_app_l_Some.
  - replace (va + 8 + 8 * (len argv + 1)) with (va + 8 * Z.of_nat (2 + length argv)) by (unfold len; lia).
    apply (args_at_words f h sp va ws _ envp ea mid hi S3 eq_refl B4). intros i x Hi.
    rewrite Hws, lookup_app_r, Hl1 by lia. replace (2 + length argv + i - (2 + length argv))%nat with i by lia. by apply lookup_app_l_Some.
  - assert (Hx : forall i x, auxv_words auxv !! i = Some x -> ws !! (3 + length argv + length envp + i)%nat = Some x).
    { intros i x Hi. rewrite Hws, lookup_app_r, Hl1, lookup_app_r, Hl2 by lia. rewrite <- Hi. f_equal. lia. }
    intros i t v Hi. destruct (auxv_words_lookup auxv i t v Hi) as [Ht Hv]. apply Hx, S3 in Ht, Hv. unfold stack_word, va, len.
    split; [rewrite <- Ht|rewrite <- Hv]; f_equal; lia.
Qed.

Lemma build_stack_ok h argv envp auxv f required : stack_frame f -> present h (fr_start f) (fr_size f) ->
  Forall bytes argv -> Forall bytes envp -> initial_stack_size argv envp auxv = Ret required ->
  exists r h', build_initial_stack h argv envp auxv f = Ret (r, h') /\ writes f h h' /\
    match r with
    | Ok va => required <= fr_size f /\ va = USER_STACK_LOWER_BOUND + fr_size f - required /\ va mod STACK_ALIGN = 0 /\
        stack_layout f h' va argv envp auxv
    | Err e => e = ErrProc ArgsTooLong /\ fr_size f < required /\ h' = h
    end.
Proof.
  intros Hf Hp Ha He Er. unfold build_initial_stack. rewrite Er, outcome_bind_Ret.
  destruct (Z.ltb_spec (fr_size f) required) as [Hlt|Hge].
  { exists (Err (ErrProc ArgsTooLong)), h. split; [done|]. split; [constructor|done]. }
  unfold initial_stack_size, usize_fit in Er. rewrite strings_size_app in Er.
  destruct (next_multiple_of_ok (pointer_words argv envp auxv * 8 + (strings_size argv + strings_size envp)) 16 ltac:(lia)) as (k & Ek & Hk).
  unfold STACK_ALIGN in Er. rewrite Ek in Er. destruct (_ <? _); [|done]. injection Er as <-.
  pose proof (len_nonneg argv). pose proof (len_nonneg envp). pose proof (len_nonneg auxv).
  pose proof (strings_size_nonneg argv). pose proof (strings_size_nonneg envp).
  assert (Hpw : 0 < pointer_words argv envp auxv) by (unfold pointer_words; lia).
  assert (Hfr := Hf). destruct Hfr as (Hz0 & Hm & Hz & Hzm & Hb). unfold usize_add. destruct (Z.ltb_spec (fr_start f + fr_size f) (2 ^ 64)); [|lia].
  rewrite outcome_bind_Ret. set (top := fr_start f + fr_size f) in *.
  assert (Htop : top mod 16 = 0) by (unfold top; by rewrite Zplus_mod, Hm, Hzm).
  destruct (push_strings_ok f (rev envp) h top [] Hf) as (ea & h1 & -> & W1 & B1 & N1); [by apply Forall_rev|done|rewrite strings_size_rev; lia|].
  rewrite outcome_bind_Ret. cbn [app]. rewrite strings_size_rev in *. set (sp1 := top - strings_size envp) in *.
  destruct (push_strings_ok f (rev argv) h1 sp1 [] Hf) as (aa & h2 & -> & W2 & B2 & N2);
    [by apply Forall_rev|by apply (present_writes f h)|rewrite strings_size_rev; lia|].
  rewrite outcome_bind_Ret. cbn [app]. rewrite strings_size_rev in *. set (sp2 := sp1 - strings_size argv) in *.
  unfold usize_sub. destruct (Z.leb_spec (pointer_words argv envp auxv * 8) sp2); [|lia]. rewrite outcome_bind_Ret, land_align.
  replace (sp2 - pointer_words argv envp auxv * 8) with (top - (pointer_words argv envp auxv * 8 + (strings_size argv + strings_size envp))) by lia.
  rewrite (stack_bottom top _ k Htop Hk). set (sp := top - 16 * k) in *.
  assert (Hsp : sp mod 16 = 0) by (unfold sp; by rewrite Zminus_mod, Htop, Z.mul_comm, Z.mod_mul).
  apply Forall2_rev in B1, B2. rewrite rev_involutive in B1, B2. fold (strings_below f h1 sp1 top envp (rev ea)) in B1. fold (strings_below f h2 sp2 sp1 argv (rev aa)) in B2.
  assert (Hle : length (rev ea) = length envp) by (by rewrite <- (Forall2_length _ _ _ B1)).
  assert (Hla : length (rev aa) = length argv) by (by rewrite <- (Forall2_length _ _ _ B2)).
  set (ws := len argv :: _).
  assert (Hws : Z.of_nat (length ws) = pointer_words argv envp auxv).
  { unfold ws, pointer_words, len. cbn [length]. rewrite !length_app. cbn [length]. rewrite !length_app. cbn [length]. rewrite auxv_words_length, Hla, Hle. lia. }
  destruct (store_words_ok f ws h2 sp) as (h3 & -> & W3 & S3 & N3); [by apply mod16_mod8| |lia|lia|].
  { apply (present_writes f h1); [done|]. apply (present_writes f h); [done|]. intros x Hx. apply Hp. lia. }
  rewrite outcome_bind_Ret, to_va_ok by (done || lia). rewrite outcome_bind_Ret.
  set (va := USER_STACK_LOWER_BOUND + (sp - fr_start f)).
  assert (Hva : va mod STACK_ALIGN = 0).
  { unfold va, STACK_ALIGN. rewrite Zplus_mod, (Zminus_mod sp), Hsp, Hm. done. }
  rewrite Hva. cbn [Z.eqb]. exists (Ok va), h3. split; [done|]. split; [by eapply writes_trans; [|eapply writes_trans]|].
  split; [done|]. split; [unfold va, sp, top; lia|]. split; [done|].
  assert (B3 : strings_below f h3 sp2 sp1 argv (rev aa)) by (apply (strings_below_same _ h2); [done|]; intros x Hx; apply N3; lia).
  assert (B4 : strings_below f h3 sp1 top envp (rev ea)).
  { apply (strings_below_same _ h1); [done|]. intros x Hx. destruct (N3 x) as [_ ->]; [lia|]. apply N2. lia. }
  apply (layout_ok f h3 sp argv envp auxv (rev aa) (rev ea) sp2 sp1 top); [done|done|done|lia|lia|done].
Qed.

(** ** Reading the arguments back *)

(** What a program does with its stack: strings up to a NUL, and the strings
    behind an array of pointers up to a null pointer. *)
Fixpoint read_cstr (fuel : nat) (h : heap) (a : Z) : option (list Z) :=
  match fuel with
  | O => None
  | S fuel => b ← byte_at h a; if b =? 0 then Some [] else s ← read_cstr fuel h (a + 1); Some (b :: s)
  end.

Fixpoint read_strings (fuel : nat) (f : Frame) (h : heap) (va : Z) : option (list (list Z)) :=
  match fuel with
  | O => None
  | S fuel =>
      p ← stack_word f h va;
      if p =? 0 then Some []
      else
        s ← read_cstr (Z.to_nat (fr_size f)) h (fr_start f + (p - USER_STACK_LOWER_BOUND));
        strs ← read_strings fuel f h (va + 8);
        Some (s :: strs)
  end.

Definition nul_free (s : list Z) : Prop := Forall (fun b => b <> 0) s.

Lemma read_cstr_ok fuel h a s : bytes_at h a (s ++ [0]) -> nul_free s -> (length s < fuel)%nat -> read_cstr fuel h a = Some s.
Proof.
  intros H Hn. revert fuel a H. induction Hn as [|b s Hb _ IH]; intros [|fuel] a H Hl; cbn [length] in Hl; try lia; cbn [read_cstr].
  - pose proof (H O 0 eq_refl) as E. cbn in E. rewrite Z.add_0_r in E. by rewrite E.
  - pose proof (H O b eq_refl) as E. cbn [Z.of_nat] in E. rewrite Z.add_0_r in E. rewrite E. cbn [mbind option_bind]. destruct (Z.eqb_spec b 0); [done|].
    rewrite IH; [done| |lia]. intros i x Hi. replace (a + 1 + Z.of_nat i) with (a + Z.of_nat (S i)) by lia. by apply H.
Qed.

Lemma read_strings_ok fuel f h va strs : args_at f h va strs -> Forall nul_free strs -> (length strs < fuel)%nat ->
  read_strings fuel f h va = Some strs.
Proof.
  intros H Hn. revert fuel va H. induction Hn as [|s strs Hs _ IH]; intros [|fuel] va [H H0] Hl; cbn [length] in Hl; try lia; cbn [read_strings].
  - unfold len in H0. cbn in H0. by rewrite Z.add_0_r in H0; rewrite H0.
  - destruct (H O s eq_refl) as (p & Hp & Hlo & Hhi & Hb). cbn in Hp. rewrite Z.add_0_r in Hp. rewrite Hp. cbn [mbind option_bind].
    pose proof (len_nonneg s). assert (p <> 0) by (unfold USER_STACK_LOWER_BOUND, PAGE_SIZE in Hlo; lia). destruct (Z.eqb_spec p 0); [done|].
    rewrite (read_cstr_ok _ _ _ s Hb Hs) by (unfold len in Hhi; lia). cbn [mbind option_bind]. rewrite IH; [done| |lia]. split.
    + intros i t Hi. replace (va + 8 + 8 * Z.of_nat i) with (va + 8 * Z.of_nat (S i)) by lia. by apply H.
    + rewrite len_cons in H0. replace (va + 8 + 8 * len strs) with (va + 8 * (1 + len strs)) by lia. done.
Qed.

(** The initial stack. On a stack frame in memory, [build_initial_stack]
    does not fault and writes only to the frame. When the arguments fit it
    returns the user address of the lowest word, a multiple of 16, with [argc]
    there; the program reads back exactly its arguments from the array of
    pointers after it and its environment from the array after that, and finds
    the auxiliary vector. Otherwise the error is [ArgsTooLong] and the memory
    is as before. *)
Theorem build_initial_stack_ok h argv envp auxv f required : stack_frame f -> present h (fr_start f) (fr_size f) ->
  Forall bytes argv -> Forall bytes envp -> Forall nul_free argv -> Forall nul_free envp ->
  initial_stack_size argv envp auxv = Ret required ->
  exists r h', build_initial_stack h argv envp auxv f = Ret (r, h') /\ writes f h h' /\
    match r with
    | Ok va => required <= fr_size f /\ va = USER_STACK_LOWER_BOUND + fr_size f - required /\ va mod STACK_ALIGN = 0 /\
        stack_word f h' va = Some (len argv) /\
        read_strings (S (length argv)) f h' (va + 8) = Some argv /\
        read_strings (S (length envp)) f h' (va + 8 + 8 * (len argv + 1)) = Some envp /\
        auxv_at f h' (va + 8 + 8 * (len argv + 1) + 8 * (len envp + 1)) auxv
    | Err e => e = ErrProc ArgsTooLong /\ fr_size f < required /\ h' = h
    end.
Proof.
  intros Hf Hp Ha He Hna Hne Er. destruct (build_stack_ok h argv envp auxv f required Hf Hp Ha He Er) as (r & h' & E & W & Hr).
  exists r, h'. split; [done|]. split; [done|]. destruct r as [va|e]; [|done]. destruct Hr as (H1 & H2 & H3 & _ & H4 & H5 & H6 & H7).
  do 4 (split; [done|]). split; [by apply read_strings_ok; [| |lia]|]. split; [by apply read_strings_ok; [| |lia]|done].
Qed.

(** A stack of 128 bytes at 4096. *)
Definition ex_stack : heap := list_to_map ((fun q => (8 * q, 0)) <$> seqZ 512 16).

Lemma ex_stack_present : present ex_stack 4096 128.
Proof.
  assert (HF : Forall (fun q => is_Some (ex_stack !! (8 * q))) (seqZ 512 16)) by (apply (bool_decide_unpack _); vm_compute; exact I).
  rewrite Forall_forall in HF. intros x Hx. apply HF. apply elem_of_seqZ.
  pose proof (Z.div_mod x 8 ltac:(lia)). pose proof (Z.mod_pos_bound x 8 ltac:(lia)). lia.
Qed.

Lemma build_initial_stack_witness : exists r h',
  build_initial_stack ex_stack [[115; 104]; [45; 99]] [[72; 61; 47]] [(AT_NULL, 0)] (mkFrame 4096 128) = Ret (r, h').
Proof.
  destruct (build_initial_stack_ok ex_stack [[115; 104]; [45; 99]] [[72; 61; 47]] [(AT_NULL, 0)] (mkFrame 4096 128) 80)
    as (r & h' & E & _).
  - repeat split; cbn; lia.
  - exact ex_stack_present.
  - repeat constructor; cbn; lia.
  - repeat constructor; cbn; lia.
  - repeat constructor; cbn; lia.
  - repeat constructor; cbn; lia.
  - reflexivity.
  - exists r, h'. exact E.
Defined.
