(* ===== verification/Elf.v ===== *)
(** * Elf: the ELF64 file format ([src/binfmt/elf.rs])

    The file header and the program headers as they are read from the bytes of
    a file, the check of the header, and the named constants of the format.
    Numbers are little-endian; reading past the end of a buffer is a fault. *)

From stdpp Require Import base list strings.
From S2P Require Import Prelude Bytes BitFields Abi.

(** ** Constants *)

Definition ElfType_items : list numeric_item := [
  mkItem "NONE" 0 None;
  mkItem "REL" 1 None;
  mkItem "EXEC" 2 None;
  mkItem "DYN" 3 None;
  mkItem "CORE" 4 None;
  mkItem "LOOS" 0xfe00 None;
  mkItem "HIOS" 0xfeff None;
  mkItem "LOPROC" 0xff00 None;
  mkItem "HIPROC" 0xffff None].

Definition ElfMachine_items : list numeric_item := [
  mkItem "NONE" 0x0000 None;
  mkItem "M32" 0x0001 None;
  mkItem "SPARC" 0x0002 None;
  mkItem "INTEL386" 0x0003 None;
  mkItem "MOTOROLA68K" 0x0004 None;
  mkItem "MOTOROLA88K" 0x0005 None;
  mkItem "IAMCU" 0x0006 None;
  mkItem "INTEL860" 0x0007 None;
  mkItem "MIPS" 0x0008 None;
  mkItem "S370" 0x0009 None;
  mkItem "MIPS_RS4_BE" 0x000a None;
  mkItem "PARISC" 0x000f None;
  mkItem "VPP500" 0x0011 None;
  mkItem "SPARC32PLUS" 0x0012 None;
  mkItem "INTEL960" 0x0013 None;
  mkItem "PPC" 0x0014 None;
  mkItem "PPC64" 0x0015 None;
  mkItem "S390" 0x0016 None;
  mkItem "SPU" 0x0017 None;
  mkItem "V800" 0x0024 None;
  mkItem "FR20" 0x0025 None;
  mkItem "RH32" 0x0026 None;
  mkItem "RCE" 0x0027 None;
  mkItem "ARM" 0x0028 None;
  mkItem "ALPHA" 0x0029 None;
  mkItem "SH" 0x002a None;
  mkItem "SPARCV9" 0x002b None;
  mkItem "TRICORE" 0x002c None;
  mkItem "ARC" 0x002d None;
  mkItem "H8_300" 0x002e None;
  mkItem "H8_300H" 0x002f None;
  mkItem "H8S" 0x0030 None;
  mkItem "H8_500" 0x0031 None;
  mkItem "IA_64" 0x0032 None;
  mkItem "MIPS_X" 0x0033 None;
  mkItem "COLDFIRE" 0x0034 None;
  mkItem "MOTOROLA68HC12" 0x0035 None;
  mkItem "MMA" 0x0036 None;
  mkItem "PCP" 0x0037 None;
  mkItem "NCPU" 0x0038 None;
  mkItem "NDR1" 0x0039 None;
  mkItem "STARCORE" 0x003a None;
  mkItem "ME16" 0x003b None;
  mkItem "ST100" 0x003c None;
  mkItem "TINYJ" 0x003d None;
  mkItem "X86_64" 0x003e None;
  mkItem "PDSP" 0x003f None;
  mkItem "PDP10" 0x0040 None;
  mkItem "PDP11" 0x0041 None;
  mkItem "FX66" 0x0042 None;
  mkItem "ST9PLUS" 0x0043 None;
  mkItem "ST7" 0x0044 None;
  mkItem "MOTOROLA68HC16" 0x0045 None;
  mkItem "MOTOROLA68HC11" 0x0046 None;
  mkItem "MOTOROLA68HC08" 0x0047 None;
  mkItem "MOTOROLA68HC05" 0x0048 None;
  mkItem "SVX" 0x0049 None;
  mkItem "ST19" 0x004a None;
  mkItem "VAX" 0x004b None;
  mkItem "CRIS" 0x004c None;
  mkItem "JAVELIN" 0x004d None;
  mkItem "FIREPATH" 0x004e None;
  mkItem "ZSP" 0x004f None;
  mkItem "MMIX" 0x0050 None;
  mkItem "HUANY" 0x0051 None;
  mkItem "PRISM" 0x0052 None;
  mkItem "AVR" 0x0053 None;
  mkItem "FR30" 0x0054 None;
  mkItem "D10V" 0x0055 None;
  mkItem "D30V" 0x0056 None;
  mkItem "V850" 0x0057 None;
  mkItem "M32R" 0x0058 None;
  mkItem "MN10300" 0x0059 None;
  mkItem "MN10200" 0x005a None;
  mkItem "PJ" 0x005b None;
  mkItem "OPENRISC" 0x005c None;
  mkItem "ARC_COMPACT" 0x005d None;
  mkItem "XTENSA" 0x005e None;
  mkItem "VIDEOCORE" 0x005f None;
  mkItem "TMM_GPP" 0x0060 None;
  mkItem "NS32K" 0x0061 None;
  mkItem "TPC" 0x0062 None;
  mkItem "SNP1K" 0x0063 None;
  mkItem "ST200" 0x0064 None;
  mkItem "IP2K" 0x0065 None;
  mkItem "MAX" 0x0066 None;
  mkItem "CR" 0x0067 None;
  mkItem "F2MC16" 0x0068 None;
  mkItem "MSP430" 0x0069 None;
  mkItem "BLACKFIN" 0x006a None;
  mkItem "SE_C33" 0x006b None;
  mkItem "SEP" 0x006c None;
  mkItem "ARCA" 0x006d None;
  mkItem "UNICORE" 0x006e None;
  mkItem "EXCESS" 0x006f None;
  mkItem "DXP" 0x0070 None;
  mkItem "ALTERA_NIOS2" 0x0071 None;
  mkItem "CRX" 0x0072 None;
  mkItem "XGATE" 0x0073 None;
  mkItem "C166" 0x0074 None;
  mkItem "M16C" 0x0075 None;
  mkItem "DSPIC30F" 0x0076 None;
  mkItem "CE" 0x0077 None;
  mkItem "M32C" 0x0078 None;
  mkItem "TSK3000" 0x0083 None;
  mkItem "RS08" 0x0084 None;
  mkItem "SHARC" 0x0085 None;
  mkItem "ECOG2" 0x0086 None;
  mkItem "SCORE7" 0x0087 None;
  mkItem "DSP24" 0x0088 None;
  mkItem "VIDEOCORE3" 0x0089 None;
  mkItem "LATTICEMICO32" 0x008a None;
  mkItem "SE_C17" 0x008b None;
  mkItem "TI_C6000" 0x008c None;
  mkItem "TI_C2000" 0x008d None;
  mkItem "TI_C5500" 0x008e None;
  mkItem "TI_ARP32" 0x008f None;
  mkItem "TI_PRU" 0x0090 None;
  mkItem "MMDSP_PLUS" 0x00a0 None;
  mkItem "CYPRESS_M8C" 0x00a1 None;
  mkItem "R32C" 0x00a2 None;
  mkItem "TRIMEDIA" 0x00a3 None;
  mkItem "QDSP6" 0x00a4 None;
  mkItem "INTEL8051" 0x00a5 None;
  mkItem "STXP7X" 0x00a6 None;
  mkItem "NDS32" 0x00a7 None;
  mkItem "ECOG1" 0x00a8 None;
  mkItem "ECOG1X" 0x00a8 None;
  mkItem "MAXQ30" 0x00a9 None;
  mkItem "XIMO16" 0x00aa None;
  mkItem "MANIK" 0x00ab None;
  mkItem "CRAYNV2" 0x00ac None;
  mkItem "RX" 0x00ad None;
  mkItem "METAG" 0x00ae None;
  mkItem "MCST_ELBRUS" 0x00af None;
  mkItem "ECOG16" 0x00b0 None;
  mkItem "CR16" 0x00b1 None;
  mkItem "ETPU" 0x00b2 None;
  mkItem "SLE9X" 0x00b3 None;
  mkItem "L10M" 0x00b4 None;
  mkItem "K10M" 0x00b5 None;
  mkItem "AARCH64" 0x00b7 None;
  mkItem "AVR32" 0x00b9 None;
  mkItem "STM8" 0x00ba None;
  mkItem "TILE64" 0x00bb None;
  mkItem "TILEPRO" 0x00bc None;
  mkItem "MICROBLAZE" 0x00bd None;
  mkItem "CUDA" 0x00be None;
  mkItem "TILEGX" 0x00bf None;
  mkItem "CLOUDSHIELD" 0x00c0 None;
  mkItem "COREA_1ST" 0x00c1 None;
  mkItem "COREA_2ND" 0x00c2 None;
  mkItem "ARC_COMPACT2" 0x00c3 None;
  mkItem "OPEN8" 0x00c4 None;
  mkItem "RL78" 0x00c5 None;
  mkItem "VIDEOCORE5" 0x00c6 None;
  mkItem "NEC78KOR" 0x00c7 None;
  mkItem "NXP56800EX" 0x00c8 None;
  mkItem "BA1" 0x00c9 None;
  mkItem "BA2" 0x00ca None;
  mkItem "XCORE" 0x00cb None;
  mkItem "MCHP_PIC" 0x00cc None;
  mkItem "INTEL205" 0x00cd None;
  mkItem "INTEL206" 0x00ce None;
  mkItem "INTEL207" 0x00cf None;
  mkItem "INTEL208" 0x00d0 None;
  mkItem "INTEL209" 0x00d1 None;
  mkItem "KM32" 0x00d2 None;
  mkItem "KMX32" 0x00d3 None;
  mkItem "KMX16" 0x00d4 None;
  mkItem "KMX8" 0x00d5 None;
  mkItem "KVARC" 0x00d6 None;
  mkItem "CDP" 0x00d7 None;
  mkItem "COGE" 0x00d8 None;
  mkItem "COOL" 0x00d9 None;
  mkItem "NORC" 0x00da None;
  mkItem "CSR_KALIMBA" 0x00db None;
  mkItem "Z80" 0x00dc None;
  mkItem "VISIUM" 0x00dd None;
  mkItem "FT32" 0x00de None;
  mkItem "MOXIE" 0x00df None;
  mkItem "AMDGPU" 0x00e0 None;
  mkItem "RISCV" 0x00f3 None].

Definition ElfVersion_items : list numeric_item := [
  mkItem "NONE" 0 None;
  mkItem "CURRENT" 1 None].

Definition ElfClass_items : list numeric_item := [
  mkItem "NONE" 0 None;
  mkItem "CLASS32" 1 None;
  mkItem "CLASS64" 2 None].

Definition OsAbi_items : list numeric_item := [
  mkItem "SYS_V" 0 None;
  mkItem "HP_UX" 1 None;
  mkItem "NET_BSD" 2 None;
  mkItem "LINUX" 3 None;
  mkItem "SOLARIS" 6 None;
  mkItem "AIX" 7 None;
  mkItem "IRIS" 8 None;
  mkItem "FREE_BSD" 9 None;
  mkItem "TRU64" 10 None;
  mkItem "MODESTO" 11 None;
  mkItem "OPEN_BSD" 12 None;
  mkItem "OPEN_VMS" 13 None;
  mkItem "NSK" 14 None].

Definition Endianness_items : list numeric_item := [
  mkItem "NONE" 0 None;
  mkItem "LSB" 1 None;
  mkItem "MSB" 2 None].

Definition ProgramType_items : list numeric_item := [
  mkItem "NULL" 0x00 None;
  mkItem "LOAD" 0x01 None;
  mkItem "DYNAMIC" 0x02 None;
  mkItem "INTERP" 0x03 None;
  mkItem "NOTE" 0x04 None;
  mkItem "SHLIB" 0x05 None;
  mkItem "PHDR" 0x06 None;
  mkItem "TLS" 0x07 None;
  mkItem "LOOS" 0x60000000 None;
  mkItem "HIOS" 0x6fffffff None;
  mkItem "GNU_EH_FRAME" (0x60000000 + 0x474e550) None;
  mkItem "GNU_STACK" (0x60000000 + 0x474e551) None;
  mkItem "GNU_RELRO" (0x60000000 + 0x474e552) None;
  mkItem "GNU_PROPERTY" (0x60000000 + 0x474e553) None;
  mkItem "SUNWBSS" 0x6ffffffa None;
  mkItem "SUNWSTACK" 0x6ffffffb None;
  mkItem "ARM_ARCHEXT" 0x70000000 None;
  mkItem "ARM_UNWIND" 0x70000001 None].

Definition Endianness_LSB : Z := 1.
Definition ElfClass_CLASS64 : Z := 2.
Definition ProgramType_LOAD : Z := 1.

Definition ProgramFlags_execute : Z -> bool := bit_get 0.
Definition ProgramFlags_write : Z -> bool := bit_get 1.
Definition ProgramFlags_read : Z -> bool := bit_get 2.

(** ** Headers *)

(** [e_ident] is the array of 16 bytes. *)
Record ElfHeader : Type := mkElf {
  e_ident : list Z; e_type : Z; e_machine : Z; e_version : Z; e_entry : Z; e_phoff : Z; e_shoff : Z; e_flags : Z;
  e_ehsize : Z; e_phentsize : Z; e_phnum : Z; e_shentsize : Z; e_shnum : Z; e_shstrndx : Z
}.

Definition ElfIdent_class (self : list Z) : Z := nth 4 self 0.
Definition ElfIdent_data (self : list Z) : Z := nth 5 self 0.

Definition ElfIdent_is_elf (self : list Z) : bool :=
  (nth 0 self 0 =? 0x7f) && (nth 1 self 0 =? 69) && (nth 2 self 0 =? 76) && (nth 3 self 0 =? 70).

Definition ElfHeader_validate (self : ElfHeader) : result ElfError unit :=
  if negb (ElfIdent_is_elf (e_ident self)) then Err NotElf
  else if negb (ElfIdent_data (e_ident self) =? Endianness_LSB) then Err NotLsb
  else if negb (ElfIdent_class (e_ident self) =? ElfClass_CLASS64) then Err Not64Bit
  else Ok tt.

(** The structure is [repr(C)]: the fields are at the offsets of the format. *)
Definition ELF_HEADER_SIZE : nat := 64.

Definition ElfHeader_read (bytes : list Z) : ElfHeader :=
  mkElf (take 16 bytes) (le_at 16 2 bytes) (le_at 18 2 bytes) (le_at 20 4 bytes) (le_at 24 8 bytes) (le_at 32 8 bytes)
    (le_at 40 8 bytes) (le_at 48 4 bytes) (le_at 52 2 bytes) (le_at 54 2 bytes) (le_at 56 2 bytes) (le_at 58 2 bytes)
    (le_at 60 2 bytes) (le_at 62 2 bytes).

Definition ElfHeader_try_from (bytes : list Z) : result ElfError ElfHeader :=
  if (length bytes <? ELF_HEADER_SIZE)%nat then Err NotElf else Ok (ElfHeader_read bytes).

Record ProgramHeader : Type := mkPh {
  p_type : Z; p_flags : Z; p_offset : Z; p_vaddr : Z; p_paddr : Z; p_filesz : Z; p_memsz : Z; p_align : Z
}.

Definition PROGRAM_HEADER_SIZE : nat := 56.

(** [&*ph_base.add(i)]. *)
Definition ProgramHeader_read (buffer : list Z) (phoff : Z) (i : nat) : outcome ProgramHeader :=
  let off := phoff + Z.of_nat (i * PROGRAM_HEADER_SIZE) in
  if off + Z.of_nat PROGRAM_HEADER_SIZE <=? Z.of_nat (length buffer) then
    let b := drop (Z.to_nat off) buffer in
    mret (mkPh (le_at 0 4 b) (le_at 4 4 b) (le_at 8 8 b) (le_at 16 8 b) (le_at 24 8 b) (le_at 32 8 b) (le_at 40 8 b) (le_at 48 8 b))
  else Panic.

(** ** The format *)

(** A header and a program header as they are written. *)
Definition ElfHeader_bytes (e : ElfHeader) : list Z :=
  e_ident e ++ to_le_bytes 2 (e_type e) ++ to_le_bytes 2 (e_machine e) ++ to_le_bytes 4 (e_version e) ++
  to_le_bytes 8 (e_entry e) ++ to_le_bytes 8 (e_phoff e) ++ to_le_bytes 8 (e_shoff e) ++ to_le_bytes 4 (e_flags e) ++
  to_le_bytes 2 (e_ehsize e) ++ to_le_bytes 2 (e_phentsize e) ++ to_le_bytes 2 (e_phnum e) ++
  to_le_bytes 2 (e_shentsize e) ++ to_le_bytes 2 (e_shnum e) ++ to_le_bytes 2 (e_shstrndx e).

Definition ProgramHeader_bytes (p : ProgramHeader) : list Z :=
  to_le_bytes 4 (p_type p) ++ to_le_bytes 4 (p_flags p) ++ to_le_bytes 8 (p_offset p) ++ to_le_bytes 8 (p_vaddr p) ++
  to_le_bytes 8 (p_paddr p) ++ to_le_bytes 8 (p_filesz p) ++ to_le_bytes 8 (p_memsz p) ++ to_le_bytes 8 (p_align p).

Definition ElfHeader_fits (e : ElfHeader) : Prop :=
  length (e_ident e) = 16%nat /\
  Forall (fits 16) [e_type e; e_machine e; e_ehsize e; e_phentsize e; e_phnum e; e_shentsize e; e_shnum e; e_shstrndx e] /\
  Forall (fits 32) [e_version e; e_flags e] /\ Forall (fits 64) [e_entry e; e_phoff e; e_shoff e].

Definition ProgramHeader_fits (p : ProgramHeader) : Prop :=
  Forall (fits 32) [p_type p; p_flags p] /\
  Forall (fits 64) [p_offset p; p_vaddr p; p_paddr p; p_filesz p; p_memsz p; p_align p].

Lemma le_at_here n x rest : fits (8 * Z.of_nat n) x -> le_at 0 n (to_le_bytes n x ++ rest) = x.
Proof.
  intros Hx. unfold le_at. rewrite drop_0, take_app_length' by (by rewrite to_le_bytes_length).
  apply from_to_le_bytes. unfold fits in Hx. rewrite Z.pow_mul_r in Hx by lia. done.
Qed.

Lemma le_at_skip k a b off n : length a = k -> (k <= off)%nat -> le_at off n (a ++ b) = le_at (off - k) n b.
Proof. intros Ha Hk. unfold le_at. by rewrite drop_app_ge, Ha by lia. Qed.

(** Skips the fields before the one that is read. *)
Ltac read_field :=
  rewrite <- ?app_assoc;
  repeat (first [rewrite le_at_here by done | erewrite le_at_skip; [|first [apply to_le_bytes_length | eassumption]|lia]; cbn [Nat.sub]]);
  try done.

Lemma ElfHeader_read_bytes e rest : ElfHeader_fits e -> ElfHeader_read (ElfHeader_bytes e ++ rest) = e.
Proof.
  intros (Hi & H16 & H32 & H64). destruct e. unfold ElfHeader_bytes, ElfHeader_read. cbn in Hi, H16, H32, H64.
  cbn [e_ident e_type e_machine e_version e_entry e_phoff e_shoff e_flags e_ehsize e_phentsize e_phnum e_shentsize e_shnum e_shstrndx].
  repeat match goal with H : Forall _ (_ :: _) |- _ => apply Forall_cons in H as [? H] end.
  rewrite <- ?app_assoc, take_app_length' by done. f_equal; read_field.
Qed.

Lemma ElfHeader_bytes_length e : ElfHeader_fits e -> length (ElfHeader_bytes e) = ELF_HEADER_SIZE.
Proof. intros (Hi & _). unfold ElfHeader_bytes. rewrite !length_app, Hi. by rewrite !to_le_bytes_length. Qed.

Lemma ProgramHeader_bytes_length p : length (ProgramHeader_bytes p) = PROGRAM_HEADER_SIZE.
Proof. unfold ProgramHeader_bytes. by rewrite !length_app, !to_le_bytes_length. Qed.

Lemma headers_lookup phs i p : phs !! i = Some p -> exists post,
  drop (i * PROGRAM_HEADER_SIZE) (concat (ProgramHeader_bytes <$> phs)) = ProgramHeader_bytes p ++ post.
Proof.
  revert i. induction phs as [|q phs IH]; intros [|i]; cbn [lookup list_lookup]; [done|done| |]; cbn [fmap list_fmap concat].
  - intros [= ->]. by eexists.
  - intros H. destruct (IH i H) as [post E]. exists post. rewrite <- E. rewrite drop_app_ge; rewrite ProgramHeader_bytes_length; [|lia].
    f_equal. lia.
Qed.

Lemma headers_length phs : length (concat (ProgramHeader_bytes <$> phs)) = (length phs * PROGRAM_HEADER_SIZE)%nat.
Proof. induction phs as [|q phs IH]; [done|]. rewrite fmap_cons. cbn [concat length]. rewrite length_app, ProgramHeader_bytes_length, IH. lia. Qed.

Lemma ProgramHeader_read_bytes pre phs rest i p : ProgramHeader_fits p -> phs !! i = Some p ->
  ProgramHeader_read (pre ++ concat (ProgramHeader_bytes <$> phs) ++ rest) (Z.of_nat (length pre)) i = Ret p.
Proof.
  intros (H32 & H64) Hi. pose proof (lookup_lt_Some _ _ _ Hi) as Hl. unfold ProgramHeader_read. rewrite !length_app, headers_length.
  destruct (Z.leb_spec (Z.of_nat (length pre) + Z.of_nat (i * PROGRAM_HEADER_SIZE) + Z.of_nat PROGRAM_HEADER_SIZE)
    (Z.of_nat (length pre + (length phs * PROGRAM_HEADER_SIZE + length rest)))) as [_|Hlt].
  2: { unfold PROGRAM_HEADER_SIZE in Hlt. lia. }
  replace (Z.to_nat (Z.of_nat (length pre) + Z.of_nat (i * PROGRAM_HEADER_SIZE))) with (length pre + i * PROGRAM_HEADER_SIZE)%nat by lia.
  rewrite <- drop_drop, drop_app_length. destruct (headers_lookup phs i p Hi) as [post E].
  rewrite drop_app_le, E by (rewrite headers_length; unfold PROGRAM_HEADER_SIZE; lia).
  destruct p. unfold ProgramHeader_bytes. cbn in H32, H64.
  cbn [p_type p_flags p_offset p_vaddr p_paddr p_filesz p_memsz p_align].
  repeat match goal with H : Forall _ (_ :: _) |- _ => apply Forall_cons in H as [? H] end.
  f_equal. f_equal; read_field.
Qed.

(** C38. Reading an ELF file. From a file that starts with a header and, where
    the header says, holds program headers, exactly those are read. *)
Theorem elf_headers_read e gap phs rest : ElfHeader_fits e -> Forall ProgramHeader_fits phs ->
  e_phoff e = Z.of_nat (ELF_HEADER_SIZE + length gap) ->
  let file := ElfHeader_bytes e ++ gap ++ concat (ProgramHeader_bytes <$> phs) ++ rest in
  ElfHeader_try_from file = Ok e /\ forall i p, phs !! i = Some p -> ProgramHeader_read file (e_phoff e) i = Ret p.
Proof.
  intros He Hp Ho file. pose proof (ElfHeader_bytes_length e He) as Hl. split.
  - unfold ElfHeader_try_from, file. rewrite length_app, Hl.
    destruct (Nat.ltb_spec (ELF_HEADER_SIZE + length (gap ++ concat (ProgramHeader_bytes <$> phs) ++ rest)) ELF_HEADER_SIZE); [lia|].
    by rewrite ElfHeader_read_bytes.
  - intros i p Hi. unfold file. rewrite app_assoc. rewrite Ho, <- Hl, <- length_app. apply ProgramHeader_read_bytes; [|done].
    rewrite Forall_lookup in Hp. by apply (Hp i).
Qed.

Definition ex_elf : ElfHeader :=
  mkElf [127; 69; 76; 70; 2; 1; 1; 0; 0; 0; 0; 0; 0; 0; 0; 0] 2 243 1 0x10000 64 0 0 64 56 1 0 0 0.
Definition ex_ph : ProgramHeader := mkPh 1 5 0 0x10000 0x10000 120 4096 4096.

Lemma elf_headers_witness : ElfHeader_try_from (ElfHeader_bytes ex_elf ++ [] ++ concat (ProgramHeader_bytes <$> [ex_ph]) ++ [1; 2]) = Ok ex_elf.
Proof.
  destruct (elf_headers_read ex_elf [] [ex_ph] [1; 2]) as [H _].
  - split; [reflexivity|]. split; [|split]; repeat constructor; cbn; lia.
  - repeat constructor; cbn; lia.
  - reflexivity.
  - exact H.
Defined.

Lemma ElfIdent_is_elf_ok l : ElfIdent_is_elf l = true <-> take 4 l = [0x7f; 69; 76; 70].
Proof.
  unfold ElfIdent_is_elf. rewrite !andb_true_iff, !Z.eqb_eq.
  destruct l as [|a [|b [|c [|d l]]]]; cbn; split; try (by intros (((? & ?) & ?) & ?); subst); try done.
  intros [= -> -> -> ->]. done.
Qed.

(** The check accepts a header exactly when it starts with the ELF magic,
    is little-endian and of the 64-bit class; the machine is not looked at. *)
Theorem ElfHeader_validate_ok e : ElfHeader_validate e = Ok tt <->
  take 4 (e_ident e) = [0x7f; 69; 76; 70] /\
  ElfIdent_data (e_ident e) = Endianness_LSB /\ ElfIdent_class (e_ident e) = ElfClass_CLASS64.
Proof.
  unfold ElfHeader_validate. rewrite <- ElfIdent_is_elf_ok. destruct (ElfIdent_is_elf _); cbn [negb]; [|by split; [|intros [? _]]].
  destruct (Z.eqb_spec (ElfIdent_data (e_ident e)) Endianness_LSB); cbn [negb]; [|by split; [|intros (_ & ? & _)]].
  destruct (Z.eqb_spec (ElfIdent_class (e_ident e)) ElfClass_CLASS64); cbn [negb]; [done|by split; [|intros (_ & _ & ?)]].
Qed.
