(* ===== verification/LoadElf.v ===== *)
(** * LoadElf: a program in memory ([load_elf] of [src/task/exec.rs])

    The loadable segments of an ELF file in a new address space, with the
    initial stack and the context the program starts in. *)

From stdpp Require Import gmap.
From S2P Require Import Prelude OrdMap Buddy FrameAlloc BitFields Abi PageTable SpaceClone SpaceManager.
From S2P Require Import MemoryMap MapTable MapTheory MapOps UserMemory Fork Bytes ByteMem InitStack Elf Paths Disk Vfs Tasks Clone.

(** ** Operations *)

Definition USER_STACK_SIZE : Z := PAGE_SIZE * 8.

Definition SstatusBits_set_spp : Z -> bool -> Z := bit_set 64 8.
Definition SstatusBits_set_spie : Z -> bool -> Z := bit_set 64 5.

(** The flags of the pages of a segment, and of the stack. *)
Definition segment_flags (flags : Z) : Z :=
  let f := PageTableEntryFlags_set_u PageTableEntryFlags_new true in
  let f := PageTableEntryFlags_set_w f (ProgramFlags_write flags) in
  let f := PageTableEntryFlags_set_x f (ProgramFlags_execute flags) in
  let f := PageTableEntryFlags_set_r f (ProgramFlags_read flags) in
  let f := PageTableEntryFlags_set_a f true in
  PageTableEntryFlags_set_d f true.

Definition stack_flags : Z :=
  let f := PageTableEntryFlags_set_r PageTableEntryFlags_new true in
  let f := PageTableEntryFlags_set_w f true in
  let f := PageTableEntryFlags_set_u f true in
  let f := PageTableEntryFlags_set_a f true in
  PageTableEntryFlags_set_d f true.

(** The bytes [ptr::copy] reads from the file. *)
Definition read_buffer (buffer : list Z) (offset n : Z) : outcome (list Z) :=
  if offset + n <=? len buffer then mret (take (Z.to_nat n) (drop (Z.to_nat offset) buffer)) else Panic.

(** Where the program headers are in the program's memory: in a segment that
    covers them. *)
Definition phdr_in (ph : ProgramHeader) (phoff phdr_va : Z) : outcome Z :=
  if (p_type ph =? ProgramType_LOAD) && (p_offset ph <=? phoff) then
    e ← usize_add (p_offset ph) (p_filesz ph);
    if phoff <? e then usize_add (p_vaddr ph) (phoff - p_offset ph) else mret phdr_va
  else mret phdr_va.

Record Load : Type := mkLoad { ld_memory_set : MemorySet; ld_trap_context : TrapContext }.

Section Ops.
Context {A : Type} {FS : FrameSource A}.
Implicit Types (w : @world A).

(** One loadable segment: frames, their pages, zeros and the bytes of the file;
    on an error the frames are dropped. *)
Definition load_segment w (buffer : list Z) (tid : Z) (ph : ProgramHeader) : outcome (result MemError UserMapping * world) :=
  '(r, w) ← w_alloc_frames w (p_memsz ph);
  match r with
  | None => mret (Err OutOfMemory, w)
  | Some frames =>
      let mapping_flags := segment_flags (p_flags ph) in
      '(r, w) ← remap_frames w tid (p_vaddr ph) 0 frames mapping_flags;
      match r with
      | Err e => w ← w_drop_frames w frames; mret (Err e, w)
      | Ok _ =>
          h ← zero_frames (w_heap w) frames;
          first ← expect (head frames);
          if p_align ph =? 0 then Panic
          else
            let inside_offset := p_vaddr ph mod p_align ph in
            bytes ← read_buffer buffer (p_offset ph) (p_filesz ph);
            h ← store_bytes h (fr_start first + inside_offset) bytes;
            mret (Ok (mkMapping (p_vaddr ph) frames mapping_flags), set_heap w h)
      end
  end.

(** The program headers from the [i]-th on; an error drops the segments. *)
Fixpoint load_segments (n i : nat) w (buffer : list Z) (phoff tid : Z) (mappings : list UserMapping) (phdr_va : Z)
    : outcome (result MemError (list UserMapping * Z) * world) :=
  match n with
  | O => mret (Ok (mappings, phdr_va), w)
  | S n =>
      ph ← ProgramHeader_read buffer phoff i;
      phdr_va ← phdr_in ph phoff phdr_va;
      if negb (p_type ph =? ProgramType_LOAD) then load_segments n (S i) w buffer phoff tid mappings phdr_va
      else
        '(r, w) ← load_segment w buffer tid ph;
        match r with
        | Err e => w ← w_drop_frames w (tab_frames mappings); mret (Err e, w)
        | Ok m => load_segments n (S i) w buffer phoff tid (mappings ++ [m]) phdr_va
        end
  end.

Definition w_create w (tid : Z) : outcome (result MemError unit * world) :=
  '(r, h, a, m) ← AddressSpaceManager_create_user_address_space (w_heap w) (w_alloc w) (w_mgr w) tid;
  mret (r, mkW h a m).

(** The stack in its frame; an error drops the frame. *)
Definition load_stack w (tid : Z) (argv envp : list (list Z)) (auxv : list (Z * Z)) : outcome (result Error (Z * UserMapping) * world) :=
  '(r, w) ← w_alloc_frame w (Some USER_STACK_SIZE);
  match r with
  | None => mret (Err (ErrMem OutOfMemory), w)
  | Some user_stack =>
      '(r, w) ← remap_frames w tid USER_STACK_LOWER_BOUND 0 [user_stack] stack_flags;
      match r with
      | Err e => w ← w_drop_frames w [user_stack]; mret (Err (ErrMem e), w)
      | Ok _ =>
          '(r, h) ← build_initial_stack (w_heap w) argv envp auxv user_stack;
          let w := set_heap w h in
          match r with
          | Err e => w ← w_drop_frames w [user_stack]; mret (Err e, w)
          | Ok sp_va => mret (Ok (sp_va, mkMapping USER_STACK_LOWER_BOUND [user_stack] stack_flags), w)
          end
      end
  end.

(** [sstatus] is the value of the register. *)
Definition load_elf w (buffer : list Z) (argv envp : list (list Z)) (tid sstatus : Z) : outcome (result Error Load * world) :=
  match ElfHeader_try_from buffer with
  | Err e => mret (Err (ErrElf e), w)
  | Ok elf_header =>
  match ElfHeader_validate elf_header with
  | Err e => mret (Err (ErrElf e), w)
  | Ok _ =>
  let entry := e_entry elf_header in
  '(r, w) ← w_create w tid;
  match r with
  | Err e => mret (Err (ErrMem e), w)
  | Ok _ =>
  match AddressSpaceManager_user_root_addr (w_mgr w) tid with
  | Err e => mret (Err (ErrMem e), w)
  | Ok page_table_address =>
  '(r, w) ← load_segments (Z.to_nat (e_phnum elf_header)) 0 w buffer (e_phoff elf_header) tid [] 0;
  match r with
  | Err e => mret (Err (ErrMem e), w)
  | Ok (mappings, phdr_va) =>
  let auxv := [(AT_PHDR, phdr_va); (AT_PHENT, e_phentsize elf_header); (AT_PHNUM, e_phnum elf_header);
               (AT_PAGESZ, PAGE_SIZE); (AT_ENTRY, entry); (AT_NULL, 0)] in
  '(r, w) ← load_stack w tid argv envp auxv;
  match r with
  | Err e => w ← w_drop_frames w (tab_frames mappings); mret (Err e, w)
  | Ok (sp_va, stack) =>
  let memory_set := mkMemorySet (mappings ++ [stack]) page_table_address in
  match AddressSpaceManager_user_root_addr (w_mgr w) tid with
  | Err e => w ← w_drop_frames w (tab_frames (ms_mappings memory_set)); mret (Err (ErrMem e), w)
  | Ok root =>
      let sstatus := SstatusBits_set_spie (SstatusBits_set_spp sstatus false) true in
      mret (Ok (mkLoad memory_set (mkTrap (<[2%nat := sp_va]> (replicate 32 0)) (satp_of root) entry sstatus)), w)
  end end end end end end end.

End Ops.

(** ** Frames for a segment *)

Lemma frame_bytes_idem s : 1 <= s -> frame_bytes (frame_bytes s) = frame_bytes s.
Proof.
  intros Hs. destruct (size_to_order_ok s Hs) as (o & Eo & Ho & _). unfold frame_bytes at 2 3. rewrite Eo.
  do 11 (destruct o as [|o]; [reflexivity|]). unfold BUDDY_MAX_ORDER in Ho. lia.
Qed.

(** The frames of a run are as the allocator gives them, and the first serves
    the whole request if one can. *)
Lemma take_loop_sized {A} {FS : FrameSource A} {FL : FrameLaws A} fuel h a held remaining frames out h' a' :
  fs_rep h a (frames ++ held) -> take_frames_loop fuel h a remaining frames = Ret (Some out, h', a') ->
  exists new, out = frames ++ new /\ Forall sized new /\ (0 < remaining -> exists f fs, new = f :: fs /\ fr_size f = frame_bytes remaining).
Proof.
  revert h a remaining frames. induction fuel as [|fuel IH]; intros h a remaining frames H; cbn [take_frames_loop];
    destruct (Z.leb_spec remaining 0) as [Hz|Hz].
  1, 3: intros [= <- <- <-]; exists []; rewrite app_nil_r; split; [done|]; split; [done|lia].
  { done. }
  destruct (fs_alloc_ok h a _ (Some remaining) H) as (r & h1 & a1 & -> & S1 & Hr1); [simpl; lia|]. rewrite outcome_bind_Ret.
  destruct r as [f|]; [|by intros ([? ?] & _ & ?)%outcome_bind_inv]. destruct Hr1 as [H1 Eb]. change (default PAGE_SIZE (Some remaining)) with remaining in Eb.
  intros E. destruct (IH h1 a1 (saturating_sub remaining (fr_size f)) (frames ++ [f])) as (new & -> & Hs & _); [|done|].
  { apply (fs_perm _ _ _ _ H1). by rewrite <- app_assoc, Permutation_middle. }
  exists (f :: new). rewrite <- app_assoc. split; [done|]. split; [|by intros _; exists f, new].
  constructor; [|done]. unfold sized. rewrite Eb. apply frame_bytes_idem. lia.
Qed.

Section Theory.
Context {A : Type} {FS : FrameSource A} {FL : FrameLaws A}.
Context (abs0 : mabs) (tid : Z) (sh : Z -> bool).
Implicit Types (w : @world A).

Abbreviation trel := (trel abs0 tid sh).
Abbreviation minv := (minv abs0 tid sh).

Lemma alloc_segment rest w v size : trel rest w v -> 0 < size ->
  exists r w', w_alloc_frames w size = Ret (r, w') /\ same_on rest (w_heap w) (w_heap w') /\
    match r with
    | Some fs => trel (fs ++ rest) w' v /\ frames_total fs = served size /\ Forall sized fs /\
        exists f fs', fs = f :: fs' /\ fr_size f = frame_bytes size
    | None => trel rest w' v
    end.
Proof.
  intros T Hs. destruct (trel_alloc _ _ _ _ _ _ size T) as (r & w' & E & S & Hr). exists r, w'. split; [done|]. split; [done|].
  destruct r as [fs|]; [|done]. destruct Hr as (T' & _ & Ht). split; [done|]. split; [done|]. unfold w_alloc_frames, take_frames in E.
  apply outcome_bind_inv in E as ([[r h] a] & E & E2). injection E2 as -> _.
  destruct (take_loop_sized _ _ _ _ _ [] _ _ _ (trel_rep _ _ _ _ _ _ T) E) as (new & Hn & Hz & Hf). cbn in Hn. subst new. split; [done|by apply Hf].
Qed.

Lemma trel_writes rest w v f h' : trel rest w v -> f ∈ rest -> writes f (w_heap w) h' -> trel rest (set_heap w h') v.
Proof.
  intros T Hf W. remember (w_heap w) as h eqn:Eh. revert w T Eh. induction W as [h|h x y h' Hx _ IH]; intros w T ->; [by destruct w|].
  apply (IH (mkW (<[x := y]> (w_heap w)) (w_alloc w) (w_mgr w))); [|done]. by apply (trel_write _ _ _ _ _ _ f).
Qed.

Lemma frame_present rest w v f : trel rest w v -> f ∈ rest -> present (w_heap w) (fr_start f) (fr_size f).
Proof.
  intros T Hf x Hx. destruct (trel_frame _ _ _ _ _ _ _ T Hf) as [(_ & Ha & _) Hp]. apply Hp; [|apply word_of_mod].
  apply in_frame_word; [by apply mul8_page|done].
Qed.

(** Writes to a frame change no other. *)
Lemma writes_same f rest w v h' : trel (f :: rest) w v -> writes f (w_heap w) h' -> same_on rest (w_heap w) h'.
Proof. intros T W g x Hg Hx. apply (writes_out f); [done|]. by apply (trel_apart _ _ _ _ _ _ _ g _ T). Qed.

End Theory.

(** ** The contents of a segment *)

(** The byte at offset [o] of a segment: from the file, then zeros. *)
Definition file_byte (buffer : list Z) (ph : ProgramHeader) (o : Z) : Z :=
  if o <? p_filesz ph then nth (Z.to_nat (p_offset ph + o)) buffer 0 else 0.

(** The permissions a segment asks for. *)
Definition seg_grants (ph : ProgramHeader) (flags : Z) : Prop :=
  grants flags (ProgramFlags_read (p_flags ph)) (ProgramFlags_write (p_flags ph)) (ProgramFlags_execute (p_flags ph)).

Lemma segment_grants ph : seg_grants ph (segment_flags (p_flags ph)).
Proof.
  unfold seg_grants, segment_flags. set (flags := p_flags ph).
  destruct (ProgramFlags_read flags), (ProgramFlags_write flags), (ProgramFlags_execute flags); repeat split.
Qed.

(** The mapping holds the segment. *)
Definition seg_loaded (buffer : list Z) (h : heap) (ph : ProgramHeader) (m : UserMapping) : Prop :=
  um_va m = p_vaddr ph /\ seg_grants ph (um_flags m) /\ frames_total (um_frames m) = served (p_memsz ph) /\
  forall o, 0 <= o < frames_total (um_frames m) ->
    (p ← phys_of (um_frames m) o; byte_at h p) = Some (file_byte buffer ph o).

(** A segment the loader places as the file says: page-aligned, in the user's
    half, with its file bytes in the first frame. *)
Record seg_ok (buffer : list Z) (ph : ProgramHeader) : Prop := {
  so_va : aligned (p_vaddr ph);
  so_range : canon_range (p_vaddr ph) (p_vaddr ph + served (p_memsz ph));
  so_end : p_vaddr ph + served (p_memsz ph) < 2 ^ 64;
  so_mem : 0 < p_memsz ph;
  so_align : 0 < p_align ph /\ p_vaddr ph mod p_align ph = 0;
  so_file : 0 <= p_offset ph /\ 0 <= p_filesz ph <= frame_bytes (p_memsz ph) /\ p_offset ph + p_filesz ph <= len buffer;
  so_flags : flags_leaf (segment_flags (p_flags ph)) = true
}.

Lemma frame_ok_mod8 f : frame_ok f -> fr_start f mod 8 = 0.
Proof. intros (_ & Ha & _). by apply mul8_page. Qed.

Lemma seg_loaded_same buffer h h' ph m held : seg_loaded buffer h ph m -> same_on held h h' -> um_frames m ⊆ held ->
  Forall frame_ok (um_frames m) -> seg_loaded buffer h' ph m.
Proof.
  intros (H1 & H2 & H3 & H4) S Hsub HF. split; [done|]. split; [done|]. split; [done|]. intros o Ho. rewrite <- (H4 o Ho).
  destruct (phys_of_some _ _ Ho) as (f & o' & Hf & -> & Ho'). cbn. rewrite Forall_forall in HF.
  apply (same_on_byte held _ _ f); [done|by apply Hsub|by apply frame_ok_mod8, HF|unfold in_frame; lia].
Qed.

Lemma zero_byte h f x : all_zero h [f] -> fr_start f mod 8 = 0 -> in_frame f x -> byte_at h x = Some 0.
Proof.
  intros Hz Ha Hx. unfold byte_at. rewrite (Hz f); [|left|by apply in_frame_word|apply word_of_mod]. cbn [mbind option_bind].
  destruct (word_of_spec x) as [_ Hi]. change (to_le_bytes 8 0) with (replicate 8 0). by apply lookup_replicate_2.
Qed.

Lemma read_buffer_ok buffer offset n : 0 <= offset -> 0 <= n -> offset + n <= len buffer -> bytes buffer ->
  exists bs, read_buffer buffer offset n = Ret bs /\ bytes bs /\ len bs = n /\
    forall i, 0 <= i < n -> bs !! Z.to_nat i = Some (nth (Z.to_nat (offset + i)) buffer 0).
Proof.
  intros Ho Hn Hl Hb. unfold read_buffer. destruct (Z.leb_spec (offset + n) (len buffer)); [|lia]. eexists. split; [done|].
  unfold len in *. split; [by apply Forall_take, Forall_drop|]. split; [rewrite length_take, length_drop; lia|].
  intros i Hi. rewrite lookup_take_lt, lookup_drop by lia. replace (Z.to_nat (offset + i)) with (Z.to_nat offset + Z.to_nat i)%nat by lia.
  destruct (nth_lookup_or_length buffer (Z.to_nat offset + Z.to_nat i) 0) as [E|]; [exact E|lia].
Qed.

Section Segments.
Context {A : Type} {FS : FrameSource A} {FL : FrameLaws A}.
Context (abs0 : mabs) (tid : Z) (sh : Z -> bool).
Implicit Types (w : @world A).

Abbreviation trel := (trel abs0 tid sh).
Abbreviation minv := (minv abs0 tid sh).

(** A frame of whole pages, zeroed, after the file's bytes were copied to its
    start. *)
Lemma frames_filled buffer ph h3 h4 f fs bs : Forall frame_ok (f :: fs) -> ForallOrdPairs frame_dis (f :: fs) -> all_zero h3 (f :: fs) ->
  len bs = p_filesz ph -> p_filesz ph <= fr_size f ->
  (forall i, 0 <= i < p_filesz ph -> bs !! Z.to_nat i = Some (nth (Z.to_nat (p_offset ph + i)) buffer 0)) ->
  (forall x, byte_at h4 x = if decide (fr_start f <= x < fr_start f + len bs) then bs !! Z.to_nat (x - fr_start f) else byte_at h3 x) ->
  forall o, 0 <= o < frames_total (f :: fs) -> (p ← phys_of (f :: fs) o; byte_at h4 p) = Some (file_byte buffer ph o).
Proof.
  intros HF HD Hz Hl Hsz Hbs H4 o Ho. unfold file_byte.
  assert (Hzero : forall g x, g ∈ f :: fs -> in_frame g x -> byte_at h3 x = Some 0).
  { intros g x Hg Hx. apply (zero_byte h3 g x); [|rewrite Forall_forall in HF; by apply frame_ok_mod8, HF|done].
    intros g' y Hg'%list_elem_of_singleton Hy Hm. subst g'. by apply (Hz g). }
  cbn [phys_of]. destruct (Z.ltb_spec o (fr_size f)) as [Hlt|Hge].
  - cbn. rewrite H4. case_decide as Hd.
    + destruct (Z.ltb_spec o (p_filesz ph)); [|lia]. replace (fr_start f + o - fr_start f) with o by lia. apply Hbs. lia.
    + destruct (Z.ltb_spec o (p_filesz ph)); [lia|]. apply (Hzero f); [left|unfold in_frame; lia].
  - destruct (Z.ltb_spec o (p_filesz ph)); [lia|]. cbn [frames_total foldr] in Ho. fold (frames_total fs) in Ho.
    destruct (phys_of_some fs (o - fr_size f)) as (g & o' & Hg & -> & Ho'); [lia|]. cbn. rewrite H4.
    inversion_clear HD as [|? ? HD1 HD2]. rename HD1 into HD. rewrite Forall_forall in HD. specialize (HD g Hg). unfold frame_dis in HD.
    rewrite decide_False by lia. apply (Hzero g); [by right|unfold in_frame; lia].
Qed.

Lemma load_segment_ok buffer ph rest w l : minv rest w l -> bytes buffer -> seg_ok buffer ph ->
  tab_clear l (p_vaddr ph) (p_vaddr ph + served (p_memsz ph)) ->
  exists r w', load_segment w buffer tid ph = Ret (r, w') /\ same_on (tab_frames l ++ rest) (w_heap w) (w_heap w') /\
    match r with
    | Ok m => minv rest w' (l ++ [m]) /\ seg_loaded buffer (w_heap w') ph m /\ Forall sized (um_frames m)
    | Err _ => exists v, trel (tab_frames l ++ rest) w' v
    end.
Proof.
  intros [T Hw] Hb [Hva Hr He Hm [Hal Hal0] (Ho & Hf & Hof) Hfl] Hc. unfold load_segment.
  destruct (alloc_segment _ _ _ _ w _ (p_memsz ph) T Hm) as (r & w1 & -> & S1 & Hr1). rewrite outcome_bind_Ret.
  destruct r as [frames|]; [|exists (Err OutOfMemory), w1; split; [done|]; split; [done|]; by eexists].
  destruct Hr1 as (T1 & Ht & Hz & f & fs & -> & Hsz). destruct (trel_frames _ _ _ _ _ _ _ T1) as [HF HD].
  set (frames := f :: fs) in *. set (m := mkMapping (p_vaddr ph) frames (segment_flags (p_flags ph))).
  assert (Hpos : 0 < frames_total frames).
  { apply Forall_cons in HF as [(_ & _ & ? & _) HF]. pose proof (total_pos _ HF). cbn. unfold frames_total in *. unfold PAGE_SIZE in *. lia. }
  assert (Hend : m_end m = p_vaddr ph + served (p_memsz ph)) by (unfold m_end, m; cbn [um_va um_frames]; lia).
  assert (Hmw : mapping_wf m) by (split; rewrite ?Hend; cbn [m um_va um_frames]; try done; lia).
  destruct (remap_frames_ok abs0 tid sh frames _ w1 _ (p_vaddr ph) 0 (segment_flags (p_flags ph)) T1) as (r & w2 & -> & S2 & Hr2);
    [done|done|reflexivity|lia|rewrite Z.add_0_r, Ht; done|].
  rewrite outcome_bind_Ret. destruct r as [[]|e].
  2: { destruct Hr2 as [v T2]. destruct (trel_drop _ _ _ _ _ _ _ T2) as (w3 & -> & S3 & T3). rewrite outcome_bind_Ret.
       exists (Err e), w3. split; [done|]. split; [|by eexists]. eapply same_on_trans; [exact S1|]. eapply same_on_trans; [|exact S3].
       apply (same_on_sub _ _ _ _ S2). set_solver. }
  destruct (zero_frames_ok _ _ _ _ _ _ _ Hr2) as (h3 & -> & T3 & S3 & Z3). rewrite outcome_bind_Ret. cbn [head expect frames]. rewrite outcome_bind_Ret.
  destruct (Z.eqb_spec (p_align ph) 0); [lia|]. rewrite Hal0, Z.add_0_r.
  destruct (read_buffer_ok buffer (p_offset ph) (p_filesz ph)) as (bs & -> & Hbs & Hl & Hbl); [lia|lia|lia|done|]. rewrite outcome_bind_Ret.
  assert (Hfin : f ∈ frames ++ tab_frames l ++ rest) by (left). pose proof (frame_present _ _ _ _ _ _ _ T3 Hfin) as Hp3.
  cbn [set_heap w_heap] in Hp3. assert (Hf8 : fr_start f mod 8 = 0) by (apply Forall_cons in HF as [? _]; by apply frame_ok_mod8).
  destruct (store_bytes_ok f bs h3 (fr_start f)) as (h4 & -> & W4 & B4); [done|done| |lia|unfold len in Hl; lia|].
  { intros x Hx. apply Hp3. unfold len in Hl. lia. }
  rewrite outcome_bind_Ret. fold m. exists (Ok m), (set_heap w2 h4). split; [done|].
  assert (S4 : same_on (fs ++ tab_frames l ++ rest) h3 h4) by (by apply (writes_same abs0 tid sh f _ (set_heap w2 h3) _ h4 T3)).
  split; [|split; [|split; [|done]]].
  - eapply same_on_trans; [exact S1|]. eapply same_on_trans; [apply (same_on_sub _ _ _ _ S2); set_solver|].
    eapply same_on_trans; [exact S3|]. apply (same_on_sub _ _ _ _ S4). set_solver.
  - assert (Tc : tab_clear l (um_va m) (m_end m)) by (by rewrite Hend). split; [|by apply tab_wf_snoc].
    rewrite tab_frames_app. cbn [tab_frames fmap list_fmap concat um_frames m]. rewrite app_nil_r.
    apply (trel_perm _ _ _ (frames ++ tab_frames l ++ rest)); [|rewrite <- app_assoc; apply Permutation_app_swap_app].
    pose proof (trel_writes _ _ _ _ _ _ _ _ T3 Hfin W4) as T4. apply (trel_ext _ _ _ _ _ _ _ T4). intros va _.
    rewrite tab_view_snoc by done. cbn [m um_flags um_va um_frames]. by rewrite Hfl, Z.add_0_r.
  - split; [done|]. split; [apply segment_grants|]. split; [done|]. cbn [m um_frames set_heap w_heap].
    apply (frames_filled buffer ph h3 h4 f fs bs); try done. lia.
Qed.

End Segments.

(** ** All segments *)

Definition seg_end (ph : ProgramHeader) : Z := p_vaddr ph + served (p_memsz ph).
Definition seg_dis (p q : ProgramHeader) : Prop := seg_end p <= p_vaddr q \/ seg_end q <= p_vaddr p.

Definition loads (phs : list ProgramHeader) : list ProgramHeader := filter (fun ph => p_type ph = ProgramType_LOAD) phs.

(** The address of the program headers: in the last segment that has them. *)
Definition phdr_of (phs : list ProgramHeader) (phoff va : Z) : Z :=
  foldl (fun va ph => if (p_offset ph <=? phoff) && (phoff <? p_offset ph + p_filesz ph)
                      then p_vaddr ph + (phoff - p_offset ph) else va) va (loads phs).

Lemma served_ge s : 0 < s -> frame_bytes s <= served s.
Proof.
  intros Hs. unfold served. assert (Hf : (0 < Z.to_nat ((s + PAGE_SIZE - 1) / PAGE_SIZE))%nat).
  { unfold PAGE_SIZE. assert (1 <= (s + 4096 - 1) / 4096) by (apply Z.div_le_lower_bound; lia). lia. }
  assert (Hb : forall fuel r, 0 <= served_loop fuel r).
  { induction fuel as [|fuel IH]; intros r; cbn [served_loop]; destruct (Z.leb_spec r 0); [lia..|].
    specialize (IH (saturating_sub r (frame_bytes r))). unfold frame_bytes at 1.
    destruct (size_to_order_ok r ltac:(lia)) as (o & -> & _). pose proof (order_size_pos o). lia. }
  destruct (Z.to_nat _) as [|fuel]; [lia|]. cbn [served_loop]. destruct (Z.leb_spec s 0); [lia|].
  pose proof (Hb fuel (saturating_sub s (frame_bytes s))). lia.
Qed.

Lemma phdr_in_ok buffer ph phoff va : 0 <= phoff -> len buffer < 2 ^ 64 -> seg_ok buffer ph -> p_type ph = ProgramType_LOAD ->
  phdr_in ph phoff va = Ret (if (p_offset ph <=? phoff) && (phoff <? p_offset ph + p_filesz ph)
                             then p_vaddr ph + (phoff - p_offset ph) else va).
Proof.
  intros Hp Hl [_ _ He Hm _ (Ho & Hf & Hof) _] Ht. unfold phdr_in. rewrite Ht, Z.eqb_refl. cbn [andb].
  destruct (Z.leb_spec (p_offset ph) phoff); [|done]. unfold usize_add. destruct (Z.ltb_spec (p_offset ph + p_filesz ph) (2 ^ 64)); [|lia].
  rewrite outcome_bind_Ret. cbn [andb]. destruct (Z.ltb_spec phoff (p_offset ph + p_filesz ph)); [|done]. pose proof (served_ge _ Hm).
  destruct (Z.ltb_spec (p_vaddr ph + (phoff - p_offset ph)) (2 ^ 64)); [done|lia].
Qed.

Lemma phdr_in_other ph phoff va : p_type ph <> ProgramType_LOAD -> phdr_in ph phoff va = Ret va.
Proof. intros Ht. unfold phdr_in. by destruct (Z.eqb_spec (p_type ph) ProgramType_LOAD). Qed.

Section Loop.
Context {A : Type} {FS : FrameSource A} {FL : FrameLaws A}.
Context (abs0 : mabs) (tid : Z) (sh : Z -> bool).
Context (buffer : list Z) (phoff : Z).
Hypothesis Hbuf : bytes buffer /\ len buffer < 2 ^ 64 /\ 0 <= phoff.
Implicit Types (w : @world A).

Abbreviation trel := (trel abs0 tid sh).
Abbreviation minv := (minv abs0 tid sh).

Lemma load_segments_ok phs i rest w l va : minv rest w l ->
  (forall j ph, phs !! j = Some ph -> ProgramHeader_read buffer phoff (i + j) = Ret ph) ->
  Forall (seg_ok buffer) (loads phs) -> ForallOrdPairs seg_dis (loads phs) ->
  Forall (fun ph => tab_clear l (p_vaddr ph) (seg_end ph)) (loads phs) ->
  exists r w', load_segments (length phs) i w buffer phoff tid l va = Ret (r, w') /\
    match r with
    | Ok (l', va') => exists new, l' = l ++ new /\ va' = phdr_of phs phoff va /\ minv rest w' l' /\
        Forall2 (seg_loaded buffer (w_heap w')) (loads phs) new /\ Forall sized (tab_frames new) /\
        same_on (tab_frames l ++ rest) (w_heap w) (w_heap w')
    | Err _ => (exists v, trel rest w' v) /\ same_on rest (w_heap w) (w_heap w')
    end.
Proof using Hbuf FL.
  destruct Hbuf as (Hb & Hl & Hp). revert i w l va. induction phs as [|ph phs IH]; intros i w l va I Hrd Hs Hd Hc; cbn [length load_segments].
  { exists (Ok (l, va)), w. split; [done|]. exists []. rewrite app_nil_r. split; [done|]. split; [done|]. split; [done|].
    split; [constructor|]. split; [constructor|apply same_on_refl]. }
  pose proof (Hrd O ph eq_refl) as E. rewrite Nat.add_0_r in E. rewrite E, outcome_bind_Ret.
  assert (Hrd' : forall j q, phs !! j = Some q -> ProgramHeader_read buffer phoff (S i + j) = Ret q)
    by (intros j q Hq; replace (S i + j)%nat with (i + S j)%nat by lia; by apply Hrd).
  unfold phdr_of, loads in *. rewrite filter_cons in *. destruct (decide (p_type ph = ProgramType_LOAD)) as [Ht|Ht].
  2: { rewrite phdr_in_other, outcome_bind_Ret by done. destruct (Z.eqb_spec (p_type ph) ProgramType_LOAD); [done|]. cbn [negb]. by apply IH. }
  apply Forall_cons in Hs as [Hs1 Hs], Hc as [Hc1 Hc]. inversion_clear Hd as [|? ? Hd1 Hd2].
  rewrite (phdr_in_ok buffer), outcome_bind_Ret by done. cbn [foldl]. 
  set (va1 := if (p_offset ph <=? phoff) && (phoff <? p_offset ph + p_filesz ph) then p_vaddr ph + (phoff - p_offset ph) else va).
  rewrite Ht, Z.eqb_refl. cbn [negb].
  destruct (load_segment_ok abs0 tid sh buffer ph rest w l I Hb Hs1 Hc1) as (r & w1 & -> & S1 & Hr). rewrite outcome_bind_Ret.
  destruct r as [m|e].
  2: { destruct Hr as [v T]. destruct (trel_drop _ _ _ _ _ _ _ T) as (w2 & -> & S2 & T2). rewrite outcome_bind_Ret.
       exists (Err e), w2. split; [done|]. split; [by eexists|]. eapply same_on_trans; [|exact S2]. apply (same_on_sub _ _ _ _ S1). set_solver. }
  destruct Hr as (I1 & Hm & Hz).
  destruct (IH (S i) w1 (l ++ [m]) va1 I1 Hrd' Hs Hd2) as (r & w2 & -> & Hr2).
  { rewrite Forall_forall in Hc, Hd1 |- *. intros q Hq. apply Forall_app. split; [by apply Hc|]. constructor; [|done].
    destruct Hm as (Ev & _ & Et & _). unfold m_end. rewrite Ev, Et. fold (seg_end ph). destruct (Hd1 q Hq); [by right|by left]. }
  exists r, w2. split; [done|]. destruct r as [[l' va']|e].
  - destruct Hr2 as (new & -> & -> & I2 & Hnew & Hz2 & S2). exists (m :: new). rewrite <- app_assoc in *. split; [done|]. split; [done|].
    split; [done|]. rewrite tab_frames_app in S2. split; [constructor; [|done]|].
    + apply (seg_loaded_same _ _ _ _ _ _ Hm S2); [cbn; set_solver|].
      apply (mw_frames m), (Forall_lookup_1 _ _ (length l) _ (tw_wf _ (mi_wf _ _ _ _ _ _ I1))), list_lookup_middle. done.
    + split; [by apply Forall_app|]. eapply same_on_trans; [exact S1|]. apply (same_on_sub _ _ _ _ S2). set_solver.
  - destruct Hr2 as [Hv S2]. split; [done|]. eapply same_on_trans; [|exact S2]. apply (same_on_sub _ _ _ _ S1). set_solver.
Qed.

End Loop.

(** ** The whole program *)

Section Program.
Context {A : Type} {FS : FrameSource A} {FL : FrameLaws A}.
Implicit Types (w : @world A).

Lemma w_create_ok rest w abs TK tid : mrel rest (wsys w) abs TK ->
  let sh := fun i => (i <? 256) && k_l1 abs i in
  exists r w', w_create w tid = Ret (r, w') /\ same_on rest (w_heap w) (w_heap w') /\
    match r with
    | Ok _ => minv abs tid sh rest w' []
    | Err _ => exists TK', mrel rest (wsys w') abs TK'
    end.
Proof.
  intros M sh. destruct (create_user_ok rest (wsys w) abs TK tid M) as (r & s' & o & abs' & TK' & E & Sp & S' & M'). unfold w_create.
  cbn [mexec wsys ms_heap ms_alloc ms_mgr ms_stash] in E.
  destruct (AddressSpaceManager_create_user_address_space _ _ _ _) as [[[[r1 h1] a1] m1]|]; [|done]. injection E as <- <-. rewrite outcome_bind_Ret.
  exists r1, (mkW h1 a1 m1). split; [done|]. split; [done|]. cbn [mspec] in Sp. destruct o; injection Sp as <- <-; [|by exists TK'].
  split; [|split; constructor].
  eapply (trel_intro _ _ _ _ (mkW h1 a1 m1) _ _ TK' _ M'); try done; cbn [put_user a_users].
  - intros t Ht. by destruct (Z.eqb_spec t tid).
  - by rewrite Z.eqb_refl.
  - done.
  - done.
Qed.

Lemma frame_ok_stack f : frame_ok f -> stack_frame f.
Proof.
  intros (H1 & H2 & H3 & H4 & H5). unfold PAGE_SIZE in *. assert (Hm : forall x, x mod 4096 = 0 -> x mod 16 = 0).
  { intros x Hx. pose proof (Z.div_mod x 4096 ltac:(lia)). replace x with (256 * (x / 4096) * 16) by lia. by rewrite Z.mod_mul. }
  repeat split; auto; lia.
Qed.

Lemma load_stack_ok abs0 tid sh rest w l argv envp auxv required : minv abs0 tid sh rest w l ->
  tab_clear l USER_STACK_LOWER_BOUND (USER_STACK_LOWER_BOUND + USER_STACK_SIZE) ->
  Forall bytes argv -> Forall bytes envp -> initial_stack_size argv envp auxv = Ret required ->
  exists r w', load_stack w tid argv envp auxv = Ret (r, w') /\ same_on (tab_frames l ++ rest) (w_heap w) (w_heap w') /\
    match r with
    | Ok (sp, m) => minv abs0 tid sh rest w' (l ++ [m]) /\
        exists f, m = mkMapping USER_STACK_LOWER_BOUND [f] stack_flags /\ sized f /\ stack_layout f (w_heap w') sp argv envp auxv
    | Err _ => exists v, trel abs0 tid sh (tab_frames l ++ rest) w' v
    end.
Proof.
  intros [T Hw] Hc Ha He Er. unfold load_stack.
  destruct (w_alloc_frame_ok _ _ _ _ w _ USER_STACK_SIZE T) as (r & w1 & -> & S1 & Hr); [unfold USER_STACK_SIZE, PAGE_SIZE; lia|].
  rewrite outcome_bind_Ret. destruct r as [f|]; [|exists (Err (ErrMem OutOfMemory)), w1; split; [done|]; split; [done|by eexists]].
  destruct Hr as [T1 Hf]. change (frame_bytes USER_STACK_SIZE) with USER_STACK_SIZE in Hf.
  destruct (trel_frame _ _ _ _ _ _ f T1) as [Hfo _]; [left|].
  assert (Htot : frames_total [f] = USER_STACK_SIZE) by (cbn; lia).
  set (m := mkMapping USER_STACK_LOWER_BOUND [f] stack_flags).
  assert (Hend : m_end m = USER_STACK_LOWER_BOUND + USER_STACK_SIZE) by (unfold m_end; cbn [m um_va um_frames]; lia).
  assert (Hmw : mapping_wf m).
  { split; rewrite ?Hend; cbn [m um_va um_frames]; [by constructor|reflexivity| |];
      unfold canon_range, USER_STACK_LOWER_BOUND, USER_STACK_SIZE, LOW_HALF_END, PAGE_SIZE; lia. }
  destruct (remap_frames_ok abs0 tid sh [f] _ w1 _ USER_STACK_LOWER_BOUND 0 stack_flags T1) as (r & w2 & -> & S2 & Hr2);
    [by constructor|reflexivity|reflexivity|lia|rewrite Htot, Z.add_0_r, <- Hend; apply (mw_range _ Hmw)|].
  rewrite outcome_bind_Ret. destruct r as [[]|e].
  2: { destruct Hr2 as [v T2]. destruct (trel_drop _ _ _ [f] _ _ _ T2) as (w3 & -> & S3 & T3). rewrite outcome_bind_Ret.
       exists (Err (ErrMem e)), w3. split; [done|]. split; [|by eexists]. eapply same_on_trans; [exact S1|]. eapply same_on_trans; [|exact S3].
       apply (same_on_sub _ _ _ _ S2). set_solver. }
  assert (Hfin : f ∈ f :: tab_frames l ++ rest) by left.
  destruct (build_stack_ok (w_heap w2) argv envp auxv f required) as (r & h3 & -> & W3 & Hr3);
    [by apply frame_ok_stack|by apply (frame_present _ _ _ _ _ _ _ Hr2)|done|done|done|].
  rewrite outcome_bind_Ret. pose proof (trel_writes _ _ _ _ _ _ _ _ Hr2 Hfin W3) as T3. pose proof (writes_same _ _ _ _ _ _ _ _ Hr2 W3) as S3.
  assert (S13 : same_on (tab_frames l ++ rest) (w_heap w) h3).
  { eapply same_on_trans; [exact S1|]. eapply same_on_trans; [|exact S3]. apply (same_on_sub _ _ _ _ S2). set_solver. }
  destruct r as [sp|e].
  - destruct Hr3 as (_ & _ & _ & Hlay). eexists (Ok (sp, m)), _. split; [done|]. split; [done|]. split.
    + assert (Tc : tab_clear l (um_va m) (m_end m)) by (by rewrite Hend). split; [|by apply tab_wf_snoc].
      rewrite tab_frames_app. cbn [tab_frames fmap list_fmap concat um_frames m app]. rewrite <- app_assoc.
      apply (trel_perm _ _ _ (f :: tab_frames l ++ rest)); [|apply Permutation_middle].
      apply (trel_ext _ _ _ _ _ _ _ T3). intros va _. rewrite tab_view_snoc by done. by rewrite Z.add_0_r.
    + exists f. split; [done|]. split; [|done]. unfold sized. by rewrite Hf.
  - destruct (trel_drop _ _ _ [f] _ _ _ T3) as (w4 & -> & S4 & T4). rewrite outcome_bind_Ret.
    exists (Err e), w4. split; [done|]. split; [by eapply same_on_trans|by eexists].
Qed.

End Program.

(** ** The root page table stays *)

Section LoadRoots.
Context {A : Type} {FS : FrameSource A}.
Implicit Types (w : @world A).

Lemma alloc_frames_mgr w size r w' : w_alloc_frames w size = Ret (r, w') -> w_mgr w' = w_mgr w.
Proof. unfold w_alloc_frames. intros ([[r1 h] a] & _ & E)%outcome_bind_inv. by injection E as <- <-. Qed.

Lemma load_segment_roots w buffer tid ph m w' : load_segment w buffer tid ph = Ret (Ok m, w') -> same_roots w w'.
Proof.
  unfold load_segment. intros ([r w1] & E1%alloc_frames_mgr & H)%outcome_bind_inv. destruct r as [frames|]; [|done].
  apply outcome_bind_inv in H as ([r w2] & E2%remap_frames_roots & H). destruct r as [[]|e]; [|by apply outcome_bind_inv in H as (? & _ & H)].
  apply outcome_bind_inv in H as (h & _ & H). apply outcome_bind_inv in H as (f & _ & H). destruct (p_align ph =? 0); [done|].
  apply outcome_bind_inv in H as (bs & _ & H). apply outcome_bind_inv in H as (h' & _ & H). injection H as _ <-.
  eapply same_roots_trans; [by apply same_roots_mgr|]. eapply same_roots_trans; [exact E2|by apply same_roots_mgr].
Qed.

Lemma load_segments_roots n i w buffer phoff tid l va x w' : load_segments n i w buffer phoff tid l va = Ret (Ok x, w') -> same_roots w w'.
Proof.
  revert i w l va. induction n as [|n IH]; intros i w l va; cbn [load_segments]; [intros [= _ <-]; by apply same_roots_mgr|].
  intros (ph & _ & H)%outcome_bind_inv. apply outcome_bind_inv in H as (va1 & _ & H). destruct (negb _); [by apply IH in H|].
  apply outcome_bind_inv in H as ([r w1] & E1 & H). destruct r as [m|e]; [|by apply outcome_bind_inv in H as (? & _ & H)].
  eapply same_roots_trans; [by eapply load_segment_roots|by eapply IH].
Qed.

Lemma load_stack_roots w tid argv envp auxv x w' : load_stack w tid argv envp auxv = Ret (Ok x, w') -> same_roots w w'.
Proof.
  unfold load_stack. intros ([r w1] & E1 & H)%outcome_bind_inv. destruct r as [f|]; [|done].
  assert (Em : w_mgr w1 = w_mgr w) by (unfold w_alloc_frame in E1; apply outcome_bind_inv in E1 as ([[? ?] ?] & _ & E1); by injection E1 as _ <-).
  apply outcome_bind_inv in H as ([r w2] & E2%remap_frames_roots & H). destruct r as [[]|e]; [|by apply outcome_bind_inv in H as (? & _ & H)].
  apply outcome_bind_inv in H as ([r h] & _ & H). destruct r as [sp|e]; [|by apply outcome_bind_inv in H as (? & _ & H)]. injection H as _ <-.
  eapply same_roots_trans; [by apply same_roots_mgr|]. eapply same_roots_trans; [exact E2|by apply same_roots_mgr].
Qed.

End LoadRoots.

(** ** Images *)

(** An ELF file with the headers [hdr] and [phs] whose segments can be placed. *)
Record image_ok (buffer : list Z) (hdr : ElfHeader) (phs : list ProgramHeader) : Prop := {
  io_bytes : bytes buffer /\ len buffer < 2 ^ 64;
  io_header : ElfHeader_try_from buffer = Ok hdr;
  io_valid : ElfHeader_validate hdr = Ok tt;
  io_phoff : 0 <= e_phoff hdr;
  io_phnum : Z.to_nat (e_phnum hdr) = length phs;
  io_phs : forall i ph, phs !! i = Some ph -> ProgramHeader_read buffer (e_phoff hdr) i = Ret ph;
  io_segs : Forall (seg_ok buffer) (loads phs);
  io_dis : ForallOrdPairs seg_dis (loads phs);
  io_stack : Forall (fun ph => seg_end ph <= USER_STACK_LOWER_BOUND \/ USER_STACK_LOWER_BOUND + USER_STACK_SIZE <= p_vaddr ph) (loads phs)
}.

(** The auxiliary vector. *)
Definition auxv_of (hdr : ElfHeader) (phs : list ProgramHeader) : list (Z * Z) :=
  [(AT_PHDR, phdr_of phs (e_phoff hdr) 0); (AT_PHENT, e_phentsize hdr); (AT_PHNUM, e_phnum hdr);
   (AT_PAGESZ, PAGE_SIZE); (AT_ENTRY, e_entry hdr); (AT_NULL, 0)].

(** The program in memory, ready to run. *)
Definition loaded (buffer : list Z) (hdr : ElfHeader) (phs : list ProgramHeader) (argv envp : list (list Z)) (sstatus : Z)
    (h : heap) (ld : Load) : Prop :=
  exists segs f sp, ms_mappings (ld_memory_set ld) = segs ++ [mkMapping USER_STACK_LOWER_BOUND [f] stack_flags] /\
    Forall2 (seg_loaded buffer h) (loads phs) segs /\ stack_layout f h sp argv envp (auxv_of hdr phs) /\
    ld_trap_context ld = mkTrap (<[2%nat := sp]> (replicate 32 0)) (satp_of (ms_root (ld_memory_set ld))) (e_entry hdr)
      (SstatusBits_set_spie (SstatusBits_set_spp sstatus false) true).

(** The kernel and the tasks other than [tid] are as before. *)
Definition others_kept (abs0 abs : mabs) (tid : Z) : Prop :=
  (forall va, k_view abs va = k_view abs0 va) /\ forall t, t <> tid -> a_users abs t = a_users abs0 t.

Lemma stack_range_clear buffer h phs segs : Forall2 (seg_loaded buffer h) phs segs ->
  Forall (fun ph => seg_end ph <= USER_STACK_LOWER_BOUND \/ USER_STACK_LOWER_BOUND + USER_STACK_SIZE <= p_vaddr ph) phs ->
  tab_clear segs USER_STACK_LOWER_BOUND (USER_STACK_LOWER_BOUND + USER_STACK_SIZE).
Proof.
  intros H HF. induction H as [|ph m phs segs (Ev & _ & Et & _) _ IH]; [constructor|]. apply Forall_cons in HF as [Hs HF].
  constructor; [|by apply IH]. unfold m_end, seg_end in *. rewrite Ev, Et. tauto.
Qed.

Lemma segs_same buffer h h' phs segs held : Forall2 (seg_loaded buffer h) phs segs -> same_on held h h' -> tab_frames segs ⊆ held ->
  Forall mapping_wf segs -> Forall2 (seg_loaded buffer h') phs segs.
Proof.
  intros H S Hsub HF. induction H as [|ph m phs segs Hm _ IH]; [constructor|]. apply Forall_cons in HF as [Hw HF].
  assert (Hc : tab_frames (m :: segs) = um_frames m ++ tab_frames segs) by done. rewrite Hc in Hsub.
  constructor; [|apply IH; [set_solver|done]]. apply (seg_loaded_same _ _ _ _ _ _ Hm S); [set_solver|apply Hw].
Qed.

Lemma cstr_at_same f h h' va s held : cstr_at f h va s -> same_on held h h' -> f ∈ held -> frame_ok f -> cstr_at f h' va s.
Proof.
  intros (H1 & H2 & H3) S Hf Hok. split; [done|]. split; [done|]. intros i b Hi. rewrite <- (H3 i b Hi). pose proof (lookup_lt_Some _ _ _ Hi) as Hl.
  rewrite length_app in Hl. cbn in Hl. unfold len in H2. apply (same_on_byte held _ _ f); [done|done|by apply frame_ok_mod8|unfold in_frame; lia].
Qed.

Lemma stack_layout_same f h h' va argv envp auxv held : stack_layout f h va argv envp auxv -> same_on held h h' -> f ∈ held -> frame_ok f ->
  stack_layout f h' va argv envp auxv.
Proof.
  intros ((Hlo & Hhi & Hal) & Hc & [Ha Ha0] & [He He0] & Hx) S Hf Hok. pose proof (len_nonneg argv). pose proof (len_nonneg envp). pose proof (len_nonneg auxv).
  unfold pointer_words in Hhi. assert (Hw : forall x, va <= x < va + 8 * pointer_words argv envp auxv -> stack_word f h' x = stack_word f h x).
  { intros x Hx'. unfold stack_word, pointer_words in *. apply (S f); [done|]. unfold in_frame. lia. }
  unfold pointer_words in Hw. split; [done|]. split; [by rewrite Hw by lia|]. split; [|split].
  - split; [|by rewrite Hw by lia]. intros i s Hi. pose proof (lookup_lt_Some _ _ _ Hi). unfold len in *.
    destruct (Ha i s Hi) as (p & Hp & Hs). exists p. rewrite Hw by lia. split; [done|by apply (cstr_at_same f h h' p s held)].
  - split; [|by rewrite Hw by lia]. intros i s Hi. pose proof (lookup_lt_Some _ _ _ Hi). unfold len in *.
    destruct (He i s Hi) as (p & Hp & Hs). exists p. rewrite Hw by lia. split; [done|by apply (cstr_at_same f h h' p s held)].
  - intros i t v Hi. pose proof (lookup_lt_Some _ _ _ Hi). unfold len in *. rewrite !Hw by lia. by apply Hx.
Qed.

(** The loaded program stays while its frames do. *)
Lemma loaded_same buffer hdr phs argv envp sstatus h h' ld held : loaded buffer hdr phs argv envp sstatus h ld -> same_on held h h' ->
  tab_frames (ms_mappings (ld_memory_set ld)) ⊆ held -> tab_wf (ms_mappings (ld_memory_set ld)) ->
  loaded buffer hdr phs argv envp sstatus h' ld.
Proof.
  intros (segs & f & sp & El & Hsegs & Hlay & Ec) S Hsub [HF _]. exists segs, f, sp. split; [done|]. rewrite El in Hsub, HF. rewrite tab_frames_app in Hsub.
  apply Forall_app in HF as [HF1 HF2]. split; [apply (segs_same _ _ _ _ _ _ Hsegs S); [set_solver|done]|]. split; [|done].
  apply Forall_cons in HF2 as [Hm _]. apply (stack_layout_same _ _ _ _ _ _ _ held Hlay S); [cbn in Hsub; set_solver|].
  pose proof (mw_frames _ Hm) as Hf. by apply Forall_cons in Hf as [? _].
Qed.

Section Whole.
Context {A : Type} {FS : FrameSource A} {FL : FrameLaws A}.
Implicit Types (w : @world A).

Lemma trel_open abs0 tid sh rest w v : trel abs0 tid sh rest w v ->
  exists abs TK, mrel rest (wsys w) abs TK /\ others_kept abs0 abs tid.
Proof. intros (abs & TK & u & M & Hk & _ & Ho & _). by exists abs, TK. Qed.

Lemma minv_open abs0 tid sh rest w l : minv abs0 tid sh rest w l ->
  exists abs TK, mrel (tab_frames l ++ rest) (wsys w) abs TK /\ in_space abs tid sh l /\ others_kept abs0 abs tid.
Proof. intros [(abs & TK & u & M & Hk & _ & Ho & Hu & Hs & Hv) _]. exists abs, TK. split; [done|]. split; [by exists u|done]. Qed.

Lemma load_elf_rel buffer hdr phs argv envp sstatus tid required rest w abs0 TK0 :
  image_ok buffer hdr phs -> Forall bytes argv -> Forall bytes envp ->
  initial_stack_size argv envp (auxv_of hdr phs) = Ret required -> mrel rest (wsys w) abs0 TK0 ->
  exists r w' abs TK, load_elf w buffer argv envp tid sstatus = Ret (r, w') /\ same_on rest (w_heap w) (w_heap w') /\
    others_kept abs0 abs tid /\
    match r with
    | Ok ld => let l := ms_mappings (ld_memory_set ld) in
        mrel (tab_frames l ++ rest) (wsys w') abs TK /\ (exists sh, in_space abs tid sh l) /\ tab_wf l /\ Forall sized (tab_frames l) /\
        loaded buffer hdr phs argv envp sstatus (w_heap w') ld /\
        AddressSpaceManager_user_root_addr (w_mgr w') tid = Ok (ms_root (ld_memory_set ld))
    | Err _ => mrel rest (wsys w') abs TK
    end.
Proof.
  intros [[Hb Hl] Hh Hv Hp Hn Hphs Hs Hd Hst] Ha He Er M. unfold load_elf. rewrite Hh, Hv.
  destruct (w_create_ok rest w abs0 TK0 tid M) as (r & w1 & -> & S1 & Hr). rewrite outcome_bind_Ret.
  destruct r as [[]|e]; [|destruct Hr as [TK M1]; by exists (Err (ErrMem e)), w1, abs0, TK].
  set (sh := fun i => (i <? 256) && k_l1 abs0 i) in *.
  assert (om_ok (am_user (w_mgr w1)) /\ exists root, AddressSpaceManager_user_root_addr (w_mgr w1) tid = Ok root) as [Hok [root Eroot]].
  { destruct (mi_rel _ _ _ _ _ _ Hr) as (abs & TK & u & M1 & _ & _ & _ & Hu & _). split; [apply M1|]. pose proof (mr_user _ _ _ _ M1 tid) as H. cbn [wsys ms_mgr] in H.
    unfold AddressSpaceManager_user_root_addr. destruct (om_get tid (am_user (w_mgr w1))); [by eexists|]. by rewrite Hu in H. }
  rewrite Eroot, Hn.
  destruct (load_segments_ok abs0 tid sh buffer (e_phoff hdr) (conj Hb (conj Hl Hp)) phs 0 rest w1 [] 0 Hr) as (r & w2 & E2 & Hr2);
    [done|done|done|apply Forall_forall; intros ph _; constructor|].
  rewrite E2, outcome_bind_Ret. destruct r as [[segs va]|e].
  2: { destruct Hr2 as [[v T2] S2]. destruct (trel_open _ _ _ _ _ _ T2) as (abs & TK & M2 & Ho).
       exists (Err (ErrMem e)), w2, abs, TK. split; [done|]. split; [by eapply same_on_trans|done]. }
  destruct Hr2 as (new & Hnew & -> & I2 & Hsegs & Hz & S2). cbn in Hnew. subst new. cbn in S2. fold (auxv_of hdr phs).
  destruct (load_stack_ok abs0 tid sh rest w2 segs argv envp (auxv_of hdr phs) required I2) as (r & w3 & E3 & S3 & Hr3);
    [by apply (stack_range_clear buffer (w_heap w2) (loads phs))|done|done|done|].
  rewrite E3, outcome_bind_Ret. assert (S13 : same_on rest (w_heap w) (w_heap w3)).
  { eapply same_on_trans; [exact S1|]. eapply same_on_trans; [exact S2|]. apply (same_on_sub _ _ _ _ S3). set_solver. }
  destruct r as [[sp stack]|e].
  2: { destruct Hr3 as [v T3]. destruct (trel_drop _ _ _ _ _ _ _ T3) as (w4 & -> & S4 & T4). rewrite outcome_bind_Ret.
       destruct (trel_open _ _ _ _ _ _ T4) as (abs & TK & M4 & Ho). exists (Err e), w4, abs, TK. split; [done|]. split; [by eapply same_on_trans|done]. }
  destruct Hr3 as (I3 & f & -> & Hzf & Hlay).
  assert (Er3 : AddressSpaceManager_user_root_addr (w_mgr w3) tid = Ok root).
  { apply load_segments_roots in E2. apply load_stack_roots in E3. destruct (E2 Hok) as [Hok2 R2]. destruct (E3 Hok2) as [_ R3]. by rewrite R3, R2. }
  rewrite Er3. destruct (minv_open _ _ _ _ _ _ I3) as (abs & TK & M3 & Hi & Ho). eexists (Ok _), w3, abs, TK. split; [done|]. split; [done|]. split; [done|].
  cbn [ld_memory_set ms_mappings ms_root]. split; [done|]. split; [by exists sh|]. split; [apply I3|]. split.
  { rewrite tab_frames_app. apply Forall_app. split; [done|]. cbn. by constructor. }
  split; [|done]. exists segs, f, sp. split; [done|]. split; [|done].
  apply (segs_same buffer (w_heap w2) _ _ _ _ Hsegs S3); [set_solver|apply I2].
Qed.

End Whole.

(** ** What the program sees *)

(** The byte behind a user address. *)
Definition user_byte (l : list UserMapping) (h : heap) (va : Z) : option Z :=
  m ← mapping_at l va; p ← m_phys m va; byte_at h p.

Lemma loaded_bytes buffer h phs segs l ph va : Forall2 (seg_loaded buffer h) phs segs -> tab_wf l -> segs ⊆ l -> ph ∈ phs ->
  p_vaddr ph <= va < seg_end ph ->
  (exists flags, tab_flags l va = Some flags /\ seg_grants ph flags) /\ user_byte l h va = Some (file_byte buffer ph (va - p_vaddr ph)).
Proof.
  intros H [_ HD] Hsub Hph Hva. apply list_elem_of_lookup in Hph as [i Hi]. destruct (Forall2_lookup_l _ _ _ _ _ H Hi) as (m & Hm & Ev & Ef & Et & Hb).
  apply list_elem_of_lookup_2, Hsub in Hm. unfold seg_end in Hva.
  assert (Hat : mapping_at l va = Some m) by (apply mapping_at_elem; [done|done|unfold m_end; lia]).
  unfold tab_flags, user_byte. rewrite Hat. cbn. split; [by eexists|]. unfold m_phys. rewrite Ev. apply Hb. lia.
Qed.

Lemma stack_grants : grants stack_flags true true false.
Proof. repeat split. Qed.

Section Claim.
Context {A : Type} {FS : FrameSource A} {FL : FrameLaws A}.


End Claim.

(** ** Example *)

#[local] Existing Instance pool_laws.

Definition ex_file : list Z := ElfHeader_bytes ex_elf ++ ProgramHeader_bytes ex_ph.

Lemma ex_image : image_ok ex_file ex_elf [ex_ph].
Proof.
  assert (Hl : loads [ex_ph] = [ex_ph]) by reflexivity.
  split; rewrite ?Hl.
  - split; [|vm_compute; reflexivity]. apply (bool_decide_unpack _). vm_compute. exact I.
  - vm_compute. reflexivity.
  - vm_compute. reflexivity.
  - cbn. lia.
  - reflexivity.
  - intros [|i] ph; [|done]. intros [= <-]. vm_compute. reflexivity.
  - constructor; [|constructor]. assert (Hs : served (p_memsz ex_ph) = 4096) by (vm_compute; reflexivity).
    assert (Hf : frame_bytes (p_memsz ex_ph) = 4096) by (vm_compute; reflexivity).
    assert (Hb : len ex_file = 120) by (vm_compute; reflexivity).
    split; rewrite ?Hs, ?Hf, ?Hb; unfold canon_range, LOW_HALF_END; cbn [ex_ph p_vaddr p_memsz p_align p_offset p_filesz]; try lia; reflexivity.
  - repeat constructor.
  - constructor; [|constructor]. left. vm_compute. discriminate.
Qed.

