(* ===== verification/Exec.v ===== *)
(** * Exec: starting programs and replacing them
      ([exec_buffer] and [kernel_execve] of [src/task/exec.rs], [execve_into] of
      [src/task/process.rs])

    A program becomes a new task, or takes the place of the program of a task:
    the task's address space is then set aside while the new one is built, and
    put back when that fails. *)

From stdpp Require Import gmap.
From S2P Require Import Prelude OrdMap IdAlloc Buddy FrameAlloc BitFields Abi PageTable SpaceClone SpaceManager.
From S2P Require Import MemoryMap MapTable MapTheory MapOps UserMemory Fork Bytes ByteMem InitStack Elf LoadElf.
From S2P Require Import Trie Paths Disk Devices Vfs DevFs MinixVfs Tasks Processes Clone.

(** ** Operations *)

(** The kernel with the devices and the open files. *)
Record Machine (D A : Type) : Type := mkMachine { mc_kernel : Kernel D A; mc_devs : World D }.
Arguments mkMachine {D A} _ _.
Arguments mc_kernel {D A} _.
Arguments mc_devs {D A} _.

Section Ops.
Context {D A : Type} {FS : FrameSource A} (manager : DeviceManager D) (vfs : Vfs D).
Implicit Types (m : Machine D A) (w : @world A).

Definition with_world (k : Kernel D A) w : Kernel D A := mkKernel (kn_tasks k) (kn_tids k) w.

(** [OpenFlags::read_only] and [OpenFlags::write_only]. *)
Definition OpenFlags_read_only : Z := 0.
Definition OpenFlags_write_only : Z := 1.

(** [File::uart] does not fail. *)
Definition uart_file (dw : World D) (flags : Z) : outcome (VfsFile D * World D) :=
  '(r, dw) ← VfsFile_uart manager flags dw;
  match r with Ok file => mret (file, dw) | Err _ => Panic end.

Definition exec_buffer m (buffer : list Z) (argv envp : list (list Z)) (sstatus : Z) : outcome (result Error unit * Machine D A) :=
  '(r, k) ← alloc_tid (mc_kernel m);
  match r with
  | None => mret (Err NoTidAvailable, mkMachine k (mc_devs m))
  | Some tid =>
      '(r, w) ← load_elf (kn_world k) buffer argv envp tid sstatus;
      match r with
      | Err e => mret (Err e, mkMachine (with_world k w) (mc_devs m))
      | Ok load =>
          '(f0, dw) ← uart_file (mc_devs m) OpenFlags_read_only;
          '(f1, dw) ← uart_file dw OpenFlags_write_only;
          '(f2, dw) ← uart_file dw OpenFlags_write_only;
          let tcb := mkTask None [] Running (ld_memory_set load) (ld_trap_context load) 0 [f0; f1; f2] in
          mret (Ok tt, mkMachine (mkKernel (Tasks_add (kn_tasks k) tid None tcb) (kn_tids k) w) dw)
      end
  end.

Definition kernel_execve m (path : str) (argv envp : list (list Z)) (sstatus : Z) : outcome (Machine D A) :=
  '(r, dw) ← read_file vfs path (mc_devs m);
  let m := mkMachine (mc_kernel m) dw in
  match r with
  | Ok (Some buf) => '(_, m) ← exec_buffer m buf argv envp sstatus; mret m
  | _ => mret m
  end.

Definition w_remove w (tid : Z) : option AddressSpace * world :=
  let (old, mgr) := AddressSpaceManager_remove_user (w_mgr w) tid in (old, mkW (w_heap w) (w_alloc w) mgr).

Definition w_insert w (tid : Z) (space : AddressSpace) : outcome world :=
  '(h, a, mgr) ← AddressSpaceManager_insert_user (w_heap w) (w_alloc w) (w_mgr w) tid space;
  mret (mkW h a mgr).

(** Dropping what [remove_user] returned. *)
Definition w_drop_old w (old : option AddressSpace) : outcome world :=
  match old with
  | None => mret w
  | Some space => '(h, a) ← drop_space (w_heap w) (w_alloc w) space; mret (mkW h a (w_mgr w))
  end.

(** The part of [execve_into] after the file was read. The value of [satp] is
    not part of the state; [activate] of the kernel's space cannot fail. *)
Definition replace_program (k : Kernel D A) (tid : Z) (buf : list Z) (argv envp : list (list Z)) (sstatus : Z)
    : outcome (option unit * Kernel D A) :=
  let is_current := bool_decide (t_current (kn_tasks k) = Some tid) in
  match (if is_current then AddressSpaceManager_activate (w_mgr (kn_world k)) IdKernel else Ok 0) with
  | Err _ => mret (None, k)
  | Ok _ =>
      let (old_space, w) := w_remove (kn_world k) tid in
      '(r, w) ← load_elf w buf argv envp tid sstatus;
      match r with
      | Err _ =>
          w ← match old_space with Some old => w_insert w tid old | None => mret w end;
          mret (None, with_world k w)
      | Ok load =>
          match om_get tid (t_map (kn_tasks k)) with
          | None =>
              w ← w_drop_frames w (tab_frames (ms_mappings (ld_memory_set load)));
              w ← w_drop_old w old_space;
              mret (None, with_world k w)
          | Some tcb =>
              w ← w_drop_frames w (tab_frames (ms_mappings (t_memory_set tcb)));
              w ← w_drop_old w old_space;
              let tasks := update (kn_tasks k) tid (fun task =>
                Task_mark_runnable (set_context (set_memory task (ld_memory_set load)) (ld_trap_context load))) in
              mret (Some tt, mkKernel tasks (kn_tids k) w)
          end
      end
  end.

Definition execve_into m (tid : Z) (path : str) (argv envp : list (list Z)) (sstatus : Z) : outcome (option unit * Machine D A) :=
  match om_get tid (t_map (kn_tasks (mc_kernel m))) with
  | None => mret (None, m)
  | Some _ =>
      '(r, dw) ← read_file vfs path (mc_devs m);
      match r with
      | Ok (Some buf) =>
          '(r, k) ← replace_program (mc_kernel m) tid buf argv envp sstatus;
          mret (r, mkMachine k dw)
      | _ => mret (None, mkMachine (mc_kernel m) dw)
      end
  end.

End Ops.

(** ** An address space set aside

    The loader works on the address space of one task; a space of a task with
    another ID stays. *)

Lemma om_insert_comm {V} (k k' : Z) (v v' : V) m : om_ok m -> k <> k' -> om_insert k v (om_insert k' v' m) = om_insert k' v' (om_insert k v m).
Proof.
  intros Hok Hne. apply om_ext; [by repeat apply om_insert_ok..|]. intros x. rewrite !om_get_insert by (by repeat apply om_insert_ok).
  repeat case_decide; congruence.
Qed.

Lemma om_modify_insert_ne {V} (f : V -> V) (k k' : Z) v' m : om_ok m -> k <> k' -> om_modify f k (om_insert k' v' m) = om_insert k' v' (om_modify f k m).
Proof.
  intros Hok Hne. apply om_ext; [by apply om_modify_ok, om_insert_ok|by apply om_insert_ok, om_modify_ok|]. intros x.
  rewrite om_get_modify, !om_get_insert, om_get_modify by (done || by apply om_insert_ok || by apply om_modify_ok).
  repeat case_decide; congruence.
Qed.

Section Aside.
Context {A : Type} {FS : FrameSource A} (g : Z) (sp : AddressSpace).
Implicit Types (w : @world A).

Definition users_ok w : Prop := om_ok (am_user (w_mgr w)) /\ om_get g (am_user (w_mgr w)) = None.

Definition aside w : world :=
  mkW (w_heap w) (w_alloc w) (mkManager (am_kernel (w_mgr w)) (om_insert g sp (am_user (w_mgr w)))).

(** A computation does the same with the space set aside. *)
Definition commutes {R} (f : world -> outcome (R * world)) : Prop := forall w, users_ok w ->
  match f w with Ret (r, w') => f (aside w) = Ret (r, aside w') /\ users_ok w' | Panic => f (aside w) = Panic end.

Definition commutes_w (f : world -> outcome world) : Prop := forall w, users_ok w ->
  match f w with Ret w' => f (aside w) = Ret (aside w') /\ users_ok w' | Panic => f (aside w) = Panic end.

Lemma commutes_ret {R} (r : R) : commutes (fun w => mret (r, w)).
Proof. by intros w Hw. Qed.

Lemma commutes_bind {R S} (f : world -> outcome (R * world)) (k : R -> world -> outcome (S * world)) :
  commutes f -> (forall r, commutes (k r)) -> commutes (fun w => '(r, w) ← f w; k r w).
Proof.
  intros Hf Hk w Hw. specialize (Hf w Hw). destruct (f w) as [[r w1]|]; [|by rewrite Hf]. destruct Hf as [Hf Hw1].
  rewrite Hf, !outcome_bind_Ret. by apply Hk.
Qed.

Lemma commutes_step {S} (f : world -> outcome world) (k : world -> outcome (S * world)) :
  commutes_w f -> commutes k -> commutes (fun w => w ← f w; k w).
Proof.
  intros Hf Hk w Hw. specialize (Hf w Hw). destruct (f w) as [w1|]; [|by rewrite Hf]. destruct Hf as [Hf Hw1].
  rewrite Hf, !outcome_bind_Ret. by apply Hk.
Qed.

Lemma commutes_pure {X S} (e : outcome X) (k : X -> world -> outcome (S * world)) : (forall x, commutes (k x)) -> commutes (fun w => x ← e; k x w).
Proof. intros Hk w Hw. destruct e as [x|]; [|done]. rewrite !outcome_bind_Ret. by apply Hk. Qed.

Lemma commutes_heap {X S} (e : heap -> outcome X) (k : X -> world -> outcome (S * world)) :
  (forall x, commutes (k x)) -> commutes (fun w => x ← e (w_heap w); k x w).
Proof. intros Hk w Hw. cbn [aside w_heap]. destruct (e (w_heap w)) as [x|]; [|done]. rewrite !outcome_bind_Ret. by apply Hk. Qed.

Lemma commutes_set {R} (r : R) h : commutes (fun w => mret (r, set_heap w h)).
Proof. by intros w Hw. Qed.

Lemma commutes_alloc size : commutes (fun w => w_alloc_frames w size).
Proof. intros w Hw. unfold w_alloc_frames. cbn [aside w_heap w_alloc]. destruct (take_frames _ _ _) as [[[r h] a]|]; [|done]. by rewrite !outcome_bind_Ret. Qed.

Lemma commutes_alloc1 size : commutes (fun w => w_alloc_frame w size).
Proof. intros w Hw. unfold w_alloc_frame. cbn [aside w_heap w_alloc]. destruct (fs_alloc _ _ _) as [[[r h] a]|]; [|done]. by rewrite !outcome_bind_Ret. Qed.

Lemma commutes_drop frames : commutes_w (fun w => w_drop_frames w frames).
Proof. intros w Hw. unfold w_drop_frames. cbn [aside w_heap w_alloc]. destruct (free_frames _ _ _) as [[h a]|]; [|done]. by rewrite !outcome_bind_Ret. Qed.

Context (tid : Z).
Hypothesis Hg : tid <> g.

Lemma get_aside w : users_ok w -> om_get tid (am_user (w_mgr (aside w))) = om_get tid (am_user (w_mgr w)).
Proof using Hg. intros [Hw _]. cbn. by rewrite om_get_insert, decide_False. Qed.

Lemma commutes_root {S} (k : Z -> world -> outcome (S * world)) (k' : MemError -> world -> outcome (S * world)) :
  (forall r, commutes (k r)) -> (forall e, commutes (k' e)) ->
  commutes (fun w => match AddressSpaceManager_user_root_addr (w_mgr w) tid with Ok r => k r w | Err e => k' e w end).
Proof using Hg.
  intros Hk Hk' w Hw. replace (AddressSpaceManager_user_root_addr (w_mgr (aside w)) tid) with (AddressSpaceManager_user_root_addr (w_mgr w) tid).
  - destruct (AddressSpaceManager_user_root_addr (w_mgr w) tid); [by apply Hk|by apply Hk'].
  - unfold AddressSpaceManager_user_root_addr. by rewrite get_aside.
Qed.

Lemma commutes_map va pa flags : commutes (fun w => w_user_map w tid va pa flags).
Proof using Hg.
  intros w Hw. unfold w_user_map, AddressSpaceManager_user_map. rewrite get_aside by done. cbn [aside w_heap w_alloc].
  destruct (om_get tid (am_user (w_mgr w))) as [space|]; [|by rewrite !outcome_bind_Ret].
  destruct (AddressSpace_map _ _ _ _ _ _) as [[[[r h] a] space']|]; [|done]. rewrite !outcome_bind_Ret. split.
  - cbn. by rewrite om_modify_insert_ne by (done || apply Hw).
  - destruct Hw as [Hok Hn]. split; [by apply om_modify_ok|]. cbn. by rewrite om_get_modify, decide_False.
Qed.

Lemma commutes_create : commutes (fun w => w_create w tid).
Proof using Hg.
  intros w Hw. unfold w_create, AddressSpaceManager_create_user_address_space. cbn [aside w_heap w_alloc w_mgr am_kernel].
  destruct (PageTableHandle_create _ _) as [[[r h] a]|]; [|done]. rewrite !outcome_bind_Ret. destruct r as [t|e]; [|by rewrite !outcome_bind_Ret].
  destruct (PageTableHandle_copy_low_half _ _ _) as [h1|]; [|done]. rewrite !outcome_bind_Ret. unfold AddressSpaceManager_insert_user.
  cbn [am_user am_kernel]. destruct Hw as [Hok Hn]. rewrite om_get_insert, decide_False by done.
  assert (Hu : forall h a space, users_ok (mkW h a (mkManager (am_kernel (w_mgr w)) (om_insert tid space (am_user (w_mgr w)))))).
  { intros h' a' space. split; [by apply om_insert_ok|]. cbn. by rewrite om_get_insert, decide_False. }
  destruct (om_get tid (am_user (w_mgr w))) as [old|].
  - destruct (drop_space _ _ _) as [[h2 a2]|]; [|done]. rewrite !outcome_bind_Ret. cbn. rewrite om_insert_comm by done. split; [done|apply Hu].
  - rewrite !outcome_bind_Ret. cbn. rewrite om_insert_comm by done. split; [done|apply Hu].
Qed.

Ltac commute :=
  repeat first
    [ apply commutes_ret | apply commutes_set | apply commutes_alloc | apply commutes_alloc1 | apply commutes_map | apply commutes_create
    | apply commutes_bind; [|intros ?] | apply commutes_step; [apply commutes_drop|] | apply commutes_pure; intros ? ].

Lemma commutes_segment n base start step flags : commutes (fun w => map_segment n w tid base start step flags).
Proof using Hg.
  revert step. induction n as [|n IH]; intros step; cbn [map_segment]; commute. destruct r as [[]|e]; [apply IH|apply commutes_ret].
Qed.
#[local] Opaque map_segment.

Lemma commutes_remap frames va off flags : commutes (fun w => remap_frames w tid va off frames flags).
Proof using Hg.
  revert off. induction frames as [|f frames IH]; intros off; cbn [remap_frames]; commute; [apply commutes_segment|].
  destruct r as [[err step]|]; commute. apply IH.
Qed.
#[local] Opaque remap_frames.

Lemma commutes_load_segment buffer ph : commutes (fun w => load_segment w buffer tid ph).
Proof using Hg.
  unfold load_segment. commute. destruct r as [frames|]; commute; [apply commutes_remap|]. destruct r as [[]|e]; commute.
  apply (commutes_heap (fun h => zero_frames h frames)). intros h. commute. destruct (p_align ph =? 0); [done|]. commute.
Qed.
#[local] Opaque load_segment.

Lemma commutes_load_segments n i buffer phoff l va : commutes (fun w => load_segments n i w buffer phoff tid l va).
Proof using Hg.
  revert i l va. induction n as [|n IH]; intros i l va; cbn [load_segments]; commute. destruct (negb _); [apply IH|].
  commute; [apply commutes_load_segment|]. destruct r as [m|e]; [apply IH|]. commute.
Qed.
#[local] Opaque load_segments.

Lemma commutes_load_stack argv envp auxv : commutes (fun w => load_stack w tid argv envp auxv).
Proof using Hg.
  unfold load_stack. commute. destruct r as [f|]; commute; [apply commutes_remap|]. destruct r as [[]|e]; commute.
  apply (commutes_heap (fun h => build_initial_stack h argv envp auxv f)). intros [r h]. destruct r as [sp_va|e]; [apply commutes_set|].
  intros w Hw. apply (commutes_step (fun w => w_drop_frames w [f]) (fun w => mret (Err e, w))); [apply commutes_drop|apply commutes_ret|done].
Qed.
#[local] Opaque load_stack.

Lemma commutes_load_elf buffer argv envp sstatus : commutes (fun w => load_elf w buffer argv envp tid sstatus).
Proof using Hg.
  unfold load_elf. destruct (ElfHeader_try_from buffer) as [hdr|e]; [|commute]. destruct (ElfHeader_validate hdr) as [[]|e]; [|commute]. commute.
  destruct r as [[]|e]; [|commute]. apply commutes_root; [intros root|intros e; commute]. commute; [apply commutes_load_segments|].
  destruct r as [[l va]|e]; [|commute]. commute; [apply commutes_load_stack|]. destruct r as [[sp_va stack]|e]; [|commute].
  apply commutes_root; [intros root'|intros e]; commute.
Qed.

End Aside.

(** ** Taking a space out, and back *)

Section Spaces.
Context {A : Type} {FS : FrameSource A} {FL : FrameLaws A}.
Implicit Types (w : @world A).

Lemma fresh_tid (users : list (Z * AddressSpace)) (tid : Z) : om_ok users -> exists g, tid <> g /\ om_get g users = None.
Proof.
  intros Hok. pose proof (infinite_is_fresh (tid :: users.*1)) as Hg. set (g := fresh _) in Hg. exists g. apply not_elem_of_cons in Hg as [Hne Hg]. split; [done|].
  apply om_get_none; [done|]. intros v Hv. apply Hg. by apply (list_elem_of_fmap_2' fst _ (g, v)).
Qed.

Lemma frames_of_insert (users : list (Z * AddressSpace)) g sp : om_ok users -> om_get g users = None ->
  frames_of (om_insert g sp users).*2 ≡ₚ space_frames sp ++ frames_of users.*2.
Proof. intros Hok Hn. change (space_frames sp ++ frames_of users.*2) with (frames_of (sp :: users.*2)). apply frames_of_perm. by rewrite om_insert_new. Qed.

(** A space on the stash, or with a task of its own. *)
Lemma stash_aside all h a mgr sp abs TK g : mrel all (mkMsys h a mgr [sp]) abs TK -> om_get g (am_user mgr) = None ->
  exists u, a_stash abs = [u] /\
    mrel all (wsys (aside g sp (mkW h a mgr))) (mkAbs (k_view abs) (k_l1 abs) (fun t => if t =? g then Some u else a_users abs t) []) TK.
Proof.
  intros [M1 M2 M3 M4 M5 M6 M7 M8] Hn. cbn [ms_heap ms_alloc ms_mgr ms_stash] in *.
  inversion M7 as [|? u ? st Hu Hst E1 E2]. inversion Hst. subst st. exists u. split; [done|].
  split; cbn [wsys aside ms_heap ms_alloc ms_mgr ms_stash w_heap w_alloc w_mgr am_user am_kernel k_view k_l1 a_users a_stash]; try done.
  - by apply om_insert_ok.
  - intros t. rewrite om_get_insert by done. case_decide as Et; [subst t; rewrite Z.eqb_refl; by exists u|].
    destruct (Z.eqb_spec t g); [done|]. apply M6.
  - apply (fs_perm _ _ _ _ M8). rewrite stash_perm, (Permutation_app_swap_app (space_frames sp)). f_equiv.
    by rewrite frames_of_insert, <- app_assoc.
Qed.

Lemma aside_stash all w sp abs TK g : mrel all (wsys (aside g sp w)) abs TK -> users_ok g w ->
  exists u, a_users abs g = Some u /\
    mrel all (mkMsys (w_heap w) (w_alloc w) (w_mgr w) [sp])
      (mkAbs (k_view abs) (k_l1 abs) (fun t => if t =? g then None else a_users abs t) [u]) TK.
Proof.
  intros [M1 M2 M3 M4 M5 M6 M7 M8] [Hok Hn]. cbn [wsys aside ms_heap ms_alloc ms_mgr ms_stash w_heap w_alloc w_mgr am_user am_kernel] in *.
  pose proof (M6 g) as Hu. rewrite om_get_insert, decide_True in Hu by done. destruct Hu as (u & Eu & Hu). exists u. split; [done|].
  split; cbn [ms_heap ms_alloc ms_mgr ms_stash k_view k_l1 a_users a_stash]; try done.
  - intros t. specialize (M6 t). rewrite om_get_insert in M6 by done. case_decide as Et; [subst t; by rewrite Hn, Z.eqb_refl|].
    destruct (Z.eqb_spec t g); [done|]. apply M6.
  - by repeat constructor.
  - apply (fs_perm _ _ _ _ M8). rewrite stash_perm, (Permutation_app_swap_app (space_frames sp)). f_equiv.
    by rewrite frames_of_insert, <- app_assoc.
Qed.

Lemma w_remove_ok all w abs TK tid u g : mrel all (wsys w) abs TK -> a_users abs tid = Some u ->
  tid <> g -> om_get g (am_user (w_mgr w)) = None ->
  exists sp w1 abs1 TK1, w_remove w tid = (Some sp, w1) /\ w_heap w1 = w_heap w /\ users_ok g w1 /\
    mrel all (wsys (aside g sp w1)) abs1 TK1 /\ a_users abs1 g = Some u /\ (forall va, k_view abs1 va = k_view abs va) /\
    forall t, t <> tid -> t <> g -> a_users abs1 t = a_users abs t.
Proof.
  intros M Hu Hg Hn. destruct (remove_user_ok all (wsys w) abs TK tid M) as (r & s & o & abs' & TK' & E & Sp & _ & M').
  pose proof (mr_user _ _ _ _ M tid) as H. cbn [wsys ms_mgr] in H. cbn [mexec wsys ms_heap ms_alloc ms_mgr ms_stash AddressSpaceManager_remove_user] in E.
  destruct (om_get tid (am_user (w_mgr w))) as [sp|] eqn:Eg; [|by rewrite Hu in H]. injection E as <- <-. cbn [option_list app] in M'.
  cbn [mspec] in Sp. rewrite Hu in Sp. injection Sp as <-. set (w1 := (w_remove w tid).2).
  assert (Hn1 : om_get g (om_remove tid (am_user (w_mgr w))) = None) by (rewrite om_get_remove by apply M; by rewrite decide_False).
  destruct (stash_aside all _ _ _ _ _ _ g M' Hn1) as (u' & Es & M1). cbn in Es. injection Es as <- _.
  eexists sp, w1, _, TK'. split; [unfold w1, w_remove, AddressSpaceManager_remove_user; by rewrite Eg|]. split; [done|].
  split; [split; [by apply om_remove_ok, M|exact Hn1]|]. split; [exact M1|]. cbn. rewrite Z.eqb_refl. split; [done|]. split; [done|].
  intros t H1 H2. destruct (Z.eqb_spec t g); [done|]. by destruct (Z.eqb_spec t tid).
Qed.

Lemma w_insert_ok all w sp abs TK g tid u : mrel all (wsys (aside g sp w)) abs TK -> users_ok g w -> a_users abs g = Some u ->
  exists w' abs' TK', w_insert w tid sp = Ret w' /\ same_on all (w_heap w) (w_heap w') /\ mrel all (wsys w') abs' TK' /\
    a_users abs' tid = Some u /\ (forall va, k_view abs' va = k_view abs va) /\ forall t, t <> tid -> t <> g -> a_users abs' t = a_users abs t.
Proof.
  intros M Hok Hu. destruct (aside_stash _ _ _ _ _ _ M Hok) as (u' & Hu' & Ms). rewrite Hu in Hu'. injection Hu' as <-.
  destruct (restore_ok _ _ _ _ tid Ms) as (r & s & o & abs' & TK' & E & Sp & S & M').
  cbn [mexec ms_heap ms_alloc ms_mgr ms_stash] in E. unfold w_insert. destruct (AddressSpaceManager_insert_user _ _ _ _ _) as [[[h a] mgr]|]; [|done].
  rewrite outcome_bind_Ret in *. injection E as <- <-. cbn [mspec a_stash] in Sp. injection Sp as <-.
  exists (mkW h a mgr). eexists _, TK'. split; [done|]. split; [done|]. split; [exact M'|]. cbn. rewrite Z.eqb_refl. split; [done|]. split; [done|].
  intros t H1 H2. destruct (Z.eqb_spec t tid); [done|]. by destruct (Z.eqb_spec t g).
Qed.

Lemma w_drop_old_ok all w sp abs TK g : mrel all (wsys (aside g sp w)) abs TK -> users_ok g w ->
  exists w' abs' TK', w_drop_old w (Some sp) = Ret w' /\ w_mgr w' = w_mgr w /\ same_on all (w_heap w) (w_heap w') /\ mrel all (wsys w') abs' TK' /\
    (forall va, k_view abs' va = k_view abs va) /\ forall t, t <> g -> a_users abs' t = a_users abs t.
Proof.
  intros M Hok. destruct (aside_stash _ _ _ _ _ _ M Hok) as (u & Hu & Ms).
  destruct (drop_ok _ _ _ _ Ms) as (r & s & o & abs' & TK' & E & Sp & S & M').
  cbn [mexec ms_heap ms_alloc ms_mgr ms_stash] in E. unfold w_drop_old. destruct (drop_space _ _ _) as [[h a]|]; [|done].
  rewrite outcome_bind_Ret in *. injection E as <- <-. cbn [mspec a_stash tail] in Sp. injection Sp as <-.
  exists (mkW h a (w_mgr w)). eexists _, TK'. split; [done|]. split; [done|]. split; [done|]. split; [exact M'|]. cbn. split; [done|].
  intros t H2. by destruct (Z.eqb_spec t g).
Qed.

End Spaces.

(** ** The memory of the tasks *)

Section Memory.
Context {D A : Type} {FS : FrameSource A} {FL : FrameLaws A}.
Context (buffer : list Z) (hdr : ElfHeader) (phs : list ProgramHeader) (argv envp : list (list Z)) (sstatus required : Z).
Hypothesis Himage : image_ok buffer hdr phs.
Hypothesis Hargs : Forall bytes argv /\ Forall bytes envp /\ initial_stack_size argv envp (auxv_of hdr phs) = Ret required.
Implicit Types (m : list (Z * Task D)) (w : @world A).

(** A program for a new task. *)
Lemma mem_load extra m w tid : om_ok m -> mem_ok extra m w -> om_get tid m = None ->
  exists r w', load_elf w buffer argv envp tid sstatus = Ret (r, w') /\ same_on (all_frames m ++ extra) (w_heap w) (w_heap w') /\
    match r with
    | Ok ld => loaded buffer hdr phs argv envp sstatus (w_heap w') ld /\
        AddressSpaceManager_user_root_addr (w_mgr w') tid = Ok (ms_root (ld_memory_set ld)) /\
        forall task, t_memory_set task = ld_memory_set ld -> mem_ok extra (om_insert tid task m) w'
    | Err _ => mem_ok extra m w'
    end.
Proof using Himage Hargs.
  intros Hok [(abs0 & TK0 & frames & Hp & M & Hi) Ht] Hn. destruct Hargs as (Ha & He & Er).
  destruct (load_elf_rel buffer hdr phs argv envp sstatus tid required frames w abs0 TK0 Himage Ha He Er M)
    as (r & w' & abs & TK & E & S & [_ Ho] & Hr).
  exists r, w'. split; [done|]. split; [apply (same_on_sub _ _ _ _ S); intros f Hf; by rewrite Hp|].
  assert (Hothers : forall t task, om_get t m = Some task -> exists sh, in_space abs t sh (task_table task)).
  { intros t task Et. destruct (Hi _ _ Et) as (sh & u & Hu & Hus). exists sh, u. rewrite Ho by congruence. done. }
  destruct r as [ld|e]; [|by split; [exists abs, TK, frames|]].
  destruct Hr as (M' & [sh Hin] & Hw & Hz & Hld & Eroot). split; [done|]. split; [done|]. intros task Hms.
  split; [exists abs, TK; eexists; split; [|split; [exact M'|]]|].
  - rewrite om_insert_new by done. unfold all_frames, task_table at 1. cbn. rewrite Hms, <- app_assoc. by rewrite Hp.
  - intros t task'. rewrite om_get_insert by done. case_decide as Et; [|by apply Hothers]. intros [= <-]. subst t. exists sh.
    unfold task_table. by rewrite Hms.
  - intros t task'. rewrite om_get_insert by done. case_decide as Et; [|by apply Ht]. intros [= <-]. unfold task_table. by rewrite Hms.
Qed.

(** The program of a task replaced, with the task's old address space set
    aside as [old]. *)
Definition replace_memory w (tid : Z) (old_frames : list Frame) : outcome (option Load * world) :=
  let (old, w) := w_remove w tid in
  '(r, w) ← load_elf w buffer argv envp tid sstatus;
  match r with
  | Err _ => w ← match old with Some sp => w_insert w tid sp | None => mret w end; mret (None, w)
  | Ok ld => w ← w_drop_frames w old_frames; w ← w_drop_old w old; mret (Some ld, w)
  end.

Lemma replace_memory_rel w all rest tid abs0 TK0 u old_frames : mrel all (wsys w) abs0 TK0 -> a_users abs0 tid = Some u ->
  all ≡ₚ old_frames ++ rest ->
  exists r w' abs TK, replace_memory w tid old_frames = Ret (r, w') /\
    (forall t, t <> tid -> is_Some (a_users abs0 t) -> a_users abs t = a_users abs0 t) /\
    match r with
    | Some ld => let l := ms_mappings (ld_memory_set ld) in
        same_on rest (w_heap w) (w_heap w') /\ mrel (tab_frames l ++ rest) (wsys w') abs TK /\ (exists sh, in_space abs tid sh l) /\
        tab_wf l /\ Forall sized (tab_frames l) /\ loaded buffer hdr phs argv envp sstatus (w_heap w') ld /\
        AddressSpaceManager_user_root_addr (w_mgr w') tid = Ok (ms_root (ld_memory_set ld))
    | None => same_on all (w_heap w) (w_heap w') /\ mrel all (wsys w') abs TK /\ a_users abs tid = Some u
    end.
Proof using Himage Hargs.
  intros M Hu Hall. destruct Hargs as (Ha & He & Er). assert (Hom : om_ok (am_user (w_mgr w))) by apply M.
  destruct (fresh_tid (am_user (w_mgr w)) tid Hom) as (g & Hg & Hn).
  assert (Hfree : forall t, is_Some (a_users abs0 t) -> t <> g).
  { intros t [u' Hu'] ->. pose proof (mr_user _ _ _ _ M g) as H. cbn [wsys ms_mgr] in H. rewrite Hn in H. congruence. }
  destruct (w_remove_ok all w abs0 TK0 tid u g M Hu Hg Hn) as (sp & w1 & abs1 & TK1 & E1 & Eh & Hok1 & M1 & Hu1 & _ & Ho1).
  unfold replace_memory. rewrite E1.
  destruct (load_elf_rel buffer hdr phs argv envp sstatus tid required all (aside g sp w1) abs1 TK1 Himage Ha He Er M1)
    as (r & wg & abs2 & TK2 & E2 & S2 & [_ Ho2] & Hr).
  pose proof (commutes_load_elf g sp tid Hg buffer argv envp sstatus w1 Hok1) as Hc. cbn beta in Hc.
  destruct (load_elf w1 buffer argv envp tid sstatus) as [[r' w2]|]; [|by rewrite E2 in Hc]. destruct Hc as [Hc Hok2]. rewrite E2 in Hc.
  injection Hc as <- ->. rewrite outcome_bind_Ret. cbn [aside w_heap] in S2. rewrite Eh in S2.
  assert (Hu2 : a_users abs2 g = Some u) by (rewrite Ho2; [done|congruence]).
  destruct r as [ld|e].
  - destruct Hr as (M2 & [sh Hi] & Hw & Hz & Hld & Eroot). set (l := ms_mappings (ld_memory_set ld)) in *.
    assert (Hp : tab_frames l ++ all ≡ₚ old_frames ++ tab_frames l ++ rest) by (rewrite Hall; apply Permutation_app_swap_app).
    assert (T : trel abs2 tid sh (old_frames ++ tab_frames l ++ rest) (aside g sp w2) (tab_view l)).
    { apply (trel_perm _ _ _ _ _ _ _ (mi_rel _ _ _ _ _ _ (in_space_minv abs2 TK2 tid sh _ all _ l M2 ltac:(done) Hi Hw)) Hp). }
    destruct (trel_drop _ _ _ _ _ _ _ T) as (wg & E3 & S3 & T3). pose proof (commutes_drop g sp old_frames w2 Hok2) as Hc. cbn beta in Hc.
    destruct (w_drop_frames w2 old_frames) as [w3|] eqn:E3'; [|by rewrite E3 in Hc]. destruct Hc as [Hc Hok3]. rewrite E3 in Hc. injection Hc as ->.
    rewrite outcome_bind_Ret. destruct T3 as (abs3 & TK3 & u3 & M3 & _ & _ & Ho3 & Hu3 & Hs3 & Hv3).
    destruct (w_drop_old_ok _ w3 sp abs3 TK3 g M3 Hok3) as (w4 & abs4 & TK4 & -> & Em & S4 & M4 & _ & Ho4). rewrite outcome_bind_Ret.
    exists (Some ld), w4, abs4, TK4. split; [done|]. split.
    { intros t Ht Hs. pose proof (Hfree t Hs). by rewrite Ho4, Ho3, Ho2, Ho1. }
    assert (S34 : same_on (tab_frames l ++ rest) (w_heap w2) (w_heap w4)) by (by eapply same_on_trans).
    cbn zeta. split; [|split; [done|split; [|split; [done|split; [done|split]]]]].
    + eapply same_on_trans; [apply (same_on_sub _ _ _ _ S2); intros f Hf; rewrite Hall; set_solver|]. apply (same_on_sub _ _ _ _ S34). set_solver.
    + exists sh, u3. rewrite Ho4 by done. done.
    + apply (loaded_same _ _ _ _ _ _ _ _ _ _ Hld S34); [set_solver|done].
    + rewrite Em. unfold w_drop_frames in E3'. apply outcome_bind_inv in E3' as ([h a] & _ & E3'). injection E3' as <-. cbn [w_mgr].
      unfold AddressSpaceManager_user_root_addr in *. by rewrite get_aside in Eroot.
  - destruct (w_insert_ok all w2 sp abs2 TK2 g tid u Hr Hok2 Hu2) as (w3 & abs3 & TK3 & -> & S3 & M3 & Hu3 & _ & Ho3). rewrite outcome_bind_Ret.
    exists None, w3, abs3, TK3. split; [done|]. split; [|split; [by eapply same_on_trans|done]].
    intros t Ht Hs. pose proof (Hfree t Hs). by rewrite Ho3, Ho2, Ho1.
Qed.

End Memory.

(** ** The kernel *)

Section Kernel.
Context {D A : Type} {FS : FrameSource A} {FL : FrameLaws A} (manager : DeviceManager D) (vfs : Vfs D).
Implicit Types (k : Kernel D A) (m : Machine D A).

Lemma uart_file_ok (dw : World D) flags : exists file dw', uart_file manager dw flags = Ret (file, dw') /\ vf_flags file = flags.
Proof. unfold uart_file, VfsFile_uart, VfsFile_from_ops. eexists _, _. split; [cbn; reflexivity|done]. Qed.

(** The parts of [replace_program]. *)
Lemma replace_program_eq k tid task buf argv envp sstatus : om_get tid (t_map (kn_tasks k)) = Some task ->
  replace_program k tid buf argv envp sstatus =
  '(r, w) ← replace_memory buf argv envp sstatus (kn_world k) tid (tab_frames (task_table task));
  match r with
  | None => mret (None, with_world k w)
  | Some ld => mret (Some tt, mkKernel (update (kn_tasks k) tid (fun task =>
      Task_mark_runnable (set_context (set_memory task (ld_memory_set ld)) (ld_trap_context ld)))) (kn_tids k) w)
  end.
Proof.
  intros Eg. unfold replace_program, replace_memory. replace (if bool_decide _ then _ else _) with (@Ok MemError Z (if bool_decide (t_current (kn_tasks k) = Some tid)
    then SatpValue_set_mode (SatpValue_set_ppn SatpValue_new (PhysicalAddr_ppn (as_phys_addr (as_root (am_kernel (w_mgr (kn_world k))))))) SatpMode_SV39 else 0))
    by (by destruct (bool_decide _)).
  destruct (w_remove (kn_world k) tid) as [old w1]. destruct (load_elf _ _ _ _ _ _) as [[r w2]|]; [|done]. rewrite !outcome_bind_Ret.
  destruct r as [ld|e].
  - rewrite Eg. fold (task_table task). destruct (w_drop_frames _ _) as [w3|]; [|done]. rewrite !outcome_bind_Ret.
    destruct (w_drop_old _ _) as [w4|]; [|done]. by rewrite !outcome_bind_Ret.
  - destruct old as [sp|]; [|by rewrite !outcome_bind_Ret]. destruct (w_insert _ _ _) as [w3|]; [|done]. by rewrite !outcome_bind_Ret.
Qed.

Context (buffer : list Z) (hdr : ElfHeader) (phs : list ProgramHeader) (argv envp : list (list Z)) (sstatus required : Z).
Hypothesis Himage : image_ok buffer hdr phs.
Hypothesis Hargs : Forall bytes argv /\ Forall bytes envp /\ initial_stack_size argv envp (auxv_of hdr phs) = Ret required.

(** The tasks other than [tid] keep their frames. *)
Definition kept_frames (tid : Z) (t : list (Z * Task D)) (extra : list Frame) : list Frame := all_frames (om_remove tid t) ++ extra.

(** The program and the [satp] of its page table. *)
Definition runs (w : @world A) (tid : Z) (ms : MemorySet) (ctx : TrapContext) : Prop :=
  loaded buffer hdr phs argv envp sstatus (w_heap w) (mkLoad ms ctx) /\
  AddressSpaceManager_activate (w_mgr w) (IdUser tid) = Ok (tc_satp ctx).

Lemma runs_intro w tid ld : loaded buffer hdr phs argv envp sstatus (w_heap w) ld ->
  AddressSpaceManager_user_root_addr (w_mgr w) tid = Ok (ms_root (ld_memory_set ld)) -> runs w tid (ld_memory_set ld) (ld_trap_context ld).
Proof using.
  intros Hl Er. destruct ld as [ms ctx]. split; [done|]. destruct Hl as (? & ? & ? & _ & _ & _ & Ec). cbn in *. rewrite Ec. cbn.
  unfold AddressSpaceManager_user_root_addr in Er. unfold AddressSpaceManager_activate. destruct (om_get tid (am_user (w_mgr w))) as [sp'|]; [|done].
  injection Er as Er. by rewrite Er.
Qed.

Lemma exec_buffer_kernel extra free m : kernel_ok extra free (mc_kernel m) ->
  let k := mc_kernel m in
  exists r m', exec_buffer manager m buffer argv envp sstatus = Ret (r, m') /\ let k' := mc_kernel m' in
    same_on (all_frames (t_map (kn_tasks k)) ++ extra) (w_heap (kn_world k)) (w_heap (kn_world k')) /\
    match r with
    | Ok _ => exists tid task, List.find free (seqZ 1 (TID_MAX - 1)) = Some tid /\ om_get tid (t_map (kn_tasks k)) = None /\
        kn_tasks k' = Tasks_add (kn_tasks k) tid None task /\ new_task None task /\ vf_flags <$> t_fd_table task = [0; 1; 1] /\
        runs (kn_world k') tid (t_memory_set task) (t_trap_context task) /\ kernel_ok extra (fill free tid 1 false) k'
    | Err e => kn_tasks k' = kn_tasks k /\
        ((e = NoTidAvailable /\ kernel_ok extra free k') \/
         exists tid, List.find free (seqZ 1 (TID_MAX - 1)) = Some tid /\ kernel_ok extra (fill free tid 1 false) k')
    end.
Proof using Himage Hargs FL.
  intros [Hp Hids Hused Hmem] k. unfold exec_buffer, alloc_tid. fold k in Hp, Hids, Hused, Hmem |- *.
  destruct (alloc_tid_rep _ _ Hids) as (ids & -> & Hids'). rewrite !outcome_bind_Ret.
  destruct (List.find _ _) as [tid|] eqn:Ef.
  2: { eexists _, _. split; [done|]. split; [apply same_on_refl|]. split; [done|]. left. split; [done|]. by split. }
  apply find_tid in Ef as Hnew. destruct Hnew as [Hr Hfree].
  assert (En : om_get tid (t_map (kn_tasks k)) = None).
  { destruct (om_get tid _) as [t|] eqn:E; [|done]. destruct (Hused _ _ E). congruence. }
  assert (Hok : om_ok (t_map (kn_tasks k))) by apply Hp.
  cbn [kn_tasks kn_world kn_tids]. set (g := fun p : Task D => set_children p (t_children p ++ [tid])).
  assert (Hm1 : mem_ok extra (om_modify g 1 (t_map (kn_tasks k))) (kn_world k)) by (by apply mem_ok_modify).
  destruct (mem_load buffer hdr phs argv envp sstatus required Himage Hargs extra _ _ tid (om_modify_ok _ _ _ Hok) Hm1) as (r & w' & E & S & Hres).
  { rewrite om_get_modify by done. case_decide; [|done]. subst tid. by rewrite En. }
  rewrite E, outcome_bind_Ret.
  assert (S' : same_on (all_frames (t_map (kn_tasks k)) ++ extra) (w_heap (kn_world k)) (w_heap w')).
  { apply (same_on_sub _ _ _ _ S). intros f. rewrite !elem_of_app. intros [Hf|]; [left|by right]. by rewrite all_frames_modify. }
  assert (Hused' : forall t task, om_get t (t_map (kn_tasks k)) = Some task -> 1 <= t < TID_MAX /\ fill free tid 1 false t = false).
  { intros t task Et. destruct (Hused _ _ Et). split; [done|]. rewrite fill_one. by case_decide. }
  destruct r as [ld|e].
  2: { eexists _, _. split; [done|]. split; [done|]. split; [done|]. right. exists tid. split; [done|]. split; [done|done|done|]. by apply mem_ok_modify in Hres. }
  destruct Hres as (Hl & Er & Hmo).
  destruct (uart_file_ok (mc_devs m) OpenFlags_read_only) as (f0 & dw0 & -> & F0). rewrite outcome_bind_Ret.
  destruct (uart_file_ok dw0 OpenFlags_write_only) as (f1 & dw1 & -> & F1). rewrite outcome_bind_Ret.
  destruct (uart_file_ok dw1 OpenFlags_write_only) as (f2 & dw2 & -> & F2). rewrite outcome_bind_Ret.
  eexists (Ok tt), _. split; [done|]. split; [done|]. eexists tid, _. split; [done|]. split; [done|]. split; [done|]. split; [done|].
  split; [by cbn; rewrite F0, F1, F2|]. split; [by apply runs_intro|]. split; cbn [mc_kernel kn_tasks kn_tids kn_world]; [|done| |].
  - apply procs_add; [done|done|done|by right].
  - intros t task'. unfold Tasks_add, update. cbn [t_map]. rewrite om_get_insert by (by apply om_modify_ok). rewrite fill_one.
    case_decide as Et; [by intros _; subst t|]. cbn [default]. rewrite om_get_modify by done. case_decide; [|by intros Ht; apply (Hused _ _ Ht)].
    subst t. destruct (om_get 1 _) as [t1|] eqn:E1; [|done]. intros _. by apply (Hused 1 t1).
  - by apply Hmo.
Qed.

Lemma mem_replaced extra t (w : @world A) tid task g : om_ok t -> mem_ok extra t w -> om_get tid t = Some task ->
  exists r w', replace_memory buffer argv envp sstatus w tid (tab_frames (task_table task)) = Ret (r, w') /\
    match r with
    | Some ld => same_on (kept_frames tid t extra) (w_heap w) (w_heap w') /\ runs w' tid (ld_memory_set ld) (ld_trap_context ld) /\
        ((forall task, t_memory_set (g ld task) = ld_memory_set ld) -> mem_ok extra (om_modify (g ld) tid t) w')
    | None => same_on (all_frames t ++ extra) (w_heap w) (w_heap w') /\ mem_ok extra t w'
    end.
Proof using Himage Hargs FL.
  intros Hok [(abs0 & TK0 & frames & Hp & M & Hi) Ht] Eg. destruct (Hi _ _ Eg) as (sh & u & Hu & Hus).
  assert (Hall : frames ≡ₚ tab_frames (task_table task) ++ kept_frames tid t extra).
  { unfold kept_frames. rewrite Hp, app_assoc. f_equiv. by rewrite (om_remove_perm tid task t Eg) at 1. }
  destruct (replace_memory_rel buffer hdr phs argv envp sstatus required Himage Hargs w frames _ tid abs0 TK0 u _ M Hu Hall)
    as (r & w' & abs & TK & E & Ho & Hr).
  exists r, w'. split; [done|].
  assert (Hothers : forall t' task', t' <> tid -> om_get t' t = Some task' -> exists sh, in_space abs t' sh (task_table task')).
  { intros t' task' Hne Et. destruct (Hi _ _ Et) as (sh' & u' & Hu' & Hus'). exists sh', u'. rewrite Ho; [done|done|by eexists]. }
  destruct r as [ld|].
  - destruct Hr as (S & M' & [sh' Hin] & Hw & Hz & Hld & Er). split; [done|]. split; [by apply runs_intro|]. intros Hg.
    split; [exists abs, TK; eexists; split; [|split; [exact M'|]]|].
    + rewrite (om_modify_perm _ _ _ task Hok Eg). unfold all_frames, task_table at 1. cbn. by rewrite Hg, <- app_assoc.
    + intros t' task'. rewrite om_get_modify by done. case_decide as Et; [|by apply Hothers]. rewrite Eg. intros [= <-]. subst t'. exists sh'.
      unfold task_table. by rewrite Hg.
    + intros t' task'. rewrite om_get_modify by done. case_decide as Et; [|by apply Ht]. rewrite Eg. intros [= <-]. unfold task_table. by rewrite Hg.
  - destruct Hr as (S & M' & Hu'). split; [apply (same_on_sub _ _ _ _ S); intros f Hf; by rewrite Hp|]. split; [|done].
    exists abs, TK, frames. split; [done|]. split; [done|]. intros t' task' Et. destruct (decide (t' = tid)) as [->|Hne]; [|by apply Hothers].
    rewrite Eg in Et. injection Et as <-. by exists sh, u.
Qed.

(** The task with the new program. *)
Definition with_program (ms : MemorySet) (ctx : TrapContext) (task : Task D) : Task D := Task_mark_runnable (set_context (set_memory task ms) ctx).

Lemma replace_program_kernel extra free k tid : kernel_ok extra free k -> t_current (kn_tasks k) = Some tid ->
  exists r k', replace_program k tid buffer argv envp sstatus = Ret (r, k') /\ kernel_ok extra free k' /\
    match r with
    | Some _ => exists ms ctx, kn_tasks k' = update (kn_tasks k) tid (with_program ms ctx) /\ runs (kn_world k') tid ms ctx /\
        same_on (kept_frames tid (t_map (kn_tasks k)) extra) (w_heap (kn_world k)) (w_heap (kn_world k'))
    | None => kn_tasks k' = kn_tasks k /\
        same_on (all_frames (t_map (kn_tasks k)) ++ extra) (w_heap (kn_world k)) (w_heap (kn_world k'))
    end.
Proof using Himage Hargs FL.
  intros [Hp Hids Hused Hmem] Hc. assert (Hok : om_ok (t_map (kn_tasks k))) by apply Hp. destruct (proj2 Hp _ Hc) as (task & Eg & Hs).
  rewrite (replace_program_eq _ _ task) by done.
  destruct (mem_replaced extra _ _ tid task (fun ld => with_program (ld_memory_set ld) (ld_trap_context ld)) Hok Hmem Eg) as (r & w' & -> & Hr).
  rewrite outcome_bind_Ret. destruct r as [ld|].
  - destruct Hr as (S & Hrun & Hm). eexists _, _. split; [done|]. split.
    + split; cbn [kn_tasks kn_tids kn_world]; [by apply procs_update|done| |by apply Hm].
      intros t task'. cbn [update t_map]. rewrite om_get_modify by done. case_decide; [|by apply Hused]. subst t. rewrite Eg. intros _. by apply (Hused tid task).
    + by exists (ld_memory_set ld), (ld_trap_context ld).
  - destruct Hr as [S Hm]. eexists _, _. split; [done|]. split; [by split|]. done.
Qed.

(** The [execve] system call. In a consistent kernel, with a file that
    holds an ELF program whose segments can be placed, [execve_into] for the
    current task does not panic and leaves the kernel consistent. When it
    succeeds the task runs the new program: segments, stack and context as
    [load_elf] makes them, with the [satp] of its new page table; the other
    tasks' memory is untouched, and the old program's frames and page tables
    have been given back. When it fails the task has its old page table and no
    word of any task's memory has changed. *)
Theorem execve_into_ok extra free m tid path dw : kernel_ok extra free (mc_kernel m) -> t_current (kn_tasks (mc_kernel m)) = Some tid ->
  read_file vfs path (mc_devs m) = Ret (Ok (Some buffer), dw) ->
  let k := mc_kernel m in
  exists r m', execve_into vfs m tid path argv envp sstatus = Ret (r, m') /\ mc_devs m' = dw /\ let k' := mc_kernel m' in
    kernel_ok extra free k' /\
    match r with
    | Some _ => exists ms ctx, kn_tasks k' = update (kn_tasks k) tid (with_program ms ctx) /\ runs (kn_world k') tid ms ctx /\
        same_on (kept_frames tid (t_map (kn_tasks k)) extra) (w_heap (kn_world k)) (w_heap (kn_world k'))
    | None => kn_tasks k' = kn_tasks k /\
        same_on (all_frames (t_map (kn_tasks k)) ++ extra) (w_heap (kn_world k)) (w_heap (kn_world k'))
    end.
Proof using Himage Hargs FL.
  intros Hk Hc Hread k. destruct (replace_program_kernel extra free k tid Hk Hc) as (r & k' & E & Hk' & Hr).
  destruct (proj2 (ko_procs _ _ _ Hk) _ Hc) as (task & Eg & _). unfold execve_into. rewrite Eg, Hread, outcome_bind_Ret. fold k. rewrite E, outcome_bind_Ret.
  by exists r, (mkMachine k' dw).
Qed.


End Kernel.

(** ** Example *)

#[local] Existing Instance pool_laws.

(** A file system with one program. *)
Definition ex_fs : FileSystem unit := {|
  fs_open _ flags _ := VfsFile_from_ops [] 1 0x81ed
    (FileOps_with None None (Some (fun _ _ => mret (len ex_file, ex_file))) None None None) flags;
  fs_stat _ := mret (mkStat 1 0x81ed (len ex_file) 1 0 0 0);
  fs_mkdir _ _ := fio_fail Unsupported;
  fs_unlink _ := fio_fail Unsupported;
  fs_rmdir _ := fio_fail Unsupported;
  fs_rename _ _ := fio_fail Unsupported;
  fs_link _ _ := fio_fail Unsupported;
  fs_symlink _ _ := fio_fail Unsupported;
  fs_readlink _ := fio_fail Unsupported;
  fs_sync := mret ()
|}.

Definition ex_devs : World unit := mkWorld () [].

(** No devices are registered. *)
Definition ex_manager : DeviceManager unit := mkDeviceManager (mkIdAlloc (FlatAlloc_new 0 0) []) [] [] [].

Definition ex_vfs : Vfs unit :=
  match Vfs_mount Vfs_new (mkPath [sep]) (mkArcFs 1 ex_fs) ex_devs with Ret (Ok vfs, _) => vfs | _ => Vfs_new end.

Lemma ex_read_file : exists dw, read_file ex_vfs [sep] ex_devs = Ret (Ok (Some ex_file), dw).
Proof. eexists. vm_compute. reflexivity. Qed.

Lemma ex_args : Forall bytes [[47; 97]] /\ Forall bytes [] /\ initial_stack_size [[47; 97]] [] (auxv_of ex_elf [ex_ph]) = Ret 144.
Proof. split; [repeat constructor; cbn; lia|]. split; [constructor|]. vm_compute. reflexivity. Qed.

Lemma execve_into_witness : exists free (m : Machine unit BuddyAllocator) r m',
  kernel_ok [] free (mc_kernel m) /\ execve_into ex_vfs m 1 [sep] [[47; 97]] [] 0 = Ret (r, m') /\ kernel_ok [] free (mc_kernel m').
Proof.
  destruct ex_kernel_ok as (free & k & Hk & Hc). destruct ex_read_file as [dw Hr].
  destruct (execve_into_ok ex_vfs ex_file ex_elf [ex_ph] [[47; 97]] [] 0 144 ex_image ex_args [] free (mkMachine k ex_devs) 1 [sep] dw)
    as (r & m' & E & _ & Hk' & _).
  - exact Hk.
  - exact Hc.
  - exact Hr.
  - exists free, (mkMachine k ex_devs), r, m'. split; [exact Hk|]. split; [exact E|exact Hk'].
Defined.

