(* ===== verification/Binfmt.v ===== *)
(** * Binfmt: finding the loader of an executable file ([src/binfmt.rs])

    The first bytes of a file select a handler in a registry of magic numbers,
    the longest registered magic first. A script names its interpreter on its
    first line; the interpreter is then routed the same way, with the words of
    that line and the script's path in front of the arguments. *)

From stdpp Require Import gmap.
From S2P Require Import Prelude OrdMap IdAlloc Buddy FrameAlloc BitFields Abi SpaceManager MemoryMap MapTable.
From S2P Require Import Bytes InitStack Elf LoadElf Trie Paths Disk MinixDir Devices Vfs DevFs MinixVfs Tasks Processes Clone Exec.

(** ** The words of an interpreter line *)

Record Split : Type := mkSplit { sp_out : list (list Z); sp_buf : list Z; in_single : bool; in_double : bool; token_started : bool }.

Definition flush (st : Split) : Split :=
  if negb (token_started st) then st
  else
    let s := from_utf8_lossy (sp_buf st) in
    mkSplit (if negb (bool_decide (s = [])) then sp_out st ++ [s] else sp_out st) [] (in_single st) (in_double st) false.

Definition push (st : Split) (ch : Z) (started : bool) : Split :=
  mkSplit (sp_out st) (sp_buf st ++ [ch]) (in_single st) (in_double st) started.

Definition quotes (st : Split) (single double started : bool) : Split := mkSplit (sp_out st) (sp_buf st) single double started.

(** The loop of [shebang_split]; [args] is what is left of the line. *)
Fixpoint shebang_loop (args : list Z) (st : Split) : Split :=
  match args with
  | [] => st
  | ch :: rest =>
      if (ch =? 10) || (ch =? 13) then st
      else if negb (in_single st) && negb (in_double st) then
        if (ch =? 32) || (ch =? 9) then shebang_loop rest (flush st)
        else if ch =? 39 then shebang_loop rest (quotes st true (in_double st) true)
        else if ch =? 34 then shebang_loop rest (quotes st (in_single st) true true)
        else if ch =? 92 then
          match rest with
          | next :: rest' => if negb (next =? 10) then shebang_loop rest' (push st next true) else shebang_loop rest st
          | [] => shebang_loop rest st
          end
        else shebang_loop rest (push st ch true)
      else if in_single st then
        if ch =? 39 then shebang_loop rest (quotes st false (in_double st) (token_started st))
        else shebang_loop rest (push st ch (token_started st))
      else if ch =? 34 then shebang_loop rest (quotes st (in_single st) false (token_started st))
      else if ch =? 92 then
        match rest with
        | next :: rest' => if negb (next =? 10) then shebang_loop rest' (push st next (token_started st)) else shebang_loop rest st
        | [] => shebang_loop rest st
        end
      else shebang_loop rest (push st ch (token_started st))
  end.

Definition shebang_split (args : list Z) : list (list Z) :=
  sp_out (flush (shebang_loop args (mkSplit [] [] false false false))).

(** ** The registry *)

(** [Error] of [binfmt]. *)
Inductive BinError : Type := NoAccess | BinFs (e : FsError) | UnsupportedBinfmt | ExecFailed.

(** A handler: one of the two of this file, or a function of another module. *)
Inductive Handler (M : Type) : Type :=
| HandlerElf
| HandlerShebang
| HandlerOther (f : list Z -> str -> list (list Z) -> list (list Z) -> option Z -> M -> outcome (result BinError unit * M)).
Arguments HandlerElf {M}.
Arguments HandlerShebang {M}.
Arguments HandlerOther {M} f.

Definition ELF_MAGIC : list Z := [127; 69; 76; 70].
Definition SHEBANG_MAGIC : list Z := [35; 33].

(** The registry at its first use. *)
Definition BINFMTS {M} : outcome (Trie Z (Handler M)) :=
  '(_, trie) ← Trie_insert Trie_new ELF_MAGIC HandlerElf;
  '(_, trie) ← Trie_insert trie SHEBANG_MAGIC HandlerShebang;
  mret trie.

Definition register {M} (trie : Trie Z (Handler M)) (magic : list Z) (handler : Handler M) : outcome (bool * Trie Z (Handler M)) :=
  match magic with
  | [] => mret (false, trie)
  | _ => '(old, trie) ← Trie_insert trie magic handler; mret (bool_decide (old = None), trie)
  end.

Definition unregister {M} (trie : Trie Z (Handler M)) (magic : list Z) : outcome (option (Handler M) * Trie Z (Handler M)) :=
  Trie_remove trie magic.

(** ** Routing *)

Definition Mode_user_execute : Z -> bool := bit_get 6.

Section Route.
Context {D A : Type} {FS : FrameSource A} (manager : DeviceManager D) (vfs : Vfs D) (sstatus : Z).
Implicit Types m : Machine D A.

Definition exec_elf m (path : str) (argv envp : list (list Z)) (tid : option Z) : outcome (result BinError unit * Machine D A) :=
  match tid with
  | Some tid =>
      '(r, m) ← execve_into vfs m tid path argv envp sstatus;
      mret (match r with Some _ => Ok tt | None => Err ExecFailed end, m)
  | None => m ← kernel_execve manager vfs m path argv envp sstatus; mret (Ok tt, m)
  end.

(** The first bytes of an executable file: [&head[..n]]. *)
Definition exec_head (path : str) (dw : World D) : outcome (result BinError (list Z) * World D) :=
  '(r, dw) ← fs_open (Vfs_FileSystem vfs) (Path_new path) OpenFlags_read_only 0 dw;
  match r with
  | Err e => mret (Err (BinFs e), dw)
  | Ok file =>
      if negb (Mode_user_execute (vi_mode (d_inode (vf_dentry file)))) then mret (Err NoAccess, dw)
      else
        '(r, dw) ← VfsFile_read file (replicate 128 0) dw;
        match r with
        | Err e => mret (Err (BinFs e), dw)
        | Ok (n, head) => if n <=? len head then mret (Ok (take (Z.to_nat n) head), dw) else Panic
        end
  end.

(** The bytes of the interpreter line. *)
Fixpoint first_line (raw : list Z) : list Z :=
  match raw with
  | [] => []
  | c :: raw => if (c =? 10) || (c =? 13) then [] else c :: first_line raw
  end.

(** The arguments of the interpreter. *)
Definition shebang_argv (head : list Z) (path : str) (argv : list (list Z)) : list (list Z) :=
  shebang_split (first_line (drop (length SHEBANG_MAGIC) head)) ++ [str_bytes path] ++ drop 1 argv.

(** [exec_shebang] routes the interpreter by [route], which is [route_inner]. *)
Definition exec_shebang (route : Machine D A -> str -> list (list Z) -> outcome (result BinError unit * Machine D A))
    m (head : list Z) (path : str) (argv : list (list Z)) : outcome (result BinError unit * Machine D A) :=
  if (length head <? length SHEBANG_MAGIC)%nat then Panic
  else
    let new_argv := shebang_argv head path argv in
    match new_argv with
    | [] => mret (Err ExecFailed, m)
    | interpreter :: _ => route m (bytes_str interpreter) new_argv
    end.

(** [fuel] bounds the depth of the recursion through [exec_shebang]. *)
Fixpoint route_inner (fuel : nat) (trie : Trie Z (Handler (Machine D A))) m (tid : option Z) (path : str) (argv envp : list (list Z))
    : outcome (result BinError unit * Machine D A) :=
  match fuel with
  | O => Panic
  | S fuel =>
      '(r, dw) ← exec_head path (mc_devs m);
      let m := mkMachine (mc_kernel m) dw in
      match r with
      | Err e => mret (Err e, m)
      | Ok head =>
          match Trie_longest_prefix trie head with
          | None => mret (Err UnsupportedBinfmt, m)
          | Some (_, HandlerElf) => exec_elf m path argv envp tid
          | Some (_, HandlerShebang) => exec_shebang (fun m path argv => route_inner fuel trie m tid path argv envp) m head path argv
          | Some (_, HandlerOther f) => f head path argv envp tid m
          end
      end
  end.

Definition route (fuel : nat) (trie : Trie Z (Handler (Machine D A))) m (path : str) (argv envp : list (list Z)) :=
  route_inner fuel trie m None path argv envp.

Definition route_at (fuel : nat) (trie : Trie Z (Handler (Machine D A))) m (tid : Z) (path : str) (argv envp : list (list Z)) :=
  route_inner fuel trie m (Some tid) path argv envp.

End Route.

(** ** Quoting

    A word of the line is a sequence of pieces, each quoted in its own way. *)

Inductive piece : Type := Plain (s : list Z) | Single (s : list Z) | Double (s : list Z) | Escaped (s : list Z).

Definition piece_bytes (p : piece) : list Z := match p with Plain s | Single s | Double s | Escaped s => s end.

Definition double_quote (c : Z) : list Z := if (c =? 34) || (c =? 92) then [92; c] else [c].

Definition piece_render (p : piece) : list Z :=
  match p with
  | Plain s => s
  | Single s => [39] ++ s ++ [39]
  | Double s => [34] ++ concat (double_quote <$> s) ++ [34]
  | Escaped s => concat ((fun c => [92; c]) <$> s)
  end.

(** The characters a piece of each kind can hold. *)
Definition piece_ok (p : piece) : Prop :=
  match p with
  | Plain s => Forall (fun c => c ∉ [9; 10; 13; 32; 34; 39; 92]) s
  | Single s => Forall (fun c => c ∉ [10; 13; 39]) s
  | Double s => Forall (fun c => c ∉ [10; 13]) s
  | Escaped s => Forall (fun c => c <> 10) s
  end.

Definition word_bytes (w : list piece) : list Z := concat (piece_bytes <$> w).
Definition word_render (w : list piece) : list Z := concat (piece_render <$> w).

(** Blanks, and what may follow the line. *)
Definition blanks (b : list Z) : Prop := Forall (fun c => c = 32 \/ c = 9) b.
Definition line_end (rest : list Z) : Prop := match rest with [] => True | c :: _ => c = 10 \/ c = 13 end.

(** The state between two characters outside of quotes. *)
Definition open_word (out : list (list Z)) (buf : list Z) (st : Split) : Prop :=
  st = mkSplit out buf false false (token_started st) /\ (token_started st = false -> buf = []).

Definition emit (buf : list Z) : list (list Z) := filter (fun s => s <> []) [from_utf8_lossy buf].

Lemma flush_open out buf st : open_word out buf st -> flush st = mkSplit (out ++ emit buf) [] false false false.
Proof.
  intros [-> Hb]. unfold flush, emit. cbn [token_started sp_buf sp_out in_single in_double] in *. rewrite filter_cons, filter_nil.
  destruct (token_started st); cbn [negb].
  - destruct (decide (from_utf8_lossy buf = [])) as [E|E].
    + rewrite bool_decide_true, decide_False by naive_solver. by rewrite app_nil_r.
    + rewrite bool_decide_false, decide_True by done. done.
  - rewrite Hb by done. change (from_utf8_lossy []) with (@nil Z). rewrite decide_False by naive_solver. by rewrite app_nil_r.
Qed.

Ltac chars := repeat match goal with
  | H : ?c ∉ _ |- _ => rewrite ?not_elem_of_cons in H; destruct_and? H
  end; repeat match goal with |- context [?a =? ?b] => rewrite (proj2 (Z.eqb_neq a b)) by (done || lia) end.

Lemma open_push out buf st c : open_word out buf st -> open_word out (buf ++ [c]) (push st c true).
Proof. intros [-> _]. split; done. Qed.

Lemma loop_plain s rest out buf st : piece_ok (Plain s) -> open_word out buf st ->
  exists st', shebang_loop (s ++ rest) st = shebang_loop rest st' /\ open_word out (buf ++ s) st'.
Proof.
  cbn. intros Hs. revert buf st. induction Hs as [|c s Hc Hs IH]; intros buf st Ho; [exists st; by rewrite app_nil_r|].
  destruct (IH (buf ++ [c]) (push st c true) (open_push _ _ _ _ Ho)) as (st' & E & Ho').
  exists st'. rewrite <- app_assoc in Ho'. split; [|done]. rewrite <- E. destruct Ho as [-> _].
  cbn [app shebang_loop in_single in_double negb andb orb]. by chars.
Qed.

Lemma loop_single s rest st : Forall (fun c => c ∉ [10; 13; 39]) s -> in_single st = true ->
  shebang_loop (s ++ rest) st = shebang_loop rest (mkSplit (sp_out st) (sp_buf st ++ s) true (in_double st) (token_started st)).
Proof.
  intros Hs. revert st. induction Hs as [|c s Hc Hs IH]; intros [out buf sg db ts] E; cbn [in_single] in E; subst sg.
  - by rewrite app_nil_r.
  - cbn [app shebang_loop in_single negb andb]. chars. cbn [orb]. rewrite IH by done. cbn. by rewrite <- app_assoc.
Qed.

Lemma loop_double s rest st : Forall (fun c => c ∉ [10; 13]) s -> in_single st = false -> in_double st = true ->
  shebang_loop (concat (double_quote <$> s) ++ rest) st =
    shebang_loop rest (mkSplit (sp_out st) (sp_buf st ++ s) false true (token_started st)).
Proof.
  intros Hs. revert st. induction Hs as [|c s Hc Hs IH]; intros [out buf sg db ts] E E'; cbn [in_single in_double] in E, E'; subst sg db.
  - by rewrite app_nil_r.
  - cbn [fmap list_fmap concat]. unfold double_quote at 1. destruct (c =? 34) eqn:E1; [|destruct (c =? 92) eqn:E2].
    all: cbn [orb app shebang_loop in_single in_double negb andb Z.eqb Pos.eqb]; chars; cbn [orb negb];
      rewrite ?E1, ?E2, IH by done; cbn; by rewrite <- app_assoc.
Qed.

Lemma loop_escaped s rest out buf st : piece_ok (Escaped s) -> open_word out buf st ->
  exists st', shebang_loop (concat ((fun c => [92; c]) <$> s) ++ rest) st = shebang_loop rest st' /\ open_word out (buf ++ s) st'.
Proof.
  cbn. intros Hs. revert buf st. induction Hs as [|c s Hc Hs IH]; intros buf st Ho; [exists st; by rewrite app_nil_r|].
  destruct (IH (buf ++ [c]) (push st c true) (open_push _ _ _ _ Ho)) as (st' & E & Ho').
  exists st'. rewrite <- app_assoc in Ho'. split; [|done]. rewrite <- E. destruct Ho as [-> _].
  cbn [fmap list_fmap concat app shebang_loop in_single in_double negb andb orb Z.eqb Pos.eqb]. by chars.
Qed.

Lemma loop_piece p rest out buf st : piece_ok p -> open_word out buf st ->
  exists st', shebang_loop (piece_render p ++ rest) st = shebang_loop rest st' /\ open_word out (buf ++ piece_bytes p) st'.
Proof.
  intros Hp Ho. destruct p as [s|s|s|s]; [by apply loop_plain| | |by apply loop_escaped]; cbn [piece_render piece_bytes piece_ok] in *.
  - destruct Ho as [-> _]. exists (mkSplit out (buf ++ s) false false true). split; [|done].
    rewrite <- !app_assoc. cbn [app shebang_loop in_single in_double negb andb orb Z.eqb Pos.eqb]. by rewrite loop_single.
  - destruct Ho as [-> _]. exists (mkSplit out (buf ++ s) false false true). split; [|done].
    rewrite <- !app_assoc. cbn [app shebang_loop in_single in_double negb andb orb Z.eqb Pos.eqb]. by rewrite loop_double.
Qed.

Lemma loop_word w rest out buf st : Forall piece_ok w -> open_word out buf st ->
  exists st', shebang_loop (word_render w ++ rest) st = shebang_loop rest st' /\ open_word out (buf ++ word_bytes w) st'.
Proof.
  intros Hw. revert buf st. induction Hw as [|p w Hp Hw IH]; intros buf st Ho; [exists st; by rewrite app_nil_r|].
  unfold word_render, word_bytes. cbn [fmap list_fmap concat]. rewrite <- app_assoc.
  destruct (loop_piece p (word_render w ++ rest) out buf st Hp Ho) as (st1 & E1 & Ho1).
  destruct (IH _ _ Ho1) as (st2 & E2 & Ho2). exists st2. rewrite <- app_assoc in Ho2. split; [|done].
  etrans; [exact E1|exact E2].
Qed.

Definition between (out : list (list Z)) : Split := mkSplit out [] false false false.

Lemma open_between out : open_word out [] (between out).
Proof. done. Qed.

Lemma loop_blanks b rest out : blanks b -> shebang_loop (b ++ rest) (between out) = shebang_loop rest (between out).
Proof. intros Hb. induction Hb as [|c b [-> | ->] Hb IH]; [done|exact IH..]. Qed.

Lemma loop_separator b rest out buf st : b <> [] -> blanks b -> open_word out buf st ->
  shebang_loop (b ++ rest) st = shebang_loop rest (between (out ++ emit buf)).
Proof.
  intros Hne Hb Ho. destruct Hb as [|c b Hc Hb]; [done|]. etrans; [|apply (loop_blanks b rest _ Hb)].
  unfold between. rewrite <- (flush_open _ _ _ Ho). destruct Ho as [-> _]. by destruct Hc as [-> | ->].
Qed.

Lemma loop_end rest st : line_end rest -> shebang_loop rest st = st.
Proof. destruct rest as [|c rest]; [done|]. by intros [-> | ->]. Qed.

(** A word with the blanks that follow it. *)
Definition spaced (wb : list piece * list Z) : Prop := Forall piece_ok wb.1 /\ wb.2 <> [] /\ blanks wb.2.
Definition render_spaced (wb : list piece * list Z) : list Z := word_render wb.1 ++ wb.2.

Lemma loop_words ws rest out : Forall spaced ws ->
  shebang_loop (concat (render_spaced <$> ws) ++ rest) (between out) =
    shebang_loop rest (between (out ++ concat (emit ∘ word_bytes <$> ws.*1))).
Proof.
  intros Hws. revert out. induction Hws as [|[w b] ws (Hw & Hne & Hb) Hws IH]; intros out; cbn [fmap list_fmap concat fst].
  - by rewrite app_nil_r.
  - unfold render_spaced at 1. cbn [fst snd] in *. rewrite <- !app_assoc.
    destruct (loop_word w (b ++ concat (render_spaced <$> ws) ++ rest) out [] _ Hw (open_between out)) as (st & -> & Ho).
    rewrite (loop_separator b _ _ _ _ Hne Hb Ho). cbn [app]. rewrite IH. by rewrite <- app_assoc.
Qed.

Lemma concat_emit (l : list (list piece)) : concat (emit ∘ word_bytes <$> l) = filter (fun s => s <> []) (from_utf8_lossy ∘ word_bytes <$> l).
Proof.
  induction l as [|w l IH]; [done|]. cbn [fmap list_fmap concat]. rewrite IH. unfold emit. cbn [compose].
  change (from_utf8_lossy (word_bytes w) :: (from_utf8_lossy ∘ word_bytes <$> l))
    with ([from_utf8_lossy (word_bytes w)] ++ (from_utf8_lossy ∘ word_bytes <$> l)). by rewrite filter_app.
Qed.

(** C39. Splitting undoes quoting: a line of words separated by blanks, each word
    made of plain, single-quoted, double-quoted and escaped pieces in any
    order, splits into the words' bytes, decoded leniently, without the empty
    ones; what follows the end of the line is ignored. *)
Theorem shebang_split_words lead ws w rest : blanks lead -> Forall spaced ws -> Forall piece_ok w -> line_end rest ->
  shebang_split (lead ++ concat (render_spaced <$> ws) ++ word_render w ++ rest) =
    filter (fun s => s <> []) (from_utf8_lossy ∘ word_bytes <$> ws.*1 ++ [w]).
Proof.
  intros Hl Hws Hw Hr. unfold shebang_split. change (mkSplit [] [] false false false) with (between []).
  rewrite loop_blanks, loop_words by done.
  destruct (loop_word w rest _ [] _ Hw (open_between ([] ++ concat (emit ∘ word_bytes <$> ws.*1)))) as (st & -> & Ho).
  rewrite (loop_end _ _ Hr), (flush_open _ _ _ Ho). cbn [sp_out app]. rewrite concat_emit, fmap_app, filter_app. done.
Qed.

(** [env 'a b'"\\"] and a newline. *)
Lemma shebang_split_witness :
  shebang_split [32; 101; 110; 118; 32; 9; 39; 97; 32; 98; 39; 34; 92; 92; 34; 10; 88] = [[101; 110; 118]; [97; 32; 98; 92]].
Proof.
  etrans; [apply (shebang_split_words [32] [([Plain [101; 110; 118]], [32; 9])] [Single [97; 32; 98]; Double [92]] [10; 88])|].
  - repeat constructor.
  - repeat constructor; cbn; rewrite ?not_elem_of_cons; repeat split; try discriminate; try apply not_elem_of_nil; intuition lia.
  - repeat constructor; rewrite ?not_elem_of_cons; repeat split; try apply not_elem_of_nil; lia.
  - left. reflexivity.
  - vm_compute. reflexivity.
Defined.

(** ** The registry as a map of magic numbers *)

Inductive RegOp (M : Type) : Type := RegRegister (magic : list Z) (handler : Handler M) | RegUnregister (magic : list Z).
Arguments RegRegister {M} magic handler.
Arguments RegUnregister {M} magic.

Section Registry.
Context {M : Type}.
Implicit Types (trie : Trie Z (Handler M)) (ops : list (RegOp M)).

Definition reg_exec trie (op : RegOp M) : outcome (Trie Z (Handler M)) :=
  match op with
  | RegRegister magic handler => '(_, trie) ← register trie magic handler; mret trie
  | RegUnregister magic => '(_, trie) ← unregister trie magic; mret trie
  end.

Fixpoint reg_run trie ops : outcome (Trie Z (Handler M)) :=
  match ops with [] => mret trie | op :: ops => trie ← reg_exec trie op; reg_run trie ops end.

(** The handler of each magic number after the calls. *)
Definition reg_step (reg : list Z -> option (Handler M)) (op : RegOp M) : list Z -> option (Handler M) := fun magic =>
  match op with
  | RegRegister m handler => if bool_decide (m <> [] /\ m = magic) then Some handler else reg magic
  | RegUnregister m => if bool_decide (m = magic) then None else reg magic
  end.

Definition reg_default (magic : list Z) : option (Handler M) :=
  if bool_decide (magic = ELF_MAGIC) then Some HandlerElf
  else if bool_decide (magic = SHEBANG_MAGIC) then Some HandlerShebang else None.

(** [trie] holds the handlers of [reg]; none for the empty magic. *)
Definition holds trie (reg : list Z -> option (Handler M)) : Prop :=
  Trie_ok trie /\ (forall magic, om_get magic (entries (root trie)) = reg magic) /\ reg [] = None.

Lemma default_holds : exists trie, BINFMTS = Ret trie /\ tlen trie = 2 /\ holds trie reg_default.
Proof.
  unfold BINFMTS. destruct (Trie_insert_ok (K := Z) Trie_new ELF_MAGIC (@HandlerElf M) Trie_new_ok ltac:(done)) as (t1 & -> & O1 & E1).
  rewrite outcome_bind_Ret. assert (L1 : tlen t1 = 1) by by rewrite (to_len _ O1), E1.
  destruct (Trie_insert_ok t1 SHEBANG_MAGIC (@HandlerShebang M) O1 ltac:(by rewrite L1)) as (t2 & -> & O2 & E2).
  rewrite outcome_bind_Ret. exists t2. split; [done|]. split; [by rewrite (to_len _ O2), E2, E1|]. split; [done|]. split; [|done].
  assert (Hk : om_ok (entries (root t1))) by apply entries_ok, O1. intros magic. rewrite E2, om_get_insert, E1, om_get_insert by (done || constructor).
  unfold reg_default, ELF_MAGIC, SHEBANG_MAGIC. repeat case_decide; repeat case_bool_decide; (congruence || done).
Qed.

Lemma reg_exec_ok trie reg op : holds trie reg -> tlen trie + 1 < 2 ^ 64 ->
  exists trie', reg_exec trie op = Ret trie' /\ holds trie' (reg_step reg op) /\ tlen trie' <= tlen trie + 1.
Proof.
  intros (O & E & E0) Hl. pose proof (entries_ok _ (to_node _ O)) as Hk. destruct op as [magic h|magic]; cbn [reg_exec].
  - destruct magic as [|c magic].
    + exists trie. split; [done|]. split; [|lia]. split; [done|]. split; [|done]. intros m. cbn [reg_step]. by rewrite bool_decide_false by naive_solver.
    + unfold register. destruct (Trie_insert_ok trie (c :: magic) h O Hl) as (t' & -> & O' & E'). rewrite !outcome_bind_Ret. exists t'.
      split; [done|]. split; [split; [done|]; split|].
      * intros m. rewrite E', om_get_insert, E by done. cbn [reg_step]. case_decide; case_bool_decide; naive_solver.
      * cbn [reg_step]. by rewrite bool_decide_false by naive_solver.
      * rewrite (to_len _ O'), E', om_insert_length, (to_len _ O) by done. destruct (om_get _ _); lia.
  - unfold unregister. destruct (Trie_remove_ok trie magic O) as (t' & -> & O' & E'). rewrite !outcome_bind_Ret. exists t'.
    split; [done|]. split; [split; [done|]; split|].
    + intros m. rewrite E', om_get_remove, E by done. cbn [reg_step]. case_decide; case_bool_decide; naive_solver.
    + cbn [reg_step]. rewrite E0. by case_bool_decide.
    + rewrite (to_len _ O'), E', om_remove_length, (to_len _ O) by done. destruct (om_get _ _); lia.
Qed.

Lemma reg_run_ok ops trie reg : holds trie reg -> tlen trie + Z.of_nat (length ops) < 2 ^ 64 ->
  exists trie', reg_run trie ops = Ret trie' /\ holds trie' (foldl reg_step reg ops).
Proof.
  revert trie reg. induction ops as [|op ops IH]; intros trie reg H Hl; [by exists trie|]. cbn [length] in Hl.
  destruct (reg_exec_ok trie reg op H ltac:(lia)) as (t1 & E1 & H1 & L1). cbn [reg_run foldl]. rewrite E1, outcome_bind_Ret.
  apply IH; [done|lia].
Qed.

(** The handler of a file: that of the longest magic number it starts with. *)
Lemma holds_longest trie reg head : holds trie reg ->
  match Trie_longest_prefix trie head with
  | Some (magic, handler) => magic <> [] /\ magic `prefix_of` head /\ reg magic = Some handler /\
      forall q, q `prefix_of` head -> reg q <> None -> q `prefix_of` magic
  | None => forall q, q `prefix_of` head -> reg q = None
  end.
Proof.
  intros (O & E & E0). pose proof (longest_prefix_ok trie head O) as H. destruct (Trie_longest_prefix trie head) as [[p h]|].
  - destruct H as (Hp & Hg & Hm). rewrite E in Hg. split; [intros ->; congruence|]. split; [done|]. split; [done|].
    intros q Hq Hs. destruct (reg q) as [h'|] eqn:Eq; [|done]. apply (Hm q h' Hq). by rewrite E.
  - intros q Hq. rewrite <- E. by apply H.
Qed.

Lemma default_longest trie head : BINFMTS = Ret trie ->
  (ELF_MAGIC `prefix_of` head -> Trie_longest_prefix trie head = Some (ELF_MAGIC, HandlerElf)) /\
  (SHEBANG_MAGIC `prefix_of` head -> Trie_longest_prefix trie head = Some (SHEBANG_MAGIC, HandlerShebang)).
Proof.
  destruct default_holds as (t & -> & _ & H). intros [= ->]. pose proof (holds_longest trie _ head H) as Hl.
  split; intros Hp; (destruct (Trie_longest_prefix trie head) as [[p h]|]; [|by specialize (Hl _ Hp)]);
    destruct Hl as (_ & Hq & Hr & Hm); specialize (Hm _ Hp ltac:(done)); unfold reg_default in Hr; repeat case_bool_decide; simplify_eq; try done;
    destruct Hm as [x Hx]; discriminate Hx.
Qed.

End Registry.

(** The registry of executable formats. After any sequence of registrations
    and removals from the built-in formats on, a file is given to the handler
    of the longest magic number it starts with, and it is not supported exactly
    when no registered magic number starts it; the empty magic number, which
    would match every file, is never registered. *)
Theorem binfmt_registry {M} (ops : list (RegOp M)) : Z.of_nat (length ops) + 2 < 2 ^ 64 ->
  let reg := foldl reg_step reg_default ops in
  exists trie0 trie, BINFMTS = Ret trie0 /\ reg_run trie0 ops = Ret trie /\ forall head,
    match Trie_longest_prefix trie head with
    | Some (magic, handler) => magic <> [] /\ magic `prefix_of` head /\ reg magic = Some handler /\
        forall q, q `prefix_of` head -> reg q <> None -> q `prefix_of` magic
    | None => forall q, q `prefix_of` head -> reg q = None
    end.
Proof.
  intros Hl reg. destruct (@default_holds M) as (t0 & E0 & L0 & H0). destruct (reg_run_ok ops t0 _ H0 ltac:(lia)) as (t & E & H).
  exists t0, t. split; [done|]. split; [done|]. intros head. by apply holds_longest.
Qed.

(** A module registers a longer magic that starts like that of ELF files. *)
Lemma binfmt_registry_witness : exists trie0 trie : Trie Z (Handler unit),
  BINFMTS = Ret trie0 /\ reg_run trie0 [RegRegister [127; 69; 76; 70; 2] HandlerShebang; RegUnregister [35; 33]; RegRegister [] HandlerElf] = Ret trie /\
  Trie_longest_prefix trie [35; 33; 47] = None.
Proof.
  destruct (binfmt_registry (M := unit) [RegRegister [127; 69; 76; 70; 2] HandlerShebang; RegUnregister [35; 33]; RegRegister [] HandlerElf] eq_refl)
    as (t0 & t & E0 & E & H).
  exists t0, t. split; [exact E0|]. split; [exact E|]. specialize (H [35; 33; 47]).
  destruct (Trie_longest_prefix t [35; 33; 47]) as [[magic handler]|]; [|reflexivity]. exfalso. destruct H as (Hne & [r Hr] & Hg & _).
  destruct magic as [|a [|b [|c [|]]]]; try discriminate; injection Hr; intros; subst; discriminate.
Defined.

(** ** Routing of scripts *)

Section Scripts.
Context {D A : Type} {FS : FrameSource A} {FL : FrameLaws A} (manager : DeviceManager D) (vfs : Vfs D).
Implicit Types (m : Machine D A) (dw : World D).

(** From [path] with [argv], [n] scripts lead to the ELF file [path'] with
    [argv']; [dw] and [dw'] are the devices before and after the heads are read. *)
Inductive leads : nat -> World D -> str -> list (list Z) -> World D -> str -> list (list Z) -> Prop :=
| leads_elf dw path argv head dw' :
    exec_head vfs path dw = Ret (Ok head, dw') -> ELF_MAGIC `prefix_of` head -> leads 0 dw path argv dw' path argv
| leads_script n dw path argv head dw1 interpreter args dw' path' argv' :
    exec_head vfs path dw = Ret (Ok head, dw1) -> SHEBANG_MAGIC `prefix_of` head ->
    shebang_argv head path argv = interpreter :: args ->
    leads n dw1 (bytes_str interpreter) (interpreter :: args) dw' path' argv' ->
    leads (S n) dw path argv dw' path' argv'.

Lemma route_step_elf sstatus fuel trie m tid path argv envp head dw : BINFMTS = Ret trie ->
  exec_head vfs path (mc_devs m) = Ret (Ok head, dw) -> ELF_MAGIC `prefix_of` head ->
  route_inner manager vfs sstatus (S fuel) trie m tid path argv envp = exec_elf manager vfs sstatus (mkMachine (mc_kernel m) dw) path argv envp tid.
Proof using. intros Ht E Hp. cbn [route_inner]. rewrite E, outcome_bind_Ret, (proj1 (default_longest trie head Ht) Hp). done. Qed.

Lemma route_step_script sstatus fuel trie m tid path argv envp head dw interpreter args : BINFMTS = Ret trie ->
  exec_head vfs path (mc_devs m) = Ret (Ok head, dw) -> SHEBANG_MAGIC `prefix_of` head -> shebang_argv head path argv = interpreter :: args ->
  route_inner manager vfs sstatus (S fuel) trie m tid path argv envp =
    route_inner manager vfs sstatus fuel trie (mkMachine (mc_kernel m) dw) tid (bytes_str interpreter) (interpreter :: args) envp.
Proof using.
  intros Ht E Hp Ha. cbn [route_inner]. rewrite E, outcome_bind_Ret, (proj2 (default_longest trie head Ht) Hp). unfold exec_shebang.
  rewrite (proj2 (Nat.ltb_ge _ _)) by by apply prefix_length. by rewrite Ha.
Qed.

Lemma route_leads sstatus n dw path argv dw' path' argv' : leads n dw path argv dw' path' argv' ->
  forall fuel trie m tid envp, BINFMTS = Ret trie -> mc_devs m = dw -> (n < fuel)%nat ->
  route_inner manager vfs sstatus fuel trie m tid path argv envp = exec_elf manager vfs sstatus (mkMachine (mc_kernel m) dw') path' argv' envp tid.
Proof using.
  intros H. induction H as [dw path argv head dw' Eh Hp|n dw path argv head dw1 i args dw' path' argv' Eh Hp Ha H IH];
    intros [|fuel] trie m tid envp Ht <- Hf; try lia.
  - by eapply route_step_elf.
  - erewrite route_step_script by done. by rewrite (IH fuel trie (mkMachine (mc_kernel m) dw1)) by (done || lia).
Qed.

(** Every file of [S] is a script whose interpreter is again in [S]. *)
Definition script_cycle (P : World D -> Prop) (S : str -> Prop) : Prop := forall dw path argv, P dw -> S path ->
  exists head dw' interpreter args, exec_head vfs path dw = Ret (Ok head, dw') /\ P dw' /\ SHEBANG_MAGIC `prefix_of` head /\
    shebang_argv head path argv = interpreter :: args /\ S (bytes_str interpreter).

(** C40. There is no limit on the depth of scripts: when each of a set of scripts
    names an interpreter of the same set, such as a script that is its own
    interpreter, no amount of recursion makes routing one of them return. *)
Theorem route_cycle (P : World D -> Prop) (S : str -> Prop) sstatus trie m tid path argv envp : BINFMTS = Ret trie ->
  script_cycle P S -> P (mc_devs m) -> S path ->
  forall fuel, route_inner manager vfs sstatus fuel trie m tid path argv envp = Panic.
Proof using.
  intros Ht Hs HP HS fuel. revert m path argv HP HS. induction fuel as [|fuel IH]; intros m path argv HP HS; [done|].
  destruct (Hs _ path argv HP HS) as (head & dw' & i & args & E & HP' & Hp & Ha & HS').
  rewrite (route_step_script sstatus fuel trie m tid path argv envp head dw' i args) by done. by apply IH.
Qed.

Context (buffer : list Z) (hdr : ElfHeader) (phs : list ProgramHeader) (argv' envp : list (list Z)) (sstatus required : Z).
Hypothesis Himage : image_ok buffer hdr phs.
Hypothesis Hargs : Forall bytes argv' /\ Forall bytes envp /\ initial_stack_size argv' envp (auxv_of hdr phs) = Ret required.

(** [execve] of a script. When [n] scripts lead to an ELF file whose segments
    can be placed, routing needs a recursion of depth [n] and one more, and
    loads that file for the current task, with the words of the interpreter
    lines and the paths of the scripts in front of the arguments: it does not
    panic and leaves the kernel consistent, the task runs the interpreter, or
    the error is [ExecFailed] and every task and its memory is as before. *)
Theorem route_at_ok extra free m tid n path argv dw path' dw' fuel trie : kernel_ok extra free (mc_kernel m) ->
  t_current (kn_tasks (mc_kernel m)) = Some tid -> BINFMTS = Ret trie ->
  leads n (mc_devs m) path argv dw path' argv' -> (n < fuel)%nat -> read_file vfs path' dw = Ret (Ok (Some buffer), dw') ->
  let k := mc_kernel m in
  exists r m', route_at manager vfs sstatus fuel trie m tid path argv envp = Ret (r, m') /\ mc_devs m' = dw' /\ let k' := mc_kernel m' in
    kernel_ok extra free k' /\
    match r with
    | Ok _ => exists ms ctx, kn_tasks k' = update (kn_tasks k) tid (with_program ms ctx) /\
        runs buffer hdr phs argv' envp sstatus (kn_world k') tid ms ctx /\
        same_on (kept_frames tid (t_map (kn_tasks k)) extra) (w_heap (kn_world k)) (w_heap (kn_world k'))
    | Err e => e = ExecFailed /\ kn_tasks k' = kn_tasks k /\
        same_on (all_frames (t_map (kn_tasks k)) ++ extra) (w_heap (kn_world k)) (w_heap (kn_world k'))
    end.
Proof using Himage Hargs FL.
  intros Hk Hc Ht Hl Hf Hread k. unfold route_at. rewrite (route_leads sstatus _ _ _ _ _ _ _ Hl fuel trie m (Some tid) envp Ht eq_refl Hf).
  destruct (replace_program_kernel buffer hdr phs argv' envp sstatus required Himage Hargs extra free k tid Hk Hc) as (r & k' & E & Hk' & Hr).
  destruct (proj2 (ko_procs _ _ _ Hk) _ Hc) as (task & Eg & _). unfold exec_elf, execve_into. cbn [mc_kernel mc_devs].
  rewrite Eg, Hread, outcome_bind_Ret. fold k. rewrite E, !outcome_bind_Ret. eexists _, (mkMachine k' dw'). split; [done|]. split; [done|].
  split; [done|]. destruct r; [done|by split].
Qed.

End Scripts.

(** ** Example *)

#[local] Existing Instance pool_laws.

(** The content of a file, read at an offset. *)
Definition ex_read (data buf : list Z) (offset : Z) : fio unit (Z * list Z) :=
  let piece := take (length buf) (drop (Z.to_nat offset) data) in mret (len piece, piece ++ drop (length piece) buf).

Definition ex_script : list Z := SHEBANG_MAGIC ++ [32; 47; 101; 32; 45; 10].

(** [/s] is a script with the line [#! /e -], [/l] a script with an empty line,
    and every other file is the program. *)
Definition ex_content (path : Path) : list Z :=
  if bool_decide (str_bytes (inner path) = [47; 115]) then ex_script
  else if bool_decide (str_bytes (inner path) = [47; 108]) then SHEBANG_MAGIC ++ [10] else ex_file.

Definition ex_scripts : FileSystem unit := {|
  fs_open path flags _ := VfsFile_from_ops [] 1 0x81ed (FileOps_with None None (Some (ex_read (ex_content path))) None None None) flags;
  fs_stat path := mret (mkStat 1 0x81ed (len (ex_content path)) 1 0 0 0);
  fs_mkdir _ _ := fio_fail Unsupported;
  fs_unlink _ := fio_fail Unsupported;
  fs_rmdir _ := fio_fail Unsupported;
  fs_rename _ _ := fio_fail Unsupported;
  fs_link _ _ := fio_fail Unsupported;
  fs_symlink _ _ := fio_fail Unsupported;
  fs_readlink _ := fio_fail Unsupported;
  fs_sync := mret ()
|}.

Definition ex_scripts_vfs : Vfs unit :=
  match Vfs_mount Vfs_new (mkPath [sep]) (mkArcFs 1 ex_scripts) ex_devs with Ret (Ok vfs, _) => vfs | _ => Vfs_new end.

Lemma ex_leads : exists dw dw', read_file ex_scripts_vfs (bytes_str [47; 101]) dw = Ret (Ok (Some ex_file), dw') /\
  leads ex_scripts_vfs 1 ex_devs (bytes_str [47; 115]) [[115]; [97]] dw (bytes_str [47; 101]) [[47; 101]; [45]; [47; 115]; [97]].
Proof.
  eexists _, _. split; cycle 1.
  { eapply leads_script; [vm_compute; reflexivity|by eexists|vm_compute; reflexivity|].
    eapply leads_elf; [vm_compute; reflexivity|]. by eexists. }
  vm_compute. reflexivity.
Qed.

Lemma ex_script_args : Forall bytes [[47; 101]; [45]; [47; 115]; [97]] /\ Forall bytes [] /\
  initial_stack_size [[47; 101]; [45]; [47; 115]; [97]] [] (auxv_of ex_elf [ex_ph]) = Ret 176.
Proof. split; [repeat constructor; cbn; lia|]. split; [constructor|]. vm_compute. reflexivity. Qed.

(** A file opened and read from the start. *)
Lemma ex_open_read (dw : World unit) data n flags :
  exists f dw1 dw2, VfsFile_from_ops [] 1 0x81ed (FileOps_with None None (Some (ex_read data)) None None None) flags dw = Ret (Ok f, dw1) /\
    vi_mode (d_inode (vf_dentry f)) = 0x81ed /\ VfsFile_read f (replicate n 0) dw1 = Ret (Ok (len (take n data), take n data ++ drop (length (take n data)) (replicate n 0)), dw2).
Proof.
  destruct dw as [[] cs]. eexists _, _, _. split; [reflexivity|]. split; [reflexivity|].
  unfold VfsFile_read. cbn [vf_offset vf_ops]. unfold mbind, fio_bind at 1, cell_load at 1. cbn [cells dev].
  rewrite list_lookup_middle by done. unfold ex_read. cbn. rewrite length_replicate. unfold cell_fetch_add, mbind, fio_bind, cell_load. cbn [cells].
  rewrite list_lookup_middle by done. reflexivity.
Qed.

Lemma ex_empty_script dw : exists dw', exec_head ex_scripts_vfs (bytes_str [47; 108]) dw = Ret (Ok [35; 33; 10], dw').
Proof.
  destruct (ex_open_read dw (SHEBANG_MAGIC ++ [10]) 128 0) as (f & dw1 & dw2 & E1 & Em & E2). exists dw2. unfold exec_head.
  change (fs_open _ _ _ _) with (VfsFile_from_ops (D := unit) [] 1 0x81ed (FileOps_with None None (Some (ex_read (SHEBANG_MAGIC ++ [10]))) None None None) 0).
  rewrite E1, outcome_bind_Ret, Em. cbn [negb]. rewrite E2. reflexivity.
Qed.

Lemma route_at_witness : exists free (m : Machine unit BuddyAllocator) trie r m',
  kernel_ok [] free (mc_kernel m) /\ BINFMTS = Ret trie /\
  route_at ex_manager ex_scripts_vfs 0 2 trie m 1 (bytes_str [47; 115]) [[115]; [97]] [] = Ret (r, m') /\ kernel_ok [] free (mc_kernel m').
Proof.
  destruct ex_kernel_ok as (free & k & Hk & Hc). destruct ex_leads as (dw & dw' & Hr & Hl). destruct (@default_holds (Machine unit BuddyAllocator)) as (trie & Ht & _).
  destruct (route_at_ok ex_manager ex_scripts_vfs ex_file ex_elf [ex_ph] [[47; 101]; [45]; [47; 115]; [97]] [] 0 176 ex_image ex_script_args
    [] free (mkMachine k ex_devs) 1 1 (bytes_str [47; 115]) [[115]; [97]] dw (bytes_str [47; 101]) dw' 2 trie)
    as (r & m' & E & _ & Hk' & _).
  - exact Hk.
  - exact Hc.
  - exact Ht.
  - exact Hl.
  - lia.
  - exact Hr.
  - exists free, (mkMachine k ex_devs), trie, r, m'. split; [exact Hk|]. split; [exact Ht|]. split; [exact E|exact Hk'].
Defined.

Lemma route_cycle_witness : exists trie, BINFMTS = Ret trie /\ forall fuel (m : Machine unit BuddyAllocator),
  route_inner ex_manager ex_scripts_vfs 0 fuel trie m None (bytes_str [47; 108]) [] [] = Panic.
Proof.
  destruct (@default_holds (Machine unit BuddyAllocator)) as (trie & Ht & _). exists trie. split; [exact Ht|]. intros fuel m.
  apply (route_cycle ex_manager ex_scripts_vfs (fun _ => True) (fun path => path = bytes_str [47; 108]) 0 trie m None (bytes_str [47; 108]) [] [] Ht).
  - intros dw path argv _ ->. destruct (ex_empty_script dw) as [dw' E]. eexists _, _, _, _. split; [exact E|]. split; [exact I|].
    split; [by eexists|]. split; reflexivity.
  - exact I.
  - reflexivity.
Defined.
