(* ===== verification/UserAccess.v ===== *)
(** * UserAccess: the kernel's accesses to a task's memory ([src/syscall.rs])

    A system call runs with the page table of the calling task, so the pointers
    it is given are looked up by the hardware there. An access to a page that
    is not mapped, or not with the permission needed, is a page fault in the
    kernel, which stops the machine: [Panic]. Before an access the pointer is
    looked for in the table of mappings of the task. *)

From stdpp Require Import gmap.
From S2P Require Import Prelude OrdMap Buddy FrameAlloc BitFields Abi PageTable SpaceClone SpaceManager.
From S2P Require Import MemoryMap MapTable MapTheory MapOps UserMemory Fork Bytes ByteMem InitStack Elf LoadElf Paths Vfs MinixVfs Tasks Processes Clone Exec.

(** ** Operations *)

(** The permission bits of a leaf entry; write-only pages are reserved. *)
Definition entry_allows (write : bool) (pte : Z) : bool :=
  bit_get 1 pte && (negb write || bit_get 2 pte).

Definition canonical (va : Z) : bool := (va <? LOW_HALF_END) || (HIGH_HALF_START <=? va).

Section Ops.
Context {D A : Type}.
Implicit Types (k : Kernel D A) (w : @world A).

(** The physical address of [va] for the kernel while task [tid] runs. User
    pages are open to the kernel: [sstatus.SUM] is set at boot. *)
Definition user_addr w (tid : Z) (write : bool) (va : Z) : option Z :=
  match AddressSpaceManager_user_root_addr (w_mgr w) tid with
  | Err _ => None
  | Ok root =>
      pte ← (if canonical va then walk (w_heap w) root va else None);
      if entry_allows write pte then Some (entry_phys_addr pte + va mod PAGE_SIZE) else None
  end.

Definition user_load w (tid va : Z) : outcome Z :=
  p ← expect (user_addr w tid false va); load_byte (w_heap w) p.

(** [cur.read()] of a pointer; an unaligned one is a bug that debug builds catch. *)
Definition user_load_word w (tid va : Z) : outcome Z :=
  if va mod 8 =? 0 then p ← expect (user_addr w tid false va); load (w_heap w) p else Panic.

Definition user_store w (tid va b : Z) : outcome world :=
  p ← expect (user_addr w tid true va);
  h ← store_byte (w_heap w) p b;
  mret (set_heap w h).

Fixpoint user_stores w (tid va : Z) (bs : list Z) : outcome world :=
  match bs with
  | [] => mret w
  | b :: bs => w ← user_store w tid va b; user_stores w tid (va + 1) bs
  end.

Definition current_tid k : result Z Z := match t_current (kn_tasks k) with Some tid => Ok tid | None => Err ESRCH end.

(** [mapping.frames.iter().map(|f| f.size).sum()]. *)
Fixpoint frames_size (acc : Z) (frames : list Frame) : outcome Z :=
  match frames with [] => mret acc | f :: frames => acc ← usize_add acc (fr_size f); frames_size acc frames end.

Fixpoint find_mapping (l : list UserMapping) (addr : Z) : outcome (result Z unit) :=
  match l with
  | [] => mret (Err EFAULT)
  | m :: l =>
      size ← frames_size 0 (um_frames m);
      end_ ← usize_add (um_va m) size;
      if (um_va m <=? addr) && (addr <? end_) then mret (Ok tt) else find_mapping l addr
  end.

Definition validate_user_address k (addr : Z) : outcome (result Z unit) :=
  match t_current (kn_tasks k) with
  | None => mret (Err ESRCH)
  | Some tid =>
      match om_get tid (t_map (kn_tasks k)) with
      | None => mret (Err ESRCH)
      | Some tcb => find_mapping (ms_mappings (t_memory_set tcb)) addr
      end
  end.

Definition validate_user_range k (addr len : Z) : outcome (result Z unit) :=
  if len =? 0 then mret (Ok tt)
  else
    match checked_add addr len with
    | None => mret (Err EFAULT)
    | Some end_ =>
        r ← validate_user_address k addr;
        match r with
        | Err e => mret (Err e)
        | Ok _ => last ← usize_sub end_ 1; validate_user_address k last
        end
    end.

Definition MAX_ARG_LEN : Z := 4096.

(** The scan of [read_user_cstr], at most [MAX_ARG_LEN + 1] bytes; [s] is what
    was read so far. *)
Fixpoint cstr_scan (n : nat) w (tid ptr : Z) (s : list Z) : outcome (result Z (list Z)) :=
  match n with
  | O => Panic
  | S n =>
      c ← user_load w tid (wrap 64 (ptr + len s));
      if c =? 0 then mret (Ok s)
      else if MAX_ARG_LEN <? len s + 1 then mret (Err E2BIG)
      else cstr_scan n w tid ptr (s ++ [c])
  end.

Definition read_user_cstr k (ptr : Z) : outcome (result Z (list Z)) :=
  r ← validate_user_address k ptr;
  match r, t_current (kn_tasks k) with
  | Err e, _ => mret (Err e)
  | Ok _, None => Panic
  | Ok _, Some tid =>
      s ← cstr_scan (Z.to_nat (MAX_ARG_LEN + 1)) (kn_world k) tid ptr [];
      match s with
      | Err e => mret (Err e)
      | Ok s => mret (if utf8_valid s then Ok s else Err EINVAL)
      end
  end.

(** The loop of [read_user_string_array]; nothing but the NULL pointer ends it. *)
Fixpoint array_scan (fuel : nat) k (tid cur : Z) (out : list (list Z)) : outcome (result Z (list (list Z))) :=
  match fuel with
  | O => Panic
  | S fuel =>
      item ← user_load_word (kn_world k) tid cur;
      if item =? 0 then mret (Ok out)
      else
        s ← read_user_cstr k item;
        match s with
        | Err e => mret (Err e)
        | Ok s => array_scan fuel k tid (wrap 64 (cur + 8)) (out ++ [s])
        end
  end.

Definition read_user_string_array (fuel : nat) k (ptr : Z) : outcome (result Z (list (list Z))) :=
  r ← validate_user_address k ptr;
  match r, t_current (kn_tasks k) with
  | Err e, _ => mret (Err e)
  | Ok _, None => Panic
  | Ok _, Some tid => array_scan fuel k tid ptr []
  end.

End Ops.

(** ** The hardware's look at a mapping *)

Lemma leaf_pte_phys p flags : page_addr p -> entry_phys_addr (leaf_pte p flags) = p.
Proof.
  intros Hq. apply Z.bits_inj'. intros i Hi. rewrite entry_phys_addr_testbit by lia.
  destruct (Z.leb_spec 12 i); simpl; [|by rewrite (page_addr_bits p) by (done || lia)].
  destruct (Z.leb_spec i 55); simpl; [|by rewrite (page_addr_bits p) by (done || lia)].
  unfold leaf_pte. rewrite leaf_entry_testbit by (lia || apply fits64_0).
  destruct (Z.eqb_spec (i - 2) 0), (Z.leb_spec (i - 2) 7), (Z.leb_spec 10 (i - 2)), (Z.leb_spec (i - 2) 53); try lia.
  simpl. f_equal. lia.
Qed.

(** The permissions of a mapping. *)
Definition flags_allow (write : bool) (flags : Z) : bool :=
  PageTableEntryFlags_r flags && (negb write || PageTableEntryFlags_w flags).

Lemma leaf_pte_allows write p flags : entry_allows write (leaf_pte p flags) = flags_allow write flags.
Proof.
  unfold entry_allows, flags_allow, PageTableEntryFlags_r, PageTableEntryFlags_w, leaf_pte.
  rewrite !bit_get_testbit, !leaf_entry_testbit by (lia || apply fits64_0). done.
Qed.

Lemma flags_allow_leaf write flags : flags_allow write flags = true -> flags_leaf flags = true.
Proof. unfold flags_allow, flags_leaf. intros [-> _]%andb_true_iff. done. Qed.

Section Theory.
Context {A : Type} {FS : FrameSource A} {FL : FrameLaws A} (abs0 : mabs) (tid : Z) (sh : Z -> bool).
Implicit Types (w : @world A) (rest : list Frame).

Abbreviation trel := (trel abs0 tid sh).
Abbreviation minv := (minv abs0 tid sh).

(** The pages of a task are not among those it shares with the kernel. *)
Lemma own_not_shared rest s abs TK (t : Z) u va e : mrel rest s abs TK -> a_users abs t = Some u -> u_view u va = Some e ->
  u_sh u (VirtualAddr_vpn2 va) = false.
Proof.
  intros M Hu Hv. pose proof (mr_user _ _ _ _ M t) as H. destruct (om_get t _) as [sp|]; [|congruence].
  destruct H as (u' & Hu' & T & R & _ & Hsh & Hview). rewrite Hu in Hu'. injection Hu' as <-.
  rewrite (Hsh _ (proj1 (vpn_range va))). rewrite Hview in Hv. unfold own_view, view in Hv.
  destruct (t_0 T _ _) as [p|] eqn:E0; [|done]. destruct (sr_0 _ _ _ R _ _ _ E0) as [_ [p1 H1]].
  apply bool_decide_false. intros [q Hq]. destruct (sr_sh _ _ _ R _ _ Hq) as (_ & _ & Hn & _). congruence.
Qed.

Lemma trel_walk rest w v va e : trel rest w v -> canon va -> v va = Some e ->
  exists root, AddressSpaceManager_user_root_addr (w_mgr w) tid = Ok root /\ walk (w_heap w) root va = Some e.
Proof.
  intros (abs & TK & u & M & _ & _ & _ & Hu & _ & Hv) Hc He. destruct (mrel_hw _ _ _ _ M) as [_ H]. specialize (H tid).
  cbn [wsys ms_mgr ms_heap] in H. destruct (om_get tid _) as [sp|]; [|destruct H; congruence].
  destruct H as (u' & Hu' & Er & Hw). rewrite Hu in Hu'. injection Hu' as <-. eexists. split; [exact Er|].
  rewrite Hw. unfold seen. rewrite <- Hv in He by done. by rewrite (own_not_shared _ _ _ _ _ _ _ _ M Hu He).
Qed.

Lemma canonical_true va : canon va -> canonical va = true.
Proof. unfold canon, canonical. intros [H|H]; apply orb_true_iff; [left|right]; lia. Qed.

(** The address the hardware finds is the one the table of mappings says. *)
Lemma user_addr_ok rest w l va m write : minv rest w l -> mapping_at l va = Some m -> flags_allow write (um_flags m) = true ->
  exists f o, f ∈ um_frames m /\ 0 <= o < fr_size f /\ m_phys m va = Some (fr_start f + o) /\
    user_addr w tid write va = Some (fr_start f + o).
Proof.
  intros [T [Hwf Hdis]] Hm Hfl. destruct (mapping_at_some _ _ _ Hm) as [Hin Hva]. rewrite Forall_forall in Hwf. specialize (Hwf _ Hin).
  pose proof (mw_frames _ Hwf) as HF. pose proof (mw_va _ Hwf) as Hal.
  assert (Hc : canon va) by (apply (canon_in (um_va m) (m_end m)); [apply Hwf|done]).
  destruct (page_start_between va (um_va m) (m_end m) Hal (m_end_aligned _ Hwf) Hva) as [P1 P2].
  destruct (phys_of_page (um_frames m) (page_start va - um_va m) HF) as (f & o & Hf & Ho & Ho0 & Hoz & Hph).
  { apply aligned_sub; [apply aligned_mul|done]. } { lia. } { unfold m_end in *. lia. }
  rewrite Forall_forall in HF. pose proof (HF f Hf) as (Hs1 & Hs2 & _ & _ & Hs3).
  pose proof (page_spec va) as Hp. fold (page_start va) in Hp. set (d := va - page_start va) in *.
  exists f, (o + d). split; [done|]. split; [lia|].
  assert (Ephys : m_phys m va = Some (fr_start f + (o + d))).
  { unfold m_phys. replace (va - um_va m) with (page_start va - um_va m + d) by lia. rewrite Hph by lia. f_equal. lia. }
  split; [done|].
  assert (Ev : tab_view l va = Some (leaf_pte (fr_start f + o) (um_flags m))).
  { unfold tab_view. rewrite Hm. cbn [mbind option_bind]. rewrite (flags_allow_leaf _ _ Hfl). unfold m_phys.
    replace (page_start va - um_va m) with (page_start va - um_va m + 0) by lia. rewrite Hph by (unfold PAGE_SIZE; lia). cbn. do 2 f_equal. lia. }
  destruct (trel_walk _ _ _ va _ T Hc Ev) as (root & Er & Ew). unfold user_addr. rewrite Er, canonical_true, Ew by done. cbn [mbind option_bind].
  rewrite leaf_pte_allows, Hfl, leaf_pte_phys. 2: { split; [lia|]. by apply aligned_add. }
  f_equal. assert (va mod PAGE_SIZE = d); [|lia]. unfold d, page_start, page. pose proof (Z.div_mod va PAGE_SIZE ltac:(unfold PAGE_SIZE; lia)). lia.
Qed.

(** ** One byte *)

Lemma load_byte_at h a b : byte_at h a = Some b -> load_byte h a = Ret b.
Proof.
  unfold byte_at, load_byte, load. destruct (h !! word_of a) as [x|]; [|done]. cbn [mbind option_bind expect]. rewrite outcome_bind_Ret.
  by intros ->.
Qed.

Lemma byte_present h a : is_Some (h !! word_of a) -> exists b, byte_at h a = Some b /\ is_byte b.
Proof.
  intros [x Hx]. unfold byte_at. rewrite Hx. cbn [mbind option_bind]. destruct (word_of_spec a) as [_ Ha].
  destruct (lookup_lt_is_Some_2 (to_le_bytes 8 x) (byte_ix a)) as [b Hb]; [by rewrite to_le_bytes_length|]. exists b. split; [done|].
  pose proof (to_le_bytes_bytes 8 x) as H. rewrite Forall_forall in H. apply H, (list_elem_of_lookup_2 _ _ _ Hb).
Qed.

(** The task may access every byte of the range. *)
Definition accessible (write : bool) (l : list UserMapping) (va n : Z) : Prop :=
  forall x, va <= x < va + n -> exists m, mapping_at l x = Some m /\ flags_allow write (um_flags m) = true.

Lemma in_tab_frames f m l : m ∈ l -> f ∈ um_frames m -> f ∈ tab_frames l.
Proof. intros Hm Hf. unfold tab_frames. apply list_elem_of_In, in_concat. exists (um_frames m). split; apply list_elem_of_In; [|done]. by apply list_elem_of_fmap_2. Qed.

Lemma user_load_ok rest w l va : minv rest w l -> accessible false l va 1 ->
  exists b, user_load w tid va = Ret b /\ user_byte l (w_heap w) va = Some b /\ is_byte b.
Proof.
  intros I Ha. destruct (Ha va ltac:(lia)) as (m & Hm & Hfl). destruct (user_addr_ok _ _ _ _ _ _ I Hm Hfl) as (f & o & Hf & Ho & Ep & Ea).
  destruct (mapping_at_some _ _ _ Hm) as [Hin _]. assert (Hft : f ∈ tab_frames l) by (by apply (in_tab_frames _ m)).
  pose proof (frame_present _ _ _ _ _ _ f (mi_rel _ _ _ _ _ _ I) ltac:(set_solver)) as Hp.
  destruct (byte_present (w_heap w) (fr_start f + o) (Hp (fr_start f + o) ltac:(lia))) as (b & Hb & Hbyte).
  exists b. unfold user_load, user_byte. rewrite Ea, Hm. cbn [expect mbind option_bind]. rewrite outcome_bind_Ret, Ep. cbn [mbind option_bind].
  split; [by apply load_byte_at|]. by split.
Qed.

(** The physical address behind a user address. *)
Definition tab_phys (l : list UserMapping) (va : Z) : option Z := m ← mapping_at l va; m_phys m va.

Lemma user_byte_phys l h va : user_byte l h va = p ← tab_phys l va; byte_at h p.
Proof. unfold user_byte, tab_phys. by destruct (mapping_at l va). Qed.

Lemma fop_app {X} (R : X -> X -> Prop) (l1 l2 : list X) : ForallOrdPairs R (l1 ++ l2) ->
  ForallOrdPairs R l1 /\ ForallOrdPairs R l2 /\ forall x y, x ∈ l1 -> y ∈ l2 -> R x y.
Proof.
  induction l1 as [|a l1 IH]; cbn [app]; intros H.
  - split; [constructor|]. split; [done|]. by intros x y ?%not_elem_of_nil.
  - inversion H as [|? ? Ha H']; subst. destruct (IH H') as (H1 & H2 & H3). apply Forall_app in Ha as [Ha1 Ha2]. split; [by constructor|].
    split; [done|]. intros x y [->|Hx]%elem_of_cons Hy; [|by apply H3]. rewrite List.Forall_forall in Ha2. apply Ha2. by apply list_elem_of_In.
Qed.

Lemma m_phys_frame m va p : um_va m <= va < m_end m -> m_phys m va = Some p -> exists f, f ∈ um_frames m /\ in_frame f p.
Proof.
  intros Hva E. destruct (phys_of_some (um_frames m) (va - um_va m)) as (f & o & Hf & E' & Ho); [unfold m_end in *; lia|].
  unfold m_phys in E. rewrite E' in E. injection E as <-. exists f. split; [done|]. unfold in_frame. lia.
Qed.

(** Two user addresses share no byte of the memory. *)
Lemma tab_phys_inj l va va' p : ForallOrdPairs frame_dis (tab_frames l) -> tab_phys l va = Some p -> tab_phys l va' = Some p -> va = va'.
Proof.
  unfold tab_phys. intros HD E E'. destruct (mapping_at l va) as [m|] eqn:Em; [|done]. destruct (mapping_at l va') as [m'|] eqn:Em'; [|done].
  cbn [mbind option_bind] in *. destruct (mapping_at_some _ _ _ Em) as [Hin Hva], (mapping_at_some _ _ _ Em') as [Hin' Hva'].
  destruct (m_phys_frame _ _ _ Hva E) as (f & Hf & Hp), (m_phys_frame _ _ _ Hva' E') as (f' & Hf' & Hp').
  apply list_elem_of_split in Hin as (l1 & l2 & ->). unfold tab_frames in HD. rewrite fmap_app, fmap_cons, concat_app in HD. cbn [concat] in HD.
  destruct (fop_app _ _ _ HD) as (_ & HD2 & H12). destruct (fop_app _ _ _ HD2) as (HDm & _ & H23).
  assert (Hno : forall g g', in_frame g p -> in_frame g' p -> frame_dis g g' -> False) by (unfold in_frame, frame_dis; lia).
  apply elem_of_app in Hin' as [Hin'|[->|Hin']%elem_of_cons].
  - exfalso. apply (Hno f' f Hp' Hp), H12; [by apply (in_tab_frames _ m' l1)|]. apply elem_of_app. by left.
  - assert (va - um_va m = va' - um_va m); [|lia]. apply (phys_of_inj (um_frames m) _ _ p HDm); [lia|lia|done|done].
  - exfalso. apply (Hno f f' Hp Hp'), H23; [done|]. by apply (in_tab_frames _ m' l2).
Qed.

Lemma user_store_ok rest w l va b : minv rest w l -> accessible true l va 1 -> is_byte b ->
  exists w', user_store w tid va b = Ret w' /\ minv rest w' l /\ same_on rest (w_heap w) (w_heap w') /\
    (forall q, w_heap w' !! q = w_heap w !! q \/ exists p, tab_phys l va = Some p /\ q = word_of p) /\
    forall x, user_byte l (w_heap w') x = if decide (x = va) then Some b else user_byte l (w_heap w) x.
Proof.
  intros I Ha Hb. destruct (Ha va ltac:(lia)) as (m & Hm & Hfl). destruct (user_addr_ok _ _ _ _ _ _ I Hm Hfl) as (f & o & Hf & Ho & Ep & Ea).
  destruct (mapping_at_some _ _ _ Hm) as [Hin _]. assert (Hft : f ∈ tab_frames l) by (by apply (in_tab_frames _ m)).
  destruct I as [T Hw]. destruct (trel_frame _ _ _ _ _ _ f T ltac:(set_solver)) as [(_ & Hal & _) _].
  pose proof (frame_present _ _ _ _ _ _ f T ltac:(set_solver)) as Hp. set (p := fr_start f + o) in *.
  destruct (Hp p ltac:(unfold p; lia)) as [v Hv]. unfold user_store, store_byte, load, store. rewrite Ea. cbn [expect]. rewrite outcome_bind_Ret, Hv.
  cbn [expect]. rewrite !outcome_bind_Ret. eexists. split; [done|]. set (h' := <[_ := _]> (w_heap w)).
  assert (Hx : in_frame f (word_of p)) by (apply in_frame_word; [by apply mul8_page|unfold in_frame, p; lia]).
  assert (T' : trel (tab_frames l ++ rest) (set_heap w h') (tab_view l)) by (apply (trel_write _ _ _ _ _ _ f); [done|set_solver|done]).
  split; [by split|]. split.
  { intros g y Hg Hy. cbn [set_heap w_heap]. apply lookup_insert_ne. intros <-.
    apply elem_of_Permutation in Hft as (fs & Hfs).
    assert (T1 : trel (f :: fs ++ rest) w (tab_view l)) by (apply (trel_perm _ _ _ _ _ _ _ T); by rewrite Hfs).
    by apply (trel_apart _ _ _ _ _ _ _ g _ T1 ltac:(set_solver) Hy). }
  assert (Eva : tab_phys l va = Some p) by (unfold tab_phys; by rewrite Hm). split.
  { intros q. cbn [set_heap w_heap]. destruct (decide (q = word_of p)) as [->|Hq]; [right; by exists p|left]. by apply lookup_insert_ne. }
  intros x. rewrite !user_byte_phys. cbn [set_heap w_heap].
  destruct (tab_phys l x) as [q|] eqn:Eq; cbn [mbind option_bind].
  - unfold h'. rewrite (byte_at_store _ _ _ _ Hb Hv). case_decide as E1; case_decide as E2; try done; subst.
    + destruct E2. apply (tab_phys_inj l _ _ p); [|done|done]. apply (trel_frames _ _ _ _ _ _ _ T).
    + rewrite Eva in Eq. congruence.
  - rewrite decide_False; [done|]. intros ->. congruence.
Qed.

Lemma user_stores_ok rest w l va bs : minv rest w l -> accessible true l va (len bs) -> bytes bs ->
  exists w', user_stores w tid va bs = Ret w' /\ minv rest w' l /\ same_on rest (w_heap w) (w_heap w') /\
    (forall q, w_heap w' !! q = w_heap w !! q \/ exists x p, va <= x < va + len bs /\ tab_phys l x = Some p /\ q = word_of p) /\
    forall x, user_byte l (w_heap w') x = if decide (va <= x < va + len bs) then bs !! Z.to_nat (x - va) else user_byte l (w_heap w) x.
Proof.
  intros I Ha Hb. revert w va I Ha. induction Hb as [|b bs Hb Hbs IH]; intros w va I Ha.
  - exists w. split; [done|]. split; [done|]. split; [apply same_on_refl|]. split; [by left|]. intros x. rewrite decide_False; [done|]. unfold len. cbn. lia.
  - rewrite len_cons in Ha. pose proof (len_nonneg bs). destruct (user_store_ok rest w l va b I) as (w1 & E1 & I1 & S1 & G1 & B1).
    { intros x Hx. apply Ha. lia. } { done. }
    destruct (IH w1 (va + 1) I1) as (w2 & E2 & I2 & S2 & G2 & B2). { intros x Hx. apply Ha. lia. }
    exists w2. cbn [user_stores]. rewrite E1, outcome_bind_Ret. split; [done|]. split; [done|]. split; [by eapply same_on_trans|].
    split.
    { intros q. rewrite len_cons. destruct (G2 q) as [-> |(x & p & Hx & Hp & ->)]; [|right; exists x, p; split; [lia|done]].
      destruct (G1 q) as [-> |(p & Hp & ->)]; [by left|right]. exists va, p. split; [lia|done]. }
    intros x. rewrite B2, B1, len_cons. repeat case_decide; try lia; try done.
    + replace (Z.to_nat (x - va)) with (S (Z.to_nat (x - (va + 1)))) by lia. done.
    + subst x. by replace (va - va) with 0 by lia.
Qed.

(** ** Strings *)

(** The task sees the string [s], terminated by a zero, at [va]. *)
Definition user_cstr (l : list UserMapping) (h : heap) (va : Z) (s : list Z) : Prop :=
  0 <= va /\ va + len s < 2 ^ 64 /\ Forall (fun b => b <> 0) s /\ accessible false l va (len s + 1) /\
  forall i b, (s ++ [0]) !! i = Some b -> user_byte l h (va + Z.of_nat i) = Some b.

Lemma cstr_scan_ok rest w l va s s1 s2 n : minv rest w l -> user_cstr l (w_heap w) va s -> s = s1 ++ s2 ->
  len s <= MAX_ARG_LEN -> (length s2 < n)%nat -> cstr_scan n w tid va s1 = Ret (Ok s).
Proof.
  intros I (H0 & Hb & Hnz & Ha & Hs). revert s1 s2. induction n as [|n IH]; intros s1 s2 -> Hl Hn; [lia|]. cbn [cstr_scan].
  rewrite len_app in *. pose proof (len_nonneg s1). pose proof (len_nonneg s2). unfold wrap. rewrite Z.mod_small by lia.
  destruct (user_load_ok rest w l (va + len s1) I) as (b & -> & Eb & _). { intros x Hx. apply Ha. lia. }
  rewrite outcome_bind_Ret. destruct s2 as [|c s2].
  - specialize (Hs (length s1) 0). rewrite app_nil_r in Hs. rewrite list_lookup_middle in Hs by done. specialize (Hs eq_refl). unfold len in Eb.
    rewrite Eb in Hs. injection Hs as ->. by rewrite app_nil_r.
  - specialize (Hs (length s1) c). rewrite <- app_assoc in Hs. cbn [app] in Hs. rewrite list_lookup_middle in Hs by done. specialize (Hs eq_refl).
    unfold len in Eb. rewrite Eb in Hs. injection Hs as ->. apply Forall_app in Hnz as [_ [Hc _]%Forall_cons].
    rewrite (proj2 (Z.eqb_neq c 0)) by done. rewrite len_cons in *. pose proof (len_nonneg s2). destruct (Z.ltb_spec MAX_ARG_LEN (len s1 + 1)); [lia|].
    rewrite (IH (s1 ++ [c]) s2); [done|by rewrite <- app_assoc|lia|cbn [length] in *; lia].
Qed.

End Theory.

(** ** The pointers of a system call *)

Section Kernel.
Context {D A : Type} {FS : FrameSource A} {FL : FrameLaws A}.
Implicit Types (k : Kernel D A).

Lemma mrel_perm rest rest' (s : @msys A) abs TK : rest ≡ₚ rest' -> mrel rest s abs TK -> mrel rest' s abs TK.
Proof using. intros Hp [M1 M2 M3 M4 M5 M6 M7 M8]. split; try done. apply (fs_perm _ _ _ _ M8). by rewrite Hp. Qed.

(** The memory of one task of a consistent kernel. *)
Lemma kernel_minv extra free k tid task : kernel_ok extra free k -> om_get tid (t_map (kn_tasks k)) = Some task ->
  exists abs TK sh, let rest := all_frames (om_remove tid (t_map (kn_tasks k))) ++ extra in
    minv abs tid sh rest (kn_world k) (task_table task) /\ all_frames (t_map (kn_tasks k)) ++ extra ≡ₚ tab_frames (task_table task) ++ rest /\
    mrel (tab_frames (task_table task) ++ rest) (wsys (kn_world k)) abs TK /\
    forall t task', om_get t (t_map (kn_tasks k)) = Some task' -> exists sh, in_space abs t sh (task_table task').
Proof.
  intros [Hp _ _ [(abs & TK & frames & Hf & M & Hi) Ht]] Eg. destruct (Hi _ _ Eg) as [sh Hs]. exists abs, TK, sh. cbv zeta.
  assert (Hall : all_frames (t_map (kn_tasks k)) ++ extra ≡ₚ tab_frames (task_table task) ++ all_frames (om_remove tid (t_map (kn_tasks k))) ++ extra).
  { rewrite app_assoc. f_equiv. by rewrite (om_remove_perm tid task _ Eg) at 1. }
  split; [|split; [done|split; [|done]]].
  - apply (in_space_minv _ TK _ _ frames); [done|by rewrite Hf|done|]. by apply (Ht tid).
  - apply (mrel_perm frames); [by rewrite Hf|done].
Qed.

Lemma frames_size_ok frames acc : Forall frame_ok frames -> 0 <= acc -> acc + frames_total frames < 2 ^ 64 ->
  frames_size acc frames = Ret (acc + frames_total frames).
Proof.
  intros HF. revert acc. induction HF as [|f frames Hf HF IH]; intros acc Ha Hb; cbn [frames_size frames_total foldr] in *; [by rewrite Z.add_0_r|].
  fold (frames_total frames) in *. pose proof (total_pos _ HF). destruct Hf as (? & ? & ? & ? & ?). unfold PAGE_SIZE in *.
  unfold usize_add. destruct (Z.ltb_spec (acc + fr_size f) (2 ^ 64)); [|lia]. rewrite outcome_bind_Ret, IH by lia. f_equal. lia.
Qed.

Lemma find_mapping_ok l addr : Forall mapping_wf l -> 0 <= addr ->
  find_mapping l addr = Ret (match mapping_at l addr with Some _ => Ok tt | None => Err EFAULT end).
Proof.
  intros HF H0. induction HF as [|m l Hm _ IH]; [done|]. cbn [find_mapping]. destruct Hm as [HF Ha (Hr & _) Hs]. pose proof (total_pos _ HF). unfold m_end in *.
  rewrite frames_size_ok by (done || lia). rewrite outcome_bind_Ret. unfold usize_add.
  destruct (Z.ltb_spec (um_va m + (0 + frames_total (um_frames m))) (2 ^ 64)); [|lia]. rewrite outcome_bind_Ret, Z.add_0_l.
  unfold mapping_at. cbn [List.find]. unfold in_mapping at 1, m_end. destruct (_ && _); [done|exact IH].
Qed.

Lemma validate_address_ok extra free k tid task addr : kernel_ok extra free k -> t_current (kn_tasks k) = Some tid ->
  om_get tid (t_map (kn_tasks k)) = Some task -> 0 <= addr ->
  validate_user_address k addr = Ret (match mapping_at (task_table task) addr with Some _ => Ok tt | None => Err EFAULT end).
Proof.
  intros Hk Hc Eg H0. unfold validate_user_address. rewrite Hc, Eg. apply find_mapping_ok; [|done]. by destruct (mo_tabs _ _ _ (ko_mem _ _ _ Hk) _ _ Eg) as [[Hw _] _].
Qed.

(** What [validate_user_range] accepts. *)
Definition ends_mapped (l : list UserMapping) (addr n : Z) : bool :=
  (n =? 0) || (addr + n <? 2 ^ 64) && bool_decide (is_Some (mapping_at l addr)) && bool_decide (is_Some (mapping_at l (addr + n - 1))).

Lemma validate_range_ok extra free k tid task addr n : kernel_ok extra free k -> t_current (kn_tasks k) = Some tid ->
  om_get tid (t_map (kn_tasks k)) = Some task -> 0 <= addr -> 0 <= n ->
  validate_user_range k addr n = Ret (if ends_mapped (task_table task) addr n then Ok tt else Err EFAULT).
Proof.
  intros Hk Hc Eg H0 Hn. unfold validate_user_range, ends_mapped, checked_add. destruct (Z.eqb_spec n 0); [done|]. cbn [orb].
  destruct (addr + n <? 2 ^ 64); [|done]. cbn [andb]. rewrite (validate_address_ok extra free k tid task) by done. rewrite outcome_bind_Ret.
  destruct (mapping_at (task_table task) addr); [|done]. rewrite bool_decide_true by done. unfold usize_sub.
  destruct (Z.leb_spec 1 (addr + n)); [|lia]. rewrite outcome_bind_Ret, (validate_address_ok extra free k tid task) by (done || lia).
  by destruct (mapping_at _ (addr + n - 1)); [rewrite bool_decide_true|rewrite bool_decide_false by (by intros [])].
Qed.

Lemma accessible_first write l va n : accessible write l va n -> 0 < n -> is_Some (mapping_at l va).
Proof. intros Ha Hn. destruct (Ha va ltac:(lia)) as (m & -> & _). done. Qed.

Lemma read_cstr_user extra free k tid task ptr s : kernel_ok extra free k -> t_current (kn_tasks k) = Some tid ->
  om_get tid (t_map (kn_tasks k)) = Some task -> user_cstr (task_table task) (w_heap (kn_world k)) ptr s -> len s <= MAX_ARG_LEN ->
  read_user_cstr k ptr = Ret (if utf8_valid s then Ok s else Err EINVAL).
Proof.
  intros Hk Hc Eg Hs Hl. destruct (kernel_minv _ _ _ _ _ Hk Eg) as (abs & TK & sh & I & _). pose proof (len_nonneg s).
  destruct (accessible_first _ _ _ _ (proj1 (proj2 (proj2 (proj2 Hs)))) ltac:(lia)) as [m Hm]. unfold read_user_cstr.
  rewrite (validate_address_ok extra free k tid task) by (done || apply Hs). rewrite Hm, outcome_bind_Ret, Hc.
  rewrite (cstr_scan_ok abs tid sh _ _ _ ptr s [] s _ I Hs eq_refl Hl) by (unfold len, MAX_ARG_LEN in *; lia). rewrite outcome_bind_Ret. done.
Qed.

(** The task sees a null-terminated array of pointers to the strings at [va]. *)
Inductive user_strings (l : list UserMapping) (h : heap) : Z -> list (list Z) -> Prop :=
| strings_end va p : va mod 8 = 0 -> 0 <= va < 2 ^ 64 - 8 -> accessible false l va 1 -> tab_phys l va = Some p -> h !! p = Some 0 -> user_strings l h va []
| strings_next va p item s strs : va mod 8 = 0 -> 0 <= va < 2 ^ 64 - 8 -> accessible false l va 1 -> tab_phys l va = Some p -> h !! p = Some item -> item <> 0 ->
    user_cstr l h item s -> user_strings l h (va + 8) strs -> user_strings l h va (s :: strs).

Lemma load_word_ok abs0 tid sh rest (w : @world A) l va p x : minv abs0 tid sh rest w l -> va mod 8 = 0 -> accessible false l va 1 ->
  tab_phys l va = Some p -> w_heap w !! p = Some x -> user_load_word w tid va = Ret x.
Proof.
  intros I Hm Ha Ep Ex. destruct (Ha va ltac:(lia)) as (m & Em & Hfl). destruct (user_addr_ok _ _ _ _ _ _ _ _ _ I Em Hfl) as (f & o & _ & _ & Ep' & Ea).
  unfold tab_phys in Ep. rewrite Em in Ep. cbn [mbind option_bind] in Ep. rewrite Ep' in Ep. injection Ep as <-.
  unfold user_load_word. rewrite Hm, Ea. cbn [Z.eqb expect]. rewrite outcome_bind_Ret. unfold load. by rewrite Ex.
Qed.

Lemma read_strings_user extra free k tid task va strs fuel : kernel_ok extra free k -> t_current (kn_tasks k) = Some tid ->
  om_get tid (t_map (kn_tasks k)) = Some task -> user_strings (task_table task) (w_heap (kn_world k)) va strs ->
  Forall (fun s => len s <= MAX_ARG_LEN /\ utf8_valid s = true) strs -> (length strs < fuel)%nat ->
  read_user_string_array fuel k va = Ret (Ok strs).
Proof.
  intros Hk Hc Eg Hs Hg Hf. destruct (kernel_minv _ _ _ _ _ Hk Eg) as (abs & TK & sh & I & _).
  assert (Hm : is_Some (mapping_at (task_table task) va) /\ 0 <= va) by (inversion Hs; subst; (split; [by apply (accessible_first false _ _ 1)|lia])).
  destruct Hm as [[m Hm] H0]. unfold read_user_string_array. rewrite (validate_address_ok extra free k tid task), Hm, outcome_bind_Ret, Hc by done.
  assert (Hscan : forall out, array_scan fuel k tid va out = Ret (Ok (out ++ strs))).
  { clear H0 Hm m. revert va fuel Hs Hf. induction Hg as [|s strs [Hl Hu] Hg IH]; intros va [|fuel] Hs Hf out; cbn [length] in Hf; try lia; cbn [array_scan];
      inversion Hs as [? p Hm Hb Ha Ep Ex|? p item s' strs' Hm Hb Ha Ep Ex Hne Hc' Hs']; subst.
    - rewrite (load_word_ok abs tid sh _ _ _ va p 0 I Hm Ha Ep Ex), outcome_bind_Ret. by rewrite app_nil_r.
    - rewrite (load_word_ok abs tid sh _ _ _ va p item I Hm Ha Ep Ex), outcome_bind_Ret. rewrite (proj2 (Z.eqb_neq item 0)) by done.
      rewrite (read_cstr_user extra free k tid task item s) by done. rewrite outcome_bind_Ret, Hu. unfold wrap. rewrite Z.mod_small by lia.
      rewrite (IH (va + 8) fuel Hs' ltac:(lia)), <- app_assoc. done. }
  apply Hscan.
Qed.

(** *** The arguments on a new program's stack *)

Section Stack.
Context (f : Frame) (l : list UserMapping) (h : heap).
Hypothesis Hwf : tab_wf l.
Hypothesis Hstack : mkMapping USER_STACK_LOWER_BOUND [f] stack_flags ∈ l.

Abbreviation LB := USER_STACK_LOWER_BOUND.

Lemma stack_mapped va : LB <= va < LB + fr_size f ->
  mapping_at l va = Some (mkMapping LB [f] stack_flags) /\ tab_phys l va = Some (fr_start f + (va - LB)).
Proof using Hwf Hstack.
  intros Hva. assert (Em : mapping_at l va = Some (mkMapping LB [f] stack_flags)).
  { apply mapping_at_elem; [apply Hwf|done|]. unfold m_end. cbn [um_va um_frames frames_total foldr]. lia. }
  split; [done|]. unfold tab_phys. rewrite Em. cbn. destruct (Z.ltb_spec (va - LB) (fr_size f)); [done|lia].
Qed.

Lemma stack_accessible va n : LB <= va -> va + n <= LB + fr_size f -> accessible false l va n.
Proof using Hwf Hstack. intros H1 H2 x Hx. eexists. split; [apply stack_mapped; lia|]. reflexivity. Qed.

Lemma stack_end : LB + fr_size f < 2 ^ 64.
Proof using Hwf Hstack.
  destruct Hwf as [HF _]. rewrite Forall_forall in HF. destruct (mw_some _ (HF _ Hstack)) as [_ H]. unfold m_end in H. cbn in H. lia.
Qed.

Lemma stack_cstr va s : cstr_at f h va s -> nul_free s -> user_cstr l h va s.
Proof using Hwf Hstack.
  intros (Hlo & Hhi & Hb) Hn.  pose proof stack_end. pose proof (len_nonneg s). assert (0 < LB) by done.
  split; [lia|]. split; [lia|]. split; [done|]. split; [apply stack_accessible; lia|].
  intros i b Hi. pose proof (lookup_lt_Some _ _ _ Hi) as Hl. rewrite length_app in Hl. cbn in Hl. unfold len in *. rewrite user_byte_phys.
  destruct (stack_mapped (va + Z.of_nat i)) as [_ ->]; [lia|]. cbn [mbind option_bind]. rewrite <- (Hb i b Hi). f_equal. lia.
Qed.

Lemma stack_strings strs va : Forall nul_free strs -> args_at f h va strs -> va mod 8 = 0 -> LB <= va -> va + 8 * (len strs + 1) <= LB + fr_size f ->
  user_strings l h va strs.
Proof using Hwf Hstack.
  intros Hn. revert va. pose proof stack_end. assert (0 < LB) by done. induction Hn as [|s strs Hs Hn IH]; intros va [Ha Hz] Hm Hlo Hhi.
  - unfold len in *. cbn in *. rewrite Z.add_0_r in Hz. apply (strings_end _ _ _ (fr_start f + (va - LB))); [done|lia|apply stack_accessible; lia|apply stack_mapped; lia|done].
  - rewrite len_cons in *. pose proof (len_nonneg strs). destruct (Ha O s eq_refl) as (p & Hp & Hc). cbn in Hp. rewrite Z.add_0_r in Hp.
    apply (strings_next _ _ _ (fr_start f + (va - LB)) p); [done|lia|apply stack_accessible; lia|apply stack_mapped; lia|done| |by apply stack_cstr|].
    + destruct Hc as [Hc _]. lia.
    + apply IH; [|by apply mod8_add|lia|lia]. split.
      * intros i t Hi. replace (va + 8 + 8 * Z.of_nat i) with (va + 8 * Z.of_nat (S i)) by lia. by apply Ha.
      * replace (va + 8 + 8 * len strs) with (va + 8 * (1 + len strs)) by lia. done.
Qed.

(** Both arrays of the initial stack. *)
Lemma layout_strings sp argv envp auxv : stack_layout f h sp argv envp auxv -> Forall nul_free argv -> Forall nul_free envp ->
  user_strings l h (sp + 8) argv /\ user_strings l h (sp + 8 + 8 * (len argv + 1)) envp.
Proof using Hwf Hstack.
  intros ((Hlo & Hhi & Hal) & _ & Ha & He & _) Hna Hne. unfold pointer_words, STACK_ALIGN in *. 
  pose proof (len_nonneg argv). pose proof (len_nonneg envp). pose proof (len_nonneg auxv).
  assert (Hm : sp mod 8 = 0) by (by apply mod16_mod8).
  split; apply stack_strings; try done; try lia.
Qed.

End Stack.

End Kernel.

(** C37. The check of a user buffer. For the running task of a consistent kernel,
    [validate_user_range] does not panic and answers [Ok] exactly for an empty
    range and for one that does not wrap around and whose first and last bytes
    lie in mappings of the task; the error is [EFAULT]. The bytes between and
    the permissions of the pages play no part. *)
Theorem validate_user_range_exact {D A} {FS : FrameSource A} {FL : FrameLaws A} extra free (k : Kernel D A) tid task addr n :
  kernel_ok extra free k -> t_current (kn_tasks k) = Some tid -> om_get tid (t_map (kn_tasks k)) = Some task -> 0 <= addr -> 0 <= n ->
  exists r, validate_user_range k addr n = Ret r /\ (r = Ok tt \/ r = Err EFAULT) /\
    (r = Ok tt <-> n = 0 \/ addr + n < 2 ^ 64 /\ is_Some (mapping_at (task_table task) addr) /\ is_Some (mapping_at (task_table task) (addr + n - 1))).
Proof.
  intros Hk Hc Eg H0 Hn. rewrite (validate_range_ok extra free k tid task) by done. unfold ends_mapped. eexists. split; [done|].
  destruct (Z.eqb_spec n 0) as [->|Hne]; cbn [orb]; [by split; [left|split; [left|]]|].
  destruct (Z.ltb_spec (addr + n) (2 ^ 64)) as [Hl|Hl]; cbn [andb].
  - repeat case_bool_decide; cbn [andb]; (split; [by (left + right)|]); (split; [done || (intros _; right; by split)|]); intros [?|(? & ? & ?)]; done || lia.
  - split; [by right|]. split; [done|]. lia.
Qed.

(** Strings that [execve] accepts. *)
Definition arg_ok (s : list Z) : Prop := nul_free s /\ len s <= MAX_ARG_LEN /\ utf8_valid s = true.

Lemma args_ok strs : Forall arg_ok strs -> Forall nul_free strs /\ Forall (fun s => len s <= MAX_ARG_LEN /\ utf8_valid s = true) strs.
Proof. intros H. split; (apply (Forall_impl _ _ _ H)); intros s (H1 & H2 & H3); done. Qed.


(** ** Examples *)

#[local] Existing Instance pool_laws.

Lemma validate_user_range_witness : exists free (k : Kernel unit BuddyAllocator),
  kernel_ok [] free k /\ exists r, validate_user_range k 0x1000 8 = Ret r.
Proof.
  destruct ex_kernel_ok as (free & k & Hk & Hc). destruct (proj2 (ko_procs _ _ _ Hk) _ Hc) as (task & Eg & _).
  destruct (validate_user_range_exact [] free k 1 task 0x1000 8) as (r & E & _).
  - exact Hk.
  - exact Hc.
  - exact Eg.
  - lia.
  - lia.
  - exists free, k. split; [exact Hk|]. exists r. exact E.
Defined.

