(* ===== verification/Syscall.v ===== *)
(** * Syscall: system calls and traps ([src/syscall.rs],
      [src/arch/riscv64/trap.rs], [src/driver/reboot.rs])

    [handle] decodes a system call and runs it; [trap_handler] is what the
    kernel does between a trap and the return to a task. The memory, the tasks
    and the open files are those of the components the calls lead to; a request
    to the firmware is returned as a value. *)

From stdpp Require Import gmap.
From S2P Require Import Prelude OrdMap Buddy FrameAlloc BitFields Abi PageTable SpaceClone SpaceManager MemoryMap MapTable MapTheory.
From S2P Require Import MapOps MapCalls UserMemory Fork Bytes ByteMem InitStack Elf LoadElf Trie Paths MinixDir Devices Vfs DevFs MinixVfs.
From S2P Require Import IdAlloc Tasks Processes Clone Exec Binfmt UserAccess.

(** ** Numbers *)

(** [as i32] and [as isize] of an unsigned value. *)
Definition as_signed (w x : Z) : Z := let x := wrap w x in if x <? 2 ^ (w - 1) then x else x - 2 ^ w.

(** [errno.0 as u64]. *)
Definition errno_value (errno : Z) : Z := wrap 64 errno.

Definition errno_of (err : Error) : Z :=
  match err with
  | NoTidAvailable => EAGAIN
  | ErrMem OutOfMemory => ENOMEM
  | ErrProc _ => ESRCH
  | _ => EINVAL
  end.

Definition binfmt_errno (err : BinError) : Z :=
  match err with
  | NoAccess => EACCES
  | BinFs err => - FsError_errno err
  | UnsupportedBinfmt => ENOEXEC
  | ExecFailed => ENOENT
  end.

Definition fd_errno (err : FdError) : Z :=
  match err with
  | NoTask => errno_value ESRCH
  | BadFd | NotReadable | NotWritable => errno_value EBADF
  | FdIo err => errno_value (- FsError_errno err)
  end.

(** ** Requests to the firmware *)

Inductive Power : Set := SystemReset (reset_type reset_reason : Z) | HartStop.

Definition ResetType_SHUTDOWN : Z := 0.
Definition ResetType_COLD_REBOOT : Z := 1.
Definition ResetReason_NONE : Z := 0.
Definition ResetReason_SYS_FAIL : Z := 1.

(** [reboot]: the request for a known command; the result is whether there is one. *)
Definition reboot (command : Z) : option Power :=
  if command =? 0x4321fedc then Some (SystemReset ResetType_SHUTDOWN ResetReason_NONE)
  else if command =? 0x01234567 then Some (SystemReset ResetType_COLD_REBOOT ResetReason_NONE)
  else if command =? 0xcdef0123 then Some HartStop
  else None.

(** ** Memory calls on the table of tasks *)

Section Ops.
Context {D A : Type} {FS : FrameSource A}.
Implicit Types (m : Machine D A) (k : Kernel D A) (w : @world A).

(** [memory_map] works on the memory sets of the tasks. *)
Definition memory_sets (tasks : list (Z * Task D)) : list (Z * MemorySet) := (fun e => (e.1, t_memory_set e.2)) <$> tasks.

Definition put_sets (self : Tasks D) (sets : list (Z * MemorySet)) : Tasks D :=
  mkTasks ((fun e : Z * Task D => (e.1, match om_get e.1 sets with Some ms => set_memory e.2 ms | None => e.2 end)) <$> t_map self)
    (t_cursor self) (t_current self).

(** [current_tid().and_then(|tid| memory_map::f(tid, ...))]. *)
Definition memory_call {T} k (f : world -> list (Z * MemorySet) -> Z -> outcome (result Z T * world * list (Z * MemorySet)))
    : outcome (result Z T * Kernel D A) :=
  match current_tid k with
  | Err e => mret (Err e, k)
  | Ok tid =>
      '(r, w, sets) ← f (kn_world k) (memory_sets (t_map (kn_tasks k))) tid;
      mret (r, mkKernel (put_sets (kn_tasks k) sets) (kn_tids k) w)
  end.

(** ** Buffers *)

(** The bytes of a user buffer, as the slice the calls on files get. What is not
    mapped has no bytes; touching it faults below. *)
Definition user_peek w (tid va : Z) : Z :=
  match user_addr w tid false va with Some p => default 0 (byte_at (w_heap w) p) | None => 0 end.

Definition user_slice k (ptr n : Z) : list Z :=
  match t_current (kn_tasks k) with
  | Some tid => user_peek (kn_world k) tid <$> seqZ ptr n
  | None => replicate (Z.to_nat n) 0
  end.

(** The first [n] bytes of the buffer are read. *)
Fixpoint user_touch (n : nat) w (tid va : Z) : outcome unit :=
  match n with O => mret tt | S n => _ ← user_load w tid va; user_touch n w tid (va + 1) end.

(** [(va as *mut T).write(value)] for a type of alignment [align]. *)
Definition user_write w (tid va align : Z) (bs : list Z) : outcome world :=
  if va mod align =? 0 then user_stores w tid va bs else Panic.

(** ** The calls *)

(** [SyscallResult]. *)
Inductive SyscallResult : Set := Return (value next : Z) | Yield.

(** Sizes of [WaitStatus] and [ResourceUsage]. *)
Definition WAIT_STATUS_SIZE : Z := 4.
Definition RESOURCE_USAGE_SIZE : Z := 144.

Definition WaitStatus_exited (exit_code : Z) : Z := wrap 32 (Z.shiftl (Z.land (wrap 32 exit_code) 0xff) 8).

Context (manager : DeviceManager D) (vfs : Vfs D) (binfmts : Trie Z (Handler (Machine D A))).

Definition Handled : Type := SyscallResult * option Power * Machine D A.

(** [SyscallResult::Return(value, sepc + 4)]. *)
Definition returns (sepc : Z) (power : option Power) m (value : Z) : outcome Handled :=
  next ← u64_add sepc 4;
  mret (Return value next, power, m).

Definition with_kernel m k : Machine D A := mkMachine k (mc_devs m).

Definition sys_read m (sepc fd ptr n : Z) : outcome Handled :=
  let k := mc_kernel m in
  valid ← validate_user_range k ptr n;
  match valid with
  | Err errno => returns sepc None m (errno_value errno)
  | Ok _ =>
      '(r, dw) ← read_fd (kn_tasks k) fd (user_slice k ptr n) (mc_devs m);
      match r, t_current (kn_tasks k) with
      | Err err, _ => returns sepc None (mkMachine k dw) (fd_errno err)
      | Ok _, None => Panic
      | Ok (size, buf), Some tid =>
          w ← user_stores (kn_world k) tid ptr (take (Z.to_nat size) buf);
          returns sepc None (mkMachine (with_world k w) dw) size
      end
  end.

Definition sys_write m (sepc fd ptr n : Z) : outcome Handled :=
  let k := mc_kernel m in
  valid ← validate_user_range k ptr n;
  match valid with
  | Err errno => returns sepc None m (errno_value errno)
  | Ok _ =>
      '(r, dw) ← write_fd (kn_tasks k) fd (user_slice k ptr n) (mc_devs m);
      match r, t_current (kn_tasks k) with
      | Err err, _ => returns sepc None (mkMachine k dw) (fd_errno err)
      | Ok _, None => Panic
      | Ok size, Some tid =>
          _ ← user_touch (Z.to_nat size) (kn_world k) tid ptr;
          returns sepc None (mkMachine k dw) size
      end
  end.

Definition sys_exit m (code : Z) : outcome Handled :=
  let k := mc_kernel m in
  tasks ← exit (kn_tasks k) (as_signed 32 code);
  mret (Yield, None, with_kernel m (mkKernel tasks (kn_tids k) (kn_world k))).

(** A result of [wait4] written to [ptr], when [wanted]. *)
Definition put_result k (wanted : bool) (ptr size align : Z) (bs : list Z) : outcome (result Z (Kernel D A)) :=
  if wanted then
    valid ← validate_user_range k ptr size;
    match valid, t_current (kn_tasks k) with
    | Err errno, _ => mret (Err errno)
    | Ok _, None => Panic
    | Ok _, Some tid => w ← user_write (kn_world k) tid ptr align bs; mret (Ok (with_world k w))
    end
  else mret (Ok k).

Definition sys_wait4 m (sepc tid wait_status options resource_usage : Z) : outcome Handled :=
  let k := mc_kernel m in
  let '(r, tasks) := wait4 (kn_tasks k) (as_signed 64 tid) (WaitOptions_nohang (wrap 32 options)) in
  let k := mkKernel tasks (kn_tids k) (kn_world k) in
  match r with
  | None => mret (Yield, None, with_kernel m k)
  | Some result =>
      let found := negb (wr_tid result =? 0) in
      r ← put_result k (found && negb (wait_status =? 0)) wait_status WAIT_STATUS_SIZE 4
            (to_le_bytes 4 (WaitStatus_exited (wr_exit_code result)));
      match r with
      | Err errno => returns sepc None (with_kernel m k) (errno_value errno)
      | Ok k =>
          r ← put_result k (found && negb (resource_usage =? 0)) resource_usage RESOURCE_USAGE_SIZE 8
                (replicate (Z.to_nat RESOURCE_USAGE_SIZE) 0);
          match r with
          | Err errno => returns sepc None (with_kernel m k) (errno_value errno)
          | Ok k => returns sepc None (with_kernel m k) (wr_tid result)
          end
      end
  end.

Definition sys_reboot m (sepc magic magic2 command : Z) : outcome Handled :=
  if negb (magic =? 0xfee1dead) || negb (magic2 =? 0x28121969) then returns sepc None m (errno_value EINVAL)
  else returns sepc (reboot command) m (errno_value EINVAL).

(** The value of a memory call. *)
Definition memory_value (r : result Z Z) : Z := match r with Ok va => va | Err errno => errno_value errno end.

Definition sys_mmap m (sepc addr length prot flags fd offset : Z) : outcome Handled :=
  '(r, k) ← memory_call (mc_kernel m) (fun w sets tid => mmap w sets tid addr length prot flags (as_signed 64 fd) offset);
  returns sepc None (with_kernel m k) (memory_value r).

Definition sys_munmap m (sepc addr length : Z) : outcome Handled :=
  '(r, k) ← memory_call (mc_kernel m) (fun w sets tid => munmap w sets tid addr length);
  returns sepc None (with_kernel m k) (match r with Ok _ => 0 | Err errno => errno_value errno end).

Definition sys_mremap m (sepc old_address old_size new_size flags new_address : Z) : outcome Handled :=
  '(r, k) ← memory_call (mc_kernel m) (fun w sets tid => mremap w sets tid old_address old_size new_size flags new_address);
  returns sepc None (with_kernel m k) (memory_value r).

Definition sys_clone m (sepc : Z) (frame : list Z) : outcome Handled :=
  '(r, k) ← clone_task (mc_kernel m) frame sepc;
  returns sepc None (with_kernel m k) (match r with Ok child => child | Err err => errno_value (errno_of err) end).

(** [fuel] bounds the length of the arrays and the depth of scripts; [sstatus]
    is the register's value when the loader reads it. *)
Definition sys_execve (fuel : nat) (sstatus : Z) m (sepc path_ptr argv_ptr envp_ptr : Z) : outcome Handled :=
  let k := mc_kernel m in
  path ← read_user_cstr k path_ptr;
  match path with
  | Err errno => returns sepc None m (errno_value errno)
  | Ok path =>
      argv ← read_user_string_array fuel k argv_ptr;
      match argv with
      | Err errno => returns sepc None m (errno_value errno)
      | Ok argv =>
          envp ← read_user_string_array fuel k envp_ptr;
          match envp with
          | Err errno => returns sepc None m (errno_value errno)
          | Ok envp =>
              match current_tid k with
              | Err errno => returns sepc None m (errno_value errno)
              | Ok tid =>
                  '(r, m) ← route_at manager vfs sstatus fuel binfmts m tid (bytes_str path) argv envp;
                  match r with
                  | Ok _ => mret (Yield, None, m)
                  | Err err => returns sepc None m (errno_value (binfmt_errno err))
                  end
              end
          end
      end
  end.

(** [trap_context[A0_INDEX + i]]: the register [a<i>] of the saved ones. *)
Definition arg (frame : list Z) (i : nat) : Z := nth (A0_INDEX + i) frame 0.

Definition handle (fuel : nat) (sstatus sepc : Z) (frame : list Z) m : outcome Handled :=
  let arg := arg frame in
  let number := arg 7%nat in
  if number =? Syscall_READ then sys_read m sepc (arg 0%nat) (arg 1%nat) (arg 2%nat)
  else if number =? Syscall_WRITE then sys_write m sepc (arg 0%nat) (arg 1%nat) (arg 2%nat)
  else if number =? Syscall_EXIT then sys_exit m (arg 0%nat)
  else if number =? Syscall_WAIT4 then sys_wait4 m sepc (arg 0%nat) (arg 1%nat) (arg 2%nat) (arg 3%nat)
  else if number =? Syscall_REBOOT then sys_reboot m sepc (arg 0%nat) (arg 1%nat) (arg 2%nat)
  else if number =? Syscall_MMAP then sys_mmap m sepc (arg 0%nat) (arg 1%nat) (arg 2%nat) (arg 3%nat) (arg 4%nat) (arg 5%nat)
  else if number =? Syscall_MUNMAP then sys_munmap m sepc (arg 0%nat) (arg 1%nat)
  else if number =? Syscall_MREMAP then sys_mremap m sepc (arg 0%nat) (arg 1%nat) (arg 2%nat) (arg 3%nat) (arg 4%nat)
  else if number =? Syscall_CLONE then sys_clone m sepc frame
  else if number =? Syscall_EXECVE then sys_execve fuel sstatus m sepc (arg 0%nat) (arg 1%nat) (arg 2%nat)
  else returns sepc None m (errno_value ENOSYS).

(** ** Traps *)

Definition INTERRUPT_MASK : Z := - 2 ^ 63.

Definition Interrupt_SUPERVISOR_TIMER : Z := Z.lor INTERRUPT_MASK 5.
Definition Interrupt_SUPERVISOR_EXTERNAL : Z := Z.lor INTERRUPT_MASK 9.

Definition Exception_INSTRUCTION_ACCESS_FAULT : Z := 1.
Definition Exception_ILLEGAL_INSTRUCTION : Z := 2.
Definition Exception_BREAKPOINT : Z := 3.
Definition Exception_LOAD_ACCESS_FAULT : Z := 5.
Definition Exception_STORE_ACCESS_FAULT : Z := 7.
Definition Exception_U_MODE_ECALL : Z := 8.
Definition Exception_S_MODE_ECALL : Z := 9.
Definition Exception_M_MODE_ECALL : Z := 11.
Definition Exception_INSTRUCTION_PAGE_FAULT : Z := 12.
Definition Exception_LOAD_PAGE_FAULT : Z := 13.
Definition Exception_STORE_PAGE_FAULT : Z := 15.

Inductive Trap : Set := TrapException (e : Z) | TrapInterrupt (i : Z).

(** [Trap::from] of [scause as i64], and back. *)
Definition Trap_from (value : Z) : Trap := if 0 <=? value then TrapException value else TrapInterrupt value.
Definition Trap_into (trap : Trap) : Z := match trap with TrapException i | TrapInterrupt i => i end.

(** How a trap ends: back in the interrupted task, with these registers; in the
    task the scheduler restores ([None]: it waits for a task); or nowhere. *)
Inductive TrapEnd : Type := Resume (frame : list Z) (sepc : Z) | Restore (ctx : option TrapContext) | Halt.

Definition Trapped : Type := TrapEnd * option Power * Machine D A.

Definition switch_to m : outcome Trapped :=
  let k := mc_kernel m in
  '(ctx, tasks) ← switch (kn_tasks k);
  mret (Restore ctx, None, with_kernel m (mkKernel tasks (kn_tids k) (kn_world k))).

(** The next timer interrupt, set here, is not part of the state. *)
Definition trap_handler (fuel : nat) (scause sepc sstatus satp : Z) (frame : list Z) m : outcome Trapped :=
  let k := mc_kernel m in
  let fails := mret (Resume frame sepc, Some (SystemReset ResetType_SHUTDOWN ResetReason_SYS_FAIL), m) in
  let skips := next ← u64_add sepc 4; mret (Resume frame next, None, m) in
  match Trap_from (as_signed 64 scause) with
  | TrapInterrupt i =>
      if i =? Interrupt_SUPERVISOR_TIMER then
        switch_to (with_kernel m (mkKernel (save_current (kn_tasks k) frame sepc sstatus satp) (kn_tids k) (kn_world k)))
      else if i =? Interrupt_SUPERVISOR_EXTERNAL then mret (Resume frame sepc, None, m)
      else mret (Halt, None, m)
  | TrapException e =>
      if e =? Exception_U_MODE_ECALL then
        '(r, power, m) ← handle fuel sstatus sepc frame m;
        match r with
        | Return value next => mret (Resume (<[A0_INDEX := value]> frame) next, power, m)
        | Yield => switch_to m
        end
      else if e =? Exception_BREAKPOINT then skips
      else if (e =? Exception_S_MODE_ECALL) || (e =? Exception_M_MODE_ECALL) then skips
      else if e =? Exception_ILLEGAL_INSTRUCTION then fails
      else if (e =? Exception_LOAD_ACCESS_FAULT) || (e =? Exception_LOAD_PAGE_FAULT)
           || (e =? Exception_STORE_ACCESS_FAULT) || (e =? Exception_INSTRUCTION_ACCESS_FAULT) then fails
      else mret (Halt, None, m)
  end.

End Ops.

(** ** The kernel between two tasks *)

Lemma om_get_map {V W} (f : Z -> V -> W) (k : Z) (m : list (Z * V)) : om_get k ((fun e => (e.1, f e.1 e.2)) <$> m) = f k <$> om_get k m.
Proof.
  induction m as [|[k' v] m IH]; [done|]. cbn [fmap list_fmap fst snd om_get]. destruct (cmp k k') eqn:E; [|done|exact IH].
  apply cmp_eq in E as ->. done.
Qed.

Lemma om_ok_map {V W} (f : Z -> V -> W) (m : list (Z * V)) : om_ok m -> om_ok ((fun e => (e.1, f e.1 e.2)) <$> m).
Proof.
  unfold om_ok. induction 1 as [|e m Hm IH Hf]; cbn [fmap list_fmap]; constructor; [done|]. clear - Hf.
  induction Hf; cbn [fmap list_fmap]; constructor; done.
Qed.

Section Kernel.
Context {D A : Type} {FS : FrameSource A} {FL : FrameLaws A}.
Implicit Types (m : Machine D A) (k : Kernel D A) (w : @world A).

(** [kernel_ok] without the task that runs. *)
Record kernel_base (extra : list Frame) (free : Z -> bool) k : Prop := {
  kb_tree : tree_ok (t_map (kn_tasks k));
  kb_tids : tids_rep (kn_tids k) free;
  kb_used : forall tid task, om_get tid (t_map (kn_tasks k)) = Some task -> 1 <= tid < TID_MAX /\ free tid = false;
  kb_mem : mem_ok extra (t_map (kn_tasks k)) (kn_world k)
}.

Lemma kernel_ok_base extra free k : kernel_ok extra free k <-> kernel_base extra free k /\ current_ok (kn_tasks k).
Proof. split; [intros [[Ht Hc] H2 H3 H4]; split; [by split|done]|intros [[H1 H2 H3 H4] Hc]; split; [by split|done..]]. Qed.

Lemma base_update extra free k tid g : kernel_base extra free k -> (forall task, t_memory_set (g task) = t_memory_set task) ->
  tree_ok (om_modify g tid (t_map (kn_tasks k))) -> kernel_base extra free (mkKernel (update (kn_tasks k) tid g) (kn_tids k) (kn_world k)).
Proof.
  intros [H1 H2 H3 H4] Hg Ht. split; cbn [kn_tasks kn_tids kn_world update t_map]; [done|done| |apply mem_ok_modify; [apply H1|done|done]].
  intros t task. rewrite om_get_modify by apply H1. case_decide; [subst t|by apply H3].
  destruct (om_get tid _) as [task0|] eqn:E; [|done]. intros _. by apply (H3 _ task0).
Qed.

Lemma switch_to_ok extra free m : kernel_base extra free (mc_kernel m) -> runnable (t_map (kn_tasks (mc_kernel m))) <> [] ->
  exists tid task m', switch_to m = Ret (Restore (Some (t_trap_context task)), None, m') /\ kernel_ok extra free (mc_kernel m') /\
    t_current (kn_tasks (mc_kernel m')) = Some tid /\ om_get tid (t_map (kn_tasks (mc_kernel m))) = Some task /\ t_status task = Running /\
    t_map (kn_tasks (mc_kernel m')) = t_map (kn_tasks (mc_kernel m)) /\ kn_world (mc_kernel m') = kn_world (mc_kernel m).
Proof.
  intros Hb Hr. set (k := mc_kernel m) in *. assert (Hne : t_map (kn_tasks k) <> []) by (by intros E; rewrite E in Hr).
  pose proof (switch_pick (kn_tasks k) (to_ok _ (kb_tree _ _ _ Hb)) Hne) as H. destruct (runnable (t_map (kn_tasks k))) as [|x R]; [done|].
  destruct (pick_some (t_cursor (kn_tasks k)) x R) as [tid Ep]. rewrite Ep in H. destruct H as (task & Eg & Hs & Esw).
  exists tid, task. eexists. unfold switch_to. fold k. rewrite Esw, outcome_bind_Ret. split; [done|]. cbn [mc_kernel with_kernel kn_tasks kn_world t_map t_current].
  split; [|done]. apply kernel_ok_base. destruct Hb as [H1 H2 H3 H4]. split; [by split|]. intros t [= <-]. by exists task.
Qed.

(** Another table of mappings for the running task. *)
Lemma kernel_memory extra free k tid task abs sh w' ms' : kernel_ok extra free k -> t_current (kn_tasks k) = Some tid ->
  om_get tid (t_map (kn_tasks k)) = Some task ->
  (forall t task', om_get t (t_map (kn_tasks k)) = Some task' -> exists sh, in_space abs t sh (task_table task')) ->
  minv abs tid sh (kept_frames tid (t_map (kn_tasks k)) extra) w' (ms_mappings ms') ->
  kernel_ok extra free (mkKernel (update (kn_tasks k) tid (fun task => set_memory task ms')) (kn_tids k) w').
Proof.
  intros [Hp Hids Hused Hmem] Hc Eg Hi [(abs' & TK' & u & M & _ & _ & Ho & Hu & Hs & Hv) Hw]. assert (Hok : om_ok (t_map (kn_tasks k))) by apply Hp.
  split; cbn [kn_tasks kn_tids kn_world]; [by apply procs_update|done| |split]; cbn [update t_map].
  - intros t task'. rewrite om_get_modify by done. case_decide; [|by apply Hused]. subst t. rewrite Eg. intros _. by apply (Hused tid task).
  - exists abs', TK'. eexists. split; [|split; [exact M|]].
    + unfold kept_frames. rewrite app_assoc. f_equiv. by rewrite (om_modify_perm _ _ _ task Hok Eg).
    + intros t task'. rewrite om_get_modify by done. case_decide as Et.
      * subst t. rewrite Eg. intros [= <-]. exists sh, u. done.
      * intros E. destruct (Hi _ _ E) as (sh' & u' & Hu' & Hrest). exists sh', u'. by rewrite Ho.
  - intros t task'. rewrite om_get_modify by done. case_decide; [|by apply (mo_tabs _ _ _ Hmem)]. subst t. rewrite Eg. intros [= <-]. split; [done|].
    apply Forall_forall. intros f Hf. apply (fs_sized _ _ _ f (mr_frames _ _ _ _ M)). rewrite !elem_of_app. do 3 right. by left.
Qed.

(** Writes to the memory of the running task. *)
Lemma kernel_world extra free k tid task abs sh w' : kernel_ok extra free k -> t_current (kn_tasks k) = Some tid ->
  om_get tid (t_map (kn_tasks k)) = Some task ->
  (forall t task', om_get t (t_map (kn_tasks k)) = Some task' -> exists sh, in_space abs t sh (task_table task')) ->
  minv abs tid sh (kept_frames tid (t_map (kn_tasks k)) extra) w' (task_table task) -> kernel_ok extra free (with_world k w').
Proof.
  intros Hk Hc Eg Hi I. pose proof (kernel_memory extra free k tid task abs sh w' (t_memory_set task) Hk Hc Eg Hi I) as H.
  replace (update (kn_tasks k) tid (fun t => set_memory t (t_memory_set task))) with (kn_tasks k) in H; [done|].
  assert (Hok : om_ok (t_map (kn_tasks k))) by apply Hk. destruct (kn_tasks k) as [mp cu cr]. unfold update. cbn [t_map t_cursor t_current] in *. f_equal.
  apply om_ext; [done|by apply om_modify_ok|]. intros t. rewrite om_get_modify by done. case_decide; [subst t|done]. rewrite Eg. by destruct task.
Qed.

Lemma om_get_sets (tid : Z) (tasks : list (Z * Task D)) : om_get tid (memory_sets tasks) = t_memory_set <$> om_get tid tasks.
Proof. apply (om_get_map (fun _ => t_memory_set)). Qed.

Lemma put_sets_update (self : Tasks D) sets tid ms' : om_ok (t_map self) -> task_updated tid (memory_sets (t_map self)) sets ms' ->
  put_sets self sets = update self tid (fun task => set_memory task ms').
Proof.
  intros Hok (_ & Hg & Ho). unfold put_sets, update. f_equal. set (f := fun (k : Z) (v : Task D) => match om_get k sets with Some ms => set_memory v ms | None => v end).
  change (((fun e => (e.1, f e.1 e.2)) <$> t_map self) = om_modify (fun task => set_memory task ms') tid (t_map self)).
  apply om_ext; [by apply om_ok_map|by apply om_modify_ok|]. intros t. rewrite om_get_map, om_get_modify by done. unfold f. case_decide as Et.
  - subst t. rewrite Hg. done.
  - rewrite Ho, om_get_sets by done. destruct (om_get t (t_map self)) as [task|]; [|done]. cbn. by destruct task.
Qed.

(** A call of [memory_map] for the running task. *)
Lemma memory_call_ok {T} extra free k tid task (f : world -> list (Z * MemorySet) -> Z -> outcome (result Z T * world * list (Z * MemorySet)))
    (post : result Z T -> MemorySet -> heap -> Prop) : kernel_ok extra free k -> t_current (kn_tasks k) = Some tid ->
  om_get tid (t_map (kn_tasks k)) = Some task -> let rest := kept_frames tid (t_map (kn_tasks k)) extra in let sets := memory_sets (t_map (kn_tasks k)) in
  (forall abs sh, om_ok sets -> om_get tid sets = Some (t_memory_set task) -> minv abs tid sh rest (kn_world k) (task_table task) ->
    exists r w' sets' ms', f (kn_world k) sets tid = Ret (r, w', sets') /\ task_updated tid sets sets' ms' /\ minv abs tid sh rest w' (ms_mappings ms') /\
      same_on rest (w_heap (kn_world k)) (w_heap w') /\ post r ms' (w_heap w')) ->
  exists r k' ms', memory_call k f = Ret (r, k') /\ kernel_ok extra free k' /\ kn_tasks k' = update (kn_tasks k) tid (fun task => set_memory task ms') /\
    same_on rest (w_heap (kn_world k)) (w_heap (kn_world k')) /\ post r ms' (w_heap (kn_world k')).
Proof.
  intros Hk Hc Eg rest sets Hf. destruct (kernel_minv _ _ _ _ _ Hk Eg) as (abs & TK & sh & I & _ & _ & Hi).
  assert (Hok : om_ok (t_map (kn_tasks k))) by apply Hk. destruct (Hf abs sh) as (r & w' & sets' & ms' & E & Hu & I' & S & P).
  { by apply (om_ok_map (fun _ => t_memory_set)). } { unfold sets. by rewrite om_get_sets, Eg. } { done. }
  unfold memory_call, current_tid. rewrite Hc. fold sets. rewrite E, outcome_bind_Ret. eexists r, _, ms'. split; [done|].
  rewrite (put_sets_update _ _ _ _ Hok Hu). cbn [kn_tasks kn_world]. split; [|done]. by apply (kernel_memory extra free k tid task abs sh).
Qed.

(** *** Memory calls *)

Lemma mmap_kernel extra free k tid task addr length prot flags fd offset : kernel_ok extra free k -> t_current (kn_tasks k) = Some tid ->
  om_get tid (t_map (kn_tasks k)) = Some task -> let l := task_table task in let rest := kept_frames tid (t_map (kn_tasks k)) extra in
  0 <= addr < 2 ^ 64 -> 0 <= length < 2 ^ 64 -> exact (page_up length) -> (wants_fixed flags = false -> stack_clear l) ->
  (replaces flags = true -> Forall (fun q : Keep => exact (k_size q)) (keeps l addr (addr + page_up length))) ->
  exists r k' ms', memory_call k (fun w sets tid => mmap w sets tid addr length prot flags fd offset) = Ret (r, k') /\ kernel_ok extra free k' /\
    kn_tasks k' = update (kn_tasks k) tid (fun task => set_memory task ms') /\ same_on rest (w_heap (kn_world k)) (w_heap (kn_world k')) /\
    mmap_post l (w_heap (kn_world k)) addr (page_up length) prot (wants_fixed flags) (replaces flags) r (ms_mappings ms') (w_heap (kn_world k')).
Proof.
  intros Hk Hc Eg l rest Ha Hl He Hs Hx. apply (memory_call_ok extra free k tid task _ (fun r ms' h' => mmap_post l _ _ _ _ _ _ r (ms_mappings ms') h') Hk Hc Eg).
  intros abs sh Hok Hg I. by apply mmap_ok.
Qed.

(** What [munmap] leaves. *)
Definition munmap_post (l : list UserMapping) (h : heap) (addr length : Z) (r : result Z unit) (l' : list UserMapping) (h' : heap) : Prop :=
  match r with
  | Ok _ => (forall va, addr <= va < addr + length -> sees_nothing l' va) /\
      forall va, ~ (addr <= va < addr + length) -> sees_same l l' h h' va
  | Err e => (e = EINVAL /\ 2 ^ 64 <= addr + length /\ l' = l) \/ ((e = ENOMEM \/ e = EINVAL) /\ untouched l l' h h' addr (addr + length))
  end.

Lemma munmap_kernel extra free k tid task addr length : kernel_ok extra free k -> t_current (kn_tasks k) = Some tid ->
  om_get tid (t_map (kn_tasks k)) = Some task -> let l := task_table task in let rest := kept_frames tid (t_map (kn_tasks k)) extra in
  aligned addr -> aligned length -> 0 <= addr -> 0 < length -> Forall (fun q : Keep => exact (k_size q)) (keeps l addr (addr + length)) ->
  exists r k' ms', memory_call k (fun w sets tid => munmap w sets tid addr length) = Ret (r, k') /\ kernel_ok extra free k' /\
    kn_tasks k' = update (kn_tasks k) tid (fun task => set_memory task ms') /\ same_on rest (w_heap (kn_world k)) (w_heap (kn_world k')) /\
    munmap_post l (w_heap (kn_world k)) addr length r (ms_mappings ms') (w_heap (kn_world k')).
Proof.
  intros Hk Hc Eg l rest Ha Hl H0 Hp Hx. apply (memory_call_ok extra free k tid task _ (fun r ms' h' => munmap_post l _ _ _ r (ms_mappings ms') h') Hk Hc Eg).
  intros abs sh Hok Hg I. destruct (munmap_ok abs tid sh rest (kn_world k) _ _ addr length Hok Hg I) as (r & w' & sets' & ms' & E & Hu & I' & S & P); try done.
  exists r, w', sets', ms'. do 4 (split; [done|]). destruct r as [[]|e]; [done|]. destruct P as [(-> & H & ->)|P]; [by left|by right].
Qed.

Lemma mremap_kernel extra free k tid task old old_size new_size flags new_address : kernel_ok extra free k -> t_current (kn_tasks k) = Some tid ->
  om_get tid (t_map (kn_tasks k)) = Some task -> let l := task_table task in let rest := kept_frames tid (t_map (kn_tasks k)) extra in
  stack_clear l -> 0 <= old -> 0 <= old_size -> 0 <= new_size -> 0 <= new_address -> exact new_size ->
  Forall (fun q : Keep => exact (k_size q)) (keeps l old (old + old_size)) ->
  (MemoryMap.has flags MremapFlags_FIXED = true -> uncut l new_address (new_address + new_size)) ->
  exists r k' ms', memory_call k (fun w sets tid => mremap w sets tid old old_size new_size flags new_address) = Ret (r, k') /\ kernel_ok extra free k' /\
    kn_tasks k' = update (kn_tasks k) tid (fun task => set_memory task ms') /\ same_on rest (w_heap (kn_world k)) (w_heap (kn_world k')) /\
    mremap_post l (w_heap (kn_world k)) old old_size new_size new_address (MemoryMap.has flags MremapFlags_FIXED) r (ms_mappings ms') (w_heap (kn_world k')).
Proof.
  intros Hk Hc Eg l rest Hs H1 H2 H3 H4 He Hx Hu.
  apply (memory_call_ok extra free k tid task _ (fun r ms' h' => mremap_post l _ _ _ _ _ _ r (ms_mappings ms') h') Hk Hc Eg).
  intros abs sh Hok Hg I. by apply mremap_ok.
Qed.

(** *** Buffers *)

(** Bytes stored in the memory of the running task. *)
Lemma user_stores_kernel extra free k tid task va bs : kernel_ok extra free k -> t_current (kn_tasks k) = Some tid ->
  om_get tid (t_map (kn_tasks k)) = Some task -> accessible true (task_table task) va (len bs) -> bytes bs ->
  exists w', user_stores (kn_world k) tid va bs = Ret w' /\ kernel_ok extra free (with_world k w') /\
    same_on (kept_frames tid (t_map (kn_tasks k)) extra) (w_heap (kn_world k)) (w_heap w') /\
    (forall q, w_heap w' !! q = w_heap (kn_world k) !! q \/
       exists x p, va <= x < va + len bs /\ tab_phys (task_table task) x = Some p /\ q = word_of p) /\
    forall x, user_byte (task_table task) (w_heap w') x =
      if decide (va <= x < va + len bs) then bs !! Z.to_nat (x - va) else user_byte (task_table task) (w_heap (kn_world k)) x.
Proof.
  intros Hk Hc Eg Ha Hb. destruct (kernel_minv _ _ _ _ _ Hk Eg) as (abs & TK & sh & I & _ & _ & Hi).
  destruct (user_stores_ok abs tid sh _ _ _ va bs I Ha Hb) as (w' & E & I' & S & G & B). exists w'. split; [done|]. split; [|done].
  by apply (kernel_world extra free k tid task abs sh).
Qed.

Lemma user_load_kernel extra free k tid task va : kernel_ok extra free k -> om_get tid (t_map (kn_tasks k)) = Some task ->
  accessible false (task_table task) va 1 ->
  exists b, user_load (kn_world k) tid va = Ret b /\ user_byte (task_table task) (w_heap (kn_world k)) va = Some b /\
    user_peek (kn_world k) tid va = b.
Proof.
  intros Hk Eg Ha. destruct (kernel_minv _ _ _ _ _ Hk Eg) as (abs & TK & sh & I & _). destruct (user_load_ok abs tid sh _ _ _ va I Ha) as (b & E & Eb & _).
  exists b. split; [done|]. split; [done|]. destruct (Ha va ltac:(lia)) as (mp & Hm & Hfl).
  destruct (user_addr_ok abs tid sh _ _ _ va mp false I Hm Hfl) as (f & o & _ & _ & Ep & Ea). unfold user_peek. rewrite Ea.
  unfold user_byte in Eb. rewrite Hm in Eb. cbn [mbind option_bind] in Eb. rewrite Ep in Eb. cbn [mbind option_bind] in Eb. by rewrite Eb.
Qed.

Lemma user_touch_ok extra free k tid task n va : kernel_ok extra free k -> om_get tid (t_map (kn_tasks k)) = Some task ->
  accessible false (task_table task) va (Z.of_nat n) -> user_touch n (kn_world k) tid va = Ret tt.
Proof.
  intros Hk Eg. revert va. induction n as [|n IH]; intros va Ha; [done|]. cbn [user_touch].
  destruct (user_load_kernel extra free k tid task va Hk Eg) as (b & -> & _). { intros x Hx. apply Ha. lia. }
  rewrite outcome_bind_Ret. apply IH. intros x Hx. apply Ha. lia.
Qed.

(** The slice has the bytes the task sees. *)
Lemma user_slice_ok extra free k tid task va n : kernel_ok extra free k -> t_current (kn_tasks k) = Some tid ->
  om_get tid (t_map (kn_tasks k)) = Some task -> accessible false (task_table task) va n -> 0 <= n ->
  len (user_slice k va n) = n /\ forall i, 0 <= i < n -> user_slice k va n !! Z.to_nat i = user_byte (task_table task) (w_heap (kn_world k)) (va + i).
Proof.
  intros Hk Hc Eg Ha Hn. unfold user_slice, len. rewrite Hc, length_fmap, length_seqZ. split; [lia|]. intros i Hi.
  rewrite list_lookup_fmap, lookup_seqZ_lt by lia. cbn.
  destruct (user_load_kernel extra free k tid task (va + i) Hk Eg) as (b & _ & -> & Hp). { intros x Hx. apply Ha. lia. }
  rewrite <- Hp. do 2 f_equal. lia.
Qed.

Lemma returns_ok sepc power m value : 0 <= sepc < 2 ^ 64 - 4 -> returns sepc power m value = Ret (Return value (sepc + 4), power, m).
Proof. intros Hs. unfold returns, u64_add, usize_add. destruct (Z.ltb_spec (sepc + 4) (2 ^ 64)); [done|lia]. Qed.

(** *** Files *)

(** The driver of the open file reads into the buffer as it should. *)
Definition reads_ok k (dw : World D) (fd ptr n : Z) (r : result FdError (Z * list Z)) (dw' : World D) : Prop :=
  read_fd (kn_tasks k) fd (user_slice k ptr n) dw = Ret (r, dw') /\
  match r with Ok (size, buf) => 0 <= size <= n /\ size <= len buf /\ bytes buf | Err _ => True end.

Definition writes_ok k (dw : World D) (fd ptr n : Z) (r : result FdError Z) (dw' : World D) : Prop :=
  write_fd (kn_tasks k) fd (user_slice k ptr n) dw = Ret (r, dw') /\ match r with Ok size => 0 <= size <= n | Err _ => True end.

Section Running.
Context (extra : list Frame) (free : Z -> bool) (m : Machine D A) (tid : Z) (task : Task D) (sepc : Z).
Hypothesis Hk : kernel_ok extra free (mc_kernel m).
Hypothesis Hc : t_current (kn_tasks (mc_kernel m)) = Some tid.
Hypothesis Eg : om_get tid (t_map (kn_tasks (mc_kernel m))) = Some task.
Hypothesis Hsepc : 0 <= sepc < 2 ^ 64 - 4.

Abbreviation k := (mc_kernel m).
Abbreviation l := (task_table task).
Abbreviation h := (w_heap (kn_world (mc_kernel m))).
Abbreviation kept := (kept_frames tid (t_map (kn_tasks (mc_kernel m))) extra).

Lemma sys_read_kernel fd ptr n r dw : 0 <= ptr -> 0 <= n ->
  (ends_mapped l ptr n = true -> accessible true l ptr n /\ reads_ok k (mc_devs m) fd ptr n r dw) ->
  exists value m', sys_read m sepc fd ptr n = Ret (Return value (sepc + 4), None, m') /\ kernel_ok extra free (mc_kernel m') /\
    kn_tasks (mc_kernel m') = kn_tasks k /\ same_on kept h (w_heap (kn_world (mc_kernel m'))) /\
    if ends_mapped l ptr n then
      mc_devs m' = dw /\
      match r with
      | Ok (size, buf) => value = size /\ forall x, user_byte l (w_heap (kn_world (mc_kernel m'))) x =
          if decide (ptr <= x < ptr + size) then buf !! Z.to_nat (x - ptr) else user_byte l h x
      | Err err => value = fd_errno err /\ mc_kernel m' = k
      end
    else value = errno_value EFAULT /\ m' = m.
Proof using Hk Hc Eg Hsepc FL.
  intros Hp Hn Hio. unfold sys_read. rewrite (validate_range_ok extra free k tid task) by done. rewrite outcome_bind_Ret.
  destruct (ends_mapped l ptr n).
  2: { rewrite returns_ok by done. eexists _, m. split; [done|]. split; [done|]. split; [done|]. split; [apply same_on_refl|done]. }
  destruct (Hio eq_refl) as (Ha & -> & Hr). rewrite outcome_bind_Ret, Hc. destruct r as [[size buf]|err].
  - destruct Hr as (Hs & Hsb & Hb). assert (Hl : len (take (Z.to_nat size) buf) = size) by (unfold len in *; rewrite length_take; lia).
    destruct (user_stores_kernel extra free k tid task ptr (take (Z.to_nat size) buf)) as (w' & -> & Hk' & S & _ & B); try done.
    { intros x Hx. apply Ha. lia. } { by apply Forall_take. }
    rewrite outcome_bind_Ret, returns_ok by done. eexists size, _. split; [done|]. split; [done|]. split; [done|]. split; [done|].
    split; [done|]. split; [done|]. intros x. cbn [mc_kernel kn_world with_world]. rewrite B, Hl. case_decide; [|done]. by rewrite lookup_take_lt by lia.
  - rewrite returns_ok by done. eexists _, _. split; [done|]. split; [done|]. split; [done|]. split; [apply same_on_refl|done].
Qed.

Lemma sys_write_kernel fd ptr n r dw : 0 <= ptr -> 0 <= n ->
  (ends_mapped l ptr n = true -> accessible false l ptr n /\ writes_ok k (mc_devs m) fd ptr n r dw) ->
  exists value, sys_write m sepc fd ptr n =
      Ret (Return value (sepc + 4), None, mkMachine k (if ends_mapped l ptr n then dw else mc_devs m)) /\
    value = if ends_mapped l ptr n then match r with Ok size => size | Err err => fd_errno err end else errno_value EFAULT.
Proof using Hk Hc Eg Hsepc FL.
  intros Hp Hn Hio. unfold sys_write. rewrite (validate_range_ok extra free k tid task) by done. rewrite outcome_bind_Ret.
  destruct (ends_mapped l ptr n).
  2: { rewrite returns_ok by done. eexists _. split; [|done]. by destruct m. }
  destruct (Hio eq_refl) as (Ha & -> & Hr). rewrite outcome_bind_Ret, Hc. destruct r as [size|err].
  - rewrite (user_touch_ok extra free k tid task) by (done || (intros x Hx; apply Ha; lia)). rewrite outcome_bind_Ret, returns_ok by done. by eexists.
  - rewrite returns_ok by done. by eexists.
Qed.

(** *** The end of a task, and waiting *)

(** Another task can run. *)
Definition other_runs : Prop := exists t task', t <> tid /\ om_get t (t_map (kn_tasks k)) = Some task' /\ t_status task' = Running.

Lemma sys_exit_kernel code : tid <> 1 -> other_runs ->
  exists m', sys_exit m code = Ret (Yield, None, m') /\ kernel_base extra free (mc_kernel m') /\ runnable (t_map (kn_tasks (mc_kernel m'))) <> [] /\
    kn_world (mc_kernel m') = kn_world k /\ mc_devs m' = mc_devs m /\
    exists task', om_get tid (t_map (kn_tasks (mc_kernel m'))) = Some task' /\ t_status task' = Zombie /\ t_exit_code task' = as_signed 32 code.
Proof using Hk Hc Eg FL.
  intros H1 (t & task' & Ht & Et & Hrun). assert (Hok : om_ok (t_map (kn_tasks k))) by apply Hk. unfold sys_exit, exit. rewrite Hc, Eg.
  rewrite (proj2 (Z.eqb_neq tid 1)) by done. rewrite outcome_bind_Ret. eexists. split; [done|]. cbn [mc_kernel with_kernel mc_devs kn_tasks kn_world].
  set (g := fun task => set_children (set_status (Task_set_exit_code task (as_signed 32 code)) Zombie) []).
  set (g' := fun init => set_children init (t_children init ++ t_children task)).
  assert (Hok1 : om_ok (om_modify g tid (t_map (kn_tasks k)))) by (by apply om_modify_ok).
  split; [|split; [|split; [done|split; [done|]]]].
  - destruct Hk as [Hp H2 H3 H4]. split; cbn [kn_tasks kn_tids kn_world update t_map].
    + apply (tree_exit (kn_tasks k) (as_signed 32 code) (update (update (kn_tasks k) tid g) 1 g')); [done|]. unfold exit. rewrite Hc, Eg, (proj2 (Z.eqb_neq tid 1)) by done. done.
    + done.
    + intros x tx. assert (Hin : om_get x (om_modify g' 1 (om_modify g tid (t_map (kn_tasks k)))) = Some tx -> is_Some (om_get x (t_map (kn_tasks k)))).
      { rewrite !om_get_modify by done. repeat case_decide; subst; intros E; by (destruct (om_get _ (t_map (kn_tasks k))) in E |- *; [eexists|discriminate E]). }
      intros E. destruct (Hin E) as [ty Ey]. by apply (H3 x ty).
    + apply mem_ok_modify; [done|done|]. by apply mem_ok_modify.
  - cbn [update t_map]. intros E. assert (Hin : t ∈ runnable (om_modify g' 1 (om_modify g tid (t_map (kn_tasks k))))); [|rewrite E in Hin; by apply not_elem_of_nil in Hin].
    apply runnable_elem; [by apply om_modify_ok|]. rewrite !om_get_modify by done. repeat case_decide; subst; rewrite ?Et; try done; by eexists.
  - cbn [update t_map]. rewrite om_get_modify by done. rewrite decide_False by done. rewrite om_get_modify, decide_True, Eg by done. by eexists.
Qed.

Lemma sys_wait_kernel pid status options usage : WaitOptions_nohang (wrap 32 options) = false -> other_runs ->
  exists m', sys_wait4 m sepc pid status options usage = Ret (Yield, None, m') /\ kernel_base extra free (mc_kernel m') /\
    runnable (t_map (kn_tasks (mc_kernel m'))) <> [] /\ kn_world (mc_kernel m') = kn_world k /\ mc_devs m' = mc_devs m /\
    kn_tasks (mc_kernel m') = update (kn_tasks k) tid (fun task => set_status task Waiting).
Proof using Hk Hc Eg FL.
  intros Hno (t & task' & Ht & Et & Hrun). assert (Hok : om_ok (t_map (kn_tasks k))) by apply Hk. unfold sys_wait4, wait4. rewrite Hno, Hc.
  eexists. split; [done|]. cbn [mc_kernel with_kernel mc_devs kn_tasks kn_world]. split; [|split; [|done]].
  - apply base_update; [by apply kernel_ok_base|done|]. apply tree_modify; [apply Hk|]. by intros.
  - cbn [update t_map]. intros E. assert (Hin : t ∈ runnable (om_modify (fun task => set_status task Waiting) tid (t_map (kn_tasks k))));
      [|rewrite E in Hin; by apply not_elem_of_nil in Hin].
    apply runnable_elem; [by apply om_modify_ok|]. rewrite om_get_modify, decide_False by done. by exists task'.
Qed.

(** What the task sees after [bs] was written to [ptr], when [wanted]. *)
Definition put_bytes (wanted : bool) (ptr : Z) (bs : list Z) (u : Z -> option Z) (x : Z) : option Z :=
  if decide (wanted = true /\ ptr <= x < ptr + len bs) then bs !! Z.to_nat (x - ptr) else u x.

Lemma put_bytes_ext wanted ptr bs u u' x : (forall x, u x = u' x) -> put_bytes wanted ptr bs u x = put_bytes wanted ptr bs u' x.
Proof using. intros E. unfold put_bytes. by case_decide. Qed.

(** A pointer of [wait4] to be written: nowhere in the task's memory, or to
    pages it can write to, and aligned. *)
Definition target_ok (wanted : bool) (ptr size align : Z) : Prop :=
  0 <= ptr /\ (wanted = true -> ends_mapped l ptr size = true -> accessible true l ptr size /\ ptr mod align = 0).

Lemma put_result_kernel k0 wanted ptr size align bs : kernel_ok extra free k0 -> kn_tasks k0 = kn_tasks k -> target_ok wanted ptr size align ->
  len bs = size -> bytes bs ->
  exists r, put_result k0 wanted ptr size align bs = Ret r /\
    if wanted && negb (ends_mapped l ptr size) then r = Err EFAULT
    else exists k', r = Ok k' /\ kernel_ok extra free k' /\ kn_tasks k' = kn_tasks k /\ same_on kept (w_heap (kn_world k0)) (w_heap (kn_world k')) /\
      forall x, user_byte l (w_heap (kn_world k')) x = put_bytes wanted ptr bs (user_byte l (w_heap (kn_world k0))) x.
Proof using Hc Eg FL.
  clear Hk Hsepc. intros Hk0 Et (Hp & Ha) Hl Hb. unfold put_result. pose proof (len_nonneg bs). destruct wanted; cbn [andb].
  2: { eexists. split; [done|]. exists k0. split; [done|]. split; [done|]. split; [done|]. split; [apply same_on_refl|].
       intros x. unfold put_bytes. rewrite decide_False by naive_solver. done. }
  rewrite <- Et in Hc, Eg. rewrite (validate_range_ok extra free k0 tid task) by (done || lia). rewrite outcome_bind_Ret.
  destruct (ends_mapped l ptr size); cbn [negb]; [|by eexists]. destruct (Ha eq_refl eq_refl) as [Hac Hal]. rewrite Hc. unfold user_write. rewrite Hal.
  cbn [Z.eqb]. destruct (user_stores_kernel extra free k0 tid task ptr bs) as (w' & -> & Hk' & S & _ & B); [done|done|done|by rewrite Hl|done|].
  rewrite outcome_bind_Ret. eexists. split; [done|]. eexists. split; [done|]. split; [done|]. split; [done|]. rewrite Et in S. split; [exact S|].
  intros x. cbn [with_world kn_world]. rewrite B. unfold put_bytes. apply decide_ext. naive_solver.
Qed.

Lemma sys_poll_kernel pid status options usage : WaitOptions_nohang (wrap 32 options) = true ->
  let res := wait_spec (t_map (kn_tasks k)) tid (as_signed 64 pid) in let found := negb (wr_tid res =? 0) in
  let ws := found && negb (status =? 0) in let wu := found && negb (usage =? 0) in
  target_ok ws status WAIT_STATUS_SIZE 4 -> target_ok wu usage RESOURCE_USAGE_SIZE 8 ->
  exists value m', sys_wait4 m sepc pid status options usage = Ret (Return value (sepc + 4), None, m') /\
    kernel_ok extra free (mc_kernel m') /\ kn_tasks (mc_kernel m') = kn_tasks k /\ mc_devs m' = mc_devs m /\
    same_on kept h (w_heap (kn_world (mc_kernel m'))) /\
    if (ws && negb (ends_mapped l status WAIT_STATUS_SIZE)) || (wu && negb (ends_mapped l usage RESOURCE_USAGE_SIZE)) then value = errno_value EFAULT
    else value = wr_tid res /\ forall x, user_byte l (w_heap (kn_world (mc_kernel m'))) x =
      put_bytes wu usage (replicate (Z.to_nat RESOURCE_USAGE_SIZE) 0)
        (put_bytes ws status (to_le_bytes 4 (WaitStatus_exited (wr_exit_code res))) (user_byte l h)) x.
Proof using Hk Hc Eg Hsepc FL.
  intros Hno res found ws wu Hs Hu. unfold sys_wait4. rewrite Hno, (wait4_ok _ tid) by (done || apply Hk). fold res.
  assert (Ek : mkKernel (kn_tasks k) (kn_tids k) (kn_world k) = k) by (by destruct k). rewrite Ek. fold found. fold ws. fold wu.
  assert (Hl1 : len (to_le_bytes 4 (WaitStatus_exited (wr_exit_code res))) = WAIT_STATUS_SIZE) by (unfold len; by rewrite to_le_bytes_length).
  destruct (put_result_kernel k ws status WAIT_STATUS_SIZE 4 _ Hk eq_refl Hs Hl1 (to_le_bytes_bytes _ _)) as (r1 & -> & H1). rewrite outcome_bind_Ret.
  destruct (ws && negb (ends_mapped l status WAIT_STATUS_SIZE)); cbn [orb].
  { subst r1. rewrite returns_ok by done. eexists _, _. split; [done|]. split; [done|]. split; [done|]. split; [done|]. split; [apply same_on_refl|done]. }
  destruct H1 as (k1 & -> & Hk1 & Et1 & S1 & B1).
  assert (Hl2 : len (replicate (Z.to_nat RESOURCE_USAGE_SIZE) 0) = RESOURCE_USAGE_SIZE) by (unfold len; by rewrite length_replicate).
  assert (Hb2 : bytes (replicate (Z.to_nat RESOURCE_USAGE_SIZE) 0)) by (apply Forall_replicate; unfold is_byte; lia).
  destruct (put_result_kernel k1 wu usage RESOURCE_USAGE_SIZE 8 _ Hk1 Et1 Hu Hl2 Hb2) as (r2 & -> & H2). rewrite outcome_bind_Ret.
  destruct (wu && negb (ends_mapped l usage RESOURCE_USAGE_SIZE)).
  { subst r2. rewrite returns_ok by done. eexists _, _. split; [done|]. by split. }
  destruct H2 as (k2 & -> & Hk2 & Et2 & S2 & B2). rewrite returns_ok by done. eexists _, _. split; [done|]. split; [done|]. split; [done|].
  split; [done|]. split; [by eapply same_on_trans|]. split; [done|]. intros x. cbn [mc_kernel with_kernel]. rewrite B2. by apply put_bytes_ext.
Qed.

(** *** Programs *)

Lemma sys_execve_kernel (manager : DeviceManager D) (vfs : Vfs D) trie fuel sstatus path_ptr argv_ptr envp_ptr path argv envp n dw path' argv' dw' buffer hdr phs required :
  BINFMTS = Ret trie -> user_cstr l h path_ptr path -> arg_ok path -> user_strings l h argv_ptr argv -> Forall arg_ok argv ->
  user_strings l h envp_ptr envp -> Forall arg_ok envp -> (length argv < fuel)%nat -> (length envp < fuel)%nat -> (n < fuel)%nat ->
  leads vfs n (mc_devs m) (bytes_str path) argv dw path' argv' -> read_file vfs path' dw = Ret (Ok (Some buffer), dw') -> image_ok buffer hdr phs ->
  Forall bytes argv' /\ Forall bytes envp /\ initial_stack_size argv' envp (auxv_of hdr phs) = Ret required ->
  exists r m', sys_execve manager vfs trie fuel sstatus m sepc path_ptr argv_ptr envp_ptr =
      Ret (if r : bool then Yield else Return (errno_value ENOENT) (sepc + 4), None, m') /\ mc_devs m' = dw' /\
    kernel_ok extra free (mc_kernel m') /\ t_current (kn_tasks (mc_kernel m')) = Some tid /\
    same_on kept h (w_heap (kn_world (mc_kernel m'))) /\
    if r then exists ms ctx, kn_tasks (mc_kernel m') = update (kn_tasks k) tid (with_program ms ctx) /\
      runs buffer hdr phs argv' envp sstatus (kn_world (mc_kernel m')) tid ms ctx
    else kn_tasks (mc_kernel m') = kn_tasks k /\ same_on (tab_frames l) h (w_heap (kn_world (mc_kernel m'))).
Proof using Hk Hc Eg Hsepc FL.
  intros Ht Hp (Hpn & Hpl & Hpu) Ha Hga He Hge Hfa Hfe Hfn Hl Hr Him Hargs. unfold sys_execve. apply args_ok in Hga as [_ Hga], Hge as [_ Hge].
  rewrite (read_cstr_user extra free k tid task path_ptr path) by done. rewrite outcome_bind_Ret, Hpu.
  rewrite (read_strings_user extra free k tid task argv_ptr argv) by done. rewrite outcome_bind_Ret.
  rewrite (read_strings_user extra free k tid task envp_ptr envp) by done. rewrite outcome_bind_Ret. unfold current_tid. rewrite Hc. unfold route_at.
  rewrite (route_leads manager vfs sstatus _ _ _ _ _ _ _ Hl fuel trie m (Some tid) envp Ht eq_refl Hfn). unfold exec_elf, execve_into. cbn [mc_kernel mc_devs].
  rewrite Eg, Hr, outcome_bind_Ret. destruct (replace_program_kernel buffer hdr phs argv' envp sstatus required Him Hargs extra free k tid Hk Hc) as (r & k' & -> & Hk' & Hres).
  rewrite !outcome_bind_Ret. destruct r as [u|].
  - exists true. eexists. split; [done|]. destruct Hres as (ms & ctx & Et & Hrun & S). cbn [mc_kernel mc_devs]. split; [done|]. split; [done|].
    split; [by rewrite Et|]. split; [exact S|]. by exists ms, ctx.
  - exists false. rewrite returns_ok by done. eexists. split; [done|]. destruct Hres as [Et S]. cbn [mc_kernel mc_devs]. split; [done|]. split; [done|].
    split; [by rewrite Et|]. assert (Hsub : tab_frames l ++ kept ⊆ all_frames (t_map (kn_tasks k)) ++ extra).
    { unfold kept_frames. intros f Hf. rewrite (om_remove_perm tid task _ Eg). cbn. rewrite <- app_assoc. exact Hf. }
    split; [|split; [done|]]; apply (same_on_sub _ _ _ _ S); set_solver.
Qed.

End Running.
End Kernel.

(** ** System calls from a running task *)

Definition regs_ok (sepc : Z) (frame : list Z) : Prop := 0 <= sepc < 2 ^ 64 - 4 /\ length frame = 32%nat /\ Forall (fits 64) frame.

Lemma arg_fits sepc frame i : regs_ok sepc frame -> 0 <= arg frame i < 2 ^ 64.
Proof.
  intros (_ & _ & HF). unfold arg. rewrite Forall_forall in HF. destruct (nth_in_or_default (A0_INDEX + i) frame 0) as [Hin| ->]; [|lia].
  apply list_elem_of_In, HF in Hin. exact Hin.
Qed.

Lemma WaitStatus_exited_ok code : let s := WaitStatus_exited code in
  0 <= s < 2 ^ 32 /\ WaitStatus_exit_code s = code mod 256 /\ WaitStatus_signal s = 0 /\ WaitStatus_core_dump s = false.
Proof.
  intros s. assert (Es : s = (code mod 256) * 256).
  { unfold s, WaitStatus_exited, wrap. rewrite Z.shiftl_mul_pow2 by lia. change 0xff with (Z.ones 8). rewrite Z.land_ones by lia. change (2 ^ 8) with 256.
    replace ((code mod 2 ^ 32) mod 256) with (code mod 256).
    2: { change (2 ^ 32) with (256 * 2 ^ 24). rewrite Z.rem_mul_r by lia. rewrite (Z.mul_comm 256), Z.mod_add by lia. by rewrite Z.mod_mod by lia. }
    apply Z.mod_small. pose proof (Z.mod_pos_bound code 256 ltac:(lia)). lia. }
  pose proof (Z.mod_pos_bound code 256 ltac:(lia)). rewrite Es. split; [lia|].
  unfold WaitStatus_exit_code, WaitStatus_signal, WaitStatus_core_dump. rewrite !bits_get_div by lia.
  change (15 - 8 + 1) with 8. change (6 - 0 + 1) with 7. change (2 ^ 8) with 256. change (2 ^ 0) with 1. change (2 ^ 7) with 128. rewrite Z.div_mul, Z.div_1_r by lia.
  split; [apply Z.mod_small; lia|]. split.
  - replace (code mod 256 * 256) with (code mod 256 * 2 * 128) by lia. apply Z.mod_mul. lia.
  - rewrite bit_get_testbit by lia. apply Z.testbit_false; [lia|]. change (2 ^ 7) with 128.
    replace (code mod 256 * 256) with (code mod 256 * 2 * 128) by lia. rewrite Z.div_mul by lia. apply Z.mod_mul. lia.
Qed.

Section Traps.
Context {D A : Type} {FS : FrameSource A} {FL : FrameLaws A} (manager : DeviceManager D) (vfs : Vfs D) (trie : Trie Z (Handler (Machine D A))).
Context (fuel : nat) (sstatus satp : Z).
Implicit Types (m : Machine D A).

Abbreviation handler := (trap_handler manager vfs trie fuel).

(** The end of a system call. *)
Definition ecall_end (frame : list Z) (r : @Handled D A) : outcome (@Trapped D A) :=
  let '(r, power, m) := r in
  match r with
  | Return value next => mret (Resume (<[A0_INDEX := value]> frame) next, power, m)
  | Yield => switch_to m
  end.

Lemma handler_ecall sepc frame m :
  handler Exception_U_MODE_ECALL sepc sstatus satp frame m = handle manager vfs trie fuel sstatus sepc frame m ≫= ecall_end frame.
Proof. unfold trap_handler. cbn. destruct (handle _ _ _ _ _ _ _ _) as [[[r p] m']|]; done. Qed.

Ltac call E := rewrite handler_ecall; unfold handle; rewrite E; cbn [Z.eqb Pos.eqb Syscall_READ Syscall_WRITE Syscall_EXIT Syscall_WAIT4 Syscall_REBOOT
  Syscall_MMAP Syscall_MUNMAP Syscall_MREMAP Syscall_CLONE Syscall_EXECVE].

Section Task.
Context (extra : list Frame) (free : Z -> bool) (m : Machine D A) (tid : Z) (task : Task D) (sepc : Z) (frame : list Z).
Hypothesis Hk : kernel_ok extra free (mc_kernel m).
Hypothesis Hc : t_current (kn_tasks (mc_kernel m)) = Some tid.
Hypothesis Eg : om_get tid (t_map (kn_tasks (mc_kernel m))) = Some task.
Hypothesis Hregs : regs_ok sepc frame.

Abbreviation k := (mc_kernel m).
Abbreviation l := (task_table task).
Abbreviation h := (w_heap (kn_world (mc_kernel m))).
Abbreviation kept := (kept_frames tid (t_map (kn_tasks (mc_kernel m))) extra).
Abbreviation a := (arg frame).

(** C12. The [read] system call. The running task asks for [a2] bytes of file [a0]
    at address [a1]. When the ends of the buffer are mapped, all of it can be
    written by the task and the file's driver returns a count and as many bytes,
    the task resumes after the call with that count; it sees exactly those bytes
    at the start of the buffer and its other memory as before, and no other
    task's nor the kernel's memory changed. A driver's error is returned as the
    negative error number, a bad buffer as [EFAULT]. *)
Theorem read_call r dw : a 7%nat = Syscall_READ ->
  (ends_mapped l (a 1%nat) (a 2%nat) = true -> accessible true l (a 1%nat) (a 2%nat) /\ reads_ok k (mc_devs m) (a 0%nat) (a 1%nat) (a 2%nat) r dw) ->
  exists value m', handler Exception_U_MODE_ECALL sepc sstatus satp frame m = Ret (Resume (<[A0_INDEX := value]> frame) (sepc + 4), None, m') /\
    kernel_ok extra free (mc_kernel m') /\ kn_tasks (mc_kernel m') = kn_tasks k /\ same_on kept h (w_heap (kn_world (mc_kernel m'))) /\
    if ends_mapped l (a 1%nat) (a 2%nat) then
      mc_devs m' = dw /\
      match r with
      | Ok (size, buf) => value = size /\ forall x, user_byte l (w_heap (kn_world (mc_kernel m'))) x =
          if decide (a 1%nat <= x < a 1%nat + size) then buf !! Z.to_nat (x - a 1%nat) else user_byte l h x
      | Err err => value = fd_errno err /\ mc_kernel m' = k
      end
    else value = errno_value EFAULT /\ m' = m.
Proof using Hk Hc Eg Hregs FL.
  intros E Hio. pose proof (arg_fits _ _ 1 Hregs). pose proof (arg_fits _ _ 2 Hregs).
  destruct (sys_read_kernel extra free m tid task sepc Hk Hc Eg (proj1 Hregs) (a 0%nat) (a 1%nat) (a 2%nat) r dw) as (value & m' & E' & Hres); [lia|lia|done|].
  exists value, m'. split; [|done]. call E. by rewrite E', outcome_bind_Ret.
Qed.

(** C13. The [write] system call. Under the same conditions for reading, the
    driver of file [a0] gets exactly the [a2] bytes the task sees at [a1]; the
    task resumes after the call with the driver's count, or the negative error
    number, and nothing but the devices changed. *)
Theorem write_call r dw : a 7%nat = Syscall_WRITE ->
  (ends_mapped l (a 1%nat) (a 2%nat) = true -> accessible false l (a 1%nat) (a 2%nat) /\ writes_ok k (mc_devs m) (a 0%nat) (a 1%nat) (a 2%nat) r dw) ->
  let valid := ends_mapped l (a 1%nat) (a 2%nat) in
  handler Exception_U_MODE_ECALL sepc sstatus satp frame m =
    Ret (Resume (<[A0_INDEX := if valid then match r with Ok size => size | Err err => fd_errno err end else errno_value EFAULT]> frame) (sepc + 4),
         None, mkMachine k (if valid then dw else mc_devs m)) /\
  (valid = true -> exists buf, write_fd (kn_tasks k) (a 0%nat) buf (mc_devs m) = Ret (r, dw) /\ len buf = a 2%nat /\
    forall i, 0 <= i < a 2%nat -> buf !! Z.to_nat i = user_byte l h (a 1%nat + i)).
Proof using Hk Hc Eg Hregs FL.
  intros E Hio valid. pose proof (arg_fits _ _ 1 Hregs). pose proof (arg_fits _ _ 2 Hregs).
  destruct (sys_write_kernel extra free m tid task sepc Hk Hc Eg (proj1 Hregs) (a 0%nat) (a 1%nat) (a 2%nat) r dw) as (value & E' & Hv); [lia|lia|done|].
  split; [call E; by rewrite E', outcome_bind_Ret, Hv|]. intros Hval. destruct (Hio Hval) as (Ha & Hw & _). eexists. split; [exact Hw|].
  apply (user_slice_ok extra free k tid task); done || lia.
Qed.





(** C14. The [wait4] system call with [WNOHANG]. The caller resumes with the task
    ID of a child that has exited, the oldest one or the one asked for, or with
    0 when there is none. The status it finds behind [a1] is that of a normal
    exit: the low eight bits of the exit code, no signal and no core dump; the
    resource usage behind [a3] is zero. A pointer outside of its memory gives
    [EFAULT]. The table of tasks is as before, and no other memory changes. *)
Theorem wait4_call : a 7%nat = Syscall_WAIT4 -> WaitOptions_nohang (wrap 32 (a 2%nat)) = true ->
  let res := wait_spec (t_map (kn_tasks k)) tid (as_signed 64 (a 0%nat)) in let found := negb (wr_tid res =? 0) in
  let ws := found && negb (a 1%nat =? 0) in let wu := found && negb (a 3%nat =? 0) in
  target_ok task ws (a 1%nat) WAIT_STATUS_SIZE 4 -> target_ok task wu (a 3%nat) RESOURCE_USAGE_SIZE 8 ->
  exists value m', handler Exception_U_MODE_ECALL sepc sstatus satp frame m = Ret (Resume (<[A0_INDEX := value]> frame) (sepc + 4), None, m') /\
    kernel_ok extra free (mc_kernel m') /\ kn_tasks (mc_kernel m') = kn_tasks k /\ mc_devs m' = mc_devs m /\
    same_on kept h (w_heap (kn_world (mc_kernel m'))) /\
    if (ws && negb (ends_mapped l (a 1%nat) WAIT_STATUS_SIZE)) || (wu && negb (ends_mapped l (a 3%nat) RESOURCE_USAGE_SIZE)) then value = errno_value EFAULT
    else value = wr_tid res /\ exists status, 0 <= status < 2 ^ 32 /\
      WaitStatus_exit_code status = wr_exit_code res mod 256 /\ WaitStatus_signal status = 0 /\ WaitStatus_core_dump status = false /\
      forall x, user_byte l (w_heap (kn_world (mc_kernel m'))) x =
        put_bytes wu (a 3%nat) (replicate (Z.to_nat RESOURCE_USAGE_SIZE) 0) (put_bytes ws (a 1%nat) (to_le_bytes 4 status) (user_byte l h)) x.
Proof using Hk Hc Eg Hregs FL.
  intros E Hno res found ws wu Hs Hu.
  destruct (sys_poll_kernel extra free m tid task sepc Hk Hc Eg (proj1 Hregs) (a 0%nat) (a 1%nat) (a 2%nat) (a 3%nat) Hno Hs Hu) as (value & m' & E' & H1 & H2 & H3 & H4 & H5).
  exists value, m'. split; [call E; by rewrite E', outcome_bind_Ret|]. do 4 (split; [done|]). fold res found ws wu in H5. destruct (_ || _); [done|].
  destruct H5 as [-> HB]. split; [done|]. destruct (WaitStatus_exited_ok (wr_exit_code res)) as (W1 & W2 & W3 & W4). by eexists.
Qed.

(** C7. The [execve] system call. The running task passes pointers to a path and
    to null-terminated arrays of arguments and environment strings, all
    readable, of bounded length and well-formed UTF-8. When scripts lead from
    the path to an ELF file whose segments can be placed, the kernel does not
    panic and stays consistent, and no other task's nor the kernel's memory
    changes. Either the task's program is replaced by that file, with the
    interpreter lines' words in front of the arguments, and the scheduler picks
    the next task; or the caller resumes with [ENOENT], its own memory and the
    table of tasks as before. *)
Theorem execve_call path argv envp n dw path' argv' dw' buffer hdr phs required : a 7%nat = Syscall_EXECVE -> BINFMTS = Ret trie ->
  user_cstr l h (a 0%nat) path -> arg_ok path -> user_strings l h (a 1%nat) argv -> Forall arg_ok argv ->
  user_strings l h (a 2%nat) envp -> Forall arg_ok envp -> (length argv < fuel)%nat -> (length envp < fuel)%nat -> (n < fuel)%nat ->
  leads vfs n (mc_devs m) (bytes_str path) argv dw path' argv' -> read_file vfs path' dw = Ret (Ok (Some buffer), dw') -> image_ok buffer hdr phs ->
  Forall bytes argv' /\ Forall bytes envp /\ initial_stack_size argv' envp (auxv_of hdr phs) = Ret required ->
  exists e m', handler Exception_U_MODE_ECALL sepc sstatus satp frame m = Ret (e, None, m') /\ kernel_ok extra free (mc_kernel m') /\
    same_on kept h (w_heap (kn_world (mc_kernel m'))) /\
    ((exists ms ctx next task', e = Restore (Some (t_trap_context task')) /\ t_current (kn_tasks (mc_kernel m')) = Some next /\
        om_get next (t_map (kn_tasks (mc_kernel m'))) = Some task' /\
        t_map (kn_tasks (mc_kernel m')) = om_modify (with_program ms ctx) tid (t_map (kn_tasks k)) /\
        runs buffer hdr phs argv' envp sstatus (kn_world (mc_kernel m')) tid ms ctx) \/
     (e = Resume (<[A0_INDEX := errno_value ENOENT]> frame) (sepc + 4) /\ kn_tasks (mc_kernel m') = kn_tasks k /\
        same_on (tab_frames l) h (w_heap (kn_world (mc_kernel m'))))).
Proof using Hk Hc Eg Hregs FL.
  intros E Ht Hp Hpo Ha Hao He Heo Hf1 Hf2 Hf3 Hl Hr Him Hargs.
  destruct (sys_execve_kernel extra free m tid task sepc Hk Hc Eg (proj1 Hregs) manager vfs trie fuel sstatus (a 0%nat) (a 1%nat) (a 2%nat) path argv envp n dw
    path' argv' dw' buffer hdr phs required) as (r & m1 & E1 & Hdw & Hk1 & Hc1 & S & Hres); try done.
  destruct r; [destruct Hres as (ms & ctx & Et & Hrun)|].
  - destruct (switch_to_ok extra free m1) as (next & task' & m2 & Esw & Hk2 & Hc2 & Eg2 & Hst & Em & Ew); [by apply kernel_ok_base| |].
    { intros En. destruct (proj2 (ko_procs _ _ _ Hk1) _ Hc1) as (t1 & Eg1 & Hs1). assert (Hin : tid ∈ runnable (t_map (kn_tasks (mc_kernel m1)))).
      { apply runnable_elem; [apply Hk1|]. by exists t1. } rewrite En in Hin. by apply not_elem_of_nil in Hin. }
    eexists _, m2. split; [call E; rewrite E1, outcome_bind_Ret; exact Esw|]. split; [done|]. rewrite Ew. split; [done|]. left.
    exists ms, ctx, next, task'. split; [done|]. split; [done|]. rewrite Em. split; [done|]. split; [by rewrite Et|done].
  - eexists _, m1. split; [call E; rewrite E1, outcome_bind_Ret; done|]. split; [done|]. split; [done|]. right. by destruct Hres.
Qed.

(** *** Any trap *)

(** What the kernel needs of the task that makes a system call: pointers to
    pages with the permissions needed, sizes the allocator serves without
    rounding, drivers that obey their contract, another task to run when this
    one stops, and a program that can be loaded. *)
Definition call_ok : Prop :=
  (a 7%nat = Syscall_READ -> exists r dw, ends_mapped l (a 1%nat) (a 2%nat) = true ->
     accessible true l (a 1%nat) (a 2%nat) /\ reads_ok k (mc_devs m) (a 0%nat) (a 1%nat) (a 2%nat) r dw) /\
  (a 7%nat = Syscall_WRITE -> exists r dw, ends_mapped l (a 1%nat) (a 2%nat) = true ->
     accessible false l (a 1%nat) (a 2%nat) /\ writes_ok k (mc_devs m) (a 0%nat) (a 1%nat) (a 2%nat) r dw) /\
  (a 7%nat = Syscall_EXIT -> tid <> 1 /\ other_runs m tid) /\
  (a 7%nat = Syscall_WAIT4 ->
     if WaitOptions_nohang (wrap 32 (a 2%nat)) then
       let found := negb (wr_tid (wait_spec (t_map (kn_tasks k)) tid (as_signed 64 (a 0%nat))) =? 0) in
       target_ok task (found && negb (a 1%nat =? 0)) (a 1%nat) WAIT_STATUS_SIZE 4 /\
       target_ok task (found && negb (a 3%nat =? 0)) (a 3%nat) RESOURCE_USAGE_SIZE 8
     else other_runs m tid) /\
  (a 7%nat = Syscall_MMAP -> exact (page_up (a 1%nat)) /\ (wants_fixed (a 3%nat) = false -> stack_clear l) /\
     (replaces (a 3%nat) = true -> Forall (fun q : Keep => exact (k_size q)) (keeps l (a 0%nat) (a 0%nat + page_up (a 1%nat))))) /\
  (a 7%nat = Syscall_MUNMAP -> aligned (a 0%nat) /\ aligned (a 1%nat) /\ 0 < a 1%nat /\
     Forall (fun q : Keep => exact (k_size q)) (keeps l (a 0%nat) (a 0%nat + a 1%nat))) /\
  (a 7%nat = Syscall_MREMAP -> stack_clear l /\ exact (a 2%nat) /\
     Forall (fun q : Keep => exact (k_size q)) (keeps l (a 0%nat) (a 0%nat + a 1%nat)) /\
     (MemoryMap.has (a 3%nat) MremapFlags_FIXED = true -> uncut l (a 4%nat) (a 4%nat + a 2%nat))) /\
  (a 7%nat = Syscall_EXECVE -> exists path argv envp n dw path' argv' dw' buffer hdr phs required,
     user_cstr l h (a 0%nat) path /\ arg_ok path /\ user_strings l h (a 1%nat) argv /\ Forall arg_ok argv /\
     user_strings l h (a 2%nat) envp /\ Forall arg_ok envp /\ (length argv < fuel)%nat /\ (length envp < fuel)%nat /\ (n < fuel)%nat /\
     leads vfs n (mc_devs m) (bytes_str path) argv dw path' argv' /\ read_file vfs path' dw = Ret (Ok (Some buffer), dw') /\ image_ok buffer hdr phs /\
     Forall bytes argv' /\ Forall bytes envp /\ initial_stack_size argv' envp (auxv_of hdr phs) = Ret required).

(** A state the kernel can go on from, with its own memory as it was. *)
Definition goes_on (m' : Machine D A) : Prop :=
  (exists free', kernel_ok extra free' (mc_kernel m')) /\ is_Some (t_current (kn_tasks (mc_kernel m'))) /\
  same_on extra h (w_heap (kn_world (mc_kernel m'))).

Lemma goes_on_kept free' m' : kernel_ok extra free' (mc_kernel m') -> t_current (kn_tasks (mc_kernel m')) = Some tid ->
  same_on kept h (w_heap (kn_world (mc_kernel m'))) -> goes_on m'.
Proof using Hk Hc Eg Hregs FL. intros H1 H2 H3. split; [by eexists|]. split; [by rewrite H2|]. apply (same_on_sub _ _ _ _ H3). unfold kept_frames. clear. set_solver. Qed.

Lemma goes_on_same m' : kn_tasks (mc_kernel m') = kn_tasks k -> kernel_ok extra free (mc_kernel m') ->
  same_on kept h (w_heap (kn_world (mc_kernel m'))) -> goes_on m'.
Proof using Hk Hc Eg Hregs FL. intros H1 H2 H3. apply (goes_on_kept free); [done|by rewrite H1|done]. Qed.

(** The scheduler after a system call that gives up the processor. *)
Lemma goes_on_switch m1 : kernel_base extra free (mc_kernel m1) -> runnable (t_map (kn_tasks (mc_kernel m1))) <> [] ->
  same_on extra h (w_heap (kn_world (mc_kernel m1))) -> exists e p m', switch_to m1 = Ret (e, p, m') /\ goes_on m'.
Proof using Hk Hc Eg Hregs FL.
  intros Hb Hr S. destruct (switch_to_ok extra free m1 Hb Hr) as (t & task' & m' & E & Hk' & Hc' & _ & _ & _ & Ew). eexists _, _, m'.
  split; [exact E|]. split; [by eexists|]. split; [by rewrite Hc'|by rewrite Ew].
Qed.

Lemma current_runnable (m1 : Machine D A) (t : Z) : kernel_ok extra free (mc_kernel m1) -> t_current (kn_tasks (mc_kernel m1)) = Some t ->
  runnable (t_map (kn_tasks (mc_kernel m1))) <> [].
Proof using Hk Hc Eg Hregs FL.
  intros H Ht En. destruct (proj2 (ko_procs _ _ _ H) _ Ht) as (t1 & Eg1 & Hs1). assert (Hin : t ∈ runnable (t_map (kn_tasks (mc_kernel m1)))).
  { apply runnable_elem; [apply H|]. by exists t1. } rewrite En in Hin. by apply not_elem_of_nil in Hin.
Qed.

(** Each call. *)
Lemma goes_on_call : BINFMTS = Ret trie -> call_ok -> exists r, handle manager vfs trie fuel sstatus sepc frame m = Ret r /\
  exists e p m', ecall_end frame r = Ret (e, p, m') /\ goes_on m'.
Proof using Hk Hc Eg Hregs FL.
  intros Ht (Cread & Cwrite & Cexit & Cwait & Cmmap & Cmunmap & Cmremap & Cexec). destruct Hregs as [Hsepc _].
  assert (Ha : forall i, 0 <= a i < 2 ^ 64) by (intros i; by apply (arg_fits sepc)). unfold handle.
  assert (Hself : goes_on m) by (apply goes_on_same; [done|done|apply same_on_refl]).
  destruct (Z.eqb_spec (a 7%nat) Syscall_READ) as [E|_].
  { destruct (Cread E) as (r & dw & Hio). destruct (sys_read_kernel extra free m tid task sepc Hk Hc Eg Hsepc (a 0%nat) (a 1%nat) (a 2%nat) r dw) as (v & m' & -> & H1 & H2 & H3 & _);
      [apply Ha|apply Ha|done|]. eexists. split; [done|]. eexists _, _, m'. split; [done|]. by apply goes_on_same. }
  destruct (Z.eqb_spec (a 7%nat) Syscall_WRITE) as [E|_].
  { destruct (Cwrite E) as (r & dw & Hio). destruct (sys_write_kernel extra free m tid task sepc Hk Hc Eg Hsepc (a 0%nat) (a 1%nat) (a 2%nat) r dw) as (v & -> & _);
      [apply Ha|apply Ha|done|]. eexists. split; [done|]. eexists _, _, _. split; [done|]. apply goes_on_same; [done|done|apply same_on_refl]. }
  destruct (Z.eqb_spec (a 7%nat) Syscall_EXIT) as [E|_].
  { destruct (Cexit E) as [H1 Ho]. destruct (sys_exit_kernel extra free m tid task Hk Hc Eg (a 0%nat) H1 Ho) as (m1 & -> & Hb & Hr & Ew & _).
    eexists. split; [done|]. apply goes_on_switch; [done|done|rewrite Ew; apply same_on_refl]. }
  destruct (Z.eqb_spec (a 7%nat) Syscall_WAIT4) as [E|_].
  { specialize (Cwait E). destruct (WaitOptions_nohang (wrap 32 (a 2%nat))) eqn:Eno.
    - destruct Cwait as [T1 T2]. destruct (sys_poll_kernel extra free m tid task sepc Hk Hc Eg Hsepc (a 0%nat) (a 1%nat) (a 2%nat) (a 3%nat) Eno T1 T2)
        as (v & m' & -> & H1 & H2 & _ & H3 & _). eexists. split; [done|]. eexists _, _, m'. split; [done|]. by apply goes_on_same.
    - destruct (sys_wait_kernel extra free m tid task sepc Hk Hc Eg (a 0%nat) (a 1%nat) (a 2%nat) (a 3%nat) Eno Cwait) as (m1 & -> & Hb & Hr & Ew & _).
      eexists. split; [done|]. apply goes_on_switch; [done|done|rewrite Ew; apply same_on_refl]. }
  assert (Hret : forall p v, exists r, returns sepc p m v = Ret r /\ exists e p' m', ecall_end frame r = Ret (e, p', m') /\ goes_on m').
  { intros p v. rewrite returns_ok by done. eexists. split; [done|]. eexists _, _, m. by split. }
  destruct (Z.eqb_spec (a 7%nat) Syscall_REBOOT) as [_|_].
  { unfold sys_reboot. destruct (_ || _); apply Hret. }
  destruct (Z.eqb_spec (a 7%nat) Syscall_MMAP) as [E|_].
  { destruct (Cmmap E) as (C1 & C2 & C3). destruct (mmap_kernel extra free k tid task (a 0%nat) (a 1%nat) (a 2%nat) (a 3%nat) (as_signed 64 (a 4%nat)) (a 5%nat) Hk Hc Eg)
      as (r & k' & ms' & Ec & H1 & H2 & H3 & _); try done. unfold sys_mmap. rewrite Ec, outcome_bind_Ret, returns_ok by done.
    eexists. split; [done|]. eexists _, _, _. split; [done|]. apply (goes_on_kept free); [done|cbn [mc_kernel with_kernel]; by rewrite H2|done]. }
  destruct (Z.eqb_spec (a 7%nat) Syscall_MUNMAP) as [E|_].
  { destruct (Cmunmap E) as (C1 & C2 & C3 & C4). destruct (munmap_kernel extra free k tid task (a 0%nat) (a 1%nat) Hk Hc Eg) as (r & k' & ms' & Ec & H1 & H2 & H3 & _); try done;
      [apply Ha|]. unfold sys_munmap. rewrite Ec, outcome_bind_Ret, returns_ok by done.
    eexists. split; [done|]. eexists _, _, _. split; [done|]. apply (goes_on_kept free); [done|cbn [mc_kernel with_kernel]; by rewrite H2|done]. }
  destruct (Z.eqb_spec (a 7%nat) Syscall_MREMAP) as [E|_].
  { destruct (Cmremap E) as (C1 & C2 & C3 & C4). destruct (mremap_kernel extra free k tid task (a 0%nat) (a 1%nat) (a 2%nat) (a 3%nat) (a 4%nat) Hk Hc Eg)
      as (r & k' & ms' & Ec & H1 & H2 & H3 & _); try done; try apply Ha. unfold sys_mremap. rewrite Ec, outcome_bind_Ret, returns_ok by done.
    eexists. split; [done|]. eexists _, _, _. split; [done|]. apply (goes_on_kept free); [done|cbn [mc_kernel with_kernel]; by rewrite H2|done]. }
  destruct (Z.eqb_spec (a 7%nat) Syscall_CLONE) as [E|_].
  { destruct (clone_task_ok extra free k tid frame sepc Hk Hc Hsepc) as (r & k' & Ec & S & Hr). unfold sys_clone. rewrite Ec, outcome_bind_Ret, returns_ok by done.
    eexists. split; [done|]. eexists _, _, _. split; [done|]. assert (Hk' : exists free', kernel_ok extra free' k' /\ t_current (kn_tasks k') = Some tid).
    { destruct r as [c|e]; [destruct Hr as (? & ? & _ & _ & _ & Et & _ & _ & _ & ?)|destruct Hr as (_ & Et & ?)]; eexists; (split; [done|]); by rewrite Et. }
    destruct Hk' as (free' & Hk' & Hc'). split; [by eexists|]. split; [cbn; by rewrite Hc'|]. apply (same_on_sub _ _ _ _ S). clear. set_solver. }
  destruct (Z.eqb_spec (a 7%nat) Syscall_EXECVE) as [E|_]; [|apply Hret].
  destruct (Cexec E) as (path & argv & envp & n & dw & path' & argv' & dw' & buffer & hdr & phs & req & C1 & C2 & C3 & C4 & C5 & C6 & C7 & C8 & C9 & C10 & C11 & C12 & C13).
  destruct (sys_execve_kernel extra free m tid task sepc Hk Hc Eg Hsepc manager vfs trie fuel sstatus (a 0%nat) (a 1%nat) (a 2%nat) path argv envp n dw path' argv' dw' buffer hdr phs req)
    as (r & m1 & -> & _ & Hk1 & Hc1 & S & _); try done. eexists. split; [done|].
  destruct r; cbn [ecall_end]; [|eexists _, _, m1; split; [done|by apply (goes_on_kept free)]].
  apply goes_on_switch; [by apply kernel_ok_base|by apply (current_runnable _ tid)|]. apply (same_on_sub _ _ _ _ S). unfold kept_frames. clear. set_solver.
Qed.

Lemma goes_on_trap scause : BINFMTS = Ret trie -> (as_signed 64 scause = Exception_U_MODE_ECALL -> call_ok) ->
  exists e p m', handler scause sepc sstatus satp frame m = Ret (e, p, m') /\ goes_on m'.
Proof using Hk Hc Eg Hregs FL.
  intros Ht Hcall. assert (Hself : goes_on m) by (apply goes_on_same; [done|done|apply same_on_refl]). unfold trap_handler, Trap_from.
  assert (Hskip : exists e p m', (next ← u64_add sepc 4; mret (Resume frame next, None, m) : outcome Trapped) = Ret (e, p, m') /\ goes_on m').
  { unfold u64_add, usize_add. destruct (Z.ltb_spec (sepc + 4) (2 ^ 64)); [|destruct Hregs; lia]. eexists _, _, m. by split. }
  assert (Hstay : forall e p, exists e' p' m', (mret (e, p, m) : outcome Trapped) = Ret (e', p', m') /\ goes_on m') by (intros e p; eexists _, _, m; by split).
  destruct (0 <=? as_signed 64 scause).
  - destruct (Z.eqb_spec (as_signed 64 scause) Exception_U_MODE_ECALL) as [E|_].
    { destruct (goes_on_call Ht (Hcall E)) as ([[r p] m1] & -> & He). rewrite outcome_bind_Ret. exact He. }
    destruct (_ =? Exception_BREAKPOINT); [done|]. destruct (_ || _); [done|]. destruct (_ =? Exception_ILLEGAL_INSTRUCTION); [apply Hstay|].
    destruct (_ || _ || _ || _); apply Hstay.
  - destruct (_ =? Interrupt_SUPERVISOR_TIMER); [|destruct (_ =? Interrupt_SUPERVISOR_EXTERNAL); apply Hstay].
    unfold save_current. rewrite Hc. set (g := fun task => set_context task (mkTrap frame satp sepc sstatus)).
    assert (Hb : kernel_base extra free (mkKernel (update (kn_tasks k) tid g) (kn_tids k) (kn_world k))).
    { apply base_update; [by apply kernel_ok_base|done|]. apply tree_modify; [apply Hk|]. by intros. }
    apply goes_on_switch; cbn [mc_kernel with_kernel kn_world]; [exact Hb| |apply same_on_refl]. cbn [kn_tasks update t_map].
    rewrite runnable_modify by (done || apply Hk). by apply (current_runnable m tid).
Qed.

End Task.

(** One trap, taken while a task runs with arbitrary registers. *)
Inductive machine_step : Machine D A -> Machine D A -> Prop :=
| machine_trap m tid task scause sepc status table frame e p m' :
    t_current (kn_tasks (mc_kernel m)) = Some tid -> om_get tid (t_map (kn_tasks (mc_kernel m))) = Some task -> regs_ok sepc frame ->
    (as_signed 64 scause = Exception_U_MODE_ECALL -> call_ok m tid task frame) ->
    handler scause sepc status table frame m = Ret (e, p, m') -> machine_step m m'.

End Traps.

Lemma goes_on_rtc {D A : Type} {FS : FrameSource A} {FL : FrameLaws A} (manager : DeviceManager D) (vfs : Vfs D) trie fuel extra free (m0 m : Machine D A) :
  BINFMTS = Ret trie -> kernel_ok extra free (mc_kernel m0) -> is_Some (t_current (kn_tasks (mc_kernel m0))) ->
  rtc (machine_step manager vfs trie fuel) m0 m -> goes_on extra m0 m.
Proof.
  intros Ht Hk Hc Hr. revert free Hk Hc. induction Hr as [m|m m1 m2 Hs _ IH]; intros free Hk Hc.
  { split; [by eexists|]. split; [done|apply same_on_refl]. }
  inversion Hs as [? tid task scause sepc status table frame e p ? Ec Eg Hregs Hcall E]; subst.
  destruct (goes_on_trap manager vfs trie fuel status table extra free m tid task sepc frame Hk Ec Eg Hregs scause Ht Hcall)
    as (e' & p' & m' & E' & [free' Hk'] & Hc' & S'). rewrite E in E'. injection E' as <- <- <-.
  destruct (IH free' Hk' Hc') as (Hk2 & Hc2 & S2). split; [done|]. split; [done|]. by eapply same_on_trans.
Qed.

(** C1. The kernel does not panic and stays consistent. Start it with a running
    task and let it take any number of traps: timer and external interrupts,
    faults, breakpoints and system calls, each with arbitrary registers, where a
    system call obeys [call_ok]. Then a task runs that may run, the table of
    tasks, the task IDs, the page tables and the frames of all tasks are
    consistent, the kernel's own memory is as it was, and the next such trap is
    handled without a panic. *)
Theorem machine_invariant {D A : Type} {FS : FrameSource A} {FL : FrameLaws A} (manager : DeviceManager D) (vfs : Vfs D)
    (trie : Trie Z (Handler (Machine D A))) (fuel : nat) (extra : list Frame) (free : Z -> bool) (m0 m : Machine D A) :
  BINFMTS = Ret trie -> kernel_ok extra free (mc_kernel m0) -> is_Some (t_current (kn_tasks (mc_kernel m0))) ->
  rtc (machine_step manager vfs trie fuel) m0 m ->
  (exists free', kernel_ok extra free' (mc_kernel m)) /\
  same_on extra (w_heap (kn_world (mc_kernel m0))) (w_heap (kn_world (mc_kernel m))) /\
  exists tid task, t_current (kn_tasks (mc_kernel m)) = Some tid /\ om_get tid (t_map (kn_tasks (mc_kernel m))) = Some task /\ t_status task = Running /\
    forall scause sepc sstatus satp frame, regs_ok sepc frame ->
      (as_signed 64 scause = Exception_U_MODE_ECALL -> call_ok vfs fuel m tid task frame) ->
      exists e p m', trap_handler manager vfs trie fuel scause sepc sstatus satp frame m = Ret (e, p, m').
Proof.
  intros Ht Hk0 Hc0 Hr. destruct (goes_on_rtc manager vfs trie fuel extra free m0 m Ht Hk0 Hc0 Hr) as ([free' Hk] & [tid Hc] & S). split; [by eexists|].
  split; [done|]. destruct (proj2 (ko_procs _ _ _ Hk) _ Hc) as (task & Eg & Hs). exists tid, task. do 3 (split; [done|]).
  intros scause sepc sstatus satp frame Hregs Hcall.
  destruct (goes_on_trap manager vfs trie fuel sstatus satp extra free' m tid task sepc frame Hk Hc Eg Hregs scause Ht Hcall) as (e & p & m' & E & _).
  by exists e, p, m'.
Qed.

(** ** Example *)

(** A region of eight pages, one block. *)
Definition page_heap : heap := zero_heap 8388608 8421376.
Definition page_buddy : BuddyAllocator := mkBuddy [0; 0; 0; 8388608; 0; 0; 0; 0; 0; 0; 0].

Lemma page_high : 8421376 <= 2 ^ 56.
Proof. lia. Qed.

#[local] Instance page_laws : FrameLaws BuddyAllocator := buddy_laws 8388608 8421376 pool_low page_high.

Lemma page_rep : fs_rep page_heap page_buddy [].
Proof.
  exists (upd (fun _ => []) 3 [8388608]), [], []. split; [|constructor]. apply block_rep; [lia| |done|vm_compute; done|].
  - unfold block_ok. cbn [fst snd]. split; [unfold BUDDY_MAX_ORDER; lia|]. split; [vm_compute; done|]. split; [lia|vm_compute; done].
  - intros h Hh. unfold fl_push, IntrusiveList_push, store. simpl. by rewrite Hh.
Qed.

(** A file that reads as zeros and takes one byte at a time. *)
Definition zero_file : VfsFile unit :=
  mkVfsFile (FileOps_with (Some (fun buf => mret (len buf, replicate (length buf) 0))) (Some (fun buf => mret (len (take 1 buf)))) None None None None)
    (mkDentry [] (mkVfsInode 1 0x81ed 0 0 0 0 1)) 0 2.

Definition page_devs : World unit := mkWorld () [0].

Definition init_task : Task unit := mkTask None [] Running (mkMemorySet [] 0) ex_context 0 [zero_file].

(** Init with one page at [0x10000000], the string "/" at offset 16. *)
Definition page_kernel (ids : IdAlloc) : outcome (Kernel unit BuddyAllocator) :=
  '(m, h, a) ← AddressSpaceManager_new page_heap page_buddy;
  '(r, h, a, m) ← AddressSpaceManager_create_user_address_space h a m 1;
  _ ← (match r with Ok _ => mret tt | Err _ => Panic end);
  '(r, k) ← memory_call (mkKernel (mkTasks [(1, init_task)] (Some 1) (Some 1)) ids (mkW h a m))
    (fun w sets tid => mmap w sets tid 0x10000000 4096 3 (Z.lor MmapFlags_ANONYMOUS MmapFlags_FIXED_NOREPLACE) (-1) 0);
  w ← user_stores (kn_world k) 1 0x10000010 [47];
  mret (with_world k w).

(** A frame for a call with these arguments. *)
Definition call_frame (number : Z) (args : list Z) : list Z := replicate 10 0 ++ args ++ replicate (7 - length args) 0 ++ [number] ++ replicate 14 0.

Lemma call_regs number args : (length args <=? 7)%nat && forallb (fun x => (0 <=? x) && (x <? 2 ^ 64)) (number :: args) = true ->
  regs_ok 0x1000 (call_frame number args).
Proof.
  intros [Hl%Nat.leb_le H]%andb_true_iff. split; [lia|]. unfold call_frame. split; [rewrite !length_app, !length_replicate; cbn; lia|].
  assert (Hz : forall n, Forall (fits 64) (replicate n 0)) by (intros n; apply Forall_replicate; unfold fits; lia).
  cbn [forallb] in H. apply andb_true_iff in H as [Hn H]. repeat apply Forall_app_2; try done.
  - apply Forall_forall. intros x Hx. apply list_elem_of_In in Hx. rewrite forallb_forall in H. specialize (H x Hx). unfold fits. lia.
  - constructor; [unfold fits; lia|constructor].
Qed.

Definition page_mapping : UserMapping := mkMapping 0x10000000 [mkFrame 8396800 4096] 214.

#[local] Instance frame_eq : EqDecision Frame.
Proof. solve_decision. Defined.

#[local] Instance mapping_eq : EqDecision UserMapping.
Proof. solve_decision. Defined.

Lemma page_accessible write va n : 0x10000000 <= va -> va + n <= 0x10001000 -> accessible write [page_mapping] va n.
Proof.
  intros H1 H2 x Hx. exists page_mapping. split; [|by destruct write]. unfold mapping_at. cbn [List.find].
  replace (in_mapping page_mapping x) with true; [done|]. symmetry. unfold in_mapping, m_end. cbn. lia.
Qed.

(** The page, the string and a null pointer. *)
Definition page_ready (ids : IdAlloc) : bool :=
  match page_kernel ids with
  | Ret k =>
      let h := w_heap (kn_world k) in
      bool_decide (task_table <$> om_get 1 (t_map (kn_tasks k)) = Some [page_mapping]) &&
      bool_decide (byte_at h 8396816 = Some 47) && bool_decide (byte_at h 8396817 = Some 0) && bool_decide (h !! 8396832 = Some 0)
  | Panic => false
  end.

Lemma page_ready_ok ids : page_ready ids = true.
Proof. vm_compute. reflexivity. Qed.

Lemma page_kernel_ok : exists free (k : Kernel unit BuddyAllocator) task, kernel_ok [] free k /\ t_current (kn_tasks k) = Some 1 /\
  om_get 1 (t_map (kn_tasks k)) = Some task /\ task_table task = [page_mapping] /\ t_fd_table task = [zero_file] /\
  byte_at (w_heap (kn_world k)) 8396816 = Some 47 /\ byte_at (w_heap (kn_world k)) 8396817 = Some 0 /\ w_heap (kn_world k) !! 8396832 = Some 0.
Proof.
  destruct first_tid as (ids & free & Hids & Hf). pose proof (page_ready_ok ids) as Hr. unfold page_ready in Hr.
  destruct (page_kernel ids) as [k|] eqn:E; [|done]. rewrite !andb_true_iff, !bool_decide_eq_true in Hr. destruct Hr as [[[Ht Hb1] Hb2] Hw]. unfold page_kernel in E.
  apply outcome_bind_inv in E as ([[m h] a] & E1 & E). apply outcome_bind_inv in E as ([[[r h1] a1] m1] & E2 & E).
  destruct r as [[]|e]; [|done]. rewrite outcome_bind_Ret in E.
  destruct (boot_minv page_heap page_buddy m h a h1 a1 m1 page_rep E1 E2) as (abs0 & sh & I).
  assert (Hn : new_task None init_task) by (split; [|split]; reflexivity).
  pose proof (init_kernel abs0 sh (mkW h1 a1 m1) init_task ids free I Hn eq_refl Hids Hf) as Hk.
  destruct (mmap_kernel [] free _ 1 init_task 0x10000000 4096 3 (Z.lor MmapFlags_ANONYMOUS MmapFlags_FIXED_NOREPLACE) (-1) 0 Hk eq_refl eq_refl)
    as (r & k1 & ms & E3 & Hk1 & Et & _); [lia|lia|vm_compute; reflexivity|intros H; discriminate H|intros H; discriminate H|].
  rewrite E3, outcome_bind_Ret in E. apply outcome_bind_inv in E as (w & E4 & E). injection E as <-.
  assert (Eg : om_get 1 (t_map (kn_tasks k1)) = Some (set_memory init_task ms)) by (by rewrite Et). cbn [kn_tasks kn_world with_world] in *.
  rewrite Eg in Ht. injection Ht as Ht.
  destruct (user_stores_kernel [] free k1 1 _ 0x10000010 [47] Hk1 ltac:(by rewrite Et) Eg) as (w' & E5 & Hk2 & _); [|repeat constructor; lia|].
  { unfold task_table in Ht |- *. cbn [set_memory t_memory_set] in *. rewrite Ht. by apply page_accessible. }
  rewrite E5 in E4. injection E4 as ->. exists free, (with_world k1 w), (set_memory init_task ms). cbn [kn_tasks with_world kn_world].
  split; [done|]. split; [by rewrite Et|].
  split; [exact Eg|]. split; [exact Ht|]. split; [reflexivity|]. split; [exact Hb1|]. split; [exact Hb2|exact Hw].
Qed.

Lemma page_stack_clear : stack_clear [page_mapping].
Proof. constructor; [left; vm_compute; discriminate|constructor]. Qed.

Lemma read_call_witness : exists (m m' : Machine unit BuddyAllocator) trie, trap_handler ex_manager ex_vfs trie 4 Exception_U_MODE_ECALL 0x1000 0 0
  (call_frame Syscall_READ [0; 0x10000100; 4]) m = Ret (Resume (<[A0_INDEX := 4]> (call_frame Syscall_READ [0; 0x10000100; 4])) 0x1004, None, m').
Proof.
  destruct page_kernel_ok as (free & k & task & Hk & Hc & Eg & El & Ef & _). destruct (@default_holds (Machine unit BuddyAllocator)) as (trie & _ & _).
  set (frame := call_frame Syscall_READ [0; 0x10000100; 4]).
  destruct (read_call ex_manager ex_vfs trie 4 0 0 [] free (mkMachine k page_devs) 1 task 0x1000 frame Hk Hc Eg
    (call_regs Syscall_READ [0; 0x10000100; 4] eq_refl) (Ok (4, [0; 0; 0; 0])) (mkWorld () [4])) as (value & m' & E & H).
  - reflexivity.
  - intros _. rewrite El. split; [by apply page_accessible|]. split; [|split; [split; vm_compute; discriminate|split; [vm_compute; discriminate|repeat constructor; vm_compute; try discriminate]]].
    unfold read_fd, file_for_fd. cbn [mc_kernel]. rewrite Hc. cbn. rewrite Eg. cbn. rewrite Ef. unfold user_slice. rewrite Hc. reflexivity.
  - exists (mkMachine k page_devs), m', trie. rewrite E. destruct H as (_ & _ & _ & H). rewrite El in H. by destruct H as (_ & -> & _).
Defined.

Lemma write_call_witness : exists (m m' : Machine unit BuddyAllocator) trie, trap_handler ex_manager ex_vfs trie 4 Exception_U_MODE_ECALL 0x1000 0 0
  (call_frame Syscall_WRITE [0; 0x10000010; 4]) m = Ret (Resume (<[A0_INDEX := 1]> (call_frame Syscall_WRITE [0; 0x10000010; 4])) 0x1004, None, m').
Proof.
  destruct page_kernel_ok as (free & k & task & Hk & Hc & Eg & El & Ef & _). destruct (@default_holds (Machine unit BuddyAllocator)) as (trie & _ & _).
  destruct (write_call ex_manager ex_vfs trie 4 0 0 [] free (mkMachine k page_devs) 1 task 0x1000 (call_frame Syscall_WRITE [0; 0x10000010; 4]) Hk Hc Eg
    (call_regs Syscall_WRITE [0; 0x10000010; 4] eq_refl) (Ok 1) (mkWorld () [1])) as [E _].
  - reflexivity.
  - intros _. rewrite El. split; [by apply page_accessible|]. split; [|split; vm_compute; discriminate].
    unfold write_fd, file_for_fd. cbn [mc_kernel]. rewrite Hc. cbn. rewrite Eg. cbn. rewrite Ef. unfold user_slice. rewrite Hc. reflexivity.
  - exists (mkMachine k page_devs), (mkMachine k (mkWorld () [1])), trie. rewrite E. rewrite El. reflexivity.
Defined.





Lemma wait4_call_witness : exists (m m' : Machine unit BuddyAllocator) trie e, trap_handler ex_manager ex_vfs trie 4 Exception_U_MODE_ECALL 0x1000 0 0
  (call_frame Syscall_WAIT4 [2 ^ 64 - 1; 0x10000100; 1; 0x10000200]) m = Ret (e, None, m').
Proof.
  destruct page_kernel_ok as (free & k & task & Hk & Hc & Eg & El & Ef & _). destruct (@default_holds (Machine unit BuddyAllocator)) as (trie & _ & _).
  destruct (wait4_call ex_manager ex_vfs trie 4 0 0 [] free (mkMachine k page_devs) 1 task 0x1000
    (call_frame Syscall_WAIT4 [2 ^ 64 - 1; 0x10000100; 1; 0x10000200]) Hk Hc Eg
    (call_regs Syscall_WAIT4 [2 ^ 64 - 1; 0x10000100; 1; 0x10000200] eq_refl)) as (value & m' & E & _).
  - reflexivity.
  - reflexivity.
  - split; [vm_compute; discriminate|]. intros _ _. rewrite El. split; [by apply page_accessible|reflexivity].
  - split; [vm_compute; discriminate|]. intros _ _. rewrite El. split; [by apply page_accessible|reflexivity].
  - exists (mkMachine k page_devs), m', trie. eexists. exact E.
Defined.

(** An ELF file is its own program. *)
Lemma page_leads : exists dw dw', leads ex_vfs 0 page_devs (bytes_str [47]) [] dw (bytes_str [47]) [] /\
  read_file ex_vfs (bytes_str [47]) dw = Ret (Ok (Some ex_file), dw').
Proof. eexists _, _. split; [eapply leads_elf; [vm_compute; reflexivity|by eexists]|vm_compute; reflexivity]. Qed.

Lemma page_args : Forall bytes [] /\ Forall bytes [] /\ initial_stack_size [] [] (auxv_of ex_elf [ex_ph]) = Ret 128.
Proof. split; [constructor|]. split; [constructor|]. vm_compute. reflexivity. Qed.

Lemma execve_call_witness : exists free (m m' : Machine unit BuddyAllocator) trie e, BINFMTS = Ret trie /\
  trap_handler ex_manager ex_vfs trie 4 Exception_U_MODE_ECALL 0x1000 0 0 (call_frame Syscall_EXECVE [0x10000010; 0x10000020; 0x10000020]) m = Ret (e, None, m') /\
  kernel_ok [] free (mc_kernel m').
Proof.
  destruct page_kernel_ok as (free & k & task & Hk & Hc & Eg & El & Ef & Hb1 & Hb2 & Hw). destruct (@default_holds (Machine unit BuddyAllocator)) as (trie & Ht & _).
  destruct page_leads as (dw & dw' & Hl & Hr).
  assert (Hs : user_strings [page_mapping] (w_heap (kn_world k)) 0x10000020 []).
  { apply (strings_end _ _ _ 8396832); [reflexivity|lia|by apply page_accessible|reflexivity|exact Hw]. }
  destruct (execve_call ex_manager ex_vfs trie 4 0 0 [] free (mkMachine k page_devs) 1 task 0x1000 (call_frame Syscall_EXECVE [0x10000010; 0x10000020; 0x10000020]) Hk Hc Eg
    (call_regs Syscall_EXECVE [0x10000010; 0x10000020; 0x10000020] eq_refl) [47] [] [] 0 dw (bytes_str [47]) [] dw' ex_file ex_elf [ex_ph] 128) as (e & m' & E & Hk' & _).
  - reflexivity.
  - exact Ht.
  - rewrite El. split; [vm_compute; discriminate|]. split; [reflexivity|]. split; [repeat constructor; lia|]. split; [by apply page_accessible|].
    intros [|[|i]] b Hi; [injection Hi as <-; exact Hb1|injection Hi as <-; exact Hb2|discriminate Hi].
  - split; [repeat constructor; lia|]. split; [vm_compute; discriminate|reflexivity].
  - rewrite El. exact Hs.
  - constructor.
  - rewrite El. exact Hs.
  - constructor.
  - cbn. lia.
  - cbn. lia.
  - lia.
  - exact Hl.
  - exact Hr.
  - exact ex_image.
  - exact page_args.
  - exists free, (mkMachine k page_devs), m', trie, e. split; [exact Ht|]. split; [exact E|exact Hk'].
Defined.

Lemma machine_invariant_witness : exists (m0 m : Machine unit BuddyAllocator) trie free, BINFMTS = Ret trie /\
  machine_step ex_manager ex_vfs trie 4 m0 m /\ kernel_ok [] free (mc_kernel m).
Proof.
  destruct page_kernel_ok as (free & k & task & Hk & Hc & Eg & _). destruct (@default_holds (Machine unit BuddyAllocator)) as (trie & Ht & _).
  set (m0 := mkMachine k page_devs). pose proof (call_regs 0 [7] eq_refl) as Hregs.
  assert (Hs : exists m, machine_step ex_manager ex_vfs trie 4 m0 m).
  { destruct (goes_on_trap ex_manager ex_vfs trie 4 0 0 [] free m0 1 task 0x1000 (call_frame 0 [7]) Hk Hc Eg Hregs (2 ^ 63 + 5) Ht) as (e & p & m & E & _).
    - intros H. discriminate H.
    - exists m. apply (machine_trap _ _ _ _ m0 1 task (2 ^ 63 + 5) 0x1000 0 0 (call_frame 0 [7]) e p m Hc Eg Hregs); [|exact E]. intros H. discriminate H. }
  destruct Hs as (m & Hs). destruct (machine_invariant ex_manager ex_vfs trie 4 [] free m0 m) as ([free' Hk'] & _).
  - exact Ht.
  - exact Hk.
  - exists 1. exact Hc.
  - apply rtc_once. exact Hs.
  - exists m0, m, trie, free'. split; [exact Ht|]. split; [exact Hs|exact Hk'].
Defined.
